(* ===== verification/_CoqProject ===== *)
-Q . S2P
Prelude.v
Text.v
Api.v
Sorting.v
Effects.v
Locks.v
Invoice.v
Receiving.v
Payment.v
Lifecycle.v
Pricing.v
Intent.v
Readers.v
Registry.v
Database.v
OutboxStore.v
OutboxExec.v
OutboxWorker.v
CreateInvoice.v
PaymentRecord.v
Crypto.v
Observations.v
Settlement.v
LifecycleStore.v
Drains.v
DrainProgress.v
DrainProps.v
Status.v
Adapter.v
AdapterProps.v
DrainService.v
Creators.v
Allocation.v
Provider.v
Allocated.v
AllocationProps.v
InvoiceService.v
Targets.v
ProviderProps.v
MarketTerms.v
MarketStore.v
MarketObserve.v
MarketStatus.v
MarketService.v
MarketRoutes.v
MarketProps.v
MarketLifecycle.v
MarketReplay.v
MarketActivation.v
MarketJudged.v
MarketGate.v
MarketExample.v
Usdt.v
UsdtVerified.v
UsdtScan.v
UsdtObserve.v
UsdtCredit.v
UsdtSystem.v
UsdtExample.v
Rotation.v
RotationClosing.v
RotationProps.v
Tally.v
Limits.v
Auth.v
Setup.v
SetupProps.v
SetupRoutes.v
Config.v
ConfigProps.v
BitkitClaim.v
Allowances.v
AllowanceProps.v
Observer.v
Runtime.v
BuyerContacts.v
WorkerTasks.v
WorkerLoops.v
Sessions.v
Connections.v
