(* ===== verification/Prelude.v ===== *)
(** * Paykit Server: a verification development

    ** The program

    Paykit Server ([src/paykit-server/src]) turns a content lock into a payment: a
    Creator connects a wallet, a Reader asks for an invoice, the server prices it,
    sends a Payment Request through the Paykit SDK, watches the Bitcoin chain and
    USDT receipts, and reports what was paid.  Its parts and how they interact:

    - value types of the domain ([domain/]) and the pricing of an invoice
      ([application/invoice_pricing.rs]) are pure and used by everything else;
    - invoice admission ([application/create_invoice.rs]) checks a request against
      the lock, the Reader and the exchange rate and starts one transaction, which
      stores an invoice, its accounting record and an outbox row;
    - the outbox ([persistence/outbox.rs]) holds delivery intents
      ([application/semantic_intent.rs]); workers ([workers/outbox.rs]) claim rows
      under a lease, hand each to the SDK once and reconcile it until it is sent;
      drains, rotations and Marketplace activations write the same table;
    - the SDK's snapshots of Payment Requests are projected on durable lifecycle rows
      ([persistence/payment_request_lifecycles.rs]), which drains and rotations read;
    - the adapter of the SDK ([paykit.rs]) receives, projects, sends and drains for
      one Creator at a time, under that Creator's mutation lock; concurrent status
      requests share one receive ([paykit/payment_status.rs]);
    - a drain ([persistence/payment_drains.rs]) freezes one generation of a lock: it
      fences new invoices and proposals, cancels what is only proposed, waits for
      what was accepted and then opens the next generation;
    - the observer asks for its targets and feeds chain facts to the payment tables
      ([persistence/invoices.rs] and [persistence/invoices/]), which project them on
      the invoice; the status routes read that projection back;
    - a USDT payer submits proofs with the request; the verifier ([usdt.rs]) checks the
      attestation and asks an Arbitrum node, on a bounded schedule, and the stores
      ([persistence/invoices/usdt.rs], [persistence/marketplace_preparations/usdt.rs])
      record, refresh or clear the receipts;
    - the provider contract ([application/provider_v2.rs],
      [persistence/invoices/provider_v2.rs]) creates invoices with its own threshold and
      deadline and samples their payments;
    - the Marketplace ([application/marketplace_*.rs],
      [persistence/marketplace_preparations.rs]) prepares an invoice, activates or voids it,
      settles it on both rails and records its business outcome;
    - the creator store ([persistence/creators.rs]) keeps the credentials all of this
      acts under, and replaces a Creator's Bitcoin account;
    - a wallet connects through a setup flow ([setup.rs], [http/setup.rs]), whose answer is
      the wallet's signed claim ([bitkit_claim.rs]);
    - service routes are signed and rate limited ([http/auth.rs], [http/client_ip.rs]); the
      configuration ([config.rs]) fixes the limits and keys of all of them;
    - next to the outbox, workers take in the Allowances readers propose
      ([paykit/allowances.rs]) and save buyers who paid as contacts
      ([paykit/buyer_contacts.rs]); [server.rs] starts every worker: it gives each Creator's
      outbox its task, keeps the turns of the loops and tells readiness what they saw;
    - [server.rs] also validates Creator sessions and fetches locks; what a Creator or a
      Reader still lacks is told by the setup and connection status routes;
    - the runtime ([runtime.rs]) admits requests, reports readiness and stops the process;
    - private columns are envelopes and keyed hashes ([crypto.rs]).

    ** Files

    - [Prelude]: widths, the [Result] type and its notation, comparisons and
      maxima, the tactics [inv_ok], [split_bools], [case_in] and the hint database;
    - [Text]: strings of bytes, decimal printing and parsing, the order of [str];
    - [Sorting]: the stable sort of rows; [Tally]: sums over tables; [Api]: [http/error.rs];
    - [Effects]: programs over external calls, their executions and logs;
    - [Locks], [Invoice], [Receiving], [Payment], [Lifecycle]: [domain/locks.rs],
      [domain/invoice.rs], [domain/receiving.rs], [domain/payment.rs] with
      [domain/provider_v2.rs], [domain/payment_request_lifecycle.rs];
    - [Pricing]: [application/invoice_pricing.rs], with 256-bit wrap-around written
      out; [Intent]: [application/semantic_intent.rs]; [Readers]:
      [application/reader_registry.rs];
    - [Database]: the tables and constraints of [migrations/] the outbox statements
      use; [OutboxStore]: every method of [persistence/outbox.rs] and the statements
      of [creators.rs], [payment_drains.rs], [marketplace_preparations.rs] and
      [invoices.rs] that write the table; [OutboxExec]: the same methods as steps
      of one system; [OutboxWorker]: [workers/outbox.rs] and the claimed handoff of
      [paykit.rs], as programs, with the class [StoreHandler] between the worker and
      the store;
    - [CreateInvoice]: [CreateInvoiceService::create] as a program;
      [PaymentRecord]: [InvoicePaymentRecordV1] of [persistence/invoices.rs];
    - [Crypto]: [crypto.rs]; [Observations]: [DirectBinding] of [bitcoin.rs], the
      observation transaction and batch of [persistence/invoices.rs], the projection
      of [invoices/settlement.rs], the receipts of [invoices/usdt.rs] and the sample
      of [invoices/provider_v2.rs]; [Settlement]: these transactions as steps of one
      system, and their theorems;
    - [LifecycleStore]: [persistence/payment_request_lifecycles.rs] on the tables of
      [Database], and its theorems;
    - [Registry]: the tables of weak pointers behind the mutation locks of [paykit.rs]
      and the coalesced receives of [paykit/payment_status.rs], as step systems;
    - [Drains]: [persistence/payment_drains.rs] and the receive-target queries;
      [DrainProgress]: what every other component may do to a frozen drain;
      [DrainProps]: the theorems on drains;
    - [Status]: the status queries of [persistence/invoices.rs], [invoices/usdt.rs]
      and the services of [application/payment_request_status.rs] and
      [application/payment_status.rs];
    - [Adapter]: the methods of [paykit.rs] as programs over the SDK, the drain
      service of [application/payment_drain.rs] and [server.rs], and the routes of
      [http/payment_drains.rs]; [AdapterProps], [DrainService]: its theorems, alone and
      composed with the stores;
    - [Creators]: the credentials of [persistence/creators.rs] and the account tables;
      [Rotation]: its account rotation; [RotationClosing]: the statements of that
      transaction; [RotationProps]: the theorems and a run;
      [Allocation]: the creation transaction, preflight and replay lookup of
      [persistence/invoices.rs]; [AllocationProps]: their theorems; [InvoiceService]:
      [CreateInvoice] run against that store; [Targets]: the observation targets of
      [persistence/invoices.rs] and the integrity scan;
    - [Provider]: the provider contract's service, transaction, samples and status;
      [Allocated]: the part of the creation transaction both contracts share;
      [ProviderProps]: its theorems;
    - [MarketTerms]: [application/marketplace_terms.rs]; [MarketStore]: prepare, activate,
      void and resolve of [persistence/marketplace_preparations.rs]; [MarketObserve]: its
      Bitcoin and USDT observations; [MarketStatus]: its status snapshot; [MarketService],
      [MarketRoutes]: [application/marketplace_*.rs] and [http/marketplace_*.rs];
      [MarketProps]: the invariant of the tables; [MarketLifecycle]: the abstract invoice and
      the refinement; [MarketReplay], [MarketActivation], [MarketJudged], [MarketGate]: the
      theorems on replays, activations, statuses and the preparation service;
      [MarketExample]: a run prepared, activated and paid, for the witnesses;
    - [Usdt]: attestations, candidates and the verifier of [usdt.rs]; [UsdtVerified]: what a
      verified transfer says; [UsdtScan]: its schedule of scans; [UsdtObserve]:
      [observe_usdt_request] of both stores; [UsdtCredit]: what a credited receipt rests on;
      [UsdtSystem]: the observers run against the tables; [UsdtExample]: a paid request, for
      the witnesses;
    - [Limits]: the limiters of [setup.rs] and [http/auth.rs]; [Auth]: [http/auth.rs] and
      [http/client_ip.rs];
    - [Setup]: the critical sections of [setup.rs] and its tasks as one step system;
      [SetupProps]: the theorems and a run; [SetupRoutes]: the
      queries, answers, escapes and wallet links of [http/setup.rs];
    - [Config]: [config.rs] and what [server.rs] and [http/auth.rs] derive from it;
      [ConfigProps]: its theorems, with the limiters, the setup flows and the signed routes;
    - [BitkitClaim]: [bitkit_claim.rs];
    - [Allowances]: [paykit/allowances.rs], [persistence/invoices/readers.rs],
      [workers/creator_tasks.rs] and the intake loop of [server.rs]; [AllowanceProps]: its
      theorems;
    - [Observer]: the rounds of [workers/observer.rs], against the stores of [Observations]
      and [MarketObserve];
    - [Runtime]: [runtime.rs], every access to shared state a step of its own;
    - [BuyerContacts]: both files [buyer_contacts.rs] and their loop, as a step system;
    - [WorkerTasks]: the task of one Creator's outbox and the retry schedule of [server.rs];
      [WorkerLoops]: the turns of its loops (enqueue, reconciliation, lifecycles, transport
      maintenance, observer) and what they report to readiness;
    - [Sessions]: the session validator, the lock fetch and the discovery of a Reader in
      [server.rs], and the setup status of [application/setup_status.rs] and its route;
      [Connections]: [application/connection_status.rs], its reads and its route.

    ** What the theorems show

    - Outbox: in every interleaving the rows are well formed, each row follows the
      abstract delivery protocol [delivery_step], a handoff happens once, outcomes
      are permanent, a superseded claim is dead ([OutboxExec]); claims are exclusive,
      oldest first and fenced by drains, and every method is fenced by its token
      ([OutboxStore]); a claim hands the SDK at most one message, and links and hands over
      only right after it was seen alive, delivery is recorded only for what was sent, and a
      transient failure is only ever retried ([OutboxWorker]).
    - Admission: the transaction is started only for a request all of whose checks
      passed in this run, every wait is bounded, quotes narrow the windows, the
      payload of a child index is valid ([CreateInvoice]); the accounting record asks
      for exactly what the Reader is asked ([PaymentRecord]); the transaction is
      idempotent, never assigns a child index twice, is fenced by drains and stores
      what reads back ([AllocationProps]); retrying a whole request is safe
      ([InvoiceService]) and what it stores passes the integrity scan ([Targets]).
    - Drains: a creation freezes exactly its generation, a replay never fails and only
      moves forward, a created drain completes once its items are settled, only its token
      removes it, where the database collates bytewise
      ([DrainProps]); the adapter creates one only after every open request's Reader
      was heard in that run ([AdapterProps], [DrainService]).
    - Adapter: mutations of a Creator are exclusive, shared receives are fresh and
      strand nobody ([Registry]); one failing record or peer never hides another, and
      what was proposed is what comes back ([AdapterProps], [DrainService]).
    - Status: the query ranks as the domain aggregates, and reports the projection
      ([Status]); expiry is exact and no payable invoice goes unwatched ([Targets]).
    - Creators: credentials round-trip and authority only moves forward ([Creators]); a
      rotation retires exactly the old account and fences what could still be issued for it
      ([RotationProps]).
    - Setup: an authorization is handed over at most once and its outcome reported truly,
      permits and polls stay within their limits, no waiting poll is stranded
      ([SetupProps]); queries are read exactly and page texts are inert ([SetupRoutes]);
      a claim is accepted only when the Creator signed it for this request ([BitkitClaim]).
    - Access: the token bucket is exact and the setup limiter bounded ([Limits]); a signed
      route sees only authenticated requests, and clients cannot choose the address they
      are limited by ([Auth]); an accepted configuration meets what these components rely
      on ([ConfigProps]).
    - Allowances: while the same Creators are ready they take turns fairly, the reads of a
      reader are spaced by what they cost, and a pass reads and accepts only what it may ([AllowanceProps]).
    - Observer: a round applies exactly what the answer shows of its targets, and only what
      it validated ([Observer]).
    - Buyer contacts: a contact is saved only for work that still waits, and never again
      once the work is complete ([BuyerContacts]).
    - Worker tasks: a task of the outbox claims only under the Creator's fence and lock, settles
      its claim once, sends only after a recorded transition and releases the fence last
      ([WorkerTasks]); a transport pass visits every Creator once and no more at a time than
      allowed, hints survive a running pass, readiness is exact ([WorkerLoops]).
    - Sessions: a session is accepted only after every check, a lock is fetched within its
      bounds, a Creator is called ready only when its requirements were met ([Sessions]); a
      shared connection read is never older than the request it answers ([Connections]).
    - Runtime: the permits balance, nothing more passes the check once shutdown began, and nobody
      who waits for the end is stranded ([Runtime]).
    - Provider contract: creation is idempotent and gated by its deadline, its status reports
      stored evidence, the two contracts exclude each other ([ProviderProps]).
    - Marketplace: every interleaving refines the abstract lifecycle of an invoice and keeps
      the tables consistent; preparations and activations replay exactly, an activation
      publishes exactly what was prepared, the status is sound, and a preparation starts its
      transaction only after every check passed.
    - USDT: a receipt is credited only for a transfer the node showed in that run, to the
      owner's address, from an account that attested this request ([UsdtCredit],
      [UsdtVerified]); the schedule is bounded and hands out every transfer ([UsdtScan]);
      observations keep the tables consistent ([UsdtSystem]).
    - Pricing: quotes are exact ceilings at the published rate, rates are the
      half-even reciprocal and round-trip through their text, no operation wraps.
    - Payments: the tables stay consistent, recorded evidence is permanent, a final
      output is immutable, an observation is projected exactly, timeliness needs a
      sufficient output by the deadline, the best receipt is chosen ([Settlement]);
      provider evidence qualifies ([Payment], [Settlement]).
    - Lifecycles: a snapshot is attributed only to the owner of a stored proposal with
      its exact terms, rows only advance, transitions are justified by cursors, applying
      is idempotent ([LifecycleStore]).
    - Storage: associated data is injective, envelopes round-trip, lookups are
      separated by domain ([Crypto]).
    - Domain: canonical spellings, amount and window parsing, order-independent
      aggregation of lifecycles, validity of every constructed intent.

    ** Modelling choices

    A string is its UTF-8 bytes, a machine integer a [Z] with its bounds or
    wrap-around explicit, a UUID the 128-bit [N] that PostgreSQL orders it by, an
    instant a [Z] of nanoseconds.  A [Result] is [result E A]; a database method is a
    function of the tables, the clock read once, and the identifiers it generates,
    and returns the tables after it, so an error or a rollback shows as unchanged
    tables.  Methods interleave as whole steps because each runs under the row lock
    of its [FOR UPDATE]; [SKIP LOCKED] is an arbitrary set of locked rows.
    Asynchronous services are program trees whose calls may answer anything
    ([Effects]); they are well founded, so they terminate on every answer, and
    bounded retries are structural recursion.  Fuel is only in [Text.dec_digits] (decimal
    printing, [log2 n + 1] steps, enough by [fmt_dec_value]), [Usdt.hex_digits] (sixteen
    digits, enough for a [u64]), the splitting of a transfer's identity at colons (its
    length) and [BuyerContacts.drop_forms] (the length of the text, enough by
    [drop_forms_done]).

    Packages outside the repository are classes: [LocksCore], [ContentLocks],
    [PaykitLib], [Bip32], [CryptoPrimitives], [ObservationCodec], [IdentityKeys],
    [CredentialCodec], [AllocationCodec], [PreparationCodec], [Alloy], [Secp256k1],
    [UrlSafeBase64], [BitcoinAddresses], and function parameters for serde, postcard, TOML,
    URLs, [time], [blake3], Ed25519 and the ciphers of the wallet; where a theorem needs
    their documented behaviour it is a law class, or a hypothesis, with a concrete instance
    in the witnesses.  The SDK's calls are constructors of the adapter's call type and may
    answer anything.

    ** Not modelled

    - Sockets, SQL planning and outages: an outage is the caller's error branch.
    - The SDK, the Electrum and Arbitrum clients and the relay themselves: packages outside
      the repository.  The wallet handshake over them ([real_setup.rs],
      [setup_orchestration.rs], [bitkit_setup.rs]) is the completer of [Setup], which may
      answer anything.
    - HTTP routing and JSON bodies (axum, serde) beyond the handlers named above, the setup
      page's template and its QR code.
    - The wiring and the timers of [server.rs]: the turns of its loops and their tasks are
      modelled, the intervals between them, the order in which a [select] looks at its
      branches and the abort of intake passes left at shutdown are not.
    - Diagnostics and metrics, which have no effect on the program's state; the
      demonstration Reader, the examples and the end-to-end crate, which are clients of the
      server. *)

From stdpp Require Export prelude gmap strings list sorting.
From Stdlib Require Export ZArith Lia Ascii.

(** ** Machine widths

    The server keeps amounts in [u64], confirmation counts in [u32] and [u8],
    PostgreSQL counters in [i32]/[i64], and prices in 256-bit words.  A value of
    width [w] is a [Z]; the bounds below are the ones the code tests or relies
    on. *)

Definition u8_max : Z := 255.

Definition u32_max : Z := 4294967295.

Definition u64_max : Z := 18446744073709551615.

Definition i32_max : Z := 2147483647.

Definition i64_max : Z := 9223372036854775807.

Definition u256_modulus : Z := (2 ^ 256)%Z.

Definition in_u64 (x : Z) : bool := ((0 <=? x) && (x <=? u64_max))%Z.

(** ** Fallible code: the [Result] type of the source *)

Inductive result (E A : Type) : Type :=
| Ok (a : A)
| Err (e : E).
Arguments Ok {E A} a.
Arguments Err {E A} e.

#[global] Instance result_eq_dec E A `{EqDecision E, EqDecision A} :
  EqDecision (result E A).
Proof. solve_decision. Defined.

#[global] Instance result_ret E : MRet (result E) := λ A a, Ok a.

#[global] Instance result_bind E : MBind (result E) := λ A B f r,
  match r with Ok a => f a | Err e => Err e end.

#[global] Instance result_fmap E : FMap (result E) := λ A B f r,
  match r with Ok a => Ok (f a) | Err e => Err e end.

(** [ok_or] is [Option::ok_or], [map_err] is [Result::map_err], [ensure] is the
    early return [if !cond { return Err(e) }]. *)
Definition ok_or {E A} (o : option A) (e : E) : result E A :=
  match o with Some a => Ok a | None => Err e end.

Definition map_err {E F A} (f : E → F) (r : result E A) : result F A :=
  match r with Ok a => Ok a | Err e => Err (f e) end.

Definition ensure {E} (b : bool) (e : E) : result E unit :=
  if b then Ok tt else Err e.

Definition ok {E A} (r : result E A) : option A :=
  match r with Ok a => Some a | Err _ => None end.

Definition is_ok {E A} (r : result E A) : bool :=
  match r with Ok _ => true | Err _ => false end.

Definition is_err {E A} (r : result E A) : bool := negb (is_ok r).

Definition is_some {A} (o : option A) : bool :=
  match o with Some _ => true | None => false end.

Definition is_none {A} (o : option A) : bool := negb (is_some o).

(** [Iterator::collect::<Result<Vec<_>, _>>()] over a mapped sequence: the first
    error wins. *)
Fixpoint collect {E A B} (f : A → result E B) (l : list A) : result E (list B) :=
  match l with
  | [] => Ok []
  | a :: l => b ← f a; bs ← collect f l; Ok (b :: bs)
  end.

(** [Option::map(f).transpose()?] *)
Definition transpose {E A} (o : option (result E A)) : result E (option A) :=
  match o with
  | None => Ok None
  | Some (Ok a) => Ok (Some a)
  | Some (Err e) => Err e
  end.

Lemma bind_ok {E A B} (r : result E A) (f : A → result E B) b :
  (r ≫= f) = Ok b ↔ ∃ a, r = Ok a ∧ f a = Ok b.
Proof.
  destruct r as [a|e]; simpl; split.
  - eauto.
  - intros (a' & [= ->] & H). exact H.
  - discriminate.
  - intros (a' & ? & _). discriminate.
Qed.

Lemma bind_err {E A B} (r : result E A) (f : A → result E B) e :
  (r ≫= f) = Err e ↔ r = Err e ∨ ∃ a, r = Ok a ∧ f a = Err e.
Proof.
  destruct r as [a|e']; simpl; split.
  - eauto.
  - intros [?|(a' & [= ->] & H)]; [discriminate|exact H].
  - intros [= ->]. by left.
  - intros [[= ->]|(a' & ? & _)]; [done|discriminate].
Qed.

Lemma ok_or_ok {E A} (o : option A) (e : E) a : ok_or o e = Ok a ↔ o = Some a.
Proof. destruct o; simpl; naive_solver. Qed.

Lemma map_err_ok {E F A} (f : E → F) (r : result E A) a :
  map_err f r = Ok a ↔ r = Ok a.
Proof. destruct r; simpl; naive_solver. Qed.

Lemma ensure_ok {E} b (e : E) u : ensure b e = Ok u ↔ b = true.
Proof. destruct b, u; simpl; naive_solver. Qed.

Lemma ok_some {E A} (r : result E A) a : ok r = Some a ↔ r = Ok a.
Proof. destruct r; simpl; naive_solver. Qed.

Lemma fmap_ok {E A B} (f : A → B) (r : result E A) b :
  f <$> r = Ok b ↔ ∃ a, r = Ok a ∧ b = f a.
Proof. destruct r; simpl; naive_solver. Qed.

Lemma collect_ok_Forall2 {E A B} (f : A → result E B) l bs :
  collect f l = Ok bs ↔ Forall2 (λ a b, f a = Ok b) l bs.
Proof.
  revert bs. induction l as [|a l IH]; intros bs; simpl.
  - split; [intros [= <-]; constructor|by inversion 1].
  - rewrite bind_ok. setoid_rewrite bind_ok. setoid_rewrite IH. split.
    + intros (b & Hb & bs' & Hbs & [= <-]). by constructor.
    + inversion 1; simplify_eq. eauto.
Qed.

Lemma existsb_elem {A} (p : A → bool) l : existsb p l = true ↔ ∃ x, x ∈ l ∧ p x = true.
Proof. rewrite existsb_exists. by setoid_rewrite list_elem_of_In. Qed.

Lemma existsb_false_iff {A} (p : A → bool) l : existsb p l = false ↔ ∀ x, x ∈ l → p x = false.
Proof.
  rewrite <- not_true_iff_false, existsb_elem. split.
  - intros H x Hx. apply not_true_iff_false. naive_solver.
  - intros H (x & Hx & Hp). rewrite H in Hp; done.
Qed.

(** ** [Iterator::max_by_key]: the last of the greatest elements *)

Fixpoint max_from {A} (cmp : A → A → comparison) (acc : A) (l : list A) : A :=
  match l with
  | [] => acc
  | x :: l => max_from cmp (match cmp acc x with Gt => acc | _ => x end) l
  end.

Definition max_by {A} (cmp : A → A → comparison) (l : list A) : option A :=
  match l with
  | [] => None
  | x :: l => Some (max_from cmp x l)
  end.

(** A comparison that is a total order on [A]. *)
Class TotalCompare {A} (cmp : A → A → comparison) := {
  compare_eq : ∀ x y, cmp x y = Eq → x = y;
  compare_antisym : ∀ x y, cmp y x = CompOpp (cmp x y);
  compare_trans : ∀ x y z, cmp x y ≠ Gt → cmp y z ≠ Gt → cmp x z ≠ Gt;
}.

Arguments compare_eq {A} cmp {_}.
Arguments compare_antisym {A} cmp {_}.
Arguments compare_trans {A} cmp {_}.

Section max_by.
Context {A} (cmp : A → A → comparison) `{!TotalCompare cmp}.

Lemma compare_refl x : cmp x x = Eq.
Proof. pose proof (compare_antisym cmp x x) as H. destruct (cmp x x); done. Qed.

Lemma compare_total x y : cmp x y ≠ Gt ∨ cmp y x ≠ Gt.
Proof. rewrite (compare_antisym cmp x y). destruct (cmp x y); naive_solver. Qed.

Lemma max_from_spec acc l :
  max_from cmp acc l ∈ acc :: l ∧ ∀ y, y ∈ acc :: l → cmp y (max_from cmp acc l) ≠ Gt.
Proof.
  revert acc. induction l as [|x l IH]; intros acc; simpl.
  - split; [by apply list_elem_of_singleton|]. intros y ->%list_elem_of_singleton. by rewrite compare_refl.
  - set (acc' := match cmp acc x with Gt => acc | _ => x end).
    destruct (IH acc') as [Hin Hmax].
    assert (cmp acc acc' ≠ Gt ∧ cmp x acc' ≠ Gt ∧ (acc' = acc ∨ acc' = x)) as (Ha & Hx & Hor).
    { unfold acc'. pose proof (compare_antisym cmp acc x) as Ha.
      destruct (cmp acc x) eqn:E; rewrite ?compare_refl, ?Ha, ?E; naive_solver. }
    split.
    { destruct Hor as [->| ->]; rewrite !elem_of_cons in *; naive_solver. }
    intros y [->|[->|Hy]%elem_of_cons]%elem_of_cons.
    + eapply (compare_trans cmp); [exact Ha|]. apply Hmax. rewrite elem_of_cons. naive_solver.
    + eapply (compare_trans cmp); [exact Hx|]. apply Hmax. rewrite elem_of_cons. naive_solver.
    + apply Hmax. rewrite elem_of_cons. naive_solver.
Qed.

Lemma max_by_spec l r :
  max_by cmp l = Some r ↔ r ∈ l ∧ ∀ y, y ∈ l → cmp y r ≠ Gt.
Proof.
  destruct l as [|x l]; simpl.
  { split; [done|]. intros [H _]. by apply not_elem_of_nil in H. }
  destruct (max_from_spec x l) as [Hin Hmax]. split; [by intros [= <-]|].
  intros [Hr Hr']. f_equal. apply (compare_eq cmp).
  specialize (Hmax _ Hr). specialize (Hr' _ Hin).
  rewrite (compare_antisym cmp r) in Hr'. destruct (cmp r _) eqn:E; simpl in *; try done.
  by rewrite (compare_antisym cmp r), E.
Qed.

Lemma max_by_permutation l l' : l ≡ₚ l' → max_by cmp l = max_by cmp l'.
Proof.
  intros Hp. destruct (max_by cmp l) as [r|] eqn:E.
  - symmetry. apply max_by_spec in E. apply max_by_spec. by setoid_rewrite <- Hp.
  - destruct l; [|done]. by apply Permutation_nil in Hp as ->.
Qed.

End max_by.

(** Lexicographic combination, [Ordering::then_with]. *)
Definition then_with (c d : comparison) : comparison :=
  match c with Eq => d | _ => c end.

(** The derived [Ord] of [bool]. *)
Definition bool_compare (a b : bool) : comparison :=
  match a, b with false, true => Lt | true, false => Gt | _, _ => Eq end.

(** A comparison that is a total preorder: ties need not be equal. *)
Class PreCompare {A} (cmp : A → A → comparison) := {
  pre_antisym : ∀ x y, cmp y x = CompOpp (cmp x y);
  pre_trans : ∀ x y z, cmp x y ≠ Gt → cmp y z ≠ Gt → cmp x z ≠ Gt;
}.

Arguments pre_antisym {A} cmp {_}.
Arguments pre_trans {A} cmp {_}.

#[global] Instance bool_precompare : PreCompare bool_compare.
Proof. split; [by intros [] []|by intros [] [] []]. Qed.

#[global] Instance Z_precompare : PreCompare Z.compare.
Proof. split; [intros x y; apply Z.compare_antisym|]. intros x y z. rewrite !Z.compare_le_iff. lia. Qed.

Lemma precompare_pullback {A B} (f : A → B) (cmp : B → B → comparison) `{!PreCompare cmp} :
  PreCompare (λ x y, cmp (f x) (f y)).
Proof. split; [intros x y; apply (pre_antisym cmp)|intros x y z; apply (pre_trans cmp)]. Qed.

(** Lexicographic combinations of preorders are preorders. *)
Lemma precompare_then {A} (c d : A → A → comparison) `{!PreCompare c, !PreCompare d} :
  PreCompare (λ x y, then_with (c x y) (d x y)).
Proof.
  split.
  - intros x y. unfold then_with. rewrite (pre_antisym c x y), (pre_antisym d x y). by destruct (c x y).
  - intros x y z Hxy Hyz. unfold then_with in *.
    pose proof (pre_trans c x y z) as Hc. pose proof (pre_trans d x y z) as Hd.
    pose proof (pre_trans c z x y) as Hzxy. pose proof (pre_trans c y z x) as Hyzx.
    rewrite (pre_antisym c x y) in Hyzx. rewrite (pre_antisym c x z) in Hzxy, Hyzx.
    rewrite (pre_antisym c y z) in Hzxy.
    destruct (c x y), (c y z), (c x z); simpl in *; naive_solver.
Qed.

(** ** The development's tactics *)

(** Split a hypothesis [... = Ok _] about a chain of binds into its steps. *)
Ltac inv_ok :=
  repeat match goal with
  | H : (_ ≫= _) = Ok _ |- _ => apply bind_ok in H as (? & ? & H)
  | H : ok_or _ _ = Ok _ |- _ => apply ok_or_ok in H
  | H : map_err _ _ = Ok _ |- _ => apply map_err_ok in H
  | H : ensure _ _ = Ok _ |- _ => apply ensure_ok in H
  | H : ok _ = Some _ |- _ => apply ok_some in H
  | H : Ok _ = Ok _ |- _ => injection H as H
  | H : Err _ = Ok _ |- _ => discriminate H
  | H : Ok _ = Err _ |- _ => discriminate H
  | H : Err _ = Err _ |- _ => injection H as H
  end; simplify_eq/=.

(** Decompose boolean connectives of the code's guards. *)
Ltac split_bools :=
  repeat match goal with
  | H : (_ && _) = true |- _ => apply andb_true_iff in H as [? ?]
  | H : (_ || _) = false |- _ => apply orb_false_iff in H as [? ?]
  | H : negb _ = true |- _ => apply negb_true_iff in H
  | H : negb _ = false |- _ => apply negb_false_iff in H
  | H : bool_decide _ = true |- _ => apply bool_decide_eq_true in H
  | H : bool_decide _ = false |- _ => apply bool_decide_eq_false in H
  | H : String.eqb _ _ = true |- _ => apply String.eqb_eq in H
  | H : String.eqb _ _ = false |- _ => apply String.eqb_neq in H
  | H : Ascii.eqb _ _ = true |- _ => apply Ascii.eqb_eq in H
  | H : Ascii.eqb _ _ = false |- _ => apply Ascii.eqb_neq in H
  | H : (_ <=? _)%Z = true |- _ => apply Z.leb_le in H
  | H : (_ <=? _)%Z = false |- _ => apply Z.leb_gt in H
  | H : (_ <? _)%Z = true |- _ => apply Z.ltb_lt in H
  | H : (_ <? _)%Z = false |- _ => apply Z.ltb_ge in H
  | H : (_ =? _)%Z = true |- _ => apply Z.eqb_eq in H
  | H : (_ =? _)%Z = false |- _ => apply Z.eqb_neq in H
  end.

(** Case analysis on the innermost [match]/[if] of the goal or of a hypothesis. *)
Ltac case_in H :=
  match type of H with
  | context [match ?x with _ => _ end] =>
    lazymatch x with
    | context [match _ with _ => _ end] => fail
    | _ => destruct x eqn:?
    end
  end; simplify_eq/=.

Create HintDb paykit.
Create Rewrite HintDb paykit.
#[export] Hint Resolve bind_ok ok_or_ok map_err_ok : paykit.
