(* ===== verification/Text.v ===== *)
(** * Text: the byte-level string operations the server uses

    A Rust [&str] is modelled by the string of its UTF-8 bytes, so [len()] is
    [String.length] and [bytes()] visits its characters.  This file holds the
    standard-library functions the sources call (character classes, [split_once],
    [trim_end_matches], [to_ascii_lowercase], decimal formatting with and without
    zero padding, [u64]/[u256] parsing, the derived [Ord] of [str]) and the codec
    lemmas the components share: printing in base ten and reading back is the
    identity. *)

From S2P Require Import Prelude.
#[global] Arguments String.append !_ _ / : simpl nomatch.
Local Open Scope string_scope.
Local Open Scope Z_scope.

(** ** Characters *)

Definition byte (c : ascii) : Z := Z.of_N (N_of_ascii c).

Definition in_range (lo hi : Z) (c : ascii) : bool := (lo <=? byte c) && (byte c <=? hi).

Definition is_ascii_digit (c : ascii) : bool := in_range 48 57 c.

Definition is_ascii_hexdigit (c : ascii) : bool :=
  is_ascii_digit c || in_range 65 70 c || in_range 97 102 c.

(** [byte.is_ascii_digit() || matches!(byte, b'a'..=b'f')] *)
Definition is_lower_hexdigit (c : ascii) : bool :=
  is_ascii_digit c || in_range 97 102 c.

Definition is_ascii_upper (c : ascii) : bool := in_range 65 90 c.

Definition ascii_lower (c : ascii) : ascii :=
  if is_ascii_upper c then ascii_of_N (N_of_ascii c + 32) else c.

Definition digit_value (c : ascii) : Z := byte c - 48.

Definition digit_char (d : Z) : ascii := ascii_of_N (Z.to_N (48 + d)).

(** ** Strings *)

(** [s.bytes().all(p)] *)
Fixpoint all_bytes (p : ascii → bool) (s : string) : bool :=
  match s with
  | EmptyString => true
  | String c s => p c && all_bytes p s
  end.

Definition ascii_upper (c : ascii) : ascii :=
  if in_range 97 122 c then ascii_of_N (Z.to_N (byte c - 32)) else c.

Fixpoint to_ascii_uppercase (s : string) : string :=
  match s with
  | EmptyString => EmptyString
  | String c s => String (ascii_upper c) (to_ascii_uppercase s)
  end.

Fixpoint to_ascii_lowercase (s : string) : string :=
  match s with
  | EmptyString => EmptyString
  | String c s => String (ascii_lower c) (to_ascii_lowercase s)
  end.

(** [s.bytes().filter(p).count()] *)
Fixpoint count_bytes (p : ascii → bool) (s : string) : Z :=
  match s with
  | EmptyString => 0
  | String c s => (if p c then 1 else 0) + count_bytes p s
  end.

(** [s.split_once(c)]: the parts around the first occurrence. *)
Fixpoint split_once (c : ascii) (s : string) : option (string * string) :=
  match s with
  | EmptyString => None
  | String d s =>
    if Ascii.eqb d c then Some (EmptyString, s)
    else match split_once c s with
         | Some (a, b) => Some (String d a, b)
         | None => None
         end
  end.

(** [s.starts_with(p)] *)
Fixpoint starts_with (p s : string) : bool :=
  match p, s with
  | EmptyString, _ => true
  | String _ _, EmptyString => false
  | String a p, String b s => Ascii.eqb a b && starts_with p s
  end.

(** [&s[n..]] on a character boundary. *)
Fixpoint str_drop (n : nat) (s : string) : string :=
  match n, s with
  | O, _ => s
  | S n, String _ s => str_drop n s
  | S _, EmptyString => EmptyString
  end.

(** [s.strip_prefix(p)] *)
Definition strip_prefix (p s : string) : option string :=
  if starts_with p s then Some (str_drop (String.length p) s) else None.

(** [s.trim_end_matches(c)]: drop the longest all-[c] suffix. *)
Fixpoint trim_end_matches (c : ascii) (s : string) : string :=
  match s with
  | EmptyString => EmptyString
  | String d s =>
    match trim_end_matches c s with
    | EmptyString => if Ascii.eqb d c then EmptyString else String d EmptyString
    | t => String d t
    end
  end.

Fixpoint repeat_char (c : ascii) (n : nat) : string :=
  match n with O => EmptyString | S n => String c (repeat_char c n) end.

Definition str_len (s : string) : Z := Z.of_nat (String.length s).

Definition str_is_empty (s : string) : bool :=
  match s with EmptyString => true | String _ _ => false end.

(** The derived order of [str]: lexicographic on bytes. *)
Fixpoint str_compare (s t : string) : comparison :=
  match s, t with
  | EmptyString, EmptyString => Eq
  | EmptyString, String _ _ => Lt
  | String _ _, EmptyString => Gt
  | String c s, String d t =>
    match byte c ?= byte d with Eq => str_compare s t | r => r end
  end.

(** ** Decimal numbers *)

(** [format!("{}", n)] for an unsigned integer.  The fuel [log2 n + 1] is an upper
    bound of the number of decimal digits ([fmt_dec_value]). *)
Fixpoint dec_digits (fuel : nat) (n : Z) (acc : string) : string :=
  match fuel with
  | O => acc
  | S fuel =>
    let acc := String (digit_char (n mod 10)) acc in
    if n <? 10 then acc else dec_digits fuel (n / 10) acc
  end.

Definition fmt_dec (n : Z) : string := dec_digits (S (Z.to_nat (Z.log2 n))) n "".

(** [format!("{:0w$}", n)] *)
Definition fmt_pad (w : nat) (n : Z) : string :=
  let s := fmt_dec n in repeat_char "0" (w - String.length s) ++ s.

Fixpoint dec_value_from (acc : Z) (s : string) : Z :=
  match s with
  | EmptyString => acc
  | String c s => dec_value_from (acc * 10 + digit_value c) s
  end.

Definition dec_value (s : string) : Z := dec_value_from 0 s.

(** [s.parse::<u64>()]: an optional leading [+], at least one digit, only digits,
    and a value that fits. *)
Definition parse_u64 (s : string) : option Z :=
  let digits := match s with
                | String c rest => if Ascii.eqb c "+" then rest else s
                | EmptyString => s
                end in
  if negb (str_is_empty digits) && all_bytes is_ascii_digit digits
     && (dec_value digits <=? u64_max)
  then Some (dec_value digits) else None.

(** [U256::from_str_radix(s, 10)] on a string of decimal digits: the value, or an
    overflow error. *)
Definition u256_from_digits (s : string) : option Z :=
  if dec_value s <? u256_modulus then Some (dec_value s) else None.

(** ** Lemmas: characters *)

Lemma byte_digit_char d : 0 <= d < 10 → byte (digit_char d) = 48 + d.
Proof.
  intros H. unfold byte, digit_char. rewrite N_ascii_embedding; lia.
Qed.

Lemma digit_char_digit d : 0 <= d < 10 → is_ascii_digit (digit_char d) = true.
Proof.
  intros H. unfold is_ascii_digit, in_range. rewrite byte_digit_char by done.
  apply andb_true_iff; lia.
Qed.

Lemma digit_value_char d : 0 <= d < 10 → digit_value (digit_char d) = d.
Proof. intros H. unfold digit_value. rewrite byte_digit_char by done. lia. Qed.

Lemma digit_value_bounds c : is_ascii_digit c = true → 0 <= digit_value c < 10.
Proof.
  unfold is_ascii_digit, in_range, digit_value. intros H. split_bools. lia.
Qed.

Lemma byte_inj c d : byte c = byte d → c = d.
Proof.
  unfold byte. intros H. apply N2Z.inj in H.
  rewrite <- (ascii_N_embedding c), <- (ascii_N_embedding d). by f_equal.
Qed.

Lemma digit_not_dot c : is_ascii_digit c = true → c ≠ "."%char.
Proof. intros H ->. discriminate. Qed.

(** ** Lemmas: strings *)

Lemma str_app_nil_r s : s ++ "" = s.
Proof. induction s; simpl; congruence. Qed.

Lemma str_app_assoc s t u : (s ++ t) ++ u = s ++ (t ++ u).
Proof. induction s; simpl; congruence. Qed.

Lemma str_length_app s t :
  String.length (s ++ t) = (String.length s + String.length t)%nat.
Proof. induction s; simpl; congruence. Qed.

Lemma str_length_repeat c n : String.length (repeat_char c n) = n.
Proof. induction n; simpl; congruence. Qed.

Lemma all_bytes_app p s t : all_bytes p (s ++ t) = all_bytes p s && all_bytes p t.
Proof. induction s as [|c s IH]; simpl; [done|]. rewrite IH. by rewrite andb_assoc. Qed.

Lemma all_bytes_repeat p c n : p c = true → all_bytes p (repeat_char c n) = true.
Proof. intros H. induction n; simpl; [done|]. by rewrite H. Qed.

Lemma all_bytes_impl (p q : ascii → bool) s :
  (∀ c, p c = true → q c = true) → all_bytes p s = true → all_bytes q s = true.
Proof.
  intros H. induction s as [|c s IH]; simpl; [done|].
  rewrite !andb_true_iff. naive_solver.
Qed.

Lemma all_bytes_trim p c s : all_bytes p s = true → all_bytes p (trim_end_matches c s) = true.
Proof.
  induction s as [|d s IH]; simpl; [done|]. rewrite andb_true_iff. intros [Hd Hs].
  specialize (IH Hs). destruct (trim_end_matches c s) as [|e t] eqn:E.
  - destruct (Ascii.eqb d c); simpl; [done|]. by rewrite Hd.
  - change (all_bytes p (String d (String e t))) with (p d && all_bytes p (String e t)).
    by rewrite Hd, IH.
Qed.

(** A trimmed string is the original without a run of the trimmed character. *)
Lemma trim_end_matches_app c s :
  ∃ n, s = trim_end_matches c s ++ repeat_char c n.
Proof.
  induction s as [|d s [n IH]]; simpl; [by exists O|].
  destruct (trim_end_matches c s) as [|e t] eqn:E.
  - destruct (Ascii.eqb d c) eqn:Hd; split_bools.
    + exists (S n). simpl in *. congruence.
    + exists n. simpl in *. congruence.
  - exists n. simpl in *. congruence.
Qed.

(** A trimmed non-empty string does not end in the trimmed character. *)
Lemma trim_end_matches_last c s t d :
  trim_end_matches c s = t ++ String d "" → d ≠ c.
Proof.
  revert t. induction s as [|e s IH]; intros t; simpl.
  - by destruct t.
  - destruct (trim_end_matches c s) as [|e' u] eqn:E.
    + destruct (Ascii.eqb e c) eqn:Hd; split_bools; [by destruct t|].
      destruct t as [|x t]; simpl; [naive_solver|]. intros [= _ Ht]. by destruct t.
    + destruct t as [|x t]; simpl; [naive_solver|]. intros [= _ Ht]. by apply (IH t).
Qed.

Lemma split_once_none c s : all_bytes (λ d, negb (Ascii.eqb d c)) s = true →
  split_once c s = None.
Proof.
  induction s as [|d s IH]; simpl; [done|]. rewrite andb_true_iff, negb_true_iff.
  intros [-> Hs]. by rewrite IH.
Qed.

Lemma split_once_app c s t : all_bytes (λ d, negb (Ascii.eqb d c)) s = true →
  split_once c (s ++ String c t) = Some (s, t).
Proof.
  induction s as [|d s IH]; simpl.
  - intros _. by rewrite Ascii.eqb_refl.
  - rewrite andb_true_iff, negb_true_iff. intros [-> Hs]. by rewrite IH.
Qed.

Lemma split_once_inv c s a b : split_once c s = Some (a, b) → s = a ++ String c b.
Proof.
  revert a. induction s as [|d s IH]; intros a; simpl; [done|].
  destruct (Ascii.eqb d c) eqn:Hd; split_bools; [naive_solver|].
  destruct (split_once c s) as [[a' b']|]; [|done]. intros [= <- <-].
  simpl. f_equal. by apply IH.
Qed.

Lemma digits_no_dot s : all_bytes is_ascii_digit s = true →
  all_bytes (λ d, negb (Ascii.eqb d ".")) s = true.
Proof.
  apply all_bytes_impl. intros c H. apply negb_true_iff, Ascii.eqb_neq.
  by apply digit_not_dot.
Qed.

(** ** Lemmas: the order of [str] *)

Lemma str_compare_refl s : str_compare s s = Eq.
Proof. induction s as [|c s IH]; simpl; [done|]. by rewrite Z.compare_refl. Qed.

Lemma str_compare_eq s t : str_compare s t = Eq ↔ s = t.
Proof.
  split; [|intros ->; apply str_compare_refl].
  revert t. induction s as [|c s IH]; intros [|d t]; simpl; try done.
  destruct (byte c ?= byte d) eqn:E; try done. intros H.
  apply Z.compare_eq_iff in E. apply byte_inj in E as ->. f_equal. auto.
Qed.

Lemma str_compare_antisym s t : str_compare t s = CompOpp (str_compare s t).
Proof.
  revert t. induction s as [|c s IH]; intros [|d t]; simpl; try done.
  rewrite (Z.compare_antisym (byte c)). destruct (byte c ?= byte d); simpl; auto.
Qed.

Lemma str_compare_trans_lt s t u :
  str_compare s t = Lt → str_compare t u = Lt → str_compare s u = Lt.
Proof.
  revert t u. induction s as [|c s IH]; intros [|d t] [|e u]; simpl; try done.
  destruct (Z.compare_spec (byte c) (byte d)); try done;
    destruct (Z.compare_spec (byte d) (byte e)); try done; intros H1 H2.
  - assert (byte c = byte e) as -> by lia. rewrite Z.compare_refl. eauto.
  - assert (byte c < byte e) as Hlt%Z.compare_lt_iff by lia. by rewrite Hlt.
  - assert (byte c < byte e) as Hlt%Z.compare_lt_iff by lia. by rewrite Hlt.
  - assert (byte c < byte e) as Hlt%Z.compare_lt_iff by lia. by rewrite Hlt.
Qed.

#[global] Instance str_precompare : PreCompare str_compare.
Proof.
  split; [intros x y; apply str_compare_antisym|]. intros x y z Hxy Hyz.
  destruct (str_compare x y) eqn:E1; [apply str_compare_eq in E1 as ->; done| |done].
  destruct (str_compare y z) eqn:E2; [apply str_compare_eq in E2 as <-; congruence| |done].
  by rewrite (str_compare_trans_lt x y z).
Qed.

(** ** Lemmas: decimal numbers *)

Lemma dec_value_from_spec acc s :
  dec_value_from acc s = acc * 10 ^ str_len s + dec_value s.
Proof.
  unfold dec_value. revert acc. induction s as [|c s IH]; intros acc; simpl.
  - unfold str_len. simpl. lia.
  - rewrite (IH (acc * 10 + _)), (IH (0 * 10 + digit_value c)).
    unfold str_len. simpl String.length. rewrite Nat2Z.inj_succ, Z.pow_succ_r by lia. ring.
Qed.

Lemma dec_value_app s t : dec_value (s ++ t) = dec_value s * 10 ^ str_len t + dec_value t.
Proof.
  unfold dec_value. transitivity (dec_value_from (dec_value_from 0 s) t).
  - generalize 0. induction s as [|c s IH]; intros a; simpl; [done|]. apply IH.
  - apply dec_value_from_spec.
Qed.

Lemma dec_value_cons c s :
  dec_value (String c s) = digit_value c * 10 ^ str_len s + dec_value s.
Proof. unfold dec_value at 1. simpl. rewrite dec_value_from_spec. f_equal. Qed.

Lemma dec_value_repeat_zero n : dec_value (repeat_char "0" n) = 0.
Proof.
  induction n; [done|]. simpl. rewrite dec_value_cons, IHn.
  change (digit_value "0") with 0. lia.
Qed.

Lemma str_len_app s t : str_len (s ++ t) = str_len s + str_len t.
Proof. unfold str_len. rewrite str_length_app. lia. Qed.

Lemma str_len_nonneg s : 0 <= str_len s.
Proof. unfold str_len. lia. Qed.

Lemma dec_value_bounds s :
  all_bytes is_ascii_digit s = true → 0 <= dec_value s < 10 ^ str_len s.
Proof.
  induction s as [|c s IH]; simpl; [intros _; change (0 <= 0 < 1); lia|].
  rewrite andb_true_iff. intros [Hc%digit_value_bounds Hs%IH].
  rewrite dec_value_cons. unfold str_len in *. simpl String.length.
  rewrite Nat2Z.inj_succ, Z.pow_succ_r by lia. nia.
Qed.

Lemma dec_digits_digits fuel n acc :
  0 <= n → all_bytes is_ascii_digit acc = true →
  all_bytes is_ascii_digit (dec_digits fuel n acc) = true.
Proof.
  revert n acc. induction fuel as [|fuel IH]; intros n acc Hn Hacc; simpl; [done|].
  assert (all_bytes is_ascii_digit (String (digit_char (n mod 10)) acc) = true) as Hd.
  { simpl. rewrite digit_char_digit; [done|]. apply Z.mod_pos_bound; lia. }
  case_match; [done|]. apply IH; [|done]. apply Z.div_pos; lia.
Qed.

Lemma dec_digits_value fuel n acc :
  0 <= n < 10 ^ Z.of_nat fuel →
  dec_value (dec_digits fuel n acc) = n * 10 ^ str_len acc + dec_value acc.
Proof.
  revert n acc. induction fuel as [|fuel IH]; intros n acc Hn.
  { replace n with 0; [simpl; lia|]. simpl in Hn. lia. }
  rewrite Nat2Z.inj_succ, Z.pow_succ_r in Hn by lia. simpl.
  set (acc' := String _ acc).
  assert (dec_value acc' = n mod 10 * 10 ^ str_len acc + dec_value acc) as Hacc'.
  { unfold acc'. rewrite dec_value_cons, digit_value_char; [done|].
    apply Z.mod_pos_bound; lia. }
  destruct (n <? 10) eqn:E; split_bools.
  - rewrite Hacc', Z.mod_small by lia. done.
  - rewrite IH, Hacc'.
    + replace (str_len acc') with (Z.succ (str_len acc)) by (unfold str_len; simpl; lia).
      rewrite Z.pow_succ_r by apply str_len_nonneg.
      pose proof (Z.div_mod n 10 ltac:(lia)). nia.
    + split; [apply Z.div_pos; lia|]. apply Z.div_lt_upper_bound; lia.
Qed.

Lemma dec_digits_fuel n : 0 <= n → n < 10 ^ Z.of_nat (S (Z.to_nat (Z.log2 n))).
Proof.
  intros Hn. rewrite Nat2Z.inj_succ, Z2Nat.id by apply Z.log2_nonneg.
  destruct (decide (n = 0)) as [->|]; [cbn; lia|].
  apply Z.lt_le_trans with (2 ^ Z.succ (Z.log2 n)).
  - apply Z.log2_spec. lia.
  - apply Z.pow_le_mono_l. lia.
Qed.

Lemma dec_digits_nonempty fuel n acc : dec_digits (S fuel) n acc ≠ "".
Proof.
  revert n acc. induction fuel as [|fuel IH]; intros n acc; simpl.
  - by case_match.
  - case_match; [done|]. apply IH.
Qed.

(** Printing in base ten and reading back is the identity. *)
Lemma fmt_dec_value n : 0 <= n → dec_value (fmt_dec n) = n.
Proof.
  intros Hn. unfold fmt_dec. rewrite dec_digits_value.
  - change (dec_value "") with 0. change (str_len "") with 0. lia.
  - split; [done|]. by apply dec_digits_fuel.
Qed.

Lemma fmt_dec_digits n : 0 <= n → all_bytes is_ascii_digit (fmt_dec n) = true.
Proof. intros. by apply dec_digits_digits. Qed.

Lemma fmt_dec_nonempty n : fmt_dec n ≠ "".
Proof. apply dec_digits_nonempty. Qed.

Lemma dec_digits_length fuel n acc (k : nat) :
  0 <= n < 10 ^ Z.of_nat (S k) →
  (String.length (dec_digits fuel n acc) ≤ S k + String.length acc)%nat.
Proof.
  revert n acc k. induction fuel as [|fuel IH]; intros n acc k Hn; simpl; [lia|].
  destruct (n <? 10) eqn:E; split_bools; simpl; [lia|].
  destruct k as [|k].
  { change (Z.of_nat 1) with 1 in Hn. rewrite Z.pow_1_r in Hn. lia. }
  etransitivity; [apply (IH (n / 10) _ k)|simpl; lia].
  split; [apply Z.div_pos; lia|]. apply Z.div_lt_upper_bound; [lia|].
  rewrite (Nat2Z.inj_succ (S k)), Z.pow_succ_r in Hn by lia. lia.
Qed.

Lemma fmt_dec_length n (k : nat) :
  0 <= n < 10 ^ Z.of_nat (S k) → (String.length (fmt_dec n) ≤ S k)%nat.
Proof.
  intros H. unfold fmt_dec.
  pose proof (dec_digits_length (S (Z.to_nat (Z.log2 n))) n "" k H). simpl in *. lia.
Qed.

Lemma fmt_dec_length_of n (k : Z) : 0 < k → 0 <= n < 10 ^ k → str_len (fmt_dec n) <= k.
Proof.
  intros Hk Hn. pose proof (fmt_dec_length n (Z.to_nat (k - 1))) as H.
  replace (Z.of_nat (S (Z.to_nat (k - 1)))) with k in H by lia.
  unfold str_len. specialize (H Hn). lia.
Qed.

Lemma fmt_pad_value w n : 0 <= n → dec_value (fmt_pad w n) = n.
Proof.
  intros Hn. unfold fmt_pad. rewrite dec_value_app, dec_value_repeat_zero.
  rewrite fmt_dec_value by done. lia.
Qed.

Lemma fmt_pad_digits w n : 0 <= n → all_bytes is_ascii_digit (fmt_pad w n) = true.
Proof.
  intros Hn. unfold fmt_pad. rewrite all_bytes_app, fmt_dec_digits by done.
  by rewrite all_bytes_repeat.
Qed.

(** A value below [10^w] is printed on exactly [w] characters. *)
Lemma fmt_pad_length w n :
  (0 < w)%nat → 0 <= n < 10 ^ Z.of_nat w → String.length (fmt_pad w n) = w.
Proof.
  intros Hw Hn. unfold fmt_pad. rewrite str_length_app, str_length_repeat.
  destruct w as [|w]; [lia|]. pose proof (fmt_dec_length n w Hn). lia.
Qed.

Lemma parse_u64_fmt_dec n : 0 <= n <= u64_max → parse_u64 (fmt_dec n) = Some n.
Proof.
  intros Hn. unfold parse_u64.
  pose proof (fmt_dec_nonempty n) as Hne.
  pose proof (fmt_dec_digits n ltac:(lia)) as Hd.
  pose proof (fmt_dec_value n ltac:(lia)) as Hv.
  destruct (fmt_dec n) as [|c s]; [done|].
  rewrite (proj2 (Ascii.eqb_neq c "+")) by (intros ->; simpl in Hd; discriminate).
  rewrite Hv, Hd. simpl. rewrite (proj2 (Z.leb_le n u64_max)) by lia. done.
Qed.

Lemma parse_u64_bounds s n : parse_u64 s = Some n → 0 <= n <= u64_max.
Proof.
  unfold parse_u64. set (d := match s with EmptyString => _ | String _ _ => _ end).
  destruct (_ && _) eqn:E; [|done]. intros [= <-]. split_bools.
  split; [|done]. apply dec_value_bounds in H1. lia.
Qed.

#[export] Hint Resolve fmt_dec_digits fmt_dec_nonempty fmt_pad_digits : paykit.
#[export] Hint Rewrite str_app_nil_r str_length_app all_bytes_app : paykit.
