(* ===== verification/Api.v ===== *)
(** * Api: the closed set of HTTP errors ([http/error.rs])

    Every route answers a failure with one of these errors.  [details] gives the status
    code, the stable code and the message of the body. *)

From S2P Require Import Prelude Text.
Local Open Scope string_scope.
Local Open Scope Z_scope.

Inductive ApiError :=
| Api_InvalidRequest
| Api_InvalidSignature
| Api_PayloadTooLarge
| Api_RateLimited
| Api_CreatorSessionInvalid
| Api_CreatorSessionUnavailable
| Api_DependencyUnavailable
| Api_DependencyTimeout
| Api_Conflict
| Api_OperationConflict
| Api_PrepareExpired
| Api_LifecycleTerminal
| Api_InvoiceActive
| Api_TotalMismatch
| Api_ResolutionConflict
| Api_RecoveryRequired
| Api_InvalidConflict
| Api_Unavailable
| Api_InvoiceConflict
| Api_InvoiceNotFound
| Api_InternalError
| Api_LockNotFound
| Api_LockResourceUnavailable
| Api_ReaderSetupPending
| Api_ReaderNotPayable
| Api_ReaderRegistryUnavailable
| Api_ReaderRegistryMalformed
| Api_SellerSetupPending
| Api_SellerUsdtSetupPending
| Api_SellerBitcoinAndUsdtSetupPending
| Api_AssetUnsupported
| Api_PaymentWindowExceedsCap
| Api_DeadlineElapsed.

#[global] Instance ApiError_eq_dec : EqDecision ApiError.
Proof. solve_decision. Defined.

Definition details (e : ApiError) : Z * string * string :=
  match e with
  | Api_InvalidRequest => (400, "invalid_request", "request is invalid")
  | Api_InvalidSignature => (401, "invalid_signature", "request authentication failed")
  | Api_PayloadTooLarge => (413, "payload_too_large", "request body is too large")
  | Api_RateLimited => (429, "rate_limited", "request rate limit exceeded")
  | Api_CreatorSessionInvalid => (409, "creator_session_invalid", "creator session is invalid")
  | Api_CreatorSessionUnavailable => (503, "creator_session_unavailable", "creator session is unavailable")
  | Api_DependencyUnavailable => (503, "dependency_unavailable", "dependency is unavailable")
  | Api_DependencyTimeout => (503, "dependency_timeout", "request deadline exceeded")
  | Api_Conflict => (409, "conflict", "request conflicts with persisted payment state")
  | Api_OperationConflict => (409, "operation_conflict", "operation binding conflicts with persisted payment state")
  | Api_PrepareExpired => (409, "prepare_expired", "payment preparation expired")
  | Api_LifecycleTerminal => (409, "lifecycle_terminal", "payment lifecycle is already terminal")
  | Api_InvoiceActive => (409, "invoice_active", "invoice is already active")
  | Api_TotalMismatch => (409, "total_mismatch", "total does not match prepared payment")
  | Api_ResolutionConflict => (409, "resolution_conflict", "business resolution conflicts with persisted outcome")
  | Api_RecoveryRequired => (503, "recovery_required", "payment request requires recovery")
  | Api_InvalidConflict => (409, "invalid_conflict", "payment request lifecycle is inconsistent")
  | Api_Unavailable => (503, "unavailable", "payment request state is unavailable")
  | Api_InvoiceConflict => (409, "invoice_conflict", "invoice binding conflicts with an existing invoice")
  | Api_InvoiceNotFound => (404, "not_found", "requested resource was not found")
  | Api_InternalError => (500, "internal_error", "internal server error")
  | Api_LockNotFound => (404, "lock_not_found", "lock resource was not found")
  | Api_LockResourceUnavailable => (503, "lock_resource_unavailable", "lock resource is unavailable")
  | Api_ReaderSetupPending => (503, "reader_setup_pending", "reader wallet setup needed")
  | Api_ReaderNotPayable => (409, "reader_not_payable", "reader has no Paykit app able to pay requests")
  | Api_ReaderRegistryUnavailable => (503, "reader_registry_unavailable", "reader registry is unavailable")
  | Api_ReaderRegistryMalformed => (502, "reader_registry_malformed", "reader registry is malformed")
  | Api_SellerSetupPending => (503, "seller_setup_pending", "seller Bitcoin receiving setup is needed")
  | Api_SellerUsdtSetupPending => (503, "seller_setup_pending", "seller USDT receiving setup is needed")
  | Api_SellerBitcoinAndUsdtSetupPending => (503, "seller_setup_pending", "seller Bitcoin and USDT receiving setup is needed")
  | Api_AssetUnsupported => (409, "asset_unsupported", "requested payment asset is not supported by this deployment")
  | Api_PaymentWindowExceedsCap => (400, "payment_window_exceeds_cap", "payment window exceeds the cap for this request")
  | Api_DeadlineElapsed => (409, "deadline_elapsed", "payment deadline has elapsed")
  end.

Definition status_code (e : ApiError) : Z := (details e).1.1.

Definition code (e : ApiError) : string := (details e).1.2.

Definition message (e : ApiError) : string := (details e).2.

(** The [Retry-After] header of the response. *)
Definition retry_after (e : ApiError) : option string :=
  if bool_decide (e = Api_RateLimited) then Some "1" else None.
