(* ===== verification/Sorting.v ===== *)
(** * Sorting: lists in the order of a comparison

    [slice::sort_by] in the program and [ORDER BY] in its queries, with the comparison
    as an argument: the byte order of Rust's strings or the text order of the database. *)

From S2P Require Import Prelude Text.

Definition cmp_le {A} (cmp : A → A → comparison) (a b : A) : Prop := cmp a b ≠ Gt.

#[global] Instance cmp_le_dec {A} (cmp : A → A → comparison) : RelDecision (cmp_le cmp).
Proof. intros a b. unfold cmp_le. apply _. Defined.

(** [slice::sort_by], which is stable, and [ORDER BY]. *)
Fixpoint sort_insert {A} (cmp : A → A → comparison) (x : A) (l : list A) : list A :=
  match l with
  | [] => [x]
  | y :: l' => if decide (cmp_le cmp x y) then x :: l else y :: sort_insert cmp x l'
  end.

Definition sort_by {A} (cmp : A → A → comparison) (l : list A) : list A := foldr (sort_insert cmp) [] l.

(** The derived [Ord] of [Option]. *)
Definition opt_compare {A} (cmp : A → A → comparison) (a b : option A) : comparison :=
  match a, b with
  | None, None => Eq
  | None, Some _ => Lt
  | Some _, None => Gt
  | Some a, Some b => cmp a b
  end.

(** ** Lemmas *)

#[global] Instance opt_precompare {A} (cmp : A → A → comparison) `{!PreCompare cmp} : PreCompare (opt_compare cmp).
Proof.
  split.
  - intros [x|] [y|]; simpl; try done. apply (pre_antisym cmp).
  - intros [x|] [y|] [z|]; simpl; try done. apply (pre_trans cmp).
Qed.

Lemma sort_insert_Permutation {A} (cmp : A → A → comparison) x l : sort_insert cmp x l ≡ₚ x :: l.
Proof. induction l as [|y l IH]; simpl; [done|]. case_decide; [done|]. rewrite IH. apply Permutation_swap. Qed.

Lemma sort_by_Permutation {A} (cmp : A → A → comparison) l : sort_by cmp l ≡ₚ l.
Proof. induction l as [|x l IH]; simpl; [done|]. by rewrite sort_insert_Permutation, IH. Qed.

Lemma elem_of_sort_by {A} (cmp : A → A → comparison) l x : x ∈ sort_by cmp l ↔ x ∈ l.
Proof. by rewrite sort_by_Permutation. Qed.

Lemma Forall_sort_by {A} (P : A → Prop) (cmp : A → A → comparison) l : Forall P (sort_by cmp l) ↔ Forall P l.
Proof. by rewrite sort_by_Permutation. Qed.

Lemma sort_insert_sorted {A} (cmp : A → A → comparison) `{!PreCompare cmp} x l :
  StronglySorted (cmp_le cmp) l → StronglySorted (cmp_le cmp) (sort_insert cmp x l).
Proof.
  induction 1 as [|y l Hs IH Hy]; simpl; [repeat constructor|]. case_decide as Hxy.
  - constructor; [by constructor|]. constructor; [done|]. eapply Forall_impl; [exact Hy|]. intros z. by apply (pre_trans cmp).
  - constructor; [done|]. rewrite sort_insert_Permutation. constructor; [|done].
    unfold cmp_le in *. rewrite (pre_antisym cmp x y). destruct (cmp x y); [by destruct Hxy|by destruct Hxy|done].
Qed.

Lemma sort_by_sorted {A} (cmp : A → A → comparison) `{!PreCompare cmp} l :
  StronglySorted (cmp_le cmp) (sort_by cmp l).
Proof. induction l as [|x l IH]; simpl; [constructor|]. by apply sort_insert_sorted. Qed.

(** Elements that tie keep their order. *)
Lemma sort_by_stable {A} (cmp : A → A → comparison) `{!PreCompare cmp} x l :
  filter (λ y, cmp x y = Eq) (sort_by cmp l) = filter (λ y, cmp x y = Eq) l.
Proof.
  induction l as [|y l IH]; [done|]. cbn [sort_by foldr]. fold (sort_by cmp l). rewrite filter_cons, <- IH.
  pose proof (sort_by_sorted cmp l) as Hs. revert Hs. generalize (sort_by cmp l) as m. clear IH l.
  induction m as [|z m IH]; intros Hs; [simpl; by rewrite filter_cons|]. simpl. apply StronglySorted_inv in Hs as [Hs Hz].
  destruct (decide (cmp_le cmp y z)) as [Hyz|Hyz]; [by rewrite filter_cons|]. rewrite !filter_cons, (IH Hs).
  destruct (decide (cmp x y = Eq)) as [Exy|], (decide (cmp x z = Eq)) as [Exz|]; try done. exfalso. apply Hyz.
  unfold cmp_le. eapply (pre_trans cmp _ x); [rewrite (pre_antisym cmp x y), Exy|rewrite Exz]; done.
Qed.

(** Lists with the same elements sort the same when ties are equal. *)
Lemma sort_by_unique {A} (cmp : A → A → comparison) `{!PreCompare cmp} l l' :
  l ≡ₚ l' → (∀ x y, x ∈ l → y ∈ l → cmp x y = Eq → x = y) → sort_by cmp l = sort_by cmp l'.
Proof.
  intros Hp Heq. apply (StronglySorted_unique_strong (cmp_le cmp)).
  - intros x y Hx Hy Hxy Hyx. rewrite elem_of_sort_by in Hx, Hy. rewrite <- Hp in Hy.
    apply Heq; [done..|]. unfold cmp_le in *. rewrite (pre_antisym cmp x y) in Hyx. by destruct (cmp x y).
  - by apply sort_by_sorted.
  - by apply sort_by_sorted.
  - by rewrite !sort_by_Permutation.
Qed.

Lemma sort_by_fmap {A B} (cmp : B → B → comparison) (f : A → B) `{!PreCompare cmp} l :
  (∀ x y, x ∈ l → y ∈ l → cmp (f x) (f y) = Eq → f x = f y) →
  f <$> sort_by (λ a b, cmp (f a) (f b)) l = sort_by cmp (f <$> l).
Proof.
  intros Heq. apply (StronglySorted_unique_strong (cmp_le cmp)).
  - intros x y (a & -> & Ha)%list_elem_of_fmap Hy. apply elem_of_sort_by, list_elem_of_fmap in Hy as (b & -> & Hb).
    rewrite elem_of_sort_by in Ha. unfold cmp_le. intros H1 H2. apply Heq; [done..|].
    rewrite (pre_antisym cmp (f a) (f b)) in H2. by destruct (cmp (f a) (f b)).
  - apply (StronglySorted_fmap f (cmp_le (λ a b, cmp (f a) (f b)))); [done|].
    apply sort_by_sorted, (precompare_pullback f cmp).
  - by apply sort_by_sorted.
  - by rewrite !sort_by_Permutation.
Qed.

#[global] Instance N_precompare : PreCompare N.compare.
Proof. split; [intros x y; apply N.compare_antisym|]. intros x y z. rewrite !N.compare_le_iff. lia. Qed.

(** The greatest element first: [ORDER BY .. DESC LIMIT 1] is [max_by]. *)
Lemma head_sort_desc {A} (cmp desc : A → A → comparison) `{!TotalCompare cmp} l :
  (∀ a b, desc a b = cmp b a) → head (sort_by desc l) = max_by cmp l.
Proof.
  intros Hdesc.
  assert (PreCompare desc) as Hflip.
  { split; [intros x y; rewrite !Hdesc; apply (compare_antisym cmp)|].
    intros x y z. rewrite !Hdesc. intros H1 H2. by apply (compare_trans cmp z y x). }
  pose proof (sort_by_sorted desc l) as Hs. pose proof (elem_of_sort_by desc l) as Hin.
  destruct (sort_by desc l) as [|x s]; simpl.
  - destruct (max_by cmp l) as [r|] eqn:E; [|done]. apply (max_by_spec cmp) in E as [Hr _].
    apply Hin in Hr. by apply not_elem_of_nil in Hr.
  - symmetry. apply (max_by_spec cmp). split; [by apply Hin; left|]. intros y Hy%Hin.
    apply elem_of_cons in Hy as [->|Hy]; [by rewrite compare_refl|].
    inversion Hs as [|? ? _ Hall]; subst. rewrite Forall_forall in Hall. specialize (Hall y Hy).
    unfold cmp_le in Hall. by rewrite Hdesc in Hall.
Qed.
