(* ===== verification/Effects.v ===== *)
(** * Effects: programs over external calls

    Asynchronous code of the server is a sequence of calls to traits (stores, SDK
    adapters, fetchers) with pure code between them.  Such code is translated to a
    program tree [prog E A]: [E X] is a call whose answer has type [X].  A handler
    that threads a state [S] runs a program to its result, its final state and the
    log of its calls with their answers ([exec]); every program terminates, because
    the tree is well founded.  [all_runs] quantifies over every sequence of answers,
    so a property proved with it holds whatever the other components do. *)

From S2P Require Import Prelude.

Section prog.
Context {E : Type → Type}.

Inductive prog (A : Type) : Type :=
| Ret (a : A)
| Vis {X : Type} (e : E X) (k : X → prog A).
Arguments Ret {A} a.
Arguments Vis {A X} e k.

Definition call {X} (e : E X) : prog X := Vis e Ret.

Fixpoint prog_bind {A B} (f : A → prog B) (p : prog A) : prog B :=
  match p with
  | Ret a => f a
  | Vis e k => Vis e (λ x, prog_bind f (k x))
  end.

(** One call with its answer. *)
Inductive event : Type :=
| Ev {X : Type} (e : E X) (x : X).

Fixpoint exec {S A} (h : ∀ X, E X → S → X * S) (p : prog A) (s : S) : A * S * list event :=
  match p with
  | Ret a => (a, s, [])
  | Vis e k =>
      let x := (h _ e s).1 in
      let '(a, s', tr) := exec h (k x) (h _ e s).2 in
      (a, s', Ev e x :: tr)
  end.

(** [Q] holds of the log and the result, whatever the calls answer. *)
Fixpoint all_runs {A} (p : prog A) (Q : list event → A → Prop) (tr : list event) : Prop :=
  match p with
  | Ret a => Q tr a
  | Vis e k => ∀ x, all_runs (k x) Q (tr ++ [Ev e x])
  end.

Lemma all_runs_exec {S A} (h : ∀ X, E X → S → X * S) (p : prog A) Q s tr :
  all_runs p Q tr → Q (tr ++ (exec h p s).2) (exec h p s).1.1.
Proof.
  revert s tr. induction p as [a|X e k IH]; intros s tr; simpl.
  - by rewrite app_nil_r.
  - intros H. specialize (IH (h X e s).1 (h X e s).2 _ (H _)).
    destruct (exec h (k _) _) as [[a s'] tr'] eqn:Hx. simpl in *. by rewrite <- app_assoc in IH.
Qed.

(** Every run of [p] from the empty log. *)
Lemma exec_all_runs {S A} (h : ∀ X, E X → S → X * S) (p : prog A) Q s res s' tr :
  all_runs p Q [] → exec h p s = (res, s', tr) → Q tr res.
Proof. intros H%(all_runs_exec h p Q s) Hx. by rewrite Hx in H. Qed.

Lemma all_runs_bind {A B} (p : prog A) (f : A → prog B) Q tr :
  all_runs p (λ tr' a, all_runs (f a) Q tr') tr → all_runs (prog_bind f p) Q tr.
Proof.
  revert tr. induction p as [a|X e k IH]; intros tr; simpl; [done|].
  intros H x. by apply IH, H.
Qed.

Lemma all_runs_mono {A} (p : prog A) (Q Q' : list event → A → Prop) tr :
  (∀ tr' a, Q tr' a → Q' tr' a) → all_runs p Q tr → all_runs p Q' tr.
Proof.
  intros HQ. revert tr. induction p as [a|X e k IH]; intros tr; simpl; [by apply HQ|].
  intros H x. by apply IH.
Qed.

Lemma all_runs_and {A} (p : prog A) (Q Q' : list event → A → Prop) tr :
  all_runs p Q tr → all_runs p Q' tr → all_runs p (λ tr' a, Q tr' a ∧ Q' tr' a) tr.
Proof. revert tr. induction p as [a|X e k IH]; intros tr; simpl; auto. Qed.

(** The last call of a run left the final state. *)
Definition answered {S} (h : ∀ X, E X → S → X * S) (ev : event) (s s' : S) : Prop :=
  match ev with Ev e x => h _ e s = (x, s') end.

Lemma exec_last {S A} (h : ∀ X, E X → S → X * S) (p : prog A) s res s' tr ev :
  exec h p s = (res, s', tr) → last tr = Some ev → ∃ s0, answered h ev s0 s'.
Proof.
  revert s tr. induction p as [a|X e k IH]; intros s tr; simpl; [by intros [= <- <- <-]|].
  destruct (exec h (k (h X e s).1) (h X e s).2) as [[a s1] tr1] eqn:Hx. intros [= <- <- <-] Hl.
  destruct tr1 as [|ev1 tr1]; [|by eapply IH].
  injection Hl as <-. exists s. simpl.
  assert (s1 = (h X e s).2) as ->.
  { destruct (k (h X e s).1); [by injection Hx|]. simpl in Hx. by destruct (exec _ _ _) as [[??]?]. }
  by destruct (h X e s).
Qed.

(** When every call relates the state before and after it, so does a run, and every call of
    the log was answered in between. *)
Lemma exec_related {S A} (R : S → S → Prop) `{!PreOrder R} (h : ∀ X, E X → S → X * S) (p : prog A) s res s' tr :
  (∀ X (e : E X) s, R s (h X e s).2) → exec h p s = (res, s', tr) →
  R s s' ∧ ∀ ev, ev ∈ tr → ∃ s0 s1, R s s0 ∧ answered h ev s0 s1 ∧ R s1 s'.
Proof.
  intros HR. revert s tr. induction p as [a|X e k IH]; intros s tr; simpl.
  { intros [= <- <- <-]. split; [done|]. by intros ev ?%not_elem_of_nil. }
  destruct (exec h (k (h X e s).1) (h X e s).2) as [[a s1] tr1] eqn:Hx. intros [= <- <- <-].
  destruct (IH _ _ _ Hx) as [H1 Hev]. pose proof (HR X e s) as H0. split; [by etrans|].
  intros ev [->|Hin]%elem_of_cons.
  - exists s, (h X e s).2. split_and!; [done|apply surjective_pairing|done].
  - destruct (Hev _ Hin) as (sa & sb & ? & ? & ?). exists sa, sb. split_and!; [by etrans|done|done].
Qed.

Lemma exec_bind {S A B} (h : ∀ X, E X → S → X * S) (p : prog A) (f : A → prog B) s :
  exec h (prog_bind f p) s =
  let '(a, s1, t1) := exec h p s in
  let '(b, s2, t2) := exec h (f a) s1 in (b, s2, t1 ++ t2).
Proof.
  revert s. induction p as [a|X e k IH]; intros s; simpl.
  - by destruct (exec h (f a) s) as [[??]?].
  - rewrite IH. destruct (exec h (k _) _) as [[a s1] t1]. by destruct (exec h (f a) s1) as [[??]?].
Qed.

End prog.

Arguments prog : clear implicits.
Arguments event : clear implicits.
Arguments Ret {E A} a.
Arguments Vis {E A X} e k.
Arguments Ev {E X} e x.

#[global] Instance prog_ret E : MRet (prog E) := λ A a, Ret a.
#[global] Instance prog_mbind E : MBind (prog E) := λ A B f p, prog_bind f p.

Notation "x ⇐ p ; k" := (prog_bind (λ x, k) p)
  (at level 20, p at level 100, k at level 200, right associativity).

(** [let x = call().await?; k]: the error of a fallible call ends the program. *)
Definition try_bind {E F A B} (f : A → prog E (result F B)) (p : prog E (result F A)) :
    prog E (result F B) :=
  prog_bind (λ r, match r with Ok a => f a | Err e => Ret (Err e) end) p.

Notation "x ←? p ; k" := (try_bind (λ x, k) p)
  (at level 20, p at level 100, k at level 200, right associativity).

Notation "' x ←? p ; k" := (try_bind (λ x, k) p)
  (at level 20, x pattern, p at level 100, k at level 200, right associativity).

Lemma surjective_pairing_3 {A B C} (x : A * B * C) : x = (x.1.1, x.1.2, x.2).
Proof. by destruct x as [[??]?]. Qed.

Lemma all_runs_try {E F A B} (p : prog E (result F A)) (f : A → prog E (result F B)) Q tr :
  all_runs p (λ tr' r, match r with Ok a => all_runs (f a) Q tr' | Err e => Q tr' (Err e) end) tr →
  all_runs (try_bind f p) Q tr.
Proof.
  intros H. apply all_runs_bind. eapply all_runs_mono; [|exact H]. intros tr' [a|e]; done.
Qed.

(** Fallible pure code before a [?]. *)
Lemma runs_pure {E F A B} (r : result F A) (k : A → prog E (result F B)) Q tr :
  (∀ a, r = Ok a → all_runs (k a) Q tr) → (∀ e, r = Err e → Q tr (Err e)) →
  all_runs (try_bind k (Ret r)) Q tr.
Proof. unfold try_bind. destruct r; simpl; auto. Qed.
