(* ===== verification/Locks.v ===== *)
(** * Locks: canonical Locks identifiers ([domain/locks.rs])

    Grammar and rendering of the identifiers belong to the [locks-core] package,
    which is not part of the repository: they are the fields of the class
    [LocksCore], and every client of this file is generic in it.  The boundary
    parsers below accept a text only when it is its own canonical rendering. *)

From S2P Require Import Prelude Text.
Local Open Scope string_scope.

(** [T: FromStr + Display] *)
Class Identifier (T : Type) := {
  from_str : string → option T;
  to_string : T → string;
}.

(** The raw identifier types of [locks_core::ids] and the one accessor used here,
    [RawPubkyLockResource::creator]. *)
Class LocksCore := {
  RawCreatorPubky : Type;
  RawBundleId : Type;
  RawPubkyLockResource : Type;
  #[global] raw_creator_eq_dec :: EqDecision RawCreatorPubky;
  #[global] raw_bundle_eq_dec :: EqDecision RawBundleId;
  #[global] raw_resource_eq_dec :: EqDecision RawPubkyLockResource;
  #[global] raw_creator_ident :: Identifier RawCreatorPubky;
  #[global] raw_bundle_ident :: Identifier RawBundleId;
  #[global] raw_resource_ident :: Identifier RawPubkyLockResource;
  raw_creator : RawPubkyLockResource → RawCreatorPubky;
}.

(** What [locks-core] documents of its renderings: a rendered identifier is
    accepted again and denotes the same value. *)
Class CanonicalDisplay (T : Type) `{Identifier T} :=
  from_str_to_string : ∀ t : T, from_str (to_string t) = Some t.

Inductive LocksIdentifierParseError :=
| Invalid (kind : string)
| NonCanonical (kind : string).

Definition parse_canonical {T} `{Identifier T} (kind value : string) :
    result LocksIdentifierParseError T :=
  parsed ← ok_or (from_str value) (Invalid kind);
  if negb (String.eqb (to_string parsed) value) then Err (NonCanonical kind)
  else Ok parsed.

Section identifiers.
Context {core : LocksCore}.

Inductive CreatorPubky := mk_CreatorPubky (_ : RawCreatorPubky).

Inductive ReaderPubky := mk_ReaderPubky (_ : RawCreatorPubky).

Inductive BundleId := mk_BundleId (_ : RawBundleId).

Record PubkyLockResource := mk_PubkyLockResource {
  resource_raw : RawPubkyLockResource;
  resource_creator : CreatorPubky;
}.

#[global] Instance creator_eq_dec : EqDecision CreatorPubky.
Proof. solve_decision. Defined.

#[global] Instance reader_eq_dec : EqDecision ReaderPubky.
Proof. solve_decision. Defined.

#[global] Instance bundle_eq_dec : EqDecision BundleId.
Proof. solve_decision. Defined.

(** The [Display] implementations delegate to the wrapped value. *)
Definition creator_to_string (c : CreatorPubky) : string :=
  let '(mk_CreatorPubky raw) := c in to_string raw.

Definition reader_to_string (r : ReaderPubky) : string :=
  let '(mk_ReaderPubky raw) := r in to_string raw.

Definition bundle_to_string (b : BundleId) : string :=
  let '(mk_BundleId raw) := b in to_string raw.

Definition resource_to_string (r : PubkyLockResource) : string :=
  to_string (resource_raw r).

Definition parse_creator (value : string) : result LocksIdentifierParseError CreatorPubky :=
  mk_CreatorPubky <$> parse_canonical "creator" value.

Definition parse_reader (value : string) : result LocksIdentifierParseError ReaderPubky :=
  mk_ReaderPubky <$> parse_canonical "reader" value.

Definition parse_bundle_id (value : string) : result LocksIdentifierParseError BundleId :=
  mk_BundleId <$> parse_canonical "bundle" value.

Definition parse_addressed_lock_resource (value : string) :
    result LocksIdentifierParseError PubkyLockResource :=
  raw ← parse_canonical "addressed lock resource" value;
  let creator := mk_CreatorPubky (raw_creator raw) in
  Ok (mk_PubkyLockResource raw creator).

(** ** Lemmas *)

Lemma parse_canonical_ok {T} `{Identifier T} kind value (t : T) :
  parse_canonical kind value = Ok t ↔ from_str value = Some t ∧ to_string t = value.
Proof.
  unfold parse_canonical. rewrite bind_ok. setoid_rewrite ok_or_ok. split.
  - intros (p & Hp & Hif). destruct (String.eqb _ _) eqn:E; split_bools; simpl in *; naive_solver.
  - intros [Hp Hv]. exists t. split; [done|]. by rewrite Hv, String.eqb_refl.
Qed.

Lemma parse_canonical_display {T} `{CanonicalDisplay T} kind (t : T) :
  parse_canonical kind (to_string t) = Ok t.
Proof. apply parse_canonical_ok. by rewrite from_str_to_string. Qed.

Lemma parse_creator_ok value c : parse_creator value = Ok c → creator_to_string c = value.
Proof.
  unfold parse_creator. rewrite fmap_ok. intros (raw & Hraw & ->).
  by apply parse_canonical_ok in Hraw as [_ ?].
Qed.

Lemma parse_reader_ok value r : parse_reader value = Ok r → reader_to_string r = value.
Proof.
  unfold parse_reader. rewrite fmap_ok. intros (raw & Hraw & ->).
  by apply parse_canonical_ok in Hraw as [_ ?].
Qed.

End identifiers.

(** A concrete instance, used by the witnesses: every text without upper-case
    letters is its own canonical identifier, and an upper-case text is accepted but
    normalised; a resource is addressed by its creator. *)
Module Example_core.

Definition example_from_str (s : string) : option string :=
  if str_is_empty s then None else Some (to_ascii_lowercase s).

#[export] Instance example_ident : Identifier string :=
  {| from_str := example_from_str; to_string := id |}.

Definition example_core : LocksCore := {|
  RawCreatorPubky := string;
  RawBundleId := string;
  RawPubkyLockResource := string;
  raw_creator := id;
|}.

End Example_core.

(** ** Properties *)

Section properties.
Context {core : LocksCore}.

(** the boundary parser of every Locks identifier accepts exactly the
    canonical texts: a text is accepted iff [locks-core] parses it to a value whose
    rendering is that very text, and two accepted texts denoting the same value are
    equal. *)
Theorem parse_canonical_accepts_only_canonical {T} `{Identifier T} kind kind' v v' (t : T) :
  (parse_canonical kind v = Ok t ↔ from_str v = Some t ∧ to_string t = v)
  ∧ (parse_canonical kind v = Ok t → parse_canonical kind' v' = Ok t → v = v').
Proof.
  split; [apply parse_canonical_ok|].
  intros H1%parse_canonical_ok H2%parse_canonical_ok. naive_solver.
Qed.

(** an accepted addressed lock resource carries the creator [locks-core]
    derives from it, and renders back to the accepted text. *)
Theorem parse_addressed_lock_resource_spec value r :
  parse_addressed_lock_resource value = Ok r →
  resource_to_string r = value
  ∧ resource_creator r = mk_CreatorPubky (raw_creator (resource_raw r)).
Proof.
  unfold parse_addressed_lock_resource, resource_to_string. intros ?. inv_ok.
  match goal with Hp : parse_canonical _ _ = _ |- _ =>
    by apply parse_canonical_ok in Hp as [_ ?] end.
Qed.

End properties.

Definition example_resource : string := "tkrq8/pub/app.locks/0.json".

Lemma parse_addressed_lock_resource_spec_witness :
  let core := Example_core.example_core in
  let r := @mk_PubkyLockResource core example_resource (@mk_CreatorPubky core example_resource) in
  @parse_addressed_lock_resource core example_resource = Ok r
  ∧ @resource_to_string core r = example_resource.
Proof.
  intros core r. assert (@parse_addressed_lock_resource core example_resource = Ok r) as Hr.
  { reflexivity. }
  split; [exact Hr|].
  exact (proj1 (@parse_addressed_lock_resource_spec core example_resource r Hr)).
Defined.
