(* ===== verification/Invoice.v ===== *)
(** * Invoice: criterion values of an invoice ([domain/invoice.rs])

    Denominations and their base units, positive [u64] criterion amounts, payment
    windows in whole hours, and the creator-scoped invoice identity. *)

From S2P Require Import Prelude Text Locks.
Local Open Scope string_scope.
Local Open Scope Z_scope.

Definition DEFAULT_PAYMENT_WINDOW_HOURS : Z := 24.

(** ** Invoice identity *)

Section identity.
Context {core : LocksCore}.

Record InvoiceIdentity := mk_InvoiceIdentity {
  identity_creator : CreatorPubky;
  identity_bundle_id : BundleId;
}.

Definition InvoiceIdentity_new (lock_resource : PubkyLockResource) (bundle_id : BundleId) :
    InvoiceIdentity :=
  mk_InvoiceIdentity (resource_creator lock_resource) bundle_id.

End identity.

(** ** Denominations *)

Inductive CriterionAsset := Btc | Usd | Usdt.

#[global] Instance CriterionAsset_eq_dec : EqDecision CriterionAsset.
Proof. solve_decision. Defined.

Definition asset_eqb (a b : CriterionAsset) : bool := bool_decide (a = b).

Inductive CriterionAssetError := UnsupportedAsset.

Definition CriterionAsset_parse (value : string) : result CriterionAssetError CriterionAsset :=
  if String.eqb value "BTC" then Ok Btc
  else if String.eqb value "USD" then Ok Usd
  else if String.eqb value "USDT" then Ok Usdt
  else Err UnsupportedAsset.

Definition as_str (a : CriterionAsset) : string :=
  match a with Btc => "BTC" | Usd => "USD" | Usdt => "USDT" end.

Definition decimals (a : CriterionAsset) : Z :=
  match a with Btc => 8 | Usd => 2 | Usdt => 6 end.

Definition decimal_amount (a : CriterionAsset) (units : Z) : string :=
  match a with
  | Usd => fmt_dec (units / 100) ++ "." ++ fmt_pad 2 (units mod 100)
  | Btc => fmt_dec (units / 100000000) ++ "." ++ fmt_pad 8 (units mod 100000000)
  | Usdt => fmt_dec (units / 1000000) ++ "." ++ fmt_pad 6 (units mod 1000000)
  end.

(** ** Criterion amounts *)

Inductive CriterionAmount := mk_CriterionAmount (_ : Z).

Definition units (a : CriterionAmount) : Z := let '(mk_CriterionAmount u) := a in u.

Inductive CriterionAmountError := NotUnsignedDecimalInteger | Zero | OutOfRange.

Definition CriterionAmount_parse (value : string) :
    result CriterionAmountError CriterionAmount :=
  if str_is_empty value || negb (all_bytes is_ascii_digit value)
  then Err NotUnsignedDecimalInteger
  else
    units ← ok_or (parse_u64 value) OutOfRange;
    if units =? 0 then Err Zero else Ok (mk_CriterionAmount units).

Definition CriterionAmount_to_string (a : CriterionAmount) : string := fmt_dec (units a).

(** ** Payment windows

    [serde_json::Value] and its [as_u64] accessor are a library's: they are the
    variables of this section. *)

Inductive CriterionPaymentWindowHours := mk_CriterionPaymentWindowHours (_ : Z).

Definition hours_get (h : CriterionPaymentWindowHours) : Z :=
  let '(mk_CriterionPaymentWindowHours x) := h in x.

Inductive CriterionPaymentWindowHoursError := Hours_Missing | Hours_Invalid.

Definition hours_new (hours : Z) :
    result CriterionPaymentWindowHoursError CriterionPaymentWindowHours :=
  if hours =? 0 then Err Hours_Invalid else Ok (mk_CriterionPaymentWindowHours hours).

Section hours.
Context {Value : Type} (as_u64 : Value → option Z).

Definition hours_parse (value : Value) :
    result CriterionPaymentWindowHoursError CriterionPaymentWindowHours :=
  hours ← ok_or (as_u64 value) Hours_Invalid;
  hours_new hours.

Definition hours_parse_optional (value : option Value) :
    result CriterionPaymentWindowHoursError CriterionPaymentWindowHours :=
  value ← ok_or value Hours_Missing;
  hours_parse value.

End hours.

(** ** Lemmas *)

Lemma CriterionAsset_parse_as_str a : CriterionAsset_parse (as_str a) = Ok a.
Proof. by destruct a. Qed.

Lemma CriterionAsset_parse_ok value a : CriterionAsset_parse value = Ok a → value = as_str a.
Proof.
  unfold CriterionAsset_parse.
  destruct (String.eqb value "BTC") eqn:?, (String.eqb value "USD") eqn:?,
    (String.eqb value "USDT") eqn:?; split_bools; naive_solver.
Qed.

Lemma as_str_lower_inj a b :
  to_ascii_lowercase (as_str a) = to_ascii_lowercase (as_str b) → a = b.
Proof. destruct a, b; vm_compute; congruence. Qed.

Lemma parse_u64_digits value :
  str_is_empty value = false → all_bytes is_ascii_digit value = true →
  parse_u64 value = if dec_value value <=? u64_max then Some (dec_value value) else None.
Proof.
  intros Hne Hd. unfold parse_u64. destruct value as [|c s]; [done|].
  destruct (Ascii.eqb c "+") eqn:E; split_bools.
  { subst. simpl in Hd. discriminate. }
  rewrite Hd. done.
Qed.

(** The scale [10^decimals] and the number of printed fraction digits agree. *)
Lemma decimal_amount_split a u :
  decimal_amount a u =
    fmt_dec (u / 10 ^ decimals a) ++ "." ++ fmt_pad (Z.to_nat (decimals a)) (u mod 10 ^ decimals a).
Proof. by destruct a. Qed.

Lemma decimals_pos a : 0 < decimals a <= 8.
Proof. destruct a; simpl; lia. Qed.

(** ** Properties *)

(** a criterion amount is accepted exactly when it is a non-empty string of
    ASCII digits whose value is positive and fits [u64]; the accepted value is the
    one denoted by the digits (leading zeros included), and each way to fail has
    its own error. *)
Theorem CriterionAmount_parse_spec value :
  CriterionAmount_parse value =
    if str_is_empty value || negb (all_bytes is_ascii_digit value)
    then Err NotUnsignedDecimalInteger
    else if u64_max <? dec_value value then Err OutOfRange
    else if dec_value value =? 0 then Err Zero
    else Ok (mk_CriterionAmount (dec_value value)).
Proof.
  unfold CriterionAmount_parse. destruct (_ || _) eqn:E; [done|]. split_bools.
  rewrite parse_u64_digits by done.
  destruct (u64_max <? dec_value value) eqn:Hlt; split_bools.
  - by rewrite (proj2 (Z.leb_gt _ _)) by lia.
  - by rewrite (proj2 (Z.leb_le _ _)) by lia.
Qed.

Lemma CriterionAmount_parse_ok value a :
  CriterionAmount_parse value = Ok a → 0 < units a <= u64_max ∧ units a = dec_value value.
Proof.
  rewrite CriterionAmount_parse_spec.
  destruct (_ || _) eqn:E, (u64_max <? dec_value value) eqn:?, (dec_value value =? 0) eqn:?; try done.
  intros [= <-]. split_bools. simpl. split; [|done].
  match goal with Hd : all_bytes _ _ = true |- _ => apply dec_value_bounds in Hd end. lia.
Qed.

(** printing an accepted amount and parsing it again gives the amount back, for
    every amount the type can hold. *)
Theorem CriterionAmount_roundtrip u :
  0 < u <= u64_max →
  CriterionAmount_parse (CriterionAmount_to_string (mk_CriterionAmount u))
    = Ok (mk_CriterionAmount u).
Proof.
  intros Hu. rewrite CriterionAmount_parse_spec. unfold CriterionAmount_to_string. simpl.
  rewrite fmt_dec_value, fmt_dec_digits by lia.
  pose proof (fmt_dec_nonempty u). destruct (fmt_dec u); [done|]. simpl.
  rewrite (proj2 (Z.ltb_ge _ _)) by lia. by rewrite (proj2 (Z.eqb_neq _ _)) by lia.
Qed.

Lemma CriterionAmount_roundtrip_witness :
  CriterionAmount_parse (CriterionAmount_to_string (mk_CriterionAmount u64_max))
    = Ok (mk_CriterionAmount u64_max).
Proof. apply (CriterionAmount_roundtrip u64_max). unfold u64_max. lia. Defined.

(** a payment window is accepted exactly when the JSON value is a [u64] that is
    not zero; a missing field has its own error. *)
Theorem hours_parse_optional_spec {Value} (as_u64 : Value → option Z) v :
  hours_parse_optional as_u64 v =
    match v with
    | None => Err Hours_Missing
    | Some v => match as_u64 v with
                | Some h => if h =? 0 then Err Hours_Invalid
                            else Ok (mk_CriterionPaymentWindowHours h)
                | None => Err Hours_Invalid
                end
    end.
Proof.
  destruct v as [v|]; [|done]. unfold hours_parse_optional, hours_parse. simpl.
  by destruct (as_u64 v).
Qed.
