(* ===== verification/Receiving.v ===== *)
(** * Receiving: creator-authorised receiving details ([domain/receiving.rs]) *)

From S2P Require Import Prelude Text.
Local Open Scope string_scope.
Local Open Scope Z_scope.

Definition USDT_CHAIN_ID : string := "42161".

Definition USDT_TOKEN : string := "0xfd086bc7cd5c481dcc9c85ebe478a1c0b69fcbb9".

Definition USDT_ENDPOINT : string := "usdt-arbitrum-address".

Record BitcoinAccount := mk_BitcoinAccount {
  xpub : string;
  account_index : Z;
}.

Inductive UsdtAddress := mk_UsdtAddress (_ : string).

Definition usdt_as_str (a : UsdtAddress) : string := let '(mk_UsdtAddress s) := a in s.

#[global] Instance BitcoinAccount_eq_dec : EqDecision BitcoinAccount.
Proof. solve_decision. Defined.

#[global] Instance UsdtAddress_eq_dec : EqDecision UsdtAddress.
Proof. solve_decision. Defined.

Inductive InvalidUsdtAddress := mk_InvalidUsdtAddress.

(** [TryFrom<String>]; also the deserialiser ([serde(try_from = "String")]). *)
Definition usdt_try_from (value : string) : result InvalidUsdtAddress UsdtAddress :=
  if negb (str_len value =? 42)
     || negb (starts_with "0x" value)
     || negb (all_bytes is_ascii_hexdigit (str_drop 2 value))
     || all_bytes (λ b, byte b =? 48) (str_drop 2 value)
  then Err mk_InvalidUsdtAddress
  else Ok (mk_UsdtAddress (to_ascii_lowercase value)).

(** [endpoint()]: the JSON object of an endpoint payload, as its members. *)
Definition usdt_endpoint (a : UsdtAddress) : list (string * string) :=
  [("value", usdt_as_str a); ("chain_id", USDT_CHAIN_ID); ("token", USDT_TOKEN)].

(** ** Lemmas *)

Lemma byte_bounds c : 0 <= byte c < 256.
Proof. unfold byte. pose proof (N_ascii_bounded c). lia. Qed.

Lemma byte_ascii_lower c :
  byte (ascii_lower c) = if is_ascii_upper c then byte c + 32 else byte c.
Proof.
  unfold ascii_lower. destruct (is_ascii_upper c) eqn:E; [|done].
  unfold is_ascii_upper, in_range in E. split_bools. unfold byte in *.
  rewrite N_ascii_embedding; lia.
Qed.

Lemma ascii_lower_idem c : ascii_lower (ascii_lower c) = ascii_lower c.
Proof.
  apply byte_inj. rewrite (byte_ascii_lower (ascii_lower c)).
  destruct (is_ascii_upper (ascii_lower c)) eqn:E; [|done].
  unfold is_ascii_upper, in_range in E. rewrite byte_ascii_lower in E.
  destruct (is_ascii_upper c) eqn:F; split_bools; [|].
  - unfold is_ascii_upper, in_range in F. split_bools. lia.
  - unfold is_ascii_upper, in_range in F.
    rewrite (proj2 (Z.leb_le 65 (byte c))), (proj2 (Z.leb_le (byte c) 90)) in F by lia. done.
Qed.

Lemma lower_idem s : to_ascii_lowercase (to_ascii_lowercase s) = to_ascii_lowercase s.
Proof. induction s as [|c s IH]; simpl; [done|]. by rewrite ascii_lower_idem, IH. Qed.

Lemma lower_length s : String.length (to_ascii_lowercase s) = String.length s.
Proof. induction s; simpl; congruence. Qed.

Lemma lower_drop n s : str_drop n (to_ascii_lowercase s) = to_ascii_lowercase (str_drop n s).
Proof. revert s. induction n as [|n IH]; intros [|c s]; simpl; auto. Qed.

Lemma lower_all p s :
  (∀ c, p c = true → p (ascii_lower c) = true) →
  all_bytes p s = true → all_bytes p (to_ascii_lowercase s) = true.
Proof.
  intros Hp. induction s as [|c s IH]; simpl; [done|].
  rewrite !andb_true_iff. naive_solver.
Qed.

Lemma hexdigit_lower c :
  is_ascii_hexdigit c = true → is_lower_hexdigit (ascii_lower c) = true.
Proof.
  unfold is_ascii_hexdigit, is_lower_hexdigit, is_ascii_digit, in_range.
  rewrite byte_ascii_lower. unfold is_ascii_upper, in_range.
  intros H. rewrite !orb_true_iff, !andb_true_iff, !Z.leb_le in H.
  rewrite !orb_true_iff, !andb_true_iff, !Z.leb_le.
  destruct (65 <=? byte c) eqn:?, (byte c <=? 90) eqn:?; simpl; split_bools; lia.
Qed.

Lemma lower_hexdigit_hexdigit c : is_lower_hexdigit c = true → is_ascii_hexdigit c = true.
Proof.
  unfold is_ascii_hexdigit, is_lower_hexdigit. rewrite !orb_true_iff. naive_solver.
Qed.

Lemma hexdigits_lower s :
  all_bytes is_ascii_hexdigit s = true →
  all_bytes is_lower_hexdigit (to_ascii_lowercase s) = true.
Proof.
  induction s as [|c s IH]; simpl; [done|]. rewrite !andb_true_iff.
  intros [Hc Hs]. split; [by apply hexdigit_lower|by apply IH].
Qed.

Lemma lower_zeros s :
  all_bytes (λ b, byte b =? 48) (to_ascii_lowercase s) = all_bytes (λ b, byte b =? 48) s.
Proof.
  induction s as [|c s IH]; simpl; [done|]. rewrite IH. f_equal.
  rewrite byte_ascii_lower. unfold is_ascii_upper, in_range.
  destruct (65 <=? byte c) eqn:?, (byte c <=? 90) eqn:?; simpl; split_bools; try done.
  rewrite (proj2 (Z.eqb_neq _ _)), (proj2 (Z.eqb_neq _ _)) by lia. done.
Qed.

Lemma lower_0x s : starts_with "0x" s = true → starts_with "0x" (to_ascii_lowercase s) = true.
Proof.
  destruct s as [|a [|b s]]; cbn [starts_with to_ascii_lowercase]; [done| |];
    rewrite !andb_true_iff.
  - intros [_ ?]. done.
  - intros (Ha & Hb & _). apply Ascii.eqb_eq in Ha, Hb. by subst.
Qed.

(** ** Properties *)

(** an accepted USDT address is stored as [0x] followed by forty lower-case hex
    digits that are not all zero, and reading the stored text back (the
    deserialiser of the persisted envelope) accepts it unchanged: storing and
    reloading an address is the identity. *)
Theorem usdt_try_from_canonical value a :
  usdt_try_from value = Ok a →
  str_len (usdt_as_str a) = 42
  ∧ starts_with "0x" (usdt_as_str a) = true
  ∧ all_bytes is_lower_hexdigit (str_drop 2 (usdt_as_str a)) = true
  ∧ all_bytes (λ b, byte b =? 48) (str_drop 2 (usdt_as_str a)) = false
  ∧ usdt_try_from (usdt_as_str a) = Ok a.
Proof.
  unfold usdt_try_from at 1. destruct (_ || _) eqn:E; [done|]. intros [= <-]. split_bools.
  assert (str_len (to_ascii_lowercase value) = 42) as Hlen
    by (unfold str_len in *; by rewrite lower_length).
  assert (starts_with "0x" (to_ascii_lowercase value) = true) as H0x by (by apply lower_0x).
  assert (all_bytes is_lower_hexdigit (str_drop 2 (to_ascii_lowercase value)) = true) as Hhex
    by (rewrite lower_drop; by apply hexdigits_lower).
  assert (all_bytes (λ b, byte b =? 48) (str_drop 2 (to_ascii_lowercase value)) = false) as Hz
    by (by rewrite lower_drop, lower_zeros).
  simpl. do 4 (split; [done|]). unfold usdt_try_from.
  rewrite Hlen, H0x, Hz, (all_bytes_impl _ _ _ lower_hexdigit_hexdigit Hhex), lower_idem. done.
Qed.

Definition example_usdt : string := "0xFd086bC7CD5C481DCC9C85ebE478A1C0b69FCbb9".

Lemma usdt_try_from_canonical_witness :
  usdt_try_from USDT_TOKEN = Ok (mk_UsdtAddress USDT_TOKEN).
Proof.
  assert (usdt_try_from example_usdt = Ok (mk_UsdtAddress USDT_TOKEN)) as H
    by (vm_compute; reflexivity).
  apply (usdt_try_from_canonical example_usdt (mk_UsdtAddress USDT_TOKEN) H).
Defined.
