(* ===== verification/Payment.v ===== *)
(** * Payment: outpoints, payment bindings and provider-v2 samples
    ([domain/payment.rs], [domain/provider_v2.rs])

    A binding is what one invoice knows about its directly observed output; a
    provider-v2 sample is the factual observation reported to a caller, and
    [qualifies] is the test that freezes first evidence.  Instants are
    nanoseconds, a [Z]. *)

From S2P Require Import Prelude Text Locks Invoice.
Local Open Scope string_scope.
Local Open Scope Z_scope.

(** ** Outpoints *)

Record BitcoinOutpoint := mk_BitcoinOutpoint {
  txid : string;
  vout : Z;
}.

#[global] Instance BitcoinOutpoint_eq_dec : EqDecision BitcoinOutpoint.
Proof. solve_decision. Defined.

Inductive BitcoinOutpointError := InvalidTxid.

Definition BitcoinOutpoint_new (txid : string) (vout : Z) :
    result BitcoinOutpointError BitcoinOutpoint :=
  if negb (str_len txid =? 64) || negb (all_bytes is_lower_hexdigit txid)
  then Err InvalidTxid
  else Ok (mk_BitcoinOutpoint txid vout).

Definition canonical_text (o : BitcoinOutpoint) : string :=
  txid o ++ ":" ++ fmt_dec (vout o).

(** ** Observations and bindings *)

Inductive PaymentStatus := Undetected | Detected | Confirmed.

#[global] Instance PaymentStatus_eq_dec : EqDecision PaymentStatus.
Proof. solve_decision. Defined.

Record PaymentObservation := mk_PaymentObservation {
  obs_status : PaymentStatus;
  obs_confirmations : Z;
  obs_amount_matched : bool;
}.

Definition PaymentObservation_undetected : PaymentObservation :=
  mk_PaymentObservation Undetected 0 false.

Definition PaymentObservation_observed (confirmations : Z) (amount_matched : bool) :
    PaymentObservation :=
  mk_PaymentObservation
    (if confirmations =? 0 then Detected else Confirmed) confirmations amount_matched.

Record PaymentBinding := mk_PaymentBinding {
  invoice_sats : Z;
  observed_sats : option Z;
  binding_confirmations : Z;
}.

#[global] Instance PaymentBinding_eq_dec : EqDecision PaymentBinding.
Proof. solve_decision. Defined.

Definition PaymentBinding_undetected (invoice_amount : CriterionAmount) : PaymentBinding :=
  mk_PaymentBinding (units invoice_amount) None 0.

Definition PaymentBinding_observed (invoice_amount : CriterionAmount)
    (sats confirmations : Z) : PaymentBinding :=
  let amount_matched := units invoice_amount <=? sats in
  mk_PaymentBinding (units invoice_amount) (Some sats)
    (if amount_matched then Z.min confirmations 6 else confirmations).

Definition observation (b : PaymentBinding) : PaymentObservation :=
  match observed_sats b with
  | Some sats => PaymentObservation_observed (binding_confirmations b) (invoice_sats b <=? sats)
  | None => PaymentObservation_undetected
  end.

Definition is_final (b : PaymentBinding) : bool :=
  match observed_sats b with
  | Some sats => invoice_sats b <=? sats
  | None => false
  end && (binding_confirmations b =? 6).

Definition is_replaceable (b : PaymentBinding) : bool :=
  match observed_sats b with
  | None => true
  | Some sats =>
    if sats <? invoice_sats b then true
    else negb (is_final b) && (binding_confirmations b <? 1)
  end.

Definition regress_to_unseen (b : PaymentBinding) : PaymentBinding :=
  if is_final b then b else mk_PaymentBinding (invoice_sats b) None 0.

(** ** Provider-v2 values *)

Inductive ProviderV2ValueError := InvalidPayment | InvalidSample.

Record ProviderV2Payment := mk_ProviderV2Payment {
  amount_lexeme : string;
  amount_sats : Z;
  minimum_confirmations : Z;
}.

Definition ProviderV2Payment_parse {core : LocksCore}
    (recipient_pubky amount asset : string) (minimum_confirmations : Z)
    (creator : CreatorPubky) : result ProviderV2ValueError ProviderV2Payment :=
  recipient ← map_err (λ _, InvalidPayment) (parse_creator recipient_pubky);
  if negb (bool_decide (recipient = creator))
     || negb (bool_decide (ok (CriterionAsset_parse asset) = Some Btc))
     || (6 <? minimum_confirmations)
  then Err InvalidPayment
  else
    amount_sats ← units <$> map_err (λ _, InvalidPayment) (CriterionAmount_parse amount);
    Ok (mk_ProviderV2Payment amount amount_sats minimum_confirmations).

Inductive ProviderV2SampleStatus := V2_Undetected | V2_Detected | V2_Confirmed.

#[global] Instance ProviderV2SampleStatus_eq_dec : EqDecision ProviderV2SampleStatus.
Proof. solve_decision. Defined.

Definition ProviderV2SampleStatus_as_str (s : ProviderV2SampleStatus) : string :=
  match s with
  | V2_Undetected => "undetected"
  | V2_Detected => "detected"
  | V2_Confirmed => "confirmed"
  end.

Record ProviderV2Sample := mk_ProviderV2Sample {
  observed_at : Z;
  sample_status : ProviderV2SampleStatus;
  sample_outpoint : option BitcoinOutpoint;
  sample_confirmations : Z;
  sample_amount_matched : bool;
}.

Definition ProviderV2Sample_new (observed_at : Z) (status : ProviderV2SampleStatus)
    (outpoint : option BitcoinOutpoint) (confirmations : Z) (amount_matched : bool) :
    result ProviderV2ValueError ProviderV2Sample :=
  let valid := (confirmations <=? 6)
    && match status with
       | V2_Undetected => is_none outpoint && (confirmations =? 0) && negb amount_matched
       | V2_Detected => is_some outpoint && (confirmations =? 0)
       | V2_Confirmed => is_some outpoint && (0 <? confirmations)
       end in
  if negb valid then Err InvalidSample
  else Ok (mk_ProviderV2Sample observed_at status outpoint confirmations amount_matched).

Definition qualifies (s : ProviderV2Sample) (minimum_confirmations deadline : Z) : bool :=
  is_some (sample_outpoint s) && sample_amount_matched s
  && (minimum_confirmations <=? sample_confirmations s) && (observed_at s <=? deadline).

(** ** Lemmas *)

(** What every binding the module builds satisfies. *)
Definition binding_wf (b : PaymentBinding) : Prop :=
  match observed_sats b with
  | None => binding_confirmations b = 0
  | Some sats => 0 <= binding_confirmations b
                 ∧ (invoice_sats b <= sats → binding_confirmations b <= 6)
  end.

Lemma undetected_wf a : binding_wf (PaymentBinding_undetected a).
Proof. done. Qed.

Lemma observed_wf a sats c : 0 <= c → binding_wf (PaymentBinding_observed a sats c).
Proof.
  intros Hc. unfold binding_wf. simpl.
  destruct (units a <=? sats) eqn:E; split_bools; split; lia.
Qed.

Lemma regress_wf b : binding_wf b → binding_wf (regress_to_unseen b).
Proof. unfold regress_to_unseen. by destruct (is_final b). Qed.

Lemma is_final_spec b :
  is_final b = true ↔
  ∃ sats, observed_sats b = Some sats ∧ invoice_sats b <= sats ∧ binding_confirmations b = 6.
Proof.
  unfold is_final. destruct (observed_sats b) as [sats|]; simpl.
  - rewrite andb_true_iff, Z.leb_le, Z.eqb_eq. naive_solver.
  - naive_solver.
Qed.

Lemma observed_final a sats c :
  is_final (PaymentBinding_observed a sats c) = (units a <=? sats) && (6 <=? c).
Proof.
  unfold is_final. simpl. destruct (units a <=? sats) eqn:E; simpl; [|done].
  destruct (6 <=? c) eqn:F; split_bools; [rewrite Z.eqb_eq; lia|rewrite Z.eqb_neq; lia].
Qed.

#[export] Hint Resolve undetected_wf observed_wf regress_wf : paykit.

(** ** Properties *)

(** finality of a payment binding.  An observation is final exactly when the
    output pays at least the invoice amount and has six or more confirmations; a
    final binding records exactly six, never becomes replaceable and survives every
    regression unchanged, while a regression of any other binding forgets the output
    and makes the invoice replaceable again. *)
Theorem binding_finality a sats c :
  let b := PaymentBinding_observed a sats c in
  (is_final b = true ↔ units a <= sats ∧ 6 <= c)
  ∧ (is_final b = true →
       binding_confirmations b = 6 ∧ is_replaceable b = false ∧ regress_to_unseen b = b)
  ∧ (is_final b = false → regress_to_unseen b = PaymentBinding_undetected a
       ∧ is_replaceable (regress_to_unseen b) = true).
Proof.
  intros b. split; [|split].
  - unfold b. rewrite observed_final, andb_true_iff, !Z.leb_le. done.
  - intros Hf. pose proof Hf as (s & Hs & Hle & Hc)%is_final_spec. split; [done|]. split.
    + unfold is_replaceable. rewrite Hs, Hf, (proj2 (Z.ltb_ge _ _)) by lia. done.
    + unfold regress_to_unseen. by rewrite Hf.
  - intros Hf. unfold regress_to_unseen. by rewrite Hf.
Qed.

(** the reported observation of every well-formed binding is consistent: it is
    undetected exactly when nothing is observed, detected exactly at zero
    confirmations, its matched flag compares the output with the invoice, and a
    matched observation never reports more than six confirmations. *)
Theorem binding_observation_consistent b :
  binding_wf b →
  (obs_status (observation b) = Undetected ↔ observed_sats b = None)
  ∧ (obs_status (observation b) = Detected ↔
       is_some (observed_sats b) = true ∧ obs_confirmations (observation b) = 0)
  ∧ (obs_amount_matched (observation b) = true ↔
       ∃ sats, observed_sats b = Some sats ∧ invoice_sats b <= sats)
  ∧ (obs_amount_matched (observation b) = true → 0 <= obs_confirmations (observation b) <= 6).
Proof.
  unfold binding_wf, observation. destruct (observed_sats b) as [sats|]; simpl.
  - intros [Hc Hm]. rewrite Z.leb_le.
    destruct (Z.eqb_spec (binding_confirmations b) 0); naive_solver lia.
  - naive_solver.
Qed.

Lemma binding_observation_consistent_witness :
  obs_amount_matched (observation (PaymentBinding_observed (mk_CriterionAmount 100) 101 7)) = true
  ∧ 0 <= obs_confirmations (observation (PaymentBinding_observed (mk_CriterionAmount 100) 101 7)) <= 6.
Proof.
  split; [reflexivity|].
  apply (binding_observation_consistent (PaymentBinding_observed (mk_CriterionAmount 100) 101 7)).
  - apply observed_wf. lia.
  - reflexivity.
Defined.

(** provider-v2 evidence.  A constructed sample that qualifies has an observed
    output of at least the invoiced amount, so even a zero threshold never accepts
    an undetected sample; the deadline is inclusive, at most six confirmations are
    reported, and qualifying is monotone: a lower threshold or a later deadline
    keeps it. *)
Theorem provider_v2_qualifies_sound t st o c m s min deadline :
  ProviderV2Sample_new t st o c m = Ok s →
  qualifies s min deadline = true →
  st ≠ V2_Undetected ∧ is_some o = true ∧ m = true ∧ c <= 6 ∧ t <= deadline
  ∧ ∀ min' deadline', min' <= min → deadline <= deadline' → qualifies s min' deadline' = true.
Proof.
  unfold ProviderV2Sample_new. destruct (negb _) eqn:E; [done|]. intros [= <-].
  unfold qualifies. simpl. intros H. split_bools.
  split; [|split; [done|split; [done|split; [done|split; [done|]]]]].
  - intros ->. destruct o; simpl in *; [done|]. done.
  - intros min' d' Hm Hd. rewrite !andb_true_iff, !Z.leb_le. repeat split; try done; lia.
Qed.

Definition example_outpoint : BitcoinOutpoint := mk_BitcoinOutpoint "00" 0.

Lemma provider_v2_qualifies_sound_witness :
  is_some (Some example_outpoint) = true ∧ 10 <= 10.
Proof.
  pose proof (provider_v2_qualifies_sound 10 V2_Detected (Some example_outpoint) 0 true
    (mk_ProviderV2Sample 10 V2_Detected (Some example_outpoint) 0 true) 0 10
    eq_refl eq_refl) as (_ & H1 & _ & _ & H2 & _).
  split; [exact H1|exact H2].
Defined.

(** provider-v2 payments are accepted exactly for the invoice's own creator, in
    BTC, with at most six required confirmations and a positive [u64] amount; every
    other input is the same closed error. *)
Theorem ProviderV2Payment_parse_spec {core : LocksCore} recipient amount asset min creator p :
  ProviderV2Payment_parse recipient amount asset min creator = Ok p ↔
    parse_creator recipient = Ok creator ∧ asset = "BTC" ∧ min <= 6
    ∧ ∃ a, CriterionAmount_parse amount = Ok a
           ∧ p = mk_ProviderV2Payment amount (units a) min.
Proof.
  unfold ProviderV2Payment_parse. rewrite bind_ok. setoid_rewrite map_err_ok. split.
  - intros (r & Hr & H). destruct (_ || _) eqn:E; [done|]. split_bools. subst r.
    inv_ok. apply fmap_ok in H0 as (a & Ha & ->). inv_ok.
    match goal with Hp : CriterionAsset_parse _ = _ |- _ =>
      apply CriterionAsset_parse_ok in Hp as -> end.
    naive_solver.
  - intros (Hr & -> & Hmin & a & Ha & ->). exists creator. split; [done|].
    rewrite bool_decide_eq_true_2 by done. simpl.
    rewrite (proj2 (Z.ltb_ge _ _)) by lia. by rewrite Ha.
Qed.
