(* ===== verification/Lifecycle.v ===== *)
(** * Lifecycle: Payment Request lifecycle states
    ([domain/payment_request_lifecycle.rs])

    The closed state type with its persisted spelling, the transitions allowed
    without cursor progress, and the aggregation of all proposal attempts of one
    invoice into its strongest observable state. *)

From S2P Require Import Prelude Text.
Local Open Scope string_scope.
Local Open Scope Z_scope.

Inductive PaymentRequestLifecycleState :=
| Proposed
| ProposalExpired
| Accepted
| Rejected
| Canceled
| ProofSubmitted
| ActiveRecurring
| RecoveryRequired
| InvalidConflict.

#[global] Instance PaymentRequestLifecycleState_eq_dec :
  EqDecision PaymentRequestLifecycleState.
Proof. solve_decision. Defined.

Definition state_as_str (s : PaymentRequestLifecycleState) : string :=
  match s with
  | Proposed => "proposed"
  | ProposalExpired => "proposal_expired"
  | Accepted => "accepted"
  | Rejected => "rejected"
  | Canceled => "canceled"
  | ProofSubmitted => "proof_submitted"
  | ActiveRecurring => "active_recurring"
  | RecoveryRequired => "recovery_required"
  | InvalidConflict => "invalid_conflict"
  end.

Definition state_parse (value : string) : option PaymentRequestLifecycleState :=
  if String.eqb value "proposed" then Some Proposed
  else if String.eqb value "proposal_expired" then Some ProposalExpired
  else if String.eqb value "accepted" then Some Accepted
  else if String.eqb value "rejected" then Some Rejected
  else if String.eqb value "canceled" then Some Canceled
  else if String.eqb value "proof_submitted" then Some ProofSubmitted
  else if String.eqb value "active_recurring" then Some ActiveRecurring
  else if String.eqb value "recovery_required" then Some RecoveryRequired
  else if String.eqb value "invalid_conflict" then Some InvalidConflict
  else None.

Definition state_eqb (a b : PaymentRequestLifecycleState) : bool := bool_decide (a = b).

Definition cursor_stable_transition_allowed
    (existing incoming : PaymentRequestLifecycleState) : bool :=
  match existing, incoming with Proposed, ProposalExpired => true | _, _ => false end
  || (negb (state_eqb existing InvalidConflict)
      && negb (state_eqb incoming InvalidConflict)
      && (state_eqb existing RecoveryRequired || state_eqb incoming RecoveryRequired)).

Record PersistedPaymentRequestLifecycle := mk_PersistedPaymentRequestLifecycle {
  request_state : PaymentRequestLifecycleState;
  last_event_at : Z;
}.

Definition aggregate_rank (s : PaymentRequestLifecycleState) : Z :=
  match s with
  | InvalidConflict => 9
  | RecoveryRequired => 8
  | ProofSubmitted => 7
  | ActiveRecurring => 6
  | Accepted => 5
  | Proposed => 4
  | ProposalExpired | Rejected | Canceled => 0
  end.

(** The [max_by_key] key [(aggregate_rank, recorded_at, as_str)], compared
    lexicographically. *)
Definition attempt_compare (a b : PaymentRequestLifecycleState * Z) : comparison :=
  then_with (aggregate_rank a.1 ?= aggregate_rank b.1)
    (then_with (a.2 ?= b.2) (str_compare (state_as_str a.1) (state_as_str b.1))).

Definition aggregate_lifecycle (attempts : list (PaymentRequestLifecycleState * Z)) :
    option PersistedPaymentRequestLifecycle :=
  (λ '(s, t), mk_PersistedPaymentRequestLifecycle s t) <$> max_by attempt_compare attempts.

(** ** Lemmas *)

Definition terminal (s : PaymentRequestLifecycleState) : bool :=
  match s with ProposalExpired | Rejected | Canceled => true | _ => false end.

Lemma state_parse_as_str s : state_parse (state_as_str s) = Some s.
Proof. by destruct s. Qed.

Lemma state_as_str_inj s t : state_as_str s = state_as_str t → s = t.
Proof.
  intros H. apply (f_equal state_parse) in H. rewrite !state_parse_as_str in H. congruence.
Qed.

Lemma state_parse_some value s : state_parse value = Some s → value = state_as_str s.
Proof.
  unfold state_parse.
  repeat (destruct (String.eqb value _) eqn:?; split_bools; [naive_solver|]). done.
Qed.

#[global] Instance attempt_compare_total : TotalCompare attempt_compare.
Proof.
  split.
  - intros [s t] [s' t']. unfold attempt_compare, then_with. simpl.
    destruct (Z.compare_spec (aggregate_rank s) (aggregate_rank s')); try done.
    destruct (Z.compare_spec t t'); try done.
    intros Hs%str_compare_eq%state_as_str_inj. congruence.
  - intros [s t] [s' t']. unfold attempt_compare, then_with. simpl.
    rewrite (Z.compare_antisym (aggregate_rank s) (aggregate_rank s')).
    destruct (aggregate_rank s ?= aggregate_rank s'); simpl; try done.
    rewrite (Z.compare_antisym t t'). destruct (t ?= t'); simpl; try done.
    apply str_compare_antisym.
  - intros [s t] [s' t'] [s'' t'']. unfold attempt_compare, then_with. simpl.
    destruct (Z.compare_spec (aggregate_rank s) (aggregate_rank s')); try done;
      destruct (Z.compare_spec (aggregate_rank s') (aggregate_rank s'')); try done;
      destruct (Z.compare_spec (aggregate_rank s) (aggregate_rank s'')); try done; try lia.
    destruct (Z.compare_spec t t'); try done; destruct (Z.compare_spec t' t''); try done;
      destruct (Z.compare_spec t t''); try done; try lia.
    intros H1' H2'.
    destruct (str_compare (state_as_str s) (state_as_str s')) eqn:E1; try done;
      destruct (str_compare (state_as_str s') (state_as_str s'')) eqn:E2; try done.
    + apply str_compare_eq in E1, E2. rewrite E1, E2. by rewrite str_compare_refl.
    + apply str_compare_eq in E1. by rewrite E1, E2.
    + apply str_compare_eq in E2. by rewrite <- E2, E1.
    + by rewrite (str_compare_trans_lt _ _ _ E1 E2).
Qed.

Lemma attempt_le_rank a b :
  attempt_compare a b ≠ Gt → aggregate_rank a.1 <= aggregate_rank b.1.
Proof.
  unfold attempt_compare, then_with.
  destruct (Z.compare_spec (aggregate_rank a.1) (aggregate_rank b.1)); try done; lia.
Qed.

Lemma attempt_le_time a b :
  attempt_compare a b ≠ Gt → aggregate_rank a.1 = aggregate_rank b.1 → a.2 <= b.2.
Proof.
  unfold attempt_compare, then_with. intros H E. rewrite E, Z.compare_refl in H.
  destruct (Z.compare_spec a.2 b.2); try done; lia.
Qed.

Lemma aggregate_some attempts l :
  aggregate_lifecycle attempts = Some l ↔
    (request_state l, last_event_at l) ∈ attempts
    ∧ ∀ a, a ∈ attempts → attempt_compare a (request_state l, last_event_at l) ≠ Gt.
Proof.
  rewrite <- (max_by_spec attempt_compare). unfold aggregate_lifecycle.
  destruct (max_by attempt_compare attempts) as [[s t]|]; destruct l; simpl; naive_solver.
Qed.

(** ** Properties *)

(** aggregating the attempts of an invoice does not depend on the order in which
    the database returns the rows, whatever ties their timestamps have. *)
Theorem aggregate_lifecycle_order_independent attempts attempts' :
  attempts ≡ₚ attempts' → aggregate_lifecycle attempts = aggregate_lifecycle attempts'.
Proof.
  intros Hp. unfold aggregate_lifecycle. by rewrite (max_by_permutation _ _ _ Hp).
Qed.

Lemma aggregate_lifecycle_order_independent_witness :
  aggregate_lifecycle [(Rejected, 7); (Canceled, 7); (ProposalExpired, 7)]
  = aggregate_lifecycle [(ProposalExpired, 7); (Canceled, 7); (Rejected, 7)]
  ∧ aggregate_lifecycle [(Rejected, 7); (Canceled, 7); (ProposalExpired, 7)]
    = Some (mk_PersistedPaymentRequestLifecycle Rejected 7).
Proof.
  split; [|vm_compute; reflexivity].
  apply (aggregate_lifecycle_order_independent
    [(Rejected, 7); (Canceled, 7); (ProposalExpired, 7)]
    [(ProposalExpired, 7); (Canceled, 7); (Rejected, 7)]).
  apply (Permutation_rev [(Rejected, 7); (Canceled, 7); (ProposalExpired, 7)]).
Defined.

(** the aggregate is one of the recorded attempts and the strongest of them: no
    attempt has a higher rank, none of equal rank is more recent, and a terminal
    aggregate means that every attempt is terminal, so a live attempt always
    outranks terminal history. *)
Theorem aggregate_lifecycle_strongest attempts l :
  aggregate_lifecycle attempts = Some l →
  (request_state l, last_event_at l) ∈ attempts
  ∧ (∀ s t, (s, t) ∈ attempts →
       aggregate_rank s < aggregate_rank (request_state l)
       ∨ (aggregate_rank s = aggregate_rank (request_state l) ∧ t <= last_event_at l))
  ∧ (terminal (request_state l) = true → ∀ s t, (s, t) ∈ attempts → terminal s = true).
Proof.
  intros [Hin Hmax]%aggregate_some. split; [done|]. split.
  - intros s t Hst. specialize (Hmax _ Hst). pose proof (attempt_le_rank _ _ Hmax) as Hr.
    simpl in Hr. destruct (Z.eq_dec (aggregate_rank s) (aggregate_rank (request_state l))).
    + right. split; [done|]. by apply (attempt_le_time _ _ Hmax).
    + left. lia.
  - intros Hterm s t Hst. pose proof (attempt_le_rank _ _ (Hmax _ Hst)) as Hr. simpl in Hr.
    destruct (request_state l); try done; destruct s; simpl in *; done || lia.
Qed.

Lemma aggregate_lifecycle_strongest_witness :
  (Accepted, 9) ∈ [(Rejected, 10); (Accepted, 9); (Canceled, 11)].
Proof.
  refine (proj1 (aggregate_lifecycle_strongest
    [(Rejected, 10); (Accepted, 9); (Canceled, 11)]
    (mk_PersistedPaymentRequestLifecycle Accepted 9) _)).
  vm_compute. reflexivity.
Defined.

(** without cursor progress a stored state changes only by the expiry of a
    proposal or by entering or leaving the recovery overlay; conflicts are absorbing
    and unreachable, and every other pair of distinct states is refused. *)
Theorem cursor_stable_transitions existing incoming :
  cursor_stable_transition_allowed existing incoming = true ↔
    (existing = Proposed ∧ incoming = ProposalExpired)
    ∨ (existing ≠ InvalidConflict ∧ incoming ≠ InvalidConflict
       ∧ (existing = RecoveryRequired ∨ incoming = RecoveryRequired)).
Proof.
  unfold cursor_stable_transition_allowed, state_eqb.
  destruct existing, incoming; simpl; naive_solver.
Qed.

(** the persisted spelling is a closed bijection: parsing a stored text succeeds
    exactly on the nine spellings and gives back the state it spells. *)
Theorem state_spelling_bijective value s :
  state_parse value = Some s ↔ value = state_as_str s.
Proof.
  split; [apply state_parse_some|]. intros ->. apply state_parse_as_str.
Qed.
