(* ===== verification/Pricing.v ===== *)
(** * Pricing: fixed invoice rates and exact atomic amounts
    ([application/invoice_pricing.rs])

    Prices and rates are decimal strings with at most eighteen fraction digits;
    arithmetic runs on 256-bit words.  Every operator of the source that is not a
    [checked_] one is modelled with its wrap-around, and the properties show that
    no wrap-around can happen on the values the server computes with. *)

From S2P Require Import Prelude Text Locks Invoice.
Local Open Scope string_scope.
Local Open Scope Z_scope.

(** The error type of the invoice service, shared by pricing. *)
Inductive CreateInvoiceError :=
| InvalidRequest
| CreatorSessionInvalid
| CreatorSessionUnavailable
| LockNotFound
| LockUnavailable
| Conflict
| ReaderSetupPending
| ReaderNotPayable
| ReaderRegistryUnavailable
| ReaderRegistryMalformed
| DeadlineExceeded
| Unavailable.

#[global] Instance CreateInvoiceError_eq_dec : EqDecision CreateInvoiceError.
Proof. solve_decision. Defined.

(** ** 256-bit words *)

Definition wrap (x : Z) : Z := x mod u256_modulus.

Definition u256_mul (a b : Z) : Z := wrap (a * b).

Definition u256_add (a b : Z) : Z := wrap (a + b).

Definition u256_pow (a b : Z) : Z := wrap (a ^ b).

Definition checked_mul (a b : Z) : option Z :=
  if a * b <? u256_modulus then Some (a * b) else None.

Definition checked_add (a b : Z) : option Z :=
  if a + b <? u256_modulus then Some (a + b) else None.

Definition b2z (b : bool) : Z := if b then 1 else 0.

(** ** The exchange-rate feed *)

Definition RATE_SCALE : Z := 1000000000000000000.

Definition MAX_RATE_AGE_SECONDS : Z := 600.

Definition decimal_units (value : string) (decimals : Z) : result CreateInvoiceError Z :=
  let '(whole, fraction) := default (value, "") (split_once "." value) in
  if (80 <? str_len value)
     || str_is_empty whole
     || negb (all_bytes is_ascii_digit whole)
     || negb (all_bytes is_ascii_digit fraction)
     || (decimals <? str_len fraction)
  then Err InvalidRequest
  else
    whole ← ok_or (u256_from_digits whole) InvalidRequest;
    fraction ← (if str_is_empty fraction then Ok 0
                else f ← ok_or (u256_from_digits fraction) InvalidRequest;
                     Ok (u256_mul f (u256_pow 10 (decimals - str_len fraction))));
    units ← ok_or (checked_mul whole (u256_pow 10 decimals) ≫= λ v, checked_add v fraction)
                  InvalidRequest;
    if units =? 0 then Err InvalidRequest else Ok units.

Record Ticker := mk_Ticker {
  base : string;
  quote : string;
  last_price : string;
  last_updated_at : Z;
}.

(** [Feed::usd_per_btc]; [now_nanos] is [now.unix_timestamp_nanos()], and Rust's
    integer division truncates. *)
Definition feed_usd_per_btc (tickers : list Ticker) (now_nanos : Z) :
    result CreateInvoiceError string :=
  match filter (λ t, String.eqb (base t) "BTC" && String.eqb (quote t) "USD" = true) tickers with
  | [] => Err Unavailable
  | rate :: more =>
    let age := Z.quot now_nanos 1000000 - last_updated_at rate in
    if negb (bool_decide (more = []))
       || (age <? 0)
       || (MAX_RATE_AGE_SECONDS * 1000 <? age)
       || (18 <? count_bytes (λ b, negb (Ascii.eqb b ".")) (last_price rate))
       || is_err (decimal_units (last_price rate) 18)
    then Err Unavailable
    else Ok (last_price rate)
  end.

(** ** Conversion rates *)

Record ConversionRate := mk_ConversionRate {
  rate_asset : string;
  rate_value : string;
}.

#[global] Instance ConversionRate_eq_dec : EqDecision ConversionRate.
Proof. solve_decision. Defined.

Definition format_rate (value : Z) : string :=
  let fraction := trim_end_matches "0" (fmt_pad 18 (value mod RATE_SCALE)) in
  if str_is_empty fraction then fmt_dec (value / RATE_SCALE)
  else fmt_dec (value / RATE_SCALE) ++ "." ++ fraction.

(** The reciprocal of a price, rounded half-even to eighteen decimal places. *)
Definition reciprocal (price : Z) : Z :=
  let numerator := u256_mul RATE_SCALE RATE_SCALE in
  let quotient := numerator / price in
  let remainder := numerator mod price in
  u256_add quotient
    (b2z ((price <? u256_mul remainder 2)
          || ((u256_mul remainder 2 =? price) && negb (quotient mod 2 =? 0)))).

Definition conversion_value (requested asset : CriterionAsset) (usd_per_btc : option string) :
    result CreateInvoiceError string :=
  if negb (Bool.eqb (asset_eqb requested Btc) (asset_eqb asset Btc)) then
    usd_per_btc ← ok_or usd_per_btc Unavailable;
    price ← decimal_units usd_per_btc 18;
    let multiplier := if asset_eqb requested Btc then price else reciprocal price in
    if multiplier =? 0 then Err Unavailable else Ok (format_rate multiplier)
  else Ok "1".

Fixpoint conversion_rates_for (requested : CriterionAsset) (usd_per_btc : option string)
    (options : list (CriterionAsset * bool)) : result CreateInvoiceError (list ConversionRate) :=
  match options with
  | [] => Ok []
  | (asset, enabled) :: options =>
    if negb enabled || asset_eqb asset requested
    then conversion_rates_for requested usd_per_btc options
    else
      value ← conversion_value requested asset usd_per_btc;
      rates ← conversion_rates_for requested usd_per_btc options;
      Ok (mk_ConversionRate (to_ascii_lowercase (as_str asset)) value :: rates)
  end.

Definition conversion_rates (requested : CriterionAsset) (bitcoin usdt : bool)
    (usd_per_btc : option string) : result CreateInvoiceError (list ConversionRate) :=
  conversion_rates_for requested usd_per_btc [(Btc, bitcoin); (Usdt, usdt)].

Definition find_rate (payment : CriterionAsset) (rates : list ConversionRate) :
    option ConversionRate :=
  head (filter (λ r, String.eqb (rate_asset r) (to_ascii_lowercase (as_str payment)) = true) rates).

Definition payment_units (amount : string) (requested payment : CriterionAsset)
    (rates : list ConversionRate) : result CreateInvoiceError Z :=
  units ← decimal_units amount (decimals requested);
  multiplier ← (if asset_eqb requested payment then Ok RATE_SCALE
                else rate ← ok_or (find_rate payment rates) InvalidRequest;
                     decimal_units (rate_value rate) 18);
  numerator ← ok_or (checked_mul units multiplier
                       ≫= λ v, checked_mul v (u256_pow 10 (decimals payment))) InvalidRequest;
  let denominator := u256_mul RATE_SCALE (u256_pow 10 (decimals requested)) in
  let result := u256_add (numerator / denominator) (b2z (negb (numerator mod denominator =? 0))) in
  if result <=? u64_max then Ok result else Err InvalidRequest.

(** ** Lemmas *)

Lemma u256_modulus_large : 10 ^ 77 < u256_modulus < 10 ^ 78.
Proof. split; reflexivity. Qed.

Lemma wrap_small x : 0 <= x < u256_modulus → wrap x = x.
Proof. apply Z.mod_small. Qed.

Lemma RATE_SCALE_pow : RATE_SCALE = 10 ^ 18.
Proof. reflexivity. Qed.

Lemma pow10_small d : 0 <= d <= 77 → u256_pow 10 d = 10 ^ d.
Proof.
  intros Hd. unfold u256_pow. apply wrap_small. split; [apply Z.pow_nonneg; lia|].
  apply Z.le_lt_trans with (10 ^ 77); [apply Z.pow_le_mono_r; lia|].
  apply u256_modulus_large.
Qed.

Lemma checked_mul_some a b v : checked_mul a b = Some v ↔ v = a * b ∧ a * b < u256_modulus.
Proof. unfold checked_mul. destruct (_ <? _) eqn:E; split_bools; naive_solver lia. Qed.

Lemma checked_add_some a b v : checked_add a b = Some v ↔ v = a + b ∧ a + b < u256_modulus.
Proof. unfold checked_add. destruct (_ <? _) eqn:E; split_bools; naive_solver lia. Qed.

Lemma u256_from_digits_some s v :
  u256_from_digits s = Some v ↔ v = dec_value s ∧ dec_value s < u256_modulus.
Proof. unfold u256_from_digits. destruct (_ <? _) eqn:E; split_bools; naive_solver lia. Qed.

(** A decimal numeral [whole.fraction] denotes [whole * 10^d + fraction * 10^(d-f)]. *)
Definition numeral_value (whole fraction : string) (d : Z) : Z :=
  dec_value whole * 10 ^ d + dec_value fraction * 10 ^ (d - str_len fraction).

Definition numeral_ok (value whole fraction : string) (d : Z) : Prop :=
  default (value, "") (split_once "." value) = (whole, fraction)
  ∧ str_len value <= 80 ∧ whole ≠ ""
  ∧ all_bytes is_ascii_digit whole = true ∧ all_bytes is_ascii_digit fraction = true
  ∧ str_len fraction <= d.

Lemma fraction_bound fraction d :
  all_bytes is_ascii_digit fraction = true → str_len fraction <= d →
  0 <= dec_value fraction * 10 ^ (d - str_len fraction) < 10 ^ d.
Proof.
  intros Hd%dec_value_bounds Hle. pose proof (str_len_nonneg fraction).
  assert (0 < 10 ^ (d - str_len fraction)) by (apply Z.pow_pos_nonneg; lia).
  replace (10 ^ d) with (10 ^ str_len fraction * 10 ^ (d - str_len fraction))
    by (rewrite <- Z.pow_add_r by lia; f_equal; lia). nia.
Qed.

(** The fraction term of [decimal_units] never wraps around. *)
Lemma fraction_no_wrap fraction d :
  0 <= d <= 77 → all_bytes is_ascii_digit fraction = true → str_len fraction <= d →
  u256_from_digits fraction = Some (dec_value fraction)
  ∧ u256_mul (dec_value fraction) (u256_pow 10 (d - str_len fraction))
    = dec_value fraction * 10 ^ (d - str_len fraction).
Proof.
  intros Hd Hf Hle. pose proof (str_len_nonneg fraction).
  pose proof (fraction_bound fraction d Hf Hle) as Hb.
  pose proof (dec_value_bounds _ Hf) as Hv.
  assert (10 ^ d <= 10 ^ 77) by (apply Z.pow_le_mono_r; lia).
  assert (10 ^ str_len fraction <= 10 ^ 77) by (apply Z.pow_le_mono_r; lia).
  pose proof u256_modulus_large. split.
  - apply u256_from_digits_some. lia.
  - rewrite pow10_small by lia. apply wrap_small. lia.
Qed.

Lemma decimal_units_spec value d whole fraction :
  0 <= d <= 77 → numeral_ok value whole fraction d →
  decimal_units value d =
    let v := numeral_value whole fraction d in
    if (v =? 0) || (u256_modulus <=? v) then Err InvalidRequest else Ok v.
Proof.
  intros Hd (Hsplit & Hlen & Hne & Hw & Hf & Hle). unfold decimal_units, numeral_value.
  rewrite Hsplit. rewrite (proj2 (Z.ltb_ge _ _)) by done.
  assert (str_is_empty whole = false) as -> by (by destruct whole).
  rewrite Hw, Hf, (proj2 (Z.ltb_ge _ _)) by done. simpl.
  pose proof (fraction_no_wrap fraction d Hd Hf Hle) as [Hfd Hfm].
  pose proof (fraction_bound fraction d Hf Hle) as Hb.
  pose proof (dec_value_bounds whole Hw) as Hwb.
  set (F := dec_value fraction * 10 ^ (d - str_len fraction)) in *.
  assert ((if str_is_empty fraction then Ok 0
           else f ← ok_or (u256_from_digits fraction) InvalidRequest;
                Ok (u256_mul f (u256_pow 10 (d - str_len fraction)))) = Ok (E:=CreateInvoiceError) F)
    as ->.
  { destruct (str_is_empty fraction) eqn:E.
    - destruct fraction; [|done]. done.
    - rewrite Hfd. simpl. by rewrite Hfm. }
  rewrite pow10_small by lia.
  assert (1 <= 10 ^ d) by (pose proof (Z.pow_pos_nonneg 10 d); lia).
  unfold u256_from_digits, checked_mul, checked_add.
  destruct (dec_value whole <? u256_modulus) eqn:E1; split_bools; simpl.
  - destruct (dec_value whole * 10 ^ d <? u256_modulus) eqn:E2; split_bools; simpl.
    + destruct (dec_value whole * 10 ^ d + F <? u256_modulus) eqn:E3; split_bools; simpl.
      * destruct (_ =? 0) eqn:E4; simpl; [done|]. by rewrite (proj2 (Z.leb_gt _ _)) by lia.
      * rewrite (proj2 (Z.leb_le _ _)) by lia. by rewrite orb_true_r.
    + rewrite (proj2 (Z.leb_le u256_modulus _)) by lia. by rewrite orb_true_r.
  - rewrite (proj2 (Z.leb_le u256_modulus _)) by nia. by rewrite orb_true_r.
Qed.

(** Every accepted numeral is well formed, positive and fits 256 bits. *)
Lemma decimal_units_ok value d v :
  0 <= d <= 77 → decimal_units value d = Ok v →
  ∃ whole fraction, numeral_ok value whole fraction d
    ∧ v = numeral_value whole fraction d ∧ 0 < v < u256_modulus.
Proof.
  intros Hd H.
  destruct (default (value, "") (split_once "." value)) as [w f] eqn:Hsplit.
  assert (numeral_ok value w f d) as Hok.
  { unfold decimal_units in H. rewrite Hsplit in H. destruct (_ || _) eqn:E in H; [done|].
    split_bools. unfold numeral_ok. rewrite Hsplit. repeat split; try done. by intros ->. }
  exists w, f. split; [done|]. rewrite (decimal_units_spec _ _ _ _ Hd Hok) in H. simpl in H.
  destruct (_ || _) eqn:E in H; [done|]. inv_ok. split_bools. split; [done|].
  split; [|done]. destruct Hok as (_ & _ & _ & Hw%dec_value_bounds & Hf & Hle).
  pose proof (fraction_bound _ _ Hf Hle). unfold numeral_value in *.
  assert (0 < 10 ^ d) by (apply Z.pow_pos_nonneg; lia). nia.
Qed.

Lemma decimal_units_dotted w f d :
  0 <= d <= 77 → w ≠ "" → all_bytes is_ascii_digit w = true →
  all_bytes is_ascii_digit f = true → str_len f <= d → str_len w + 1 + str_len f <= 80 →
  0 < numeral_value w f d < u256_modulus →
  decimal_units (w ++ "." ++ f) d = Ok (numeral_value w f d).
Proof.
  intros Hd Hne Hw Hf Hle Hlen Hv. rewrite (decimal_units_spec _ _ w f Hd).
  - simpl. rewrite (proj2 (Z.eqb_neq _ _)), (proj2 (Z.leb_gt _ _)) by lia. done.
  - unfold numeral_ok. simpl. rewrite split_once_app by (by apply digits_no_dot). simpl.
    rewrite str_len_app. change (str_len (String "." f)) with (str_len (String "." f)).
    replace (str_len (String "." f)) with (1 + str_len f) by (unfold str_len; simpl; lia).
    repeat split; try done. lia.
Qed.

Lemma decimal_units_whole w d :
  0 <= d <= 77 → w ≠ "" → all_bytes is_ascii_digit w = true → str_len w <= 80 →
  0 < dec_value w * 10 ^ d < u256_modulus →
  decimal_units w d = Ok (dec_value w * 10 ^ d).
Proof.
  intros Hd Hne Hw Hlen Hv. rewrite (decimal_units_spec _ _ w "" Hd).
  - unfold numeral_value. change (dec_value "") with 0. simpl.
    rewrite (Z.add_0_r (_ * _)), (proj2 (Z.eqb_neq _ _)), (proj2 (Z.leb_gt _ _)) by lia. done.
  - unfold numeral_ok. rewrite split_once_none by (by apply digits_no_dot). simpl.
    repeat split; try done. unfold str_len. simpl. lia.
Qed.

(** Trimming zeros of a fraction keeps its value at a fixed precision. *)
Lemma trimmed_fraction s d :
  all_bytes is_ascii_digit s = true → str_len s = d →
  let t := trim_end_matches "0" s in
  dec_value t * 10 ^ (d - str_len t) = dec_value s ∧ str_len t <= d.
Proof.
  intros Hs Hlen t. destruct (trim_end_matches_app "0" s) as [n Hn]. fold t in Hn.
  assert (str_len s = str_len t + Z.of_nat n) as Hl.
  { rewrite Hn at 1. rewrite str_len_app. f_equal. unfold str_len. by rewrite str_length_repeat. }
  split; [|lia]. transitivity (dec_value (t ++ repeat_char "0" n)); [|by rewrite <- Hn].
  rewrite dec_value_app, dec_value_repeat_zero.
  replace (str_len (repeat_char "0" n)) with (d - str_len t); [lia|].
  unfold str_len at 2. rewrite str_length_repeat. lia.
Qed.

Lemma half_even_bound n p q r :
  0 < p → n = p * q + r → 0 <= r < p →
  let v := q + b2z ((p <? r * 2) || ((r * 2 =? p) && negb (q mod 2 =? 0))) in
  2 * Z.abs (v * p - n) <= p ∧ (2 * Z.abs (v * p - n) = p → v mod 2 = 0).
Proof.
  intros Hp Hn Hr. simpl. destruct (p <? r * 2) eqn:E1; split_bools; simpl.
  - split; [nia|]. intros. exfalso. nia.
  - destruct (r * 2 =? p) eqn:E2; split_bools; simpl.
    + destruct (q mod 2 =? 0) eqn:E3; split_bools; simpl.
      * split; [nia|]. by rewrite Z.add_0_r.
      * split; [nia|]. intros _. pose proof (Z.mod_pos_bound q 2).
        rewrite <- Z.add_mod_idemp_l by lia. replace (q mod 2) with 1 by lia. done.
    + split; [nia|]. intros. exfalso. nia.
Qed.

Lemma reciprocal_no_wrap price :
  0 < price →
  reciprocal price =
    let q := 10 ^ 36 / price in let r := 10 ^ 36 mod price in
    q + b2z ((price <? r * 2) || ((r * 2 =? price) && negb (q mod 2 =? 0))).
Proof.
  intros Hp. unfold reciprocal.
  replace (u256_mul RATE_SCALE RATE_SCALE) with (10 ^ 36) by reflexivity.
  assert (0 < 10 ^ 36) as HN by reflexivity.
  assert (10 ^ 36 * 2 + 1 < u256_modulus) as Hbig by reflexivity.
  generalize dependent (10 ^ 36). intros N HN Hbig. cbv zeta.
  pose proof (Z.mod_pos_bound N price Hp) as Hr.
  pose proof (Z.mod_le N price ltac:(lia) Hp) as Hle.
  assert (0 <= N / price <= N) as Hq.
  { split; [apply Z.div_pos; lia|]. apply Z.div_le_upper_bound; nia. }
  unfold u256_mul. rewrite (wrap_small (_ * 2)) by lia.
  unfold u256_add. rewrite wrap_small; [done|].
  unfold b2z. case_match; lia.
Qed.

Lemma find_rate_in payment rates r :
  find_rate payment rates = Some r →
  r ∈ rates ∧ rate_asset r = to_ascii_lowercase (as_str payment).
Proof.
  unfold find_rate. induction rates as [|x rates IH]; [done|].
  rewrite filter_cons. case_decide as Hx; simpl.
  - intros [= ->]. apply String.eqb_eq in Hx. split; [left|done].
  - intros [? ?]%IH. split; [by right|done].
Qed.

Lemma conversion_rates_for_in requested price options rates r :
  conversion_rates_for requested price options = Ok rates → r ∈ rates →
  ∃ asset, (asset, true) ∈ options ∧ asset ≠ requested
    ∧ rate_asset r = to_ascii_lowercase (as_str asset)
    ∧ conversion_value requested asset price = Ok (rate_value r).
Proof.
  revert rates. induction options as [|[asset enabled] options IH]; intros rates; simpl.
  - intros [= <-] Hr. by apply not_elem_of_nil in Hr.
  - destruct (negb enabled || asset_eqb asset requested) eqn:E.
    + intros H Hr. destruct (IH _ H Hr) as (a & Ha & Hrest). exists a. split; [by right|done].
    + intros H Hr. inv_ok. unfold asset_eqb in *. split_bools. subst enabled.
      apply elem_of_cons in Hr as [->|Hr].
      * exists asset. split; [left|]. done.
      * destruct (IH _ ltac:(eassumption) Hr) as (a & Ha & Hrest). exists a. split; [by right|done].
Qed.

Lemma conversion_rates_for_complete requested price options rates asset :
  conversion_rates_for requested price options = Ok rates →
  (asset, true) ∈ options → asset ≠ requested → is_some (find_rate asset rates) = true.
Proof.
  revert rates. induction options as [|[a enabled] options IH]; intros rates; simpl.
  - intros _ H. by apply not_elem_of_nil in H.
  - intros H [Heq|Hin]%elem_of_cons Hne.
    + injection Heq as <- <-. unfold asset_eqb in H.
      rewrite (bool_decide_eq_false_2 _ Hne) in H. simpl in H. inv_ok.
      unfold find_rate. rewrite filter_cons_True by (simpl; apply String.eqb_refl). done.
    + destruct (_ || _) in H; [by eapply IH|]. inv_ok.
      assert (is_some (find_rate asset x0) = true) as Hr by (by eapply IH).
      revert Hr. unfold find_rate. rewrite filter_cons. by case_decide.
Qed.

(** The value of a published rate: the exact price when a bitcoin amount is paid in
    dollars, its half-even reciprocal when a dollar amount is paid in bitcoin, and
    one between dollars. *)
Definition rate_multiplier (requested asset : CriterionAsset) (price : Z) : Z :=
  if negb (Bool.eqb (asset_eqb requested Btc) (asset_eqb asset Btc))
  then if asset_eqb requested Btc then price else reciprocal price
  else RATE_SCALE.

Lemma format_rate_decimal v :
  0 < v < u256_modulus → decimal_units (format_rate v) 18 = Ok v.
Proof.
  intros Hv. unfold format_rate. rewrite RATE_SCALE_pow.
  set (w := v / 10 ^ 18). set (f := v mod 10 ^ 18).
  assert (0 <= w < 10 ^ 60) as Hw.
  { pose proof u256_modulus_large. split; [apply Z.div_pos; lia|].
    apply Z.div_lt_upper_bound; [done|]. change (10 ^ 18 * 10 ^ 60) with (10 ^ 78). lia. }
  assert (0 <= f < 10 ^ 18) as Hf by (apply Z.mod_pos_bound; done).
  assert (v = w * 10 ^ 18 + f) as Hsum.
  { unfold w, f. rewrite (Z.mul_comm _ (10 ^ 18)). by apply Z.div_mod. }
  pose proof (fmt_pad_digits 18 f ltac:(lia)) as Hfd.
  assert (str_len (fmt_pad 18 f) = 18) as Hfl.
  { unfold str_len. rewrite fmt_pad_length; [done|lia|exact Hf]. }
  pose proof (fmt_dec_length_of w 60 ltac:(lia) Hw) as Hwl.
  destruct (trimmed_fraction _ 18 Hfd Hfl) as [Htv Htl].
  rewrite fmt_pad_value in Htv by lia.
  set (t := trim_end_matches "0" (fmt_pad 18 f)) in *.
  assert (numeral_value (fmt_dec w) t 18 = v) as Hnum.
  { unfold numeral_value. rewrite fmt_dec_value by lia. lia. }
  destruct (str_is_empty t) eqn:Et.
  - assert (f = 0) as Hf0.
    { destruct t as [|c t']; [|done]. rewrite <- Htv. reflexivity. }
    rewrite decimal_units_whole; rewrite ?fmt_dec_value by lia; try done; try lia.
    + by rewrite Hsum, Hf0, Z.add_0_r.
    + apply fmt_dec_nonempty.
    + apply fmt_dec_digits; lia.
  - rewrite decimal_units_dotted; rewrite ?Hnum; try done; try lia.
    + apply fmt_dec_nonempty.
    + apply fmt_dec_digits; lia.
    + by apply all_bytes_trim.
Qed.

Lemma decimal_amount_units a u :
  0 < u <= u64_max → decimal_units (decimal_amount a u) (decimals a) = Ok u.
Proof.
  intros Hu. rewrite decimal_amount_split. pose proof (decimals_pos a) as Hd.
  set (d := decimals a) in *.
  assert (0 < 10 ^ d) by (apply Z.pow_pos_nonneg; lia).
  pose proof (Z.mod_pos_bound u (10 ^ d) ltac:(lia)) as Hf.
  assert (0 <= u / 10 ^ d) as Hw by (apply Z.div_pos; lia).
  assert (u / 10 ^ d < 10 ^ 20) as Hw'.
  { apply Z.div_lt_upper_bound; [lia|]. assert (u64_max < 10 ^ 20) by reflexivity. nia. }
  assert (str_len (fmt_pad (Z.to_nat d) (u mod 10 ^ d)) = d) as Hlen.
  { unfold str_len. rewrite fmt_pad_length; [lia|lia|]. by rewrite Z2Nat.id by lia. }
  pose proof (fmt_dec_length_of _ 20 ltac:(lia) (conj Hw Hw')).
  assert (numeral_value (fmt_dec (u / 10 ^ d)) (fmt_pad (Z.to_nat d) (u mod 10 ^ d)) d = u) as Hn.
  { unfold numeral_value. rewrite Hlen, fmt_dec_value, fmt_pad_value by lia.
    rewrite Z.sub_diag, Z.pow_0_r, Z.mul_1_r, (Z.mul_comm _ (10 ^ d)).
    symmetry. apply Z.div_mod. lia. }
  assert (u64_max < u256_modulus) by reflexivity.
  rewrite decimal_units_dotted; rewrite ?Hn; try done; try lia.
  - apply fmt_dec_nonempty.
  - apply fmt_dec_digits; lia.
  - apply fmt_pad_digits; lia.
Qed.

(** The least integer not below [n / d]. *)
Definition ceil_div (n d : Z) : Z := n / d + b2z (negb (n mod d =? 0)).

Lemma ceil_div_spec n d : 0 < d → (ceil_div n d - 1) * d < n <= ceil_div n d * d.
Proof.
  intros Hd. unfold ceil_div. pose proof (Z.div_mod n d ltac:(lia)).
  pose proof (Z.mod_pos_bound n d Hd).
  destruct (n mod d =? 0) eqn:E; split_bools; simpl; nia.
Qed.

(** With the rate found, [payment_units] is an exact rounded-up division. *)
Lemma payment_units_value amount requested payment rates u m :
  decimal_units amount (decimals requested) = Ok u →
  (if asset_eqb requested payment then Ok RATE_SCALE
   else rate ← ok_or (find_rate payment rates) InvalidRequest;
        decimal_units (rate_value rate) 18) = Ok m →
  0 < u → 0 < m → u * m * 10 ^ decimals payment < u256_modulus →
  let c := ceil_div (u * m * 10 ^ decimals payment) (10 ^ 18 * 10 ^ decimals requested) in
  payment_units amount requested payment rates =
    if c <=? u64_max then Ok c else Err InvalidRequest.
Proof.
  intros Hu Hm Hu0 Hm0 Hbig c. unfold payment_units. rewrite Hu. simpl. rewrite Hm. simpl.
  pose proof (decimals_pos payment) as Hp. pose proof (decimals_pos requested) as Hr.
  rewrite !pow10_small by lia.
  assert (0 < 10 ^ decimals payment) by (apply Z.pow_pos_nonneg; lia).
  assert (0 < 10 ^ decimals requested) by (apply Z.pow_pos_nonneg; lia).
  rewrite (proj2 (checked_mul_some u m (u * m))) by (split; [done|nia]). simpl.
  rewrite (proj2 (checked_mul_some _ _ _) (conj eq_refl Hbig)). simpl.
  assert (u256_mul RATE_SCALE (10 ^ decimals requested) = 10 ^ 18 * 10 ^ decimals requested) as ->.
  { by destruct requested. }
  set (D := 10 ^ 18 * 10 ^ decimals requested) in *.
  assert (1 < D) as HD by (unfold D; assert (1 < 10 ^ 18) by reflexivity; nia).
  set (N := u * m * 10 ^ decimals payment) in *.
  assert (0 <= N) by (unfold N; nia).
  assert (u256_add (N / D) (b2z (negb (N mod D =? 0))) = c) as ->; [|done].
  unfold u256_add, c, ceil_div. rewrite wrap_small; [done|].
  assert (0 <= N / D <= N - 1 ∨ N = 0) as Hdiv.
  { destruct (decide (N = 0)); [by right|]. left. split; [apply Z.div_pos; lia|].
    assert (N / D < N); [|lia]. apply Z.div_lt; lia. }
  unfold b2z. destruct Hdiv as [?|HN0].
  - destruct (negb (N mod D =? 0)); lia.
  - rewrite HN0, Z.div_0_l, Z.mod_0_l by lia. done.
Qed.

(** ** Properties *)

(** a published conversion rate denotes exactly the multiplier it was formatted
    from: for every positive 256-bit value, reading the formatted rate back at
    eighteen decimals gives the value, so neither trimming zeros nor the length and
    width limits of the parser lose anything. *)
Theorem format_rate_roundtrip v :
  0 < v < u256_modulus → decimal_units (format_rate v) 18 = Ok v.
Proof. apply format_rate_decimal. Qed.

Lemma format_rate_roundtrip_witness :
  decimal_units (format_rate 12345679012346) 18 = Ok 12345679012346
  ∧ format_rate 12345679012346 = "0.000012345679012346".
Proof.
  split; [|vm_compute; reflexivity].
  apply (format_rate_roundtrip 12345679012346). split; reflexivity.
Defined.

(** the decimal amount of a request denotes exactly its base units: for every
    positive [u64] amount of every denomination, formatting and parsing back is the
    identity. *)
Theorem decimal_amount_roundtrip a u :
  0 < u <= u64_max → decimal_units (decimal_amount a u) (decimals a) = Ok u.
Proof. apply decimal_amount_units. Qed.

Lemma decimal_amount_roundtrip_witness :
  decimal_units (decimal_amount Usd 500) 2 = Ok 500 ∧ decimal_amount Usd 500 = "5.00".
Proof.
  split; [|vm_compute; reflexivity].
  apply (decimal_amount_roundtrip Usd 500). unfold u64_max. lia.
Defined.

(** the reciprocal quote is the half-even rounding of [10^36 / price] and no
    256-bit operation on the way wraps around, whatever positive price is quoted. *)
Theorem reciprocal_half_even price :
  0 < price →
  2 * Z.abs (reciprocal price * price - 10 ^ 36) <= price
  ∧ (2 * Z.abs (reciprocal price * price - 10 ^ 36) = price → reciprocal price mod 2 = 0).
Proof.
  intros Hp. rewrite reciprocal_no_wrap by done.
  apply (half_even_bound (10 ^ 36) price (10 ^ 36 / price) (10 ^ 36 mod price) Hp).
  - by apply Z.div_mod, Z.neq_sym, Z.lt_neq.
  - by apply Z.mod_pos_bound.
Qed.

Lemma reciprocal_half_even_witness :
  2 * Z.abs (reciprocal (81000 * 10 ^ 18) * (81000 * 10 ^ 18) - 10 ^ 36) <= 81000 * 10 ^ 18.
Proof. apply (reciprocal_half_even (81000 * 10 ^ 18)). reflexivity. Defined.

(** paying in the requested asset itself costs exactly the requested amount,
    whatever rates are attached. *)
Theorem payment_units_same_asset a u rates :
  0 < u <= u64_max → payment_units (decimal_amount a u) a a rates = Ok u.
Proof.
  intros Hu. pose proof (decimals_pos a).
  assert (0 < 10 ^ decimals a <= 10 ^ 8) as Hd.
  { split; [apply Z.pow_pos_nonneg; lia|apply Z.pow_le_mono_r; lia]. }
  assert (u64_max * 10 ^ 18 * 10 ^ 8 < u256_modulus) as Hm by reflexivity.
  rewrite (payment_units_value _ _ _ _ u RATE_SCALE); rewrite ?RATE_SCALE_pow;
    [| by apply decimal_amount_units | unfold asset_eqb; by rewrite bool_decide_eq_true_2
     | lia | done | nia].
  assert (ceil_div (u * 10 ^ 18 * 10 ^ decimals a) (10 ^ 18 * 10 ^ decimals a) = u) as ->.
  { assert (0 < 10 ^ 18 * 10 ^ decimals a) as HD by (assert (0 < 10 ^ 18) by reflexivity; nia).
    rewrite <- Z.mul_assoc. set (D := 10 ^ 18 * 10 ^ decimals a) in *.
    pose proof (ceil_div_spec (u * D) D HD). nia. }
  by rewrite (proj2 (Z.leb_le _ _)) by lia.
Qed.

Lemma payment_units_same_asset_witness :
  payment_units "0.00000001" Btc Btc [] = Ok 1.
Proof. apply (payment_units_same_asset Btc 1 []). unfold u64_max. lia. Defined.

Definition max_price : Z := 10 ^ 36.

Lemma reciprocal_bounds price : 0 < price → 0 <= reciprocal price <= 10 ^ 36 + 1.
Proof.
  intros Hp. rewrite reciprocal_no_wrap by done. cbv zeta.
  assert (0 < 10 ^ 36) as HN by reflexivity. generalize dependent (10 ^ 36). intros N HN.
  assert (0 <= N / price <= N) as Hq.
  { split; [apply Z.div_pos; lia|]. apply Z.div_le_upper_bound; nia. }
  unfold b2z. case_match; lia.
Qed.

Lemma conversion_value_multiplier requested asset text price v :
  decimal_units text 18 = Ok price → price <= max_price →
  conversion_value requested asset (Some text) = Ok v →
  decimal_units v 18 = Ok (rate_multiplier requested asset price)
  ∧ 0 < rate_multiplier requested asset price <= max_price + 1.
Proof.
  intros Hprice Hmax. unfold conversion_value, rate_multiplier, max_price in *.
  destruct (decimal_units_ok _ 18 _ ltac:(lia) Hprice) as (_ & _ & _ & _ & Hpos).
  destruct (negb _).
  - intros H. inv_ok. rewrite Hprice in *. inv_ok.
    pose proof (reciprocal_bounds x0 ltac:(lia)) as Hr.
    set (m := if asset_eqb requested Btc then x0 else reciprocal x0) in *.
    assert (0 <= m <= 10 ^ 36 + 1) as Hm by (unfold m; destruct (asset_eqb requested Btc); lia).
    destruct (m =? 0) eqn:Em; [done|]. inv_ok. split_bools.
    assert (10 ^ 36 + 1 < u256_modulus) by reflexivity.
    split; [apply format_rate_decimal; lia|lia].
  - intros H. inv_ok. split; [vm_compute; reflexivity|].
    split; [vm_compute; reflexivity|]. apply Z.leb_le. vm_compute. reflexivity.
Qed.

(** C9: pricing is exact and never under-collects.  When the service quotes a
    positive amount [u] in [requested] units at a feed price and offers [payment] at
    the published rates, the payable amount is the least integer [c] of payment
    units with [c >= u * m / 10^18] after scaling both assets to whole units, where
    [m] is the published multiplier; the computation never overflows 256 bits, and
    the only error left is that the payable amount itself does not fit [u64]. *)
Theorem quoted_payment_exact requested payment bitcoin usdt text price rates u :
  decimal_units text 18 = Ok price → price <= max_price →
  conversion_rates requested bitcoin usdt (Some text) = Ok rates →
  (payment, true) ∈ [(Btc, bitcoin); (Usdt, usdt)] → payment ≠ requested →
  0 < u <= u64_max →
  let m := rate_multiplier requested payment price in
  let c := ceil_div (u * m * 10 ^ decimals payment) (10 ^ 18 * 10 ^ decimals requested) in
  payment_units (decimal_amount requested u) requested payment rates
    = (if c <=? u64_max then Ok c else Err InvalidRequest)
  ∧ (c - 1) * (10 ^ 18 * 10 ^ decimals requested) < u * m * 10 ^ decimals payment
       <= c * (10 ^ 18 * 10 ^ decimals requested).
Proof.
  intros Hprice Hmax Hrates Hoff Hne Hu m c.
  pose proof (conversion_rates_for_complete _ _ _ _ _ Hrates Hoff Hne) as Hfind.
  destruct (find_rate payment rates) as [r|] eqn:Hr; [|done].
  destruct (find_rate_in _ _ _ Hr) as [Hin Hasset].
  destruct (conversion_rates_for_in _ _ _ _ _ Hrates Hin) as (a & _ & _ & Ha & Hv).
  assert (a = payment) as ->.
  { apply as_str_lower_inj. congruence. }
  destruct (conversion_value_multiplier _ _ _ _ _ Hprice Hmax Hv) as [Hm Hmb]. fold m in Hm, Hmb.
  pose proof (decimals_pos payment). pose proof (decimals_pos requested).
  assert (0 < 10 ^ decimals payment <= 10 ^ 8) as Hd.
  { split; [apply Z.pow_pos_nonneg; lia|apply Z.pow_le_mono_r; lia]. }
  assert (u64_max * (max_price + 1) * 10 ^ 8 < u256_modulus) as Hbig by reflexivity.
  split.
  - apply payment_units_value; try lia.
    + by apply decimal_amount_units.
    + unfold asset_eqb. rewrite bool_decide_eq_false_2 by congruence. rewrite Hr. exact Hm.
    + apply Z.le_lt_trans with (u64_max * (max_price + 1) * 10 ^ 8); [|done].
      apply Z.mul_le_mono_nonneg; [nia| |lia|lia]. apply Z.mul_le_mono_nonneg; lia.
  - apply ceil_div_spec. assert (0 < 10 ^ 18) by reflexivity.
    assert (0 < 10 ^ decimals requested) by (apply Z.pow_pos_nonneg; lia). nia.
Qed.

Definition example_rates : list ConversionRate :=
  [mk_ConversionRate "btc" "0.000012345679012346"; mk_ConversionRate "usdt" "1"].

Definition example_price : Z := 81000 * 10 ^ 18.

Lemma quoted_payment_exact_witness :
  let c := ceil_div (500 * rate_multiplier Usd Btc example_price * 10 ^ decimals Btc)
             (10 ^ 18 * 10 ^ decimals Usd) in
  payment_units (decimal_amount Usd 500) Usd Btc example_rates
    = (if c <=? u64_max then Ok c else Err InvalidRequest)
  ∧ c = 6173.
Proof.
  split; [|vm_compute; reflexivity].
  refine (proj1 (quoted_payment_exact Usd Btc true true "81000" example_price
    example_rates 500 _ _ _ _ _ _)).
  - vm_compute. reflexivity.
  - apply Z.leb_le. vm_compute. reflexivity.
  - vm_compute. reflexivity.
  - left.
  - discriminate.
  - unfold u64_max. lia.
Defined.

(** every offered asset is priced: whenever the rates of a request are computed,
    each enabled asset other than the requested one has a published rate, and each
    published rate belongs to exactly such an asset. *)
Theorem conversion_rates_cover_offer requested bitcoin usdt price rates :
  conversion_rates requested bitcoin usdt price = Ok rates →
  (∀ a, (a, true) ∈ [(Btc, bitcoin); (Usdt, usdt)] → a ≠ requested →
        is_some (find_rate a rates) = true)
  ∧ (∀ r, r ∈ rates → ∃ a, (a, true) ∈ [(Btc, bitcoin); (Usdt, usdt)] ∧ a ≠ requested
        ∧ rate_asset r = to_ascii_lowercase (as_str a)).
Proof.
  intros H. split.
  - intros a Hin Hne. exact (conversion_rates_for_complete _ _ _ _ _ H Hin Hne).
  - intros r Hr. destruct (conversion_rates_for_in _ _ _ _ _ H Hr) as (a & ? & ? & ? & _).
    by exists a.
Qed.

Lemma conversion_rates_cover_offer_witness :
  is_some (find_rate Btc example_rates) = true.
Proof.
  refine (proj1 (conversion_rates_cover_offer Usd true true (Some "81000") example_rates _)
            Btc _ _).
  - vm_compute. reflexivity.
  - left.
  - discriminate.
Defined.

(** the feed answers only with a unique, fresh, positive BTC/USD price of at most
    eighteen digits: exactly one ticker of the pair exists, its age is between zero
    and six hundred seconds inclusive, and the returned text parses to a positive
    price. *)
Theorem feed_price_fresh_and_unique tickers now price :
  feed_usd_per_btc tickers now = Ok price →
  ∃ t, filter (λ t, String.eqb (base t) "BTC" && String.eqb (quote t) "USD" = true) tickers = [t]
    ∧ price = last_price t
    ∧ 0 <= Z.quot now 1000000 - last_updated_at t <= 600 * 1000
    ∧ count_bytes (λ b, negb (Ascii.eqb b ".")) price <= 18
    ∧ ∃ p, decimal_units price 18 = Ok p ∧ 0 < p.
Proof.
  unfold feed_usd_per_btc. destruct (filter _ tickers) as [|t more] eqn:E; [done|].
  destruct (_ || _) eqn:F; [done|]. intros [= <-]. unfold MAX_RATE_AGE_SECONDS in F. split_bools.
  exists t. subst more. do 4 (split; [done || lia|]).
  unfold is_err, is_ok in *. destruct (decimal_units (last_price t) 18) as [p|] eqn:Hp; [|done].
  exists p. split; [done|]. by destruct (decimal_units_ok _ 18 _ ltac:(lia) Hp) as (? & ? & ? & ? & ? & _).
Qed.

Definition example_ticker : Ticker := mk_Ticker "BTC" "USD" "81000.12" 1700000000000.

Lemma feed_price_fresh_and_unique_witness :
  ∃ t, filter (λ t, String.eqb (base t) "BTC" && String.eqb (quote t) "USD" = true)
         [example_ticker] = [t] ∧ "81000.12" = last_price t.
Proof.
  destruct (feed_price_fresh_and_unique [example_ticker] 1700000600000000000 "81000.12")
    as (t & H1 & H2 & _); [vm_compute; reflexivity|]. exists t. split; [exact H1|exact H2].
Defined.
