(* ===== verification/Intent.v ===== *)
(** * Intent: durable semantic delivery intents ([application/semantic_intent.rs])

    A delivery intent is the complete, versioned input of one public Paykit SDK
    call, stored encrypted in an outbox row.  The SDK's validated value types, its
    wire serialisation, RFC 3339 parsing and UUID parsing are other packages': they
    are the fields of the class [PaykitLib].  [OffsetDateTime] is the instant in
    nanoseconds. *)

From S2P Require Import Prelude Text Locks Invoice Pricing.
Local Open Scope string_scope.
Local Open Scope Z_scope.

Definition PAYKIT_APP_ID : string := "paykit-server".

(** [paykit_lib::PaymentConversion] *)
Inductive PaymentConversion :=
| Fixed (rates : list ConversionRate)
| PerPeriod.

(** What the server hands to [PaymentRequestTerms::builder]. *)
Record TermsInput (PaymentAmount PaymentReference EndpointIdentifier AppId Metadata : Type) :=
  mk_TermsInput {
    ti_amount : PaymentAmount;
    ti_reference : PaymentReference;
    ti_identifiers : list EndpointIdentifier;
    ti_conversion : option PaymentConversion;
    ti_proposal_expires_at : option string;
    ti_payment_deadline : option string;
    ti_required_app_id : option AppId;
    ti_endpoints : option (list (EndpointIdentifier * string));
    ti_metadata : Metadata;
  }.

Class PaykitLib := {
  (* validated SDK value types and their smart constructors *)
  PaykitAppId : Type;
  app_id_new : string → option PaykitAppId;
  app_id_str : PaykitAppId → string;
  PaymentAmount : Type;
  amount_new : string → string → option PaymentAmount;
  amount_value : PaymentAmount → string;
  amount_asset : PaymentAmount → string;
  PaymentReference : Type;
  reference_new : string → option PaymentReference;
  reference_str : PaymentReference → string;
  EndpointIdentifier : Type;
  identifier_new : string → option EndpointIdentifier;
  identifier_str : EndpointIdentifier → string;
  PaymentRequestId : Type;
  request_id_new : string → option PaymentRequestId;
  Metadata : Type;
  #[global] app_id_eq_dec :: EqDecision PaykitAppId;
  #[global] metadata_eq_dec :: EqDecision Metadata;
  empty_metadata : Metadata;
  (* Payment Request terms: builder and accessors *)
  PaymentRequestTerms : Type;
  terms_build : TermsInput PaymentAmount PaymentReference EndpointIdentifier PaykitAppId Metadata →
                option PaymentRequestTerms;
  terms_recurrence : PaymentRequestTerms → bool;
  terms_conversion : PaymentRequestTerms → option PaymentConversion;
  terms_required_app_id : PaymentRequestTerms → option PaykitAppId;
  terms_amount : PaymentRequestTerms → PaymentAmount;
  terms_reference : PaymentRequestTerms → PaymentReference;
  terms_proposal_expires_at : PaymentRequestTerms → option string;
  (* [payment_deadline().map(|d| d.at(None))] *)
  terms_payment_deadline_at : PaymentRequestTerms → option (option string);
  terms_identifiers : PaymentRequestTerms → list EndpointIdentifier;
  terms_endpoints : PaymentRequestTerms → option (list (EndpointIdentifier * string));
  terms_metadata : PaymentRequestTerms → Metadata;
  (* length of the serialised request event; its identifiers have fixed width *)
  event_wire_len : PaykitAppId → PaymentRequestTerms → option Z;
  PUBKY_NOISE_MSG_LEN : Z;
  (* [PaymentDeadline::At { timestamp }.at(None)] *)
  deadline_at : string → option string;
  (* the [time] and [uuid] crates *)
  parse_rfc3339 : string → option Z;
  Uuid : Type;
  #[global] uuid_eq_dec :: EqDecision Uuid;
  #[global] uuid_countable :: Countable Uuid;
  uuid_parse : string → option Uuid;
  uuid_version : Uuid → Z;
  uuid_is_rfc4122 : Uuid → bool;
  uuid_hyphenated : Uuid → string;
}.

Section intent.
Context {core : LocksCore} {lib : PaykitLib}.

Record PaymentTermsV1 := mk_PaymentTermsV1 {
  amount : string;
  asset : string;
  rates : list ConversionRate;
  payment_reference : string;
  proposal_expires_at : option string;
  payment_deadline : option string;
  accepted_endpoint_identifiers : list string;
  payment_endpoints : gmap string string;
  metadata : Metadata;
}.

#[global] Instance PaymentTermsV1_eq_dec : EqDecision PaymentTermsV1.
Proof. solve_decision. Defined.

Inductive DeliveryOperationV1 :=
| PaymentRequestProposal (terms : PaymentTermsV1)
| PaymentRequestCancellation (payment_request_id : string).

#[global] Instance DeliveryOperationV1_eq_dec : EqDecision DeliveryOperationV1.
Proof. solve_decision. Defined.

Record DeliveryIntentV1 := mk_DeliveryIntentV1 {
  version : Z;
  reader_pubky : string;
  app_id : string;
  operation : DeliveryOperationV1;
}.

Inductive DeliveryIntentError := Intent_Invalid.

Definition PaymentTermsV1_to_sdk (t : PaymentTermsV1) :
    result DeliveryIntentError PaymentRequestTerms :=
  sdk_amount ← ok_or (amount_new (amount t) (asset t)) Intent_Invalid;
  sdk_reference ← ok_or (reference_new (payment_reference t)) Intent_Invalid;
  identifiers ← collect (λ i, ok_or (identifier_new i) Intent_Invalid)
                  (accepted_endpoint_identifiers t);
  required ← ok_or (app_id_new PAYKIT_APP_ID) Intent_Invalid;
  endpoints ← collect (λ '(i, payload),
                  i ← ok_or (identifier_new i) Intent_Invalid; Ok (i, payload))
                (map_to_list (payment_endpoints t));
  ok_or (terms_build {|
    ti_amount := sdk_amount;
    ti_reference := sdk_reference;
    ti_identifiers := identifiers;
    ti_conversion := if bool_decide (rates t = []) then None else Some (Fixed (rates t));
    ti_proposal_expires_at := proposal_expires_at t;
    ti_payment_deadline := payment_deadline t;
    ti_required_app_id := Some required;
    ti_endpoints := Some endpoints;
    ti_metadata := metadata t;
  |}) Intent_Invalid.

(** [value.as_ref().is_some_and(|v| OffsetDateTime::parse(v).is_err())] *)
Definition unparsable (value : option string) : bool :=
  match value with Some v => is_none (parse_rfc3339 v) | None => false end.

(** The derived order of [Option]: [None] is least. *)
Definition option_lt (a b : option Z) : bool :=
  match a, b with
  | None, Some _ => true
  | Some x, Some y => x <? y
  | _, None => false
  end.

Definition validate_terms (t : PaymentTermsV1) : result DeliveryIntentError unit :=
  sdk ← PaymentTermsV1_to_sdk t;
  app ← ok_or (app_id_new PAYKIT_APP_ID) Intent_Invalid;
  wire ← ok_or (event_wire_len app sdk) Intent_Invalid;
  ensure (wire <=? PUBKY_NOISE_MSG_LEN) Intent_Invalid ;;
  if is_none (reference_new (payment_reference t))
     || is_none (amount_new (amount t) (asset t))
     || bool_decide (accepted_endpoint_identifiers t = [])
     || bool_decide (payment_endpoints t = ∅)
     || existsb (λ '(identifier, payload),
            str_is_empty payload
            || negb (bool_decide (identifier ∈ accepted_endpoint_identifiers t))
            || is_none (identifier_new identifier)) (map_to_list (payment_endpoints t))
     || existsb (λ identifier, is_none (identifier_new identifier))
          (accepted_endpoint_identifiers t)
  then Err Intent_Invalid
  else
    reference ← ok_or (uuid_parse (payment_reference t)) Intent_Invalid;
    if negb (uuid_version reference =? 4)
       || negb (uuid_is_rfc4122 reference)
       || negb (String.eqb (payment_reference t) (uuid_hyphenated reference))
       || unparsable (proposal_expires_at t)
       || unparsable (payment_deadline t)
    then Err Intent_Invalid
    else
      match proposal_expires_at t, payment_deadline t with
      | None, None => Ok tt
      | Some proposal, Some payment =>
        if option_lt (parse_rfc3339 proposal) (parse_rfc3339 payment) then Ok tt
        else Err Intent_Invalid
      | _, _ => Err Intent_Invalid
      end.

Definition validate (i : DeliveryIntentV1) : result DeliveryIntentError unit :=
  if negb (version i =? 2)
     || is_err (parse_reader (reader_pubky i))
     || negb (String.eqb (app_id i) PAYKIT_APP_ID)
  then Err Intent_Invalid
  else
    match operation i with
    | PaymentRequestProposal terms => validate_terms terms
    | PaymentRequestCancellation id =>
      ok_or (request_id_new id) Intent_Invalid ;; Ok tt
    end.

Definition payment_request (reader_pubky : string) (app : PaykitAppId)
    (terms : PaymentRequestTerms) : result DeliveryIntentError DeliveryIntentV1 :=
  if terms_recurrence terms
     || match terms_conversion terms with Some PerPeriod => true | _ => false end
     || negb (bool_decide (terms_required_app_id terms = Some app))
  then Err Intent_Invalid
  else
    deadline ← transpose ((λ d, ok_or d Intent_Invalid) <$> terms_payment_deadline_at terms);
    endpoints ← ok_or (terms_endpoints terms) Intent_Invalid;
    let intent := {|
      version := 2;
      reader_pubky := reader_pubky;
      app_id := app_id_str app;
      operation := PaymentRequestProposal {|
        amount := amount_value (terms_amount terms);
        asset := amount_asset (terms_amount terms);
        rates := match terms_conversion terms with Some (Fixed rates) => rates | _ => [] end;
        payment_reference := reference_str (terms_reference terms);
        proposal_expires_at := terms_proposal_expires_at terms;
        payment_deadline := deadline;
        accepted_endpoint_identifiers := identifier_str <$> terms_identifiers terms;
        payment_endpoints :=
          list_to_map ((λ '(i, payload), (identifier_str i, payload)) <$> endpoints);
        metadata := terms_metadata terms;
      |} |} in
    validate intent ;; Ok intent.

Definition is_proposal (i : DeliveryIntentV1) : bool :=
  match operation i with PaymentRequestProposal _ => true | _ => false end.

Definition payment_request_cancellation (proposal : DeliveryIntentV1)
    (payment_request_id : string) : result DeliveryIntentError DeliveryIntentV1 :=
  if negb (is_proposal proposal) || is_none (request_id_new payment_request_id)
  then Err Intent_Invalid
  else
    let intent := {|
      version := 2;
      reader_pubky := reader_pubky proposal;
      app_id := app_id proposal;
      operation := PaymentRequestCancellation payment_request_id;
    |} in
    validate intent ;; Ok intent.

Definition proposal_payment_reference (i : DeliveryIntentV1) :
    result DeliveryIntentError string :=
  match operation i with
  | PaymentRequestProposal terms =>
    ok_or (reference_new (payment_reference terms)) Intent_Invalid ;;
    Ok (payment_reference terms)
  | PaymentRequestCancellation _ => Err Intent_Invalid
  end.

Definition with_deadlines (t : PaymentTermsV1) (proposal payment : option string) :
    PaymentTermsV1 :=
  mk_PaymentTermsV1 (amount t) (asset t) (rates t) (payment_reference t) proposal payment
    (accepted_endpoint_identifiers t) (payment_endpoints t) (metadata t).

(** [set_deadlines(&mut self)]: the new value of the intent and the answer.  A failing
    final validation leaves the intent with the new deadlines. *)
Definition set_deadlines (i : DeliveryIntentV1) (proposal_expires_at payment_deadline : string) :
    DeliveryIntentV1 * result DeliveryIntentError unit :=
  let checks :=
    proposal ← ok_or (parse_rfc3339 proposal_expires_at) Intent_Invalid;
    payment ← ok_or (parse_rfc3339 payment_deadline) Intent_Invalid;
    canonical ← ok_or (deadline_at payment_deadline) Intent_Invalid;
    if payment <=? proposal then Err Intent_Invalid else Ok canonical in
  match checks with
  | Err e => (i, Err e)
  | Ok canonical =>
    match operation i with
    | PaymentRequestProposal terms =>
      let i := mk_DeliveryIntentV1 (version i) (reader_pubky i) (app_id i)
                 (PaymentRequestProposal
                    (with_deadlines terms (Some proposal_expires_at) (Some canonical))) in
      (i, validate i)
    | PaymentRequestCancellation _ => (i, Err Intent_Invalid)
    end
  end.

(** [postcard::from_bytes] is a parameter. *)
Definition decode {Bytes} (from_bytes : Bytes → option DeliveryIntentV1) (bytes : Bytes) :
    result DeliveryIntentError DeliveryIntentV1 :=
  intent ← ok_or (from_bytes bytes) Intent_Invalid;
  validate intent ;; Ok intent.

Definition intent_terms (i : DeliveryIntentV1) : result DeliveryIntentError PaymentTermsV1 :=
  match operation i with
  | PaymentRequestProposal terms => Ok terms
  | PaymentRequestCancellation _ => Err Intent_Invalid
  end.

Definition intent_proposal_expires_at (i : DeliveryIntentV1) :
    result DeliveryIntentError (option Z) :=
  match operation i with
  | PaymentRequestProposal terms =>
    transpose ((λ d, ok_or (parse_rfc3339 d) Intent_Invalid) <$> proposal_expires_at terms)
  | PaymentRequestCancellation _ => Ok None
  end.

Definition matches_proposal (i : DeliveryIntentV1) (reader proposal_app_id : string)
    (expected : PaymentTermsV1) : bool :=
  String.eqb (reader_pubky i) reader
  && String.eqb (app_id i) proposal_app_id
  && match operation i with
     | PaymentRequestProposal terms =>
       String.eqb (payment_reference terms) (payment_reference expected)
       && bool_decide (terms = expected)
     | PaymentRequestCancellation _ => false
     end.

(** ** Lemmas *)

(** The guarantees of a valid proposal's terms. *)
Record terms_valid (t : PaymentTermsV1) : Prop := {
  tv_sdk : is_ok (PaymentTermsV1_to_sdk t) = true;
  tv_frame : ∃ app sdk wire, PaymentTermsV1_to_sdk t = Ok sdk ∧ app_id_new PAYKIT_APP_ID = Some app
               ∧ event_wire_len app sdk = Some wire ∧ wire <= PUBKY_NOISE_MSG_LEN;
  tv_endpoints : payment_endpoints t ≠ ∅;
  tv_accepted : ∀ i payload, payment_endpoints t !! i = Some payload →
                  payload ≠ "" ∧ i ∈ accepted_endpoint_identifiers t;
  tv_reference : ∃ u, uuid_parse (payment_reference t) = Some u ∧ uuid_version u = 4
                   ∧ uuid_is_rfc4122 u = true ∧ payment_reference t = uuid_hyphenated u;
  tv_deadlines : (proposal_expires_at t = None ∧ payment_deadline t = None)
    ∨ ∃ p d pt dt, proposal_expires_at t = Some p ∧ payment_deadline t = Some d
        ∧ parse_rfc3339 p = Some pt ∧ parse_rfc3339 d = Some dt ∧ pt < dt;
}.

Lemma existsb_false_elem {A} (f : A → bool) l x : existsb f l = false → x ∈ l → f x = false.
Proof.
  intros H Hx. apply list_elem_of_In in Hx. destruct (f x) eqn:E; [|done].
  assert (existsb f l = true); [|congruence]. apply existsb_exists. eauto.
Qed.

Lemma validate_terms_deadlines t :
  unparsable (proposal_expires_at t) = false → unparsable (payment_deadline t) = false →
  match proposal_expires_at t, payment_deadline t with
  | None, None => Ok tt
  | Some proposal, Some payment =>
    if option_lt (parse_rfc3339 proposal) (parse_rfc3339 payment) then Ok tt
    else Err Intent_Invalid
  | _, _ => Err Intent_Invalid
  end = Ok tt →
  (proposal_expires_at t = None ∧ payment_deadline t = None)
    ∨ ∃ p d pt dt, proposal_expires_at t = Some p ∧ payment_deadline t = Some d
        ∧ parse_rfc3339 p = Some pt ∧ parse_rfc3339 d = Some dt ∧ pt < dt.
Proof.
  destruct (proposal_expires_at t) as [p|], (payment_deadline t) as [d|]; simpl; try done.
  - destruct (parse_rfc3339 p) as [pt|] eqn:Ep, (parse_rfc3339 d) as [dt|] eqn:Ed; simpl; try done.
    intros _ _. destruct (pt <? dt) eqn:E; [|done]. split_bools. intros _. right. naive_solver.
  - intros. by left.
Qed.

Lemma validate_terms_ok t : validate_terms t = Ok tt → terms_valid t.
Proof.
  unfold validate_terms. intros H. inv_ok.
  destruct (_ || _) eqn:E in H; [done|]. inv_ok.
  destruct (_ || _) eqn:F in H; [done|]. split_bools.
  split.
  - match goal with Hs : PaymentTermsV1_to_sdk t = _ |- _ => by rewrite Hs end.
  - eauto 8.
  - done.
  - intros i payload Hi%elem_of_map_to_list.
    match goal with He : existsb _ (map_to_list _) = false |- _ =>
      pose proof (existsb_false_elem _ _ _ He Hi) as Hf end.
    simpl in Hf. split_bools. split; [by intros ->|done].
  - eauto.
  - by apply validate_terms_deadlines.
Qed.

Lemma validate_ok i :
  validate i = Ok tt →
  version i = 2 ∧ is_ok (parse_reader (reader_pubky i)) = true ∧ app_id i = PAYKIT_APP_ID
  ∧ match operation i with
    | PaymentRequestProposal terms => terms_valid terms
    | PaymentRequestCancellation id => is_some (request_id_new id) = true
    end.
Proof.
  unfold validate. destruct (_ || _) eqn:E; [done|]. unfold is_err in E. split_bools.
  intros Hv. split; [done|]. split; [done|]. split; [done|].
  destruct (operation i).
  - by apply validate_terms_ok.
  - inv_ok. match goal with Hr : request_id_new _ = _ |- _ => by rewrite Hr end.
Qed.

Lemma payment_request_valid r app terms i :
  payment_request r app terms = Ok i → validate i = Ok tt ∧ reader_pubky i = r ∧ is_proposal i = true.
Proof.
  unfold payment_request. destruct (_ || _); [done|]. intros H. inv_ok. by destruct x1.
Qed.

Lemma cancellation_valid p id i :
  payment_request_cancellation p id = Ok i →
  validate i = Ok tt ∧ reader_pubky i = reader_pubky p ∧ app_id i = app_id p
  ∧ operation i = PaymentRequestCancellation id ∧ is_proposal p = true.
Proof.
  unfold payment_request_cancellation. destruct (_ || _) eqn:E; [done|]. split_bools.
  intros Hc. inv_ok. by destruct x.
Qed.

Lemma matches_proposal_true i reader app t :
  matches_proposal i reader app t = true ↔
    reader_pubky i = reader ∧ app_id i = app ∧ operation i = PaymentRequestProposal t.
Proof.
  unfold matches_proposal. rewrite !andb_true_iff, !String.eqb_eq.
  destruct (operation i) as [terms|id].
  - rewrite andb_true_iff, String.eqb_eq, bool_decide_eq_true. naive_solver.
  - naive_solver.
Qed.

(** What [validate] guarantees of an intent. *)
Definition intent_valid (i : DeliveryIntentV1) : Prop :=
  version i = 2 ∧ is_ok (parse_reader (reader_pubky i)) = true ∧ app_id i = PAYKIT_APP_ID
  ∧ match operation i with
    | PaymentRequestProposal terms => terms_valid terms
    | PaymentRequestCancellation id => is_some (request_id_new id) = true
    end.

(** ** Properties *)

(** every intent the module hands out is valid: built from SDK terms, as the
    cancellation of a proposal, decoded from storage, or after its deadlines were
    set.  A valid proposal has endpoints, each one accepted and non-empty, a
    canonical version-4 reference, either no deadlines or a proposal expiry strictly
    before the payment deadline, and fits one Noise frame on the wire; a cancellation
    keeps the reader and the app of its proposal, and setting deadlines changes
    nothing else. *)
Theorem intent_constructors_valid :
  (∀ reader app terms i, payment_request reader app terms = Ok i →
     intent_valid i ∧ reader_pubky i = reader ∧ is_proposal i = true)
  ∧ (∀ p id i, payment_request_cancellation p id = Ok i →
     intent_valid i ∧ reader_pubky i = reader_pubky p ∧ app_id i = app_id p
     ∧ operation i = PaymentRequestCancellation id ∧ is_proposal p = true)
  ∧ (∀ Bytes (from_bytes : Bytes → option DeliveryIntentV1) bytes i,
     decode from_bytes bytes = Ok i → intent_valid i)
  ∧ (∀ i p d i', set_deadlines i p d = (i', Ok tt) →
     intent_valid i' ∧ ∃ t canonical, operation i = PaymentRequestProposal t
       ∧ deadline_at d = Some canonical
       ∧ operation i' = PaymentRequestProposal (with_deadlines t (Some p) (Some canonical))).
Proof.
  split; [|split; [|split]].
  - intros reader app terms i (Hv%validate_ok & Hr & Hp)%payment_request_valid. done.
  - intros p id i (Hv%validate_ok & Hrest)%cancellation_valid. done.
  - intros Bytes f b i Hd. unfold decode in Hd. inv_ok.
    match goal with u : unit |- _ => destruct u end. by apply validate_ok.
  - intros i p d i'. unfold set_deadlines. destruct (_ ≫= _) as [canonical|] eqn:E; [|done].
    inv_ok. destruct (operation i) as [t|id]; [|done].
    intros [= <- Hv]. split; [by apply validate_ok|].
    exists t, canonical. case_match; inv_ok. done.
Qed.

(** a delivered request is attributed to an intent exactly when the reader, the
    app and every field of the terms are equal; a cancellation intent never matches a
    proposal. *)
Theorem matches_proposal_exact i reader app t :
  matches_proposal i reader app t = true ↔
    reader_pubky i = reader ∧ app_id i = app ∧ operation i = PaymentRequestProposal t.
Proof. apply matches_proposal_true. Qed.

(** setting deadlines is all-or-nothing towards its caller: it succeeds only when
    both texts parse, the payment deadline has a canonical form and lies strictly
    after the proposal expiry; every failure before validation leaves the intent
    untouched, and a cancellation is never changed. *)
Theorem set_deadlines_ordered i p d i' r :
  set_deadlines i p d = (i', r) →
  (r = Ok tt → ∃ pt dt, parse_rfc3339 p = Some pt ∧ parse_rfc3339 d = Some dt ∧ pt < dt)
  ∧ (is_none (parse_rfc3339 p) || is_none (parse_rfc3339 d) || is_none (deadline_at d)
     || negb (is_proposal i) = true → i' = i ∧ r = Err Intent_Invalid).
Proof.
  unfold set_deadlines, is_proposal.
  destruct (parse_rfc3339 p) as [pt|], (parse_rfc3339 d) as [dt|], (deadline_at d) as [c|];
    simpl; try (intros [= <- <-]; naive_solver).
  destruct (dt <=? pt) eqn:E; simpl; [intros [= <- <-]|]; split_bools.
  - split; [done|]. intros _. done.
  - destruct (operation i); intros [= <- <-]; split; naive_solver lia.
Qed.

End intent.

(** A concrete library for the witnesses: texts for the validated types, digits for
    instants, every builder input accepted. *)
Module Example_lib.

Definition nonempty (s : string) : option string := if str_is_empty s then None else Some s.

Definition terms := TermsInput (string * string) string string string unit.

#[export] Instance example_lib : PaykitLib := {|
  PaykitAppId := string; app_id_new := nonempty; app_id_str := id;
  PaymentAmount := string * string; amount_new := λ v a, Some (v, a);
  amount_value := fst; amount_asset := snd;
  PaymentReference := string; reference_new := nonempty; reference_str := id;
  EndpointIdentifier := string; identifier_new := nonempty; identifier_str := id;
  PaymentRequestId := string; request_id_new := nonempty;
  Metadata := unit; empty_metadata := tt;
  PaymentRequestTerms := terms; terms_build := Some;
  terms_recurrence := λ _, false;
  terms_conversion := ti_conversion _ _ _ _ _;
  terms_required_app_id := ti_required_app_id _ _ _ _ _;
  terms_amount := ti_amount _ _ _ _ _;
  terms_reference := ti_reference _ _ _ _ _;
  terms_proposal_expires_at := ti_proposal_expires_at _ _ _ _ _;
  terms_payment_deadline_at := λ t, Some <$> ti_payment_deadline _ _ _ _ _ t;
  terms_identifiers := ti_identifiers _ _ _ _ _;
  terms_endpoints := ti_endpoints _ _ _ _ _;
  terms_metadata := ti_metadata _ _ _ _ _;
  event_wire_len := λ _ _, Some 500; PUBKY_NOISE_MSG_LEN := 1000;
  deadline_at := Some; parse_rfc3339 := parse_u64;
  Uuid := string; uuid_parse := nonempty; uuid_version := λ _, 4;
  uuid_is_rfc4122 := λ _, true; uuid_hyphenated := id;
|}.

Definition example_terms : PaymentTermsV1 := {|
  amount := "5.00"; asset := "usd"; rates := [];
  payment_reference := "7cceb26d"; proposal_expires_at := None; payment_deadline := None;
  accepted_endpoint_identifiers := ["usdt-arbitrum-address"];
  payment_endpoints := {["usdt-arbitrum-address" := "{}"]};
  metadata := tt : @Metadata example_lib;
|}.

Definition example_intent : DeliveryIntentV1 :=
  mk_DeliveryIntentV1 2 "tkrq8" PAYKIT_APP_ID (PaymentRequestProposal example_terms).

End Example_lib.

Lemma set_deadlines_ordered_witness :
  ∃ pt dt, @parse_rfc3339 Example_lib.example_lib "10" = Some pt
           ∧ @parse_rfc3339 Example_lib.example_lib "20" = Some dt ∧ pt < dt.
Proof.
  destruct (@set_deadlines Example_core.example_core _ Example_lib.example_intent "10" "20")
    as [i' r] eqn:E.
  apply (proj1 (@set_deadlines_ordered Example_core.example_core _
           Example_lib.example_intent "10" "20" i' r E)).
  apply (f_equal snd) in E. simpl in E. rewrite <- E. vm_compute. reflexivity.
Defined.
