(* ===== verification/Readers.v ===== *)
(** * Readers: what the server knows of a Reader ([application/reader_registry.rs])

    A Reader is payable when one of its registered apps both receives Payment
    Requests and pays, and its identity-signed Noise Key Authorization is verified.
    Invoice admission and every handoff check both. *)

From S2P Require Import Prelude Text.
Local Open Scope string_scope.

(** The accessors of [paykit_lib::PaykitAppRegistry] the server reads. *)
Record PaykitAppCapabilities := mk_PaykitAppCapabilities {
  cap_payment_requests : bool;
  cap_outgoing_payments : bool;
}.

Record PaykitAppRegistry := mk_PaykitAppRegistry {
  noise_public_key : option string;
  apps : list (string * PaykitAppCapabilities);
}.

(** [application/reader_registry.rs] *)
Definition reader_is_capable (registry : PaykitAppRegistry) : bool :=
  is_some (noise_public_key registry)
  && existsb (λ app, cap_payment_requests app.2 && cap_outgoing_payments app.2) (apps registry).

Inductive ReaderAuthorization := AuthVerified | AuthMissing | AuthInvalid.
