(* ===== verification/Registry.v ===== *)
(** * Registry: Creator mutation locks and coalesced receives

    Two tables of the SDK adapter map a key to a [Weak] pointer of a shared cell: the
    process-wide table of Creator mutation locks ([paykit.rs], [creator_mutation_lock])
    and the pending receives of one session provider ([paykit/payment_status.rs]).
    Both are the same code over different conditions, so both are instances of
    [get_or_create] here.  A cell knows its strong handles: [Weak::upgrade] succeeds
    exactly while there is one, and [strong_count] is their number.

    Tasks run concurrently.  Their interleavings are the sequences of atomic actions
    below; the actions of [tokio]'s [Mutex] and [OnceCell] are restricted by what these
    promise: one guard at a time, one initialiser at a time, a waiter takes over when an
    initialiser is dropped, and a value is set once. *)

From S2P Require Import Prelude Text Locks.
Local Open Scope string_scope.

Notation Task := N (only parsing).
Notation CellId := N (only parsing).

(** ** Tables of weak pointers *)

Section weak.
Context {K V : Type} `{Countable K}.

Record Cell := mk_Cell { handles : gset Task; value : option V }.

Record Table := mk_Table {
  entries : gmap K CellId;
  cells : gmap CellId Cell;
  next_cell : CellId;
}.

Definition empty_table : Table := mk_Table ∅ ∅ 0.

Definition strong_count (c : Cell) : nat := size (handles c).

(** [Weak::upgrade] succeeds. *)
Definition upgradable (c : Cell) : bool := negb (Nat.eqb (strong_count c) 0).

Definition cell_is (p : Cell → bool) (t : Table) (id : CellId) : bool :=
  match cells t !! id with Some c => p c | None => false end.

Definition set_cell (t : Table) (id : CellId) (c : Cell) : Table :=
  mk_Table (entries t) (<[id := c]> (cells t)) (next_cell t).

(** [table.retain(|_, cell| keep(cell))] *)
Definition retain (keep : Cell → bool) (t : Table) : Table :=
  mk_Table (filter (λ kv, Is_true (cell_is keep t kv.2)) (entries t)) (cells t) (next_cell t).

(** The cell's handles with the task's. *)
Definition hold (task : Task) (c : Cell) : Cell := mk_Cell ({[task]} ∪ handles c) (value c).

Definition release (task : Task) (c : Cell) : Cell := mk_Cell (handles c ∖ {[task]}) (value c).

(** Retain, upgrade the entry of [key] or insert a new cell; [task] gets the handle. *)
Definition get_or_create (keep : Cell → bool) (t : Table) (key : K) (task : Task) : CellId * Table :=
  let t := retain keep t in
  let fresh := (next_cell t, mk_Table (<[key := next_cell t]> (entries t))
                  (<[next_cell t := mk_Cell {[task]} None]> (cells t)) (next_cell t + 1)) in
  match entries t !! key with
  | Some id =>
      match cells t !! id with
      | Some c => if upgradable c then (id, set_cell t id (hold task c)) else fresh
      | None => fresh
      end
  | None => fresh
  end.

(** Dropping a handle. *)
Definition drop_handle (t : Table) (id : CellId) (task : Task) : Table :=
  match cells t !! id with Some c => set_cell t id (release task c) | None => t end.
End weak.

Arguments Cell : clear implicits.
Arguments Table K V {_ _}.

(** ** Creator mutation locks *)

(** [registry.retain(|_, lock| lock.strong_count() > 0)] *)
Definition creator_mutation_lock {K} `{Countable K} (t : Table K unit) (creator_id : K) (task : Task) :
    CellId * Table K unit :=
  get_or_create upgradable t creator_id task.

(** ** Pending receives *)

(** [pending.retain(|_, read| read.upgrade().is_some_and(|read| read.get().is_none()))] *)
Definition pending_receive {K V} `{Countable K} (t : Table K V) (key : K) (task : Task) : CellId * Table K V :=
  get_or_create (λ c, upgradable c && is_none (value c)) t key task.

(** ** What a table keeps *)

Section invariant.
Context {K V : Type} `{Countable K}.

(** [users] are the tasks with the key and cell they hold; a key's entry is the only
    cell of the key that [keep] accepts. *)
Record table_inv (keep : Cell V → bool) (t : Table K V) (users : gmap Task (K * CellId)) : Prop := {
  ti_handles task key id : users !! task = Some (key, id) →
    ∃ c, cells t !! id = Some c ∧ task ∈ handles c;
  ti_users task id c : cells t !! id = Some c → task ∈ handles c → ∃ key, users !! task = Some (key, id);
  ti_entry task key id c : users !! task = Some (key, id) → cells t !! id = Some c → keep c = true →
    entries t !! key = Some id;
  ti_owner task key key' id : users !! task = Some (key, id) → entries t !! key' = Some id → key' = key;
  ti_live key id : entries t !! key = Some id → (id < next_cell t)%N ∧ is_Some (cells t !! id);
  ti_injective key key' id : entries t !! key = Some id → entries t !! key' = Some id → key = key';
  ti_fresh id : (next_cell t <= id)%N → cells t !! id = None;
  ti_same task task' key key' id : users !! task = Some (key, id) → users !! task' = Some (key', id) → key = key';
}.

Lemma upgradable_spec (c : Cell V) : upgradable c = true ↔ handles c ≠ ∅.
Proof.
  unfold upgradable, strong_count. rewrite negb_true_iff, Nat.eqb_neq. split.
  - intros Hs He. apply Hs. by rewrite He.
  - intros Hn Hs. apply Hn, leibniz_equiv, size_empty_inv, Hs.
Qed.

Lemma upgradable_handle (c : Cell V) task : task ∈ handles c → upgradable c = true.
Proof. intros Hin. apply upgradable_spec. set_solver. Qed.

Lemma table_inv_empty keep : table_inv keep empty_table ∅.
Proof. split; try (intros *; rewrite ?lookup_empty; done). Qed.

Lemma retain_lookup (keep : Cell V → bool) (t : Table K V) key id :
  entries (retain keep t) !! key = Some id ↔ entries t !! key = Some id ∧ cell_is keep t id = true.
Proof.
  unfold retain. simpl. rewrite map_lookup_filter_Some. simpl. by rewrite Is_true_true.
Qed.

Lemma retain_inv keep (t : Table K V) users : table_inv keep t users → table_inv keep (retain keep t) users.
Proof.
  intros [I1 I2 I3 I4 I5 I6 I7 I8]. split; try done.
  - intros task key id c Hu Hc Hk. apply retain_lookup. split; [by eapply I3|]. unfold cell_is. simpl in Hc. by rewrite Hc.
  - intros task key key' id Hu [He _]%retain_lookup. eauto.
  - intros key id [He _]%retain_lookup. by apply I5 in He.
  - intros key key' id [He _]%retain_lookup [He' _]%retain_lookup. eauto.
Qed.

(** What [get_or_create] hands out. *)
Lemma get_or_create_cases keep (t : Table K V) key task id t' :
  get_or_create keep t key task = (id, t') →
  (∃ c, entries t !! key = Some id ∧ cells t !! id = Some c ∧ keep c = true ∧ upgradable c = true
        ∧ t' = set_cell (retain keep t) id (hold task c))
  ∨ (id = next_cell t ∧ (∀ i c, entries t !! key = Some i → cells t !! i = Some c →
                           keep c = true → upgradable c = true → False)
     ∧ t' = mk_Table (<[key := id]> (entries (retain keep t))) (<[id := mk_Cell {[task]} None]> (cells t))
              (next_cell t + 1)).
Proof.
  unfold get_or_create. destruct (entries (retain keep t) !! key) as [i|] eqn:He.
  - pose proof (proj1 (retain_lookup _ _ _ _) He) as [He' Hk]. unfold cell_is in Hk. simpl.
    destruct (cells t !! i) as [c|] eqn:Hc; [|done].
    destruct (upgradable c) eqn:Hu; intros [= <- <-]; [left; by exists c|right].
    split_and!; [done| |done]. intros i' c' Hi' Hc' _ Hu'. congruence.
  - simpl. intros [= <- <-]. right. split_and!; [done| |done].
    intros i c Hi Hc Hk _. assert (entries (retain keep t) !! key = Some i) as Hr; [|by rewrite Hr in He].
    apply retain_lookup. split; [done|]. unfold cell_is. by rewrite Hc.
Qed.

Lemma get_or_create_inv keep (t : Table K V) users key task id t' :
  table_inv keep t users → users !! task = None → get_or_create keep t key task = (id, t') →
  table_inv keep t' (<[task := (key, id)]> users).
Proof.
  intros Hinv Hnew Hg. pose proof (retain_inv _ _ _ Hinv) as Hr.
  destruct (get_or_create_cases _ _ _ _ _ _ Hg) as [(c & He & Hc & Hk & Hu & ->)|(-> & Hno & ->)].
  - assert (entries (retain keep t) !! key = Some id) as He'.
    { apply retain_lookup. split; [done|]. unfold cell_is. by rewrite Hc. }
    destruct Hr as [I1 I2 I3 I4 I5 I6 I7 I8]. simpl in *.
    assert (∀ task' key', users !! task' = Some (key', id) → key' = key) as Hsame
      by (intros task' key' Hu'; symmetry; by eapply I4).
    split; simpl.
    + intros task' key' id'. rewrite lookup_insert_Some. intros [[<- [= <- <-]]|[Hne Hu']].
      * exists (hold task c). rewrite lookup_insert_eq. split; [done|]. set_solver.
      * destruct (I1 _ _ _ Hu') as (c' & Hc' & Hin). destruct (decide (id' = id)) as [->|Hid].
        -- simplify_eq. exists (hold task c). rewrite lookup_insert_eq. split; [done|]. set_solver.
        -- exists c'. by rewrite lookup_insert_ne.
    + intros task' id' c'. rewrite !lookup_insert_Some. intros [[<- <-]|[Hid Hc']] Hin; simpl in Hin.
      * destruct (decide (task' = task)) as [->|Hne]; [exists key; by rewrite lookup_insert_eq|].
        destruct (I2 task' id c Hc) as [k' Hk']; [set_solver|]. exists k'. by rewrite lookup_insert_ne.
      * destruct (I2 task' id' c' Hc' Hin) as [k' Hk']. exists k'. rewrite lookup_insert_ne; [done|]. intros ->.
        by rewrite Hnew in Hk'.
    + intros task' key' id' c'. rewrite !lookup_insert_Some.
      intros [[<- [= <- <-]]|[Hne Hu']] [[Hid <-]|[Hid Hc']] Hk'; subst; try done.
      * by rewrite (Hsame _ _ Hu').
      * by eapply I3.
    + intros task' key' key'' id'. rewrite lookup_insert_Some. intros [[<- [= <- <-]]|[Hne Hu']] He''; eauto.
    + intros k' i' Hi'. destruct (I5 _ _ Hi') as [Hlt Hs]. split; [done|].
      destruct (decide (id = i')) as [->|]; [by rewrite lookup_insert_eq|by rewrite lookup_insert_ne].
    + intros; eauto.
    + intros i' Hi'. pose proof (I7 _ Hi') as Hn. rewrite lookup_insert_ne; [done|]. intros <-. congruence.
    + intros t1 t2 k1 k2 i'. rewrite !lookup_insert_Some.
      intros [[<- [= <- <-]]|[? H1]] [[<- [= <-]]|[? H2]]; subst; eauto using eq_sym.
  - destruct Hr as [I1 I2 I3 I4 I5 I6 I7 I8]. simpl in *.
    assert (cells t !! next_cell t = None) as Hnone by (apply I7; lia).
    assert (∀ task' key', users !! task' = Some (key', next_cell t) → False) as Hnouser.
    { intros task' key' Hu'. destruct (I1 _ _ _ Hu') as (c' & Hc' & _). congruence. }
    assert (∀ key', entries (retain keep t) !! key' = Some (next_cell t) → False) as Hnoentry.
    { intros key' He'. destruct (I5 _ _ He') as [Hlt _]. lia. }
    split; simpl.
    + intros task' key' id'. rewrite lookup_insert_Some. intros [[<- [= <- <-]]|[Hne Hu']].
      * eexists. rewrite lookup_insert_eq. split; [done|]. set_solver.
      * destruct (I1 _ _ _ Hu') as (c' & Hc' & Hin). exists c'. rewrite lookup_insert_ne; [done|].
        intros <-. congruence.
    + intros task' id' c'. rewrite !lookup_insert_Some. intros [[<- <-]|[Hid Hc']] Hin; simpl in Hin.
      * assert (task' = task) as -> by set_solver. exists key. by rewrite lookup_insert_eq.
      * destruct (I2 task' id' c' Hc' Hin) as [k' Hk']. exists k'. rewrite lookup_insert_ne; [done|]. intros ->.
        by rewrite Hnew in Hk'.
    + intros task' key' id' c'. rewrite !lookup_insert_Some.
      intros [[<- [= <- <-]]|[Hne Hu']] [[Hid <-]|[Hid Hc']] Hk'; subst; try done; try (by left).
      * by apply Hnouser in Hu'.
      * right. split; [|by eapply I3]. intros <-.
        pose proof (I3 _ _ _ _ Hu' Hc' Hk') as He'. apply retain_lookup in He' as [He' _].
        destruct (I1 _ _ _ Hu') as (c'' & Hc'' & Hin'). simplify_eq.
        exact (Hno _ _ He' Hc' Hk' (upgradable_handle _ _ Hin')).
    + intros task' key' key'' id'. rewrite !lookup_insert_Some.
      intros [[<- [= <- <-]]|[Hne Hu']] [[<- Hi]|[Hk' He'']]; subst; eauto; try done.
      * by apply Hnoentry in He''.
      * by apply Hnouser in Hu'.
    + intros k' i'. rewrite lookup_insert_Some. intros [[<- <-]|[Hk' Hi']].
      * split; [lia|]. by rewrite lookup_insert_eq.
      * destruct (I5 _ _ Hi') as [Hlt Hs]. split; [lia|]. rewrite lookup_insert_ne; [done|]. lia.
    + intros k1 k2 i'. rewrite !lookup_insert_Some. intros [[<- <-]|[? H1]] [[<- Hx]|[? H2]]; subst; eauto; exfalso; eauto.
    + intros i' Hi'. rewrite lookup_insert_ne by lia. apply I7. lia.
    + intros t1 t2 k1 k2 i'. rewrite !lookup_insert_Some.
      intros [[<- [= <- <-]]|[? H1]] [[<- [= <-]]|[? H2]]; subst; eauto; exfalso; eauto.
Qed.

(** The cell of a user is replaced by one with the same handles, of which [keep] accepts no more. *)
Lemma set_cell_inv keep (t : Table K V) users id c c' :
  table_inv keep t users → cells t !! id = Some c → handles c' = handles c → (keep c' = true → keep c = true) →
  table_inv keep (set_cell t id c') users.
Proof.
  intros [I1 I2 I3 I4 I5 I6 I7 I8] Hc Hh Hk. split; simpl; eauto.
  - intros task key id' Hu. destruct (I1 _ _ _ Hu) as (c0 & Hc0 & Hin). destruct (decide (id' = id)) as [->|Hne].
    + simplify_eq. exists c'. rewrite lookup_insert_eq, Hh. done.
    + exists c0. by rewrite lookup_insert_ne.
  - intros task id' c0. rewrite lookup_insert_Some. intros [[<- <-]|[Hne Hc0]] Hin; [|by eauto].
    rewrite Hh in Hin. eauto.
  - intros task key id' c0 Hu. rewrite lookup_insert_Some. intros [[<- <-]|[Hne Hc0]] Hkeep; eauto.
  - intros key id' He. destruct (I5 _ _ He) as [Hlt Hs]. split; [done|].
    destruct (decide (id' = id)) as [->|Hne]; [by rewrite lookup_insert_eq|by rewrite lookup_insert_ne].
  - intros id' Hle. rewrite lookup_insert_ne; [by apply I7|]. intros <-. rewrite I7 in Hc; done.
Qed.

Lemma drop_handle_inv keep (t : Table K V) users task key id :
  (∀ c, keep (release task c) = true → keep c = true) →
  table_inv keep t users → users !! task = Some (key, id) →
  table_inv keep (drop_handle t id task) (delete task users).
Proof.
  intros Hk [I1 I2 I3 I4 I5 I6 I7 I8] Hu. destruct (I1 _ _ _ Hu) as (c & Hc & Hin).
  unfold drop_handle. rewrite Hc. split; simpl.
  - intros task' key' id' [Hne Hu']%lookup_delete_Some. destruct (I1 _ _ _ Hu') as (c0 & Hc0 & Hin0).
    destruct (decide (id' = id)) as [->|Hid].
    + simplify_eq. exists (release task c). rewrite lookup_insert_eq. split; [done|]. set_solver.
    + exists c0. by rewrite lookup_insert_ne.
  - intros task' id' c0. rewrite lookup_insert_Some. intros [[<- <-]|[Hne Hc0]] Hin0; simpl in Hin0.
    + destruct (I2 task' id c Hc) as [k' Hk']; [set_solver|]. exists k'. rewrite lookup_delete_ne; [done|set_solver].
    + destruct (I2 _ _ _ Hc0 Hin0) as [k' Hk']. exists k'. rewrite lookup_delete_ne; [done|]. congruence.
  - intros task' key' id' c0 [Hne Hu']%lookup_delete_Some. rewrite lookup_insert_Some.
    intros [[<- <-]|[Hid Hc0]] Hkeep; eauto.
  - intros task' key' key'' id' [Hne Hu']%lookup_delete_Some He. eauto.
  - intros key' id' He. destruct (I5 _ _ He) as [Hlt Hs]. split; [done|].
    destruct (decide (id' = id)) as [->|Hne]; [by rewrite lookup_insert_eq|by rewrite lookup_insert_ne].
  - eauto.
  - intros id' Hle. rewrite lookup_insert_ne; [by apply I7|]. intros <-. rewrite I7 in Hc; done.
  - intros t1 t2 k1 k2 i' [? H1]%lookup_delete_Some [? H2]%lookup_delete_Some. eauto.
Qed.

(** After a request every entry is of a cell that [keep] accepts. *)
Lemma get_or_create_kept keep (t : Table K V) key task id t' key' id' :
  (∀ c, keep c = true → keep (hold task c) = true) → keep (mk_Cell {[task]} None) = true →
  get_or_create keep t key task = (id, t') → entries t' !! key' = Some id' → cell_is keep t' id' = true.
Proof.
  intros Hhold Hnew Hg He. unfold cell_is.
  destruct (get_or_create_cases _ _ _ _ _ _ Hg) as [(c & _ & Hc & Hk & _ & ->)|(-> & _ & ->)]; simpl in *.
  - apply retain_lookup in He as [_ Hk']. unfold cell_is in Hk'. destruct (decide (id' = id)) as [->|Hne].
    + rewrite lookup_insert_eq. auto.
    + by rewrite lookup_insert_ne.
  - apply lookup_insert_Some in He as [[_ <-]|[_ He]]; [by rewrite lookup_insert_eq|].
    apply retain_lookup in He as [_ Hk']. unfold cell_is in Hk'.
    destruct (decide (id' = next_cell t)) as [->|Hne]; [by rewrite lookup_insert_eq|by rewrite lookup_insert_ne].
Qed.
End invariant.

(** ** Mutual exclusion of one Creator's mutations *)

Section locks.
Context {K : Type} `{Countable K}.

(** [ls_tasks] are the tasks with a handle (an adapter holds one for as long as it
    lives), [ls_guards] the task that holds the guard of a mutex. *)
Record LockState := mk_LockState {
  ls_table : Table K unit;
  ls_tasks : gmap Task (K * CellId);
  ls_guards : gmap CellId Task;
}.

Inductive LockAction :=
| LockGet (task : Task) (creator_id : K)
| LockAcquire (task : Task)
| LockRelease (task : Task)
| LockDrop (task : Task).

Definition lock_step (s : LockState) (a : LockAction) : option LockState :=
  match a with
  | LockGet task creator_id =>
      match ls_tasks s !! task with
      | Some _ => None
      | None =>
          let '(id, table) := creator_mutation_lock (ls_table s) creator_id task in
          Some (mk_LockState table (<[task := (creator_id, id)]> (ls_tasks s)) (ls_guards s))
      end
  | LockAcquire task =>
      match ls_tasks s !! task with
      | Some (_, id) =>
          match ls_guards s !! id with
          | None => Some (mk_LockState (ls_table s) (ls_tasks s) (<[id := task]> (ls_guards s)))
          | Some _ => None
          end
      | None => None
      end
  | LockRelease task =>
      match ls_tasks s !! task with
      | Some (_, id) =>
          if bool_decide (ls_guards s !! id = Some task)
          then Some (mk_LockState (ls_table s) (ls_tasks s) (delete id (ls_guards s))) else None
      | None => None
      end
  | LockDrop task =>
      match ls_tasks s !! task with
      | Some (_, id) =>
          if bool_decide (ls_guards s !! id = Some task) then None
          else Some (mk_LockState (drop_handle (ls_table s) id task) (delete task (ls_tasks s)) (ls_guards s))
      | None => None
      end
  end.

Fixpoint lock_run (s : LockState) (l : list LockAction) : option LockState :=
  match l with
  | [] => Some s
  | a :: l => match lock_step s a with Some s' => lock_run s' l | None => None end
  end.

Definition no_locks : LockState := mk_LockState empty_table ∅ ∅.

Record lock_inv (s : LockState) : Prop := {
  li_table : table_inv upgradable (ls_table s) (ls_tasks s);
  li_guard id task : ls_guards s !! id = Some task → ∃ key, ls_tasks s !! task = Some (key, id);
}.

Lemma upgradable_release (c : Cell unit) task : upgradable (release task c) = true → upgradable c = true.
Proof. rewrite !upgradable_spec. simpl. set_solver. Qed.

Lemma lock_step_inv s a s' : lock_inv s → lock_step s a = Some s' → lock_inv s'.
Proof.
  intros [Ht Hg] Hs. destruct a as [task key|task|task|task]; simpl in Hs;
    destruct (ls_tasks s !! task) as [[key0 id]|] eqn:Hu; try done.
  - destruct (creator_mutation_lock (ls_table s) key task) as [id table] eqn:Hc. injection Hs as <-. split; simpl.
    + by eapply get_or_create_inv.
    + intros id' task' Hg'. destruct (Hg _ _ Hg') as [k Hk]. exists k. rewrite lookup_insert_ne; [done|]. congruence.
  - destruct (ls_guards s !! id) eqn:Hid; [done|]. injection Hs as <-. split; simpl; [done|].
    intros id' task'. rewrite lookup_insert_Some. intros [[<- <-]|[_ Hg']]; eauto.
  - case_bool_decide; [|done]. injection Hs as <-. split; simpl; [done|].
    intros id' task' [_ Hg']%lookup_delete_Some. eauto.
  - case_bool_decide as Hheld; [done|]. injection Hs as <-. split; simpl.
    + eapply drop_handle_inv; [|done|done]. intros c. apply upgradable_release.
    + intros id' task' Hg'. destruct (Hg _ _ Hg') as [k Hk]. exists k. rewrite lookup_delete_ne; [done|].
      intros <-. congruence.
Qed.

Lemma lock_run_inv l s s' : lock_inv s → lock_run s l = Some s' → lock_inv s'.
Proof.
  revert s. induction l as [|a l IH]; intros s Hinv; simpl; [by intros [= <-]|].
  destruct (lock_step s a) as [s1|] eqn:Hs; [|done]. eauto using lock_step_inv.
Qed.

Lemma no_locks_inv : lock_inv no_locks.
Proof. split; [apply table_inv_empty|]. intros id task Hg. simpl in Hg. by rewrite lookup_empty in Hg. Qed.

(** one Creator's SDK mutations exclude each other, and only those.  Whatever tasks of the
    process ask for, take, release and drop the mutation lock of a Creator, two tasks that hold a guard
    for the same Creator are the same task; a task whose Creator no task holds a guard
    of can take it at once, whatever other Creators' tasks do; and after a
    request the registry holds live locks only. *)
Theorem creator_mutations_exclusive l s :
  lock_run no_locks l = Some s →
  (∀ creator task1 task2 id1 id2,
     ls_tasks s !! task1 = Some (creator, id1) → ls_guards s !! id1 = Some task1 →
     ls_tasks s !! task2 = Some (creator, id2) → ls_guards s !! id2 = Some task2 → task1 = task2)
  ∧ (∀ creator task id, ls_tasks s !! task = Some (creator, id) →
       (∀ task' id', ls_tasks s !! task' = Some (creator, id') → ls_guards s !! id' ≠ Some task') →
       is_Some (lock_step s (LockAcquire task)))
  ∧ (∀ creator task s', lock_step s (LockGet task creator) = Some s' →
       ∀ key id, entries (ls_table s') !! key = Some id → ∃ user, ls_tasks s' !! user = Some (key, id)).
Proof.
  intros Hrun. pose proof (lock_run_inv _ _ _ no_locks_inv Hrun) as Hinv. destruct Hinv as [Ht Hg]. split_and!.
  - intros creator t1 t2 id1 id2 H1 Hg1 H2 Hg2.
    destruct (ti_handles _ _ _ Ht _ _ _ H1) as (c1 & Hc1 & Hin1).
    destruct (ti_handles _ _ _ Ht _ _ _ H2) as (c2 & Hc2 & Hin2).
    pose proof (ti_entry _ _ _ Ht _ _ _ _ H1 Hc1 (upgradable_handle _ _ Hin1)) as He1.
    pose proof (ti_entry _ _ _ Ht _ _ _ _ H2 Hc2 (upgradable_handle _ _ Hin2)) as He2. congruence.
  - intros creator task id Hu Hfree. simpl. rewrite Hu.
    destruct (ls_guards s !! id) as [task'|] eqn:Hgd; [exfalso|by eexists].
    destruct (Hg _ _ Hgd) as [key Hu']. rewrite <- (ti_same _ _ _ Ht _ _ _ _ _ Hu Hu') in Hu'. by apply (Hfree _ _ Hu').
  - intros creator task s' Hs key id He.
    assert (lock_inv s') as [Ht' _] by (eapply lock_step_inv; [by split|done]).
    simpl in Hs. destruct (ls_tasks s !! task) eqn:Hu; [done|].
    destruct (creator_mutation_lock (ls_table s) creator task) as [i table] eqn:Hc. injection Hs as <-. simpl in *.
    assert (cell_is upgradable table id = true) as Hlive.
    { eapply (get_or_create_kept upgradable _ _ task); [..|exact Hc|exact He].
      - intros c. rewrite !upgradable_spec. simpl. set_solver.
      - apply upgradable_spec. simpl. set_solver. }
    unfold cell_is in Hlive. destruct (cells table !! id) as [c|] eqn:Hci; [|done].
    apply upgradable_spec, set_choose_L in Hlive as [user Hin].
    destruct (ti_users _ _ _ Ht' user id c Hci Hin) as [key' Hu']. exists user.
    by rewrite (ti_owner _ _ _ Ht' _ _ _ _ Hu' He).
Qed.
End locks.

(** ** Coalesced receives *)

Section refreshes.
Context {K A : Type} `{Countable K}.

(** A waiting caller: the key it asked for, its cell and when it asked. *)
Record Refresh := mk_Refresh { rf_key : K; rf_cell : CellId; rf_arrived : nat }.

(** What a receive left in its cell: the result, the key it was run for and when it ended. *)
Notation Receipt := (A * K * nat)%type.

Record RefreshState := mk_RefreshState {
  rs_table : Table K Receipt;
  rs_tasks : gmap Task Refresh;
  rs_running : gmap CellId Task;
  rs_clock : nat;
  rs_returned : list (Refresh * Receipt);
}.

Inductive RefreshAction :=
(** A caller enters [PaymentRequestRefreshes::receive]. *)
| Arrive (task : Task) (key : K)
(** Its [refresh] future becomes the initialiser of the cell. *)
| Begin (task : Task)
(** The initialiser ends with a result. *)
| Complete (task : Task) (result : A)
(** A caller takes the result of its cell and returns. *)
| Take (task : Task)
(** A caller is dropped. *)
| Cancel (task : Task).

Definition tick (s : RefreshState) (table : Table K Receipt) (tasks : gmap Task Refresh)
    (running : gmap CellId Task) (returned : list (Refresh * Receipt)) : RefreshState :=
  mk_RefreshState table tasks running (S (rs_clock s)) returned.

Definition cell_value (s : RefreshState) (id : CellId) : option Receipt :=
  match cells (rs_table s) !! id with Some c => value c | None => None end.

Definition refresh_step (s : RefreshState) (a : RefreshAction) : option RefreshState :=
  match a with
  | Arrive task key =>
      match rs_tasks s !! task with
      | Some _ => None
      | None =>
          let '(id, table) := pending_receive (rs_table s) key task in
          Some (tick s table (<[task := mk_Refresh key id (rs_clock s)]> (rs_tasks s)) (rs_running s) (rs_returned s))
      end
  | Begin task =>
      match rs_tasks s !! task with
      | Some r =>
          if is_none (cell_value s (rf_cell r)) && is_none (rs_running s !! rf_cell r)
          then Some (tick s (rs_table s) (rs_tasks s) (<[rf_cell r := task]> (rs_running s)) (rs_returned s))
          else None
      | None => None
      end
  | Complete task result =>
      match rs_tasks s !! task with
      | Some r =>
          if bool_decide (rs_running s !! rf_cell r = Some task) then
            match cells (rs_table s) !! rf_cell r with
            | Some c =>
                Some (tick s (set_cell (rs_table s) (rf_cell r)
                                (mk_Cell (handles c) (Some (result, rf_key r, rs_clock s))))
                        (rs_tasks s) (delete (rf_cell r) (rs_running s)) (rs_returned s))
            | None => None
            end
          else None
      | None => None
      end
  | Take task =>
      match rs_tasks s !! task with
      | Some r =>
          match cell_value s (rf_cell r) with
          | Some receipt =>
              Some (tick s (drop_handle (rs_table s) (rf_cell r) task) (delete task (rs_tasks s)) (rs_running s)
                      ((r, receipt) :: rs_returned s))
          | None => None
          end
      | None => None
      end
  | Cancel task =>
      match rs_tasks s !! task with
      | Some r =>
          Some (tick s (drop_handle (rs_table s) (rf_cell r) task) (delete task (rs_tasks s))
                  (if bool_decide (rs_running s !! rf_cell r = Some task) then delete (rf_cell r) (rs_running s)
                   else rs_running s) (rs_returned s))
      | None => None
      end
  end.

Fixpoint refresh_run (s : RefreshState) (l : list RefreshAction) : option RefreshState :=
  match l with
  | [] => Some s
  | a :: l => match refresh_step s a with Some s' => refresh_run s' l | None => None end
  end.

Definition no_refreshes : RefreshState := mk_RefreshState empty_table ∅ ∅ 0 [].

Definition still_pending (c : Cell Receipt) : bool := upgradable c && is_none (value c).

Definition refresh_users (s : RefreshState) : gmap Task (K * CellId) :=
  (λ r, (rf_key r, rf_cell r)) <$> rs_tasks s.

(** A receipt answers a caller: it was made for the caller's key and after its arrival. *)
Definition answers (now : nat) (r : Refresh) (receipt : Receipt) : Prop :=
  receipt.1.2 = rf_key r ∧ (rf_arrived r <= receipt.2 < now)%nat.

Record refresh_inv (s : RefreshState) : Prop := {
  ri_table : table_inv still_pending (rs_table s) (refresh_users s);
  ri_arrived task r : rs_tasks s !! task = Some r → (rf_arrived r < rs_clock s)%nat;
  ri_value task r receipt : rs_tasks s !! task = Some r → cell_value s (rf_cell r) = Some receipt →
    answers (rs_clock s) r receipt;
  ri_running id task : rs_running s !! id = Some task →
    (∃ r, rs_tasks s !! task = Some r ∧ rf_cell r = id) ∧ cell_value s id = None;
  ri_returned r receipt : (r, receipt) ∈ rs_returned s → answers (rs_clock s) r receipt;
}.

Lemma answers_later now r receipt : answers now r receipt → answers (S now) r receipt.
Proof. intros [Hk Ht]. split; [done|lia]. Qed.

Lemma user_lookup s task r :
  rs_tasks s !! task = Some r → refresh_users s !! task = Some (rf_key r, rf_cell r).
Proof. intros Hr. unfold refresh_users. by rewrite lookup_fmap, Hr. Qed.

Lemma still_pending_release (c : Cell Receipt) task : still_pending (release task c) = true → still_pending c = true.
Proof.
  unfold still_pending. rewrite !andb_true_iff. intros [Hu Hv]. split; [|done].
  apply upgradable_spec in Hu. apply upgradable_spec. simpl in Hu. set_solver.
Qed.

(** The value of a cell after an update of the table. *)
Lemma value_set_cell (t : Table K Receipt) id id' c :
  match cells (set_cell t id c) !! id' with Some c => value c | None => None end
  = if decide (id' = id) then value c else match cells t !! id' with Some c => value c | None => None end.
Proof. simpl. destruct (decide (id' = id)) as [->|Hne]; [by rewrite lookup_insert_eq|by rewrite lookup_insert_ne]. Qed.

Lemma value_drop (t : Table K Receipt) id id' task :
  match cells (drop_handle t id task) !! id' with Some c => value c | None => None end
  = match cells t !! id' with Some c => value c | None => None end.
Proof.
  unfold drop_handle. destruct (cells t !! id) as [c|] eqn:Hc; [|done]. rewrite value_set_cell.
  destruct (decide (id' = id)) as [->|]; [by rewrite Hc|done].
Qed.

Lemma arrive_inv s task key s' :
  refresh_inv s → refresh_step s (Arrive task key) = Some s' → refresh_inv s'.
Proof.
  intros [Ht Ha Hv Hr Hret] Hs. simpl in Hs. destruct (rs_tasks s !! task) eqn:Hnew; [done|].
  destruct (pending_receive (rs_table s) key task) as [id table] eqn:Hp. injection Hs as <-.
  assert (∀ id', id' ≠ id → match cells table !! id' with Some c => value c | None => None end = cell_value s id')
    as Hother.
  { intros id' Hne. unfold cell_value.
    destruct (get_or_create_cases _ _ _ _ _ _ Hp) as [(c & _ & _ & _ & _ & ->)|(-> & _ & ->)]; simpl;
      by rewrite lookup_insert_ne. }
  assert (match cells table !! id with Some c => value c | None => None end = None) as Hid.
  { destruct (get_or_create_cases _ _ _ _ _ _ Hp) as [(c & _ & Hc & Hk & _ & ->)|(-> & _ & ->)]; simpl;
      rewrite lookup_insert_eq; simpl; [|done].
    apply andb_prop in Hk as [_ Hk]. by destruct (value c). }
  split; unfold cell_value; simpl.
  - unfold refresh_users. simpl. rewrite fmap_insert. eapply (get_or_create_inv still_pending); [exact Ht| |exact Hp].
    unfold refresh_users. by rewrite lookup_fmap, Hnew.
  - intros task' r. rewrite lookup_insert_Some. intros [[<- <-]|[_ Hr']]; [simpl; lia|].
    apply Ha in Hr'. lia.
  - intros task' r receipt. rewrite lookup_insert_Some. intros [[<- <-]|[_ Hr']]; simpl; [by rewrite Hid|].
    destruct (decide (rf_cell r = id)) as [->|Hne]; [by rewrite Hid|]. rewrite Hother by done. intros Hval.
    eapply answers_later, Hv; eauto.
  - intros id' task' Hrun. destruct (Hr _ _ Hrun) as [(r & Hr' & <-) Hval]. split.
    + exists r. split; [|done]. rewrite lookup_insert_ne; [done|]. congruence.
    + destruct (decide (rf_cell r = id)) as [->|Hne]; [done|]. by rewrite Hother.
  - intros r receipt Hin. eapply answers_later, Hret, Hin.
Qed.

Lemma begin_inv s task s' : refresh_inv s → refresh_step s (Begin task) = Some s' → refresh_inv s'.
Proof.
  intros [Ht Ha Hv Hr Hret] Hs. simpl in Hs. destruct (rs_tasks s !! task) as [r|] eqn:Htask; [|done].
  destruct (is_none (cell_value s (rf_cell r)) && _) eqn:Hc; [|done]. injection Hs as <-.
  apply andb_prop in Hc as [Hnone _]. split; simpl; [done|..].
  - intros task' r' Hr'. apply Ha in Hr'. lia.
  - intros task' r' receipt Hr' Hval. eapply answers_later, Hv; eauto.
  - intros id' task'. rewrite lookup_insert_Some. intros [[<- <-]|[_ Hrun]].
    + split; [eauto|]. change (cell_value s (rf_cell r) = None). by destruct (cell_value s (rf_cell r)).
    + exact (Hr _ _ Hrun).
  - intros r' receipt Hin. eapply answers_later, Hret, Hin.
Qed.

Lemma complete_inv s task v s' : refresh_inv s → refresh_step s (Complete task v) = Some s' → refresh_inv s'.
Proof.
  intros [Ht Ha Hv Hr Hret] Hs. simpl in Hs. destruct (rs_tasks s !! task) as [r|] eqn:Htask; [|done].
  case_bool_decide as Hrun; [|done]. destruct (cells (rs_table s) !! rf_cell r) as [c|] eqn:Hc; [|done].
  injection Hs as <-. split; unfold cell_value; simpl.
  - eapply set_cell_inv; [exact Ht|exact Hc|done|]. unfold still_pending. simpl. by rewrite andb_false_r.
  - intros task' r' Hr'. apply Ha in Hr'. lia.
  - intros task' r' receipt Hr'.
    pose proof (value_set_cell (rs_table s) (rf_cell r) (rf_cell r')
                  (mk_Cell (handles c) (Some (v, rf_key r, rs_clock s)))) as Hset.
    simpl in Hset. rewrite Hset.
    destruct (decide (rf_cell r' = rf_cell r)) as [He|Hne].
    + intros [= <-]. split; simpl; [|apply Ha in Hr'; lia].
      pose proof (user_lookup _ _ _ Hr') as Hu'. rewrite He in Hu'.
      exact (ti_same _ _ _ Ht _ _ _ _ _ (user_lookup _ _ _ Htask) Hu').
    + intros Hval. eapply answers_later, Hv; eauto.
  - intros id' task' [Hne Hrun']%lookup_delete_Some. destruct (Hr _ _ Hrun') as [Hex Hval]. split; [done|].
    unfold cell_value in Hval. by rewrite lookup_insert_ne.
  - intros r' receipt Hin. eapply answers_later, Hret, Hin.
Qed.

(** A task that leaves, with the initialisers that stay and what was returned. *)
Lemma leave_inv s task r running returned :
  refresh_inv s → rs_tasks s !! task = Some r →
  (∀ id t, running !! id = Some t → rs_running s !! id = Some t ∧ t ≠ task) →
  (∀ r receipt, (r, receipt) ∈ returned → answers (rs_clock s) r receipt) →
  refresh_inv (tick s (drop_handle (rs_table s) (rf_cell r) task) (delete task (rs_tasks s)) running returned).
Proof.
  intros [Ht Ha Hv Hr _] Htask Hrunning Hret.
  assert (∀ id, cell_value (tick s (drop_handle (rs_table s) (rf_cell r) task) (delete task (rs_tasks s)) running returned)
                  id = cell_value s id) as Hvalue by (intros id; unfold cell_value; apply value_drop).
  split.
  - unfold refresh_users. simpl. rewrite fmap_delete. eapply drop_handle_inv; [|exact Ht|by apply user_lookup].
    intros c. apply still_pending_release.
  - simpl. intros task' r' [_ Hr']%lookup_delete_Some. apply Ha in Hr'. lia.
  - intros task' r' receipt Hr'. simpl in Hr'. apply lookup_delete_Some in Hr' as [_ Hr']. rewrite Hvalue. intros Hval. eapply answers_later, Hv; eauto.
  - intros id t Hrun. apply Hrunning in Hrun as [Hrun Hne]. rewrite Hvalue.
    destruct (Hr _ _ Hrun) as [(r' & Hr' & Hid) Hval]. split; [|done]. exists r'. simpl.
    by rewrite lookup_delete_ne.
  - intros r' receipt Hin. eapply answers_later, Hret, Hin.
Qed.

Lemma refresh_step_inv s a s' : refresh_inv s → refresh_step s a = Some s' → refresh_inv s'.
Proof.
  intros Hinv Hs. destruct a as [task key|task|task v|task|task];
    [by eapply arrive_inv|by eapply begin_inv|by eapply complete_inv| |]; simpl in Hs;
    destruct (rs_tasks s !! task) as [r|] eqn:Htask; try done.
  - destruct (cell_value s (rf_cell r)) as [receipt|] eqn:Hval; [|done]. injection Hs as <-.
    apply leave_inv; [done..| |].
    + intros id t Hrun. split; [done|]. intros ->.
      destruct (ri_running _ Hinv _ _ Hrun) as [(r' & Hr' & <-) Hnone]. congruence.
    + intros r' receipt'. rewrite elem_of_cons. intros [[= -> ->]|Hin]; [by eapply ri_value|by eapply ri_returned].
  - injection Hs as <-. apply leave_inv; [done..| |by apply ri_returned].
    intros id t. case_bool_decide as Hrun.
    + intros [Hne Ht]%lookup_delete_Some. split; [done|]. intros ->.
      destruct (ri_running _ Hinv _ _ Ht) as [(r' & Hr' & <-) _]. congruence.
    + intros Ht. split; [done|]. intros ->.
      destruct (ri_running _ Hinv _ _ Ht) as [(r' & Hr' & <-) _]. congruence.
Qed.

Lemma refresh_run_inv l s s' : refresh_inv s → refresh_run s l = Some s' → refresh_inv s'.
Proof.
  revert s. induction l as [|a l IH]; intros s Hinv; simpl; [by intros [= <-]|].
  destruct (refresh_step s a) as [s1|] eqn:Hs; [|done]. eauto using refresh_step_inv.
Qed.

Lemma no_refreshes_inv : refresh_inv no_refreshes.
Proof.
  split; [split|..]; simpl; try (intros *; rewrite ?lookup_empty; done).
  intros r receipt Hin. set_solver.
Qed.

(** receive evidence is shared but never stale.  However callers of the coalesced
    receive arrive, run, return and are dropped: a caller returns only the result of a
    receive made for its own app and bundle that ended after the caller had arrived,
    so no completed result is served to a later caller; and no two receives for one app
    and bundle run at the same time. *)
Theorem refresh_results_fresh l s :
  refresh_run no_refreshes l = Some s →
  (∀ r receipt, (r, receipt) ∈ rs_returned s →
     receipt.1.2 = rf_key r ∧ (rf_arrived r <= receipt.2 < rs_clock s)%nat)
  ∧ (∀ id1 id2 task1 task2 r1 r2,
       rs_running s !! id1 = Some task1 → rs_running s !! id2 = Some task2 →
       rs_tasks s !! task1 = Some r1 → rs_tasks s !! task2 = Some r2 → rf_key r1 = rf_key r2 → task1 = task2).
Proof.
  intros Hrun. pose proof (refresh_run_inv _ _ _ no_refreshes_inv Hrun) as Hinv.
  destruct Hinv as [Ht Ha Hv Hr Hret]. split; [exact Hret|].
  assert (∀ id task r, rs_running s !! id = Some task → rs_tasks s !! task = Some r →
            entries (rs_table s) !! rf_key r = Some id) as Hentry.
  { intros id task r Hrn Hrt. destruct (Hr _ _ Hrn) as [(r' & Hr' & <-) Hnone]. simplify_eq.
    destruct (ti_handles _ _ _ Ht _ _ _ (user_lookup _ _ _ Hrt)) as (c & Hc & Hin).
    apply (ti_entry _ _ _ Ht _ _ _ _ (user_lookup _ _ _ Hrt) Hc). unfold still_pending.
    unfold cell_value in Hnone. rewrite Hc in Hnone. rewrite Hnone, (upgradable_handle _ _ Hin). done. }
  intros id1 id2 t1 t2 r1 r2 H1 H2 Hr1 Hr2 Hk. pose proof (Hentry _ _ _ H1 Hr1) as E1.
  pose proof (Hentry _ _ _ H2 Hr2) as E2. rewrite Hk in E1. congruence.
Qed.

(** no caller of the coalesced receive is stranded.  In every reachable state each
    waiting caller can return after at most three actions, each of its own cell:
    if a result is there it takes it; if a receive is running, by whichever caller, its
    completion suffices; otherwise, as after the cancellation of a running receive, the
    caller itself can begin one. *)
Theorem refresh_waiters_progress l s task r (v : A) :
  refresh_run no_refreshes l = Some s → rs_tasks s !! task = Some r →
  ∃ actions s' receipt, (length actions <= 3)%nat ∧ refresh_run s actions = Some s'
    ∧ rs_tasks s' !! task = None ∧ rs_returned s' = (r, receipt) :: rs_returned s
    ∧ (cell_value s (rf_cell r) = None → receipt.1.1 = v).
Proof.
  intros Hrun Htask. pose proof (refresh_run_inv _ _ _ no_refreshes_inv Hrun) as Hinv.
  destruct (ti_handles _ _ _ (ri_table _ Hinv) _ _ _ (user_lookup _ _ _ Htask)) as (c & Hc & _).
  assert (∀ s0 r0 receipt, rs_tasks s0 !! task = Some r0 → cell_value s0 (rf_cell r0) = Some receipt →
            ∃ s', refresh_step s0 (Take task) = Some s' ∧ rs_tasks s' !! task = None
                  ∧ rs_returned s' = (r0, receipt) :: rs_returned s0) as Htake.
  { intros s0 r0 receipt H0 Hval. simpl. rewrite H0, Hval. eexists. split_and!; [done| |done]. simpl.
    by rewrite lookup_delete_eq. }
  assert (∀ s0 runner r', rs_tasks s0 = rs_tasks s → rs_table s0 = rs_table s → rs_returned s0 = rs_returned s →
            rs_running s0 !! rf_cell r = Some runner →
            rs_tasks s !! runner = Some r' → rf_cell r' = rf_cell r →
            ∃ s1 s2 receipt, refresh_step s0 (Complete runner v) = Some s1 ∧ refresh_step s1 (Take task) = Some s2
              ∧ rs_tasks s2 !! task = None ∧ rs_returned s2 = (r, receipt) :: rs_returned s ∧ receipt.1.1 = v) as Hdone.
  { intros s0 runner r' Etasks Etable Eret Erun Er' Ecell.
    assert (∃ s1, refresh_step s0 (Complete runner v) = Some s1 ∧ rs_tasks s1 = rs_tasks s ∧ rs_returned s1 = rs_returned s
                  ∧ cell_value s1 (rf_cell r) = Some (v, rf_key r', rs_clock s0)) as (s1 & E1 & E2 & E3 & E4).
    { simpl. rewrite Etasks, Er', Ecell. rewrite bool_decide_true by done. rewrite Etable, Hc.
      eexists. split_and!; [done|done|done|]. unfold cell_value. simpl. by rewrite lookup_insert_eq. }
    destruct (Htake s1 r _ ltac:(by rewrite E2) E4) as (s2 & E5 & E6 & E7).
    exists s1, s2, (v, rf_key r', rs_clock s0). rewrite E7, E3. done. }
  destruct (cell_value s (rf_cell r)) as [receipt|] eqn:Hval.
  - destruct (Htake s r receipt Htask Hval) as (s' & E1 & E2 & E3).
    exists [Take task], s', receipt. simpl length. cbn [refresh_run]. rewrite E1. split_and!; [lia|done..].
  - destruct (rs_running s !! rf_cell r) as [runner|] eqn:Hrunner.
    + destruct (ri_running _ Hinv _ _ Hrunner) as [(r' & Hr' & Hcell) _].
      destruct (Hdone s runner r') as (s1 & s2 & receipt & E1 & E2 & E3 & E4 & E5); [done..|].
      exists [Complete runner v; Take task], s2, receipt. cbn [refresh_run]. rewrite E1, E2. simpl length.
      split_and!; [lia|done..].
    + assert (∃ s0, refresh_step s (Begin task) = Some s0 ∧ rs_tasks s0 = rs_tasks s ∧ rs_table s0 = rs_table s
                    ∧ rs_returned s0 = rs_returned s ∧ rs_running s0 !! rf_cell r = Some task)
        as (s0 & E0 & T0 & B0 & R0 & U0).
      { simpl. rewrite Htask, Hval, Hrunner. eexists. split_and!; [done..|]. simpl. by rewrite lookup_insert_eq. }
      destruct (Hdone s0 task r) as (s1 & s2 & receipt & E1 & E2 & E3 & E4 & E5); [done..|].
      exists [Begin task; Complete task v; Take task], s2, receipt. cbn [refresh_run]. rewrite E0, E1, E2. simpl length.
      split_and!; [lia|done..].
Qed.
End refreshes.

(** ** Examples *)

Module Example_registry.
(** Two adapters of Creator 1 and one of Creator 2; the guards of both Creators are held. *)
Definition lock_actions : list (LockAction (K := N)) :=
  [LockGet 1 1; LockGet 2 1; LockGet 3 2; LockAcquire 1; LockAcquire 3]%N.

(** Callers 1 and 2 share a receive that 1 begins and 2 takes over when 1 is dropped; caller
    3 arrives after it ended. *)
Definition refresh_actions : list (RefreshAction (K := string * string) (A := bool)) :=
  [Arrive 1 ("app", "b"); Arrive 2 ("app", "b"); Begin 1; Cancel 1; Begin 2; Complete 2 true;
   Arrive 3 ("app", "b"); Take 2]%N.
End Example_registry.

Import Example_registry.

Notation locked := (lock_run no_locks lock_actions).
Notation refreshed := (refresh_run no_refreshes refresh_actions).

Lemma creator_mutations_exclusive_witness :
  ∃ s, locked = Some s ∧ ∀ creator task1 task2 id1 id2,
    ls_tasks s !! task1 = Some (creator, id1) → ls_guards s !! id1 = Some task1 →
    ls_tasks s !! task2 = Some (creator, id2) → ls_guards s !! id2 = Some task2 → task1 = task2.
Proof.
  assert (is_some locked = true) as Hok by (vm_compute; reflexivity).
  destruct locked as [s|] eqn:Hs; [|discriminate Hok].
  exists s. split; [reflexivity|exact (proj1 (creator_mutations_exclusive lock_actions s Hs))].
Defined.

Lemma refresh_results_fresh_witness :
  ∃ s, refreshed = Some s ∧ ∀ r receipt, (r, receipt) ∈ rs_returned s →
    receipt.1.2 = rf_key r ∧ (rf_arrived r <= receipt.2 < rs_clock s)%nat.
Proof.
  assert (is_some refreshed = true) as Hok by (vm_compute; reflexivity).
  destruct refreshed as [s|] eqn:Hs; [|discriminate Hok].
  exists s. split; [reflexivity|exact (proj1 (refresh_results_fresh refresh_actions s Hs))].
Defined.

(** The third caller waits for a receive of its own. *)
Lemma refresh_waiters_progress_witness :
  ∃ s r actions s' receipt, refreshed = Some s ∧ rs_tasks s !! 3%N = Some r
    ∧ (length actions <= 3)%nat ∧ refresh_run s actions = Some s'
    ∧ rs_tasks s' !! 3%N = None ∧ rs_returned s' = (r, receipt) :: rs_returned s
    ∧ (cell_value s (rf_cell r) = None → receipt.1.1 = false).
Proof.
  assert (match refreshed with Some s => is_some (rs_tasks s !! 3%N) | None => false end = true) as Hok
    by (vm_compute; reflexivity).
  destruct refreshed as [s|] eqn:Hs; [|discriminate Hok].
  destruct (rs_tasks s !! 3%N) as [r|] eqn:Hr; [|discriminate Hok].
  destruct (refresh_waiters_progress refresh_actions s 3%N r false Hs Hr) as (actions & s' & receipt & Hrest).
  exists s, r, actions, s', receipt. split; [reflexivity|]. split; [exact Hr|exact Hrest].
Defined.
