(* ===== verification/Database.v ===== *)
(** * Database: the tables the stores share ([migrations/*.sql])

    A table is a finite map from its primary key to its row; a [NULL]able column is
    an [option].  The columns kept are the ones the modelled statements read or
    write.  A UUID is the 128-bit integer of its bytes, which is the order
    PostgreSQL sorts it by; an instant is a number of nanoseconds.  [CHECK]
    constraints are boolean functions: a statement whose result breaks one fails
    as a whole, and the error every store maps such a failure to is
    [PE_Unavailable]. *)

From S2P Require Import Prelude Text Locks Invoice Receiving Payment Lifecycle.
Local Open Scope string_scope.
Local Open Scope Z_scope.

(** [persistence/deployment.rs]: the secret-free failures of every store. *)
Inductive PersistenceError :=
| PE_DeploymentMismatch
| PE_CorruptOrMissing
| PE_ReauthenticationMismatch
| PE_Unavailable
| PE_Conflict
| PE_InvalidInput
| PE_DeadlineElapsed.

#[global] Instance PersistenceError_eq_dec : EqDecision PersistenceError.
Proof. solve_decision. Defined.

Definition persistence_error_label (e : PersistenceError) : string :=
  match e with
  | PE_DeploymentMismatch => "deployment_mismatch"
  | PE_CorruptOrMissing => "corrupt_or_missing"
  | PE_ReauthenticationMismatch => "reauthentication_mismatch"
  | PE_Unavailable => "unavailable"
  | PE_Conflict => "conflict"
  | PE_InvalidInput => "invalid_input"
  | PE_DeadlineElapsed => "deadline_elapsed"
  end.

Notation RowId := N.

Definition NANOS_PER_SECOND : Z := 1000000000.

Definition NANOS_PER_MILLI : Z := 1000000.

(** ** [outbox] *)

Inductive IntentKind :=
| EndpointPublication
| PaymentRequestProposalKind
| PaymentRequestCancellationKind.

#[global] Instance IntentKind_eq_dec : EqDecision IntentKind.
Proof. solve_decision. Defined.

Definition intent_kind_text (k : IntentKind) : string :=
  match k with
  | EndpointPublication => "endpoint_publication"
  | PaymentRequestProposalKind => "payment_request_proposal"
  | PaymentRequestCancellationKind => "payment_request_cancellation"
  end.

(** The statuses the statements write. *)
Inductive OutboxStatus :=
| Queued
| Leased
| Retryable
| HandedOff
| Delivered
| PermanentlyFailed.

#[global] Instance OutboxStatus_eq_dec : EqDecision OutboxStatus.
Proof. solve_decision. Defined.

Definition status_is (s t : OutboxStatus) : bool := bool_decide (s = t).

Definition kind_is (k l : IntentKind) : bool := bool_decide (k = l).

(** Columns written once, when the row is inserted. *)
Record OutboxKey := mk_OutboxKey {
  o_creator_id : RowId;
  o_invoice_id : option RowId;
  o_marketplace_preparation_id : option RowId;
  o_intent_kind : IntentKind;
  o_intent_envelope : string;
  o_proposal_lookup_hash : option string;
  o_cancellation_target : option string;
}.

Record LeaseColumns := mk_LeaseColumns {
  o_lease_owner : option RowId;
  o_claim_token : option RowId;
  o_lease_expires_at : option Z;
}.

Record SdkColumns := mk_SdkColumns {
  o_sdk_outbound_message_id : option string;
  o_sdk_event_id : option string;
  o_sdk_payment_request_id : option string;
}.

Definition no_lease : LeaseColumns := mk_LeaseColumns None None None.

Definition no_sdk : SdkColumns := mk_SdkColumns None None None.

Record OutboxRow := mk_OutboxRow {
  o_key : OutboxKey;
  o_cancellation_drain_required : bool;
  o_status : OutboxStatus;
  o_error_class : option string;
  o_attempt_count : Z;
  o_failure_count : Z;
  o_next_attempt_at : Z;
  o_lease : LeaseColumns;
  o_sdk : SdkColumns;
  o_updated_at : Z;
}.

Definition row_token (r : OutboxRow) : option RowId := o_claim_token (o_lease r).

Definition row_expiry (r : OutboxRow) : option Z := o_lease_expires_at (o_lease r).

Definition row_outbound (r : OutboxRow) : option string := o_sdk_outbound_message_id (o_sdk r).

(** The regular expression of the constraint: a decimal numeral with no leading
    zero. *)
Definition canonical_decimal (s : string) : bool :=
  match s with
  | EmptyString => false
  | String c rest =>
      all_bytes is_ascii_digit s && (negb (Ascii.eqb c "0") || str_is_empty rest)
  end.

(** Every [CHECK] constraint of the table ([0001], [0004], [0011], [0013],
    [0022]). *)
Definition outbox_check (r : OutboxRow) : bool :=
  let k := o_key r in
  let ids := o_sdk r in
  (negb (status_is (o_status r) HandedOff || status_is (o_status r) Delivered)
   || match o_sdk_outbound_message_id ids with
      | Some id => canonical_decimal id
      | None => false
      end)
  && match o_intent_kind k with
     | EndpointPublication =>
         is_none (o_sdk_event_id ids) && is_none (o_sdk_payment_request_id ids)
         && is_none (o_cancellation_target k)
     | PaymentRequestProposalKind =>
         is_none (o_cancellation_target k) && is_some (o_proposal_lookup_hash k)
         && Bool.eqb (is_none (o_sdk_event_id ids)) (is_none (o_sdk_payment_request_id ids))
     | PaymentRequestCancellationKind =>
         is_some (o_cancellation_target k) && is_none (o_proposal_lookup_hash k)
         && Bool.eqb (is_none (o_sdk_event_id ids)) (is_none (o_sdk_payment_request_id ids))
     end
  && (0 <=? o_failure_count r)
  && negb (is_some (o_invoice_id k) && is_some (o_marketplace_preparation_id k))
  && (negb (o_cancellation_drain_required r)
      || kind_is (o_intent_kind k) PaymentRequestCancellationKind).

(** ** The tables the outbox statements join *)

Record InvoiceRow := mk_InvoiceRow {
  i_creator_id : RowId;
  i_lock_resource_lookup_hash : string;
  i_lock_resource_generation : Z;
  i_payment_deadline : Z;
}.

Record GenerationRow := mk_GenerationRow {
  g_current_generation : Z;
  g_active_drain_id : option RowId;
}.

Inductive PreparationState := Prepared | Active | Voided.

#[global] Instance PreparationState_eq_dec : EqDecision PreparationState.
Proof. solve_decision. Defined.

Record PreparationRow := mk_PreparationRow {
  p_state : PreparationState;
  p_payment_deadline : option Z;
}.

Record LifecycleRow := mk_LifecycleRow {
  l_invoice_id : option RowId;
  l_marketplace_preparation_id : option RowId;
  l_request_state : PaymentRequestLifecycleState;
}.

Record Db := mk_Db {
  outbox : gmap RowId OutboxRow;
  creators : gmap RowId string;                      (* creator_lookup_hash *)
  invoices : gmap RowId InvoiceRow;
  generations : gmap (RowId * string) GenerationRow; (* lock_payment_generations *)
  preparations : gmap RowId PreparationRow;          (* marketplace_payment_preparations *)
  lifecycles : gmap string LifecycleRow;             (* payment_request_lifecycles *)
  provider_v2 : gset RowId;                          (* invoice_provider_v2 *)
}.

Definition set_outbox (db : Db) (t : gmap RowId OutboxRow) : Db :=
  mk_Db t (creators db) (invoices db) (generations db) (preparations db) (lifecycles db)
    (provider_v2 db).

(** [UPDATE outbox SET ... WHERE id = $1 AND guard]: the number of affected rows is
    the boolean, a broken [CHECK] fails the statement and changes nothing. *)
Definition update_outbox (db : Db) (id : RowId) (guard : OutboxRow → bool)
    (set : OutboxRow → OutboxRow) : result PersistenceError bool * Db :=
  match outbox db !! id with
  | Some r =>
      if guard r then
        if outbox_check (set r) then (Ok true, set_outbox db (<[id := set r]> (outbox db)))
        else (Err PE_Unavailable, db)
      else (Ok false, db)
  | None => (Ok false, db)
  end.

(** [INSERT INTO outbox (...) VALUES (..., 'queued', ...)] with the column defaults;
    a duplicate primary key or a broken [CHECK] fails the statement. *)
Definition queued_row (key : OutboxKey) (drain_required : bool) (now : Z) : OutboxRow :=
  mk_OutboxRow key drain_required Queued None 0 0 now no_lease no_sdk now.

Definition insert_queued (db : Db) (id : RowId) (key : OutboxKey) (drain_required : bool)
    (now : Z) : result PersistenceError unit * Db :=
  match outbox db !! id with
  | Some _ => (Err PE_Unavailable, db)
  | None =>
      if outbox_check (queued_row key drain_required now)
      then (Ok tt, set_outbox db (<[id := queued_row key drain_required now]> (outbox db)))
      else (Err PE_Unavailable, db)
  end.

(** ** Facts about the two statements *)

Lemma update_outbox_inv db id guard set res db' :
  update_outbox db id guard set = (res, db') →
  (∃ r, outbox db !! id = Some r ∧ guard r = true ∧ outbox_check (set r) = true
        ∧ res = Ok true ∧ db' = set_outbox db (<[id := set r]> (outbox db)))
  ∨ (db' = db ∧ res = Ok false ∧ ∀ r, outbox db !! id = Some r → guard r = false)
  ∨ (db' = db ∧ res = Err PE_Unavailable
     ∧ ∃ r, outbox db !! id = Some r ∧ guard r = true ∧ outbox_check (set r) = false).
Proof.
  unfold update_outbox. intros H. destruct (outbox db !! id) as [r|] eqn:E.
  - destruct (guard r) eqn:Hg; [destruct (outbox_check (set r)) eqn:Hc|]; simplify_eq.
    + left. eauto 10.
    + right; right. eauto 10.
    + right; left. split_and!; [done..|]. by intros ? [= <-].
  - right; left. by simplify_eq.
Qed.

Lemma update_outbox_true db id guard set db' :
  update_outbox db id guard set = (Ok true, db') →
  ∃ r, outbox db !! id = Some r ∧ guard r = true
       ∧ db' = set_outbox db (<[id := set r]> (outbox db)).
Proof.
  intros [(r & ? & ? & ? & ? & ?)|[(? & ? & ?)|(? & ? & ?)]]%update_outbox_inv; [eauto|done..].
Qed.

Lemma update_outbox_not_true db id guard set res db' :
  update_outbox db id guard set = (res, db') → res ≠ Ok true → db' = db.
Proof.
  intros [(r & ? & ? & ? & ? & ?)|[(? & ? & ?)|(? & ? & ?)]]%update_outbox_inv; done.
Qed.

(** The other tables never change. *)
Definition same_tables (db db' : Db) : Prop :=
  creators db' = creators db ∧ invoices db' = invoices db ∧ generations db' = generations db
  ∧ preparations db' = preparations db ∧ lifecycles db' = lifecycles db
  ∧ provider_v2 db' = provider_v2 db.

Lemma update_outbox_same_tables db id guard set res db' :
  update_outbox db id guard set = (res, db') → same_tables db db'.
Proof.
  intros [(r & ? & ? & ? & ? & ->)|[(-> & ? & ?)|(-> & ? & ?)]]%update_outbox_inv; done.
Qed.
