(* ===== verification/OutboxStore.v ===== *)
(** * OutboxStore: fenced outbox claims and transitions ([persistence/outbox.rs])

    Every method of [OutboxStore] is a function of the database, the database clock
    and its arguments; it returns the method's result and the database after it.  A
    method is one transaction that holds the row lock from its [FOR UPDATE] to its
    commit, so the methods interleave as whole steps: the concurrency of several
    workers is a sequence of these steps in any order (file [OutboxExec]).
    [FOR UPDATE SKIP LOCKED] is the argument [locked], the rows other transactions
    hold at that moment; [gen_random_uuid()] is the argument [fresh], which gives
    the token of each claimed row.  [clock_timestamp()] is [now], read once per
    method.  An outage of the database is an [Err PE_Unavailable] before anything is
    done and is the caller's branch, not a definition here. *)

From S2P Require Import Prelude Text Locks Invoice Receiving Payment Lifecycle Database.
Local Open Scope string_scope.
Local Open Scope Z_scope.

(** ** Data *)

Inductive OutboxRetryClass :=
| AdapterUnavailable
| RegistryFetch
| RegistryMissing
| RegistryIncapable
| ReaderAuthorizationFetch
| ReaderAuthorizationMissing
| ReaderAuthorizationInvalid
| LinkEstablishment
| LinkDependency
| LinkPending
| RetryPaymentRequestProposal
| RetryPaymentRequestCancellation
| ReconciliationPending
| Reconciliation.

#[global] Instance OutboxRetryClass_eq_dec : EqDecision OutboxRetryClass.
Proof. solve_decision. Defined.

Definition retry_class_as_str (c : OutboxRetryClass) : string :=
  match c with
  | AdapterUnavailable => "adapter_unavailable"
  | RegistryFetch => "registry_fetch"
  | RegistryMissing => "registry_missing"
  | RegistryIncapable => "registry_incapable"
  | ReaderAuthorizationFetch => "reader_authorization_fetch"
  | ReaderAuthorizationMissing => "reader_authorization_missing"
  | ReaderAuthorizationInvalid => "reader_authorization_invalid"
  | LinkEstablishment => "link_establishment"
  | LinkDependency => "link_dependency"
  | LinkPending => "link_pending"
  | RetryPaymentRequestProposal => "payment_request_proposal"
  | RetryPaymentRequestCancellation => "payment_request_cancellation"
  | ReconciliationPending => "reconciliation_pending"
  | Reconciliation => "reconciliation"
  end.

Inductive HandoffResult :=
| HandoffEndpointPublication (outbound_message_id : Z)
| HandoffProposal (outbound_message_id : Z) (event_id payment_request_id : string)
| HandoffCancellation (outbound_message_id : Z) (event_id payment_request_id : string).

Definition outbound_message_id (r : HandoffResult) : Z :=
  match r with
  | HandoffEndpointPublication m | HandoffProposal m _ _ | HandoffCancellation m _ _ => m
  end.

(** The identifiers [mark_handed_off] binds for each kind of result. *)
Definition handoff_ids (r : HandoffResult) : option string * option string :=
  match r with
  | HandoffEndpointPublication _ => (None, None)
  | HandoffProposal _ e p | HandoffCancellation _ e p => (Some e, Some p)
  end.

Record ClaimedOutbox := mk_ClaimedOutbox {
  c_id : RowId;
  c_creator_id : RowId;
  c_invoice_id : option RowId;
  c_attempt_count : Z;
  c_failure_count : Z;
  c_claim_token : RowId;
  c_creator_lookup_hash : string;
  c_intent_envelope : string;
  c_invoice_payment_deadline : option Z;
}.

Record ClaimedHandoff := mk_ClaimedHandoff {
  h_id : RowId;
  h_creator_id : RowId;
  h_attempt_count : Z;
  h_claim_token : RowId;
  h_sdk_outbound_message_id : string;
  h_intent_kind : IntentKind;
  h_creator_lookup_hash : string;
  h_intent_envelope : string;
  h_invoice_payment_deadline : option Z;
}.

(** [ClaimedHandoff::sdk_outbound_message_id] *)
Definition handoff_outbound_id (c : ClaimedHandoff) : result PersistenceError Z :=
  ok_or (parse_u64 (h_sdk_outbound_message_id c)) PE_CorruptOrMissing.

(** [CreatorWakeup]: a coalescing set of hints.  [notify] adds one, [wait] takes
    them all in ascending order. *)
Definition wakeup_notify (w : gset RowId) (creator : RowId) : gset RowId := {[creator]} ∪ w.

Definition wakeup_wait (w : gset RowId) : list RowId * gset RowId :=
  (merge_sort N.le (elements w), ∅).

(** The three hint sets of a store. *)
Record Wakeups := mk_Wakeups {
  transport : gset RowId;
  reconciliation : gset RowId;
  lifecycle_reconciliation : gset RowId;
}.

Definition wake_transport (w : Wakeups) (creator : RowId) : Wakeups :=
  mk_Wakeups (wakeup_notify (transport w) creator) (reconciliation w) (lifecycle_reconciliation w).

Definition wake_handed_off (w : Wakeups) (creator : RowId) : Wakeups :=
  mk_Wakeups (wakeup_notify (transport w) creator) (wakeup_notify (reconciliation w) creator)
    (wakeup_notify (lifecycle_reconciliation w) creator).

(** [Duration] is a number of nanoseconds; the casts to [i64] can fail. *)
Definition lease_seconds (duration : Z) : result PersistenceError Z :=
  ensure (duration / NANOS_PER_SECOND <=? i64_max) PE_Unavailable;;
  Ok (duration / NANOS_PER_SECOND).

Definition duration_milliseconds (duration : Z) : result PersistenceError Z :=
  ensure (duration / NANOS_PER_MILLI <=? i64_max) PE_Unavailable;;
  Ok (duration / NANOS_PER_MILLI).

(** ** Eligibility *)

Definition option_is (a b : option RowId) : bool := bool_decide (a = b).

(** The drain fence of the joined invoice: its lock generation is current and has no
    active drain. *)
Definition invoice_generation_open (db : Db) (invoice_id : option RowId) : bool :=
  match invoice_id ≫= λ i, invoices db !! i with
  | Some inv =>
      match generations db !! (i_creator_id inv, i_lock_resource_lookup_hash inv) with
      | Some g => (g_current_generation g =? i_lock_resource_generation inv)
                  && is_none (g_active_drain_id g)
      | None => false
      end
  | None => false
  end.

Definition preparation_active (db : Db) (preparation_id : option RowId) : bool :=
  match preparation_id ≫= λ p, preparations db !! p with
  | Some p => bool_decide (p_state p = Active)
  | None => false
  end.

(** [o.intent_kind <> 'payment_request_proposal' OR (o.proposal_lookup_hash IS NOT
    NULL AND (EXISTS ... OR EXISTS ...))], the clause five statements share. *)
Definition delivery_permitted (db : Db) (r : OutboxRow) : bool :=
  let k := o_key r in
  negb (kind_is (o_intent_kind k) PaymentRequestProposalKind)
  || (is_some (o_proposal_lookup_hash k)
      && (invoice_generation_open db (o_invoice_id k)
          || preparation_active db (o_marketplace_preparation_id k))).

Definition expired (at_ : option Z) (now : Z) : bool :=
  match at_ with Some t => t <=? now | None => false end.

Definition live (at_ : option Z) (now : Z) : bool :=
  match at_ with Some t => now <? t | None => false end.

Definition due (now : Z) (r : OutboxRow) : bool :=
  (status_is (o_status r) Queued && (o_next_attempt_at r <=? now))
  || (status_is (o_status r) Leased && expired (row_expiry r) now)
  || (status_is (o_status r) Retryable && (o_next_attempt_at r <=? now)).

(** [ORDER BY next_attempt_at, id] *)
Definition claim_order (a b : RowId * OutboxRow) : Prop :=
  o_next_attempt_at a.2 < o_next_attempt_at b.2
  ∨ (o_next_attempt_at a.2 = o_next_attempt_at b.2 ∧ (a.1 <= b.1)%N).

#[global] Instance claim_order_dec : RelDecision claim_order.
Proof. intros a b. unfold claim_order. apply _. Defined.

(** [SELECT id FROM outbox WHERE p ORDER BY ... FOR UPDATE SKIP LOCKED LIMIT n] *)
Definition select_candidates (db : Db) (locked : gset RowId) (p : OutboxRow → bool)
    (limit : Z) : list RowId :=
  (take (Z.to_nat limit)
     (merge_sort claim_order
        (filter (λ x, p x.2 ∧ x.1 ∉ locked) (map_to_list (outbox db))))).*1.

Definition claim_eligible (db : Db) (now : Z) (creator : option RowId) (r : OutboxRow) : bool :=
  due now r
  && match creator with Some c => (o_creator_id (o_key r) =? c)%N | None => true end
  && delivery_permitted db r.

Definition reconciliation_eligible (now : Z) (creators : option (list RowId)) (r : OutboxRow) : bool :=
  status_is (o_status r) HandedOff
  && match creators with Some cs => bool_decide (o_creator_id (o_key r) ∈ cs) | None => true end
  && is_some (row_outbound r)
  && (o_next_attempt_at r <=? now)
  && (is_none (row_token r) || expired (row_expiry r) now).

(** ** Claims *)

Definition take_lease (status : OutboxStatus) (owner token : RowId) (seconds now : Z)
    (r : OutboxRow) : OutboxRow :=
  mk_OutboxRow (o_key r) (o_cancellation_drain_required r) status (o_error_class r)
    (o_attempt_count r + 1) (o_failure_count r) (o_next_attempt_at r)
    (mk_LeaseColumns (Some owner) (Some token) (Some (now + seconds * NANOS_PER_SECOND)))
    (o_sdk r) now.

(** [UPDATE ... FROM candidates WHERE o.id = candidates.id] *)
Definition update_candidates (db : Db) (ids : list RowId)
    (set : RowId → OutboxRow → OutboxRow) : Db :=
  set_outbox db
    (map_imap (λ id r, Some (if bool_decide (id ∈ ids) then set id r else r)) (outbox db)).

(** [attempt_count] is an [INTEGER]: adding one to the greatest value is an error of
    the whole statement. *)
Definition attempts_exhausted (db : Db) (ids : list RowId) : bool :=
  existsb (λ id, match outbox db !! id with
                 | Some r => i32_max <=? o_attempt_count r
                 | None => false
                 end) ids.

Definition invoice_deadline (db : Db) (r : OutboxRow) : option Z :=
  i_payment_deadline <$> (o_invoice_id (o_key r) ≫= λ i, invoices db !! i).

(** The [RETURNING] rows, decoded into the claim structures. *)
Definition returning_outbox (db : Db) (id : RowId) : result PersistenceError ClaimedOutbox :=
  r ← ok_or (outbox db !! id) PE_Unavailable;
  token ← ok_or (row_token r) PE_Unavailable;
  hash ← ok_or (creators db !! o_creator_id (o_key r)) PE_Unavailable;
  Ok (mk_ClaimedOutbox id (o_creator_id (o_key r)) (o_invoice_id (o_key r)) (o_attempt_count r)
        (o_failure_count r) token hash (o_intent_envelope (o_key r)) (invoice_deadline db r)).

Definition returning_handoff (db : Db) (id : RowId) : result PersistenceError ClaimedHandoff :=
  r ← ok_or (outbox db !! id) PE_Unavailable;
  token ← ok_or (row_token r) PE_Unavailable;
  outbound ← ok_or (row_outbound r) PE_Unavailable;
  hash ← ok_or (creators db !! o_creator_id (o_key r)) PE_Unavailable;
  Ok (mk_ClaimedHandoff id (o_creator_id (o_key r)) (o_attempt_count r) token outbound
        (o_intent_kind (o_key r)) hash (o_intent_envelope (o_key r)) (invoice_deadline db r)).

(** One claiming statement: select, lease, return. *)
Definition claim_rows {A} (db : Db) (locked : gset RowId) (fresh : RowId → RowId)
    (now : Z) (owner : RowId) (limit lease : Z) (status : OutboxStatus)
    (p : OutboxRow → bool) (returning : Db → RowId → result PersistenceError A) :
    result PersistenceError (list A) * Db :=
  match lease_seconds lease with
  | Err e => (Err e, db)
  | Ok seconds =>
      if limit <? 0 then (Err PE_Unavailable, db)
      else
        let ids := select_candidates db locked p limit in
        if attempts_exhausted db ids then (Err PE_Unavailable, db)
        else
          let db' := update_candidates db ids
                       (λ id, take_lease status owner (fresh id) seconds now) in
          (collect (returning db') ids, db')
  end.

Definition claim_matching (db : Db) (locked : gset RowId) (fresh : RowId → RowId)
    (now : Z) (owner : RowId) (limit lease : Z) (creator : option RowId) :
    result PersistenceError (list ClaimedOutbox) * Db :=
  claim_rows db locked fresh now owner limit lease Leased
    (claim_eligible db now creator) returning_outbox.

Definition claim (db : Db) (locked : gset RowId) (fresh : RowId → RowId) (now : Z)
    (owner : RowId) (limit lease : Z) : result PersistenceError (list ClaimedOutbox) * Db :=
  claim_matching db locked fresh now owner limit lease None.

(** [Vec::pop] takes the last of the at most one claimed rows. *)
Definition claim_for_creator (db : Db) (locked : gset RowId) (fresh : RowId → RowId)
    (now : Z) (owner creator : RowId) (lease : Z) :
    result PersistenceError (option ClaimedOutbox) * Db :=
  let '(res, db') := claim_matching db locked fresh now owner 1 lease (Some creator) in
  (last <$> res, db').

Definition claim_reconciliation_for_creators (db : Db) (locked : gset RowId)
    (fresh : RowId → RowId) (now : Z) (owner : RowId) (limit lease : Z)
    (creators : option (list RowId)) : result PersistenceError (list ClaimedHandoff) * Db :=
  claim_rows db locked fresh now owner limit lease HandedOff
    (reconciliation_eligible now creators) returning_handoff.

Definition claim_reconciliation (db : Db) (locked : gset RowId) (fresh : RowId → RowId)
    (now : Z) (owner : RowId) (limit lease : Z) :
    result PersistenceError (list ClaimedHandoff) * Db :=
  claim_reconciliation_for_creators db locked fresh now owner limit lease None.

(** ** Queries *)

(** The error classes [delivery_available] counts as systemic. *)
Definition systemic_error (class : option string) : bool :=
  match class with
  | Some c => existsb (String.eqb c)
      ["adapter_unavailable"; "registry_fetch"; "reader_authorization_fetch"; "link_dependency";
       "payment_request_proposal"; "payment_request_cancellation"; "reconciliation"]
  | None => false
  end.

Definition cancellation_overdue (db : Db) (now : Z) (r : OutboxRow) : bool :=
  kind_is (o_intent_kind (o_key r)) PaymentRequestCancellationKind
  && (expired (invoice_deadline db r) now
      || expired (o_marketplace_preparation_id (o_key r) ≫= λ p,
                    preparations db !! p ≫= p_payment_deadline) now).

Definition delivery_outage (db : Db) (now : Z) (r : OutboxRow) : bool :=
  (status_is (o_status r) Retryable || status_is (o_status r) Leased
   || status_is (o_status r) HandedOff)
  && systemic_error (o_error_class r)
  && negb (cancellation_overdue db now r)
  && delivery_permitted db r.

Definition delivery_available (db : Db) (now : Z) : bool :=
  negb (existsb (λ x, delivery_outage db now x.2) (map_to_list (outbox db))).

(** [GROUP BY creator_id ORDER BY MIN(next_attempt_at), creator_id LIMIT n] *)
Definition min_attempt (rows : list OutboxRow) (creator : RowId) : option Z :=
  foldr (λ r acc, if (o_creator_id (o_key r) =? creator)%N
                  then Some (match acc with
                             | Some m => Z.min (o_next_attempt_at r) m
                             | None => o_next_attempt_at r
                             end)
                  else acc) None rows.

Definition creator_order (a b : Z * RowId) : Prop :=
  a.1 < b.1 ∨ (a.1 = b.1 ∧ (a.2 <= b.2)%N).

#[global] Instance creator_order_dec : RelDecision creator_order.
Proof. intros a b. unfold creator_order. apply _. Defined.

Definition due_creator_ids (db : Db) (now : Z) (excluded : list RowId) (limit : Z) :
    result PersistenceError (list RowId) :=
  ensure (0 <=? limit) PE_Unavailable;;
  let rows := (filter (λ x : RowId * OutboxRow,
                 o_creator_id (o_key x.2) ∉ excluded ∧ due now x.2 ∧ delivery_permitted db x.2)
               (map_to_list (outbox db))).*2 in
  let groups := omap (λ c, (λ m, (m, c)) <$> min_attempt rows c)
                  (remove_dups ((λ r, o_creator_id (o_key r)) <$> rows)) in
  Ok (take (Z.to_nat limit) (merge_sort creator_order groups)).*2.

(** The live-claim test of every fenced statement. *)
Definition holds_claim (status : OutboxStatus) (token : RowId) (now : Z) (r : OutboxRow) : bool :=
  status_is (o_status r) status && option_is (row_token r) (Some token) && live (row_expiry r) now.

Definition claim_handoff_eligible (db : Db) (now : Z) (c : ClaimedOutbox) : bool :=
  match outbox db !! c_id c with
  | Some r => holds_claim Leased (c_claim_token c) now r && delivery_permitted db r
  | None => false
  end.

Definition rotation_cancellation_target_is_accepted (db : Db) (c : ClaimedOutbox) : bool :=
  match outbox db !! c_id c with
  | Some r =>
      let k := o_key r in
      kind_is (o_intent_kind k) PaymentRequestCancellationKind
      && negb (o_cancellation_drain_required r)
      && match o_cancellation_target k ≫= λ t, lifecycles db !! t with
         | Some l =>
             option_is (l_invoice_id l) (o_invoice_id k)
             && option_is (l_marketplace_preparation_id l) (o_marketplace_preparation_id k)
             && (state_eqb (l_request_state l) Accepted
                 || state_eqb (l_request_state l) ProofSubmitted
                 || state_eqb (l_request_state l) ActiveRecurring)
         | None => false
         end
  | None => false
  end.

Definition proposal_expired (now deadline : Z) : bool := deadline <=? now.

Definition provider_v2_deadline_expired (db : Db) (now : Z) (c : ClaimedOutbox) : bool :=
  match outbox db !! c_id c with
  | Some r =>
      option_is (row_token r) (Some (c_claim_token c))
      && match o_invoice_id (o_key r) with
         | Some i =>
             match invoices db !! i with
             | Some inv => bool_decide (i ∈ provider_v2 db) && (i_payment_deadline inv <=? now)
             | None => false
             end
         | None => false
         end
  | None => false
  end.

Definition handoff_is_committed (db : Db) (c : ClaimedOutbox) : bool :=
  match outbox db !! c_id c with
  | Some r => (o_creator_id (o_key r) =? c_creator_id c)%N && status_is (o_status r) HandedOff
  | None => false
  end.

(** ** Fenced transitions

    [transition_fence] locks the row and then reads the clock; a missing row ends
    the method with [Ok(false)], which is also [update_outbox]'s answer. *)

Definition extend_lease (seconds now : Z) (r : OutboxRow) : OutboxRow :=
  mk_OutboxRow (o_key r) (o_cancellation_drain_required r) (o_status r) (o_error_class r)
    (o_attempt_count r) (o_failure_count r) (o_next_attempt_at r)
    (mk_LeaseColumns (o_lease_owner (o_lease r)) (row_token r)
       (Some (now + seconds * NANOS_PER_SECOND)))
    (o_sdk r) (o_updated_at r).

(** The fence is taken before the lease is converted, so a missing row answers
    [Ok(false)] even for a lease that does not fit. *)
Definition renew_claim (db : Db) (now : Z) (c : ClaimedOutbox) (lease : Z) :
    result PersistenceError bool * Db :=
  match outbox db !! c_id c with
  | None => (Ok false, db)
  | Some _ =>
      match lease_seconds lease with
      | Err e => (Err e, db)
      | Ok seconds =>
          update_outbox db (c_id c)
            (λ r, holds_claim Leased (c_claim_token c) now r && delivery_permitted db r)
            (extend_lease seconds now)
      end
  end.

Definition hand_off (handoff : HandoffResult) (now : Z) (r : OutboxRow) : OutboxRow :=
  mk_OutboxRow (o_key r) (o_cancellation_drain_required r) HandedOff None
    (o_attempt_count r) 0 (o_next_attempt_at r) no_lease
    (mk_SdkColumns (Some (fmt_dec (outbound_message_id handoff))) (handoff_ids handoff).1
       (handoff_ids handoff).2)
    now.

Definition mark_handed_off (db : Db) (w : Wakeups) (now : Z) (c : ClaimedOutbox)
    (handoff : HandoffResult) : result PersistenceError bool * Db * Wakeups :=
  let '(res, db') := update_outbox db (c_id c) (holds_claim Leased (c_claim_token c) now)
                       (hand_off handoff now) in
  (res, db', match res with Ok true => wake_handed_off w (c_creator_id c) | _ => w end).

(** [SET status, error_class, failure_count, next_attempt_at, lease columns] of
    [transition]. *)
Definition next_failure_count (status : OutboxStatus) (class : option string) (r : OutboxRow) : Z :=
  if match class with Some c => String.eqb c "link_pending" | None => false end then 0
  else if status_is status Retryable then Z.min (o_failure_count r + 1) i32_max
  else o_failure_count r.

Definition release_to (status : OutboxStatus) (class : option string) (delay_milliseconds : option Z)
    (now : Z) (r : OutboxRow) : OutboxRow :=
  mk_OutboxRow (o_key r) (o_cancellation_drain_required r) status class
    (o_attempt_count r) (next_failure_count status class r)
    (match delay_milliseconds with
     | Some ms => now + ms * NANOS_PER_MILLI
     | None => o_next_attempt_at r
     end) no_lease (o_sdk r) now.

Definition transition (db : Db) (now : Z) (c : ClaimedOutbox) (status : OutboxStatus)
    (class : option string) (delay_milliseconds : option Z) : result PersistenceError bool * Db :=
  update_outbox db (c_id c) (holds_claim Leased (c_claim_token c) now)
    (release_to status class delay_milliseconds now).

Definition mark_permanently_failed (db : Db) (now : Z) (c : ClaimedOutbox) :
    result PersistenceError bool * Db :=
  transition db now c PermanentlyFailed (Some "permanent") None.

Definition mark_proposal_expired (db : Db) (now : Z) (c : ClaimedOutbox) :
    result PersistenceError bool * Db :=
  transition db now c PermanentlyFailed (Some "proposal_expired") None.

Definition mark_retryable (db : Db) (now : Z) (c : ClaimedOutbox) (delay : Z)
    (class : OutboxRetryClass) : result PersistenceError bool * Db :=
  match duration_milliseconds delay with
  | Err e => (Err e, db)
  | Ok ms => transition db now c Retryable (Some (retry_class_as_str class)) (Some ms)
  end.

Definition make_obsolete (now : Z) (r : OutboxRow) : OutboxRow :=
  mk_OutboxRow (o_key r) (o_cancellation_drain_required r) PermanentlyFailed
    (Some "cancellation_obsolete") (o_attempt_count r) (o_failure_count r)
    (o_next_attempt_at r) no_lease (o_sdk r) now.

Definition mark_cancellation_obsolete (db : Db) (now : Z) (c : ClaimedOutbox) :
    result PersistenceError bool * Db :=
  update_outbox db (c_id c)
    (λ r, holds_claim Leased (c_claim_token c) now r && negb (o_cancellation_drain_required r))
    (make_obsolete now).

Definition reconcile_to (status : OutboxStatus) (class : option string) (delay : option Z)
    (now : Z) (r : OutboxRow) : OutboxRow :=
  mk_OutboxRow (o_key r) (o_cancellation_drain_required r) status class
    (o_attempt_count r) (o_failure_count r)
    (match delay with
     | Some s => now + s * NANOS_PER_SECOND
     | None => o_next_attempt_at r
     end) no_lease (o_sdk r) now.

Definition reconciliation_transition (db : Db) (now : Z) (c : ClaimedHandoff)
    (status : OutboxStatus) (class : option string) (delay : option Z) :
    result PersistenceError bool * Db :=
  update_outbox db (h_id c)
    (λ r, holds_claim HandedOff (h_claim_token c) now r
          && bool_decide (row_outbound r = Some (h_sdk_outbound_message_id c)))
    (reconcile_to status class delay now).

Definition mark_delivered (db : Db) (now : Z) (c : ClaimedHandoff) :
    result PersistenceError bool * Db :=
  reconciliation_transition db now c Delivered None None.

Definition mark_reconciliation_permanently_failed (db : Db) (now : Z) (c : ClaimedHandoff) :
    result PersistenceError bool * Db :=
  reconciliation_transition db now c PermanentlyFailed (Some "permanent_sdk_reconciliation") None.

Definition retry_reconciliation (db : Db) (now : Z) (c : ClaimedHandoff) (delay : Z)
    (class : OutboxRetryClass) : result PersistenceError bool * Db :=
  match lease_seconds delay with
  | Err e => (Err e, db)
  | Ok seconds =>
      reconciliation_transition db now c HandedOff (Some (retry_class_as_str class)) (Some seconds)
  end.

(** ** The other writers of the table

    Invoice admission ([persistence/invoices.rs]), Marketplace activation
    ([persistence/marketplace_preparations.rs]), payment drains
    ([persistence/payment_drains.rs]) and account rotation
    ([persistence/creators.rs]). *)

Definition insert_outbox (db : Db) (id creator_id invoice_id : RowId) (envelope : string)
    (kind : IntentKind) (proposal_lookup_hash : option string) (now : Z) :
    result PersistenceError unit * Db :=
  insert_queued db id
    (mk_OutboxKey creator_id (Some invoice_id) None kind envelope proposal_lookup_hash None)
    false now.

Definition insert_marketplace_proposal (db : Db) (id creator_id preparation_id : RowId)
    (envelope proposal_lookup_hash : string) (now : Z) : result PersistenceError unit * Db :=
  insert_queued db id
    (mk_OutboxKey creator_id None (Some preparation_id) PaymentRequestProposalKind envelope
       (Some proposal_lookup_hash) None) false now.

Definition insert_drain_cancellation (db : Db) (id creator_id invoice_id : RowId)
    (envelope target : string) (now : Z) : result PersistenceError unit * Db :=
  insert_queued db id
    (mk_OutboxKey creator_id (Some invoice_id) None PaymentRequestCancellationKind envelope None
       (Some target)) true now.

Definition insert_rotation_cancellation (db : Db) (id creator_id : RowId)
    (invoice_id preparation_id : option RowId) (envelope target : string) (now : Z) :
    result PersistenceError unit * Db :=
  insert_queued db id
    (mk_OutboxKey creator_id invoice_id preparation_id PaymentRequestCancellationKind envelope None
       (Some target)) false now.

Definition suppress_row (now : Z) (r : OutboxRow) : OutboxRow :=
  mk_OutboxRow (o_key r) (o_cancellation_drain_required r) PermanentlyFailed
    (Some "bitcoin_account_rotated") (o_attempt_count r) (o_failure_count r)
    (o_next_attempt_at r) no_lease (o_sdk r) now.

Definition suppress_rotated_proposal (db : Db) (now : Z) (id : RowId) :
    result PersistenceError bool * Db :=
  update_outbox db id
    (λ r, status_is (o_status r) Queued || status_is (o_status r) Retryable
          || status_is (o_status r) Leased)
    (suppress_row now).

Definition require_drain (now : Z) (r : OutboxRow) : OutboxRow :=
  mk_OutboxRow (o_key r) true (o_status r) (o_error_class r) (o_attempt_count r)
    (o_failure_count r) (o_next_attempt_at r) (o_lease r) (o_sdk r) now.

Definition mark_drain_required (db : Db) (now : Z) (id creator_id invoice_id : RowId)
    (target : string) : result PersistenceError bool * Db :=
  update_outbox db id
    (λ r, (o_creator_id (o_key r) =? creator_id)%N
          && option_is (o_invoice_id (o_key r)) (Some invoice_id)
          && is_none (o_marketplace_preparation_id (o_key r))
          && kind_is (o_intent_kind (o_key r)) PaymentRequestCancellationKind
          && bool_decide (o_cancellation_target (o_key r) = Some target)
          && negb (status_is (o_status r) PermanentlyFailed))
    (require_drain now).

(** ** Candidate selection *)

#[global] Instance claim_order_trans : Transitive claim_order.
Proof. intros a b c. unfold claim_order. lia. Qed.

#[global] Instance claim_order_total : Total claim_order.
Proof. intros a b. unfold claim_order. lia. Qed.

Section select.
Context (db : Db) (locked : gset RowId) (p : OutboxRow → bool) (limit : Z).

Definition matching : list (RowId * OutboxRow) :=
  filter (λ x, p x.2 ∧ x.1 ∉ locked) (map_to_list (outbox db)).

Lemma elem_of_matching id r :
  (id, r) ∈ matching ↔ outbox db !! id = Some r ∧ p r ∧ id ∉ locked.
Proof. unfold matching. rewrite list_elem_of_filter, elem_of_map_to_list. simpl. tauto. Qed.

Lemma select_lookup id :
  id ∈ select_candidates db locked p limit →
  ∃ r, outbox db !! id = Some r ∧ p r = true ∧ id ∉ locked.
Proof.
  unfold select_candidates. fold matching.
  intros ([id' r] & -> & H)%list_elem_of_fmap.
  apply (subseteq_take (Z.to_nat limit)) in H.
  rewrite merge_sort_Permutation in H. apply elem_of_matching in H as (? & ? & ?).
  exists r. split_and!; [done|by apply Is_true_true_1|done].
Qed.

Lemma select_NoDup : NoDup (select_candidates db locked p limit).
Proof.
  unfold select_candidates. fold matching.
  eapply sublist_NoDup; [|apply fmap_sublist, sublist_take].
  rewrite merge_sort_Permutation.
  eapply sublist_NoDup; [apply (NoDup_fst_map_to_list (outbox db))|].
  apply fmap_sublist, sublist_filter.
Qed.

Lemma select_length : Z.of_nat (length (select_candidates db locked p limit)) <= Z.max 0 limit.
Proof. unfold select_candidates. rewrite length_fmap, length_take. lia. Qed.

(** Oldest first: a matching row that is left out sorts after every selected row, and
    the limit is used up. *)
Lemma select_oldest id r :
  outbox db !! id = Some r → p r = true → id ∉ locked →
  id ∉ select_candidates db locked p limit →
  length (select_candidates db locked p limit) = Z.to_nat limit
  ∧ ∀ id' r', id' ∈ select_candidates db locked p limit → outbox db !! id' = Some r' →
              claim_order (id', r') (id, r).
Proof.
  intros Hr Hp Hl Hout. assert (Hm : (id, r) ∈ matching).
  { apply elem_of_matching. rewrite Hp. done. }
  assert (Hs : StronglySorted claim_order (merge_sort claim_order matching)).
  { apply StronglySorted_merge_sort; apply _. }
  unfold select_candidates in *. fold matching in *.
  rewrite <- (merge_sort_Permutation claim_order) in Hm.
  set (l := merge_sort claim_order matching) in *. set (n := Z.to_nat limit) in *.
  rewrite <- (take_drop n l) in Hm. apply elem_of_app in Hm as [Hm|Hm].
  { destruct Hout. apply list_elem_of_fmap. by exists (id, r). }
  split.
  - rewrite length_fmap, length_take. apply list_elem_of_lookup_1 in Hm as (i & Hi).
    rewrite lookup_drop in Hi. apply lookup_lt_Some in Hi. lia.
  - intros id' r' ([id'' r''] & -> & Hin)%list_elem_of_fmap Hr'.
    assert (r'' = r') as ->.
    { pose proof (subseteq_take n l _ Hin) as H. unfold l in H.
      rewrite merge_sort_Permutation in H. apply elem_of_matching in H as [? _]. naive_solver. }
    rewrite <- (take_drop n l) in Hs.
    eapply StronglySorted_app_1_elem_of; eauto.
Qed.
End select.

#[local] Hint Resolve select_NoDup : core.

(** ** Claiming statements *)

Lemma lookup_update_candidates db ids set id :
  outbox (update_candidates db ids set) !! id =
  (λ r, if bool_decide (id ∈ ids) then set id r else r) <$> outbox db !! id.
Proof. simpl. rewrite map_lookup_imap. by destruct (outbox db !! id). Qed.

Lemma claim_rows_inv {A} db locked fresh now owner limit lease status p
    (returning : Db → RowId → result PersistenceError A) res db' :
  claim_rows db locked fresh now owner limit lease status p returning = (res, db') →
  (db' = db ∧ ∃ e, res = Err e)
  ∨ ∃ seconds ids,
      lease_seconds lease = Ok seconds ∧ 0 <= limit
      ∧ ids = select_candidates db locked p limit ∧ attempts_exhausted db ids = false
      ∧ db' = update_candidates db ids (λ id, take_lease status owner (fresh id) seconds now)
      ∧ res = collect (returning db') ids.
Proof.
  unfold claim_rows. intros H. destruct (lease_seconds lease) as [seconds|e];
    [|simplify_eq; eauto].
  destruct (limit <? 0) eqn:Hl; [simplify_eq; eauto|].
  destruct (attempts_exhausted _ _) eqn:Ha; [simplify_eq; eauto|].
  right. exists seconds, (select_candidates db locked p limit). simplify_eq. split_bools. done.
Qed.

(** What a claiming statement does to one row, whatever it returns. *)
Lemma claim_rows_row {A} db locked fresh now owner limit lease status p
    (returning : Db → RowId → result PersistenceError A) res db' id r :
  claim_rows db locked fresh now owner limit lease status p returning = (res, db') →
  outbox db !! id = Some r →
  outbox db' !! id = Some r
  ∨ (p r = true ∧ id ∉ locked ∧ o_attempt_count r < i32_max
     ∧ ∃ seconds, lease_seconds lease = Ok seconds
       ∧ outbox db' !! id = Some (take_lease status owner (fresh id) seconds now r)).
Proof.
  intros [[-> _]|(seconds & ids & Hs & Hl & -> & Ha & -> & ->)]%claim_rows_inv Hr; [by left|].
  rewrite lookup_update_candidates, Hr. simpl. case_bool_decide as Hin; [right|by left].
  destruct (select_lookup _ _ _ _ _ Hin) as (r' & ? & ? & ?). simplify_eq.
  split_and!; [done|done| |eauto].
  destruct (Z.lt_ge_cases (o_attempt_count r) i32_max) as [?|Hge]; [done|].
  unfold attempts_exhausted in Ha. apply not_true_iff_false in Ha. destruct Ha.
  apply existsb_exists. exists id. split; [by apply list_elem_of_In|].
  rewrite Hr. by apply Z.leb_le.
Qed.

Lemma claim_rows_None {A} db locked fresh now owner limit lease status p
    (returning : Db → RowId → result PersistenceError A) res db' id :
  claim_rows db locked fresh now owner limit lease status p returning = (res, db') →
  outbox db !! id = None → outbox db' !! id = None.
Proof.
  intros [[-> _]|(? & ? & _ & _ & _ & _ & -> & _)]%claim_rows_inv Hr; [done|].
  by rewrite lookup_update_candidates, Hr.
Qed.

Lemma claim_rows_same_tables {A} db locked fresh now owner limit lease status p
    (returning : Db → RowId → result PersistenceError A) res db' :
  claim_rows db locked fresh now owner limit lease status p returning = (res, db') →
  same_tables db db'.
Proof. by intros [[-> _]|(? & ? & _ & _ & _ & _ & -> & _)]%claim_rows_inv. Qed.

(** A returned claim describes its row after the statement. *)
Lemma returning_outbox_inv db id c :
  returning_outbox db id = Ok c →
  ∃ r, outbox db !! id = Some r ∧ c_id c = id ∧ row_token r = Some (c_claim_token c)
       ∧ c_creator_id c = o_creator_id (o_key r) ∧ c_invoice_id c = o_invoice_id (o_key r)
       ∧ c_attempt_count c = o_attempt_count r ∧ c_failure_count c = o_failure_count r
       ∧ c_intent_envelope c = o_intent_envelope (o_key r)
       ∧ creators db !! c_creator_id c = Some (c_creator_lookup_hash c)
       ∧ c_invoice_payment_deadline c = invoice_deadline db r.
Proof. unfold returning_outbox. intros H. inv_ok. eauto 20. Qed.

Lemma due_not_live now r :
  due now r = true → o_status r = Leased → live (row_expiry r) now = false.
Proof.
  unfold due, status_is, expired, live. intros H Hst. rewrite Hst in H. simpl in H.
  rewrite orb_false_r in H. destruct (row_expiry r); [|done]. split_bools. by apply Z.ltb_ge.
Qed.

Lemma collect_elem {E A B} (f : A → result E B) l bs b :
  collect f l = Ok bs → b ∈ bs → ∃ a, a ∈ l ∧ f a = Ok b.
Proof.
  intros H%collect_ok_Forall2 (i & Hi)%list_elem_of_lookup_1.
  destruct (Forall2_lookup_r _ _ _ _ _ H Hi) as (a & Ha & ?).
  exists a. split; [|done]. by eapply list_elem_of_lookup_2.
Qed.

Lemma collect_ids db ids cs :
  collect (returning_outbox db) ids = Ok cs → c_id <$> cs = ids.
Proof.
  intros H%collect_ok_Forall2. induction H as [|id c ids cs Hc _ IH]; [done|].
  simpl. f_equal; [|done]. by apply returning_outbox_inv in Hc as (? & _ & ? & _).
Qed.

(** what a claim is.  Every returned claim is of a distinct row that was due,
    deliverable and not locked, whose previous lease (if any) had run out; the row
    is now leased to the owner under the fresh token the claim carries, until
    exactly the lease's whole seconds from now, with one more attempt and the
    failure count, status history and SDK identifiers untouched.  No more than
    [limit] rows are claimed. *)
Theorem claim_matching_sound db locked fresh now owner limit lease creator cs db' :
  claim_matching db locked fresh now owner limit lease creator = (Ok cs, db') →
  NoDup (c_id <$> cs) ∧ Z.of_nat (length cs) <= limit
  ∧ ∀ c, c ∈ cs →
      ∃ r, outbox db !! c_id c = Some r ∧ c_id c ∉ locked
           ∧ due now r = true ∧ delivery_permitted db r = true
           ∧ (o_status r = Leased → live (row_expiry r) now = false)
           ∧ (∀ cr, creator = Some cr → c_creator_id c = cr)
           ∧ c_claim_token c = fresh (c_id c)
           ∧ outbox db' !! c_id c =
               Some (take_lease Leased owner (c_claim_token c) (lease / NANOS_PER_SECOND) now r)
           ∧ c_attempt_count c = o_attempt_count r + 1
           ∧ c_intent_envelope c = o_intent_envelope (o_key r).
Proof.
  intros H. unfold claim_matching in H.
  apply claim_rows_inv in H as [[_ [e ?]]|(seconds & ids & Hs & Hl & Hids & Ha & Hdb & Hres)];
    [done|].
  pose proof (collect_ids _ _ _ (eq_sym Hres)) as Hcs.
  split_and!.
  - rewrite Hcs, Hids. auto.
  - rewrite <- (length_fmap c_id), Hcs, Hids.
    pose proof (select_length db locked (claim_eligible db now creator) limit). lia.
  - intros c Hc. destruct (collect_elem _ _ _ _ (eq_sym Hres) Hc) as (id & Hin & Hret).
    apply returning_outbox_inv in Hret as (r' & Hr' & <- & Htok & Hcr & _ & Hac & _ & Hen & _).
    rewrite Hids in Hin. destruct (select_lookup _ _ _ _ _ Hin) as (r & Hr & Hel & Hlk).
    pose proof Hr' as Hnew. rewrite Hdb, lookup_update_candidates, Hr in Hr'. simpl in Hr'.
    rewrite bool_decide_eq_true_2 in Hr' by (by rewrite Hids). injection Hr' as <-.
    assert (seconds = lease / NANOS_PER_SECOND) as -> by (clear -Hs; unfold lease_seconds in Hs; inv_ok; done).
    assert (c_claim_token c = fresh (c_id c)) as Hf by (by injection Htok).
    unfold claim_eligible in Hel. split_bools. exists r. rewrite Hf. split_and!; try done.
    + by apply due_not_live.
    + intros cr ->. rewrite Hcr. simpl. by apply N.eqb_eq.
Qed.

(** a live lease is exclusive.  Whatever a claiming statement returns, and for any
    owner, a row whose lease has not run out is left exactly as it was. *)
Theorem claim_respects_live_lease db locked fresh now owner limit lease creator res db' id r :
  claim_matching db locked fresh now owner limit lease creator = (res, db') →
  outbox db !! id = Some r → o_status r = Leased → live (row_expiry r) now = true →
  outbox db' !! id = Some r.
Proof.
  intros H Hr Hst Hlive. unfold claim_matching in H.
  destruct (claim_rows_row _ _ _ _ _ _ _ _ _ _ _ _ _ _ H Hr) as [?|(Hp & _)]; [done|].
  unfold claim_eligible in Hp. split_bools.
  rewrite (due_not_live now r) in Hlive by done. done.
Qed.

(** oldest work first.  When a claim leaves out an unlocked eligible row, the limit
    is exhausted and every claimed row precedes it by due time, then identifier;
    so no row is starved by rows that became due after it. *)
Theorem claim_oldest_first db locked fresh now owner limit lease creator cs db' id r :
  claim_matching db locked fresh now owner limit lease creator = (Ok cs, db') →
  outbox db !! id = Some r → id ∉ locked → claim_eligible db now creator r = true →
  id ∈ c_id <$> cs
  ∨ (Z.of_nat (length cs) = limit
     ∧ ∀ c r', c ∈ cs → outbox db !! c_id c = Some r' →
         o_next_attempt_at r' <= o_next_attempt_at r
         ∧ (o_next_attempt_at r' = o_next_attempt_at r → (c_id c <= id)%N)).
Proof.
  intros H Hr Hl Hel. unfold claim_matching in H.
  apply claim_rows_inv in H as [[_ [e ?]]|(seconds & ids & _ & Hlim & Hids & _ & _ & Hres)];
    [done|].
  apply eq_sym, collect_ids in Hres.
  destruct (decide (id ∈ ids)) as [Hin|Hout]; [left; by rewrite Hres|right].
  rewrite Hids in Hout.
  destruct (select_oldest _ _ _ _ id r Hr Hel Hl Hout) as [Hlen Hord].
  rewrite <- Hids in Hlen, Hord. split.
  - rewrite <- Hres, length_fmap in Hlen. lia.
  - intros c r' Hc Hr'. assert (Hcin : c_id c ∈ ids).
    { rewrite <- Hres. by apply list_elem_of_fmap_2. }
    specialize (Hord _ _ Hcin Hr'). unfold claim_order in Hord. simpl in Hord. lia.
Qed.

(** ** Fenced methods

    The methods that end or extend an enqueue claim, and those that end a
    reconciliation claim, as data: one constructor per method. *)
Inductive FencedOp :=
| Renew (lease : Z)
| HandOff (handoff : HandoffResult)
| FailPermanently
| ExpireProposal
| ObsoleteCancellation
| Retry (delay : Z) (class : OutboxRetryClass).

Definition run_fenced (db : Db) (w : Wakeups) (now : Z) (c : ClaimedOutbox) (op : FencedOp) :
    result PersistenceError bool * Db :=
  match op with
  | Renew lease => renew_claim db now c lease
  | HandOff handoff => (mark_handed_off db w now c handoff).1
  | FailPermanently => mark_permanently_failed db now c
  | ExpireProposal => mark_proposal_expired db now c
  | ObsoleteCancellation => mark_cancellation_obsolete db now c
  | Retry delay class => mark_retryable db now c delay class
  end.

Inductive ReconcileOp :=
| Deliver
| FailReconciliation
| RetryReconciliation (delay : Z) (class : OutboxRetryClass).

Definition run_reconcile (db : Db) (now : Z) (c : ClaimedHandoff) (op : ReconcileOp) :
    result PersistenceError bool * Db :=
  match op with
  | Deliver => mark_delivered db now c
  | FailReconciliation => mark_reconciliation_permanently_failed db now c
  | RetryReconciliation delay class => retry_reconciliation db now c delay class
  end.

(** The row a successful method writes. *)
Definition fenced_row (now : Z) (op : FencedOp) (r : OutboxRow) : OutboxRow :=
  match op with
  | Renew lease => extend_lease (lease / NANOS_PER_SECOND) now r
  | HandOff handoff => hand_off handoff now r
  | FailPermanently => release_to PermanentlyFailed (Some "permanent") None now r
  | ExpireProposal => release_to PermanentlyFailed (Some "proposal_expired") None now r
  | ObsoleteCancellation => make_obsolete now r
  | Retry delay class =>
      release_to Retryable (Some (retry_class_as_str class)) (Some (delay / NANOS_PER_MILLI)) now r
  end.

Definition reconciled_row (now : Z) (op : ReconcileOp) (r : OutboxRow) : OutboxRow :=
  match op with
  | Deliver => reconcile_to Delivered None None now r
  | FailReconciliation =>
      reconcile_to PermanentlyFailed (Some "permanent_sdk_reconciliation") None now r
  | RetryReconciliation delay class =>
      reconcile_to HandedOff (Some (retry_class_as_str class)) (Some (delay / NANOS_PER_SECOND)) now r
  end.

(** The condition a method adds to the live claim. *)
Definition fenced_guard (db : Db) (op : FencedOp) (r : OutboxRow) : bool :=
  match op with
  | Renew _ => delivery_permitted db r
  | ObsoleteCancellation => negb (o_cancellation_drain_required r)
  | _ => true
  end.

Lemma lease_seconds_ok d s : lease_seconds d = Ok s → s = d / NANOS_PER_SECOND.
Proof. unfold lease_seconds. intros H. by inv_ok. Qed.

Lemma duration_milliseconds_ok d s : duration_milliseconds d = Ok s → s = d / NANOS_PER_MILLI.
Proof. unfold duration_milliseconds. intros H. by inv_ok. Qed.

Lemma holds_claim_spec st token now r :
  holds_claim st token now r = true ↔
  o_status r = st ∧ row_token r = Some token ∧ live (row_expiry r) now = true.
Proof.
  unfold holds_claim, status_is, option_is. rewrite !andb_true_iff, !bool_decide_eq_true. tauto.
Qed.

Ltac inv_claim :=
  match goal with
  | H : holds_claim _ _ _ _ = true |- _ => apply holds_claim_spec in H as (? & ? & ?)
  end.

(** Every fenced method is one guarded update, or has no effect. *)
Lemma run_fenced_update db w now c op res db' :
  run_fenced db w now c op = (res, db') →
  (update_outbox db (c_id c)
     (λ r, holds_claim Leased (c_claim_token c) now r && fenced_guard db op r)
     (fenced_row now op) = (res, db'))
  ∨ (db' = db ∧ res ≠ Ok true).
Proof.
  assert (Hand : ∀ f : OutboxRow → OutboxRow,
    update_outbox db (c_id c) (λ r, holds_claim Leased (c_claim_token c) now r && true) f =
    update_outbox db (c_id c) (holds_claim Leased (c_claim_token c) now) f).
  { intros f. unfold update_outbox. destruct (outbox db !! c_id c); [|done]. by rewrite andb_true_r. }
  destruct op; simpl; rewrite ?Hand; intros H; [| |by left..|].
  - unfold renew_claim in H. destruct (outbox db !! c_id c) eqn:E; [|right; naive_solver].
    destruct (lease_seconds lease) as [s|] eqn:Hs; [|right; naive_solver].
    apply lease_seconds_ok in Hs as ->. by left.
  - unfold mark_handed_off in H. destruct (update_outbox _ _ _ _) eqn:E. left. exact H.
  - unfold mark_retryable in H. destruct (duration_milliseconds delay) as [s|] eqn:Hs;
      [|right; naive_solver].
    apply duration_milliseconds_ok in Hs as ->. by left.
Qed.

Lemma run_reconcile_update db now c op res db' :
  run_reconcile db now c op = (res, db') →
  (update_outbox db (h_id c)
     (λ r, holds_claim HandedOff (h_claim_token c) now r
           && bool_decide (row_outbound r = Some (h_sdk_outbound_message_id c)))
     (reconciled_row now op) = (res, db'))
  ∨ (db' = db ∧ res ≠ Ok true).
Proof.
  destruct op; simpl; intros H; [by left..|].
  unfold retry_reconciliation in H. destruct (lease_seconds delay) as [s|] eqn:Hs;
    [|right; naive_solver].
  apply lease_seconds_ok in Hs as ->. by left.
Qed.

(** the claim fence.  Every method that ends or extends an enqueue claim reports
    success only if, at that moment, the row was leased under the claim's own token
    and the lease was still running, and then it wrote exactly that method's row and
    no other; in every other case, errors included, the database is unchanged. *)
Theorem fenced_methods_respect_claim db w now c op res db' :
  run_fenced db w now c op = (res, db') →
  (res = Ok true ∧ ∃ r,
     outbox db !! c_id c = Some r ∧ o_status r = Leased ∧ row_token r = Some (c_claim_token c)
     ∧ live (row_expiry r) now = true ∧ fenced_guard db op r = true
     ∧ db' = set_outbox db (<[c_id c := fenced_row now op r]> (outbox db)))
  ∨ (res ≠ Ok true ∧ db' = db).
Proof.
  intros [H|[-> ?]]%run_fenced_update; [|by right].
  apply update_outbox_inv in H
    as [(r & Hr & Hg & _ & -> & ->)|[(-> & -> & _)|(-> & -> & _)]]; [left|by right..].
  split; [done|]. exists r. split_bools. by inv_claim.
Qed.

(** delivery is acknowledged only for the handed-off message itself.  Every method
    that ends a reconciliation claim succeeds only on a row that is handed off with
    the claim's outbound message and is held by the claim's live token; otherwise
    the database is unchanged. *)
Theorem reconciliation_methods_respect_claim db now c op res db' :
  run_reconcile db now c op = (res, db') →
  (res = Ok true ∧ ∃ r,
     outbox db !! h_id c = Some r ∧ o_status r = HandedOff
     ∧ row_token r = Some (h_claim_token c) ∧ live (row_expiry r) now = true
     ∧ row_outbound r = Some (h_sdk_outbound_message_id c)
     ∧ db' = set_outbox db (<[h_id c := reconciled_row now op r]> (outbox db)))
  ∨ (res ≠ Ok true ∧ db' = db).
Proof.
  intros [H|[-> ?]]%run_reconcile_update; [|by right].
  apply update_outbox_inv in H
    as [(r & Hr & Hg & _ & -> & ->)|[(-> & -> & _)|(-> & -> & _)]]; [left|by right..].
  split; [done|]. exists r. split_bools. by inv_claim.
Qed.

(** the drain fence.  A Payment Request proposal of an invoice whose lock
    generation has an active drain, or is no longer current, is not claimed by any
    worker, is not revalidated for its SDK effect, and cannot have its lease
    renewed. *)
Theorem drain_fences_proposals db locked fresh now owner limit lease creator res db' id r inv i g c :
  outbox db !! id = Some r →
  o_intent_kind (o_key r) = PaymentRequestProposalKind →
  o_invoice_id (o_key r) = Some i → o_marketplace_preparation_id (o_key r) = None →
  invoices db !! i = Some inv →
  generations db !! (i_creator_id inv, i_lock_resource_lookup_hash inv) = Some g →
  g_active_drain_id g ≠ None ∨ g_current_generation g ≠ i_lock_resource_generation inv →
  claim_matching db locked fresh now owner limit lease creator = (res, db') →
  c_id c = id →
  outbox db' !! id = Some r
  ∧ claim_handoff_eligible db now c = false
  ∧ (renew_claim db now c lease).2 = db ∧ (renew_claim db now c lease).1 ≠ Ok true.
Proof.
  intros Hr Hk Hi Hm Hinv Hg Hcut Hclaim Hc.
  assert (Hp : delivery_permitted db r = false).
  { unfold delivery_permitted, invoice_generation_open, preparation_active, kind_is.
    rewrite Hk, Hi, Hm. simpl. rewrite Hinv, Hg. simpl.
    destruct (is_some _); [simpl|done]. rewrite orb_false_r.
    apply andb_false_iff. destruct Hcut as [H|H].
    - right. by destruct (g_active_drain_id g).
    - left. by apply Z.eqb_neq. }
  split_and!.
  - unfold claim_matching in Hclaim.
    destruct (claim_rows_row _ _ _ _ _ _ _ _ _ _ _ _ _ _ Hclaim Hr) as [?|(Hel & _)]; [done|].
    unfold claim_eligible in Hel. rewrite Hp, andb_false_r in Hel. done.
  - unfold claim_handoff_eligible. rewrite Hc, Hr, Hp. apply andb_false_r.
  - unfold renew_claim. rewrite Hc, Hr. destruct (lease_seconds lease); [|done].
    unfold update_outbox. by rewrite Hr, Hp, andb_false_r.
  - unfold renew_claim. rewrite Hc, Hr. destruct (lease_seconds lease); [|done].
    unfold update_outbox. by rewrite Hr, Hp, andb_false_r.
Qed.

(** ** Witnesses *)

Module Example_store.

Definition key : OutboxKey :=
  mk_OutboxKey 7 (Some 5%N) None PaymentRequestProposalKind "sealed" (Some "hash") None.

Definition invoice : InvoiceRow := mk_InvoiceRow 7 "lock" 0 99000000000.

Definition generation (drain : option RowId) : GenerationRow := mk_GenerationRow 0 drain.

Definition db_with (rows : gmap RowId OutboxRow) (drain : option RowId) : Db :=
  mk_Db rows {[7%N := "creator"]} {[5%N := invoice]} {[(7%N, "lock") := generation drain]} ∅ ∅ ∅.

(** One queued proposal. *)
Definition queued : Db := db_with {[1%N := queued_row key false 0]} None.

(** The same row leased until second 30 under token 42. *)
Definition leased_row : OutboxRow := take_lease Leased 9 42 30 0 (queued_row key false 0).

Definition leased : Db := db_with {[1%N := leased_row]} None.

Definition drained : Db := db_with {[1%N := leased_row]} (Some 3%N).

Definition the_claim : ClaimedOutbox :=
  mk_ClaimedOutbox 1 7 (Some 5%N) 1 0 42 "creator" "sealed" (Some 99000000000).

(** Handed off, and claimed again for reconciliation. *)
Definition sent_row : OutboxRow :=
  take_lease HandedOff 9 43 30 0 (hand_off (HandoffProposal 11 "event" "request") 0 leased_row).

Definition sent : Db := db_with {[1%N := sent_row]} None.

Definition the_handoff : ClaimedHandoff :=
  mk_ClaimedHandoff 1 7 2 43 "11" PaymentRequestProposalKind "creator" "sealed" (Some 99000000000).

Definition no_wakeups : Wakeups := mk_Wakeups ∅ ∅ ∅.

End Example_store.

Lemma claim_matching_sound_witness :
  ∃ db', claim_matching Example_store.queued ∅ (λ _, 42%N) 0 9 10 30000000000 None
         = (Ok [Example_store.the_claim], db')
         ∧ NoDup (c_id <$> [Example_store.the_claim]).
Proof.
  assert (H : (claim_matching Example_store.queued ∅ (λ _, 42%N) 0 9 10 30000000000 None).1
              = Ok [Example_store.the_claim]) by (vm_compute; reflexivity).
  destruct (claim_matching Example_store.queued ∅ (λ _, 42%N) 0 9 10 30000000000 None)
    as [res db'] eqn:E. simpl in H. subst res. exists db'. split; [done|].
  exact (proj1 (claim_matching_sound _ _ _ _ _ _ _ _ _ _ E)).
Defined.

Lemma claim_respects_live_lease_witness :
  outbox (claim_matching Example_store.leased ∅ (λ _, 50%N) 5 8 10 30000000000 None).2 !! 1%N
  = Some Example_store.leased_row.
Proof.
  destruct (claim_matching Example_store.leased ∅ (λ _, 50%N) 5 8 10 30000000000 None)
    as [res db'] eqn:E.
  apply (claim_respects_live_lease _ _ _ _ _ _ _ _ _ _ 1%N Example_store.leased_row E);
    reflexivity.
Defined.

Lemma claim_oldest_first_witness :
  ∃ cs, (claim_matching Example_store.queued ∅ (λ _, 42%N) 0 9 10 30000000000 None).1 = Ok cs
        ∧ 1%N ∈ c_id <$> cs.
Proof.
  assert (H : (claim_matching Example_store.queued ∅ (λ _, 42%N) 0 9 10 30000000000 None).1
              = Ok [Example_store.the_claim]) by (vm_compute; reflexivity).
  destruct (claim_matching Example_store.queued ∅ (λ _, 42%N) 0 9 10 30000000000 None)
    as [res db'] eqn:E. simpl in H. subst res. exists [Example_store.the_claim]. split; [done|].
  destruct (claim_oldest_first _ _ _ _ _ _ _ _ _ _ 1%N (queued_row Example_store.key false 0) E)
    as [?|[H _]]; [reflexivity|set_solver|vm_compute; reflexivity|done|].
  vm_compute in H. discriminate H.
Defined.

Lemma fenced_methods_respect_claim_witness :
  (run_fenced Example_store.leased Example_store.no_wakeups 5 Example_store.the_claim
     (Retry 1000000 LinkPending)).1 = Ok true
  ∧ o_status Example_store.leased_row = Leased.
Proof.
  destruct (run_fenced Example_store.leased Example_store.no_wakeups 5 Example_store.the_claim
              (Retry 1000000 LinkPending)) as [res db'] eqn:E.
  assert (Hres : res = Ok true) by (apply (f_equal fst) in E; vm_compute in E; by subst).
  split; [done|].
  destruct (fenced_methods_respect_claim _ _ _ _ _ _ _ E) as [[_ (r & Hr & Hst & _)]|[? _]]; [|done].
  injection Hr as <-. exact Hst.
Defined.

Lemma reconciliation_methods_respect_claim_witness :
  (run_reconcile Example_store.sent 5 Example_store.the_handoff Deliver).1 = Ok true
  ∧ row_outbound Example_store.sent_row = Some "11".
Proof.
  destruct (run_reconcile Example_store.sent 5 Example_store.the_handoff Deliver)
    as [res db'] eqn:E.
  assert (Hres : res = Ok true) by (apply (f_equal fst) in E; vm_compute in E; by subst).
  split; [done|].
  destruct (reconciliation_methods_respect_claim _ _ _ _ _ _ E)
    as [[_ (r & Hr & _ & _ & _ & Hout & _)]|[? _]]; [|done].
  injection Hr as <-. exact Hout.
Defined.

Lemma drain_fences_proposals_witness :
  claim_handoff_eligible Example_store.drained 5 Example_store.the_claim = false.
Proof.
  destruct (claim_matching Example_store.drained ∅ (λ _, 42%N) 5 9 10 30000000000 None)
    as [res db'] eqn:E.
  apply (drain_fences_proposals Example_store.drained ∅ (λ _, 42%N) 5 9 10 30000000000 None res db'
           1%N Example_store.leased_row Example_store.invoice 5%N
           (Example_store.generation (Some 3%N)) Example_store.the_claim);
    [reflexivity..|left; discriminate|exact E|reflexivity].
Defined.
