(* ===== verification/OutboxExec.v ===== *)
(** * OutboxExec: executions of the outbox and the delivery protocol they implement

    Workers, request handlers, drains and account rotation interleave as whole
    transactions.  [sys_step] has one constructor per method of [OutboxStore] and per
    other writer of the table, plus the passage of time and arbitrary changes of the
    other tables; an execution is any sequence of these steps.  The file proves the
    row invariant of every reachable state, that tokens fence forever, and that the
    table refines [delivery_step], the abstract protocol of one message: pending,
    attempting, enqueued, acknowledged or failed. *)

From S2P Require Import Prelude Text Locks Invoice Receiving Payment Lifecycle Database OutboxStore.
Local Open Scope string_scope.
Local Open Scope Z_scope.

(** The database, its clock, and the claim tokens generated so far. *)
Record Sys := mk_Sys {
  sys_db : Db;
  sys_now : Z;
  sys_tokens : gset RowId;
}.

(** [gen_random_uuid()] never repeats a token. *)
Definition fresh_tokens (s : Sys) (fresh : RowId → RowId) : Prop :=
  ∀ id, fresh id ∉ sys_tokens s.

Definition issue (s : Sys) (fresh : RowId → RowId) (db' : Db) : Sys :=
  mk_Sys db' (sys_now s) (set_map fresh (dom (outbox (sys_db s))) ∪ sys_tokens s).

Definition with_db (s : Sys) (db' : Db) : Sys := mk_Sys db' (sys_now s) (sys_tokens s).

Inductive sys_step : Sys → Sys → Prop :=
| StepClock s t :
    sys_now s <= t → sys_step s (mk_Sys (sys_db s) t (sys_tokens s))
| StepClaim s locked fresh owner limit lease creator res db' :
    fresh_tokens s fresh →
    claim_matching (sys_db s) locked fresh (sys_now s) owner limit lease creator = (res, db') →
    sys_step s (issue s fresh db')
| StepClaimReconciliation s locked fresh owner limit lease creators res db' :
    fresh_tokens s fresh →
    claim_reconciliation_for_creators (sys_db s) locked fresh (sys_now s) owner limit lease creators
      = (res, db') →
    sys_step s (issue s fresh db')
| StepFenced s w c op res db' :
    (∀ handoff, op = HandOff handoff → in_u64 (outbound_message_id handoff) = true) →
    run_fenced (sys_db s) w (sys_now s) c op = (res, db') →
    sys_step s (with_db s db')
| StepReconcile s c op res db' :
    run_reconcile (sys_db s) (sys_now s) c op = (res, db') →
    sys_step s (with_db s db')
| StepInsertInvoice s id creator invoice envelope kind hash res db' :
    insert_outbox (sys_db s) id creator invoice envelope kind hash (sys_now s) = (res, db') →
    sys_step s (with_db s db')
| StepInsertMarketplace s id creator preparation envelope hash res db' :
    insert_marketplace_proposal (sys_db s) id creator preparation envelope hash (sys_now s)
      = (res, db') →
    sys_step s (with_db s db')
| StepInsertDrain s id creator invoice envelope target res db' :
    insert_drain_cancellation (sys_db s) id creator invoice envelope target (sys_now s)
      = (res, db') →
    sys_step s (with_db s db')
| StepInsertRotation s id creator invoice preparation envelope target res db' :
    insert_rotation_cancellation (sys_db s) id creator invoice preparation envelope target
      (sys_now s) = (res, db') →
    sys_step s (with_db s db')
| StepSuppress s id res db' :
    suppress_rotated_proposal (sys_db s) (sys_now s) id = (res, db') →
    sys_step s (with_db s db')
| StepRequireDrain s id creator invoice target res db' :
    mark_drain_required (sys_db s) (sys_now s) id creator invoice target = (res, db') →
    sys_step s (with_db s db')
| StepOtherTables s db' :
    outbox db' = outbox (sys_db s) → sys_step s (with_db s db').

Definition initial (s : Sys) : Prop := outbox (sys_db s) = ∅.

Definition reachable (s : Sys) : Prop := ∃ s0, initial s0 ∧ rtc sys_step s0 s.

(** ** What a step does to one row *)

Inductive row_step (s : Sys) : OutboxRow → OutboxRow → Prop :=
| RowClaim r owner token seconds :
    due (sys_now s) r = true → o_attempt_count r < i32_max → token ∉ sys_tokens s →
    row_step s r (take_lease Leased owner token seconds (sys_now s) r)
| RowClaimReconciliation r owner token seconds :
    o_status r = HandedOff → o_attempt_count r < i32_max → token ∉ sys_tokens s →
    row_step s r (take_lease HandedOff owner token seconds (sys_now s) r)
| RowFenced r op :
    o_status r = Leased → (∃ t, row_token r = Some t) →
    (∀ handoff, op = HandOff handoff → in_u64 (outbound_message_id handoff) = true) →
    outbox_check (fenced_row (sys_now s) op r) = true →
    row_step s r (fenced_row (sys_now s) op r)
| RowReconcile r op :
    o_status r = HandedOff → outbox_check (reconciled_row (sys_now s) op r) = true →
    row_step s r (reconciled_row (sys_now s) op r)
| RowSuppress r :
    o_status r = Queued ∨ o_status r = Retryable ∨ o_status r = Leased →
    outbox_check (suppress_row (sys_now s) r) = true →
    row_step s r (suppress_row (sys_now s) r)
| RowRequireDrain r :
    outbox_check (require_drain (sys_now s) r) = true →
    row_step s r (require_drain (sys_now s) r).

(** [s'] differs from [s] in row [id] by one row step at most, and new rows are
    queued rows that satisfy the table's constraints. *)
Definition row_effect (s s' : Sys) (id : RowId) : Prop :=
  match outbox (sys_db s) !! id with
  | Some r => ∃ r', outbox (sys_db s') !! id = Some r' ∧ (r' = r ∨ row_step s r r')
  | None =>
      outbox (sys_db s') !! id = None
      ∨ ∃ key d, outbox (sys_db s') !! id = Some (queued_row key d (sys_now s))
                 ∧ outbox_check (queued_row key d (sys_now s)) = true
  end.

Lemma row_effect_refl s s' id :
  outbox (sys_db s') !! id = outbox (sys_db s) !! id → row_effect s s' id.
Proof. unfold row_effect. intros ->. destruct (_ !! id); eauto. Qed.

Lemma update_row_effect s id guard set res db' id' :
  update_outbox (sys_db s) id guard set = (res, db') →
  (∀ r, guard r = true → outbox_check (set r) = true → row_step s r (set r)) →
  row_effect s (with_db s db') id'.
Proof.
  intros [(r & Hr & Hg & Hc & _ & ->)|[(-> & _)|(-> & _)]]%update_outbox_inv Hs;
    [|by apply row_effect_refl..].
  destruct (decide (id' = id)) as [->|Hne].
  - unfold row_effect. rewrite Hr. simpl. rewrite lookup_insert_eq. eauto.
  - apply row_effect_refl. simpl. by rewrite lookup_insert_ne.
Qed.

Lemma insert_row_effect s id key d res db' id' :
  insert_queued (sys_db s) id key d (sys_now s) = (res, db') →
  row_effect s (with_db s db') id'.
Proof.
  unfold insert_queued. intros H. destruct (outbox (sys_db s) !! id) eqn:E;
    [simplify_eq; by apply row_effect_refl|].
  destruct (outbox_check _) eqn:Hc; simplify_eq; [|by apply row_effect_refl].
  destruct (decide (id' = id)) as [->|Hne].
  - unfold row_effect. rewrite E. right. simpl. rewrite lookup_insert_eq. eauto.
  - apply row_effect_refl. simpl. by rewrite lookup_insert_ne.
Qed.

Lemma reconciliation_eligible_handed_off now creators r :
  reconciliation_eligible now creators r = true → o_status r = HandedOff.
Proof. unfold reconciliation_eligible, status_is. intros H. by split_bools. Qed.

Lemma claim_row_effect {A} s locked fresh owner limit lease status p
    (returning : Db → RowId → result PersistenceError A) res db' id :
  fresh_tokens s fresh →
  claim_rows (sys_db s) locked fresh (sys_now s) owner limit lease status p returning = (res, db') →
  (∀ r token seconds, p r = true → o_attempt_count r < i32_max → token ∉ sys_tokens s →
     row_step s r (take_lease status owner token seconds (sys_now s) r)) →
  row_effect s (issue s fresh db') id.
Proof.
  intros Hf Hc Hs. unfold row_effect. destruct (outbox (sys_db s) !! id) as [r|] eqn:Hr; simpl.
  - destruct (claim_rows_row _ _ _ _ _ _ _ _ _ _ _ _ _ _ Hc Hr)
      as [->|(Hp & _ & Ha & seconds & _ & ->)]; eauto 10.
  - left. by eapply claim_rows_None.
Qed.

(** One lemma covers the twelve kinds of steps. *)
Lemma sys_step_row_effect s s' id : sys_step s s' → row_effect s s' id.
Proof.
  destruct 1 as [| | |s w c op res db' Hop H|s c op res db' H| | | | | | |s db' H].
  - by apply row_effect_refl.
  - eapply claim_row_effect; [done..|]. intros r token seconds Hp ? ?. constructor; [|done..].
    unfold claim_eligible in Hp. by split_bools.
  - eapply claim_row_effect; [done..|]. intros r token seconds Hp ? ?.
    constructor; [|done..]. by eapply reconciliation_eligible_handed_off.
  - apply run_fenced_update in H as [H|[-> _]]; [|by apply row_effect_refl].
    eapply update_row_effect; [done|]. intros r Hg Hck. cbv beta in Hg. split_bools.
    inv_claim. constructor; eauto.
  - apply run_reconcile_update in H as [H|[-> _]]; [|by apply row_effect_refl].
    eapply update_row_effect; [done|]. intros r Hg Hck. cbv beta in Hg. split_bools.
    inv_claim. by constructor.
  - by eapply insert_row_effect.
  - by eapply insert_row_effect.
  - by eapply insert_row_effect.
  - by eapply insert_row_effect.
  - eapply update_row_effect; [done|]. intros r Hg Hck. constructor; [|done].
    unfold status_is in Hg. rewrite !orb_true_iff, !bool_decide_eq_true in Hg. tauto.
  - eapply update_row_effect; [done|]. intros r _ Hck. by constructor.
  - apply row_effect_refl. simpl. by rewrite H.
Qed.

(** ** The row invariant *)

(** A row holds a complete lease or none. *)
Definition lease_complete (l : LeaseColumns) : bool :=
  match l with
  | mk_LeaseColumns (Some _) (Some _) (Some _) => true
  | mk_LeaseColumns None None None => true
  | _ => false
  end.

Record row_wf (r : OutboxRow) : Prop := {
  wf_check : outbox_check r = true;
  wf_lease : lease_complete (o_lease r) = true;
  (* a leased row has a token; only leased and handed-off rows may have one *)
  wf_leased : o_status r = Leased → row_token r ≠ None;
  wf_unleased : o_status r ≠ Leased → o_status r ≠ HandedOff → o_lease r = no_lease;
  (* SDK identifiers appear with the handoff, never before *)
  wf_unsent : o_status r = Queued ∨ o_status r = Leased ∨ o_status r = Retryable →
              o_sdk r = no_sdk;
  wf_sent : o_status r = HandedOff ∨ o_status r = Delivered →
            ∃ m, in_u64 m = true ∧ row_outbound r = Some (fmt_dec m);
  wf_attempts : 0 <= o_attempt_count r <= i32_max;
  wf_failures : 0 <= o_failure_count r <= i32_max;
}.

(** Close a field of [row_wf] of a row whose status is known. *)
Ltac wf_field :=
  simpl in *; first
  [ assumption | reflexivity | lia
  | intros; first [ discriminate | assumption | reflexivity | congruence ]
  | intros [|]; discriminate
  | intros [|[|]]; discriminate
  | solve [auto] | solve [unfold i32_max in *; lia] ].

Lemma queued_row_wf key d now :
  outbox_check (queued_row key d now) = true → row_wf (queued_row key d now).
Proof. intros H. split; wf_field. Qed.

Lemma take_lease_check st owner token seconds now r :
  o_status r = st ∨ (st ≠ HandedOff ∧ st ≠ Delivered) →
  outbox_check r = true → outbox_check (take_lease st owner token seconds now r) = true.
Proof.
  unfold outbox_check, take_lease, status_is. simpl. intros Hst H.
  rewrite !andb_true_iff in *. destruct H as ((((H1 & H2) & H3) & H4) & H5).
  split_and!; try done. destruct Hst as [<-|[H6 H7]]; [done|].
  by rewrite !bool_decide_eq_false_2.
Qed.

Lemma due_status now r :
  due now r = true → o_status r = Queued ∨ o_status r = Leased ∨ o_status r = Retryable.
Proof.
  unfold due, status_is. rewrite !orb_true_iff, !andb_true_iff, !bool_decide_eq_true. tauto.
Qed.

Lemma i32_min_bound x : 0 <= x -> 0 <= Z.min (x + 1) i32_max <= i32_max.
Proof. unfold i32_max. lia. Qed.

Lemma next_failure_count_bounds st class r :
  0 <= o_failure_count r <= i32_max → 0 <= next_failure_count st class r <= i32_max.
Proof.
  intros H. unfold next_failure_count. pose proof (i32_min_bound (o_failure_count r)).
  destruct (match class with Some _ => _ | None => _ end); [unfold i32_max; lia|].
  destruct (status_is _ _); lia.
Qed.

Lemma fenced_row_wf now op r :
  row_wf r → o_status r = Leased → row_token r ≠ None →
  (∀ handoff, op = HandOff handoff → in_u64 (outbound_message_id handoff) = true) →
  outbox_check (fenced_row now op r) = true → row_wf (fenced_row now op r).
Proof.
  intros [Hc Hl Hle Hun Hus Hse Ha Hf] Hst Htok Hop Hck.
  assert (Hsdk : o_sdk r = no_sdk) by auto.
  pose proof (λ c, next_failure_count_bounds PermanentlyFailed c r Hf) as Hn.
  pose proof (λ c, next_failure_count_bounds Retryable c r Hf) as Hn'.
  destruct op; split; try wf_field; simpl.
  - unfold row_token in *. destruct (o_lease r) as [[] [] []]; simpl in *; done.
  - intros _. eexists. by split; [apply Hop|].
Qed.

Lemma reconciled_row_wf now op r :
  row_wf r → o_status r = HandedOff →
  outbox_check (reconciled_row now op r) = true → row_wf (reconciled_row now op r).
Proof.
  intros [Hc Hl Hle Hun Hus Hse Ha Hf] Hst Hck.
  destruct op; split; wf_field.
Qed.

Lemma row_step_wf s r r' : row_wf r → row_step s r r' → row_wf r'.
Proof.
  intros Hwf Hstep. destruct Hstep as [r ? ? ? Hdue|r ? ? ? Hst|r op Hst [t Ht]|r op|r Hst Hck|r Hck].
  - apply due_status in Hdue as Hst. destruct Hwf as [Hc Hl Hle Hun Hus Hse Ha Hf].
    assert (o_sdk r = no_sdk) by tauto.
    split; try wf_field. by apply take_lease_check; [right|].
  - destruct Hwf as [Hc Hl Hle Hun Hus Hse Ha Hf].
    split; try wf_field. by apply take_lease_check; [left|].
  - apply fenced_row_wf; [done..| |done|done]. by rewrite Ht.
  - by apply reconciled_row_wf.
  - destruct Hwf as [Hc Hl Hle Hun Hus Hse Ha Hf]. split; wf_field.
  - destruct Hwf as [Hc Hl Hle Hun Hus Hse Ha Hf]. split; wf_field.
Qed.

Definition sys_wf (s : Sys) : Prop := map_Forall (λ _ r, row_wf r) (outbox (sys_db s)).

Lemma sys_step_wf s s' : sys_wf s → sys_step s s' → sys_wf s'.
Proof.
  intros Hwf Hstep id r' Hr'. pose proof (sys_step_row_effect s s' id Hstep) as H.
  unfold row_effect in H. destruct (outbox (sys_db s) !! id) as [r|] eqn:Hr.
  - destruct H as (r'' & Hr'' & [->|Hs]); simplify_eq; [by eapply Hwf|].
    eapply row_step_wf; [|done]. by eapply Hwf.
  - destruct H as [?|(key & d & Hq & Hc)]; simplify_eq. by apply queued_row_wf.
Qed.

Lemma reachable_wf s : reachable s → sys_wf s.
Proof.
  intros (s0 & H0 & Hrtc). revert s Hrtc. apply (rtc_ind_r sys_wf s0).
  - unfold sys_wf. rewrite H0. apply map_Forall_empty.
  - intros s s' _ ? ?. by eapply sys_step_wf.
Qed.

(** C2: the table invariant.  In every state any interleaving of the workers, the
    request handlers, drains and rotations can reach, every outbox row satisfies all
    its constraints: a complete lease or none, a token whenever leased, no lease once
    settled, SDK identifiers exactly from the handoff on, an attributable outbound
    message whenever handed off or delivered, counters within [i32]. *)
Theorem outbox_rows_well_formed s id r :
  reachable s → outbox (sys_db s) !! id = Some r → row_wf r.
Proof. intros Hs Hr. by apply (reachable_wf s Hs id). Qed.

(** ** The abstract protocol of one message *)

Inductive Delivery :=
| Pending
| Attempting (token : RowId)
| Enqueued (message : string)
| Acknowledged (message : string)
| Failed (message : option string).

Inductive delivery_step : Delivery → Delivery → Prop :=
| DeliveryAttempt t : delivery_step Pending (Attempting t)
| DeliveryTakeover t t' : delivery_step (Attempting t) (Attempting t')
| DeliveryRetry t : delivery_step (Attempting t) Pending
| DeliveryEnqueue t m : delivery_step (Attempting t) (Enqueued m)
| DeliveryAcknowledge m : delivery_step (Enqueued m) (Acknowledged m)
| DeliveryAbandon d : d = Pending ∨ (∃ t, d = Attempting t) → delivery_step d (Failed None)
| DeliveryReject m : delivery_step (Enqueued m) (Failed (Some m)).

(** The abstraction function. *)
Definition delivery_of (r : OutboxRow) : Delivery :=
  match o_status r with
  | Queued | Retryable => Pending
  | Leased => Attempting (default 0%N (row_token r))
  | HandedOff => Enqueued (default "" (row_outbound r))
  | Delivered => Acknowledged (default "" (row_outbound r))
  | PermanentlyFailed => Failed (row_outbound r)
  end.

(** One row step is at most one protocol step. *)
Lemma row_step_simulation s r r' :
  row_wf r → row_step s r r' →
  o_key r' = o_key r
  ∧ (delivery_of r' = delivery_of r ∨ delivery_step (delivery_of r) (delivery_of r')).
Proof.
  intros Hwf Hstep. assert (Hno : o_status r = Queued ∨ o_status r = Leased ∨ o_status r = Retryable →
    row_outbound r = None).
  { intros H. unfold row_outbound. by rewrite (wf_unsent r Hwf H). }
  destruct Hstep as [r ? ? ? Hdue|r ? ? ? Hst|r op Hst _|r op Hst|r Hst|r]; (split; [first [reflexivity | by destruct op]|]).
  - apply due_status in Hdue. right. unfold delivery_of. simpl.
    destruct Hdue as [E|[E|E]]; rewrite E; constructor.
  - left. unfold delivery_of. by rewrite Hst.
  - assert (Hn : row_outbound r = None) by auto.
    destruct op; unfold delivery_of; simpl; rewrite Hst;
      [by left|right; apply DeliveryEnqueue| | | |right; apply DeliveryRetry];
      right; change (row_outbound _) with (row_outbound r); rewrite Hn;
      apply DeliveryAbandon; eauto.
  - destruct (wf_sent r Hwf) as (m & _ & Hm); [by left|].
    assert (Hm' : row_outbound (reconciled_row (sys_now s) op r) = Some (fmt_dec m))
      by (destruct op; exact Hm).
    unfold delivery_of. rewrite Hst, Hm, Hm'. destruct op; simpl; [right; constructor..|by left].
  - right. assert (Hn : row_outbound (suppress_row (sys_now s) r) = None)
      by (apply Hno; tauto).
    unfold delivery_of at 2. rewrite Hn. simpl. constructor. unfold delivery_of.
    destruct Hst as [E|[E|E]]; rewrite E; eauto.
  - by left.
Qed.

(** A relation between the versions of a row that every row step keeps holds between
    any two states of an execution. *)
Lemma execution_rows (R : OutboxRow → OutboxRow → Prop) s s' id r :
  PreOrder R →
  (∀ t r r', row_wf r → row_step t r r' → R r r') →
  reachable s → rtc sys_step s s' → outbox (sys_db s) !! id = Some r →
  ∃ r', outbox (sys_db s') !! id = Some r' ∧ R r r'.
Proof.
  intros HR Hstep (s0 & H0 & Hrs) Hrtc Hr. revert s' Hrtc.
  apply (rtc_ind_r (λ s', ∃ r', outbox (sys_db s') !! id = Some r' ∧ R r r')).
  { exists r. split; [done|reflexivity]. }
  intros t t' Hst Htt' (r1 & Hr1 & HRr1).
  assert (Hwf : row_wf r1).
  { assert (Ht : reachable t) by (exists s0; split; [done|by etrans]).
    by eapply (reachable_wf t Ht). }
  pose proof (sys_step_row_effect t t' id Htt') as H. unfold row_effect in H. rewrite Hr1 in H.
  destruct H as (r2 & Hr2 & [->|Hs]); [eauto|].
  exists r2. split; [done|]. etrans; [exact HRr1|]. by eapply Hstep.
Qed.

(** C1: the outbox refines the delivery protocol.  Along every execution from a
    reachable state a row is never lost, its immutable columns never change, and its
    abstract delivery state moves only along the protocol's steps. *)
Theorem outbox_refines_delivery s s' id r :
  reachable s → rtc sys_step s s' → outbox (sys_db s) !! id = Some r →
  ∃ r', outbox (sys_db s') !! id = Some r' ∧ o_key r' = o_key r
        ∧ rtc delivery_step (delivery_of r) (delivery_of r').
Proof.
  intros Hs Hrtc Hr.
  apply (execution_rows (λ r r', o_key r' = o_key r
           ∧ rtc delivery_step (delivery_of r) (delivery_of r')) s s' id r); try done.
  - split; [by intros x|]. intros x y z [Hk Hd] [Hk' Hd']. split; [congruence|by etrans].
  - intros t x x' Hwf Hstep.
    destruct (row_step_simulation t x x' Hwf Hstep) as [Hk [-> |Hd]]; split; [done..|].
    by apply rtc_once.
Qed.

(** Rows the SDK owns, or that are settled. *)
Definition handed_over (r : OutboxRow) : Prop :=
  o_status r = HandedOff ∨ o_status r = Delivered ∨ o_status r = PermanentlyFailed.

Lemma row_step_handed_over s r r' :
  handed_over r → row_step s r r' → handed_over r' ∧ o_sdk r' = o_sdk r.
Proof.
  unfold handed_over. intros Hh Hstep.
  destruct Hstep as [r ? ? ? Hdue%due_status|r ? ? ? Hst|r op Hst|r op Hst|r Hst|r]; simpl.
  - destruct Hh as [E|[E|E]], Hdue as [E'|[E'|E']]; congruence.
  - auto.
  - destruct Hh as [E|[E|E]]; congruence.
  - destruct op; simpl; auto.
  - destruct Hh as [E|[E|E]], Hst as [E'|[E'|E']]; congruence.
  - auto.
Qed.

(** a handoff happens once.  After a row is handed off (or has failed) no later
    claim, retry or handoff can touch it again: it stays handed off or settled and
    keeps the very SDK identifiers of its handoff for ever; what it can still reach
    is delivery or failure. *)
Theorem handoff_is_final s s' id r :
  reachable s → rtc sys_step s s' → outbox (sys_db s) !! id = Some r → handed_over r →
  ∃ r', outbox (sys_db s') !! id = Some r' ∧ handed_over r' ∧ o_sdk r' = o_sdk r.
Proof.
  intros Hs Hrtc Hr Hh.
  destruct (execution_rows (λ r r', handed_over r → handed_over r' ∧ o_sdk r' = o_sdk r)
    s s' id r) as (r' & ? & H); try done.
  - split; [by intros x|]. intros x y z Hxy Hyz Hx.
    destruct (Hxy Hx) as [Hy ?]. destruct (Hyz Hy). split; [done|congruence].
  - intros t x x' _ Hst Hx. by eapply row_step_handed_over.
  - exists r'. by split; [|apply H].
Qed.

(** Settled rows keep their outcome. *)
Definition settled (r : OutboxRow) : Prop := o_status r = Delivered ∨ o_status r = PermanentlyFailed.

Lemma row_step_settled s r r' :
  settled r → row_step s r r' →
  settled r' ∧ o_status r' = o_status r ∧ o_error_class r' = o_error_class r ∧ o_lease r' = o_lease r.
Proof.
  unfold settled. intros Hh Hstep.
  destruct Hstep as [r ? ? ? Hdue%due_status|r ? ? ? Hst|r op Hst|r op Hst|r Hst|r]; simpl.
  - destruct Hh as [E|E], Hdue as [E'|[E'|E']]; congruence.
  - destruct Hh; congruence.
  - destruct Hh as [E|E]; congruence.
  - destruct Hh; congruence.
  - destruct Hh as [E|E], Hst as [E'|[E'|E']]; congruence.
  - auto.
Qed.

(** outcomes are permanent.  A delivered or permanently failed row keeps its status,
    its recorded reason and its (empty) lease in every later state. *)
Theorem settled_rows_are_permanent s s' id r :
  reachable s → rtc sys_step s s' → outbox (sys_db s) !! id = Some r → settled r →
  ∃ r', outbox (sys_db s') !! id = Some r' ∧ o_status r' = o_status r
        ∧ o_error_class r' = o_error_class r ∧ o_lease r' = no_lease.
Proof.
  intros Hs Hrtc Hr Hh.
  destruct (execution_rows (λ r r', settled r → settled r' ∧ o_status r' = o_status r
      ∧ o_error_class r' = o_error_class r ∧ o_lease r' = o_lease r) s s' id r) as (r' & ? & H); try done.
  - split; [by intros x|]. intros x y z Hxy Hyz Hx.
    destruct (Hxy Hx) as (Hy & ? & ? & ?). destruct (Hyz Hy) as (? & ? & ? & ?).
    split_and!; [done|congruence..].
  - intros t x x' _ Hst Hx. by eapply row_step_settled.
  - destruct (H Hh) as (Hs' & ? & ? & Hl). exists r'. split_and!; [done..|].
    rewrite Hl. assert (Hwf : row_wf r) by (by eapply (reachable_wf s Hs)).
    apply Hwf; destruct Hh as [E|E]; congruence.
Qed.

(** ** Claim tokens fence for ever *)

Lemma sys_step_tokens s s' : sys_step s s' → sys_tokens s ⊆ sys_tokens s'.
Proof. destruct 1; simpl; set_solver. Qed.

Lemma row_step_token s t r r' :
  t ∈ sys_tokens s → row_token r ≠ Some t → row_step s r r' → row_token r' ≠ Some t.
Proof.
  intros Ht Hr Hstep. destruct Hstep as [| |r op|r op| |]; try done.
  - unfold row_token. simpl. intros [= ->]. done.
  - unfold row_token. simpl. intros [= ->]. done.
  - by destruct op.
  - by destruct op.
Qed.

Lemma sys_step_token s s' t id r :
  t ∈ sys_tokens s → sys_step s s' → outbox (sys_db s) !! id = Some r → row_token r ≠ Some t →
  ∃ r', outbox (sys_db s') !! id = Some r' ∧ row_token r' ≠ Some t.
Proof.
  intros Ht Hstep Hr Htok. pose proof (sys_step_row_effect s s' id Hstep) as H.
  unfold row_effect in H. rewrite Hr in H. destruct H as (r' & Hr' & [->|Hs]); [eauto|].
  exists r'. split; [done|]. by eapply row_step_token.
Qed.

(** a superseded claim is dead for ever.  Once a row no longer carries a claim's
    token (because the lease ran out and another worker claimed the row, or because
    the claim was ended), then in every later state every method called with that
    claim reports failure and changes nothing, whoever holds the row meanwhile. *)
Theorem superseded_claim_is_dead s s' id r c w op :
  outbox (sys_db s) !! id = Some r → c_id c = id →
  c_claim_token c ∈ sys_tokens s → row_token r ≠ Some (c_claim_token c) →
  rtc sys_step s s' →
  (run_fenced (sys_db s') w (sys_now s') c op).1 ≠ Ok true
  ∧ (run_fenced (sys_db s') w (sys_now s') c op).2 = sys_db s'.
Proof.
  intros Hr Hc Ht Htok Hrtc. set (t := c_claim_token c) in *.
  assert (H : ∃ r', outbox (sys_db s') !! id = Some r' ∧ row_token r' ≠ Some t).
  { clear -Hr Ht Htok Hrtc. revert r Hr Ht Htok. induction Hrtc as [s|s s1 s2 H1 _ IH]; [eauto|].
    intros r Hr Ht Htok. destruct (sys_step_token s s1 t id r Ht H1 Hr Htok) as (r1 & Hr1 & Htok1).
    eapply IH; [done| |done]. by apply (sys_step_tokens s s1 H1). }
  destruct H as (r' & Hr' & Htok').
  destruct (run_fenced (sys_db s') w (sys_now s') c op) as [res db'] eqn:E. simpl.
  apply run_fenced_update in E as [E|[-> ?]]; [|done].
  apply update_outbox_inv in E as [(r'' & Hr'' & Hg & _)|[(-> & -> & _)|(-> & -> & _)]]; [|done..].
  rewrite Hc, Hr' in Hr''. simplify_eq. cbv beta in Hg. split_bools. inv_claim. done.
Qed.

(** ** Witnesses: one message from admission to delivery *)

Module Example_exec.

Definition tokens_of (t : RowId) : RowId → RowId := λ _, t.

Definition s0 : Sys := mk_Sys (Example_store.db_with ∅ None) 0 ∅.

Definition s1 : Sys :=
  with_db s0 (insert_outbox (sys_db s0) 1 7 5 "sealed" PaymentRequestProposalKind (Some "hash") 0).2.

Definition s2 : Sys :=
  issue s1 (tokens_of 42)
    (claim_matching (sys_db s1) ∅ (tokens_of 42) 0 9 10 30000000000 None).2.

Definition s3 : Sys :=
  with_db s2 (run_fenced (sys_db s2) Example_store.no_wakeups 0 Example_store.the_claim
                (HandOff (HandoffProposal 11 "event" "request"))).2.

Definition s4 : Sys :=
  issue s3 (tokens_of 43)
    (claim_reconciliation_for_creators (sys_db s3) ∅ (tokens_of 43) 0 9 10 30000000000 None).2.

Definition s5 : Sys :=
  with_db s4 (run_reconcile (sys_db s4) 0 Example_store.the_handoff Deliver).2.

Definition row (s : Sys) : OutboxRow :=
  default (queued_row Example_store.key false 0) (outbox (sys_db s) !! 1%N).

Lemma step01 : sys_step s0 s1.
Proof. exact (StepInsertInvoice s0 1 7 5 "sealed" _ _ _ _ (surjective_pairing _)). Qed.

Lemma step12 : sys_step s1 s2.
Proof.
  refine (StepClaim s1 ∅ (tokens_of 42) 9 10 30000000000 None _ _ _ (surjective_pairing _)).
  intros id. apply not_elem_of_empty.
Qed.

Lemma step23 : sys_step s2 s3.
Proof.
  refine (StepFenced s2 Example_store.no_wakeups Example_store.the_claim
            (HandOff (HandoffProposal 11 "event" "request")) _ _ _ (surjective_pairing _)).
  by intros handoff [= <-].
Qed.

Lemma step34 : sys_step s3 s4.
Proof.
  refine (StepClaimReconciliation s3 ∅ (tokens_of 43) 9 10 30000000000 None _ _ _
            (surjective_pairing _)).
  intros id. change (43%N ∉ sys_tokens s3). by apply (bool_decide_eq_true_1 (43%N ∉ _)).
Qed.

Lemma step45 : sys_step s4 s5.
Proof. exact (StepReconcile s4 Example_store.the_handoff Deliver _ _ (surjective_pairing _)). Qed.

Lemma reachable1 : reachable s1.
Proof. exists s0. split; [reflexivity|]. apply rtc_once, step01. Qed.

Lemma run15 : rtc sys_step s1 s5.
Proof.
  eapply rtc_l; [exact step12|]. eapply rtc_l; [exact step23|].
  eapply rtc_l; [exact step34|]. apply rtc_once, step45.
Qed.

Lemma reachable5 : reachable s5.
Proof. destruct reachable1 as (s & ? & ?). exists s. split; [done|]. etrans; [done|exact run15]. Qed.

End Example_exec.

Lemma outbox_rows_well_formed_witness :
  o_status (Example_exec.row Example_exec.s5) = Delivered ∧ row_wf (Example_exec.row Example_exec.s5).
Proof.
  split; [vm_compute; reflexivity|].
  apply (outbox_rows_well_formed Example_exec.s5 1%N); [exact Example_exec.reachable5|].
  vm_compute. reflexivity.
Defined.

Lemma outbox_refines_delivery_witness :
  ∃ r', outbox (sys_db Example_exec.s5) !! 1%N = Some r' ∧ delivery_of r' = Acknowledged "11"
        ∧ rtc delivery_step Pending (delivery_of r').
Proof.
  destruct (outbox_refines_delivery Example_exec.s1 Example_exec.s5 1%N
              (Example_exec.row Example_exec.s1)) as (r' & Hr' & _ & Hd);
    [exact Example_exec.reachable1|exact Example_exec.run15|vm_compute; reflexivity|].
  exists r'. split; [exact Hr'|split; [|exact Hd]].
  assert (Hrow : Example_exec.row Example_exec.s5 = r')
    by (unfold Example_exec.row; rewrite Hr'; reflexivity).
  rewrite <- Hrow. vm_compute. reflexivity.
Defined.

Lemma handoff_is_final_witness :
  ∃ r', outbox (sys_db Example_exec.s5) !! 1%N = Some r' ∧ row_outbound r' = Some "11".
Proof.
  destruct (handoff_is_final Example_exec.s5 Example_exec.s5 1%N
              (Example_exec.row Example_exec.s5)) as (r' & Hr' & _ & Hs);
    [exact Example_exec.reachable5|reflexivity|vm_compute; reflexivity
    |right; left; vm_compute; reflexivity|].
  exists r'. split; [exact Hr'|]. unfold row_outbound. rewrite Hs. vm_compute. reflexivity.
Defined.

Lemma settled_rows_are_permanent_witness :
  ∃ r', outbox (sys_db Example_exec.s5) !! 1%N = Some r' ∧ o_status r' = Delivered.
Proof.
  destruct (settled_rows_are_permanent Example_exec.s5 Example_exec.s5 1%N
              (Example_exec.row Example_exec.s5)) as (r' & Hr' & Hst & _);
    [exact Example_exec.reachable5|reflexivity|vm_compute; reflexivity
    |left; vm_compute; reflexivity|].
  exists r'. split; [exact Hr'|]. rewrite Hst. vm_compute. reflexivity.
Defined.

Lemma superseded_claim_is_dead_witness :
  (run_fenced (sys_db Example_exec.s5) Example_store.no_wakeups 0 Example_store.the_claim
     (Retry 0 LinkPending)).1 ≠ Ok true.
Proof.
  apply (superseded_claim_is_dead Example_exec.s4 Example_exec.s5 1%N
           (Example_exec.row Example_exec.s4) Example_store.the_claim Example_store.no_wakeups
           (Retry 0 LinkPending));
    [vm_compute; reflexivity|reflexivity|apply (bool_decide_eq_true_1 (42%N ∈ _)); vm_compute; reflexivity
    |vm_compute; discriminate|apply rtc_once, Example_exec.step45].
Defined.
