(* ===== verification/OutboxWorker.v ===== *)
(** * OutboxWorker: semantic handoff and reconciliation policy
    ([workers/outbox.rs], and [PaykitAdapter::execute_claimed_handoff_with_guard] of
    [paykit.rs])

    The worker is a program over the calls of [OutboxStore] and of the [Adapter]
    trait; every call can answer anything its type allows, so the properties hold
    for every behaviour of the SDK, of the database and of the other workers between
    two calls.  The last section interprets the store calls by the database of
    [OutboxStore]. *)

From S2P Require Import Prelude Text Locks Invoice Receiving Payment Lifecycle Pricing Intent Effects Readers Database OutboxStore.
Local Open Scope string_scope.
Local Open Scope Z_scope.
Local Open Scope list_scope.

(** ** Data *)

Inductive RetryableHandoffCause :=
| CauseStorage
| CauseIdentity
| CauseTransport
| CauseNotFound
| CausePaymentAdapter
| CauseRecoveryRequired
| CauseLinkObservation
| CausePolicy
| CauseLinkPending
| CauseOther.

Inductive HandoffError :=
| HandoffErrorRetryable (cause : RetryableHandoffCause)
| HandoffErrorPermanent.

Definition cause_label (c : RetryableHandoffCause) : string :=
  match c with
  | CauseStorage => "storage"
  | CauseIdentity => "identity"
  | CauseTransport => "transport"
  | CauseNotFound => "not_found"
  | CausePaymentAdapter => "payment_adapter"
  | CauseRecoveryRequired => "recovery_required"
  | CauseLinkObservation => "link_observation"
  | CausePolicy => "policy"
  | CauseLinkPending => "link_pending"
  | CauseOther => "other"
  end.

Definition handoff_error_label (e : HandoffError) : string :=
  match e with
  | HandoffErrorRetryable cause => cause_label cause
  | HandoffErrorPermanent => "permanent"
  end.

Inductive HandoffFailure :=
| FailureRetryable (stage : OutboxRetryClass)
| FailureProposalExpired
| FailureCancellationObsolete
| FailurePermanent.

#[global] Instance HandoffFailure_eq_dec : EqDecision HandoffFailure.
Proof. solve_decision. Defined.

Definition at_stage (error : HandoffError) (stage : OutboxRetryClass) : HandoffFailure :=
  match error with
  | HandoffErrorRetryable CauseLinkPending => FailureRetryable LinkPending
  | HandoffErrorRetryable _ => FailureRetryable stage
  | HandoffErrorPermanent => FailurePermanent
  end.

Definition at_link_stage (error : HandoffError) : HandoffFailure :=
  match error with
  | HandoffErrorRetryable CauseLinkPending => FailureRetryable LinkPending
  | HandoffErrorRetryable
      (CauseStorage | CauseIdentity | CauseTransport | CausePaymentAdapter | CauseOther) =>
      FailureRetryable LinkDependency
  | HandoffErrorRetryable _ => FailureRetryable LinkEstablishment
  | HandoffErrorPermanent => FailurePermanent
  end.

Inductive ProcessingHealth :=
| HealthAvailable
| HealthRetryable (delay : Z)
| HealthPermanentFailure.

Record RetrySchedule := mk_RetrySchedule {
  rs_default : Z;
  rs_link_establishment : Z;
}.

Definition delay_for (s : RetrySchedule) (stage : OutboxRetryClass) : Z :=
  if bool_decide (stage = LinkPending) then rs_link_establishment s else rs_default s.

(** [paykit_sdk::OutboundPrivateMessageStatus] *)
Inductive OutboundStatus :=
| StatusPending
| StatusSending
| StatusSent
| StatusFailed
| StatusInvalid
| StatusRecoveryRequired
| StatusSuperseded.

Section worker.
Context {core : LocksCore} {lib : PaykitLib}.
(** [Crypto::decrypt] of an outbox intent envelope (creator hash, row, envelope),
    [postcard::from_bytes], [Uuid::to_string], and the adapter's [parse_peer]. *)
Context {Bytes Peer : Type}
  (decrypt : string → RowId → string → option Bytes)
  (from_bytes : Bytes → option DeliveryIntentV1)
  (uuid_to_string : RowId → string)
  (parse_peer : string → result HandoffError Peer).

Definition lookup_hash_from_storage (bytes : string) : result PersistenceError string :=
  ensure (str_len bytes =? 32) PE_CorruptOrMissing;; Ok bytes.

Definition decrypt_delivery_intent (id : RowId) (creator_lookup_hash intent_envelope : string) :
    result PersistenceError DeliveryIntentV1 :=
  creator_hash ← lookup_hash_from_storage creator_lookup_hash;
  plaintext ← ok_or (decrypt creator_hash id intent_envelope) PE_CorruptOrMissing;
  map_err (λ _, PE_CorruptOrMissing) (decode from_bytes plaintext).

Definition delivery_intent (c : ClaimedOutbox) : result PersistenceError DeliveryIntentV1 :=
  decrypt_delivery_intent (c_id c) (c_creator_lookup_hash c) (c_intent_envelope c).

Definition handed_off_delivery_intent (c : ClaimedHandoff) :
    result PersistenceError DeliveryIntentV1 :=
  decrypt_delivery_intent (h_id c) (h_creator_lookup_hash c) (h_intent_envelope c).

(** ** Calls *)

Inductive Call : Type → Type :=
(* OutboxStore *)
| ProposalExpired (deadline : Z) : Call (result PersistenceError bool)
| ClaimHandoffEligible (c : ClaimedOutbox) : Call (result PersistenceError bool)
| ProviderV2DeadlineExpired (c : ClaimedOutbox) : Call (result PersistenceError bool)
| RotationTargetAccepted (c : ClaimedOutbox) : Call (result PersistenceError bool)
| Mark (c : ClaimedOutbox) (op : FencedOp) : Call (result PersistenceError bool)
| MarkReconciled (c : ClaimedHandoff) (op : ReconcileOp) : Call (result PersistenceError bool)
(* Adapter *)
| FetchRegistry (reader : string) : Call (result HandoffError (option PaykitAppRegistry))
| FetchAuthorization (reader : string) : Call (result HandoffError ReaderAuthorization)
| EnsureLink (reader : string) : Call (result HandoffError unit)
| Propose (reader : string) (id : PaymentRequestId) (terms : PaymentTermsV1) :
    Call (result HandoffError HandoffResult)
| Cancel (reader id : string) : Call (result HandoffError HandoffResult)
| OutboundMessageStatus (id : Z) : Call (result HandoffError (option OutboundStatus))
(* the adapter's lifecycle refresh for one peer *)
| RefreshPaymentRequests (peer : Peer) : Call (result HandoffError unit).

Notation M A := (prog Call A).

Definition mapped {F G A} (f : F → G) (p : M (result F A)) : M (result G A) :=
  r ⇐ p; Ret (map_err f r).

(** ** Handoff *)

(** The expiration of a proposal; a cancellation never expires. *)
Definition delivery_expiration (intent : DeliveryIntentV1) :
    result DeliveryIntentError (option Z) :=
  match operation intent with
  | PaymentRequestProposal _ => intent_proposal_expires_at intent
  | PaymentRequestCancellation _ => Ok None
  end.

Definition check_claim (claim : option ClaimedOutbox) (expiration : option Z) :
    M (result HandoffFailure unit) :=
  match claim with
  | None => Ret (Ok tt)
  | Some c =>
      _ ←? match expiration with
           | None => Ret (Ok tt)
           | Some deadline =>
               r ⇐ call (ProposalExpired deadline);
               match r with
               | Ok true => Ret (Err FailureProposalExpired)
               | Ok false => Ret (Ok tt)
               | Err _ => Ret (Err (FailureRetryable AdapterUnavailable))
               end
           end;
      r ⇐ call (ClaimHandoffEligible c);
      match r with
      | Ok true => Ret (Ok tt)
      | Ok false => Ret (Err FailurePermanent)
      | Err _ => Ret (Err (FailureRetryable AdapterUnavailable))
      end
  end.

(** The SDK call of an operation. *)
Definition sdk_effect (intent : DeliveryIntentV1) (request_id : PaymentRequestId) :
    M (result HandoffFailure HandoffResult) :=
  match operation intent with
  | PaymentRequestProposal terms =>
      mapped (λ e, at_stage e RetryPaymentRequestProposal)
        (call (Propose (reader_pubky intent) request_id terms))
  | PaymentRequestCancellation id =>
      mapped (λ e, at_stage e RetryPaymentRequestCancellation)
        (call (Cancel (reader_pubky intent) id))
  end.

Definition handoff_steps_with_claim (outbox_id : RowId) (intent : DeliveryIntentV1)
    (claim : option ClaimedOutbox) : M (result HandoffFailure HandoffResult) :=
  _ ←? Ret (map_err (λ _, FailurePermanent) (validate intent));
  expiration ←? Ret (map_err (λ _, FailurePermanent) (delivery_expiration intent));
  request_id ←? Ret (ok_or (request_id_new (uuid_to_string outbox_id)) FailurePermanent);
  _ ←? check_claim claim expiration;
  fetched ←? mapped (λ e, at_stage e RegistryFetch) (call (FetchRegistry (reader_pubky intent)));
  registry ←? Ret (ok_or fetched (FailureRetryable RegistryMissing));
  _ ←? Ret (ensure (reader_is_capable registry) (FailureRetryable RegistryIncapable));
  _ ←? check_claim claim expiration;
  authorization ←? mapped (λ e, at_stage e ReaderAuthorizationFetch)
                     (call (FetchAuthorization (reader_pubky intent)));
  _ ←? Ret (match authorization with
             | AuthVerified => Ok tt
             | AuthMissing => Err (FailureRetryable ReaderAuthorizationMissing)
             | AuthInvalid => Err (FailureRetryable ReaderAuthorizationInvalid)
             end);
  _ ←? check_claim claim expiration;
  _ ←? mapped at_link_stage (call (EnsureLink (reader_pubky intent)));
  _ ←? check_claim claim expiration;
  sdk_effect intent request_id.

Definition handoff_steps (outbox_id : RowId) (intent : DeliveryIntentV1) :
    M (result HandoffFailure HandoffResult) :=
  handoff_steps_with_claim outbox_id intent None.

Definition claimed_handoff_steps (intent : DeliveryIntentV1) (c : ClaimedOutbox) :
    M (result HandoffFailure HandoffResult) :=
  handoff_steps_with_claim (c_id c) intent (Some c).

(** [PaykitAdapter::execute_claimed_handoff_with_guard]; [lifecycles] tells whether the
    adapter has a lifecycle store. *)
Definition execute_claimed_handoff (lifecycles : bool) (c : ClaimedOutbox)
    (intent : DeliveryIntentV1) : M (result HandoffFailure HandoffResult) :=
  let unavailable := FailureRetryable AdapterUnavailable in
  deadline_expired ←? mapped (λ _, unavailable) (call (ProviderV2DeadlineExpired c));
  if deadline_expired : bool then Ret (Err FailureProposalExpired)
  else
    match operation intent with
    | PaymentRequestProposal _ => claimed_handoff_steps intent c
    | PaymentRequestCancellation _ =>
        _ ←? Ret (ensure lifecycles unavailable);
        target ←? Ret (map_err (λ _, FailurePermanent) (parse_peer (reader_pubky intent)));
        _ ←? mapped (λ _, unavailable) (call (RefreshPaymentRequests target));
        accepted ←? mapped (λ _, unavailable) (call (RotationTargetAccepted c));
        if accepted : bool then Ret (Err FailureCancellationObsolete)
        else claimed_handoff_steps intent c
    end.

(** ** One claim *)

Definition with_health (h : ProcessingHealth) (p : M (result PersistenceError bool)) :
    M (result PersistenceError (bool * ProcessingHealth)) :=
  r ⇐ p; Ret ((λ transitioned, (transitioned, h)) <$> r).

(** The transition that records the outcome of a handoff. *)
Definition finish_claim (c : ClaimedOutbox) (schedule : RetrySchedule)
    (outcome : result HandoffFailure HandoffResult) :
    M (result PersistenceError (bool * ProcessingHealth)) :=
  match outcome with
  | Ok handoff => with_health HealthAvailable (call (Mark c (HandOff handoff)))
  | Err (FailureRetryable stage) =>
      let delay := delay_for schedule stage in
      with_health (HealthRetryable delay) (call (Mark c (Retry delay stage)))
  | Err FailureProposalExpired => with_health HealthAvailable (call (Mark c ExpireProposal))
  | Err FailureCancellationObsolete =>
      with_health HealthAvailable (call (Mark c ObsoleteCancellation))
  | Err FailurePermanent => with_health HealthPermanentFailure (call (Mark c FailPermanently))
  end.

Definition process_claim_with (c : ClaimedOutbox) (schedule : RetrySchedule)
    (execute : DeliveryIntentV1 → M (result HandoffFailure HandoffResult)) :
    M (result PersistenceError (bool * ProcessingHealth)) :=
  match delivery_intent c with
  | Err _ => with_health HealthPermanentFailure (call (Mark c FailPermanently))
  | Ok intent =>
      expiration ←? Ret (map_err (λ _, PE_CorruptOrMissing) (delivery_expiration intent));
      expired_now ←? match expiration with
                     | Some deadline => call (ProposalExpired deadline)
                     | None => Ret (Ok false)
                     end;
      if expired_now : bool then with_health HealthAvailable (call (Mark c ExpireProposal))
      else
        outcome ⇐ execute intent; finish_claim c schedule outcome
  end.

Definition process_claim_with_health (lifecycles : bool) (c : ClaimedOutbox)
    (schedule : RetrySchedule) : M (result PersistenceError (bool * ProcessingHealth)) :=
  process_claim_with c schedule (execute_claimed_handoff lifecycles c).

Definition process_claim (lifecycles : bool) (c : ClaimedOutbox) (retry_delay : Z) :
    M (result PersistenceError bool) :=
  r ⇐ process_claim_with_health lifecycles c (mk_RetrySchedule retry_delay retry_delay);
  Ret (fst <$> r).

(** ** Reconciliation *)

Definition reconciliation_expiration (c : ClaimedHandoff) :
    result PersistenceError (option Z) :=
  match h_intent_kind c with
  | EndpointPublication => Ok None
  | PaymentRequestProposalKind =>
      intent ← handed_off_delivery_intent c;
      match operation intent with
      | PaymentRequestProposal _ =>
          map_err (λ _, PE_CorruptOrMissing) (intent_proposal_expires_at intent)
      | PaymentRequestCancellation _ => Err PE_CorruptOrMissing
      end
  | PaymentRequestCancellationKind =>
      intent ← handed_off_delivery_intent c;
      match operation intent with
      | PaymentRequestProposal _ => Err PE_CorruptOrMissing
      | PaymentRequestCancellation _ => Ok None
      end
  end.

Definition retry_reconciliation_after_failure (c : ClaimedHandoff) (retry_delay : Z)
    (expiration : option Z) (stage : OutboxRetryClass) :
    M (result PersistenceError (bool * ProcessingHealth)) :=
  expired_now ←? match expiration with
                 | Some deadline => call (ProposalExpired deadline)
                 | None => Ret (Ok false)
                 end;
  let stage := if expired_now : bool then ReconciliationPending else stage in
  with_health (HealthRetryable retry_delay)
    (call (MarkReconciled c (RetryReconciliation retry_delay stage))).

Definition process_reconciliation_with_health (c : ClaimedHandoff) (retry_delay : Z) :
    M (result PersistenceError (bool * ProcessingHealth)) :=
  let fail := with_health HealthPermanentFailure (call (MarkReconciled c FailReconciliation)) in
  match reconciliation_expiration c with
  | Err _ => fail
  | Ok expiration =>
      match handoff_outbound_id c with
      | Err _ => fail
      | Ok message =>
          status ⇐ call (OutboundMessageStatus message);
          match status with
          | Ok (Some StatusSent) =>
              with_health HealthAvailable (call (MarkReconciled c Deliver))
          | Ok (Some (StatusInvalid | StatusRecoveryRequired | StatusSuperseded)) | Ok None => fail
          | Ok (Some _) =>
              retry_reconciliation_after_failure c retry_delay expiration ReconciliationPending
          | Err (HandoffErrorRetryable _) =>
              retry_reconciliation_after_failure c retry_delay expiration Reconciliation
          | Err HandoffErrorPermanent => fail
          end
      end
  end.

Definition process_reconciliation (c : ClaimedHandoff) (retry_delay : Z) :
    M (result PersistenceError bool) :=
  r ⇐ process_reconciliation_with_health c retry_delay; Ret (fst <$> r).

(** ** Reasoning about runs *)

Section runs.
Context {A B F G : Type} (Q : list (event Call) → result G B → Prop) (tr : list (event Call)).

(** A fallible call before a [?]. *)
Lemma runs_mapped (f : F → G) (e : Call (result F A)) (k : A → M (result G B)) :
  (∀ a, all_runs (k a) Q (tr ++ [Ev e (Ok a)])) →
  (∀ er, Q (tr ++ [Ev e (Err er)]) (Err (f er))) →
  all_runs (try_bind k (mapped f (call e))) Q tr.
Proof. intros Hk He [a|er]; simpl; auto. Qed.
End runs.

Lemma runs_with_health h (e : Call (result PersistenceError bool))
    (Q : list (event Call) → result PersistenceError (bool * ProcessingHealth) → Prop) tr :
  (∀ x, Q (tr ++ [Ev e x]) ((λ b, (b, h)) <$> x)) →
  all_runs (with_health h (call e)) Q tr.
Proof. intros H x. apply H. Qed.

(** Calls that hand the SDK a message for the Reader; all calls that change the SDK's
    state, links and received requests included; and calls that end a claim. *)
Definition hands_over (ev : event Call) : bool :=
  match ev with
  | Ev (Propose _ _ _) _ | Ev (Cancel _ _) _ => true
  | _ => false
  end.

Definition changes_sdk (ev : event Call) : bool :=
  match ev with
  | Ev (Propose _ _ _) _ | Ev (Cancel _ _) _ | Ev (EnsureLink _) _ | Ev (RefreshPaymentRequests _) _ => true
  | _ => false
  end.

Definition is_mark (ev : event Call) : bool :=
  match ev with Ev (Mark _ _) _ | Ev (MarkReconciled _ _) _ => true | _ => false end.

Definition quiet (tr : list (event Call)) : Prop :=
  Forall (λ ev, hands_over ev = false ∧ is_mark ev = false) tr.

Definition plain (tr : list (event Call)) : Prop :=
  Forall (λ ev, changes_sdk ev = false ∧ is_mark ev = false) tr.

Lemma plain_quiet tr : plain tr → quiet tr.
Proof.
  intros H. eapply Forall_impl; [exact H|]. intros [X e x] [Hc Hm]. split; [|done]. by destruct e.
Qed.

(** The two answers that must precede a change of the SDK. *)
Definition guards (c : ClaimedOutbox) (expiration : option Z) : list (event Call) :=
  match expiration with
  | Some deadline => [Ev (ProposalExpired deadline) (Ok false)]
  | None => []
  end ++ [Ev (ClaimHandoffEligible c) (Ok true)].

Lemma quiet_app tr tr' : quiet tr → quiet tr' → quiet (tr ++ tr').
Proof. apply Forall_app_2. Qed.

Lemma quiet_snoc {X} tr (e : Call X) x :
  quiet tr → hands_over (Ev e x) = false → is_mark (Ev e x) = false → quiet (tr ++ [Ev e x]).
Proof. intros. apply quiet_app; [done|]. by apply Forall_singleton. Qed.

Lemma plain_guards c expiration : plain (guards c expiration).
Proof. destruct expiration; repeat constructor. Qed.

Lemma quiet_guards c expiration : quiet (guards c expiration).
Proof. apply plain_quiet, plain_guards. Qed.

(** A check passes with exactly the guards in the log, or ends the handoff. *)
Lemma runs_check {B} c expiration (k : unit → M (result HandoffFailure B)) Q tr :
  all_runs (k tt) Q (tr ++ guards c expiration) →
  (∀ evs f, plain evs → Q (tr ++ evs) (Err f)) →
  all_runs (try_bind k (check_claim (Some c) expiration)) Q tr.
Proof.
  intros Hok Herr. unfold try_bind, check_claim, guards in *.
  destruct expiration as [d|]; simpl in *.
  - intros [[|]|?]; simpl; [apply Herr; repeat constructor| |apply Herr; repeat constructor].
    intros x. rewrite <- app_assoc. simpl.
    destruct x as [[|]|?]; simpl; [exact Hok|apply Herr; repeat constructor..].
  - intros [[|]|?]; simpl; [exact Hok|apply Herr; repeat constructor..].
Qed.

(** The SDK call of an intent, with its answer. *)
Definition effect_event (intent : DeliveryIntentV1) (request_id : PaymentRequestId)
    (x : result HandoffError HandoffResult) : event Call :=
  match operation intent with
  | PaymentRequestProposal terms => Ev (Propose (reader_pubky intent) request_id terms) x
  | PaymentRequestCancellation id => Ev (Cancel (reader_pubky intent) id) x
  end.

(** What the log of a claimed handoff looks like: nothing was handed over and the handoff
    failed, or one message was, last, directly after the guards. *)
Definition guarded_handoff (c : ClaimedOutbox) (intent : DeliveryIntentV1)
    (tr : list (event Call)) (res : result HandoffFailure HandoffResult) : Prop :=
  (quiet tr ∧ is_err res = true)
  ∨ ∃ pre expiration request_id x,
      tr = pre ++ guards c expiration ++ [effect_event intent request_id x] ∧ quiet pre
      ∧ validate intent = Ok tt ∧ delivery_expiration intent = Ok expiration
      ∧ request_id_new (uuid_to_string (c_id c)) = Some request_id
      ∧ ok res = ok x.

Lemma guarded_handoff_err c intent tr f : quiet tr → guarded_handoff c intent tr (Err f).
Proof. intros H. left. done. Qed.

Lemma claimed_handoff_steps_guarded c intent tr :
  quiet tr → all_runs (claimed_handoff_steps intent c) (guarded_handoff c intent) tr.
Proof.
  intros Hq. unfold claimed_handoff_steps, handoff_steps_with_claim.
  apply runs_pure; [intros [] Hv|intros; by apply guarded_handoff_err].
  apply map_err_ok in Hv.
  apply runs_pure; [intros expiration He|intros; by apply guarded_handoff_err].
  apply map_err_ok in He.
  apply runs_pure; [intros request_id Hid|intros; by apply guarded_handoff_err].
  apply ok_or_ok in Hid.
  repeat first
    [ apply runs_check; [|intros; apply guarded_handoff_err, quiet_app; [done|by apply plain_quiet]]
    | apply runs_mapped; [intros ?|intros; apply guarded_handoff_err, quiet_snoc; done]
    | apply runs_pure; [intros ? _|intros; apply guarded_handoff_err; done]
    | match goal with
      | H : quiet ?t |- all_runs _ _ (?t ++ guards ?c ?x) =>
          pose proof (quiet_app _ _ H (quiet_guards c x)); clear H
      | H : quiet ?t |- all_runs _ _ (?t ++ [?e]) =>
          assert (quiet (t ++ [e])) by (by apply quiet_snoc); clear H
      end ].
  match goal with H : quiet (?t ++ guards _ _) |- _ =>
    apply Forall_app in H as [? _];
    assert (Hfin : ∀ x res, ok res = ok x →
      guarded_handoff c intent ((t ++ guards c expiration) ++ [effect_event intent request_id x]) res)
  end.
  { intros x res Hx. right. eexists _, expiration, request_id, x. by rewrite <- app_assoc. }
  unfold sdk_effect, effect_event in *.
  destruct (operation intent) as [terms|id]; intros x; simpl; apply Hfin; by destruct x.
Qed.

Lemma execute_claimed_handoff_guarded lifecycles c intent tr :
  quiet tr → all_runs (execute_claimed_handoff lifecycles c intent) (guarded_handoff c intent) tr.
Proof.
  intros Hq. unfold execute_claimed_handoff.
  apply runs_mapped; [intros v2|intros; apply guarded_handoff_err, quiet_snoc; done].
  assert (Hq1 : quiet (tr ++ [Ev (ProviderV2DeadlineExpired c) (Ok v2)])) by (by apply quiet_snoc).
  destruct v2; [by apply guarded_handoff_err|].
  destruct (operation intent) as [terms|id]; [by apply claimed_handoff_steps_guarded|].
  apply runs_pure; [intros _ _|intros; by apply guarded_handoff_err].
  apply runs_pure; [intros target _|intros; by apply guarded_handoff_err].
  apply runs_mapped; [intros []|intros; apply guarded_handoff_err, quiet_snoc; done].
  apply runs_mapped; [intros accepted|intros; apply guarded_handoff_err];
    [|apply quiet_snoc; [apply quiet_snoc|..]; done].
  assert (Hq2 : quiet (((tr ++ [Ev (ProviderV2DeadlineExpired c) (Ok false)])
    ++ [Ev (RefreshPaymentRequests target) (Ok ())]) ++ [Ev (RotationTargetAccepted c) (Ok accepted)]))
    by (apply quiet_snoc; [apply quiet_snoc|..]; done).
  destruct accepted; [by apply guarded_handoff_err|by apply claimed_handoff_steps_guarded].
Qed.

(** When a call that changes the SDK may follow a log.  The requests of the Reader are
    refreshed only for a cancellation, at the start; the link is established and the
    message handed over only directly after the guards, the link once.  A proposal is keyed
    by the row's own identifier, a cancellation names the request its intent targets. *)
Definition links (ev : event Call) : bool := match ev with Ev (EnsureLink _) _ => true | _ => false end.

Definition after_guards (c : ClaimedOutbox) (intent : DeliveryIntentV1) (before tr : list (event Call)) : Prop :=
  ∃ expiration, delivery_expiration intent = Ok expiration ∧ tr = before ++ guards c expiration.

Definition may_follow (c : ClaimedOutbox) (intent : DeliveryIntentV1) (tr : list (event Call)) (ev : event Call) : Prop :=
  match ev with
  | Ev (RefreshPaymentRequests peer) _ =>
      tr = [Ev (ProviderV2DeadlineExpired c) (Ok false)] ∧ parse_peer (reader_pubky intent) = Ok peer
      ∧ ∃ id, operation intent = PaymentRequestCancellation id
  | Ev (EnsureLink reader) _ =>
      reader = reader_pubky intent
      ∧ ∃ before, after_guards c intent before tr ∧ Forall (λ ev, links ev = false) before
  | Ev (Propose reader id terms) _ =>
      reader = reader_pubky intent ∧ operation intent = PaymentRequestProposal terms
      ∧ request_id_new (uuid_to_string (c_id c)) = Some id ∧ ∃ before, after_guards c intent before tr
  | Ev (Cancel reader id) _ =>
      reader = reader_pubky intent ∧ operation intent = PaymentRequestCancellation id
      ∧ ∃ before, after_guards c intent before tr
  | _ => True
  end.

Definition orderly (c : ClaimedOutbox) (intent : DeliveryIntentV1) (tr : list (event Call)) : Prop :=
  ∀ before ev after, tr = before ++ ev :: after → may_follow c intent before ev.

Lemma orderly_snoc c intent tr ev : orderly c intent tr → may_follow c intent tr ev → orderly c intent (tr ++ [ev]).
Proof.
  intros Ho Hm before ev' after E. destruct after as [|ev'' after _] using rev_ind.
  - by apply app_inj_tail in E as [<- <-].
  - rewrite app_comm_cons, app_assoc in E. apply app_inj_tail in E as [E _]. by eapply Ho.
Qed.

Lemma plain_may_follow c intent tr ev : changes_sdk ev = false → may_follow c intent tr ev.
Proof. destruct ev as [X [] x]; done. Qed.

Lemma orderly_plain c intent tr evs : orderly c intent tr → plain evs → orderly c intent (tr ++ evs).
Proof.
  intros Ho Hp. revert tr Ho. induction Hp as [|ev evs [Hc _] _ IH]; intros tr Ho; [by rewrite app_nil_r|].
  rewrite cons_middle, app_assoc. apply IH, orderly_snoc; [done|by apply plain_may_follow].
Qed.

(** A log of an orderly run in which no link was established yet. *)
Record unlinked (c : ClaimedOutbox) (intent : DeliveryIntentV1) (tr : list (event Call)) : Prop := {
  ul_orderly : orderly c intent tr;
  ul_none : Forall (λ ev, links ev = false) tr;
}.

Lemma unlinked_snoc c intent tr ev :
  unlinked c intent tr → may_follow c intent tr ev → links ev = false → unlinked c intent (tr ++ [ev]).
Proof. intros [Ho Hl] Hm Hn. split; [by apply orderly_snoc|]. apply Forall_app. split; [done|by constructor]. Qed.

Lemma unlinked_plain c intent tr evs : unlinked c intent tr → plain evs → unlinked c intent (tr ++ evs).
Proof.
  intros [Ho Hl] Hp. split; [by apply orderly_plain|]. apply Forall_app. split; [done|].
  eapply Forall_impl; [exact Hp|]. intros [X [] x] [Hc _]; done.
Qed.

(** A check and a call that changes nothing keep the log orderly. *)
Lemma runs_check_orderly {B} c intent expiration (k : unit → M (result HandoffFailure B)) tr :
  unlinked c intent tr →
  (unlinked c intent (tr ++ guards c expiration) → all_runs (k tt) (λ tr' _, orderly c intent tr') (tr ++ guards c expiration)) →
  all_runs (try_bind k (check_claim (Some c) expiration)) (λ tr' _, orderly c intent tr') tr.
Proof.
  intros Hu Hk. apply runs_check; [apply Hk, unlinked_plain, plain_guards; done|].
  intros. apply orderly_plain; [apply Hu|done].
Qed.

Lemma runs_call_orderly {A B F} c intent (f : F → HandoffFailure) (e : Call (result F A)) (k : A → M (result HandoffFailure B)) tr :
  unlinked c intent tr → (∀ x, may_follow c intent tr (Ev e x)) → (∀ x, links (Ev e x) = false) →
  (∀ a, unlinked c intent (tr ++ [Ev e (Ok a)]) → all_runs (k a) (λ tr' _, orderly c intent tr') (tr ++ [Ev e (Ok a)])) →
  all_runs (try_bind k (mapped f (call e))) (λ tr' _, orderly c intent tr') tr.
Proof.
  intros Hu Hm Hl Hk. apply runs_mapped; [intros a; apply Hk, unlinked_snoc; auto|].
  intros. apply orderly_snoc; [apply Hu|auto].
Qed.

Lemma claimed_handoff_steps_orderly c intent tr :
  unlinked c intent tr → all_runs (claimed_handoff_steps intent c) (λ tr' _, orderly c intent tr') tr.
Proof.
  intros Hu. unfold claimed_handoff_steps, handoff_steps_with_claim.
  apply runs_pure; [intros [] _|intros; apply Hu]. apply runs_pure; [intros expiration He%map_err_ok|intros; apply Hu].
  apply runs_pure; [intros request_id Hid%ok_or_ok|intros; apply Hu].
  apply runs_check_orderly; [done|clear Hu; intros Hu]. apply runs_call_orderly; [done..|intros fetched; clear Hu; intros Hu].
  do 2 (apply runs_pure; [intros ? _|intros; apply Hu]).
  apply runs_check_orderly; [done|clear Hu; intros Hu]. apply runs_call_orderly; [done..|intros authorization; clear Hu; intros Hu].
  apply runs_pure; [intros ? _|intros; apply Hu].
  match type of Hu with unlinked _ _ ?t => generalize dependent t end. intros t Ht.
  apply runs_check_orderly; [done|intros Hu].
  assert (∀ x, orderly c intent ((t ++ guards c expiration) ++ [Ev (EnsureLink (reader_pubky intent)) x])) as Hlinked.
  { intros x. apply orderly_snoc; [apply Hu|]. split; [done|]. exists t. split; [by exists expiration|apply Ht]. }
  apply runs_mapped; [intros []|intros; apply Hlinked]. specialize (Hlinked (Ok tt)).
  match type of Hlinked with orderly _ _ ?t => generalize dependent t end. clear t Ht Hu. intros t Ho.
  apply runs_check; [|intros; by apply orderly_plain].
  unfold sdk_effect. destruct (operation intent) as [terms|id] eqn:Eo; intros x; simpl;
    (apply orderly_snoc; [apply orderly_plain, plain_guards; done|]); simpl; split_and!; try done; exists t, expiration; done.
Qed.

Lemma execute_claimed_handoff_orderly lifecycles c intent :
  all_runs (execute_claimed_handoff lifecycles c intent) (λ tr _, orderly c intent tr) [].
Proof.
  unfold execute_claimed_handoff. assert (unlinked c intent []) as Hu by (by split; [intros [] ? ? ?|constructor]).
  apply runs_call_orderly; [done..|intros expired; clear Hu; intros Hu]. destruct expired; [apply Hu|].
  destruct (operation intent) as [terms|id] eqn:Eo; [by apply claimed_handoff_steps_orderly|].
  apply runs_pure; [intros _ _|intros; apply Hu]. apply runs_pure; [intros target Ht%map_err_ok|intros; apply Hu].
  apply runs_call_orderly; [done|intros x; simpl; eauto|done|intros []; clear Hu; intros Hu].
  apply runs_call_orderly; [done..|intros accepted; clear Hu; intros Hu].
  destruct accepted; [apply Hu|by apply claimed_handoff_steps_orderly].
Qed.

(** C3: the SDK is changed only under a live claim.  Whatever the SDK, the database and the
    other workers answer, a claimed handoff hands at most one message to the SDK; that is
    its last call, a proposal keyed by the row's own identifier or the cancellation of the
    request its intent targets, and the calls directly before it are the answers that the
    proposal had not expired and that this claim still holds the row in an open generation.
    The link to the Reader is established at most once, directly after the same answers; the
    Reader's requests are refreshed only for a cancellation, once, at the start.  Nothing
    else changes the SDK, and the handoff reports success exactly when the SDK took the
    message. *)
Theorem sdk_effect_under_live_claim {S} (h : ∀ X, Call X → S → X * S) s s' tr res
    lifecycles c intent :
  exec h (execute_claimed_handoff lifecycles c intent) s = (res, s', tr) →
  guarded_handoff c intent tr res ∧ orderly c intent tr.
Proof.
  apply (exec_all_runs h _ (λ tr res, guarded_handoff c intent tr res ∧ orderly c intent tr)), all_runs_and.
  - apply execute_claimed_handoff_guarded, Forall_nil_2.
  - apply execute_claimed_handoff_orderly.
Qed.

(** What processing one claim does: an error before any transition, or exactly one
    transition of the claim, last, whose answer is the result. *)
Definition single_transition (c : ClaimedOutbox) (tr : list (event Call))
    (res : result PersistenceError (bool * ProcessingHealth)) : Prop :=
  (quiet tr ∧ is_err res = true)
  ∨ ∃ pre op x,
      tr = pre ++ [Ev (Mark c op) x] ∧ Forall (λ ev, is_mark ev = false) pre
      ∧ fst <$> res = x ∧ (∀ lease, op ≠ Renew lease)
      ∧ ∀ handoff, op = HandOff handoff →
          ∃ intent pre' expiration request_id,
            delivery_intent c = Ok intent
            ∧ delivery_expiration intent = Ok expiration
            ∧ request_id_new (uuid_to_string (c_id c)) = Some request_id
            ∧ pre = pre' ++ guards c expiration ++ [effect_event intent request_id (Ok handoff)]
            ∧ quiet pre'.

Lemma quiet_no_mark tr : quiet tr → Forall (λ ev, is_mark ev = false) tr.
Proof. intros H. eapply Forall_impl; [exact H|]. simpl. tauto. Qed.

Lemma effect_event_no_mark intent request_id x : is_mark (effect_event intent request_id x) = false.
Proof. unfold effect_event. by destruct (operation intent). Qed.

Lemma single_transition_mark c op tr h :
  Forall (λ ev, is_mark ev = false) tr →
  (∀ handoff, op ≠ HandOff handoff) → (∀ lease, op ≠ Renew lease) →
  all_runs (with_health h (call (Mark c op))) (single_transition c) tr.
Proof.
  intros Htr Hop Hre. apply runs_with_health. intros x. right. exists tr, op, x.
  split_and!; [done..|by destruct x|done|]. intros handoff ->. by destruct (Hop handoff).
Qed.

Lemma guarded_handoff_no_mark c intent tr res :
  guarded_handoff c intent tr res → Forall (λ ev, is_mark ev = false) tr.
Proof.
  intros [[H _]|(pre & e & rid & x & -> & H & _)]; [by apply quiet_no_mark|].
  apply Forall_app_2; [by apply quiet_no_mark|].
  apply Forall_app_2; [apply quiet_no_mark, quiet_guards|].
  apply Forall_singleton, effect_event_no_mark.
Qed.

(** After any guarded handoff, the matching transition follows. *)
Lemma after_handoff c schedule intent tr outcome :
  delivery_intent c = Ok intent → guarded_handoff c intent tr outcome →
  all_runs (finish_claim c schedule outcome) (single_transition c) tr.
Proof.
  intros Hi Hg. pose proof (guarded_handoff_no_mark _ _ _ _ Hg) as Hm.
  destruct outcome as [handoff|[stage| | |]]; [|by apply single_transition_mark..].
  destruct Hg as [[_ ?]|(pre & expiration & rid & x & -> & Hq & _ & He & Hid & Hx)]; [done|].
  apply runs_with_health. intros b. right. eexists _, (HandOff handoff), b.
  split_and!; [done|done|by destruct b|done|]. intros handoff' [= <-].
  exists intent, pre, expiration, rid. destruct x; [|done]. simpl in Hx. simplify_eq. done.
Qed.

Lemma process_claim_runs lifecycles c schedule :
  all_runs (process_claim_with_health lifecycles c schedule) (single_transition c) [].
Proof.
  unfold process_claim_with_health, process_claim_with.
  destruct (delivery_intent c) as [intent|e] eqn:Hi.
  2: { apply single_transition_mark; [constructor|done..]. }
  assert (Hrest : ∀ tr0, quiet tr0 → all_runs
    (outcome ⇐ execute_claimed_handoff lifecycles c intent; finish_claim c schedule outcome)
    (single_transition c) tr0).
  { intros tr0 Hq. apply all_runs_bind.
    eapply all_runs_mono; [|by apply execute_claimed_handoff_guarded].
    intros tr1 outcome Hg. by apply after_handoff with (intent := intent). }
  apply runs_pure; [intros expiration He|intros; left; by split; [constructor|]].
  apply all_runs_try. destruct expiration as [d|]; [|exact (Hrest [] (Forall_nil_2 _))].
  - intros [[|]|e].
    + apply (single_transition_mark c ExpireProposal [Ev (ProposalExpired d) (Ok true)]); [by repeat constructor|done..].
    + apply (Hrest [Ev (ProposalExpired d) (Ok false)]). by repeat constructor.
    + left. by split; [repeat constructor|].
Qed.

(** one transition per claim, and a handoff is recorded only for what the SDK
    accepted.  Processing a claim ends the claim with at most one store transition,
    its last call; and it records a handoff only when the call just before was the
    SDK's acceptance, made under the live claim and keyed by the row's identifier,
    of exactly the identifiers it records. *)
Theorem process_claim_single_transition {S} (h : ∀ X, Call X → S → X * S) s s' tr res
    lifecycles c schedule :
  exec h (process_claim_with_health lifecycles c schedule) s = (res, s', tr) →
  single_transition c tr res.
Proof. apply exec_all_runs, process_claim_runs. Qed.

(** ** Transient failures *)

(** Answers that say "not now": an outage of the database or of the SDK, or a Reader whose
    registration or authorization is not there yet. *)
Definition transient (ev : event Call) : bool :=
  match ev with
  | Ev (ProposalExpired _) (Err _) | Ev (ClaimHandoffEligible _) (Err _)
  | Ev (ProviderV2DeadlineExpired _) (Err _) | Ev (RotationTargetAccepted _) (Err _)
  | Ev (RefreshPaymentRequests _) (Err _)
  | Ev (FetchRegistry _) (Err (HandoffErrorRetryable _)) | Ev (FetchRegistry _) (Ok None)
  | Ev (FetchAuthorization _) (Err (HandoffErrorRetryable _))
  | Ev (FetchAuthorization _) (Ok (AuthMissing | AuthInvalid))
  | Ev (EnsureLink _) (Err (HandoffErrorRetryable _))
  | Ev (Propose _ _ _) (Err (HandoffErrorRetryable _))
  | Ev (Cancel _ _) (Err (HandoffErrorRetryable _)) => true
  | _ => false
  end.

(** Transitions that settle the row or hand it off. *)
Definition ends_delivery (ev : event Call) : bool :=
  match ev with
  | Ev (Mark _ (Retry _ _)) _ => false
  | Ev (Mark _ _) _ => true
  | _ => false
  end.

Definition calm (tr : list (event Call)) : Prop := Forall (λ ev, transient ev = false) tr.

(** A handoff that met a transient answer reports a retryable failure. *)
Definition retried (tr : list (event Call)) (res : result HandoffFailure HandoffResult) : Prop :=
  calm tr ∨ ∃ stage, res = Err (FailureRetryable stage).

Lemma calm_snoc tr ev : calm tr → transient ev = false → calm (tr ++ [ev]).
Proof. intros. apply Forall_app_2; [done|]. by apply Forall_singleton. Qed.

Lemma calm_guards c expiration : calm (guards c expiration).
Proof. destruct expiration; repeat constructor. Qed.

Lemma at_stage_retryable cause stage : ∃ s, at_stage (HandoffErrorRetryable cause) stage = FailureRetryable s.
Proof. destruct cause; simpl; eauto. Qed.

Lemma at_link_stage_retryable cause : ∃ s, at_link_stage (HandoffErrorRetryable cause) = FailureRetryable s.
Proof. destruct cause; simpl; eauto. Qed.

Lemma runs_check_retried c expiration (k : unit → M (result HandoffFailure HandoffResult)) tr :
  calm tr → (∀ tr', calm tr' → all_runs (k tt) retried tr') →
  all_runs (try_bind k (check_claim (Some c) expiration)) retried tr.
Proof.
  intros Hc Hk. unfold try_bind, check_claim. destruct expiration as [d|]; simpl.
  - intros [[|]|?]; simpl; [left; by apply calm_snoc| |right; eauto].
    intros [[|]|?]; simpl; [|left; apply calm_snoc; [by apply calm_snoc|done]|right; eauto].
    apply Hk, calm_snoc; [by apply calm_snoc|done].
  - intros [[|]|?]; simpl; [apply Hk; by apply calm_snoc|left; by apply calm_snoc|right; eauto].
Qed.

(** A fallible call of the SDK: a retryable error ends the handoff as retryable. *)
Lemma runs_sdk_retried {A} (f : HandoffError → HandoffFailure) (e : Call (result HandoffError A))
    (k : A → M (result HandoffFailure HandoffResult)) tr :
  (∀ cause, ∃ s, f (HandoffErrorRetryable cause) = FailureRetryable s) →
  transient (Ev e (Err HandoffErrorPermanent)) = false → calm tr →
  (∀ a, all_runs (k a) retried (tr ++ [Ev e (Ok a)])) →
  all_runs (try_bind k (mapped f (call e))) retried tr.
Proof.
  intros Hf Hp Hc Hk. apply runs_mapped; [done|]. intros [cause|].
  - right. destruct (Hf cause) as [s ->]. eauto.
  - left. by apply calm_snoc.
Qed.

Lemma claimed_handoff_steps_retried c intent tr :
  calm tr → all_runs (claimed_handoff_steps intent c) retried tr.
Proof.
  intros Hc. unfold claimed_handoff_steps, handoff_steps_with_claim.
  apply runs_pure; [intros [] _|by left]. apply runs_pure; [intros expiration _|by left].
  apply runs_pure; [intros request_id _|by left].
  apply runs_check_retried; [done|clear tr Hc; intros tr Hc].
  apply runs_sdk_retried; [intros; apply at_stage_retryable|done..|intros [registry|]; [|right; eauto]].
  unfold try_bind at 1. simpl. assert (Hc1 : calm (tr ++ [Ev (FetchRegistry (reader_pubky intent)) (Ok (Some registry))]))
    by (by apply calm_snoc).
  apply runs_pure; [intros [] _|intros e _; by left].
  apply runs_check_retried; [done|clear tr Hc Hc1; intros tr Hc].
  apply runs_sdk_retried; [intros; apply at_stage_retryable|done..|intros auth].
  destruct auth; unfold try_bind at 1; simpl; [|right; eauto..].
  apply runs_check_retried; [by apply calm_snoc|clear tr Hc; intros tr Hc].
  apply runs_sdk_retried; [apply at_link_stage_retryable|done..|intros []].
  apply runs_check_retried; [by apply calm_snoc|clear tr Hc; intros tr Hc].
  unfold sdk_effect. destruct (operation intent); intros [handoff|[cause|]]; simpl;
    [left; by apply calm_snoc|right|left; by apply calm_snoc|left; by apply calm_snoc|right|left; by apply calm_snoc].
  - destruct cause; simpl; eauto.
  - destruct cause; simpl; eauto.
Qed.

Lemma execute_claimed_handoff_retried lifecycles c intent tr :
  calm tr → all_runs (execute_claimed_handoff lifecycles c intent) retried tr.
Proof.
  intros Hc. unfold execute_claimed_handoff.
  apply runs_mapped; [intros v2|intros; right; eauto].
  assert (Hc1 : calm (tr ++ [Ev (ProviderV2DeadlineExpired c) (Ok v2)])) by (by apply calm_snoc).
  destruct v2; [by left|].
  destruct (operation intent) as [terms|id]; [by apply claimed_handoff_steps_retried|].
  apply runs_pure; [intros _ _|by left]. apply runs_pure; [intros target _|by left].
  apply runs_mapped; [intros []|intros; right; eauto].
  apply runs_mapped; [intros accepted|intros; right; eauto].
  assert (Hc2 : calm (((tr ++ [Ev (ProviderV2DeadlineExpired c) (Ok false)])
    ++ [Ev (RefreshPaymentRequests target) (Ok ())]) ++ [Ev (RotationTargetAccepted c) (Ok accepted)]))
    by (apply calm_snoc; [by apply calm_snoc|done]).
  destruct accepted; [by left|by apply claimed_handoff_steps_retried].
Qed.

Definition retry_only (tr : list (event Call)) : Prop :=
  existsb transient tr = true → existsb ends_delivery tr = false.

Lemma existsb_Forall_false {A} (f : A → bool) l : Forall (λ x, f x = false) l → existsb f l = false.
Proof. induction 1 as [|x l Hx _ IH]; simpl; [done|]. by rewrite Hx. Qed.

Lemma calm_retry_only tr : calm tr → retry_only tr.
Proof. intros H%existsb_Forall_false Ht. congruence. Qed.

Lemma no_mark_ends tr : Forall (λ ev, is_mark ev = false) tr → existsb ends_delivery tr = false.
Proof.
  intros H. apply existsb_Forall_false. eapply Forall_impl; [exact H|].
  intros [X e x]. by destruct e.
Qed.

Lemma finish_claim_retries c schedule outcome tr :
  retried tr outcome → Forall (λ ev, is_mark ev = false) tr →
  all_runs (finish_claim c schedule outcome) (λ tr' _, retry_only tr') tr.
Proof.
  intros [Hc|[stage ->]] Hm.
  - destruct outcome as [handoff|[stage| | |]]; intros x; by apply calm_retry_only, calm_snoc.
  - intros x _. rewrite existsb_app, no_mark_ends by done. done.
Qed.

Lemma process_claim_retries lifecycles c schedule :
  all_runs (process_claim_with_health lifecycles c schedule) (λ tr _, retry_only tr) [].
Proof.
  unfold process_claim_with_health, process_claim_with.
  destruct (delivery_intent c) as [intent|e] eqn:Hi;
    [|intros x; apply calm_retry_only, calm_snoc; [constructor|done]].
  assert (Hrest : ∀ tr0, quiet tr0 → calm tr0 → all_runs
    (outcome ⇐ execute_claimed_handoff lifecycles c intent; finish_claim c schedule outcome)
    (λ tr _, retry_only tr) tr0).
  { intros tr0 Hq Hc. apply all_runs_bind. eapply all_runs_mono;
      [|apply all_runs_and; [by apply execute_claimed_handoff_retried|by apply execute_claimed_handoff_guarded]].
    intros tr1 outcome [Hr Hg]. apply finish_claim_retries; [done|by eapply guarded_handoff_no_mark]. }
  apply runs_pure; [intros expiration _|intros; apply calm_retry_only; constructor].
  apply all_runs_try. destruct expiration as [d|]; [|exact (Hrest [] (Forall_nil_2 _) (Forall_nil_2 _))].
  intros [[|]|e]; simpl.
  - intros x. apply calm_retry_only. by repeat constructor.
  - apply (Hrest [Ev (ProposalExpired d) (Ok false)]); by repeat constructor.
  - intros _. reflexivity.
Qed.

(** a transient failure never settles a message.  When, while processing a claim, the
    database or the SDK was unavailable, or the Reader was not yet registered, authorized
    or linked, the row is neither handed off nor failed nor expired: if the claim is ended
    at all it is put back for a retry. *)
Theorem transient_failure_is_retried {S} (h : ∀ X, Call X → S → X * S) s s' tr res
    lifecycles c schedule :
  exec h (process_claim_with_health lifecycles c schedule) s = (res, s', tr) →
  existsb transient tr = true → existsb ends_delivery tr = false.
Proof.
  intros Hx. apply (exec_all_runs h _ (λ tr _, retry_only tr) _ _ _ _ (process_claim_retries lifecycles c schedule) Hx).
Qed.

(** ** Reconciliation *)

Definition is_deliver (ev : event Call) : bool :=
  match ev with Ev (MarkReconciled _ Deliver) _ => true | _ => false end.

Definition is_settling (ev : event Call) : bool :=
  match ev with
  | Ev (MarkReconciled _ Deliver) _ | Ev (MarkReconciled _ FailReconciliation) _ => true
  | _ => false
  end.

(** Answers of the SDK that leave the message undecided. *)
Definition undecided (answer : result HandoffError (option OutboundStatus)) : bool :=
  match answer with
  | Ok (Some (StatusPending | StatusSending | StatusFailed)) | Err (HandoffErrorRetryable _) => true
  | _ => false
  end.

Definition is_undecided (ev : event Call) : bool :=
  match ev with
  | @Ev _ X e x =>
      match e in Call Y return Y → bool with
      | OutboundMessageStatus _ => undecided
      | _ => λ _, false
      end x
  end.

Definition sound_reconciliation (c : ClaimedHandoff) (tr : list (event Call)) : Prop :=
  (existsb is_deliver tr = true →
     ∃ m x, handoff_outbound_id c = Ok m
            ∧ tr = [Ev (OutboundMessageStatus m) (Ok (Some StatusSent));
                    Ev (MarkReconciled c Deliver) x])
  ∧ (existsb is_undecided tr = true → existsb is_settling tr = false).

Lemma retry_after_failure_sound c delay expiration stage m answer :
  undecided answer = true →
  all_runs (retry_reconciliation_after_failure c delay expiration stage)
    (λ tr _, sound_reconciliation c tr) [Ev (OutboundMessageStatus m) answer].
Proof.
  intros Hu. unfold retry_reconciliation_after_failure. apply all_runs_try.
  destruct expiration as [d|]; [intros [b|e]|]; try intros x;
    (split; simpl; [intros Hd; discriminate Hd|done]).
Qed.

(** C4: delivery means sent.  A reconciliation marks a message delivered only as the
    direct consequence of the SDK's answer that exactly this message was sent; and
    while the SDK has not decided (pending, sending, failed once, or a retryable
    error) the row is neither delivered nor failed. *)
Theorem delivered_only_when_sent {S} (h : ∀ X, Call X → S → X * S) s s' tr res c delay :
  exec h (process_reconciliation_with_health c delay) s = (res, s', tr) →
  (existsb is_deliver tr = true →
     ∃ m x, handoff_outbound_id c = Ok m
            ∧ tr = [Ev (OutboundMessageStatus m) (Ok (Some StatusSent));
                    Ev (MarkReconciled c Deliver) x])
  ∧ (existsb is_undecided tr = true → existsb is_settling tr = false).
Proof.
  intros H. apply (exec_all_runs h _ (λ tr _, sound_reconciliation c tr)) in H; [done|].
  unfold process_reconciliation_with_health.
  destruct (reconciliation_expiration c) as [expiration|e];
    [destruct (handoff_outbound_id c) as [m|e] eqn:Hm|]; [|by intros x..].
  intros answer.
  destruct answer as [[[]|]|[cause|]];
    try (apply (retry_after_failure_sound c delay expiration _ m); reflexivity);
    try (by intros x; split; simpl).
  intros x. split; [|done]. intros _. by exists m, x.
Qed.

(** The only run that reports an available, successful reconciliation. *)
Definition deliver_run (c : ClaimedHandoff) (tr : list (event Call))
    (res : result PersistenceError (bool * ProcessingHealth)) : Prop :=
  res = Ok (true, HealthAvailable) →
  ∃ m, handoff_outbound_id c = Ok m
       ∧ tr = [Ev (OutboundMessageStatus m) (Ok (Some StatusSent));
               Ev (MarkReconciled c Deliver) (Ok true)].

Lemma reconciliation_deliver_run c delay :
  all_runs (process_reconciliation_with_health c delay) (deliver_run c) [].
Proof.
  unfold process_reconciliation_with_health.
  destruct (reconciliation_expiration c) as [expiration|e];
    [destruct (handoff_outbound_id c) as [m|e] eqn:Hm|];
    [|by intros [b|?] [=]..].
  intros answer.
  assert (Hretry : ∀ stage tr, all_runs
    (retry_reconciliation_after_failure c delay expiration stage) (deliver_run c) tr).
  { intros stage tr. apply all_runs_try. destruct expiration as [d|]; [intros [b|e]|];
      try intros [b'|e']; done. }
  destruct answer as [[[]|]|[cause|]]; try apply Hretry; try (by intros [b|?] [=]).
  intros [b|?] [= ->]. by exists m.
Qed.

(** ** The store calls interpreted by the database

    What the worker relies on: the fenced calls run the store's methods on the
    database at the database's time.  An outage answers [PE_Unavailable], and then
    nothing is promised (the commit may or may not have happened). *)
Class StoreHandler {S} (h : ∀ X, Call X → S → X * S) (get_db : S → Db) (clock : S → Z) := {
  handle_mark : ∀ c op s s' b, h _ (Mark c op) s = (Ok b, s') →
    ∃ w, run_fenced (get_db s) w (clock s) c op = (Ok b, get_db s');
  handle_reconciled : ∀ c op s s' b, h _ (MarkReconciled c op) s = (Ok b, s') →
    run_reconcile (get_db s) (clock s) c op = (Ok b, get_db s');
}.

Section store.
Context {S} (h : ∀ X, Call X → S → X * S) (get_db : S → Db) (clock : S → Z)
  `{!StoreHandler h get_db clock}.

(** processing a claim, end to end.  When the worker reports that it ended its
    claim, the row of the claim is no longer leased and carries no token in the
    database; it is handed off, to be retried, or failed; and it is handed off only
    with the identifiers of an SDK call that accepted it. *)
Theorem processed_claim_releases_row s s' tr lifecycles c schedule health :
  exec h (process_claim_with_health lifecycles c schedule) s = (Ok (true, health), s', tr) →
  ∃ r, outbox (get_db s') !! c_id c = Some r ∧ row_token r = None
       ∧ (o_status r = Retryable ∨ o_status r = PermanentlyFailed
          ∨ (o_status r = HandedOff
             ∧ ∃ handoff intent request_id,
                 delivery_intent c = Ok intent
                 ∧ o_sdk r = mk_SdkColumns (Some (fmt_dec (outbound_message_id handoff)))
                     (handoff_ids handoff).1 (handoff_ids handoff).2
                 ∧ effect_event intent request_id (Ok handoff) ∈ tr)).
Proof.
  intros H. assert (Hst : single_transition c tr (Ok (true, health))).
  { revert H. apply process_claim_single_transition. }
  destruct Hst as [[_ ?]|(pre & op & x & -> & _ & Hx & Hre & Hho)]; [done|].
  simpl in Hx. subst x.
  destruct (exec_last h _ _ _ _ _ (Ev (Mark c op) (Ok true)) H) as (s0 & Hs0).
  { apply last_snoc. }
  simpl in Hs0. destruct (handle_mark c op s0 s' true Hs0) as (w & Hrun).
  apply run_fenced_update in Hrun as [Hrun|[_ ?]]; [|done].
  apply update_outbox_true in Hrun as (r & Hr & _ & ->).
  exists (fenced_row (clock s0) op r). split; [simpl; by rewrite lookup_insert_eq|].
  destruct op as [lease|handoff| | | |]; [by destruct (Hre lease)|..];
    (split; [done|]); simpl; auto.
  right; right. split; [done|].
  destruct (Hho handoff eq_refl) as (intent & pre' & ex & rid & Hi & _ & _ & -> & _).
  exists handoff, intent, rid. split_and!; [done..|].
  rewrite !elem_of_app, list_elem_of_singleton. auto.
Qed.

(** a delivered row was sent.  When a reconciliation reports that it delivered the
    message, the row is delivered in the database, with the outbound message the SDK
    answered was sent. *)
Theorem reconciliation_delivers_sent_message s s' tr c delay :
  exec h (process_reconciliation_with_health c delay) s = (Ok (true, HealthAvailable), s', tr) →
  ∃ r m, outbox (get_db s') !! h_id c = Some r ∧ o_status r = Delivered
         ∧ row_outbound r = Some (h_sdk_outbound_message_id c)
         ∧ handoff_outbound_id c = Ok m
         ∧ tr = [Ev (OutboundMessageStatus m) (Ok (Some StatusSent));
                 Ev (MarkReconciled c Deliver) (Ok true)].
Proof.
  intros H. assert (Htr : deliver_run c tr (Ok (true, HealthAvailable))).
  { revert H. apply exec_all_runs, reconciliation_deliver_run. }
  destruct (Htr eq_refl) as (m & Hm & ->).
  destruct (exec_last h _ _ _ _ _ (Ev (MarkReconciled c Deliver) (Ok true)) H) as (s0 & Hs0);
    [done|].
  apply handle_reconciled in Hs0.
  apply run_reconcile_update in Hs0 as [Hs0|[_ ?]]; [|done].
  apply update_outbox_true in Hs0 as (r & Hr & Hg & ->). cbv beta in Hg. split_bools.
  exists (reconciled_row (clock s0) Deliver r), m.
  split; [simpl; by rewrite lookup_insert_eq|]. done.
Qed.

End store.
End worker.

(** ** Witnesses *)

#[local] Existing Instance Example_core.example_core.
#[local] Existing Instance Example_lib.example_lib.

Module Example_worker.

Definition open_envelope : string → RowId → string → option unit := λ _ _ _, Some tt.

Definition from_bytes : unit → option DeliveryIntentV1 := λ _, Some Example_lib.example_intent.

Definition uuid_to_string : RowId → string := λ _, "row".

Definition parse_peer : string → result HandoffError string := Ok.

Definition the_claim : ClaimedOutbox :=
  mk_ClaimedOutbox 1 7 (Some 5%N) 1 0 42 "0123456789abcdef0123456789abcdef" "sealed" None.

Definition the_handoff : ClaimedHandoff :=
  mk_ClaimedHandoff 1 7 2 43 "11" PaymentRequestProposalKind "0123456789abcdef0123456789abcdef"
    "sealed" None.

Definition registry : PaykitAppRegistry :=
  mk_PaykitAppRegistry (Some "key") [("wallet", mk_PaykitAppCapabilities true true)].

(** The database answers the store calls at time 5; the SDK accepts everything. *)
Definition handler (X : Type) (e : Call (Peer := string) X) (db : Db) : X * Db :=
  match e in Call Y return Y * Db with
  | ProposalExpired d => (Ok (proposal_expired 5 d), db)
  | ClaimHandoffEligible c => (Ok (claim_handoff_eligible db 5 c), db)
  | ProviderV2DeadlineExpired c => (Ok (provider_v2_deadline_expired db 5 c), db)
  | RotationTargetAccepted c => (Ok (rotation_cancellation_target_is_accepted db c), db)
  | Mark c op => run_fenced db Example_store.no_wakeups 5 c op
  | MarkReconciled c op => run_reconcile db 5 c op
  | FetchRegistry _ => (Ok (Some registry), db)
  | FetchAuthorization _ => (Ok AuthVerified, db)
  | EnsureLink _ => (Ok tt, db)
  | Propose _ _ _ => (Ok (HandoffProposal 11 "event" "request"), db)
  | Cancel _ _ => (Ok (HandoffCancellation 12 "event" "request"), db)
  | OutboundMessageStatus _ => (Ok (Some StatusSent), db)
  | RefreshPaymentRequests _ => (Ok tt, db)
  end.

#[global] Instance handler_store : StoreHandler handler id (λ _, 5).
Proof.
  split; simpl; [|done]. intros c op s s' b H. by exists Example_store.no_wakeups.
Qed.

(** The same, with a Reader that has no registration yet. *)
Definition pending_handler (X : Type) (e : Call (Peer := string) X) (db : Db) : X * Db :=
  match e in Call Y return Y * Db with
  | FetchRegistry _ => (Ok None, db)
  | other => handler _ other db
  end.

Definition process (db : Db) :=
  exec handler (process_claim_with_health open_envelope from_bytes uuid_to_string parse_peer true the_claim
                  (mk_RetrySchedule 1000 1000)) db.

Definition reconcile (db : Db) :=
  exec handler (process_reconciliation_with_health open_envelope from_bytes the_handoff 1000) db.

End Example_worker.

Lemma sdk_effect_under_live_claim_witness :
  let out := exec Example_worker.handler
    (execute_claimed_handoff Example_worker.uuid_to_string Example_worker.parse_peer true
       Example_worker.the_claim Example_lib.example_intent) Example_store.leased in
  is_ok out.1.1 = true
  ∧ guarded_handoff Example_worker.uuid_to_string Example_worker.the_claim
      Example_lib.example_intent out.2 out.1.1
  ∧ orderly Example_worker.uuid_to_string Example_worker.parse_peer Example_worker.the_claim
      Example_lib.example_intent out.2.
Proof.
  split; [vm_compute; reflexivity|].
  apply (sdk_effect_under_live_claim _ _ Example_worker.handler Example_store.leased
           _ _ _ true Example_worker.the_claim Example_lib.example_intent
           (surjective_pairing_3 _)).
Defined.

Lemma process_claim_single_transition_witness :
  let out := Example_worker.process Example_store.leased in
  is_ok out.1.1 = true
  ∧ single_transition Example_worker.open_envelope Example_worker.from_bytes Example_worker.uuid_to_string
      Example_worker.the_claim out.2 out.1.1.
Proof.
  split; [vm_compute; reflexivity|].
  apply (process_claim_single_transition _ _ _ Example_worker.parse_peer Example_worker.handler
           Example_store.leased _ _ _ true Example_worker.the_claim (mk_RetrySchedule 1000 1000)
           (surjective_pairing_3 _)).
Defined.

Lemma transient_failure_is_retried_witness :
  existsb ends_delivery
    (exec Example_worker.pending_handler
       (process_claim_with_health Example_worker.open_envelope Example_worker.from_bytes
          Example_worker.uuid_to_string Example_worker.parse_peer true Example_worker.the_claim
          (mk_RetrySchedule 1000 1000)) Example_store.leased).2 = false.
Proof.
  apply (transient_failure_is_retried Example_worker.open_envelope Example_worker.from_bytes
           Example_worker.uuid_to_string Example_worker.parse_peer Example_worker.pending_handler
           Example_store.leased _ _ _ true Example_worker.the_claim (mk_RetrySchedule 1000 1000)
           (surjective_pairing_3 _)).
  vm_compute. reflexivity.
Defined.

Lemma delivered_only_when_sent_witness :
  ∃ m x, (Example_worker.reconcile Example_store.sent).2
         = [Ev (OutboundMessageStatus m) (Ok (Some StatusSent));
            Ev (MarkReconciled Example_worker.the_handoff Deliver) x].
Proof.
  destruct (delivered_only_when_sent Example_worker.open_envelope Example_worker.from_bytes
              Example_worker.handler Example_store.sent _ _ _ Example_worker.the_handoff 1000
              (surjective_pairing_3 _)) as [H _].
  destruct (H eq_refl) as (m & x & _ & Htr). exists m, x. exact Htr.
Defined.

Lemma processed_claim_releases_row_witness :
  ∃ r, outbox (Example_worker.process Example_store.leased).1.2 !! 1%N = Some r
       ∧ row_token r = None.
Proof.
  destruct (Example_worker.process Example_store.leased) as [[res db'] tr] eqn:E.
  assert (res = Ok (true, HealthAvailable)) as ->.
  { apply (f_equal (λ x, x.1.1)) in E. vm_compute in E. by subst. }
  destruct (processed_claim_releases_row Example_worker.open_envelope Example_worker.from_bytes
              Example_worker.uuid_to_string Example_worker.parse_peer Example_worker.handler id
              (λ _, 5) Example_store.leased db' tr true Example_worker.the_claim
              (mk_RetrySchedule 1000 1000) HealthAvailable E) as (r & Hr & Ht & _).
  exists r. split; [exact Hr|exact Ht].
Defined.

Lemma reconciliation_delivers_sent_message_witness :
  ∃ r, outbox (Example_worker.reconcile Example_store.sent).1.2 !! 1%N = Some r
       ∧ o_status r = Delivered.
Proof.
  destruct (Example_worker.reconcile Example_store.sent) as [[res db'] tr] eqn:E.
  assert (res = Ok (true, HealthAvailable)) as ->.
  { apply (f_equal (λ x, x.1.1)) in E. vm_compute in E. by subst. }
  destruct (reconciliation_delivers_sent_message Example_worker.open_envelope Example_worker.from_bytes
              Example_worker.handler id (λ _, 5) Example_store.sent db' tr
              Example_worker.the_handoff 1000 E) as (r & m & Hr & Hst & _).
  exists r. split; [exact Hr|exact Hst].
Defined.
