(* ===== verification/CreateInvoice.v ===== *)
(** * CreateInvoice: invoice admission ([application/create_invoice.rs])

    [CreateInvoiceService::create] is a program over its traits: the clock, the
    persistence, the session validator, the lock fetcher, the Reader registry, the
    Creator's receiving details and the exchange rates.  Every awaited call runs
    under the time that is left of the fifteen second request deadline, except the
    final transaction, which is awaited to its factual result.  A call under
    [tokio::time::timeout] answers [None] when it times out.  Diagnostics and timing
    are not modelled.  The types of [locks-core] locks and of the [bitcoin] crate's
    extended keys are the classes [ContentLocks] and [Bip32]. *)

From S2P Require Import Prelude Text Effects Locks Invoice Receiving Payment Lifecycle Pricing Intent Readers Database.
Local Open Scope string_scope.
Local Open Scope Z_scope.
Local Open Scope list_scope.

Definition REQUEST_DEADLINE : Z := 15 * NANOS_PER_SECOND.

Definition REGISTRY_READ_ATTEMPTS : nat := 3.

Definition REGISTRY_RETRY_DELAY_CAPS_MS : list Z := [333; 667].

Inductive SessionValidationError := SessionInvalid | SessionUnavailable.

Inductive LockFetchError := FetchNotFound | FetchUnavailable | FetchInvalid.

Inductive RegistryDiscoveryError := RegistryInvalidRequest | RegistryUnavailable | RegistryMalformed.

Definition create_invoice_error_label (e : CreateInvoiceError) : string :=
  match e with
  | InvalidRequest => "invalid_request"
  | CreatorSessionInvalid => "creator_session_invalid"
  | CreatorSessionUnavailable => "creator_session_unavailable"
  | LockNotFound => "lock_not_found"
  | LockUnavailable => "lock_unavailable"
  | Conflict => "conflict"
  | ReaderSetupPending => "reader_setup_pending"
  | ReaderNotPayable => "reader_not_payable"
  | ReaderRegistryUnavailable => "reader_registry_unavailable"
  | ReaderRegistryMalformed => "reader_registry_malformed"
  | DeadlineExceeded => "deadline_exceeded"
  | Unavailable => "unavailable"
  end.

(** [config.rs] *)
Inductive BitcoinNetwork := Mainnet | Testnet | Signet | Regtest.

#[global] Instance BitcoinNetwork_eq_dec : EqDecision BitcoinNetwork.
Proof. solve_decision. Defined.

(** [locks_core::ContentLock]: the fields and methods admission reads. *)
Class ContentLocks {core : LocksCore} := {
  ContentLock : Type;
  Criterion : Type;
  lock_creator : ContentLock → RawCreatorPubky;
  criteria : ContentLock → list Criterion;
  validate_paykit_payment_v1_policy : ContentLock → bool;
  is_paykit_payment : Criterion → bool;            (* verifier_type == PaykitPayment *)
  param_str : Criterion → string → option string;  (* params.get(k).and_then(as_str) *)
  (* [paykit_payment_params()]: error, absent, or the [payment_in] of the parameters *)
  paykit_payment_in : Criterion → option (option Z);
}.

(** The [bitcoin] crate's extended public keys. *)
Class Bip32 := {
  Xpub : Type;
  xpub_from_str : string → option Xpub;
  xpub_is_main : Xpub → bool;                      (* network == NetworkKind::Main *)
  xpub_depth : Xpub → Z;
  xpub_hardened_index : Xpub → option Z;           (* child_number, when hardened *)
  (* derive_pub along two normal indices, then [Address::p2wpkh] on the network *)
  derive_p2wpkh : Xpub → Z → Z → BitcoinNetwork → option string;
}.

Record ReceivingDetails := mk_ReceivingDetails {
  rd_bitcoin : option BitcoinAccount;
  rd_usdt : option UsdtAddress;
  rd_bitcoin_account_generation : Z;
}.

Record ReceivingAddresses := mk_ReceivingAddresses {
  ra_bitcoin : option string;
  ra_usdt : option UsdtAddress;
}.

Inductive InvoicePreflight := PreflightNew | PreflightExactReplay | PreflightConflict.

Record AtomicInvoiceResult := mk_AtomicInvoiceResult {
  ar_invoice_id : RowId;
  ar_payment_request_outbox_id : RowId;
  ar_reader_assignment_id : RowId;
  ar_reader_child_index : Z;
  ar_invoice_created_at : Z;
  ar_payment_deadline : Z;
  ar_replayed : bool;
}.

(** [ChildNumber::from_normal_idx] and [from_hardened_idx] take 31-bit indices. *)
Definition child_index_bound : Z := 2147483648.

Definition remaining (start now : Z) : result CreateInvoiceError Z :=
  let elapsed := Z.max 0 (now - start) in
  ensure (elapsed <=? REQUEST_DEADLINE) DeadlineExceeded;;
  let left := REQUEST_DEADLINE - elapsed in
  ensure (negb (left =? 0)) DeadlineExceeded;;
  Ok left.

Definition map_store (error : PersistenceError) : CreateInvoiceError :=
  match error with
  | PE_Conflict => Conflict
  | _ => Unavailable
  end.

Definition map_session (error : SessionValidationError) : CreateInvoiceError :=
  match error with
  | SessionInvalid => CreatorSessionInvalid
  | SessionUnavailable => CreatorSessionUnavailable
  end.

Definition map_lock_fetch (error : LockFetchError) : CreateInvoiceError :=
  match error with
  | FetchNotFound => LockNotFound
  | FetchUnavailable => LockUnavailable
  | FetchInvalid => InvalidRequest
  end.

Definition map_registry (error : RegistryDiscoveryError) : CreateInvoiceError :=
  match error with
  | RegistryInvalidRequest => InvalidRequest
  | RegistryUnavailable => ReaderRegistryUnavailable
  | RegistryMalformed => ReaderRegistryMalformed
  end.

Section create.
Context {core : LocksCore} {lib : PaykitLib} {locks : ContentLocks} {bip32 : Bip32}.
(** [serde_json_canonicalizer] of a flat object, [serde_json::to_string] of a flat
    object of strings, and a metadata map. *)
Context (canonical_json : list (string * (string + Z)) → option string)
  (json_object : list (string * string) → string)
  (metadata_object : list (string * string) → Metadata).
(** [PaykitAppId::new(PAYKIT_APP_ID).expect("static app id")] *)
Context (static_app : PaykitAppId).

Record CreateInvoiceRequest := mk_CreateInvoiceRequest {
  cr_bundle_id : BundleId;
  cr_lock_resource : PubkyLockResource;
  cr_reader : ReaderPubky;
  cr_payment_in : CriterionPaymentWindowHours;
}.

Definition request_binding (r : CreateInvoiceRequest) : result CreateInvoiceError string :=
  ok_or (canonical_json
    [("bundle_id", inl (bundle_to_string (cr_bundle_id r)));
     ("lock_resource", inl (resource_to_string (cr_lock_resource r)));
     ("reader", inl (reader_to_string (cr_reader r)));
     ("payment_in", inr (hours_get (cr_payment_in r)))]) InvalidRequest.

(** ** The lock *)

Definition payment_criterion (lock : ContentLock) : result CreateInvoiceError Criterion :=
  ok_or (List.find is_paykit_payment (criteria lock)) InvalidRequest.

Definition criterion_terms (c : Criterion) :
    result CreateInvoiceError (CriterionAsset * CriterionAmount) :=
  asset_text ← ok_or (param_str c "asset") InvalidRequest;
  asset ← map_err (λ _, InvalidRequest) (CriterionAsset_parse asset_text);
  amount_text ← ok_or (param_str c "amount") InvalidRequest;
  amount ← map_err (λ _, InvalidRequest) (CriterionAmount_parse amount_text);
  Ok (asset, amount).

Definition extract_terms (lock : ContentLock) :
    result CreateInvoiceError (CriterionAsset * CriterionAmount) :=
  criterion ← payment_criterion lock; criterion_terms criterion.

Definition validate_lock (r : CreateInvoiceRequest) (lock : ContentLock) :
    result CreateInvoiceError unit :=
  raw_creator ← ok_or (from_str (creator_to_string (resource_creator (cr_lock_resource r))))
                  InvalidRequest;
  ensure (bool_decide (lock_creator lock = raw_creator)) InvalidRequest;;
  ensure (validate_paykit_payment_v1_policy lock) InvalidRequest;;
  criterion ← payment_criterion lock;
  params ← ok_or (paykit_payment_in criterion) InvalidRequest;
  payment_in ← ok_or params InvalidRequest;
  ensure (payment_in =? hours_get (cr_payment_in r)) InvalidRequest;;
  criterion_terms criterion;;
  Ok tt.

(** ** Payment terms *)

Definition p2wpkh_identifier (network : BitcoinNetwork) : string :=
  match network with
  | Mainnet => "btc-bitcoin-p2wpkh"
  | Testnet => "btc-testnet-p2wpkh"
  | Signet => "btc-signet-p2wpkh"
  | Regtest => "btc-regtest-p2wpkh"
  end.

(** [HashMap::insert] on endpoints keyed by identifier. *)
Definition endpoint_insert (i : EndpointIdentifier) (payload : string)
    (endpoints : list (EndpointIdentifier * string)) : list (EndpointIdentifier * string) :=
  (i, payload)
  :: filter (λ e, String.eqb (identifier_str e.1) (identifier_str i) = false) endpoints.

Definition identifier_le (a b : EndpointIdentifier) : Prop :=
  str_compare (identifier_str a) (identifier_str b) ≠ Gt.

#[global] Instance identifier_le_dec : RelDecision identifier_le.
Proof.
  intros a b. unfold identifier_le.
  destruct (str_compare (identifier_str a) (identifier_str b)); [left|left|right]; naive_solver.
Defined.

Definition invoice_endpoints (network : BitcoinNetwork) (addresses : ReceivingAddresses) :
    result CreateInvoiceError (list (EndpointIdentifier * string)) :=
  endpoints ← match ra_bitcoin addresses with
              | Some address =>
                  i ← ok_or (identifier_new (p2wpkh_identifier network)) InvalidRequest;
                  Ok (endpoint_insert i (json_object [("value", address)]) [])
              | None => Ok []
              end;
  match ra_usdt addresses with
  | Some address =>
      i ← ok_or (identifier_new USDT_ENDPOINT) InvalidRequest;
      Ok (endpoint_insert i (json_object (usdt_endpoint address)) endpoints)
  | None => Ok endpoints
  end.

(** [reference] is the fresh [Uuid::new_v4().hyphenated()]. *)
Definition payment_request_terms (network : BitcoinNetwork) (reference : string)
    (r : CreateInvoiceRequest) (lock : ContentLock) (addresses : ReceivingAddresses)
    (rates : list ConversionRate) : result CreateInvoiceError PaymentRequestTerms :=
  '(asset, amount) ← extract_terms lock;
  endpoints ← invoice_endpoints network addresses;
  let identifiers := merge_sort identifier_le endpoints.*1 in
  sdk_amount ← ok_or (amount_new (decimal_amount asset (units amount))
                        (to_ascii_lowercase (as_str asset))) InvalidRequest;
  sdk_reference ← ok_or (reference_new reference) InvalidRequest;
  ok_or (terms_build {|
    ti_amount := sdk_amount;
    ti_reference := sdk_reference;
    ti_identifiers := identifiers;
    ti_conversion := match rates with [] => None | _ => Some (Fixed rates) end;
    ti_proposal_expires_at := None;
    ti_payment_deadline := None;
    ti_required_app_id := Some static_app;
    ti_endpoints := Some endpoints;
    ti_metadata := metadata_object [("bundle_id", bundle_to_string (cr_bundle_id r))];
  |}) InvalidRequest.

(** [derive_bip84_p2wpkh_address]: [account_index] is a [u32]. *)
Definition derive_bip84_p2wpkh_address (serialized_xpub : string) (account_index : Z)
    (network : BitcoinNetwork) (child_index : Z) : result CreateInvoiceError string :=
  ensure ((0 <=? child_index) && (child_index <=? u32_max)) Unavailable;;
  xpub ← ok_or (xpub_from_str serialized_xpub) Unavailable;
  let expected_main := bool_decide (network = Mainnet) in
  if negb (Bool.eqb (xpub_is_main xpub) expected_main) || negb (xpub_depth xpub =? 3)
  then Err Unavailable
  else
    ensure (account_index <? child_index_bound) Unavailable;;
    ensure (bool_decide (xpub_hardened_index xpub = Some account_index)) Unavailable;;
    ensure (child_index <? child_index_bound) Unavailable;;
    ok_or (derive_p2wpkh xpub 0 child_index network) Unavailable.

(** [DerivedInvoicePayloads]; the fresh reference of each call is an argument. *)
Record DerivedInvoicePayloads := mk_DerivedInvoicePayloads {
  dp_receiving : ReceivingDetails;
  dp_rates : list ConversionRate;
  dp_network : BitcoinNetwork;
  dp_request : CreateInvoiceRequest;
  dp_lock : ContentLock;
  dp_app_id : PaykitAppId;
}.

Definition expected_bitcoin_account_generation (p : DerivedInvoicePayloads) : option Z :=
  (λ _, rd_bitcoin_account_generation (dp_receiving p)) <$> rd_bitcoin (dp_receiving p).

Definition for_child_index (p : DerivedInvoicePayloads) (reference : string) (child_index : Z) :
    result PersistenceError DeliveryIntentV1 :=
  bitcoin ← transpose ((λ account,
      map_err (λ _, PE_CorruptOrMissing)
        (derive_bip84_p2wpkh_address (xpub account) (account_index account) (dp_network p)
           child_index)) <$> rd_bitcoin (dp_receiving p));
  let addresses := mk_ReceivingAddresses bitcoin (rd_usdt (dp_receiving p)) in
  terms ← map_err (λ _, PE_CorruptOrMissing)
            (payment_request_terms (dp_network p) reference (dp_request p) (dp_lock p)
               addresses (dp_rates p));
  map_err (λ _, PE_CorruptOrMissing)
    (payment_request (reader_to_string (cr_reader (dp_request p))) (dp_app_id p) terms).

(** ** The service *)

Record AtomicInvoiceInput := mk_AtomicInvoiceInput {
  ai_creator : CreatorPubky;
  ai_reader : ReaderPubky;
  ai_bundle_binding : string;
  ai_lock_resource_binding : string;
  ai_payment_request_binding : string;
  ai_payloads : DerivedInvoicePayloads;
  ai_proposal_acceptance_seconds : Z;
  ai_payment_window_seconds : Z;
}.

(** The configuration of a service; durations are nanoseconds. *)
Record CreateInvoiceService := mk_CreateInvoiceService {
  sv_app_id : PaykitAppId;
  sv_usdt_enabled : bool;
  sv_has_rates : bool;
  sv_bitcoin_network : BitcoinNetwork;
  sv_proposal_acceptance_window : Z;
  sv_payment_window : Z;
  sv_conversion_payment_window : Z;
}.

Inductive Call : Type → Type :=
| Now : Call Z
(* under [tokio::time::timeout(budget, ...)] *)
| Preflight (budget : Z) (creator : CreatorPubky) (bundle payment : string) :
    Call (option (result PersistenceError InvoicePreflight))
| ExactReplay (budget : Z) (creator : CreatorPubky) (reader : ReaderPubky)
    (bundle payment : string) : Call (option (result PersistenceError AtomicInvoiceResult))
| ValidateSession (budget : Z) (creator : CreatorPubky) :
    Call (option (result SessionValidationError unit))
| FetchLock (budget : Z) (resource : PubkyLockResource) :
    Call (option (result LockFetchError ContentLock))
| Discover (budget : Z) (reader : ReaderPubky) :
    Call (option (result RegistryDiscoveryError (option PaykitAppRegistry)))
| RetryWait (budget : Z) (retry_index : nat) : Call (option unit)
| Authorization (budget : Z) (reader : ReaderPubky) :
    Call (option (result RegistryDiscoveryError ReaderAuthorization))
| Receiving (budget : Z) (creator : CreatorPubky) :
    Call (option (result PersistenceError ReceivingDetails))
| UsdPerBtc (budget : Z) : Call (option (result CreateInvoiceError string))
(* awaited without a timeout *)
| CreateAtomic (input : AtomicInvoiceInput) :
    Call (result PersistenceError AtomicInvoiceResult).

Notation M A := (prog Call A).

(** [remaining_at(started, self.clock.now(), ..)?] and then the call under the
    remaining budget. *)
Definition budgeted {A B} (started : Z) (e : Z → Call (option A))
    (k : A → M (result CreateInvoiceError B)) : M (result CreateInvoiceError B) :=
  now ⇐ call Now;
  budget ←? Ret (remaining started now);
  answer ⇐ call (e budget);
  match answer with
  | None => Ret (Err DeadlineExceeded)
  | Some a => k a
  end.

(** The registry read with its bounded retries: [more] reads are still allowed after
    this one, [retry_index] waits have been made. *)
Fixpoint discover_loop (started : Z) (reader : ReaderPubky) (more retry_index : nat) :
    M (result CreateInvoiceError PaykitAppRegistry) :=
  budgeted started (λ b, Discover b reader) (λ answer,
    match answer with
    | Ok (Some registry) => Ret (Ok registry)
    | Ok None =>
        match more with
        | O => Ret (Err ReaderSetupPending)
        | S more =>
            budgeted started (λ b, RetryWait b retry_index) (λ _,
              discover_loop started reader more (S retry_index))
        end
    | Err e => Ret (Err (map_registry e))
    end).

Definition registry_stage (started : Z) (reader : ReaderPubky) :
    M (result CreateInvoiceError PaykitAppRegistry) :=
  registry ←? discover_loop started reader (REGISTRY_READ_ATTEMPTS - 1) 0;
  Ret (if reader_is_capable registry then Ok registry else Err ReaderNotPayable).

Definition authorization_stage (started : Z) (reader : ReaderPubky) :
    M (result CreateInvoiceError unit) :=
  budgeted started (λ b, Authorization b reader) (λ answer,
    Ret (match answer with
         | Ok AuthVerified => Ok tt
         | Ok AuthMissing => Err ReaderSetupPending
         | Ok AuthInvalid => Err ReaderNotPayable
         | Err e => Err (map_registry e)
         end)).

(** The effective windows of a quote, in nanoseconds. *)
Definition cross_btc (asset : CriterionAsset) (rd : ReceivingDetails) : bool :=
  (asset_eqb asset Btc && is_some (rd_usdt rd)) || (negb (asset_eqb asset Btc) && is_some (rd_bitcoin rd)).

Definition payment_window (sv : CreateInvoiceService) (cross : bool) : Z :=
  if cross then Z.min (sv_payment_window sv) (sv_conversion_payment_window sv)
  else sv_payment_window sv.

Definition acceptance_window (sv : CreateInvoiceService) (cross : bool) : Z :=
  if cross
  then Z.min (sv_proposal_acceptance_window sv)
         (payment_window sv cross / NANOS_PER_SECOND / 2 * NANOS_PER_SECOND)
  else sv_proposal_acceptance_window sv.

Definition quote_stage (sv : CreateInvoiceService) (started : Z) (r : CreateInvoiceRequest)
    (lock : ContentLock) (asset : CriterionAsset) (rd0 : ReceivingDetails) :
    M (result CreateInvoiceError (DerivedInvoicePayloads * Z * Z)) :=
  let rd := if sv_usdt_enabled sv then rd0
            else mk_ReceivingDetails (rd_bitcoin rd0) None (rd_bitcoin_account_generation rd0) in
  if is_none (rd_bitcoin rd) && is_none (rd_usdt rd) then Ret (Err InvalidRequest)
  else
    let cross := cross_btc asset rd in
    price ←? (if cross then
                _ ←? Ret (ensure (sv_has_rates sv) Unavailable);
                budgeted started UsdPerBtc (λ answer, Ret (Some <$> answer))
              else Ret (Ok None));
    rates ←? Ret (conversion_rates asset (is_some (rd_bitcoin rd)) (is_some (rd_usdt rd)) price);
    Ret (Ok (mk_DerivedInvoicePayloads rd rates (sv_bitcoin_network sv) r lock (sv_app_id sv),
             acceptance_window sv cross, payment_window sv cross)).

(** From a new request to its transaction. *)
Definition admission (sv : CreateInvoiceService) (started : Z) (r : CreateInvoiceRequest)
    (binding : string) : M (result CreateInvoiceError AtomicInvoiceResult) :=
  let creator := resource_creator (cr_lock_resource r) in
  _ ←? budgeted started (λ b, ValidateSession b creator) (λ a, Ret (map_err map_session a));
  lock ←? budgeted started (λ b, FetchLock b (cr_lock_resource r))
            (λ a, Ret (map_err map_lock_fetch a));
  _ ←? Ret (validate_lock r lock);
  _ ←? registry_stage started (cr_reader r);
  _ ←? authorization_stage started (cr_reader r);
  asset ←? Ret ('(asset, _) ← extract_terms lock;
                ensure (negb (asset_eqb asset Usdt) || sv_usdt_enabled sv) InvalidRequest;;
                Ok asset);
  receiving ←? budgeted started (λ b, Receiving b creator) (λ a, Ret (map_err map_store a));
  quote ←? quote_stage sv started r lock asset receiving;
  let '(payloads, acceptance, payment) := quote in
  now ⇐ call Now;
  _ ←? Ret (remaining started now);
  created ⇐ call (CreateAtomic {|
    ai_creator := creator;
    ai_reader := cr_reader r;
    ai_bundle_binding := bundle_to_string (cr_bundle_id r);
    ai_lock_resource_binding := resource_to_string (cr_lock_resource r);
    ai_payment_request_binding := binding;
    ai_payloads := payloads;
    ai_proposal_acceptance_seconds := acceptance / NANOS_PER_SECOND;
    ai_payment_window_seconds := payment / NANOS_PER_SECOND;
  |});
  Ret (map_err map_store created).

Definition create (sv : CreateInvoiceService) (r : CreateInvoiceRequest) :
    M (result CreateInvoiceError AtomicInvoiceResult) :=
  started ⇐ call Now;
  let creator := resource_creator (cr_lock_resource r) in
  let bundle := bundle_to_string (cr_bundle_id r) in
  binding ←? Ret (request_binding r);
  budgeted started (λ b, Preflight b creator bundle binding) (λ answer,
    match answer with
    | Err e => Ret (Err (map_store e))
    | Ok PreflightExactReplay =>
        budgeted started (λ b, ExactReplay b creator (cr_reader r) bundle binding)
          (λ a, Ret (map_err map_store a))
    | Ok PreflightConflict => Ret (Err Conflict)
    | Ok PreflightNew => admission sv started r binding
    end).

(** ** Pure parts *)

Lemma remaining_ok start now b :
  remaining start now = Ok b → 0 < b <= REQUEST_DEADLINE ∧ now - start < REQUEST_DEADLINE.
Proof. unfold remaining. intros H. inv_ok. split_bools. lia. Qed.

(** A validated lock always yields its terms: the later [extract_terms] cannot fail. *)
(** What makes a fetched lock admissible for a request. *)
Definition lock_admissible (r : CreateInvoiceRequest) (lock : ContentLock) : Prop :=
  from_str (creator_to_string (resource_creator (cr_lock_resource r))) = Some (lock_creator lock)
  ∧ validate_paykit_payment_v1_policy lock = true
  ∧ ∃ criterion, payment_criterion lock = Ok criterion
      ∧ paykit_payment_in criterion = Some (Some (hours_get (cr_payment_in r))).

Lemma validate_lock_admissible r lock : validate_lock r lock = Ok tt → lock_admissible r lock.
Proof.
  unfold validate_lock, lock_admissible. intros H. inv_ok. split_bools. subst.
  split_and!; [done..|]. eexists. split; [done|]. by simplify_eq/=.
Qed.

Lemma validate_lock_terms r lock :
  validate_lock r lock = Ok tt → ∃ asset amount, extract_terms lock = Ok (asset, amount).
Proof.
  unfold validate_lock, extract_terms. intros H. inv_ok.
  match goal with H : payment_criterion _ = _, H' : criterion_terms _ = Ok ?p |- _ =>
    rewrite H; simpl; rewrite H'; destruct p; eauto end.
Qed.

Lemma cross_windows_bounds sv :
  0 <= sv_conversion_payment_window sv → 0 <= sv_payment_window sv →
  payment_window sv true <= sv_payment_window sv
  ∧ payment_window sv true <= sv_conversion_payment_window sv
  ∧ 2 * (acceptance_window sv true / NANOS_PER_SECOND) <= payment_window sv true / NANOS_PER_SECOND.
Proof.
  intros Hc Hp. unfold acceptance_window, payment_window, NANOS_PER_SECOND.
  split_and!; [lia..|]. set (w := Z.min (sv_payment_window sv) _). assert (0 <= w) by lia.
  set (a := sv_proposal_acceptance_window sv). clearbody w a.
  assert (Hd : Z.min a (w / 1000000000 / 2 * 1000000000) / 1000000000 <= w / 1000000000 / 2).
  { apply Z.div_le_upper_bound; lia. }
  pose proof (Z.mul_div_le (w / 1000000000) 2). lia.
Qed.

(** ** Runs *)

(** The time budget of a call, when it has one. *)
Definition budget_of (ev : event Call) : option Z :=
  match ev with
  | Ev (Preflight b _ _ _) _ | Ev (ExactReplay b _ _ _ _) _ | Ev (ValidateSession b _) _
  | Ev (FetchLock b _) _ | Ev (Discover b _) _ | Ev (RetryWait b _) _ | Ev (Authorization b _) _
  | Ev (Receiving b _) _ | Ev (UsdPerBtc b) _ => Some b
  | Ev Now _ | Ev (CreateAtomic _) _ => None
  end.

Definition is_transaction (ev : event Call) : bool :=
  match ev with Ev (CreateAtomic _) _ => true | _ => false end.

(** The index a retry wait reads its delay cap at. *)
Definition wait_in_bounds (ev : event Call) : bool :=
  match ev with
  | Ev (RetryWait _ i) _ => (i <? length REGISTRY_RETRY_DELAY_CAPS_MS)%nat
  | _ => true
  end.

(** A call other than the transaction, under a positive budget within the deadline. *)
Definition inert (ev : event Call) : Prop :=
  is_transaction ev = false
  ∧ (∀ b, budget_of ev = Some b → 0 < b <= REQUEST_DEADLINE)
  ∧ wait_in_bounds ev = true.

Definition stage {A} (p : M (result CreateInvoiceError A)) (R : list (event Call) → A → Prop) :
    Prop :=
  ∀ tr, all_runs p (λ tr' res, ∃ evs, tr' = tr ++ evs ∧ Forall inert evs
                      ∧ match res with Ok a => R evs a | Err _ => True end) tr.

Lemma stage_try {A B} (p : M (result CreateInvoiceError A)) R
    (k : A → M (result CreateInvoiceError B)) Q tr :
  stage p R →
  (∀ evs a, Forall inert evs → R evs a → all_runs (k a) Q (tr ++ evs)) →
  (∀ evs e, Forall inert evs → Q (tr ++ evs) (Err e)) →
  all_runs (try_bind k p) Q tr.
Proof.
  intros Hp Hk He. apply all_runs_try. eapply all_runs_mono; [|exact (Hp tr)].
  intros tr' [a|e] (evs & -> & Hi & HR); [by apply Hk|by apply He].
Qed.

Lemma stage_bind {A B} (p : M (result CreateInvoiceError A)) R
    (k : A → M (result CreateInvoiceError B)) (R' : list (event Call) → B → Prop) :
  stage p R → (∀ evs a, R evs a → stage (k a) (λ evs' b, R' (evs ++ evs') b)) →
  stage (try_bind k p) R'.
Proof.
  intros Hp Hk tr. eapply stage_try; [exact Hp| |].
  - intros evs a Hi HR. eapply all_runs_mono; [|exact (Hk evs a HR (tr ++ evs))].
    intros tr' res (evs' & -> & Hi' & HR'). exists (evs ++ evs'). rewrite app_assoc.
    split_and!; [done|by apply Forall_app_2|done].
  - intros evs e Hi. exists evs. done.
Qed.

Lemma stage_ret {A} (r : result CreateInvoiceError A) (R : list (event Call) → A → Prop) :
  (∀ a, r = Ok a → R [] a) → stage (Ret r) R.
Proof.
  intros H tr. exists []. rewrite app_nil_r. split_and!; [done|constructor|].
  destruct r; auto.
Qed.

(** One budgeted call followed by any stage. *)
Lemma stage_budgeted {A B} started (e : Z → Call (option A))
    (k : A → M (result CreateInvoiceError B)) (R : list (event Call) → B → Prop) :
  (∀ b x, is_transaction (Ev (e b) x) = false ∧ budget_of (Ev (e b) x) = Some b
          ∧ wait_in_bounds (Ev (e b) x) = true) →
  (∀ now b a, remaining started now = Ok b →
     stage (k a) (λ evs v, R ([Ev Now now; Ev (e b) (Some a)] ++ evs) v)) →
  stage (budgeted started e k) R.
Proof.
  intros He Hk tr. unfold budgeted, try_bind. intros now.
  assert (Hnow : inert (Ev Now now)) by (split_and!; done).
  simpl. destruct (remaining started now) as [b|err] eqn:Hb; simpl.
  2: { exists [Ev Now now]. split_and!; [done| |done]. by repeat constructor. }
  destruct (remaining_ok _ _ _ Hb) as [Hbound _]. intros x.
  assert (Hx : Forall inert [Ev Now now; Ev (e b) x]).
  { destruct (He b x) as (H1 & H2 & H3). constructor; [done|]. constructor; [|constructor].
    split_and!; [done| |done]. intros b'. rewrite H2. by intros [= <-]. }
  rewrite <- app_assoc. destruct x as [a|].
  - eapply all_runs_mono; [|exact (Hk now b a Hb (tr ++ [Ev Now now; Ev (e b) (Some a)]))].
    intros tr' res (evs & -> & Hi & HR). exists ([Ev Now now; Ev (e b) (Some a)] ++ evs).
    rewrite <- app_assoc. split_and!; [done|by apply Forall_app_2|done].
  - by exists [Ev Now now; Ev (e b) None].
Qed.

(** A budgeted call whose answer is decoded by a pure function. *)
Lemma stage_call {A B} started (e : Z → Call (option A)) (f : A → result CreateInvoiceError B) :
  (∀ b x, is_transaction (Ev (e b) x) = false ∧ budget_of (Ev (e b) x) = Some b
          ∧ wait_in_bounds (Ev (e b) x) = true) →
  stage (budgeted started e (λ a, Ret (f a)))
    (λ evs v, ∃ b a, Ev (e b) (Some a) ∈ evs ∧ f a = Ok v).
Proof.
  intros He. apply stage_budgeted; [done|]. intros now b a _. apply stage_ret.
  intros v Hv. exists b, a. split; [|done]. set_solver.
Qed.

Lemma stage_discover started reader more retry_index :
  (retry_index + more = length REGISTRY_RETRY_DELAY_CAPS_MS)%nat →
  stage (discover_loop started reader more retry_index)
    (λ evs registry, ∃ b, Ev (Discover b reader) (Some (Ok (Some registry))) ∈ evs).
Proof.
  revert retry_index. induction more as [|more IH]; intros retry_index Hlen;
    (apply stage_budgeted; [done|]); intros now b [[registry|]|e] _;
    try (apply stage_ret; intros ? [=]; subst; exists b; set_solver).
  apply stage_budgeted.
  { intros b' x. split_and!; [done..|]. simpl. apply Nat.ltb_lt. simpl in Hlen. lia. }
  intros now' b' u _ tr.
  eapply all_runs_mono; [|apply (IH (S retry_index)); simpl in *; lia].
  intros tr' res (evs & -> & Hi & HR). exists evs. split_and!; [done|done|].
  destruct res; [|done]. destruct HR as (b'' & Hin). exists b''. set_solver.
Qed.

Lemma stage_registry started reader :
  stage (registry_stage started reader)
    (λ evs registry, (∃ b, Ev (Discover b reader) (Some (Ok (Some registry))) ∈ evs)
                     ∧ reader_is_capable registry = true).
Proof.
  eapply stage_bind; [by apply stage_discover|]. intros evs registry (b & Hin).
  destruct (reader_is_capable registry) eqn:Hc; apply stage_ret; intros v [=]; subst.
  rewrite app_nil_r. eauto.
Qed.

Lemma stage_authorization started reader :
  stage (authorization_stage started reader)
    (λ evs _, ∃ b, Ev (Authorization b reader) (Some (Ok AuthVerified)) ∈ evs).
Proof.
  apply stage_budgeted; [done|]. intros now b [[| |]|e] _; apply stage_ret; intros ? [=].
  exists b. set_solver.
Qed.

(** What a quote promises. *)
Definition quoted (sv : CreateInvoiceService) (r : CreateInvoiceRequest) (lock : ContentLock)
    (asset : CriterionAsset) (rd0 : ReceivingDetails) (q : DerivedInvoicePayloads * Z * Z) : Prop :=
  let '(payloads, acceptance, payment) := q in
  let rd := dp_receiving payloads in
  dp_request payloads = r ∧ dp_lock payloads = lock
  ∧ rd_bitcoin rd = rd_bitcoin rd0
  ∧ rd_usdt rd = (if sv_usdt_enabled sv then rd_usdt rd0 else None)
  ∧ (rd_bitcoin rd ≠ None ∨ rd_usdt rd ≠ None)
  ∧ (∃ price, conversion_rates asset (is_some (rd_bitcoin rd)) (is_some (rd_usdt rd)) price
              = Ok (dp_rates payloads) ∧ is_some price = cross_btc asset rd)
  ∧ acceptance = acceptance_window sv (cross_btc asset rd)
  ∧ payment = payment_window sv (cross_btc asset rd).

Lemma stage_quote sv started r lock asset rd0 :
  stage (quote_stage sv started r lock asset rd0) (λ _ q, quoted sv r lock asset rd0 q).
Proof.
  unfold quote_stage. set (rd := if sv_usdt_enabled sv then _ else _).
  assert (Hrd : rd_bitcoin rd = rd_bitcoin rd0
                ∧ rd_usdt rd = (if sv_usdt_enabled sv then rd_usdt rd0 else None)).
  { unfold rd. by destruct (sv_usdt_enabled sv). }
  clearbody rd. destruct Hrd as [Hb Hu].
  destruct (is_none (rd_bitcoin rd) && is_none (rd_usdt rd)) eqn:Hnone; [by apply stage_ret|].
  assert (Hsome : rd_bitcoin rd ≠ None ∨ rd_usdt rd ≠ None).
  { destruct (rd_bitcoin rd); [by left|]. destruct (rd_usdt rd); [by right|done]. }
  eapply (stage_bind _ (λ _ price, is_some price = cross_btc asset rd)).
  - destruct (cross_btc asset rd); [|by apply stage_ret; intros ? [= <-]].
    eapply (stage_bind _ (λ _ _, True)); [by apply stage_ret|]. intros _ _ _.
    apply stage_budgeted; [done|]. intros now b [price|e] _; apply stage_ret; by intros ? [= <-].
  - intros evs price Hprice.
    eapply (stage_bind _ (λ _ rates, conversion_rates asset (is_some (rd_bitcoin rd))
              (is_some (rd_usdt rd)) price = Ok rates)); [by apply stage_ret|].
    intros _ rates Hrates. apply stage_ret. intros q [= <-]. simpl. eauto 10.
Qed.

(** ** Admission *)

(** Everything that was established before the transaction was started. *)
Record admitted (sv : CreateInvoiceService) (r : CreateInvoiceRequest) (started : Z)
    (binding : string) (input : AtomicInvoiceInput) (pre : list (event Call)) : Prop := {
  ad_session : ∃ b, Ev (ValidateSession b (resource_creator (cr_lock_resource r))) (Some (Ok tt)) ∈ pre;
  ad_registry : ∃ b registry, Ev (Discover b (cr_reader r)) (Some (Ok (Some registry))) ∈ pre
                              ∧ reader_is_capable registry = true;
  ad_authorization : ∃ b, Ev (Authorization b (cr_reader r)) (Some (Ok AuthVerified)) ∈ pre;
  ad_quote : ∃ b b' lock asset amount rd acceptance payment,
    Ev (FetchLock b (cr_lock_resource r)) (Some (Ok lock)) ∈ pre
    ∧ lock_admissible r lock ∧ extract_terms lock = Ok (asset, amount)
    ∧ (asset = Usdt → sv_usdt_enabled sv = true)
    ∧ Ev (Receiving b' (resource_creator (cr_lock_resource r))) (Some (Ok rd)) ∈ pre
    ∧ quoted sv r lock asset rd (ai_payloads input, acceptance, payment)
    ∧ ai_proposal_acceptance_seconds input = acceptance / NANOS_PER_SECOND
    ∧ ai_payment_window_seconds input = payment / NANOS_PER_SECOND;
  ad_deadline : ∃ now, last pre = Some (Ev Now now) ∧ now - started < REQUEST_DEADLINE;
  ad_identity : ai_creator input = resource_creator (cr_lock_resource r)
    ∧ ai_reader input = cr_reader r
    ∧ ai_bundle_binding input = bundle_to_string (cr_bundle_id r)
    ∧ ai_lock_resource_binding input = resource_to_string (cr_lock_resource r)
    ∧ ai_payment_request_binding input = binding;
}.

(** The runs of [admission]: an error before the transaction, or the transaction last. *)
Definition admission_run (sv : CreateInvoiceService) (r : CreateInvoiceRequest) (started : Z)
    (binding : string) (tr0 tr : list (event Call))
    (res : result CreateInvoiceError AtomicInvoiceResult) : Prop :=
  (∃ evs e, tr = tr0 ++ evs ∧ Forall inert evs ∧ res = Err e)
  ∨ ∃ evs input x, tr = tr0 ++ evs ++ [Ev (CreateAtomic input) x] ∧ Forall inert evs
      ∧ res = map_err map_store x ∧ admitted sv r started binding input evs.

Lemma inert_now now : inert (Ev Now now).
Proof. by split_and!. Qed.

Ltac close_err :=
  intros; left; eexists _, _; split_and!; [symmetry; apply app_assoc|by apply Forall_app_2|done].

Lemma admit_runs sv started r binding tr0 :
  all_runs (admission sv started r binding) (admission_run sv r started binding tr0) tr0.
Proof.
  unfold admission. set (creator := resource_creator (cr_lock_resource r)).
  eapply stage_try; [by apply stage_call| |intros evs e ?; left; by exists evs, e].
  intros evs1 [] Hi1 (b1 & [[]|] & Hin1 & Hf1); [|done].
  eapply stage_try; [by apply stage_call| |close_err].
  intros evs2 lock Hi2 (b2 & [lock'|] & Hin2 & Hf2); simpl in Hf2; [|done].
  injection Hf2 as ->. rewrite <- app_assoc.
  assert (Hi12 : Forall inert (evs1 ++ evs2)) by (by apply Forall_app_2).
  apply runs_pure; [intros [] Hlock|intros e _; by left; exists (evs1 ++ evs2), e].
  eapply stage_try; [apply stage_registry| |close_err].
  intros evs3 registry Hi3 [[b3 Hin3] Hcap].
  rewrite <- app_assoc. pose proof (Forall_app_2 _ _ _ Hi12 Hi3) as Hi123.
  eapply stage_try; [apply stage_authorization| |close_err].
  intros evs4 [] Hi4 [b4 Hin4]. rewrite <- app_assoc.
  pose proof (Forall_app_2 _ _ _ Hi123 Hi4) as Hi1234.
  apply runs_pure; [intros asset Hasset|intros e _; left; eexists _, _; done].
  destruct (validate_lock_terms r lock Hlock) as (asset' & amount & Hterms).
  apply validate_lock_admissible in Hlock.
  rewrite Hterms in Hasset. simpl in Hasset.
  apply bind_ok in Hasset as ([] & Hen%ensure_ok & [= ->]).
  eapply stage_try; [by apply stage_call| |close_err].
  intros evs5 rd Hi5 (b5 & [rd'|] & Hin5 & Hf5); simpl in Hf5; [|done].
  injection Hf5 as ->. rewrite <- app_assoc.
  pose proof (Forall_app_2 _ _ _ Hi1234 Hi5) as Hi12345.
  eapply stage_try; [apply stage_quote| |close_err].
  intros evs6 [[payloads acceptance] payment] Hi6 Hq. rewrite <- app_assoc.
  pose proof (Forall_app_2 _ _ _ Hi12345 Hi6) as Hi.
  set (evs := ((((evs1 ++ evs2) ++ evs3) ++ evs4) ++ evs5) ++ evs6) in *.
  intros now. rewrite <- app_assoc.
  assert (Hnow : Forall inert (evs ++ [Ev Now now])).
  { apply Forall_app_2; [done|]. apply Forall_singleton, inert_now. }
  apply runs_pure; [intros budget Hrem|intros e _; left; eexists _, _; done].
  intros x. right. eexists (evs ++ [Ev Now now]), _, x.
  split_and!; [by rewrite <- app_assoc|done|done|].
  destruct (remaining_ok _ _ _ Hrem) as [_ Hlt].
  split; simpl; try done.
  - exists b1. unfold evs. set_solver.
  - exists b3, registry. split; [unfold evs; set_solver|done].
  - exists b4. unfold evs. set_solver.
  - exists b2, b5, lock, asset, amount, rd, acceptance, payment.
    split_and!; try done; unfold evs; set_solver.
  - exists now. split; [apply last_snoc|done].
Qed.

Lemma admitted_app sv r started binding input l evs :
  admitted sv r started binding input evs → admitted sv r started binding input (l ++ evs).
Proof.
  assert (Hm : ∀ ev, ev ∈ evs → ev ∈ l ++ evs) by (intros; apply elem_of_app; by right).
  intros [(b & Hx1) (b2 & reg & Hx2 & Hy2) (b3 & Hx3)
    (b4 & b5 & lock & asset & amount & rd & acc & pay & Hx4 & ? & ? & ? & Hx5 & ? & ? & ?)
    (now & Hx6 & ?) ?].
  split; [eauto..| | |done].
  - exists b4, b5, lock, asset, amount, rd, acc, pay. auto 10.
  - exists now. split; [|done]. by rewrite last_app, Hx6.
Qed.

(** The runs of [create]. *)
Definition creation_run (sv : CreateInvoiceService) (r : CreateInvoiceRequest)
    (tr : list (event Call)) (res : result CreateInvoiceError AtomicInvoiceResult) : Prop :=
  (Forall inert tr
   ∧ ∀ created, res = Ok created →
       ∃ b b' binding, request_binding r = Ok binding
         ∧ Ev (Preflight b (resource_creator (cr_lock_resource r))
                 (bundle_to_string (cr_bundle_id r)) binding) (Some (Ok PreflightExactReplay)) ∈ tr
         ∧ last tr = Some (Ev (ExactReplay b' (resource_creator (cr_lock_resource r)) (cr_reader r)
                                 (bundle_to_string (cr_bundle_id r)) binding)
                              (Some (Ok created))))
  ∨ ∃ started b binding pre input x,
      tr = Ev Now started :: pre ++ [Ev (CreateAtomic input) x] ∧ Forall inert pre
      ∧ request_binding r = Ok binding
      ∧ Ev (Preflight b (resource_creator (cr_lock_resource r))
              (bundle_to_string (cr_bundle_id r)) binding) (Some (Ok PreflightNew)) ∈ pre
      ∧ res = map_err map_store x
      ∧ admitted sv r started binding input pre.

Ltac inert_list :=
  simpl; repeat first [apply Forall_nil_2 | assumption | apply Forall_cons_2; [solve [auto]|]].

Lemma create_runs sv r : all_runs (create sv r) (creation_run sv r) [].
Proof.
  unfold create. intros started. simpl app.
  assert (Hstart : inert (Ev Now started)) by apply inert_now.
  apply runs_pure; [intros binding Hbind|intros e _; left; split; [inert_list|done]].
  set (creator := resource_creator (cr_lock_resource r)).
  set (bundle := bundle_to_string (cr_bundle_id r)).
  unfold budgeted at 1. intros now. simpl app.
  assert (Hnow : inert (Ev Now now)) by apply inert_now.
  apply runs_pure; [intros budget Hrem|intros e _; left; split; [inert_list|done]].
  destruct (remaining_ok _ _ _ Hrem) as [Hb _].
  intros answer. simpl app.
  assert (Hpre : ∀ x, inert (Ev (Preflight budget creator bundle binding) x)).
  { intros x. split_and!; [done| |done]. by intros ? [= <-]. }
  destruct answer as [[[]|e]|];
    try (left; split; [inert_list|done]).
  - (* new *)
    eapply all_runs_mono; [|apply (admit_runs sv started r binding)].
    intros tr res [(evs & e & -> & Hi & ->)|(evs & input & x & -> & Hi & Hres & Had)].
    + left. split; [|done]. simpl. inert_list.
    + right. exists started, budget, binding,
        ([Ev Now now; Ev (Preflight budget creator bundle binding) (Some (Ok PreflightNew))] ++ evs),
        input, x.
      split_and!; [done|inert_list|done|set_solver|done|]. by apply admitted_app.
  - (* replay *)
    unfold budgeted. intros now'. simpl app.
    assert (Hnow' : inert (Ev Now now')) by apply inert_now.
    apply runs_pure; [intros budget' Hrem'|intros e _; left; split; [inert_list|done]].
    destruct (remaining_ok _ _ _ Hrem') as [Hb' _]. intros x. simpl app.
    assert (Hrep : inert (Ev (ExactReplay budget' creator (cr_reader r) bundle binding) x)).
    { split_and!; [done| |done]. by intros ? [= <-]. }
    destruct x as [[created|e]|]; simpl; left; (split; [inert_list|]); [|done..].
    intros created' [= <-]. exists budget, budget', binding. split_and!; [done|set_solver|done].
Qed.

(** C8: an invoice is created only for an admitted request.  Whatever the clock, the
    stores and the remote services answer, [create] starts the invoice transaction at
    most once and as its last call; before it, in this run, the request was new, the
    Creator's session was valid, the fetched lock was the Creator's own and asked for
    exactly the request's payment window, the Reader had a capable app and a verified
    authorization, the quote was computed for the receiving details just read, and
    the request deadline had not passed.  Without the transaction, [create] succeeds
    only as an exact replay of a stored invoice. *)
Theorem create_commits_only_admitted {S} (h : ∀ X, Call X → S → X * S) s s' sv r tr res :
  exec h (create sv r) s = (res, s', tr) → creation_run sv r tr res.
Proof. apply exec_all_runs, create_runs. Qed.

(** the request deadline bounds every wait.  Each call other than the transaction
    runs under a positive budget of at most fifteen seconds, no retry delay is read
    out of the bounds of its table, and the transaction is started at most once. *)
Theorem create_calls_bounded {S} (h : ∀ X, Call X → S → X * S) s s' sv r tr res :
  exec h (create sv r) s = (res, s', tr) →
  (∀ ev, ev ∈ tr → wait_in_bounds ev = true
                   ∧ ∀ b, budget_of ev = Some b → 0 < b <= REQUEST_DEADLINE)
  ∧ (length (filter (λ ev, is_transaction ev = true) tr) <= 1)%nat.
Proof.
  intros H. assert (Hrun : creation_run sv r tr res) by (revert H; apply exec_all_runs, create_runs).
  assert (Hin : ∀ l, Forall inert l → ∀ ev, ev ∈ l → wait_in_bounds ev = true
                   ∧ ∀ b, budget_of ev = Some b → 0 < b <= REQUEST_DEADLINE).
  { intros l Hl ev Hev. rewrite Forall_forall in Hl. by destruct (Hl ev Hev) as (_ & ? & ?). }
  assert (Hno : ∀ l, Forall inert l → filter (λ ev, is_transaction ev = true) l = []).
  { induction 1 as [|ev l (Hev & _) _ IH]; [done|]. rewrite filter_cons_False; [done|].
    by rewrite Hev. }
  destruct Hrun as [[Hi _]|(started & b & binding & pre & input & x & -> & Hi & _)].
  - split; [by apply Hin|]. rewrite Hno by done. simpl. lia.
  - assert (Hall : Forall inert (Ev Now started :: pre)) by (constructor; [apply inert_now|done]).
    split.
    + rewrite app_comm_cons. intros ev [Hev|Hev]%elem_of_app; [by apply (Hin _ Hall)|].
      by apply list_elem_of_singleton in Hev as ->.
    + rewrite app_comm_cons, filter_app, Hno by done. simpl. lia.
Qed.

(** Calls that read the Reader's registry. *)
Definition is_discover (ev : event Call) : bool :=
  match ev with Ev (Discover _ _) _ => true | _ => false end.

Definition discovers (tr : list (event Call)) : nat := length (filter (λ ev, is_discover ev = true) tr).

Lemma discover_loop_reads started reader more retry_index tr :
  all_runs (discover_loop started reader more retry_index)
    (λ tr' _, (discovers tr' <= discovers tr + S more)%nat) tr.
Proof.
  assert (Hd : ∀ l ev, discovers (l ++ [ev]) = (discovers l + if is_discover ev then 1 else 0)%nat).
  { intros l ev. unfold discovers. rewrite filter_app, length_app. f_equal.
    rewrite filter_cons. destruct (is_discover ev); [by case_decide|by case_decide]. }
  revert retry_index tr. induction more as [|more IH]; intros retry_index tr; simpl;
    unfold try_bind; simpl; intros now; (destruct (remaining started now); simpl; [|rewrite !Hd; simpl; lia]);
    intros [[[registry|]|e]|]; simpl; rewrite ?Hd; simpl; try lia.
  intros now'. destruct (remaining started now'); simpl; [|rewrite !Hd; simpl; lia].
  intros [[]|]; [|simpl; rewrite !Hd; simpl; lia].
  eapply all_runs_mono; [|apply IH]. simpl. intros tr' _. rewrite !Hd. simpl. lia.
Qed.

(** at most three registry reads.  However the Reader's homeserver answers, one
    admission reads the registry at most three times and then gives up. *)
Theorem registry_reads_bounded {S} (h : ∀ X, Call X → S → X * S) s s' started reader tr res :
  exec h (registry_stage started reader) s = (res, s', tr) →
  (discovers tr <= REGISTRY_READ_ATTEMPTS)%nat.
Proof.
  apply (exec_all_runs h _ (λ tr _, (discovers tr <= REGISTRY_READ_ATTEMPTS)%nat)).
  apply all_runs_try. eapply all_runs_mono; [|apply discover_loop_reads].
  intros tr' [registry|e] H; exact H.
Qed.

(** a conversion quote narrows the windows.  When the payment may cross the BTC
    rate, the recorded payment window is within both configured windows and the
    acceptance window is at most half of it, so an accepted proposal keeps at least
    half of the window for payment; otherwise the configured windows are used. *)
Theorem quote_windows sv r lock asset rd payloads acceptance payment :
  0 <= sv_conversion_payment_window sv → 0 <= sv_payment_window sv →
  quoted sv r lock asset rd (payloads, acceptance, payment) →
  (if cross_btc asset (dp_receiving payloads)
   then payment <= sv_payment_window sv ∧ payment <= sv_conversion_payment_window sv
        ∧ 2 * (acceptance / NANOS_PER_SECOND) <= payment / NANOS_PER_SECOND
   else payment = sv_payment_window sv ∧ acceptance = sv_proposal_acceptance_window sv).
Proof.
  intros Hc Hp (_ & _ & _ & _ & _ & _ & -> & ->).
  destruct (cross_btc asset (dp_receiving payloads)); [|done]. by apply cross_windows_bounds.
Qed.

(** allocated payloads are valid and addressed correctly.  The delivery intent
    built for an allocated child index is a valid proposal to the request's own
    Reader under the server's app; its Bitcoin address, if any, was derived from an
    account key of depth three on the configured network, at the persisted account
    index, for a non-hardened child index, so distinct invoices never share a path
    by truncation. *)
Theorem for_child_index_sound p reference child intent :
  for_child_index p reference child = Ok intent →
  intent_valid intent ∧ is_proposal intent = true
  ∧ reader_pubky intent = reader_to_string (cr_reader (dp_request p))
  ∧ ∀ account, rd_bitcoin (dp_receiving p) = Some account →
      0 <= child < child_index_bound
      ∧ ∃ key address, xpub_from_str (xpub account) = Some key ∧ xpub_depth key = 3
          ∧ xpub_is_main key = bool_decide (dp_network p = Mainnet)
          ∧ xpub_hardened_index key = Some (account_index account)
          ∧ derive_p2wpkh key 0 child (dp_network p) = Some address.
Proof.
  unfold for_child_index. intros H. apply bind_ok in H as (bitcoin & Hbtc & H).
  apply bind_ok in H as (terms & Hterms & H%map_err_ok).
  destruct (payment_request_valid _ _ _ _ H) as (Hv%validate_ok & Hr & Hp).
  split_and!; [done..|]. intros account Hacc. rewrite Hacc in Hbtc. simpl in Hbtc.
  destruct (derive_bip84_p2wpkh_address _ _ _ _) as [address|] eqn:Hd; [|done].
  unfold derive_bip84_p2wpkh_address in Hd.
  apply bind_ok in Hd as ([] & Hidx%ensure_ok & Hd).
  apply bind_ok in Hd as (key & Hkey%ok_or_ok & Hd).
  destruct (negb (Bool.eqb _ _) || negb (xpub_depth key =? 3)) eqn:Hnet; [done|].
  inv_ok. split_bools.
  split; [lia|]. exists key, address. split_and!; [done|done| |done|done].
  by apply Bool.eqb_prop.
Qed.

End create.

(** ** Witnesses *)

#[local] Existing Instance Example_core.example_core.
#[local] Existing Instance Example_lib.example_lib.

Module Example_create.

(** A lock is its creator, asset and amount texts and window; one criterion. *)
#[global] Instance example_locks : ContentLocks := {|
  ContentLock := string * string * string * Z;
  Criterion := string * string * string * Z;
  lock_creator := λ l, l.1.1.1;
  criteria := λ l, [l];
  validate_paykit_payment_v1_policy := λ _, true;
  is_paykit_payment := λ _, true;
  param_str := λ c k, if String.eqb k "asset" then Some c.1.1.2
                      else if String.eqb k "amount" then Some c.1.2 else None;
  paykit_payment_in := λ c, Some (Some c.2);
|}.

#[global] Instance example_bip32 : Bip32 := {|
  Xpub := string;
  xpub_from_str := Some;
  xpub_is_main := λ _, true;
  xpub_depth := λ _, 3;
  xpub_hardened_index := λ _, Some 0;
  derive_p2wpkh := λ _ _ i _, Some ("bc1q" +:+ fmt_dec i);
|}.

Definition canonical_json : list (string * (string + Z)) → option string := λ _, Some "binding".

Definition json_object : list (string * string) → string := λ _, "{}".

Definition metadata_object : list (string * string) → Metadata := λ _, tt.

Definition request : CreateInvoiceRequest :=
  mk_CreateInvoiceRequest (mk_BundleId "bundle")
    (mk_PubkyLockResource "creator" (mk_CreatorPubky "creator"))
    (mk_ReaderPubky "reader") (mk_CriterionPaymentWindowHours 24).

Definition lock : ContentLock := ("creator", "USD", "500", 24).

Definition account : BitcoinAccount := mk_BitcoinAccount "xpub" 0.

Definition receiving : ReceivingDetails := mk_ReceivingDetails (Some account) None 0.

Definition service : CreateInvoiceService :=
  mk_CreateInvoiceService PAYKIT_APP_ID false true Mainnet 600000000000 86400000000000 3600000000000.

Definition created : AtomicInvoiceResult := mk_AtomicInvoiceResult 5 1 2 0 0 3600000000000 false.

Definition registry : PaykitAppRegistry :=
  mk_PaykitAppRegistry (Some "key") [("wallet", mk_PaykitAppCapabilities true true)].

(** Every service answers at once; the state counts the clock readings. *)
Definition handler (X : Type) (e : Call X) (s : Z) : X * Z :=
  match e in Call Y return Y * Z with
  | Now => (s, s + 1)
  | Preflight _ _ _ _ => (Some (Ok PreflightNew), s)
  | ExactReplay _ _ _ _ _ => (Some (Ok created), s)
  | ValidateSession _ _ => (Some (Ok tt), s)
  | FetchLock _ _ => (Some (Ok lock), s)
  | Discover _ _ => (Some (Ok (if s <=? 6 then None else Some registry)), s)
  | RetryWait _ _ => (Some tt, s)
  | Authorization _ _ => (Some (Ok AuthVerified), s)
  | Receiving _ _ => (Some (Ok receiving), s)
  | UsdPerBtc _ => (Some (Ok "81000.00"), s)
  | CreateAtomic _ => (Ok created, s)
  end.

Definition run := exec handler (create canonical_json service request) 0.

Definition payloads (network : BitcoinNetwork) : DerivedInvoicePayloads :=
  mk_DerivedInvoicePayloads receiving [] network request lock PAYKIT_APP_ID.

End Example_create.

Lemma create_commits_only_admitted_witness :
  Example_create.run.1.1 = Ok Example_create.created
  ∧ creation_run Example_create.canonical_json Example_create.service Example_create.request
      Example_create.run.2 Example_create.run.1.1.
Proof.
  split; [vm_compute; reflexivity|].
  exact (create_commits_only_admitted _ Example_create.handler 0 _ _ _ _ _ (surjective_pairing_3 _)).
Defined.

Lemma create_calls_bounded_witness :
  (length (filter (λ ev, is_transaction ev = true) Example_create.run.2) <= 1)%nat.
Proof.
  exact (proj2 (create_calls_bounded _ Example_create.handler 0 _ _ _ _ _ (surjective_pairing_3 _))).
Defined.

Lemma registry_reads_bounded_witness :
  (discovers (exec Example_create.handler (registry_stage 0%Z (mk_ReaderPubky "reader")) 0%Z).2 <= 3)%nat.
Proof.
  exact (registry_reads_bounded Example_create.handler 0 _ 0 _ _ _ (surjective_pairing_3 _)).
Defined.

Lemma for_child_index_sound_witness :
  0 <= 7 < child_index_bound.
Proof.
  assert (H : is_ok (for_child_index Example_create.json_object Example_create.metadata_object
    PAYKIT_APP_ID (Example_create.payloads Mainnet) "7cceb26d" 7) = true) by (vm_compute; reflexivity).
  destruct (for_child_index Example_create.json_object Example_create.metadata_object
    PAYKIT_APP_ID (Example_create.payloads Mainnet) "7cceb26d" 7) as [intent|e] eqn:E; [|discriminate H].
  exact (proj1 (proj2 (proj2 (proj2 (for_child_index_sound _ _ _ _ _ _ _ E)))
                 Example_create.account eq_refl)).
Defined.

Lemma quote_windows_witness :
  2 * (600000000000 / NANOS_PER_SECOND) <= 3600000000000 / NANOS_PER_SECOND.
Proof.
  refine (proj2 (proj2 (quote_windows Example_create.service Example_create.request
    Example_create.lock Usd Example_create.receiving
    (mk_DerivedInvoicePayloads Example_create.receiving [mk_ConversionRate "btc" "0.000012345679012346"]
       Mainnet Example_create.request Example_create.lock PAYKIT_APP_ID)
    600000000000 3600000000000 _ _ _))); [apply Z.leb_le; vm_compute; reflexivity..|].
  split_and!; try reflexivity; [by left|].
  exists (Some "81000.00"). split; vm_compute; reflexivity.
Defined.
