(* ===== verification/PaymentRecord.v ===== *)
(** * PaymentRecord: the accounting record of an invoice ([persistence/invoices.rs])

    When an invoice (or a Marketplace preparation) is allocated, the addresses and
    the exact amounts of its payment options are read back from the delivery intent
    that will be sent and are stored, encrypted, beside it.  The observers compare
    the chain against this record.  [serde_json] is a parameter. *)

From S2P Require Import Prelude Text Locks Invoice Receiving Payment Lifecycle Pricing Intent Database.
Local Open Scope string_scope.
Local Open Scope Z_scope.

Record PaymentDestination := mk_PaymentDestination {
  pd_address : string;
  pd_required_amount : Z;
}.

Record InvoicePaymentRecordV1 := mk_InvoicePaymentRecordV1 {
  pr_version : Z;
  pr_derivation_index : Z;
  pr_bitcoin : option PaymentDestination;
  pr_usdt : option PaymentDestination;
}.

#[global] Instance PaymentDestination_eq_dec : EqDecision PaymentDestination.
Proof. solve_decision. Defined.

#[global] Instance InvoicePaymentRecordV1_eq_dec : EqDecision InvoicePaymentRecordV1.
Proof. solve_decision. Defined.

Definition is_bitcoin_identifier (identifier : string) : bool :=
  String.eqb identifier "btc-bitcoin-p2wpkh" || String.eqb identifier "btc-testnet-p2wpkh"
  || String.eqb identifier "btc-signet-p2wpkh" || String.eqb identifier "btc-regtest-p2wpkh".

Section record.
Context {core : LocksCore} {lib : PaykitLib}.
(** [serde_json::from_str], [get("value").and_then(as_str)], and equality with the
    object of the given members. *)
Context {Json : Type} (json_from_str : string → option Json)
  (json_value : Json → option string) (json_is_object : Json → list (string * string) → bool).

Definition payload_address (payload : Json) : result PersistenceError string :=
  address ← ok_or (json_value payload) PE_InvalidInput;
  ensure (negb (str_is_empty address)) PE_InvalidInput;;
  Ok address.

(** One payment endpoint of the intent. *)
Definition add_endpoint (terms : PaymentTermsV1) (requested : CriterionAsset)
    (record : InvoicePaymentRecordV1) (identifier payload_text : string) :
    result PersistenceError InvoicePaymentRecordV1 :=
  payload ← ok_or (json_from_str payload_text) PE_InvalidInput;
  address ← payload_address payload;
  asset ← (if is_bitcoin_identifier identifier then Ok Btc
           else if String.eqb identifier USDT_ENDPOINT then
             usdt ← map_err (λ _, PE_InvalidInput) (usdt_try_from address);
             ensure (json_is_object payload (usdt_endpoint usdt)) PE_InvalidInput;;
             Ok Usdt
           else Err PE_InvalidInput);
  let taken := match asset with Btc => is_some (pr_bitcoin record) | _ => is_some (pr_usdt record) end in
  ensure (negb taken) PE_InvalidInput;;
  units ← map_err (λ _, PE_InvalidInput) (payment_units (amount terms) requested asset (rates terms));
  let destination := Some (mk_PaymentDestination address units) in
  Ok (match asset with
      | Btc => mk_InvoicePaymentRecordV1 (pr_version record) (pr_derivation_index record)
                 destination (pr_usdt record)
      | _ => mk_InvoicePaymentRecordV1 (pr_version record) (pr_derivation_index record)
               (pr_bitcoin record) destination
      end).

Fixpoint add_endpoints (terms : PaymentTermsV1) (requested : CriterionAsset)
    (endpoints : list (string * string)) (record : InvoicePaymentRecordV1) :
    result PersistenceError InvoicePaymentRecordV1 :=
  match endpoints with
  | [] => Ok record
  | (identifier, payload) :: rest =>
      record ← add_endpoint terms requested record identifier payload;
      add_endpoints terms requested rest record
  end.

Definition from_intent (index : Z) (intent : DeliveryIntentV1) :
    result PersistenceError InvoicePaymentRecordV1 :=
  terms ← map_err (λ _, PE_CorruptOrMissing) (intent_terms intent);
  requested ← map_err (λ _, PE_InvalidInput) (CriterionAsset_parse (to_ascii_uppercase (asset terms)));
  ensure (bool_decide (length (accepted_endpoint_identifiers terms) = size (payment_endpoints terms)))
    PE_InvalidInput;;
  add_endpoints terms requested (map_to_list (payment_endpoints terms))
    (mk_InvoicePaymentRecordV1 1 index None None).

Definition record_usdt_address (r : InvoicePaymentRecordV1) :
    result PersistenceError (option UsdtAddress) :=
  transpose ((λ d, map_err (λ _, PE_CorruptOrMissing) (usdt_try_from (pd_address d))) <$> pr_usdt r).

Definition has_bitcoin (r : InvoicePaymentRecordV1) : bool := is_some (pr_bitcoin r).

Definition has_usdt (r : InvoicePaymentRecordV1) : bool := is_some (pr_usdt r).

Definition usdt_required_amount (r : InvoicePaymentRecordV1) : result PersistenceError Z :=
  ensure (pr_version r =? 1) PE_CorruptOrMissing;;
  ok_or (pd_required_amount <$> pr_usdt r) PE_InvalidInput.

Definition record_bitcoin_address (r : InvoicePaymentRecordV1) : result PersistenceError string :=
  ok_or (pd_address <$> pr_bitcoin r) PE_InvalidInput.

Definition bitcoin_required_amount (r : InvoicePaymentRecordV1) : result PersistenceError Z :=
  ensure (pr_version r =? 1) PE_CorruptOrMissing;;
  ok_or (pd_required_amount <$> pr_bitcoin r) PE_InvalidInput.

(** ** What the record promises *)

(** A destination of the record is one of the intent's endpoints, priced exactly. *)
Definition destination_of (terms : PaymentTermsV1) (requested payment : CriterionAsset)
    (endpoints : list (string * string)) (d : PaymentDestination) : Prop :=
  ∃ identifier payload_text payload,
    (identifier, payload_text) ∈ endpoints
    ∧ json_from_str payload_text = Some payload
    ∧ json_value payload = Some (pd_address d)
    ∧ payment_units (amount terms) requested payment (rates terms) = Ok (pd_required_amount d)
    ∧ match payment with
      | Btc => is_bitcoin_identifier identifier = true
      | _ => identifier = USDT_ENDPOINT ∧ is_ok (usdt_try_from (pd_address d)) = true
      end.

Definition destinations (r : InvoicePaymentRecordV1) : nat :=
  (if has_bitcoin r then 1 else 0) + (if has_usdt r then 1 else 0).

Lemma add_endpoint_inv terms requested r identifier payload r' :
  add_endpoint terms requested r identifier payload = Ok r' →
  pr_version r' = pr_version r ∧ pr_derivation_index r' = pr_derivation_index r
  ∧ destinations r' = S (destinations r)
  ∧ ((∃ d, pr_bitcoin r = None ∧ pr_bitcoin r' = Some d ∧ pr_usdt r' = pr_usdt r
         ∧ destination_of terms requested Btc [(identifier, payload)] d)
     ∨ (∃ d, pr_usdt r = None ∧ pr_usdt r' = Some d ∧ pr_bitcoin r' = pr_bitcoin r
         ∧ destination_of terms requested Usdt [(identifier, payload)] d)).
Proof.
  unfold add_endpoint, payload_address. intros H.
  apply bind_ok in H as (json & Hjson%ok_or_ok & H).
  apply bind_ok in H as (address & Haddr & H).
  apply bind_ok in Haddr as (a & Ha%ok_or_ok & Haddr).
  apply bind_ok in Haddr as ([] & _ & [= ->]).
  apply bind_ok in H as (asset & Hasset & H).
  apply bind_ok in H as ([] & Htaken%ensure_ok & H).
  apply bind_ok in H as (units & Hunits%map_err_ok & [= <-]).
  assert (Hin : (identifier, payload) ∈ [(identifier, payload)]) by (by apply list_elem_of_singleton).
  destruct (is_bitcoin_identifier identifier) eqn:Hbtc; simpl in *.
  - injection Hasset as <-. simpl in *.
    destruct r as [v i [b|] u]; [done|]. unfold destinations, has_bitcoin, has_usdt; simpl.
    split_and!; [done..|]. left. eexists. split_and!; [done..|].
    exists identifier, payload, json. done.
  - destruct (String.eqb identifier USDT_ENDPOINT) eqn:Hu; [|done].
    apply bind_ok in Hasset as (usdt & Husdt%map_err_ok & Hasset).
    apply bind_ok in Hasset as ([] & _ & [= <-]). simpl in *.
    destruct r as [v i b [u|]]; [done|]. unfold destinations, has_bitcoin, has_usdt; simpl.
    split_and!; [done|done|destruct b; simpl; lia|]. right. eexists. split_and!; [done..|].
    exists identifier, payload, json.
    apply String.eqb_eq in Hu. simpl. rewrite Husdt. done.
Qed.

Lemma destination_of_mono terms requested payment l l' d :
  l ⊆ l' → destination_of terms requested payment l d → destination_of terms requested payment l' d.
Proof. intros Hl (i & t & p & Hin & ?). exists i, t, p. split; [by apply Hl|done]. Qed.

Lemma add_endpoints_inv terms requested l r r' :
  add_endpoints terms requested l r = Ok r' →
  pr_version r' = pr_version r ∧ pr_derivation_index r' = pr_derivation_index r
  ∧ destinations r' = (length l + destinations r)%nat
  ∧ (∀ d, pr_bitcoin r' = Some d → pr_bitcoin r = Some d ∨ destination_of terms requested Btc l d)
  ∧ (∀ d, pr_usdt r' = Some d → pr_usdt r = Some d ∨ destination_of terms requested Usdt l d).
Proof.
  revert r. induction l as [|[i t] l IH]; intros r H; simpl in H.
  { injection H as <-. naive_solver. }
  apply bind_ok in H as (r1 & H1 & H). apply IH in H as (Hv & Hi & Hn & Hb & Hu). clear IH.
  apply add_endpoint_inv in H1 as (Hv1 & Hi1 & Hn1 & Hor).
  assert (Hc : ∀ p d, destination_of terms requested p [(i, t)] d →
                      destination_of terms requested p ((i, t) :: l) d).
  { intros p d. apply destination_of_mono. set_solver. }
  assert (Ht : ∀ p d, destination_of terms requested p l d →
                      destination_of terms requested p ((i, t) :: l) d).
  { intros p d. apply destination_of_mono. set_solver. }
  split_and!; [congruence|congruence|simpl; lia| |].
  - intros d Hd. destruct (Hb d Hd) as [Hr1|?]; [|right; auto].
    destruct Hor as [(d' & _ & Hd' & _ & Hdest)|(d' & _ & _ & Hd' & _)]; [|left; congruence].
    right. assert (d' = d) as -> by congruence. auto.
  - intros d Hd. destruct (Hu d Hd) as [Hr1|?]; [|right; auto].
    destruct Hor as [(d' & _ & _ & Hd' & _)|(d' & _ & Hd' & _ & Hdest)]; [left; congruence|].
    right. assert (d' = d) as -> by congruence. auto.
Qed.

Lemma from_intent_inv index intent r :
  from_intent index intent = Ok r →
  ∃ terms requested,
    operation intent = PaymentRequestProposal terms
    ∧ CriterionAsset_parse (to_ascii_uppercase (asset terms)) = Ok requested
    ∧ pr_version r = 1 ∧ pr_derivation_index r = index
    ∧ destinations r = size (payment_endpoints terms)
    ∧ (∀ d, pr_bitcoin r = Some d →
         destination_of terms requested Btc (map_to_list (payment_endpoints terms)) d)
    ∧ (∀ d, pr_usdt r = Some d →
         destination_of terms requested Usdt (map_to_list (payment_endpoints terms)) d).
Proof.
  unfold from_intent. intros H. apply bind_ok in H as (terms & Hterms%map_err_ok & H).
  apply bind_ok in H as (requested & Hreq%map_err_ok & H).
  apply bind_ok in H as ([] & _ & H).
  apply add_endpoints_inv in H as (Hv & Hi & Hn & Hb & Hu).
  exists terms, requested. unfold intent_terms in Hterms.
  destruct (operation intent); [|done]. injection Hterms as ->.
  split_and!; [done..| | |].
  - rewrite Hn, length_map_to_list. unfold destinations. simpl. lia.
  - intros d Hd. by destruct (Hb d Hd).
  - intros d Hd. by destruct (Hu d Hd).
Qed.

(** the accounting record is exactly what the Reader is asked to pay.  A record is
    built only if every endpoint of the intent becomes one of its destinations: the
    address is the one in the endpoint's payload, the required amount is the quoted
    payment of the requested amount at the intent's own rates, USDT addresses are
    valid, and no endpoint is dropped or counted twice. *)
Theorem payment_record_exact index intent r :
  from_intent index intent = Ok r →
  ∃ terms requested,
    operation intent = PaymentRequestProposal terms
    ∧ CriterionAsset_parse (to_ascii_uppercase (asset terms)) = Ok requested
    ∧ pr_version r = 1 ∧ pr_derivation_index r = index
    ∧ destinations r = size (payment_endpoints terms)
    ∧ (∀ d, pr_bitcoin r = Some d →
         destination_of terms requested Btc (map_to_list (payment_endpoints terms)) d)
    ∧ (∀ d, pr_usdt r = Some d →
         destination_of terms requested Usdt (map_to_list (payment_endpoints terms)) d).
Proof.
  apply from_intent_inv.
Qed.
End record.

(** ** Witness *)

#[local] Existing Instance Example_core.example_core.
#[local] Existing Instance Example_lib.example_lib.

Lemma payment_record_exact_witness :
  ∃ r, from_intent Some (λ _ : string, Some "0xfd086bc7cd5c481dcc9c85ebe478a1c0b69fcbb9")
         (λ _ _, true) 3
         (mk_DeliveryIntentV1 2 "tkrq8" PAYKIT_APP_ID
            (PaymentRequestProposal (mk_PaymentTermsV1 "5.00" "usd"
               [mk_ConversionRate "usdt" "1"] "7cceb26d" None None [USDT_ENDPOINT]
               {[USDT_ENDPOINT := "{}"]} (tt : @Metadata Example_lib.example_lib)))) = Ok r
       ∧ pr_derivation_index r = 3.
Proof.
  destruct (from_intent Some (λ _ : string, Some "0xfd086bc7cd5c481dcc9c85ebe478a1c0b69fcbb9")
         (λ _ _, true) 3
         (mk_DeliveryIntentV1 2 "tkrq8" PAYKIT_APP_ID
            (PaymentRequestProposal (mk_PaymentTermsV1 "5.00" "usd"
               [mk_ConversionRate "usdt" "1"] "7cceb26d" None None [USDT_ENDPOINT]
               {[USDT_ENDPOINT := "{}"]} (tt : @Metadata Example_lib.example_lib))))) as [r|e] eqn:E.
  - exists r. split; [reflexivity|].
    destruct (payment_record_exact _ _ _ _ _ _ E) as (? & ? & _ & _ & _ & Hi & _). exact Hi.
  - vm_compute in E. discriminate E.
Defined.
