(* ===== verification/Crypto.v ===== *)
(** * Crypto: envelopes and keyed lookups of private state ([crypto.rs])

    Every private column is an envelope: a version byte, a nonce and the ciphertext
    of an AEAD whose associated data names the kind of the envelope, the creator, the
    row and, for observations, the owning row.  Equality lookups go through keyed
    hashes separated by a domain prefix.  This file models the layout, the contexts
    and the domains; HKDF, XChaCha20-Poly1305 and HMAC-SHA256 are parameters
    ([CryptoPrimitives]).  Bytes are the characters of a [string]. *)

From S2P Require Import Prelude Text Database.
Local Open Scope string_scope.
Local Open Scope Z_scope.

(** ** Fixed-width big-endian integers *)

Definition byte_char (b : Z) : ascii := ascii_of_N (Z.to_N (b mod 256)).

(** [n.to_be_bytes()] for an integer of [w] bytes, two's complement. *)
Fixpoint be_bytes (w : nat) (n : Z) : string :=
  match w with
  | O => EmptyString
  | S w => String (byte_char (n / 256 ^ Z.of_nat w)) (be_bytes w n)
  end.

(** [Uuid::as_bytes] *)
Definition uuid_bytes (id : RowId) : string := be_bytes 16 (Z.of_N id).

(** [&s[..n]] *)
Fixpoint str_take (n : nat) (s : string) : string :=
  match n, s with
  | S n, String c s => String c (str_take n s)
  | _, _ => EmptyString
  end.

Definition is_uuid (id : RowId) : bool := Z.of_N id <? 256 ^ 16.

(** ** Primitives *)

Inductive CryptoError := InvalidConfiguration | InvalidEnvelope | AuthenticationFailed.

#[global] Instance CryptoError_eq_dec : EqDecision CryptoError.
Proof. solve_decision. Defined.

Definition ENVELOPE_VERSION : Z := 1.

Definition NONCE_LENGTH : nat := 24.

Definition TAG_LENGTH : nat := 16.

Definition DERIVED_KEY_LENGTH : nat := 32.

Definition AEAD_LABEL : string := "paykit-server/aead/v1".

Definition LOOKUP_HMAC_LABEL : string := "paykit-server/lookup-hmac/v1".

(** [hkdf], [chacha20poly1305] and [hmac]: key expansion, authenticated encryption of
    a message under associated data, keyed hash. *)
Class CryptoPrimitives := {
  hkdf_expand : string → string → option string;
  aead_encrypt : string → string → string → string → option string;
  aead_decrypt : string → string → string → string → option string;
  hmac_sha256 : string → string → string;
}.

(** The documented behaviour of an AEAD that the stores rely on: what was encrypted
    under a key, a nonce and associated data decrypts under the same three, and a
    ciphertext carries its tag. *)
Class CryptoLaws (prim : CryptoPrimitives) := {
  aead_roundtrip : ∀ key nonce aad msg ct,
    aead_encrypt key nonce aad msg = Some ct → aead_decrypt key nonce aad ct = Some msg;
  aead_tag : ∀ key nonce aad msg ct,
    aead_encrypt key nonce aad msg = Some ct → (TAG_LENGTH ≤ String.length ct)%nat;
}.

(** ** Contexts *)

(** A [LookupHash] is its 32 bytes. *)
Notation LookupHash := string (only parsing).

Inductive EnvelopeType :=
| ET_CreatorCredentials
| ET_ReaderAssignment
| ET_Invoice
| ET_InvoicePaymentRecord
| ET_BitcoinObservation
| ET_MarketplaceBitcoinObservation
| ET_UsdtObservation
| ET_MarketplaceUsdtObservation
| ET_OutboxSemanticIntent
| ET_PaymentDrain
| ET_MarketplacePreparation
| ET_MarketplaceSettlementPaymentRecord.

#[global] Instance EnvelopeType_eq_dec : EqDecision EnvelopeType.
Proof. solve_decision. Defined.

Definition envelope_type_bytes (t : EnvelopeType) : string :=
  match t with
  | ET_CreatorCredentials => "creator-credentials"
  | ET_ReaderAssignment => "reader-assignment"
  | ET_Invoice => "invoice"
  | ET_InvoicePaymentRecord => "invoice-payment-record"
  | ET_BitcoinObservation => "bitcoin-observation"
  | ET_MarketplaceBitcoinObservation => "marketplace-bitcoin-observation"
  | ET_UsdtObservation => "usdt-observation"
  | ET_MarketplaceUsdtObservation => "marketplace-usdt-observation"
  | ET_OutboxSemanticIntent => "outbox-semantic-intent"
  | ET_PaymentDrain => "payment-drain"
  | ET_MarketplacePreparation => "marketplace-preparation"
  | ET_MarketplaceSettlementPaymentRecord => "marketplace-settlement-payment-record"
  end.

Record EnvelopeContext := mk_EnvelopeContext {
  ec_type : EnvelopeType;
  ec_creator_lookup_hash : LookupHash;
  ec_row_id : RowId;
  ec_parent_row_id : option RowId;
}.

#[global] Instance EnvelopeContext_eq_dec : EqDecision EnvelopeContext.
Proof. solve_decision. Defined.

Definition EnvelopeContext_new (t : EnvelopeType) (creator : LookupHash) (row : RowId) :
    EnvelopeContext := mk_EnvelopeContext t creator row None.

Definition with_parent (c : EnvelopeContext) (parent : RowId) : EnvelopeContext :=
  mk_EnvelopeContext (ec_type c) (ec_creator_lookup_hash c) (ec_row_id c) (Some parent).

Definition ctx_creator_credentials : LookupHash → RowId → EnvelopeContext :=
  EnvelopeContext_new ET_CreatorCredentials.

Definition ctx_reader_assignment : LookupHash → RowId → EnvelopeContext :=
  EnvelopeContext_new ET_ReaderAssignment.

Definition ctx_invoice : LookupHash → RowId → EnvelopeContext := EnvelopeContext_new ET_Invoice.

Definition ctx_invoice_payment_record : LookupHash → RowId → EnvelopeContext :=
  EnvelopeContext_new ET_InvoicePaymentRecord.

Definition ctx_bitcoin_observation : LookupHash → RowId → EnvelopeContext :=
  EnvelopeContext_new ET_BitcoinObservation.

Definition ctx_bitcoin_observation_for_invoice (creator : LookupHash) (row invoice : RowId) :
    EnvelopeContext := with_parent (ctx_bitcoin_observation creator row) invoice.

Definition ctx_bitcoin_observation_for_marketplace (creator : LookupHash) (row preparation : RowId) :
    EnvelopeContext :=
  with_parent (EnvelopeContext_new ET_MarketplaceBitcoinObservation creator row) preparation.

Definition ctx_usdt_observation (creator : LookupHash) (row invoice : RowId) : EnvelopeContext :=
  with_parent (EnvelopeContext_new ET_UsdtObservation creator row) invoice.

Definition ctx_usdt_observation_for_marketplace (creator : LookupHash) (row preparation : RowId) :
    EnvelopeContext :=
  with_parent (EnvelopeContext_new ET_MarketplaceUsdtObservation creator row) preparation.

Definition ctx_outbox_semantic_intent : LookupHash → RowId → EnvelopeContext :=
  EnvelopeContext_new ET_OutboxSemanticIntent.

Definition ctx_payment_drain : LookupHash → RowId → EnvelopeContext :=
  EnvelopeContext_new ET_PaymentDrain.

Definition ctx_marketplace_preparation : LookupHash → RowId → EnvelopeContext :=
  EnvelopeContext_new ET_MarketplacePreparation.

Definition ctx_marketplace_settlement_payment_record : LookupHash → RowId → EnvelopeContext :=
  EnvelopeContext_new ET_MarketplaceSettlementPaymentRecord.

(** The [expect] of the length conversion cannot fire on the fields below. *)
Definition append_length_prefixed (output value : string) : string :=
  output ++ be_bytes 4 (str_len value) ++ value.

Definition associated_data (c : EnvelopeContext) : string :=
  let aad := append_length_prefixed "" "paykit-server" in
  let aad := append_length_prefixed aad (String (byte_char ENVELOPE_VERSION) "") in
  let aad := append_length_prefixed aad (envelope_type_bytes (ec_type c)) in
  let aad := append_length_prefixed aad (ec_creator_lookup_hash c) in
  let aad := append_length_prefixed aad (uuid_bytes (ec_row_id c)) in
  match ec_parent_row_id c with
  | Some parent => append_length_prefixed aad (uuid_bytes parent)
  | None => aad
  end.

(** ** Keys, envelopes and lookups *)

Record Crypto := mk_Crypto {
  aead_key : string;
  lookup_hmac_key : string;
}.

Section crypto.
Context {prim : CryptoPrimitives}.

Definition from_master_key (master_key : string) : result CryptoError Crypto :=
  ensure (Nat.eqb (String.length master_key) DERIVED_KEY_LENGTH) InvalidConfiguration;;
  aead ← ok_or (hkdf_expand master_key AEAD_LABEL) InvalidConfiguration;
  lookup ← ok_or (hkdf_expand master_key LOOKUP_HMAC_LABEL) InvalidConfiguration;
  Ok (mk_Crypto aead lookup).

(** [nonce] is the freshly generated nonce. *)
Definition encrypt (c : Crypto) (nonce : string) (context : EnvelopeContext) (plaintext : string) :
    result CryptoError string :=
  ciphertext ← ok_or (aead_encrypt (aead_key c) nonce (associated_data context) plaintext)
                 AuthenticationFailed;
  Ok (String (byte_char ENVELOPE_VERSION) (nonce ++ ciphertext)).

Definition decrypt (c : Crypto) (context : EnvelopeContext) (stored : string) :
    result CryptoError string :=
  ensure (Nat.leb (1 + NONCE_LENGTH + TAG_LENGTH) (String.length stored)
          && starts_with (String (byte_char ENVELOPE_VERSION) "") stored) InvalidEnvelope;;
  let nonce := str_take NONCE_LENGTH (str_drop 1 stored) in
  ok_or (aead_decrypt (aead_key c) nonce (associated_data context) (str_drop (1 + NONCE_LENGTH) stored))
    AuthenticationFailed.

Definition lookup_hash (c : Crypto) (logical_bytes : string) : LookupHash :=
  hmac_sha256 (lookup_hmac_key c) logical_bytes.

(** The bytes fed to the keyed hash by a domain-separated lookup. *)
Definition lookup_input (domain logical_bytes : string) : string :=
  domain ++ String Ascii.zero logical_bytes.

Definition domain_separated_lookup_hash (c : Crypto) (domain logical_bytes : string) : LookupHash :=
  hmac_sha256 (lookup_hmac_key c) (lookup_input domain logical_bytes).

Definition DOMAIN_BITCOIN_ADDRESS : string := "paykit-server:bitcoin-address:v1".

Definition DOMAIN_PROPOSAL : string := "paykit-server:payment-request-proposal:v1".

Definition DOMAIN_DERIVATION_INDEX : string := "paykit-server:bitcoin-derivation-index:v1".

Definition DOMAIN_BITCOIN_OUTPOINT : string := "paykit-server:bitcoin-outpoint:v1".

Definition DOMAIN_DRAIN_CLEANUP : string := "paykit-server:payment-drain-cleanup:v1".

Definition DOMAIN_USDT_TRANSFER : string := "paykit-server:usdt-transfer".

Definition bitcoin_address_lookup_hash (c : Crypto) (address : string) : LookupHash :=
  domain_separated_lookup_hash c DOMAIN_BITCOIN_ADDRESS address.

Definition payment_request_proposal_lookup_hash (c : Crypto) (payment_reference : string) : LookupHash :=
  domain_separated_lookup_hash c DOMAIN_PROPOSAL payment_reference.

(** The 40 bytes hashed for a derivation index. *)
Definition derivation_index_value (creator_hash : LookupHash) (index : Z) : string :=
  creator_hash ++ be_bytes 8 index.

Definition bitcoin_derivation_index_lookup_hash (c : Crypto) (creator_hash : LookupHash) (index : Z) :
    LookupHash :=
  domain_separated_lookup_hash c DOMAIN_DERIVATION_INDEX (derivation_index_value creator_hash index).

Definition bitcoin_outpoint_lookup_hash (c : Crypto) (outpoint : string) : LookupHash :=
  domain_separated_lookup_hash c DOMAIN_BITCOIN_OUTPOINT outpoint.

Definition payment_drain_cleanup_token (c : Crypto) (drain_id : RowId) : LookupHash :=
  domain_separated_lookup_hash c DOMAIN_DRAIN_CLEANUP (uuid_bytes drain_id).

Definition usdt_transfer_lookup_hash (c : Crypto) (identity : string) : LookupHash :=
  domain_separated_lookup_hash c DOMAIN_USDT_TRANSFER identity.
End crypto.

(** [stored_lookup_hash]: a stored hash has exactly 32 bytes. *)
Definition stored_lookup_hash (bytes : string) : result PersistenceError LookupHash :=
  ensure (Nat.eqb (String.length bytes) 32) PE_CorruptOrMissing;;
  Ok bytes.

(** ** Lemmas: integers and concatenation *)

Lemma be_bytes_length w n : String.length (be_bytes w n) = w.
Proof. induction w; simpl; congruence. Qed.

Lemma byte_char_inj a b : byte_char a = byte_char b → a mod 256 = b mod 256.
Proof.
  unfold byte_char. intros H. apply (f_equal N_of_ascii) in H.
  pose proof (Z.mod_pos_bound a 256). pose proof (Z.mod_pos_bound b 256).
  rewrite !N_ascii_embedding in H by lia. lia.
Qed.

Lemma be_bytes_inj w n m : be_bytes w n = be_bytes w m → n mod 256 ^ Z.of_nat w = m mod 256 ^ Z.of_nat w.
Proof.
  induction w as [|w IH]; simpl be_bytes; intros H; [by rewrite !Z.mod_1_r|].
  injection H as Hc H. apply byte_char_inj in Hc. apply IH in H.
  rewrite Nat2Z.inj_succ, Z.pow_succ_r, (Z.mul_comm 256) by lia.
  assert (0 < 256 ^ Z.of_nat w) by (apply Z.pow_pos_nonneg; lia).
  rewrite !Z.rem_mul_r by lia. congruence.
Qed.

Lemma uuid_bytes_inj a b : is_uuid a = true → is_uuid b = true → uuid_bytes a = uuid_bytes b → a = b.
Proof.
  unfold is_uuid, uuid_bytes. intros Ha%Z.ltb_lt Hb%Z.ltb_lt H%be_bytes_inj.
  change (Z.of_nat 16) with 16 in H. rewrite !Z.mod_small in H by lia. lia.
Qed.

Lemma str_app_inj a b c d :
  String.length a = String.length c → a ++ b = c ++ d → a = c ∧ b = d.
Proof.
  revert c. induction a as [|x a IH]; intros [|y c] Hl H; simplify_eq/=; [done|].
  destruct (IH c) as [-> ->]; [lia|done|done].
Qed.

(** A length-prefixed field is self-delimiting. *)
Lemma length_prefixed_inj v v' r r' :
  str_len v < 256 ^ 4 → str_len v' < 256 ^ 4 →
  be_bytes 4 (str_len v) ++ v ++ r = be_bytes 4 (str_len v') ++ v' ++ r' → v = v' ∧ r = r'.
Proof.
  intros Hv Hv' H. apply str_app_inj in H as [Hl H]; [|by rewrite !be_bytes_length].
  apply be_bytes_inj in Hl. change (Z.of_nat 4) with 4 in Hl.
  pose proof (str_len_nonneg v). pose proof (str_len_nonneg v').
  rewrite !Z.mod_small in Hl by lia. apply str_app_inj in H; [done|]. unfold str_len in Hl. lia.
Qed.

Lemma append_length_prefixed_app out v : append_length_prefixed out v = out ++ append_length_prefixed "" v.
Proof. done. Qed.

Lemma envelope_type_bytes_inj t t' : envelope_type_bytes t = envelope_type_bytes t' → t = t'.
Proof. destruct t, t'; (reflexivity || discriminate). Qed.

Lemma str_take_app n s t : String.length s = n → str_take n (s ++ t) = s.
Proof. revert n. induction s; intros [|n] H; simplify_eq/=; [by destruct t|]. by rewrite IHs. Qed.

Lemma str_drop_app n s t : String.length s = n → str_drop n (s ++ t) = t.
Proof. revert n. induction s; intros [|n] H; simplify_eq/=; [by destruct t|]. by rewrite IHs. Qed.

(** The variable part of the associated data. *)
Definition context_fields (c : EnvelopeContext) : string :=
  append_length_prefixed "" (envelope_type_bytes (ec_type c))
  ++ append_length_prefixed "" (ec_creator_lookup_hash c)
  ++ append_length_prefixed "" (uuid_bytes (ec_row_id c))
  ++ match ec_parent_row_id c with
     | Some parent => append_length_prefixed "" (uuid_bytes parent)
     | None => ""
     end.

Lemma associated_data_fields c :
  associated_data c =
  append_length_prefixed (append_length_prefixed "" "paykit-server") (String (byte_char ENVELOPE_VERSION) "")
  ++ context_fields c.
Proof.
  unfold associated_data, context_fields, append_length_prefixed.
  destruct (ec_parent_row_id c); rewrite ?str_app_assoc, ?str_app_nil_r; reflexivity.
Qed.

Definition context_valid (c : EnvelopeContext) : bool :=
  Nat.eqb (String.length (ec_creator_lookup_hash c)) 32 && is_uuid (ec_row_id c)
  && match ec_parent_row_id c with Some p => is_uuid p | None => true end.

Lemma field_inj v v' r r' :
  str_len v < 256 ^ 4 → str_len v' < 256 ^ 4 →
  append_length_prefixed "" v ++ r = append_length_prefixed "" v' ++ r' → v = v' ∧ r = r'.
Proof.
  intros Hv Hv' H. unfold append_length_prefixed in H. rewrite !str_app_assoc in H.
  by apply (length_prefixed_inj v v').
Qed.

Lemma uuid_field_short id : str_len (uuid_bytes id) < 256 ^ 4.
Proof. unfold str_len, uuid_bytes. rewrite be_bytes_length. lia. Qed.

Lemma type_field_short t : str_len (envelope_type_bytes t) < 256 ^ 4.
Proof. destruct t; vm_compute; reflexivity. Qed.

(** an envelope is bound to exactly one place.  Two valid contexts (a 32-byte creator
    hash, 128-bit row ids) have the same associated data only if they agree on the kind
    of the envelope, the creator, the row and the owning row, so authenticating the
    associated data authenticates all four. *)
Theorem associated_data_injective c c' :
  context_valid c = true → context_valid c' = true →
  associated_data c = associated_data c' → c = c'.
Proof.
  unfold context_valid. intros Hc Hc' H. split_bools.
  repeat match goal with E : Nat.eqb _ _ = true |- _ => apply Nat.eqb_eq in E end.
  rewrite !associated_data_fields in H. apply str_app_inj in H as [_ H]; [|done].
  unfold context_fields in H.
  apply field_inj in H as [Ht%envelope_type_bytes_inj H]; [|apply type_field_short..].
  apply field_inj in H as [Hh H]; [|unfold str_len; lia..].
  apply field_inj in H as [Hr%uuid_bytes_inj H]; [|done|done|apply uuid_field_short..].
  destruct c as [t h r p], c' as [t' h' r' p']; simpl in *. subst.
  destruct p as [p|], p' as [p'|]; simpl in *; try done.
  rewrite <- (str_app_nil_r (append_length_prefixed "" (uuid_bytes p))) in H.
  rewrite <- (str_app_nil_r (append_length_prefixed "" (uuid_bytes p'))) in H.
  apply field_inj in H as [H%uuid_bytes_inj _]; [by subst|done|done|apply uuid_field_short..].
Qed.

Section laws.
Context {prim : CryptoPrimitives} {laws : CryptoLaws prim}.

Lemma decrypt_encrypt c nonce context plaintext stored :
  String.length nonce = NONCE_LENGTH →
  encrypt c nonce context plaintext = Ok stored → decrypt c context stored = Ok plaintext.
Proof.
  unfold encrypt, decrypt. intros Hn H. cbv zeta. apply bind_ok in H as (ct & Hct%ok_or_ok & [= <-]).
  pose proof (aead_tag _ _ _ _ _ Hct) as Htag.
  assert (Nat.leb (1 + NONCE_LENGTH + TAG_LENGTH)
            (String.length (String (byte_char ENVELOPE_VERSION) (nonce ++ ct))) = true) as ->.
  { apply Nat.leb_le. simpl. rewrite str_length_app, Hn. unfold NONCE_LENGTH in *. lia. }
  change (str_drop 1 (String (byte_char ENVELOPE_VERSION) (nonce ++ ct))) with (nonce ++ ct).
  change (str_drop (1 + NONCE_LENGTH) (String (byte_char ENVELOPE_VERSION) (nonce ++ ct)))
    with (str_drop NONCE_LENGTH (nonce ++ ct)).
  rewrite str_take_app, str_drop_app by done. cbv zeta.
  by rewrite (aead_roundtrip _ _ _ _ _ Hct).
Qed.

(** storage of private state is lossless.  An envelope produced with any nonce of the
    right length opens, under the same context, to exactly the plaintext that was
    sealed. *)
Theorem envelope_roundtrip c nonce context plaintext stored :
  String.length nonce = NONCE_LENGTH →
  encrypt c nonce context plaintext = Ok stored →
  decrypt c context stored = Ok plaintext.
Proof. apply decrypt_encrypt. Qed.
End laws.

(** ** Domain separation *)

(** The kinds of keyed lookup, one per function above. *)
Inductive LookupKind :=
| BitcoinAddress
| ProposalReference
| DerivationIndex
| BitcoinOutpointText
| DrainCleanup
| UsdtTransfer.

Definition lookup_domain (k : LookupKind) : string :=
  match k with
  | BitcoinAddress => DOMAIN_BITCOIN_ADDRESS
  | ProposalReference => DOMAIN_PROPOSAL
  | DerivationIndex => DOMAIN_DERIVATION_INDEX
  | BitcoinOutpointText => DOMAIN_BITCOIN_OUTPOINT
  | DrainCleanup => DOMAIN_DRAIN_CLEANUP
  | UsdtTransfer => DOMAIN_USDT_TRANSFER
  end.

Lemma lookup_domain_no_nul k : all_bytes (λ c, negb (Ascii.eqb c Ascii.zero)) (lookup_domain k) = true.
Proof. destruct k; vm_compute; reflexivity. Qed.

Lemma lookup_domain_inj k k' : lookup_domain k = lookup_domain k' → k = k'.
Proof. destruct k, k'; (reflexivity || discriminate). Qed.

(** keyed lookups never mix.  The six kinds of domain-separated lookup feed the keyed
    hash with inputs that determine both the kind and the looked-up bytes: equal inputs
    mean the same kind of lookup of the same value. *)
Theorem lookups_domain_separated k k' x x' :
  lookup_input (lookup_domain k) x = lookup_input (lookup_domain k') x' ↔ k = k' ∧ x = x'.
Proof.
  split; [|by intros [-> ->]]. unfold lookup_input. intros H.
  apply (f_equal (split_once Ascii.zero)) in H. rewrite !split_once_app in H by apply lookup_domain_no_nul.
  injection H as Hd Hx. split; [by apply lookup_domain_inj|done].
Qed.

(** ** Witnesses *)

(** A transparent instance: the tag is sixteen bytes of padding and the associated data is
    appended in clear, so opening compares it. *)
Module Example_crypto.
Definition pad : string := repeat_char "t" 16.

Definition seal_clear (aad msg : string) : string := be_bytes 4 (str_len aad) ++ aad ++ pad ++ msg.

Definition example_primitives : CryptoPrimitives := {|
  hkdf_expand key label := Some (key ++ label);
  aead_encrypt _ _ aad msg := Some (seal_clear aad msg);
  aead_decrypt _ _ aad ct :=
    let header := be_bytes 4 (str_len aad) ++ aad ++ pad in
    if starts_with header ct then Some (str_drop (String.length header) ct) else None;
  hmac_sha256 key x := key ++ x;
|}.

Lemma starts_with_app s t : starts_with s (s ++ t) = true.
Proof. induction s as [|c s IH]; simpl; [done|]. by rewrite Ascii.eqb_refl. Qed.

Lemma example_laws : CryptoLaws example_primitives.
Proof.
  split; intros key nonce aad msg ct H; injection H as <-; unfold seal_clear.
  - unfold aead_decrypt, example_primitives. cbv zeta.
    rewrite <- (str_app_assoc aad pad msg), <- (str_app_assoc (be_bytes 4 _) (aad ++ pad) msg), starts_with_app.
    by rewrite str_drop_app.
  - rewrite !str_length_app. unfold pad. rewrite str_length_repeat. unfold TAG_LENGTH. lia.
Qed.

Definition example_crypto : Crypto := mk_Crypto "a" "l".
End Example_crypto.

Lemma associated_data_injective_witness :
  context_valid (ctx_invoice (repeat_char "h" 32) 7) = true
  ∧ associated_data (ctx_invoice (repeat_char "h" 32) 7)
    ≠ associated_data (ctx_invoice (repeat_char "h" 32) 8).
Proof.
  split; [vm_compute; reflexivity|]. intros H.
  apply associated_data_injective in H; [discriminate H|vm_compute; reflexivity..].
Defined.

Lemma envelope_roundtrip_witness :
  ∃ stored,
    @encrypt Example_crypto.example_primitives Example_crypto.example_crypto (repeat_char "n" 24)
      (ctx_invoice (repeat_char "h" 32) 7) "secret" = Ok stored
    ∧ @decrypt Example_crypto.example_primitives Example_crypto.example_crypto
        (ctx_invoice (repeat_char "h" 32) 7) stored = Ok "secret".
Proof.
  eexists. split; [reflexivity|].
  apply (@envelope_roundtrip _ Example_crypto.example_laws Example_crypto.example_crypto
           (repeat_char "n" 24)); vm_compute; reflexivity.
Defined.
