(* ===== verification/Observations.v ===== *)
(** * Observations: what the chain says about an invoice
    ([bitcoin.rs], [persistence/invoices.rs], [persistence/invoices/settlement.rs],
    [persistence/invoices/usdt.rs], [persistence/invoices/provider_v2.rs])

    The tables a payment observation reads and writes, the statements of one
    observation transaction in their order, and the batch that runs them.  A
    transaction is a function from the tables to a result: an error rolls back, so no
    tables come with it.  [updated_at] columns are never read and are left out.
    Envelopes go through [Crypto]; [postcard] and the parser of the [bitcoin] crate are
    parameters ([ObservationCodec]). *)

From S2P Require Import Prelude Text Locks Invoice Receiving Payment Lifecycle Pricing Intent Database Crypto PaymentRecord.
Local Open Scope string_scope.
Local Open Scope Z_scope.

(** ** Direct bindings ([bitcoin.rs]) *)

Record DirectBinding := mk_DirectBinding {
  db_outpoint : string;
  db_sats : Z;
  db_confirmations : Z;
  db_present : bool;
}.

Inductive ObservationAction := Update | Replace | Ignore.

#[global] Instance ObservationAction_eq_dec : EqDecision ObservationAction.
Proof. solve_decision. Defined.

Definition direct_is_final (b : DirectBinding) (required_sats : Z) : bool :=
  db_present b && (required_sats <=? db_sats b) && (6 <=? db_confirmations b).

Definition reported_confirmations (b : DirectBinding) (required_sats : Z) : Z :=
  if required_sats <=? db_sats b then Z.min (db_confirmations b) 6 else db_confirmations b.

Definition action_for_values (b : DirectBinding) (outpoint : string) (present : bool)
    (required_sats : Z) : ObservationAction :=
  if String.eqb outpoint (db_outpoint b) || negb present then Update
  else if direct_is_final b required_sats then Ignore
  else if (db_sats b <? required_sats) || negb (db_present b) || (db_confirmations b =? 0)
  then Replace else Ignore.

(** ** Observations as they arrive *)

Record BitcoinObservationV1 := mk_BitcoinObservationV1 {
  bo_version : Z;
  bo_outpoint : string;
  bo_observed_sats : Z;
}.

#[global] Instance BitcoinObservationV1_eq_dec : EqDecision BitcoinObservationV1.
Proof. solve_decision. Defined.

Record BitcoinObservationInput := mk_BitcoinObservationInput {
  in_address : string;
  in_outpoint : BitcoinOutpoint;
  in_observed_sats : Z;
  in_confirmations : Z;
  in_present : bool;
}.

Definition cmp_for_batch (a b : BitcoinObservationInput) : comparison :=
  then_with (str_compare (in_address a) (in_address b))
  (then_with (bool_compare (in_present a) (in_present b))
  (then_with (str_compare (txid (in_outpoint a)) (txid (in_outpoint b)))
  (then_with (vout (in_outpoint a) ?= vout (in_outpoint b))
  (then_with (in_observed_sats a ?= in_observed_sats b)
     (in_confirmations a ?= in_confirmations b))))).

Record TransferFacts := mk_TransferFacts {
  tf_identity : string;
  tf_amount : Z;
  tf_timestamp : Z;
}.

Record VerifiedTransfer := mk_VerifiedTransfer {
  vt_identity : string;
  vt_sender : string;
  vt_amount : Z;
  vt_timestamp : Z;
  vt_confirmations : Z;
  vt_finalized : bool;
}.

(** ** Tables *)

(** Columns of [invoices] fixed at insertion, with the creator's hash joined in. *)
Record InvoiceColumns := mk_InvoiceColumns {
  iv_creator_id : RowId;
  iv_creator_lookup_hash : string;
  iv_reader_lookup_hash : string;
  iv_payment_record_envelope : string;
  iv_address_lookup_hash : option string;
  iv_created_at : Z;
  iv_payment_deadline : Z;
}.

(** Columns of [invoices] the projection writes. *)
Record ProjectionColumns := mk_ProjectionColumns {
  iv_payment_status : string;
  iv_confirmation_count : Z;
  iv_amount_matched : bool;
  iv_first_matched_at : option Z;
  iv_first_matched_outpoint : option string;
  iv_payment_expired_at : option Z;
}.

Record PaymentInvoice := mk_PaymentInvoice {
  iv_columns : InvoiceColumns;
  iv_projection : ProjectionColumns;
}.

Record ObservationRow := mk_ObservationRow {
  ob_invoice_id : option RowId;
  ob_marketplace_preparation_id : option RowId;
  ob_envelope : string;
  ob_outpoint_lookup_hash : string;
  ob_first_observed_at : Z;
  ob_confirmations : Z;
  ob_present : bool;
  ob_active : bool;
}.

Record UsdtRow := mk_UsdtRow {
  us_invoice_id : option RowId;
  us_marketplace_preparation_id : option RowId;
  us_transfer_lookup_hash : string;
  us_envelope : string;
  us_confirmations : Z;
  us_present : bool;
  us_finalized : bool;
  us_checked_at : Z;
}.

Record ProviderBinding := mk_ProviderBinding {
  pb_minimum_confirmations : Z;
  pb_deadline : Z;
}.

Record SampleRow := mk_SampleRow {
  sa_observation_id : option RowId;
  sa_observed_at : Z;
  sa_status : string;
  sa_confirmations : Z;
  sa_amount_matched : bool;
}.

#[global] Instance SampleRow_eq_dec : EqDecision SampleRow.
Proof. solve_decision. Defined.

Record PaymentDb := mk_PaymentDb {
  t_invoices : gmap RowId PaymentInvoice;
  t_observations : gmap RowId ObservationRow;
  t_timely : gset (RowId * string);
  t_provider_v2 : gmap RowId ProviderBinding;
  t_samples : gmap RowId SampleRow;
  t_evidence : gmap RowId SampleRow;
  t_usdt : gmap RowId UsdtRow;
  t_contacts : gmap RowId (RowId * string);
}.

Definition set_invoices (db : PaymentDb) t := mk_PaymentDb t (t_observations db) (t_timely db)
  (t_provider_v2 db) (t_samples db) (t_evidence db) (t_usdt db) (t_contacts db).

Definition set_observations (db : PaymentDb) t := mk_PaymentDb (t_invoices db) t (t_timely db)
  (t_provider_v2 db) (t_samples db) (t_evidence db) (t_usdt db) (t_contacts db).

Definition set_timely (db : PaymentDb) t := mk_PaymentDb (t_invoices db) (t_observations db) t
  (t_provider_v2 db) (t_samples db) (t_evidence db) (t_usdt db) (t_contacts db).

Definition set_samples (db : PaymentDb) t := mk_PaymentDb (t_invoices db) (t_observations db)
  (t_timely db) (t_provider_v2 db) t (t_evidence db) (t_usdt db) (t_contacts db).

Definition set_evidence (db : PaymentDb) t := mk_PaymentDb (t_invoices db) (t_observations db)
  (t_timely db) (t_provider_v2 db) (t_samples db) t (t_usdt db) (t_contacts db).

Definition set_usdt (db : PaymentDb) t := mk_PaymentDb (t_invoices db) (t_observations db)
  (t_timely db) (t_provider_v2 db) (t_samples db) (t_evidence db) t (t_contacts db).

Definition set_contacts (db : PaymentDb) t := mk_PaymentDb (t_invoices db) (t_observations db)
  (t_timely db) (t_provider_v2 db) (t_samples db) (t_evidence db) (t_usdt db) t.

(** The first row satisfying a condition: [SELECT .. WHERE ..] with [fetch_optional]. *)
Definition select_one {V} (p : RowId → V → bool) (t : gmap RowId V) : option (RowId * V) :=
  head (filter (λ kv, Is_true (p kv.1 kv.2)) (map_to_list t)).

(** [EXISTS (SELECT .. WHERE ..)] *)
Definition exists_row {V} (p : RowId → V → bool) (t : gmap RowId V) : bool :=
  is_some (select_one p t).

Definition owned_by (invoice : RowId) (o : option RowId) : bool := bool_decide (o = Some invoice).

Definition active_for (invoice : RowId) (r : ObservationRow) : bool :=
  owned_by invoice (ob_invoice_id r) && ob_active r.

(** [invoices_payment_expired_deadline_check] and
    [invoices_first_amount_matched_window_check]. *)
Definition invoice_check (i : PaymentInvoice) : bool :=
  match iv_payment_expired_at (iv_projection i) with
  | Some t => iv_payment_deadline (iv_columns i) <=? t | None => true end
  && match iv_first_matched_at (iv_projection i) with
     | Some t => iv_created_at (iv_columns i) <=? t | None => true end.

(** [UPDATE invoices SET .. WHERE id = $1], an error when a [CHECK] fails. *)
Definition update_invoice (db : PaymentDb) (id : RowId) (f : InvoiceColumns → ProjectionColumns → ProjectionColumns) :
    result PersistenceError PaymentDb :=
  match t_invoices db !! id with
  | None => Ok db
  | Some i =>
      let i' := mk_PaymentInvoice (iv_columns i) (f (iv_columns i) (iv_projection i)) in
      ensure (invoice_check i') PE_Unavailable;;
      Ok (set_invoices db (<[id := i']> (t_invoices db)))
  end.

(** [INSERT INTO bitcoin_observations .. ON CONFLICT (outpoint_lookup_hash) DO UPDATE ..
    WHERE invoice_id = EXCLUDED.invoice_id]: the number of rows affected, or the
    violation of the primary key or of the one-active-row index. *)
Definition upsert_observation (db : PaymentDb) (id : RowId) (row : ObservationRow) (invoice : RowId) :
    result PersistenceError (Z * PaymentDb) :=
  let write key row :=
    ensure (negb (exists_row (λ k r, negb (bool_decide (k = key)) && active_for invoice r)
                    (t_observations db))) PE_Conflict;;
    Ok (1, set_observations db (<[key := row]> (t_observations db))) in
  match select_one (λ _ r, String.eqb (ob_outpoint_lookup_hash r) (ob_outpoint_lookup_hash row))
          (t_observations db) with
  | Some (key, old) =>
      if owned_by invoice (ob_invoice_id old) then
        write key (mk_ObservationRow (ob_invoice_id old) (ob_marketplace_preparation_id old)
                     (ob_envelope old) (ob_outpoint_lookup_hash old) (ob_first_observed_at old)
                     (ob_confirmations row) (ob_present row) true)
      else Ok (0, db)
  | None =>
      ensure (is_none (t_observations db !! id)) PE_Conflict;;
      write id row
  end.

(** [UPDATE bitcoin_observations SET active = FALSE WHERE invoice_id = $1 AND active] *)
Definition deactivate (invoice : RowId) (r : ObservationRow) : ObservationRow :=
  if active_for invoice r
  then mk_ObservationRow (ob_invoice_id r) (ob_marketplace_preparation_id r) (ob_envelope r)
         (ob_outpoint_lookup_hash r) (ob_first_observed_at r) (ob_confirmations r) (ob_present r) false
  else r.

Definition deactivate_all (db : PaymentDb) (invoice : RowId) : PaymentDb :=
  set_observations db (deactivate invoice <$> t_observations db).

(** ** Codecs outside the repository *)

(** [postcard] on the stored records, [str::parse::<bitcoin::OutPoint>]. *)
Class ObservationCodec := {
  encode_observation : BitcoinObservationV1 → string;
  decode_observation : string → option BitcoinObservationV1;
  decode_payment_record : string → option InvoicePaymentRecordV1;
  encode_transfer : TransferFacts → string → string;
  take_transfer : string → option (TransferFacts * string);
  parse_outpoint : string → option BitcoinOutpoint;
}.

(** What the stores rely on: [postcard] round-trips on records whose fields are in range. *)
Class ObservationCodecLaws (codec : ObservationCodec) := {
  decode_encode_observation : ∀ r,
    0 <= bo_version r <= u8_max → in_u64 (bo_observed_sats r) = true →
    decode_observation (encode_observation r) = Some r;
}.

(** ** One observation transaction *)

Record ObservedPayment := mk_ObservedPayment {
  op_present : bool;
  op_matched : bool;
  op_timely : bool;
  op_confirmations : Z;
  op_finalized : bool;
  op_received_at : option Z;
}.

Definition no_payment : ObservedPayment := mk_ObservedPayment false false false 0 false None.

Definition eligible (p : ObservedPayment) : bool := op_present p && op_matched p && op_timely p.

Definition payment_status_text (present : bool) (confirmations : Z) : string :=
  if negb present then "undetected" else if confirmations =? 0 then "detected" else "confirmed".

(** [LEAST(a, b)]: nulls are ignored. *)
Definition sql_least (a b : option Z) : option Z :=
  match a, b with Some x, Some y => Some (Z.min x y) | Some x, None => Some x | None, y => y end.

(** [COALESCE(a, b)] *)
Definition coalesce {A} (a b : option A) : option A := match a with Some _ => a | None => b end.

(** [replace_nanosecond(0)] *)
Definition whole_second (t : Z) : Z := t - t mod NANOS_PER_SECOND.

(** The order in which receipts are preferred: eligible, finalized, matched,
    confirmations, and the identity last. *)
Definition receipt_compare (a b : string * ObservedPayment) : comparison :=
  then_with (bool_compare (eligible a.2) (eligible b.2))
  (then_with (bool_compare (op_finalized a.2) (op_finalized b.2))
  (then_with (bool_compare (op_matched a.2) (op_matched b.2))
  (then_with (op_confirmations a.2 ?= op_confirmations b.2) (str_compare a.1 b.1)))).

Section observations.
Context {prim : CryptoPrimitives} {codec : ObservationCodec} (crypto : Crypto).

Definition parse_canonical_bitcoin_outpoint (value : string) : result PersistenceError BitcoinOutpoint :=
  outpoint ← ok_or (parse_outpoint value) PE_CorruptOrMissing;
  ensure (String.eqb (canonical_text outpoint) value) PE_CorruptOrMissing;;
  Ok outpoint.

Definition decrypt_observation (creator_hash : string) (id : RowId) (row : ObservationRow) :
    result PersistenceError BitcoinObservationV1 :=
  invoice_id ← (match ob_invoice_id row, ob_marketplace_preparation_id row with
                | Some invoice_id, None => Ok invoice_id
                | _, _ => Err PE_CorruptOrMissing
                end);
  plaintext ← map_err (λ _, PE_CorruptOrMissing)
    (decrypt crypto (ctx_bitcoin_observation_for_invoice creator_hash id invoice_id) (ob_envelope row));
  record ← ok_or (decode_observation plaintext) PE_CorruptOrMissing;
  ensure ((bo_version record =? 1) && is_ok (parse_canonical_bitcoin_outpoint (bo_outpoint record))
          && String.eqb (ob_outpoint_lookup_hash row)
               (bitcoin_outpoint_lookup_hash crypto (bo_outpoint record))) PE_CorruptOrMissing;;
  Ok record.

Definition decrypt_payment_record (creator_hash : string) (invoice : RowId) (envelope : string) :
    result PersistenceError InvoicePaymentRecordV1 :=
  plaintext ← map_err (λ _, PE_CorruptOrMissing)
    (decrypt crypto (ctx_invoice_payment_record creator_hash invoice) envelope);
  ok_or (decode_payment_record plaintext) PE_CorruptOrMissing.

(** The attested sender is the suffix of the envelope: absent, or exactly 20 bytes. *)
Definition transfer_facts (id invoice : RowId) (creator_hash envelope identity_hash : string) :
    result PersistenceError (TransferFacts * option string) :=
  plaintext ← map_err (λ _, PE_CorruptOrMissing)
    (decrypt crypto (ctx_usdt_observation creator_hash id invoice) envelope);
  decoded ← ok_or (take_transfer plaintext) PE_CorruptOrMissing;
  sender ← (if str_is_empty decoded.2 then Ok None
            else ensure (Nat.eqb (String.length decoded.2) 20) PE_CorruptOrMissing;; Ok (Some decoded.2));
  ensure (String.eqb identity_hash (usdt_transfer_lookup_hash crypto (tf_identity decoded.1)))
    PE_CorruptOrMissing;;
  Ok (decoded.1, sender).

(** One receipt as a payment. *)
Definition receipt_candidate (columns : InvoiceColumns) (required : Z) (row : UsdtRow)
    (facts : TransferFacts) : string * ObservedPayment :=
  (tf_identity facts,
   mk_ObservedPayment true (required <=? tf_amount facts)
     ((whole_second (iv_created_at columns) <=? tf_timestamp facts)
      && (tf_timestamp facts <=? iv_payment_deadline columns))
     (us_confirmations row) (us_finalized row)
     (Some (Z.max (tf_timestamp facts) (iv_created_at columns)))).

(** The loop over the receipts: a candidate replaces the selection only when it is
    strictly greater. *)
Fixpoint select_receipt (columns : InvoiceColumns) (invoice : RowId) (creator_hash : string)
    (required : Z) (rows : list (RowId * UsdtRow)) (selected : option (string * ObservedPayment)) :
    result PersistenceError (option (string * ObservedPayment)) :=
  match rows with
  | [] => Ok selected
  | (id, row) :: rows =>
      facts ← transfer_facts id invoice creator_hash (us_envelope row) (us_transfer_lookup_hash row);
      let candidate := receipt_candidate columns required row facts.1 in
      let selected := match selected with
                      | None => Some candidate
                      | Some current =>
                          match receipt_compare candidate current with
                          | Gt => Some candidate
                          | _ => Some current
                          end
                      end in
      select_receipt columns invoice creator_hash required rows selected
  end.

Definition present_receipts (db : PaymentDb) (invoice : RowId) : list (RowId * UsdtRow) :=
  filter (λ kv, Is_true (owned_by invoice (us_invoice_id kv.2) && us_present kv.2))
    (map_to_list (t_usdt db)).

Definition usdt_payment (db : PaymentDb) (columns : InvoiceColumns) (invoice : RowId)
    (creator_hash : string) (required : Z) :
    result PersistenceError (option (string * ObservedPayment)) :=
  select_receipt columns invoice creator_hash required (present_receipts db invoice) None.

(** The Bitcoin half of the projection. *)
Definition bitcoin_payment (db : PaymentDb) (invoice : RowId) (creator_hash : string)
    (bitcoin : option PaymentDestination) : result PersistenceError ObservedPayment :=
  match bitcoin with
  | None => Ok no_payment
  | Some destination =>
      match select_one (λ _ r, active_for invoice r) (t_observations db) with
      | None => Ok no_payment
      | Some (id, observation) =>
          facts ← decrypt_observation creator_hash id observation;
          let matched := ob_present observation && (pd_required_amount destination <=? bo_observed_sats facts) in
          Ok (mk_ObservedPayment (ob_present observation) matched
                (bool_decide ((invoice, ob_outpoint_lookup_hash observation) ∈ t_timely db))
                (if negb (ob_present observation) then 0
                 else if matched then Z.min (ob_confirmations observation) 6
                 else ob_confirmations observation)
                false None)
      end
  end.

(** The assignment of the projection's [UPDATE]. *)
Definition projected_columns (bitcoin : ObservedPayment) (received_at : option Z) (is_eligible : bool)
    (now : Z) (c : InvoiceColumns) (p : ProjectionColumns) : ProjectionColumns :=
  mk_ProjectionColumns
    (payment_status_text (op_present bitcoin) (op_confirmations bitcoin))
    (op_confirmations bitcoin) (op_matched bitcoin)
    (sql_least (iv_first_matched_at p) received_at)
    (iv_first_matched_outpoint p)
    (if is_eligible then None
     else if iv_payment_deadline c <? now then coalesce (iv_payment_expired_at p) (Some now)
     else iv_payment_expired_at p).

(** [INSERT INTO buyer_contacts .. ON CONFLICT (creator_id, reader_lookup_hash) DO NOTHING] *)
Definition insert_contact (db : PaymentDb) (invoice : RowId) (columns : InvoiceColumns) :
    result PersistenceError PaymentDb :=
  let contact := (iv_creator_id columns, iv_reader_lookup_hash columns) in
  if exists_row (λ _ c, bool_decide (c = contact)) (t_contacts db) then Ok db
  else ensure (is_none (t_contacts db !! invoice)) PE_Unavailable;;
       Ok (set_contacts db (<[invoice := contact]> (t_contacts db))).

(** The USDT half of the projection. *)
Definition usdt_half (db : PaymentDb) (columns : InvoiceColumns) (invoice : RowId)
    (creator_hash : string) (usdt : option PaymentDestination) :
    result PersistenceError (option ObservedPayment) :=
  match usdt with
  | None => Ok None
  | Some destination =>
      selected ← usdt_payment db columns invoice creator_hash (pd_required_amount destination);
      Ok (option_map snd selected)
  end.

Definition project_payments (db : PaymentDb) (invoice : RowId) (creator_hash : string)
    (payment : InvoicePaymentRecordV1) (now : Z) : result PersistenceError PaymentDb :=
  row ← ok_or (t_invoices db !! invoice) PE_Unavailable;
  bitcoin ← bitcoin_payment db invoice creator_hash (pr_bitcoin payment);
  usdt ← usdt_half db (iv_columns row) invoice creator_hash (pr_usdt payment);
  let usdt_eligible := match usdt with Some p => eligible p | None => false end in
  let is_eligible := eligible bitcoin || usdt_eligible in
  let received_at := if usdt_eligible then usdt ≫= op_received_at else None in
  db ← update_invoice db invoice (projected_columns bitcoin received_at is_eligible now);
  if is_eligible then insert_contact db invoice (iv_columns row) else Ok db.

(** The confirmation count kept for callers: clamped to [0..6]. *)
Definition bounded_confirmations (confirmations : Z) : Z := Z.max 0 (Z.min confirmations 6).

Definition project_provider_v2_sample (db : PaymentDb) (invoice observation_id : RowId)
    (observed_at : Z) (present : bool) (confirmations : Z) (amount_matched : bool) : PaymentDb :=
  match t_provider_v2 db !! invoice with
  | None => db
  | Some binding =>
      let bounded := bounded_confirmations confirmations in
      let status := payment_status_text present bounded in
      let sample := mk_SampleRow (if present then Some observation_id else None) observed_at status
                      (if present then bounded else 0) (if present then amount_matched else false) in
      let db := set_samples db (<[invoice := sample]> (t_samples db)) in
      if present && amount_matched && (pb_minimum_confirmations binding <=? bounded)
         && (observed_at <=? pb_deadline binding) && is_none (t_evidence db !! invoice)
      then set_evidence db (<[invoice := mk_SampleRow (Some observation_id) observed_at status bounded true]>
                              (t_evidence db))
      else db
  end.

(** The invoice an address belongs to. *)
Definition invoice_of_address (db : PaymentDb) (address_hash : string) : option (RowId * PaymentInvoice) :=
  select_one (λ _ i, bool_decide (iv_address_lookup_hash (iv_columns i) = Some address_hash)) (t_invoices db).

(** The record of the addressed invoice and the amount its Bitcoin option requires. *)
Definition addressed_record (invoice : RowId) (columns : InvoiceColumns) (creator_hash address : string) :
    result PersistenceError (InvoicePaymentRecordV1 * Z) :=
  payment ← decrypt_payment_record creator_hash invoice (iv_payment_record_envelope columns);
  destination ← ok_or (pr_bitcoin payment) PE_CorruptOrMissing;
  ensure ((pr_version payment =? 1) && String.eqb (pd_address destination) address) PE_CorruptOrMissing;;
  Ok (payment, pd_required_amount destination).

(** The row already stored for the outpoint, if its owner and evidence agree. *)
Definition existing_outpoint (db : PaymentDb) (invoice : RowId) (creator_hash outpoint : string)
    (observed_sats : Z) : result PersistenceError (option RowId) :=
  let hash := bitcoin_outpoint_lookup_hash crypto outpoint in
  match select_one (λ _ r, String.eqb (ob_outpoint_lookup_hash r) hash) (t_observations db) with
  | None => Ok None
  | Some (id, row) =>
      ensure (owned_by invoice (ob_invoice_id row) && is_none (ob_marketplace_preparation_id row)) PE_Conflict;;
      record ← decrypt_observation creator_hash id row;
      ensure (String.eqb (bo_outpoint record) outpoint && (bo_observed_sats record =? observed_sats)) PE_Conflict;;
      Ok (Some id)
  end.

(** The active row of the invoice with its decrypted evidence. *)
Definition active_binding (db : PaymentDb) (invoice : RowId) (creator_hash : string) :
    result PersistenceError (option (ObservationRow * BitcoinObservationV1)) :=
  match select_one (λ _ r, active_for invoice r) (t_observations db) with
  | None => Ok None
  | Some (id, row) => record ← decrypt_observation creator_hash id row; Ok (Some (row, record))
  end.

Definition direct_binding (row : ObservationRow) (record : BitcoinObservationV1) : DirectBinding :=
  mk_DirectBinding (bo_outpoint record) (bo_observed_sats record) (Z.max 0 (ob_confirmations row)) (ob_present row).

Definition action_for (provider_v2 : bool) (row : ObservationRow) (record : BitcoinObservationV1)
    (outpoint : string) (present : bool) (required : Z) : ObservationAction :=
  if provider_v2 then
    if String.eqb (bo_outpoint record) outpoint || negb present then Update else Replace
  else action_for_values (direct_binding row record) outpoint present required.

(** The tests of the transaction that end it without a write. *)
Definition nothing_to_do (provider_v2 : bool) (active : option (ObservationRow * BitcoinObservationV1))
    (outpoint : string) (present : bool) (required : Z) : bool :=
  match active with
  | None => negb present
  | Some (row, record) =>
      (negb provider_v2 && (ob_present row && (6 <=? ob_confirmations row) && (required <=? bo_observed_sats record)))
      || (negb present && negb (String.eqb (bo_outpoint record) outpoint))
      || bool_decide (action_for provider_v2 row record outpoint present required = Ignore)
  end.

(** The writes: deactivate on replacement, upsert the observation, record a timely match,
    freeze the first match. [fresh] and [nonce] are the generated row id and nonce. *)
Definition write_observation (db : PaymentDb) (fresh : RowId) (nonce : string) (invoice : RowId)
    (columns : InvoiceColumns) (creator_hash outpoint : string) (observed_sats confirmations : Z)
    (present replace amount_matched provider_v2 : bool) (existing : option RowId) (observed_at : Z) :
    result PersistenceError (RowId * PaymentDb) :=
  let hash := bitcoin_outpoint_lookup_hash crypto outpoint in
  let db := if replace then deactivate_all db invoice else db in
  let observation_id := default fresh existing in
  envelope ← map_err (λ _, PE_CorruptOrMissing)
    (encrypt crypto nonce (ctx_bitcoin_observation_for_invoice creator_hash observation_id invoice)
       (encode_observation (mk_BitcoinObservationV1 1 outpoint observed_sats)));
  written ← upsert_observation db observation_id
    (mk_ObservationRow (Some invoice) None envelope hash observed_at confirmations present true) invoice;
  ensure (written.1 =? 1) PE_Conflict;;
  let db := written.2 in
  let db := if amount_matched && (observed_at <=? iv_payment_deadline columns)
            then set_timely db ({[(invoice, hash)]} ∪ t_timely db) else db in
  db ← (if amount_matched && negb provider_v2
        then update_invoice db invoice (λ _ p,
               mk_ProjectionColumns (iv_payment_status p) (iv_confirmation_count p) (iv_amount_matched p)
                 (coalesce (iv_first_matched_at p) (Some observed_at))
                 (coalesce (iv_first_matched_outpoint p) (Some hash)) (iv_payment_expired_at p))
        else Ok db);
  Ok (observation_id, db).

Definition apply_bitcoin_observation_in_tx (db : PaymentDb) (fresh : RowId) (nonce : string)
    (observation : BitcoinObservationInput) (observed_at : Z) : result PersistenceError (bool * PaymentDb) :=
  ensure (in_confirmations observation <=? i32_max) PE_CorruptOrMissing;;
  let outpoint := canonical_text (in_outpoint observation) in
  let present := in_present observation in
  let address_hash := bitcoin_address_lookup_hash crypto (in_address observation) in
  match invoice_of_address db address_hash with
  | None => Ok (false, db)
  | Some (invoice, row) =>
      let columns := iv_columns row in
      let provider_v2 := is_some (t_provider_v2 db !! invoice) in
      creator_hash ← stored_lookup_hash (iv_creator_lookup_hash columns);
      found ← addressed_record invoice columns creator_hash (in_address observation);
      let required := found.2 in
      let amount_matched := present && (required <=? in_observed_sats observation) in
      existing ← existing_outpoint db invoice creator_hash outpoint (in_observed_sats observation);
      active ← active_binding db invoice creator_hash;
      if nothing_to_do provider_v2 active outpoint present required then Ok (true, db)
      else
        let replace := match active with
                       | Some (r, record) =>
                           bool_decide (action_for provider_v2 r record outpoint present required = Replace)
                       | None => false
                       end in
        written ← write_observation db fresh nonce invoice columns creator_hash outpoint
          (in_observed_sats observation) (in_confirmations observation) present replace amount_matched
          provider_v2 existing observed_at;
        db ← project_payments written.2 invoice creator_hash found.1 observed_at;
        Ok (true, project_provider_v2_sample db invoice written.1 observed_at present
                    (in_confirmations observation) amount_matched)
  end.

Definition expire_unmatched_at_deadline_in_tx (db : PaymentDb) (address : string) (observed_at : Z) : PaymentDb :=
  let hash := bitcoin_address_lookup_hash crypto address in
  set_invoices db (map_imap (λ id i,
    let c := iv_columns i in
    let p := iv_projection i in
    Some (if bool_decide (iv_address_lookup_hash c = Some hash)
             && (iv_payment_deadline c =? observed_at) && is_none (iv_first_matched_at p)
             && is_none (iv_payment_expired_at p) && is_none (t_provider_v2 db !! id)
          then mk_PaymentInvoice c (mk_ProjectionColumns (iv_payment_status p) (iv_confirmation_count p)
                 (iv_amount_matched p) (iv_first_matched_at p) (iv_first_matched_outpoint p) (Some observed_at))
          else i)) (t_invoices db)).

(** The observations of a batch with the fresh id and nonce each would use. *)
Fixpoint apply_each (db : PaymentDb) (batch : list (RowId * string * BitcoinObservationInput))
    (observed_at : Z) (applied : Z) : result PersistenceError (Z * PaymentDb) :=
  match batch with
  | [] => Ok (applied, db)
  | (fresh, nonce, observation) :: batch =>
      r ← apply_bitcoin_observation_in_tx db fresh nonce observation observed_at;
      apply_each r.2 batch observed_at (if r.1 : bool then applied + 1 else applied)
  end.

Definition apply_bitcoin_observation_batch (db : PaymentDb)
    (batch : list (RowId * string * BitcoinObservationInput)) (observed_at : Z) :
    result PersistenceError (Z * PaymentDb) :=
  match batch with
  | [] => Ok (0, db)
  | _ =>
      r ← apply_each db batch observed_at 0;
      Ok (r.1, foldl (λ db o, expire_unmatched_at_deadline_in_tx db (in_address o.2) observed_at) r.2 batch)
  end.

(** ** USDT receipts *)

(** [UPDATE usdt_observations .. WHERE invoice_id = $1 AND transfer_lookup_hash = $2 AND
    NOT finalized], then the projection. *)
Definition clear_usdt_transfer (db : PaymentDb) (invoice : RowId) (creator_hash : string)
    (payment : InvoicePaymentRecordV1) (identity_hash : string) (db_now now : Z) :
    result PersistenceError PaymentDb :=
  let clear r :=
    if owned_by invoice (us_invoice_id r) && String.eqb (us_transfer_lookup_hash r) identity_hash
       && negb (us_finalized r)
    then mk_UsdtRow (us_invoice_id r) (us_marketplace_preparation_id r) (us_transfer_lookup_hash r)
           (us_envelope r) 0 false (us_finalized r) db_now
    else r in
  project_payments (set_usdt db (clear <$> t_usdt db)) invoice creator_hash payment now.

Definition apply_usdt_transfer (db : PaymentDb) (fresh : RowId) (nonce : string) (invoice : RowId)
    (creator_hash : string) (payment : InvoicePaymentRecordV1) (transfer : VerifiedTransfer)
    (db_now now : Z) : result PersistenceError (bool * PaymentDb) :=
  let hash := usdt_transfer_lookup_hash crypto (vt_identity transfer) in
  let existing := select_one (λ _ r, String.eqb (us_transfer_lookup_hash r) hash) (t_usdt db) in
  let skip := match existing with
              | Some (_, r) => if negb (owned_by invoice (us_invoice_id r)) then Some false
                               else if us_finalized r then Some true else None
              | None => None
              end in
  match skip with
  | Some answer => Ok (answer, db)
  | None =>
      let id := match existing with Some (id, _) => id | None => fresh end in
      envelope ← map_err (λ _, PE_CorruptOrMissing)
        (encrypt crypto nonce (ctx_usdt_observation creator_hash id invoice)
           (encode_transfer (mk_TransferFacts (vt_identity transfer) (vt_amount transfer) (vt_timestamp transfer))
              (vt_sender transfer)));
      ensure (vt_confirmations transfer <=? i32_max) PE_InvalidInput;;
      let prep := match existing with Some (_, r) => us_marketplace_preparation_id r | None => None end in
      ensure (is_some existing || is_none (t_usdt db !! id)) PE_Unavailable;;
      let row := mk_UsdtRow (Some invoice) prep hash envelope (vt_confirmations transfer) true
                   (vt_finalized transfer) db_now in
      db ← project_payments (set_usdt db (<[id := row]> (t_usdt db))) invoice creator_hash payment now;
      Ok (true, db)
  end.
End observations.

(** ** Lemmas: selections *)

Lemma select_one_some {V} (p : RowId → V → bool) (t : gmap RowId V) k v :
  select_one p t = Some (k, v) → t !! k = Some v ∧ p k v = true.
Proof.
  unfold select_one. intros H. apply head_Some_elem_of in H.
  apply list_elem_of_filter in H as [Hp Hin%elem_of_map_to_list]. split; [done|].
  by apply Is_true_true.
Qed.

Lemma select_one_none {V} (p : RowId → V → bool) (t : gmap RowId V) :
  select_one p t = None → ∀ k v, t !! k = Some v → p k v = false.
Proof.
  unfold select_one. intros H k v Hk. destruct (p k v) eqn:E; [|done].
  apply head_None in H.
  assert (Hin : (k, v) ∈ filter (λ kv, Is_true (p kv.1 kv.2)) (map_to_list t)).
  { apply list_elem_of_filter. split; [by apply Is_true_true|by apply elem_of_map_to_list]. }
  rewrite H in Hin. by apply not_elem_of_nil in Hin.
Qed.

Lemma exists_row_false {V} (p : RowId → V → bool) (t : gmap RowId V) :
  exists_row p t = false → ∀ k v, t !! k = Some v → p k v = false.
Proof.
  unfold exists_row. destruct (select_one p t) eqn:E; [done|]. intros _. by apply select_one_none.
Qed.

(** A selection by a condition that holds of at most one row finds that row. *)
Lemma select_one_unique {V} (p : RowId → V → bool) (t : gmap RowId V) k v :
  t !! k = Some v → p k v = true → (∀ k' v', t !! k' = Some v' → p k' v' = true → k' = k) →
  select_one p t = Some (k, v).
Proof.
  intros Hk Hp Hu. destruct (select_one p t) as [[k' v']|] eqn:E.
  - apply select_one_some in E as [Hk' Hp']. assert (k' = k) as -> by eauto. congruence.
  - apply (select_one_none _ _ E) in Hk. congruence.
Qed.

Lemma owned_by_true invoice o : owned_by invoice o = true ↔ o = Some invoice.
Proof. unfold owned_by. by rewrite bool_decide_eq_true. Qed.

Lemma active_for_true invoice r :
  active_for invoice r = true ↔ ob_invoice_id r = Some invoice ∧ ob_active r = true.
Proof. unfold active_for. by rewrite andb_true_iff, owned_by_true. Qed.

(** ** The invariant of the tables *)

(** An output belongs to one row, an invoice has one active row, a row has one owner. *)
Definition observations_wf (t : gmap RowId ObservationRow) : Prop :=
  (∀ i j r s, t !! i = Some r → t !! j = Some s →
     ob_outpoint_lookup_hash r = ob_outpoint_lookup_hash s → i = j)
  ∧ (∀ invoice i j r s, t !! i = Some r → t !! j = Some s →
       active_for invoice r = true → active_for invoice s = true → i = j)
  ∧ (∀ i r, t !! i = Some r →
       is_some (ob_invoice_id r) = negb (is_some (ob_marketplace_preparation_id r))
       ∧ 0 <= ob_confirmations r).

(** A timely match is a stored output of that invoice. *)
Definition timely_wf (t : gmap RowId ObservationRow) (timely : gset (RowId * string)) : Prop :=
  ∀ invoice hash, (invoice, hash) ∈ timely →
    ∃ k r, t !! k = Some r ∧ ob_invoice_id r = Some invoice ∧ ob_outpoint_lookup_hash r = hash.

Definition invoices_wf (t : gmap RowId PaymentInvoice) : Prop :=
  ∀ i row, t !! i = Some row → invoice_check row = true.

(** [invoice_provider_v2_current_sample_shape] with the column checks. *)
Definition sample_shape (s : SampleRow) : bool :=
  (0 <=? sa_confirmations s) && (sa_confirmations s <=? 6)
  && ((String.eqb (sa_status s) "undetected" && is_none (sa_observation_id s)
         && (sa_confirmations s =? 0) && negb (sa_amount_matched s))
      || (String.eqb (sa_status s) "detected" && is_some (sa_observation_id s) && (sa_confirmations s =? 0))
      || (String.eqb (sa_status s) "confirmed" && is_some (sa_observation_id s) && (0 <? sa_confirmations s))).

(** First evidence reaches its binding's threshold by its deadline. *)
Definition evidence_sufficient (b : ProviderBinding) (s : SampleRow) : bool :=
  sa_amount_matched s && is_some (sa_observation_id s) && sample_shape s
  && (pb_minimum_confirmations b <=? sa_confirmations s) && (sa_observed_at s <=? pb_deadline b).

Definition samples_wf (bindings : gmap RowId ProviderBinding) (samples evidence : gmap RowId SampleRow) : Prop :=
  (∀ i s, samples !! i = Some s → is_some (bindings !! i) = true ∧ sample_shape s = true)
  ∧ (∀ i s, evidence !! i = Some s → ∃ b, bindings !! i = Some b ∧ evidence_sufficient b s = true).

Definition receipts_wf (t : gmap RowId UsdtRow) : Prop :=
  ∀ i j r s, t !! i = Some r → t !! j = Some s →
    us_transfer_lookup_hash r = us_transfer_lookup_hash s → i = j.

Definition db_wf (db : PaymentDb) : Prop :=
  observations_wf (t_observations db) ∧ timely_wf (t_observations db) (t_timely db)
  ∧ invoices_wf (t_invoices db) ∧ samples_wf (t_provider_v2 db) (t_samples db) (t_evidence db)
  ∧ receipts_wf (t_usdt db).

(** ** What no transaction undoes *)

Definition same_evidence (r s : ObservationRow) : Prop :=
  ob_invoice_id s = ob_invoice_id r
  ∧ ob_marketplace_preparation_id s = ob_marketplace_preparation_id r
  ∧ ob_envelope s = ob_envelope r ∧ ob_outpoint_lookup_hash s = ob_outpoint_lookup_hash r
  ∧ ob_first_observed_at s = ob_first_observed_at r.

(** A receipt keeps its owner and identity, and everything once finalized. *)
Definition same_receipt (r s : UsdtRow) : Prop :=
  us_invoice_id s = us_invoice_id r
  ∧ us_marketplace_preparation_id s = us_marketplace_preparation_id r
  ∧ us_transfer_lookup_hash s = us_transfer_lookup_hash r
  ∧ (us_finalized r = true → s = r).

Definition rows_kept {V} (R : V → V → Prop) (t t' : gmap RowId V) : Prop :=
  ∀ k r, t !! k = Some r → ∃ s, t' !! k = Some s ∧ R r s.

Definition db_extends (db db' : PaymentDb) : Prop :=
  rows_kept (λ i j, iv_columns j = iv_columns i) (t_invoices db) (t_invoices db')
  ∧ rows_kept same_evidence (t_observations db) (t_observations db')
  ∧ t_timely db ⊆ t_timely db' ∧ t_provider_v2 db' = t_provider_v2 db
  ∧ t_evidence db ⊆ t_evidence db'
  ∧ rows_kept same_receipt (t_usdt db) (t_usdt db')
  ∧ t_contacts db ⊆ t_contacts db'.

#[global] Instance same_evidence_preorder : PreOrder same_evidence.
Proof. split; [done|]. unfold same_evidence. intros r s u. intuition congruence. Qed.

#[global] Instance same_receipt_preorder : PreOrder same_receipt.
Proof.
  split; [done|]. intros r s u (? & ? & ? & Hr) (? & ? & ? & Hs). split_and!; [congruence..|].
  intros Hf. pose proof (Hr Hf) as ->. by apply Hs.
Qed.

Lemma rows_kept_refl {V} (R : V → V → Prop) `{!Reflexive R} t : rows_kept R t t.
Proof. intros k r Hk. by exists r. Qed.

Lemma rows_kept_trans {V} (R : V → V → Prop) `{!Transitive R} t u v :
  rows_kept R t u → rows_kept R u v → rows_kept R t v.
Proof.
  intros H1 H2 k r (s & Hs & Hrs)%H1. destruct (H2 _ _ Hs) as (x & Hx & Hsx).
  exists x. split; [done|by transitivity s].
Qed.

#[global] Instance same_columns_preorder :
  PreOrder (λ i j : PaymentInvoice, iv_columns j = iv_columns i).
Proof. split; [done|]. intros ? ? ? ? ?. congruence. Qed.

#[global] Instance db_extends_preorder : PreOrder db_extends.
Proof.
  split.
  - intros db. unfold db_extends. split_and!; try done; apply rows_kept_refl; apply _.
  - intros a b c (Ha & Hb & Hc & Hd & He & Hf & Hg) (Ha' & Hb' & Hc' & Hd' & He' & Hf' & Hg').
    split_and!; [eapply rows_kept_trans; [apply _|done..]|eapply rows_kept_trans; [apply _|done..]
      |set_solver|congruence|by transitivity (t_evidence b)
      |eapply rows_kept_trans; [apply _|done..]|by transitivity (t_contacts b)].
Qed.

Lemma rows_kept_insert_new {V} (R : V → V → Prop) `{!Reflexive R} (t : gmap RowId V) k r :
  t !! k = None → rows_kept R t (<[k := r]> t).
Proof.
  intros Hk k' r' Hk'. exists r'. split; [|done]. rewrite lookup_insert_ne; [done|]. congruence.
Qed.

Lemma rows_kept_insert {V} (R : V → V → Prop) `{!Reflexive R} (t : gmap RowId V) k r r' :
  t !! k = Some r → R r r' → rows_kept R t (<[k := r']> t).
Proof.
  intros Hk HR k' s Hk'. destruct (decide (k = k')) as [<-|Hne].
  - exists r'. rewrite lookup_insert_eq. split; [done|congruence].
  - exists s. by rewrite lookup_insert_ne.
Qed.

Lemma rows_kept_fmap {V} (R : V → V → Prop) (f : V → V) (t : gmap RowId V) :
  (∀ r, R r (f r)) → rows_kept R t (f <$> t).
Proof. intros Hf k r Hk. exists (f r). rewrite lookup_fmap, Hk. done. Qed.

(** ** Lemmas: statements *)

Lemma update_invoice_inv db id f db' :
  update_invoice db id f = Ok db' →
  db' = db ∨ ∃ i, t_invoices db !! id = Some i
    ∧ invoice_check (mk_PaymentInvoice (iv_columns i) (f (iv_columns i) (iv_projection i))) = true
    ∧ db' = set_invoices db
        (<[id := mk_PaymentInvoice (iv_columns i) (f (iv_columns i) (iv_projection i))]> (t_invoices db)).
Proof.
  unfold update_invoice. destruct (t_invoices db !! id) as [i|] eqn:Hi; [|intros [= <-]; by left].
  intros H. apply bind_ok in H as (? & Hc%ensure_ok & [= <-]). right. by exists i.
Qed.

Lemma update_invoice_wf db id f db' :
  update_invoice db id f = Ok db' → db_wf db → db_wf db' ∧ db_extends db db'.
Proof.
  intros [->|(i & Hi & Hc & ->)]%update_invoice_inv Hwf; [done|].
  destruct Hwf as (Ho & Ht & Hiv & Hs & Hr). split.
  - split_and!; try done. simpl. intros k row Hk.
    destruct (decide (id = k)) as [<-|Hne]; [rewrite lookup_insert_eq in Hk|rewrite lookup_insert_ne in Hk by done].
    + by injection Hk as <-.
    + by apply (Hiv k).
  - unfold db_extends; simpl. split_and!; try done; try (apply rows_kept_refl; apply _).
    eapply rows_kept_insert; [apply _|done|done].
Qed.

Lemma insert_contact_wf db invoice c db' :
  insert_contact db invoice c = Ok db' → db_wf db → db_wf db' ∧ db_extends db db'.
Proof.
  unfold insert_contact. destruct (exists_row _ _); [intros [= <-]; done|].
  intros H. apply bind_ok in H as (? & Hn%ensure_ok & [= <-]). intros Hwf. split; [done|].
  unfold db_extends; simpl. split_and!; try done; try (apply rows_kept_refl; apply _).
  apply insert_subseteq. by destruct (t_contacts db !! invoice).
Qed.

Lemma deactivate_evidence invoice r : same_evidence r (deactivate invoice r).
Proof. unfold deactivate. by destruct (active_for invoice r). Qed.

Lemma deactivate_active invoice other r :
  active_for other (deactivate invoice r) = true → active_for other r = true ∧ other ≠ invoice.
Proof.
  unfold deactivate. destruct (active_for invoice r) eqn:E.
  - unfold active_for. simpl. by rewrite andb_false_r.
  - intros H. split; [done|]. intros ->. congruence.
Qed.

Lemma deactivate_all_wf db invoice : db_wf db → db_wf (deactivate_all db invoice) ∧ db_extends db (deactivate_all db invoice).
Proof.
  intros ((Hu & Ha & Ho) & Ht & Hrest). split.
  - split; [|split; [|done]]; simpl.
    + split_and!.
      * intros i j r s Hi Hj. rewrite lookup_fmap in Hi, Hj.
        apply fmap_Some in Hi as (r0 & Hi & ->), Hj as (s0 & Hj & ->).
        destruct (deactivate_evidence invoice r0) as (_ & _ & _ & -> & _).
        destruct (deactivate_evidence invoice s0) as (_ & _ & _ & -> & _). by apply Hu.
      * intros other i j r s Hi Hj. rewrite lookup_fmap in Hi, Hj.
        apply fmap_Some in Hi as (r0 & Hi & ->), Hj as (s0 & Hj & ->).
        intros [? _]%deactivate_active [? _]%deactivate_active. by apply (Ha other i j r0 s0).
      * intros i r Hi. rewrite lookup_fmap in Hi. apply fmap_Some in Hi as (r0 & Hi & ->).
        apply Ho in Hi. unfold deactivate. by destruct (active_for invoice r0).
    + intros inv h (k & r & Hk & Hinv & Hh)%Ht. exists k, (deactivate invoice r).
      rewrite lookup_fmap, Hk. destruct (deactivate_evidence invoice r) as (-> & _ & _ & -> & _). done.
  - unfold db_extends; simpl. split_and!; try done; try (apply rows_kept_refl; apply _).
    apply rows_kept_fmap, deactivate_evidence.
Qed.

(** What a successful upsert of one row did. *)
Lemma upsert_observation_inv db id row invoice db' :
  ob_invoice_id row = Some invoice → ob_active row = true →
  upsert_observation db id row invoice = Ok (1, db') →
  ∃ key new,
    db' = set_observations db (<[key := new]> (t_observations db))
    ∧ (∀ k r, t_observations db !! k = Some r → active_for invoice r = true → k = key)
    ∧ active_for invoice new = true
    ∧ ob_outpoint_lookup_hash new = ob_outpoint_lookup_hash row
    ∧ ob_confirmations new = ob_confirmations row ∧ ob_present new = ob_present row
    ∧ ((∃ old, t_observations db !! key = Some old ∧ same_evidence old new
          ∧ select_one (λ _ r, String.eqb (ob_outpoint_lookup_hash r) (ob_outpoint_lookup_hash row))
              (t_observations db) = Some (key, old))
       ∨ (key = id ∧ new = row ∧ t_observations db !! id = None
          ∧ ∀ k r, t_observations db !! k = Some r →
              ob_outpoint_lookup_hash r ≠ ob_outpoint_lookup_hash row)).
Proof.
  intros Hinv Hact. unfold upsert_observation.
  assert (Hothers : ∀ key, negb (exists_row (λ k r, negb (bool_decide (k = key)) && active_for invoice r)
                     (t_observations db)) = true →
                   ∀ k r, t_observations db !! k = Some r → active_for invoice r = true → k = key).
  { intros key He%negb_true_iff k r Hk Hr. pose proof (exists_row_false _ _ He _ _ Hk) as Hf. simpl in Hf.
    rewrite Hr, andb_true_r in Hf. apply negb_false_iff, bool_decide_eq_true in Hf. done. }
  destruct (select_one _ _) as [[key old]|] eqn:Hsel.
  - destruct (owned_by invoice (ob_invoice_id old)) eqn:Hown; [|by intros [=]].
    intros H. apply bind_ok in H as (? & Hone%ensure_ok & [= <-]).
    pose proof (select_one_some _ _ _ _ Hsel) as [Hold Hh%String.eqb_eq].
    eexists key, _. split_and!; [done|by apply Hothers| |done..|].
    { apply active_for_true. simpl. split; [by apply owned_by_true|done]. }
    left. by exists old.
  - intros H. apply bind_ok in H as (? & Hnone%ensure_ok & H).
    apply bind_ok in H as (? & Hone%ensure_ok & [= <-]).
    exists id, row. split_and!; [done|by apply Hothers|by apply active_for_true|done..|].
    right. split_and!; [done|done|by destruct (t_observations db !! id)|].
    intros k r Hk. pose proof (select_one_none _ _ Hsel _ _ Hk) as Hf. simpl in Hf.
    by apply String.eqb_neq in Hf.
Qed.

Lemma upsert_observation_wf db id row invoice db' :
  ob_invoice_id row = Some invoice → ob_marketplace_preparation_id row = None →
  ob_active row = true → 0 <= ob_confirmations row →
  upsert_observation db id row invoice = Ok (1, db') → db_wf db → db_wf db' ∧ db_extends db db'.
Proof.
  intros Hinv Hprep Hact Hconf H ((Hu & Ha & Ho) & Ht & Hrest).
  apply upsert_observation_inv in H as (key & new & -> & Huniq & Hnew & Hh & Hc & Hp & Hcase); [|done..].
  assert (Hkept : rows_kept same_evidence (t_observations db) (<[key := new]> (t_observations db))).
  { destruct Hcase as [(old & Hold & Hev & _)|(-> & -> & Hnone & _)];
      [eapply rows_kept_insert; [apply _|done..]|apply rows_kept_insert_new; [apply _|done]]. }
  assert (Hother : ∀ k r, t_observations db !! k = Some r → k ≠ key →
                     ob_outpoint_lookup_hash r ≠ ob_outpoint_lookup_hash new).
  { intros k r Hk Hne Heq. destruct Hcase as [(old & Hold & (_ & _ & _ & Hho & _) & _)|(-> & -> & _ & Hnone)].
    - apply Hne, (Hu k key r old); congruence.
    - by apply (Hnone k r). }
  split; [split; [split_and!|split; [|done]]|]; simpl.
  - intros i j r s Hi Hj Heq. apply lookup_insert_Some in Hi as [[<- <-]|[Hni Hi]], Hj as [[<- <-]|[Hnj Hj]];
      try done; [exfalso; by apply (Hother j s)|exfalso; by apply (Hother i r)|by apply (Hu i j r s)].
  - intros inv i j r s Hi Hj Hri Hsj.
    apply active_for_true in Hnew as [Hnewi _].
    apply lookup_insert_Some in Hi as [[<- <-]|[Hni Hi]], Hj as [[<- <-]|[Hnj Hj]]; try done.
    + assert (inv = invoice) as -> by (apply active_for_true in Hri as [? _]; congruence).
      symmetry. by apply (Huniq j s).
    + assert (inv = invoice) as -> by (apply active_for_true in Hsj as [? _]; congruence).
      by apply (Huniq i r).
    + by apply (Ha inv i j r s).
  - intros i r Hi. apply lookup_insert_Some in Hi as [[<- <-]|[Hni Hi]]; [|by apply (Ho i)].
    split; [|lia]. destruct Hcase as [(old & Hold & (Hi & Hm & _) & _)|(_ & -> & _)].
    + rewrite Hi, Hm. by apply (Ho key).
    + by rewrite Hinv, Hprep.
  - intros inv h (k & r & Hk & Hi & Hhh)%Ht. destruct (Hkept _ _ Hk) as (s & Hs & (? & _ & _ & ? & _)).
    exists k, s. split_and!; [done|congruence..].
  - unfold db_extends; simpl. split_and!; try done; apply rows_kept_refl; apply _.
Qed.

Lemma project_provider_v2_sample_wf db invoice id observed_at present confirmations matched :
  db_wf db → let db' := project_provider_v2_sample db invoice id observed_at present confirmations matched in
  db_wf db' ∧ db_extends db db'.
Proof.
  intros Hwf. unfold project_provider_v2_sample.
  destruct (t_provider_v2 db !! invoice) as [b|] eqn:Hb; [|done].
  set (bounded := bounded_confirmations confirmations).
  assert (Hbound : 0 <= bounded <= 6) by (unfold bounded, bounded_confirmations; lia).
  set (sample := mk_SampleRow (if present then Some id else None) observed_at
                   (payment_status_text present bounded) (if present then bounded else 0)
                   (if present then matched else false)).
  assert (Hshape : ∀ m, sample_shape (mk_SampleRow (if present then Some id else None) observed_at
                   (payment_status_text present bounded) (if present then bounded else 0)
                   (if present then m else false)) = true).
  { intros m. unfold sample_shape, payment_status_text. simpl.
    destruct present; simpl; [|done]. destruct (bounded =? 0) eqn:E; simpl.
    - apply Z.eqb_eq in E. rewrite E. done.
    - apply Z.eqb_neq in E. assert (0 <? bounded = true) as -> by (apply Z.ltb_lt; lia).
      assert (0 <=? bounded = true) as -> by (apply Z.leb_le; lia).
      assert (bounded <=? 6 = true) as -> by (apply Z.leb_le; lia). done. }
  cbv zeta. destruct Hwf as (Ho & Ht & Hiv & (Hs & He) & Hr).
  assert (Hs' : ∀ i s, (<[invoice := sample]> (t_samples db)) !! i = Some s →
                 is_some (t_provider_v2 db !! i) = true ∧ sample_shape s = true).
  { intros i s [[<- <-]|[_ Hi]]%lookup_insert_Some; [|by apply (Hs i)]. rewrite Hb. split; [done|apply Hshape]. }
  destruct (_ && is_none _) eqn:Hcond; simpl in Hcond.
  - split_bools. split; [split_and!; try done; split; [done|]; simpl|].
    + intros i s [[<- <-]|[_ Hi]]%lookup_insert_Some; [|by apply (He i)]. exists b. split; [done|].
      unfold evidence_sufficient. simpl. specialize (Hshape true). destruct present; [|done].
      simpl in Hshape. rewrite Hshape. simpl. rewrite andb_true_iff, !Z.leb_le. lia.
    + unfold db_extends; simpl. split_and!; try done; try (apply rows_kept_refl; apply _).
      apply insert_subseteq. unfold is_none in *. destruct (t_evidence db !! invoice); [done|done].
  - split; [by split_and!|]. unfold db_extends; simpl. split_and!; try done; apply rows_kept_refl; apply _.
Qed.

Lemma set_timely_wf db invoice hash :
  (∃ k r, t_observations db !! k = Some r ∧ ob_invoice_id r = Some invoice ∧ ob_outpoint_lookup_hash r = hash) →
  db_wf db → let db' := set_timely db ({[(invoice, hash)]} ∪ t_timely db) in db_wf db' ∧ db_extends db db'.
Proof.
  intros Hrow (Ho & Ht & Hrest). split.
  - split_and!; try apply Hrest; [done|]. simpl. intros inv h Hin.
    apply elem_of_union in Hin as [[= -> ->]%elem_of_singleton|Hin]; [done|by apply Ht].
  - unfold db_extends; simpl. split_and!; try done; try (apply rows_kept_refl; apply _). set_solver.
Qed.

(** Chain the two halves of a preserved transaction. *)
Lemma extends_step (P : Prop) a b c : db_extends a b → P ∧ db_extends b c → P ∧ db_extends a c.
Proof. intros H [? ?]. split; [done|by transitivity b]. Qed.

Section observation_lemmas.
Context {prim : CryptoPrimitives} {codec : ObservationCodec} (crypto : Crypto).

(** Everything a successful projection did. *)
Lemma project_payments_inv db invoice creator_hash payment now db' :
  project_payments crypto db invoice creator_hash payment now = Ok db' →
  ∃ row bitcoin usdt,
    let usdt_eligible := match usdt with Some p => eligible p | None => false end in
    let is_eligible := eligible bitcoin || usdt_eligible in
    let received_at := if usdt_eligible then usdt ≫= op_received_at else None in
    t_invoices db !! invoice = Some row
    ∧ bitcoin_payment crypto db invoice creator_hash (pr_bitcoin payment) = Ok bitcoin
    ∧ usdt_half crypto db (iv_columns row) invoice creator_hash (pr_usdt payment) = Ok usdt
    ∧ ∃ db1, update_invoice db invoice (projected_columns bitcoin received_at is_eligible now) = Ok db1
      ∧ (if is_eligible then insert_contact db1 invoice (iv_columns row) else Ok db1) = Ok db'.
Proof.
  unfold project_payments. intros H.
  apply bind_ok in H as (row & Hrow%ok_or_ok & H).
  apply bind_ok in H as (bitcoin & Hbitcoin & H).
  apply bind_ok in H as (usdt & Husdt & H). cbv zeta in H.
  apply bind_ok in H as (db1 & H1 & H). exists row, bitcoin, usdt. cbv zeta.
  split_and!; [done..|]. by exists db1.
Qed.

Lemma project_payments_wf db invoice creator_hash payment now db' :
  project_payments crypto db invoice creator_hash payment now = Ok db' →
  db_wf db → db_wf db' ∧ db_extends db db'.
Proof.
  intros (row & b & u & _ & _ & _ & db1 & H1 & H)%project_payments_inv Hwf.
  apply update_invoice_wf in H1 as [Hwf1 He]; [|done]. apply (extends_step _ _ db1); [done|].
  destruct (_ || _); [by eapply insert_contact_wf|]. by injection H as <-.
Qed.

(** The projection writes only the invoice and the contacts. *)
Lemma project_payments_tables db invoice creator_hash payment now db' :
  project_payments crypto db invoice creator_hash payment now = Ok db' →
  t_observations db' = t_observations db ∧ t_timely db' = t_timely db
  ∧ t_provider_v2 db' = t_provider_v2 db ∧ t_evidence db' = t_evidence db ∧ t_usdt db' = t_usdt db.
Proof.
  intros (row & b & u & _ & _ & _ & db1 & H1 & H)%project_payments_inv.
  apply update_invoice_inv in H1.
  assert (Hc : t_observations db' = t_observations db1 ∧ t_timely db' = t_timely db1
     ∧ t_provider_v2 db' = t_provider_v2 db1 ∧ t_evidence db' = t_evidence db1 ∧ t_usdt db' = t_usdt db1).
  { destruct (_ || _); [|by injection H as <-]. unfold insert_contact in H.
    destruct (exists_row _ _); [by injection H as <-|]. by apply bind_ok in H as (? & _ & [= <-]). }
  by destruct H1 as [->|(i & _ & _ & ->)].
Qed.

Lemma write_observation_wf db fresh nonce invoice columns creator_hash outpoint sats confirmations
    present replace matched v2 existing observed_at id db' :
  0 <= confirmations →
  write_observation crypto db fresh nonce invoice columns creator_hash outpoint sats confirmations
    present replace matched v2 existing observed_at = Ok (id, db') →
  db_wf db → db_wf db' ∧ db_extends db db'.
Proof.
  unfold write_observation. intros Hconf H Hwf. cbv zeta in H.
  set (db0 := if replace then deactivate_all db invoice else db) in H.
  assert (db_wf db0 ∧ db_extends db db0) as [Hwf0 He0].
  { unfold db0. destruct replace; [by apply deactivate_all_wf|done]. }
  apply bind_ok in H as (envelope & _ & H). apply bind_ok in H as ([n db1] & Hup & H).
  apply bind_ok in H as (? & Hn%ensure_ok & H). apply Z.eqb_eq in Hn. simpl in Hn, H. subst n.
  pose proof Hup as (key & new & -> & _ & Hnew & Hh & _)%upsert_observation_inv; [|done..].
  apply upsert_observation_wf in Hup as [Hwf1 He1]; [|done..].
  apply (extends_step _ _ db0); [done|]. eapply extends_step; [exact He1|].
  set (db1 := set_observations _ _) in *. set (db2 := if _ && _ then set_timely _ _ else db1) in H.
  assert (db_wf db2 ∧ db_extends db1 db2) as [Hwf2 He2].
  { unfold db2. destruct (_ && _); [|done]. apply set_timely_wf; [|done].
    exists key, new. simpl. rewrite lookup_insert_eq. apply active_for_true in Hnew as [? _]. done. }
  apply (extends_step _ _ db2); [done|].
  apply bind_ok in H as (db3 & H3 & [= <- <-]).
  destruct (matched && negb v2); [by eapply update_invoice_wf|]. by injection H3 as <-.
Qed.

(** The two ways an observation transaction succeeds. *)
Lemma apply_in_tx_inv db fresh nonce o observed_at applied db' :
  apply_bitcoin_observation_in_tx crypto db fresh nonce o observed_at = Ok (applied, db') →
  db' = db ∨ ∃ invoice row payment required existing active id db1 db2,
    let outpoint := canonical_text (in_outpoint o) in
    let v2 := is_some (t_provider_v2 db !! invoice) in
    let creator_hash := iv_creator_lookup_hash (iv_columns row) in
    let matched := in_present o && (required <=? in_observed_sats o) in
    applied = true ∧ in_confirmations o <= i32_max
    ∧ invoice_of_address db (bitcoin_address_lookup_hash crypto (in_address o)) = Some (invoice, row)
    ∧ addressed_record crypto invoice (iv_columns row) creator_hash (in_address o) = Ok (payment, required)
    ∧ existing_outpoint crypto db invoice creator_hash outpoint (in_observed_sats o) = Ok existing
    ∧ active_binding crypto db invoice creator_hash = Ok active
    ∧ nothing_to_do v2 active outpoint (in_present o) required = false
    ∧ write_observation crypto db fresh nonce invoice (iv_columns row) creator_hash outpoint
        (in_observed_sats o) (in_confirmations o) (in_present o)
        (match active with
         | Some (r, record) => bool_decide (action_for v2 r record outpoint (in_present o) required = Replace)
         | None => false end) matched v2 existing observed_at = Ok (id, db1)
    ∧ project_payments crypto db1 invoice creator_hash payment observed_at = Ok db2
    ∧ db' = project_provider_v2_sample db2 invoice id observed_at (in_present o) (in_confirmations o) matched.
Proof.
  unfold apply_bitcoin_observation_in_tx. intros H.
  apply bind_ok in H as (? & Hc%ensure_ok & H). apply Z.leb_le in Hc. cbv zeta in H.
  destruct (invoice_of_address _ _) as [[invoice row]|] eqn:Hinv; [|injection H as <- <-; by left].
  apply bind_ok in H as (creator_hash & Hch & H).
  unfold stored_lookup_hash in Hch. apply bind_ok in Hch as (? & _ & [= <-]).
  apply bind_ok in H as ([payment required] & Hrec & H). simpl in H.
  apply bind_ok in H as (existing & Hex & H). apply bind_ok in H as (active & Hact & H).
  destruct (nothing_to_do _ _ _ _ _) eqn:Hnot; [injection H as <- <-; by left|].
  apply bind_ok in H as ([id db1] & Hw & H). simpl in H.
  apply bind_ok in H as (db2 & Hp & [= <- <-]). right.
  exists invoice, row, payment, required, existing, active, id, db1, db2. done.
Qed.

Lemma apply_in_tx_wf db fresh nonce o observed_at applied db' :
  0 <= in_confirmations o →
  apply_bitcoin_observation_in_tx crypto db fresh nonce o observed_at = Ok (applied, db') →
  db_wf db → db_wf db' ∧ db_extends db db'.
Proof.
  intros Hc [->|(invoice & row & payment & required & existing & active & id & db1 & db2 & H)]%apply_in_tx_inv Hwf;
    [done|].
  destruct H as (_ & _ & _ & _ & _ & _ & _ & Hw & Hp & ->).
  apply write_observation_wf in Hw as [Hwf1 He1]; [|done..].
  apply project_payments_wf in Hp as [Hwf2 He2]; [|done].
  apply (extends_step _ _ db1); [done|]. apply (extends_step _ _ db2); [done|].
  by apply project_provider_v2_sample_wf.
Qed.

Lemma expire_wf db address observed_at :
  db_wf db → let db' := expire_unmatched_at_deadline_in_tx crypto db address observed_at in
  db_wf db' ∧ db_extends db db'.
Proof.
  intros (Ho & Ht & Hiv & Hrest). unfold expire_unmatched_at_deadline_in_tx. split.
  - split_and!; try done; try apply Hrest. simpl. intros i row Hi. rewrite map_lookup_imap in Hi.
    apply bind_Some in Hi as (r & Hr & [= <-]). apply Hiv in Hr.
    destruct (_ && is_none _) eqn:E; [|done]. split_bools. unfold invoice_check in *. simpl.
    split_bools. match goal with H : is_none (iv_first_matched_at _) = true |- _ =>
      destruct (iv_first_matched_at (iv_projection r)); [done|] end.
    rewrite andb_true_r. apply Z.leb_le. lia.
  - unfold db_extends; simpl. split_and!; try done; try (apply rows_kept_refl; apply _).
    intros k r Hk. rewrite map_lookup_imap, Hk. simpl. eexists. split; [done|]. by destruct (_ && _).
Qed.

Lemma apply_each_wf db batch observed_at n m db' :
  Forall (λ x : RowId * string * BitcoinObservationInput, 0 <= in_confirmations x.2) batch →
  apply_each crypto db batch observed_at n = Ok (m, db') → db_wf db →
  db_wf db' ∧ db_extends db db'.
Proof.
  revert db n. induction batch as [|[[fresh nonce] o] batch IH]; intros db n Hc H Hwf; simpl in H.
  { by injection H as _ <-. }
  inversion Hc as [|? ? Ho Hb]; subst.
  apply bind_ok in H as ([a db1] & H1 & H). apply apply_in_tx_wf in H1 as [Hwf1 He1]; [|done..].
  apply (extends_step _ _ db1); [done|]. by eapply IH.
Qed.

Lemma batch_wf db batch observed_at n db' :
  Forall (λ x : RowId * string * BitcoinObservationInput, 0 <= in_confirmations x.2) batch →
  apply_bitcoin_observation_batch crypto db batch observed_at = Ok (n, db') → db_wf db →
  db_wf db' ∧ db_extends db db'.
Proof.
  intros Hc H Hwf. unfold apply_bitcoin_observation_batch in H.
  destruct batch as [|x batch']; [by injection H as _ <-|]. revert H Hc. generalize (x :: batch'). intros batch H Hc.
  apply bind_ok in H as ([m db1] & H1 & [= _ <-]). simpl.
  apply apply_each_wf in H1 as [Hwf1 He1]; [|done..]. apply (extends_step _ _ db1); [done|].
  clear Hc He1 Hwf. revert db1 Hwf1. induction batch as [|y batch IH]; intros db1 Hwf1; simpl; [done|].
  destruct (expire_wf db1 (in_address y.2) observed_at Hwf1) as [Hwf2 He2].
  eapply extends_step; [exact He2|]. by apply IH.
Qed.

Lemma set_usdt_wf db t :
  receipts_wf t → rows_kept same_receipt (t_usdt db) t → db_wf db →
  db_wf (set_usdt db t) ∧ db_extends db (set_usdt db t).
Proof.
  intros Ht Hk (Ho & Hti & Hi & Hs & _). split; [by split_and!|].
  unfold db_extends; simpl. split_and!; try done; apply rows_kept_refl; apply _.
Qed.

(** A statement that rewrites receipts in place. *)
Lemma map_receipts_wf db (f : UsdtRow → UsdtRow) :
  (∀ r, same_receipt r (f r)) → db_wf db → db_wf (set_usdt db (f <$> t_usdt db)) ∧ db_extends db (set_usdt db (f <$> t_usdt db)).
Proof.
  intros Hf Hwf. apply set_usdt_wf; [|by apply rows_kept_fmap|done].
  intros i j r s Hi Hj Heq. rewrite lookup_fmap in Hi, Hj.
  apply fmap_Some in Hi as (r0 & Hi & ->), Hj as (s0 & Hj & ->).
  destruct (Hf r0) as (_ & _ & Hr & _), (Hf s0) as (_ & _ & Hs & _).
  destruct Hwf as (_ & _ & _ & _ & Hu). apply (Hu i j r0 s0); congruence.
Qed.

Lemma clear_usdt_transfer_wf db invoice creator_hash payment hash db_now now db' :
  clear_usdt_transfer crypto db invoice creator_hash payment hash db_now now = Ok db' →
  db_wf db → db_wf db' ∧ db_extends db db'.
Proof.
  unfold clear_usdt_transfer. cbv zeta. intros H Hwf.
  match type of H with project_payments _ (set_usdt _ (?f <$> _)) _ _ _ _ = _ => set (clear := f) in H end.
  destruct (map_receipts_wf db clear) as [Hwf1 He1]; [|done|].
  { intros r. unfold clear. destruct (_ && negb _) eqn:E; [|done]. split_bools.
    unfold same_receipt; simpl. split_and!; [done..|congruence]. }
  eapply extends_step; [exact He1|]. by eapply project_payments_wf.
Qed.

Lemma apply_usdt_transfer_wf db fresh nonce invoice creator_hash payment transfer db_now now b db' :
  apply_usdt_transfer crypto db fresh nonce invoice creator_hash payment transfer db_now now = Ok (b, db') →
  db_wf db → db_wf db' ∧ db_extends db db'.
Proof.
  unfold apply_usdt_transfer. set (hash := usdt_transfer_lookup_hash crypto _). intros H Hwf. cbv zeta in H.
  destruct (select_one _ (t_usdt db)) as [[id old]|] eqn:Hsel.
  - pose proof (select_one_some _ _ _ _ Hsel) as [Hold Hh%String.eqb_eq].
    destruct (owned_by invoice (us_invoice_id old)) eqn:Hown; simpl in H; [|by injection H as _ <-].
    destruct (us_finalized old) eqn:Hfin; [by injection H as _ <-|].
    apply bind_ok in H as (envelope & _ & H). apply bind_ok in H as (? & _ & H).
    apply bind_ok in H as (db1 & Hp & [= _ <-]). apply owned_by_true in Hown.
    match type of Hp with project_payments _ (set_usdt _ ?u) _ _ _ _ = _ =>
      destruct (set_usdt_wf db u) as [Hwf1 He1] end; [| |done|].
    + intros i j r s Hi Hj Heq. destruct Hwf as (_ & _ & _ & _ & Hu).
      apply lookup_insert_Some in Hi as [[<- <-]|[Hni Hi]], Hj as [[<- <-]|[Hnj Hj]]; simpl in *;
        [done|apply (Hu id j old s); congruence|apply (Hu i id r old); congruence|by apply (Hu i j r s)].
    + eapply rows_kept_insert; [apply _|done|]. unfold same_receipt; simpl. split_and!; congruence.
    + eapply extends_step; [exact He1|]. by eapply project_payments_wf.
  - apply bind_ok in H as (envelope & _ & H). apply bind_ok in H as (? & _ & H).
    apply bind_ok in H as (? & Hnew%ensure_ok & H). apply bind_ok in H as (db1 & Hp & [= _ <-]).
    simpl in Hnew. assert (Hnone : t_usdt db !! fresh = None) by (by destruct (t_usdt db !! fresh)).
    assert (Hother : ∀ k r, t_usdt db !! k = Some r → us_transfer_lookup_hash r ≠ hash).
    { intros k r Hk. by apply String.eqb_neq, (select_one_none _ _ Hsel k). }
    match type of Hp with project_payments _ (set_usdt _ ?u) _ _ _ _ = _ =>
      destruct (set_usdt_wf db u) as [Hwf1 He1] end; [| |done|].
    + intros i j r s Hi Hj Heq. destruct Hwf as (_ & _ & _ & _ & Hu).
      apply lookup_insert_Some in Hi as [[<- <-]|[Hni Hi]], Hj as [[<- <-]|[Hnj Hj]]; simpl in *;
        [done|by destruct (Hother _ _ Hj)|by destruct (Hother _ _ Hi)|by apply (Hu i j r s)].
    + apply rows_kept_insert_new; [apply _|done].
    + eapply extends_step; [exact He1|]. by eapply project_payments_wf.
Qed.
End observation_lemmas.
