(* ===== verification/Settlement.v ===== *)
(** * Settlement: what the payment tables promise

    The transactions of [Observations] as steps of one system (a batch of Bitcoin
    observations, a verified USDT receipt, a receipt that is no longer verified), the
    invariant they keep, what they never undo, and what one observation does to the
    invoice it pays. *)

From S2P Require Import Prelude Text Locks Invoice Receiving Payment Lifecycle Pricing Intent Database Crypto PaymentRecord Observations.
Local Open Scope string_scope.
Local Open Scope Z_scope.

(** ** Orders *)

#[global] Instance receipt_precompare : PreCompare receipt_compare.
Proof.
  unfold receipt_compare. repeat (apply precompare_then; [apply (precompare_pullback _ _)|]).
  apply (precompare_pullback fst str_compare).
Qed.

#[global] Instance batch_precompare : PreCompare cmp_for_batch.
Proof.
  unfold cmp_for_batch. repeat (apply precompare_then; [apply (precompare_pullback _ _)|]).
  apply (precompare_pullback in_confirmations Z.compare).
Qed.

Lemma then_with_eq c d : then_with c d = Eq → c = Eq ∧ d = Eq.
Proof. by destruct c. Qed.

Lemma cmp_for_batch_eq a b : cmp_for_batch a b = Eq → a = b.
Proof.
  unfold cmp_for_batch.
  intros (Ha & (Hp & (Ht & (Hv & (Hs & Hc)%then_with_eq)%then_with_eq)%then_with_eq)%then_with_eq)%then_with_eq.
  apply str_compare_eq in Ha, Ht. apply Z.compare_eq_iff in Hv, Hs, Hc.
  destruct a as [a [t v] s c p], b as [a' [t' v'] s' c' p']; simpl in *. subst. by destruct p, p'.
Qed.

#[global] Instance batch_total : TotalCompare cmp_for_batch.
Proof. split; [apply cmp_for_batch_eq|apply (pre_antisym cmp_for_batch)|apply (pre_trans cmp_for_batch)]. Qed.

(** A batch in the order the observer applies it. *)
Definition batch_sorted (l : list BitcoinObservationInput) : Prop :=
  StronglySorted (λ x y, cmp_for_batch x y ≠ Gt) l.

(** the order of a batch does not depend on the provider.  Two batches with the same
    observations, sorted by [cmp_for_batch], are the same list, and within an address
    every absence comes before every presence. *)
Theorem batch_order_canonical (a b : list BitcoinObservationInput) :
  batch_sorted a → batch_sorted b → a ≡ₚ b →
  a = b
  ∧ ∀ l x m y n, a = (l ++ x :: m ++ y :: n)%list → in_address x = in_address y →
      in_present x = true → in_present y = true.
Proof.
  unfold batch_sorted. intros Ha Hb Hp. split.
  - apply (StronglySorted_unique_strong (λ x y, cmp_for_batch x y ≠ Gt)); [|done..].
    intros x y _ _ Hxy Hyx. apply cmp_for_batch_eq. rewrite (pre_antisym cmp_for_batch x y) in Hyx.
    by destruct (cmp_for_batch x y).
  - intros l x m y n -> Haddr Hx. apply StronglySorted_app in Ha as (_ & _ & Ha).
    inversion Ha as [|? ? _ Hall]; subst. apply Forall_app in Hall as [_ Hall]. apply Forall_cons in Hall as [Hxy _].
    unfold cmp_for_batch in Hxy. rewrite Haddr, str_compare_refl, Hx in Hxy. simpl in Hxy. by destruct (in_present y).
Qed.

Section settlement.
Context {prim : CryptoPrimitives} {codec : ObservationCodec} (crypto : Crypto).

(** A committed transaction of the observers, any identifiers, nonces and clocks. *)
Inductive payment_step (db : PaymentDb) : PaymentDb → Prop :=
| step_batch batch observed_at n db' :
    Forall (λ x : RowId * string * BitcoinObservationInput, 0 <= in_confirmations x.2) batch →
    apply_bitcoin_observation_batch crypto db batch observed_at = Ok (n, db') →
    payment_step db db'
| step_receipt fresh nonce invoice creator_hash payment transfer db_now now b db' :
    apply_usdt_transfer crypto db fresh nonce invoice creator_hash payment transfer db_now now = Ok (b, db') →
    payment_step db db'
| step_clear invoice creator_hash payment hash db_now now db' :
    clear_usdt_transfer crypto db invoice creator_hash payment hash db_now now = Ok db' →
    payment_step db db'.

Lemma payment_step_wf db db' : payment_step db db' → db_wf db → db_wf db' ∧ db_extends db db'.
Proof.
  intros [batch at_ n ? Hc H|? ? ? ? ? ? ? ? ? ? H|? ? ? ? ? ? ? H] Hwf;
    [by eapply batch_wf|by eapply apply_usdt_transfer_wf|by eapply clear_usdt_transfer_wf].
Qed.

Lemma payment_steps_wf db db' : rtc payment_step db db' → db_wf db → db_wf db' ∧ db_extends db db'.
Proof.
  induction 1 as [db|db db1 db' H _ IH]; intros Hwf; [done|].
  apply payment_step_wf in H as [Hwf1 He]; [|done]. eapply extends_step; [exact He|]. by apply IH.
Qed.

(** C6: the invariant of the payment tables.  From consistent tables every sequence of
    observation transactions, on both chains, keeps them consistent: an output and a
    receipt belong to one row, an invoice has at most one active output, every timely match is a
    stored output of that invoice, expiry is never before the deadline, every sample
    satisfies the shape constraint, and first evidence reached its threshold by its
    deadline. *)
Theorem payment_tables_consistent db db' :
  rtc payment_step db db' → db_wf db → db_wf db'.
Proof. intros Hs Hwf. by apply (payment_steps_wf db). Qed.

(** C7: recorded payments are permanent.  No sequence of observation transactions removes
    or reassigns an output, rewrites its evidence or its first sighting, withdraws a
    timely match, changes a provider binding or first evidence, changes a receipt's owner or
    anything of a finalized receipt, or removes a contact. *)
Theorem payment_history_permanent db db' :
  rtc payment_step db db' → db_wf db → db_extends db db'.
Proof. intros Hs Hwf. by apply (payment_steps_wf db). Qed.

(** a settled output stays settled.  When the active output of an invoice without
    provider terms is present, pays the required amount and has six confirmations, no
    observation for its address changes anything: the transaction leaves the tables as
    they are, or fails and rolls back. *)
Theorem final_output_immutable db fresh nonce o observed_at applied db' invoice row r record payment required :
  invoice_of_address db (bitcoin_address_lookup_hash crypto (in_address o)) = Some (invoice, row) →
  t_provider_v2 db !! invoice = None →
  addressed_record crypto invoice (iv_columns row) (iv_creator_lookup_hash (iv_columns row)) (in_address o)
    = Ok (payment, required) →
  active_binding crypto db invoice (iv_creator_lookup_hash (iv_columns row)) = Ok (Some (r, record)) →
  direct_is_final (direct_binding r record) required = true →
  apply_bitcoin_observation_in_tx crypto db fresh nonce o observed_at = Ok (applied, db') →
  db' = db.
Proof.
  intros Hinv Hv2 Hrec Hact Hfinal H.
  apply apply_in_tx_inv in H as [->|(invoice' & row' & payment' & required' & existing & active & id & db1 & db2 & H)];
    [done|].
  destruct H as (_ & _ & Hinv' & Hrec' & _ & Hact' & Hnot & _). simplify_eq.
  rewrite Hrec in Hrec'. injection Hrec' as <- <-. rewrite Hact in Hact'. injection Hact' as <-.
  rewrite Hv2 in Hnot. unfold nothing_to_do in Hnot. unfold direct_is_final, direct_binding in Hfinal. simpl in *.
  apply andb_true_iff in Hfinal as [[Hp Hs]%andb_true_iff Hc%Z.leb_le].
  assert (6 <=? ob_confirmations r = true) as Hc' by (apply Z.leb_le; lia). by rewrite Hp, Hs, Hc' in Hnot.
Qed.

(** an absence never manufactures a payment.  Reporting an output as absent changes
    nothing when the invoice has no active output, or when its active output is another
    one. *)
Theorem absence_creates_nothing db fresh nonce o observed_at applied db' invoice row active :
  invoice_of_address db (bitcoin_address_lookup_hash crypto (in_address o)) = Some (invoice, row) →
  active_binding crypto db invoice (iv_creator_lookup_hash (iv_columns row)) = Ok active →
  in_present o = false →
  match active with
  | None => True
  | Some (_, record) => bo_outpoint record ≠ canonical_text (in_outpoint o)
  end →
  apply_bitcoin_observation_in_tx crypto db fresh nonce o observed_at = Ok (applied, db') →
  db' = db.
Proof.
  intros Hinv Hact Habs Hother H.
  apply apply_in_tx_inv in H as [->|(invoice' & row' & payment' & required' & existing & active' & id & db1 & db2 & H)];
    [done|].
  destruct H as (_ & _ & Hinv' & _ & _ & Hact' & Hnot & _). simplify_eq.
  rewrite Hact in Hact'. injection Hact' as <-. rewrite Habs in Hnot.
  unfold nothing_to_do in Hnot. destruct active as [[r record]|]; [|done].
  apply String.eqb_neq in Hother. rewrite Hother in Hnot. simpl in Hnot. by rewrite orb_true_r in Hnot.
Qed.

(** What the write phase leaves in the timely set. *)
Lemma write_observation_timely db fresh nonce invoice columns creator_hash outpoint sats confirmations
    present replace matched v2 existing observed_at id db' :
  write_observation crypto db fresh nonce invoice columns creator_hash outpoint sats confirmations
    present replace matched v2 existing observed_at = Ok (id, db') →
  t_timely db' = (if matched && (observed_at <=? iv_payment_deadline columns)
                  then {[(invoice, bitcoin_outpoint_lookup_hash crypto outpoint)]} ∪ t_timely db
                  else t_timely db).
Proof.
  unfold write_observation. cbv zeta. intros H.
  apply bind_ok in H as (envelope & _ & H). apply bind_ok in H as ([n db1] & Hup & H).
  apply bind_ok in H as (? & Hn%ensure_ok & H). apply Z.eqb_eq in Hn. simpl in Hn, H. subst n.
  apply upsert_observation_inv in Hup as (key & new & -> & _); [|done..].
  apply bind_ok in H as (db3 & H3 & [= _ <-]).
  match type of H3 with (if _ then update_invoice ?d _ _ else _) = _ =>
    assert (t_timely db3 = t_timely d) as -> end.
  { destruct (_ && negb _); [|by injection H3 as <-].
    by apply update_invoice_inv in H3 as [->|(i & _ & _ & ->)]. }
  by destruct replace, (matched && (observed_at <=? iv_payment_deadline columns)).
Qed.

(** only a sufficient output seen by the deadline counts as timely.  An observation
    adds at most the observed output of the addressed invoice to the timely matches, and only
    when the output is present, pays at least the required amount and was observed no
    later than the payment deadline. *)
Theorem timely_match_sound db fresh nonce o observed_at applied db' invoice hash :
  apply_bitcoin_observation_in_tx crypto db fresh nonce o observed_at = Ok (applied, db') →
  (invoice, hash) ∈ t_timely db' → (invoice, hash) ∉ t_timely db →
  ∃ row payment required,
    invoice_of_address db (bitcoin_address_lookup_hash crypto (in_address o)) = Some (invoice, row)
    ∧ addressed_record crypto invoice (iv_columns row) (iv_creator_lookup_hash (iv_columns row)) (in_address o)
      = Ok (payment, required)
    ∧ hash = bitcoin_outpoint_lookup_hash crypto (canonical_text (in_outpoint o))
    ∧ in_present o = true ∧ required <= in_observed_sats o
    ∧ observed_at <= iv_payment_deadline (iv_columns row).
Proof.
  intros H Hin Hnin.
  apply apply_in_tx_inv in H as [->|(invoice' & row & payment & required & existing & active & id & db1 & db2 & H)];
    [done|].
  destruct H as (_ & _ & Hinv & Hrec & _ & _ & _ & Hw & Hp & ->).
  apply write_observation_timely in Hw. apply project_payments_tables in Hp as (_ & Ht & _).
  assert (t_timely (project_provider_v2_sample db2 invoice' id observed_at (in_present o) (in_confirmations o)
            (in_present o && (required <=? in_observed_sats o))) = t_timely db2) as Hs.
  { unfold project_provider_v2_sample. destruct (t_provider_v2 db2 !! invoice'); [|done]. by destruct (_ && is_none _). }
  rewrite Hs, Ht, Hw in Hin. destruct (_ && (observed_at <=? _)) eqn:E; [|done]. split_bools.
  apply elem_of_union in Hin as [[= -> ->]%elem_of_singleton|Hin]; [|done].
  by exists row, payment, required.
Qed.

Lemma decrypt_same_evidence creator_hash id r s :
  same_evidence r s →
  decrypt_observation crypto creator_hash id s = decrypt_observation crypto creator_hash id r.
Proof. unfold decrypt_observation. by intros (-> & -> & -> & -> & _). Qed.

(** The outpoint's row, found before the write, is still the one the write updates. *)
Lemma existing_outpoint_row db invoice creator_hash outpoint sats existing key r :
  db_wf db →
  existing_outpoint crypto db invoice creator_hash outpoint sats = Ok existing →
  t_observations db !! key = Some r →
  ob_outpoint_lookup_hash r = bitcoin_outpoint_lookup_hash crypto outpoint →
  existing = Some key
  ∧ ∃ record, decrypt_observation crypto creator_hash key r = Ok record ∧ bo_observed_sats record = sats.
Proof.
  intros ((Hu & _) & _) H Hk Hh. unfold existing_outpoint in H.
  rewrite (select_one_unique _ _ key r) in H; [|done|by apply String.eqb_eq|].
  - apply bind_ok in H as (? & _ & H). apply bind_ok in H as (record & Hrec & H).
    apply bind_ok in H as (? & Hs%ensure_ok & [= <-]). split_bools. split; [done|]. by exists record.
  - intros k' r' Hk' Heq%String.eqb_eq. apply (Hu k' key r' r); congruence.
Qed.

(** The observations after [deactivate_all], seen from before. *)
Lemma deactivate_all_lookup db invoice k r :
  t_observations (deactivate_all db invoice) !! k = Some r →
  ∃ r0, t_observations db !! k = Some r0 ∧ same_evidence r0 r.
Proof.
  simpl. rewrite lookup_fmap. intros (r0 & Hk & ->)%fmap_Some. exists r0. split; [done|].
  apply deactivate_evidence.
Qed.

(** After the write phase the active row of the invoice is the observed output. *)
Lemma write_observation_active `{!CryptoLaws prim, !ObservationCodecLaws codec}
    db fresh nonce invoice columns creator_hash outpoint sats confirmations
    present replace matched v2 existing observed_at id db' :
  db_wf db → String.length nonce = NONCE_LENGTH → in_u64 sats = true →
  existing_outpoint crypto db invoice creator_hash outpoint sats = Ok existing →
  write_observation crypto db fresh nonce invoice columns creator_hash outpoint sats confirmations
    present replace matched v2 existing observed_at = Ok (id, db') →
  ∃ key row,
    select_one (λ _ r, active_for invoice r) (t_observations db') = Some (key, row)
    ∧ ob_present row = present ∧ ob_confirmations row = confirmations
    ∧ ob_outpoint_lookup_hash row = bitcoin_outpoint_lookup_hash crypto outpoint
    ∧ ∀ facts, decrypt_observation crypto creator_hash key row = Ok facts → bo_observed_sats facts = sats.
Proof.
  intros Hwf Hnonce Hsats Hex. unfold write_observation. cbv zeta.
  set (db0 := if replace then deactivate_all db invoice else db). intros H.
  assert (Hback : ∀ k r, t_observations db0 !! k = Some r →
                  ∃ r0, t_observations db !! k = Some r0 ∧ same_evidence r0 r).
  { unfold db0. destruct replace; [apply deactivate_all_lookup|]. intros k r Hk. by exists r. }
  apply bind_ok in H as (envelope & Henv%map_err_ok & H). apply bind_ok in H as ([n db1] & Hup & H).
  apply bind_ok in H as (? & Hn%ensure_ok & H). apply Z.eqb_eq in Hn. simpl in Hn, H. subst n.
  apply upsert_observation_inv in Hup as (key & new & -> & Huniq & Hnew & Hh & Hc & Hp & Hcase); [|done..].
  apply bind_ok in H as (db3 & H3 & [= _ <-]). simpl in Hh, Hc, Hp.
  assert (t_observations db3 = <[key := new]> (t_observations db0)) as ->.
  { destruct (matched && negb v2).
    - apply update_invoice_inv in H3 as [->|(i & _ & _ & ->)]; by destruct (matched && _).
    - injection H3 as <-. by destruct (matched && _). }
  exists key, new. split_and!; [|done..|].
  { apply select_one_unique; [by rewrite lookup_insert_eq|done|].
    intros k r [[<- <-]|[_ Hk]]%lookup_insert_Some Hr; [done|by apply (Huniq k r)]. }
  intros facts Hfacts. destruct Hcase as [(old & Hold & Hev & _)|(-> & -> & Hnone & Hno)].
  - rewrite (decrypt_same_evidence _ _ old) in Hfacts by done.
    destruct (Hback _ _ Hold) as (r0 & Hr0 & Hev0).
    rewrite (decrypt_same_evidence _ _ r0) in Hfacts by done.
    destruct (existing_outpoint_row db invoice creator_hash outpoint sats existing key r0)
      as [_ (record & Hrec & Hs)]; [done..| |congruence].
    destruct Hev as (_ & _ & _ & ? & _), Hev0 as (_ & _ & _ & ? & _). congruence.
  - unfold decrypt_observation in Hfacts. simpl in Hfacts.
    apply bind_ok in Hfacts as (plaintext & Hpt%map_err_ok & Hfacts).
    apply decrypt_encrypt in Henv; [|done]. rewrite Henv in Hpt. injection Hpt as <-.
    rewrite decode_encode_observation in Hfacts; [|simpl; unfold u8_max; lia|done].
    simpl in Hfacts. apply bind_ok in Hfacts as (? & _ & [= <-]). done.
Qed.

(** What a projection leaves on the invoice. *)
Lemma project_payments_row db invoice creator_hash payment now db' :
  project_payments crypto db invoice creator_hash payment now = Ok db' →
  ∃ row bitcoin received_at is_eligible,
    t_invoices db !! invoice = Some row
    ∧ bitcoin_payment crypto db invoice creator_hash (pr_bitcoin payment) = Ok bitcoin
    ∧ t_invoices db' !! invoice = Some (mk_PaymentInvoice (iv_columns row)
        (projected_columns bitcoin received_at is_eligible now (iv_columns row) (iv_projection row)))
    ∧ (eligible bitcoin = true → is_eligible = true
         ∧ ∃ k, t_contacts db' !! k = Some (iv_creator_id (iv_columns row), iv_reader_lookup_hash (iv_columns row))).
Proof.
  intros (row & bitcoin & usdt & Hrow & Hb & _ & db1 & H1 & H)%project_payments_inv. cbv zeta in *.
  set (ue := match usdt with Some p => eligible p | None => false end) in *.
  set (ra := if ue then usdt ≫= op_received_at else None) in *.
  exists row, bitcoin, ra, (eligible bitcoin || ue). split_and!; [done..| |].
  - assert (t_invoices db' = t_invoices db1) as ->.
    { destruct (_ || _); [|by injection H as <-]. unfold insert_contact in H.
      destruct (exists_row _ _); [by injection H as <-|]. by apply bind_ok in H as (? & _ & [= <-]). }
    unfold update_invoice in H1. rewrite Hrow in H1. apply bind_ok in H1 as (? & _ & [= <-]).
    simpl. by rewrite lookup_insert_eq.
  - intros He. rewrite He in *. simpl in *. split; [done|]. unfold insert_contact in H.
    destruct (exists_row _ _) eqn:Hex.
    + injection H as <-. unfold exists_row in Hex. destruct (select_one _ _) as [[k c]|] eqn:Hsel; [|done].
      apply select_one_some in Hsel as [Hk Hc%bool_decide_eq_true]. exists k. by rewrite Hk, Hc.
    + apply bind_ok in H as (? & _ & [= <-]). exists invoice. simpl. by rewrite lookup_insert_eq.
Qed.

Lemma sample_keeps db invoice id at_ present confirmations matched :
  let db' := project_provider_v2_sample db invoice id at_ present confirmations matched in
  t_invoices db' = t_invoices db ∧ t_contacts db' = t_contacts db.
Proof.
  unfold project_provider_v2_sample. destruct (t_provider_v2 db !! invoice); [|done].
  by destruct (_ && is_none _).
Qed.

Lemma write_observation_columns db fresh nonce invoice columns creator_hash outpoint sats confirmations
    present replace matched v2 existing observed_at id db' i row row' :
  write_observation crypto db fresh nonce invoice columns creator_hash outpoint sats confirmations
    present replace matched v2 existing observed_at = Ok (id, db') →
  t_invoices db !! i = Some row → t_invoices db' !! i = Some row' → iv_columns row' = iv_columns row.
Proof.
  unfold write_observation. cbv zeta. intros H Hi Hi'.
  apply bind_ok in H as (envelope & _ & H). apply bind_ok in H as ([n db1] & Hup & H).
  apply bind_ok in H as (? & Hn%ensure_ok & H). apply Z.eqb_eq in Hn. simpl in Hn, H. subst n.
  apply upsert_observation_inv in Hup as (key & new & -> & _); [|done..].
  apply bind_ok in H as (db3 & H3 & [= _ <-]).
  match type of H3 with (if _ then update_invoice ?d _ _ else _) = _ =>
    assert (t_invoices d = t_invoices db) as Hd
      by (destruct replace, (matched && (observed_at <=? iv_payment_deadline columns)); reflexivity);
    set (d0 := d) in * end. clearbody d0.
  destruct (matched && negb v2); [|injection H3 as <-; rewrite Hd in Hi'; congruence].
  apply update_invoice_inv in H3 as [->|(j & Hj & _ & ->)]; [rewrite Hd in Hi'; congruence|].
  simpl in Hi'. rewrite Hd in Hi', Hj.
  apply lookup_insert_Some in Hi' as [[<- <-]|[_ Hi']]; simpl; congruence.
Qed.

(** C5: an observation is projected exactly.  An observation transaction either leaves the
    tables unchanged or the invoice its address belongs to now shows this output: status,
    confirmation count (capped at six once the amount matches, zero when absent) and
    whether the required amount is matched.  A matching output seen by the deadline also
    lifts any recorded expiry and registers the buyer as a contact. *)
Theorem observation_projected `{!CryptoLaws prim, !ObservationCodecLaws codec}
    db fresh nonce o observed_at applied db' :
  db_wf db → String.length nonce = NONCE_LENGTH → in_u64 (in_observed_sats o) = true →
  apply_bitcoin_observation_in_tx crypto db fresh nonce o observed_at = Ok (applied, db') →
  db' = db ∨ ∃ invoice row payment required row',
    invoice_of_address db (bitcoin_address_lookup_hash crypto (in_address o)) = Some (invoice, row)
    ∧ addressed_record crypto invoice (iv_columns row) (iv_creator_lookup_hash (iv_columns row)) (in_address o)
      = Ok (payment, required)
    ∧ t_invoices db' !! invoice = Some row'
    ∧ let matched := in_present o && (required <=? in_observed_sats o) in
      let count := if negb (in_present o) then 0
                   else if matched then Z.min (in_confirmations o) 6 else in_confirmations o in
      iv_payment_status (iv_projection row') = payment_status_text (in_present o) count
      ∧ iv_confirmation_count (iv_projection row') = count
      ∧ iv_amount_matched (iv_projection row') = matched
      ∧ (matched = true → observed_at <= iv_payment_deadline (iv_columns row) →
         iv_payment_expired_at (iv_projection row') = None
         ∧ ∃ k, t_contacts db' !! k = Some (iv_creator_id (iv_columns row), iv_reader_lookup_hash (iv_columns row))).
Proof.
  intros Hwf Hnonce Hsats H.
  apply apply_in_tx_inv in H as [->|(invoice & row & payment & required & existing & active & id & db1 & db2 & H)];
    [by left|right].
  destruct H as (_ & _ & Hinv & Hrec & Hex & _ & _ & Hw & Hp & ->).
  pose proof Hw as (key & obs & Hsel & Hpres & Hconf & Hhash & Hfacts)%write_observation_active; [|done..].
  pose proof Hw as Htimely%write_observation_timely.
  apply project_payments_row in Hp as (row1 & bitcoin & ra & el & Hrow1 & Hb & Hrow2 & Hel).
  assert (Hcols : iv_columns row1 = iv_columns row).
  { unfold invoice_of_address in Hinv. apply select_one_some in Hinv as [Hi _].
    by eapply write_observation_columns. }
  destruct (sample_keeps db2 invoice id observed_at (in_present o) (in_confirmations o)
              (in_present o && (required <=? in_observed_sats o))) as [Hki Hkc].
  exists invoice, row, payment, required. eexists. rewrite Hki. split_and!; [done|done|exact Hrow2|]. cbv zeta.
  unfold addressed_record in Hrec. apply bind_ok in Hrec as (pay & _ & Hrec).
  apply bind_ok in Hrec as (dest & Hdest%ok_or_ok & Hrec). apply bind_ok in Hrec as (? & _ & [= -> <-]).
  unfold bitcoin_payment in Hb. rewrite Hdest, Hsel in Hb.
  apply bind_ok in Hb as (facts & Hf & Hb). apply Hfacts in Hf. injection Hb as <-.
  rewrite Hf, Hpres, Hconf, Hhash in *. simpl. split_and!; [done..|].
  intros Hm Hd. unfold eligible in Hel. simpl in Hel. rewrite Hm, Htimely in Hel.
  apply Z.leb_le in Hd. rewrite Hd, Hm in Hel. simpl in Hel.
  assert (in_present o = true) as Hpo by (by destruct (in_present o)). rewrite Hpo in Hel.
  rewrite bool_decide_eq_true_2 in Hel by set_solver. destruct (Hel eq_refl) as [-> Hk].
  rewrite Hcols in Hk. rewrite Hpo, Hkc in *. done.
Qed.

(** ** Choosing a receipt *)

(** The receipts of a list, each with its verified facts. *)
Definition candidate_of (columns : InvoiceColumns) (invoice : RowId) (creator_hash : string)
    (required : Z) (rows : list (RowId * UsdtRow)) (c : string * ObservedPayment) : Prop :=
  ∃ id row facts, (id, row) ∈ rows
    ∧ transfer_facts crypto id invoice creator_hash (us_envelope row) (us_transfer_lookup_hash row) = Ok facts
    ∧ c = receipt_candidate columns required row facts.1.

Lemma receipt_compare_refl c : receipt_compare c c ≠ Gt.
Proof. pose proof (pre_antisym receipt_compare c c) as H. by destruct (receipt_compare c c). Qed.

Lemma select_receipt_spec columns invoice creator_hash required rows selected result :
  select_receipt crypto columns invoice creator_hash required rows selected = Ok result →
  (∀ c, selected = Some c ∨ candidate_of columns invoice creator_hash required rows c →
     ∃ best, result = Some best ∧ receipt_compare c best ≠ Gt)
  ∧ (∀ best, result = Some best →
       selected = Some best ∨ candidate_of columns invoice creator_hash required rows best).
Proof.
  revert selected. induction rows as [|[id row] rows IH]; intros selected H; simpl in H.
  { injection H as <-. split; [|by left]. intros c [->|(? & ? & ? & Hin & _)].
    - exists c. split; [done|apply receipt_compare_refl].
    - by apply not_elem_of_nil in Hin. }
  apply bind_ok in H as (facts & Hf & H). cbv zeta in H.
  set (cand := receipt_candidate columns required row facts.1) in H.
  match type of H with select_receipt _ _ _ _ _ _ ?n = _ => set (next := n) in H end.
  apply IH in H as [Hmax Hfrom]. clear IH.
  assert (Hnext : ∃ n, next = Some n ∧ receipt_compare cand n ≠ Gt
            ∧ (∀ c, selected = Some c → receipt_compare c n ≠ Gt) ∧ (n = cand ∨ selected = Some n)).
  { unfold next. destruct selected as [current|]; [|exists cand; split_and!; [done|apply receipt_compare_refl|done|by left]].
    pose proof (pre_antisym receipt_compare cand current) as Hanti.
    destruct (receipt_compare cand current) eqn:E; eexists; (split; [done|]); rewrite ?E;
      (split_and!; [done || apply receipt_compare_refl|intros c [= <-]; rewrite ?Hanti; done || apply receipt_compare_refl|auto]). }
  clearbody next. destruct Hnext as (n & Hn & Hcand & Hsel & Hor).
  destruct (Hmax n (or_introl Hn)) as (best & -> & Hbest). split.
  - intros c Hc. exists best. split; [done|].
    destruct Hc as [Hc|(id' & row' & facts' & Hin & Hf' & ->)].
    { eapply (pre_trans receipt_compare); [by apply Hsel|done]. }
    apply elem_of_cons in Hin as [[= -> ->]|Hin].
    + rewrite Hf in Hf'. injection Hf' as <-. by eapply (pre_trans receipt_compare).
    + destruct (Hmax (receipt_candidate columns required row' facts'.1)) as (b' & [= <-] & Hb'); [|done].
      right. by exists id', row', facts'.
  - intros b' [= <-]. destruct (Hfrom best eq_refl) as [Heq|(id' & row' & facts' & Hin & Hf' & ->)].
    + destruct Hor as [->|Hs]; [|left; congruence]. right. exists id, row, facts.
      split_and!; [left|done|]. rewrite Hn in Heq. by injection Heq as <-.
    + right. exists id', row', facts'. split_and!; [by right|done|done].
Qed.

(** the best receipt settles the invoice.  Whatever order the database returns the
    receipts in, the chosen one is a present receipt of the invoice and no present receipt
    ranks above it; so an eligible receipt is never hidden by one that is not, nor a
    finalized eligible receipt by an unfinalized one.  None is chosen only if there is
    none. *)
Theorem usdt_selection_best db columns invoice creator_hash required selected :
  usdt_payment crypto db columns invoice creator_hash required = Ok selected →
  match selected with
  | None => present_receipts db invoice = []
  | Some best =>
      candidate_of columns invoice creator_hash required (present_receipts db invoice) best
      ∧ ∀ c, candidate_of columns invoice creator_hash required (present_receipts db invoice) c →
          receipt_compare c best ≠ Gt
          ∧ (eligible c.2 = true → eligible best.2 = true
               ∧ (op_finalized c.2 = true → op_finalized best.2 = true))
  end.
Proof.
  unfold usdt_payment. intros H. destruct selected as [best|].
  - apply select_receipt_spec in H as [Hmax Hfrom]. split; [by destruct (Hfrom best eq_refl)|].
    intros c Hc. destruct (Hmax c (or_intror Hc)) as (b & [= <-] & Hle). split; [done|].
    unfold receipt_compare in Hle. intros He. rewrite He in Hle.
    destruct (eligible best.2); [|done]. split; [done|]. intros Hfin. rewrite Hfin in Hle. simpl in Hle.
    by destruct (op_finalized best.2).
  - destruct (present_receipts db invoice) as [|[id row] rows]; [done|exfalso]. simpl in H.
    apply bind_ok in H as (facts & Hf & H). apply select_receipt_spec in H as [Hmax _].
    destruct (Hmax _ (or_introl eq_refl)) as (b & [=] & _).
Qed.
End settlement.

(** ** Witnesses *)

Module Example_payments.
Definition encode_record (r : BitcoinObservationV1) : string :=
  (fmt_dec (bo_version r) ++ "." ++ fmt_dec (bo_observed_sats r) ++ "." ++ bo_outpoint r)%string.

Definition decode_record (s : string) : option BitcoinObservationV1 :=
  '(v, rest) ← split_once "." s;
  '(n, outpoint) ← split_once "." rest;
  v ← parse_u64 v;
  n ← parse_u64 n;
  Some (mk_BitcoinObservationV1 v outpoint n).

Definition parse_text (s : string) : option BitcoinOutpoint :=
  '(t, v) ← split_once ":" s;
  v ← parse_u64 v;
  Some (mk_BitcoinOutpoint t v).

Definition record : InvoicePaymentRecordV1 :=
  mk_InvoicePaymentRecordV1 1 0 (Some (mk_PaymentDestination "bc1qaddress" 500))
    (Some (mk_PaymentDestination "0xfd08" 700)).

Definition example_codec : ObservationCodec := {|
  encode_observation := encode_record;
  decode_observation := decode_record;
  decode_payment_record s := if String.eqb s "record" then Some record else None;
  encode_transfer f sender := (tf_identity f ++ sender)%string;
  take_transfer s := Some (mk_TransferFacts s 700 50, "");
  parse_outpoint := parse_text;
|}.

Lemma example_codec_laws : ObservationCodecLaws example_codec.
Proof.
  split. intros [v outpoint n]. simpl. unfold u8_max, in_u64. intros Hv Hn. split_bools.
  unfold decode_record, encode_record. simpl bo_version. simpl bo_observed_sats. simpl bo_outpoint.
  change (fmt_dec v ++ "." ++ fmt_dec n ++ "." ++ outpoint)%string
    with (fmt_dec v ++ String "." (fmt_dec n ++ String "." outpoint))%string.
  rewrite split_once_app by (apply digits_no_dot, fmt_dec_digits; lia). cbn [mbind option_bind].
  rewrite split_once_app by (apply digits_no_dot, fmt_dec_digits; lia). cbn [mbind option_bind].
  rewrite !parse_u64_fmt_dec by (unfold u64_max in *; lia). done.
Qed.

Definition creator : string := repeat_char "h" 32.

Definition crypto : Crypto := Example_crypto.example_crypto.

Definition nonce : string := repeat_char "n" 24.

#[local] Existing Instance Example_crypto.example_primitives.

Definition sealed (context : EnvelopeContext) (plaintext : string) : string :=
  match encrypt crypto nonce context plaintext with Ok s => s | Err _ => "" end.

Definition columns : InvoiceColumns :=
  mk_InvoiceColumns 9 creator "reader" (sealed (ctx_invoice_payment_record creator 1) "record")
    (Some (bitcoin_address_lookup_hash crypto "bc1qaddress")) 10 100.

Definition tx (n : Z) : BitcoinOutpoint := mk_BitcoinOutpoint (repeat_char "a" 64) n.

Definition paid (n confirmations : Z) (present : bool) : BitcoinObservationInput :=
  mk_BitcoinObservationInput "bc1qaddress" (tx n) 600 confirmations present.

Definition receipt : UsdtRow :=
  mk_UsdtRow (Some 1%N) None (usdt_transfer_lookup_hash crypto "t1")
    (sealed (ctx_usdt_observation creator 5 1) "t1") 3 true false 0.

Definition invoice_row : PaymentInvoice :=
  mk_PaymentInvoice columns (mk_ProjectionColumns "undetected" 0 false None None None).

(** One unpaid invoice. *)
Definition unpaid : PaymentDb := mk_PaymentDb {[1%N := invoice_row]} ∅ ∅ ∅ ∅ ∅ ∅ ∅.

Definition final_evidence : BitcoinObservationV1 := mk_BitcoinObservationV1 1 (canonical_text (tx 0)) 600.

Definition final_row : ObservationRow :=
  mk_ObservationRow (Some 1%N) None
    (sealed (ctx_bitcoin_observation_for_invoice creator 3 1) (encode_record final_evidence))
    (bitcoin_outpoint_lookup_hash crypto (canonical_text (tx 0))) 50 6 true true.

(** The same invoice after its output reached six confirmations. *)
Definition settled : PaymentDb :=
  mk_PaymentDb (t_invoices unpaid) {[3%N := final_row]} ∅ ∅ ∅ ∅ {[5%N := receipt]} ∅.

Lemma unpaid_wf : db_wf unpaid.
Proof.
  split_and!.
  - split_and!; simpl; intros; done.
  - intros ? ? H. by apply elem_of_empty in H.
  - unfold unpaid; simpl. intros i row H. apply lookup_singleton_Some in H as [<- <-]. vm_compute. reflexivity.
  - split; simpl; intros; done.
  - simpl; intros ? ? ? ? H. done.
Qed.
End Example_payments.

#[local] Existing Instance Example_crypto.example_primitives.
#[local] Existing Instance Example_crypto.example_laws.
#[local] Existing Instance Example_payments.example_codec.
#[local] Existing Instance Example_payments.example_codec_laws.
Import Example_payments.

Lemma batch_order_canonical_witness :
  [paid 0 0 false; paid 1 0 true] = [paid 0 0 false; paid 1 0 true].
Proof.
  apply (batch_order_canonical [paid 0 0 false; paid 1 0 true] [paid 0 0 false; paid 1 0 true]);
    [repeat constructor; vm_compute; discriminate..|done].
Defined.

Lemma payment_tables_consistent_witness : ∃ db', rtc (payment_step crypto) unpaid db' ∧ db_wf db'.
Proof.
  assert (is_ok (apply_bitcoin_observation_batch crypto unpaid [(3%N, nonce, paid 0 0 true)] 50) = true) as Hok
    by (vm_compute; reflexivity).
  destruct (apply_bitcoin_observation_batch crypto unpaid [(3%N, nonce, paid 0 0 true)] 50) as [[n db']|e] eqn:E;
    [|discriminate Hok].
  exists db'. assert (rtc (payment_step crypto) unpaid db') as Hs.
  { eapply rtc_once, step_batch; [|exact E]. repeat constructor. simpl. lia. }
  split; [exact Hs|]. exact (payment_tables_consistent crypto unpaid db' Hs unpaid_wf).
Defined.

Lemma payment_history_permanent_witness : ∃ db', rtc (payment_step crypto) unpaid db' ∧ db_extends unpaid db'.
Proof.
  assert (is_ok (apply_bitcoin_observation_batch crypto unpaid [(3%N, nonce, paid 0 0 true)] 50) = true) as Hok
    by (vm_compute; reflexivity).
  destruct (apply_bitcoin_observation_batch crypto unpaid [(3%N, nonce, paid 0 0 true)] 50) as [[n db']|e] eqn:E;
    [|discriminate Hok].
  exists db'. assert (rtc (payment_step crypto) unpaid db') as Hs.
  { eapply rtc_once, step_batch; [|exact E]. repeat constructor. simpl. lia. }
  split; [exact Hs|]. exact (payment_history_permanent crypto unpaid db' Hs unpaid_wf).
Defined.


Lemma final_output_immutable_witness :
  ∃ b, apply_bitcoin_observation_in_tx crypto settled 7 nonce (paid 1 0 true) 60 = Ok (b, settled).
Proof.
  assert (is_ok (apply_bitcoin_observation_in_tx crypto settled 7 nonce (paid 1 0 true) 60) = true) as Hok
    by (vm_compute; reflexivity).
  destruct (apply_bitcoin_observation_in_tx crypto settled 7 nonce (paid 1 0 true) 60) as [[b db']|e] eqn:E;
    [|discriminate Hok].
  exists b. do 2 f_equal.
  apply (final_output_immutable crypto settled 7 nonce (paid 1 0 true) 60 b db' 1
           invoice_row final_row final_evidence record 500);
    [vm_compute; reflexivity..|exact E].
Defined.

Lemma absence_creates_nothing_witness :
  ∃ b, apply_bitcoin_observation_in_tx crypto unpaid 7 nonce (paid 1 0 false) 60 = Ok (b, unpaid).
Proof.
  assert (is_ok (apply_bitcoin_observation_in_tx crypto unpaid 7 nonce (paid 1 0 false) 60) = true) as Hok
    by (vm_compute; reflexivity).
  destruct (apply_bitcoin_observation_in_tx crypto unpaid 7 nonce (paid 1 0 false) 60) as [[b db']|e] eqn:E;
    [|discriminate Hok].
  exists b. do 2 f_equal.
  apply (absence_creates_nothing crypto unpaid 7 nonce (paid 1 0 false) 60 b db' 1 invoice_row None);
    [vm_compute; reflexivity|vm_compute; reflexivity|reflexivity|exact I|exact E].
Defined.

Lemma timely_match_sound_witness :
  ∃ b db', apply_bitcoin_observation_in_tx crypto unpaid 7 nonce (paid 1 0 true) 60 = Ok (b, db')
    ∧ 60 <= iv_payment_deadline columns.
Proof.
  assert (match apply_bitcoin_observation_in_tx crypto unpaid 7 nonce (paid 1 0 true) 60 with
          | Ok (_, db') => bool_decide ((1%N, bitcoin_outpoint_lookup_hash crypto (canonical_text (tx 1))) ∈ t_timely db')
          | Err _ => false end = true) as Hok by (vm_compute; reflexivity).
  destruct (apply_bitcoin_observation_in_tx crypto unpaid 7 nonce (paid 1 0 true) 60) as [[b db']|e] eqn:E;
    [|discriminate Hok].
  exists b, db'. split; [reflexivity|]. apply bool_decide_eq_true in Hok.
  destruct (timely_match_sound crypto unpaid 7 nonce (paid 1 0 true) 60 b db' _ _ E Hok) as (row & pay & req & Hi & _ & _ & _ & _ & Hd).
  - exact (not_elem_of_empty (C := gset (RowId * string)) _).
  - unfold invoice_of_address in Hi. apply select_one_some in Hi as [Hi _]. unfold unpaid in Hi; simpl in Hi.
    apply lookup_singleton_Some in Hi as [_ <-]. exact Hd.
Defined.

Lemma observation_projected_witness :
  ∃ b db', apply_bitcoin_observation_in_tx crypto unpaid 7 nonce (paid 1 0 true) 60 = Ok (b, db')
    ∧ (db' = unpaid ∨ ∃ row, t_invoices db' !! 1%N = Some row).
Proof.
  assert (is_ok (apply_bitcoin_observation_in_tx crypto unpaid 7 nonce (paid 1 0 true) 60) = true) as Hok
    by (vm_compute; reflexivity).
  destruct (apply_bitcoin_observation_in_tx crypto unpaid 7 nonce (paid 1 0 true) 60) as [[b db']|e] eqn:E;
    [|discriminate Hok].
  exists b, db'. split; [reflexivity|].
  destruct (observation_projected crypto unpaid 7 nonce (paid 1 0 true) 60 b db' unpaid_wf eq_refl eq_refl E)
    as [Heq|(invoice & row & pay & req & row' & Hi & _ & Hr & _)]; [left; exact Heq|right].
  exists row'. unfold invoice_of_address in Hi. apply select_one_some in Hi as [Hi _]. unfold unpaid in Hi; simpl in Hi.
  apply lookup_singleton_Some in Hi as [<- _]. exact Hr.
Defined.

Lemma usdt_selection_best_witness :
  ∃ best, usdt_payment crypto settled columns 1 creator 700 = Ok (Some best)
    ∧ candidate_of crypto columns 1 creator 700 (present_receipts settled 1) best.
Proof.
  assert (match usdt_payment crypto settled columns 1 creator 700 with Ok (Some _) => true | _ => false end = true)
    as Hok by (vm_compute; reflexivity).
  destruct (usdt_payment crypto settled columns 1 creator 700) as [[best|]|e] eqn:E; [|discriminate Hok..].
  exists best. split; [reflexivity|].
  exact (proj1 (usdt_selection_best crypto settled columns 1 creator 700 (Some best) E)).
Defined.
