(* ===== verification/LifecycleStore.v ===== *)
(** * LifecycleStore: the durable projection of Payment Request state
    ([persistence/payment_request_lifecycles.rs])

    The SDK reports canonical snapshots of the Payment Requests it knows.  A snapshot is
    applied to the database only when it can be attributed to exactly one invoice or
    Marketplace preparation of the Creator, and only forwards.  Owner and state of a
    lifecycle row are the columns of [Database.lifecycles], which the outbox statements
    read; the cursors are the other columns of the same rows.  One method is one
    transaction, so an error leaves the tables as they were.  [updated_at] is left out,
    and [OffsetDateTime] cannot leave its range by rounding down to a microsecond. *)

From S2P Require Import Prelude Text Locks Invoice Receiving Payment Lifecycle Pricing Intent Database OutboxStore Crypto.
Local Open Scope string_scope.
Local Open Scope Z_scope.

(** ** Data *)

Inductive LifecycleOwner := OwnerInvoice (id : RowId) | OwnerMarketplace (id : RowId).

#[global] Instance LifecycleOwner_eq_dec : EqDecision LifecycleOwner.
Proof. solve_decision. Defined.

Inductive PaymentRequestLifecycleApply := Applied | ExactReplay | NotAttributable.

Record RequiredReceiveTarget := mk_RequiredReceiveTarget { counterparty : string }.

#[global] Instance RequiredReceiveTarget_eq_dec : EqDecision RequiredReceiveTarget.
Proof. solve_decision. Defined.

(** The cursor columns of [payment_request_lifecycles]. *)
Record CursorColumns := mk_CursorColumns {
  lc_state_event_id : option string;
  lc_last_stream_item_id : option Z;
  lc_last_outbound_message_id : option Z;
  lc_last_event_at : Z;
}.

#[global] Instance CursorColumns_eq_dec : EqDecision CursorColumns.
Proof. solve_decision. Defined.

Record LifecycleDb := mk_LifecycleDb {
  ld_db : Db;
  ld_cursors : gmap string CursorColumns;
  ld_settlements : gmap RowId RowId;            (* marketplace_settlements: creator_id *)
  ld_preparation_creators : gmap RowId RowId;   (* marketplace_payment_preparations: creator_id *)
  ld_bundles : gmap RowId string;               (* invoices: bundle_lookup_hash *)
}.

Definition set_lifecycles (db : Db) (t : gmap string LifecycleRow) : Db :=
  mk_Db (outbox db) (creators db) (invoices db) (generations db) (preparations db) t (provider_v2 db).

(** A lifecycle row with all its columns. *)
Definition lifecycle_row (lb : LifecycleDb) (id : string) : option (LifecycleRow * CursorColumns) :=
  match lifecycles (ld_db lb) !! id, ld_cursors lb !! id with
  | Some row, Some cursors => Some (row, cursors)
  | _, _ => None
  end.

Definition write_lifecycle (lb : LifecycleDb) (id : string) (row : LifecycleRow) (cursors : CursorColumns) :
    LifecycleDb :=
  mk_LifecycleDb (set_lifecycles (ld_db lb) (<[id := row]> (lifecycles (ld_db lb))))
    (<[id := cursors]> (ld_cursors lb)) (ld_settlements lb) (ld_preparation_creators lb) (ld_bundles lb).

Definition lifecycle_owner (invoice_id marketplace_preparation_id : option RowId) :
    result PersistenceError LifecycleOwner :=
  match invoice_id, marketplace_preparation_id with
  | Some id, None => Ok (OwnerInvoice id)
  | None, Some id => Ok (OwnerMarketplace id)
  | _, _ => Err PE_CorruptOrMissing
  end.

Definition owner_columns (owner : LifecycleOwner) : option RowId * option RowId :=
  match owner with
  | OwnerInvoice id => (Some id, None)
  | OwnerMarketplace id => (None, Some id)
  end.

(** ** Validation *)

Definition optional_cursor (value : option Z) : result PersistenceError (option Z) :=
  transpose ((λ v, if v <=? i64_max then Ok v else Err PE_InvalidInput) <$> value).

Definition postgres_timestamp (timestamp : Z) : Z := timestamp / 1000 * 1000.

Definition cursor_regressed (incoming existing : option Z) : bool :=
  match incoming, existing with
  | None, Some _ => true
  | Some incoming, Some existing => incoming <? existing
  | _, _ => false
  end.

(** [ORDER BY outbox.id] *)
Definition row_id_le (a b : RowId * OutboxRow) : Prop := (a.1 <= b.1)%N.

#[global] Instance row_id_le_dec : RelDecision row_id_le.
Proof. intros a b. unfold row_id_le. apply _. Defined.

Section store.
Context {core : LocksCore} {lib : PaykitLib} {prim : CryptoPrimitives} (crypto : Crypto).
(** [postcard::from_bytes] *)
Context (from_bytes : string → option DeliveryIntentV1).

Record ProposalCorrelation := mk_ProposalCorrelation {
  pc_reader_pubky : string;
  pc_proposal_app_id : string;
  pc_terms : PaymentTermsV1;
}.

Record PaymentRequestLifecycleProjection := mk_Projection {
  lp_payment_request_id : string;
  lp_proposal : ProposalCorrelation;
  lp_request_state : PaymentRequestLifecycleState;
  lp_state_event_id : option string;
  lp_last_stream_item_id : option Z;
  lp_last_outbound_message_id : option Z;
  lp_last_event_at : Z;
}.

Definition validate_projection (p : PaymentRequestLifecycleProjection) : result PersistenceError unit :=
  ensure (negb (str_is_empty (lp_payment_request_id p)
          || match lp_state_event_id p with Some e => str_is_empty e | None => false end
          || (is_none (lp_last_stream_item_id p) && is_none (lp_last_outbound_message_id p))))
    PE_InvalidInput.

Definition exact_replay (row : LifecycleRow) (existing : CursorColumns)
    (incoming : PaymentRequestLifecycleProjection) (cursors : CursorColumns) : bool :=
  state_eqb (l_request_state row) (lp_request_state incoming) && bool_decide (existing = cursors).

(** ** Attribution *)

(** [DISTINCT invoice_id, marketplace_preparation_id] of the rows that carry the request
    identifier and exactly one owner. *)
Definition direct_owners (db : Db) (creator_id : RowId) (request_id : string) : list LifecycleOwner :=
  remove_dups (omap (λ kv : RowId * OutboxRow,
    let k := o_key kv.2 in
    if bool_decide (o_creator_id k = creator_id)
       && bool_decide (o_sdk_payment_request_id (o_sdk kv.2) = Some request_id)
    then ok (lifecycle_owner (o_invoice_id k) (o_marketplace_preparation_id k))
    else None) (map_to_list (outbox db))).

(** The intent of an outbox row. *)
Definition row_intent (db : Db) (id : RowId) (k : OutboxKey) : result PersistenceError DeliveryIntentV1 :=
  creator_hash ← ok_or (creators db !! o_creator_id k) PE_CorruptOrMissing;
  creator_hash ← stored_lookup_hash creator_hash;
  plaintext ← map_err (λ _, PE_CorruptOrMissing)
    (decrypt crypto (ctx_outbox_semantic_intent creator_hash id) (o_intent_envelope k));
  map_err (λ _, PE_CorruptOrMissing) (decode from_bytes plaintext).

(** The rows that share the proposal's keyed payment reference, in the order of the query. *)
Definition proposal_rows (db : Db) (creator_id : RowId) (hash : string) : list (RowId * OutboxRow) :=
  merge_sort row_id_le
    (filter (λ kv, Is_true (bool_decide (o_creator_id (o_key kv.2) = creator_id)
                            && bool_decide (o_proposal_lookup_hash (o_key kv.2) = Some hash)
                            && is_some (creators db !! o_creator_id (o_key kv.2))))
       (map_to_list (outbox db))).

Fixpoint semantic_owners (db : Db) (p : ProposalCorrelation) (rows : list (RowId * OutboxRow))
    (owners : list LifecycleOwner) : result PersistenceError (list LifecycleOwner) :=
  match rows with
  | [] => Ok owners
  | (id, row) :: rows =>
      intent ← row_intent db id (o_key row);
      if matches_proposal intent (pc_reader_pubky p) (pc_proposal_app_id p) (pc_terms p) then
        owner ← lifecycle_owner (o_invoice_id (o_key row)) (o_marketplace_preparation_id (o_key row));
        semantic_owners db p rows (if bool_decide (owner ∈ owners) then owners else owners ++ [owner])%list
      else semantic_owners db p rows owners
  end.

(** The one owner of a snapshot: [None] when it is not attributable. *)
Definition attribute (db : Db) (creator_id : RowId) (p : PaymentRequestLifecycleProjection) :
    result PersistenceError (option LifecycleOwner) :=
  let direct := direct_owners db creator_id (lp_payment_request_id p) in
  ensure (Nat.leb (length direct) 1) PE_CorruptOrMissing;;
  let hash := payment_request_proposal_lookup_hash crypto (payment_reference (pc_terms (lp_proposal p))) in
  semantic ← semantic_owners db (lp_proposal p) (proposal_rows db creator_id hash) [];
  match semantic, direct with
  | [], [] => Ok None
  | [owner], [] => Ok (Some owner)
  | [owner], d :: _ => ensure (bool_decide (d = owner)) PE_CorruptOrMissing;; Ok (Some owner)
  | _, _ => Err PE_CorruptOrMissing
  end.

(** An active preparation with its settlement, of one creator. *)
Definition settlement_active (lb : LifecycleDb) (id : RowId) : option RowId :=
  match ld_settlements lb !! id, ld_preparation_creators lb !! id with
  | Some creator, Some creator' =>
      if bool_decide (creator = creator') && preparation_active (ld_db lb) (Some id) then Some creator else None
  | _, _ => None
  end.

Definition lock_owner (lb : LifecycleDb) (creator_id : RowId) (owner : LifecycleOwner) :
    result PersistenceError unit :=
  ensure (match owner with
          | OwnerInvoice id =>
              match invoices (ld_db lb) !! id with
              | Some i => bool_decide (i_creator_id i = creator_id)
              | None => false
              end
          | OwnerMarketplace id => bool_decide (settlement_active lb id = Some creator_id)
          end) PE_CorruptOrMissing.

(** ** Applying a snapshot *)

(** The tests that reject a snapshot of a known request. *)
Definition snapshot_conflicts (row : LifecycleRow) (existing cursors : CursorColumns)
    (incoming : PaymentRequestLifecycleState) (owner : LifecycleOwner) : bool :=
  let stream := lc_last_stream_item_id cursors in
  let outbound := lc_last_outbound_message_id cursors in
  let equal_cursors := bool_decide (stream = lc_last_stream_item_id existing)
                       && bool_decide (outbound = lc_last_outbound_message_id existing) in
  let allowed := bool_decide (lc_state_event_id existing = lc_state_event_id cursors)
                 && (state_eqb (l_request_state row) incoming
                     || cursor_stable_transition_allowed (l_request_state row) incoming) in
  negb (bool_decide (owner_columns owner = (l_invoice_id row, l_marketplace_preparation_id row)))
  || (state_eqb (l_request_state row) ProposalExpired && state_eqb incoming Proposed)
  || cursor_regressed stream (lc_last_stream_item_id existing)
  || cursor_regressed outbound (lc_last_outbound_message_id existing)
  || (lc_last_event_at cursors <? lc_last_event_at existing)
  || (equal_cursors && negb allowed).

(** The [EXISTS] of the insert: a new request is recorded only while its invoice's lock
    generation is open, or its preparation active. *)
Definition insert_permitted (lb : LifecycleDb) (owner : LifecycleOwner) : bool :=
  match owner with
  | OwnerInvoice id => invoice_generation_open (ld_db lb) (Some id)
  | OwnerMarketplace id => is_some (settlement_active lb id)
  end.

Definition lifecycle_apply (lb : LifecycleDb) (creator_id : RowId) (p : PaymentRequestLifecycleProjection) :
    result PersistenceError (PaymentRequestLifecycleApply * LifecycleDb) :=
  validate_projection p;;
  stream ← optional_cursor (lp_last_stream_item_id p);
  outbound ← optional_cursor (lp_last_outbound_message_id p);
  let cursors := mk_CursorColumns (lp_state_event_id p) stream outbound (postgres_timestamp (lp_last_event_at p)) in
  attributed ← attribute (ld_db lb) creator_id p;
  match attributed with
  | None => Ok (NotAttributable, lb)
  | Some owner =>
      lock_owner lb creator_id owner;;
      let columns := owner_columns owner in
      match lifecycle_row lb (lp_payment_request_id p) with
      | Some (row, existing) =>
          if exact_replay row existing p cursors then Ok (ExactReplay, lb)
          else
            ensure (negb (snapshot_conflicts row existing cursors (lp_request_state p) owner)) PE_Conflict;;
            Ok (Applied, write_lifecycle lb (lp_payment_request_id p)
                  (mk_LifecycleRow (l_invoice_id row) (l_marketplace_preparation_id row) (lp_request_state p)) cursors)
      | None =>
          ensure (insert_permitted lb owner) PE_Conflict;;
          Ok (Applied, write_lifecycle lb (lp_payment_request_id p)
                (mk_LifecycleRow columns.1 columns.2 (lp_request_state p)) cursors)
      end
  end.

(** ** Reading *)

(** The attempts of the rows that satisfy a condition. *)
Definition attempts_where (lb : LifecycleDb) (pick : LifecycleRow → bool) :
    list (PaymentRequestLifecycleState * Z) :=
  omap (λ kv : string * CursorColumns,
    match lifecycles (ld_db lb) !! kv.1 with
    | Some row => if pick row then Some (l_request_state row, lc_last_event_at kv.2) else None
    | None => None
    end) (map_to_list (ld_cursors lb)).

Definition lifecycle_load (lb : LifecycleDb) (creator : string) (bundle_id : RowId) :
    option PersistedPaymentRequestLifecycle :=
  let creator_hash := lookup_hash crypto creator in
  let bundle_hash := lookup_hash crypto (uuid_bytes bundle_id) in
  aggregate_lifecycle (attempts_where lb (λ row,
    match l_invoice_id row with
    | Some id =>
        match invoices (ld_db lb) !! id with
        | Some i => bool_decide (creators (ld_db lb) !! i_creator_id i = Some creator_hash)
                    && bool_decide (ld_bundles lb !! id = Some bundle_hash)
        | None => false
        end
    | None => false
    end)).

Definition load_marketplace (lb : LifecycleDb) (creator : string) (preparation_id : RowId) :
    option PersistedPaymentRequestLifecycle :=
  let creator_hash := lookup_hash crypto creator in
  aggregate_lifecycle (attempts_where lb (λ row,
    bool_decide (l_marketplace_preparation_id row = Some preparation_id)
    && match ld_settlements lb !! preparation_id with
       | Some c => bool_decide (creators (ld_db lb) !! c = Some creator_hash)
       | None => false
       end)).

Definition lifecycle_creator_ids (db : Db) : list RowId :=
  merge_sort N.le (remove_dups (omap (λ kv : RowId * OutboxRow,
    let k := o_key kv.2 in
    if is_some (o_invoice_id k) || is_some (o_marketplace_preparation_id k)
    then Some (o_creator_id k) else None) (map_to_list (outbox db)))).

(** ** Receive targets *)

Definition receive_evidence_covers (current evidence : list RequiredReceiveTarget) : bool :=
  forallb (λ target, bool_decide (target ∈ evidence)) current.

Fixpoint decode_required_receive_targets (db : Db) (rows : list (RowId * OutboxKey))
    (targets : list RequiredReceiveTarget) : result PersistenceError (list RequiredReceiveTarget) :=
  match rows with
  | [] => Ok targets
  | (id, k) :: rows =>
      intent ← row_intent db id k;
      match operation intent with
      | PaymentRequestProposal _ =>
          let target := mk_RequiredReceiveTarget (reader_pubky intent) in
          decode_required_receive_targets db rows
            (if bool_decide (target ∈ targets) then targets else targets ++ [target])%list
      | PaymentRequestCancellation _ => Err PE_CorruptOrMissing
      end
  end.

(** ** Lemmas *)

Lemma lifecycle_owner_ok i m owner :
  lifecycle_owner i m = Ok owner ↔ owner_columns owner = (i, m).
Proof. destruct i, m, owner; simpl; split; intros H; simplify_eq; done. Qed.

Lemma direct_owner_in db creator_id request_id id r owner :
  outbox db !! id = Some r → o_creator_id (o_key r) = creator_id →
  o_sdk_payment_request_id (o_sdk r) = Some request_id →
  lifecycle_owner (o_invoice_id (o_key r)) (o_marketplace_preparation_id (o_key r)) = Ok owner →
  owner ∈ direct_owners db creator_id request_id.
Proof.
  intros Hr Hc Hid Hown. unfold direct_owners. rewrite elem_of_remove_dups, list_elem_of_omap.
  exists (id, r). split; [by apply elem_of_map_to_list|]. simpl.
  rewrite Hc, Hid, !bool_decide_eq_true_2, Hown by done. done.
Qed.

(** A stored proposal of the creator that the snapshot describes. *)
Definition described_by (db : Db) (creator_id : RowId) (p : ProposalCorrelation) (owner : LifecycleOwner) : Prop :=
  ∃ id r intent, outbox db !! id = Some r ∧ o_creator_id (o_key r) = creator_id
    ∧ o_proposal_lookup_hash (o_key r)
      = Some (payment_request_proposal_lookup_hash crypto (payment_reference (pc_terms p)))
    ∧ row_intent db id (o_key r) = Ok intent
    ∧ reader_pubky intent = pc_reader_pubky p ∧ app_id intent = pc_proposal_app_id p
    ∧ operation intent = PaymentRequestProposal (pc_terms p)
    ∧ owner_columns owner = (o_invoice_id (o_key r), o_marketplace_preparation_id (o_key r)).

Lemma semantic_owners_spec db p rows owners result owner :
  semantic_owners db p rows owners = Ok result → owner ∈ result →
  owner ∈ owners ∨ ∃ id r intent, (id, r) ∈ rows ∧ row_intent db id (o_key r) = Ok intent
    ∧ matches_proposal intent (pc_reader_pubky p) (pc_proposal_app_id p) (pc_terms p) = true
    ∧ lifecycle_owner (o_invoice_id (o_key r)) (o_marketplace_preparation_id (o_key r)) = Ok owner.
Proof.
  revert owners. induction rows as [|[id r] rows IH]; intros owners H Hin; simpl in H.
  { injection H as <-. by left. }
  apply bind_ok in H as (intent & Hi & H).
  assert (Hmore : ∀ owners', semantic_owners db p rows owners' = Ok result →
    owner ∈ owners' ∨ ∃ id' r' intent', (id', r') ∈ (id, r) :: rows ∧ row_intent db id' (o_key r') = Ok intent'
    ∧ matches_proposal intent' (pc_reader_pubky p) (pc_proposal_app_id p) (pc_terms p) = true
    ∧ lifecycle_owner (o_invoice_id (o_key r')) (o_marketplace_preparation_id (o_key r')) = Ok owner).
  { intros owners' Hs. apply IH in Hs as [Hl|(id' & r' & intent' & Hr' & Hrest)]; [by left| |done].
    right. exists id', r', intent'. split; [by apply elem_of_cons; right|done]. }
  destruct (matches_proposal _ _ _ _) eqn:Hm; [|by apply Hmore].
  apply bind_ok in H as (o & Ho & H). apply Hmore in H as [Hold|Hr]; [|by right].
  destruct (bool_decide (o ∈ owners)) eqn:Hb; [by left|].
  apply elem_of_app in Hold as [Hl| ->%list_elem_of_singleton]; [by left|].
  right. exists id, r, intent. split; [by apply elem_of_cons; left|done].
Qed.

Lemma proposal_rows_in db creator_id hash id r :
  (id, r) ∈ proposal_rows db creator_id hash →
  outbox db !! id = Some r ∧ o_creator_id (o_key r) = creator_id ∧ o_proposal_lookup_hash (o_key r) = Some hash.
Proof.
  unfold proposal_rows. rewrite merge_sort_Permutation, list_elem_of_filter.
  intros [Hp Hin%elem_of_map_to_list]. simpl in Hp. apply Is_true_true in Hp. by split_bools.
Qed.

Lemma attribute_some db creator_id p owner :
  attribute db creator_id p = Ok (Some owner) →
  described_by db creator_id (lp_proposal p) owner
  ∧ ∀ id r o, outbox db !! id = Some r → o_creator_id (o_key r) = creator_id →
      o_sdk_payment_request_id (o_sdk r) = Some (lp_payment_request_id p) →
      lifecycle_owner (o_invoice_id (o_key r)) (o_marketplace_preparation_id (o_key r)) = Ok o → o = owner.
Proof.
  unfold attribute. intros H. apply bind_ok in H as ([] & Hlen%ensure_ok & H). cbv zeta in H.
  apply bind_ok in H as (semantic & Hsem & H).
  assert (semantic = [owner] ∧ ∀ d, d ∈ direct_owners db creator_id (lp_payment_request_id p) → d = owner)
    as [-> Hdirect].
  { destruct semantic as [|o [|? ?]]; destruct (direct_owners _ _ _) as [|d [|d' ds]]; simplify_eq/=; try done.
    - split; [done|]. by intros d Hd%not_elem_of_nil.
    - apply bind_ok in H as ([] & Hd%ensure_ok & [= ->]). apply bool_decide_eq_true in Hd. subst d.
      split; [done|]. by intros d ->%list_elem_of_singleton. }
  split.
  - destruct (semantic_owners_spec _ _ _ _ _ owner Hsem) as [Hn|(id & r & intent & Hin & Hi & Hm & Ho)];
      [by apply list_elem_of_singleton|by apply not_elem_of_nil in Hn|].
    apply proposal_rows_in in Hin as (Hr & Hc & Hh). unfold matches_proposal in Hm. split_bools.
    exists id, r, intent. apply lifecycle_owner_ok in Ho.
    destruct (operation intent); [|done]. split_bools. subst. done.
  - intros id r o Hr Hc Hid Ho. eapply Hdirect, direct_owner_in; done.
Qed.

(** The ways a snapshot is accepted. *)
Lemma lifecycle_apply_inv lb creator_id p answer lb' :
  lifecycle_apply lb creator_id p = Ok (answer, lb') →
  (answer ≠ Applied ∧ lb' = lb)
  ∨ ∃ owner cursors row,
      answer = Applied
      ∧ attribute (ld_db lb) creator_id p = Ok (Some owner) ∧ lock_owner lb creator_id owner = Ok tt
      ∧ validate_projection p = Ok tt
      ∧ optional_cursor (lp_last_stream_item_id p) = Ok (lc_last_stream_item_id cursors)
      ∧ optional_cursor (lp_last_outbound_message_id p) = Ok (lc_last_outbound_message_id cursors)
      ∧ lc_state_event_id cursors = lp_state_event_id p
      ∧ lc_last_event_at cursors = postgres_timestamp (lp_last_event_at p)
      ∧ (l_invoice_id row, l_marketplace_preparation_id row) = owner_columns owner
      ∧ l_request_state row = lp_request_state p
      ∧ lb' = write_lifecycle lb (lp_payment_request_id p) row cursors
      ∧ match lifecycle_row lb (lp_payment_request_id p) with
        | Some (old, existing) => snapshot_conflicts old existing cursors (lp_request_state p) owner = false
        | None => insert_permitted lb owner = true
        end.
Proof.
  unfold lifecycle_apply. intros H.
  apply bind_ok in H as ([] & Hv & H). apply bind_ok in H as (stream & Hs & H).
  apply bind_ok in H as (outbound & Ho & H). cbv zeta in H.
  set (cursors := mk_CursorColumns _ stream outbound _) in H.
  apply bind_ok in H as ([owner|] & Hatt & H); [|injection H as <- <-; by left].
  apply bind_ok in H as ([] & Hlock & H).
  destruct (lifecycle_row lb (lp_payment_request_id p)) as [[row existing]|] eqn:Hrow.
  - destruct (exact_replay _ _ _ _) eqn:Hex; [injection H as <- <-; by left|].
    apply bind_ok in H as ([] & Hc%ensure_ok%negb_true_iff & [= <- <-]). right.
    exists owner, cursors, (mk_LifecycleRow (l_invoice_id row) (l_marketplace_preparation_id row) (lp_request_state p)).
    split_and!; try done. symmetry. simpl. unfold snapshot_conflicts in Hc. apply orb_false_iff in Hc as [Hc _].
    repeat (apply orb_false_iff in Hc as [Hc _]). by apply negb_false_iff, bool_decide_eq_true in Hc.
  - apply bind_ok in H as ([] & Hp%ensure_ok & [= <- <-]). right.
    exists owner, cursors, (mk_LifecycleRow (owner_columns owner).1 (owner_columns owner).2 (lp_request_state p)).
    split_and!; try done. by destruct owner.
Qed.

(** ** Theorems *)

Lemma lifecycle_row_write lb id row cursors id' :
  lifecycle_row (write_lifecycle lb id row cursors) id' =
  if bool_decide (id = id') then Some (row, cursors) else lifecycle_row lb id'.
Proof.
  unfold lifecycle_row, write_lifecycle. simpl. case_bool_decide as Hid.
  - subst. by rewrite !lookup_insert_eq.
  - by rewrite !lookup_insert_ne.
Qed.

(** C25: a snapshot is applied only to its own request.  When [apply] records a snapshot, one
    stored, authenticated proposal of this Creator has exactly the snapshot's reader, app and
    terms; every outbox row of the Creator that carries the SDK's request identifier has
    the same owner; the row written is the request's, with that owner and the reported
    state, no other lifecycle row changes, and a first snapshot is recorded only while the
    lock's generation is open or the preparation active. *)
Theorem lifecycle_attribution_sound lb creator_id p lb' :
  lifecycle_apply lb creator_id p = Ok (Applied, lb') →
  ∃ owner row cursors,
    described_by (ld_db lb) creator_id (lp_proposal p) owner
    ∧ (∀ id r o, outbox (ld_db lb) !! id = Some r → o_creator_id (o_key r) = creator_id →
         o_sdk_payment_request_id (o_sdk r) = Some (lp_payment_request_id p) →
         lifecycle_owner (o_invoice_id (o_key r)) (o_marketplace_preparation_id (o_key r)) = Ok o → o = owner)
    ∧ lifecycle_row lb' (lp_payment_request_id p) = Some (row, cursors)
    ∧ (l_invoice_id row, l_marketplace_preparation_id row) = owner_columns owner
    ∧ l_request_state row = lp_request_state p
    ∧ (∀ id, id ≠ lp_payment_request_id p → lifecycle_row lb' id = lifecycle_row lb id)
    ∧ (lifecycle_row lb (lp_payment_request_id p) = None →
       match owner with
       | OwnerInvoice i => invoice_generation_open (ld_db lb) (Some i) = true
       | OwnerMarketplace m => preparation_active (ld_db lb) (Some m) = true
       end).
Proof.
  intros [[Hne _]|(owner & cursors & row & _ & Hatt & _ & _ & _ & _ & _ & _ & Hown & Hst & -> & Hcase)]%lifecycle_apply_inv;
    [done|].
  apply attribute_some in Hatt as [Hdesc Hdirect].
  exists owner, row, cursors. rewrite lifecycle_row_write, bool_decide_eq_true_2 by done.
  split_and!; [done..| |].
  - intros id Hid. rewrite lifecycle_row_write, bool_decide_eq_false_2; done.
  - intros Hnone. rewrite Hnone in Hcase. destruct owner as [i|m]; [done|]. simpl in Hcase.
    unfold settlement_active in Hcase. destruct (ld_settlements lb !! m), (ld_preparation_creators lb !! m); try done.
    destruct (preparation_active (ld_db lb) (Some m)); [done|by rewrite andb_false_r in Hcase].
Qed.

Definition cursor_le (a b : option Z) : Prop := cursor_regressed b a = false.

#[global] Instance cursor_le_preorder : PreOrder cursor_le.
Proof.
  unfold cursor_le. split.
  - intros [x|]; simpl; [apply Z.ltb_irrefl|done].
  - intros [x|] [y|] [z|]; simpl; rewrite ?Z.ltb_ge; try done. lia.
Qed.

(** Later columns of one row: same owner, no cursor and no time goes back. *)
Definition advances (a b : LifecycleRow * CursorColumns) : Prop :=
  l_invoice_id b.1 = l_invoice_id a.1 ∧ l_marketplace_preparation_id b.1 = l_marketplace_preparation_id a.1
  ∧ cursor_le (lc_last_stream_item_id a.2) (lc_last_stream_item_id b.2)
  ∧ cursor_le (lc_last_outbound_message_id a.2) (lc_last_outbound_message_id b.2)
  ∧ lc_last_event_at a.2 <= lc_last_event_at b.2.

#[global] Instance advances_preorder : PreOrder advances.
Proof.
  split.
  - intros x. unfold advances. split_and!; done.
  - intros x y z (H1 & H2 & H3 & H4 & H5) (K1 & K2 & K3 & K4 & K5). unfold advances.
    split_and!; [congruence|congruence|by transitivity (lc_last_stream_item_id y.2)
      |by transitivity (lc_last_outbound_message_id y.2)|lia].
Qed.

(** What the tests of a known request guarantee. *)
Lemma no_conflict_advances row existing cursors incoming owner new :
  snapshot_conflicts row existing cursors incoming owner = false →
  (l_invoice_id new, l_marketplace_preparation_id new) = owner_columns owner →
  advances (row, existing) (new, cursors)
  ∧ ~ (l_request_state row = ProposalExpired ∧ incoming = Proposed)
  ∧ (lc_last_stream_item_id cursors = lc_last_stream_item_id existing →
     lc_last_outbound_message_id cursors = lc_last_outbound_message_id existing →
     lc_state_event_id cursors = lc_state_event_id existing
     ∧ (incoming = l_request_state row ∨ cursor_stable_transition_allowed (l_request_state row) incoming = true)).
Proof.
  unfold snapshot_conflicts. intros H Hnew.
  apply orb_false_iff in H as [H Heq]. apply orb_false_iff in H as [H Htime].
  apply orb_false_iff in H as [H Hout]. apply orb_false_iff in H as [H Hstr].
  apply orb_false_iff in H as [Hown%negb_false_iff%bool_decide_eq_true Hexp]. split_and!.
  - rewrite Hown in Hnew. injection Hnew as Hi Hm. unfold advances. simpl.
    split_and!; [done|done|done|done|]. by apply Z.ltb_ge.
  - intros [Hr ->]. rewrite Hr in Hexp. done.
  - intros Hs Ho. rewrite !bool_decide_eq_true_2 in Heq by done. simpl in Heq.
    apply negb_false_iff, andb_true_iff in Heq as [He%bool_decide_eq_true Ha%orb_true_iff].
    split; [done|]. destruct Ha as [Ha|?]; [left|by right]. by apply bool_decide_eq_true in Ha.
Qed.

(** Transactions of the store, and changes of the other tables by other components. *)
Inductive lifecycle_step (lb : LifecycleDb) : LifecycleDb → Prop :=
| step_snapshot creator_id p answer lb' :
    lifecycle_apply lb creator_id p = Ok (answer, lb') → lifecycle_step lb lb'
| step_other_tables lb' :
    lifecycles (ld_db lb') = lifecycles (ld_db lb) → ld_cursors lb' = ld_cursors lb → lifecycle_step lb lb'.

Lemma lifecycle_step_advances lb lb' id r :
  lifecycle_step lb lb' → lifecycle_row lb id = Some r → ∃ r', lifecycle_row lb' id = Some r' ∧ advances r r'.
Proof.
  intros [creator_id p answer lb1 H|lb1 Hl Hc] Hr.
  - apply lifecycle_apply_inv in H as [[_ ->]|(owner & cursors & row & _ & _ & _ & _ & _ & _ & _ & _ & Hown & _ & -> & Hcase)];
      [by exists r|].
    rewrite lifecycle_row_write. case_bool_decide as Hid; [|by exists r]. subst id. rewrite Hr in Hcase.
    destruct r as [old existing]. exists (row, cursors). split; [done|]. by eapply no_conflict_advances.
  - exists r. unfold lifecycle_row in *. rewrite Hl, Hc. done.
Qed.

(** lifecycles only move forward.  Whatever snapshots arrive, in whatever order and however
    the other tables change, a recorded request is never lost or given to another owner, and
    neither of its source cursors nor its event time ever goes back. *)
Theorem lifecycle_rows_advance lb lb' id r :
  rtc lifecycle_step lb lb' → lifecycle_row lb id = Some r →
  ∃ r', lifecycle_row lb' id = Some r' ∧ advances r r'.
Proof.
  intros Hs. revert r. induction Hs as [lb|lb lb1 lb' H _ IH]; intros r Hr; [by exists r|].
  destruct (lifecycle_step_advances _ _ _ _ H Hr) as (r1 & Hr1 & Ha).
  destruct (IH r1 Hr1) as (r' & Hr' & Ha'). exists r'. split; [done|by transitivity r1].
Qed.

(** the state of a request changes only with evidence.  Applying a snapshot to a known
    request never turns an expired proposal back into an open one, and when neither source
    cursor advanced it keeps the state event and either the state or one of the
    transitions allowed without cursor progress. *)
Theorem snapshot_transition_justified lb creator_id p lb' row existing :
  lifecycle_apply lb creator_id p = Ok (Applied, lb') →
  lifecycle_row lb (lp_payment_request_id p) = Some (row, existing) →
  ~ (l_request_state row = ProposalExpired ∧ lp_request_state p = Proposed)
  ∧ (optional_cursor (lp_last_stream_item_id p) = Ok (lc_last_stream_item_id existing) →
     optional_cursor (lp_last_outbound_message_id p) = Ok (lc_last_outbound_message_id existing) →
     lp_state_event_id p = lc_state_event_id existing
     ∧ (lp_request_state p = l_request_state row
        ∨ cursor_stable_transition_allowed (l_request_state row) (lp_request_state p) = true)).
Proof.
  intros [[Hne _]|(owner & cursors & new & _ & _ & _ & _ & Hs & Ho & He & _ & Hown & _ & -> & Hcase)]%lifecycle_apply_inv Hrow;
    [done|].
  rewrite Hrow in Hcase.
  destruct (no_conflict_advances _ _ _ _ _ new Hcase Hown) as (_ & Hexp & Hstable). split; [done|].
  intros Hs' Ho'. rewrite Hs in Hs'. rewrite Ho in Ho'. injection Hs' as Hs'. injection Ho' as Ho'.
  rewrite <- He. by apply Hstable.
Qed.

Lemma semantic_owners_ext db db' p rows owners :
  creators db' = creators db → semantic_owners db' p rows owners = semantic_owners db p rows owners.
Proof.
  intros Hc. revert owners. induction rows as [|[id r] rows IH]; intros owners; simpl; [done|].
  unfold row_intent. rewrite Hc.
  match goal with |- ?x ≫= _ = _ => destruct x as [intent|]; [|done] end. simpl.
  destruct (matches_proposal _ _ _ _); [|apply IH].
  destruct (lifecycle_owner _ _); simpl; [apply IH|done].
Qed.

Lemma attribute_ext db t creator_id p : attribute (set_lifecycles db t) creator_id p = attribute db creator_id p.
Proof.
  unfold attribute.
  change (direct_owners (set_lifecycles db t)) with (direct_owners db).
  change (proposal_rows (set_lifecycles db t)) with (proposal_rows db).
  by rewrite (semantic_owners_ext db).
Qed.

(** applying a snapshot is idempotent.  After a snapshot was applied, delivering the very same
    snapshot again is recognised as an exact replay and changes nothing. *)
Theorem snapshot_idempotent lb creator_id p lb' :
  lifecycle_apply lb creator_id p = Ok (Applied, lb') →
  lifecycle_apply lb' creator_id p = Ok (ExactReplay, lb').
Proof.
  intros [[Hne _]|(owner & cursors & row & _ & Hatt & Hlock & Hv & Hs & Ho & He & Ht & Hown & Hst & -> & _)]%lifecycle_apply_inv;
    [done|].
  unfold lifecycle_apply. rewrite Hv, Hs, Ho. simpl. rewrite attribute_ext, Hatt. simpl.
  change (lock_owner (write_lifecycle lb (lp_payment_request_id p) row cursors)) with (lock_owner lb).
  rewrite Hlock. simpl. rewrite lifecycle_row_write, bool_decide_eq_true_2 by done.
  unfold exact_replay. rewrite Hst, <- He, <- Ht.
  unfold state_eqb. rewrite !bool_decide_eq_true_2; [done| |done]. by destruct cursors.
Qed.

(** The readers of the listed rows are among the targets. *)
Lemma decode_targets_cover db rows targets ts id k :
  decode_required_receive_targets db rows targets = Ok ts →
  (∀ t, t ∈ targets → t ∈ ts)
  ∧ ((id, k) ∈ rows → ∃ intent, row_intent db id k = Ok intent ∧ is_proposal intent = true
                                ∧ mk_RequiredReceiveTarget (reader_pubky intent) ∈ ts).
Proof.
  revert targets. induction rows as [|[id' k'] rows IH]; intros targets; simpl.
  - intros [= <-]. split; [done|]. intros Hin. by apply not_elem_of_nil in Hin.
  - intros H. apply bind_ok in H as (intent & Hintent & H). destruct (operation intent) as [terms|] eqn:Hop; [|done].
    destruct (IH _ H) as [Hmono Hrest].
    assert (mk_RequiredReceiveTarget (reader_pubky intent) ∈ ts) as Hin.
    { apply Hmono. case_bool_decide; [done|set_solver]. }
    split.
    + intros t Ht. apply Hmono. case_bool_decide; set_solver.
    + intros [[= -> ->]|Hx]%elem_of_cons; [|by apply Hrest]. exists intent. split_and!; [done| |done].
      unfold is_proposal. by rewrite Hop.
Qed.
End store.

(** ** Witnesses *)

#[local] Existing Instance Example_core.example_core.
#[local] Existing Instance Example_lib.example_lib.
#[local] Existing Instance Example_crypto.example_primitives.

Module Example_lifecycle.
Definition crypto : Crypto := Example_crypto.example_crypto.

Definition from_bytes (s : string) : option DeliveryIntentV1 :=
  if String.eqb s "intent" then Some Example_lib.example_intent else None.

Definition creator_hash : string := repeat_char "h" 32.

Definition envelope : string :=
  match encrypt crypto (repeat_char "n" 24) (ctx_outbox_semantic_intent creator_hash 1) "intent" with
  | Ok s => s
  | Err _ => ""
  end.

Definition row : OutboxRow :=
  mk_OutboxRow (mk_OutboxKey 7 (Some 5%N) None PaymentRequestProposalKind envelope
      (Some (payment_request_proposal_lookup_hash crypto "7cceb26d")) None)
    false HandedOff None 1 0 0 no_lease (mk_SdkColumns (Some "11") (Some "event") (Some "request")) 0.

Definition db : Db :=
  mk_Db {[1%N := row]} {[7%N := creator_hash]} {[5%N := mk_InvoiceRow 7 "lock" 1 100]}
    {[(7%N, "lock") := mk_GenerationRow 1 None]} ∅ ∅ ∅.

Definition start : LifecycleDb := mk_LifecycleDb db ∅ ∅ ∅ ∅.

Definition snapshot (state : PaymentRequestLifecycleState) (cursor at_ : Z) : PaymentRequestLifecycleProjection :=
  mk_Projection "request" (mk_ProposalCorrelation "tkrq8" PAYKIT_APP_ID Example_lib.example_terms)
    state (Some "event") (Some cursor) None at_.

Definition applies (lb : LifecycleDb) (p : PaymentRequestLifecycleProjection) : bool :=
  match lifecycle_apply crypto from_bytes lb 7 p with Ok (Applied, _) => true | _ => false end.

Definition after (lb : LifecycleDb) (p : PaymentRequestLifecycleProjection) : LifecycleDb :=
  match lifecycle_apply crypto from_bytes lb 7 p with Ok (_, lb') => lb' | Err _ => lb end.

Lemma applies_after lb p :
  applies lb p = true → lifecycle_apply crypto from_bytes lb 7 p = Ok (Applied, after lb p).
Proof.
  unfold applies, after. destruct (lifecycle_apply crypto from_bytes lb 7 p) as [[[] lb']|e]; done.
Qed.

Definition proposed : LifecycleDb := after start (snapshot Proposed 4 5000).
End Example_lifecycle.
Import Example_lifecycle.

Lemma lifecycle_attribution_sound_witness :
  ∃ owner, described_by crypto from_bytes db 7 (lp_proposal (snapshot Proposed 4 5000)) owner.
Proof.
  destruct (lifecycle_attribution_sound crypto from_bytes start 7 (snapshot Proposed 4 5000) proposed)
    as (owner & _ & _ & H & _).
  - apply applies_after. vm_compute. reflexivity.
  - exists owner. exact H.
Defined.

Lemma lifecycle_rows_advance_witness :
  ∃ r r', lifecycle_row proposed "request" = Some r
    ∧ lifecycle_row (after proposed (snapshot Accepted 6 9000)) "request" = Some r' ∧ advances r r'.
Proof.
  assert (is_some (lifecycle_row proposed "request") = true) as Hs by (vm_compute; reflexivity).
  destruct (lifecycle_row proposed "request") as [r|] eqn:Hr; [|discriminate Hs].
  destruct (lifecycle_rows_advance crypto from_bytes proposed (after proposed (snapshot Accepted 6 9000)) "request" r)
    as (r' & Hr' & Ha); [|exact Hr|exists r, r'; split; [reflexivity|split; [exact Hr'|exact Ha]]].
  eapply rtc_once, step_snapshot, applies_after. vm_compute. reflexivity.
Defined.

Lemma snapshot_transition_justified_witness :
  ∃ row existing, lifecycle_row proposed "request" = Some (row, existing)
    ∧ ~ (l_request_state row = ProposalExpired ∧ Accepted = Proposed).
Proof.
  assert (is_some (lifecycle_row proposed "request") = true) as Hs by (vm_compute; reflexivity).
  destruct (lifecycle_row proposed "request") as [[row existing]|] eqn:Hr; [|discriminate Hs].
  exists row, existing. split; [reflexivity|].
  refine (proj1 (snapshot_transition_justified crypto from_bytes proposed 7 (snapshot Accepted 6 9000) _ row existing _ Hr)).
  apply applies_after. vm_compute. reflexivity.
Defined.

Lemma snapshot_idempotent_witness :
  lifecycle_apply crypto from_bytes proposed 7 (snapshot Proposed 4 5000) = Ok (ExactReplay, proposed).
Proof.
  apply (snapshot_idempotent crypto from_bytes start 7 (snapshot Proposed 4 5000) proposed).
  apply applies_after. vm_compute. reflexivity.
Defined.
