(* ===== verification/Drains.v ===== *)
(** * Drains: lock-wide draining of Payment Requests ([persistence/payment_drains.rs])

    Draining a lock freezes the Payment Requests of its current generation: every invoice
    is classified from its lifecycle attempts, requests that are still only proposed get
    a durable cancellation in the outbox, and the drain row keeps the counts and keyed
    hashes of the frozen sets.  A replay re-authenticates the frozen sets and moves
    accepted items that have meanwhile been paid or have expired to the terminal count.  A
    completed drain is cleaned up with a capability token, which advances the lock's
    generation.  The tables of the other stores are [LifecycleDb] (outbox, lifecycles,
    generations) and [PaymentDb] (payment columns of the invoices).  One method is one
    transaction; an error leaves the tables as they were.

    The text order of the database ([ORDER BY] on a text column) is the parameter
    [collate]; random identifiers and nonces are arguments. *)

From S2P Require Import Prelude Text Locks Invoice Receiving Payment Lifecycle Pricing Intent Database OutboxStore Crypto Observations LifecycleStore Sorting.
Local Open Scope string_scope.
Local Open Scope Z_scope.

(** ** Tables *)

Inductive DrainClassification :=
| Item_Accepted
| Item_Rejected
| Item_Canceled
| Item_ProposalExpired
| Item_CancellationEnqueued.

#[global] Instance DrainClassification_eq_dec : EqDecision DrainClassification.
Proof. solve_decision. Defined.

Definition classification_text (c : DrainClassification) : string :=
  match c with
  | Item_Accepted => "accepted"
  | Item_Rejected => "rejected"
  | Item_Canceled => "canceled"
  | Item_ProposalExpired => "proposal_expired"
  | Item_CancellationEnqueued => "cancellation_enqueued"
  end.

Record DrainRow := mk_DrainRow {
  dr_creator_id : RowId;
  dr_lock_resource_lookup_hash : string;
  dr_lock_resource_generation : Z;
  dr_lock_resource_envelope : string;
  dr_accepted_count : Z;
  dr_terminal_count : Z;
  dr_cancellation_enqueued_count : Z;
  dr_cancellation_set_hash : string;
  dr_item_set_hash : string;
  dr_status : string;
  dr_created_at : Z;
  dr_completed_at : option Z;
}.

(** [payment_drain_cancellations], keyed by drain and SDK request. *)
Record CancellationLink := mk_CancellationLink {
  cl_invoice_id : RowId;
  cl_cancellation_outbox_id : RowId;
}.

(** [creator_bitcoin_account_rotation_items] *)
Record RotationItem := mk_RotationItem {
  ri_rotation_id : RowId;
  ri_invoice_id : option RowId;
  ri_marketplace_preparation_id : option RowId;
  ri_sdk_payment_request_id : option string;
  ri_classification : string;
  ri_cancellation_outbox_id : option RowId;
}.

Record DrainDb := mk_DrainDb {
  dd_life : LifecycleDb;
  dd_pay : PaymentDb;
  dd_drains : gmap RowId DrainRow;
  dd_items : gmap (RowId * RowId) DrainClassification;       (* payment_drain_items *)
  dd_cancellations : gmap (RowId * string) CancellationLink;
  dd_rotation_items : list RotationItem;
  dd_cleanup_tokens : gmap (RowId * string) string;          (* lock_payment_generations: last_cleanup_token *)
}.

Definition dd_db (dd : DrainDb) : Db := ld_db (dd_life dd).

Definition set_dd_db (dd : DrainDb) (db : Db) : DrainDb :=
  let lb := dd_life dd in
  mk_DrainDb (mk_LifecycleDb db (ld_cursors lb) (ld_settlements lb) (ld_preparation_creators lb) (ld_bundles lb))
    (dd_pay dd) (dd_drains dd) (dd_items dd) (dd_cancellations dd) (dd_rotation_items dd) (dd_cleanup_tokens dd).

Definition set_generations (db : Db) (t : gmap (RowId * string) GenerationRow) : Db :=
  mk_Db (outbox db) (creators db) (invoices db) t (preparations db) (lifecycles db) (provider_v2 db).

Definition set_pay (dd : DrainDb) (pay : PaymentDb) : DrainDb :=
  mk_DrainDb (dd_life dd) pay (dd_drains dd) (dd_items dd) (dd_cancellations dd) (dd_rotation_items dd)
    (dd_cleanup_tokens dd).

Definition set_drains (dd : DrainDb) (t : gmap RowId DrainRow) : DrainDb :=
  mk_DrainDb (dd_life dd) (dd_pay dd) t (dd_items dd) (dd_cancellations dd) (dd_rotation_items dd) (dd_cleanup_tokens dd).

Definition set_items (dd : DrainDb) (t : gmap (RowId * RowId) DrainClassification) : DrainDb :=
  mk_DrainDb (dd_life dd) (dd_pay dd) (dd_drains dd) t (dd_cancellations dd) (dd_rotation_items dd) (dd_cleanup_tokens dd).

Definition set_cancellations (dd : DrainDb) (t : gmap (RowId * string) CancellationLink) : DrainDb :=
  mk_DrainDb (dd_life dd) (dd_pay dd) (dd_drains dd) (dd_items dd) t (dd_rotation_items dd) (dd_cleanup_tokens dd).

Definition set_cleanup_tokens (dd : DrainDb) (t : gmap (RowId * string) string) : DrainDb :=
  mk_DrainDb (dd_life dd) (dd_pay dd) (dd_drains dd) (dd_items dd) (dd_cancellations dd) (dd_rotation_items dd) t.

(** ** The snapshot handed to callers *)

Record PaymentDrainSnapshot := mk_Snapshot {
  sn_drain_id : RowId;
  sn_created_at : Z;
  sn_accepted_count : Z;
  sn_terminal_count : Z;
  sn_cancellation_enqueued_count : Z;
  sn_completed : bool;
  sn_replayed : bool;
}.

(** [u64::try_from] of a signed column *)
Definition count (value : Z) : result PersistenceError Z :=
  ensure (0 <=? value) PE_CorruptOrMissing;; Ok value.

Definition snapshot (id : RowId) (row : DrainRow) (replayed : bool) :
    result PersistenceError PaymentDrainSnapshot :=
  completed ← (if String.eqb (dr_status row) "active" then Ok false
               else if String.eqb (dr_status row) "completed" then Ok true
               else Err PE_CorruptOrMissing);
  accepted ← count (dr_accepted_count row);
  ensure (negb (Bool.eqb completed (0 <? accepted))) PE_CorruptOrMissing;;
  terminal ← count (dr_terminal_count row);
  enqueued ← count (dr_cancellation_enqueued_count row);
  Ok (mk_Snapshot id (dr_created_at row) accepted terminal enqueued completed replayed).

(** ** The frozen sets *)

(** invoice, SDK request, outbox row and its envelope *)
Notation CancellationEntry := (RowId * string * RowId * string)%type (only parsing).

(** invoice, creator, lock hash, generation and classification *)
Notation ItemEntry := (RowId * RowId * string * Z * DrainClassification)%type (only parsing).

Definition cancellation_compare (text : string → string → comparison) (a b : CancellationEntry) : comparison :=
  let '(i, s, o, _) := a in
  let '(j, t, p, _) := b in
  then_with (i ?= j)%N (then_with (text s t) (o ?= p)%N).

Definition item_compare (a b : ItemEntry) : comparison :=
  let '(i, _, _, _, c) := a in
  let '(j, _, _, _, d) := b in
  then_with (i ?= j)%N (str_compare (classification_text c) (classification_text d)).

(** A field of variable length after its length. *)
Definition framed (s : string) : string := be_bytes 8 (str_len s) ++ s.

Fixpoint cancellation_bytes (rows : list CancellationEntry) : string :=
  match rows with
  | [] => ""
  | (invoice_id, payment_request_id, outbox_id, intent_envelope) :: rows =>
      uuid_bytes invoice_id ++ framed payment_request_id ++ uuid_bytes outbox_id
      ++ framed intent_envelope ++ cancellation_bytes rows
  end.

Fixpoint item_bytes (rows : list ItemEntry) : string :=
  match rows with
  | [] => ""
  | (invoice_id, creator_id, lock_hash, generation, classification) :: rows =>
      uuid_bytes invoice_id ++ uuid_bytes creator_id ++ framed lock_hash ++ be_bytes 8 generation
      ++ framed (classification_text classification) ++ item_bytes rows
  end.

Definition CANCELLATION_SET_LABEL : string := "payment-drain-cancellation-set-v1" ++ String Ascii.zero "".

Definition ITEM_SET_LABEL : string := "payment-drain-item-set-v1" ++ String Ascii.zero "".

(** ** Classification *)

(** State, SDK request and time of the last event of one attempt; an invoice without an
    attempt counts as one with only a state. *)
Record Attempt := mk_Attempt {
  at_state : PaymentRequestLifecycleState;
  at_payment_request_id : option string;
  at_last_event_at : option Z;
}.

Definition is_accepted_state (s : PaymentRequestLifecycleState) : bool :=
  match s with Accepted | ProofSubmitted | ActiveRecurring => true | _ => false end.

Definition proposed_attempts (parsed : list Attempt) : list Attempt :=
  filter (λ a, Is_true (state_eqb (at_state a) Proposed)) parsed.

Definition terminal_classification (s : PaymentRequestLifecycleState) :
    result PersistenceError DrainClassification :=
  match s with
  | Rejected => Ok Item_Rejected
  | Canceled => Ok Item_Canceled
  | ProposalExpired => Ok Item_ProposalExpired
  | _ => Err PE_CorruptOrMissing
  end.

Definition classify_attempts (parsed : list Attempt) : result PersistenceError DrainClassification :=
  ensure (negb (existsb (λ a, state_eqb (at_state a) InvalidConflict) parsed)) PE_Conflict;;
  ensure (negb (existsb (λ a, state_eqb (at_state a) RecoveryRequired) parsed)) PE_Unavailable;;
  if existsb (λ a, is_accepted_state (at_state a)) parsed then Ok Item_Accepted
  else match proposed_attempts parsed with
       | [] =>
           latest ← ok_or (max_by (λ a b, opt_compare Z.compare (at_last_event_at a) (at_last_event_at b)) parsed)
                      PE_CorruptOrMissing;
           terminal_classification (at_state latest)
       | _ => Ok Item_CancellationEnqueued
       end.

(** The counters of [create_inner]. *)
Definition is_accepted_item (c : DrainClassification) : bool := bool_decide (c = Item_Accepted).

Definition is_terminal_item (c : DrainClassification) : bool :=
  match c with Item_Rejected | Item_Canceled | Item_ProposalExpired => true | _ => false end.

Definition count_items {A} (p : A → bool) (l : list A) : Z :=
  Z.of_nat (length (filter (λ a, Is_true (p a)) l)).

#[global] Instance DeliveryIntentV1_eq_dec {lib : PaykitLib} : EqDecision DeliveryIntentV1.
Proof. solve_decision. Defined.

Section store.
Context {core : LocksCore} {lib : PaykitLib} {prim : CryptoPrimitives} (crypto : Crypto).
(** [postcard::from_bytes], [postcard::to_allocvec] *)
Context (from_bytes : string → option DeliveryIntentV1) (to_bytes : DeliveryIntentV1 → option string).
(** The text order of the database and the [created_at] column of [outbox]. *)
Context (collate : string → string → comparison) (outbox_created_at : RowId → Z).

Definition creator_of_hash (db : Db) (creator_hash : string) : option RowId :=
  option_map fst (select_one (λ _ h, String.eqb h creator_hash) (creators db)).

Definition lock_creator_hash (lock : PubkyLockResource) : string :=
  lookup_hash crypto (creator_to_string (resource_creator lock)).

Definition lock_resource_hash (lock : PubkyLockResource) : string :=
  lookup_hash crypto (resource_to_string lock).

(** ** Frozen sets in the tables *)

Definition cancellation_rows_hash (rows : list CancellationEntry) : string :=
  lookup_hash crypto (CANCELLATION_SET_LABEL ++ cancellation_bytes rows).

Definition item_rows_hash (rows : list ItemEntry) : string :=
  lookup_hash crypto (ITEM_SET_LABEL ++ item_bytes rows).

(** The linked cancellations whose outbox row is required by a drain. *)
Definition cancellation_rows (dd : DrainDb) (drain_id : RowId) : list CancellationEntry :=
  sort_by (cancellation_compare collate) (omap (λ '((d, request), link),
    if bool_decide (d = drain_id) then
      match outbox (dd_db dd) !! cl_cancellation_outbox_id link with
      | Some r => if o_cancellation_drain_required r
                  then Some (cl_invoice_id link, request, cl_cancellation_outbox_id link, o_intent_envelope (o_key r))
                  else None
      | None => None
      end
    else None) (map_to_list (dd_cancellations dd))).

Definition item_rows (dd : DrainDb) (drain_id : RowId) : list ItemEntry :=
  sort_by item_compare (omap (λ '((d, invoice_id), classification),
    if bool_decide (d = drain_id) then
      match invoices (dd_db dd) !! invoice_id with
      | Some i => Some (invoice_id, i_creator_id i, i_lock_resource_lookup_hash i, i_lock_resource_generation i,
                        classification)
      | None => None
      end
    else None) (map_to_list (dd_items dd))).

Definition validate_frozen_sets (dd : DrainDb) (drain_id : RowId) (drain : DrainRow) :
    result PersistenceError unit :=
  let rows := cancellation_rows dd drain_id in
  ensure (0 <=? dr_cancellation_enqueued_count drain) PE_CorruptOrMissing;;
  ensure ((Z.of_nat (length rows) =? dr_cancellation_enqueued_count drain)
          && String.eqb (cancellation_rows_hash rows) (dr_cancellation_set_hash drain)) PE_CorruptOrMissing;;
  ensure (String.eqb (item_rows_hash (item_rows dd drain_id)) (dr_item_set_hash drain)) PE_CorruptOrMissing.

(** ** Progress of the items *)

(** The items of a drain joined with the payment columns of their invoices. *)
Definition drain_items (dd : DrainDb) (drain_id : RowId) : list (RowId * DrainClassification * PaymentInvoice) :=
  omap (λ '((d, invoice_id), classification),
    if bool_decide (d = drain_id) then
      match t_invoices (dd_pay dd) !! invoice_id with
      | Some i => Some (invoice_id, classification, i)
      | None => None
      end
    else None) (map_to_list (dd_items dd)).

(** [first_amount_matched_observed_at IS NOT NULL AND .. <= payment_deadline] *)
Definition matched_in_time (i : PaymentInvoice) : bool :=
  match iv_first_matched_at (iv_projection i) with
  | Some at_ => at_ <=? iv_payment_deadline (iv_columns i)
  | None => false
  end.

Definition still_accepted (pay : PaymentDb) (item : RowId * DrainClassification * PaymentInvoice) : bool :=
  let '(invoice_id, c, i) := item in
  is_accepted_item c && is_none (iv_payment_expired_at (iv_projection i))
  && negb (matched_in_time i || is_some (t_evidence pay !! invoice_id)).

Definition now_terminal (pay : PaymentDb) (item : RowId * DrainClassification * PaymentInvoice) : bool :=
  let '(invoice_id, c, i) := item in
  is_terminal_item c
  || (is_accepted_item c
      && (is_some (iv_payment_expired_at (iv_projection i)) || matched_in_time i
          || is_some (t_evidence pay !! invoice_id))).

Definition linked_cancellations (dd : DrainDb) (drain_id : RowId) : Z :=
  count_items (λ kv : RowId * string * CancellationLink, bool_decide (kv.1.1 = drain_id))
    (map_to_list (dd_cancellations dd)).

Definition status_of (accepted : Z) : string := if accepted =? 0 then "completed" else "active".

(** The [UPDATE payment_drains .. FROM frozen] statement: only forward progress is written. *)
Definition progress (dd : DrainDb) (id : RowId) (drain : DrainRow) (now : Z) : option DrainRow :=
  let items := drain_items dd id in
  let accepted := count_items (still_accepted (dd_pay dd)) items in
  let terminal := count_items (now_terminal (dd_pay dd)) items in
  if (linked_cancellations dd id =? dr_cancellation_enqueued_count drain)
     && (accepted <=? dr_accepted_count drain) && (dr_terminal_count drain <=? terminal)
     && (terminal - dr_terminal_count drain =? dr_accepted_count drain - accepted)
  then Some (mk_DrainRow (dr_creator_id drain) (dr_lock_resource_lookup_hash drain)
               (dr_lock_resource_generation drain) (dr_lock_resource_envelope drain) accepted terminal
               (dr_cancellation_enqueued_count drain) (dr_cancellation_set_hash drain) (dr_item_set_hash drain)
               (status_of accepted) (dr_created_at drain)
               (if accepted =? 0 then coalesce (dr_completed_at drain) (Some now) else None))
  else None.

(** ** [exact_replay] *)

Definition active_drain (dd : DrainDb) (creator_hash lock_hash : string) : option (RowId * DrainRow) :=
  select_one (λ id d,
    bool_decide (creators (dd_db dd) !! dr_creator_id d = Some creator_hash)
    && String.eqb (dr_lock_resource_lookup_hash d) lock_hash
    && match generations (dd_db dd) !! (dr_creator_id d, dr_lock_resource_lookup_hash d) with
       | Some g => (g_current_generation g =? dr_lock_resource_generation d)
                   && bool_decide (g_active_drain_id g = Some id)
       | None => false
       end) (dd_drains dd).

(** The lock a drain row was sealed for. *)
Definition sealed_lock (creator_hash : string) (id : RowId) (drain : DrainRow) : result PersistenceError string :=
  map_err (λ _, PE_CorruptOrMissing)
    (decrypt crypto (ctx_payment_drain creator_hash id) (dr_lock_resource_envelope drain)).

Definition drain_exact_replay (dd : DrainDb) (lock : PubkyLockResource) (now : Z) :
    result PersistenceError (option PaymentDrainSnapshot * DrainDb) :=
  let creator_hash := lock_creator_hash lock in
  match active_drain dd creator_hash (lock_resource_hash lock) with
  | None => Ok (None, dd)
  | Some (id, existing) =>
      plaintext ← sealed_lock creator_hash id existing;
      ensure (String.eqb plaintext (resource_to_string lock)) PE_Conflict;;
      validate_frozen_sets dd id existing;;
      progressed ← ok_or (progress dd id existing now) PE_CorruptOrMissing;
      snap ← snapshot id progressed true;
      Ok (Some snap, set_drains dd (<[id := progressed]> (dd_drains dd)))
  end.

(** ** [cleanup_completed] *)

Definition lock_has_drain (dd : DrainDb) (creator_id : RowId) (lock_hash : string) : bool :=
  exists_row (λ _ d, bool_decide (dr_creator_id d = creator_id)
                     && String.eqb (dr_lock_resource_lookup_hash d) lock_hash) (dd_drains dd).

Definition lock_has_invoice (db : Db) (creator_id : RowId) (lock_hash : string) : bool :=
  exists_row (λ _ i, bool_decide (i_creator_id i = creator_id)
                     && String.eqb (i_lock_resource_lookup_hash i) lock_hash) (invoices db).

(** [DELETE FROM payment_drains]: the trigger advances the generation of a completed drain
    that is the lock's active one, and the links cascade. *)
Definition delete_drain (dd : DrainDb) (id : RowId) (drain : DrainRow) : result PersistenceError DrainDb :=
  let key := (dr_creator_id drain, dr_lock_resource_lookup_hash drain) in
  ensure (String.eqb (dr_status drain) "completed") PE_Unavailable;;
  generation ← ok_or (generations (dd_db dd) !! key) PE_Unavailable;
  ensure (bool_decide (g_active_drain_id generation = Some id)) PE_Unavailable;;
  let dd := set_dd_db dd (set_generations (dd_db dd)
              (<[key := mk_GenerationRow (g_current_generation generation + 1) None]> (generations (dd_db dd)))) in
  let dd := set_drains dd (delete id (dd_drains dd)) in
  let dd := set_items dd (filter (λ kv, kv.1.1 ≠ id) (dd_items dd)) in
  Ok (set_cancellations dd (filter (λ kv, kv.1.1 ≠ id) (dd_cancellations dd))).

(** What [cleanup_completed] checks of the drain before it deletes it. *)
Definition check_canonical (dd : DrainDb) (id : RowId) (drain : DrainRow) : result PersistenceError unit :=
  let items := drain_items dd id in
  let accepted := count_items (still_accepted (dd_pay dd)) items in
  let terminal := count_items (now_terminal (dd_pay dd)) items in
  ensure ((accepted =? dr_accepted_count drain) && (terminal =? dr_terminal_count drain)
          && (linked_cancellations dd id =? dr_cancellation_enqueued_count drain)
          && String.eqb (dr_status drain) (status_of accepted)) PE_CorruptOrMissing;;
  ensure (accepted =? 0) PE_Conflict.

(** The drain named by the generation row. *)
Definition owned_drain (dd : DrainDb) (id creator_id : RowId) (lock_hash : string) (generation : Z) :
    result PersistenceError DrainRow :=
  drain ← ok_or (dd_drains dd !! id) PE_CorruptOrMissing;
  ensure (bool_decide (dr_creator_id drain = creator_id)
          && String.eqb (dr_lock_resource_lookup_hash drain) lock_hash
          && (dr_lock_resource_generation drain =? generation)) PE_CorruptOrMissing;;
  Ok drain.

Definition cleanup_completed (dd : DrainDb) (lock : PubkyLockResource) (cleanup_token : string) :
    result PersistenceError DrainDb :=
  let creator_hash := lock_creator_hash lock in
  let lock_hash := lock_resource_hash lock in
  creator_id ← ok_or (creator_of_hash (dd_db dd) creator_hash) PE_Conflict;
  match generations (dd_db dd) !! (creator_id, lock_hash) with
  | None =>
      Err (if lock_has_drain dd creator_id lock_hash || lock_has_invoice (dd_db dd) creator_id lock_hash
           then PE_CorruptOrMissing else PE_Conflict)
  | Some generation =>
      match g_active_drain_id generation with
      | None =>
          ensure (negb (lock_has_drain dd creator_id lock_hash)) PE_CorruptOrMissing;;
          receipt ← ok_or (dd_cleanup_tokens dd !! (creator_id, lock_hash)) PE_CorruptOrMissing;
          ensure (String.eqb receipt cleanup_token) PE_Conflict;;
          Ok dd
      | Some id =>
          drain ← owned_drain dd id creator_id lock_hash (g_current_generation generation);
          ensure (String.eqb (payment_drain_cleanup_token crypto id) cleanup_token) PE_Conflict;;
          plaintext ← sealed_lock creator_hash id drain;
          ensure (String.eqb plaintext (resource_to_string lock)) PE_CorruptOrMissing;;
          validate_frozen_sets dd id drain;;
          check_canonical dd id drain;;
          validated ← snapshot id drain false;
          ensure (sn_completed validated) PE_Conflict;;
          delete_drain (set_cleanup_tokens dd (<[(creator_id, lock_hash) := cleanup_token]> (dd_cleanup_tokens dd)))
            id drain
      end
  end.

(** ** Receive targets of a lock and of a bundle *)

Definition has_lifecycle (db : Db) (invoice_id : RowId) (p : PaymentRequestLifecycleState → bool) : bool :=
  existsb (λ kv : string * LifecycleRow,
    bool_decide (l_invoice_id kv.2 = Some invoice_id) && p (l_request_state kv.2)) (map_to_list (lifecycles db)).

Definition is_open_state (s : PaymentRequestLifecycleState) : bool :=
  match s with ProposalExpired | Rejected | Canceled => false | _ => true end.

(** A proposal whose reader still has to be heard. *)
Definition needs_receive (db : Db) (invoice_id : RowId) (r : OutboxRow) : bool :=
  (negb (status_is (o_status r) PermanentlyFailed) && negb (has_lifecycle db invoice_id (λ _, true)))
  || has_lifecycle db invoice_id is_open_state.

Definition created_compare (a b : RowId * OutboxRow) : comparison :=
  then_with (outbox_created_at a.1 ?= outbox_created_at b.1) (a.1 ?= b.1)%N.

Definition invoice_proposals (db : Db) (invoice_id : RowId) : list (RowId * OutboxRow) :=
  sort_by created_compare
    (filter (λ kv, Is_true (bool_decide (o_invoice_id (o_key kv.2) = Some invoice_id)
                            && kind_is (o_intent_kind (o_key kv.2)) PaymentRequestProposalKind
                            && needs_receive db invoice_id kv.2)) (map_to_list (outbox db))).

Definition generation_current (db : Db) (i : InvoiceRow) : bool :=
  match generations db !! (i_creator_id i, i_lock_resource_lookup_hash i) with
  | Some g => g_current_generation g =? i_lock_resource_generation i
  | None => false
  end.

Definition id_compare {A} (a b : RowId * A) : comparison := (a.1 ?= b.1)%N.

(** [DISTINCT ON (invoice.id) .. ORDER BY invoice.id, proposal.created_at, proposal.id] *)
Definition receive_target_rows (db : Db) (pick : RowId → InvoiceRow → bool) : list (RowId * OutboxKey) :=
  omap (λ '(invoice_id, i),
    if pick invoice_id i && is_some (creators db !! i_creator_id i) && generation_current db i
    then option_map (λ kv, (kv.1, o_key kv.2)) (head (invoice_proposals db invoice_id))
    else None) (sort_by id_compare (map_to_list (invoices db))).

Definition required_receive_targets_for_lock_in_transaction (db : Db) (creator_id : RowId) (lock_hash : string) :
    result PersistenceError (list RequiredReceiveTarget) :=
  decode_required_receive_targets crypto from_bytes db
    (receive_target_rows db (λ _ i, bool_decide (i_creator_id i = creator_id)
                                    && String.eqb (i_lock_resource_lookup_hash i) lock_hash)) [].

Definition required_receive_targets_for_lock (db : Db) (creator_id : RowId) (lock : PubkyLockResource) :
    result PersistenceError (list RequiredReceiveTarget) :=
  required_receive_targets_for_lock_in_transaction db creator_id (lock_resource_hash lock).

Definition required_receive_targets_for_bundle_in_transaction (lb : LifecycleDb) (creator_id : RowId)
    (bundle_hash : string) : result PersistenceError (list RequiredReceiveTarget) :=
  decode_required_receive_targets crypto from_bytes (ld_db lb)
    (receive_target_rows (ld_db lb) (λ id i, bool_decide (i_creator_id i = creator_id)
                                             && bool_decide (ld_bundles lb !! id = Some bundle_hash))) [].

Definition required_receive_targets_for_bundle (lb : LifecycleDb) (creator_id : RowId) (bundle_id : BundleId) :
    result PersistenceError (list RequiredReceiveTarget) :=
  required_receive_targets_for_bundle_in_transaction lb creator_id
    (lookup_hash crypto (bundle_to_string bundle_id)).

(** ** [create_inner]: reading *)

(** The invoices of one generation of a lock, by id. *)
Definition generation_invoices (db : Db) (creator_id : RowId) (lock_hash : string) (generation : Z) :
    list RowId :=
  (sort_by id_compare (filter (λ kv, Is_true (bool_decide (i_creator_id kv.2 = creator_id)
       && String.eqb (i_lock_resource_lookup_hash kv.2) lock_hash
       && (i_lock_resource_generation kv.2 =? generation))) (map_to_list (invoices db)))).*1.

(** The terminal state of an invoice the SDK never reported on. *)
Definition terminal_fallback (dd : DrainDb) (invoice_id : RowId) : option PaymentRequestLifecycleState :=
  if existsb (λ item, bool_decide (ri_invoice_id item = Some invoice_id)
                      && String.eqb (ri_classification item) "proposal_suppressed") (dd_rotation_items dd)
  then Some Canceled
  else if exists_row (λ _ r, bool_decide (o_invoice_id (o_key r) = Some invoice_id)
                             && kind_is (o_intent_kind (o_key r)) PaymentRequestProposalKind
                             && status_is (o_status r) PermanentlyFailed
                             && bool_decide (o_error_class r = Some "proposal_expired")) (outbox (dd_db dd))
  then Some ProposalExpired else None.

Definition invoice_attempts (dd : DrainDb) (invoice_id : RowId) : result PersistenceError (list Attempt) :=
  match sort_by (λ a b : string * Attempt, collate a.1 b.1) (omap (λ kv : string * LifecycleRow,
          if bool_decide (l_invoice_id kv.2 = Some invoice_id) then
            match ld_cursors (dd_life dd) !! kv.1 with
            | Some c => Some (kv.1, mk_Attempt (l_request_state kv.2) (Some kv.1) (Some (lc_last_event_at c)))
            | None => None
            end
          else None) (map_to_list (lifecycles (dd_db dd)))) with
  | [] => state ← ok_or (terminal_fallback dd invoice_id) PE_CorruptOrMissing;
          Ok [mk_Attempt state None None]
  | rows => Ok rows.*2
  end.

(** The intent sealed in an outbox row. *)
Definition open_intent (creator_hash : string) (outbox_id : RowId) (envelope : string) :
    result PersistenceError DeliveryIntentV1 :=
  plaintext ← map_err (λ _, PE_CorruptOrMissing)
    (decrypt crypto (ctx_outbox_semantic_intent creator_hash outbox_id) envelope);
  map_err (λ _, PE_CorruptOrMissing) (decode from_bytes plaintext).

(** The one proposal of an invoice. *)
Definition invoice_proposal (db : Db) (creator_hash : string) (creator_id invoice_id : RowId) :
    result PersistenceError DeliveryIntentV1 :=
  intents ← collect (λ kv : RowId * OutboxRow, open_intent creator_hash kv.1 (o_intent_envelope (o_key kv.2)))
    (sort_by created_compare
       (filter (λ kv, Is_true (bool_decide (o_creator_id (o_key kv.2) = creator_id)
                               && bool_decide (o_invoice_id (o_key kv.2) = Some invoice_id)))
          (map_to_list (outbox db))));
  match filter (λ i, Is_true (is_proposal i)) intents with
  | [proposal] => Ok proposal
  | _ => Err PE_CorruptOrMissing
  end.

Record PreparedCancellation := mk_PreparedCancellation {
  pc_invoice_id : RowId;
  pc_payment_request_id : string;
  pc_outbox_id : RowId;
  pc_envelope : string;
  pc_insert : bool;
}.

(** A cancellation already queued for the request. *)
Definition queued_cancellation (db : Db) (creator_id invoice_id : RowId) (request : string) :
    option (RowId * OutboxRow) :=
  select_one (λ _ r, let k := o_key r in
    bool_decide (o_creator_id k = creator_id) && bool_decide (o_invoice_id k = Some invoice_id)
    && is_none (o_marketplace_preparation_id k)
    && kind_is (o_intent_kind k) PaymentRequestCancellationKind
    && bool_decide (o_cancellation_target k = Some request)) (outbox db).

Definition rotation_owned (dd : DrainDb) (invoice_id : RowId) (request : string) (outbox_id : RowId) : bool :=
  existsb (λ item, bool_decide (ri_invoice_id item = Some invoice_id)
                   && bool_decide (ri_sdk_payment_request_id item = Some request)
                   && String.eqb (ri_classification item) "cancellation_pending"
                   && bool_decide (ri_cancellation_outbox_id item = Some outbox_id)) (dd_rotation_items dd).

(** Adopt the rotation's cancellation of the request, or seal a new one under the fresh
    [outbox_id] and [nonce]. *)
Definition prepare_cancellation (dd : DrainDb) (creator_hash : string) (creator_id invoice_id : RowId)
    (proposal : DeliveryIntentV1) (fresh : RowId * string) (attempt : Attempt) :
    result PersistenceError PreparedCancellation :=
  request ← ok_or (at_payment_request_id attempt) PE_CorruptOrMissing;
  cancellation ← map_err (λ _, PE_CorruptOrMissing) (payment_request_cancellation proposal request);
  match queued_cancellation (dd_db dd) creator_id invoice_id request with
  | Some (outbox_id, r) =>
      ensure (rotation_owned dd invoice_id request outbox_id
              && negb (status_is (o_status r) PermanentlyFailed)) PE_Conflict;;
      existing ← open_intent creator_hash outbox_id (o_intent_envelope (o_key r));
      ensure (bool_decide (existing = cancellation)) PE_Conflict;;
      Ok (mk_PreparedCancellation invoice_id request outbox_id (o_intent_envelope (o_key r)) false)
  | None =>
      plaintext ← ok_or (to_bytes cancellation) PE_CorruptOrMissing;
      envelope ← map_err (λ _, PE_CorruptOrMissing)
        (encrypt crypto fresh.2 (ctx_outbox_semantic_intent creator_hash fresh.1) plaintext);
      Ok (mk_PreparedCancellation invoice_id request fresh.1 envelope true)
  end.

(** The cancellations of one invoice; [supply n] are the identifier and nonce of the
    [n]-th new outbox row. *)
Fixpoint prepare_cancellations (dd : DrainDb) (creator_hash : string) (creator_id invoice_id : RowId)
    (proposal : DeliveryIntentV1) (supply : nat → RowId * string) (n : nat) (attempts : list Attempt) :
    result PersistenceError (list PreparedCancellation) :=
  match attempts with
  | [] => Ok []
  | attempt :: attempts =>
      prepared ← prepare_cancellation dd creator_hash creator_id invoice_id proposal (supply n) attempt;
      rest ← prepare_cancellations dd creator_hash creator_id invoice_id proposal supply (S n) attempts;
      Ok (prepared :: rest)
  end.

Definition invoice_cancellations (dd : DrainDb) (creator_hash : string) (creator_id invoice_id : RowId)
    (supply : nat → RowId * string) (n : nat) (proposed : list Attempt) :
    result PersistenceError (list PreparedCancellation) :=
  match proposed with
  | [] => Ok []
  | _ =>
      proposal ← invoice_proposal (dd_db dd) creator_hash creator_id invoice_id;
      prepare_cancellations dd creator_hash creator_id invoice_id proposal supply n proposed
  end.

(** Classify every invoice and prepare the cancellations, in the order of the ids. *)
Fixpoint freeze_invoices (dd : DrainDb) (creator_hash : string) (creator_id : RowId)
    (supply : nat → RowId * string) (n : nat) (invoice_ids : list RowId) :
    result PersistenceError (list (RowId * DrainClassification) * list PreparedCancellation) :=
  match invoice_ids with
  | [] => Ok ([], [])
  | invoice_id :: invoice_ids =>
      parsed ← invoice_attempts dd invoice_id;
      classification ← classify_attempts parsed;
      prepared ← invoice_cancellations dd creator_hash creator_id invoice_id supply n (proposed_attempts parsed);
      rest ← freeze_invoices dd creator_hash creator_id supply (n + length prepared) invoice_ids;
      Ok ((invoice_id, classification) :: rest.1, prepared ++ rest.2)%list
  end.

(** ** [create_inner]: writing *)

(** [INSERT INTO payment_drains]: the primary key, [UNIQUE (creator_id,
    lock_resource_lookup_hash)] and the [CHECK]s. *)
Definition insert_drain (dd : DrainDb) (id : RowId) (row : DrainRow) : result PersistenceError DrainDb :=
  ensure (is_none (dd_drains dd !! id)
          && negb (lock_has_drain dd (dr_creator_id row) (dr_lock_resource_lookup_hash row))
          && (0 <=? dr_lock_resource_generation row) && (0 <=? dr_accepted_count row)
          && (0 <=? dr_terminal_count row) && (0 <=? dr_cancellation_enqueued_count row)
          && Nat.eqb (String.length (dr_cancellation_set_hash row)) 32
          && Nat.eqb (String.length (dr_item_set_hash row)) 32) PE_Unavailable;;
  Ok (set_drains dd (<[id := row]> (dd_drains dd))).

(** [UPDATE lock_payment_generations SET active_drain_id = $1 ..] *)
Definition fence_generation (dd : DrainDb) (id creator_id : RowId) (lock_hash : string) (generation : Z) :
    result PersistenceError DrainDb :=
  match generations (dd_db dd) !! (creator_id, lock_hash) with
  | Some g =>
      ensure ((g_current_generation g =? generation) && is_none (g_active_drain_id g)) PE_Conflict;;
      Ok (set_dd_db dd (set_generations (dd_db dd)
            (<[(creator_id, lock_hash) := mk_GenerationRow (g_current_generation g) (Some id)]>
               (generations (dd_db dd)))))
  | None => Err PE_Conflict
  end.

(** [UNIQUE (invoice_id, cancellation_target_payment_request_id, intent_kind)] *)
Definition cancellation_taken (db : Db) (invoice_id : RowId) (request : string) : bool :=
  exists_row (λ _ r, bool_decide (o_invoice_id (o_key r) = Some invoice_id)
    && bool_decide (o_cancellation_target (o_key r) = Some request)
    && kind_is (o_intent_kind (o_key r)) PaymentRequestCancellationKind) (outbox db).

(** Queue the new cancellation, or mark the adopted one. *)
Definition write_cancellation (db : Db) (creator_id : RowId) (now clock : Z) (c : PreparedCancellation) :
    result PersistenceError Db :=
  if pc_insert c then
    ensure (negb (cancellation_taken db (pc_invoice_id c) (pc_payment_request_id c))) PE_Unavailable;;
    let (inserted, db) := insert_drain_cancellation db (pc_outbox_id c) creator_id (pc_invoice_id c)
      (pc_envelope c) (pc_payment_request_id c) now in
    inserted;; Ok db
  else
    let (marked, db) := mark_drain_required db clock (pc_outbox_id c) creator_id (pc_invoice_id c)
      (pc_payment_request_id c) in
    marked ← marked;
    ensure marked PE_Conflict;; Ok db.

Fixpoint write_cancellations (db : Db) (creator_id : RowId) (now clock : Z) (l : list PreparedCancellation) :
    result PersistenceError Db :=
  match l with
  | [] => Ok db
  | c :: l => db ← write_cancellation db creator_id now clock c; write_cancellations db creator_id now clock l
  end.

(** [INSERT INTO payment_drain_items]: an invoice is in at most one drain, and the trigger
    checks that drain and invoice share creator, lock and generation. *)
Definition insert_item (dd : DrainDb) (drain_id invoice_id : RowId) (c : DrainClassification) :
    result PersistenceError DrainDb :=
  ensure (negb (existsb (λ kv : RowId * RowId * DrainClassification, bool_decide (kv.1.2 = invoice_id))
                  (map_to_list (dd_items dd)))
          && match dd_drains dd !! drain_id, invoices (dd_db dd) !! invoice_id with
             | Some d, Some i =>
                 bool_decide (i_creator_id i = dr_creator_id d)
                 && String.eqb (i_lock_resource_lookup_hash i) (dr_lock_resource_lookup_hash d)
                 && (i_lock_resource_generation i =? dr_lock_resource_generation d)
             | _, _ => false
             end) PE_Unavailable;;
  Ok (set_items dd (<[(drain_id, invoice_id) := c]> (dd_items dd))).

Fixpoint insert_items (dd : DrainDb) (drain_id : RowId) (l : list (RowId * DrainClassification)) :
    result PersistenceError DrainDb :=
  match l with
  | [] => Ok dd
  | (invoice_id, c) :: l => dd ← insert_item dd drain_id invoice_id c; insert_items dd drain_id l
  end.

(** [INSERT INTO payment_drain_cancellations]: primary key, [UNIQUE
    (cancellation_outbox_id)] and the foreign keys to item, lifecycle and outbox row. *)
Definition insert_link (dd : DrainDb) (drain_id : RowId) (c : PreparedCancellation) :
    result PersistenceError DrainDb :=
  let request := pc_payment_request_id c in
  ensure (negb (str_is_empty request)
          && is_none (dd_cancellations dd !! (drain_id, request))
          && negb (existsb (λ kv : RowId * string * CancellationLink,
                     bool_decide (cl_cancellation_outbox_id kv.2 = pc_outbox_id c)) (map_to_list (dd_cancellations dd)))
          && is_some (dd_items dd !! (drain_id, pc_invoice_id c))
          && match lifecycles (dd_db dd) !! request with
             | Some row => bool_decide (l_invoice_id row = Some (pc_invoice_id c))
             | None => false
             end
          && match outbox (dd_db dd) !! pc_outbox_id c with
             | Some r => bool_decide (o_invoice_id (o_key r) = Some (pc_invoice_id c))
                         && bool_decide (o_cancellation_target (o_key r) = Some request)
                         && kind_is (o_intent_kind (o_key r)) PaymentRequestCancellationKind
             | None => false
             end) PE_Unavailable;;
  Ok (set_cancellations dd (<[(drain_id, request) := mk_CancellationLink (pc_invoice_id c) (pc_outbox_id c)]>
                              (dd_cancellations dd))).

Fixpoint insert_links (dd : DrainDb) (drain_id : RowId) (l : list PreparedCancellation) :
    result PersistenceError DrainDb :=
  match l with
  | [] => Ok dd
  | c :: l => dd ← insert_link dd drain_id c; insert_links dd drain_id l
  end.

Definition prepared_entry (c : PreparedCancellation) : CancellationEntry :=
  (pc_invoice_id c, pc_payment_request_id c, pc_outbox_id c, pc_envelope c).

Definition prepared_compare (a b : PreparedCancellation) : comparison :=
  cancellation_compare str_compare (prepared_entry a) (prepared_entry b).

(** [INSERT INTO lock_payment_generations .. ON CONFLICT DO NOTHING] *)
Definition ensure_generation (dd : DrainDb) (creator_id : RowId) (lock_hash : string) : DrainDb :=
  match generations (dd_db dd) !! (creator_id, lock_hash) with
  | Some _ => dd
  | None => set_dd_db dd (set_generations (dd_db dd)
              (<[(creator_id, lock_hash) := mk_GenerationRow 0 None]> (generations (dd_db dd))))
  end.

(** The random values of one creation. *)
Record DrainFresh := mk_DrainFresh {
  df_drain_id : RowId;
  df_lock_nonce : string;
  df_supply : nat → RowId * string;
}.

(** The part after the fence: freeze the sets and write the drain. *)
Definition write_drain (dd : DrainDb) (lock : PubkyLockResource) (creator_id : RowId) (generation : Z)
    (fresh : DrainFresh) (now clock : Z) : result PersistenceError (PaymentDrainSnapshot * DrainDb) :=
  let creator_hash := lock_creator_hash lock in
  let lock_hash := lock_resource_hash lock in
  let id := df_drain_id fresh in
  frozen ← freeze_invoices dd creator_hash creator_id (df_supply fresh) 0
             (generation_invoices (dd_db dd) creator_id lock_hash generation);
  let classifications := frozen.1 in
  let cancellations := sort_by prepared_compare frozen.2 in
  let accepted := count_items (λ c : RowId * DrainClassification, is_accepted_item c.2) classifications in
  let terminal := count_items (λ c : RowId * DrainClassification, is_terminal_item c.2) classifications in
  let enqueued := Z.of_nat (length cancellations) in
  envelope ← map_err (λ _, PE_CorruptOrMissing)
    (encrypt crypto (df_lock_nonce fresh) (ctx_payment_drain creator_hash id) (resource_to_string lock));
  ensure (enqueued <=? i64_max) PE_InvalidInput;;
  dd ← insert_drain dd id (mk_DrainRow creator_id lock_hash generation envelope accepted terminal enqueued
         (cancellation_rows_hash (prepared_entry <$> cancellations))
         (item_rows_hash ((λ c : RowId * DrainClassification, (c.1, creator_id, lock_hash, generation, c.2))
                            <$> classifications))
         (status_of accepted) now (if accepted =? 0 then Some now else None));
  dd ← fence_generation dd id creator_id lock_hash generation;
  db ← write_cancellations (dd_db dd) creator_id now clock cancellations;
  dd ← insert_items (set_dd_db dd db) id classifications;
  dd ← insert_links dd id cancellations;
  accepted ← count accepted;
  terminal ← count terminal;
  Ok (mk_Snapshot id now accepted terminal enqueued (accepted =? 0) false, dd).

(** [evidence] are the targets the caller has received from, if it did. *)
Definition create_inner (dd : DrainDb) (lock : PubkyLockResource)
    (evidence : option (list RequiredReceiveTarget)) (fresh : DrainFresh) (now clock : Z) :
    result PersistenceError (PaymentDrainSnapshot * DrainDb) :=
  let creator_hash := lock_creator_hash lock in
  let lock_hash := lock_resource_hash lock in
  creator_id ← ok_or (creator_of_hash (dd_db dd) creator_hash) PE_CorruptOrMissing;
  stored_lookup_hash creator_hash;;
  match select_one (λ _ d, bool_decide (dr_creator_id d = creator_id)
                           && String.eqb (dr_lock_resource_lookup_hash d) lock_hash) (dd_drains dd) with
  | Some (id, existing) =>
      plaintext ← sealed_lock creator_hash id existing;
      ensure (String.eqb plaintext (resource_to_string lock)) PE_Conflict;;
      replay ← drain_exact_replay dd lock now;
      snap ← ok_or replay.1 PE_CorruptOrMissing;
      Ok (snap, replay.2)
  | None =>
      let dd := ensure_generation dd creator_id lock_hash in
      g ← ok_or (generations (dd_db dd) !! (creator_id, lock_hash)) PE_Unavailable;
      ensure (negb ((g_current_generation g <? 0) || is_some (g_active_drain_id g))) PE_CorruptOrMissing;;
      match evidence with
      | Some evidence =>
          current ← required_receive_targets_for_lock_in_transaction (dd_db dd) creator_id lock_hash;
          ensure (receive_evidence_covers current evidence) PE_Unavailable
      | None => Ok tt
      end;;
      write_drain dd lock creator_id (g_current_generation g) fresh now clock
  end.

Definition drain_create (dd : DrainDb) (lock : PubkyLockResource) (fresh : DrainFresh) (now clock : Z) :
    result PersistenceError (PaymentDrainSnapshot * DrainDb) :=
  create_inner dd lock None fresh now clock.

Definition create_after_receive (dd : DrainDb) (lock : PubkyLockResource)
    (evidence : list RequiredReceiveTarget) (fresh : DrainFresh) (now clock : Z) :
    result PersistenceError (PaymentDrainSnapshot * DrainDb) :=
  create_inner dd lock (Some evidence) fresh now clock.
End store.
