(* ===== verification/DrainProgress.v ===== *)
(** * DrainProgress: what drains rely on from the payment tables

    A drain counts an accepted item as settled once its invoice has expired, has been
    matched by its deadline or has first evidence, and the statement that records progress
    refuses to move an item back.  This file proves that the transactions of [Observations] never
    unsettle an invoice without provider terms while the observer's clock does not run
    backwards, so a replay of a drain never meets a regression. *)

From S2P Require Import Prelude Text Locks Invoice Receiving Payment Lifecycle Pricing Intent Database Crypto PaymentRecord Observations Settlement LifecycleStore Sorting Drains.
Local Open Scope string_scope.
Local Open Scope Z_scope.

(** The three ways an invoice is settled. *)
Definition item_settled (pay : PaymentDb) (invoice : RowId) (i : PaymentInvoice) : bool :=
  is_some (iv_payment_expired_at (iv_projection i)) || matched_in_time i
  || is_some (t_evidence pay !! invoice).

Lemma still_accepted_settled pay invoice c i :
  still_accepted pay (invoice, c, i) = is_accepted_item c && negb (item_settled pay invoice i).
Proof.
  unfold still_accepted, item_settled, is_none. rewrite !negb_orb.
  destruct (is_accepted_item c), (is_some (iv_payment_expired_at _)), (matched_in_time i), (is_some _); reflexivity.
Qed.

Lemma now_terminal_settled pay invoice c i :
  now_terminal pay (invoice, c, i) = is_terminal_item c || (is_accepted_item c && item_settled pay invoice i).
Proof. reflexivity. Qed.

(** What the observers keep true of the payment columns: every invoice is created before
    its deadline, a first match after the deadline is not later than the last observation,
    and a timely output of an invoice without provider terms was a first match by the
    deadline. *)
Definition settle_inv (clock : Z) (pay : PaymentDb) : Prop :=
  (∀ i row, t_invoices pay !! i = Some row →
     iv_created_at (iv_columns row) <= iv_payment_deadline (iv_columns row)
     ∧ ∀ t, iv_first_matched_at (iv_projection row) = Some t →
         t <= iv_payment_deadline (iv_columns row) ∨ t <= clock)
  ∧ (∀ i hash row, (i, hash) ∈ t_timely pay → t_provider_v2 pay !! i = None →
       t_invoices pay !! i = Some row → matched_in_time row = true).

(** No invoice without provider terms is unsettled, none disappears or changes terms. *)
Definition settled_kept (pay pay' : PaymentDb) : Prop :=
  t_provider_v2 pay' = t_provider_v2 pay
  ∧ ∀ i row, t_invoices pay !! i = Some row →
      ∃ row', t_invoices pay' !! i = Some row'
        ∧ (t_provider_v2 pay !! i = None → item_settled pay i row = true → item_settled pay' i row' = true).

#[global] Instance settled_kept_preorder : PreOrder settled_kept.
Proof.
  split.
  - intros pay. split; [done|]. intros i row Hi. by exists row.
  - intros a b c [Hv H] [Hv' H']. split; [congruence|]. intros i row Hi.
    destruct (H _ _ Hi) as (row' & Hi' & Hs). destruct (H' _ _ Hi') as (row'' & Hi'' & Hs').
    exists row''. split; [done|]. intros Hn ?. apply Hs'; [by rewrite Hv|by apply Hs].
Qed.

Lemma settle_inv_mono clock clock' pay : clock <= clock' → settle_inv clock pay → settle_inv clock' pay.
Proof.
  intros Hc [H1 H2]. split; [|done]. intros i row Hi. destruct (H1 _ _ Hi) as [? H]. split; [done|].
  intros t [?|?]%H; [by left|right; lia].
Qed.

(** A step that keeps the invariant at a clock and unsettles nothing. *)
Definition settles (clock : Z) (pay pay' : PaymentDb) : Prop :=
  settle_inv clock pay → settle_inv clock pay' ∧ settled_kept pay pay'.

Lemma settles_refl clock pay : settles clock pay pay.
Proof. done. Qed.

Lemma settles_trans clock a b c : settles clock a b → settles clock b c → settles clock a c.
Proof. intros H H' [? ?]%H. destruct H' as [? ?]; [done|]. split; [done|by transitivity b]. Qed.

(** Rewriting one invoice's projection. *)
Lemma settles_update clock pay id row p evidence' :
  t_invoices pay !! id = Some row → t_evidence pay ⊆ evidence' →
  (∀ t, iv_first_matched_at p = Some t → t <= iv_payment_deadline (iv_columns row) ∨ t <= clock) →
  (matched_in_time row = true → matched_in_time (mk_PaymentInvoice (iv_columns row) p) = true) →
  (t_provider_v2 pay !! id = None → item_settled pay id row = true →
     is_some (iv_payment_expired_at p) || matched_in_time (mk_PaymentInvoice (iv_columns row) p)
     || is_some (t_evidence pay !! id) = true) →
  settles clock pay (set_evidence (set_invoices pay (<[id := mk_PaymentInvoice (iv_columns row) p]> (t_invoices pay))) evidence').
Proof.
  intros Hrow Hev Hfirst Hmatch Hkept [H1 H2].
  assert (Hsome : ∀ i, is_some (t_evidence pay !! i) = true → is_some (evidence' !! i) = true).
  { intros i Hi. destruct (t_evidence pay !! i) eqn:E; [|done].
    by rewrite (lookup_weaken _ _ _ _ E Hev). }
  split; [split|split; [done|]]; simpl.
  - intros i r [[<- <-]|[_ Hi]]%lookup_insert_Some; [|by apply (H1 i)]. split; [by destruct (H1 _ _ Hrow)|done].
  - intros i hash r Hin Hv [[<- <-]|[_ Hi]]%lookup_insert_Some; [|by apply (H2 i hash)]. by apply Hmatch, (H2 id hash).
  - intros i r Hi. destruct (decide (id = i)) as [<-|Hne].
    + rewrite lookup_insert_eq. eexists; split; [done|]. simplify_eq. intros Hv Hs.
      specialize (Hkept Hv Hs). unfold item_settled. simpl. apply orb_true_iff in Hkept as [->|?%Hsome]; [done|].
      by apply orb_true_iff; right.
    + rewrite lookup_insert_ne by done. exists r. split; [done|]. intros _. unfold item_settled. simpl.
      rewrite !orb_true_iff. intros [[?|?]|?%Hsome]; auto.
Qed.

(** Changing tables the invariant does not read, and growing the evidence. *)
Lemma settles_same clock pay pay' :
  t_invoices pay' = t_invoices pay → t_timely pay' = t_timely pay → t_provider_v2 pay' = t_provider_v2 pay →
  t_evidence pay ⊆ t_evidence pay' → settles clock pay pay'.
Proof.
  intros Hi Ht Hv He [H1 H2]. split; [split; by rewrite Hi, ?Ht, ?Hv|split; [done|]].
  intros i row Hr. rewrite Hi. exists row. split; [done|]. intros _. unfold item_settled. rewrite !orb_true_iff.
  intros [[?|?]|Hs]; auto. right. destruct (t_evidence pay !! i) eqn:E; [|done]. by rewrite (lookup_weaken _ _ _ _ E He).
Qed.

Section steps.
Context {prim : CryptoPrimitives} {codec : ObservationCodec} (crypto : Crypto).

Lemma matched_least row t p :
  matched_in_time row = true →
  iv_first_matched_at p = sql_least (iv_first_matched_at (iv_projection row)) t →
  matched_in_time (mk_PaymentInvoice (iv_columns row) p) = true.
Proof.
  unfold matched_in_time. simpl. intros H ->. destruct (iv_first_matched_at (iv_projection row)) as [u|]; [|done].
  apply Z.leb_le in H. destruct t; simpl; apply Z.leb_le; lia.
Qed.

(** An eligible receipt was received by the deadline. *)
Lemma usdt_received_in_time pay columns invoice creator_hash usdt p :
  iv_created_at columns <= iv_payment_deadline columns →
  usdt_half crypto pay columns invoice creator_hash usdt = Ok (Some p) → eligible p = true →
  ∃ t, op_received_at p = Some t ∧ t <= iv_payment_deadline columns.
Proof.
  intros Hc H He. unfold usdt_half in H. destruct usdt as [destination|]; [|done].
  apply bind_ok in H as (selected & Hsel & [= Hp]). destruct selected as [[name q]|]; [|done]. simplify_eq/=.
  unfold usdt_payment in Hsel. apply select_receipt_spec in Hsel as [_ Hfrom].
  destruct (Hfrom _ eq_refl) as [?|(id & row & facts & _ & _ & Heq)]; [done|].
  unfold receipt_candidate in Heq. simplify_eq/=. unfold eligible in He. simpl in He. split_bools.
  eexists. split; [done|]. lia.
Qed.

(** A timely active output of an invoice without provider terms was matched in time. *)
Lemma bitcoin_eligible_matched clock pay invoice row creator_hash bitcoin p :
  settle_inv clock pay → t_invoices pay !! invoice = Some row → t_provider_v2 pay !! invoice = None →
  bitcoin_payment crypto pay invoice creator_hash bitcoin = Ok p → eligible p = true →
  matched_in_time row = true.
Proof.
  intros [_ H2] Hrow Hv H He. unfold bitcoin_payment in H. destruct bitcoin as [d|]; [|by injection H as <-].
  destruct (select_one _ _) as [[id obs]|]; [|by injection H as <-].
  apply bind_ok in H as (facts & _ & H). cbv zeta in H. injection H as <-.
  unfold eligible in He. simpl in He. split_bools. by eapply H2.
Qed.

Lemma project_payments_settles clock pay invoice creator_hash payment now pay' :
  project_payments crypto pay invoice creator_hash payment now = Ok pay' → settles clock pay pay'.
Proof.
  intros (row & b & u & Hrow & Hb & Hu & db1 & H1 & H)%project_payments_inv Hinv. cbv zeta in *.
  set (ue := match u with Some p => eligible p | None => false end) in *.
  set (ra := if ue then u ≫= op_received_at else None) in *.
  assert (settles clock db1 pay') as Hc.
  { destruct (_ || _); [|injection H as <-; apply settles_refl]. unfold insert_contact in H.
    destruct (exists_row _ _); [injection H as <-; apply settles_refl|].
    apply bind_ok in H as (? & _ & [= <-]). by apply settles_same. }
  assert (Hra : ∀ t, ra = Some t → t <= iv_payment_deadline (iv_columns row)).
  { unfold ra, ue. destruct u as [p|]; [|done]. destruct (eligible p) eqn:Hep; [|done]. simpl. intros t Ht.
    destruct Hinv as [H1' _]. destruct (H1' _ _ Hrow) as [Hcd _].
    destruct (usdt_received_in_time _ _ _ _ _ _ Hcd Hu Hep) as (t' & Ht' & ?). congruence. }
  assert (Hue : ue = true → is_some ra = true).
  { unfold ra, ue. destruct u as [p|]; [|done]. intros Hep. rewrite Hep. simpl.
    destruct Hinv as [H1' _]. destruct (H1' _ _ Hrow) as [Hcd _].
    by destruct (usdt_received_in_time _ _ _ _ _ _ Hcd Hu Hep) as (t' & -> & ?). }
  assert (settles clock pay db1) as Hs; [|revert Hinv; by apply (settles_trans clock pay db1)].
  apply update_invoice_inv in H1 as [->|(r & Hr & _ & ->)]; [apply settles_refl|]. simplify_eq.
  set (p := projected_columns b ra (eligible b || ue) now (iv_columns row) (iv_projection row)).
  change (set_invoices pay ?t) with (set_evidence (set_invoices pay t) (t_evidence pay)).
  apply settles_update; [done|done| | |].
  - simpl. intros t Ht. destruct Hinv as [H1' _]. destruct (H1' _ _ Hrow) as [_ Hf].
    destruct (iv_first_matched_at (iv_projection row)) as [u0|], ra as [r0|]; simplify_eq/=; auto.
    specialize (Hra _ eq_refl). left. lia.
  - intros Hm. by apply (matched_least row ra).
  - intros Hv Hs. simpl. unfold item_settled in Hs.
    assert (Hmono : matched_in_time row = true → matched_in_time (mk_PaymentInvoice (iv_columns row) p) = true)
      by (intros Hm; by apply (matched_least row ra)).
    destruct (eligible b) eqn:Heb; [|destruct ue eqn:Eue]; simpl.
    + rewrite Hmono; [done|]. by eapply bitcoin_eligible_matched.
    + assert (matched_in_time (mk_PaymentInvoice (iv_columns row) p) = true) as ->; [|done].
      unfold matched_in_time. simpl. specialize (Hue eq_refl). destruct ra as [r0|]; [|done].
      specialize (Hra _ eq_refl). destruct (iv_first_matched_at _); simpl; apply Z.leb_le; lia.
    + rewrite !orb_true_iff in Hs. destruct Hs as [[Hs|Hs%Hmono]|Hs].
      * destruct (iv_payment_expired_at (iv_projection row)) eqn:E; [|done]. by destruct (_ <? now).
      * rewrite Hs. by rewrite orb_true_r.
      * rewrite Hs. by rewrite orb_true_r.
Qed.

(** Freezing the first match of an output observed at the clock: the timely set may grow by
    that output if the deadline has not passed. *)
Lemma freeze_match_settles clock db1 db2 invoice row p :
  t_invoices db1 !! invoice = Some row →
  t_invoices db2 = t_invoices db1 → t_provider_v2 db2 = t_provider_v2 db1 → t_evidence db2 = t_evidence db1 →
  (∀ i hash, (i, hash) ∈ t_timely db2 →
     (i, hash) ∈ t_timely db1 ∨ i = invoice ∧ clock <= iv_payment_deadline (iv_columns row)) →
  iv_first_matched_at p = coalesce (iv_first_matched_at (iv_projection row)) (Some clock) →
  iv_payment_expired_at p = iv_payment_expired_at (iv_projection row) →
  settles clock db1 (set_invoices db2 (<[invoice := mk_PaymentInvoice (iv_columns row) p]> (t_invoices db2))).
Proof.
  intros Hrow Hi Hv He Htimely Hp1 Hp2 [H1 H2]. destruct (H1 _ _ Hrow) as [Hcd Hf].
  assert (Hmatch : clock <= iv_payment_deadline (iv_columns row) →
                   matched_in_time (mk_PaymentInvoice (iv_columns row) p) = true).
  { intros Hc. unfold matched_in_time. simpl. rewrite Hp1.
    destruct (iv_first_matched_at (iv_projection row)) as [t|]; simpl;
      apply Z.leb_le; [|lia]. destruct (Hf t eq_refl); lia. }
  assert (Hold : matched_in_time row = true → matched_in_time (mk_PaymentInvoice (iv_columns row) p) = true).
  { unfold matched_in_time. simpl. rewrite Hp1. by destruct (iv_first_matched_at (iv_projection row)). }
  split; [split|split; [done|]]; simpl; rewrite ?Hi, ?Hv.
  - intros i r [[<- <-]|[_ Hr]]%lookup_insert_Some; [|by apply (H1 i)]. split; [done|]. simpl. rewrite Hp1.
    intros t Ht. destruct (iv_first_matched_at (iv_projection row)); simplify_eq/=; auto. right. lia.
  - intros i hash r Hin Hnone [[<- <-]|[Hne Hr]]%lookup_insert_Some.
    + destruct (Htimely _ _ Hin) as [Hin'|[_ ?]]; [|by apply Hmatch]. by apply Hold, (H2 invoice hash).
    + destruct (Htimely _ _ Hin) as [Hin'|[-> ?]]; [|done]. by apply (H2 i hash).
  - intros i r Hr. destruct (decide (invoice = i)) as [<-|Hne].
    + rewrite lookup_insert_eq. eexists; split; [done|]. simplify_eq. intros _. unfold item_settled. simpl.
      rewrite He, Hp2, !orb_true_iff. intros [[?|?%Hold]|?]; auto.
    + rewrite lookup_insert_ne by done. exists r. split; [done|]. intros _. unfold item_settled. simpl. by rewrite He.
Qed.

(** The timely set of an invoice with provider terms may grow. *)
Lemma provider_timely_settles clock pay invoice hash :
  is_some (t_provider_v2 pay !! invoice) = true →
  settles clock pay (set_timely pay ({[(invoice, hash)]} ∪ t_timely pay)).
Proof.
  intros Hv [H1 H2]. split; [split; [done|]|by split; [|intros i r Hr; exists r]].
  simpl. intros i h r Hin Hnone Hr.
  apply elem_of_union in Hin as [[= -> ->]%elem_of_singleton|Hin]; [by rewrite Hnone in Hv|by apply (H2 i h)].
Qed.

(** The write phase of an observation made at the clock. *)
Lemma write_observation_settles clock pay fresh nonce invoice creator_hash outpoint sats confirmations
    present replace matched existing id pay' row :
  t_invoices pay !! invoice = Some row →
  write_observation crypto pay fresh nonce invoice (iv_columns row) creator_hash outpoint sats confirmations
    present replace matched (is_some (t_provider_v2 pay !! invoice)) existing clock = Ok (id, pay') →
  settles clock pay pay'.
Proof.
  intros Hrow. unfold write_observation. cbv zeta.
  set (db0 := if replace then deactivate_all pay invoice else pay). intros H.
  apply bind_ok in H as (envelope & _ & H). apply bind_ok in H as ([n db1] & Hup & H).
  apply bind_ok in H as (? & Hn%ensure_ok & H). apply Z.eqb_eq in Hn. simpl in Hn, H. subst n.
  apply upsert_observation_inv in Hup as (key & new & -> & _); [|done..].
  set (db1 := set_observations db0 _) in *.
  assert (t_invoices db1 = t_invoices pay ∧ t_timely db1 = t_timely pay
          ∧ t_provider_v2 db1 = t_provider_v2 pay ∧ t_evidence db1 = t_evidence pay) as (Hi & Ht & Hv & He)
    by (unfold db1, db0; by destruct replace).
  clearbody db1. clear db0.
  apply (settles_trans _ _ db1); [apply settles_same; rewrite ?He; done|].
  apply bind_ok in H as (db3 & H3 & [= _ <-]). rewrite <- Hv in H3. rewrite <- Hi in Hrow. clear Hi Ht Hv He pay.
  destruct (is_some (t_provider_v2 db1 !! invoice)) eqn:Hv; simpl in H3.
  - rewrite andb_false_r in H3. injection H3 as <-.
    destruct (matched && _); [by apply provider_timely_settles|apply settles_refl].
  - destruct matched; simpl in H3; [|injection H3 as <-; apply settles_refl].
    set (db2 := if clock <=? _ then _ else db1) in H3.
    assert (t_invoices db2 = t_invoices db1) as Hi by (unfold db2; by destruct (clock <=? _)).
    unfold update_invoice in H3. rewrite Hi, Hrow in H3. apply bind_ok in H3 as (? & _ & [= <-]).
    rewrite <- Hi. apply freeze_match_settles; try done; try (unfold db2; by destruct (clock <=? _)).
    unfold db2. intros i hash Hin. destruct (clock <=? _) eqn:Ec; [|by left]. apply Z.leb_le in Ec. simpl in Hin.
    apply elem_of_union in Hin as [[= -> ->]%elem_of_singleton|Hin]; auto.
Qed.

Lemma sample_settles clock pay invoice id at_ present confirmations matched :
  settles clock pay (project_provider_v2_sample pay invoice id at_ present confirmations matched).
Proof.
  unfold project_provider_v2_sample. destruct (t_provider_v2 pay !! invoice); [|apply settles_refl].
  destruct (_ && is_none _) eqn:E; apply settles_same; try done. simpl in *.
  apply insert_subseteq. apply andb_true_iff in E as [_ E]. by destruct (t_evidence pay !! invoice).
Qed.

Lemma apply_in_tx_settles clock pay fresh nonce o applied pay' :
  apply_bitcoin_observation_in_tx crypto pay fresh nonce o clock = Ok (applied, pay') → settles clock pay pay'.
Proof.
  intros [->|(invoice & row & payment & required & existing & active & id & db1 & db2 & H)]%apply_in_tx_inv;
    [apply settles_refl|].
  destruct H as (_ & _ & Hinv & _ & _ & _ & _ & Hw & Hp & ->).
  apply select_one_some in Hinv as [Hrow _].
  eapply settles_trans; [by eapply write_observation_settles|].
  eapply settles_trans; [by eapply project_payments_settles|]. apply sample_settles.
Qed.

Lemma apply_each_settles clock pay batch n m pay' :
  apply_each crypto pay batch clock n = Ok (m, pay') → settles clock pay pay'.
Proof.
  revert pay n. induction batch as [|[[fresh nonce] o] batch IH]; intros pay n H; simpl in H.
  { injection H as _ <-. apply settles_refl. }
  apply bind_ok in H as ([a db1] & H1 & H). eapply settles_trans; [by eapply apply_in_tx_settles|by eapply IH].
Qed.

Lemma expire_settles clock pay address at_ :
  settles clock pay (expire_unmatched_at_deadline_in_tx crypto pay address at_).
Proof.
  intros [H1 H2]. unfold expire_unmatched_at_deadline_in_tx.
  split; [split|split; [done|]]; simpl.
  - intros i row Hi. rewrite map_lookup_imap in Hi. apply bind_Some in Hi as (r & Hr & [= <-]).
    apply H1 in Hr. by destruct (_ && is_none _).
  - intros i hash row Hin Hv Hi. rewrite map_lookup_imap in Hi. apply bind_Some in Hi as (r & Hr & [= <-]).
    specialize (H2 _ _ _ Hin Hv Hr). by destruct (_ && is_none _).
  - intros i row Hi. rewrite map_lookup_imap, Hi. simpl. eexists. split; [done|]. intros _.
    destruct (_ && is_none _); [|done]. done.
Qed.

Lemma batch_settles clock pay batch n pay' :
  apply_bitcoin_observation_batch crypto pay batch clock = Ok (n, pay') → settles clock pay pay'.
Proof.
  unfold apply_bitcoin_observation_batch. destruct batch as [|x batch']; [intros [= _ <-]; apply settles_refl|].
  generalize (x :: batch'). intros batch H. apply bind_ok in H as ([m db1] & H1 & [= _ <-]). simpl.
  eapply settles_trans; [by eapply apply_each_settles|]. clear H1. generalize db1. clear db1.
  induction batch as [|y batch IH]; intros db1; simpl; [apply settles_refl|].
  eapply settles_trans; [apply expire_settles|apply IH].
Qed.

(** The steps of the observers, each with the clock it leaves. *)
Inductive clocked_step (clock : Z) (pay : PaymentDb) : Z → PaymentDb → Prop :=
| clocked_batch batch observed_at n pay' :
    clock <= observed_at →
    apply_bitcoin_observation_batch crypto pay batch observed_at = Ok (n, pay') →
    clocked_step clock pay observed_at pay'
| clocked_receipt fresh nonce invoice creator_hash payment transfer db_now now b pay' :
    apply_usdt_transfer crypto pay fresh nonce invoice creator_hash payment transfer db_now now = Ok (b, pay') →
    clocked_step clock pay clock pay'
| clocked_clear invoice creator_hash payment hash db_now now pay' :
    clear_usdt_transfer crypto pay invoice creator_hash payment hash db_now now = Ok pay' →
    clocked_step clock pay clock pay'.

Inductive clocked_steps : Z → PaymentDb → Z → PaymentDb → Prop :=
| clocked_none clock pay : clocked_steps clock pay clock pay
| clocked_more clock pay clock1 pay1 clock' pay' :
    clocked_step clock pay clock1 pay1 → clocked_steps clock1 pay1 clock' pay' →
    clocked_steps clock pay clock' pay'.

Lemma clocked_step_settles clock pay clock' pay' :
  clocked_step clock pay clock' pay' → settle_inv clock pay → settle_inv clock' pay' ∧ settled_kept pay pay'.
Proof.
  intros [batch at_ n pay1 Hc H|? ? ? ? ? ? ? ? ? pay1 H|? ? ? ? ? ? pay1 H] Hinv.
  - eapply batch_settles; [done|]. by apply (settle_inv_mono clock).
  - unfold apply_usdt_transfer in H. cbv zeta in H.
    destruct (match select_one _ _ with Some _ => _ | None => None end); [by injection H as _ <-|].
    apply bind_ok in H as (envelope & _ & H). apply bind_ok in H as (? & _ & H). apply bind_ok in H as (? & _ & H).
    apply bind_ok in H as (db & H & [= _ <-]). apply project_payments_settles with (clock := clock) in H.
    revert Hinv. eapply settles_trans; [|exact H]. by apply settles_same.
  - unfold clear_usdt_transfer in H. cbv zeta in H. apply project_payments_settles with (clock := clock) in H.
    revert Hinv. eapply settles_trans; [|exact H]. by apply settles_same.
Qed.

Lemma clocked_steps_settle clock pay clock' pay' :
  clocked_steps clock pay clock' pay' → settle_inv clock pay → settle_inv clock' pay' ∧ settled_kept pay pay'.
Proof.
  induction 1 as [|clock pay clock1 pay1 clock' pay' H _ IH]; intros Hinv; [done|].
  apply clocked_step_settles in H as [Hinv1 Hk]; [|done]. destruct (IH Hinv1) as [? ?].
  split; [done|by transitivity pay1].
Qed.
End steps.
