(* ===== verification/DrainProps.v ===== *)
(** * DrainProps: what draining a lock promises

    The encodings behind the frozen-set hashes, the classification of an invoice, what a
    creation freezes, that a replay always succeeds and only moves forward while the other
    components run, that cleanup is a one-time idempotent capability, and that no proposal
    of a drained generation is deliverable again. *)

From S2P Require Import Prelude Text Locks Invoice Receiving Payment Lifecycle Pricing Intent Database OutboxStore OutboxExec Crypto PaymentRecord Observations Settlement LifecycleStore Sorting Drains DrainProgress.
Local Open Scope string_scope.
Local Open Scope Z_scope.

(** ** Counting *)

Lemma count_items_cons {A} (p : A → bool) x l :
  count_items p (x :: l) = (if p x then 1 else 0) + count_items p l.
Proof.
  unfold count_items. rewrite filter_cons. destruct (p x); case_decide; simpl in *; try done; lia.
Qed.

Lemma count_items_nonneg {A} (p : A → bool) l : 0 <= count_items p l.
Proof. unfold count_items. lia. Qed.

Lemma count_items_ext {A} (p q : A → bool) l :
  (∀ x, x ∈ l → p x = q x) → count_items p l = count_items q l.
Proof.
  induction l as [|x l IH]; intros H; [done|]. rewrite !count_items_cons, IH, (H x) by set_solver. done.
Qed.

Lemma count_items_mono {A} (p q : A → bool) l :
  (∀ x, x ∈ l → p x = true → q x = true) → count_items p l <= count_items q l.
Proof.
  induction l as [|x l IH]; intros H; [done|]. rewrite !count_items_cons.
  assert (count_items p l <= count_items q l) by (apply IH; set_solver).
  specialize (H x ltac:(set_solver)). destruct (p x), (q x); first [lia|by specialize (H eq_refl)].
Qed.

Lemma count_items_disjoint {A} (p q : A → bool) l :
  (∀ x, p x && q x = false) → count_items p l + count_items q l = count_items (λ x, p x || q x) l.
Proof.
  intros H. induction l as [|x l IH]; [done|]. rewrite !count_items_cons, <- IH. specialize (H x).
  destruct (p x), (q x); try done; simpl; lia.
Qed.

Lemma count_items_omap {A B} (p : B → bool) (f : A → option B) l :
  count_items p (omap f l) = count_items (λ x, match f x with Some y => p y | None => false end) l.
Proof.
  induction l as [|x l IH]; [done|]. rewrite count_items_cons, <- IH. simpl. destruct (f x); [|done].
  by rewrite count_items_cons.
Qed.

Lemma count_items_fmap {A B} (p : B → bool) (f : A → B) l :
  count_items p (f <$> l) = count_items (λ x, p (f x)) l.
Proof. induction l as [|x l IH]; [done|]. rewrite fmap_cons, !count_items_cons. by rewrite IH. Qed.

Lemma count_items_perm {A} (p : A → bool) l l' : l ≡ₚ l' → count_items p l = count_items p l'.
Proof. intros H. unfold count_items. by rewrite H. Qed.

(** ** The orders of the frozen sets *)

#[global] Instance cancellation_precompare text `{!PreCompare text} : PreCompare (cancellation_compare text).
Proof.
  set (T := (RowId * string * RowId * string)%type).
  assert (PreCompare (λ a b : T, then_with (a.1.1.1 ?= b.1.1.1)%N
            (then_with (text a.1.1.2 b.1.1.2) (a.1.2 ?= b.1.2)%N))) as [H1 H2].
  { apply (precompare_then (λ a b : T, (a.1.1.1 ?= b.1.1.1)%N)); [apply (precompare_pullback _ N.compare)|].
    apply (precompare_then (λ a b : T, text a.1.1.2 b.1.1.2)); [apply (precompare_pullback _ text)|].
    apply (precompare_pullback (λ a : T, a.1.2) N.compare). }
  split.
  - intros [[[i s] o] e] [[[j t] p] f]. apply (H1 (i, s, o, e) (j, t, p, f)).
  - intros [[[i s] o] e] [[[j t] p] f] [[[k u] q] g]. apply (H2 (i, s, o, e) (j, t, p, f) (k, u, q, g)).
Qed.

#[global] Instance item_precompare : PreCompare item_compare.
Proof.
  set (T := (RowId * RowId * string * Z * DrainClassification)%type).
  assert (PreCompare (λ a b : T, then_with (a.1.1.1.1 ?= b.1.1.1.1)%N
            (str_compare (classification_text a.2) (classification_text b.2)))) as [H1 H2].
  { apply (precompare_then (λ a b : T, (a.1.1.1.1 ?= b.1.1.1.1)%N)); [apply (precompare_pullback _ N.compare)|].
    apply (precompare_pullback (λ a : T, classification_text a.2) str_compare). }
  split.
  - intros [[[[i a] b] c] d] [[[[i' a'] b'] c'] d']. apply (H1 (i, a, b, c, d) (i', a', b', c', d')).
  - intros [[[[i a] b] c] d] [[[[i' a'] b'] c'] d'] [[[[i2 a2] b2] c2] d2].
    apply (H2 (i, a, b, c, d) (i', a', b', c', d') (i2, a2, b2, c2, d2)).
Qed.

(** ** The encodings of the frozen sets *)

Lemma framed_inj s t r u :
  str_len s < 256 ^ 8 → str_len t < 256 ^ 8 → framed s ++ r = framed t ++ u → s = t ∧ r = u.
Proof.
  unfold framed. rewrite !str_app_assoc. intros Hs Ht H.
  apply str_app_inj in H as [Hl H]; [|by rewrite !be_bytes_length]. apply be_bytes_inj in Hl.
  change (Z.of_nat 8) with 8 in Hl. pose proof (str_len_nonneg s). pose proof (str_len_nonneg t).
  rewrite !Z.mod_small in Hl by lia. apply str_app_inj in H; [done|]. unfold str_len in Hl. lia.
Qed.

Lemma uuid_app_inj a b r u :
  is_uuid a = true → is_uuid b = true → uuid_bytes a ++ r = uuid_bytes b ++ u → a = b ∧ r = u.
Proof.
  intros Ha Hb H. apply str_app_inj in H as [H ->]; [|unfold uuid_bytes; by rewrite !be_bytes_length].
  split; [by apply uuid_bytes_inj|done].
Qed.

Lemma i64_app_inj a b r u :
  0 <= a <= i64_max → 0 <= b <= i64_max → be_bytes 8 a ++ r = be_bytes 8 b ++ u → a = b ∧ r = u.
Proof.
  intros Ha Hb H. apply str_app_inj in H as [H ->]; [|by rewrite !be_bytes_length]. apply be_bytes_inj in H.
  change (Z.of_nat 8) with 8 in H. unfold i64_max in *. rewrite !Z.mod_small in H by lia. done.
Qed.

Lemma classification_text_inj c d : classification_text c = classification_text d → c = d.
Proof. destruct c, d; (reflexivity || discriminate). Qed.

(** 128-bit identifiers and lengths and generations at their widths. *)
Definition entry_valid (e : RowId * string * RowId * string) : Prop :=
  let '(i, s, o, env) := e in
  is_uuid i = true ∧ str_len s < 256 ^ 8 ∧ is_uuid o = true ∧ str_len env < 256 ^ 8.

Definition item_valid (e : RowId * RowId * string * Z * DrainClassification) : Prop :=
  let '(i, c, h, g, _) := e in
  is_uuid i = true ∧ is_uuid c = true ∧ str_len h < 256 ^ 8 ∧ 0 <= g <= i64_max.

Lemma uuid_app_not_empty a r : uuid_bytes a ++ r ≠ "".
Proof. unfold uuid_bytes. simpl. discriminate. Qed.

Lemma cancellation_bytes_inj l l' :
  Forall entry_valid l → Forall entry_valid l' → cancellation_bytes l = cancellation_bytes l' → l = l'.
Proof.
  intros Hl. revert l'. induction Hl as [|[[[i s] o] e] l (Hi & Hs & Ho & He) Hl IH]; intros [|[[[j t] p] f] l'] Hl' H;
    simpl in H; [done|by symmetry in H; apply uuid_app_not_empty in H|by apply uuid_app_not_empty in H|].
  apply Forall_cons in Hl' as [(Hj & Ht & Hp & Hf) Hl'].
  apply uuid_app_inj in H as [-> H]; [|done..]. apply framed_inj in H as [-> H]; [|done..].
  apply uuid_app_inj in H as [-> H]; [|done..]. apply framed_inj in H as [-> H]; [|done..].
  f_equal. by apply IH.
Qed.

Lemma item_bytes_inj l l' :
  Forall item_valid l → Forall item_valid l' → item_bytes l = item_bytes l' → l = l'.
Proof.
  intros Hl. revert l'. induction Hl as [|[[[[i c] h] g] k] l (Hi & Hc & Hh & Hg) Hl IH];
    intros [|[[[[j d] m] n] q] l'] Hl' H;
    simpl in H; [done|by symmetry in H; apply uuid_app_not_empty in H|by apply uuid_app_not_empty in H|].
  apply Forall_cons in Hl' as [(Hj & Hd & Hm & Hn) Hl'].
  apply uuid_app_inj in H as [-> H]; [|done..]. apply uuid_app_inj in H as [-> H]; [|done..].
  apply framed_inj in H as [-> H]; [|done..]. apply i64_app_inj in H as [-> H]; [|done..].
  apply framed_inj in H as [->%classification_text_inj H];
    [|destruct k; vm_compute; reflexivity|destruct q; vm_compute; reflexivity].
  f_equal. by apply IH.
Qed.

(** the frozen sets are hashed without ambiguity.  The bytes hashed for a set of
    cancellations (items) determine every invoice, request, outbox row and sealed intent
    (creator, lock, generation and classification) in it, and no set of cancellations
    is hashed from the same bytes as a set of items; so a drain's keyed hash
    authenticates exactly the set it was created with. *)
Theorem frozen_set_encodings_injective cs cs' is_ is' :
  Forall entry_valid cs → Forall entry_valid cs' → Forall item_valid is_ → Forall item_valid is' →
  (CANCELLATION_SET_LABEL ++ cancellation_bytes cs = CANCELLATION_SET_LABEL ++ cancellation_bytes cs' → cs = cs')
  ∧ (ITEM_SET_LABEL ++ item_bytes is_ = ITEM_SET_LABEL ++ item_bytes is' → is_ = is')
  ∧ CANCELLATION_SET_LABEL ++ cancellation_bytes cs ≠ ITEM_SET_LABEL ++ item_bytes is_.
Proof.
  intros Hc Hc' Hi Hi'. split_and!.
  - intros [_ H]%str_app_inj; [|done]. by apply cancellation_bytes_inj.
  - intros [_ H]%str_app_inj; [|done]. by apply item_bytes_inj.
  - unfold CANCELLATION_SET_LABEL, ITEM_SET_LABEL. simpl. intros H.
    repeat (injection H as H; try discriminate H).
Qed.

(** ** Classification *)

Definition has_state (s : PaymentRequestLifecycleState) (l : list Attempt) : Prop :=
  ∃ a, a ∈ l ∧ at_state a = s.

Lemma existsb_state s l : existsb (λ a, state_eqb (at_state a) s) l = true ↔ has_state s l.
Proof.
  rewrite existsb_elem. unfold has_state, state_eqb. by setoid_rewrite bool_decide_eq_true.
Qed.

Lemma elem_of_proposed a l : a ∈ proposed_attempts l ↔ a ∈ l ∧ at_state a = Proposed.
Proof.
  unfold proposed_attempts. rewrite list_elem_of_filter. unfold state_eqb.
  rewrite bool_decide_spec. naive_solver.
Qed.

(** The latest attempt by time of its last event. *)
Definition is_latest (a : Attempt) (l : list Attempt) : Prop :=
  a ∈ l ∧ ∀ b, b ∈ l → opt_compare Z.compare (at_last_event_at b) (at_last_event_at a) ≠ Gt.

Lemma max_from_pre {A} (cmp : A → A → comparison) `{!PreCompare cmp} acc l :
  max_from cmp acc l ∈ acc :: l ∧ ∀ y, y ∈ acc :: l → cmp y (max_from cmp acc l) ≠ Gt.
Proof.
  assert (Hrefl : ∀ x, cmp x x ≠ Gt).
  { intros x Hx. pose proof (pre_antisym cmp x x) as H. by rewrite Hx in H. }
  revert acc. induction l as [|x l IH]; intros acc; simpl.
  - split; [by apply list_elem_of_singleton|]. by intros y ->%list_elem_of_singleton.
  - set (acc' := match cmp acc x with Gt => acc | _ => x end).
    destruct (IH acc') as [Hin Hmax].
    assert (cmp acc acc' ≠ Gt ∧ cmp x acc' ≠ Gt ∧ (acc' = acc ∨ acc' = x)) as (Ha & Hx & Hor).
    { unfold acc'. pose proof (pre_antisym cmp acc x) as Ha.
      destruct (cmp acc x) eqn:E; rewrite ?Ha, ?E; split_and!; auto. }
    split.
    { destruct Hor as [->| ->]; rewrite !elem_of_cons in *; naive_solver. }
    intros y [->|[->|Hy]%elem_of_cons]%elem_of_cons.
    + eapply (pre_trans cmp); [exact Ha|]. apply Hmax. by left.
    + eapply (pre_trans cmp); [exact Hx|]. apply Hmax. by left.
    + apply Hmax. by right.
Qed.

(** every invoice is classified, and by its strongest attempt.  For any attempts the
    classification fails only when there is none, when the SDK reported a conflict
    ([Conflict]) or asks for recovery ([Unavailable]); otherwise an invoice with an
    accepted, proved or recurring attempt is accepted, one that only has a proposed
    attempt open has its cancellation enqueued, and one whose attempts are all terminal takes
    the outcome of a latest attempt. *)
Theorem classification_exact l :
  match classify_attempts l with
  | Err e =>
      (e = PE_Conflict ∧ has_state InvalidConflict l)
      ∨ (e = PE_Unavailable ∧ has_state RecoveryRequired l ∧ ¬ has_state InvalidConflict l)
      ∨ (e = PE_CorruptOrMissing ∧ l = [])
  | Ok c =>
      ¬ has_state InvalidConflict l ∧ ¬ has_state RecoveryRequired l
      ∧ (c = Item_Accepted ↔ ∃ a, a ∈ l ∧ is_accepted_state (at_state a) = true)
      ∧ (c = Item_CancellationEnqueued ↔
           has_state Proposed l ∧ ∀ a, a ∈ l → is_accepted_state (at_state a) = false)
      ∧ (is_terminal_item c = true →
           (∀ a, a ∈ l → is_open_state (at_state a) = false)
           ∧ ∃ a, is_latest a l ∧ terminal_classification (at_state a) = Ok c)
  end.
Proof.
  unfold classify_attempts.
  destruct (existsb (λ a, state_eqb (at_state a) InvalidConflict) l) eqn:Hic; simpl.
  { left. split; [done|by apply existsb_state]. }
  assert (Hnic : ¬ has_state InvalidConflict l) by (by rewrite <- existsb_state, Hic).
  destruct (existsb (λ a, state_eqb (at_state a) RecoveryRequired) l) eqn:Hrr; simpl.
  { right; left. split_and!; [done|by apply existsb_state|done]. }
  assert (Hnrr : ¬ has_state RecoveryRequired l) by (by rewrite <- existsb_state, Hrr).
  destruct (existsb (λ a, is_accepted_state (at_state a)) l) eqn:Hacc.
  { apply existsb_elem in Hacc as (a & Ha & Has). split_and!; [done..| | |done].
    - split; [|done]. intros _. by exists a.
    - split; [done|]. intros [_ H]. by rewrite H in Has. }
  pose proof (proj1 (existsb_false_iff _ _) Hacc) as Hna. simpl in Hna.
  destruct (proposed_attempts l) as [|p ps] eqn:Hp.
  2: { assert (Hpp : p ∈ proposed_attempts l) by (rewrite Hp; by left).
    apply elem_of_proposed in Hpp as [Hpl Hps]. split_and!; [done..| | |done].
    - split; [done|]. intros (a & Ha & Has). by rewrite Hna in Has.
    - split; [|done]. intros _. split; [by exists p|done]. }
  assert (Hnp : ∀ a, a ∈ l → at_state a ≠ Proposed).
  { intros a Ha Hs. assert (a ∈ proposed_attempts l) as Hin by (by apply elem_of_proposed).
    rewrite Hp in Hin. by apply not_elem_of_nil in Hin. }
  assert (Hclosed : ∀ a, a ∈ l → is_open_state (at_state a) = false).
  { intros a Ha. specialize (Hna _ Ha). specialize (Hnp _ Ha).
    assert (at_state a ≠ InvalidConflict ∧ at_state a ≠ RecoveryRequired) as [? ?] 
      by (split; intros ?; [apply Hnic|apply Hnrr]; by exists a).
    by destruct (at_state a). }
  destruct l as [|x l]; [right; right; done|]. simpl.
  pose proof (precompare_pullback at_last_event_at (opt_compare Z.compare)) as Hpre.
  destruct (max_from_pre (λ a b, opt_compare Z.compare (at_last_event_at a) (at_last_event_at b)) x l) as [Hin Hmax].
  set (best := max_from _ x l) in *. specialize (Hclosed _ Hin) as Hb.
  destruct (terminal_classification (at_state best)) as [c|e] eqn:Ht; [|by destruct (at_state best)].
  assert (c ≠ Item_Accepted ∧ c ≠ Item_CancellationEnqueued) as [? ?]
    by (destruct (at_state best); simplify_eq/=; done).
  split_and!; [done..| | |].
  - split; [done|]. intros (a & Ha & Has). by rewrite Hna in Has.
  - split; [done|]. intros [(a & Ha & Has) _]. by destruct (Hnp a Ha).
  - intros _. split; [done|]. exists best. done.
Qed.

(** ** Replays *)

Section drain.
Context {core : LocksCore} {lib : PaykitLib} {prim : CryptoPrimitives} {codec : ObservationCodec} (crypto : Crypto).
Context (collate : string → string → comparison).

(** An entry of [payment_drain_items] in the terms of the two counters. *)
Definition item_still (pay : PaymentDb) (id : RowId) (kv : RowId * RowId * DrainClassification) : bool :=
  bool_decide (kv.1.1 = id)
  && match t_invoices pay !! kv.1.2 with Some i => still_accepted pay (kv.1.2, kv.2, i) | None => false end.

Definition item_done (pay : PaymentDb) (id : RowId) (kv : RowId * RowId * DrainClassification) : bool :=
  bool_decide (kv.1.1 = id)
  && match t_invoices pay !! kv.1.2 with Some i => now_terminal pay (kv.1.2, kv.2, i) | None => false end.

(** The items a drain accounts for in its two counters. *)
Definition accounted_items (dd : DrainDb) (id : RowId) : Z :=
  count_items (λ kv : RowId * RowId * DrainClassification,
    bool_decide (kv.1.1 = id) && (is_accepted_item kv.2 || is_terminal_item kv.2)) (map_to_list (dd_items dd)).

Lemma still_count dd id :
  count_items (still_accepted (dd_pay dd)) (drain_items dd id)
  = count_items (item_still (dd_pay dd) id) (map_to_list (dd_items dd)).
Proof.
  unfold drain_items. rewrite count_items_omap. apply count_items_ext. intros [[d i] c] _.
  unfold item_still. simpl. case_bool_decide; [|done]. by destruct (t_invoices (dd_pay dd) !! i).
Qed.

Lemma done_count dd id :
  count_items (now_terminal (dd_pay dd)) (drain_items dd id)
  = count_items (item_done (dd_pay dd) id) (map_to_list (dd_items dd)).
Proof.
  unfold drain_items. rewrite count_items_omap. apply count_items_ext. intros [[d i] c] _.
  unfold item_done. simpl. case_bool_decide; [|done]. by destruct (t_invoices (dd_pay dd) !! i).
Qed.

(** A stored drain whose sets authenticate, whose items are known invoices and whose counters
    account for its items, the accepted counter not behind.  A creation stores such a drain
    when the database collates bytewise ([write_drain_sound]), and it stays one
    ([drain_sound_env], [replay_sound]). *)
Record drain_sound (dd : DrainDb) (id : RowId) (d : DrainRow) : Prop := {
  ds_row : dd_drains dd !! id = Some d;
  ds_sets : validate_frozen_sets crypto collate dd id d = Ok tt;
  ds_links : linked_cancellations dd id = dr_cancellation_enqueued_count d;
  ds_known : ∀ i c, dd_items dd !! (id, i) = Some c →
    is_some (invoices (dd_db dd) !! i) = true ∧ is_some (t_invoices (dd_pay dd) !! i) = true;
  ds_counts : dr_accepted_count d + dr_terminal_count d = accounted_items dd id;
  ds_ahead : count_items (item_still (dd_pay dd) id) (map_to_list (dd_items dd)) <= dr_accepted_count d;
}.

(** The two counters always account for the same items. *)
Lemma accounted_split dd id :
  (∀ i c, dd_items dd !! (id, i) = Some c → is_some (t_invoices (dd_pay dd) !! i) = true) →
  count_items (item_still (dd_pay dd) id) (map_to_list (dd_items dd))
  + count_items (item_done (dd_pay dd) id) (map_to_list (dd_items dd)) = accounted_items dd id.
Proof.
  intros Hk. rewrite count_items_disjoint.
  - apply count_items_ext. intros [[d i] c] Hin%elem_of_map_to_list. unfold item_still, item_done. cbn [fst snd].
    case_bool_decide as Hd; [|done]. subst d. specialize (Hk _ _ Hin).
    destruct (t_invoices (dd_pay dd) !! i) as [row|]; [|done].
    rewrite still_accepted_settled, now_terminal_settled.
    by destruct c, (item_settled _ _ _).
  - intros [[d i] c]. unfold item_still, item_done. cbn [fst snd]. case_bool_decide; [|done].
    destruct (t_invoices (dd_pay dd) !! i) as [row|]; [|done].
    rewrite still_accepted_settled, now_terminal_settled. by destruct c, (item_settled _ _ _).
Qed.

Definition with_counts (d : DrainRow) (accepted terminal : Z) (completed_at : option Z) : DrainRow :=
  mk_DrainRow (dr_creator_id d) (dr_lock_resource_lookup_hash d) (dr_lock_resource_generation d)
    (dr_lock_resource_envelope d) accepted terminal (dr_cancellation_enqueued_count d)
    (dr_cancellation_set_hash d) (dr_item_set_hash d) (status_of accepted) (dr_created_at d) completed_at.

(** Progress of a sound drain always succeeds. *)
Lemma progress_sound dd id d now :
  drain_sound dd id d →
  ∃ terminal completed_at,
    let accepted := count_items (item_still (dd_pay dd) id) (map_to_list (dd_items dd)) in
    progress dd id d now = Some (with_counts d accepted terminal completed_at)
    ∧ accepted + terminal = dr_accepted_count d + dr_terminal_count d /\ 0 <= terminal.
Proof.
  intros [Hrow Hsets Hlinks Hk Hc Ha].
  pose proof (accounted_split dd id (λ i c H, proj2 (Hk i c H))) as Hsplit.
  unfold progress. rewrite still_count, done_count.
  set (a := count_items (item_still _ id) _) in *. set (t := count_items (item_done _ id) _) in *.
  assert (0 <= t) by apply count_items_nonneg.
  exists t. eexists. cbv zeta. split; [|lia].
  assert ((linked_cancellations dd id =? dr_cancellation_enqueued_count d) && (a <=? dr_accepted_count d)
    && (dr_terminal_count d <=? t) && (t - dr_terminal_count d =? dr_accepted_count d - a) = true) as ->.
  { rewrite !andb_true_iff, Z.leb_le, Z.leb_le, !Z.eqb_eq. lia. }
  done.
Qed.

Lemma validate_frozen_counts dd id d :
  validate_frozen_sets crypto collate dd id d = Ok tt →
  0 <= dr_cancellation_enqueued_count d
  ∧ Z.of_nat (length (cancellation_rows collate dd id)) = dr_cancellation_enqueued_count d.
Proof.
  unfold validate_frozen_sets. intros H. apply bind_ok in H as (? & H0%ensure_ok & H).
  apply bind_ok in H as (? & H1%ensure_ok & _). split_bools. done.
Qed.

(** The snapshot of a row written by a replay never fails. *)
Lemma snapshot_with_counts id d accepted terminal completed_at replayed :
  0 <= accepted → 0 <= terminal → 0 <= dr_cancellation_enqueued_count d →
  snapshot id (with_counts d accepted terminal completed_at) replayed
  = Ok (mk_Snapshot id (dr_created_at d) accepted terminal (dr_cancellation_enqueued_count d) (accepted =? 0) replayed).
Proof.
  intros Ha Ht He. unfold snapshot, count. simpl. unfold status_of.
  apply Z.leb_le in Ha as Ha', Ht as Ht', He as He'. rewrite Ha', Ht', He'.
  destruct (accepted =? 0) eqn:E; simpl; [apply Z.eqb_eq in E|apply Z.eqb_neq in E].
  - assert (0 <? accepted = false) as -> by (apply Z.ltb_ge; lia). done.
  - assert (0 <? accepted = true) as -> by (apply Z.ltb_lt; lia). done.
Qed.

(** [creators.creator_lookup_hash] is unique. *)
Definition creators_unique (db : Db) : Prop :=
  ∀ a b h, creators db !! a = Some h → creators db !! b = Some h → a = b.

(** The drain is the active one of its lock's current generation. *)
Definition drain_active (dd : DrainDb) (id : RowId) (d : DrainRow) (creator_hash lock_hash : string) : Prop :=
  creators (dd_db dd) !! dr_creator_id d = Some creator_hash
  ∧ dr_lock_resource_lookup_hash d = lock_hash
  ∧ generations (dd_db dd) !! (dr_creator_id d, lock_hash)
    = Some (mk_GenerationRow (dr_lock_resource_generation d) (Some id)).

Lemma active_drain_iff dd creator_hash lock_hash id d :
  creators_unique (dd_db dd) →
  active_drain dd creator_hash lock_hash = Some (id, d)
  ↔ dd_drains dd !! id = Some d ∧ drain_active dd id d creator_hash lock_hash.
Proof.
  intros Hu.
  assert (Hp : ∀ id d,
    (bool_decide (creators (dd_db dd) !! dr_creator_id d = Some creator_hash)
     && String.eqb (dr_lock_resource_lookup_hash d) lock_hash
     && match generations (dd_db dd) !! (dr_creator_id d, dr_lock_resource_lookup_hash d) with
        | Some g => (g_current_generation g =? dr_lock_resource_generation d)
                    && bool_decide (g_active_drain_id g = Some id)
        | None => false
        end) = true ↔ drain_active dd id d creator_hash lock_hash).
  { clear. intros id d. unfold drain_active. rewrite !andb_true_iff, bool_decide_eq_true, String.eqb_eq. split.
    - intros [[Hc <-] H]. destruct (generations (dd_db dd) !! _) as [[g a]|]; [|done]. split_bools. simpl in *.
      split_and!; [done..|]. by subst.
    - intros (Hc & <- & ->). simpl. rewrite Z.eqb_refl, bool_decide_eq_true_2 by done. done. }
  split.
  - intros [Hd Hpd]%select_one_some. by apply Hp in Hpd.
  - intros [Hd Ha]. apply select_one_unique; [done|by apply Hp|].
    intros id' d' Hd' (Hc' & Hl' & Hg')%Hp. destruct Ha as (Hc & Hl & Hg).
    rewrite (Hu _ _ _ Hc' Hc) in Hg'. congruence.
Qed.

(** Replaying a sound active drain records the accepted items that are not settled. *)
Lemma replay_sound dd lock id d now :
  let creator_hash := lock_creator_hash crypto lock in
  let lock_hash := lock_resource_hash crypto lock in
  creators_unique (dd_db dd) → drain_sound dd id d → drain_active dd id d creator_hash lock_hash →
  sealed_lock crypto creator_hash id d = Ok (resource_to_string lock) →
  ∃ terminal completed_at,
    let accepted := count_items (item_still (dd_pay dd) id) (map_to_list (dd_items dd)) in
    let d' := with_counts d accepted terminal completed_at in
    let dd' := set_drains dd (<[id := d']> (dd_drains dd)) in
    drain_exact_replay crypto collate dd lock now
    = Ok (Some (mk_Snapshot id (dr_created_at d) accepted terminal (dr_cancellation_enqueued_count d)
                  (accepted =? 0) true), dd')
    ∧ accepted + terminal = dr_accepted_count d + dr_terminal_count d
    ∧ drain_sound dd' id d' ∧ drain_active dd' id d' creator_hash lock_hash
    ∧ sealed_lock crypto creator_hash id d' = Ok (resource_to_string lock).
Proof.
  cbv zeta. intros Hu Hs Ha Hseal. destruct (progress_sound dd id d now Hs) as (t & ca & Hp & Hsum & Ht).
  cbv zeta in Hp, Hsum. exists t, ca. destruct Hs as [Hrow Hsets Hlinks Hk Hc Hah].
  split_and!; [|done| |done|done].
  - unfold drain_exact_replay. cbv zeta. rewrite (proj2 (active_drain_iff _ _ _ id d Hu) (conj Hrow Ha)), Hseal. simpl.
    rewrite String.eqb_refl. simpl. rewrite Hsets. simpl. rewrite Hp. simpl.
    rewrite snapshot_with_counts; [done|apply count_items_nonneg|done|].
    by apply validate_frozen_counts in Hsets as [? _].
  - split; simpl; [by rewrite lookup_insert_eq|done|done|done| |done]. by rewrite Hsum, Hc.
Qed.

(** ** The other components between two methods of the store *)

Lemma row_step_keeps s r r' :
  row_step s r r' →
  o_key r' = o_key r ∧ (o_cancellation_drain_required r = true → o_cancellation_drain_required r' = true).
Proof. intros [r0|r0|r0 op|r0 op|r0|r0]; try destruct op; done. Qed.

Lemma outbox_run_keeps s s' id r :
  rtc sys_step s s' → outbox (sys_db s) !! id = Some r →
  ∃ r', outbox (sys_db s') !! id = Some r' ∧ o_key r' = o_key r
    ∧ (o_cancellation_drain_required r = true → o_cancellation_drain_required r' = true).
Proof.
  intros Hs. revert r. induction Hs as [s|s s1 s' H _ IH]; intros r Hr; [by exists r|].
  pose proof (sys_step_row_effect s s1 id H) as He. unfold row_effect in He. rewrite Hr in He.
  destruct He as (r1 & Hr1 & Hor). destruct (IH _ Hr1) as (r' & Hr' & Hk & Hq). exists r'. split; [done|].
  destruct Hor as [->|[Hk1 Hq1]%row_step_keeps]; [done|]. split; [congruence|auto].
Qed.

(** What the other components do to the database while a drain is not being touched: the
    outbox goes through any execution of its methods, the observers through any execution
    with a clock that does not run backwards, lifecycles change freely, invoices are added. *)
Record drain_env (clock : Z) (dd : DrainDb) (clock' : Z) (dd' : DrainDb) : Prop := {
  env_drains : dd_drains dd' = dd_drains dd;
  env_items : dd_items dd' = dd_items dd;
  env_cancellations : dd_cancellations dd' = dd_cancellations dd;
  env_creators : creators (dd_db dd') = creators (dd_db dd);
  env_generations : generations (dd_db dd') = generations (dd_db dd);
  env_invoices : invoices (dd_db dd) ⊆ invoices (dd_db dd');
  env_outbox : ∃ now tokens s', rtc sys_step (mk_Sys (dd_db dd) now tokens) s' ∧ outbox (sys_db s') = outbox (dd_db dd');
  env_payments : clocked_steps crypto clock (dd_pay dd) clock' (dd_pay dd');
}.

(** The observers alone. *)
Lemma observers_env clock dd clock' pay' :
  clocked_steps crypto clock (dd_pay dd) clock' pay' → drain_env clock dd clock' (set_pay dd pay').
Proof.
  intros H. split; try done. exists 0, ∅, (mk_Sys (dd_db dd) 0 ∅). split; [apply rtc_refl|done].
Qed.

Lemma omap_cons_eq {A B} (f : A → option B) x (l : list A) :
  omap f (x :: l) = match f x with Some b => b :: omap f l | None => omap f l end.
Proof. done. Qed.

Lemma omap_length_all {A B} (p : A → bool) (f : A → option B) l :
  (∀ x, is_some (f x) = true → p x = true) →
  Z.of_nat (length (omap f l)) = count_items p l → ∀ x, x ∈ l → p x = true → is_some (f x) = true.
Proof.
  intros Hf. induction l as [|y l IH]; intros Hl x Hx Hp; [by apply not_elem_of_nil in Hx|].
  assert (Hle : Z.of_nat (length (omap f l)) <= count_items p l).
  { clear -Hf. induction l as [|z l IH]; [done|]. rewrite count_items_cons. specialize (Hf z). cbn [omap list_omap].
    destruct (f z); cbn [length]; [rewrite Hf by done; lia|]. destruct (p z); lia. }
  rewrite count_items_cons in Hl. pose proof (Hf y) as Hy.
  rewrite omap_cons_eq in Hl.
  apply elem_of_cons in Hx as [->|Hx].
  - rewrite Hp in Hl. destruct (f y); [done|]. simpl. lia.
  - apply IH; [|done..]. destruct (f y); cbn [length] in Hl; [rewrite Hy in Hl by done; lia|]. destruct (p y); lia.
Qed.

Lemma omap_ext_in {A B} (f g : A → option B) (l : list A) : (∀ x, x ∈ l → f x = g x) → omap f l = omap g l.
Proof.
  induction l as [|x l IH]; intros H; [done|]. rewrite !omap_cons_eq, (H x) by (by left).
  rewrite IH; [done|]. intros y Hy. apply H. by right.
Qed.

(** The cancellations of a sound drain are the same after any execution of the outbox. *)
Lemma cancellation_rows_env clock dd clock' dd' id d :
  drain_sound dd id d → drain_env clock dd clock' dd' →
  cancellation_rows collate dd' id = cancellation_rows collate dd id.
Proof.
  intros Hs He. destruct (env_outbox _ _ _ _ He) as (now & tokens & s' & Hrun & Ho).
  destruct Hs as [_ [_ Hlen]%validate_frozen_counts Hlinks _ _ _].
  unfold cancellation_rows in *. rewrite (env_cancellations _ _ _ _ He). f_equal.
  rewrite sort_by_Permutation in Hlen. rewrite <- Hlinks in Hlen.
  unfold linked_cancellations in Hlen.
  match type of Hlen with Z.of_nat (length (omap ?f _)) = count_items ?p _ =>
    assert (Hsome : ∀ x, is_some (f x) = true → p x = true) end.
  { intros [[e request] link]. simpl. by case_bool_decide. }
  pose proof (omap_length_all _ _ _ Hsome Hlen) as Hall. clear Hsome.
  apply omap_ext_in. intros [[e request] link] Hin. specialize (Hall _ Hin). simpl in Hall.
  destruct (bool_decide (e = id)); [|done]. specialize (Hall eq_refl).
  destruct (outbox (dd_db dd) !! cl_cancellation_outbox_id link) as [r|] eqn:Hr; [|done].
  destruct (outbox_run_keeps (mk_Sys (dd_db dd) now tokens) s' _ r Hrun Hr) as (r' & Hr' & Hk & Hq).
  rewrite Ho in Hr'. rewrite Hr'. destruct (o_cancellation_drain_required r); [|done].
  by rewrite Hq, Hk.
Qed.

Lemma item_rows_env clock dd clock' dd' id d :
  drain_sound dd id d → drain_env clock dd clock' dd' → item_rows dd' id = item_rows dd id.
Proof.
  intros Hs He. unfold item_rows. rewrite (env_items _ _ _ _ He). f_equal.
  apply omap_ext_in. intros [[e i] c] Hin%elem_of_map_to_list. case_bool_decide as Hd; [|done]. subst e.
  destruct (ds_known _ _ _ Hs i c Hin) as [Hi _]. destruct (invoices (dd_db dd) !! i) as [row|] eqn:E; [|done].
  by rewrite (lookup_weaken _ _ _ _ E (env_invoices _ _ _ _ He)).
Qed.

(** A sound drain stays sound while the other components run. *)
Lemma drain_sound_env clock dd clock' dd' id d :
  settle_inv clock (dd_pay dd) →
  (∀ i, dd_items dd !! (id, i) = Some Item_Accepted → t_provider_v2 (dd_pay dd) !! i = None) →
  drain_sound dd id d → drain_env clock dd clock' dd' → drain_sound dd' id d.
Proof.
  intros Hinv Hv Hs He. pose proof (cancellation_rows_env _ _ _ _ _ _ Hs He) as Hcr.
  pose proof (item_rows_env _ _ _ _ _ _ Hs He) as Hir.
  destruct (clocked_steps_settle _ _ _ _ _ (env_payments _ _ _ _ He) Hinv) as [_ [_ Hkept]].
  destruct Hs as [Hrow Hsets Hlinks Hk Hc Ha].
  split.
  - by rewrite (env_drains _ _ _ _ He).
  - unfold validate_frozen_sets in *. by rewrite Hcr, Hir.
  - unfold linked_cancellations in *. by rewrite (env_cancellations _ _ _ _ He).
  - rewrite (env_items _ _ _ _ He). intros i c Hin. destruct (Hk i c Hin) as [H1 H2].
    destruct (invoices (dd_db dd) !! i) as [row|] eqn:E; [|done].
    rewrite (lookup_weaken _ _ _ _ E (env_invoices _ _ _ _ He)).
    destruct (t_invoices (dd_pay dd) !! i) as [row'|] eqn:E'; [|done].
    by destruct (Hkept _ _ E') as (? & -> & _).
  - unfold accounted_items in *. by rewrite (env_items _ _ _ _ He).
  - rewrite (env_items _ _ _ _ He). etransitivity; [|exact Ha]. apply count_items_mono.
    intros [[e i] c] Hin%elem_of_map_to_list. unfold item_still. cbn [fst snd].
    case_bool_decide as Hd; [|done]. subst e. destruct (Hk i c Hin) as [_ H2].
    destruct (t_invoices (dd_pay dd) !! i) as [row|] eqn:E; [|done].
    destruct (Hkept _ _ E) as (row' & -> & Hset). cbn [andb]. rewrite !still_accepted_settled.
    intros [Hacc Hns]%andb_true_iff. rewrite Hacc. simpl.
    apply bool_decide_eq_true in Hacc as ->. specialize (Hset (Hv _ Hin)).
    destruct (item_settled (dd_pay dd) i row); [|done]. by rewrite Hset in Hns.
Qed.

(** ** Creation: the statements *)

Lemma freeze_invoices_ids from_bytes to_bytes created dd creator_hash creator_id supply n ids frozen :
  freeze_invoices crypto from_bytes to_bytes collate created dd creator_hash creator_id supply n ids = Ok frozen →
  frozen.1.*1 = ids.
Proof.
  revert n frozen. induction ids as [|i ids IH]; intros n frozen H; simpl in H; [by injection H as <-|].
  apply bind_ok in H as (parsed & _ & H). apply bind_ok in H as (c & _ & H).
  apply bind_ok in H as (prepared & _ & H). apply bind_ok in H as (rest & Hr & [= <-]).
  cbn [fst]. rewrite fmap_cons. cbn [fst]. f_equal. by eapply IH.
Qed.

(** A prepared cancellation is new or carries the envelope of a stored row. *)
Definition prepared_from (db : Db) (c : PreparedCancellation) : Prop :=
  pc_insert c = false →
  ∃ r, outbox db !! pc_outbox_id c = Some r ∧ o_intent_envelope (o_key r) = pc_envelope c.

Lemma prepare_cancellation_from from_bytes to_bytes dd creator_hash creator_id invoice_id proposal fresh a c :
  prepare_cancellation crypto from_bytes to_bytes dd creator_hash creator_id invoice_id proposal fresh a = Ok c →
  prepared_from (dd_db dd) c ∧ pc_invoice_id c = invoice_id ∧ at_payment_request_id a = Some (pc_payment_request_id c).
Proof.
  unfold prepare_cancellation. intros H. apply bind_ok in H as (request & Hreq%ok_or_ok & H).
  apply bind_ok in H as (cancellation & _ & H).
  destruct (queued_cancellation _ _ _ _) as [[outbox_id r]|] eqn:Hq.
  - apply bind_ok in H as (? & _ & H). apply bind_ok in H as (existing & _ & H).
    apply bind_ok in H as (? & _ & [= <-]). split; [|done]. intros _. exists r. split; [|done].
    by apply select_one_some in Hq as [? _].
  - apply bind_ok in H as (plaintext & _ & H). apply bind_ok in H as (envelope & _ & [= <-]). by split.
Qed.

Lemma prepare_cancellations_from from_bytes to_bytes dd creator_hash creator_id invoice_id proposal supply n l cs :
  prepare_cancellations crypto from_bytes to_bytes dd creator_hash creator_id invoice_id proposal supply n l = Ok cs →
  Forall (λ c, prepared_from (dd_db dd) c ∧ pc_invoice_id c = invoice_id) cs
  ∧ Forall2 (λ a c, at_payment_request_id a = Some (pc_payment_request_id c)) l cs.
Proof.
  revert n cs. induction l as [|a l IH]; intros n cs H; simpl in H; [injection H as <-; by split|].
  apply bind_ok in H as (c & (Hc & Hi & Ha)%prepare_cancellation_from & H).
  apply bind_ok in H as (rest & [Hr Hr']%IH & [= <-]). split; by constructor.
Qed.

(** What the freeze prepares: a classification for each invoice, and a cancellation for
    each of its proposed attempts. *)
Lemma freeze_invoices_prepared from_bytes to_bytes created dd creator_hash creator_id supply n ids frozen :
  freeze_invoices crypto from_bytes to_bytes collate created dd creator_hash creator_id supply n ids = Ok frozen →
  Forall (prepared_from (dd_db dd)) frozen.2
  ∧ (∀ i c, (i, c) ∈ frozen.1 → ∃ parsed, invoice_attempts collate dd i = Ok parsed ∧ classify_attempts parsed = Ok c)
  ∧ (∀ i parsed a, i ∈ ids → invoice_attempts collate dd i = Ok parsed → a ∈ parsed → at_state a = Proposed →
       ∃ c, c ∈ frozen.2 ∧ pc_invoice_id c = i ∧ at_payment_request_id a = Some (pc_payment_request_id c)).
Proof.
  revert n frozen. induction ids as [|i ids IH]; intros n frozen H; simpl in H.
  { injection H as <-. split_and!; [constructor|intros i c Hin|intros i parsed a Hin];
      by apply not_elem_of_nil in Hin. }
  apply bind_ok in H as (parsed & Hp & H). apply bind_ok in H as (c & Hc & H).
  apply bind_ok in H as (prepared & Hprep & H). apply bind_ok in H as (rest & (H1 & H2 & H3)%IH & [= <-]).
  assert (Forall (λ c, prepared_from (dd_db dd) c ∧ pc_invoice_id c = i) prepared
          ∧ Forall2 (λ a c, at_payment_request_id a = Some (pc_payment_request_id c)) (proposed_attempts parsed) prepared)
    as [Hf Hf2].
  { unfold invoice_cancellations in Hprep. destruct (proposed_attempts parsed); [injection Hprep as <-; by split|].
    apply bind_ok in Hprep as (proposal & _ & Hprep). by apply prepare_cancellations_from in Hprep. }
  simpl. split_and!.
  - apply Forall_app. split; [|done]. eapply Forall_impl; [exact Hf|]. by intros x [? _].
  - intros j d [[= -> ->]|Hin]%elem_of_cons; [by exists parsed|by apply H2].
  - intros j q a [->|Hj]%elem_of_cons Hq Ha Hs.
    + assert (q = parsed) as -> by congruence. assert (Hin : a ∈ proposed_attempts parsed) by (by apply elem_of_proposed).
      apply list_elem_of_lookup in Hin as (k & Hk).
      destruct (Forall2_lookup_l _ _ _ _ _ Hf2 Hk) as (x & Hx & Hax). apply list_elem_of_lookup_2 in Hx.
      exists x. rewrite elem_of_app. rewrite Forall_forall in Hf. destruct (Hf _ Hx) as [_ Hxi]. by split_and!; [left| |].
    + destruct (H3 j q a Hj Hq Ha Hs) as (x & Hx & ?). exists x. rewrite elem_of_app. auto.
Qed.

(** The other tables and every stored key survive the outbox statements. *)
Definition outbox_kept (db db' : Db) : Prop :=
  same_tables db db' ∧ ∀ id r, outbox db !! id = Some r →
    ∃ r', outbox db' !! id = Some r' ∧ o_key r' = o_key r
      ∧ (o_cancellation_drain_required r = true → o_cancellation_drain_required r' = true).

#[global] Instance outbox_kept_preorder : PreOrder outbox_kept.
Proof.
  split.
  - intros db. split; [done|]. intros id r Hr. by exists r.
  - intros a b c [(H1 & H2 & H3 & H4 & H5 & H6) Hab] [(K1 & K2 & K3 & K4 & K5 & K6) Hbc].
    split; [split_and!; congruence|]. intros id r Hr. destruct (Hab _ _ Hr) as (r1 & Hr1 & Hk1 & Hq1).
    destruct (Hbc _ _ Hr1) as (r2 & Hr2 & Hk2 & Hq2). exists r2. split_and!; [done|congruence|auto].
Qed.

(** The outbox row of a prepared cancellation. *)
Definition cancellation_stored (db : Db) (creator_id : RowId) (c : PreparedCancellation) : Prop :=
  ∃ r, outbox db !! pc_outbox_id c = Some r ∧ o_cancellation_drain_required r = true
    ∧ o_creator_id (o_key r) = creator_id ∧ o_invoice_id (o_key r) = Some (pc_invoice_id c)
    ∧ o_intent_kind (o_key r) = PaymentRequestCancellationKind
    ∧ o_cancellation_target (o_key r) = Some (pc_payment_request_id c)
    ∧ o_intent_envelope (o_key r) = pc_envelope c.

Lemma cancellation_stored_kept db db' creator_id c :
  outbox_kept db db' → cancellation_stored db creator_id c → cancellation_stored db' creator_id c.
Proof.
  intros [_ H] (r & Hr & Hq & Hrest). destruct (H _ _ Hr) as (r' & Hr' & Hk & Hq').
  exists r'. rewrite Hk. split_and!; auto; apply Hrest.
Qed.

Lemma write_cancellation_spec db creator_id now clock c db' :
  write_cancellation db creator_id now clock c = Ok db' → prepared_from db c →
  outbox_kept db db' ∧ cancellation_stored db' creator_id c.
Proof.
  unfold write_cancellation. intros H Hfrom. destruct (pc_insert c) eqn:Hins.
  - apply bind_ok in H as (? & _ & H). unfold insert_drain_cancellation, insert_queued in H.
    destruct (outbox db !! pc_outbox_id c) eqn:Hn; [done|]. destruct (outbox_check _); [|done]. simpl in H.
    injection H as <-. split.
    + split; [done|]. intros id r Hr. exists r. split; [|done]. simpl. rewrite lookup_insert_ne; congruence.
    + eexists. simpl. rewrite lookup_insert_eq. split; [done|]. done.
  - unfold mark_drain_required in H. destruct (update_outbox _ _ _ _) as [[m|e] db1] eqn:Hu; [|done]. simpl in H.
    apply bind_ok in H as (? & Hm%ensure_ok & [= <-]). subst m.
    apply update_outbox_true in Hu as (r & Hr & Hg & ->). split_bools. split.
    + split; [done|]. intros id r0 Hr0. simpl. destruct (decide (pc_outbox_id c = id)) as [<-|Hne].
      * rewrite lookup_insert_eq. eexists; split; [done|]. by simplify_eq.
      * rewrite lookup_insert_ne by done. by exists r0.
    + destruct (Hfrom Hins) as (r0 & Hr0 & Henv). simplify_eq.
      eexists. simpl. rewrite lookup_insert_eq. split; [done|]. simpl.
      repeat match goal with H : (_ =? _)%N = true |- _ => apply N.eqb_eq in H end.
      unfold option_is, kind_is in *. split_bools. done.
Qed.

Lemma write_cancellations_spec db creator_id now clock l db' :
  write_cancellations db creator_id now clock l = Ok db' → Forall (prepared_from db) l →
  outbox_kept db db' ∧ Forall (cancellation_stored db' creator_id) l.
Proof.
  revert db. induction l as [|c l IH]; intros db H Hf; simpl in H; [injection H as <-; done|].
  apply Forall_cons in Hf as [Hc Hf]. apply bind_ok in H as (db1 & H1 & H).
  apply write_cancellation_spec in H1 as [Hk1 Hs1]; [|done].
  apply IH in H as [Hk Hs].
  - split; [by transitivity db1|]. constructor; [by eapply cancellation_stored_kept|done].
  - eapply Forall_impl; [exact Hf|]. intros x Hx Hi. destruct (Hx Hi) as (r & Hr & He).
    destruct Hk1 as [_ Hk1]. destruct (Hk1 _ _ Hr) as (r' & Hr' & Hkey & _). exists r'. by rewrite Hkey.
Qed.

Definition item_entry (id : RowId) (x : RowId * DrainClassification) : RowId * RowId * DrainClassification :=
  ((id, x.1), x.2).

Definition link_entry (id : RowId) (c : PreparedCancellation) : RowId * string * CancellationLink :=
  ((id, pc_payment_request_id c), mk_CancellationLink (pc_invoice_id c) (pc_outbox_id c)).

(** An invoice and a drain of the same creator, lock and generation. *)
Definition item_owned (dd : DrainDb) (id invoice_id : RowId) : Prop :=
  ∃ d i, dd_drains dd !! id = Some d ∧ invoices (dd_db dd) !! invoice_id = Some i
    ∧ i_creator_id i = dr_creator_id d ∧ i_lock_resource_lookup_hash i = dr_lock_resource_lookup_hash d
    ∧ i_lock_resource_generation i = dr_lock_resource_generation d.

Lemma insert_items_spec dd id l dd' :
  insert_items dd id l = Ok dd' →
  ∃ t, dd' = set_items dd t ∧ map_to_list t ≡ₚ (item_entry id <$> l) ++ map_to_list (dd_items dd)
    ∧ Forall (λ x : RowId * DrainClassification, item_owned dd id x.1) l
    ∧ (∀ x, x ∈ l → ∀ k c, dd_items dd !! (k, x.1) = Some c → False).
Proof.
  revert dd. induction l as [|[i c] l IH]; intros dd H; simpl in H.
  { injection H as <-. exists (dd_items dd). split_and!; [by destruct dd|done|constructor|].
    intros x Hx. by apply not_elem_of_nil in Hx. }
  apply bind_ok in H as (dd1 & H1 & H). unfold insert_item in H1.
  apply bind_ok in H1 as (? & Hg%ensure_ok & [= <-]). apply andb_true_iff in Hg as [Hn Ho].
  apply negb_true_iff in Hn. rewrite existsb_false_iff in Hn.
  assert (Hnew : ∀ k c', dd_items dd !! (k, i) = Some c' → False).
  { intros k c' Hk. apply elem_of_map_to_list, Hn in Hk. by rewrite bool_decide_eq_false in Hk. }
  apply IH in H as (t & -> & Hp & Ha & Hf). exists t. split_and!; [done| |constructor|].
  - rewrite Hp. simpl. rewrite map_to_list_insert; [by rewrite Permutation_middle|].
    destruct (dd_items dd !! (id, i)) eqn:E; [by apply Hnew in E|done].
  - simpl. unfold item_owned. destruct (dd_drains dd !! id) as [d|] eqn:Ed; [|done].
    destruct (invoices (dd_db dd) !! i) as [row|] eqn:Ei; [|done]. split_bools. by exists d, row.
  - done.
  - intros y [->|Hy]%elem_of_cons k c' Hk; [by apply (Hnew k c')|]. apply (Hf y Hy k c'). simpl.
    apply lookup_insert_Some. destruct (decide ((id, i) = (k, y.1))) as [[= <- Hix]|Hne]; [|auto].
    exfalso. apply (Hnew id c'). by rewrite Hix.
Qed.

Lemma insert_links_spec dd id l dd' :
  insert_links dd id l = Ok dd' →
  ∃ t, dd' = set_cancellations dd t ∧ map_to_list t ≡ₚ (link_entry id <$> l) ++ map_to_list (dd_cancellations dd)
    ∧ NoDup (pc_payment_request_id <$> l) ∧ (∀ c, c ∈ l → dd_cancellations dd !! (id, pc_payment_request_id c) = None).
Proof.
  revert dd. induction l as [|c l IH]; intros dd H; simpl in H.
  { injection H as <-. exists (dd_cancellations dd). split_and!; [by destruct dd|done|constructor|].
    intros x Hx. by apply not_elem_of_nil in Hx. }
  apply bind_ok in H as (dd1 & H1 & H). unfold insert_link in H1. cbv zeta in H1.
  apply bind_ok in H1 as (? & Hg%ensure_ok & [= <-]).
  assert (dd_cancellations dd !! (id, pc_payment_request_id c) = None) as Hn
    by (destruct (dd_cancellations dd !! _); [by rewrite andb_false_r in Hg|done]). clear Hg.
  apply IH in H as (t & -> & Hp & Hnd & Hf). simpl in Hp, Hf. exists t. split_and!; [done| | |].
  - rewrite Hp. rewrite map_to_list_insert by done. simpl. by rewrite Permutation_middle.
  - rewrite fmap_cons. constructor; [|done]. intros (y & Hy & Hin)%list_elem_of_fmap.
    specialize (Hf _ Hin). rewrite <- Hy, lookup_insert_eq in Hf. done.
  - intros y [->|Hy]%elem_of_cons; [done|]. specialize (Hf _ Hy). by apply lookup_insert_None in Hf as [? _].
Qed.

(** What the schema guarantees before a drain exists: unique creator hashes, links and items
    of stored drains only, and the payment columns of every invoice. *)
Record drain_tables (dd : DrainDb) : Prop := {
  dt_creators : creators_unique (dd_db dd);
  dt_items : ∀ d i c, dd_items dd !! (d, i) = Some c → is_some (dd_drains dd !! d) = true;
  dt_links : ∀ d r l, dd_cancellations dd !! (d, r) = Some l → is_some (dd_drains dd !! d) = true;
  dt_invoices : ∀ i row, invoices (dd_db dd) !! i = Some row → is_some (t_invoices (dd_pay dd) !! i) = true;
}.

Lemma omap_none {A B} (f : A → option B) (l : list A) : (∀ x, x ∈ l → f x = None) → omap f l = [].
Proof.
  induction l as [|x l IH]; intros H; [done|]. rewrite omap_cons_eq, (H x) by (by left).
  apply IH. intros y Hy. apply H. by right.
Qed.

Lemma omap_fmap_some {A B C} (f : B → option C) (g : A → B) (h : A → C) (l : list A) :
  (∀ x, x ∈ l → f (g x) = Some (h x)) → omap f (g <$> l) = h <$> l.
Proof.
  induction l as [|x l IH]; intros H; [done|]. rewrite !fmap_cons, omap_cons_eq, (H x) by (by left).
  f_equal. apply IH. intros y Hy. apply H. by right.
Qed.

Lemma count_items_zero {A} (p : A → bool) l : (∀ x, x ∈ l → p x = false) → count_items p l = 0.
Proof.
  induction l as [|x l IH]; intros H; [done|]. rewrite count_items_cons, (H x), IH; [done| |by left].
  intros y Hy. apply H. by right.
Qed.

Lemma count_items_app {A} (p : A → bool) l m : count_items p (l ++ m)%list = count_items p l + count_items p m.
Proof. induction l as [|x l IH]; [done|]. simpl. rewrite !count_items_cons, IH. lia. Qed.

Lemma cancellation_compare_eq a b : cancellation_compare str_compare a b = Eq → a.1 = b.1.
Proof.
  destruct a as [[[i s] o] e], b as [[[j t] p] f]. simpl.
  intros (Hi & (Hs & Ho)%then_with_eq)%then_with_eq.
  apply N.compare_eq_iff in Hi, Ho. apply str_compare_eq in Hs. by subst.
Qed.

(** The cancellations read back for a new drain are the prepared ones, in the same order. *)
Lemma new_cancellation_rows dd id l creator_id old :
  collate = str_compare →
  map_to_list (dd_cancellations dd) ≡ₚ (link_entry id <$> sort_by prepared_compare l) ++ old →
  (∀ kv, kv ∈ old → kv.1.1 ≠ id) →
  NoDup (pc_payment_request_id <$> sort_by prepared_compare l) →
  Forall (cancellation_stored (dd_db dd) creator_id) l →
  cancellation_rows collate dd id = prepared_entry <$> sort_by prepared_compare l.
Proof.
  intros Hcol Hp Hold Hnd Hst. rewrite Forall_forall in Hst.
  assert (Htie : ∀ x y, x ∈ l → y ∈ l →
    cancellation_compare str_compare (prepared_entry x) (prepared_entry y) = Eq → x = y).
  { intros x y Hx Hy Heq%cancellation_compare_eq. injection Heq as _ Hr _.
    rewrite <- (elem_of_sort_by prepared_compare) in Hx, Hy.
    apply list_elem_of_lookup in Hx as (i & Hi), Hy as (j & Hj).
    assert (i = j) as -> by (eapply (NoDup_lookup _ _ _ (pc_payment_request_id x)); [done|..];
      rewrite list_lookup_fmap, ?Hi, ?Hj; simpl; by rewrite ?Hr). congruence. }
  unfold prepared_compare at 1. rewrite (sort_by_fmap (cancellation_compare str_compare) prepared_entry);
    [|intros x y Hx Hy Heq; by rewrite (Htie x y)].
  unfold cancellation_rows. rewrite Hcol.
  match goal with |- sort_by _ (omap ?f ?m) = _ => assert (Hom : omap f m ≡ₚ prepared_entry <$> l) end.
  { rewrite Hp, omap_app. rewrite (omap_none _ old), app_nil_r.
    - rewrite (omap_fmap_some _ _ prepared_entry); [by rewrite sort_by_Permutation|].
      intros c Hc. rewrite elem_of_sort_by in Hc. destruct (Hst _ Hc) as (r & Hr & Hq & _ & _ & _ & _ & He).
      simpl. rewrite bool_decide_eq_true_2 by done. by rewrite Hr, Hq, He.
    - intros [[d r] link] Hin%Hold. simpl in *. by rewrite bool_decide_eq_false_2. }
  apply sort_by_unique; [apply _|done|]. setoid_rewrite Hom.
  intros ? ? (a & -> & Ha)%list_elem_of_fmap (b & -> & Hb)%list_elem_of_fmap Heq. by rewrite (Htie a b).
Qed.

Definition classified_entry (creator_id : RowId) (lock_hash : string) (generation : Z)
    (c : RowId * DrainClassification) : RowId * RowId * string * Z * DrainClassification :=
  (c.1, creator_id, lock_hash, generation, c.2).

Lemma item_entries_sorted creator_id lock_hash generation l :
  StronglySorted N.le l.*1 → NoDup l.*1 →
  StronglySorted (cmp_le item_compare) (classified_entry creator_id lock_hash generation <$> l).
Proof.
  induction l as [|[i c] l IH]; intros Hs Hn; [constructor|]. csimpl in Hs. csimpl in Hn. csimpl.
  apply NoDup_cons in Hn as [Hni Hn]. inversion Hs as [|? ? Hs' Hall]; subst. constructor; [by apply IH|].
  rewrite Forall_forall in Hall. rewrite Forall_fmap, Forall_forall. intros [j d] Hj. unfold cmp_le. simpl.
  assert (i <= j)%N by (apply (Hall j), list_elem_of_fmap; by exists (j, d)).
  assert (i ≠ j) by (intros ->; apply Hni, list_elem_of_fmap; by exists (j, d)).
  destruct (i ?= j)%N eqn:E; [apply N.compare_eq_iff in E|done|apply N.compare_gt_iff in E]; lia.
Qed.

(** The items read back for a new drain are the classified invoices, in the same order. *)
Lemma new_item_rows dd id l d old :
  dd_drains dd !! id = Some d →
  map_to_list (dd_items dd) ≡ₚ (item_entry id <$> l) ++ old → (∀ kv, kv ∈ old → kv.1.1 ≠ id) →
  Forall (λ x : RowId * DrainClassification, item_owned dd id x.1) l →
  StronglySorted N.le l.*1 → NoDup l.*1 →
  item_rows dd id
  = classified_entry (dr_creator_id d) (dr_lock_resource_lookup_hash d) (dr_lock_resource_generation d) <$> l.
Proof.
  intros Hd Hp Hold Hown Hsorted Hnd. rewrite Forall_forall in Hown.
  unfold item_rows. apply (StronglySorted_unique_strong (cmp_le item_compare)).
  - intros x y Hx (c & -> & Hc)%list_elem_of_fmap. rewrite elem_of_sort_by, Hp, omap_app, (omap_none _ old), app_nil_r in Hx.
    2: { intros [[e i] k] Hin%Hold. simpl in *. by rewrite bool_decide_eq_false_2. }
    apply list_elem_of_omap in Hx as ([[e i] k] & Hx & He). apply list_elem_of_fmap in Hx as (b & Hx & Hb).
    injection Hx as -> -> ->. simpl in He. rewrite bool_decide_eq_true_2 in He by done.
    destruct (Hown _ Hb) as (d' & row & Hd' & Hrow & H1 & H2 & H3). simplify_eq. rewrite Hrow in He. injection He as <-.
    unfold cmp_le. simpl. intros Hle Hge.
    assert (b.1 = c.1) as Hbc.
    { destruct (b.1 ?= c.1)%N eqn:E; [by apply N.compare_eq_iff in E| |done].
      rewrite N.compare_antisym, E in Hge. done. }
    assert (b = c) as ->; [|unfold classified_entry; congruence].
    apply list_elem_of_lookup in Hb as (n & Hn), Hc as (m & Hm).
    assert (n = m) as -> by (eapply (NoDup_lookup _ _ _ b.1); [done|..]; rewrite list_lookup_fmap, ?Hn, ?Hm; simpl;
      by rewrite ?Hbc). congruence.
  - apply sort_by_sorted; apply _.
  - by apply item_entries_sorted.
  - rewrite sort_by_Permutation, Hp, omap_app, (omap_none _ old), app_nil_r.
    + rewrite (omap_fmap_some _ _ (classified_entry (dr_creator_id d) (dr_lock_resource_lookup_hash d)
        (dr_lock_resource_generation d))); [done|].
      intros x Hx. simpl. rewrite bool_decide_eq_true_2 by done.
      destruct (Hown _ Hx) as (d' & row & Hd' & Hrow & H1 & H2 & H3). simplify_eq. rewrite Hrow.
      unfold classified_entry. congruence.
    + intros [[e i] k] Hin%Hold. simpl in *. by rewrite bool_decide_eq_false_2.
Qed.

Lemma generation_invoices_sorted db creator_id lock_hash generation :
  StronglySorted N.le (generation_invoices db creator_id lock_hash generation)
  ∧ NoDup (generation_invoices db creator_id lock_hash generation).
Proof.
  unfold generation_invoices. split.
  - apply (StronglySorted_fmap fst (cmp_le id_compare)).
    + intros [i x] [j y]. unfold cmp_le, id_compare. simpl. by rewrite N.compare_le_iff.
    + apply sort_by_sorted, (precompare_pullback fst N.compare).
  - rewrite sort_by_Permutation. apply (sublist_NoDup _ (map_to_list (invoices db)).*1); [apply NoDup_fst_map_to_list|].
    apply fmap_sublist, sublist_filter.
Qed.

(** ** Creation *)

Context (from_bytes : string → option DeliveryIntentV1) (to_bytes : DeliveryIntentV1 → option string).
Context (outbox_created_at : RowId → Z).

(** Everything a successful write phase did, statement by statement. *)
Lemma write_drain_inv dd lock creator_id generation fresh now clock snap dd' :
  let lock_hash := lock_resource_hash crypto lock in
  let id := df_drain_id fresh in
  write_drain crypto from_bytes to_bytes collate outbox_created_at dd lock creator_id generation fresh now clock
    = Ok (snap, dd') →
  ∃ frozen envelope db t_items t_links,
    let cancellations := sort_by prepared_compare frozen.2 in
    let accepted := count_items (λ c : RowId * DrainClassification, is_accepted_item c.2) frozen.1 in
    let terminal := count_items (λ c : RowId * DrainClassification, is_terminal_item c.2) frozen.1 in
    let d := mk_DrainRow creator_id lock_hash generation envelope accepted terminal (Z.of_nat (length cancellations))
               (cancellation_rows_hash crypto (prepared_entry <$> cancellations))
               (item_rows_hash crypto (classified_entry creator_id lock_hash generation <$> frozen.1))
               (status_of accepted) now (if accepted =? 0 then Some now else None) in
    freeze_invoices crypto from_bytes to_bytes collate outbox_created_at dd (lock_creator_hash crypto lock) creator_id
      (df_supply fresh) 0 (generation_invoices (dd_db dd) creator_id lock_hash generation) = Ok frozen
    ∧ encrypt crypto (df_lock_nonce fresh) (ctx_payment_drain (lock_creator_hash crypto lock) id)
        (resource_to_string lock) = Ok envelope
    ∧ dd_drains dd !! id = None
    ∧ generations (dd_db dd) !! (creator_id, lock_hash) = Some (mk_GenerationRow generation None)
    ∧ outbox_kept (set_generations (dd_db dd)
        (<[(creator_id, lock_hash) := mk_GenerationRow generation (Some id)]> (generations (dd_db dd)))) db
    ∧ Forall (cancellation_stored db creator_id) frozen.2
    ∧ map_to_list t_items ≡ₚ (item_entry id <$> frozen.1) ++ map_to_list (dd_items dd)
    ∧ Forall (λ x : RowId * DrainClassification, item_owned (set_dd_db (set_drains dd (<[id := d]> (dd_drains dd))) db) id x.1) frozen.1
    ∧ map_to_list t_links ≡ₚ (link_entry id <$> cancellations) ++ map_to_list (dd_cancellations dd)
    ∧ NoDup (pc_payment_request_id <$> cancellations)
    ∧ dd' = set_cancellations (set_items (set_dd_db (set_drains dd (<[id := d]> (dd_drains dd))) db) t_items) t_links
    ∧ snap = mk_Snapshot id now accepted terminal (Z.of_nat (length cancellations)) (accepted =? 0) false.
Proof.
  cbv zeta. unfold write_drain. cbv zeta. intros H.
  apply bind_ok in H as (frozen & Hf & H). apply bind_ok in H as (envelope & Henv%map_err_ok & H).
  apply bind_ok in H as (? & _ & H). apply bind_ok in H as (dd1 & H1 & H).
  unfold insert_drain in H1. apply bind_ok in H1 as (? & Hnew%ensure_ok & [= <-]).
  apply bind_ok in H as (dd2 & H2 & H). unfold fence_generation in H2. simpl in H2.
  match type of H2 with match ?x with _ => _ end = _ => destruct x as [[g a]|] eqn:Hg; [|done] end.
  change (generations (dd_db dd) !! (creator_id, lock_resource_hash crypto lock) = Some (mk_GenerationRow g a)) in Hg.
  apply bind_ok in H2 as (? & Hfence%ensure_ok & [= <-]). simpl in Hfence. split_bools. subst g.
  destruct a as [a|]; [done|].
  apply bind_ok in H as (db & Hw & H). apply bind_ok in H as (dd3 & Hi & H). apply bind_ok in H as (dd4 & Hl & H).
  apply bind_ok in H as (acc & Ha & H). apply bind_ok in H as (ter & Ht & [= <- <-]).
  unfold count in Ha, Ht. apply bind_ok in Ha as (? & _ & [= <-]), Ht as (? & _ & [= <-]).
  pose proof (freeze_invoices_prepared _ _ _ _ _ _ _ _ _ _ Hf) as (Hprep & _).
  apply write_cancellations_spec in Hw as [Hk Hst]; [|by apply Forall_sort_by].
  apply insert_items_spec in Hi as (t_items & -> & Hpi & Howned & _).
  apply insert_links_spec in Hl as (t_links & -> & Hpl & Hnd & _).
  exists frozen, envelope, db, t_items, t_links. cbv zeta. apply Forall_sort_by in Hst.
  split_and!; try done. by destruct (dd_drains dd !! df_drain_id fresh).
Qed.

Lemma old_items_other dd id :
  drain_tables dd → dd_drains dd !! id = None → ∀ kv, kv ∈ map_to_list (dd_items dd) → kv.1.1 ≠ id.
Proof.
  intros Ht Hn [[d i] c] Hin%elem_of_map_to_list Heq. simpl in Heq. subst d.
  apply (dt_items _ Ht) in Hin. by rewrite Hn in Hin.
Qed.

Lemma old_links_other dd id :
  drain_tables dd → dd_drains dd !! id = None → ∀ kv, kv ∈ map_to_list (dd_cancellations dd) → kv.1.1 ≠ id.
Proof.
  intros Ht Hn [[d i] c] Hin%elem_of_map_to_list Heq. simpl in Heq. subst d.
  apply (dt_links _ Ht) in Hin. by rewrite Hn in Hin.
Qed.

(** Counting the entries of a new drain. *)
Lemma count_new_entries {A B} (p : A → bool) (q : B → bool) (f : B → A) (t new old : list A) (l : list B) :
  t ≡ₚ new ++ old → new = f <$> l → (∀ x, x ∈ old → p x = false) → (∀ x, p (f x) = q x) →
  count_items p t = count_items q l.
Proof.
  intros Hp -> Hold Hf. rewrite (count_items_perm _ _ _ Hp), count_items_app, (count_items_zero _ old), count_items_fmap
    by done. rewrite Z.add_0_r. apply count_items_ext. auto.
Qed.

Lemma elem_of_new_item t id (l : list (RowId * DrainClassification)) (old : list (RowId * RowId * DrainClassification)) i c :
  map_to_list t ≡ₚ (item_entry id <$> l) ++ old → (∀ kv, kv ∈ old → kv.1.1 ≠ id) →
  t !! (id, i) = Some c ↔ (i, c) ∈ l.
Proof.
  intros Hp Hold. rewrite <- elem_of_map_to_list, Hp, elem_of_app, list_elem_of_fmap. split.
  - intros [([j d] & [= -> ->] & Hin)|Hin%Hold]; done.
  - intros Hin. left. by exists (i, c).
Qed.

Lemma count_items_all {A} (p : A → bool) l : (∀ x, p x = true) → count_items p l = Z.of_nat (length l).
Proof. intros H. induction l as [|x l IH]; [done|]. rewrite count_items_cons, H, IH. simpl length. lia. Qed.

(** The counters of a drain whose entries were just inserted. *)
Lemma new_linked_count dd id cs old :
  map_to_list (dd_cancellations dd) ≡ₚ (link_entry id <$> cs) ++ old → (∀ kv, kv ∈ old → kv.1.1 ≠ id) →
  linked_cancellations dd id = Z.of_nat (length cs).
Proof.
  intros Hp Hold. unfold linked_cancellations.
  rewrite (count_new_entries _ (λ _, true) (link_entry id) _ _ _ _ Hp eq_refl).
  - by apply count_items_all.
  - intros kv Hkv. apply bool_decide_eq_false. by apply Hold.
  - intros c. by apply bool_decide_eq_true.
Qed.

Lemma new_accounted dd id l old :
  map_to_list (dd_items dd) ≡ₚ (item_entry id <$> l) ++ old → (∀ kv, kv ∈ old → kv.1.1 ≠ id) →
  count_items (λ c : RowId * DrainClassification, is_accepted_item c.2) l
  + count_items (λ c : RowId * DrainClassification, is_terminal_item c.2) l = accounted_items dd id.
Proof.
  intros Hp Hold. unfold accounted_items.
  rewrite (count_new_entries _ (λ c : RowId * DrainClassification, is_accepted_item c.2 || is_terminal_item c.2)
    (item_entry id) _ _ _ _ Hp eq_refl).
  - apply count_items_disjoint. by intros [i []].
  - intros kv Hkv. by rewrite bool_decide_eq_false_2 by (by apply Hold).
  - intros c. simpl. by rewrite bool_decide_eq_true_2.
Qed.

Lemma new_ahead dd id l old :
  map_to_list (dd_items dd) ≡ₚ (item_entry id <$> l) ++ old → (∀ kv, kv ∈ old → kv.1.1 ≠ id) →
  count_items (item_still (dd_pay dd) id) (map_to_list (dd_items dd))
  <= count_items (λ c : RowId * DrainClassification, is_accepted_item c.2) l.
Proof.
  intros Hp Hold. transitivity (count_items (λ kv : RowId * RowId * DrainClassification,
    bool_decide (kv.1.1 = id) && is_accepted_item kv.2) (map_to_list (dd_items dd))).
  - apply count_items_mono. intros [[e i] c] _. unfold item_still. cbn [fst snd]. case_bool_decide; [|done].
    destruct (t_invoices _ !! i); [|done]. rewrite still_accepted_settled. simpl. by destruct (is_accepted_item c).
  - apply Z.eq_le_incl. apply (count_new_entries _ _ (item_entry id) _ _ _ _ Hp eq_refl).
    + intros kv Hkv. by rewrite bool_decide_eq_false_2 by (by apply Hold).
    + intros c. simpl. by rewrite bool_decide_eq_true_2.
Qed.

(** The row that a creation stores is sound. *)
Lemma write_drain_sound dd lock creator_id generation fresh now clock snap dd' :
  let creator_hash := lock_creator_hash crypto lock in
  let lock_hash := lock_resource_hash crypto lock in
  let id := df_drain_id fresh in
  `{CryptoLaws prim} →
  collate = str_compare → String.length (df_lock_nonce fresh) = NONCE_LENGTH →
  drain_tables dd → creators (dd_db dd) !! creator_id = Some creator_hash →
  write_drain crypto from_bytes to_bytes collate outbox_created_at dd lock creator_id generation fresh now clock
    = Ok (snap, dd') →
  ∃ d, drain_sound dd' id d ∧ drain_active dd' id d creator_hash lock_hash
    ∧ sealed_lock crypto creator_hash id d = Ok (resource_to_string lock)
    ∧ sn_accepted_count snap = dr_accepted_count d ∧ sn_terminal_count snap = dr_terminal_count d
    ∧ creators (dd_db dd') = creators (dd_db dd).
Proof.
  cbv zeta. intros Hlaws Hcol Hnonce Ht Hcreator H.
  apply write_drain_inv in H as (frozen & envelope & db & ti & tl & H). cbv zeta in H.
  destruct H as (Hf & Henv & Hnone & Hg & [(Kc & Ki & Kg & Kp & Kl & Kv) Hk] & Hst & Hpi & Hown & Hpl & Hnd & -> & ->).
  set (id := df_drain_id fresh) in *. set (lock_hash := lock_resource_hash crypto lock) in *.
  pose proof (old_items_other dd id Ht Hnone) as Hoi. pose proof (old_links_other dd id Ht Hnone) as Hol.
  pose proof (freeze_invoices_ids _ _ _ _ _ _ _ _ _ _ Hf) as Hids.
  destruct (generation_invoices_sorted (dd_db dd) creator_id lock_hash generation) as [Hsorted Hnodup].
  rewrite <- Hids in Hsorted, Hnodup.
  set (accepted := count_items _ frozen.1) in *. set (terminal := count_items (λ c, is_terminal_item c.2) frozen.1) in *.
  set (d := mk_DrainRow _ _ _ _ _ _ _ _ _ _ _ _) in *. exists d.
  set (dd' := set_cancellations _ tl).
  assert (Hrow : dd_drains dd' !! id = Some d) by (simpl; by rewrite lookup_insert_eq).
  split_and!; [|split_and!|by (unfold sealed_lock; simpl; rewrite (decrypt_encrypt _ _ _ _ _ Hnonce Henv))|done|done|done].
  - split.
    + done.
    + unfold validate_frozen_sets.
      rewrite (new_cancellation_rows dd' id frozen.2 creator_id (map_to_list (dd_cancellations dd))); [|done..].
      rewrite (new_item_rows dd' id frozen.1 d (map_to_list (dd_items dd))); [|done..].
      rewrite length_fmap. simpl. assert (0 <=? Z.of_nat (length (sort_by prepared_compare frozen.2)) = true) as ->
        by (apply Z.leb_le; lia). simpl. by rewrite Z.eqb_refl, !String.eqb_refl.
    + exact (new_linked_count dd' id _ _ Hpl Hol).
    + intros i c Hin. apply (elem_of_new_item _ id frozen.1 _ i c Hpi Hoi) in Hin.
      rewrite Forall_forall in Hown. destruct (Hown _ Hin) as (d' & row & _ & Hrow' & _).
      change (invoices db !! i = Some row) in Hrow'. change (invoices (dd_db dd')) with (invoices db).
      split; [by rewrite Hrow'|]. apply (dt_invoices _ Ht i row). rewrite Ki in Hrow'. exact Hrow'.
    + exact (new_accounted dd' id _ _ Hpi Hoi).
    + exact (new_ahead dd' id _ _ Hpi Hoi).
  - change (creators (dd_db dd')) with (creators db). by rewrite Kc.
  - done.
  - change (generations (dd_db dd')) with (generations db). rewrite Kg. simpl. by rewrite lookup_insert_eq.
Qed.

Lemma replay_is_replayed dd lock now snap dd' :
  drain_exact_replay crypto collate dd lock now = Ok (Some snap, dd') → sn_replayed snap = true.
Proof.
  unfold drain_exact_replay. cbv zeta. destruct (active_drain _ _ _) as [[id d]|]; [|done]. intros H.
  apply bind_ok in H as (plaintext & _ & H). apply bind_ok in H as (? & _ & H). apply bind_ok in H as (? & _ & H).
  apply bind_ok in H as (progressed & _ & H). apply bind_ok in H as (snap' & Hs & [= <- _]).
  unfold snapshot in Hs. apply bind_ok in Hs as (? & _ & Hs). apply bind_ok in Hs as (? & _ & Hs).
  apply bind_ok in Hs as (? & _ & Hs). apply bind_ok in Hs as (? & _ & Hs). by apply bind_ok in Hs as (? & _ & [= <-]).
Qed.

Lemma ensure_generation_other dd creator_id lock_hash :
  let dd0 := ensure_generation dd creator_id lock_hash in
  creators (dd_db dd0) = creators (dd_db dd) ∧ invoices (dd_db dd0) = invoices (dd_db dd)
  ∧ outbox (dd_db dd0) = outbox (dd_db dd) ∧ lifecycles (dd_db dd0) = lifecycles (dd_db dd)
  ∧ dd_pay dd0 = dd_pay dd ∧ dd_drains dd0 = dd_drains dd ∧ dd_items dd0 = dd_items dd
  ∧ dd_cancellations dd0 = dd_cancellations dd
  ∧ (∀ i, invoice_attempts collate dd0 i = invoice_attempts collate dd i)
  ∧ ∀ g, generations (dd_db dd) !! (creator_id, lock_hash) = Some g → dd0 = dd.
Proof.
  unfold ensure_generation. cbv zeta. destruct (generations (dd_db dd) !! _); split_and!; done.
Qed.

Lemma ensure_generation_tables dd creator_id lock_hash :
  drain_tables dd → drain_tables (ensure_generation dd creator_id lock_hash).
Proof.
  destruct (ensure_generation_other dd creator_id lock_hash) as (Hc & Hi & _ & _ & Hp & Hd & Hit & Hca & _).
  intros [H1 H2 H3 H4]. split.
  - unfold creators_unique. by rewrite Hc.
  - by rewrite Hit, Hd.
  - by rewrite Hca, Hd.
  - by rewrite Hi, Hp.
Qed.

(** A creation that is not a replay went through the write phase. *)
Lemma create_inner_new dd lock evidence fresh now clock snap dd' :
  create_inner crypto from_bytes to_bytes collate outbox_created_at dd lock evidence fresh now clock = Ok (snap, dd') →
  sn_replayed snap = false →
  ∃ creator_id generation,
    let dd0 := ensure_generation dd creator_id (lock_resource_hash crypto lock) in
    creators (dd_db dd) !! creator_id = Some (lock_creator_hash crypto lock)
    ∧ write_drain crypto from_bytes to_bytes collate outbox_created_at dd0 lock creator_id generation fresh now clock
      = Ok (snap, dd').
Proof.
  unfold create_inner. cbv zeta. intros H Hr. apply bind_ok in H as (creator_id & Hc%ok_or_ok & H).
  apply bind_ok in H as (? & _ & H).
  destruct (select_one _ (dd_drains dd)) as [[id d]|].
  - exfalso. apply bind_ok in H as (plaintext & _ & H). apply bind_ok in H as (? & _ & H).
    apply bind_ok in H as ([o dd1] & Hrep & H). apply bind_ok in H as (s' & Ho%ok_or_ok & [= <- _]).
    simpl in Ho. subst o. apply replay_is_replayed in Hrep. congruence.
  - apply bind_ok in H as (g & _ & H). apply bind_ok in H as (? & _ & H). apply bind_ok in H as (? & _ & H).
    exists creator_id, (g_current_generation g). split; [|done].
    unfold creator_of_hash in Hc. destruct (select_one _ (creators _)) as [[c h]|] eqn:Hsel; [|done].
    injection Hc as <-. apply select_one_some in Hsel as [Hcr ->%String.eqb_eq]. done.
Qed.

(** An invoice of a generation of a lock. *)
Definition in_generation (db : Db) (creator_id : RowId) (lock_hash : string) (generation : Z) (i : RowId) : Prop :=
  ∃ row, invoices db !! i = Some row ∧ i_creator_id row = creator_id
    ∧ i_lock_resource_lookup_hash row = lock_hash ∧ i_lock_resource_generation row = generation.

Lemma elem_of_generation_invoices db creator_id lock_hash generation i :
  i ∈ generation_invoices db creator_id lock_hash generation ↔ in_generation db creator_id lock_hash generation i.
Proof.
  unfold generation_invoices, in_generation. rewrite list_elem_of_fmap. split.
  - intros ([j row] & -> & Hin). rewrite elem_of_sort_by, list_elem_of_filter in Hin.
    destruct Hin as [Hp%Is_true_true Hin%elem_of_map_to_list]. simpl in *. split_bools. by exists row.
  - intros (row & Hrow & <- & <- & <-). exists (i, row). split; [done|].
    rewrite elem_of_sort_by, list_elem_of_filter. split; [|by apply elem_of_map_to_list].
    simpl. by rewrite bool_decide_eq_true_2, String.eqb_refl, Z.eqb_refl.
Qed.

(** A proposal of the generation behind an active drain, or behind a later generation, is
    not deliverable. *)
Lemma fenced_not_deliverable db creator_id lock_hash generation g i r :
  generations db !! (creator_id, lock_hash) = Some g →
  g_current_generation g ≠ generation ∨ is_some (g_active_drain_id g) = true →
  in_generation db creator_id lock_hash generation i →
  o_intent_kind (o_key r) = PaymentRequestProposalKind → o_invoice_id (o_key r) = Some i →
  o_marketplace_preparation_id (o_key r) = None → delivery_permitted db r = false.
Proof.
  intros Hg Hf (row & Hrow & <- & <- & <-) Hk Hi Hm. unfold delivery_permitted, preparation_active.
  rewrite Hk, Hi, Hm. unfold kind_is, invoice_generation_open. simpl. rewrite Hrow, Hg.
  simpl. rewrite orb_false_r. apply andb_false_iff. right. apply andb_false_iff. destruct Hf as [Hf|Hf].
  - left. by apply Z.eqb_neq.
  - right. unfold is_none. by rewrite Hf.
Qed.

(** C22: a drain freezes the whole generation of its lock.  When a creation succeeds that is
    not a replay, the lock's generation is fenced by the new drain; its items are exactly
    the invoices of that generation, each with the classification of its attempts;
    every attempt that is still only proposed has a queued or adopted cancellation in
    the outbox that delivery may not drop; the reported counts are those of the classes,
    and no proposal of the generation is deliverable any more. *)
Theorem drain_creation_freezes dd lock evidence fresh now clock snap dd' :
  let lock_hash := lock_resource_hash crypto lock in
  let id := df_drain_id fresh in
  drain_tables dd →
  create_inner crypto from_bytes to_bytes collate outbox_created_at dd lock evidence fresh now clock = Ok (snap, dd') →
  sn_replayed snap = false →
  ∃ creator_id generation,
    creators (dd_db dd) !! creator_id = Some (lock_creator_hash crypto lock)
    ∧ generations (dd_db dd') !! (creator_id, lock_hash) = Some (mk_GenerationRow generation (Some id))
    ∧ (∀ i c, dd_items dd' !! (id, i) = Some c →
         in_generation (dd_db dd) creator_id lock_hash generation i
         ∧ ∃ parsed, invoice_attempts collate dd i = Ok parsed ∧ classify_attempts parsed = Ok c)
    ∧ (∀ i, in_generation (dd_db dd) creator_id lock_hash generation i → is_some (dd_items dd' !! (id, i)) = true)
    ∧ (∀ i parsed a, in_generation (dd_db dd) creator_id lock_hash generation i →
         invoice_attempts collate dd i = Ok parsed → a ∈ parsed → at_state a = Proposed →
         ∃ request outbox_id r,
           at_payment_request_id a = Some request
           ∧ dd_cancellations dd' !! (id, request) = Some (mk_CancellationLink i outbox_id)
           ∧ outbox (dd_db dd') !! outbox_id = Some r ∧ o_cancellation_drain_required r = true
           ∧ o_invoice_id (o_key r) = Some i ∧ o_cancellation_target (o_key r) = Some request
           ∧ o_intent_kind (o_key r) = PaymentRequestCancellationKind)
    ∧ sn_accepted_count snap + sn_terminal_count snap = accounted_items dd' id
    ∧ (sn_completed snap = true ↔ sn_accepted_count snap = 0)
    ∧ (∀ i r, in_generation (dd_db dd) creator_id lock_hash generation i →
         o_intent_kind (o_key r) = PaymentRequestProposalKind → o_invoice_id (o_key r) = Some i →
         o_marketplace_preparation_id (o_key r) = None → delivery_permitted (dd_db dd') r = false).
Proof.
  cbv zeta. intros Ht H Hr. apply create_inner_new in H as (creator_id & generation & Hc & H); [|done].
  cbv zeta in H. exists creator_id, generation.
  set (lock_hash := lock_resource_hash crypto lock) in *.
  set (dd0 := ensure_generation dd creator_id lock_hash) in *.
  pose proof (ensure_generation_tables dd creator_id lock_hash Ht) as Ht0. fold dd0 in Ht0.
  pose proof (ensure_generation_other dd creator_id lock_hash) as (_ & Hinv & _ & _ & _ & _ & _ & _ & Hatt & _).
  fold dd0 in Hinv, Hatt. clearbody dd0.
  apply write_drain_inv in H as (frozen & envelope & db & ti & tl & H). cbv zeta in H.
  destruct H as (Hf & Henv & Hnone & Hg & [(Kc & Ki & Kg & _) Hk] & Hst & Hpi & _ & Hpl & _ & -> & ->).
  fold lock_hash in Hf, Hg, Kc, Ki, Kg. set (id := df_drain_id fresh) in *.
  pose proof (old_items_other dd0 id Ht0 Hnone) as Hoi.
  pose proof (freeze_invoices_ids _ _ _ _ _ _ _ _ _ _ Hf) as Hids.
  pose proof (freeze_invoices_prepared _ _ _ _ _ _ _ _ _ _ Hf) as (_ & Hcls & Hcanc).
  assert (Hgen : ∀ i, i ∈ frozen.1.*1 ↔ in_generation (dd_db dd) creator_id lock_hash generation i).
  { intros i. rewrite Hids, elem_of_generation_invoices. unfold in_generation. by rewrite Hinv. }
  rewrite Forall_forall in Hst.
  match goal with |- context [dd_db ?x] => change (dd_db x) with db end.
  assert (Hg' : generations db !! (creator_id, lock_hash) = Some (mk_GenerationRow generation (Some id)))
    by (rewrite Kg; simpl; by rewrite lookup_insert_eq).
  split_and!; [done|done| | | | | |].
  - intros i c Hin. apply (elem_of_new_item ti id frozen.1 _ i c Hpi Hoi) in Hin. split.
    + apply Hgen, list_elem_of_fmap. by exists (i, c).
    + setoid_rewrite <- Hatt. by apply Hcls.
  - intros i Hi%Hgen. apply list_elem_of_fmap in Hi as ([j c] & -> & Hin). simpl.
    by rewrite (proj2 (elem_of_new_item ti id frozen.1 _ j c Hpi Hoi) Hin).
  - intros i parsed a Hi Hp Ha Hs. rewrite <- Hatt in Hp.
    destruct (Hcanc i parsed a) as (x & Hx & <- & Hreq); [by rewrite <- Hids, Hgen|done..|].
    destruct (Hst _ Hx) as (r & Hrow & Hq & _ & Hri & Hrk & Hrt & _).
    exists (pc_payment_request_id x), (pc_outbox_id x), r. split_and!; try done.
    simpl. apply elem_of_map_to_list. rewrite Hpl, elem_of_app, list_elem_of_fmap. left.
    exists x. by rewrite elem_of_sort_by.
  - by apply (new_accounted _ id frozen.1 (map_to_list (dd_items dd0))).
  - simpl. by rewrite Z.eqb_eq.
  - intros i r Hi. apply (fenced_not_deliverable db creator_id lock_hash generation _ i r Hg'); [by right|].
    unfold in_generation in *. by rewrite Ki, <- Hinv in *.
Qed.

(** a created drain can always be replayed, and only moves forward.  After any creation,
    whatever the outbox workers, the observers (with a clock that does not run backwards)
    and the other writers do, a replay neither fails nor reports corruption: it returns
    the same drain with the items that meanwhile settled moved from the accepted to the
    terminal count, and reports completion exactly when none is left. The accepted
    items must be of invoices without provider terms, and the database must collate
    request identifiers bytewise. *)
Theorem drain_replay_progresses dd lock evidence fresh now written snap dd1 clock clock1 dd2 now2 `{!CryptoLaws prim} :
  let id := df_drain_id fresh in
  collate = str_compare → String.length (df_lock_nonce fresh) = NONCE_LENGTH → drain_tables dd →
  create_inner crypto from_bytes to_bytes collate outbox_created_at dd lock evidence fresh now written = Ok (snap, dd1) →
  sn_replayed snap = false →
  settle_inv clock (dd_pay dd1) →
  (∀ i, dd_items dd1 !! (id, i) = Some Item_Accepted → t_provider_v2 (dd_pay dd1) !! i = None) →
  drain_env clock dd1 clock1 dd2 →
  ∃ snap' dd', drain_exact_replay crypto collate dd2 lock now2 = Ok (Some snap', dd')
    ∧ sn_drain_id snap' = id
    ∧ sn_accepted_count snap' = count_items (item_still (dd_pay dd2) id) (map_to_list (dd_items dd2))
    ∧ sn_accepted_count snap' <= sn_accepted_count snap
    ∧ sn_accepted_count snap' + sn_terminal_count snap' = sn_accepted_count snap + sn_terminal_count snap
    ∧ (sn_completed snap' = true ↔ sn_accepted_count snap' = 0).
Proof.
  cbv zeta. intros Hcol Hnonce Ht H Hr Hinv Hv Henv.
  apply create_inner_new in H as (creator_id & generation & Hc & H); [|done]. cbv zeta in H.
  apply write_drain_sound in H as (d & Hs & Ha & Hseal & Hacc & Hter & Hcr); [|done|done|done|by apply ensure_generation_tables|].
  2: { destruct (ensure_generation_other dd creator_id (lock_resource_hash crypto lock)) as (-> & _). done. }
  pose proof (drain_sound_env _ _ _ _ _ _ Hinv Hv Hs Henv) as Hs2.
  assert (creators_unique (dd_db dd2)) as Hu.
  { unfold creators_unique. rewrite (env_creators _ _ _ _ Henv), Hcr.
    destruct (ensure_generation_other dd creator_id (lock_resource_hash crypto lock)) as (-> & _). apply (dt_creators _ Ht). }
  assert (drain_active dd2 (df_drain_id fresh) d (lock_creator_hash crypto lock) (lock_resource_hash crypto lock)) as Ha2.
  { unfold drain_active in *. by rewrite (env_creators _ _ _ _ Henv), (env_generations _ _ _ _ Henv). }
  destruct (replay_sound dd2 lock _ d now2 Hu Hs2 Ha2 Hseal) as (terminal & completed_at & Hrep & Hsum & _).
  cbv zeta in Hrep, Hsum. eexists _, _. split; [exact Hrep|]. simpl. split_and!; [done|done| | |by rewrite Z.eqb_eq].
  - rewrite Hacc. apply (ds_ahead _ _ _ Hs2).
  - by rewrite Hacc, Hter.
Qed.

(** ** Cleanup *)

(** The drain is the only one of its lock. *)
Definition sole_drain (dd : DrainDb) (id : RowId) (d : DrainRow) : Prop :=
  ∀ j e, dd_drains dd !! j = Some e →
    dr_creator_id d = dr_creator_id e → dr_lock_resource_lookup_hash d = dr_lock_resource_lookup_hash e → id = j.

Lemma creator_of_hash_unique db creator_id h :
  creators_unique db → creators db !! creator_id = Some h → creator_of_hash db h = Some creator_id.
Proof.
  intros Hu Hc. unfold creator_of_hash. rewrite (select_one_unique _ _ creator_id h); [done|done|apply String.eqb_refl|].
  intros c h' Hc' ->%String.eqb_eq. by apply (Hu c creator_id h).
Qed.

(** The tables after the deletion of a drain. *)
Definition without_drain (dd : DrainDb) (id : RowId) (d : DrainRow) (token : string) : DrainDb :=
  let key := (dr_creator_id d, dr_lock_resource_lookup_hash d) in
  set_cancellations (set_items (set_drains (set_dd_db
    (set_cleanup_tokens dd (<[key := token]> (dd_cleanup_tokens dd)))
    (set_generations (dd_db dd) (<[key := mk_GenerationRow (dr_lock_resource_generation d + 1) None]> (generations (dd_db dd)))))
    (delete id (dd_drains dd))) (filter (λ kv, kv.1.1 ≠ id) (dd_items dd)))
    (filter (λ kv, kv.1.1 ≠ id) (dd_cancellations dd)).

(** Cleaning up a sound drain none of whose items is left. *)
Lemma cleanup_sound dd lock id d :
  let creator_hash := lock_creator_hash crypto lock in
  let lock_hash := lock_resource_hash crypto lock in
  let token := payment_drain_cleanup_token crypto id in
  creators_unique (dd_db dd) → drain_sound dd id d → drain_active dd id d creator_hash lock_hash →
  sealed_lock crypto creator_hash id d = Ok (resource_to_string lock) →
  count_items (item_still (dd_pay dd) id) (map_to_list (dd_items dd)) = 0 →
  dr_accepted_count d = 0 → 0 <= dr_terminal_count d → dr_status d = "completed" →
  cleanup_completed crypto collate dd lock token = Ok (without_drain dd id d token).
Proof.
  cbv zeta. intros Hu [Hrow Hsets Hlinks Hk Hc Ha] (Hcr & Hl & Hg) Hseal Hzero Hacc Hter Hst.
  pose proof (accounted_split dd id (λ i c H, proj2 (Hk i c H))) as Hsplit.
  pose proof (validate_frozen_counts _ _ _ Hsets) as [Henq _].
  unfold cleanup_completed. cbv zeta. rewrite (creator_of_hash_unique _ _ _ Hu Hcr). simpl. rewrite Hg. simpl.
  unfold owned_drain. rewrite Hrow. simpl.
  rewrite bool_decide_eq_true_2, Hl, String.eqb_refl, Z.eqb_refl by done. simpl.
  rewrite String.eqb_refl. simpl. rewrite Hseal. simpl. rewrite String.eqb_refl. simpl. rewrite Hsets. simpl.
  unfold check_canonical. rewrite still_count, done_count, Hzero, Hacc, Hst. simpl.
  assert (count_items (item_done (dd_pay dd) id) (map_to_list (dd_items dd)) = dr_terminal_count d) as -> by lia.
  rewrite Hlinks, !Z.eqb_refl. simpl. unfold snapshot. rewrite Hst. simpl. unfold count. rewrite Hacc. simpl.
  assert (0 <=? dr_terminal_count d = true) as -> by (by apply Z.leb_le).
  assert (0 <=? dr_cancellation_enqueued_count d = true) as -> by (by apply Z.leb_le). simpl.
  unfold delete_drain. simpl. rewrite Hst, Hl. simpl.
  change (dd_db (set_cleanup_tokens ?x ?t)) with (dd_db x). rewrite Hg. simpl.
  rewrite bool_decide_eq_true_2 by done. simpl. unfold without_drain. by rewrite Hl.
Qed.

(** A lock whose drain was deleted answers only the receipt. *)
Lemma cleanup_receipt dd lock id d token t :
  let dd' := without_drain dd id d token in
  creators_unique (dd_db dd) → sole_drain dd id d → dd_drains dd !! id = Some d →
  creators (dd_db dd) !! dr_creator_id d = Some (lock_creator_hash crypto lock) →
  dr_lock_resource_lookup_hash d = lock_resource_hash crypto lock →
  cleanup_completed crypto collate dd' lock t = if String.eqb token t then Ok dd' else Err PE_Conflict.
Proof.
  cbv zeta. intros Hu Hud Hrow Hc Hl. set (dd' := without_drain dd id d token).
  unfold cleanup_completed. cbv zeta.
  rewrite (creator_of_hash_unique (dd_db dd') (dr_creator_id d) (lock_creator_hash crypto lock)); [|done..]. simpl.
  rewrite <- Hl. rewrite lookup_insert_eq. simpl.
  assert (lock_has_drain dd' (dr_creator_id d) (dr_lock_resource_lookup_hash d) = false) as ->.
  { unfold lock_has_drain, exists_row. destruct (select_one _ _) as [[j e]|] eqn:E; [|done].
    apply select_one_some in E as [He Hp]. split_bools. simpl in He. apply lookup_delete_Some in He as [Hne He].
    destruct Hne. by apply (Hud j e). }
  simpl. rewrite lookup_insert_eq. simpl. by destruct (String.eqb token t).
Qed.

(** A sound drain none of whose accepted items is left completes at its next replay. *)
Lemma sound_drain_completes dd lock id d now now' :
  let creator_hash := lock_creator_hash crypto lock in
  let lock_hash := lock_resource_hash crypto lock in
  let token := payment_drain_cleanup_token crypto id in
  let key := (dr_creator_id d, lock_hash) in
  creators_unique (dd_db dd) → sole_drain dd id d → drain_sound dd id d → drain_active dd id d creator_hash lock_hash →
  sealed_lock crypto creator_hash id d = Ok (resource_to_string lock) →
  count_items (item_still (dd_pay dd) id) (map_to_list (dd_items dd)) = 0 →
  ∃ snap dd1 dd2,
    drain_exact_replay crypto collate dd lock now = Ok (Some snap, dd1) ∧ sn_drain_id snap = id ∧ sn_completed snap = true
    ∧ cleanup_completed crypto collate dd1 lock token = Ok dd2
    ∧ generations (dd_db dd2) !! key = Some (mk_GenerationRow (dr_lock_resource_generation d + 1) None)
    ∧ dd_drains dd2 !! id = None ∧ outbox (dd_db dd2) = outbox (dd_db dd) ∧ dd_pay dd2 = dd_pay dd
    ∧ (∀ t, cleanup_completed crypto collate dd2 lock t = if String.eqb token t then Ok dd2 else Err PE_Conflict)
    ∧ drain_exact_replay crypto collate dd2 lock now' = Ok (None, dd2).
Proof.
  cbv zeta. intros Hu Hud Hs Ha Hseal Hzero.
  destruct (replay_sound dd lock id d now Hu Hs Ha Hseal) as (t & ca & Hrep & Hsum & Hs1 & Ha1 & Hseal1).
  cbv zeta in *. rewrite Hzero in *. set (d1 := with_counts d 0 t ca) in *.
  set (dd1 := set_drains dd (<[id := d1]> (dd_drains dd))) in *.
  assert (H : 0 <= t).
  { pose proof (ds_counts _ _ _ Hs1) as Hcnt. simpl in Hcnt.
    pose proof (count_items_nonneg (λ kv : RowId * RowId * DrainClassification,
      bool_decide (kv.1.1 = id) && (is_accepted_item kv.2 || is_terminal_item kv.2)) (map_to_list (dd_items dd1))).
    unfold accounted_items in Hcnt. lia. }
  assert (sole_drain dd1 id d1) as Hud1.
  { intros j y Hy. simpl in Hy. apply lookup_insert_Some in Hy as [[<- <-]|[_ Hy]]; [done|]. by apply Hud. }
  pose proof (cleanup_sound dd1 lock id d1 Hu Hs1 Ha1 Hseal1) as Hclean. cbv zeta in Hclean.
  specialize (Hclean Hzero eq_refl H eq_refl). set (dd2 := without_drain dd1 id d1 _) in *.
  destruct Ha1 as (Hc & Hl & Hg). simpl in Hc, Hl, Hg.
  eexists _, dd1, dd2. split_and!; [exact Hrep|done|done|exact Hclean| | |done|done| |].
  - unfold dd2. simpl. rewrite Hl. by rewrite lookup_insert_eq.
  - unfold dd2. simpl. by rewrite lookup_delete_eq.
  - intros u. apply (cleanup_receipt dd1 lock id d1); [done..|by rewrite <- (ds_row _ _ _ Hs1)|done|done].
  - unfold drain_exact_replay. cbv zeta.
    assert (active_drain dd2 (lock_creator_hash crypto lock) (lock_resource_hash crypto lock) = None) as ->; [|done].
    destruct (active_drain _ _ _) as [[j e]|] eqn:E; [|done].
    apply active_drain_iff in E as [He (Hec & Hel & Heg)]; [|done]. simpl in He. apply lookup_delete_Some in He as [Hne He].
    simpl in Hec. rewrite (Hu _ _ _ Hec Hc) in Heg. unfold dd2 in Heg. simpl in Heg. rewrite Hl, lookup_insert_eq in Heg. done.
Qed.

(** A creation stores the only drain of its lock. *)
Lemma write_drain_sole dd lock creator_id generation fresh now clock snap dd' d :
  write_drain crypto from_bytes to_bytes collate outbox_created_at dd lock creator_id generation fresh now clock
    = Ok (snap, dd') →
  dd_drains dd' !! df_drain_id fresh = Some d → sole_drain dd' (df_drain_id fresh) d.
Proof.
  intros H Hd. assert (lock_has_drain dd creator_id (lock_resource_hash crypto lock) = false) as Hnew.
  { unfold write_drain in H. cbv zeta in H. apply bind_ok in H as (frozen & _ & H). apply bind_ok in H as (envelope & _ & H).
    apply bind_ok in H as (? & _ & H). apply bind_ok in H as (dd1 & H1 & _). unfold insert_drain in H1.
    apply bind_ok in H1 as (? & Hnew%ensure_ok & _). simpl in Hnew. split_bools. done. }
  apply write_drain_inv in H as (frozen & envelope & db & ti & tl & H). cbv zeta in H.
  destruct H as (_ & _ & _ & _ & _ & _ & _ & _ & _ & _ & -> & _). simpl in Hd. rewrite lookup_insert_eq in Hd. injection Hd as <-.
  intros j e He Hc Hl. simpl in *. apply lookup_insert_Some in He as [[<- _]|[_ He]]; [done|]. exfalso.
  unfold lock_has_drain, exists_row in Hnew. destruct (select_one _ _) as [x|] eqn:E; [done|].
  apply (select_one_none _ _ E j e) in He. rewrite <- Hc, <- Hl, bool_decide_eq_true_2, String.eqb_refl in He by done. done.
Qed.

(** The life of a drain: executions of the outbox workers, observers and other writers, with
    replays of the drain in between. *)
Inductive drain_life (lock : PubkyLockResource) : Z → DrainDb → Z → DrainDb → Prop :=
| life_none clock dd : drain_life lock clock dd clock dd
| life_env clock dd clock1 dd1 clock' dd' :
    drain_env clock dd clock1 dd1 → drain_life lock clock1 dd1 clock' dd' → drain_life lock clock dd clock' dd'
| life_replay clock dd now answer dd1 clock' dd' :
    drain_exact_replay crypto collate dd lock now = Ok (answer, dd1) → drain_life lock clock dd1 clock' dd' →
    drain_life lock clock dd clock' dd'.

(** What holds of a created drain all its life. *)
Record drain_alive (lock : PubkyLockResource) (clock : Z) (dd : DrainDb) (id creator_id : RowId) (generation : Z) (d : DrainRow) : Prop := {
  al_settle : settle_inv clock (dd_pay dd);
  al_plain : ∀ i, dd_items dd !! (id, i) = Some Item_Accepted → t_provider_v2 (dd_pay dd) !! i = None;
  al_creators : creators_unique (dd_db dd);
  al_sole : sole_drain dd id d;
  al_sound : drain_sound dd id d;
  al_active : drain_active dd id d (lock_creator_hash crypto lock) (lock_resource_hash crypto lock);
  al_sealed : sealed_lock crypto (lock_creator_hash crypto lock) id d = Ok (resource_to_string lock);
  al_creator : dr_creator_id d = creator_id;
  al_generation : dr_lock_resource_generation d = generation;
}.

Lemma drain_alive_env lock clock dd clock' dd' id creator_id generation d :
  drain_alive lock clock dd id creator_id generation d → drain_env clock dd clock' dd' →
  drain_alive lock clock' dd' id creator_id generation d.
Proof.
  intros [A1 A2 A3 A4 A5 A6 A7 A8 A9] He.
  destruct (clocked_steps_settle _ _ _ _ _ (env_payments _ _ _ _ He) A1) as [Hs [Hv _]]. split.
  - done.
  - intros i. rewrite (env_items _ _ _ _ He), Hv. apply A2.
  - unfold creators_unique. by rewrite (env_creators _ _ _ _ He).
  - unfold sole_drain. by rewrite (env_drains _ _ _ _ He).
  - by apply (drain_sound_env clock dd clock').
  - unfold drain_active. by rewrite (env_creators _ _ _ _ He), (env_generations _ _ _ _ He).
  - done.
  - done.
  - done.
Qed.

Lemma drain_alive_replay lock clock dd now answer dd' id creator_id generation d :
  drain_alive lock clock dd id creator_id generation d → drain_exact_replay crypto collate dd lock now = Ok (answer, dd') →
  ∃ d', drain_alive lock clock dd' id creator_id generation d'.
Proof.
  intros [A1 A2 A3 A4 A5 A6 A7 A8 A9] H.
  destruct (replay_sound dd lock id d now A3 A5 A6 A7) as (t & ca & Hrep & _ & Hs & Ha & Hseal).
  cbv zeta in *. rewrite Hrep in H. injection H as _ <-. eexists. split; try done.
  intros j e He. simpl in He. apply lookup_insert_Some in He as [[<- <-]|[_ He]]; [done|]. by apply A4.
Qed.

Lemma drain_alive_life lock clock dd clock' dd' id creator_id generation :
  drain_life lock clock dd clock' dd' →
  (∃ d, drain_alive lock clock dd id creator_id generation d) → ∃ d, drain_alive lock clock' dd' id creator_id generation d.
Proof.
  induction 1 as [|clock dd clock1 dd1 clock' dd' He _ IH|clock dd now answer dd1 clock' dd' Hr _ IH]; [done|..];
    intros [d Hd]; apply IH.
  - exists d. by eapply drain_alive_env.
  - by eapply drain_alive_replay.
Qed.

Lemma created_drain_alive dd lock evidence fresh now written snap dd1 clock `{!CryptoLaws prim} :
  collate = str_compare → String.length (df_lock_nonce fresh) = NONCE_LENGTH → drain_tables dd →
  create_inner crypto from_bytes to_bytes collate outbox_created_at dd lock evidence fresh now written = Ok (snap, dd1) →
  sn_replayed snap = false → settle_inv clock (dd_pay dd1) →
  (∀ i, dd_items dd1 !! (df_drain_id fresh, i) = Some Item_Accepted → t_provider_v2 (dd_pay dd1) !! i = None) →
  ∃ creator_id generation d, creators (dd_db dd1) !! creator_id = Some (lock_creator_hash crypto lock)
    ∧ generations (dd_db dd1) !! (creator_id, lock_resource_hash crypto lock) = Some (mk_GenerationRow generation (Some (df_drain_id fresh)))
    ∧ drain_alive lock clock dd1 (df_drain_id fresh) creator_id generation d.
Proof.
  intros Hcol Hnonce Ht H Hr Hinv Hv.
  apply create_inner_new in H as (creator_id & generation & Hc & H); [|done]. cbv zeta in H.
  destruct (ensure_generation_other dd creator_id (lock_resource_hash crypto lock)) as (Hcs & _).
  pose proof H as Hw. apply write_drain_sound in H as (d & Hs & Ha & Hseal & _ & _ & Hcr); [|done|done|done|by apply ensure_generation_tables|by rewrite Hcs].
  exists (dr_creator_id d), (dr_lock_resource_generation d), d. split_and!; [apply Ha..|]. split; try done.
  - unfold creators_unique. rewrite Hcr, Hcs. apply (dt_creators _ Ht).
  - eapply write_drain_sole; [exact Hw|]. apply (ds_row _ _ _ Hs).
Qed.

(** C23: a created drain whose accepted items have all been paid in time or have expired
    completes.  After any creation, and whatever the outbox workers, the observers (with a
    clock that does not run backwards), the other writers and earlier replays did since, if
    no accepted item is left then the next replay reports completion of this very drain;
    then its cleanup token, and only that, removes the drain with its items and links, keeps
    everything else, and opens the next generation of the lock; the same token is accepted
    again without effect, any other is refused, and nothing is left to replay.  The accepted
    items must be of invoices without provider terms, and the database must collate request
    identifiers bytewise. *)
Theorem settled_drain_completes dd lock evidence fresh now written snap dd1 clock clock2 dd2 now2 now4 `{!CryptoLaws prim} :
  let id := df_drain_id fresh in
  let token := payment_drain_cleanup_token crypto id in
  collate = str_compare → String.length (df_lock_nonce fresh) = NONCE_LENGTH → drain_tables dd →
  create_inner crypto from_bytes to_bytes collate outbox_created_at dd lock evidence fresh now written = Ok (snap, dd1) →
  sn_replayed snap = false → settle_inv clock (dd_pay dd1) →
  (∀ i, dd_items dd1 !! (id, i) = Some Item_Accepted → t_provider_v2 (dd_pay dd1) !! i = None) →
  drain_life lock clock dd1 clock2 dd2 →
  count_items (item_still (dd_pay dd2) id) (map_to_list (dd_items dd2)) = 0 →
  ∃ creator_id generation snap' dd3 dd4,
    let key := (creator_id, lock_resource_hash crypto lock) in
    creators (dd_db dd1) !! creator_id = Some (lock_creator_hash crypto lock)
    ∧ generations (dd_db dd1) !! key = Some (mk_GenerationRow generation (Some id))
    ∧ drain_exact_replay crypto collate dd2 lock now2 = Ok (Some snap', dd3) ∧ sn_drain_id snap' = id ∧ sn_completed snap' = true
    ∧ cleanup_completed crypto collate dd3 lock token = Ok dd4
    ∧ generations (dd_db dd4) !! key = Some (mk_GenerationRow (generation + 1) None)
    ∧ dd_drains dd4 !! id = None ∧ outbox (dd_db dd4) = outbox (dd_db dd2) ∧ dd_pay dd4 = dd_pay dd2
    ∧ (∀ t, cleanup_completed crypto collate dd4 lock t = if String.eqb token t then Ok dd4 else Err PE_Conflict)
    ∧ drain_exact_replay crypto collate dd4 lock now4 = Ok (None, dd4).
Proof.
  cbv zeta. intros Hcol Hnonce Ht H Hr Hinv Hv Hlife Hzero.
  destruct (created_drain_alive dd lock evidence fresh now written snap dd1 clock Hcol Hnonce Ht H Hr Hinv Hv)
    as (creator_id & generation & d & Hc & Hg & Ha).
  destruct (drain_alive_life _ _ _ _ _ _ _ _ Hlife (ex_intro _ d Ha)) as [d2 [A1 A2 A3 A4 A5 A6 A7 A8 A9]].
  destruct (sound_drain_completes dd2 lock (df_drain_id fresh) d2 now2 now4 A3 A4 A5 A6 A7 Hzero) as (snap' & dd3 & dd4 & H').
  rewrite A8, A9 in H'. exists creator_id, generation, snap', dd3, dd4. done.
Qed.

(** only the holder of the token removes a drain, and only a finished one.  A successful
    cleanup either repeats the recorded receipt and changes nothing, or was given the token
    of the lock's active drain, whose sets authenticate, none of whose accepted items is
    unsettled and whose stored counters agree with its items; it then changes no invoice,
    payment, lifecycle or outbox row, and advances the generation by one. *)
Theorem cleanup_only_when_settled dd lock token dd' :
  let lock_hash := lock_resource_hash crypto lock in
  cleanup_completed crypto collate dd lock token = Ok dd' →
  (dd' = dd ∧ ∃ creator_id, dd_cleanup_tokens dd !! (creator_id, lock_hash) = Some token)
  ∨ ∃ id d,
      dd_drains dd !! id = Some d ∧ token = payment_drain_cleanup_token crypto id
      ∧ generations (dd_db dd) !! (dr_creator_id d, lock_hash)
        = Some (mk_GenerationRow (dr_lock_resource_generation d) (Some id))
      ∧ validate_frozen_sets crypto collate dd id d = Ok tt
      ∧ count_items (item_still (dd_pay dd) id) (map_to_list (dd_items dd)) = 0
      ∧ count_items (item_done (dd_pay dd) id) (map_to_list (dd_items dd)) = dr_terminal_count d
      ∧ dd' = without_drain dd id d token.
Proof.
  cbv zeta. unfold cleanup_completed. cbv zeta. intros H. apply bind_ok in H as (creator_id & _ & H).
  destruct (generations (dd_db dd) !! _) as [[g active]|] eqn:Hg; [|done]. simpl in H.
  destruct active as [id|].
  2: { left. apply bind_ok in H as (? & _ & H). apply bind_ok in H as (receipt & Hr%ok_or_ok & H).
       apply bind_ok in H as (? & ->%ensure_ok%String.eqb_eq & [= <-]). split; [done|]. by exists creator_id. }
  right. apply bind_ok in H as (d & Hd & H). unfold owned_drain in Hd. apply bind_ok in Hd as (d0 & Hrow%ok_or_ok & Hd).
  apply bind_ok in Hd as (? & Hown%ensure_ok & [= ->]). split_bools.
  apply bind_ok in H as (? & Htok%ensure_ok%String.eqb_eq & H). apply bind_ok in H as (plaintext & _ & H).
  apply bind_ok in H as (? & _ & H). apply bind_ok in H as ([] & Hsets & H). apply bind_ok in H as (? & Hcan & H).
  apply bind_ok in H as (snap & _ & H). apply bind_ok in H as (? & _ & H).
  unfold check_canonical in Hcan. rewrite still_count, done_count in Hcan. cbv zeta in Hcan.
  apply bind_ok in Hcan as (? & Hcan%ensure_ok & Hzero%ensure_ok). split_bools.
  unfold delete_drain in H. cbv zeta in H. apply bind_ok in H as (? & _ & H).
  apply bind_ok in H as (g' & Hg'%ok_or_ok & H). apply bind_ok in H as (? & _ & [= <-]).
  subst creator_id g token.
  change (dd_db (set_cleanup_tokens ?x ?t)) with (dd_db x) in *.
  match goal with E : dr_lock_resource_lookup_hash d = _ |- _ => rewrite E in Hg'; rename E into Hl end.
  rewrite Hg in Hg'. injection Hg' as <-. exists id, d.
  split_and!; try done. unfold without_drain. by rewrite Hl.
Qed.
End drain.

(** ** Examples *)

Module Example_drains.
(** A keyed hash of 32 bytes: the polynomial of the bytes modulo [2^256]. *)
Fixpoint polynomial (acc : Z) (s : string) : Z :=
  match s with
  | EmptyString => acc
  | String c s => polynomial ((acc * 257 + byte c + 1) mod 2 ^ 256) s
  end.

#[export] Instance drain_primitives : CryptoPrimitives := {|
  hkdf_expand key label := Some (key ++ label);
  aead_encrypt := @aead_encrypt Example_crypto.example_primitives;
  aead_decrypt := @aead_decrypt Example_crypto.example_primitives;
  hmac_sha256 key x := be_bytes 32 (polynomial 0 (key ++ x));
|}.

Lemma drain_laws : CryptoLaws drain_primitives.
Proof.
  pose proof Example_crypto.example_laws as L.
  split; [exact (@aead_roundtrip _ L)|exact (@aead_tag _ L)].
Qed.

#[export] Existing Instance Example_core.example_core.
#[export] Existing Instance Example_payments.example_codec.
#[export] Existing Instance Example_lib.example_lib.

Definition crypto : Crypto := Example_crypto.example_crypto.

Definition lock : PubkyLockResource := mk_PubkyLockResource ("creator" : RawPubkyLockResource) (mk_CreatorPubky ("creator" : RawCreatorPubky)).

Definition creator_hash : string := lock_creator_hash crypto lock.

Definition lock_hash : string := lock_resource_hash crypto lock.

Definition from_bytes (s : string) : option DeliveryIntentV1 :=
  if String.eqb s "intent" then Some Example_lib.example_intent else None.

Definition to_bytes (i : DeliveryIntentV1) : option string := Some "cancellation".

Definition nonce : string := repeat_char "n" 24.

Definition sealed (context : EnvelopeContext) (plaintext : string) : string :=
  match encrypt crypto nonce context plaintext with Ok s => s | Err _ => "" end.

(** The proposal of invoice 6; invoice 1 was accepted and is unpaid. *)
Definition proposal_row : OutboxRow :=
  mk_OutboxRow (mk_OutboxKey 7 (Some 6%N) None PaymentRequestProposalKind
      (sealed (ctx_outbox_semantic_intent creator_hash 2) "intent") (Some "reference") None)
    false HandedOff None 1 0 0 no_lease (mk_SdkColumns (Some "11") (Some "event") (Some "r6")) 0.

Definition db : Db :=
  mk_Db {[2%N := proposal_row]} {[7%N := creator_hash]}
    {[1%N := mk_InvoiceRow 7 lock_hash 0 100; 6%N := mk_InvoiceRow 7 lock_hash 0 100]} ∅ ∅
    {["r1" := mk_LifecycleRow (Some 1%N) None Accepted; "r6" := mk_LifecycleRow (Some 6%N) None Proposed]} ∅.

Definition cursors : gmap string CursorColumns :=
  {["r1" := mk_CursorColumns None (Some 1) None 5; "r6" := mk_CursorColumns None (Some 2) None 6]}.

Definition columns (id : RowId) (address : string) : InvoiceColumns :=
  mk_InvoiceColumns 7 creator_hash "reader" (sealed (ctx_invoice_payment_record creator_hash id) "record")
    (Some (bitcoin_address_lookup_hash crypto address)) 10 100.

Definition unpaid (id : RowId) (address : string) : PaymentInvoice :=
  mk_PaymentInvoice (columns id address) (mk_ProjectionColumns "undetected" 0 false None None None).

Definition pay : PaymentDb :=
  mk_PaymentDb {[1%N := unpaid 1 "bc1qaddress"; 6%N := unpaid 6 "bc1qother"]} ∅ ∅ ∅ ∅ ∅ ∅ ∅.

Definition start : DrainDb := mk_DrainDb (mk_LifecycleDb db cursors ∅ ∅ ∅) pay ∅ ∅ ∅ [] ∅.

Definition fresh : DrainFresh := mk_DrainFresh 50 nonce (λ n, (N.of_nat n + 60, nonce)%N).

Notation create dd := (create_inner crypto from_bytes to_bytes str_compare (λ _, 0) dd lock None fresh 40 41).

Definition snap : PaymentDrainSnapshot :=
  match create start with Ok (s, _) => s | Err _ => mk_Snapshot 0 0 0 0 0 false true end.

Definition drained : DrainDb := match create start with Ok (_, dd) => dd | Err _ => start end.

Lemma created : create start = Ok (snap, drained).
Proof.
  unfold snap, drained. assert (is_ok (create start) = true) as Hok by (vm_compute; reflexivity).
  by destruct (create start) as [[s dd]|e].
Qed.

Lemma nonce_length : String.length (df_lock_nonce fresh) = NONCE_LENGTH.
Proof. vm_compute. reflexivity. Qed.

Lemma snap_new : sn_replayed snap = false.
Proof. vm_compute. reflexivity. Qed.

Example snapshot_counts :
  (sn_accepted_count snap, sn_terminal_count snap, sn_cancellation_enqueued_count snap, sn_completed snap)
  = (1, 0, 1, false).
Proof. vm_compute. reflexivity. Qed.

#[local] Opaque drained snap lock_creator_hash lock_resource_hash creator_hash lookup_hash.

Lemma start_tables : drain_tables start.
Proof.
  split; simpl.
  - intros a b h. unfold start, dd_db; simpl. rewrite !lookup_singleton_Some. intros [<- _] [<- _]. reflexivity.
  - intros d i c H. done.
  - intros d r l H. done.
  - unfold start, dd_db; simpl. intros i row. rewrite lookup_insert_Some, lookup_singleton_Some.
    intros [[<- _]|[_ [<- _]]]; vm_compute; reflexivity.
Qed.

Lemma pay_inv : settle_inv 40 pay.
Proof.
  split; [|intros i hash row Hin; by apply elem_of_empty in Hin].
  unfold pay; simpl. intros i row. rewrite lookup_insert_Some, lookup_singleton_Some.
  intros [[_ <-]|[_ [_ <-]]]; simpl; (split; [lia|done]).
Qed.

Lemma drained_pay : dd_pay drained = pay.
Proof. vm_compute. reflexivity. Qed.

(** The observer sees the payment of invoice 1. *)
Definition batch : list (RowId * string * BitcoinObservationInput) := [(3%N, nonce, Example_payments.paid 0 0 true)].

Definition paid : PaymentDb :=
  match apply_bitcoin_observation_batch crypto pay batch 50 with Ok (_, p) => p | Err _ => pay end.

Lemma paid_run : clocked_steps crypto 40 pay 50 paid.
Proof.
  unfold paid. assert (is_ok (apply_bitcoin_observation_batch crypto pay batch 50) = true) as Hok
    by (vm_compute; reflexivity).
  destruct (apply_bitcoin_observation_batch crypto pay batch 50) as [[n p]|e] eqn:E; [|discriminate Hok].
  eapply clocked_more; [eapply clocked_batch; [|exact E]; lia|apply clocked_none].
Qed.

Definition after_payment : DrainDb := set_pay drained paid.

Lemma payment_env : drain_env crypto 40 drained 50 after_payment.
Proof. apply observers_env. rewrite drained_pay. exact paid_run. Qed.

Lemma no_provider i : t_provider_v2 (dd_pay drained) !! i = None.
Proof. rewrite drained_pay. done. Qed.

(** The stored drain, and that it is sound. *)
Definition drain : DrainRow :=
  default (mk_DrainRow 0 "" 0 "" 0 0 0 "" "" "" 0 None) (dd_drains drained !! 50%N).

Lemma drained_sound :
  drain_sound crypto str_compare drained 50 drain ∧ drain_active drained 50 drain (lock_creator_hash crypto lock) (lock_resource_hash crypto lock)
  ∧ sealed_lock crypto (lock_creator_hash crypto lock) 50 drain = Ok (resource_to_string lock).
Proof.
  destruct (create_inner_new crypto str_compare from_bytes to_bytes (λ _, 0) start lock None fresh 40 41 snap drained
    created snap_new) as (creator_id & generation & Hc & H). cbv zeta in H.
  destruct (ensure_generation_other str_compare start creator_id (lock_resource_hash crypto lock)) as (Hcr & _).
  rewrite <- Hcr in Hc.
  destruct (write_drain_sound crypto str_compare from_bytes to_bytes (λ _, 0) _ lock creator_id generation fresh 40 41
    snap drained drain_laws eq_refl nonce_length (ensure_generation_tables str_compare _ _ _ start_tables) Hc H)
    as (d & Hs & Ha & Hl & _).
  assert (d = drain) as Hd.
  { unfold drain. pose proof (ds_row _ _ _ _ _ Hs) as Hrow. change (df_drain_id fresh) with 50%N in Hrow. rewrite Hrow. reflexivity. }
  rewrite Hd in Hs, Ha, Hl. exact (conj Hs (conj Ha Hl)).
Qed.

Lemma paid_sound : drain_sound crypto str_compare after_payment 50 drain.
Proof.
  eapply drain_sound_env; [rewrite drained_pay; exact pay_inv|intros i _; apply no_provider|apply drained_sound|exact payment_env].
Qed.
End Example_drains.
Import Example_drains.

Lemma frozen_set_encodings_injective_witness :
  CANCELLATION_SET_LABEL ++ cancellation_bytes [(5%N, "r5", 9%N, "envelope")]
  ≠ ITEM_SET_LABEL ++ item_bytes [(5%N, 7%N, "lock", 0, Item_Accepted)].
Proof.
  apply (frozen_set_encodings_injective [(5%N, "r5", 9%N, "envelope")] [] [(5%N, 7%N, "lock", 0, Item_Accepted)] []);
    repeat constructor; vm_compute; congruence.
Defined.

Lemma drain_creation_freezes_witness :
  create start = Ok (snap, drained) ∧ sn_accepted_count snap + sn_terminal_count snap = accounted_items drained 50.
Proof.
  split; [exact created|].
  destruct (drain_creation_freezes crypto str_compare from_bytes to_bytes (λ _, 0) start lock None fresh 40 41 snap drained
    start_tables created snap_new) as (creator_id & generation & _ & _ & _ & _ & _ & H & _). exact H.
Defined.

Lemma drain_replay_progresses_witness :
  ∃ snap' dd', drain_exact_replay crypto str_compare after_payment lock 55 = Ok (Some snap', dd')
    ∧ sn_accepted_count snap' <= 1.
Proof.
  pose proof drain_laws as L.
  destruct (drain_replay_progresses crypto str_compare from_bytes to_bytes (λ _, 0) start lock None fresh 40 41
    snap drained 40 50 after_payment 55 eq_refl nonce_length start_tables created snap_new) as (snap' & dd' & H & _ & _ & Hle & _).
  - rewrite drained_pay. exact pay_inv.
  - intros i _. apply no_provider.
  - exact payment_env.
  - exists snap', dd'. split; [exact H|]. assert (sn_accepted_count snap = 1) as <- by (vm_compute; reflexivity). exact Hle.
Defined.

Lemma settled_drain_completes_witness :
  ∃ dd3 dd4, cleanup_completed crypto str_compare dd3 lock (payment_drain_cleanup_token crypto 50) = Ok dd4
    ∧ dd_drains dd4 !! 50%N = None.
Proof.
  pose proof drain_laws as L.
  destruct (settled_drain_completes crypto str_compare from_bytes to_bytes (λ _, 0) start lock None fresh 40 41
    snap drained 40 50 after_payment 60 70 eq_refl nonce_length start_tables created snap_new)
    as (creator_id & generation & snap' & dd3 & dd4 & _ & _ & _ & _ & _ & Hclean & _ & Hgone & _).
  - rewrite drained_pay. exact pay_inv.
  - intros i _. apply no_provider.
  - eapply life_env; [exact payment_env|apply life_none].
  - vm_compute. reflexivity.
  - exists dd3, dd4. exact (conj Hclean Hgone).
Defined.

Lemma cleanup_only_when_settled_witness :
  ∃ dd1 dd2 id, cleanup_completed crypto str_compare dd1 lock (payment_drain_cleanup_token crypto 50) = Ok dd2
    ∧ count_items (item_still (dd_pay dd1) id) (map_to_list (dd_items dd1)) = 0.
Proof.
  set (step := r ← drain_exact_replay crypto str_compare after_payment lock 60;
               dd2 ← cleanup_completed crypto str_compare r.2 lock (payment_drain_cleanup_token crypto 50);
               ensure (bool_decide (dd_cleanup_tokens r.2 = ∅)) PE_Conflict;;
               Ok (r.2, dd2)).
  assert (is_ok step = true) as Hok by (vm_compute; reflexivity).
  destruct step as [[dd1 dd2]|e] eqn:E; [|discriminate Hok]. unfold step in E. clear step Hok.
  apply bind_ok in E as (r & _ & E). apply bind_ok in E as (dd2' & Hc & E).
  apply bind_ok in E as (? & Hn%ensure_ok%bool_decide_eq_true & E). injection E as <- <-.
  destruct (cleanup_only_when_settled crypto str_compare r.2 lock _ dd2' Hc)
    as [(_ & creator_id & Hrec)|(id & d & _ & _ & _ & _ & Hz & _)].
  - exfalso. rewrite Hn in Hrec. discriminate Hrec.
  - exists r.2, dd2', id. exact (conj Hc Hz).
Defined.

(** The order of the request identifiers.  The frozen hash is computed in byte order and
    checked in the order of the database: under a collation that disagrees with the byte
    order on two requests of one invoice, a drain fails its own replay. *)
Definition case_insensitive (a b : string) : comparison :=
  then_with (str_compare (to_ascii_lowercase a) (to_ascii_lowercase b)) (str_compare a b).

Definition two_requests : DrainDb :=
  mk_DrainDb (mk_LifecycleDb
    (set_lifecycles db {["B6" := mk_LifecycleRow (Some 6%N) None Proposed; "a6" := mk_LifecycleRow (Some 6%N) None Proposed;
                         "r1" := mk_LifecycleRow (Some 1%N) None Accepted]})
    {["B6" := mk_CursorColumns None (Some 1) None 5; "a6" := mk_CursorColumns None (Some 2) None 6;
      "r1" := mk_CursorColumns None (Some 3) None 5]} ∅ ∅ ∅) pay ∅ ∅ ∅ [] ∅.

Definition replay_of_creation (collate : string → string → comparison) : result PersistenceError bool :=
  r ← create_inner crypto from_bytes to_bytes collate (λ _, 0) two_requests lock None fresh 40 41;
  r' ← drain_exact_replay crypto collate r.2 lock 42;
  Ok (is_some r'.1).

Lemma replay_depends_on_collation :
  replay_of_creation str_compare = Ok true ∧ replay_of_creation case_insensitive = Err PE_CorruptOrMissing.
Proof. split; vm_compute; reflexivity. Qed.
