(* ===== verification/Status.v ===== *)
(** * Status: what is reported about a Payment Request
    ([persistence/invoices.rs], [persistence/invoices/usdt.rs],
    [application/payment_request_status.rs], [application/payment_status.rs])

    The reads behind the two status routes.  The request state comes from the lifecycle
    rows of the invoice, ranked inside the query, or from the outbox and rotation
    tables when the SDK never reported; the payment facts come from the invoice's
    projected columns, its observations and its receipts.  [DrainDb] holds all these tables. *)

From S2P Require Import Prelude Text Locks Invoice Receiving Payment Lifecycle Pricing Intent Database OutboxStore Crypto PaymentRecord Observations Settlement LifecycleStore Sorting Drains.
Local Open Scope string_scope.
Local Open Scope Z_scope.

Inductive PaymentState := Pay_Undetected | Pay_Detected | Pay_Confirmed | Pay_Expired.

#[global] Instance PaymentState_eq_dec : EqDecision PaymentState.
Proof. solve_decision. Defined.

Definition payment_state_as_str (s : PaymentState) : string :=
  match s with
  | Pay_Undetected => "undetected" | Pay_Detected => "detected"
  | Pay_Confirmed => "confirmed" | Pay_Expired => "expired"
  end.

Record BitcoinPaymentStatus := mk_BitcoinPaymentStatus {
  bp_confirmations : Z;
  bp_amount_matched : bool;
  bp_paid_on_time : bool;
}.

Record UsdtPaymentStatus := mk_UsdtPaymentStatus {
  up_confirmations : Z;
  up_amount_matched : bool;
  up_paid_on_time : bool;
  up_finalized : bool;
}.

Record PaymentRequestStatusSummary := mk_StatusSummary {
  st_request_state : PaymentRequestLifecycleState;
  st_payment_state : PaymentState;
  st_invoice_created_at : Z;
  st_payment_deadline : Z;
  st_bitcoin : option BitcoinPaymentStatus;
  st_usdt_arbitrum : option UsdtPaymentStatus;
}.

Record PaymentRequestStatusRow := mk_StatusRow {
  sr_request_state : option string;
  sr_payment_status : string;
  sr_confirmation_count : Z;
  sr_amount_matched : bool;
  sr_invoice_created_at : Z;
  sr_payment_deadline : Z;
  sr_payment_expired_at : option Z;
  sr_bitcoin_timely : bool;
}.

(** [u32::try_from] of a signed column. *)
Definition try_u32 (x : Z) : result PersistenceError Z :=
  ensure ((0 <=? x) && (x <=? u32_max)) PE_CorruptOrMissing;; Ok x.

(** The [match] on [payment_status] of an invoice that has not expired. *)
Definition payment_state_of (status : string) (usdt : option UsdtPaymentStatus) : result PersistenceError PaymentState :=
  let usdt_confirmed := match usdt with Some u => 0 <? up_confirmations u | None => false end in
  if String.eqb status "confirmed" then Ok Pay_Confirmed
  else if (String.eqb status "undetected" || String.eqb status "detected") && usdt_confirmed then Ok Pay_Confirmed
  else if String.eqb status "detected" then Ok Pay_Detected
  else if String.eqb status "undetected" && is_some usdt then Ok Pay_Detected
  else if String.eqb status "undetected" then Ok Pay_Undetected
  else Err PE_CorruptOrMissing.

Definition into_summary (row : PaymentRequestStatusRow) (usdt : option UsdtPaymentStatus) :
    result PersistenceError PaymentRequestStatusSummary :=
  request_state ← ok_or (sr_request_state row ≫= state_parse) PE_CorruptOrMissing;
  payment_state ← (if is_some (sr_payment_expired_at row) then Ok Pay_Expired
                   else payment_state_of (sr_payment_status row) usdt);
  confirmations ← try_u32 (sr_confirmation_count row);
  Ok (mk_StatusSummary request_state payment_state (sr_invoice_created_at row) (sr_payment_deadline row)
        (if negb (String.eqb (sr_payment_status row) "undetected")
         then Some (mk_BitcoinPaymentStatus confirmations (sr_amount_matched row)
                      (sr_amount_matched row && sr_bitcoin_timely row))
         else None) usdt).

(** The rank of a stored state in the query. *)
Definition sql_state_rank (text : string) : Z :=
  if String.eqb text "invalid_conflict" then 9
  else if String.eqb text "recovery_required" then 8
  else if String.eqb text "proof_submitted" then 7
  else if String.eqb text "active_recurring" then 6
  else if String.eqb text "accepted" then 5
  else if String.eqb text "proposed" then 4
  else if String.eqb text "proposal_expired" || String.eqb text "rejected" || String.eqb text "canceled" then 0
  else -1.

(** [PersistedPaymentStatus] *)
Inductive PersistedPaymentStatus :=
| Persisted_Undetected
| Persisted_Detected (confirmations : Z) (amount_matched : bool)
| Persisted_Confirmed (confirmations : Z) (amount_matched : bool).

Definition persisted_payment_status (p : ProjectionColumns) : result PersistenceError PersistedPaymentStatus :=
  confirmations ← try_u32 (iv_confirmation_count p);
  if String.eqb (iv_payment_status p) "undetected" then Ok Persisted_Undetected
  else if String.eqb (iv_payment_status p) "detected" then Ok (Persisted_Detected confirmations (iv_amount_matched p))
  else if String.eqb (iv_payment_status p) "confirmed" then Ok (Persisted_Confirmed confirmations (iv_amount_matched p))
  else Err PE_CorruptOrMissing.

(** [PaymentStatusResponse]: status, confirmations, amount matched. *)
Definition payment_status_response (s : PersistedPaymentStatus) : string * Z * bool :=
  match s with
  | Persisted_Undetected => ("undetected", 0, false)
  | Persisted_Detected confirmations matched => ("detected", confirmations, matched)
  | Persisted_Confirmed confirmations matched => ("confirmed", confirmations, matched)
  end.

Inductive PaymentStatusError := PaymentStatus_NotFound | PaymentStatus_Unavailable.

Section reads.
Context {core : LocksCore} {lib : PaykitLib} {prim : CryptoPrimitives} {codec : ObservationCodec} (crypto : Crypto).
Context (from_bytes : string → option DeliveryIntentV1).
Context (collate : string → string → comparison) (outbox_created_at : RowId → Z).

(** The invoice of a creator and a bundle. *)
Definition bundle_invoice (dd : DrainDb) (creator_hash bundle_hash : string) : option RowId :=
  option_map fst (select_one (λ id i,
    bool_decide (creators (dd_db dd) !! i_creator_id i = Some creator_hash)
    && bool_decide (ld_bundles (dd_life dd) !! id = Some bundle_hash)) (invoices (dd_db dd))).

(** [ORDER BY rank DESC, last_event_at DESC, request_state DESC] *)
Definition lateral_compare (a b : PaymentRequestLifecycleState * Z) : comparison :=
  then_with (sql_state_rank (state_as_str b.1) ?= sql_state_rank (state_as_str a.1))
    (then_with (b.2 ?= a.2) (collate (state_as_str b.1) (state_as_str a.1))).

(** The lifecycle attempts of an invoice. *)
Definition attempts_of_invoice (dd : DrainDb) (invoice : RowId) : list (PaymentRequestLifecycleState * Z) :=
  attempts_where (dd_life dd) (λ row, bool_decide (l_invoice_id row = Some invoice)).

(** [COALESCE(lifecycle.request_state, CASE ..)] *)
Definition reported_state (dd : DrainDb) (invoice : RowId) : option string :=
  coalesce (option_map (λ a : PaymentRequestLifecycleState * Z, state_as_str a.1)
              (head (sort_by lateral_compare (attempts_of_invoice dd invoice))))
           (option_map state_as_str (terminal_fallback dd invoice)).

(** An active, present output that matched in time. *)
Definition bitcoin_timely (pay : PaymentDb) (invoice : RowId) : bool :=
  exists_row (λ _ r, owned_by invoice (ob_invoice_id r) && ob_active r && ob_present r
                     && bool_decide ((invoice, ob_outpoint_lookup_hash r) ∈ t_timely pay)) (t_observations pay).

Definition usdt_payment_status (pay : PaymentDb) (invoice : RowId) : result PersistenceError (option UsdtPaymentStatus) :=
  match t_invoices pay !! invoice with
  | None => Ok None
  | Some i =>
      if negb (exists_row (λ _ r, owned_by invoice (us_invoice_id r) && us_present r) (t_usdt pay)) then Ok None
      else
        let columns := iv_columns i in
        creator_hash ← stored_lookup_hash (iv_creator_lookup_hash columns);
        payment ← decrypt_payment_record crypto creator_hash invoice (iv_payment_record_envelope columns);
        destination ← ok_or (pr_usdt payment) PE_CorruptOrMissing;
        selected ← usdt_payment crypto pay columns invoice creator_hash (pd_required_amount destination);
        match selected with
        | None => Ok None
        | Some (_, p) =>
            confirmations ← try_u32 (op_confirmations p);
            Ok (Some (mk_UsdtPaymentStatus confirmations (op_matched p) (eligible p) (op_finalized p)))
        end
  end.

Definition status_row (dd : DrainDb) (invoice : RowId) (i : PaymentInvoice) : PaymentRequestStatusRow :=
  let p := iv_projection i in
  mk_StatusRow (reported_state dd invoice) (iv_payment_status p) (iv_confirmation_count p) (iv_amount_matched p)
    (iv_created_at (iv_columns i)) (iv_payment_deadline (iv_columns i)) (iv_payment_expired_at p)
    (bitcoin_timely (dd_pay dd) invoice).

Definition payment_request_status_by_invoice (dd : DrainDb) (invoice : RowId) :
    result PersistenceError (option PaymentRequestStatusSummary) :=
  match t_invoices (dd_pay dd) !! invoice with
  | None => Ok None
  | Some i =>
      usdt ← usdt_payment_status (dd_pay dd) invoice;
      summary ← into_summary (status_row dd invoice i) usdt;
      Ok (Some summary)
  end.

Definition payment_request_status (dd : DrainDb) (creator : CreatorPubky) (bundle_id : BundleId) :
    result PersistenceError (option PaymentRequestStatusSummary) :=
  match bundle_invoice dd (lookup_hash crypto (creator_to_string creator))
          (lookup_hash crypto (bundle_to_string bundle_id)) with
  | Some invoice => payment_request_status_by_invoice dd invoice
  | None => Ok None
  end.

Definition payment_request_status_after_receive (dd : DrainDb) (creator : CreatorPubky) (bundle_id : BundleId)
    (evidence : list RequiredReceiveTarget) : result PersistenceError (option PaymentRequestStatusSummary) :=
  let bundle_hash := lookup_hash crypto (bundle_to_string bundle_id) in
  match creator_of_hash (dd_db dd) (lookup_hash crypto (creator_to_string creator)) with
  | None => Ok None
  | Some creator_id =>
      match select_one (λ id i, bool_decide (i_creator_id i = creator_id)
                                && bool_decide (ld_bundles (dd_life dd) !! id = Some bundle_hash))
              (invoices (dd_db dd)) with
      | None => Ok None
      | Some (invoice, i) =>
          ok_or (generations (dd_db dd) !! (creator_id, i_lock_resource_lookup_hash i)) PE_Unavailable;;
          current ← required_receive_targets_for_bundle_in_transaction crypto from_bytes outbox_created_at (dd_life dd)
                      creator_id bundle_hash;
          ensure (receive_evidence_covers current evidence) PE_Unavailable;;
          payment_request_status_by_invoice dd invoice
      end
  end.

Definition invoice_exists (dd : DrainDb) (creator : CreatorPubky) (bundle_id : BundleId) : bool :=
  is_some (bundle_invoice dd (lookup_hash crypto (creator_to_string creator))
             (lookup_hash crypto (bundle_to_string bundle_id))).

(** [InvoiceStore::payment_status] *)
Definition payment_status (dd : DrainDb) (creator : CreatorPubky) (bundle_id : BundleId) :
    result PersistenceError (option PersistedPaymentStatus) :=
  match bundle_invoice dd (lookup_hash crypto (creator_to_string creator))
          (lookup_hash crypto (bundle_to_string bundle_id)) with
  | Some invoice =>
      match t_invoices (dd_pay dd) !! invoice with
      | Some i => s ← persisted_payment_status (iv_projection i); Ok (Some s)
      | None => Ok None
      end
  | None => Ok None
  end.

(** [PaymentStatusService::status] *)
Definition status_lookup (dd : DrainDb) (creator : CreatorPubky) (bundle_id : BundleId) :
    result PaymentStatusError (string * Z * bool) :=
  found ← map_err (λ _, PaymentStatus_Unavailable) (payment_status dd creator bundle_id);
  persisted ← ok_or found PaymentStatus_NotFound;
  Ok (payment_status_response persisted).
End reads.

(** ** Lemmas *)

Lemma sql_rank_aggregate s : sql_state_rank (state_as_str s) = aggregate_rank s.
Proof. by destruct s. Qed.

Lemma try_u32_ok x y : try_u32 x = Ok y → y = x.
Proof. unfold try_u32. intros H. by apply bind_ok in H as (? & _ & [= <-]). Qed.

Lemma undetected_iff present confirmations :
  String.eqb (payment_status_text present confirmations) "undetected" = negb present.
Proof. unfold payment_status_text. destruct present; simpl; [|done]. by destruct (confirmations =? 0). Qed.

(** The state the texts of the projection and the receipt amount to. *)
Lemma payment_state_projected present confirmations usdt s :
  0 <= confirmations → payment_state_of (payment_status_text present confirmations) usdt = Ok s →
  s = if (present && (0 <? confirmations)) || match usdt with Some u => 0 <? up_confirmations u | None => false end
      then Pay_Confirmed else if present || is_some usdt then Pay_Detected else Pay_Undetected.
Proof.
  intros Hc. unfold payment_state_of, payment_status_text. destruct present; simpl.
  - destruct (Z.eqb_spec confirmations 0) as [->|Hne]; simpl.
    + destruct (match usdt with Some u => _ | None => _ end); by intros [= <-].
    + destruct (Z.ltb_spec 0 confirmations); [|lia]. by intros [= <-].
  - destruct (match usdt with Some u => _ | None => _ end) eqn:Hu; [by intros [= <-]|].
    destruct usdt; by intros [= <-].
Qed.

Section read_lemmas.
Context {prim : CryptoPrimitives} {codec : ObservationCodec} (crypto : Crypto).

Lemma bitcoin_timely_observed pay invoice creator_hash bitcoin p :
  observations_wf (t_observations pay) → bitcoin_payment crypto pay invoice creator_hash bitcoin = Ok p →
  op_present p = true → bitcoin_timely pay invoice = op_timely p.
Proof.
  intros (_ & Hone & _). unfold bitcoin_payment. destruct bitcoin as [destination|]; [|by intros [= <-]].
  destruct (select_one _ _) as [[id r]|] eqn:Hs; [|by intros [= <-]].
  apply select_one_some in Hs as [Hid Hact]. intros H. apply bind_ok in H as (facts & _ & [= <-]). simpl. intros Hp.
  apply eq_true_iff_eq. rewrite bool_decide_eq_true. unfold bitcoin_timely. split.
  - intros Hex. destruct (exists_row _ _) eqn:E in Hex; [|done]. unfold exists_row in E.
    destruct (select_one _ (t_observations pay)) as [[k s]|] eqn:Hk; [|done].
    apply select_one_some in Hk as [Hk Hc]. rewrite !andb_true_iff, bool_decide_eq_true in Hc.
    destruct Hc as [[[Ho Ha] _] Ht].
    assert (k = id) as -> by (eapply (Hone invoice); [exact Hk|exact Hid| |exact Hact]; by rewrite active_for_true, <- owned_by_true).
    by simplify_eq.
  - intros Ht. destruct (exists_row _ _) eqn:E; [done|]. pose proof (exists_row_false _ _ E _ _ Hid) as Hf. cbn in Hf.
    apply active_for_true in Hact as [Ho Ha]. apply owned_by_true in Ho. rewrite Ho, Ha, Hp, bool_decide_true in Hf by done.
    done.
Qed.

Lemma usdt_status_projected pay invoice i creator_hash record usdt status :
  t_invoices pay !! invoice = Some i →
  stored_lookup_hash (iv_creator_lookup_hash (iv_columns i)) = Ok creator_hash →
  decrypt_payment_record crypto creator_hash invoice (iv_payment_record_envelope (iv_columns i)) = Ok record →
  usdt_half crypto pay (iv_columns i) invoice creator_hash (pr_usdt record) = Ok usdt →
  usdt_payment_status crypto pay invoice = Ok status →
  status = (λ p, mk_UsdtPaymentStatus (op_confirmations p) (op_matched p) (eligible p) (op_finalized p)) <$> usdt.
Proof.
  intros Hi Hch Hrec Hu. unfold usdt_payment_status. rewrite Hi. destruct (negb _) eqn:Hex.
  - intros [= <-]. apply negb_true_iff in Hex. unfold usdt_half in Hu. destruct (pr_usdt record); [|by injection Hu as <-].
    apply bind_ok in Hu as (selected & Hsel & [= <-]). unfold usdt_payment in Hsel.
    assert (present_receipts pay invoice = []) as Hnil.
    { apply elem_of_nil_inv. intros [k r]. unfold present_receipts. rewrite list_elem_of_filter, elem_of_map_to_list.
      intros [Hp%Is_true_true Hk]. pose proof (exists_row_false _ _ Hex _ _ Hk) as Hf. simpl in Hp, Hf. congruence. }
    rewrite Hnil in Hsel. simpl in Hsel. by injection Hsel as <-.
  - intros H. cbv zeta in H. rewrite Hch in H. simpl in H. rewrite Hrec in H. simpl in H.
    apply bind_ok in H as (destination & Hd%ok_or_ok & H). apply bind_ok in H as (selected & Hsel & H).
    unfold usdt_half in Hu. rewrite Hd, Hsel in Hu. simpl in Hu. injection Hu as <-.
    destruct selected as [[name p]|]; [|by injection H as <-].
    apply bind_ok in H as (c & ->%try_u32_ok & [= <-]). done.
Qed.
End read_lemmas.

Section theorems.
Context {core : LocksCore} {lib : PaykitLib} {prim : CryptoPrimitives} {codec : ObservationCodec} (crypto : Crypto).
Context (collate : string → string → comparison).

(** The row the query ranks first is the maximum of the domain's order. *)
Lemma query_picks_aggregate attempts :
  (∀ s t, collate (state_as_str s) (state_as_str t) = str_compare (state_as_str s) (state_as_str t)) →
  option_map (λ a : PaymentRequestLifecycleState * Z, state_as_str a.1) (head (sort_by (lateral_compare collate) attempts))
  = option_map (λ l, state_as_str (request_state l)) (aggregate_lifecycle attempts).
Proof.
  intros Hcollate. unfold aggregate_lifecycle. rewrite (head_sort_desc attempt_compare (lateral_compare collate)).
  - by destruct (max_by attempt_compare _) as [[s t]|].
  - intros [s t] [s' t']. unfold lateral_compare, attempt_compare. simpl. by rewrite !sql_rank_aggregate, Hcollate.
Qed.

(** the query and the domain aggregate attempts alike.  When the database orders the nine
    state names as Rust does, the request state the status query picks for an invoice with
    lifecycle rows is the state of [aggregate_lifecycle] over the same rows, and an
    invoice without any reports the outcome recorded in the rotation or outbox tables, if
    there is one. *)
Theorem status_query_aggregates dd invoice :
  (∀ s t, collate (state_as_str s) (state_as_str t) = str_compare (state_as_str s) (state_as_str t)) →
  reported_state collate dd invoice
  = match aggregate_lifecycle (attempts_of_invoice dd invoice) with
    | Some lifecycle => Some (state_as_str (request_state lifecycle))
    | None => option_map state_as_str (terminal_fallback dd invoice)
    end.
Proof.
  intros Hcollate. unfold reported_state. rewrite query_picks_aggregate by done.
  by destruct (aggregate_lifecycle _) as [[s t]|].
Qed.

(** the status reports what was observed.  Read after a projection of an invoice's
    payments, a status reports the Bitcoin output that is active and present with its
    confirmations, whether it covers the amount and whether it also matched in time,
    and the selected receipt likewise; the payment state is the strongest of the two
    rails, and is expired only when neither rail has a timely full payment. *)
Theorem status_reports_projection dd dd' invoice i creator_hash record now s :
  observations_wf (t_observations (dd_pay dd)) →
  t_invoices (dd_pay dd) !! invoice = Some i →
  stored_lookup_hash (iv_creator_lookup_hash (iv_columns i)) = Ok creator_hash →
  decrypt_payment_record crypto creator_hash invoice (iv_payment_record_envelope (iv_columns i)) = Ok record →
  project_payments crypto (dd_pay dd) invoice creator_hash record now = Ok (dd_pay dd') →
  payment_request_status_by_invoice crypto collate dd' invoice = Ok (Some s) →
  ∃ bitcoin usdt,
    bitcoin_payment crypto (dd_pay dd) invoice creator_hash (pr_bitcoin record) = Ok bitcoin
    ∧ usdt_half crypto (dd_pay dd) (iv_columns i) invoice creator_hash (pr_usdt record) = Ok usdt
    ∧ st_bitcoin s = (if op_present bitcoin
                      then Some (mk_BitcoinPaymentStatus (op_confirmations bitcoin) (op_matched bitcoin)
                                   (op_matched bitcoin && op_timely bitcoin)) else None)
    ∧ st_usdt_arbitrum s
      = (λ p, mk_UsdtPaymentStatus (op_confirmations p) (op_matched p) (eligible p) (op_finalized p)) <$> usdt
    ∧ (st_payment_state s = Pay_Expired
       ∨ st_payment_state s
         = if (op_present bitcoin && (0 <? op_confirmations bitcoin))
              || match usdt with Some p => 0 <? op_confirmations p | None => false end
           then Pay_Confirmed else if op_present bitcoin || is_some usdt then Pay_Detected else Pay_Undetected)
    ∧ (eligible bitcoin || match usdt with Some p => eligible p | None => false end = true →
       st_payment_state s ≠ Pay_Expired).
Proof.
  intros Hobs Hi Hch Hrec Hproj Hs.
  pose proof (project_payments_tables _ _ _ _ _ _ _ Hproj) as (Eo & Et & _ & _ & Eu).
  apply project_payments_inv in Hproj as (row & bitcoin & usdt & Hrow & Hb & Hu & db1 & Hupd & Hc). simplify_eq.
  exists bitcoin, usdt. split; [done|]. split; [done|].
  set (is_eligible := eligible bitcoin || _) in *.
  set (p' := projected_columns bitcoin
    (if match usdt with Some p => eligible p | None => false end then usdt ≫= op_received_at else None)
    is_eligible now (iv_columns i) (iv_projection i)).
  assert (t_invoices (dd_pay dd') !! invoice = Some (mk_PaymentInvoice (iv_columns i) p')) as Hi'.
  { assert (t_invoices (dd_pay dd') = t_invoices db1) as ->.
    { destruct is_eligible; [|by injection Hc as <-]. unfold insert_contact in Hc.
      destruct (exists_row _ _); [by injection Hc as <-|]. by apply bind_ok in Hc as (? & _ & [= <-]). }
    unfold update_invoice in Hupd. rewrite Hi in Hupd. apply bind_ok in Hupd as (? & _ & [= <-]).
    simpl. by rewrite lookup_insert_eq. }
  unfold payment_request_status_by_invoice in Hs. rewrite Hi' in Hs.
  apply bind_ok in Hs as (status & Hstatus & Hs). apply bind_ok in Hs as (s' & Hsum & [= <-]).
  assert (status = (λ p, mk_UsdtPaymentStatus (op_confirmations p) (op_matched p) (eligible p) (op_finalized p)) <$> usdt)
    as ->.
  { eapply (usdt_status_projected crypto (dd_pay dd') invoice _ creator_hash record usdt status);
      [exact Hi'|exact Hch|exact Hrec| |exact Hstatus]. simpl.
    rewrite <- Hu. unfold usdt_half, usdt_payment, present_receipts. by rewrite Eu. }
  unfold into_summary in Hsum. apply bind_ok in Hsum as (rs & _ & Hsum).
  apply bind_ok in Hsum as (ps & Hps & Hsum). apply bind_ok in Hsum as (c & Hcnt%try_u32_ok & [= <-]).
  simpl in Hps, Hcnt |- *. rewrite undetected_iff, negb_involutive.
  assert (0 <= op_confirmations bitcoin) as Hnn.
  { clear -Hb Hobs. destruct Hobs as (_ & _ & Hpos). unfold bitcoin_payment in Hb.
    destruct (pr_bitcoin record); [|by injection Hb as <-].
    destruct (select_one _ _) as [[id r]|] eqn:Hsel; [|by injection Hb as <-].
    apply select_one_some in Hsel as [Hid _]. destruct (Hpos _ _ Hid) as [_ Hc].
    apply bind_ok in Hb as (f & _ & [= <-]). simpl. repeat case_match; lia. }
  split_and!.
  - destruct (op_present bitcoin) eqn:Hp; [|done]. do 2 f_equal; [done|]. f_equal.
    rewrite <- (bitcoin_timely_observed crypto _ _ _ _ _ Hobs Hb Hp). unfold bitcoin_timely. by rewrite Eo, Et.
  - done.
  - destruct (is_some _) eqn:Hexp in Hps; [left; by injection Hps|right].
    apply payment_state_projected in Hps; [|done]. rewrite Hps. by destruct usdt.
  - intros He. change (is_eligible = true) in He. rewrite He in Hps. simpl in Hps. intros ->.
    apply payment_state_projected in Hps; [|done]. repeat case_match; done.
Qed.
End theorems.

(** ** Examples *)

Module Example_status.
Import Example_payments.
#[local] Existing Instance Example_crypto.example_primitives.
#[local] Existing Instance Example_payments.example_codec.

(** Invoice 1 with two attempts, the earlier accepted. *)
Definition life : LifecycleDb := mk_LifecycleDb
  (mk_Db ∅ ∅ ∅ ∅ ∅ {["r1" := mk_LifecycleRow (Some 1%N) None Accepted;
                       "r2" := mk_LifecycleRow (Some 1%N) None Canceled]} ∅)
  {["r1" := mk_CursorColumns None (Some 1) None 5; "r2" := mk_CursorColumns None (Some 2) None 9]} ∅ ∅ ∅.

(** The tables when the payments of invoice 1 were [pay]. *)
Definition tables (pay : PaymentDb) : DrainDb := mk_DrainDb life pay ∅ ∅ ∅ [] ∅.

Notation projected := (project_payments crypto settled 1%N creator record 60).

Notation read pay := (payment_request_status_by_invoice crypto str_compare (tables pay) 1%N).

Lemma settled_observations_wf : observations_wf (t_observations settled).
Proof.
  assert (∀ i r, t_observations settled !! i = Some r → i = 3%N ∧ r = final_row) as Hone
    by (intros i r Hi; unfold settled in Hi; simpl in Hi; by apply lookup_singleton_Some in Hi as [<- <-]).
  split_and!.
  - intros i j r s Hi Hj _. destruct (Hone _ _ Hi), (Hone _ _ Hj). by subst.
  - intros v i j r s Hi Hj _ _. destruct (Hone _ _ Hi), (Hone _ _ Hj). by subst.
  - intros i r Hi. destruct (Hone _ _ Hi) as [_ ->]. split; [done|vm_compute; discriminate].
Qed.
End Example_status.

Import Example_status.
#[local] Existing Instance Example_crypto.example_primitives.
#[local] Existing Instance Example_payments.example_codec.

Lemma status_query_aggregates_witness :
  reported_state str_compare (tables Example_payments.settled) 1%N = Some "accepted".
Proof.
  transitivity (match aggregate_lifecycle (attempts_of_invoice (tables Example_payments.settled) 1%N) with
    | Some lifecycle => Some (state_as_str (request_state lifecycle))
    | None => option_map state_as_str (terminal_fallback (tables Example_payments.settled) 1%N)
    end); [|vm_compute; reflexivity].
  apply (status_query_aggregates str_compare (tables Example_payments.settled) 1%N). reflexivity.
Defined.

Lemma status_reports_projection_witness :
  ∃ pay s, read pay = Ok (Some s) ∧ is_some (st_bitcoin s) = true
    ∧ (st_payment_state s = Pay_Expired ∨ st_payment_state s = Pay_Confirmed).
Proof.
  assert (match projected with
          | Ok pay => match read pay with Ok (Some s) => is_some (st_bitcoin s) | _ => false end
          | Err _ => false end = true) as Hok by (vm_compute; reflexivity).
  destruct projected as [pay|] eqn:Hp; [|discriminate Hok].
  destruct (read pay) as [[s|]|] eqn:Hs; [|discriminate Hok..].
  exists pay, s. split; [exact Hs|]. split; [exact Hok|].
  destruct (status_reports_projection Example_payments.crypto str_compare (tables Example_payments.settled) (tables pay)
              1%N Example_payments.invoice_row Example_payments.creator Example_payments.record 60 s) as
    (bitcoin & usdt & Hb & Hu & _ & _ & Hstate & _);
    [exact settled_observations_wf|vm_compute; reflexivity..|exact Hp|exact Hs|].
  destruct Hstate as [He|He]; [by left|right]. rewrite He.
  assert (op_present bitcoin = true ∧ 0 < op_confirmations bitcoin) as [-> Hc].
  { vm_compute in Hb. injection Hb as <-. split; [reflexivity|vm_compute; reflexivity]. }
  destruct (Z.ltb_spec 0 (op_confirmations bitcoin)); [reflexivity|lia].
Defined.
