(* ===== verification/Adapter.v ===== *)
(** * Adapter: the Paykit SDK adapter and the drain service

    [paykit.rs] wraps the SDK for one Creator: it receives the messages of peers,
    projects the SDK's canonical Payment Requests into the lifecycle store, keeps the
    private transport moving and creates drains once everything relevant has been
    received.  [application/payment_drain.rs], [server.rs] (the production drain
    operations) and [http/payment_drains.rs] put a service and three routes around it.

    The methods are programs over the calls they make ([AdapterCall]): the SDK's methods
    and the stores'.  Of the SDK's records only the fields the adapter reads are kept;
    its keys, its clock conversion and the URL-safe base64 codec are parameters.  Log
    lines are left out. *)

From S2P Require Import Prelude Text Effects Locks Invoice Lifecycle Pricing Intent Readers Database OutboxStore OutboxWorker Crypto Observations LifecycleStore Sorting Drains Status Api.
Local Open Scope string_scope.
Local Open Scope Z_scope.

(** ** The SDK's values *)

Inductive PaykitSdkError :=
| Sdk_ConcurrentUpdate
| Sdk_SharedStateBusy
| Sdk_Storage
| Sdk_Identity
| Sdk_Transport
| Sdk_NotFound
| Sdk_Protocol
| Sdk_LinkObservation
| Sdk_Policy
| Sdk_PaymentAdapter
| Sdk_RecoveryRequired
| Sdk_Other.

#[global] Instance PaykitSdkError_eq_dec : EqDecision PaykitSdkError.
Proof. solve_decision. Defined.

Inductive PaymentRequestLocalRole := Payee | Payer | OtherRole.

#[global] Instance PaymentRequestLocalRole_eq_dec : EqDecision PaymentRequestLocalRole.
Proof. solve_decision. Defined.

(** The SDK's lifecycle state is one the server knows, or another. *)
Inductive SdkLifecycleState :=
| Known (state : PaymentRequestLifecycleState)
| UnknownState.

Inductive LinkedPeerState := Linked | LinkRecoveryRequired | OtherLinkState.

#[global] Instance LinkedPeerState_eq_dec : EqDecision LinkedPeerState.
Proof. solve_decision. Defined.

(** [OutboundPrivateSendReport]: the messages sent, and the numbers of failures. *)
Record SendReport := mk_SendReport {
  sr_sent : list Z;
  sr_failed : nat;
  sr_reservation_cleanup_failures : nat;
  sr_recovery_marker_failures : nat;
}.

(** ** Errors *)

Inductive LifecycleSyncError :=
| Sync_Sdk
| Sync_Persistence
| Sync_Conflict
| Sync_InvalidProjection
| Sync_PartialReceive.

Inductive PaymentDrainError := Drain_CreatorMismatch | Drain_Conflict | Drain_Unavailable.

Inductive PaymentRequestStatusError := Status_Conflict | Status_Unavailable.

Definition map_projection_persistence_error (e : PersistenceError) : LifecycleSyncError :=
  match e with PE_Conflict => Sync_Conflict | _ => Sync_Persistence end.

Definition map_lifecycle_drain_error (e : LifecycleSyncError) : PaymentDrainError :=
  match e with Sync_Conflict => Drain_Conflict | _ => Drain_Unavailable end.

Definition map_lifecycle_status_error (e : LifecycleSyncError) : PaymentRequestStatusError :=
  match e with Sync_Conflict => Status_Conflict | _ => Status_Unavailable end.

Definition map_drain_persistence_error (e : PersistenceError) : PaymentDrainError :=
  match e with PE_Conflict => Drain_Conflict | _ => Drain_Unavailable end.

Definition sdk_error_label (e : PaykitSdkError) : string :=
  match e with
  | Sdk_ConcurrentUpdate => "concurrent_update"
  | Sdk_SharedStateBusy => "shared_state_busy"
  | Sdk_Storage => "storage"
  | Sdk_Identity => "identity"
  | Sdk_Transport => "transport"
  | Sdk_NotFound => "not_found"
  | Sdk_Protocol => "protocol"
  | Sdk_LinkObservation => "link_observation"
  | Sdk_Policy => "policy"
  | Sdk_PaymentAdapter => "payment_adapter"
  | Sdk_RecoveryRequired => "recovery_required"
  | Sdk_Other => "other"
  end.

Definition classify (e : PaykitSdkError) : HandoffError :=
  match e with
  | Sdk_Protocol => HandoffErrorPermanent
  | Sdk_LinkObservation => HandoffErrorRetryable CauseLinkObservation
  | Sdk_Policy => HandoffErrorRetryable CausePolicy
  | Sdk_Storage => HandoffErrorRetryable CauseStorage
  | Sdk_Identity => HandoffErrorRetryable CauseIdentity
  | Sdk_Transport => HandoffErrorRetryable CauseTransport
  | Sdk_NotFound => HandoffErrorRetryable CauseNotFound
  | Sdk_PaymentAdapter => HandoffErrorRetryable CausePaymentAdapter
  | Sdk_RecoveryRequired => HandoffErrorRetryable CauseRecoveryRequired
  | _ => HandoffErrorRetryable CauseOther
  end.

Definition handoff_reader_authorization {A} (fetched : result PaykitSdkError A) :
    result HandoffError ReaderAuthorization :=
  match fetched with
  | Ok _ => Ok AuthVerified
  | Err Sdk_NotFound => Ok AuthMissing
  | Err Sdk_Protocol => Ok AuthInvalid
  | Err e => Err (classify e)
  end.

Definition require_linked (s : LinkedPeerState) : result HandoffError unit :=
  match s with
  | Linked => Ok tt
  | LinkRecoveryRequired => Err (HandoffErrorRetryable CauseRecoveryRequired)
  | OtherLinkState => Err (HandoffErrorRetryable CauseLinkPending)
  end.

Definition terminal_outbound_status (s : OutboundStatus) : bool :=
  match s with
  | StatusSent | StatusInvalid | StatusRecoveryRequired | StatusSuperseded => true
  | _ => false
  end.

Definition check_send_report (r : SendReport) : result PaykitSdkError unit :=
  ensure (Nat.eqb (sr_failed r) 0 && Nat.eqb (sr_reservation_cleanup_failures r) 0
          && Nat.eqb (sr_recovery_marker_failures r) 0) Sdk_Transport.

(** [.and_then(check_send_report)] *)
Definition checked_send (sent : result PaykitSdkError SendReport) : result PaykitSdkError unit :=
  report ← sent; check_send_report report.

Definition is_contention (e : PaykitSdkError) : bool :=
  match e with Sdk_ConcurrentUpdate | Sdk_SharedStateBusy => true | _ => false end.

(** The loop of [check_transport_results]. *)
Fixpoint transport_loop (deferred : bool) (results : list (result PaykitSdkError unit)) :
    result PaykitSdkError unit :=
  match results with
  | [] => if deferred then Err Sdk_ConcurrentUpdate else Ok tt
  | Ok _ :: results => transport_loop deferred results
  | Err e :: results => if is_contention e then transport_loop true results else Err Sdk_Transport
  end.

Definition check_transport_results (results : list (result PaykitSdkError unit)) : result PaykitSdkError unit :=
  transport_loop false results.

Inductive ReceiveHealth := Available | Unavailable.

Definition recovery_state_event_id (canceled rejected latest_payment_proof accepted proposal : option string) :
    option string :=
  match canceled, rejected, latest_payment_proof, accepted with
  | Some e, _, _, _ | None, Some e, _, _ | None, None, Some e, _ | None, None, None, Some e => Some e
  | None, None, None, None => proposal
  end.

Definition persisted_lifecycle_state (s : SdkLifecycleState) :
    result LifecycleSyncError PaymentRequestLifecycleState :=
  match s with Known state => Ok state | UnknownState => Err Sync_InvalidProjection end.

(** [i128::checked_mul], [i128::checked_add] *)
Definition in_i128 (x : Z) : option Z := if (- 2 ^ 127 <=? x) && (x <? 2 ^ 127) then Some x else None.

(** ** Cleanup tokens *)

(** The [base64] engine [URL_SAFE_NO_PAD]. *)
Class UrlSafeBase64 := {
  base64_encode : string → string;
  base64_decode : string → option string;
}.

(** What the engine promises: decoding inverts encoding, 32 bytes take 43 characters, and
    no padding is written. *)
Class UrlSafeBase64Laws (b : UrlSafeBase64) : Prop := {
  base64_roundtrip bytes : base64_decode (base64_encode bytes) = Some bytes;
  base64_length bytes : String.length bytes = 32%nat → String.length (base64_encode bytes) = 43%nat;
  base64_no_padding bytes : count_bytes (Ascii.eqb "=") (base64_encode bytes) = 0;
}.

Section tokens.
Context {b64 : UrlSafeBase64}.

(** [PaymentDrainCleanupToken] is its 32 bytes. *)
Definition to_canonical_string (token : string) : string := base64_encode token.

Definition PaymentDrainCleanupToken_parse (value : string) : option string :=
  if negb (str_len value =? 43) || negb (count_bytes (Ascii.eqb "=") value =? 0) then None
  else
    match base64_decode value with
    | Some bytes =>
        if (str_len bytes =? 32) && String.eqb (to_canonical_string bytes) value then Some bytes else None
    | None => None
    end.
End tokens.

Record PaymentDrainSummary := mk_PaymentDrainSummary {
  ds_completed : bool;
  ds_accepted_count : Z;
  ds_terminal_count : Z;
  ds_cancellation_enqueued_count : Z;
  ds_cleanup_token : string;
}.

Definition from_snapshot (s : PaymentDrainSnapshot) (token : string) : PaymentDrainSummary :=
  mk_PaymentDrainSummary (sn_completed s) (sn_accepted_count s) (sn_terminal_count s)
    (sn_cancellation_enqueued_count s) token.

Definition summary_status (s : PaymentDrainSummary) : string := if ds_completed s then "completed" else "active".

Section adapter.
Context {core : LocksCore} {lib : PaykitLib}.
(** [PubkyPublicKey], its parser and its [Display]. *)
Context {Peer : Type} `{!EqDecision Peer} (from_raw_or_app_key : string → option Peer) (peer_display : Peer → string).
(** [OffsetDateTime::from_unix_timestamp_nanos] *)
Context (from_unix_timestamp_nanos : Z → option Z).

(** ** Payment Requests as the SDK reports them *)

(** The terms of a record; [ct_payment_deadline_at] is [payment_deadline.map(|d| d.at(None))]. *)
Record CanonicalTerms := mk_CanonicalTerms {
  ct_recurrence : bool;
  ct_amount_value : string;
  ct_amount_asset : string;
  ct_conversion : option PaymentConversion;
  ct_payment_reference : string;
  ct_proposal_expires_at : option string;
  ct_payment_deadline_at : option (option string);
  ct_accepted_identifiers : list string;
  ct_payment_endpoints : option (gmap string string);
  ct_metadata : Metadata;
}.

Record PaymentRequestRecord := mk_PaymentRequestRecord {
  pr_payment_request_id : string;
  pr_counterparty : Peer;
  pr_local_role : option PaymentRequestLocalRole;
  pr_proposal_app_id : option PaykitAppId;
  pr_terms : option CanonicalTerms;
  pr_state : SdkLifecycleState;
  pr_proposal_event_id : option string;
  pr_accepted_event_id : option string;
  pr_rejected_event_id : option string;
  pr_canceled_event_id : option string;
  pr_payment_proofs : list string;                  (* event ids *)
  pr_proposal_outbound_message_id : option Z;
  pr_last_stream_item_id : option Z;
  pr_last_outbound_message_id : option Z;
  pr_last_event_at : option (Z * Z);                (* seconds, nanoseconds *)
}.

(** The event that put a record into its state. *)
Definition state_event_id (r : PaymentRequestRecord) : result LifecycleSyncError (option string) :=
  let latest_proof := last (pr_payment_proofs r) in
  match pr_state r with
  | Known (Proposed | Lifecycle.ProposalExpired) => Ok (pr_proposal_event_id r)
  | Known (Accepted | ActiveRecurring) => Ok (pr_accepted_event_id r)
  | Known Rejected => Ok (pr_rejected_event_id r)
  | Known Canceled => Ok (pr_canceled_event_id r)
  | Known ProofSubmitted => Ok latest_proof
  | Known RecoveryRequired =>
      Ok (recovery_state_event_id (pr_canceled_event_id r) (pr_rejected_event_id r) latest_proof
            (pr_accepted_event_id r) (pr_proposal_event_id r))
  | Known InvalidConflict =>
      Ok (recovery_state_event_id (pr_canceled_event_id r) (pr_rejected_event_id r) None
            (pr_accepted_event_id r) (pr_proposal_event_id r))
  | UnknownState => Err Sync_InvalidProjection
  end.

(** The conversion of the record's [chrono] instant. *)
Definition event_instant (at_ : Z * Z) : result LifecycleSyncError Z :=
  let nanos := match in_i128 (at_.1 * 1000000000) with Some value => in_i128 (value + at_.2) | None => None end in
  nanos ← ok_or nanos Sync_InvalidProjection;
  ok_or (from_unix_timestamp_nanos nanos) Sync_InvalidProjection.

Definition correlated_terms (t : CanonicalTerms) : result LifecycleSyncError PaymentTermsV1 :=
  rates ← (match ct_conversion t with
           | Some (Fixed rates) => Ok rates
           | Some PerPeriod => Err Sync_InvalidProjection
           | None => Ok []
           end);
  deadline ← transpose ((λ d, ok_or d Sync_InvalidProjection) <$> ct_payment_deadline_at t);
  endpoints ← ok_or (ct_payment_endpoints t) Sync_InvalidProjection;
  Ok {| amount := ct_amount_value t; asset := ct_amount_asset t; rates := rates;
        payment_reference := ct_payment_reference t; proposal_expires_at := ct_proposal_expires_at t;
        payment_deadline := deadline; accepted_endpoint_identifiers := ct_accepted_identifiers t;
        payment_endpoints := endpoints; metadata := ct_metadata t |}.

Definition lifecycle_projection (r : PaymentRequestRecord) :
    result LifecycleSyncError PaymentRequestLifecycleProjection :=
  ensure (bool_decide (pr_local_role r = Some Payee)) Sync_InvalidProjection;;
  terms ← ok_or (match pr_terms r with
                 | Some t => if ct_recurrence t then None else Some t
                 | None => None
                 end) Sync_InvalidProjection;
  request_state ← persisted_lifecycle_state (pr_state r);
  event ← state_event_id r;
  at_ ← ok_or (pr_last_event_at r) Sync_InvalidProjection;
  instant ← event_instant at_;
  app ← ok_or (pr_proposal_app_id r) Sync_InvalidProjection;
  correlated ← correlated_terms terms;
  Ok (mk_Projection (pr_payment_request_id r)
        (mk_ProposalCorrelation ("pubky" ++ peer_display (pr_counterparty r)) (app_id_str app) correlated)
        request_state event (pr_last_stream_item_id r) (pr_last_outbound_message_id r) instant).

(** The records that are this server's to project. *)
Definition own_record (app : PaykitAppId) (r : PaymentRequestRecord) : bool :=
  negb (bool_decide (pr_local_role r = Some Payer))
  && match pr_proposal_app_id r with Some a => bool_decide (a = app) | None => true end.

Definition lifecycle_projections (records : list PaymentRequestRecord) (app : PaykitAppId) :
    list (result LifecycleSyncError PaymentRequestLifecycleProjection) :=
  lifecycle_projection <$> filter (λ r, Is_true (own_record app r)) records.

(** ** Receiving *)

(** [PrivateStreamCounterpartyIntakeReport]: a report or an error for one peer. *)
Record IntakeReport := mk_IntakeReport {
  ir_counterparty : Peer;
  ir_error : option PaykitSdkError;
  ir_report : bool;
}.

Definition parse_receive_targets (targets : list RequiredReceiveTarget) : result LifecycleSyncError (list Peer) :=
  collect (λ t, ok_or (from_raw_or_app_key (counterparty t)) Sync_InvalidProjection) targets.

Definition receive_health_for_required_targets (reports : list IntakeReport) (required : list Peer) : ReceiveHealth :=
  if forallb (λ peer,
       let matching := filter (λ r, ir_counterparty r = peer) reports in
       forallb (λ r, is_none (ir_error r)) matching
       && existsb (λ r, ir_report r && is_none (ir_error r)) matching) required
  then Available else Unavailable.

(** ** Calls *)

(** A stored outbound message: identifier, application, status and counterparty. *)
Record OutboundRecord := mk_OutboundRecord {
  or_id : Z;
  or_app_id : string;
  or_status : OutboundStatus;
  or_counterparty : Peer;
}.

Inductive AdapterCall : Type → Type :=
(* the SDK *)
| ReceiveFrom (peer : Peer) : AdapterCall (result PaykitSdkError unit)
| ReceiveFromLinkedPeers : AdapterCall (result PaykitSdkError (list IntakeReport))
| PaymentRequests : AdapterCall (result PaykitSdkError (list PaymentRequestRecord))
| LinkedPeers : AdapterCall (result PaykitSdkError (list (Peer * LinkedPeerState)))
| PendingCounterparties : AdapterCall (result PaykitSdkError (list Peer))
| ProcessOutbound (peer : Peer) : AdapterCall (result PaykitSdkError SendReport)
| ExportOutbound : AdapterCall (result PaykitSdkError (list OutboundRecord))
| EnsureLinkWithPeer (peer : Peer) : AdapterCall (result PaykitSdkError LinkedPeerState)
| ProposeWithId (peer : Peer) (id : PaymentRequestId) (terms : PaymentRequestTerms) :
    AdapterCall (result PaykitSdkError PaymentRequestRecord)
| CancelRequest (peer : Peer) (id : PaymentRequestId) : AdapterCall (result PaykitSdkError PaymentRequestRecord)
| AppRegistry (peer : Peer) : AdapterCall (result PaykitSdkError (option PaykitAppRegistry))
| NoiseKeyAuthorization (peer : Peer) : AdapterCall (result PaykitSdkError unit)
(* the stores *)
| ApplyProjection (p : PaymentRequestLifecycleProjection) :
    AdapterCall (result PersistenceError PaymentRequestLifecycleApply)
| TargetsForLock (lock : PubkyLockResource) : AdapterCall (result PersistenceError (list RequiredReceiveTarget))
| TargetsForBundle (bundle : BundleId) : AdapterCall (result PersistenceError (list RequiredReceiveTarget))
| TargetsForRotation : AdapterCall (result PersistenceError (list RequiredReceiveTarget))
| ObserveUsdt (r : PaymentRequestRecord) (bundle : option BundleId) : AdapterCall (result PersistenceError unit)
| ObserveMarketplaceUsdt (r : PaymentRequestRecord) : AdapterCall (result PersistenceError unit)
| DrainReplay (lock : PubkyLockResource) : AdapterCall (result PersistenceError (option PaymentDrainSnapshot))
| CreateDrain (lock : PubkyLockResource) (evidence : list RequiredReceiveTarget) :
    AdapterCall (result PersistenceError PaymentDrainSnapshot)
| CleanupDrain (lock : PubkyLockResource) (token : string) : AdapterCall (result PersistenceError unit)
| StatusAfterReceive (bundle : BundleId) (evidence : list RequiredReceiveTarget) :
    AdapterCall (result PersistenceError (option PaymentRequestStatusSummary))
| HandoffIsCommitted (c : ClaimedOutbox) : AdapterCall (result PersistenceError bool)
| InvoiceExists (creator : CreatorPubky) (bundle : BundleId) : AdapterCall (result PersistenceError bool)
(* [CreatorStore::load_with_id]: the row and the creator the credentials name *)
| LoadCreator (creator : CreatorPubky) : AdapterCall (result PersistenceError (RowId * CreatorPubky)).

Notation M A := (prog AdapterCall A).

Definition fallible {F G A} (f : F → G) (p : M (result F A)) : M (result G A) := r ⇐ p; Ret (map_err f r).

Fixpoint receive_from_targets (targets : list Peer) : M (list IntakeReport) :=
  match targets with
  | [] => Ret []
  | peer :: targets =>
      received ⇐ call (ReceiveFrom peer);
      let report := match received with
                    | Ok _ => mk_IntakeReport peer None true
                    | Err e => mk_IntakeReport peer (Some e) false
                    end in
      reports ⇐ receive_from_targets targets;
      Ret (report :: reports)
  end.

(** The loop of [project_lifecycles_after_receive]; [first] is the first error so far. *)
Fixpoint persist_projections (projections : list (result LifecycleSyncError PaymentRequestLifecycleProjection))
    (first : option LifecycleSyncError) : M (option LifecycleSyncError) :=
  match projections with
  | [] => Ret first
  | Ok p :: projections =>
      applied ⇐ call (ApplyProjection p);
      persist_projections projections
        (match applied with
         | Ok _ => first
         | Err e => coalesce first (Some (map_projection_persistence_error e))
         end)
  | Err e :: projections => persist_projections projections (coalesce first (Some e))
  end.

Definition project_lifecycles_after_receive
    (projections : list (result LifecycleSyncError PaymentRequestLifecycleProjection)) (health : ReceiveHealth) :
    M (result LifecycleSyncError unit) :=
  first_error ⇐ persist_projections projections None;
  Ret (match health, first_error with
       | Unavailable, _ => Err Sync_PartialReceive
       | Available, Some e => Err e
       | Available, None => Ok tt
       end).

Section methods.
(** The adapter's Creator and application. *)
Context (creator : CreatorPubky) (app : PaykitAppId).

Definition project_payment_requests_locked (health : ReceiveHealth) :
    M (result LifecycleSyncError (list PaymentRequestRecord)) :=
  records ←? fallible (λ _, Sync_Sdk) (call PaymentRequests);
  _ ←? project_lifecycles_after_receive (lifecycle_projections records app) health;
  Ret (Ok records).

Definition refresh_payment_requests_locked (targets : list Peer) : M (result LifecycleSyncError unit) :=
  reports ⇐ receive_from_targets targets;
  _ ←? project_payment_requests_locked (receive_health_for_required_targets reports targets);
  Ret (Ok tt).

(** The loop over the records; the last error is kept. *)
Fixpoint observe_usdt_loop (marketplace : bool) (bundle : option BundleId) (records : list PaymentRequestRecord)
    (outcome : result LifecycleSyncError unit) : M (result LifecycleSyncError unit) :=
  match records with
  | [] => Ret outcome
  | r :: records =>
      observed ⇐ call (ObserveUsdt r bundle);
      let outcome := match observed with Ok _ => outcome | Err e => Err (map_projection_persistence_error e) end in
      if is_none bundle && marketplace then
        observed ⇐ call (ObserveMarketplaceUsdt r);
        observe_usdt_loop marketplace bundle records
          (match observed with Ok _ => outcome | Err e => Err (map_projection_persistence_error e) end)
      else observe_usdt_loop marketplace bundle records outcome
  end.

Definition observe_usdt_requests (usdt marketplace : bool) (records : list PaymentRequestRecord)
    (bundle : option BundleId) : M (result LifecycleSyncError unit) :=
  if usdt then observe_usdt_loop marketplace bundle records (Ok tt) else Ret (Ok tt).

Definition receive_and_project_payment_requests (usdt marketplace : bool) : M (result LifecycleSyncError unit) :=
  reports ⇐ call ReceiveFromLinkedPeers;
  let health := match reports with
                | Ok reports => if forallb (λ r, is_none (ir_error r)) reports then Available else Unavailable
                | Err _ => Unavailable
                end in
  records ←? project_payment_requests_locked health;
  observe_usdt_requests usdt marketplace records None.

Definition reconcile_for_bitcoin_account_rotation : M (result LifecycleSyncError (list RequiredReceiveTarget)) :=
  targets ←? fallible map_projection_persistence_error (call TargetsForRotation);
  parsed ←? Ret (parse_receive_targets targets);
  _ ←? refresh_payment_requests_locked parsed;
  Ret (Ok targets).

Definition receive_payment_request_targets_locked (bundle : BundleId) :
    M (result PaymentRequestStatusError (list RequiredReceiveTarget * ReceiveHealth)) :=
  targets ←? fallible (λ _, Status_Unavailable) (call (TargetsForBundle bundle));
  parsed ←? Ret (map_err map_lifecycle_status_error (parse_receive_targets targets));
  reports ⇐ receive_from_targets parsed;
  Ret (Ok (targets, receive_health_for_required_targets reports parsed)).

(** The part after the receive, which concurrent callers may share. *)
Definition lookup_after_receive (usdt marketplace : bool) (bundle : BundleId)
    (received : list RequiredReceiveTarget * ReceiveHealth) :
    M (result PaymentRequestStatusError (option PaymentRequestStatusSummary)) :=
  records ←? fallible map_lifecycle_status_error (project_payment_requests_locked received.2);
  _ ←? fallible map_lifecycle_status_error (observe_usdt_requests usdt marketplace records (Some bundle));
  fallible (λ _, Status_Unavailable) (call (StatusAfterReceive bundle received.1)).

Definition reconcile_and_lookup_payment_request_status (usdt marketplace : bool) (bundle : BundleId) :
    M (result PaymentRequestStatusError (option PaymentRequestStatusSummary)) :=
  received ←? receive_payment_request_targets_locked bundle;
  lookup_after_receive usdt marketplace bundle received.

Definition reconcile_and_create_payment_drain (lock : PubkyLockResource) :
    M (result PaymentDrainError PaymentDrainSnapshot) :=
  if negb (bool_decide (resource_creator lock = creator)) then Ret (Err Drain_CreatorMismatch)
  else
    replay ←? fallible map_drain_persistence_error (call (DrainReplay lock));
    match replay with
    | Some replay => Ret (Ok replay)
    | None =>
        targets ←? fallible (λ e, map_lifecycle_drain_error (map_projection_persistence_error e))
                     (call (TargetsForLock lock));
        parsed ←? Ret (map_err map_lifecycle_drain_error (parse_receive_targets targets));
        _ ←? fallible map_lifecycle_drain_error (refresh_payment_requests_locked parsed);
        fallible map_drain_persistence_error (call (CreateDrain lock targets))
    end.
End methods.

(** ** The private transport *)

Fixpoint receive_from_linked (peers : list Peer) : M (list (result PaykitSdkError unit)) :=
  match peers with
  | [] => Ret []
  | peer :: peers =>
      received ⇐ call (ReceiveFrom peer);
      results ⇐ receive_from_linked peers;
      Ret (received :: results)
  end.

Fixpoint send_to_pending (peers : list Peer) : M (list (result PaykitSdkError unit)) :=
  match peers with
  | [] => Ret []
  | peer :: peers =>
      sent ⇐ call (ProcessOutbound peer);
      results ⇐ send_to_pending peers;
      Ret (checked_send sent :: results)
  end.

Definition maintain_outbound_transport : M (result PaykitSdkError unit) :=
  pending ⇐ call PendingCounterparties;
  results ⇐ (match pending with Ok peers => send_to_pending peers | Err e => Ret [Err e] end);
  Ret (check_transport_results results).

Definition maintain_transport : M (result PaykitSdkError unit) :=
  peers ←? call LinkedPeers;
  results ⇐ receive_from_linked (omap (λ p : Peer * LinkedPeerState, if bool_decide (p.2 = Linked) then Some p.1 else None) peers);
  outbound ⇐ maintain_outbound_transport;
  Ret (check_transport_results (results ++ [outbound])).

(** ** The [Adapter] trait *)

Definition parse_peer (reader : string) : result HandoffError Peer :=
  ok_or (from_raw_or_app_key reader) HandoffErrorPermanent.

Definition fetch_registry (reader : string) : M (result HandoffError (option PaykitAppRegistry)) :=
  peer ←? Ret (parse_peer reader);
  fallible classify (call (AppRegistry peer)).

Definition fetch_authorization (reader : string) : M (result HandoffError ReaderAuthorization) :=
  peer ←? Ret (parse_peer reader);
  fetched ⇐ call (NoiseKeyAuthorization peer);
  Ret (handoff_reader_authorization fetched).

Definition ensure_link_with_peer (reader : string) : M (result HandoffError unit) :=
  peer ←? Ret (parse_peer reader);
  state ←? fallible classify (call (EnsureLinkWithPeer peer));
  Ret (require_linked state).

Definition propose_payment_request (reader : string) (id : PaymentRequestId) (terms : PaymentTermsV1) :
    M (result HandoffError HandoffResult) :=
  peer ←? Ret (parse_peer reader);
  sdk_terms ←? Ret (map_err (λ _, HandoffErrorPermanent) (PaymentTermsV1_to_sdk terms));
  record ←? fallible classify (call (ProposeWithId peer id sdk_terms));
  message ←? Ret (ok_or (pr_proposal_outbound_message_id record) HandoffErrorPermanent);
  event ←? Ret (ok_or (pr_proposal_event_id record) HandoffErrorPermanent);
  Ret (Ok (HandoffProposal message event (pr_payment_request_id record))).

Definition cancel_payment_request (reader payment_request_id : string) : M (result HandoffError HandoffResult) :=
  peer ←? Ret (parse_peer reader);
  id ←? Ret (ok_or (request_id_new payment_request_id) HandoffErrorPermanent);
  record ←? fallible classify (call (CancelRequest peer id));
  message ←? Ret (ok_or (pr_last_outbound_message_id record) HandoffErrorPermanent);
  event ←? Ret (ok_or (pr_canceled_event_id record) HandoffErrorPermanent);
  Ret (Ok (HandoffCancellation message event (pr_payment_request_id record))).

(** The server's own stored message with the identifier. *)
Definition find_outbound (id : Z) (records : list OutboundRecord) : option OutboundRecord :=
  head (filter (λ r, Is_true ((or_id r =? id) && String.eqb (or_app_id r) PAYKIT_APP_ID)) records).

Definition outbound_status (id : Z) : M (result HandoffError (option OutboundStatus)) :=
  records ←? fallible classify (call ExportOutbound);
  match find_outbound id records with
  | None => Ret (Ok None)
  | Some r =>
      if terminal_outbound_status (or_status r) then Ret (Ok (Some (or_status r)))
      else
        state ←? fallible classify (call (EnsureLinkWithPeer (or_counterparty r)));
        _ ←? Ret (require_linked state);
        report ←? fallible classify (call (ProcessOutbound (or_counterparty r)));
        if bool_decide (id ∈ sr_sent report) then Ret (Ok (Some StatusSent))
        else
          records ←? fallible classify (call ExportOutbound);
          Ret (Ok (or_status <$> find_outbound id records))
  end.

Section handed_off.
(** [OutboxStore::delivery_intent] opens and decodes the claim's envelope. *)
Context {Bytes : Type} (open_envelope : string → RowId → string → option Bytes)
  (decode_bytes : Bytes → option DeliveryIntentV1) (creator_id : RowId).

Definition send_handed_off (c : ClaimedOutbox) : M (result HandoffError unit) :=
  if negb (bool_decide (c_creator_id c = creator_id)) then Ret (Err HandoffErrorPermanent)
  else
    committed ←? fallible (λ _, HandoffErrorRetryable CauseStorage) (call (HandoffIsCommitted c));
    if negb committed then Ret (Ok tt)
    else
      intent ←? Ret (map_err (λ _, HandoffErrorPermanent) (delivery_intent open_envelope decode_bytes c));
      peer ←? Ret (parse_peer (reader_pubky intent));
      sent ⇐ call (ProcessOutbound peer);
      Ret (map_err classify (checked_send sent)).
End handed_off.

(** ** The drain service ([server.rs]) and its routes ([http/payment_drains.rs]) *)

Section service.
Context {prim : CryptoPrimitives} {b64 : UrlSafeBase64} (crypto : Crypto) (app : PaykitAppId).

Definition summary (s : PaymentDrainSnapshot) : PaymentDrainSummary :=
  from_snapshot s (payment_drain_cleanup_token crypto (sn_drain_id s)).

Definition drain_service_create (lock : PubkyLockResource) : M (result PaymentDrainError PaymentDrainSummary) :=
  replay ←? fallible (λ _, Drain_Unavailable) (call (DrainReplay lock));
  match replay with
  | Some replay => Ret (Ok (summary replay))
  | None =>
      loaded ←? fallible (λ _, Drain_Unavailable) (call (LoadCreator (resource_creator lock)));
      if negb (bool_decide (loaded.2 = resource_creator lock)) then Ret (Err Drain_Unavailable)
      else
        snapshot ←? reconcile_and_create_payment_drain (resource_creator lock) app lock;
        Ret (Ok (summary snapshot))
  end.

Definition drain_service_lookup (lock : PubkyLockResource) :
    M (result PaymentDrainError (option PaymentDrainSummary)) :=
  snapshot ←? fallible (λ _, Drain_Unavailable) (call (DrainReplay lock));
  Ret (Ok (summary <$> snapshot)).

Definition drain_service_cleanup (lock : PubkyLockResource) (token : string) : M (result PaymentDrainError unit) :=
  fallible map_drain_persistence_error (call (CleanupDrain lock token)).

(** [ProductionPaymentRequestStatusOperations::lookup]; [usdt] tells whether a verifier is configured. *)
Definition status_service_lookup (usdt : bool) (creator : CreatorPubky) (bundle : BundleId) :
    M (result PaymentRequestStatusError (option PaymentRequestStatusSummary)) :=
  exists_ ←? fallible (λ _, Status_Unavailable) (call (InvoiceExists creator bundle));
  if negb exists_ then Ret (Ok None)
  else
    loaded ←? fallible (λ _, Status_Unavailable) (call (LoadCreator creator));
    if negb (bool_decide (loaded.2 = creator)) then Ret (Err Status_Unavailable)
    else reconcile_and_lookup_payment_request_status app usdt false bundle.

Definition drain_error (e : PaymentDrainError) : ApiError :=
  match e with
  | Drain_CreatorMismatch | Drain_Conflict => Api_Conflict
  | Drain_Unavailable => Api_Unavailable
  end.

Record DrainResponse := mk_DrainResponse {
  re_status : string;
  re_accepted_count : Z;
  re_terminal_count : Z;
  re_cancellation_enqueued_count : Z;
  re_cleanup_token : string;
}.

Definition drain_response (s : PaymentDrainSummary) : DrainResponse :=
  mk_DrainResponse (summary_status s) (ds_accepted_count s) (ds_terminal_count s)
    (ds_cancellation_enqueued_count s) (to_canonical_string (ds_cleanup_token s)).

(** The lock named by a body; a query string is refused. *)
Definition addressed_lock (has_query : bool) (lock_resource : string) : result ApiError PubkyLockResource :=
  ensure (negb has_query) Api_InvalidRequest;;
  map_err (λ _, Api_InvalidRequest) (parse_addressed_lock_resource lock_resource).

Definition http_drain_create (has_query : bool) (lock_resource : string) : M (result ApiError DrainResponse) :=
  lock ←? Ret (addressed_lock has_query lock_resource);
  created ←? fallible drain_error (drain_service_create lock);
  Ret (Ok (drain_response created)).

Definition http_drain_lookup (has_query : bool) (lock_resource : string) : M (result ApiError DrainResponse) :=
  lock ←? Ret (addressed_lock has_query lock_resource);
  found ←? fallible drain_error (drain_service_lookup lock);
  Ret (match found with Some s => Ok (drain_response s) | None => Err Api_InvoiceNotFound end).

Definition http_drain_cleanup (has_query : bool) (lock_resource cleanup_token : string) :
    M (result ApiError string) :=
  lock ←? Ret (addressed_lock has_query lock_resource);
  token ←? Ret (ok_or (PaymentDrainCleanupToken_parse cleanup_token) Api_InvalidRequest);
  _ ←? fallible drain_error (drain_service_cleanup lock token);
  Ret (Ok "removed").
End service.
End adapter.
