(* ===== verification/AdapterProps.v ===== *)
(** * AdapterProps: what the SDK adapter and the drain service promise

    Each statement about a method quantifies over every answer of the SDK and the stores
    ([all_runs]): which calls are made, in which order, and what the result says about the
    answers.  The last part runs the drain service against the tables of [Drains] and
    [LifecycleStore]. *)

From S2P Require Import Prelude Text Effects Locks Invoice Lifecycle Pricing Intent Readers Database OutboxStore OutboxWorker Crypto Observations LifecycleStore Sorting Drains Status Api Adapter.
Local Open Scope string_scope.
Local Open Scope Z_scope.

Section runs.
Context {core : LocksCore} {lib : PaykitLib}.
Context {Peer : Type} `{!EqDecision Peer} (from_raw_or_app_key : string → option Peer) (peer_display : Peer → string).
Context (from_unix_timestamp_nanos : Z → option Z).

Notation AdapterCall := (AdapterCall (Peer := Peer)).
Notation projection_of := (lifecycle_projection peer_display from_unix_timestamp_nanos).

(** ** Programs that extend a log *)

(** [p] extends any log by calls of [made], with a result that [Q] relates to them. *)
Definition extends {A} (p : prog AdapterCall A) (Q : list (event AdapterCall) → A → Prop) : Prop :=
  ∀ tr, all_runs p (λ tr' a, ∃ evs, tr' = (tr ++ evs)%list ∧ Q evs a) tr.

Lemma extends_ret {A} (a : A) Q : Q [] a → extends (Ret a) Q.
Proof. intros HQ tr. simpl. exists []. by rewrite app_nil_r. Qed.

Lemma extends_call {X A} (e : AdapterCall X) (k : X → prog AdapterCall A) Q :
  (∀ x, extends (k x) (λ evs a, Q (Ev e x :: evs) a)) → extends (prog_bind k (call e)) Q.
Proof.
  intros Hk tr x. simpl. eapply all_runs_mono; [|apply Hk]. intros tr' a (evs & -> & HQ).
  exists (Ev e x :: evs). split; [by rewrite <- app_assoc|done].
Qed.

Lemma extends_bind {A B} (p : prog AdapterCall A) (f : A → prog AdapterCall B) P Q :
  extends p P → (∀ evs a, P evs a → extends (f a) (λ evs' b, Q (evs ++ evs')%list b)) → extends (prog_bind f p) Q.
Proof.
  intros Hp Hf tr. apply all_runs_bind. eapply all_runs_mono; [|apply Hp]. intros tr' a (evs & -> & HP).
  eapply all_runs_mono; [|apply (Hf _ _ HP)]. intros tr'' b (evs' & -> & HQ).
  exists (evs ++ evs')%list. by rewrite app_assoc.
Qed.

Lemma extends_mono {A} (p : prog AdapterCall A) (P Q : list (event AdapterCall) → A → Prop) :
  (∀ evs a, P evs a → Q evs a) → extends p P → extends p Q.
Proof. intros HPQ Hp tr. eapply all_runs_mono; [|apply Hp]. intros tr' a (evs & -> & HP). eauto. Qed.

Lemma extends_try {F A B} (p : prog AdapterCall (result F A)) (f : A → prog AdapterCall (result F B)) P Q :
  extends p P → (∀ evs a, P evs (Ok a) → extends (f a) (λ evs' b, Q (evs ++ evs')%list b)) →
  (∀ evs e, P evs (Err e) → Q evs (Err e)) → extends (try_bind f p) Q.
Proof.
  intros Hp Hok Herr. apply (extends_bind _ _ P); [done|]. intros evs [a|e] HP; [by apply Hok|].
  apply extends_ret. rewrite app_nil_r. by apply Herr.
Qed.

Lemma extends_fallible {F G A} (f : F → G) (e : AdapterCall (result F A)) Q :
  (∀ r, Q [Ev e r] (map_err f r)) → extends (fallible f (call e)) Q.
Proof. intros HQ. apply extends_call. intros r. apply extends_ret, HQ. Qed.

(** [let a = call(e).await.map_err(f)?; k(a)] *)
Lemma extends_ask {F G A B} (f : F → G) (e : AdapterCall (result F A)) (k : A → prog AdapterCall (result G B)) Q :
  (∀ a, extends (k a) (λ evs b, Q (Ev e (Ok a) :: evs) b)) → (∀ err, Q [Ev e (Err err)] (Err (f err))) →
  extends (try_bind k (fallible f (call e))) Q.
Proof.
  intros Hok Herr. eapply extends_try with (P := λ evs r, ∃ answer, evs = [Ev e answer] ∧ r = map_err f answer).
  - apply extends_fallible. intros r. by exists r.
  - intros evs a (answer & -> & Hr). destruct answer; [|done]. injection Hr as ->. apply Hok.
  - intros evs err (answer & -> & Hr). destruct answer; [done|]. injection Hr as ->. apply Herr.
Qed.

(** [let a = r?; k(a)] *)
Lemma extends_pure {F A B} (r : result F A) (k : A → prog AdapterCall (result F B)) Q :
  (∀ a, r = Ok a → extends (k a) Q) → (∀ err, r = Err err → Q [] (Err err)) → extends (try_bind k (Ret r)) Q.
Proof.
  intros Hok Herr. destruct r as [a|err]; [by apply Hok|]. apply extends_ret. by apply Herr.
Qed.

Lemma extends_fallible_prog {F G A} (f : F → G) (p : prog AdapterCall (result F A)) Q :
  extends p (λ evs r, Q evs (map_err f r)) → extends (fallible f p) Q.
Proof.
  intros Hp. apply (extends_bind _ _ _ _ Hp). intros evs r HQ. apply extends_ret. by rewrite app_nil_r.
Qed.

Lemma extends_runs {A} (p : prog AdapterCall A) Q : extends p Q → all_runs p Q [].
Proof. intros Hp. eapply all_runs_mono; [|apply Hp]. by intros tr a (evs & -> & HQ). Qed.

(** ** Receiving *)

Definition receive_events (peers : list Peer) (answers : list (result PaykitSdkError unit)) : list (event AdapterCall) :=
  zip_with (λ peer answer, Ev (ReceiveFrom peer) answer) peers answers.

Definition report_of (peer : Peer) (answer : result PaykitSdkError unit) : IntakeReport :=
  match answer with Ok _ => mk_IntakeReport peer None true | Err e => mk_IntakeReport peer (Some e) false end.

Lemma receive_from_targets_extends peers :
  extends (receive_from_targets peers) (λ evs reports, ∃ answers, length answers = length peers
    ∧ evs = receive_events peers answers ∧ reports = zip_with report_of peers answers).
Proof.
  induction peers as [|peer peers IH]; simpl; [apply extends_ret; by exists []|].
  apply extends_call. intros answer. eapply extends_bind; [exact IH|].
  intros evs reports (answers & Hlen & -> & ->). apply extends_ret. exists (answer :: answers). simpl.
  rewrite app_nil_r. split_and!; [lia|done|by destruct answer].
Qed.

(** A required peer of an available receive has answered. *)
Lemma available_received peers answers peer :
  receive_health_for_required_targets (zip_with report_of peers answers) peers = Available → peer ∈ peers →
  Ev (ReceiveFrom peer) (Ok tt) ∈ receive_events peers answers.
Proof.
  unfold receive_health_for_required_targets. destruct (forallb _ _) eqn:Hall; [|done]. intros _ Hin.
  rewrite forallb_forall in Hall. specialize (Hall peer). rewrite <- list_elem_of_In in Hall. specialize (Hall Hin).
  apply andb_prop in Hall as [_ Hex]. apply existsb_exists in Hex as (r & Hr & Hok).
  apply list_elem_of_In, list_elem_of_filter in Hr as [Hpeer Hr]. clear Hin.
  revert answers Hr. induction peers as [|p peers IH]; intros [|a answers] Hr; simpl in Hr; try (by apply not_elem_of_nil in Hr).
  unfold receive_events. simpl. apply elem_of_cons in Hr as [->|Hr].
  - destruct a as [[]|e]; [|done]. simpl in Hpeer. subst p. by left.
  - right. by apply IH.
Qed.

(** ** Projecting *)

Definition apply_events (ps : list PaymentRequestLifecycleProjection)
    (answers : list (result PersistenceError PaymentRequestLifecycleApply)) : list (event AdapterCall) :=
  zip_with (λ p answer, Ev (ApplyProjection p) answer) ps answers.

Definition valid {E A} (l : list (result E A)) : list A := omap ok l.

Definition all_ok {E A} (l : list (result E A)) : bool := forallb is_ok l.

Lemma persist_projections_extends l first :
  extends (persist_projections l first) (λ evs first', ∃ answers, length answers = length (valid l)
    ∧ evs = apply_events (valid l) answers
    ∧ (first' = None ↔ first = None ∧ all_ok l = true ∧ all_ok answers = true)).
Proof.
  revert first. induction l as [|[p|e] l IH]; intros first; simpl.
  - apply extends_ret. exists []. split_and!; [done..|]. by split; [intros ->|intros [-> _]].
  - apply extends_call. intros answer. eapply extends_mono; [|apply IH]. intros evs first' (answers & Hlen & -> & Hiff).
    exists (answer :: answers). simpl. split_and!; [lia|done|]. rewrite Hiff.
    destruct answer as [a|e]; simpl; [done|].
    by split; [intros [Hf _]; destruct first|intros (_ & _ & ?)].
  - eapply extends_mono; [|apply IH]. intros evs first' (answers & Hlen & -> & Hiff). exists answers.
    split_and!; [done..|]. rewrite Hiff.
    by split; [intros [Hf _]; destruct first|intros (_ & ? & _)].
Qed.

Section projecting.
Context (app : PaykitAppId).

(** The projections a run of the adapter makes of the SDK's records. *)
Notation projections records := (lifecycle_projections peer_display from_unix_timestamp_nanos records app).

(** What a projection of all records did, and what its result says. *)
Definition projected (health : ReceiveHealth) (evs : list (event AdapterCall))
    (res : result LifecycleSyncError (list PaymentRequestRecord)) : Prop :=
  (∃ e, evs = [Ev PaymentRequests (Err e)] ∧ res = Err Sync_Sdk)
  ∨ ∃ records answers,
      evs = Ev PaymentRequests (Ok records) :: apply_events (valid (projections records)) answers
      ∧ length answers = length (valid (projections records))
      ∧ match res with
        | Ok records' => records' = records ∧ health = Available
                         ∧ all_ok (projections records) = true ∧ all_ok answers = true
        | Err e => (health = Unavailable ∧ e = Sync_PartialReceive)
                   ∨ (health = Available ∧ (all_ok (projections records) = false ∨ all_ok answers = false))
        end.

Lemma project_payment_requests_extends health :
  extends (project_payment_requests_locked peer_display from_unix_timestamp_nanos app health) (projected health).
Proof.
  unfold project_payment_requests_locked. apply extends_ask; [|intros e; left; by exists e].
  intros records. eapply extends_try with (P := λ evs r, ∃ answers, evs = apply_events (valid (projections records)) answers
      ∧ length answers = length (valid (projections records))
      ∧ match r with
        | Ok _ => health = Available ∧ all_ok (projections records) = true ∧ all_ok answers = true
        | Err e => (health = Unavailable ∧ e = Sync_PartialReceive)
                   ∨ (health = Available ∧ (all_ok (projections records) = false ∨ all_ok answers = false))
        end).
  - unfold project_lifecycles_after_receive. eapply extends_bind; [apply persist_projections_extends|].
    intros evs first (answers & Hlen & -> & Hiff). apply extends_ret. exists answers. rewrite app_nil_r.
    split_and!; [done..|]. destruct health; [|by left]. destruct first as [e|].
    + right. split; [done|]. destruct (all_ok (projections records)), (all_ok answers); auto.
      discriminate (proj2 Hiff (conj eq_refl (conj eq_refl eq_refl))).
    + destruct (proj1 Hiff eq_refl) as (_ & ? & ?). done.
  - intros evs [] (answers & -> & Hlen & Hres). apply extends_ret. right. exists records, answers.
    rewrite app_nil_r. by destruct Hres as (? & ? & ?).
  - intros evs e (answers & -> & Hlen & Hres). right. exists records, answers. done.
Qed.

(** one bad record never hides another.  For every projection of the SDK's Payment Requests:
    each record of the server's own application that can be projected is handed to the
    lifecycle store exactly once, in the SDK's order, whatever the receive's health was
    and whatever other records or the store said; the run succeeds exactly
    when the receive was complete, all of its records could be projected and every one was stored,
    and an incomplete receive is reported as such. *)
Theorem projection_exhaustive health :
  all_runs (project_payment_requests_locked peer_display from_unix_timestamp_nanos app health)
    (λ evs res, (∃ e, evs = [Ev PaymentRequests (Err e)] ∧ res = Err Sync_Sdk)
     ∨ ∃ records answers,
         evs = Ev PaymentRequests (Ok records)
               :: zip_with (λ p answer, Ev (ApplyProjection p) answer) (omap ok (projections records)) answers
         ∧ length answers = length (omap ok (projections records))
         ∧ match res with
           | Ok records' => records' = records ∧ health = Available
                            ∧ forallb is_ok (projections records) = true ∧ forallb is_ok answers = true
           | Err e => (health = Unavailable ∧ e = Sync_PartialReceive)
                      ∨ (health = Available ∧ (forallb is_ok (projections records) = false
                                               ∨ forallb is_ok answers = false))
           end) [].
Proof. exact (extends_runs _ _ (project_payment_requests_extends health)). Qed.

(** ** Creating a drain *)

Definition is_create (ev : event AdapterCall) : bool :=
  match ev with Ev (CreateDrain _ _) _ => true | _ => false end.

(** Everything needed for a drain of [lock] is in the log: the receives of all [targets] and
    the storing of every own record. *)
Definition reconciled (lock : PubkyLockResource) (targets : list RequiredReceiveTarget)
    (evs : list (event AdapterCall)) : Prop :=
  Ev (DrainReplay lock) (Ok None) ∈ evs ∧ Ev (TargetsForLock lock) (Ok targets) ∈ evs
  ∧ (∀ t, t ∈ targets → ∃ peer, from_raw_or_app_key (counterparty t) = Some peer ∧ Ev (ReceiveFrom peer) (Ok tt) ∈ evs)
  ∧ ∃ records, Ev PaymentRequests (Ok records) ∈ evs
      ∧ ∀ r, r ∈ records → own_record app r = true →
          ∃ p applied, projection_of r = Ok p ∧ Ev (ApplyProjection p) (Ok applied) ∈ evs.

Lemma no_create_receives peers answers : Forall (λ ev, is_create ev = false) (receive_events peers answers).
Proof. revert answers. induction peers; intros [|? ?]; simpl; constructor; auto. Qed.

Lemma no_create_applies ps answers : Forall (λ ev, is_create ev = false) (apply_events ps answers).
Proof. revert answers. induction ps; intros [|? ?]; simpl; constructor; auto. Qed.

Lemma collect_covers {E A B} (f : A → result E B) l ys x :
  collect f l = Ok ys → x ∈ l → ∃ y, f x = Ok y ∧ y ∈ ys.
Proof.
  revert ys. induction l as [|a l IH]; intros ys H Hin; [by apply not_elem_of_nil in Hin|]. simpl in H.
  apply bind_ok in H as (y & Hy & H). apply bind_ok in H as (ys' & Hys & [= <-]).
  apply elem_of_cons in Hin as [->|Hin]; [exists y; split; [done|by left]|].
  destruct (IH _ Hys Hin) as (y' & ? & ?). exists y'. split; [done|by right].
Qed.

(** A valid projection whose every answer is good was stored. *)
Lemma applied_elem (ps : list PaymentRequestLifecycleProjection) answers p :
  p ∈ ps → length answers = length ps → all_ok answers = true →
  ∃ applied, Ev (ApplyProjection p) (Ok applied) ∈ apply_events ps answers.
Proof.
  revert answers. induction ps as [|q ps IH]; intros [|a answers] Hin Hlen Hok; try done; [by apply not_elem_of_nil in Hin|].
  unfold all_ok in Hok. simpl in Hok, Hlen. apply andb_prop in Hok as [Ha Hok].
  apply elem_of_cons in Hin as [->|Hin].
  - destruct a as [a|]; [|done]. exists a. by left.
  - destruct (IH answers Hin ltac:(lia) Hok) as [applied Hap]. exists applied. by right.
Qed.

Lemma own_projected records r :
  all_ok (projections records) = true → r ∈ records → own_record app r = true →
  ∃ p, projection_of r = Ok p ∧ p ∈ valid (projections records).
Proof.
  intros Hok Hin Hown. unfold lifecycle_projections, all_ok in *.
  assert (projection_of r ∈ (projections records)) as Hp.
  { apply list_elem_of_fmap. exists r. split; [done|]. apply list_elem_of_filter. by rewrite Is_true_true. }
  rewrite forallb_forall in Hok. specialize (Hok _ (proj1 (list_elem_of_In _ _) Hp)).
  destruct (projection_of r) as [p|] eqn:E; [|done]. exists p. split; [done|].
  unfold valid. apply list_elem_of_omap. by exists (Ok p).
Qed.

(** A refresh for [peers]: if it succeeded, all were received from and all records stored. *)
Definition refreshed (peers : list Peer) (evs : list (event AdapterCall)) (success : bool) : Prop :=
  Forall (λ ev, is_create ev = false) evs
  ∧ (success = true →
     (∀ peer, peer ∈ peers → Ev (ReceiveFrom peer) (Ok tt) ∈ evs)
     ∧ ∃ records, Ev PaymentRequests (Ok records) ∈ evs
         ∧ ∀ r, r ∈ records → own_record app r = true →
             ∃ p applied, projection_of r = Ok p ∧ Ev (ApplyProjection p) (Ok applied) ∈ evs).

Lemma refresh_extends peers :
  extends (refresh_payment_requests_locked peer_display from_unix_timestamp_nanos app peers)
    (λ evs res, refreshed peers evs (is_ok res)).
Proof.
  unfold refresh_payment_requests_locked. eapply extends_bind; [apply receive_from_targets_extends|].
  intros evs reports (answers & Hlen & -> & ->). eapply extends_try; [apply project_payment_requests_extends|..].
  - intros evs records [(e & -> & [=])|(records' & applied & -> & Hlen' & -> & Hhealth & Hok & Happ)].
    apply extends_ret. rewrite app_nil_r. split.
    + apply Forall_app. split; [apply no_create_receives|constructor; [done|apply no_create_applies]].
    + intros _. split.
      * intros peer Hpeer. apply elem_of_app. left. by apply available_received.
      * exists records'. split; [set_solver|]. intros r Hr Hown.
        destruct (own_projected _ _ Hok Hr Hown) as (p & Hp & Hin).
        destruct (applied_elem _ _ _ Hin Hlen' Happ) as [a Ha]. exists p, a. split; [done|].
        rewrite elem_of_app, elem_of_cons. auto.
  - intros evs e Hproj. split; [|done]. apply Forall_app. split; [apply no_create_receives|].
    destruct Hproj as [(e' & -> & _)|(records & applied & -> & _)]; repeat constructor. apply no_create_applies.
Qed.

(** The creations of a run, with everything before them. *)
Definition drain_run (creator : CreatorPubky) (lock : PubkyLockResource) (evs : list (event AdapterCall))
    (res : result PaymentDrainError PaymentDrainSnapshot) : Prop :=
  (Forall (λ ev, is_create ev = false) evs
   ∧ ∀ snap, res = Ok snap → Ev (DrainReplay lock) (Ok (Some snap)) ∈ evs)
  ∨ ∃ pre targets answer,
      evs = (pre ++ [Ev (CreateDrain lock targets) answer])%list ∧ Forall (λ ev, is_create ev = false) pre
      ∧ resource_creator lock = creator ∧ reconciled lock targets pre
      ∧ res = map_err map_drain_persistence_error answer.

Lemma reconcile_runs creator lock :
  all_runs (reconcile_and_create_payment_drain from_raw_or_app_key peer_display from_unix_timestamp_nanos creator app lock)
    (drain_run creator lock) [].
Proof.
  apply extends_runs. unfold reconcile_and_create_payment_drain.
  case_bool_decide as Hcreator; simpl; [|apply extends_ret; left; by split; [constructor|]].
  apply extends_ask; [|intros e; left; by split; [repeat constructor|]]. intros [snap|].
  { apply extends_ret. left. split; [by repeat constructor|]. intros s [= <-]. set_solver. }
  apply extends_ask; [|intros e; left; by split; [repeat constructor|]]. intros targets.
  apply extends_pure; [|intros e _; left; by split; [repeat constructor|]]. intros peers Hparse.
  eapply extends_try with (P := λ evs r, refreshed peers evs (is_ok r)).
  - apply extends_fallible_prog. eapply extends_mono; [|apply refresh_extends]. intros evs r. by destruct r.
  - intros evs [] [Hnc Hok]. destruct (Hok eq_refl) as [Hrecv Hrec]. apply extends_fallible. intros answer. right.
    exists (Ev (DrainReplay lock) (Ok None) :: Ev (TargetsForLock lock) (Ok targets) :: evs), targets, answer.
    split_and!; [done|by repeat constructor|done| |done]. split_and!; [set_solver..| |].
    + intros t Ht. apply map_err_ok in Hparse. destruct (collect_covers _ _ _ _ Hparse Ht) as (peer & Hpeer%ok_or_ok & Hin).
      exists peer. split; [done|]. do 2 right. by apply Hrecv.
    + destruct Hrec as (records & Hr & Hall). exists records. split; [by do 2 right|]. intros r Hin Hown.
      destruct (Hall r Hin Hown) as (p & a & Hp & Ha). exists p, a. split; [done|by do 2 right].
  - intros evs e [Hnc _]. left. split; [by repeat constructor|done].
Qed.
(** a drain is created only after everything it depends on was received and stored.  In
    every run of the adapter's drain operation the creation is called at most once, as the
    last call, for the adapter's own Creator, with the receive targets read in this run as
    evidence; and before it, in the same run, no drain was found, every target was
    received from successfully, and every Payment Request of this server's that the SDK knows
    was projected and stored.  The run succeeds only with an existing drain or the
    answer of that creation. *)
Theorem drain_created_after_reconciliation creator lock :
  all_runs (reconcile_and_create_payment_drain from_raw_or_app_key peer_display from_unix_timestamp_nanos creator app lock)
    (λ evs res,
      (Forall (λ ev, is_create ev = false) evs
       ∧ ∀ snap, res = Ok snap → Ev (DrainReplay lock) (Ok (Some snap)) ∈ evs)
      ∨ ∃ pre targets answer,
          evs = (pre ++ [Ev (CreateDrain lock targets) answer])%list ∧ Forall (λ ev, is_create ev = false) pre
          ∧ resource_creator lock = creator ∧ reconciled lock targets pre
          ∧ res = map_err map_drain_persistence_error answer) [].
Proof. exact (reconcile_runs creator lock). Qed.
End projecting.

(** ** The private transport *)

Lemma receive_from_linked_extends peers :
  extends (receive_from_linked peers) (λ evs results,
    length results = length peers ∧ evs = receive_events peers results).
Proof.
  induction peers as [|peer peers IH]; simpl; [by apply extends_ret|].
  apply extends_call. intros answer. eapply extends_bind; [exact IH|]. intros evs results [Hlen ->].
  apply extends_ret. rewrite app_nil_r. split; [simpl; lia|done].
Qed.

Definition send_events (peers : list Peer) (answers : list (result PaykitSdkError SendReport)) : list (event AdapterCall) :=
  zip_with (λ peer answer, Ev (ProcessOutbound peer) answer) peers answers.

Lemma send_to_pending_extends peers :
  extends (send_to_pending peers) (λ evs results, ∃ answers, length answers = length peers
    ∧ evs = send_events peers answers ∧ results = checked_send <$> answers).
Proof.
  induction peers as [|peer peers IH]; simpl; [apply extends_ret; by exists []|].
  apply extends_call. intros answer. eapply extends_bind; [exact IH|]. intros evs results (answers & Hlen & -> & ->).
  apply extends_ret. exists (answer :: answers). rewrite app_nil_r. split_and!; [simpl; lia|done..].
Qed.

(** What the summary of a pass says about its parts. *)
Lemma transport_loop_ok deferred results : is_ok (transport_loop deferred results) = negb deferred && all_ok results.
Proof.
  revert deferred. induction results as [|[[]|e] results IH]; intros deferred; simpl.
  - by destruct deferred.
  - apply IH.
  - destruct (is_contention e); simpl; [rewrite IH|]; by rewrite andb_false_r.
Qed.

Lemma transport_loop_deferred deferred results e :
  transport_loop deferred results = Err Sdk_ConcurrentUpdate → Err e ∈ results → is_contention e = true.
Proof.
  revert deferred. induction results as [|[[]|e'] results IH]; intros deferred H Hin; simpl in H.
  - by apply not_elem_of_nil in Hin.
  - apply elem_of_cons in Hin as [[=]|Hin]. eauto.
  - destruct (is_contention e') eqn:He; [|done]. apply elem_of_cons in Hin as [[= ->]|Hin]; eauto.
Qed.

Lemma all_ok_fmap {E A B} (f : B → result E A) l : all_ok (f <$> l) = forallb (λ b, is_ok (f b)) l.
Proof. unfold all_ok. induction l as [|b l IH]; [done|]. rewrite fmap_cons. cbn [forallb]. by rewrite IH. Qed.

(** The peers a transport pass receives from. *)
Definition linked (peers : list (Peer * LinkedPeerState)) : list Peer :=
  omap (λ p : Peer * LinkedPeerState, if bool_decide (p.2 = Linked) then Some p.1 else None) peers.

(** a transport pass reaches every peer.  Once the SDK has named its linked peers, the
    pass receives from each of them in order and then, if it can learn them, sends to every
    counterparty with pending messages, no matter which of these calls fail; it reports
    success exactly when all of them succeeded and no send report names a failure, and asks
    to be repeated only when nothing but contention with another client got in the way. *)
Theorem transport_reaches_every_peer :
  all_runs maintain_transport (λ evs res,
    (∃ e, evs = [Ev LinkedPeers (Err e)] ∧ res = Err e)
    ∨ ∃ peers received pending sent,
        evs = (Ev LinkedPeers (Ok peers)
               :: zip_with (λ peer answer, Ev (ReceiveFrom peer) answer) (linked peers) received
               ++ Ev PendingCounterparties pending
               :: match pending with
                  | Ok targets => zip_with (λ peer answer, Ev (ProcessOutbound peer) answer) targets sent
                  | Err _ => []
                  end)%list
        ∧ length received = length (linked peers)
        ∧ (∀ targets, pending = Ok targets → length sent = length targets)
        ∧ (is_ok res = true ↔
             forallb is_ok received = true ∧ is_ok pending = true ∧ forallb (λ r, is_ok (checked_send r)) sent = true)
        ∧ (res = Err Sdk_ConcurrentUpdate → ∀ e, Err e ∈ received → is_contention e = true)) [].
Proof.
  apply extends_runs. unfold maintain_transport. eapply extends_try with
    (P := λ evs r, evs = [Ev LinkedPeers r]); [|intros evs peers ->|intros evs e ->; left; eauto].
  { apply (extends_mono _ (λ evs r, evs = [Ev LinkedPeers r])); [done|]. intros tr x. simpl.
    by exists [Ev LinkedPeers x]. }
  eapply extends_bind; [apply receive_from_linked_extends|]. intros evs received [Hlen ->].
  unfold maintain_outbound_transport.
  eapply extends_bind with (P := λ evs outbound, ∃ pending sent,
    evs = (Ev PendingCounterparties pending :: match pending with Ok targets => send_events targets sent | Err _ => [] end)
    ∧ (∀ targets, pending = Ok targets → length sent = length targets)
    ∧ (is_ok outbound = true ↔ is_ok pending = true ∧ forallb (λ r, is_ok (checked_send r)) sent = true)).
  - apply extends_call. intros [targets|e].
    + eapply extends_bind; [apply send_to_pending_extends|]. intros evs results (answers & Hlen' & -> & ->).
      apply extends_ret. exists (Ok targets), answers. rewrite app_nil_r. split_and!; [done|by intros ? [= <-]|].
      unfold check_transport_results. rewrite transport_loop_ok, all_ok_fmap. simpl. by split; [|intros [_ ?]].
    + apply extends_ret. exists (Err e), []. split_and!; [done|done|].
      unfold check_transport_results. rewrite transport_loop_ok. simpl. by split; [|intros [? _]].
  - intros evs outbound (pending & sent & -> & Hsent & Hok). apply extends_ret. right.
    exists peers, received, pending, sent. rewrite app_nil_r. split_and!; [done..| |].
    + unfold check_transport_results. rewrite transport_loop_ok. simpl. unfold all_ok. rewrite forallb_app. simpl.
      rewrite andb_true_r, andb_true_iff, Hok. done.
    + intros Hres e Hin. eapply transport_loop_deferred; [exact Hres|]. set_solver.
Qed.

(** a message is reported sent only on the SDK's word.  The adapter answers that an outbound
    message was sent only when the SDK's store holds a message of this server with that
    identifier and either records it as sent or the send pass just made for its
    counterparty, over a link that was up, lists it as sent. *)
Theorem sent_only_when_sdk_says id :
  all_runs (outbound_status (Peer := Peer) id) (λ evs res,
    res = Ok (Some StatusSent) →
    ∃ records r, Ev ExportOutbound (Ok records) ∈ evs
      ∧ find_outbound id records = Some r
      ∧ (or_status r = StatusSent
         ∨ ∃ report, Ev (EnsureLinkWithPeer (or_counterparty r)) (Ok Linked) ∈ evs
             ∧ Ev (ProcessOutbound (or_counterparty r)) (Ok report) ∈ evs ∧ id ∈ sr_sent report)) [].
Proof.
  apply extends_runs. unfold outbound_status. apply extends_ask; [|done]. intros records.
  destruct (find_outbound id records) as [r|] eqn:Hfind; [|by apply extends_ret].
  destruct (terminal_outbound_status (or_status r)).
  { apply extends_ret. intros [= Hs]. exists records, r. split_and!; [set_solver|done|by left]. }
  apply extends_ask; [|done]. intros state. apply extends_pure; [|by intros].
  intros [] Hstate. assert (state = Linked) as -> by (by destruct state).
  apply extends_ask; [|done]. intros report. case_bool_decide as Hsent.
  - apply extends_ret. intros _. exists records, r. split_and!; [set_solver|done|right].
    exists report. split_and!; [set_solver..|done].
  - apply extends_ask; [|done]. intros records'. apply extends_ret. intros [= Hs].
    apply fmap_Some in Hs as (r' & Hr' & Hs). exists records', r'. split_and!; [set_solver|done|by left].
Qed.
End runs.

(** ** Cleanup tokens on the wire *)

Section tokens.
Context {core : LocksCore} {lib : PaykitLib} {Peer : Type} `{!EqDecision Peer}.
Context {prim : CryptoPrimitives} {b64 : UrlSafeBase64} `{!UrlSafeBase64Laws b64} (crypto : Crypto).

Lemma parse_canonical_token token :
  String.length token = 32%nat → PaymentDrainCleanupToken_parse (to_canonical_string token) = Some token.
Proof.
  intros Hlen. unfold PaymentDrainCleanupToken_parse, to_canonical_string, str_len.
  rewrite base64_length, base64_no_padding, base64_roundtrip, Hlen by done. simpl. by rewrite String.eqb_refl.
Qed.

Lemma parse_token_canonical value token :
  PaymentDrainCleanupToken_parse value = Some token → value = to_canonical_string token ∧ String.length token = 32%nat.
Proof.
  unfold PaymentDrainCleanupToken_parse, str_len. destruct (_ || _); [done|].
  destruct (base64_decode value) as [bytes|]; [|done]. destruct (_ && _) eqn:Hc; [|done]. intros [= <-].
  apply andb_prop in Hc as [Hlen%Z.eqb_eq Heq%String.eqb_eq]. split; [done|lia].
Qed.

(** the cleanup capability survives the wire.  A token has exactly one accepted spelling:
    parsing inverts printing on every 32-byte token and accepts nothing but printed tokens; so
    the token a drain response carries, sent back for the same lock, makes the cleanup
    route ask the store to remove the lock's drain with exactly that drain's token and
    nothing else. *)
Theorem cleanup_token_roundtrip snap lock_resource lock :
  (∀ key message, String.length (hmac_sha256 key message) = 32%nat) →
  parse_addressed_lock_resource lock_resource = Ok lock →
  let sent := re_cleanup_token (drain_response (summary crypto snap)) in
  (∀ token, String.length token = 32%nat → PaymentDrainCleanupToken_parse (to_canonical_string token) = Some token)
  ∧ (∀ value token, PaymentDrainCleanupToken_parse value = Some token →
       value = to_canonical_string token ∧ String.length token = 32%nat)
  ∧ all_runs (http_drain_cleanup (Peer := Peer) false lock_resource sent) (λ evs res,
      ∃ answer, evs = [Ev (CleanupDrain lock (payment_drain_cleanup_token crypto (sn_drain_id snap))) answer]
        ∧ (res = Ok "removed" ↔ is_ok answer = true)) [].
Proof.
  intros Hhmac Hlock sent. split; [apply parse_canonical_token|]. split; [apply parse_token_canonical|].
  assert (PaymentDrainCleanupToken_parse sent = Some (payment_drain_cleanup_token crypto (sn_drain_id snap))) as Hs
    by apply parse_canonical_token, Hhmac.
  unfold http_drain_cleanup, addressed_lock. rewrite Hs, Hlock. simpl. intros [[]|e]; simpl; by eexists.
Qed.
End tokens.

(** URL-safe base64 without padding, on the bits of the bytes. *)
Module Example_base64.
Definition alphabet : string := "ABCDEFGHIJKLMNOPQRSTUVWXYZabcdefghijklmnopqrstuvwxyz0123456789-_".

Fixpoint index_of (c : ascii) (s : string) (n : N) : option N :=
  match s with
  | "" => None
  | String d s => if Ascii.eqb c d then Some n else index_of c s (n + 1)
  end.

Definition sextet (a b c d e f : bool) : ascii :=
  default "A"%char (String.get (N.to_nat (N_of_ascii (Ascii f e d c b a false false))) alphabet).

Fixpoint bits (s : string) : list bool :=
  match s with
  | "" => []
  | String (Ascii a b c d e f g h) s => h :: g :: f :: e :: d :: c :: b :: a :: bits s
  end.

Fixpoint unbits (l : list bool) : string :=
  match l with
  | h :: g :: f :: e :: d :: c :: b :: a :: l => String (Ascii a b c d e f g h) (unbits l)
  | _ => ""
  end.

Fixpoint encode (l : list bool) : string :=
  match l with
  | [] => ""
  | [a] => String (sextet a false false false false false) ""
  | [a; b] => String (sextet a b false false false false) ""
  | [a; b; c] => String (sextet a b c false false false) ""
  | [a; b; c; d] => String (sextet a b c d false false) ""
  | [a; b; c; d; e] => String (sextet a b c d e false) ""
  | a :: b :: c :: d :: e :: f :: l => String (sextet a b c d e f) (encode l)
  end.

Fixpoint decode_bits (s : string) : option (list bool) :=
  match s with
  | "" => Some []
  | String c s =>
      i ← index_of c alphabet 0;
      rest ← decode_bits s;
      match ascii_of_N i with Ascii f e d c b a _ _ => Some (a :: b :: c :: d :: e :: f :: rest) end
  end.

#[export] Instance example_base64 : UrlSafeBase64 := {|
  base64_encode s := encode (bits s);
  base64_decode s := unbits <$> decode_bits s;
|}.

Lemma decode_sextet a b c d e f s :
  decode_bits (String (sextet a b c d e f) s) = rest ← decode_bits s; Some (a :: b :: c :: d :: e :: f :: rest).
Proof. destruct a, b, c, d, e, f; reflexivity. Qed.

Lemma sextet_not_padding a b c d e f : Ascii.eqb "=" (sextet a b c d e f) = false.
Proof. destruct a, b, c, d, e, f; reflexivity. Qed.

(** The groups of six, the last one filled up with zeros. *)
Lemma encode_spec n l : (length l <= n)%nat →
  ∃ pad, decode_bits (encode l) = Some (l ++ repeat false pad)%list ∧ (pad < 6)%nat
         ∧ (6 * String.length (encode l) = length l + pad)%nat ∧ count_bytes (Ascii.eqb "=") (encode l) = 0.
Proof.
  revert l. induction n as [|n IH]; intros l Hn.
  { destruct l; [|simpl in Hn; lia]. exists 0%nat. split_and!; [done|lia|done..]. }
  destruct l as [|a [|b [|c [|d [|e [|f l]]]]]]; cbn [encode].
  - exists 0%nat. split_and!; [done|lia|done..].
  - exists 5%nat. rewrite decode_sextet. split_and!; [done|lia|done|]. cbn [count_bytes]. by rewrite sextet_not_padding.
  - exists 4%nat. rewrite decode_sextet. split_and!; [done|lia|done|]. cbn [count_bytes]. by rewrite sextet_not_padding.
  - exists 3%nat. rewrite decode_sextet. split_and!; [done|lia|done|]. cbn [count_bytes]. by rewrite sextet_not_padding.
  - exists 2%nat. rewrite decode_sextet. split_and!; [done|lia|done|]. cbn [count_bytes]. by rewrite sextet_not_padding.
  - exists 1%nat. rewrite decode_sextet. split_and!; [done|lia|done|]. cbn [count_bytes]. by rewrite sextet_not_padding.
  - destruct (IH l) as (pad & Hdec & Hpad & Hlen & Hcount); [simpl in Hn; lia|]. exists pad.
    rewrite decode_sextet, Hdec. split_and!; [done|done|simpl; lia|].
    cbn [count_bytes]. by rewrite sextet_not_padding, Hcount.
Qed.

Lemma unbits_bits s pad : (pad < 8)%nat → unbits (bits s ++ repeat false pad) = s.
Proof.
  intros Hpad. induction s as [|[a b c d e f g h] s IH]; simpl.
  - do 8 (destruct pad as [|pad]; [done|]). lia.
  - by rewrite IH.
Qed.

Lemma bits_length s : length (bits s) = (8 * String.length s)%nat.
Proof. induction s as [|[a b c d e f g h] s IH]; [done|]. simpl. rewrite IH. lia. Qed.

Lemma example_base64_laws : UrlSafeBase64Laws example_base64.
Proof.
  split; intros bytes; destruct (encode_spec _ (bits bytes) (le_n _)) as (pad & Hdec & Hpad & Hlen & Hcount); simpl.
  - rewrite Hdec. simpl. f_equal. apply unbits_bits. lia.
  - intros H32. rewrite bits_length, H32 in Hlen. lia.
  - exact Hcount.
Qed.
End Example_base64.
