(* ===== verification/DrainService.v ===== *)
(** * DrainService: proposals, projections and drains end to end

    Two compositions.  The terms a proposal is sent with come back from the SDK's record
    as the terms it is correlated by, so a request is attributed to its own
    proposal.  And the drain operation, run against the tables, freezes a lock only after
    the reader of every open proposal was heard in the same run. *)

From S2P Require Import Prelude Text Effects Locks Invoice Lifecycle Pricing Intent Readers Database OutboxStore OutboxWorker Crypto Observations LifecycleStore Sorting Drains DrainProgress DrainProps Status Api Adapter AdapterProps.
Local Open Scope string_scope.
Local Open Scope Z_scope.

(** ** Proposals come back *)

Section roundtrip.
Context {core : LocksCore} {lib : PaykitLib}.
Context {Peer : Type} `{!EqDecision Peer} (peer_display : Peer → string) (from_unix_timestamp_nanos : Z → option Z).
(** How the SDK shows the terms of a request in its records. *)
Context (record_terms : PaymentRequestTerms → CanonicalTerms).

(** What the library promises: its checked values keep their text, an absolute deadline is its
    own instant, and a record shows the terms that were built. *)
Class RecordLaws : Prop := {
  amount_text v a x : amount_new v a = Some x → amount_value x = v ∧ amount_asset x = a;
  reference_text s x : reference_new s = Some x → reference_str x = s;
  identifier_text s x : identifier_new s = Some x → identifier_str x = s;
  app_id_text s x : app_id_new s = Some x → app_id_str x = s;
  deadline_absolute s : is_some (parse_rfc3339 s) = true → deadline_at s = Some s;
  record_shows_terms input terms : terms_build input = Some terms →
    record_terms terms = mk_CanonicalTerms false
      (amount_value (ti_amount _ _ _ _ _ input)) (amount_asset (ti_amount _ _ _ _ _ input))
      (ti_conversion _ _ _ _ _ input) (reference_str (ti_reference _ _ _ _ _ input))
      (ti_proposal_expires_at _ _ _ _ _ input) (deadline_at <$> ti_payment_deadline _ _ _ _ _ input)
      (identifier_str <$> ti_identifiers _ _ _ _ _ input)
      ((λ l, list_to_map ((λ e : EndpointIdentifier * string, (identifier_str e.1, e.2)) <$> l))
         <$> ti_endpoints _ _ _ _ _ input)
      (ti_metadata _ _ _ _ _ input);
}.

Context {laws : RecordLaws}.

Lemma collect_texts l ids :
  collect (λ i, ok_or (identifier_new i) Intent_Invalid) l = Ok ids → identifier_str <$> ids = l.
Proof.
  rewrite collect_ok_Forall2. induction 1 as [|s i l ids Hi%ok_or_ok _ IH]; [done|].
  rewrite fmap_cons, IH. by rewrite (identifier_text _ _ Hi).
Qed.

Lemma collect_endpoints (l : list (string * string)) endpoints :
  collect (λ '(i, payload), i ← ok_or (identifier_new i) Intent_Invalid; Ok (i, payload)) l = Ok endpoints →
  (λ e : EndpointIdentifier * string, (identifier_str e.1, e.2)) <$> endpoints = l.
Proof.
  rewrite collect_ok_Forall2. induction 1 as [|[s payload] e l endpoints He _ IH]; [done|].
  apply bind_ok in He as (i & Hi%ok_or_ok & [= <-]). rewrite fmap_cons, IH. simpl. by rewrite (identifier_text _ _ Hi).
Qed.

(** Terms sent to the SDK are read back unchanged. *)
Lemma sdk_terms_back t sdk :
  PaymentTermsV1_to_sdk t = Ok sdk → unparsable (payment_deadline t) = false →
  correlated_terms (record_terms sdk) = Ok t ∧ ct_recurrence (record_terms sdk) = false.
Proof.
  unfold PaymentTermsV1_to_sdk. intros H Hdeadline.
  apply bind_ok in H as (sdk_amount & Ha%ok_or_ok & H). apply bind_ok in H as (sdk_reference & Hr%ok_or_ok & H).
  apply bind_ok in H as (identifiers & Hi & H). apply bind_ok in H as (required & _ & H).
  apply bind_ok in H as (endpoints & He & H). apply ok_or_ok in H.
  apply collect_texts in Hi. apply collect_endpoints in He.
  rewrite (record_shows_terms _ _ H). unfold correlated_terms. simpl.
  destruct (amount_text _ _ _ Ha) as [-> ->]. rewrite (reference_text _ _ Hr), Hi, He, list_to_map_to_list.
  split; [|done]. destruct t as [value asset rates reference proposal deadline accepted eps meta]; simpl in *.
  assert (transpose ((λ d, ok_or d Sync_InvalidProjection) <$> (deadline_at <$> deadline)) = Ok deadline) as Hd.
  { destruct deadline as [d|]; [|done]. simpl in *. unfold is_none in Hdeadline.
    rewrite deadline_absolute; [done|]. by destruct (is_some (parse_rfc3339 d)). }
  case_bool_decide as Hrates; simpl; rewrite Hd; simpl; [by rewrite Hrates|done].
Qed.

(** what was proposed is what comes back.  When the SDK shows a request the server proposed,
    with the terms built from the intent, for the intent's reader and application, the
    adapter projects it, in whatever state the server knows, to a correlation that
    matches exactly this intent; so the lifecycle store attributes the request to the row
    the intent is sealed in. *)
Theorem proposal_projection_roundtrip i terms sdk app (r : PaymentRequestRecord (Peer := Peer)) state at_ instant :
  validate i = Ok tt → operation i = PaymentRequestProposal terms → PaymentTermsV1_to_sdk terms = Ok sdk →
  app_id_new PAYKIT_APP_ID = Some app →
  pr_local_role r = Some Payee → pr_proposal_app_id r = Some app → pr_terms r = Some (record_terms sdk) →
  "pubky" ++ peer_display (pr_counterparty r) = reader_pubky i → pr_state r = Known state →
  pr_last_event_at r = Some at_ → event_instant from_unix_timestamp_nanos at_ = Ok instant →
  ∃ p, lifecycle_projection peer_display from_unix_timestamp_nanos r = Ok p
    ∧ lp_payment_request_id p = pr_payment_request_id r ∧ lp_request_state p = state
    ∧ lp_last_event_at p = instant
    ∧ matches_proposal i (pc_reader_pubky (lp_proposal p)) (pc_proposal_app_id (lp_proposal p))
        (pc_terms (lp_proposal p)) = true.
Proof.
  intros Hvalid Hop Hsdk Happ Hrole Hrapp Hterms Hreader Hstate Hat Hinstant.
  assert (app_id i = PAYKIT_APP_ID ∧ unparsable (payment_deadline terms) = false) as [Hid Hdeadline].
  { unfold validate in Hvalid. destruct (_ || _) eqn:Hc in Hvalid; [done|]. rewrite !orb_false_iff in Hc.
    destruct Hc as [_ Hid%negb_false_iff%String.eqb_eq]. split; [done|]. rewrite Hop in Hvalid.
    unfold validate_terms in Hvalid. do 4 apply bind_ok in Hvalid as (? & _ & Hvalid).
    destruct (_ || _) in Hvalid; [done|]. apply bind_ok in Hvalid as (reference & _ & Hvalid).
    destruct (_ || _) eqn:Hd in Hvalid; [done|]. rewrite !orb_false_iff in Hd. tauto. }
  destruct (sdk_terms_back _ _ Hsdk Hdeadline) as [Hback Hrec].
  assert (∃ event, state_event_id r = Ok event) as [event Hevent].
  { unfold state_event_id. rewrite Hstate. destruct state; eauto. }
  unfold lifecycle_projection. rewrite Hreader, Hrole, bool_decide_true by done. rewrite Hterms, Hrec, Hstate, Hevent, Hat.
  simpl. rewrite Hinstant. simpl. rewrite Hrapp. simpl. rewrite Hback. simpl. eexists. split; [done|]. simpl.
  split_and!; [done..|]. unfold matches_proposal. rewrite Hop, (app_id_text _ _ Happ), Hid.
  by rewrite !String.eqb_refl, bool_decide_true.
Qed.
End roundtrip.

(** ** Draining end to end *)

Section end_to_end.
Context {core : LocksCore} {lib : PaykitLib} {prim : CryptoPrimitives} (crypto : Crypto).
Context {Peer : Type} `{!EqDecision Peer} (from_raw_or_app_key : string → option Peer) (peer_display : Peer → string).
Context (from_unix_timestamp_nanos : Z → option Z).
Context (from_bytes : string → option DeliveryIntentV1) (to_bytes : DeliveryIntentV1 → option string).
Context (collate : string → string → comparison) (outbox_created_at : RowId → Z).

(** A handler whose drain calls are the methods of the drain store; between the calls anyone
    may write the tables, and every other call answers as it likes. *)
Class DrainHandler {S} (h : ∀ X, AdapterCall (Peer := Peer) X → S → X * S) (tables : S → DrainDb) : Prop := {
  handles_create lock evidence s answer s' :
    h _ (CreateDrain lock evidence) s = (answer, s') →
    ∃ fresh now clock,
      match create_after_receive crypto from_bytes to_bytes collate outbox_created_at (tables s) lock evidence fresh now clock with
      | Ok (snap, dd) => answer = Ok snap ∧ tables s' = dd
      | Err e => answer = Err e ∧ tables s' = tables s
      end;
  handles_replay lock s answer s' :
    h _ (DrainReplay lock) s = (answer, s') →
    ∃ now, answer = (r ← drain_exact_replay crypto collate (tables s) lock now; Ok r.1);
}.

(** An invoice with a proposal still to be heard has a row among the receive targets. *)
Lemma receive_rows_cover db pick invoice i id r :
  invoices db !! invoice = Some i → pick invoice i = true → is_some (creators db !! i_creator_id i) = true →
  generation_current db i = true → outbox db !! id = Some r → o_invoice_id (o_key r) = Some invoice →
  o_intent_kind (o_key r) = PaymentRequestProposalKind → needs_receive db invoice r = true →
  ∃ id' r', outbox db !! id' = Some r' ∧ o_invoice_id (o_key r') = Some invoice
    ∧ (id', o_key r') ∈ receive_target_rows outbox_created_at db pick.
Proof.
  intros Hi Hpick Hc Hg Hr Hinv Hkind Hneed.
  assert ((id, r) ∈ invoice_proposals outbox_created_at db invoice) as Hin.
  { apply elem_of_sort_by, list_elem_of_filter. split; [|by apply elem_of_map_to_list]. simpl. rewrite Is_true_true.
    rewrite Hneed, Hinv, Hkind, bool_decide_true by done. done. }
  destruct (invoice_proposals outbox_created_at db invoice) as [|[id' r'] l] eqn:Hp; [by apply not_elem_of_nil in Hin|].
  assert ((id', r') ∈ invoice_proposals outbox_created_at db invoice) as Hin' by (rewrite Hp; by left).
  apply elem_of_sort_by, list_elem_of_filter in Hin' as [Hcond Hm%elem_of_map_to_list]. simpl in Hcond.
  rewrite Is_true_true, !andb_true_iff, bool_decide_eq_true in Hcond. destruct Hcond as [[Hinv' _] _].
  exists id', r'. split_and!; [done..|]. unfold receive_target_rows. apply list_elem_of_omap. exists (invoice, i).
  split; [by apply elem_of_sort_by, elem_of_map_to_list|]. by rewrite Hpick, Hc, Hg, Hp.
Qed.

(** A creation that is not a replay found its evidence sufficient. *)
Lemma creation_covered dd lock evidence fresh now clock snap dd' :
  create_after_receive crypto from_bytes to_bytes collate outbox_created_at dd lock evidence fresh now clock = Ok (snap, dd') →
  sn_replayed snap = false →
  ∃ creator_id current,
    creator_of_hash (dd_db dd) (lock_creator_hash crypto lock) = Some creator_id
    ∧ creators (dd_db dd) !! creator_id = Some (lock_creator_hash crypto lock)
    ∧ required_receive_targets_for_lock_in_transaction crypto from_bytes outbox_created_at
        (dd_db (ensure_generation dd creator_id (lock_resource_hash crypto lock))) creator_id (lock_resource_hash crypto lock)
      = Ok current
    ∧ ∀ t, t ∈ current → t ∈ evidence.
Proof.
  unfold create_after_receive, create_inner. cbv zeta. intros H Hr.
  apply bind_ok in H as (creator_id & Hc%ok_or_ok & H). apply bind_ok in H as (? & _ & H).
  destruct (select_one _ (dd_drains dd)) as [[id d]|].
  - exfalso. apply bind_ok in H as (plaintext & _ & H). apply bind_ok in H as (? & _ & H).
    apply bind_ok in H as ([o dd1] & Hrep & H). apply bind_ok in H as (s' & Ho%ok_or_ok & [= <- _]).
    simpl in Ho. subst o. apply replay_is_replayed in Hrep. congruence.
  - apply bind_ok in H as (g & _ & H). apply bind_ok in H as (? & _ & H). apply bind_ok in H as (u & Hev & _).
    apply bind_ok in Hev as (current & Hcur & Hcov%ensure_ok). exists creator_id, current. split_and!; [done| |done|].
    + unfold creator_of_hash in Hc. destruct (select_one _ (creators _)) as [[c hash]|] eqn:Hsel; [|done].
      injection Hc as <-. by apply select_one_some in Hsel as [Hcr ->%String.eqb_eq].
    + intros t Ht. unfold receive_evidence_covers in Hcov. rewrite forallb_forall in Hcov.
      apply list_elem_of_In, Hcov in Ht. by apply bool_decide_eq_true in Ht.
Qed.

(** Every answer in a log is the handler's. *)
Lemma exec_answered {S A} (h : ∀ X, AdapterCall (Peer := Peer) X → S → X * S) (p : prog AdapterCall A) s res s' tr ev :
  exec h p s = (res, s', tr) → ev ∈ tr → ∃ s0 s1, answered h ev s0 s1.
Proof.
  revert s tr. induction p as [a|X e k IH]; intros s tr; simpl.
  - intros [= <- <- <-] Hin. by apply not_elem_of_nil in Hin.
  - destruct (exec h (k (h X e s).1) (h X e s).2) as [[a s1] tr1] eqn:Hx. intros [= <- <- <-] Hin.
    apply elem_of_cons in Hin as [->|Hin]; [|by eapply IH]. exists s, (h X e s).2. simpl. by destruct (h X e s).
Qed.

(** C24: a lock is drained only after every open request's reader was heard.  Run the drain
    operation against the stores while other components write the tables at will between
    its calls.  If it reports a new drain, then at the moment of the freeze every
    invoice of the lock's current generation that still had a proposal to hear about had
    one whose sealed intent names a reader from which messages were received, without
    error, in this very run; and the snapshot is that of the freeze. *)
Theorem drained_only_after_hearing_readers {S} (h : ∀ X, AdapterCall (Peer := Peer) X → S → X * S) tables
    `{!DrainHandler h tables} creator app lock s snap s' tr :
  exec h (reconcile_and_create_payment_drain from_raw_or_app_key peer_display from_unix_timestamp_nanos creator app lock) s
    = (Ok snap, s', tr) →
  sn_replayed snap = false →
  ∃ s0 creator_id targets fresh now clock,
    creator_of_hash (dd_db (tables s0)) (lock_creator_hash crypto lock) = Some creator_id
    ∧ create_after_receive crypto from_bytes to_bytes collate outbox_created_at (tables s0) lock targets fresh now clock
      = Ok (snap, tables s')
    ∧ ∀ invoice i id r,
        let db := dd_db (ensure_generation (tables s0) creator_id (lock_resource_hash crypto lock)) in
        invoices db !! invoice = Some i → i_creator_id i = creator_id →
        i_lock_resource_lookup_hash i = lock_resource_hash crypto lock → generation_current db i = true →
        outbox db !! id = Some r → o_invoice_id (o_key r) = Some invoice →
        o_intent_kind (o_key r) = PaymentRequestProposalKind → needs_receive db invoice r = true →
        ∃ id' r' intent peer,
          outbox db !! id' = Some r' ∧ o_invoice_id (o_key r') = Some invoice
          ∧ row_intent crypto from_bytes db id' (o_key r') = Ok intent ∧ is_proposal intent = true
          ∧ from_raw_or_app_key (reader_pubky intent) = Some peer ∧ Ev (ReceiveFrom peer) (Ok tt) ∈ tr.
Proof.
  intros Hexec Hnew.
  pose proof (exec_all_runs h _ _ _ _ _ _ (reconcile_runs from_raw_or_app_key peer_display from_unix_timestamp_nanos
    app creator lock) Hexec) as [[_ Hrep]|(pre & targets & answer & -> & _ & _ & Hrec & Hans)].
  - exfalso. destruct (exec_answered _ _ _ _ _ _ _ Hexec (Hrep _ eq_refl)) as (s0 & s1 & Ha).
    apply handles_replay in Ha as [now Hr]. symmetry in Hr. apply bind_ok in Hr as ([o dd1] & Hr & [= ->]).
    apply replay_is_replayed in Hr. congruence.
  - destruct answer as [snap'|]; [|done]. injection Hans as <-.
    destruct (exec_last h _ _ _ _ _ (Ev (CreateDrain lock targets) (Ok snap)) Hexec) as [s0 Ha]; [by rewrite last_snoc|].
    apply handles_create in Ha as (fresh & now & clock & Hc).
    destruct (create_after_receive _ _ _ _ _ _ _ _ _ _ _) as [[snap' dd]|e] eqn:Hcreate; [|by destruct Hc].
    destruct Hc as [[= <-] <-].
    destruct (creation_covered _ _ _ _ _ _ _ _ Hcreate Hnew) as (creator_id & current & Hcr & Hrow & Hcur & Hcov).
    exists s0, creator_id, targets, fresh, now, clock. split_and!; [done..|].
    intros invoice i id r db Hi Hic Hil Hgen Hr Hinv Hkind Hneed.
    destruct (receive_rows_cover db (λ _ i, bool_decide (i_creator_id i = creator_id)
        && String.eqb (i_lock_resource_lookup_hash i) (lock_resource_hash crypto lock)) invoice i id r)
      as (id' & r' & Hr' & Hinv' & Hin); try done.
    { by rewrite Hic, Hil, bool_decide_true, String.eqb_refl. }
    { rewrite Hic. destruct (ensure_generation_other collate (tables s0) creator_id (lock_resource_hash crypto lock)) as (Ec & _).
      unfold db. by rewrite Ec, Hrow. }
    destruct (decode_targets_cover _ _ _ _ _ _ id' (o_key r') Hcur) as [_ Htarget].
    destruct (Htarget Hin) as (intent & Hintent & Hprop & Ht). destruct Hrec as (_ & _ & Hheard & _).
    destruct (Hheard _ (Hcov _ Ht)) as (peer & Hpeer & Hev).
    exists id', r', intent, peer. split_and!; [done..|]. apply elem_of_app. by left.
Qed.
End end_to_end.

(** ** Examples *)

Module Example_service.
Import Example_drains.
#[local] Existing Instance Example_drains.drain_primitives.

(** Peers are their texts; an instant is its nanoseconds. *)
Notation Call := (AdapterCall (Peer := string)).
Notation the_drain dd evidence :=
  (create_after_receive crypto from_bytes to_bytes str_compare (λ _, 0) dd lock evidence fresh 40 41).

(** Every peer answers, the SDK has no records, and the drain calls are the store's. *)
Definition handler (X : Type) (e : Call X) (dd : DrainDb) : X * DrainDb :=
  match e in AdapterCall X return X * DrainDb with
  | ReceiveFrom _ => (Ok tt, dd)
  | PaymentRequests => (Ok [], dd)
  | TargetsForLock lock => (required_receive_targets_for_lock crypto from_bytes (λ _, 0) (dd_db (ensure_generation dd 7 lock_hash)) 7 lock, dd)
  | DrainReplay lock => (r ← drain_exact_replay crypto str_compare dd lock 39; Ok r.1, dd)
  | CreateDrain l evidence =>
      match create_after_receive crypto from_bytes to_bytes str_compare (λ _, 0) dd l evidence fresh 40 41 with
      | Ok (snap, dd') => (Ok snap, dd')
      | Err e => (Err e, dd)
      end
  | ReceiveFromLinkedPeers => (Err Sdk_Other, dd)
  | LinkedPeers => (Err Sdk_Other, dd)
  | PendingCounterparties => (Err Sdk_Other, dd)
  | ProcessOutbound _ => (Err Sdk_Other, dd)
  | ExportOutbound => (Err Sdk_Other, dd)
  | EnsureLinkWithPeer _ => (Err Sdk_Other, dd)
  | ProposeWithId _ _ _ => (Err Sdk_Other, dd)
  | CancelRequest _ _ => (Err Sdk_Other, dd)
  | AppRegistry _ => (Err Sdk_Other, dd)
  | NoiseKeyAuthorization _ => (Err Sdk_Other, dd)
  | ApplyProjection _ => (Err PE_Unavailable, dd)
  | TargetsForBundle _ => (Err PE_Unavailable, dd)
  | TargetsForRotation => (Err PE_Unavailable, dd)
  | ObserveUsdt _ _ => (Err PE_Unavailable, dd)
  | ObserveMarketplaceUsdt _ => (Err PE_Unavailable, dd)
  | CleanupDrain _ _ => (Err PE_Unavailable, dd)
  | StatusAfterReceive _ _ => (Err PE_Unavailable, dd)
  | HandoffIsCommitted _ => (Err PE_Unavailable, dd)
  | InvoiceExists _ _ => (Err PE_Unavailable, dd)
  | LoadCreator _ => (Err PE_Unavailable, dd)
  end.

Lemma handler_drains : DrainHandler crypto from_bytes to_bytes str_compare (λ _, 0) handler id.
Proof.
  split.
  - intros l evidence dd answer dd' H. exists fresh, 40, 41. simpl in H. unfold id.
    destruct (create_after_receive _ _ _ _ _ _ _ _ _ _ _) as [[s d]|e]; by injection H as <- <-.
  - intros l dd answer dd' H. exists 39. by injection H as <- <-.
Qed.

Definition the_app : @PaykitAppId Example_lib.example_lib := PAYKIT_APP_ID.

Notation run := (exec handler (reconcile_and_create_payment_drain Some id Some (resource_creator lock) the_app lock) start).

(** The record of the example proposal. *)
Definition record_terms (t : PaymentRequestTerms) : CanonicalTerms :=
  mk_CanonicalTerms false (amount_value (terms_amount t)) (amount_asset (terms_amount t)) (terms_conversion t)
    (reference_str (terms_reference t)) (terms_proposal_expires_at t) (terms_payment_deadline_at t)
    (identifier_str <$> terms_identifiers t)
    ((λ l, list_to_map ((λ e : EndpointIdentifier * string, (identifier_str e.1, e.2)) <$> l)) <$> terms_endpoints t)
    (terms_metadata t).

Lemma record_laws : RecordLaws record_terms.
Proof.
  split; simpl; try done.
  - by intros v a x [= <-].
  - intros s x. unfold Example_lib.nonempty. destruct (str_is_empty s); [done|]. by intros [= <-].
  - intros s x. unfold Example_lib.nonempty. destruct (str_is_empty s); [done|]. by intros [= <-].
  - intros s x. unfold Example_lib.nonempty. destruct (str_is_empty s); [done|]. by intros [= <-].
  - by intros input terms [= <-].
Qed.

Definition reader_intent : DeliveryIntentV1 :=
  mk_DeliveryIntentV1 2 "pubkytkrq8" PAYKIT_APP_ID (PaymentRequestProposal Example_lib.example_terms).

Definition sdk_terms : PaymentRequestTerms :=
  match PaymentTermsV1_to_sdk Example_lib.example_terms with
  | Ok t => t
  | Err _ => mk_TermsInput _ _ _ _ _ ("", "") "" [] None None None None None tt
  end.

Definition record : PaymentRequestRecord (Peer := string) :=
  mk_PaymentRequestRecord "r1" "tkrq8" (Some Payee) (Some the_app) (Some (record_terms sdk_terms))
    (Known Accepted) (Some "e1") (Some "e2") None None [] (Some 11) (Some 4) (Some 11) (Some (1700000000, 5)).
End Example_service.

Import Example_service Example_drains.
#[local] Existing Instance Example_drains.drain_primitives.

Lemma drained_only_after_hearing_readers_witness :
  ∃ snap dd' tr, run = (Ok snap, dd', tr) ∧ sn_replayed snap = false
    ∧ ∃ s0 creator_id targets fresh now clock,
        creator_of_hash (dd_db s0) (lock_creator_hash crypto lock) = Some creator_id
        ∧ create_after_receive crypto from_bytes to_bytes str_compare (λ _, 0) s0 lock targets fresh now clock = Ok (snap, dd').
Proof.
  assert (match run with (Ok snap, _, _) => negb (sn_replayed snap) | _ => false end = true) as Hok
    by (vm_compute; reflexivity).
  destruct run as [[[snap|] dd'] tr] eqn:Hrun; [|discriminate Hok]. apply negb_true_iff in Hok.
  exists snap, dd', tr. split; [reflexivity|]. split; [exact Hok|].
  destruct (@drained_only_after_hearing_readers _ _ _ crypto _ _ Some id Some from_bytes to_bytes str_compare (λ _, 0) _
    handler id handler_drains _ _ _ _ _ _ _ Hrun Hok) as (s0 & c & t & f & n & k & Hc & Hcreate & _).
  exists s0, c, t, f, n, k. split; [exact Hc|exact Hcreate].
Defined.

Lemma proposal_projection_roundtrip_witness :
  ∃ p, lifecycle_projection id Some record = Ok p
    ∧ matches_proposal reader_intent (pc_reader_pubky (lp_proposal p)) (pc_proposal_app_id (lp_proposal p))
        (pc_terms (lp_proposal p)) = true.
Proof.
  assert (validate reader_intent = Ok tt) as H1 by (vm_compute; reflexivity).
  assert (PaymentTermsV1_to_sdk Example_lib.example_terms = Ok sdk_terms) as H2 by (vm_compute; reflexivity).
  assert (event_instant Some (1700000000, 5) = Ok 1700000000000000005) as H3 by (vm_compute; reflexivity).
  destruct (@proposal_projection_roundtrip _ _ string id Some record_terms record_laws reader_intent
    Example_lib.example_terms sdk_terms the_app record Accepted (1700000000, 5) 1700000000000000005
    H1 eq_refl H2 eq_refl eq_refl eq_refl eq_refl eq_refl eq_refl eq_refl H3) as (p & Hp & _ & _ & _ & Hm).
  exists p. split; [exact Hp|exact Hm].
Defined.

Lemma cleanup_token_roundtrip_witness :
  ∃ answers, all_runs (http_drain_cleanup (b64 := Example_base64.example_base64) (Peer := string) false example_resource
    (re_cleanup_token (drain_response (b64 := Example_base64.example_base64) (summary crypto (mk_Snapshot 50 0 0 0 0 true true)))))
    answers [].
Proof.
  eexists. refine (proj2 (proj2 (@cleanup_token_roundtrip _ _ string _ Example_base64.example_base64
    Example_base64.example_base64_laws crypto (mk_Snapshot 50 0 0 0 0 true true) example_resource _ _ _))).
  - intros key message. apply be_bytes_length.
  - reflexivity.
Defined.
