(* ===== verification/Creators.v ===== *)
(** * Creators: encrypted creator authority ([persistence/creators.rs])

    A creator row seals the credentials a setup approved: the session secret, the
    delegated identity key with its generation, and the receiving details.  Setup may
    replace them, but the identity key only moves forward and receiving details are never
    removed; a changed Bitcoin account goes through the rotation ([Rotation]).  The row
    also counts the derived addresses and the generations of the Bitcoin account.

    The tables are those of [Drains] and the columns it does not have.  [postcard] and the
    SDK's identity keys are parameters; identifiers and nonces are arguments. *)

From S2P Require Import Prelude Text Locks Invoice Receiving Payment Lifecycle Pricing Intent Database OutboxStore Crypto Observations LifecycleStore Drains Sorting.
Local Open Scope string_scope.
Local Open Scope Z_scope.

(** [paykit_sdk::PaykitIdentitySecretKey]: a 32-byte secret with its generation. *)
Class IdentityKeys := {
  IdentityKey : Type;
  #[global] identity_key_eq_dec :: EqDecision IdentityKey;
  identity_key_new : string → Z → option IdentityKey;
  identity_key_bytes : IdentityKey → string;
  key_generation : IdentityKey → Z;
}.

(** A key is rebuilt from what its accessors return. *)
Class IdentityKeyLaws (keys : IdentityKeys) :=
  identity_key_rebuild : ∀ k, identity_key_new (identity_key_bytes k) (key_generation k) = Some k.

(** [CreatorCredentialsV1], the sealed layout. *)
Record CreatorCredentialsV1 := mk_CreatorCredentialsV1 {
  wc_version : Z;
  wc_creator : string;
  wc_session_secret : string;
  wc_paykit_identity_secret : string;
  wc_key_generation : Z;
  wc_bitcoin_account : option BitcoinAccount;
  wc_usdt_address : option string;
}.

(** [postcard] on that layout. *)
Class CredentialCodec := {
  credentials_to_bytes : CreatorCredentialsV1 → option string;
  credentials_from_bytes : string → option CreatorCredentialsV1;
}.

Class CredentialCodecLaws (codec : CredentialCodec) :=
  credentials_reread : ∀ w bytes,
    credentials_to_bytes w = Some bytes → credentials_from_bytes bytes = Some w.

(** ** Tables *)

Record CreatorColumns := mk_CreatorColumns {
  cc_credential_envelope : string;
  cc_setup_complete : bool;
  cc_next_child_index : Z;
  cc_bitcoin_account_generation : Z;
}.

(** [reader_assignments] *)
Record AssignmentRow := mk_AssignmentRow {
  as_creator_id : RowId;
  as_reader_lookup_hash : string;
  as_bundle_lookup_hash : string;
  as_assignment_envelope : string;
}.

(** Columns of [invoices] only the allocation and the rotation use. *)
Record AllocationColumns := mk_AllocationColumns {
  ix_payment_request_lookup_hash : string;
  ix_invoice_envelope : string;
  ix_derivation_index_lookup_hash : string;
  ix_proposal_expires_at : Z;
  ix_proposal_acceptance_seconds : Z;
  ix_payment_window_seconds : Z;
  ix_bitcoin_account_generation : option Z;
}.

(** [creator_bitcoin_account_rotations] *)
Record RotationRow := mk_RotationRow {
  rr_creator_id : RowId;
  rr_from_generation : Z;
  rr_to_generation : Z;
  rr_cancellation_count : Z;
  rr_voided_preparation_count : Z;
}.

(** Columns of [invoice_provider_v2] next to the threshold and the deadline. *)
Record ProviderColumns := mk_ProviderColumns {
  px_request_hash : string;
  px_proposal_expires_at : Z;
}.

Record AccountDb := mk_AccountDb {
  ac_dd : DrainDb;
  ac_creators : gmap RowId CreatorColumns;
  ac_assignments : gmap RowId AssignmentRow;
  ac_invoices : gmap RowId AllocationColumns;
  ac_preparation_generations : gmap RowId Z;   (* marketplace_payment_preparations: bitcoin_account_generation *)
  ac_rotations : gmap RowId RotationRow;
  ac_address_owners : gmap string LifecycleOwner;   (* bitcoin_address_owners *)
  ac_provider : gmap RowId ProviderColumns;
}.

Definition ac_db (ac : AccountDb) : Db := dd_db (ac_dd ac).

Definition set_ac_dd (ac : AccountDb) (dd : DrainDb) : AccountDb :=
  mk_AccountDb dd (ac_creators ac) (ac_assignments ac) (ac_invoices ac) (ac_preparation_generations ac)
    (ac_rotations ac) (ac_address_owners ac) (ac_provider ac).

Definition set_ac_creators (ac : AccountDb) (t : gmap RowId CreatorColumns) : AccountDb :=
  mk_AccountDb (ac_dd ac) t (ac_assignments ac) (ac_invoices ac) (ac_preparation_generations ac)
    (ac_rotations ac) (ac_address_owners ac) (ac_provider ac).

Definition set_creator_hashes (db : Db) (t : gmap RowId string) : Db :=
  mk_Db (outbox db) t (invoices db) (generations db) (preparations db) (lifecycles db) (provider_v2 db).

(** [UPDATE creators SET credential_envelope = ..] *)
Definition with_credential_envelope (c : CreatorColumns) (envelope : string) : CreatorColumns :=
  mk_CreatorColumns envelope (cc_setup_complete c) (cc_next_child_index c) (cc_bitcoin_account_generation c).

(** ** Advisory locks *)

(** [i64::from_be_bytes] *)
Fixpoint be_value (acc : Z) (s : string) : Z :=
  match s with
  | EmptyString => acc
  | String c s => be_value (acc * 256 + Z.of_N (N_of_ascii c)) s
  end.

Definition i64_from_be_bytes (s : string) : Z :=
  let n := be_value 0 s in
  if n <=? i64_max then n else n - 2 ^ 64.

Definition creator_lock_key (lookup_hash : string) : result PersistenceError Z :=
  ensure (Nat.eqb (String.length lookup_hash) 32) PE_CorruptOrMissing;;
  Ok (i64_from_be_bytes (str_take 8 lookup_hash)).

Section credentials.
Context {core : LocksCore} {keys : IdentityKeys} {codec : CredentialCodec}.

Record CreatorCredentials := mk_CreatorCredentials {
  cred_creator : CreatorPubky;
  cred_session_secret : string;
  cred_paykit_identity_secret : IdentityKey;
  cred_bitcoin_account : option BitcoinAccount;
  cred_usdt_address : option UsdtAddress;
}.

(** Rejects account removal, key rollback and key substitution within a generation. *)
Definition validate_reauthentication (current replacement : CreatorCredentials) : result PersistenceError unit :=
  let key := cred_paykit_identity_secret current in
  let next := cred_paykit_identity_secret replacement in
  ensure (negb (negb (bool_decide (cred_creator current = cred_creator replacement))
                || (is_some (cred_bitcoin_account current) && is_none (cred_bitcoin_account replacement))
                || (is_some (cred_usdt_address current)
                    && negb (bool_decide (cred_usdt_address current = cred_usdt_address replacement)))
                || (key_generation next <? key_generation key)
                || ((key_generation next =? key_generation key) && negb (bool_decide (next = key)))))
    PE_ReauthenticationMismatch.

Definition bitcoin_account_changed (current replacement : CreatorCredentials) : bool :=
  negb (bool_decide (cred_bitcoin_account current = cred_bitcoin_account replacement)).

Definition credentials_encode (c : CreatorCredentials) : result PersistenceError string :=
  ok_or (credentials_to_bytes (mk_CreatorCredentialsV1 1 (creator_to_string (cred_creator c)) (cred_session_secret c)
           (identity_key_bytes (cred_paykit_identity_secret c)) (key_generation (cred_paykit_identity_secret c))
           (cred_bitcoin_account c) (usdt_as_str <$> cred_usdt_address c))) PE_CorruptOrMissing.

(** The deserialiser checks the USDT address ([serde(try_from = "String")]). *)
Definition credentials_decode (bytes : string) : result PersistenceError CreatorCredentials :=
  wire ← ok_or (credentials_from_bytes bytes) PE_CorruptOrMissing;
  usdt ← map_err (λ _, PE_CorruptOrMissing) (transpose (usdt_try_from <$> wc_usdt_address wire));
  ensure (wc_version wire =? 1) PE_CorruptOrMissing;;
  creator ← map_err (λ _, PE_CorruptOrMissing) (parse_creator (wc_creator wire));
  key ← ok_or (identity_key_new (wc_paykit_identity_secret wire) (wc_key_generation wire)) PE_CorruptOrMissing;
  Ok (mk_CreatorCredentials creator (wc_session_secret wire) key (wc_bitcoin_account wire) usdt).
End credentials.

(** ** [CreatorStore] *)

Section store.
Context {core : LocksCore} {keys : IdentityKeys} {codec : CredentialCodec} {prim : CryptoPrimitives}.
Context (crypto : Crypto).

Definition creator_hash_of (creator : CreatorPubky) : string := lookup_hash crypto (creator_to_string creator).

(** A row of [creators] with all its columns. *)
Definition creator_row (ac : AccountDb) (id : RowId) : option (string * CreatorColumns) :=
  match creators (ac_db ac) !! id, ac_creators ac !! id with
  | Some hash, Some columns => Some (hash, columns)
  | _, _ => None
  end.

(** [SELECT .. FROM creators WHERE creator_lookup_hash = $1] *)
Definition creator_row_of_hash (ac : AccountDb) (hash : string) : option (RowId * string * CreatorColumns) :=
  id ← creator_of_hash (ac_db ac) hash;
  '(stored, columns) ← creator_row ac id;
  Some (id, stored, columns).

(** The row is authenticated against the identity it holds. *)
Definition decrypt_credentials (id : RowId) (stored_hash envelope : string) :
    result PersistenceError CreatorCredentials :=
  hash ← stored_lookup_hash stored_hash;
  plaintext ← map_err (λ _, PE_CorruptOrMissing) (decrypt crypto (ctx_creator_credentials hash id) envelope);
  credentials ← credentials_decode plaintext;
  ensure (String.eqb (creator_hash_of (cred_creator credentials)) hash) PE_CorruptOrMissing;;
  Ok credentials.

(** [create]: the primary key and [UNIQUE (creator_lookup_hash)]. *)
Definition creator_create (ac : AccountDb) (credentials : CreatorCredentials) (id : RowId) (nonce : string) :
    result PersistenceError (RowId * AccountDb) :=
  let hash := creator_hash_of (cred_creator credentials) in
  bytes ← credentials_encode credentials;
  envelope ← map_err (λ _, PE_CorruptOrMissing)
    (encrypt crypto nonce (ctx_creator_credentials hash id) bytes);
  ensure (is_none (creators (ac_db ac) !! id) && is_none (creator_of_hash (ac_db ac) hash)) PE_Unavailable;;
  Ok (id, set_ac_creators (set_ac_dd ac (set_dd_db (ac_dd ac)
              (set_creator_hashes (ac_db ac) (<[id := hash]> (creators (ac_db ac))))))
            (<[id := mk_CreatorColumns envelope false 0 0]> (ac_creators ac))).

(** [SELECT id FROM creators WHERE setup_complete ORDER BY id] *)
Definition ready_ids (ac : AccountDb) : list RowId :=
  (sort_by id_compare (filter (λ kv, Is_true (cc_setup_complete kv.2)) (map_to_list (ac_creators ac)))).*1.

Definition mark_setup_complete (ac : AccountDb) (creator : CreatorPubky) : AccountDb :=
  match creator_row_of_hash ac (creator_hash_of creator) with
  | Some (id, _, c) => set_ac_creators ac (<[id := mk_CreatorColumns (cc_credential_envelope c) true
      (cc_next_child_index c) (cc_bitcoin_account_generation c)]> (ac_creators ac))
  | None => ac
  end.

Definition setup_complete (ac : AccountDb) (creator : CreatorPubky) : bool :=
  match creator_row_of_hash ac (creator_hash_of creator) with
  | Some (_, _, c) => cc_setup_complete c
  | None => false
  end.

Definition load_with_id (ac : AccountDb) (creator : CreatorPubky) :
    result PersistenceError (RowId * CreatorCredentials) :=
  '(id, hash, c) ← ok_or (creator_row_of_hash ac (creator_hash_of creator)) PE_CorruptOrMissing;
  credentials ← decrypt_credentials id hash (cc_credential_envelope c);
  Ok (id, credentials).

Definition creator_load (ac : AccountDb) (creator : CreatorPubky) : result PersistenceError CreatorCredentials :=
  '(id, hash, c) ← ok_or (creator_row_of_hash ac (creator_hash_of creator)) PE_CorruptOrMissing;
  decrypt_credentials id hash (cc_credential_envelope c).

Definition load_with_bitcoin_account_generation (ac : AccountDb) (creator : CreatorPubky) :
    result PersistenceError (CreatorCredentials * Z) :=
  '(id, hash, c) ← ok_or (creator_row_of_hash ac (creator_hash_of creator)) PE_CorruptOrMissing;
  ensure (0 <=? cc_bitcoin_account_generation c) PE_CorruptOrMissing;;
  credentials ← decrypt_credentials id hash (cc_credential_envelope c);
  Ok (credentials, cc_bitcoin_account_generation c).

Definition load_by_id (ac : AccountDb) (creator_id : RowId) : result PersistenceError CreatorCredentials :=
  '(hash, c) ← ok_or (creator_row ac creator_id) PE_CorruptOrMissing;
  decrypt_credentials creator_id hash (cc_credential_envelope c).

Definition load_optional (ac : AccountDb) (creator : CreatorPubky) :
    result PersistenceError (option CreatorCredentials) :=
  transpose ((λ '(id, hash, c), decrypt_credentials id hash (cc_credential_envelope c))
               <$> creator_row_of_hash ac (creator_hash_of creator)).

Definition reauthenticate (ac : AccountDb) (replacement : CreatorCredentials) (nonce : string) :
    result PersistenceError AccountDb :=
  '(id, hash, c) ← ok_or (creator_row_of_hash ac (creator_hash_of (cred_creator replacement))) PE_CorruptOrMissing;
  existing ← decrypt_credentials id hash (cc_credential_envelope c);
  validate_reauthentication existing replacement;;
  ensure (negb (bitcoin_account_changed existing replacement)) PE_ReauthenticationMismatch;;
  bytes ← credentials_encode replacement;
  hash ← stored_lookup_hash hash;
  envelope ← map_err (λ _, PE_CorruptOrMissing)
    (encrypt crypto nonce (ctx_creator_credentials hash id) bytes);
  Ok (set_ac_creators ac (<[id := with_credential_envelope c envelope]> (ac_creators ac))).

Definition scan_integrity (ac : AccountDb) : result PersistenceError unit :=
  collect (λ '(id, c),
    '(hash, c) ← ok_or (creator_row ac id) PE_CorruptOrMissing;
    decrypt_credentials id hash (cc_credential_envelope c))
    (sort_by id_compare (map_to_list (ac_creators ac)));;
  Ok tt.

(** The key of the advisory lock, by identity and by row. *)
Definition setup_lock_key (creator : CreatorPubky) : result PersistenceError Z :=
  creator_lock_key (creator_hash_of creator).

Definition setup_lock_key_for_creator_id (ac : AccountDb) (creator_id : RowId) : result PersistenceError Z :=
  hash ← ok_or (creators (ac_db ac) !! creator_id) PE_CorruptOrMissing;
  creator_lock_key hash.
End store.

(** ** Theorems *)

Section theorems.
Context {core : LocksCore} {keys : IdentityKeys} {codec : CredentialCodec} {prim : CryptoPrimitives}.
Context {key_laws : IdentityKeyLaws keys} {codec_laws : CredentialCodecLaws codec} {laws : CryptoLaws prim}.
Context {canonical : CanonicalDisplay RawCreatorPubky} (crypto : Crypto).

(** The receiving address is one the parser produced. *)
Definition usdt_valid (c : CreatorCredentials) : Prop :=
  ∀ a, cred_usdt_address c = Some a → usdt_try_from (usdt_as_str a) = Ok a.

Lemma parse_creator_display c : parse_creator (creator_to_string c) = Ok c.
Proof. destruct c as [raw]. unfold parse_creator. simpl. by rewrite parse_canonical_display. Qed.

Lemma credentials_reencode c bytes :
  usdt_valid c → credentials_encode c = Ok bytes → credentials_decode bytes = Ok c.
Proof.
  unfold credentials_encode, credentials_decode. intros Hu Hb%ok_or_ok. rewrite (credentials_reread _ _ Hb). simpl.
  assert (transpose (usdt_try_from <$> (usdt_as_str <$> cred_usdt_address c)) = Ok (cred_usdt_address c)) as ->.
  { destruct (cred_usdt_address c) as [a|] eqn:E; [|done]. simpl. by rewrite (Hu _ E). }
  simpl. rewrite parse_creator_display. simpl. rewrite identity_key_rebuild. by destruct c.
Qed.

(** What was sealed for a row opens in that row. *)
Lemma sealed_credentials_open id nonce c bytes envelope :
  usdt_valid c → String.length (creator_hash_of crypto (cred_creator c)) = 32%nat → String.length nonce = NONCE_LENGTH →
  credentials_encode c = Ok bytes →
  encrypt crypto nonce (ctx_creator_credentials (creator_hash_of crypto (cred_creator c)) id) bytes = Ok envelope →
  decrypt_credentials crypto id (creator_hash_of crypto (cred_creator c)) envelope = Ok c.
Proof.
  intros Hu Hlen Hn Hb He. unfold decrypt_credentials, stored_lookup_hash. rewrite Hlen. simpl.
  rewrite (decrypt_encrypt _ _ _ _ _ Hn He). simpl. rewrite (credentials_reencode _ _ Hu Hb). simpl.
  by rewrite String.eqb_refl.
Qed.

Lemma creator_of_hash_insert db id hash :
  creators db !! id = None → creator_of_hash db hash = None →
  creator_of_hash (set_creator_hashes db (<[id := hash]> (creators db))) hash = Some id.
Proof.
  unfold creator_of_hash. intros Hid Hnone. simpl.
  destruct (select_one _ (creators db)) as [?|] eqn:E; [done|].
  rewrite (select_one_unique _ _ id hash); [done|by rewrite lookup_insert_eq|apply String.eqb_refl|].
  intros k h [[<- <-]|[Hne Hk]]%lookup_insert_Some Hh; [done|].
  by rewrite (select_one_none _ _ E _ _ Hk) in Hh.
Qed.

(** The row of a creator after its columns were written. *)
Lemma creator_row_written ac' hash id c :
  creator_of_hash (ac_db ac') hash = Some id → ac_creators ac' !! id = Some c →
  creators (ac_db ac') !! id = Some hash → creator_row_of_hash ac' hash = Some (id, hash, c).
Proof. intros Hid Hc Hh. unfold creator_row_of_hash, creator_row. rewrite Hid. simpl. by rewrite Hh, Hc. Qed.

(** a creator's authority is stored losslessly.  After [create], every way of loading
    the creator (by identity, by row, with its account generation, optionally) returns
    exactly the credentials that were stored, the account generation is the first one and
    setup is not complete; a second creation of the same identity is refused. *)
Theorem creator_authority_roundtrip ac credentials id nonce id' ac' :
  usdt_valid credentials → String.length nonce = NONCE_LENGTH →
  String.length (creator_hash_of crypto (cred_creator credentials)) = 32%nat →
  creator_create crypto ac credentials id nonce = Ok (id', ac') →
  creator_load crypto ac' (cred_creator credentials) = Ok credentials
  ∧ load_with_id crypto ac' (cred_creator credentials) = Ok (id, credentials)
  ∧ load_by_id crypto ac' id = Ok credentials
  ∧ load_optional crypto ac' (cred_creator credentials) = Ok (Some credentials)
  ∧ load_with_bitcoin_account_generation crypto ac' (cred_creator credentials) = Ok (credentials, 0)
  ∧ setup_complete crypto ac' (cred_creator credentials) = false
  ∧ (∀ other id2 nonce2, cred_creator other = cred_creator credentials →
       is_ok (creator_create crypto ac' other id2 nonce2) = false).
Proof.
  intros Hu Hn Hlen H. unfold creator_create in H. cbv zeta in H.
  apply bind_ok in H as (bytes & Hb & H). apply bind_ok in H as (envelope & He%map_err_ok & H).
  apply bind_ok in H as (? & Hg%ensure_ok & [= <- <-]). apply andb_true_iff in Hg as [Hid Hh].
  set (hash := creator_hash_of crypto (cred_creator credentials)) in *.
  assert (creators (ac_db ac) !! id = None) as Hid' by (by destruct (creators (ac_db ac) !! id)).
  assert (creator_of_hash (ac_db ac) hash = None) as Hh' by (by destruct (creator_of_hash _ _)).
  pose proof (sealed_credentials_open _ _ _ _ _ Hu Hlen Hn Hb He) as Hopen. fold hash in Hopen.
  set (ac' := set_ac_creators _ _).
  assert (creator_row_of_hash ac' hash = Some (id, hash, mk_CreatorColumns envelope false 0 0)) as Hrow.
  { apply creator_row_written.
    - exact (creator_of_hash_insert (ac_db ac) id hash Hid' Hh').
    - simpl. by rewrite lookup_insert_eq.
    - unfold ac', ac_db, dd_db. simpl. by rewrite lookup_insert_eq. }
  unfold creator_load, load_with_id, load_optional, load_with_bitcoin_account_generation, setup_complete.
  fold hash. rewrite Hrow. simpl. rewrite Hopen. split_and!; try done.
  - unfold load_by_id, creator_row, ac', ac_db, dd_db. simpl. by rewrite !lookup_insert_eq.
  - intros other id2 nonce2 Hsame. unfold creator_create. cbv zeta. rewrite Hsame. fold hash.
    destruct (credentials_encode other) as [b|e]; [|done]. simpl. destruct (map_err _ (encrypt crypto nonce2 _ b)); [|done].
    unfold creator_row_of_hash in Hrow. destruct (creator_of_hash (ac_db ac') hash); [|done].
    simpl. by rewrite andb_false_r.
Qed.

(** authority only moves forward.  A successful reauthentication replaced exactly the
    stored credentials of that creator: the identity is the same, the key generation does
    not decrease and within one generation the key is the same, the Bitcoin account is
    unchanged and a USDT address is never dropped or changed; what is loaded afterwards is
    exactly the replacement; the child index, the account generation and the readiness
    are untouched, and so is every other creator. *)
Theorem reauthentication_monotone ac replacement nonce ac' :
  usdt_valid replacement → String.length nonce = NONCE_LENGTH →
  reauthenticate crypto ac replacement nonce = Ok ac' →
  ∃ id existing c,
    load_with_id crypto ac (cred_creator replacement) = Ok (id, existing)
    ∧ load_with_id crypto ac' (cred_creator replacement) = Ok (id, replacement)
    ∧ cred_creator existing = cred_creator replacement
    ∧ key_generation (cred_paykit_identity_secret existing) <= key_generation (cred_paykit_identity_secret replacement)
    ∧ (key_generation (cred_paykit_identity_secret existing) = key_generation (cred_paykit_identity_secret replacement) →
       cred_paykit_identity_secret existing = cred_paykit_identity_secret replacement)
    ∧ cred_bitcoin_account existing = cred_bitcoin_account replacement
    ∧ (is_some (cred_usdt_address existing) = true → cred_usdt_address replacement = cred_usdt_address existing)
    ∧ ac_creators ac !! id = Some c
    ∧ (∃ envelope, ac' = set_ac_creators ac (<[id := with_credential_envelope c envelope]> (ac_creators ac)))
    ∧ (∀ other, other ≠ id → load_by_id crypto ac' other = load_by_id crypto ac other).
Proof.
  intros Hu Hn H. unfold reauthenticate in H.
  apply bind_ok in H as ([[id stored] c] & Hrow%ok_or_ok & H). apply bind_ok in H as (existing & Hex & H).
  apply bind_ok in H as (? & Hv & H). apply bind_ok in H as (? & Hbtc%ensure_ok & H).
  apply bind_ok in H as (bytes & Hb & H). apply bind_ok in H as (hash & Hh & H).
  apply bind_ok in H as (envelope & He%map_err_ok & [= <-]).
  unfold creator_row_of_hash in Hrow. destruct (creator_of_hash _ _) as [id0|] eqn:Hid; [|done]. simpl in Hrow.
  unfold creator_row in Hrow. destruct (creators (ac_db ac) !! id0) as [h|] eqn:Hch; [|done].
  destruct (ac_creators ac !! id0) as [c0|] eqn:Hc; [|done]. simplify_eq/=.
  assert (stored = creator_hash_of crypto (cred_creator replacement)) as ->.
  { unfold creator_of_hash in Hid. destruct (select_one _ _) as [[k h]|] eqn:E; [|done]. simplify_eq/=.
    apply select_one_some in E as [E ->%String.eqb_eq]. congruence. }
  unfold stored_lookup_hash in Hh. apply bind_ok in Hh as (? & Hlen%ensure_ok%Nat.eqb_eq & [= <-]).
  pose proof (sealed_credentials_open _ _ _ _ _ Hu Hlen Hn Hb He) as Hopen.
  exists id, existing, c.
  unfold validate_reauthentication, bitcoin_account_changed in *. apply ensure_ok in Hv. split_bools.
  unfold load_with_id, creator_row_of_hash, creator_row. rewrite Hid. simpl. rewrite Hch, Hc. simpl. rewrite Hex. simpl.
  change (ac_db (set_ac_creators ac _)) with (ac_db ac). rewrite Hid. simpl. rewrite Hch, lookup_insert_eq. simpl.
  rewrite Hopen. simpl. split_and!; try done; try lia.
  - intros Heq. rewrite Heq, Z.eqb_refl in *. simpl in *. split_bools. done.
  - intros Hs. rewrite Hs in *. simpl in *. by split_bools.
  - by exists envelope.
  - intros other Hne. unfold load_by_id, creator_row. simpl. by rewrite lookup_insert_ne.
Qed.
End theorems.

(** ** Witnesses *)

Module Example_creators.
(** Identifiers that are their own texts, keys that are their parts. *)
#[export] Instance plain_ident : Identifier string := {| from_str := Some; to_string := id |}.

#[export] Instance plain_core : LocksCore := {|
  RawCreatorPubky := string;
  RawBundleId := string;
  RawPubkyLockResource := string;
  raw_creator_ident := plain_ident;
  raw_bundle_ident := plain_ident;
  raw_resource_ident := plain_ident;
  raw_creator := id;
|}.

Lemma plain_canonical : @CanonicalDisplay string plain_ident.
Proof. intros s. reflexivity. Qed.

#[export] Instance pair_keys : IdentityKeys := {|
  IdentityKey := string * Z;
  identity_key_new bytes generation := Some (bytes, generation);
  identity_key_bytes := fst;
  key_generation := snd;
|}.

Lemma pair_keys_laws : IdentityKeyLaws pair_keys.
Proof. intros [bytes generation]. reflexivity. Qed.

Definition credentials (generation : Z) : CreatorCredentials :=
  mk_CreatorCredentials (mk_CreatorPubky ("creator" : RawCreatorPubky)) "session" (("key", generation) : IdentityKey)
    (Some (mk_BitcoinAccount "xpub" 0)) None.

Definition wire (generation : Z) : CreatorCredentialsV1 :=
  mk_CreatorCredentialsV1 1 "creator" "session" "key" generation (Some (mk_BitcoinAccount "xpub" 0)) None.

(** A codec for the credentials of the example, by generation. *)
#[export] Instance wire_codec : CredentialCodec := {|
  credentials_to_bytes w :=
    if in_u64 (wc_key_generation w) && String.eqb (wc_paykit_identity_secret w) "key" && String.eqb (wc_creator w) "creator"
       && String.eqb (wc_session_secret w) "session" && (wc_version w =? 1) && is_none (wc_usdt_address w)
       && bool_decide (wc_bitcoin_account w = Some (mk_BitcoinAccount "xpub" 0))
    then Some (fmt_dec (wc_key_generation w)) else None;
  credentials_from_bytes s := wire <$> parse_u64 s;
|}.

Lemma wire_codec_laws : CredentialCodecLaws wire_codec.
Proof.
  intros [v c s k g b u] bytes. simpl. unfold in_u64. destruct (_ && _) eqn:E; [|done]. intros [= <-]. split_bools.
  rewrite parse_u64_fmt_dec by lia. subst. simpl. by destruct u.
Qed.

(** A keyed hash of 32 bytes. *)
#[export] Instance hash32 : CryptoPrimitives := {|
  hkdf_expand key label := Some (key ++ label);
  aead_encrypt := @aead_encrypt Example_crypto.example_primitives;
  aead_decrypt := @aead_decrypt Example_crypto.example_primitives;
  hmac_sha256 key x := str_take 32 (key ++ x ++ repeat_char "0" 32);
|}.

Lemma hash32_laws : CryptoLaws hash32.
Proof.
  pose proof Example_crypto.example_laws as L. split; [exact (@aead_roundtrip _ L)|exact (@aead_tag _ L)].
Qed.

Definition crypto : Crypto := Example_crypto.example_crypto.

Definition nonce : string := repeat_char "n" 24.

Definition no_creators : AccountDb :=
  mk_AccountDb (mk_DrainDb (mk_LifecycleDb (mk_Db ∅ ∅ ∅ ∅ ∅ ∅ ∅) ∅ ∅ ∅ ∅)
    (mk_PaymentDb ∅ ∅ ∅ ∅ ∅ ∅ ∅ ∅) ∅ ∅ ∅ [] ∅) ∅ ∅ ∅ ∅ ∅ ∅ ∅.

Definition stored : AccountDb :=
  match creator_create crypto no_creators (credentials 1) 7 nonce with Ok (_, ac) => ac | Err _ => no_creators end.

Lemma stored_created : creator_create crypto no_creators (credentials 1) 7 nonce = Ok (7%N, stored).
Proof. vm_compute. reflexivity. Qed.

Lemma no_usdt generation : usdt_valid (credentials generation).
Proof. intros a H. discriminate H. Qed.
End Example_creators.
Import Example_creators.

Lemma creator_authority_roundtrip_witness :
  creator_load crypto stored (mk_CreatorPubky ("creator" : RawCreatorPubky)) = Ok (credentials 1).
Proof.
  exact (proj1 (@creator_authority_roundtrip plain_core pair_keys wire_codec hash32 pair_keys_laws wire_codec_laws hash32_laws plain_canonical crypto
    no_creators (credentials 1) 7%N nonce 7%N stored (no_usdt 1) eq_refl eq_refl stored_created)).
Defined.

Lemma reauthentication_monotone_witness :
  ∃ ac', reauthenticate crypto stored (credentials 2) nonce = Ok ac' ∧ ∃ id existing,
    load_with_id crypto stored (mk_CreatorPubky ("creator" : RawCreatorPubky)) = Ok (id, existing)
    ∧ key_generation (cred_paykit_identity_secret existing) <= 2.
Proof.
  assert (is_ok (reauthenticate crypto stored (credentials 2) nonce) = true) as Hok by (vm_compute; reflexivity).
  destruct (reauthenticate crypto stored (credentials 2) nonce) as [ac'|e] eqn:E; [|discriminate Hok].
  exists ac'. split; [reflexivity|].
  destruct (@reauthentication_monotone plain_core pair_keys wire_codec hash32 pair_keys_laws wire_codec_laws hash32_laws plain_canonical crypto
    stored (credentials 2) nonce ac' (no_usdt 2) eq_refl E) as (id & existing & c & Hl & _ & _ & Hg & _).
  exists id, existing. split; [exact Hl|exact Hg].
Defined.
