(* ===== verification/Allocation.v ===== *)
(** * Allocation: the transaction that creates an invoice ([persistence/invoices.rs])

    One transaction resolves the creator under a row lock, answers an exact replay from
    what is stored, refuses a rotated account and a drained lock, and otherwise derives
    the payload of the creator's next child index, stores the reader assignment, the
    invoice and the queued proposal, and advances the index.  The clock reading, the
    generated identifiers, nonces and payment reference are arguments; an error leaves the
    tables as they were.  Notifying the outbox worker after the commit happens exactly
    when the result is not a replay. *)

From S2P Require Import Prelude Text Locks Invoice Receiving Payment Lifecycle Pricing Intent Readers Database OutboxStore CreateInvoice PaymentRecord Crypto Observations LifecycleStore Drains Status Creators Sorting.
Local Open Scope string_scope.
Local Open Scope Z_scope.

(** The last instant of [time::OffsetDateTime]: 9999-12-31T23:59:59.999999999Z. *)
Definition instant_max : Z := 253402300799999999999.

(** [OffsetDateTime::checked_add] of a non-negative number of seconds. *)
Definition checked_add_seconds (instant seconds : Z) : option Z :=
  let t := instant + seconds * NANOS_PER_SECOND in
  if t <=? instant_max then Some t else None.

(** [ReaderAssignmentV1] *)
Record ReaderAssignmentV1 := mk_ReaderAssignmentV1 {
  ra_version : Z;
  ra_child_index : Z;
}.

Record Assignment := mk_Assignment {
  asg_id : RowId;
  asg_child_index : Z;
}.

(** [postcard] on the two records of the transaction. *)
Class AllocationCodec := {
  assignment_to_bytes : ReaderAssignmentV1 → option string;
  assignment_from_bytes : string → option ReaderAssignmentV1;
  record_to_bytes : InvoicePaymentRecordV1 → option string;
}.

Class AllocationCodecLaws {observations : ObservationCodec} (codec : AllocationCodec) := {
  assignment_reread : ∀ a bytes, assignment_to_bytes a = Some bytes → assignment_from_bytes bytes = Some a;
  record_reread : ∀ r bytes, record_to_bytes r = Some bytes → decode_payment_record bytes = Some r;
}.

Definition set_db_invoices (db : Db) (t : gmap RowId InvoiceRow) : Db :=
  mk_Db (outbox db) (creators db) t (generations db) (preparations db) (lifecycles db) (provider_v2 db).

Definition set_bundles (dd : DrainDb) (t : gmap RowId string) : DrainDb :=
  let lb := dd_life dd in
  mk_DrainDb (mk_LifecycleDb (ld_db lb) (ld_cursors lb) (ld_settlements lb) (ld_preparation_creators lb) t)
    (dd_pay dd) (dd_drains dd) (dd_items dd) (dd_cancellations dd) (dd_rotation_items dd) (dd_cleanup_tokens dd).

Definition set_assignments (ac : AccountDb) (t : gmap RowId AssignmentRow) : AccountDb :=
  mk_AccountDb (ac_dd ac) (ac_creators ac) t (ac_invoices ac) (ac_preparation_generations ac) (ac_rotations ac)
    (ac_address_owners ac) (ac_provider ac).

(** The row of [invoices], over the tables that hold its columns. *)
Record NewInvoice := mk_NewInvoice {
  ni_row : InvoiceRow;
  ni_bundle_lookup_hash : string;
  ni_columns : InvoiceColumns;
  ni_allocation : AllocationColumns;
}.

Definition undetected : ProjectionColumns := mk_ProjectionColumns "undetected" 0 false None None None.

Definition bundle_taken (ac : AccountDb) (creator_id : RowId) (bundle_hash : string) : bool :=
  exists_row (λ id i, bool_decide (i_creator_id i = creator_id)
                      && bool_decide (ld_bundles (dd_life (ac_dd ac)) !! id = Some bundle_hash)) (invoices (ac_db ac)).

Definition derivation_taken (ac : AccountDb) (creator_id : RowId) (hash : string) : bool :=
  exists_row (λ id i, bool_decide (i_creator_id i = creator_id)
                      && match ac_invoices ac !! id with
                         | Some x => String.eqb (ix_derivation_index_lookup_hash x) hash
                         | None => false
                         end) (invoices (ac_db ac)).

Definition payment_request_taken (ac : AccountDb) (hash : string) : bool :=
  exists_row (λ _ x, String.eqb (ix_payment_request_lookup_hash x) hash) (ac_invoices ac).

(** The [UNIQUE] and [CHECK] constraints and the trigger that claims the address. *)
Definition invoice_insertable (ac : AccountDb) (id : RowId) (n : NewInvoice) : bool :=
  let c := ni_columns n in
  let x := ni_allocation n in
  let creator_id := i_creator_id (ni_row n) in
  is_none (invoices (ac_db ac) !! id)
  && negb (bundle_taken ac creator_id (ni_bundle_lookup_hash n))
  && negb (derivation_taken ac creator_id (ix_derivation_index_lookup_hash x))
  && negb (payment_request_taken ac (ix_payment_request_lookup_hash x))
  && match iv_address_lookup_hash c with
     | Some hash => is_none (ac_address_owners ac !! hash)
     | None => true
     end
  && (iv_created_at c <? iv_payment_deadline c)
  && (0 <? ix_proposal_acceptance_seconds x)
  && (ix_proposal_acceptance_seconds x <? ix_payment_window_seconds x)
  && (ix_proposal_expires_at x <? iv_payment_deadline c)
  && (0 <=? i_lock_resource_generation (ni_row n))
  && match ix_bitcoin_account_generation x with Some g => 0 <=? g | None => true end.

(** [INSERT INTO invoices] *)
Definition insert_invoice (ac : AccountDb) (id : RowId) (n : NewInvoice) : result PersistenceError AccountDb :=
  ensure (invoice_insertable ac id n) PE_Conflict;;
  let dd := ac_dd ac in
  let dd := set_dd_db dd (set_db_invoices (dd_db dd) (<[id := ni_row n]> (invoices (dd_db dd)))) in
  let dd := set_bundles dd (<[id := ni_bundle_lookup_hash n]> (ld_bundles (dd_life dd))) in
  let dd := set_pay dd (set_invoices (dd_pay dd)
              (<[id := mk_PaymentInvoice (ni_columns n) undetected]> (t_invoices (dd_pay dd)))) in
  Ok (mk_AccountDb dd (ac_creators ac) (ac_assignments ac) (<[id := ni_allocation n]> (ac_invoices ac))
        (ac_preparation_generations ac) (ac_rotations ac)
        (match iv_address_lookup_hash (ni_columns n) with
         | Some hash => <[hash := OwnerInvoice id]> (ac_address_owners ac)
         | None => ac_address_owners ac
         end) (ac_provider ac)).

(** [INSERT INTO reader_assignments]: any failure is a conflict. *)
Definition insert_assignment (ac : AccountDb) (id : RowId) (row : AssignmentRow) : result PersistenceError AccountDb :=
  ensure (is_none (ac_assignments ac !! id)
          && negb (exists_row (λ _ a, bool_decide (as_creator_id a = as_creator_id row)
                                      && String.eqb (as_reader_lookup_hash a) (as_reader_lookup_hash row)
                                      && String.eqb (as_bundle_lookup_hash a) (as_bundle_lookup_hash row))
                     (ac_assignments ac))) PE_Conflict;;
  Ok (set_assignments ac (<[id := row]> (ac_assignments ac))).

(** [UPDATE creators SET next_child_index = next_child_index + 1], a [BIGINT]. *)
Definition advance_child_index (ac : AccountDb) (creator_id : RowId) : result PersistenceError AccountDb :=
  match ac_creators ac !! creator_id with
  | Some c =>
      ensure (cc_next_child_index c <? i64_max) PE_Unavailable;;
      Ok (set_ac_creators ac (<[creator_id := mk_CreatorColumns (cc_credential_envelope c) (cc_setup_complete c)
            (cc_next_child_index c + 1) (cc_bitcoin_account_generation c)]> (ac_creators ac)))
  | None => Ok ac
  end.

Section store.
Context {core : LocksCore} {lib : PaykitLib} {locks : ContentLocks} {bip32 : Bip32}.
Context {prim : CryptoPrimitives} {codec : AllocationCodec} (crypto : Crypto).
(** [postcard] on intents *)
Context (from_bytes : string → option DeliveryIntentV1) (to_bytes : DeliveryIntentV1 → option string).
(** [serde_json], as in [CreateInvoice] and [PaymentRecord] *)
Context (json_object : list (string * string) → string) (metadata_object : list (string * string) → Metadata).
Context {Json : Type} (json_from_str : string → option Json)
  (json_value : Json → option string) (json_is_object : Json → list (string * string) → bool).
Context (static_app : PaykitAppId).
(** [OffsetDateTime::format(&Rfc3339)] *)
Context (format_rfc3339 : Z → option string).

(** ** Reads *)

Definition encrypt_assignment (creator_hash : string) (id : RowId) (nonce : string) (child_index : Z) :
    result PersistenceError string :=
  bytes ← ok_or (assignment_to_bytes (mk_ReaderAssignmentV1 1 child_index)) PE_CorruptOrMissing;
  map_err (λ _, PE_CorruptOrMissing) (encrypt crypto nonce (ctx_reader_assignment creator_hash id) bytes).

Definition decrypt_assignment (creator_hash : string) (id : RowId) (envelope : string) :
    result PersistenceError Z :=
  bytes ← map_err (λ _, PE_CorruptOrMissing) (decrypt crypto (ctx_reader_assignment creator_hash id) envelope);
  assignment ← ok_or (assignment_from_bytes bytes) PE_CorruptOrMissing;
  ensure ((ra_version assignment =? 1) && (0 <=? ra_child_index assignment)) PE_CorruptOrMissing;;
  Ok (ra_child_index assignment).

Definition assignment_row (ac : AccountDb) (creator_id : RowId) (reader_hash bundle_hash : string) :
    option (RowId * AssignmentRow) :=
  select_one (λ _ a, bool_decide (as_creator_id a = creator_id)
                     && String.eqb (as_reader_lookup_hash a) reader_hash
                     && String.eqb (as_bundle_lookup_hash a) bundle_hash) (ac_assignments ac).

Definition load_assignment (ac : AccountDb) (creator_id : RowId) (reader_hash bundle_hash creator_hash : string) :
    result PersistenceError (option Assignment) :=
  transpose ((λ '(id, row),
    child_index ← decrypt_assignment creator_hash id (as_assignment_envelope row);
    Ok (mk_Assignment id child_index)) <$> assignment_row ac creator_id reader_hash bundle_hash).

Definition validate_intent (intent : DeliveryIntentV1) (reader : ReaderPubky) : result PersistenceError unit :=
  map_err (λ _, PE_CorruptOrMissing) (validate intent);;
  ensure (String.eqb (reader_pubky intent) (reader_to_string reader)) PE_CorruptOrMissing.

(** The intent sealed in an invoice. *)
Definition open_invoice (creator_hash : string) (invoice_id : RowId) (envelope : string) :
    result PersistenceError DeliveryIntentV1 :=
  plaintext ← map_err (λ _, PE_CorruptOrMissing) (decrypt crypto (ctx_invoice creator_hash invoice_id) envelope);
  map_err (λ _, PE_CorruptOrMissing) (decode from_bytes plaintext).

Definition validate_replay_intent (creator_hash : string) (invoice_id : RowId) (envelope : string)
    (reader : ReaderPubky) : result PersistenceError unit :=
  intent ← open_invoice creator_hash invoice_id envelope;
  validate_intent intent reader.

(** [WHERE creator_id = $1 AND bundle_lookup_hash = $2] *)
Definition existing_invoice (ac : AccountDb) (creator_id : RowId) (bundle_hash : string) :
    option (RowId * PaymentInvoice * AllocationColumns) :=
  '(id, _) ← select_one (λ id i, bool_decide (i_creator_id i = creator_id)
                 && bool_decide (ld_bundles (dd_life (ac_dd ac)) !! id = Some bundle_hash)) (invoices (ac_db ac));
  pay ← t_invoices (dd_pay (ac_dd ac)) !! id;
  x ← ac_invoices ac !! id;
  Some (id, pay, x).

Definition is_provider_v2 (ac : AccountDb) (invoice_id : RowId) : bool :=
  bool_decide (invoice_id ∈ provider_v2 (ac_db ac)).

Definition preflight (ac : AccountDb) (creator : CreatorPubky) (bundle_binding payment_request_binding : string) :
    InvoicePreflight :=
  match (creator_id ← creator_of_hash (ac_db ac) (creator_hash_of crypto creator);
         existing_invoice ac creator_id (lookup_hash crypto bundle_binding)) with
  | None => PreflightNew
  | Some (id, _, x) =>
      if negb (is_provider_v2 ac id)
         && String.eqb (ix_payment_request_lookup_hash x) (lookup_hash crypto payment_request_binding)
      then PreflightExactReplay else PreflightConflict
  end.

(** [WHERE invoice_id = $1 AND intent_kind = 'payment_request_proposal'] *)
Definition payment_outbox (ac : AccountDb) (invoice_id : RowId) : option RowId :=
  option_map fst (select_one (λ _ r, bool_decide (o_invoice_id (o_key r) = Some invoice_id)
                     && kind_is (o_intent_kind (o_key r)) PaymentRequestProposalKind) (outbox (ac_db ac))).

(** What a replay answers, from the stored rows. *)
Definition replay_result (ac : AccountDb) (creator_id : RowId) (creator_hash reader_hash bundle_hash payment_hash : string)
    (reader : ReaderPubky) (existing : RowId * PaymentInvoice * AllocationColumns) :
    result PersistenceError AtomicInvoiceResult :=
  let '(invoice_id, pay, x) := existing in
  ensure (negb (is_provider_v2 ac invoice_id)
          && String.eqb (ix_payment_request_lookup_hash x) payment_hash) PE_Conflict;;
  validate_replay_intent creator_hash invoice_id (ix_invoice_envelope x) reader;;
  loaded ← load_assignment ac creator_id reader_hash bundle_hash creator_hash;
  assignment ← ok_or loaded PE_CorruptOrMissing;
  outbox_id ← ok_or (payment_outbox ac invoice_id) PE_CorruptOrMissing;
  Ok (mk_AtomicInvoiceResult invoice_id outbox_id (asg_id assignment) (asg_child_index assignment)
        (iv_created_at (iv_columns pay)) (iv_payment_deadline (iv_columns pay)) true).

Definition exact_replay (ac : AccountDb) (creator : CreatorPubky) (reader : ReaderPubky)
    (bundle_binding payment_binding : string) : result PersistenceError AtomicInvoiceResult :=
  let creator_hash := creator_hash_of crypto creator in
  '(creator_id, stored, _) ← ok_or (creator_row_of_hash ac creator_hash) PE_CorruptOrMissing;
  hash ← stored_lookup_hash stored;
  ensure (String.eqb hash creator_hash) PE_CorruptOrMissing;;
  existing ← ok_or (existing_invoice ac creator_id (lookup_hash crypto bundle_binding)) PE_CorruptOrMissing;
  replay_result ac creator_id creator_hash (lookup_hash crypto (reader_to_string reader))
    (lookup_hash crypto bundle_binding) (lookup_hash crypto payment_binding) reader existing.

(** ** [create_atomic] *)

(** The random values of one creation. *)
Record AllocationFresh := mk_AllocationFresh {
  af_reference : string;
  af_assignment_id : RowId;
  af_assignment_nonce : string;
  af_invoice_id : RowId;
  af_record_nonce : string;
  af_invoice_nonce : string;
  af_outbox_id : RowId;
  af_outbox_nonce : string;
}.

(** The two windows, in seconds. *)
Definition validated_windows (input : AtomicInvoiceInput) : result PersistenceError (Z * Z) :=
  let acceptance := ai_proposal_acceptance_seconds input in
  let window := ai_payment_window_seconds input in
  ensure (acceptance <=? i64_max) PE_InvalidInput;;
  ensure (window <=? i64_max) PE_InvalidInput;;
  ensure (negb ((acceptance =? 0) || (window <=? acceptance))) PE_InvalidInput;;
  Ok (acceptance, window).

(** The payload of the next child index, with the deadlines of this creation. *)
Definition allocated_intent (input : AtomicInvoiceInput) (reference : string) (child_index : Z)
    (proposal_expires_at payment_deadline : Z) : result PersistenceError DeliveryIntentV1 :=
  intent ← for_child_index json_object metadata_object static_app (ai_payloads input) reference child_index;
  proposal ← ok_or (format_rfc3339 proposal_expires_at) PE_InvalidInput;
  payment ← ok_or (format_rfc3339 payment_deadline) PE_InvalidInput;
  let '(intent, outcome) := set_deadlines intent proposal payment in
  map_err (λ _, PE_CorruptOrMissing) outcome;;
  validate_intent intent (ai_reader input);;
  from_intent json_from_str json_value json_is_object child_index intent;;
  Ok intent.

(** The envelopes and hashes of the new invoice. *)
Definition sealed_invoice (input : AtomicInvoiceInput) (creator_id : RowId) (creator_hash lock_hash : string)
    (generation child_index now proposal_expires_at payment_deadline acceptance window : Z)
    (account_generation : Z) (fresh : AllocationFresh) (intent : DeliveryIntentV1) (plaintext : string) :
    result PersistenceError NewInvoice :=
  let id := af_invoice_id fresh in
  record ← from_intent json_from_str json_value json_is_object child_index intent;
  record_plaintext ← ok_or (record_to_bytes record) PE_CorruptOrMissing;
  record_envelope ← map_err (λ _, PE_CorruptOrMissing)
    (encrypt crypto (af_record_nonce fresh) (ctx_invoice_payment_record creator_hash id) record_plaintext);
  let address_hash := (λ d, bitcoin_address_lookup_hash crypto (pd_address d)) <$> pr_bitcoin record in
  let derivation_hash := bitcoin_derivation_index_lookup_hash crypto creator_hash child_index in
  invoice_envelope ← map_err (λ _, PE_CorruptOrMissing)
    (encrypt crypto (af_invoice_nonce fresh) (ctx_invoice creator_hash id) plaintext);
  Ok (mk_NewInvoice (mk_InvoiceRow creator_id lock_hash generation payment_deadline)
        (lookup_hash crypto (ai_bundle_binding input))
        (mk_InvoiceColumns creator_id creator_hash (lookup_hash crypto (reader_to_string (ai_reader input)))
           record_envelope address_hash now payment_deadline)
        (mk_AllocationColumns (lookup_hash crypto (ai_payment_request_binding input)) invoice_envelope
           derivation_hash proposal_expires_at acceptance window
           ((λ _, account_generation) <$> expected_bitcoin_account_generation (ai_payloads input)))).

(** The part of the transaction behind the replay check. *)
Definition allocate (ac : AccountDb) (input : AtomicInvoiceInput) (creator_id : RowId) (creator_hash : string)
    (creator : CreatorColumns) (fresh : AllocationFresh)
    (now proposal_expires_at payment_deadline acceptance window : Z) :
    result PersistenceError (AtomicInvoiceResult * AccountDb) :=
  let reader_hash := lookup_hash crypto (reader_to_string (ai_reader input)) in
  let bundle_hash := lookup_hash crypto (ai_bundle_binding input) in
  let lock_hash := lookup_hash crypto (ai_lock_resource_binding input) in
  ensure (match expected_bitcoin_account_generation (ai_payloads input) with
          | Some expected => expected =? cc_bitcoin_account_generation creator
          | None => true
          end) PE_Conflict;;
  let ac := set_ac_dd ac (ensure_generation (ac_dd ac) creator_id lock_hash) in
  generation ← ok_or (generations (ac_db ac) !! (creator_id, lock_hash)) PE_Unavailable;
  ensure (0 <=? g_current_generation generation) PE_CorruptOrMissing;;
  ensure (is_none (g_active_drain_id generation)) PE_Conflict;;
  loaded ← load_assignment ac creator_id reader_hash bundle_hash creator_hash;
  ensure (is_none loaded) PE_CorruptOrMissing;;
  let child_index := cc_next_child_index creator in
  intent ← allocated_intent input (af_reference fresh) child_index proposal_expires_at payment_deadline;
  envelope ← encrypt_assignment creator_hash (af_assignment_id fresh) (af_assignment_nonce fresh) child_index;
  ac ← insert_assignment ac (af_assignment_id fresh) (mk_AssignmentRow creator_id reader_hash bundle_hash envelope);
  ac ← advance_child_index ac creator_id;
  reference ← map_err (λ _, PE_CorruptOrMissing) (proposal_payment_reference intent);
  let proposal_hash := payment_request_proposal_lookup_hash crypto reference in
  plaintext ← ok_or (to_bytes intent) PE_CorruptOrMissing;
  new ← sealed_invoice input creator_id creator_hash lock_hash (g_current_generation generation) child_index
          now proposal_expires_at payment_deadline acceptance window (cc_bitcoin_account_generation creator)
          fresh intent plaintext;
  ac ← insert_invoice ac (af_invoice_id fresh) new;
  outbox_envelope ← map_err (λ _, PE_CorruptOrMissing)
    (encrypt crypto (af_outbox_nonce fresh) (ctx_outbox_semantic_intent creator_hash (af_outbox_id fresh)) plaintext);
  let '(inserted, db) := insert_outbox (ac_db ac) (af_outbox_id fresh) creator_id (af_invoice_id fresh)
                           outbox_envelope PaymentRequestProposalKind (Some proposal_hash) now in
  inserted;;
  Ok (mk_AtomicInvoiceResult (af_invoice_id fresh) (af_outbox_id fresh) (af_assignment_id fresh) child_index now
        payment_deadline false, set_ac_dd ac (set_dd_db (ac_dd ac) db)).

Definition create_atomic (ac : AccountDb) (input : AtomicInvoiceInput) (fresh : AllocationFresh) (now : Z) :
    result PersistenceError (AtomicInvoiceResult * AccountDb) :=
  let creator_hash := creator_hash_of crypto (ai_creator input) in
  let bundle_hash := lookup_hash crypto (ai_bundle_binding input) in
  '(acceptance, window) ← validated_windows input;
  '(creator_id, stored, creator) ← ok_or (creator_row_of_hash ac creator_hash) PE_CorruptOrMissing;
  hash ← stored_lookup_hash stored;
  ensure (String.eqb hash creator_hash) PE_CorruptOrMissing;;
  proposal_expires_at ← ok_or (checked_add_seconds now acceptance) PE_InvalidInput;
  payment_deadline ← ok_or (checked_add_seconds now window) PE_InvalidInput;
  match existing_invoice ac creator_id bundle_hash with
  | Some existing =>
      result ← replay_result ac creator_id creator_hash (lookup_hash crypto (reader_to_string (ai_reader input)))
                 bundle_hash (lookup_hash crypto (ai_payment_request_binding input)) (ai_reader input) existing;
      Ok (result, ac)
  | None => allocate ac input creator_id creator_hash creator fresh now proposal_expires_at payment_deadline
              acceptance window
  end.
End store.
