(* ===== verification/Provider.v ===== *)
(** * Provider: the signed provider contract
    ([persistence/invoices/provider_v2.rs], [application/provider_v2.rs],
    [http/provider_v2.rs])

    The second invoice contract: Bitcoin only, with a deadline and a confirmation threshold
    the caller chooses.  Its invoices live in the same tables, are identified by the hash
    of the canonical request, and carry a binding that the observation transaction reads.  The
    service asks the store before every external call whether the deadline is still
    ahead.  [serde_json_canonicalizer] and [blake3] are parameters. *)

From S2P Require Import Prelude Text Effects Locks Invoice Receiving Payment Lifecycle Pricing Intent Readers Database OutboxStore CreateInvoice PaymentRecord Crypto Observations LifecycleStore Drains Status Creators Allocation Sorting Api.
Local Open Scope string_scope.
Local Open Scope Z_scope.

(** ** Values *)

Record ProviderV2CreateResult := mk_ProviderV2CreateResult {
  pc_invoice_id : RowId;
  pc_invoice_created_at : Z;
  pc_proposal_expires_at : Z;
  pc_deadline : Z;
  pc_replayed : bool;
}.

Record ProviderV2Status := mk_ProviderV2Status {
  ps_creator : string;
  ps_bundle_id : string;
  ps_request_state : PaymentRequestLifecycleState;
  ps_payment_state : string;
  ps_invoice_created_at : Z;
  ps_proposal_expires_at : Z;
  ps_deadline : Z;
  ps_minimum_confirmations : Z;
  ps_current_sample : option ProviderV2Sample;
  ps_first_threshold_satisfied : option ProviderV2Sample;
}.

Inductive ProviderV2Error :=
| Pv_InvalidRequest
| Pv_Conflict
| Pv_DeadlineElapsed
| Pv_CreatorSessionInvalid
| Pv_CreatorSessionUnavailable
| Pv_ReaderSetupPending
| Pv_ReaderNotPayable
| Pv_ReaderRegistryUnavailable
| Pv_ReaderRegistryMalformed
| Pv_Unavailable.

#[global] Instance ProviderV2Error_eq_dec : EqDecision ProviderV2Error.
Proof. solve_decision. Defined.

Definition provider_map_error (error : ProviderV2Error) : ApiError :=
  match error with
  | Pv_InvalidRequest => Api_InvalidRequest
  | Pv_Conflict => Api_InvoiceConflict
  | Pv_DeadlineElapsed => Api_DeadlineElapsed
  | Pv_CreatorSessionInvalid => Api_CreatorSessionInvalid
  | Pv_CreatorSessionUnavailable => Api_CreatorSessionUnavailable
  | Pv_ReaderSetupPending => Api_ReaderSetupPending
  | Pv_ReaderNotPayable => Api_ReaderNotPayable
  | Pv_ReaderRegistryUnavailable => Api_ReaderRegistryUnavailable
  | Pv_ReaderRegistryMalformed => Api_ReaderRegistryMalformed
  | Pv_Unavailable => Api_DependencyUnavailable
  end.

(** The body of a creation, with the fields of its [payment] object. *)
Record CreateBody := mk_CreateBody {
  cb_bundle_id : string;
  cb_lock_resource : string;
  cb_reader : string;
  cb_recipient_pubky : string;
  cb_amount : string;
  cb_asset : string;
  cb_minimum_confirmations : Z;
  cb_deadline : string;
}.

Record SampleResponse := mk_SampleResponse {
  sm_observed_at : string;
  sm_status : string;
  sm_outpoint : option (string * Z);
  sm_confirmations : Z;
  sm_amount_matched : bool;
}.

Record StatusResponse := mk_StatusResponse {
  sp_creator : string;
  sp_bundle_id : string;
  sp_request_state : string;
  sp_payment_state : string;
  sp_invoice_created_at : string;
  sp_proposal_expires_at : string;
  sp_deadline : string;
  sp_asset : string;
  sp_minimum_confirmations : Z;
  sp_current_sample : option SampleResponse;
  sp_first_threshold_satisfied : option SampleResponse;
}.

(** The first instant of [time::OffsetDateTime]: -9999-01-01T00:00:00Z. *)
Definition instant_min : Z := -377705116800000000000.

(** [checked_sub(Duration::microseconds(1))] *)
Definition checked_sub_microsecond (instant : Z) : option Z :=
  if instant_min <=? instant - 1000 then Some (instant - 1000) else None.

(** The values [serde_json::json!] builds for the canonical request. *)
Inductive BindingJson :=
| BString (s : string)
| BNumber (n : Z)
| BArray (items : list BindingJson)
| BObject (members : list (string * BindingJson)).

(** ** Statements *)

Definition set_provider (db : Db) (t : gset RowId) : Db :=
  mk_Db (outbox db) (creators db) (invoices db) (generations db) (preparations db) (lifecycles db) t.

Definition set_bindings (pay : PaymentDb) (t : gmap RowId ProviderBinding) : PaymentDb :=
  mk_PaymentDb (t_invoices pay) (t_observations pay) (t_timely pay) t (t_samples pay) (t_evidence pay) (t_usdt pay)
    (t_contacts pay).

(** The row of [invoice_provider_v2], over the tables that hold its columns. *)
Definition bind_provider (ac : AccountDb) (id : RowId) (columns : ProviderColumns) (binding : ProviderBinding) :
    AccountDb :=
  let dd := set_dd_db (ac_dd ac) (set_provider (ac_db ac) ({[id]} ∪ provider_v2 (ac_db ac))) in
  let dd := set_pay dd (set_bindings (dd_pay dd) (<[id := binding]> (t_provider_v2 (dd_pay dd)))) in
  mk_AccountDb dd (ac_creators ac) (ac_assignments ac) (ac_invoices ac) (ac_preparation_generations ac)
    (ac_rotations ac) (ac_address_owners ac) (<[id := columns]> (ac_provider ac)).

(** [INSERT INTO invoice_provider_v2]: its keys, [CHECK]s and the unique request hash. *)
Definition insert_provider (ac : AccountDb) (id : RowId) (columns : ProviderColumns) (binding : ProviderBinding) :
    result PersistenceError AccountDb :=
  ensure (is_none (ac_provider ac !! id)
          && is_some (invoices (ac_db ac) !! id)
          && Nat.eqb (String.length (px_request_hash columns)) 32
          && (0 <=? pb_minimum_confirmations binding) && (pb_minimum_confirmations binding <=? 6)
          && (px_proposal_expires_at columns <? pb_deadline binding)
          && negb (exists_row (λ _ c, String.eqb (px_request_hash c) (px_request_hash columns)) (ac_provider ac)))
    PE_Conflict;;
  Ok (bind_provider ac id columns binding).

(** The lifecycle state of the query, ranked as in [Status]: rows that tie on the first three keys
    carry the same state, so the fourth, the request identifier, does not matter. *)
Definition provider_request_state (collate : string → string → comparison) (dd : DrainDb) (invoice : RowId) :
    option string :=
  option_map (λ a : PaymentRequestLifecycleState * Z, state_as_str a.1)
    (head (sort_by (lateral_compare collate) (attempts_of_invoice dd invoice))).

(** The status of a sample as it is stored. *)
Definition sample_status_parse (status : string) : result PersistenceError ProviderV2SampleStatus :=
  if String.eqb status "undetected" then Ok V2_Undetected
  else if String.eqb status "detected" then Ok V2_Detected
  else if String.eqb status "confirmed" then Ok V2_Confirmed
  else Err PE_CorruptOrMissing.

(** [u8::try_from] of an [i16] column. *)
Definition try_u8 (x : Z) : result PersistenceError Z :=
  ensure ((0 <=? x) && (x <=? u8_max)) PE_CorruptOrMissing;; Ok x.

Definition reportable (s : PaymentRequestLifecycleState) : bool :=
  match s with RecoveryRequired | InvalidConflict => false | _ => true end.

Section provider.
Context {core : LocksCore} {lib : PaykitLib} {bip32 : Bip32}.
Context {prim : CryptoPrimitives} {observations : ObservationCodec} {codec : AllocationCodec} (crypto : Crypto).
Context (to_bytes : DeliveryIntentV1 → option string).
Context (json_object : list (string * string) → string) (metadata_object : list (string * string) → Metadata).
Context {Json : Type} (json_from_str : string → option Json)
  (json_value : Json → option string) (json_is_object : Json → list (string * string) → bool).
Context (format_rfc3339 : Z → option string).

(** ** Payloads *)

Record ProviderPayloadFactory := mk_ProviderPayloadFactory {
  pf_reader : ReaderPubky;
  pf_bundle_id : BundleId;
  pf_payment : ProviderV2Payment;
  pf_account : BitcoinAccount;
  pf_generation : Z;
  pf_app_id : PaykitAppId;
  pf_network : BitcoinNetwork;
}.

Definition paykit_btc_amount (payment : ProviderV2Payment) : result PersistenceError PaymentAmount :=
  ok_or (amount_new (decimal_amount Btc (amount_sats payment)) "btc") PE_InvalidInput.

(** [ProviderPayloadFactory::for_child_index]; [reference] is the fresh UUID. *)
Definition provider_for_child_index (p : ProviderPayloadFactory) (reference : string) (child_index : Z) :
    result PersistenceError DeliveryIntentV1 :=
  address ← map_err (λ _, PE_CorruptOrMissing)
    (derive_bip84_p2wpkh_address (xpub (pf_account p)) (account_index (pf_account p)) (pf_network p) child_index);
  endpoint ← ok_or (identifier_new (p2wpkh_identifier (pf_network p))) PE_InvalidInput;
  amount ← paykit_btc_amount (pf_payment p);
  sdk_reference ← ok_or (reference_new reference) PE_InvalidInput;
  terms ← ok_or (terms_build {|
    ti_amount := amount;
    ti_reference := sdk_reference;
    ti_identifiers := [endpoint];
    ti_conversion := None;
    ti_proposal_expires_at := None;
    ti_payment_deadline := None;
    ti_required_app_id := Some (pf_app_id p);
    ti_endpoints := Some (endpoint_insert endpoint (json_object [("value", address)]) []);
    ti_metadata := metadata_object [("bundle_id", bundle_to_string (pf_bundle_id p))];
  |}) PE_InvalidInput;
  map_err (λ _, PE_InvalidInput) (payment_request (reader_to_string (pf_reader p)) (pf_app_id p) terms).

Record ProviderV2AtomicInvoiceInput := mk_ProviderV2AtomicInvoiceInput {
  pi_creator : CreatorPubky;
  pi_reader : ReaderPubky;
  pi_bundle_binding : string;
  pi_lock_resource_binding : string;
  pi_request_hash : string;
  pi_deadline : Z;
  pi_minimum_confirmations : Z;
  pi_payloads : ProviderPayloadFactory;
  pi_proposal_acceptance_seconds : Z;
}.

(** ** Reads *)

(** The invoice of a creator and a bundle, with its binding if it has one. *)
Definition provider_existing (ac : AccountDb) (creator_id : RowId) (bundle_hash : string) :
    option (RowId * PaymentInvoice * option (ProviderColumns * ProviderBinding)) :=
  '(id, pay, _) ← existing_invoice ac creator_id bundle_hash;
  Some (id, pay, columns ← ac_provider ac !! id; binding ← t_provider_v2 (dd_pay (ac_dd ac)) !! id;
                 Some (columns, binding)).

Definition provider_v2_preflight (ac : AccountDb) (creator : CreatorPubky) (bundle_binding request_hash : string) :
    InvoicePreflight :=
  match (creator_id ← creator_of_hash (ac_db ac) (creator_hash_of crypto creator);
         provider_existing ac creator_id (lookup_hash crypto bundle_binding)) with
  | None => PreflightNew
  | Some (_, _, Some (columns, _)) =>
      if String.eqb (px_request_hash columns) request_hash then PreflightExactReplay else PreflightConflict
  | Some (_, _, None) => PreflightConflict
  end.

Definition provider_v2_exact_replay (ac : AccountDb) (creator : CreatorPubky) (bundle_binding request_hash : string) :
    result PersistenceError ProviderV2CreateResult :=
  match (creator_id ← creator_of_hash (ac_db ac) (creator_hash_of crypto creator);
         provider_existing ac creator_id (lookup_hash crypto bundle_binding)) with
  | Some (id, pay, Some (columns, binding)) =>
      ensure (String.eqb (px_request_hash columns) request_hash) PE_Conflict;;
      Ok (mk_ProviderV2CreateResult id (iv_created_at (iv_columns pay)) (px_proposal_expires_at columns)
            (pb_deadline binding) true)
  | _ => Err PE_Conflict
  end.

(** [clock_timestamp() < deadline], under the creator's row lock. *)
Definition provider_v2_deadline_gate (ac : AccountDb) (creator : CreatorPubky) (deadline now : Z) :
    result PersistenceError bool :=
  ok_or (creator_of_hash (ac_db ac) (creator_hash_of crypto creator)) PE_CorruptOrMissing;;
  Ok (now <? deadline).

(** ** [create_provider_v2_atomic] *)

(** When the proposal expires: after its window, but before the deadline. *)
Definition provider_expiry (now deadline proposal_seconds : Z) : result PersistenceError Z :=
  ensure (negb (deadline <=? now)) PE_DeadlineElapsed;;
  max_proposal ← ok_or (checked_sub_microsecond deadline) PE_InvalidInput;
  configured_proposal ← ok_or (checked_add_seconds now proposal_seconds) PE_InvalidInput;
  let proposal_expires_at := Z.min configured_proposal max_proposal in
  ensure (negb (proposal_expires_at <? now)) PE_DeadlineElapsed;;
  Ok proposal_expires_at.

(** The payload of the next child index and its accounting record: Bitcoin, and nothing else. *)
Definition provider_intent (input : ProviderV2AtomicInvoiceInput) (reference : string)
    (child_index proposal_expires_at : Z) : result PersistenceError (DeliveryIntentV1 * InvoicePaymentRecordV1) :=
  intent ← provider_for_child_index (pi_payloads input) reference child_index;
  proposal ← ok_or (format_rfc3339 proposal_expires_at) PE_InvalidInput;
  payment ← ok_or (format_rfc3339 (pi_deadline input)) PE_InvalidInput;
  let '(intent, outcome) := set_deadlines intent proposal payment in
  map_err (λ _, PE_CorruptOrMissing) outcome;;
  validate_intent intent (pi_reader input);;
  record ← from_intent json_from_str json_value json_is_object child_index intent;
  ensure (has_bitcoin record && negb (has_usdt record)) PE_InvalidInput;;
  required ← bitcoin_required_amount record;
  ensure (negb (required =? 0)) PE_InvalidInput;;
  Ok (intent, record).

(** The envelopes and hashes of the new invoice. *)
Definition provider_sealed (input : ProviderV2AtomicInvoiceInput) (creator_id : RowId) (creator_hash lock_hash : string)
    (generation child_index now proposal_expires_at account_generation : Z) (fresh : AllocationFresh)
    (record : InvoicePaymentRecordV1) (plaintext : string) : result PersistenceError NewInvoice :=
  let id := af_invoice_id fresh in
  record_plaintext ← ok_or (record_to_bytes record) PE_CorruptOrMissing;
  record_envelope ← map_err (λ _, PE_CorruptOrMissing)
    (encrypt crypto (af_record_nonce fresh) (ctx_invoice_payment_record creator_hash id) record_plaintext);
  invoice_envelope ← map_err (λ _, PE_CorruptOrMissing)
    (encrypt crypto (af_invoice_nonce fresh) (ctx_invoice creator_hash id) plaintext);
  address ← record_bitcoin_address record;
  Ok (mk_NewInvoice (mk_InvoiceRow creator_id lock_hash generation (pi_deadline input))
        (lookup_hash crypto (pi_bundle_binding input))
        (mk_InvoiceColumns creator_id creator_hash (lookup_hash crypto (reader_to_string (pi_reader input)))
           record_envelope (Some (bitcoin_address_lookup_hash crypto address)) now (pi_deadline input))
        (mk_AllocationColumns (pi_request_hash input) invoice_envelope
           (bitcoin_derivation_index_lookup_hash crypto creator_hash child_index) proposal_expires_at 1 2
           (Some account_generation))).

(** The part of the transaction behind the replay check. *)
Definition provider_allocate (ac : AccountDb) (input : ProviderV2AtomicInvoiceInput) (creator_id : RowId)
    (creator_hash : string) (creator : CreatorColumns) (fresh : AllocationFresh) (now proposal_seconds : Z) :
    result PersistenceError (ProviderV2CreateResult * AccountDb) :=
  let reader_hash := lookup_hash crypto (reader_to_string (pi_reader input)) in
  let bundle_hash := lookup_hash crypto (pi_bundle_binding input) in
  let lock_hash := lookup_hash crypto (pi_lock_resource_binding input) in
  proposal_expires_at ← provider_expiry now (pi_deadline input) proposal_seconds;
  ensure (pf_generation (pi_payloads input) =? cc_bitcoin_account_generation creator) PE_Conflict;;
  let ac := set_ac_dd ac (ensure_generation (ac_dd ac) creator_id lock_hash) in
  generation ← ok_or (generations (ac_db ac) !! (creator_id, lock_hash)) PE_Unavailable;
  ensure ((0 <=? g_current_generation generation) && is_none (g_active_drain_id generation)) PE_Conflict;;
  loaded ← load_assignment crypto ac creator_id reader_hash bundle_hash creator_hash;
  ensure (is_none loaded) PE_CorruptOrMissing;;
  let child_index := cc_next_child_index creator in
  '(intent, record) ← provider_intent input (af_reference fresh) child_index proposal_expires_at;
  envelope ← encrypt_assignment crypto creator_hash (af_assignment_id fresh) (af_assignment_nonce fresh) child_index;
  ac ← insert_assignment ac (af_assignment_id fresh) (mk_AssignmentRow creator_id reader_hash bundle_hash envelope);
  ac ← advance_child_index ac creator_id;
  plaintext ← ok_or (to_bytes intent) PE_CorruptOrMissing;
  new ← provider_sealed input creator_id creator_hash lock_hash (g_current_generation generation) child_index now
          proposal_expires_at (cc_bitcoin_account_generation creator) fresh record plaintext;
  reference ← map_err (λ _, PE_CorruptOrMissing) (proposal_payment_reference intent);
  let proposal_hash := payment_request_proposal_lookup_hash crypto reference in
  ac ← insert_invoice ac (af_invoice_id fresh) new;
  ac ← insert_provider ac (af_invoice_id fresh) (mk_ProviderColumns (pi_request_hash input) proposal_expires_at)
         (mk_ProviderBinding (pi_minimum_confirmations input) (pi_deadline input));
  outbox_envelope ← map_err (λ _, PE_CorruptOrMissing)
    (encrypt crypto (af_outbox_nonce fresh) (ctx_outbox_semantic_intent creator_hash (af_outbox_id fresh)) plaintext);
  let '(inserted, db) := insert_outbox (ac_db ac) (af_outbox_id fresh) creator_id (af_invoice_id fresh)
                           outbox_envelope PaymentRequestProposalKind (Some proposal_hash) now in
  inserted;;
  Ok (mk_ProviderV2CreateResult (af_invoice_id fresh) now proposal_expires_at (pi_deadline input) false,
      set_ac_dd ac (set_dd_db (ac_dd ac) db)).

Definition create_provider_v2_atomic (ac : AccountDb) (input : ProviderV2AtomicInvoiceInput) (fresh : AllocationFresh)
    (now : Z) : result PersistenceError (ProviderV2CreateResult * AccountDb) :=
  let creator_hash := creator_hash_of crypto (pi_creator input) in
  let seconds := pi_proposal_acceptance_seconds input in
  ensure (negb ((6 <? pi_minimum_confirmations input) || (seconds =? 0)
                || negb ((pi_deadline input mod NANOS_PER_SECOND) mod 1000 =? 0))) PE_InvalidInput;;
  ensure (seconds <=? i64_max) PE_InvalidInput;;
  '(creator_id, stored, creator) ← ok_or (creator_row_of_hash ac creator_hash) PE_CorruptOrMissing;
  hash ← stored_lookup_hash stored;
  ensure (String.eqb hash creator_hash) PE_CorruptOrMissing;;
  match provider_existing ac creator_id (lookup_hash crypto (pi_bundle_binding input)) with
  | Some (id, pay, existing) =>
      match existing with
      | Some (columns, binding) =>
          ensure (String.eqb (px_request_hash columns) (pi_request_hash input)) PE_Conflict;;
          Ok (mk_ProviderV2CreateResult id (iv_created_at (iv_columns pay)) (px_proposal_expires_at columns)
                (pb_deadline binding) true, ac)
      | None => Err PE_Conflict
      end
  | None => provider_allocate ac input creator_id creator_hash creator fresh now seconds
  end.

(** ** Status *)

(** The five columns of a sample, all null when there is no row. *)
Definition decode_provider_sample (pay : PaymentDb) (invoice_id : RowId) (creator_hash : string)
    (observed_at : option Z) (status : option string) (observation_id : option RowId) (confirmations : option Z)
    (amount_matched : option bool) : result PersistenceError (option ProviderV2Sample) :=
  match observed_at, status, observation_id, confirmations, amount_matched with
  | None, None, None, None, None => Ok None
  | Some observed_at, Some status, observation_id, Some confirmations, Some amount_matched =>
      status ← sample_status_parse status;
      outpoint ← transpose ((λ id,
        row ← ok_or (row ← t_observations pay !! id;
                     if owned_by invoice_id (ob_invoice_id row) then Some row else None) PE_CorruptOrMissing;
        record ← decrypt_observation crypto creator_hash id row;
        parse_canonical_bitcoin_outpoint (bo_outpoint record)) <$> observation_id);
      confirmations ← try_u8 confirmations;
      Some <$> map_err (λ _, PE_CorruptOrMissing)
        (ProviderV2Sample_new observed_at status outpoint confirmations amount_matched)
  | _, _, _, _, _ => Err PE_CorruptOrMissing
  end.

(** The joined columns of one sample table. *)
Definition sample_of (pay : PaymentDb) (invoice_id : RowId) (creator_hash : string) (row : option SampleRow) :
    result PersistenceError (option ProviderV2Sample) :=
  decode_provider_sample pay invoice_id creator_hash (sa_observed_at <$> row) (sa_status <$> row)
    (row ≫= sa_observation_id) (sa_confirmations <$> row) (sa_amount_matched <$> row).

Definition provider_v2_status (collate : string → string → comparison) (ac : AccountDb) (creator : CreatorPubky)
    (bundle_id : BundleId) : result PersistenceError (option ProviderV2Status) :=
  let creator_hash := creator_hash_of crypto creator in
  let pay := dd_pay (ac_dd ac) in
  match (creator_id ← creator_of_hash (ac_db ac) creator_hash;
         provider_existing ac creator_id (lookup_hash crypto (bundle_to_string bundle_id))) with
  | Some (id, invoice, Some (columns, binding)) =>
      stored_lookup_hash creator_hash;;
      current ← sample_of pay id creator_hash (t_samples pay !! id);
      first ← sample_of pay id creator_hash (t_evidence pay !! id);
      let text := match provider_request_state collate (ac_dd ac) id with Some s => s | None => "proposed" end in
      request_state ← ok_or (state ← state_parse text; if reportable state then Some state else None)
                        PE_CorruptOrMissing;
      let payment_state := if is_some (iv_payment_expired_at (iv_projection invoice)) then "expired"
                           else match current with
                                | Some sample => ProviderV2SampleStatus_as_str (sample_status sample)
                                | None => "undetected"
                                end in
      minimum ← try_u8 (pb_minimum_confirmations binding);
      Ok (Some (mk_ProviderV2Status (creator_to_string creator) (bundle_to_string bundle_id) request_state payment_state
            (iv_created_at (iv_columns invoice)) (px_proposal_expires_at columns) (pb_deadline binding) minimum
            current first))
  | _ => Ok None
  end.

(** ** The service ([application/provider_v2.rs]) *)

Record ProviderV2CreateRequest := mk_ProviderV2CreateRequest {
  pr_bundle_id : BundleId;
  pr_lock_resource : PubkyLockResource;
  pr_reader : ReaderPubky;
  pr_payment : ProviderV2Payment;
  pr_deadline : Z;
}.

Record ProviderV2Service := mk_ProviderV2Service {
  pv_app_id : PaykitAppId;
  pv_network : BitcoinNetwork;
  pv_proposal_acceptance_window : Z;   (* nanoseconds *)
}.

Definition provider_map_registry (error : RegistryDiscoveryError) : ProviderV2Error :=
  match error with
  | RegistryInvalidRequest => Pv_InvalidRequest
  | RegistryUnavailable => Pv_ReaderRegistryUnavailable
  | RegistryMalformed => Pv_ReaderRegistryMalformed
  end.

Definition provider_map_store (error : PersistenceError) : ProviderV2Error :=
  match error with
  | PE_Conflict => Pv_Conflict
  | PE_DeadlineElapsed => Pv_DeadlineElapsed
  | PE_InvalidInput => Pv_InvalidRequest
  | _ => Pv_Unavailable
  end.

Definition provider_map_session (error : SessionValidationError) : ProviderV2Error :=
  match error with
  | SessionInvalid => Pv_CreatorSessionInvalid
  | SessionUnavailable => Pv_CreatorSessionUnavailable
  end.

Context (canonical_json : BindingJson → option string) (blake3 : string → string).

Definition canonical_binding (r : ProviderV2CreateRequest) : result ProviderV2Error string :=
  deadline ← ok_or (format_rfc3339 (pr_deadline r)) Pv_InvalidRequest;
  ok_or (canonical_json (BObject
    [("bundle_id", BString (bundle_to_string (pr_bundle_id r)));
     ("lock_resource", BString (resource_to_string (pr_lock_resource r)));
     ("reader", BString (reader_to_string (pr_reader r)));
     ("payment", BObject
        [("recipient_pubky", BString (creator_to_string (resource_creator (pr_lock_resource r))));
         ("amount", BString (amount_lexeme (pr_payment r)));
         ("asset", BString "BTC");
         ("minimum_confirmations", BNumber (minimum_confirmations (pr_payment r)))]);
     ("deadline", BString deadline)])) Pv_InvalidRequest.

Inductive ProviderCall : Type → Type :=
| PvPreflight (creator : CreatorPubky) (bundle hash : string) : ProviderCall (result PersistenceError InvoicePreflight)
| PvExactReplay (creator : CreatorPubky) (bundle hash : string) :
    ProviderCall (result PersistenceError ProviderV2CreateResult)
| PvGate (creator : CreatorPubky) (deadline : Z) : ProviderCall (result PersistenceError bool)
| PvValidateSession (creator : CreatorPubky) : ProviderCall (result SessionValidationError unit)
| PvDiscover (reader : ReaderPubky) : ProviderCall (result RegistryDiscoveryError (option PaykitAppRegistry))
| PvAuthorization (reader : ReaderPubky) : ProviderCall (result RegistryDiscoveryError ReaderAuthorization)
| PvReceiving (creator : CreatorPubky) : ProviderCall (result PersistenceError ReceivingDetails)
| PvCreate (input : ProviderV2AtomicInvoiceInput) : ProviderCall (result PersistenceError ProviderV2CreateResult)
| PvStatus (creator : CreatorPubky) (bundle_id : BundleId) :
    ProviderCall (result PersistenceError (option ProviderV2Status)).

Notation M A := (prog ProviderCall A).

Definition gate (creator : CreatorPubky) (deadline : Z) : M (result ProviderV2Error unit) :=
  answer ⇐ call (PvGate creator deadline);
  Ret (allowed ← map_err provider_map_store answer; ensure allowed Pv_DeadlineElapsed).

(** A call behind the gate, its error mapped. *)
Definition gated {F A} (creator : CreatorPubky) (deadline : Z) (e : ProviderCall (result F A))
    (f : F → ProviderV2Error) : M (result ProviderV2Error A) :=
  _ ←? gate creator deadline;
  answer ⇐ call e;
  Ret (map_err f answer).

Definition payable (registry : option PaykitAppRegistry) : result ProviderV2Error unit :=
  registry ← ok_or registry Pv_ReaderSetupPending;
  ensure (reader_is_capable registry) Pv_ReaderNotPayable.

Definition authorized (a : ReaderAuthorization) : result ProviderV2Error unit :=
  match a with
  | AuthVerified => Ok tt
  | AuthMissing => Err Pv_ReaderSetupPending
  | AuthInvalid => Err Pv_ReaderNotPayable
  end.

(** The transaction's input for a request and the creator's receiving details. *)
Definition provider_input (sv : ProviderV2Service) (r : ProviderV2CreateRequest) (request_hash : string)
    (account : BitcoinAccount) (generation : Z) : ProviderV2AtomicInvoiceInput :=
  mk_ProviderV2AtomicInvoiceInput (resource_creator (pr_lock_resource r)) (pr_reader r)
    (bundle_to_string (pr_bundle_id r)) (resource_to_string (pr_lock_resource r)) request_hash (pr_deadline r)
    (minimum_confirmations (pr_payment r))
    (mk_ProviderPayloadFactory (pr_reader r) (pr_bundle_id r) (pr_payment r) account generation (pv_app_id sv)
       (pv_network sv))
    (pv_proposal_acceptance_window sv / NANOS_PER_SECOND).

(** A new request: every external call directly behind a gate. *)
Definition provider_admission (sv : ProviderV2Service) (r : ProviderV2CreateRequest) (request_hash : string) :
    M (result ProviderV2Error ProviderV2CreateResult) :=
  let creator := resource_creator (pr_lock_resource r) in
  let deadline := pr_deadline r in
  _ ←? gated creator deadline (PvValidateSession creator) provider_map_session;
  registry ←? gated creator deadline (PvDiscover (pr_reader r)) provider_map_registry;
  _ ←? Ret (payable registry);
  authorization ←? gated creator deadline (PvAuthorization (pr_reader r)) provider_map_registry;
  _ ←? Ret (authorized authorization);
  receiving ←? gated creator deadline (PvReceiving creator) provider_map_store;
  account ←? Ret (ok_or (rd_bitcoin receiving) Pv_Unavailable);
  answer ⇐ call (PvCreate (provider_input sv r request_hash account (rd_bitcoin_account_generation receiving)));
  Ret (map_err provider_map_store answer).

Definition provider_create (sv : ProviderV2Service) (r : ProviderV2CreateRequest) :
    M (result ProviderV2Error ProviderV2CreateResult) :=
  let creator := resource_creator (pr_lock_resource r) in
  let bundle := bundle_to_string (pr_bundle_id r) in
  binding ←? Ret (canonical_binding r);
  let request_hash := blake3 binding in
  answer ⇐ call (PvPreflight creator bundle request_hash);
  preflight ←? Ret (map_err provider_map_store answer);
  match preflight with
  | PreflightExactReplay =>
      answer ⇐ call (PvExactReplay creator bundle request_hash);
      Ret (map_err provider_map_store answer)
  | PreflightConflict => Ret (Err Pv_Conflict)
  | PreflightNew => provider_admission sv r request_hash
  end.

Definition provider_status (creator : CreatorPubky) (bundle_id : BundleId) :
    M (result ProviderV2Error (option ProviderV2Status)) :=
  answer ⇐ call (PvStatus creator bundle_id);
  Ret (map_err provider_map_store answer).

(** ** The routes ([http/provider_v2.rs]) *)

(** [OffsetDateTime::parse(.., &Rfc3339)]: the instant and its offset in seconds. *)
Context (parse_offset : string → option (Z * Z)).

Definition parse_create (body : CreateBody) : result ApiError ProviderV2CreateRequest :=
  lock_resource ← map_err (λ _, Api_InvalidRequest) (parse_addressed_lock_resource (cb_lock_resource body));
  '(deadline, offset) ← ok_or (parse_offset (cb_deadline body)) Api_InvalidRequest;
  if negb (offset =? 0) || negb ((deadline mod NANOS_PER_SECOND) mod 1000 =? 0) then Err Api_InvalidRequest
  else
    formatted ← ok_or (format_rfc3339 deadline) Api_InvalidRequest;
    ensure (String.eqb formatted (cb_deadline body)) Api_InvalidRequest;;
    payment ← map_err (λ _, Api_InvalidRequest)
      (ProviderV2Payment_parse (cb_recipient_pubky body) (cb_amount body) (cb_asset body)
         (cb_minimum_confirmations body) (resource_creator lock_resource));
    bundle_id ← map_err (λ _, Api_InvalidRequest) (parse_bundle_id (cb_bundle_id body));
    reader ← map_err (λ _, Api_InvalidRequest) (parse_reader (cb_reader body));
    Ok (mk_ProviderV2CreateRequest bundle_id lock_resource reader payment deadline).

Definition create_response (r : ProviderV2CreateResult) : result ApiError (string * string * string) :=
  created ← ok_or (format_rfc3339 (pc_invoice_created_at r)) Api_InternalError;
  proposal ← ok_or (format_rfc3339 (pc_proposal_expires_at r)) Api_InternalError;
  deadline ← ok_or (format_rfc3339 (pc_deadline r)) Api_InternalError;
  Ok (created, proposal, deadline).

Definition sample_response (s : ProviderV2Sample) : result ApiError SampleResponse :=
  at_ ← ok_or (format_rfc3339 (observed_at s)) Api_InternalError;
  Ok (mk_SampleResponse at_ (ProviderV2SampleStatus_as_str (sample_status s))
        ((λ o, (txid o, vout o)) <$> sample_outpoint s) (sample_confirmations s) (sample_amount_matched s)).

Definition status_response (s : ProviderV2Status) : result ApiError StatusResponse :=
  created ← ok_or (format_rfc3339 (ps_invoice_created_at s)) Api_InternalError;
  proposal ← ok_or (format_rfc3339 (ps_proposal_expires_at s)) Api_InternalError;
  deadline ← ok_or (format_rfc3339 (ps_deadline s)) Api_InternalError;
  current ← transpose (sample_response <$> ps_current_sample s);
  first ← transpose (sample_response <$> ps_first_threshold_satisfied s);
  Ok (mk_StatusResponse (ps_creator s) (ps_bundle_id s) (state_as_str (ps_request_state s)) (ps_payment_state s)
        created proposal deadline "BTC" (ps_minimum_confirmations s) current first).

Definition http_provider_create (sv : ProviderV2Service) (body : CreateBody) :
    M (result ApiError (string * string * string)) :=
  request ←? Ret (parse_create body);
  answer ⇐ provider_create sv request;
  Ret (result ← map_err provider_map_error answer; create_response result).

Definition http_provider_status (creator bundle_id : string) : M (result ApiError StatusResponse) :=
  creator ←? Ret (map_err (λ _, Api_InvalidRequest) (parse_creator creator));
  bundle ←? Ret (map_err (λ _, Api_InvalidRequest) (parse_bundle_id bundle_id));
  answer ⇐ provider_status creator bundle;
  Ret (summary ← map_err provider_map_error answer;
       summary ← ok_or summary Api_InvoiceNotFound;
       status_response summary).
End provider.
