(* ===== verification/Allocated.v ===== *)
(** * Allocated: the rows an allocation stores ([persistence/invoices.rs],
    [persistence/invoices/provider_v2.rs])

    Both invoice contracts write the same rows: the assignment of a Reader and bundle, the
    advanced child index, the invoice and its queued proposal; the provider contract adds
    its binding.  [stored_rows] says what was written, whichever contract wrote it, and
    this file shows that it keeps the tables consistent and can be found again. *)

From S2P Require Import Prelude Text Locks Invoice Receiving Payment Lifecycle Pricing Intent Readers Database OutboxStore CreateInvoice PaymentRecord Crypto Observations LifecycleStore Drains DrainProps Status Creators Allocation Provider Sorting.
Local Open Scope string_scope.
Local Open Scope Z_scope.

(** ** Statements *)

Definition assignment_key (a : AssignmentRow) : RowId * string * string :=
  (as_creator_id a, as_reader_lookup_hash a, as_bundle_lookup_hash a).

Lemma insert_assignment_ok ac id row ac' :
  insert_assignment ac id row = Ok ac' →
  ac_assignments ac !! id = None
  ∧ (∀ k a, ac_assignments ac !! k = Some a → assignment_key a ≠ assignment_key row)
  ∧ ac' = set_assignments ac (<[id := row]> (ac_assignments ac)).
Proof.
  unfold insert_assignment, exists_row. intros H. apply bind_ok in H as (? & Hg%ensure_ok & [= <-]).
  apply andb_true_iff in Hg as [Hid Hg]. destruct (select_one _ _) eqn:E; [done|].
  split; [by destruct (ac_assignments ac !! id)|]. split; [|done].
  intros k a Ha [= H1 H2 H3]. pose proof (select_one_none _ _ E _ _ Ha) as Hf. cbv beta in Hf.
  rewrite H1, H2, H3, bool_decide_true, !String.eqb_refl in Hf by done. done.
Qed.

Definition advanced (c : CreatorColumns) : CreatorColumns :=
  mk_CreatorColumns (cc_credential_envelope c) (cc_setup_complete c) (cc_next_child_index c + 1)
    (cc_bitcoin_account_generation c).

Lemma advance_child_index_ok ac creator_id c ac' :
  ac_creators ac !! creator_id = Some c → advance_child_index ac creator_id = Ok ac' →
  ac' = set_ac_creators ac (<[creator_id := advanced c]> (ac_creators ac)).
Proof.
  unfold advance_child_index. intros -> H. by apply bind_ok in H as (? & _ & [= <-]).
Qed.

Lemma insert_queued_ok db id key required now db' :
  insert_queued db id key required now = (Ok tt, db') →
  outbox db !! id = None ∧ db' = set_outbox db (<[id := queued_row key required now]> (outbox db)).
Proof.
  unfold insert_queued. destruct (outbox db !! id) eqn:E; [done|]. case_match; [|done]. by intros [= <-].
Qed.

Lemma ensure_generation_lookup dd creator_id lock_hash :
  ∃ g, generations (dd_db (ensure_generation dd creator_id lock_hash)) !! (creator_id, lock_hash) = Some g
       ∧ (generations (dd_db dd) !! (creator_id, lock_hash) = Some g
          ∨ generations (dd_db dd) !! (creator_id, lock_hash) = None ∧ g = mk_GenerationRow 0 None).
Proof.
  unfold ensure_generation. destruct (generations (dd_db dd) !! _) as [g|] eqn:E; [by eauto|].
  exists (mk_GenerationRow 0 None). split; [|by right]. simpl. by rewrite lookup_insert_eq.
Qed.

Lemma ensure_generation_frame dd creator_id lock_hash :
  ∃ gs, ensure_generation dd creator_id lock_hash = set_dd_db dd (set_generations (dd_db dd) gs).
Proof.
  unfold ensure_generation. destruct (generations (dd_db dd) !! _); [|by eexists].
  exists (generations (dd_db dd)). by destruct dd as [[[]]].
Qed.

Lemma creator_of_hash_some db hash id :
  creator_of_hash db hash = Some id → creators db !! id = Some hash.
Proof.
  unfold creator_of_hash. destruct (select_one _ _) as [[k h]|] eqn:E; [|done]. intros [= <-].
  by apply select_one_some in E as [E ->%String.eqb_eq].
Qed.

Lemma creator_row_of_hash_some ac hash id stored c :
  creator_row_of_hash ac hash = Some (id, stored, c) →
  creator_of_hash (ac_db ac) hash = Some id ∧ stored = hash ∧ creators (ac_db ac) !! id = Some hash
  ∧ ac_creators ac !! id = Some c.
Proof.
  unfold creator_row_of_hash, creator_row. intros H.
  destruct (creator_of_hash (ac_db ac) hash) as [k|] eqn:E; [|done]. simpl in H.
  pose proof (creator_of_hash_some _ _ _ E) as Hk. rewrite Hk in H.
  destruct (ac_creators ac !! k) eqn:Hc; [|done]. simpl in H. by simplify_eq.
Qed.

Section rows.
Context {prim : CryptoPrimitives} {codec : AllocationCodec} (crypto : Crypto).

(** What a successful allocation found and wrote. *)
Record stored_rows (ac : AccountDb) (creator_id : RowId) (creator_hash : string) (creator : CreatorColumns)
    (reader_hash bundle_hash lock_hash : string) (fresh : AllocationFresh) (now : Z) (provider : bool)
    (proposal_hash assignment_envelope outbox_envelope : string) (new : NewInvoice) (ac' : AccountDb) : Prop := {
  al_unassigned : assignment_row ac creator_id reader_hash bundle_hash = None;
  al_assignment : encrypt_assignment crypto creator_hash (af_assignment_id fresh) (af_assignment_nonce fresh)
    (cc_next_child_index creator) = Ok assignment_envelope;
  al_assignment_fresh : ac_assignments ac !! af_assignment_id fresh = None;
  al_insertable : invoice_insertable ac (af_invoice_id fresh) new = true;
  al_outbox_fresh : outbox (ac_db ac) !! af_outbox_id fresh = None;
  (* the columns of the new invoice *)
  al_new_creator : i_creator_id (ni_row new) = creator_id;
  al_new_reader : iv_reader_lookup_hash (ni_columns new) = reader_hash;
  al_new_bundle : ni_bundle_lookup_hash new = bundle_hash;
  al_new_derivation : ix_derivation_index_lookup_hash (ni_allocation new)
    = bitcoin_derivation_index_lookup_hash crypto creator_hash (cc_next_child_index creator);
  (* the tables afterwards *)
  al_creator_hashes : creators (ac_db ac') = creators (ac_db ac);
  al_provider : provider_v2 (ac_db ac')
    = if provider then {[af_invoice_id fresh]} ∪ provider_v2 (ac_db ac) else provider_v2 (ac_db ac);
  al_lifecycles : lifecycles (ac_db ac') = lifecycles (ac_db ac);
  al_generations : generations (ac_db ac') = generations (dd_db (ensure_generation (ac_dd ac) creator_id lock_hash));
  al_creators : ac_creators ac' = <[creator_id := advanced creator]> (ac_creators ac);
  al_assignments : ac_assignments ac' = <[af_assignment_id fresh := mk_AssignmentRow creator_id reader_hash bundle_hash
    assignment_envelope]> (ac_assignments ac);
  al_invoices : invoices (ac_db ac') = <[af_invoice_id fresh := ni_row new]> (invoices (ac_db ac));
  al_bundles : ld_bundles (dd_life (ac_dd ac')) = <[af_invoice_id fresh := bundle_hash]> (ld_bundles (dd_life (ac_dd ac)));
  al_payments : t_invoices (dd_pay (ac_dd ac')) =
    <[af_invoice_id fresh := mk_PaymentInvoice (ni_columns new) undetected]> (t_invoices (dd_pay (ac_dd ac)));
  al_bindings : t_provider_v2 (dd_pay (ac_dd ac)) ⊆ t_provider_v2 (dd_pay (ac_dd ac'));
  al_provider_columns : ac_provider ac ⊆ ac_provider ac';
  al_allocations : ac_invoices ac' = <[af_invoice_id fresh := ni_allocation new]> (ac_invoices ac);
  al_outboxes : outbox (ac_db ac') = <[af_outbox_id fresh := queued_row (mk_OutboxKey creator_id
    (Some (af_invoice_id fresh)) None PaymentRequestProposalKind outbox_envelope (Some proposal_hash) None) false now]>
    (outbox (ac_db ac));
  al_owners : ac_address_owners ac' = match iv_address_lookup_hash (ni_columns new) with
    | Some hash => <[hash := OwnerInvoice (af_invoice_id fresh)]> (ac_address_owners ac)
    | None => ac_address_owners ac end;
}.

Lemma load_assignment_none ac creator_id reader_hash bundle_hash creator_hash :
  load_assignment crypto ac creator_id reader_hash bundle_hash creator_hash = Ok None →
  assignment_row ac creator_id reader_hash bundle_hash = None.
Proof.
  unfold load_assignment. destruct (assignment_row _ _ _ _) as [[id row]|]; [|done].
  simpl. by destruct (decrypt_assignment _ _ _ _).
Qed.

Lemma insertable_ok ac id new :
  invoice_insertable ac id new = true →
  invoices (ac_db ac) !! id = None
  ∧ (∀ k i, invoices (ac_db ac) !! k = Some i → i_creator_id i = i_creator_id (ni_row new) →
       ld_bundles (dd_life (ac_dd ac)) !! k ≠ Some (ni_bundle_lookup_hash new)).
Proof.
  unfold invoice_insertable, bundle_taken, exists_row. intros H. cbv zeta in H.
  destruct (select_one (λ id i, bool_decide (_ = i_creator_id (ni_row new)) && bool_decide (_ = Some _)) _) eqn:E;
    [by rewrite !andb_false_r in H|].
  destruct (invoices (ac_db ac) !! id); [done|]. split; [done|]. intros k i Hi Hc Hk. pose proof (select_one_none _ _ E _ _ Hi) as Hf. cbv beta in Hf.
  by rewrite Hc, Hk, !bool_decide_true in Hf.
Qed.

Lemma unassigned ac creator_id reader bundle id a :
  assignment_row ac creator_id reader bundle = None → ac_assignments ac !! id = Some a →
  assignment_key a ≠ (creator_id, reader, bundle).
Proof.
  unfold assignment_row, assignment_key. intros E Ha [= H1 H2 H3].
  pose proof (select_one_none _ _ E _ _ Ha) as Hf. cbv beta in Hf.
  by rewrite H1, H2, H3, bool_decide_true, !String.eqb_refl in Hf.
Qed.

(** The writes of an allocation, in their order. *)
Lemma writes_stored ac creator_id creator_hash creator reader_hash bundle_hash lock_hash fresh now (provider : bool)
    proposal_hash assignment_envelope outbox_envelope new columns binding loaded ac2 ac3 ac4 ac5 db :
  let ac1 := set_ac_dd ac (ensure_generation (ac_dd ac) creator_id lock_hash) in
  ac_creators ac !! creator_id = Some creator →
  load_assignment crypto ac1 creator_id reader_hash bundle_hash creator_hash = Ok loaded → is_none loaded = true →
  encrypt_assignment crypto creator_hash (af_assignment_id fresh) (af_assignment_nonce fresh)
    (cc_next_child_index creator) = Ok assignment_envelope →
  insert_assignment ac1 (af_assignment_id fresh) (mk_AssignmentRow creator_id reader_hash bundle_hash assignment_envelope)
    = Ok ac2 →
  advance_child_index ac2 creator_id = Ok ac3 →
  i_creator_id (ni_row new) = creator_id → iv_reader_lookup_hash (ni_columns new) = reader_hash →
  ni_bundle_lookup_hash new = bundle_hash →
  ix_derivation_index_lookup_hash (ni_allocation new)
    = bitcoin_derivation_index_lookup_hash crypto creator_hash (cc_next_child_index creator) →
  insert_invoice ac3 (af_invoice_id fresh) new = Ok ac4 →
  (if provider then insert_provider ac4 (af_invoice_id fresh) columns binding = Ok ac5
                    ∧ t_provider_v2 (dd_pay (ac_dd ac)) !! af_invoice_id fresh = None
   else ac5 = ac4) →
  insert_outbox (ac_db ac5) (af_outbox_id fresh) creator_id (af_invoice_id fresh) outbox_envelope
    PaymentRequestProposalKind (Some proposal_hash) now = (Ok tt, db) →
  stored_rows ac creator_id creator_hash creator reader_hash bundle_hash lock_hash fresh now provider proposal_hash
    assignment_envelope outbox_envelope new (set_ac_dd ac5 (set_dd_db (ac_dd ac5) db)).
Proof.
  cbv zeta. intros Hc Hload Hnone Haenv Hac2 Hac3 H1 H2 H3 H4 Hac4 Hac5 Ho.
  destruct loaded; [done|]. apply load_assignment_none in Hload.
  apply insert_assignment_ok in Hac2 as (Haf & _ & ->).
  apply (advance_child_index_ok _ _ creator) in Hac3; [|done]. subst ac3.
  unfold insert_invoice in Hac4. apply bind_ok in Hac4 as (? & Hins%ensure_ok & [= <-]).
  unfold insert_outbox in Ho. apply insert_queued_ok in Ho as [Hof ->].
  destruct (ensure_generation_frame (ac_dd ac) creator_id lock_hash) as [gs Hgs].
  assert (invoice_insertable ac (af_invoice_id fresh) new = true) as Hins'.
  { rewrite <- Hins. unfold invoice_insertable, bundle_taken, derivation_taken. cbn. unfold ac_db. cbn. by rewrite Hgs. }
  destruct provider; [destruct Hac5 as [Hac5 Hfree]; unfold insert_provider in Hac5;
    apply bind_ok in Hac5 as (? & Hp%ensure_ok & [= <-])|subst ac5].
  - split; try done; unfold ac_db in *; cbn in *; rewrite ?Hgs in *; cbn in *; try done.
    + by rewrite H3.
    + by apply insert_subseteq.
    + apply insert_subseteq. apply andb_true_iff in Hp as [Hp _]. by destruct (ac_provider ac !! _).
  - split; try done; unfold ac_db in *; cbn in *; rewrite ?Hgs in *; cbn in *; try done. by rewrite H3.
Qed.
End rows.

(** ** Consistency of the tables *)

Section wf.
Context {prim : CryptoPrimitives} {codec : AllocationCodec} (crypto : Crypto).

Record account_wf (ac : AccountDb) : Prop := {
  wf_creators : ∀ id, is_Some (creators (ac_db ac) !! id) ↔ is_Some (ac_creators ac !! id);
  wf_hashes : ∀ id id' hash, creators (ac_db ac) !! id = Some hash → creators (ac_db ac) !! id' = Some hash → id = id';
  wf_next : ∀ id c, ac_creators ac !! id = Some c → 0 <= cc_next_child_index c;
  (* every assignment opens to an index below the creator's next one, and to its own *)
  wf_assignment : ∀ id a, ac_assignments ac !! id = Some a → ∃ hash c index,
    creators (ac_db ac) !! as_creator_id a = Some hash ∧ ac_creators ac !! as_creator_id a = Some c
    ∧ decrypt_assignment crypto hash id (as_assignment_envelope a) = Ok index ∧ 0 <= index < cc_next_child_index c;
  wf_index : ∀ id a id' a' hash index, ac_assignments ac !! id = Some a → ac_assignments ac !! id' = Some a' →
    as_creator_id a = as_creator_id a' → creators (ac_db ac) !! as_creator_id a = Some hash →
    decrypt_assignment crypto hash id (as_assignment_envelope a) = Ok index →
    decrypt_assignment crypto hash id' (as_assignment_envelope a') = Ok index → id = id';
  wf_assignment_key : ∀ id a id' a', ac_assignments ac !! id = Some a → ac_assignments ac !! id' = Some a' →
    assignment_key a = assignment_key a' → id = id';
  (* every invoice has all its columns and the assignment of its Reader and bundle *)
  wf_invoice : ∀ id i, invoices (ac_db ac) !! id = Some i → ∃ bundle pay x aid a hash index,
    ld_bundles (dd_life (ac_dd ac)) !! id = Some bundle ∧ t_invoices (dd_pay (ac_dd ac)) !! id = Some pay
    ∧ ac_invoices ac !! id = Some x ∧ ac_assignments ac !! aid = Some a
    ∧ assignment_key a = (i_creator_id i, iv_reader_lookup_hash (iv_columns pay), bundle)
    ∧ creators (ac_db ac) !! i_creator_id i = Some hash
    ∧ decrypt_assignment crypto hash aid (as_assignment_envelope a) = Ok index
    ∧ ix_derivation_index_lookup_hash x = bitcoin_derivation_index_lookup_hash crypto hash index;
  wf_columns : ∀ id, invoices (ac_db ac) !! id = None → ld_bundles (dd_life (ac_dd ac)) !! id = None
    ∧ t_invoices (dd_pay (ac_dd ac)) !! id = None ∧ ac_invoices ac !! id = None;
  wf_bundle : ∀ id i id' i' bundle, invoices (ac_db ac) !! id = Some i → invoices (ac_db ac) !! id' = Some i' →
    i_creator_id i = i_creator_id i' → ld_bundles (dd_life (ac_dd ac)) !! id = Some bundle →
    ld_bundles (dd_life (ac_dd ac)) !! id' = Some bundle → id = id';
  (* [REFERENCES invoices (id)], and one proposal per invoice *)
  wf_outbox : ∀ id r invoice, outbox (ac_db ac) !! id = Some r → o_invoice_id (o_key r) = Some invoice →
    is_Some (invoices (ac_db ac) !! invoice);
  wf_proposal : ∀ id r id' r' invoice, outbox (ac_db ac) !! id = Some r → outbox (ac_db ac) !! id' = Some r' →
    o_invoice_id (o_key r) = Some invoice → o_invoice_id (o_key r') = Some invoice →
    o_intent_kind (o_key r) = PaymentRequestProposalKind → o_intent_kind (o_key r') = PaymentRequestProposalKind →
    id = id';
  wf_provider : ∀ id, id ∈ provider_v2 (ac_db ac) → is_Some (invoices (ac_db ac) !! id);
}.

(** Rows are kept: what identifies a stored invoice never changes and nothing stored goes
    away. *)
Record keeps (ac ac' : AccountDb) : Prop := {
  ke_creators : creators (ac_db ac) ⊆ creators (ac_db ac');
  ke_assignments : ac_assignments ac ⊆ ac_assignments ac';
  ke_invoices : invoices (ac_db ac) ⊆ invoices (ac_db ac');
  ke_bundles : ld_bundles (dd_life (ac_dd ac)) ⊆ ld_bundles (dd_life (ac_dd ac'));
  ke_allocations : ac_invoices ac ⊆ ac_invoices ac';
  ke_payments : ∀ id pay, t_invoices (dd_pay (ac_dd ac)) !! id = Some pay →
    ∃ pay', t_invoices (dd_pay (ac_dd ac')) !! id = Some pay' ∧ iv_columns pay' = iv_columns pay;
  ke_provider : ∀ id, is_Some (invoices (ac_db ac) !! id) →
    (id ∈ provider_v2 (ac_db ac') ↔ id ∈ provider_v2 (ac_db ac));
  ke_bindings : t_provider_v2 (dd_pay (ac_dd ac)) ⊆ t_provider_v2 (dd_pay (ac_dd ac'));
  ke_provider_columns : ac_provider ac ⊆ ac_provider ac';
  ke_outbox : ∀ id r, outbox (ac_db ac) !! id = Some r → ∃ r', outbox (ac_db ac') !! id = Some r' ∧ o_key r' = o_key r;
}.

#[global] Instance keeps_preorder : PreOrder keeps.
Proof.
  split.
  - intros ac. split; naive_solver.
  - intros a b c [] []. split; try (etrans; eassumption).
    + intros id pay (pay' & Hp & <-)%ke_payments0. by apply ke_payments1.
    + intros id [i Hi]. rewrite ke_provider1 by (exists i; by eapply lookup_weaken). by apply ke_provider0.
    + intros id r (r' & Hr & <-)%ke_outbox0. by apply ke_outbox1.
Qed.
End wf.

(** The nonces a transaction draws have the length of the cipher. *)
Definition fresh_nonces (fresh : AllocationFresh) : Prop :=
  String.length (af_assignment_nonce fresh) = NONCE_LENGTH ∧ String.length (af_record_nonce fresh) = NONCE_LENGTH
  ∧ String.length (af_invoice_nonce fresh) = NONCE_LENGTH ∧ String.length (af_outbox_nonce fresh) = NONCE_LENGTH.

Section stored.
Context {prim : CryptoPrimitives} {observations : ObservationCodec} {codec : AllocationCodec} (crypto : Crypto).
Context {laws : CryptoLaws prim} {codec_laws : AllocationCodecLaws codec}.
Notation account_wf := (account_wf crypto).

Lemma assignment_roundtrip hash id nonce index envelope :
  String.length nonce = NONCE_LENGTH → 0 <= index →
  encrypt_assignment crypto hash id nonce index = Ok envelope →
  decrypt_assignment crypto hash id envelope = Ok index.
Proof.
  unfold encrypt_assignment, decrypt_assignment. intros Hn Hi H.
  apply bind_ok in H as (bytes & Hb%ok_or_ok & He%map_err_ok).
  rewrite (decrypt_encrypt _ _ _ _ _ Hn He). simpl. rewrite (assignment_reread _ _ Hb). simpl.
  by rewrite (proj2 (Z.leb_le 0 index)).
Qed.

Context {ac ac' : AccountDb} {creator_id : RowId} {creator_hash : string} {creator : CreatorColumns}
  {reader_hash bundle_hash lock_hash : string} {fresh : AllocationFresh} {now : Z} {provider : bool}
  {proposal_hash assignment_envelope outbox_envelope : string} {new : NewInvoice}.
Context (Hal : stored_rows crypto ac creator_id creator_hash creator reader_hash bundle_hash lock_hash fresh now provider
  proposal_hash assignment_envelope outbox_envelope new ac').
Context (Hhash : creators (ac_db ac) !! creator_id = Some creator_hash)
  (Hcreator : ac_creators ac !! creator_id = Some creator).
Context (Hwf : account_wf ac) (Hfresh : fresh_nonces fresh).

Lemma allocation_keeps : keeps ac ac'.
Proof using Hal Hwf.
  destruct Hal. apply insertable_ok in al_insertable0 as [Hid _].
  destruct (wf_columns _ _ Hwf _ Hid) as (Hb & Hp & Hx).
  split; rewrite ?al_creator_hashes0, ?al_assignments0, ?al_invoices0, ?al_bundles0, ?al_allocations0, ?al_payments0,
    ?al_provider0, ?al_outboxes0; try done; try by apply insert_subseteq.
  - intros id pay H. exists pay. split; [|done]. rewrite lookup_insert_ne; [done|]. by intros <-; rewrite Hp in H.
  - intros id [i Hi]. destruct provider; [|done]. rewrite elem_of_union, elem_of_singleton.
    assert (id ≠ af_invoice_id fresh) by (intros ->; by rewrite Hid in Hi). tauto.
  - intros id r H. exists r. split; [|done]. rewrite lookup_insert_ne; [done|]. by intros <-; rewrite al_outbox_fresh0 in H.
Qed.

Lemma allocation_hashes : creators (ac_db ac') = creators (ac_db ac).
Proof. by destruct Hal. Qed.

(** The new assignment opens to the index it took. *)
Lemma new_assignment_opens :
  decrypt_assignment crypto creator_hash (af_assignment_id fresh) assignment_envelope
  = Ok (cc_next_child_index creator).
Proof.
  destruct Hal. by apply (assignment_roundtrip _ _ _ _ _ (proj1 Hfresh) (wf_next _ _ Hwf _ _ Hcreator)).
Qed.

Lemma allocation_next id c :
  ac_creators ac' !! id = Some c →
  ∃ c0, ac_creators ac !! id = Some c0
        ∧ cc_next_child_index c = cc_next_child_index c0 + (if decide (id = creator_id) then 1 else 0).
Proof.
  destruct Hal. rewrite al_creators0. intros [[<- <-]|[Hne H]]%lookup_insert_Some.
  - exists creator. by rewrite decide_True.
  - exists c. rewrite decide_False by done. split; [done|lia].
Qed.

(** An assignment after the allocation is the new one or an old one. *)
Lemma allocation_assignment_cases id a :
  ac_assignments ac' !! id = Some a →
  (id = af_assignment_id fresh ∧ as_creator_id a = creator_id ∧ as_assignment_envelope a = assignment_envelope
   ∧ assignment_key a = (creator_id, reader_hash, bundle_hash))
  ∨ ac_assignments ac !! id = Some a.
Proof. destruct Hal. rewrite al_assignments0. intros [[<- <-]|[_ ?]]%lookup_insert_Some; eauto. Qed.

Lemma old_index_below id a index :
  ac_assignments ac !! id = Some a → as_creator_id a = creator_id →
  decrypt_assignment crypto creator_hash id (as_assignment_envelope a) = Ok index → index < cc_next_child_index creator.
Proof.
  intros Ha Hc Hd. destruct (wf_assignment _ _ Hwf _ _ Ha) as (hash & c & index' & Hh & Hcr & Hd' & Hlt).
  rewrite Hc in Hh, Hcr. simplify_eq. rewrite Hd in Hd'. simplify_eq. lia.
Qed.

Lemma allocation_wf_assignment id a :
  ac_assignments ac' !! id = Some a → ∃ hash c index,
    creators (ac_db ac') !! as_creator_id a = Some hash ∧ ac_creators ac' !! as_creator_id a = Some c
    ∧ decrypt_assignment crypto hash id (as_assignment_envelope a) = Ok index ∧ 0 <= index < cc_next_child_index c.
Proof.
  intros H%allocation_assignment_cases. pose proof new_assignment_opens as Hopen.
  destruct Hal. rewrite al_creator_hashes0, al_creators0. destruct H as [(-> & Hc & He & _)|H].
  - rewrite Hc, He. exists creator_hash, (advanced creator), (cc_next_child_index creator).
    rewrite lookup_insert_eq. split_and!; [done|done|done|by eapply wf_next|simpl; lia].
  - destruct (wf_assignment _ _ Hwf _ _ H) as (hash & c & index & Hh & Hcr & Hd & Hlt).
    destruct (decide (as_creator_id a = creator_id)) as [Hc|Hc].
    + rewrite Hc in *. simplify_eq. exists creator_hash, (advanced creator), index.
      rewrite lookup_insert_eq. simpl. split_and!; (done || lia).
    + exists hash, c, index. by rewrite lookup_insert_ne.
Qed.

Lemma allocation_wf_index id a id' a' hash index :
  ac_assignments ac' !! id = Some a → ac_assignments ac' !! id' = Some a' →
  as_creator_id a = as_creator_id a' → creators (ac_db ac') !! as_creator_id a = Some hash →
  decrypt_assignment crypto hash id (as_assignment_envelope a) = Ok index →
  decrypt_assignment crypto hash id' (as_assignment_envelope a') = Ok index → id = id'.
Proof.
  intros Ha%allocation_assignment_cases Ha'%allocation_assignment_cases Hsame Hh Hd Hd'.
  pose proof new_assignment_opens as Hopen. rewrite allocation_hashes in Hh.
  destruct Ha as [(-> & Hc & He & _)|Ha], Ha' as [(-> & Hc' & He' & _)|Ha'].
  - done.
  - rewrite Hc in Hh. rewrite Hhash in Hh. injection Hh as <-. rewrite He, Hopen in Hd. injection Hd as <-.
    pose proof (old_index_below _ _ _ Ha' (eq_trans (eq_sym Hsame) Hc) Hd'). lia.
  - rewrite Hsame, Hc', Hhash in Hh. injection Hh as <-. rewrite He', Hopen in Hd'. injection Hd' as <-.
    pose proof (old_index_below _ _ _ Ha (eq_trans Hsame Hc') Hd). lia.
  - by eapply (wf_index _ _ Hwf).
Qed.

Lemma allocation_wf_assignment_key id a id' a' :
  ac_assignments ac' !! id = Some a → ac_assignments ac' !! id' = Some a' → assignment_key a = assignment_key a' →
  id = id'.
Proof.
  intros Ha%allocation_assignment_cases Ha'%allocation_assignment_cases Hk. pose proof Hal as [].
  destruct Ha as [(-> & _ & _ & Hn)|Ha], Ha' as [(-> & _ & _ & Hn')|Ha'].
  - done.
  - destruct (unassigned _ _ _ _ _ _ al_unassigned0 Ha'). congruence.
  - destruct (unassigned _ _ _ _ _ _ al_unassigned0 Ha). congruence.
  - by eapply (wf_assignment_key _ _ Hwf).
Qed.

Lemma allocation_wf_invoice id i :
  invoices (ac_db ac') !! id = Some i → ∃ bundle pay x aid a hash index,
    ld_bundles (dd_life (ac_dd ac')) !! id = Some bundle ∧ t_invoices (dd_pay (ac_dd ac')) !! id = Some pay
    ∧ ac_invoices ac' !! id = Some x ∧ ac_assignments ac' !! aid = Some a
    ∧ assignment_key a = (i_creator_id i, iv_reader_lookup_hash (iv_columns pay), bundle)
    ∧ creators (ac_db ac') !! i_creator_id i = Some hash
    ∧ decrypt_assignment crypto hash aid (as_assignment_envelope a) = Ok index
    ∧ ix_derivation_index_lookup_hash x = bitcoin_derivation_index_lookup_hash crypto hash index.
Proof.
  pose proof new_assignment_opens as Hopen. destruct Hal.
  rewrite al_creator_hashes0, al_assignments0, al_invoices0, al_bundles0, al_allocations0, al_payments0.
  intros [[<- <-]|[Hne H]]%lookup_insert_Some.
  - eexists _, _, _, (af_assignment_id fresh), _, creator_hash, (cc_next_child_index creator).
    rewrite !lookup_insert_eq, al_new_creator0. split_and!; try done. simpl. by rewrite al_new_reader0.
  - destruct (wf_invoice _ _ Hwf _ _ H) as (bundle & pay & x & aid & a & hash & index & Hb & Hp & Hx & Ha & Hrest).
    exists bundle, pay, x, aid, a, hash, index. rewrite !lookup_insert_ne by done.
    split_and!; [done..| |apply Hrest|apply Hrest|apply Hrest|apply Hrest].
    rewrite lookup_insert_ne; [done|]. by intros <-; rewrite al_assignment_fresh0 in Ha.
Qed.

Lemma allocation_wf_bundle id i id' i' bundle :
  invoices (ac_db ac') !! id = Some i → invoices (ac_db ac') !! id' = Some i' → i_creator_id i = i_creator_id i' →
  ld_bundles (dd_life (ac_dd ac')) !! id = Some bundle → ld_bundles (dd_life (ac_dd ac')) !! id' = Some bundle → id = id'.
Proof.
  destruct Hal. apply insertable_ok in al_insertable0 as [_ Hfree]. rewrite al_new_bundle0 in Hfree. rewrite al_invoices0, al_bundles0.
  intros [[<- <-]|[Hne H]]%lookup_insert_Some [[<- <-]|[Hne' H']]%lookup_insert_Some Hc; [done|..].
  - rewrite lookup_insert_eq, lookup_insert_ne by done. intros [= <-] Hb. by destruct (Hfree _ _ H' (eq_sym Hc)).
  - rewrite lookup_insert_eq, lookup_insert_ne by done. intros Hb [= <-]. by destruct (Hfree _ _ H Hc).
  - rewrite !lookup_insert_ne by done. by apply (wf_bundle _ _ Hwf id i id' i').
Qed.

Lemma allocation_outbox_cases id r :
  outbox (ac_db ac') !! id = Some r →
  (id = af_outbox_id fresh ∧ o_invoice_id (o_key r) = Some (af_invoice_id fresh))
  ∨ outbox (ac_db ac) !! id = Some r
    ∧ (∀ invoice, o_invoice_id (o_key r) = Some invoice → invoice ≠ af_invoice_id fresh).
Proof.
  destruct Hal. apply insertable_ok in al_insertable0 as [Hid _].
  rewrite al_outboxes0. intros [[<- <-]|[_ H]]%lookup_insert_Some; [by left|right]. split; [done|].
  intros invoice Hi ->. destruct (wf_outbox _ _ Hwf _ _ _ H Hi) as [? Hsome]. by rewrite Hid in Hsome.
Qed.

Lemma allocation_preserves_wf : account_wf ac'.
Proof.
  split.
  - intros id. destruct Hal. rewrite al_creator_hashes0, al_creators0, (wf_creators _ _ Hwf).
    destruct (decide (id = creator_id)) as [->|]; [|by rewrite lookup_insert_ne].
    rewrite lookup_insert_eq, Hcreator. split; by eexists.
  - destruct Hal. rewrite al_creator_hashes0. apply (wf_hashes _ _ Hwf).
  - intros id c (c0 & H0 & ->)%allocation_next. pose proof (wf_next _ _ Hwf _ _ H0). case_decide; lia.
  - apply allocation_wf_assignment.
  - apply allocation_wf_index.
  - apply allocation_wf_assignment_key.
  - apply allocation_wf_invoice.
  - intros id. destruct Hal. rewrite al_invoices0, al_bundles0, al_payments0, al_allocations0.
    intros [H Hne]%lookup_insert_None. rewrite !lookup_insert_ne by done. by apply (wf_columns _ _ Hwf).
  - apply allocation_wf_bundle.
  - intros id r invoice H Hi. pose proof (ke_invoices _ _ allocation_keeps) as Hsub.
    apply allocation_outbox_cases in H as [[_ Hn]|[H _]].
    + destruct Hal. rewrite al_invoices0. simplify_eq. rewrite lookup_insert_eq. by eexists.
    + destruct (wf_outbox _ _ Hwf _ _ _ H Hi) as [i Hsome]. exists i. by eapply lookup_weaken.
  - intros id r id' r' invoice H%allocation_outbox_cases H'%allocation_outbox_cases Hi Hi' Hk Hk'.
    destruct H as [[-> Hn]|[H Hn]], H' as [[-> Hn']|[H' Hn']]; [done|naive_solver..|].
    by apply (wf_proposal _ _ Hwf id r id' r' invoice).
  - intros id Hin. pose proof (ke_invoices _ _ allocation_keeps) as Hsub. destruct Hal.
    assert (id = af_invoice_id fresh ∨ id ∈ provider_v2 (ac_db ac)) as [->|Hold] by (destruct provider; set_solver).
    + rewrite al_invoices0, lookup_insert_eq. by eexists.
    + destruct (wf_provider _ _ Hwf _ Hold) as [i Hsome]. exists i. by eapply lookup_weaken.
Qed.

(** *** In every later state that keeps the rows, they are found again *)

Context {later : AccountDb} (Hkeeps : keeps ac' later) (Hlater : account_wf later).

Lemma later_creator : ∃ c, creator_row_of_hash later creator_hash = Some (creator_id, creator_hash, c).
Proof.
  assert (creators (ac_db later) !! creator_id = Some creator_hash) as Hh.
  { eapply lookup_weaken; [|apply (ke_creators _ _ Hkeeps)]. by rewrite allocation_hashes. }
  assert (creator_of_hash (ac_db later) creator_hash = Some creator_id) as Hid.
  { unfold creator_of_hash. rewrite (select_one_unique _ _ creator_id creator_hash); [done|done|apply String.eqb_refl|].
    intros id h Hid ->%String.eqb_eq. by eapply (wf_hashes _ _ Hlater). }
  destruct (proj1 (wf_creators _ _ Hlater creator_id)) as [c Hc]; [by eexists|].
  exists c. unfold creator_row_of_hash, creator_row. rewrite Hid. simpl. by rewrite Hh, Hc.
Qed.

Lemma later_invoice :
  ∃ pay, existing_invoice later creator_id bundle_hash
         = Some (af_invoice_id fresh, pay, ni_allocation new)
         ∧ iv_columns pay = ni_columns new ∧ is_provider_v2 later (af_invoice_id fresh) = provider.
Proof using Hal Hwf Hkeeps Hlater.
  destruct Hal. pose proof (insertable_ok _ _ _ al_insertable0) as [Hid _].
  assert (invoices (ac_db ac') !! af_invoice_id fresh = Some (ni_row new)) as Hi by (by rewrite al_invoices0, lookup_insert_eq).
  pose proof (lookup_weaken _ _ _ _ Hi (ke_invoices _ _ Hkeeps)) as Hi'.
  assert (ld_bundles (dd_life (ac_dd later)) !! af_invoice_id fresh = Some bundle_hash) as Hb.
  { eapply lookup_weaken; [|apply (ke_bundles _ _ Hkeeps)]. by rewrite al_bundles0, lookup_insert_eq. }
  destruct (ke_payments _ _ Hkeeps (af_invoice_id fresh) (mk_PaymentInvoice (ni_columns new) undetected))
    as (pay & Hpay & Hcols); [by rewrite al_payments0, lookup_insert_eq|].
  assert (ac_invoices later !! af_invoice_id fresh = Some (ni_allocation new)) as Hx.
  { eapply lookup_weaken; [|apply (ke_allocations _ _ Hkeeps)]. by rewrite al_allocations0, lookup_insert_eq. }
  exists pay. split_and!; [|done|].
  - unfold existing_invoice. rewrite (select_one_unique _ _ (af_invoice_id fresh) (ni_row new)); [|done| |].
    + simpl. rewrite Hpay. simpl. by rewrite Hx.
    + rewrite al_new_creator0, Hb. simpl. by rewrite !bool_decide_true.
    + intros id i Hid' Hp. split_bools. eapply (wf_bundle _ _ Hlater); [done|done| |done|done]. by rewrite al_new_creator0.
  - unfold is_provider_v2. destruct provider.
    + apply bool_decide_eq_true. rewrite (ke_provider _ _ Hkeeps), al_provider0 by (by eexists).
      by apply elem_of_union_l, elem_of_singleton.
    + apply bool_decide_eq_false. rewrite (ke_provider _ _ Hkeeps), al_provider0 by (by eexists).
      intros [? Hsome]%(wf_provider _ _ Hwf). by rewrite Hid in Hsome.
Qed.

Lemma later_assignment :
  load_assignment crypto later creator_id reader_hash
    bundle_hash creator_hash
  = Ok (Some (mk_Assignment (af_assignment_id fresh) (cc_next_child_index creator))).
Proof.
  pose proof new_assignment_opens as Hopen. destruct Hal. set (row := mk_AssignmentRow _ _ _ _) in al_assignments0.
  assert (ac_assignments later !! af_assignment_id fresh = Some row) as Ha.
  { eapply lookup_weaken; [|apply (ke_assignments _ _ Hkeeps)]. by rewrite al_assignments0, lookup_insert_eq. }
  unfold load_assignment, assignment_row. rewrite (select_one_unique _ _ (af_assignment_id fresh) row); [|done| |].
  - simpl. by rewrite Hopen.
  - simpl. by rewrite bool_decide_true, !String.eqb_refl.
  - intros id a Hid Hp. split_bools. eapply (wf_assignment_key _ _ Hlater); [done|done|]. by apply (f_equal2 pair);
      [apply (f_equal2 pair)|].
Qed.

Lemma later_outbox : payment_outbox later (af_invoice_id fresh) = Some (af_outbox_id fresh).
Proof.
  destruct Hal. set (row := queued_row _ _ _) in al_outboxes0.
  destruct (ke_outbox _ _ Hkeeps (af_outbox_id fresh) row) as (r & Hr & Hkey); [by rewrite al_outboxes0, lookup_insert_eq|].
  unfold payment_outbox. rewrite (select_one_unique _ _ (af_outbox_id fresh) r); [done|done| |].
  - rewrite Hkey. simpl. by rewrite bool_decide_true.
  - intros id r' Hr' Hp. unfold kind_is in Hp. split_bools.
    eapply (wf_proposal _ _ Hlater id r' _ r); [done|done|done| |done|]; by rewrite Hkey.
Qed.

End stored.
