(* ===== verification/AllocationProps.v ===== *)
(** * AllocationProps: theorems about the allocation of invoices ([Allocation])

    What a successful allocation wrote, that it reads back, that repeating it answers the
    same and changes nothing, and that no two invoices of a creator share a child index. *)

From S2P Require Import Prelude Text Effects Locks Invoice Receiving Payment Lifecycle Pricing Intent Readers Database OutboxStore CreateInvoice PaymentRecord Crypto Observations Settlement LifecycleStore Drains DrainProps Status Creators Allocation Allocated Sorting.
Local Open Scope string_scope.
Local Open Scope Z_scope.

Section facts.
Context {core : LocksCore} {lib : PaykitLib} {locks : ContentLocks} {bip32 : Bip32}.
Context {prim : CryptoPrimitives} {codec : AllocationCodec} (crypto : Crypto).
Context (from_bytes : string → option DeliveryIntentV1) (to_bytes : DeliveryIntentV1 → option string).
Context (json_object : list (string * string) → string) (metadata_object : list (string * string) → Metadata).
Context {Json : Type} (json_from_str : string → option Json)
  (json_value : Json → option string) (json_is_object : Json → list (string * string) → bool).
Context (static_app : PaykitAppId) (format_rfc3339 : Z → option string).

Notation lookup_hash := (lookup_hash crypto).
Notation allocated_intent := (allocated_intent json_object metadata_object json_from_str json_value json_is_object
  static_app format_rfc3339).
Notation sealed_invoice := (sealed_invoice crypto json_from_str json_value json_is_object).
Notation allocate := (allocate crypto to_bytes json_object metadata_object json_from_str json_value json_is_object
  static_app format_rfc3339).
Notation create_atomic := (create_atomic crypto from_bytes to_bytes json_object metadata_object json_from_str json_value
  json_is_object static_app format_rfc3339).

(** Everything a successful allocation read, computed and wrote. *)
Record allocation (ac : AccountDb) (input : AtomicInvoiceInput) (creator_id : RowId) (creator_hash : string)
    (creator : CreatorColumns) (fresh : AllocationFresh) (now expires deadline acceptance window : Z)
    (res : AtomicInvoiceResult) (ac' : AccountDb) (g : GenerationRow) (intent : DeliveryIntentV1)
    (reference plaintext assignment_envelope outbox_envelope : string) (new : NewInvoice) : Prop := {
  al_account : ∀ expected, expected_bitcoin_account_generation (ai_payloads input) = Some expected →
    expected = cc_bitcoin_account_generation creator;
  al_generation : let key := (creator_id, lookup_hash (ai_lock_resource_binding input)) in
    generations (ac_db ac) !! key = Some g
    ∨ generations (ac_db ac) !! key = None ∧ g = mk_GenerationRow 0 None;
  al_not_drained : g_active_drain_id g = None;
  al_intent : allocated_intent input (af_reference fresh) (cc_next_child_index creator) expires deadline = Ok intent;
  al_reference : proposal_payment_reference intent = Ok reference;
  al_plaintext : to_bytes intent = Some plaintext;
  al_sealed : sealed_invoice input creator_id creator_hash (lookup_hash (ai_lock_resource_binding input))
    (g_current_generation g) (cc_next_child_index creator) now expires deadline acceptance window
    (cc_bitcoin_account_generation creator) fresh intent plaintext = Ok new;
  al_outbox : encrypt crypto (af_outbox_nonce fresh) (ctx_outbox_semantic_intent creator_hash (af_outbox_id fresh))
    plaintext = Ok outbox_envelope;
  al_result : res = mk_AtomicInvoiceResult (af_invoice_id fresh) (af_outbox_id fresh) (af_assignment_id fresh)
    (cc_next_child_index creator) now deadline false;
  al_pay : dd_pay (ac_dd ac') = set_invoices (dd_pay (ac_dd ac)) (t_invoices (dd_pay (ac_dd ac')));
  al_rows : stored_rows crypto ac creator_id creator_hash creator (lookup_hash (reader_to_string (ai_reader input)))
    (lookup_hash (ai_bundle_binding input)) (lookup_hash (ai_lock_resource_binding input)) fresh now false
    (payment_request_proposal_lookup_hash crypto reference) assignment_envelope outbox_envelope new ac';
}.

(** The columns of the sealed invoice. *)
Lemma sealed_invoice_ok input creator_id creator_hash lock_hash generation child now expires deadline acceptance
    window account fresh intent plaintext new :
  sealed_invoice input creator_id creator_hash lock_hash generation child now expires deadline acceptance window
    account fresh intent plaintext = Ok new →
  ∃ record record_plaintext,
    from_intent json_from_str json_value json_is_object child intent = Ok record
    ∧ record_to_bytes record = Some record_plaintext
    ∧ encrypt crypto (af_record_nonce fresh) (ctx_invoice_payment_record creator_hash (af_invoice_id fresh))
        record_plaintext = Ok (iv_payment_record_envelope (ni_columns new))
    ∧ encrypt crypto (af_invoice_nonce fresh) (ctx_invoice creator_hash (af_invoice_id fresh)) plaintext
      = Ok (ix_invoice_envelope (ni_allocation new))
    ∧ ni_row new = mk_InvoiceRow creator_id lock_hash generation deadline
    ∧ ni_bundle_lookup_hash new = lookup_hash (ai_bundle_binding input)
    ∧ iv_creator_lookup_hash (ni_columns new) = creator_hash
    ∧ iv_reader_lookup_hash (ni_columns new) = lookup_hash (reader_to_string (ai_reader input))
    ∧ iv_address_lookup_hash (ni_columns new)
      = (λ d, bitcoin_address_lookup_hash crypto (pd_address d)) <$> pr_bitcoin record
    ∧ iv_created_at (ni_columns new) = now ∧ iv_payment_deadline (ni_columns new) = deadline
    ∧ ix_payment_request_lookup_hash (ni_allocation new) = lookup_hash (ai_payment_request_binding input)
    ∧ ix_derivation_index_lookup_hash (ni_allocation new) = bitcoin_derivation_index_lookup_hash crypto creator_hash child.
Proof.
  unfold Allocation.sealed_invoice. intros H.
  apply bind_ok in H as (record & Hr & H). apply bind_ok in H as (rp & Hrp%ok_or_ok & H).
  apply bind_ok in H as (re & Hre%map_err_ok & H). apply bind_ok in H as (ie & Hie%map_err_ok & [= <-]). eauto 16.
Qed.

Lemma allocate_ok ac input creator_id creator_hash creator fresh now expires deadline acceptance window res ac' :
  ac_creators ac !! creator_id = Some creator →
  allocate ac input creator_id creator_hash creator fresh now expires deadline acceptance window = Ok (res, ac') →
  ∃ g intent reference plaintext assignment_envelope outbox_envelope new,
    allocation ac input creator_id creator_hash creator fresh now expires deadline acceptance window res ac' g intent
      reference plaintext assignment_envelope outbox_envelope new.
Proof.
  unfold Allocation.allocate. intros Hc H.
  apply bind_ok in H as (? & Hacc%ensure_ok & H).
  set (ac1 := set_ac_dd ac _) in H.
  apply bind_ok in H as (g & Hg%ok_or_ok & H). apply bind_ok in H as (? & _ & H).
  apply bind_ok in H as (? & Hd%ensure_ok & H).
  apply bind_ok in H as (loaded & Hload & H). apply bind_ok in H as (? & Hnone%ensure_ok & H).
  apply bind_ok in H as (intent & Hint & H). apply bind_ok in H as (aenv & Haenv & H).
  apply bind_ok in H as (ac2 & Hac2 & H). apply bind_ok in H as (ac3 & Hac3 & H).
  apply bind_ok in H as (reference & Href%map_err_ok & H). apply bind_ok in H as (plaintext & Hp%ok_or_ok & H).
  apply bind_ok in H as (new & Hnew & H). apply bind_ok in H as (ac4 & Hac4 & H).
  apply bind_ok in H as (oenv & Hoenv%map_err_ok & H).
  destruct (insert_outbox _ _ _ _ _ _ _ _) as [inserted db] eqn:Ho. apply bind_ok in H as ([] & -> & [= <- <-]).
  exists g, intent, reference, plaintext, aenv, oenv, new.
  pose proof (sealed_invoice_ok _ _ _ _ _ _ _ _ _ _ _ _ _ _ _ _ Hnew)
    as (record & rp & _ & _ & _ & _ & Hrow & Hbundle & _ & Hreader & _ & _ & _ & _ & Hder).
  pose proof (writes_stored crypto _ _ _ _ _ _ _ _ now false _ _ _ _ (mk_ProviderColumns "" 0) (mk_ProviderBinding 0 0)
    _ _ _ _ _ _ Hc Hload Hnone Haenv Hac2 Hac3 (f_equal i_creator_id Hrow) Hreader Hbundle Hder Hac4 eq_refl Ho) as Hst.
  split; try done.
  - intros expected He. rewrite He in Hacc. by split_bools.
  - destruct (ensure_generation_lookup (ac_dd ac) creator_id (lookup_hash (ai_lock_resource_binding input)))
      as (g' & Hg' & Hor). unfold ac1, ac_db in Hg. simpl in Hg. rewrite Hg' in Hg. by injection Hg as <-.
  - by destruct (g_active_drain_id g).
  - unfold insert_invoice in Hac4. apply bind_ok in Hac4 as (? & _ & [= <-]).
    apply insert_assignment_ok in Hac2 as (_ & _ & ->). apply (advance_child_index_ok _ _ creator) in Hac3; [|done].
    subst ac3. simpl. unfold ac1. simpl.
    by destruct (ensure_generation_frame (ac_dd ac) creator_id (lookup_hash (ai_lock_resource_binding input))) as [gs ->].
Qed.

(** A successful call replayed a stored invoice or allocated a new one. *)
Lemma create_atomic_ok ac input fresh now res ac' :
  create_atomic ac input fresh now = Ok (res, ac') →
  ∃ creator_id creator acceptance window expires deadline,
    let creator_hash := creator_hash_of crypto (ai_creator input) in
    validated_windows input = Ok (acceptance, window)
    ∧ creator_row_of_hash ac creator_hash = Some (creator_id, creator_hash, creator)
    ∧ String.length creator_hash = 32%nat
    ∧ checked_add_seconds now acceptance = Some expires ∧ checked_add_seconds now window = Some deadline
    ∧ ((ac' = ac ∧ ∃ existing,
          existing_invoice ac creator_id (lookup_hash (ai_bundle_binding input)) = Some existing
          ∧ replay_result crypto from_bytes ac creator_id creator_hash (lookup_hash (reader_to_string (ai_reader input)))
              (lookup_hash (ai_bundle_binding input)) (lookup_hash (ai_payment_request_binding input))
              (ai_reader input) existing = Ok res)
       ∨ existing_invoice ac creator_id (lookup_hash (ai_bundle_binding input)) = None
         ∧ allocate ac input creator_id creator_hash creator fresh now expires deadline acceptance window = Ok (res, ac')).
Proof.
  unfold Allocation.create_atomic. cbv zeta. intros H.
  apply bind_ok in H as ([acceptance window] & Hw & H).
  apply bind_ok in H as ([[creator_id stored] creator] & Hrow%ok_or_ok & H).
  apply bind_ok in H as (hash & Hh & H). apply bind_ok in H as (? & _ & H).
  apply bind_ok in H as (expires & He%ok_or_ok & H). apply bind_ok in H as (deadline & Hd%ok_or_ok & H).
  pose proof (creator_row_of_hash_some _ _ _ _ _ Hrow) as (_ & -> & _).
  unfold stored_lookup_hash in Hh. apply bind_ok in Hh as (? & Hl%ensure_ok%Nat.eqb_eq & _).
  exists creator_id, creator, acceptance, window, expires, deadline. split_and!; [done..|].
  destruct (existing_invoice _ _ _) as [existing|]; [left|by right].
  apply bind_ok in H as (r & Hr & [= <- <-]). eauto.
Qed.
End facts.

Section theorems.
Context {core : LocksCore} {lib : PaykitLib} {locks : ContentLocks} {bip32 : Bip32}.
Context {prim : CryptoPrimitives} {observations : ObservationCodec} {codec : AllocationCodec} (crypto : Crypto).
Context {laws : CryptoLaws prim} {codec_laws : AllocationCodecLaws codec}.
Context (from_bytes : string → option DeliveryIntentV1) (to_bytes : DeliveryIntentV1 → option string).
Context (json_object : list (string * string) → string) (metadata_object : list (string * string) → Metadata).
Context {Json : Type} (json_from_str : string → option Json)
  (json_value : Json → option string) (json_is_object : Json → list (string * string) → bool).
Context (static_app : PaykitAppId) (format_rfc3339 : Z → option string).

Notation lookup_hash := (lookup_hash crypto).
Notation allocation := (allocation crypto to_bytes json_object metadata_object json_from_str json_value json_is_object
  static_app format_rfc3339).
Notation sealed_invoice := (sealed_invoice crypto json_from_str json_value json_is_object).
Notation create_atomic := (create_atomic crypto from_bytes to_bytes json_object metadata_object json_from_str json_value
  json_is_object static_app format_rfc3339).
Notation account_wf := (account_wf crypto).

Section allocated.
Context {ac ac' : AccountDb} {input : AtomicInvoiceInput} {creator_id : RowId} {creator_hash : string}
  {creator : CreatorColumns} {fresh : AllocationFresh} {now expires deadline acceptance window : Z}
  {res : AtomicInvoiceResult} {g : GenerationRow} {intent : DeliveryIntentV1}
  {reference plaintext assignment_envelope outbox_envelope : string} {new : NewInvoice}.
Context (Hal : allocation ac input creator_id creator_hash creator fresh now expires deadline acceptance window res ac'
  g intent reference plaintext assignment_envelope outbox_envelope new).
Context (Hhash : creators (ac_db ac) !! creator_id = Some creator_hash)
  (Hcreator : ac_creators ac !! creator_id = Some creator).
Context (Hwf : account_wf ac) (Hfresh : fresh_nonces fresh).

Lemma allocation_rows :
  stored_rows crypto ac creator_id creator_hash creator (lookup_hash (reader_to_string (ai_reader input)))
    (lookup_hash (ai_bundle_binding input)) (lookup_hash (ai_lock_resource_binding input)) fresh now false
    (payment_request_proposal_lookup_hash crypto reference) assignment_envelope outbox_envelope new ac'.
Proof. by destruct Hal. Qed.

(** The intent of the allocation is valid and addressed to the Reader. *)
Lemma allocation_intent_valid :
  validate intent = Ok tt ∧ reader_pubky intent = reader_to_string (ai_reader input)
  ∧ validate_intent intent (ai_reader input) = Ok tt.
Proof.
  destruct Hal. unfold allocated_intent in al_intent0. apply bind_ok in al_intent0 as (i0 & _ & H).
  apply bind_ok in H as (? & _ & H). apply bind_ok in H as (? & _ & H).
  destruct (set_deadlines i0 _ _) as [i1 outcome]. apply bind_ok in H as (? & _ & H).
  apply bind_ok in H as ([] & Hv & H). apply bind_ok in H as (? & _ & [= <-]). split_and!; [| |done].
  - unfold validate_intent in Hv. by apply bind_ok in Hv as ([] & Hv%map_err_ok & _).
  - unfold validate_intent in Hv. by apply bind_ok in Hv as (? & _ & Hv%ensure_ok%String.eqb_eq).
Qed.

Context (intent_reread : ∀ i bytes, to_bytes i = Some bytes → from_bytes bytes = Some i).

Lemma decode_plaintext : decode from_bytes plaintext = Ok intent.
Proof.
  pose proof allocation_intent_valid as [Hv _]. destruct Hal. unfold decode.
  rewrite (intent_reread _ _ al_plaintext0). simpl. by rewrite Hv.
Qed.

Lemma new_invoice_opens :
  open_invoice crypto from_bytes creator_hash (af_invoice_id fresh) (ix_invoice_envelope (ni_allocation new)) = Ok intent.
Proof.
  pose proof decode_plaintext as Hd. destruct Hal, Hfresh as (_ & _ & Hn & _).
  apply sealed_invoice_ok in al_sealed0 as (? & ? & _ & _ & _ & He & _).
  unfold open_invoice. rewrite (decrypt_encrypt _ _ _ _ _ Hn He). simpl. by rewrite Hd.
Qed.

Lemma new_outbox_opens : open_intent crypto from_bytes creator_hash (af_outbox_id fresh) outbox_envelope = Ok intent.
Proof.
  pose proof decode_plaintext as Hd. destruct Hal, Hfresh as (_ & _ & _ & Hn).
  unfold open_intent. rewrite (decrypt_encrypt _ _ _ _ _ Hn al_outbox0). simpl. by rewrite Hd.
Qed.

(** *** In every later state that keeps the rows, the invoice is found and answers the same *)

Context {later : AccountDb} (Hkeeps : keeps ac' later) (Hlater : account_wf later).

Lemma allocation_stamps :
  iv_created_at (ni_columns new) = now ∧ iv_payment_deadline (ni_columns new) = deadline
  ∧ ix_payment_request_lookup_hash (ni_allocation new) = lookup_hash (ai_payment_request_binding input).
Proof.
  destruct Hal. apply sealed_invoice_ok in al_sealed0
    as (? & ? & _ & _ & _ & _ & _ & _ & _ & _ & _ & ? & ? & ? & _). done.
Qed.

(** What the allocation answered, as a replay. *)
Lemma later_replay existing :
  existing_invoice later creator_id (lookup_hash (ai_bundle_binding input)) = Some existing →
  replay_result crypto from_bytes later creator_id creator_hash (lookup_hash (reader_to_string (ai_reader input)))
    (lookup_hash (ai_bundle_binding input)) (lookup_hash (ai_payment_request_binding input)) (ai_reader input) existing
  = Ok (mk_AtomicInvoiceResult (af_invoice_id fresh) (af_outbox_id fresh) (af_assignment_id fresh)
          (cc_next_child_index creator) now deadline true).
Proof.
  destruct (later_invoice crypto allocation_rows Hwf Hkeeps Hlater) as (pay & -> & Hcols & Hprovider). intros [= <-]. unfold replay_result.
  destruct allocation_stamps as (Hnow & Hdeadline & Hpayment).
  rewrite Hprovider, Hpayment, String.eqb_refl. simpl. unfold validate_replay_intent. rewrite new_invoice_opens. simpl.
  destruct allocation_intent_valid as (_ & _ & ->). simpl.
  rewrite (later_assignment crypto allocation_rows Hcreator Hwf Hfresh Hkeeps Hlater). simpl.
  rewrite (later_outbox crypto allocation_rows Hkeeps Hlater). simpl.
  by rewrite Hcols, Hnow, Hdeadline.
Qed.
End allocated.

Definition as_replay (res : AtomicInvoiceResult) : AtomicInvoiceResult :=
  mk_AtomicInvoiceResult (ar_invoice_id res) (ar_payment_request_outbox_id res) (ar_reader_assignment_id res)
    (ar_reader_child_index res) (ar_invoice_created_at res) (ar_payment_deadline res) true.

(** What a successful creation that is not a replay did. *)
Lemma created_allocation ac input fresh now res ac' :
  create_atomic ac input fresh now = Ok (res, ac') → ar_replayed res = false →
  ∃ creator_id creator acceptance window expires deadline g intent reference plaintext assignment_envelope
    outbox_envelope new,
    let creator_hash := creator_hash_of crypto (ai_creator input) in
    validated_windows input = Ok (acceptance, window)
    ∧ checked_add_seconds now window = Some deadline
    ∧ String.length creator_hash = 32%nat
    ∧ creators (ac_db ac) !! creator_id = Some creator_hash ∧ ac_creators ac !! creator_id = Some creator
    ∧ allocation ac input creator_id creator_hash creator fresh now expires deadline acceptance window res ac' g intent
        reference plaintext assignment_envelope outbox_envelope new.
Proof.
  intros H Hnew. apply create_atomic_ok in H as (creator_id & creator & acceptance & window & expires & deadline & H).
  cbv zeta in H. destruct H as (Hw & Hrow & Hlen & He & Hd & [(-> & [[id pay] x] & _ & Hr)|[_ H]]).
  { unfold replay_result in Hr. by inv_ok. }
  pose proof (creator_row_of_hash_some _ _ _ _ _ Hrow) as (_ & _ & Hh & Hc).
  apply allocate_ok in H as (g & intent & reference & plaintext & ae & oe & new & Hal); [|done].
  exists creator_id, creator, acceptance, window, expires, deadline, g, intent, reference, plaintext, ae, oe, new.
  split_and!; done.
Qed.

Lemma checked_add_ok instant seconds t :
  checked_add_seconds instant seconds = Some t → t = instant + seconds * NANOS_PER_SECOND.
Proof. unfold checked_add_seconds. cbv zeta. by destruct (_ <=? _); intros [= <-]. Qed.

Lemma windows_fit input acceptance window now :
  validated_windows input = Ok (acceptance, window) → now + window * NANOS_PER_SECOND <= instant_max →
  checked_add_seconds now acceptance = Some (now + acceptance * NANOS_PER_SECOND)
  ∧ checked_add_seconds now window = Some (now + window * NANOS_PER_SECOND).
Proof.
  unfold validated_windows, checked_add_seconds, NANOS_PER_SECOND. intros H Hfit. inv_ok. split_bools.
  split; case_match; split_bools; (done || lia).
Qed.

Context (intent_reread : ∀ i bytes, to_bytes i = Some bytes → from_bytes bytes = Some i).

(** C20: creating an invoice is idempotent for as long as its rows are kept.  After a
    creation, in every later consistent state that kept the stored rows (whatever else was
    created, delivered, observed or rotated), the same request (creator, Reader, bundle and
    payment binding) with any payload, identifiers and clock answers the first result
    marked as a replay and changes nothing; the preflight check announces the replay and
    the replay lookup answers the same. *)
Theorem creation_idempotent ac input fresh now res ac' later input' fresh' now' acceptance' window' :
  account_wf ac → fresh_nonces fresh →
  create_atomic ac input fresh now = Ok (res, ac') → ar_replayed res = false →
  keeps ac' later → account_wf later →
  ai_creator input' = ai_creator input → ai_reader input' = ai_reader input →
  ai_bundle_binding input' = ai_bundle_binding input →
  ai_payment_request_binding input' = ai_payment_request_binding input →
  validated_windows input' = Ok (acceptance', window') → now' + window' * NANOS_PER_SECOND <= instant_max →
  create_atomic later input' fresh' now' = Ok (as_replay res, later)
  ∧ exact_replay crypto from_bytes later (ai_creator input) (ai_reader input) (ai_bundle_binding input)
      (ai_payment_request_binding input) = Ok (as_replay res)
  ∧ preflight crypto later (ai_creator input) (ai_bundle_binding input) (ai_payment_request_binding input)
    = PreflightExactReplay.
Proof.
  intros Hwf Hfresh H Hnew Hkeeps Hlater Hc Hr Hb Hp Hw Hnow.
  apply created_allocation in H as (cid & creator & acceptance & window & expires & deadline & g & intent & reference
    & plaintext & ae & oe & new & _ & _ & Hlen & Hhash & Hcreator & Hal); [|done].
  destruct (later_creator crypto (allocation_rows Hal) Hhash Hkeeps Hlater) as [c2 Hrow].
  destruct (later_invoice crypto (allocation_rows Hal) Hwf Hkeeps Hlater) as (pay & Hex & Hcols & Hprov).
  pose proof (later_replay Hal Hcreator Hwf Hfresh intent_reread Hkeeps Hlater _ Hex) as Hreplay.
  destruct (allocation_stamps Hal) as (_ & _ & Hpayment).
  assert (res = mk_AtomicInvoiceResult (af_invoice_id fresh) (af_outbox_id fresh) (af_assignment_id fresh)
            (cc_next_child_index creator) now deadline false) as -> by (by destruct Hal).
  split_and!.
  - unfold Allocation.create_atomic. cbv zeta. rewrite Hw, Hc, Hr, Hb, Hp. simpl. rewrite Hrow. simpl.
    unfold stored_lookup_hash. rewrite Hlen. simpl. rewrite String.eqb_refl. simpl.
    destruct (windows_fit _ _ _ _ Hw Hnow) as [-> ->]. simpl. rewrite Hex. by rewrite Hreplay.
  - unfold exact_replay. cbv zeta. rewrite Hrow. simpl. unfold stored_lookup_hash. rewrite Hlen. simpl. rewrite String.eqb_refl. simpl.
    rewrite Hex. exact Hreplay.
  - unfold preflight. pose proof (creator_row_of_hash_some _ _ _ _ _ Hrow) as (-> & _). simpl.
    by rewrite Hex, Hprov, Hpayment, String.eqb_refl.
Qed.

(** C21: what was created reads back.  After a creation that is not a replay, the stored
    invoice opens to an intent that is valid and addressed to the Reader, the queued proposal
    opens to the same intent, the accounting record opens to exactly the record of that
    intent and its Bitcoin address is claimed by the invoice and by nothing else before;
    the assignment opens to the creator's next child index, which advances by one; the
    invoice starts undetected, with the deadlines of this call. *)
Theorem created_invoice_reads_back ac input fresh now res ac' :
  account_wf ac → fresh_nonces fresh →
  create_atomic ac input fresh now = Ok (res, ac') → ar_replayed res = false →
  let creator_hash := creator_hash_of crypto (ai_creator input) in
  let id := ar_invoice_id res in
  ∃ creator_id c c' intent record row x pay,
    creators (ac_db ac) !! creator_id = Some creator_hash
    ∧ ac_creators ac !! creator_id = Some c ∧ ac_creators ac' !! creator_id = Some c'
    ∧ ar_reader_child_index res = cc_next_child_index c ∧ cc_next_child_index c' = cc_next_child_index c + 1
    ∧ load_assignment crypto ac' creator_id (lookup_hash (reader_to_string (ai_reader input)))
        (lookup_hash (ai_bundle_binding input)) creator_hash
      = Ok (Some (mk_Assignment (ar_reader_assignment_id res) (ar_reader_child_index res)))
    ∧ ac_invoices ac' !! id = Some x ∧ open_invoice crypto from_bytes creator_hash id (ix_invoice_envelope x) = Ok intent
    ∧ validate intent = Ok tt ∧ reader_pubky intent = reader_to_string (ai_reader input)
    ∧ outbox (ac_db ac') !! ar_payment_request_outbox_id res = Some row
    ∧ o_status row = Queued ∧ o_invoice_id (o_key row) = Some id
    ∧ open_intent crypto from_bytes creator_hash (ar_payment_request_outbox_id res) (o_intent_envelope (o_key row)) = Ok intent
    ∧ t_invoices (dd_pay (ac_dd ac')) !! id = Some pay ∧ iv_projection pay = undetected
    ∧ from_intent json_from_str json_value json_is_object (ar_reader_child_index res) intent = Ok record
    ∧ (plaintext ← ok (decrypt crypto (ctx_invoice_payment_record creator_hash id) (iv_payment_record_envelope (iv_columns pay)));
       decode_payment_record plaintext) = Some record
    ∧ (∀ d, pr_bitcoin record = Some d →
         let hash := bitcoin_address_lookup_hash crypto (pd_address d) in
         ac_address_owners ac !! hash = None ∧ ac_address_owners ac' !! hash = Some (OwnerInvoice id))
    ∧ ar_invoice_created_at res = now
    ∧ ar_payment_deadline res = now + ai_payment_window_seconds input * NANOS_PER_SECOND.
Proof.
  intros Hwf Hfresh H Hnew. cbv zeta.
  apply created_allocation in H as (cid & creator & acceptance & window & expires & deadline & g & intent & reference
    & plaintext & ae & oe & new & Hw & Hdl & Hlen & Hhash & Hcreator & Hal); [|done].
  pose proof (new_invoice_opens Hal Hfresh intent_reread) as Hopen.
  pose proof (new_outbox_opens Hal Hfresh intent_reread) as Hout.
  pose proof (allocation_intent_valid Hal) as (Hv & Hreader & _).
  pose proof (later_assignment crypto (allocation_rows Hal) Hcreator Hwf Hfresh (reflexivity ac')
    (allocation_preserves_wf crypto (allocation_rows Hal) Hhash Hcreator Hwf Hfresh)) as Has.
  destruct Hal. destruct al_rows0. apply sealed_invoice_ok in al_sealed0
    as (record & rp & Hrec & Hrp & Hre & _ & Hrow & _ & _ & _ & Haddr & Hnow & Hd & _).
  exists cid, creator, (advanced creator), intent, record.
  rewrite al_creators, al_allocations, al_outboxes, al_payments, al_owners. subst res. simpl.
  rewrite !lookup_insert_eq. eexists _, _, _. split_and!; try done.
  - simpl. rewrite (decrypt_encrypt _ _ _ _ _ (proj1 (proj2 Hfresh)) Hre). simpl. by apply record_reread.
  - intros d Hbtc. rewrite Haddr, Hbtc. simpl. rewrite lookup_insert_eq. split; [|done].
    unfold invoice_insertable in al_insertable. rewrite Haddr, Hbtc in al_insertable. simpl in al_insertable.
    split_bools. by destruct (ac_address_owners ac !! bitcoin_address_lookup_hash crypto (pd_address d)).
  - apply checked_add_ok in Hdl as ->. unfold validated_windows in Hw. by inv_ok.
Qed.

(** A successful creation keeps the rows and their consistency. *)
Lemma create_atomic_wf ac input fresh now res ac' :
  account_wf ac → fresh_nonces fresh → create_atomic ac input fresh now = Ok (res, ac') → account_wf ac' ∧ keeps ac ac'.
Proof.
  intros Hwf Hfresh H. apply create_atomic_ok in H as (cid & creator & acceptance & window & expires & deadline & H).
  cbv zeta in H. destruct H as (_ & Hrow & _ & _ & _ & [(-> & _)|[_ H]]); [done|].
  pose proof (creator_row_of_hash_some _ _ _ _ _ Hrow) as (_ & _ & Hh & Hc).
  apply allocate_ok in H as (? & ? & ? & ? & ? & ? & ? & Hal); [|done].
  split; [by eapply (allocation_preserves_wf crypto (allocation_rows Hal))|by eapply (allocation_keeps crypto (allocation_rows Hal))].
Qed.

(** addresses are never reused.  Every creation keeps the stored rows and the
    consistency of the tables: each invoice has the assignment of its Reader and bundle, the
    assignments of a creator open to pairwise different child indexes below its counter,
    and the index of a new invoice is above every index the creator ever assigned. *)
Theorem creation_consistent ac input fresh now res ac' :
  account_wf ac → fresh_nonces fresh →
  create_atomic ac input fresh now = Ok (res, ac') →
  account_wf ac' ∧ keeps ac ac'
  ∧ (ar_replayed res = false →
     ∀ id a index, ac_assignments ac !! id = Some a →
       creators (ac_db ac) !! as_creator_id a = Some (creator_hash_of crypto (ai_creator input)) →
       decrypt_assignment crypto (creator_hash_of crypto (ai_creator input)) id (as_assignment_envelope a) = Ok index →
       index < ar_reader_child_index res).
Proof.
  intros Hwf Hfresh H. destruct (create_atomic_wf _ _ _ _ _ _ Hwf Hfresh H) as [Hwf' Hkeeps].
  split_and!; [done..|]. intros Hnew id a index Ha Hh Hd.
  apply created_allocation in H as (cid & creator & acceptance & window & expires & deadline & g & intent & reference
    & plaintext & ae & oe & new & _ & _ & _ & Hhash & Hcreator & Hal); [|done].
  pose proof (wf_hashes _ _ Hwf _ _ _ Hh Hhash) as Hsame.
  pose proof (old_index_below crypto (allocation_rows Hal) Hhash Hcreator Hwf _ _ _ Ha Hsame Hd). destruct Hal. by subst res.
Qed.

(** new invoices are fenced.  An invoice is created only while no drain of its lock is
    active and, when it offers Bitcoin, only for the creator's current account
    generation, and it is stamped with both generations; and when a drain of the lock
    is active, a request for a bundle without an invoice is answered with a conflict. *)
Theorem creation_fenced ac input fresh now :
  let creator_hash := creator_hash_of crypto (ai_creator input) in
  let lock_hash := lookup_hash (ai_lock_resource_binding input) in
  (∀ res ac', create_atomic ac input fresh now = Ok (res, ac') → ar_replayed res = false →
     ∃ creator_id c i x,
       creators (ac_db ac) !! creator_id = Some creator_hash ∧ ac_creators ac !! creator_id = Some c
       ∧ (∀ g, generations (ac_db ac) !! (creator_id, lock_hash) = Some g →
            g_active_drain_id g = None ∧ i_lock_resource_generation i = g_current_generation g)
       ∧ (∀ expected, expected_bitcoin_account_generation (ai_payloads input) = Some expected →
            expected = cc_bitcoin_account_generation c ∧ ix_bitcoin_account_generation x = Some expected)
       ∧ invoices (ac_db ac') !! ar_invoice_id res = Some i ∧ ac_invoices ac' !! ar_invoice_id res = Some x)
  ∧ (∀ creator_id c g drain acceptance window,
       validated_windows input = Ok (acceptance, window) → now + window * NANOS_PER_SECOND <= instant_max →
       creator_row_of_hash ac creator_hash = Some (creator_id, creator_hash, c) → String.length creator_hash = 32%nat →
       existing_invoice ac creator_id (lookup_hash (ai_bundle_binding input)) = None →
       generations (ac_db ac) !! (creator_id, lock_hash) = Some g → 0 <= g_current_generation g →
       g_active_drain_id g = Some drain →
       create_atomic ac input fresh now = Err PE_Conflict).
Proof.
  cbv zeta. split.
  - intros res ac' H Hnew.
    apply created_allocation in H as (cid & creator & acceptance & window & expires & deadline & g & intent & reference
      & plaintext & ae & oe & new & _ & _ & _ & Hhash & Hcreator & []); [|done].
    destruct al_rows0. subst res. simpl. exists cid, creator, (ni_row new), (ni_allocation new).
    rewrite al_invoices, al_allocations, !lookup_insert_eq.
    clear - Hhash Hcreator al_account0 al_generation0 al_not_drained0 al_sealed0.
    unfold Allocation.sealed_invoice in al_sealed0. inv_ok. split_and!; try done.
    + intros g' Hg'. rewrite Hg' in al_generation0. destruct al_generation0 as [[= ->]|[? _]]; done.
    + intros expected Hexp. rewrite Hexp. simpl. by rewrite (al_account0 _ Hexp).
  - intros cid c g drain acceptance window Hw Hnow Hrow Hlen Hex Hg Hpos Hdrain.
    unfold Allocation.create_atomic. cbv zeta. rewrite Hw. simpl. rewrite Hrow. simpl.
    unfold stored_lookup_hash. rewrite Hlen. simpl. rewrite String.eqb_refl. simpl.
    destruct (windows_fit _ _ _ _ Hw Hnow) as [-> ->]. simpl. rewrite Hex. unfold allocate. cbv zeta.
    destruct (ensure _ PE_Conflict) as [[]|e] eqn:He; [|by destruct (match _ with Some _ => _ | None => _ end); simplify_eq/=].
    simpl. destruct (ensure_generation_lookup (ac_dd ac) cid (lookup_hash (ai_lock_resource_binding input)))
      as (g' & Hg' & Hor). unfold ac_db in *. simpl in *. rewrite Hg'. simpl.
    rewrite Hg in Hor. destruct Hor as [[= <-]|[? _]]; [|done].
    rewrite (proj2 (Z.leb_le _ _) Hpos). simpl. by rewrite Hdrain.
Qed.
End theorems.

(** ** Witnesses *)

Module Example_allocation.
#[export] Existing Instance Example_drains.drain_primitives.
#[export] Existing Instance Example_core.example_core.
#[export] Existing Instance Example_lib.example_lib.

Definition crypto : Crypto := Example_crypto.example_crypto.

Definition nonce : string := repeat_char "n" 24.

(** The JSON object of an endpoint is its [value] member. *)
Definition json_object (members : list (string * string)) : string :=
  match members with (_, value) :: _ => value | [] => "" end.

Definition lock : ContentLock := ("creator", "BTC", "500", 24).

Definition input : AtomicInvoiceInput :=
  mk_AtomicInvoiceInput (mk_CreatorPubky "creator") (mk_ReaderPubky "reader") "bundle" "creator" "binding"
    (mk_DerivedInvoicePayloads Example_create.receiving [] Mainnet Example_create.request lock PAYKIT_APP_ID) 600 3600.

Definition fresh : AllocationFresh := mk_AllocationFresh "7cceb26d" 21 nonce 22 nonce nonce 23 nonce.

Definition creator_hash : string := creator_hash_of crypto (mk_CreatorPubky "creator").

Definition empty_pay : PaymentDb := mk_PaymentDb ∅ ∅ ∅ ∅ ∅ ∅ ∅ ∅.

(** One creator, nothing sold yet. *)
Definition start : AccountDb :=
  mk_AccountDb (mk_DrainDb (mk_LifecycleDb (mk_Db ∅ {[7%N := creator_hash]} ∅ ∅ ∅ ∅ ∅) ∅ ∅ ∅ ∅) empty_pay ∅ ∅ ∅ [] ∅)
    {[7%N := mk_CreatorColumns "sealed" true 3 0]} ∅ ∅ ∅ ∅ ∅ ∅.

Definition from_str : string → option string := Some.

Definition intent : result PersistenceError DeliveryIntentV1 :=
  allocated_intent json_object Example_create.metadata_object from_str Some (λ _ _, true) PAYKIT_APP_ID
    (λ t, Some (fmt_dec t)) input "7cceb26d" 3 600000000000 3600000000000.

Definition record : result PersistenceError InvoicePaymentRecordV1 :=
  intent ≫= from_intent from_str Some (λ _ _, true) 3.

(** Codecs that know the one intent and the one record. *)
Definition to_bytes (i : DeliveryIntentV1) : option string :=
  if decide (intent = Ok i) then Some "intent" else None.

Definition from_bytes (s : string) : option DeliveryIntentV1 := if String.eqb s "intent" then ok intent else None.

#[export] Instance observations : ObservationCodec := {|
  encode_observation := Example_payments.encode_record;
  decode_observation := Example_payments.decode_record;
  decode_payment_record s := if String.eqb s "record" then ok record else None;
  encode_transfer f sender := (tf_identity f ++ sender)%string;
  take_transfer s := Some (mk_TransferFacts s 700 50, "");
  parse_outpoint := Example_payments.parse_text;
|}.

#[export] Instance codec : AllocationCodec := {|
  assignment_to_bytes a :=
    if (ra_version a =? 1) && in_u64 (ra_child_index a) then Some (fmt_dec (ra_child_index a)) else None;
  assignment_from_bytes s := mk_ReaderAssignmentV1 1 <$> parse_u64 s;
  record_to_bytes r := if decide (record = Ok r) then Some "record" else None;
|}.

Lemma codec_laws : AllocationCodecLaws codec.
Proof.
  split; simpl.
  - intros [v i] bytes. simpl. unfold in_u64. destruct (_ && _) eqn:E; [|done]. intros [= <-]. split_bools. subst v.
    by rewrite parse_u64_fmt_dec.
  - intros r bytes. case_decide as Hr; [|done]. intros [= <-]. simpl. by rewrite Hr.
Qed.

Lemma intent_reread i bytes : to_bytes i = Some bytes → from_bytes bytes = Some i.
Proof. unfold to_bytes, from_bytes. case_decide as Hi; [|done]. intros [= <-]. simpl. by rewrite Hi. Qed.

Notation create ac fresh now := (create_atomic crypto from_bytes to_bytes json_object Example_create.metadata_object
  from_str Some (λ _ _, true) PAYKIT_APP_ID (λ t, Some (fmt_dec t)) ac input fresh now).

Definition res : AtomicInvoiceResult := mk_AtomicInvoiceResult 22 23 21 3 0 3600000000000 false.

Definition created : AccountDb := match create start fresh 0 with Ok (_, ac) => ac | Err _ => start end.

Lemma create_run : create start fresh 0 = Ok (res, created).
Proof.
  unfold created. assert (match create start fresh 0 with Ok (r, _) => r = res | Err _ => False end) as Hok
    by (vm_compute; reflexivity).
  destruct (create start fresh 0) as [[r ac]|e]; [by subst r|done].
Qed.

#[local] Opaque created.

Lemma fresh_ok : fresh_nonces fresh.
Proof. unfold fresh_nonces. vm_compute. done. Qed.

(** Whatever the codecs. *)
Lemma start_wf_of {any : AllocationCodec} : account_wf crypto start.
Proof.
  split; unfold start, ac_db, dd_db; simpl; try (intros *; rewrite lookup_empty; done).
  - intros id. rewrite !lookup_singleton_is_Some. done.
  - intros id id' h. rewrite !lookup_singleton_Some. intros [<- _] [<- _]. done.
  - intros id c. rewrite lookup_singleton_Some. intros [_ <-]. simpl. lia.
Qed.

Lemma start_wf : account_wf crypto start.
Proof. apply start_wf_of. Qed.

Lemma created_wf : account_wf crypto created ∧ keeps start created.
Proof.
  pose proof Example_drains.drain_laws as L. pose proof codec_laws as C.
  exact (create_atomic_wf crypto from_bytes to_bytes json_object Example_create.metadata_object from_str Some (λ _ _, true)
    PAYKIT_APP_ID (λ t, Some (fmt_dec t)) start input fresh 0 res created start_wf fresh_ok create_run).
Qed.
End Example_allocation.
Import Example_allocation.

Lemma creation_idempotent_witness :
  create created (mk_AllocationFresh "other" 31 nonce 32 nonce nonce 33 nonce) 5 = Ok (as_replay res, created).
Proof.
  pose proof Example_drains.drain_laws as L. pose proof codec_laws as C.
  assert (validated_windows input = Ok (600, 3600)) as Hw by (vm_compute; reflexivity).
  assert (5 + 3600 * NANOS_PER_SECOND <= instant_max) as Ht by (vm_compute; congruence).
  exact (proj1 (creation_idempotent crypto from_bytes to_bytes json_object Example_create.metadata_object from_str Some
    (λ _ _, true) PAYKIT_APP_ID (λ t, Some (fmt_dec t)) intent_reread start input fresh 0 res created created input
    (mk_AllocationFresh "other" 31 nonce 32 nonce nonce 33 nonce) 5 600 3600 start_wf fresh_ok create_run eq_refl
    (reflexivity created) (proj1 created_wf) eq_refl eq_refl eq_refl eq_refl Hw Ht)).
Defined.

Lemma created_invoice_reads_back_witness :
  ∃ creator_id c, ac_creators start !! creator_id = Some c ∧ cc_next_child_index c = 3.
Proof.
  pose proof Example_drains.drain_laws as L. pose proof codec_laws as C.
  destruct (created_invoice_reads_back crypto from_bytes to_bytes json_object Example_create.metadata_object from_str Some
    (λ _ _, true) PAYKIT_APP_ID (λ t, Some (fmt_dec t)) intent_reread start input fresh 0 res created start_wf fresh_ok
    create_run eq_refl) as (cid & c & _ & _ & _ & _ & _ & _ & _ & Hc & _ & Hi & _).
  exists cid, c. split; [exact Hc|]. symmetry. exact Hi.
Defined.

Lemma creation_consistent_witness : account_wf crypto created.
Proof.
  pose proof Example_drains.drain_laws as L. pose proof codec_laws as C.
  exact (proj1 (creation_consistent crypto from_bytes to_bytes json_object Example_create.metadata_object from_str Some
    (λ _ _, true) PAYKIT_APP_ID (λ t, Some (fmt_dec t)) start input fresh 0 res created start_wf fresh_ok create_run)).
Defined.

(** The same request while a drain of the lock is active. *)
Definition drained : AccountDb :=
  set_ac_dd start (set_dd_db (ac_dd start) (set_generations (ac_db start)
    {[(7%N, Crypto.lookup_hash crypto "creator") := mk_GenerationRow 2 (Some 50%N)]})).

Lemma creation_fenced_witness : create drained fresh 0 = Err PE_Conflict.
Proof.
  assert (validated_windows input = Ok (600, 3600)) as Hw by (vm_compute; reflexivity).
  assert (0 + 3600 * NANOS_PER_SECOND <= instant_max) as Ht by (vm_compute; congruence).
  assert (creator_row_of_hash drained (creator_hash_of crypto (ai_creator input))
    = Some (7%N, creator_hash_of crypto (ai_creator input), mk_CreatorColumns "sealed" true 3 0)) as Hrow
    by (vm_compute; reflexivity).
  assert (0 <= 2) as Hp by lia.
  exact (proj2 (creation_fenced crypto from_bytes to_bytes json_object Example_create.metadata_object from_str Some
    (λ _ _, true) PAYKIT_APP_ID (λ t, Some (fmt_dec t)) drained input fresh 0)
    7%N (mk_CreatorColumns "sealed" true 3 0) (mk_GenerationRow 2 (Some 50%N)) 50%N 600 3600 Hw Ht Hrow
    eq_refl eq_refl eq_refl Hp eq_refl).
Defined.
