(* ===== verification/InvoiceService.v ===== *)
(** * InvoiceService: invoice admission on top of the store

    [CreateInvoiceService::create] ([CreateInvoice]) calls the invoice store
    ([Allocation]) for its preflight check, for an exact replay and for the transaction.
    Here the calls are answered by the store, while other requests, workers and observers
    change the tables in between, and a retried request is shown to be safe. *)

From S2P Require Import Prelude Text Effects Locks Invoice Receiving Payment Lifecycle Pricing Intent Readers Database OutboxStore CreateInvoice PaymentRecord Crypto Observations Settlement LifecycleStore Drains DrainProps Status Creators Allocation Allocated AllocationProps Sorting.
Local Open Scope string_scope.
Local Open Scope Z_scope.

Section service.
Context {core : LocksCore} {lib : PaykitLib} {locks : ContentLocks} {bip32 : Bip32}.
Context {prim : CryptoPrimitives} {observations : ObservationCodec} {codec : AllocationCodec} (crypto : Crypto).
Context {laws : CryptoLaws prim} {codec_laws : AllocationCodecLaws codec}.
Context (from_bytes : string → option DeliveryIntentV1) (to_bytes : DeliveryIntentV1 → option string).
Context (canonical_json : list (string * (string + Z)) → option string).
Context (json_object : list (string * string) → string) (metadata_object : list (string * string) → Metadata).
Context {Json : Type} (json_from_str : string → option Json)
  (json_value : Json → option string) (json_is_object : Json → list (string * string) → bool).
Context (static_app : PaykitAppId) (format_rfc3339 : Z → option string).
Context (intent_reread : ∀ i bytes, to_bytes i = Some bytes → from_bytes bytes = Some i).

Notation lookup_hash := (lookup_hash crypto).
Notation exact_replay := (exact_replay crypto from_bytes).
Notation create_atomic := (create_atomic crypto from_bytes to_bytes json_object metadata_object json_from_str json_value
  json_is_object static_app format_rfc3339).
Notation create := (create canonical_json).
Notation account_wf := (account_wf crypto).

(** ** Stored answers are stable *)

Section stable.
Context {ac later : AccountDb} (Hkeeps : keeps ac later) (Hlater : account_wf later).

Lemma creator_row_stable hash id c :
  creator_row_of_hash ac hash = Some (id, hash, c) → ∃ c', creator_row_of_hash later hash = Some (id, hash, c').
Proof.
  intros (_ & _ & Hh & _)%creator_row_of_hash_some.
  pose proof (lookup_weaken _ _ _ _ Hh (ke_creators _ _ Hkeeps)) as Hl.
  destruct (proj1 (wf_creators _ _ Hlater id)) as [c' Hc]; [by eexists|]. exists c'.
  unfold creator_row_of_hash, creator_row, creator_of_hash.
  rewrite (select_one_unique _ _ id hash); [simpl; by rewrite Hl, Hc|done|apply String.eqb_refl|].
  intros id' h Hid ->%String.eqb_eq. by eapply (wf_hashes _ _ Hlater).
Qed.

Lemma existing_invoice_stable creator_id bundle id pay x :
  existing_invoice ac creator_id bundle = Some (id, pay, x) →
  ∃ pay', existing_invoice later creator_id bundle = Some (id, pay', x) ∧ iv_columns pay' = iv_columns pay
          ∧ is_provider_v2 later id = is_provider_v2 ac id.
Proof.
  unfold existing_invoice. intros H. destruct (select_one _ _) as [[k i]|] eqn:E; [|done].
  apply select_one_some in E as [Hi Hp]. simpl in H.
  destruct (t_invoices (dd_pay (ac_dd ac)) !! k) as [pay0|] eqn:Hpay; [|done]. simpl in H.
  destruct (ac_invoices ac !! k) as [x0|] eqn:Hx; [|done]. simplify_eq/=.
  destruct (ke_payments _ _ Hkeeps _ _ Hpay) as (pay' & Hpay' & Hcols).
  pose proof (lookup_weaken _ _ _ _ Hi (ke_invoices _ _ Hkeeps)) as Hi'.
  pose proof (lookup_weaken _ _ _ _ Hx (ke_allocations _ _ Hkeeps)) as Hx'.
  split_bools. match goal with E : ld_bundles _ !! id = Some _ |- _ =>
    pose proof (lookup_weaken _ _ _ _ E (ke_bundles _ _ Hkeeps)) as Hb' end.
  exists pay'. split_and!; [|done|].
  - rewrite (select_one_unique _ _ id i); [simpl; rewrite Hpay'; simpl; by rewrite Hx'|done| |].
    + rewrite Hb'. by rewrite !bool_decide_true.
    + intros k' i' Hk' Hp'. split_bools. eapply (wf_bundle _ _ Hlater); [done|done| |done|done]. congruence.
  - unfold is_provider_v2. apply bool_decide_ext. apply (ke_provider _ _ Hkeeps). by eexists.
Qed.

Lemma load_assignment_stable creator_id reader bundle hash a :
  load_assignment crypto ac creator_id reader bundle hash = Ok (Some a) →
  load_assignment crypto later creator_id reader bundle hash = Ok (Some a).
Proof.
  unfold load_assignment, assignment_row. destruct (select_one _ _) as [[id row]|] eqn:E; [|done].
  apply select_one_some in E as [Hr Hp].
  pose proof (lookup_weaken _ _ _ _ Hr (ke_assignments _ _ Hkeeps)) as Hr'.
  rewrite (select_one_unique _ _ id row); [done|done|done|].
  intros id' a' Ha' Hp'. split_bools. eapply (wf_assignment_key _ _ Hlater); [done|done|]. unfold assignment_key. congruence.
Qed.

Lemma payment_outbox_stable invoice id :
  payment_outbox ac invoice = Some id → payment_outbox later invoice = Some id.
Proof.
  unfold payment_outbox. destruct (select_one _ _) as [[k r]|] eqn:E; [|done]. intros [= <-].
  apply select_one_some in E as [Hr Hp]. destruct (ke_outbox _ _ Hkeeps _ _ Hr) as (r' & Hr' & Hkey).
  unfold kind_is in Hp. split_bools.
  rewrite (select_one_unique _ _ k r'); [done|done| |].
  - rewrite Hkey. unfold kind_is. by rewrite !bool_decide_true.
  - intros k' r'' Hr'' Hp'. unfold kind_is in Hp'. split_bools.
    eapply (wf_proposal _ _ Hlater k' r'' k r' invoice); [done|done|done| |done|]; by rewrite Hkey.
Qed.

Lemma replay_result_stable creator_id hash reader_hash bundle payment reader existing res :
  existing_invoice ac creator_id bundle = Some existing →
  replay_result crypto from_bytes ac creator_id hash reader_hash bundle payment reader existing = Ok res →
  ∃ existing', existing_invoice later creator_id bundle = Some existing'
    ∧ replay_result crypto from_bytes later creator_id hash reader_hash bundle payment reader existing' = Ok res.
Proof.
  destruct existing as [[id pay] x]. intros Hex H.
  destruct (existing_invoice_stable _ _ _ _ _ Hex) as (pay' & Hex' & Hcols & Hprov).
  exists (id, pay', x). split; [done|]. unfold replay_result in *.
  apply bind_ok in H as ([] & Hg & H). rewrite Hprov, Hg. simpl.
  apply bind_ok in H as ([] & Hv & H). rewrite Hv. simpl.
  apply bind_ok in H as (loaded & Hl & H). apply bind_ok in H as (a & ->%ok_or_ok & H).
  rewrite (load_assignment_stable _ _ _ _ _ Hl). simpl.
  apply bind_ok in H as (o & Ho%ok_or_ok & H). rewrite (payment_outbox_stable _ _ Ho). simpl. by rewrite Hcols.
Qed.
End stable.

Lemma exact_replay_ok ac creator reader bundle payment res :
  exact_replay ac creator reader bundle payment = Ok res ↔
  let hash := creator_hash_of crypto creator in
  String.length hash = 32%nat ∧ ∃ creator_id c existing,
    creator_row_of_hash ac hash = Some (creator_id, hash, c)
    ∧ existing_invoice ac creator_id (lookup_hash bundle) = Some existing
    ∧ replay_result crypto from_bytes ac creator_id hash (lookup_hash (reader_to_string reader)) (lookup_hash bundle)
        (lookup_hash payment) reader existing = Ok res.
Proof.
  unfold Allocation.exact_replay, stored_lookup_hash. cbv zeta. split.
  - intros H. apply bind_ok in H as ([[cid stored] c] & Hrow%ok_or_ok & H).
    pose proof (creator_row_of_hash_some _ _ _ _ _ Hrow) as (_ & -> & _).
    apply bind_ok in H as (hash & Hh & H). apply bind_ok in Hh as (? & Hl%ensure_ok%Nat.eqb_eq & _).
    apply bind_ok in H as (? & _ & H). apply bind_ok in H as (existing & Hex%ok_or_ok & H). split; [done|]. eauto 10.
  - intros (Hlen & cid & c & existing & Hrow & Hex & H). rewrite Hrow. simpl. rewrite Hlen. simpl.
    rewrite String.eqb_refl. simpl. by rewrite Hex.
Qed.

(** The stored answer to a request survives whatever keeps the rows. *)
Lemma exact_replay_stable ac later creator reader bundle payment res :
  keeps ac later → account_wf later →
  exact_replay ac creator reader bundle payment = Ok res → exact_replay later creator reader bundle payment = Ok res.
Proof.
  intros Hk Hw (Hlen & cid & c & existing & Hrow & Hex & H)%exact_replay_ok. apply exact_replay_ok.
  destruct (creator_row_stable Hk Hw _ _ _ Hrow) as [c' Hrow'].
  destruct (replay_result_stable Hk Hw _ _ _ _ _ _ _ _ Hex H) as (existing' & Hex' & H'). eauto 10.
Qed.

Lemma replay_result_replayed ac creator_id hash reader_hash bundle payment reader existing res :
  replay_result crypto from_bytes ac creator_id hash reader_hash bundle payment reader existing = Ok res →
  res = as_replay res.
Proof. unfold replay_result. destruct existing as [[id pay] x]. intros H. by inv_ok. Qed.

Lemma exact_replay_replayed ac creator reader bundle payment res :
  exact_replay ac creator reader bundle payment = Ok res → res = as_replay res.
Proof. intros (_ & ? & ? & ? & _ & _ & H)%exact_replay_ok. by eapply replay_result_replayed. Qed.

(** After the transaction, the request has its stored answer. *)
Lemma created_answer ac input fresh now res ac' :
  account_wf ac → fresh_nonces fresh → create_atomic ac input fresh now = Ok (res, ac') →
  exact_replay ac' (ai_creator input) (ai_reader input) (ai_bundle_binding input) (ai_payment_request_binding input)
  = Ok (as_replay res).
Proof.
  intros Hwf Hfresh H. apply exact_replay_ok. cbv zeta.
  pose proof (create_atomic_wf _ _ _ _ _ _ _ _ _ _ _ _ _ _ _ _ Hwf Hfresh H) as [Hwf' _].
  apply create_atomic_ok in H as (cid & creator & acceptance & window & expires & deadline & H). cbv zeta in H.
  destruct H as (_ & Hrow & Hlen & _ & _ & [(-> & existing & Hex & H)|[_ H]]); (split; [done|]).
  - rewrite <- (replay_result_replayed _ _ _ _ _ _ _ _ _ H). eauto 10.
  - pose proof (creator_row_of_hash_some _ _ _ _ _ Hrow) as (_ & _ & Hh & Hc).
    apply allocate_ok in H as (g & intent & reference & plaintext & ae & oe & new & Hal); [|done].
    destruct (later_creator crypto (allocation_rows _ _ _ _ _ _ _ _ _ Hal) Hh (reflexivity ac') Hwf') as [c' Hrow'].
    destruct (later_invoice crypto (allocation_rows _ _ _ _ _ _ _ _ _ Hal) Hwf (reflexivity ac') Hwf') as (pay & Hex & _).
    exists cid, c', (af_invoice_id fresh, pay, ni_allocation new). split_and!; [done..|].
    rewrite (later_replay crypto _ _ _ _ _ _ _ _ _ Hal Hc Hwf Hfresh intent_reread (reflexivity ac') Hwf' _ Hex).
    destruct Hal. by subst res.
Qed.

Lemma answered_preflight ac creator reader bundle payment res :
  exact_replay ac creator reader bundle payment = Ok res →
  preflight crypto ac creator bundle payment = PreflightExactReplay.
Proof.
  intros (_ & cid & c & [[id pay] x] & Hrow & Hex & H)%exact_replay_ok.
  apply creator_row_of_hash_some in Hrow as (Hc & _). unfold preflight. rewrite Hc. simpl. rewrite Hex.
  unfold replay_result in H. by apply bind_ok in H as ([] & ->%ensure_ok & _).
Qed.

(** ** The service over the store *)

(** The calls of [create] answered by the store: [tables] are the tables of a state, and a
    call may be accompanied by any other work that keeps the stored rows.  Timeouts,
    outages and the answers of the other services are arbitrary. *)
Record store_backed {S} (tables : S → AccountDb) (h : ∀ X, Call X → S → X * S) : Prop := {
  sb_kept : ∀ X (e : Call X) s, account_wf (tables s) →
    account_wf (tables (h X e s).2) ∧ keeps (tables s) (tables (h X e s).2);
  sb_preflight : ∀ b creator bundle payment s a s',
    h _ (Preflight b creator bundle payment) s = (Some (Ok a), s') → a = preflight crypto (tables s) creator bundle payment;
  sb_replay : ∀ b creator reader bundle payment s res s',
    h _ (CreateInvoice.ExactReplay b creator reader bundle payment) s = (Some (Ok res), s') →
    exact_replay (tables s) creator reader bundle payment = Ok res;
  sb_create : ∀ input s res s', h _ (CreateAtomic input) s = (Ok res, s') →
    ∃ fresh now, fresh_nonces fresh ∧ create_atomic (tables s) input fresh now = Ok (res, tables s');
}.

Section runs.
Context {S : Type} (tables : S → AccountDb) (h : ∀ X, Call X → S → X * S) (Hstore : store_backed tables h).

(** Consistent tables stay consistent and keep their rows. *)
Definition onward (s s' : S) : Prop :=
  account_wf (tables s) → account_wf (tables s') ∧ keeps (tables s) (tables s').

#[local] Instance onward_preorder : PreOrder onward.
Proof.
  split; [by intros s H|]. intros a b c Hab Hbc Ha. destruct (Hab Ha) as [Hb Kab]. destruct (Hbc Hb) as [Hc Kbc].
  split; [done|by etrans].
Qed.

Lemma run_onward {A} (p : prog Call A) s res s' tr :
  exec h p s = (res, s', tr) →
  onward s s' ∧ ∀ ev, ev ∈ tr → ∃ s0 s1, onward s s0 ∧ answered h ev s0 s1 ∧ onward s1 s'.
Proof. apply (exec_related onward). intros X e s0. unfold onward. apply (sb_kept _ _ Hstore). Qed.

Definition request_answer (ac : AccountDb) (r : CreateInvoiceRequest) (binding : string) :
    result PersistenceError AtomicInvoiceResult :=
  exact_replay ac (resource_creator (cr_lock_resource r)) (cr_reader r) (bundle_to_string (cr_bundle_id r)) binding.

(** A request that succeeded has its answer stored. *)
Lemma run_answer sv r s res s' tr :
  account_wf (tables s) → exec h (create sv r) s = (Ok res, s', tr) →
  ∃ binding, request_binding canonical_json r = Ok binding ∧ request_answer (tables s') r binding = Ok (as_replay res).
Proof.
  intros Hwf H. pose proof (run_onward _ _ _ _ _ H) as [_ Hev].
  apply (exec_all_runs _ _ _ _ _ _ _ (create_runs _ sv r)) in H as [[_ Hrun]|(started & b & binding & pre & input & x & -> & Hi & Hb & _ & Hres & Had)].
  - destruct (Hrun res eq_refl) as (b & b' & binding & Hb & _ & Hlast). exists binding. split; [done|].
    apply last_Some_elem_of in Hlast. destruct (Hev _ Hlast) as (s0 & s1 & H0 & Ha & H1).
    apply (sb_replay _ _ Hstore) in Ha as Hr. pose proof (exact_replay_replayed _ _ _ _ _ _ Hr) as <-.
    destruct (H0 Hwf) as [Hw0 _]. pose proof (sb_kept _ _ Hstore _ (CreateInvoice.ExactReplay b' (resource_creator (cr_lock_resource r))
      (cr_reader r) (bundle_to_string (cr_bundle_id r)) binding) s0 Hw0) as [Hw1 Hk1].
    simpl in Ha. rewrite Ha in Hw1, Hk1. simpl in Hw1, Hk1. destruct (H1 Hw1) as [Hw' Hk'].
    unfold request_answer. eapply exact_replay_stable; [exact (transitivity Hk1 Hk')|done|done].
  - destruct x as [created|e]; simpl in Hres; [injection Hres as ->|done]. exists binding. split; [done|].
    destruct (Hev (Ev (CreateAtomic input) (Ok created))) as (s0 & s1 & H0 & Ha & H1).
    { apply elem_of_cons. right. apply elem_of_app. right. by apply list_elem_of_singleton. }
    simpl in Ha. apply (sb_create _ _ Hstore) in Ha as (fresh & now & Hfresh & Hc). destruct (H0 Hwf) as [Hw0 _].
    pose proof (create_atomic_wf _ _ _ _ _ _ _ _ _ _ _ _ _ _ _ _ Hw0 Hfresh Hc) as [Hw1 _].
    apply created_answer in Hc; [|done..]. destruct (H1 Hw1) as [Hw' Hk'].
    unfold request_answer. eapply exact_replay_stable; [done|done|].
    destruct (ad_identity _ _ _ _ _ _ Had) as (<- & <- & <- & _ & <-). exact Hc.
Qed.

(** a retried request is safe.  When a request was answered with an invoice, the same
    request answered again later, whatever the service configuration, the remote services
    and all other work did in between, gets the same invoice, outbox row, assignment, child
    index and deadline marked as a replay, and does not start a transaction at all. *)
Theorem retried_request_same_invoice sv sv' r s res s1 tr s2 res' s3 tr' :
  account_wf (tables s) → exec h (create sv r) s = (Ok res, s1, tr) →
  account_wf (tables s2) → keeps (tables s1) (tables s2) →
  exec h (create sv' r) s2 = (Ok res', s3, tr') →
  res' = as_replay res ∧ ∀ ev, ev ∈ tr' → is_transaction ev = false.
Proof.
  intros Hwf H Hwf2 Hk H'. destruct (run_answer _ _ _ _ _ _ Hwf H) as (binding & Hb & Ha).
  assert (request_answer (tables s2) r binding = Ok (as_replay res)) as Ha2 by (by eapply exact_replay_stable).
  pose proof (run_onward _ _ _ _ _ H') as [_ Hev].
  assert (∀ s0, onward s2 s0 → request_answer (tables s0) r binding = Ok (as_replay res)) as Hlater.
  { intros s0 H0. destruct (H0 Hwf2). by eapply exact_replay_stable. }
  apply (exec_all_runs _ _ _ _ _ _ _ (create_runs _ sv' r)) in H' as [[Hi Hrun]|(started & b & binding' & pre & input & x & -> & Hi & Hb' & Hpre & _)].
  - split; [|intros ev Hin; rewrite Forall_forall in Hi; apply (Hi _ Hin)].
    destruct (Hrun res' eq_refl) as (b & b' & binding' & Hb' & _ & Hlast). simplify_eq.
    apply last_Some_elem_of in Hlast. destruct (Hev _ Hlast) as (s0 & s4 & H0 & Hans & _).
    apply (sb_replay _ _ Hstore) in Hans. specialize (Hlater _ H0). unfold request_answer in Hlater. congruence.
  - exfalso. rewrite Hb in Hb'. injection Hb' as <-. destruct (Hev (Ev (Preflight b (resource_creator (cr_lock_resource r))
      (bundle_to_string (cr_bundle_id r)) binding) (Some (Ok PreflightNew)))) as (s0 & s4 & H0 & Hans & _).
    { apply elem_of_cons. right. apply elem_of_app. left. exact Hpre. }
    apply (sb_preflight _ _ Hstore) in Hans. specialize (Hlater _ H0). apply answered_preflight in Hlater. congruence.
Qed.
End runs.
End service.

(** ** Witness *)

Module Example_invoices.
Import Example_allocation.

Definition service : CreateInvoiceService :=
  mk_CreateInvoiceService PAYKIT_APP_ID false true Mainnet 600000000000 3600000000000 3600000000000.

Notation replay ac := (exact_replay crypto from_bytes ac).

Notation create_on ac input := (create_atomic crypto from_bytes to_bytes json_object Example_create.metadata_object
  from_str Some (λ _ _, true) PAYKIT_APP_ID (λ t, Some (fmt_dec t)) ac input fresh 0).

(** The store answers from its tables, every other service at once. *)
Definition handler (X : Type) (e : Call X) (s : AccountDb) : X * AccountDb :=
  match e in Call Y return Y * AccountDb with
  | Now => (0, s)
  | Preflight _ creator bundle payment => (Some (Ok (preflight crypto s creator bundle payment)), s)
  | CreateInvoice.ExactReplay _ creator reader bundle payment => (Some (replay s creator reader bundle payment), s)
  | ValidateSession _ _ => (Some (Ok tt), s)
  | FetchLock _ _ => (Some (Ok lock), s)
  | Discover _ _ => (Some (Ok (Some Example_create.registry)), s)
  | RetryWait _ _ => (Some tt, s)
  | Authorization _ _ => (Some (Ok AuthVerified), s)
  | Receiving _ _ => (Some (Ok Example_create.receiving), s)
  | UsdPerBtc _ => (Some (Ok "81000.00"), s)
  | CreateAtomic input =>
      match create_on s input with Ok (r, ac) => (Ok r, ac) | Err e => (Err e, s) end
  end.

Lemma handler_store_backed :
  store_backed crypto from_bytes to_bytes json_object Example_create.metadata_object from_str Some (λ _ _, true)
    PAYKIT_APP_ID (λ t, Some (fmt_dec t)) (λ s, s) handler.
Proof.
  pose proof Example_drains.drain_laws as L. pose proof codec_laws as C. split.
  - intros X e s Hwf. destruct e; try (split; [exact Hwf|reflexivity]).
    simpl. destruct (create_on s input0) as [[r ac]|e] eqn:E; [|split; [exact Hwf|reflexivity]].
    eapply create_atomic_wf; [exact L|exact C|exact Hwf|exact fresh_ok|exact E].
  - simpl. intros b creator bundle payment s a s' H. injection H as <- _. reflexivity.
  - simpl. intros b creator reader bundle payment s res s' H. injection H as H _. exact H.
  - simpl. intros input s res s' H. exists fresh, 0. split; [exact fresh_ok|].
    destruct (create_on s input) as [[r ac]|e]; [|discriminate H]. injection H as <- <-. reflexivity.
Qed.

Notation run s := (exec handler (CreateInvoice.create Example_create.canonical_json service Example_create.request) s).

Lemma first_run : (run start).1.1 = Ok res.
Proof. vm_compute. reflexivity. Qed.

Lemma second_run : (run created).1.1 = Ok (as_replay res).
Proof. vm_compute. reflexivity. Qed.

Lemma first_tables : (run start).1.2 = created.
Proof. vm_compute. reflexivity. Qed.
End Example_invoices.
Import Example_allocation Example_invoices.

Lemma retried_request_same_invoice_witness :
  (run created).1.1 = Ok (as_replay res) ∧ ∀ ev, ev ∈ (run created).2 → is_transaction ev = false.
Proof.
  pose proof Example_drains.drain_laws as L. pose proof codec_laws as C.
  pose proof first_run as H1. pose proof second_run as H2. pose proof first_tables as Ht.
  pose proof (surjective_pairing_3 (run start)) as E1. pose proof (surjective_pairing_3 (run created)) as E2.
  rewrite H1, Ht in E1. rewrite H2 in E2. split; [exact H2|].
  exact (proj2 (retried_request_same_invoice crypto from_bytes to_bytes Example_create.canonical_json json_object
    Example_create.metadata_object from_str Some (λ _ _, true) PAYKIT_APP_ID (λ t, Some (fmt_dec t)) intent_reread
    (λ s, s) handler handler_store_backed service service Example_create.request start res created (run start).2
    created (as_replay res) (run created).1.2 (run created).2 start_wf E1 (proj1 created_wf) (reflexivity created) E2)).
Defined.
