(* ===== verification/Targets.v ===== *)
(** * Targets: what the Bitcoin observer watches, and the integrity scan
    ([persistence/invoices.rs], [bitcoin.rs])

    Before a round the observer asks the store for its targets.  The query first expires
    the invoices whose deadline passed unpaid, commits, and then opens the record of every
    invoice that still needs watching; a row that does not authenticate fails the
    round, but what was expired stays expired.  At start the server scans all records and
    observations the same way. *)

From S2P Require Import Prelude Text Locks Invoice Receiving Payment Lifecycle Pricing Intent Readers Database OutboxStore CreateInvoice PaymentRecord Crypto Observations Settlement LifecycleStore Drains DrainProps Status Creators Allocation Allocated AllocationProps Sorting.
Local Open Scope string_scope.
Local Open Scope Z_scope.

Record TrackedOutput := mk_TrackedOutput {
  to_outpoint : BitcoinOutpoint;
  to_sats : Z;
}.

Record ObservationTarget := mk_ObservationTarget {
  ot_address : string;
  ot_current : option TrackedOutput;
}.

(** [EXISTS (SELECT 1 FROM invoice_provider_v2 ..)] *)
Definition has_provider (pay : PaymentDb) (invoice : RowId) : bool := is_some (t_provider_v2 pay !! invoice).

(** ** Expiry *)

(** The [WHERE] clauses of the two updates: unmatched invoices of the first contract,
    provider invoices without threshold evidence. *)
Definition expires (pay : PaymentDb) (now : Z) (id : RowId) (i : PaymentInvoice) : bool :=
  is_none (iv_payment_expired_at (iv_projection i)) && (iv_payment_deadline (iv_columns i) <? now)
  && (if has_provider pay id then is_none (t_evidence pay !! id)
      else is_none (iv_first_matched_at (iv_projection i))).

Definition with_expired_at (p : ProjectionColumns) (at_ : Z) : ProjectionColumns :=
  mk_ProjectionColumns (iv_payment_status p) (iv_confirmation_count p) (iv_amount_matched p) (iv_first_matched_at p)
    (iv_first_matched_outpoint p) (Some at_).

Definition expire_overdue (pay : PaymentDb) (now : Z) : PaymentDb :=
  set_invoices pay (map_imap (λ id i, Some (if expires pay now id i
    then mk_PaymentInvoice (iv_columns i) (with_expired_at (iv_projection i) now) else i)) (t_invoices pay)).

(** ** Targets *)

(** A present output with six confirmations that matched in time. *)
Definition timely_final (pay : PaymentDb) (invoice : RowId) (o : ObservationRow) : bool :=
  bool_decide ((invoice, ob_outpoint_lookup_hash o) ∈ t_timely pay) && ob_present o && (6 <=? ob_confirmations o).

Definition active_observation (pay : PaymentDb) (invoice : RowId) : option (RowId * ObservationRow) :=
  select_one (λ _ o, active_for invoice o) (t_observations pay).

(** The rows of the query, by invoice id. *)
Definition target_rows (pay : PaymentDb) (now : Z) :
    list (RowId * PaymentInvoice * string * option (RowId * ObservationRow)) :=
  omap (λ '(id, i),
    match iv_address_lookup_hash (iv_columns i) with
    | Some address_hash =>
        let active := active_observation pay id in
        if (negb (has_provider pay id) || (now <? iv_payment_deadline (iv_columns i)))
           && negb (match active with Some (_, o) => timely_final pay id o | None => false end)
        then Some (id, i, address_hash, active) else None
    | None => None
    end) (sort_by id_compare (map_to_list (t_invoices pay))).

Section targets.
Context {prim : CryptoPrimitives} {codec : ObservationCodec} (crypto : Crypto).

(** The output the active row is bound to. *)
Definition tracked_output (creator_hash : string) (invoice id : RowId) (o : ObservationRow) :
    result PersistenceError TrackedOutput :=
  plaintext ← map_err (λ _, PE_CorruptOrMissing)
    (decrypt crypto (ctx_bitcoin_observation_for_invoice creator_hash id invoice) (ob_envelope o));
  record ← ok_or (decode_observation plaintext) PE_CorruptOrMissing;
  ensure ((bo_version record =? 1)
          && String.eqb (ob_outpoint_lookup_hash o) (bitcoin_outpoint_lookup_hash crypto (bo_outpoint record)))
    PE_CorruptOrMissing;;
  outpoint ← parse_canonical_bitcoin_outpoint (bo_outpoint record);
  Ok (mk_TrackedOutput outpoint (bo_observed_sats record)).

Definition final_output (o : ObservationRow) (current : TrackedOutput) (required : Z) : bool :=
  ob_present o && (6 <=? ob_confirmations o) && (required <=? to_sats current).

(** One row as a target; [None] when its output is final. *)
Definition row_target (ac : AccountDb) (row : RowId * PaymentInvoice * string * option (RowId * ObservationRow)) :
    result PersistenceError (option ObservationTarget) :=
  let '(id, i, address_hash, active) := row in
  x ← ok_or (ac_invoices ac !! id) PE_CorruptOrMissing;
  creator_hash ← stored_lookup_hash (iv_creator_lookup_hash (iv_columns i));
  payment ← decrypt_payment_record crypto creator_hash id (iv_payment_record_envelope (iv_columns i));
  destination ← ok_or (pr_bitcoin payment) PE_CorruptOrMissing;
  ensure ((pr_version payment =? 1)
          && String.eqb address_hash (bitcoin_address_lookup_hash crypto (pd_address destination))
          && String.eqb (ix_derivation_index_lookup_hash x)
               (bitcoin_derivation_index_lookup_hash crypto creator_hash (pr_derivation_index payment)))
    PE_CorruptOrMissing;;
  current ← transpose ((λ '(oid, o), tracked_output creator_hash id oid o) <$> active);
  Ok (if match active, current with
         | Some (_, o), Some output => final_output o output (pd_required_amount destination)
         | _, _ => false
         end
      then None else Some (mk_ObservationTarget (pd_address destination) current)).

(** [into_iter().flatten().collect()] *)
Definition flattened (l : list (option ObservationTarget)) : list ObservationTarget := omap (λ t, t) l.

(** [observation_targets]: the expiry is committed before the rows are opened. *)
Definition observation_targets (ac : AccountDb) (now : Z) :
    result PersistenceError (list ObservationTarget) * AccountDb :=
  let pay := expire_overdue (dd_pay (ac_dd ac)) now in
  let ac := set_ac_dd ac (set_pay (ac_dd ac) pay) in
  (flattened <$> collect (row_target ac) (target_rows pay now), ac).

(** The deadline of the provider invoice behind an address. *)
Definition provider_deadline (pay : PaymentDb) (target : ObservationTarget) : option Z :=
  match head (sort_by id_compare (filter (λ kv, Is_true (
           has_provider pay kv.1
           && bool_decide (iv_address_lookup_hash (iv_columns kv.2)
                           = Some (bitcoin_address_lookup_hash crypto (ot_address target)))))
           (map_to_list (t_invoices pay)))) with
  | Some (_, i) => Some (iv_payment_deadline (iv_columns i))
  | None => None
  end.

Definition fence_observation_targets (pay : PaymentDb) (targets : list ObservationTarget) (now : Z) :
    Z * list ObservationTarget :=
  (now, filter (λ t, Is_true (match provider_deadline pay t with
                              | Some deadline => now <? deadline
                              | None => true
                              end)) targets).

(** ** The integrity scan *)

Definition scan_invoice (ac : AccountDb) (row : RowId * PaymentInvoice) : result PersistenceError unit :=
  let '(id, i) := row in
  x ← ok_or (ac_invoices ac !! id) PE_CorruptOrMissing;
  creator_hash ← stored_lookup_hash (iv_creator_lookup_hash (iv_columns i));
  record ← decrypt_payment_record crypto creator_hash id (iv_payment_record_envelope (iv_columns i));
  record_usdt_address record;;
  ensure ((pr_version record =? 1)
          && bool_decide (iv_address_lookup_hash (iv_columns i)
                          = (λ d, bitcoin_address_lookup_hash crypto (pd_address d)) <$> pr_bitcoin record)
          && String.eqb (ix_derivation_index_lookup_hash x)
               (bitcoin_derivation_index_lookup_hash crypto creator_hash (pr_derivation_index record)))
    PE_CorruptOrMissing.

Definition scan_observation (pay : PaymentDb) (row : RowId * ObservationRow) : result PersistenceError unit :=
  let '(id, o) := row in
  match (invoice ← ob_invoice_id o; i ← t_invoices pay !! invoice; Some (invoice, i)) with
  | Some (invoice, i) =>
      creator_hash ← stored_lookup_hash (iv_creator_lookup_hash (iv_columns i));
      plaintext ← map_err (λ _, PE_CorruptOrMissing)
        (decrypt crypto (ctx_bitcoin_observation_for_invoice creator_hash id invoice) (ob_envelope o));
      record ← ok_or (decode_observation plaintext) PE_CorruptOrMissing;
      ensure ((bo_version record =? 1)
              && String.eqb (ob_outpoint_lookup_hash o) (bitcoin_outpoint_lookup_hash crypto (bo_outpoint record)))
        PE_CorruptOrMissing
  | None => Ok tt
  end.

Definition scan_receipt (pay : PaymentDb) (row : RowId * UsdtRow) : result PersistenceError unit :=
  let '(id, r) := row in
  match (invoice ← us_invoice_id r; i ← t_invoices pay !! invoice; Some (invoice, i)) with
  | Some (invoice, i) =>
      creator_hash ← stored_lookup_hash (iv_creator_lookup_hash (iv_columns i));
      transfer_facts crypto id invoice creator_hash (us_envelope r) (us_transfer_lookup_hash r);;
      Ok tt
  | None => Ok tt
  end.

(** Every failure is the same error, so the order of the rows does not matter. *)
Definition scan_payment_record_integrity (ac : AccountDb) : result PersistenceError unit :=
  let pay := dd_pay (ac_dd ac) in
  collect (scan_invoice ac) (map_to_list (t_invoices pay));;
  collect (scan_observation pay) (map_to_list (t_observations pay));;
  collect (scan_receipt pay) (map_to_list (t_usdt pay));;
  Ok tt.
End targets.

(** ** Theorems *)

Lemma map_imap_Some_lookup {V W} (f : RowId → V → W) (t : gmap RowId V) id :
  map_imap (λ k v, Some (f k v)) t !! id = f id <$> t !! id.
Proof. rewrite map_lookup_imap. by destruct (t !! id). Qed.

Lemma expire_lookup pay now id :
  t_invoices (expire_overdue pay now) !! id =
  (λ i, if expires pay now id i then mk_PaymentInvoice (iv_columns i) (with_expired_at (iv_projection i) now) else i)
    <$> t_invoices pay !! id.
Proof. unfold expire_overdue. simpl. apply map_imap_Some_lookup. Qed.

Lemma elem_of_target_rows pay now id i hash active :
  (id, i, hash, active) ∈ target_rows pay now ↔
  t_invoices pay !! id = Some i ∧ iv_address_lookup_hash (iv_columns i) = Some hash ∧ active = active_observation pay id
  ∧ (has_provider pay id = false ∨ now < iv_payment_deadline (iv_columns i))
  ∧ (∀ oid o, active = Some (oid, o) → timely_final pay id o = false).
Proof.
  unfold target_rows. rewrite list_elem_of_omap. split.
  - intros ([id' i'] & Hin & H). rewrite elem_of_sort_by, elem_of_map_to_list in Hin.
    destruct (iv_address_lookup_hash (iv_columns i')) as [h|] eqn:Hh; [|done]. cbv zeta in H.
    destruct (_ && _) eqn:E; [|done]. injection H as -> -> -> <-. apply andb_true_iff in E as [E1 E2].
    split_and!; [done..| |].
    + apply orb_true_iff in E1 as [E1|E1]; split_bools; auto.
    + intros oid o Ha. rewrite Ha in E2. by split_bools.
  - intros (Hi & Hh & -> & Hp & Hf). exists (id, i). rewrite elem_of_sort_by, elem_of_map_to_list. split; [done|].
    rewrite Hh. cbv zeta. rewrite (proj2 (andb_true_iff _ _)); [done|]. split.
    + apply orb_true_iff. destruct Hp as [->|Hp]; [by left|right; by apply Z.ltb_lt].
    + destruct (active_observation pay id) as [[oid o]|] eqn:Ha; [|done]. by rewrite (Hf _ _ eq_refl).
Qed.

(** expiry is exact and final.  Asking for targets, whether it succeeds or not, changes
    nothing but the expiry of invoices: an invoice is expired afterwards iff it was before,
    or its deadline lies before the clock and it has no timely payment on record (no
    match in the first contract, no threshold evidence for a provider); an expiry once
    set is never moved, and a new one carries the clock. *)
Theorem expiry_exact {prim : CryptoPrimitives} {codec : ObservationCodec} crypto ac now targets ac' :
  observation_targets crypto ac now = (targets, ac') →
  let pay := dd_pay (ac_dd ac) in
  (∃ t, ac' = set_ac_dd ac (set_pay (ac_dd ac) (set_invoices pay t)))
  ∧ ∀ id, match t_invoices pay !! id, t_invoices (dd_pay (ac_dd ac')) !! id with
          | Some i, Some i' =>
              iv_columns i' = iv_columns i
              ∧ iv_projection i' = (if expires pay now id i then with_expired_at (iv_projection i) now else iv_projection i)
              ∧ (∀ t, iv_payment_expired_at (iv_projection i) = Some t → iv_payment_expired_at (iv_projection i') = Some t)
              ∧ (is_some (iv_payment_expired_at (iv_projection i')) = true ↔
                 is_some (iv_payment_expired_at (iv_projection i)) = true
                 ∨ iv_payment_deadline (iv_columns i) < now
                   ∧ (if has_provider pay id then t_evidence pay !! id = None
                      else iv_first_matched_at (iv_projection i) = None))
          | None, None => True
          | _, _ => False
          end.
Proof.
  unfold observation_targets. intros [= _ <-]. cbv zeta. split; [by eexists|]. intros id. simpl. rewrite map_imap_Some_lookup.
  destruct (t_invoices _ !! id) as [i|]; simpl; [|done]. unfold expires.
  destruct (iv_payment_expired_at (iv_projection i)) as [t|] eqn:He; simpl.
  { rewrite He. split_and!; [done|done|by intros|naive_solver]. }
  destruct (iv_payment_deadline (iv_columns i) <? now) eqn:Hd; simpl; split_bools.
  2: { rewrite He. split_and!; [done|done|done|]. simpl. split; [done|]. intros [?|[? _]]; [done|lia]. }
  destruct (if has_provider _ id then _ else _) eqn:Hp; simpl.
  - split_and!; [done|done|done|]. split; [|done]. intros _. right. split; [done|].
    destruct (has_provider _ id); [by destruct (t_evidence _ !! id)|by destruct (iv_first_matched_at _)].
  - rewrite He. split_and!; [done|done|done|]. simpl. split; [done|]. intros [?|[_ Hn]]; [done|].
    destruct (has_provider _ id); by rewrite Hn in Hp.
Qed.

Section theorems.
Context {prim : CryptoPrimitives} {codec : ObservationCodec} (crypto : Crypto).

Lemma Forall2_in {A B} (R : A → B → Prop) l k :
  Forall2 R l k → (∀ x, x ∈ l → ∃ y, y ∈ k ∧ R x y) ∧ (∀ y, y ∈ k → ∃ x, x ∈ l ∧ R x y).
Proof.
  induction 1 as [|x y l k Hxy _ [IH1 IH2]]; [by split; intros ? ?%not_elem_of_nil|].
  split; intros z [->|Hz]%elem_of_cons; setoid_rewrite elem_of_cons; [by eauto| |by eauto|].
  - destruct (IH1 _ Hz) as (w & ? & ?). eauto.
  - destruct (IH2 _ Hz) as (w & ? & ?). eauto.
Qed.

Lemma row_target_ok ac id i hash active o :
  row_target crypto ac (id, i, hash, active) = Ok o →
  ∃ creator_hash d current,
    hash = bitcoin_address_lookup_hash crypto (pd_address d)
    ∧ transpose ((λ '(oid, ob), tracked_output crypto creator_hash id oid ob) <$> active) = Ok current
    ∧ o = if match active, current with
             | Some (_, ob), Some output => final_output ob output (pd_required_amount d)
             | _, _ => false
             end
          then None else Some (mk_ObservationTarget (pd_address d) current).
Proof.
  unfold row_target. intros H. apply bind_ok in H as (x & _ & H). apply bind_ok in H as (ch & _ & H).
  apply bind_ok in H as (payment & _ & H). apply bind_ok in H as (d & _ & H).
  apply bind_ok in H as (? & Hg%ensure_ok & H). apply bind_ok in H as (current & Hcur & [= <-]).
  exists ch, d, current. by split_bools.
Qed.

(** no payable invoice goes unwatched.  When the targets are returned, every invoice
    with a Bitcoin address is among them, with its authenticated address and the output it
    is bound to, as long as a provider deadline has not passed and its output is not yet
    final (present with six confirmations); and every target is the authenticated address
    of a stored invoice. *)
Theorem watch_list_complete ac now targets ac' :
  observation_targets crypto ac now = (Ok targets, ac') →
  let pay := dd_pay (ac_dd ac) in
  (∀ id i hash, t_invoices pay !! id = Some i → iv_address_lookup_hash (iv_columns i) = Some hash →
     has_provider pay id = false ∨ now < iv_payment_deadline (iv_columns i) →
     (∀ oid o, active_observation pay id = Some (oid, o) → ob_present o && (6 <=? ob_confirmations o) = false) →
     ∃ t, t ∈ targets ∧ bitcoin_address_lookup_hash crypto (ot_address t) = hash
          ∧ (is_some (ot_current t) = true ↔ is_some (active_observation pay id) = true))
  ∧ (∀ t, t ∈ targets → ∃ id i, t_invoices pay !! id = Some i
       ∧ iv_address_lookup_hash (iv_columns i) = Some (bitcoin_address_lookup_hash crypto (ot_address t))).
Proof.
  unfold observation_targets. cbv zeta. intros [= H _]. apply fmap_ok in H as (rows & H%collect_ok_Forall2 & ->). split.
  - intros id i hash Hi Hh Hp Hf. set (pay := expire_overdue _ now) in H.
    assert (∃ i', t_invoices pay !! id = Some i' ∧ iv_columns i' = iv_columns i) as (i' & Hi' & Hc).
    { unfold pay. rewrite expire_lookup, Hi. simpl. eexists. split; [done|]. by destruct (expires _ _ _ _). }
    assert ((id, i', hash, active_observation pay id) ∈ target_rows pay now) as Hin.
    { apply elem_of_target_rows. rewrite Hc. split_and!; [done..|]. intros oid o Ha. unfold timely_final.
      rewrite <- andb_assoc, (Hf _ _ Ha). apply andb_false_r. }
    apply (proj1 (Forall2_in _ _ _ H)) in Hin as (o & Ho & (ch & d & current & -> & Hcur & Hrow)%row_target_ok).
    change (active_observation pay id) with (active_observation (dd_pay (ac_dd ac)) id) in *.
    exists (mk_ObservationTarget (pd_address d) current). split_and!; [|done|].
    + unfold flattened. apply list_elem_of_omap. exists o. split; [done|]. rewrite Hrow.
      destruct (active_observation _ id) as [[oid ob]|] eqn:Ha; [|done]. destruct current as [out|]; [|done].
      unfold final_output. by rewrite (Hf _ _ eq_refl).
    + simpl. destruct (active_observation _ id) as [[oid ob]|] eqn:Ha; simpl in Hcur.
      * destruct (tracked_output crypto ch id oid ob); [|done]. by injection Hcur as <-.
      * by injection Hcur as <-.
  - intros t Ht. unfold flattened in Ht. apply list_elem_of_omap in Ht as (o & Ho & ->).
    apply (proj2 (Forall2_in _ _ _ H)) in Ho as ([[[id i] hash] active] & Hin & (ch & d & current & -> & _ & Hrow)%row_target_ok).
    apply elem_of_target_rows in Hin as (Hi & Hh & _). rewrite expire_lookup in Hi.
    destruct (t_invoices (dd_pay (ac_dd ac)) !! id) as [i0|] eqn:E; [|done]. simpl in Hi. injection Hi as Hi.
    exists id, i0. split; [done|]. assert (iv_columns i = iv_columns i0) as Hc by (subst i; by destruct (expires _ _ _ _)).
    rewrite <- Hc, Hh. match type of Hrow with _ = if ?b then _ else _ => destruct b end; by simplify_eq/=.
Qed.
End theorems.

(** ** The integrity scan after a creation *)

Lemma collect_unit_ok {E A} (f : A → result E unit) l :
  is_ok (collect f l) = true ↔ ∀ x, x ∈ l → f x = Ok tt.
Proof.
  induction l as [|a l IH]; simpl.
  - split; [|done]. by intros _ x ?%not_elem_of_nil.
  - setoid_rewrite elem_of_cons. destruct (f a) as [[]|e] eqn:Ha; simpl.
    + transitivity (is_ok (collect f l) = true); [by destruct (collect f l)|]. rewrite IH. naive_solver.
    + split; [done|]. intros H. specialize (H a (or_introl eq_refl)). congruence.
Qed.

Lemma collect_map_ok {E V} (f : RowId * V → result E unit) (t : gmap RowId V) :
  is_ok (collect f (map_to_list t)) = true ↔ ∀ id v, t !! id = Some v → f (id, v) = Ok tt.
Proof.
  rewrite collect_unit_ok. split.
  - intros H id v Hv. by apply H, elem_of_map_to_list.
  - intros H [id v] Hin%elem_of_map_to_list. by apply H.
Qed.

Section scan.
Context {core : LocksCore} {lib : PaykitLib} {locks : ContentLocks} {bip32 : Bip32}.
Context {prim : CryptoPrimitives} {observations : ObservationCodec} {codec : AllocationCodec} (crypto : Crypto).
Context {laws : CryptoLaws prim} {codec_laws : AllocationCodecLaws codec}.
Context (from_bytes : string → option DeliveryIntentV1) (to_bytes : DeliveryIntentV1 → option string).
Context (json_object : list (string * string) → string) (metadata_object : list (string * string) → Metadata).
Context {Json : Type} (json_from_str : string → option Json)
  (json_value : Json → option string) (json_is_object : Json → list (string * string) → bool).
Context (static_app : PaykitAppId) (format_rfc3339 : Z → option string).

Notation create_atomic := (create_atomic crypto from_bytes to_bytes json_object metadata_object json_from_str json_value
  json_is_object static_app format_rfc3339).

Lemma scan_ok ac :
  scan_payment_record_integrity crypto ac = Ok tt ↔
  let pay := dd_pay (ac_dd ac) in
  (∀ id i, t_invoices pay !! id = Some i → scan_invoice crypto ac (id, i) = Ok tt)
  ∧ (∀ id o, t_observations pay !! id = Some o → scan_observation crypto pay (id, o) = Ok tt)
  ∧ (∀ id r, t_usdt pay !! id = Some r → scan_receipt crypto pay (id, r) = Ok tt).
Proof.
  cbv zeta. rewrite <- !collect_map_ok. unfold scan_payment_record_integrity. cbv zeta.
  destruct (collect (scan_invoice crypto ac) _); simpl; [|naive_solver].
  destruct (collect (scan_observation crypto _) _); simpl; [|naive_solver].
  destruct (collect (scan_receipt crypto _) _); simpl; naive_solver.
Qed.

(** [REFERENCES invoices (id)] of the two observation tables. *)
Definition observation_refs (pay : PaymentDb) : Prop :=
  (∀ id o invoice, t_observations pay !! id = Some o → ob_invoice_id o = Some invoice → is_Some (t_invoices pay !! invoice))
  ∧ (∀ id r invoice, t_usdt pay !! id = Some r → us_invoice_id r = Some invoice → is_Some (t_invoices pay !! invoice)).

Lemma record_of_intent_scans index intent r :
  from_intent json_from_str json_value json_is_object index intent = Ok r →
  pr_version r = 1 ∧ pr_derivation_index r = index ∧ is_ok (record_usdt_address r) = true.
Proof.
  intros (terms & requested & _ & _ & Hv & Hi & _ & _ & Hu)%from_intent_inv. split_and!; [done..|].
  unfold record_usdt_address. destruct (pr_usdt r) as [d|]; [|done]. simpl.
  destruct (Hu d eq_refl) as (? & ? & ? & _ & _ & _ & _ & _ & Hok). by destruct (usdt_try_from (pd_address d)).
Qed.

(** what a creation stores passes the integrity scan.  When the scan of the server's
    start accepts the tables, it accepts them after every creation: the new record
    authenticates, its address and derivation index hash to the stored lookups, and the
    rows of every other invoice are untouched. *)
Theorem creation_passes_integrity_scan ac input fresh now res ac' :
  account_wf crypto ac → observation_refs (dd_pay (ac_dd ac)) → fresh_nonces fresh →
  create_atomic ac input fresh now = Ok (res, ac') →
  scan_payment_record_integrity crypto ac = Ok tt → scan_payment_record_integrity crypto ac' = Ok tt.
Proof.
  intros Hwf [Hro Hru] Hfresh H Hscan.
  apply create_atomic_ok in H as (cid & creator & acceptance & window & expires & deadline & H). cbv zeta in H.
  destruct H as (_ & Hrow & Hlen & _ & _ & [(-> & _)|[_ H]]); [done|].
  pose proof (creator_row_of_hash_some _ _ _ _ _ Hrow) as (_ & _ & _ & Hc).
  apply allocate_ok in H as (g & intent & reference & plaintext & ae & oe & new & []); [|done]. destruct al_rows.
  apply sealed_invoice_ok in al_sealed
    as (record & rp & Hrec & Hrp & Hre & _ & _ & _ & Hch & _ & Haddr & _ & _ & _ & Hder).
  apply insertable_ok in al_insertable as [Hid _]. destruct (wf_columns _ _ Hwf _ Hid) as (_ & Hnone & _).
  apply scan_ok in Hscan as (Hi & Ho & Hu). apply scan_ok. cbv zeta.
  assert (Hother : ∀ invoice, is_Some (t_invoices (dd_pay (ac_dd ac)) !! invoice) →
            t_invoices (dd_pay (ac_dd ac')) !! invoice = t_invoices (dd_pay (ac_dd ac)) !! invoice).
  { intros invoice [i Hs]. rewrite al_payments, lookup_insert_ne; [done|]. intros <-. by rewrite Hnone in Hs. }
  split_and!.
  - intros id i. rewrite al_payments. intros [[<- <-]|[Hne Hs]]%lookup_insert_Some.
    + destruct (record_of_intent_scans _ _ _ Hrec) as (Hv & Hix & Husdt). unfold scan_invoice.
      rewrite al_allocations, lookup_insert_eq. simpl. rewrite Hch. unfold stored_lookup_hash. rewrite Hlen. simpl.
      unfold decrypt_payment_record. rewrite (decrypt_encrypt _ _ _ _ _ (proj1 (proj2 Hfresh)) Hre). simpl.
      rewrite (record_reread _ _ Hrp). simpl. destruct (record_usdt_address record); [|done]. simpl.
      rewrite Hv, Hix, Haddr, Hder, String.eqb_refl, bool_decide_true by done. done.
    + rewrite <- (Hi _ _ Hs). unfold scan_invoice. by rewrite al_allocations, lookup_insert_ne.
  - rewrite al_pay. simpl. intros id o Hs. etransitivity; [|exact (Ho _ _ Hs)]. unfold scan_observation.
    destruct (ob_invoice_id o) as [invoice|] eqn:E; [|done]. simpl. by rewrite (Hother _ (Hro _ _ _ Hs E)).
  - rewrite al_pay. simpl. intros id r Hs. etransitivity; [|exact (Hu _ _ Hs)]. unfold scan_receipt.
    destruct (us_invoice_id r) as [invoice|] eqn:E; [|done]. simpl. by rewrite (Hother _ (Hru _ _ _ Hs E)).
Qed.
End scan.

(** ** The theorems on a created invoice *)

Module Example_targets.
Import Example_allocation.
#[local] Transparent created.

(** The run of the observer an hour and a second after the creation. *)
Definition later : Z := 3601 * NANOS_PER_SECOND.

Definition watched := observation_targets crypto created 1.

Definition overdue := observation_targets crypto created later.

Lemma watched_run : is_ok watched.1 = true.
Proof. vm_compute. reflexivity. Qed.

(** On chain, of the first contract and unobserved. *)
Definition unobserved (pay : PaymentDb) (id : RowId) : bool :=
  match t_invoices pay !! id with
  | Some i => is_some (iv_address_lookup_hash (iv_columns i)) && negb (has_provider pay id)
              && is_none (active_observation pay id)
  | None => false
  end.

Lemma unobserved_row pay id :
  unobserved pay id = true →
  ∃ i hash, t_invoices pay !! id = Some i ∧ iv_address_lookup_hash (iv_columns i) = Some hash
            ∧ has_provider pay id = false ∧ active_observation pay id = None.
Proof.
  unfold unobserved. destruct (t_invoices pay !! id) as [i|]; [|done].
  destruct (iv_address_lookup_hash (iv_columns i)) as [hash|] eqn:Hh; [|done].
  destruct (has_provider pay id); [done|]. destruct (active_observation pay id); [done|]. eauto 6.
Qed.

Lemma created_unobserved : unobserved (dd_pay (ac_dd created)) 22%N = true.
Proof. vm_compute. reflexivity. Qed.

#[local] Opaque created.

Lemma start_refs : observation_refs (dd_pay (ac_dd start)).
Proof. split; simpl; intros *; by rewrite lookup_empty. Qed.

Lemma start_scan : scan_payment_record_integrity crypto start = Ok tt.
Proof. vm_compute. reflexivity. Qed.
End Example_targets.
Import Example_allocation Example_targets.

Lemma expiry_exact_witness :
  ∃ t, overdue.2 = set_ac_dd created (set_pay (ac_dd created)
    (set_invoices (dd_pay (ac_dd created)) t)).
Proof.
  exact (proj1 (expiry_exact crypto created later overdue.1 overdue.2
    (surjective_pairing _))).
Defined.

Lemma watch_list_complete_witness : ∃ targets t, watched.1 = Ok targets ∧ t ∈ targets ∧ ot_current t = None.
Proof.
  pose proof watched_run as Hok. destruct watched as [[targets|e] ac'] eqn:E; [|discriminate Hok].
  destruct (unobserved_row _ _ created_unobserved) as (i & hash & Hi & Hh & Hp & Ha).
  destruct (proj1 (watch_list_complete crypto created 1 targets ac' E)
    22%N i hash Hi Hh (or_introl Hp)) as (t & Ht & _ & Hcur).
  - intros oid o Ho. rewrite Ha in Ho. discriminate Ho.
  - exists targets, t. split; [reflexivity|]. split; [exact Ht|]. rewrite Ha in Hcur.
    destruct (ot_current t); [|reflexivity]. discriminate (proj1 Hcur eq_refl).
Defined.

Lemma creation_passes_integrity_scan_witness :
  scan_payment_record_integrity crypto created = Ok tt.
Proof.
  pose proof Example_drains.drain_laws as L. pose proof codec_laws as C.
  exact (creation_passes_integrity_scan crypto from_bytes
    to_bytes json_object Example_create.metadata_object
    from_str Some (λ _ _, true) PAYKIT_APP_ID (λ t, Some (fmt_dec t)) start
    input fresh 0 res created
    start_wf start_refs fresh_ok create_run start_scan).
Defined.
