(* ===== verification/ProviderProps.v ===== *)
(** * ProviderProps: theorems about the provider contract ([Provider])

    The provider's creation is idempotent and keeps the tables consistent, the two contracts
    exclude each other on a bundle, no external call is made after the deadline, and a
    status reports exactly the samples the observations recorded. *)

From S2P Require Import Prelude Text Effects Locks Invoice Receiving Payment Lifecycle Pricing Intent Readers Database OutboxStore CreateInvoice PaymentRecord Crypto Observations Settlement LifecycleStore Drains DrainProps Status Creators Allocation Provider Allocated AllocationProps Sorting.
Local Open Scope string_scope.
Local Open Scope Z_scope.

(** ** The tables of the contract *)

Record provider_wf (ac : AccountDb) : Prop := {
  pw_set : ∀ id, id ∈ provider_v2 (ac_db ac) ↔ is_Some (ac_provider ac !! id);
  pw_bound : ∀ id, is_Some (t_provider_v2 (dd_pay (ac_dd ac)) !! id) ↔ is_Some (ac_provider ac !! id);
  (* the deferred triggers and [CHECK]s *)
  pw_row : ∀ id c b, ac_provider ac !! id = Some c → t_provider_v2 (dd_pay (ac_dd ac)) !! id = Some b →
    ∃ pay x, t_invoices (dd_pay (ac_dd ac)) !! id = Some pay ∧ ac_invoices ac !! id = Some x
      ∧ iv_payment_deadline (iv_columns pay) = pb_deadline b ∧ ix_proposal_expires_at x = px_proposal_expires_at c
      ∧ px_proposal_expires_at c < pb_deadline b ∧ 0 <= pb_minimum_confirmations b <= 6;
  pw_hash : ∀ id id' c c', ac_provider ac !! id = Some c → ac_provider ac !! id' = Some c' →
    px_request_hash c = px_request_hash c' → id = id';
}.

Definition provider_replay (res : ProviderV2CreateResult) : ProviderV2CreateResult :=
  mk_ProviderV2CreateResult (pc_invoice_id res) (pc_invoice_created_at res) (pc_proposal_expires_at res)
    (pc_deadline res) true.

Lemma provider_expiry_bounds now deadline seconds expires :
  0 <= seconds → provider_expiry now deadline seconds = Ok expires → now <= expires < deadline.
Proof.
  unfold provider_expiry, checked_sub_microsecond. intros Hs H.
  apply bind_ok in H as (? & Hd%ensure_ok & H). apply bind_ok in H as (m & Hm%ok_or_ok & H).
  apply bind_ok in H as (c & Hc%ok_or_ok%checked_add_ok & H). cbv zeta in H. apply bind_ok in H as (? & He%ensure_ok & [= <-]).
  destruct (_ <=? _) in Hm; [|done]. injection Hm as <-. split_bools. lia.
Qed.

Lemma insert_provider_ok ac id columns binding ac' :
  insert_provider ac id columns binding = Ok ac' →
  ac' = bind_provider ac id columns binding ∧ ac_provider ac !! id = None
  ∧ px_proposal_expires_at columns < pb_deadline binding ∧ 0 <= pb_minimum_confirmations binding <= 6
  ∧ (∀ k c, ac_provider ac !! k = Some c → px_request_hash c ≠ px_request_hash columns).
Proof.
  unfold insert_provider, exists_row. intros H. apply bind_ok in H as (? & Hg%ensure_ok & [= <-]).
  destruct (select_one _ _) eqn:E; [by rewrite andb_false_r in Hg|]. split_bools. split; [done|].
  split; [by destruct (ac_provider ac !! id)|]. split_and!; try lia. intros k c Hk Heq.
  pose proof (select_one_none _ _ E _ _ Hk) as Hf. cbv beta in Hf. by rewrite Heq, String.eqb_refl in Hf.
Qed.

Section facts.
Context {core : LocksCore} {lib : PaykitLib} {bip32 : Bip32}.
Context {prim : CryptoPrimitives} {observations : ObservationCodec} {codec : AllocationCodec} (crypto : Crypto).
Context (to_bytes : DeliveryIntentV1 → option string).
Context (json_object : list (string * string) → string) (metadata_object : list (string * string) → Metadata).
Context {Json : Type} (json_from_str : string → option Json)
  (json_value : Json → option string) (json_is_object : Json → list (string * string) → bool).
Context (format_rfc3339 : Z → option string).

Notation lookup_hash := (lookup_hash crypto).
Notation provider_intent := (provider_intent json_object metadata_object json_from_str json_value json_is_object
  format_rfc3339).
Notation provider_allocate := (provider_allocate crypto to_bytes json_object metadata_object json_from_str json_value
  json_is_object format_rfc3339).
Notation create_provider := (create_provider_v2_atomic crypto to_bytes json_object metadata_object json_from_str
  json_value json_is_object format_rfc3339).

(** Everything a successful allocation read, computed and wrote. *)
Record provider_allocation (ac : AccountDb) (input : ProviderV2AtomicInvoiceInput) (creator_id : RowId)
    (creator_hash : string) (creator : CreatorColumns) (fresh : AllocationFresh) (now : Z)
    (res : ProviderV2CreateResult) (ac' : AccountDb) (expires : Z) (g : GenerationRow) (intent : DeliveryIntentV1)
    (record : InvoicePaymentRecordV1) (reference plaintext assignment_envelope outbox_envelope : string)
    (new : NewInvoice) : Prop := {
  pa_expiry : provider_expiry now (pi_deadline input) (pi_proposal_acceptance_seconds input) = Ok expires;
  pa_account : pf_generation (pi_payloads input) = cc_bitcoin_account_generation creator;
  pa_not_drained : g_active_drain_id g = None;
  pa_intent : provider_intent input (af_reference fresh) (cc_next_child_index creator) expires = Ok (intent, record);
  pa_plaintext : to_bytes intent = Some plaintext;
  pa_sealed : provider_sealed crypto input creator_id creator_hash (lookup_hash (pi_lock_resource_binding input))
    (g_current_generation g) (cc_next_child_index creator) now expires (cc_bitcoin_account_generation creator) fresh
    record plaintext = Ok new;
  pa_result : res = mk_ProviderV2CreateResult (af_invoice_id fresh) now expires (pi_deadline input) false;
  pa_new : ac_provider ac !! af_invoice_id fresh = None
    ∧ expires < pi_deadline input ∧ 0 <= pi_minimum_confirmations input <= 6
    ∧ (∀ k c, ac_provider ac !! k = Some c → px_request_hash c ≠ pi_request_hash input);
  pa_pay : dd_pay (ac_dd ac') = set_bindings (set_invoices (dd_pay (ac_dd ac)) (t_invoices (dd_pay (ac_dd ac'))))
    (<[af_invoice_id fresh := mk_ProviderBinding (pi_minimum_confirmations input) (pi_deadline input)]>
      (t_provider_v2 (dd_pay (ac_dd ac))));
  pa_columns : ac_provider ac' = <[af_invoice_id fresh := mk_ProviderColumns (pi_request_hash input) expires]> (ac_provider ac);
  pa_rows : stored_rows crypto ac creator_id creator_hash creator (lookup_hash (reader_to_string (pi_reader input)))
    (lookup_hash (pi_bundle_binding input)) (lookup_hash (pi_lock_resource_binding input)) fresh now true
    (payment_request_proposal_lookup_hash crypto reference) assignment_envelope outbox_envelope new ac';
}.

Lemma provider_sealed_ok input creator_id creator_hash lock_hash generation child now expires account fresh record
    plaintext new :
  provider_sealed crypto input creator_id creator_hash lock_hash generation child now expires account fresh record
    plaintext = Ok new →
  i_creator_id (ni_row new) = creator_id
  ∧ iv_reader_lookup_hash (ni_columns new) = lookup_hash (reader_to_string (pi_reader input))
  ∧ ni_bundle_lookup_hash new = lookup_hash (pi_bundle_binding input)
  ∧ ix_derivation_index_lookup_hash (ni_allocation new) = bitcoin_derivation_index_lookup_hash crypto creator_hash child
  ∧ iv_created_at (ni_columns new) = now ∧ iv_payment_deadline (ni_columns new) = pi_deadline input
  ∧ ix_proposal_expires_at (ni_allocation new) = expires.
Proof. unfold provider_sealed. intros H. by inv_ok. Qed.

Lemma provider_allocate_ok ac input creator_id creator_hash creator fresh now res ac' :
  provider_wf ac → ac_creators ac !! creator_id = Some creator →
  provider_allocate ac input creator_id creator_hash creator fresh now (pi_proposal_acceptance_seconds input)
    = Ok (res, ac') →
  ∃ expires g intent record reference plaintext assignment_envelope outbox_envelope new,
    provider_allocation ac input creator_id creator_hash creator fresh now res ac' expires g intent record reference
      plaintext assignment_envelope outbox_envelope new.
Proof.
  unfold Provider.provider_allocate. intros Hpw Hc H.
  apply bind_ok in H as (expires & Hexp & H). apply bind_ok in H as (? & Hacc%ensure_ok%Z.eqb_eq & H).
  set (ac1 := set_ac_dd ac _) in H.
  apply bind_ok in H as (g & Hg%ok_or_ok & H). apply bind_ok in H as (? & Hd%ensure_ok & H).
  apply bind_ok in H as (loaded & Hload & H). apply bind_ok in H as (? & Hnone%ensure_ok & H).
  apply bind_ok in H as ([intent record] & Hint & H). apply bind_ok in H as (aenv & Haenv & H).
  apply bind_ok in H as (ac2 & Hac2 & H). apply bind_ok in H as (ac3 & Hac3 & H).
  apply bind_ok in H as (plaintext & Hp%ok_or_ok & H). apply bind_ok in H as (new & Hnew & H).
  apply bind_ok in H as (reference & Href%map_err_ok & H). apply bind_ok in H as (ac4 & Hac4 & H).
  apply bind_ok in H as (ac5 & Hac5 & H). apply bind_ok in H as (oenv & Hoenv%map_err_ok & H).
  destruct (insert_outbox _ _ _ _ _ _ _ _) as [inserted db] eqn:Ho. apply bind_ok in H as ([] & -> & [= <- <-]).
  pose proof (provider_sealed_ok _ _ _ _ _ _ _ _ _ _ _ _ _ Hnew) as (Hrow & Hreader & Hbundle & Hder & _).
  pose proof (insert_provider_ok _ _ _ _ _ Hac5) as (E5 & Hfree & Hlt & Hmin & Huniq).
  assert (ac_provider ac4 = ac_provider ac ∧ dd_pay (ac_dd ac4) = set_invoices (dd_pay (ac_dd ac)) (t_invoices (dd_pay (ac_dd ac4))))
    as [E4 Epay].
  { unfold insert_invoice in Hac4. apply bind_ok in Hac4 as (? & _ & [= <-]).
    apply insert_assignment_ok in Hac2 as (_ & _ & ->). apply (advance_child_index_ok _ _ creator) in Hac3; [|done].
    subst ac3. simpl. unfold ac1. simpl.
    by destruct (ensure_generation_frame (ac_dd ac) creator_id (lookup_hash (pi_lock_resource_binding input))) as [gs ->]. }
  rewrite E4 in Hfree, Huniq.
  assert (t_provider_v2 (dd_pay (ac_dd ac)) !! af_invoice_id fresh = None) as Hunbound.
  { apply eq_None_not_Some. rewrite (pw_bound _ Hpw), Hfree. by intros [? ?]. }
  pose proof (writes_stored crypto _ _ _ _ _ _ _ _ now true _ _ _ _ _ _ _ _ _ _ _ _ Hc Hload Hnone Haenv Hac2 Hac3
    Hrow Hreader Hbundle Hder Hac4 (conj Hac5 Hunbound) Ho) as Hst.
  exists expires, g, intent, record, reference, plaintext, aenv, oenv, new. subst ac5. split; try done; simpl.
  - split_bools. by destruct (g_active_drain_id g).
  - by rewrite Epay.
  - by rewrite E4.
Qed.

Definition valid_request (input : ProviderV2AtomicInvoiceInput) : bool :=
  negb ((6 <? pi_minimum_confirmations input) || (pi_proposal_acceptance_seconds input =? 0)
        || negb ((pi_deadline input mod NANOS_PER_SECOND) mod 1000 =? 0))
  && (pi_proposal_acceptance_seconds input <=? i64_max).

(** A successful call replayed the bound invoice or allocated a new one. *)
Lemma create_provider_ok ac input fresh now res ac' :
  provider_wf ac → create_provider ac input fresh now = Ok (res, ac') →
  ∃ creator_id creator,
    let creator_hash := creator_hash_of crypto (pi_creator input) in
    valid_request input = true
    ∧ creators (ac_db ac) !! creator_id = Some creator_hash ∧ ac_creators ac !! creator_id = Some creator
    ∧ String.length creator_hash = 32%nat
    ∧ (pc_replayed res = true ∧ ac' = ac
       ∨ pc_replayed res = false
         ∧ existing_invoice ac creator_id (lookup_hash (pi_bundle_binding input)) = None
         ∧ ∃ expires g intent record reference plaintext assignment_envelope outbox_envelope new,
             provider_allocation ac input creator_id creator_hash creator fresh now res ac' expires g intent record
               reference plaintext assignment_envelope outbox_envelope new).
Proof.
  unfold create_provider_v2_atomic. cbv zeta. intros Hpw H.
  apply bind_ok in H as (? & Hv%ensure_ok & H). apply bind_ok in H as (? & Hs%ensure_ok & H).
  apply bind_ok in H as ([[creator_id stored] creator] & Hrow%ok_or_ok & H).
  apply bind_ok in H as (hash & Hh & H). apply bind_ok in H as (? & _ & H).
  pose proof (creator_row_of_hash_some _ _ _ _ _ Hrow) as (_ & -> & Hhash & Hc).
  unfold stored_lookup_hash in Hh. apply bind_ok in Hh as (? & Hl%ensure_ok%Nat.eqb_eq & _).
  exists creator_id, creator. split_and!; [by unfold valid_request; rewrite Hv, Hs|done..|].
  unfold provider_existing in H. destruct (existing_invoice _ _ _) as [[[id pay] xc]|] eqn:Hex; simpl in H.
  - left. destruct (ac_provider ac !! id); simpl in H; [|done]. destruct (t_provider_v2 _ !! id); simpl in H; [|done].
    by apply bind_ok in H as (? & _ & [= <- <-]).
  - right. apply provider_allocate_ok in H as (e & g & i & r & rf & pl & ae & oe & new & Hpa); [|done..].
    split_and!; [by destruct Hpa as [?????? -> ????]|done|]. by exists e, g, i, r, rf, pl, ae, oe, new.
Qed.

(** *** After an allocation *)

Section allocated.
Context {laws : CryptoLaws prim} {codec_laws : AllocationCodecLaws codec}.
Context {ac ac' : AccountDb} {input : ProviderV2AtomicInvoiceInput} {creator_id : RowId} {creator_hash : string}
  {creator : CreatorColumns} {fresh : AllocationFresh} {now expires : Z} {res : ProviderV2CreateResult}
  {g : GenerationRow} {intent : DeliveryIntentV1} {record : InvoicePaymentRecordV1}
  {reference plaintext assignment_envelope outbox_envelope : string} {new : NewInvoice}.
Context (Hpa : provider_allocation ac input creator_id creator_hash creator fresh now res ac' expires g intent record
  reference plaintext assignment_envelope outbox_envelope new).

Lemma provider_rows :
  stored_rows crypto ac creator_id creator_hash creator (lookup_hash (reader_to_string (pi_reader input)))
    (lookup_hash (pi_bundle_binding input)) (lookup_hash (pi_lock_resource_binding input)) fresh now true
    (payment_request_proposal_lookup_hash crypto reference) assignment_envelope outbox_envelope new ac'.
Proof. by destruct Hpa. Qed.

Lemma provider_stamps :
  iv_created_at (ni_columns new) = now ∧ iv_payment_deadline (ni_columns new) = pi_deadline input
  ∧ ix_proposal_expires_at (ni_allocation new) = expires.
Proof. destruct Hpa. by apply provider_sealed_ok in pa_sealed0 as (_ & _ & _ & _ & ? & ? & ?). Qed.

Lemma provider_preserves_wf : provider_wf ac → account_wf crypto ac → provider_wf ac'.
Proof.
  intros Hpw Hwf. destruct provider_stamps as (_ & Hdl & Hexp). pose proof Hpa as [].
  destruct pa_new0 as (Hfree & Hlt & Hmin & Huniq), pa_rows0.
  assert (Hne : ∀ id c, ac_provider ac !! id = Some c → af_invoice_id fresh ≠ id) by (intros id c H <-; by rewrite Hfree in H).
  assert (Hb : t_provider_v2 (dd_pay (ac_dd ac')) = <[af_invoice_id fresh := mk_ProviderBinding
    (pi_minimum_confirmations input) (pi_deadline input)]> (t_provider_v2 (dd_pay (ac_dd ac)))) by (by rewrite pa_pay0).
  split.
  - intros id. rewrite al_provider, pa_columns0, elem_of_union, elem_of_singleton, (pw_set _ Hpw), lookup_insert_is_Some'.
    split; (intros [->|?]; [by left|by right]).
  - intros id. rewrite Hb, pa_columns0, !lookup_insert_is_Some', (pw_bound _ Hpw). done.
  - intros id c b. rewrite Hb, pa_columns0, al_payments, al_allocations.
    intros [[<- <-]|[Hn Hc]]%lookup_insert_Some [[? <-]|[Hn' Hb']]%lookup_insert_Some; try done.
    + rewrite !lookup_insert_eq. eexists _, _. split; [done|]. split; [done|]. simpl. by rewrite Hdl, Hexp.
    + destruct (pw_row _ Hpw _ _ _ Hc Hb') as (pay & x & Hpay & Hx & Hrest). exists pay, x. by rewrite !lookup_insert_ne.
  - intros id id' c c'. rewrite pa_columns0.
    intros [[<- <-]|[Hn Hc]]%lookup_insert_Some [[<- <-]|[Hn' Hc']]%lookup_insert_Some; simpl; [done| | |].
    + intros Heq. by destruct (Huniq _ _ Hc').
    + intros Heq. by destruct (Huniq _ _ Hc).
    + by apply (pw_hash _ Hpw).
Qed.

Lemma provider_preserves_payments : provider_wf ac → db_wf (dd_pay (ac_dd ac)) → db_wf (dd_pay (ac_dd ac')).
Proof.
  intros Hpw (Ho & Ht & Hi & [Hs He] & Hr). pose proof Hpa as []. destruct pa_rows0. rewrite pa_pay0.
  destruct pa_new0 as (Hfree & _).
  assert (t_provider_v2 (dd_pay (ac_dd ac)) !! af_invoice_id fresh = None) as Hunbound.
  { apply eq_None_not_Some. rewrite (pw_bound _ Hpw), Hfree. by intros [? ?]. }
  split_and!; simpl; try done.
  - rewrite al_payments. intros id i [[<- <-]|[_ H]]%lookup_insert_Some; [done|by apply (Hi id)].
  - split.
    + intros id s H. destruct (Hs _ _ H) as [Hb Hshape]. split; [|done].
      destruct (decide (id = af_invoice_id fresh)) as [->|]; [by rewrite Hunbound in Hb|by rewrite lookup_insert_ne].
    + intros id s H. destruct (He _ _ H) as (b & Hb & Hsuf). exists b. split; [|done].
      rewrite lookup_insert_ne; [done|]. intros <-. by rewrite Hunbound in Hb.
Qed.

(** In every later state that keeps the rows the invoice is found with its binding. *)
Lemma later_bound later :
  account_wf crypto ac → keeps ac' later → account_wf crypto later →
  ∃ pay, provider_existing later creator_id (lookup_hash (pi_bundle_binding input))
         = Some (af_invoice_id fresh, pay, Some (mk_ProviderColumns (pi_request_hash input) expires,
             mk_ProviderBinding (pi_minimum_confirmations input) (pi_deadline input)))
         ∧ iv_columns pay = ni_columns new.
Proof.
  intros Hwf Hk Hlater. destruct (later_invoice crypto provider_rows Hwf Hk Hlater) as (pay & Hex & Hcols & _).
  exists pay. split; [|done]. unfold provider_existing. rewrite Hex. simpl. pose proof Hpa as [].
  assert (ac_provider later !! af_invoice_id fresh = Some (mk_ProviderColumns (pi_request_hash input) expires)) as ->.
  { eapply lookup_weaken; [|apply (ke_provider_columns _ _ Hk)]. by rewrite pa_columns0, lookup_insert_eq. }
  assert (t_provider_v2 (dd_pay (ac_dd later)) !! af_invoice_id fresh
          = Some (mk_ProviderBinding (pi_minimum_confirmations input) (pi_deadline input))) as ->; [|done].
  eapply lookup_weaken; [|apply (ke_bindings _ _ Hk)]. rewrite pa_pay0. simpl. by rewrite lookup_insert_eq.
Qed.
End allocated.
End facts.

Section theorems.
Context {core : LocksCore} {lib : PaykitLib} {locks : ContentLocks} {bip32 : Bip32}.
Context {prim : CryptoPrimitives} {observations : ObservationCodec} {codec : AllocationCodec} (crypto : Crypto).
Context {laws : CryptoLaws prim} {codec_laws : AllocationCodecLaws codec}.
Context (from_bytes : string → option DeliveryIntentV1) (to_bytes : DeliveryIntentV1 → option string).
Context (json_object : list (string * string) → string) (metadata_object : list (string * string) → Metadata).
Context {Json : Type} (json_from_str : string → option Json)
  (json_value : Json → option string) (json_is_object : Json → list (string * string) → bool).
Context (static_app : PaykitAppId) (format_rfc3339 : Z → option string).

Notation create_provider := (create_provider_v2_atomic crypto to_bytes json_object metadata_object json_from_str
  json_value json_is_object format_rfc3339).
Notation create_atomic := (create_atomic crypto from_bytes to_bytes json_object metadata_object json_from_str json_value
  json_is_object static_app format_rfc3339).

(** creating a provider invoice is idempotent, also after its deadline.  After a creation, in
    every later consistent state that kept the stored rows, the same request (creator,
    bundle and request hash) answers the first result marked as a replay and changes nothing,
    whatever the payload, the identifiers and the clock, even once the deadline has
    elapsed; the preflight check announces the replay and the replay lookup answers the same. *)
Theorem provider_creation_idempotent ac input fresh now res ac' later input' fresh' now' :
  account_wf crypto ac → provider_wf ac →
  create_provider ac input fresh now = Ok (res, ac') → pc_replayed res = false →
  keeps ac' later → account_wf crypto later →
  pi_creator input' = pi_creator input → pi_bundle_binding input' = pi_bundle_binding input →
  pi_request_hash input' = pi_request_hash input → valid_request input' = true →
  create_provider later input' fresh' now' = Ok (provider_replay res, later)
  ∧ provider_v2_exact_replay crypto later (pi_creator input) (pi_bundle_binding input) (pi_request_hash input)
    = Ok (provider_replay res)
  ∧ provider_v2_preflight crypto later (pi_creator input) (pi_bundle_binding input) (pi_request_hash input)
    = PreflightExactReplay.
Proof.
  intros Hwf Hpw H Hnew Hk Hlater Hc Hb Hr [Hv Hs]%andb_true_iff.
  apply create_provider_ok in H as (cid & creator & H); [|done]. cbv zeta in H.
  destruct H as (_ & Hhash & _ & Hlen & [[? _]|(_ & _ & e & g & i & r & rf & pl & ae & oe & new & Hpa)]); [congruence|].
  destruct (later_creator crypto (provider_rows _ _ _ _ _ _ _ _ Hpa) Hhash Hk Hlater) as [c Hrow].
  destruct (later_bound _ _ _ _ _ _ _ _ Hpa later Hwf Hk Hlater) as (pay & Hex & Hcols).
  destruct (provider_stamps _ _ _ _ _ _ _ _ Hpa) as (Hnow & _). pose proof (creator_row_of_hash_some _ _ _ _ _ Hrow) as (Hid & _).
  assert (res = mk_ProviderV2CreateResult (af_invoice_id fresh) now e (pi_deadline input) false) as -> by (by destruct Hpa).
  split_and!.
  - unfold create_provider_v2_atomic. cbv zeta. rewrite Hv, Hs, Hc, Hb, Hr. simpl. rewrite Hrow. simpl.
    unfold stored_lookup_hash. rewrite Hlen. simpl. rewrite String.eqb_refl. simpl. rewrite Hex. simpl.
    rewrite String.eqb_refl. simpl. by rewrite Hcols, Hnow.
  - unfold provider_v2_exact_replay. rewrite Hid. simpl. rewrite Hex. simpl. rewrite String.eqb_refl. simpl.
    by rewrite Hcols, Hnow.
  - unfold provider_v2_preflight. rewrite Hid. simpl. rewrite Hex. simpl. by rewrite String.eqb_refl.
Qed.

(** a provider creation keeps every table consistent.  It keeps the stored rows, the
    consistency of the allocation and of the payment tables, the agreement of each binding
    with its invoice and the uniqueness of request hashes; a new invoice has the caller's
    deadline, its proposal expires no earlier than its creation and strictly before
    the deadline, and its child index is above every index the creator ever assigned. *)
Theorem provider_creation_consistent ac input fresh now res ac' :
  account_wf crypto ac → provider_wf ac → db_wf (dd_pay (ac_dd ac)) → fresh_nonces fresh →
  0 <= pi_proposal_acceptance_seconds input →
  create_provider ac input fresh now = Ok (res, ac') →
  account_wf crypto ac' ∧ provider_wf ac' ∧ db_wf (dd_pay (ac_dd ac')) ∧ keeps ac ac'
  ∧ (pc_replayed res = false →
     now < pi_deadline input ∧ now <= pc_proposal_expires_at res < pi_deadline input
     ∧ pc_deadline res = pi_deadline input ∧ pc_invoice_created_at res = now
     ∧ ∃ creator_id c, creators (ac_db ac) !! creator_id = Some (creator_hash_of crypto (pi_creator input))
         ∧ ac_creators ac !! creator_id = Some c
         ∧ pf_generation (pi_payloads input) = cc_bitcoin_account_generation c
         ∧ load_assignment crypto ac' creator_id (lookup_hash crypto (reader_to_string (pi_reader input)))
             (lookup_hash crypto (pi_bundle_binding input)) (creator_hash_of crypto (pi_creator input))
           = Ok (Some (mk_Assignment (af_assignment_id fresh) (cc_next_child_index c)))
         ∧ ∀ id a index, ac_assignments ac !! id = Some a → as_creator_id a = creator_id →
             decrypt_assignment crypto (creator_hash_of crypto (pi_creator input)) id (as_assignment_envelope a) = Ok index →
             index < cc_next_child_index c).
Proof.
  intros Hwf Hpw Hdb Hfresh Hsec H. apply create_provider_ok in H as (cid & creator & H); [|done]. cbv zeta in H.
  destruct H as (_ & Hhash & Hcr & _ & [[Hrep ->]|(Hnew & _ & e & g & i & r & rf & pl & ae & oe & new & Hpa)]).
  { split_and!; try done. congruence. }
  pose proof (provider_rows _ _ _ _ _ _ _ _ Hpa) as Hst.
  pose proof (allocation_preserves_wf crypto Hst Hhash Hcr Hwf Hfresh) as Hwf'.
  split_and!; [done|by eapply provider_preserves_wf|by eapply provider_preserves_payments|by eapply allocation_keeps|].
  intros _. pose proof (later_assignment crypto Hst Hcr Hwf Hfresh (reflexivity ac') Hwf') as Has.
  pose proof (old_index_below crypto Hst Hhash Hcr Hwf) as Hidx. destruct Hpa.
  apply provider_expiry_bounds in pa_expiry0; [|done]. subst res. simpl.
  split_and!; try done; try lia. by exists cid, creator.
Qed.

(** the two contracts exclude each other.  A bundle that has a provider invoice is refused with a
    conflict by the first contract's creation, preflight and replay, and a bundle that has
    an invoice of the first contract by the provider's, in every later state that kept the
    rows. *)
Theorem contracts_exclusive ac later :
  account_wf crypto ac → provider_wf ac → account_wf crypto later → provider_wf later →
  (∀ input fresh now res ac' input' fresh' now' acceptance window,
     create_provider ac input fresh now = Ok (res, ac') → pc_replayed res = false → keeps ac' later →
     ai_creator input' = pi_creator input → ai_bundle_binding input' = pi_bundle_binding input →
     validated_windows input' = Ok (acceptance, window) → now' + window * NANOS_PER_SECOND <= instant_max →
     create_atomic later input' fresh' now' = Err PE_Conflict
     ∧ exact_replay crypto from_bytes later (ai_creator input') (ai_reader input') (ai_bundle_binding input')
         (ai_payment_request_binding input') = Err PE_Conflict
     ∧ preflight crypto later (ai_creator input') (ai_bundle_binding input') (ai_payment_request_binding input')
       = PreflightConflict)
  ∧ (∀ input fresh now res ac' input' fresh' now',
     create_atomic ac input fresh now = Ok (res, ac') → ar_replayed res = false → keeps ac' later →
     pi_creator input' = ai_creator input → pi_bundle_binding input' = ai_bundle_binding input →
     valid_request input' = true →
     create_provider later input' fresh' now' = Err PE_Conflict
     ∧ provider_v2_exact_replay crypto later (pi_creator input') (pi_bundle_binding input') (pi_request_hash input')
       = Err PE_Conflict
     ∧ provider_v2_preflight crypto later (pi_creator input') (pi_bundle_binding input') (pi_request_hash input')
       = PreflightConflict).
Proof.
  intros Hwf Hpw Hlater Hplater. split.
  - intros input fresh now res ac' input' fresh' now' acceptance window H Hnew Hk Hc Hb Hw Hnow.
    apply create_provider_ok in H as (cid & creator & H); [|done]. cbv zeta in H.
    destruct H as (_ & Hhash & _ & Hlen & [[? _]|(_ & _ & e & g & i & r & rf & pl & ae & oe & new & Hpa)]); [congruence|].
    pose proof (provider_rows _ _ _ _ _ _ _ _ Hpa) as Hst.
    destruct (later_creator crypto Hst Hhash Hk Hlater) as [c Hrow].
    destruct (later_invoice crypto Hst Hwf Hk Hlater) as (pay & Hex & _ & Hprov).
    pose proof (creator_row_of_hash_some _ _ _ _ _ Hrow) as (Hid & _). rewrite Hc, Hb. split_and!.
    + unfold Allocation.create_atomic. cbv zeta. rewrite Hw, Hc, Hb. simpl. rewrite Hrow. simpl.
      unfold stored_lookup_hash. rewrite Hlen. simpl. rewrite String.eqb_refl. simpl.
      destruct (windows_fit _ _ _ _ Hw Hnow) as [-> ->]. simpl. rewrite Hex. simpl. by rewrite Hprov.
    + unfold exact_replay. cbv zeta. rewrite Hrow. simpl. unfold stored_lookup_hash. rewrite Hlen. simpl.
      rewrite String.eqb_refl. simpl. rewrite Hex. simpl. by rewrite Hprov.
    + unfold preflight. rewrite Hid. simpl. by rewrite Hex, Hprov.
  - intros input fresh now res ac' input' fresh' now' H Hnew Hk Hc Hb [Hv Hs]%andb_true_iff.
    apply created_allocation in H as (cid & creator & acceptance & window & expires & deadline & g & intent & reference
      & plaintext & ae & oe & new & _ & _ & Hlen & Hhash & _ & Hal); [|done].
    pose proof (allocation_rows _ _ _ _ _ _ _ _ _ Hal) as Hst.
    destruct (later_creator crypto Hst Hhash Hk Hlater) as [c Hrow].
    destruct (later_invoice crypto Hst Hwf Hk Hlater) as (pay & Hex & _ & Hprov).
    pose proof (creator_row_of_hash_some _ _ _ _ _ Hrow) as (Hid & _).
    assert (provider_existing later cid (lookup_hash crypto (ai_bundle_binding input))
            = Some (af_invoice_id fresh, pay, None)) as Hpex.
    { unfold provider_existing. rewrite Hex. simpl. apply bool_decide_eq_false in Hprov. rewrite (pw_set _ Hplater) in Hprov.
      destruct (ac_provider later !! af_invoice_id fresh); [by destruct Hprov|done]. }
    rewrite Hc, Hb. split_and!.
    + unfold create_provider_v2_atomic. cbv zeta. rewrite Hv, Hs, Hc, Hb. simpl. rewrite Hrow. simpl.
      unfold stored_lookup_hash. rewrite Hlen. simpl. rewrite String.eqb_refl. simpl. by rewrite Hpex.
    + unfold provider_v2_exact_replay. rewrite Hid. simpl. by rewrite Hpex.
    + unfold provider_v2_preflight. rewrite Hid. simpl. by rewrite Hpex.
Qed.
End theorems.

(** ** Status *)

Section status.
Context {core : LocksCore} {prim : CryptoPrimitives} {observations : ObservationCodec} (crypto : Crypto).

Lemma sample_of_row pay invoice creator_hash row r :
  sample_of crypto pay invoice creator_hash (Some row) = Ok r →
  ∃ status outpoint s,
    sample_status_parse (sa_status row) = Ok status ∧ is_some outpoint = is_some (sa_observation_id row)
    ∧ r = Some s ∧ s = mk_ProviderV2Sample (sa_observed_at row) status outpoint (sa_confirmations row) (sa_amount_matched row).
Proof.
  unfold sample_of, decode_provider_sample. simpl. intros H. apply bind_ok in H as (status & Hst & H).
  apply bind_ok in H as (outpoint & Ho & H). apply bind_ok in H as (c & Hc & H).
  unfold try_u8 in Hc. apply bind_ok in Hc as (? & _ & [= <-]).
  apply fmap_ok in H as (s & Hs%map_err_ok & ->). unfold ProviderV2Sample_new in Hs. destruct (negb _); [done|].
  injection Hs as <-. exists status, outpoint. eexists. split_and!; [done| |done|done].
  destruct (sa_observation_id row) as [id|]; simpl in Ho.
  - destruct (_ ≫= _) in Ho; [|done]. by injection Ho as <-.
  - by injection Ho as <-.
Qed.

(** A row of the right shape whose observation authenticates decodes. *)
Lemma sample_of_ok pay invoice creator_hash row status outpoint :
  sample_shape row = true → sample_status_parse (sa_status row) = Ok status →
  (∀ id, sa_observation_id row = Some id → ∃ o record,
     t_observations pay !! id = Some o ∧ ob_invoice_id o = Some invoice
     ∧ decrypt_observation crypto creator_hash id o = Ok record
     ∧ parse_canonical_bitcoin_outpoint (bo_outpoint record) = Ok outpoint) →
  sample_of crypto pay invoice creator_hash (Some row)
  = Ok (Some (mk_ProviderV2Sample (sa_observed_at row) status ((λ _, outpoint) <$> sa_observation_id row)
                (sa_confirmations row) (sa_amount_matched row))).
Proof.
  intros Hshape Hst Hobs. unfold sample_of, decode_provider_sample. simpl. rewrite Hst. simpl.
  assert (transpose ((λ id, row ← ok_or (row ← t_observations pay !! id;
            if owned_by invoice (ob_invoice_id row) then Some row else None) PE_CorruptOrMissing;
          record ← decrypt_observation crypto creator_hash id row;
          parse_canonical_bitcoin_outpoint (bo_outpoint record)) <$> sa_observation_id row)
          = Ok ((λ _, outpoint) <$> sa_observation_id row)) as ->.
  { destruct (sa_observation_id row) as [id|]; [|done]. destruct (Hobs id eq_refl) as (o & record & Ho & Hown & Hd & Hp).
    simpl. rewrite Ho. simpl. unfold owned_by. rewrite Hown, bool_decide_true by done. simpl. rewrite Hd. simpl. by rewrite Hp. }
  simpl. unfold sample_shape in Hshape. unfold try_u8, ProviderV2Sample_new, u8_max.
  apply andb_true_iff in Hshape as [[H0 H6]%andb_true_iff Hshape]. rewrite H0. simpl.
  assert (sa_confirmations row <=? 255 = true) as -> by (split_bools; apply Z.leb_le; lia). simpl. rewrite H6. simpl.
  unfold sample_status_parse in Hst.
  destruct (String.eqb (sa_status row) "undetected") eqn:E1.
  { apply String.eqb_eq in E1. rewrite E1 in Hshape. injection Hst as <-. simpl in Hshape. rewrite !orb_false_r in Hshape.
    destruct (sa_observation_id row); [done|]. simpl in *. by rewrite Hshape. }
  destruct (String.eqb (sa_status row) "detected") eqn:E2.
  { apply String.eqb_eq in E2. rewrite E2 in Hshape. injection Hst as <-. simpl in Hshape. rewrite !orb_false_r in Hshape.
    destruct (sa_observation_id row); [|done]. simpl in *. by rewrite Hshape. }
  destruct (String.eqb (sa_status row) "confirmed") eqn:E3; [|done]. injection Hst as <-. simpl in Hshape.
  destruct (sa_observation_id row); [|done]. simpl in *. by rewrite Hshape.
Qed.

(** The sample of an observation. *)
Definition observed_sample (outpoint : BitcoinOutpoint) (observed_at : Z) (present : bool) (confirmations : Z)
    (matched : bool) : ProviderV2Sample :=
  if present
  then mk_ProviderV2Sample observed_at (if bounded_confirmations confirmations =? 0 then V2_Detected else V2_Confirmed)
         (Some outpoint) (bounded_confirmations confirmations) matched
  else mk_ProviderV2Sample observed_at V2_Undetected None 0 false.

(** what was observed is what is reported.  When an observation of a provider invoice is
    projected, reading the samples back gives exactly that observation: its instant, the
    authenticated outpoint, at most six confirmations and the match, or nothing detected;
    and the first evidence is frozen exactly by the first sample that qualifies for the
    threshold by the deadline, and never touched again. *)
Theorem provider_sample_roundtrip pay invoice binding id row creator_hash record outpoint observed_at present
    confirmations matched :
  db_wf pay → t_provider_v2 pay !! invoice = Some binding →
  t_observations pay !! id = Some row → ob_invoice_id row = Some invoice →
  decrypt_observation crypto creator_hash id row = Ok record →
  parse_canonical_bitcoin_outpoint (bo_outpoint record) = Ok outpoint →
  let pay' := project_provider_v2_sample pay invoice id observed_at present confirmations matched in
  let sample := observed_sample outpoint observed_at present confirmations matched in
  sample_of crypto pay' invoice creator_hash (t_samples pay' !! invoice) = Ok (Some sample)
  ∧ (t_evidence pay !! invoice = None →
     sample_of crypto pay' invoice creator_hash (t_evidence pay' !! invoice)
     = Ok (if qualifies sample (pb_minimum_confirmations binding) (pb_deadline binding) then Some sample else None))
  ∧ (∀ first, t_evidence pay !! invoice = Some first → t_evidence pay' !! invoice = Some first).
Proof.
  intros Hwf Hb Hrow Hown Hdec Hparse. cbv zeta.
  destruct (project_provider_v2_sample_wf pay invoice id observed_at present confirmations matched Hwf)
    as [(_ & _ & _ & (Hshape & Hsuff) & _) _].
  set (pay' := project_provider_v2_sample _ _ _ _ _ _ _) in *.
  assert (t_observations pay' = t_observations pay) as Eobs.
  { unfold pay', project_provider_v2_sample. rewrite Hb. cbv zeta. by destruct (_ && is_none _). }
  assert (Hobs : ∀ i, i = id → ∃ o r, t_observations pay' !! i = Some o ∧ ob_invoice_id o = Some invoice
     ∧ decrypt_observation crypto creator_hash i o = Ok r ∧ parse_canonical_bitcoin_outpoint (bo_outpoint r) = Ok outpoint).
  { intros i ->. exists row, record. by rewrite Eobs. }
  assert (Hstatus : sample_status_parse (payment_status_text present (bounded_confirmations confirmations))
    = Ok (if present then if bounded_confirmations confirmations =? 0 then V2_Detected else V2_Confirmed else V2_Undetected)).
  { unfold payment_status_text. destruct present; [|done]. simpl. by destruct (_ =? 0). }
  split_and!.
  - assert (t_samples pay' !! invoice = Some (mk_SampleRow (if present then Some id else None) observed_at
      (payment_status_text present (bounded_confirmations confirmations))
      (if present then bounded_confirmations confirmations else 0) (if present then matched else false))) as Hs.
    { unfold pay', project_provider_v2_sample. rewrite Hb. cbv zeta. destruct (_ && is_none _); simpl; by rewrite lookup_insert_eq. }
    destruct (Hshape _ _ Hs) as [_ Hsh]. rewrite Hs, (sample_of_ok _ _ _ _ _ outpoint Hsh Hstatus).
    + unfold observed_sample. by destruct present.
    + simpl. intros i. destruct present; [|done]. intros [= <-]. by apply Hobs.
  - intros Hnone. unfold pay' at 2, project_provider_v2_sample. rewrite Hb. cbv zeta. simpl. rewrite Hnone. simpl.
    rewrite andb_true_r. unfold observed_sample, qualifies. destruct present; simpl; [|by rewrite Hnone].
    destruct (matched && _ && _) eqn:E; simpl; [|by rewrite Hnone].
    assert (t_evidence pay' !! invoice = Some (mk_SampleRow (Some id) observed_at
      (payment_status_text true (bounded_confirmations confirmations)) (bounded_confirmations confirmations) true)) as He.
    { unfold pay', project_provider_v2_sample. rewrite Hb. cbv zeta. simpl. rewrite Hnone, E. simpl. by rewrite lookup_insert_eq. }
    destruct (Hsuff _ _ He) as (b & _ & Hsuf). unfold evidence_sufficient in Hsuf. split_bools.
    rewrite lookup_insert_eq, (sample_of_ok _ _ _ _ _ outpoint ltac:(eassumption) Hstatus).
    + simpl. by destruct matched.
    + simpl. intros i [= <-]. by apply Hobs.
  - intros first Hfirst. unfold pay', project_provider_v2_sample. rewrite Hb. cbv zeta. simpl. rewrite Hfirst. simpl.
    by rewrite andb_false_r.
Qed.

Lemma evidence_qualifies pay invoice creator_hash binding row s :
  db_wf pay → t_provider_v2 pay !! invoice = Some binding → t_evidence pay !! invoice = Some row →
  sample_of crypto pay invoice creator_hash (Some row) = Ok (Some s) →
  qualifies s (pb_minimum_confirmations binding) (pb_deadline binding) = true.
Proof.
  intros (_ & _ & _ & (_ & Hsuff) & _) Hb He H. destruct (Hsuff _ _ He) as (b & Hb' & Hs). simplify_eq.
  apply sample_of_row in H as (status & outpoint & s' & _ & Ho & [= ->] & ->). unfold qualifies. simpl. rewrite Ho.
  unfold evidence_sufficient in Hs. split_bools. by repeat (apply andb_true_iff; split); try apply Z.leb_le.
Qed.

(** a status is sound.  A provider status that is answered describes the invoice of that
    creator and bundle: deadline, threshold and instants are the stored ones; evidence it
    calls first satisfied qualifies for exactly that threshold and deadline; it is
    missing only when none was recorded; the payment state is expired exactly when the
    invoice is, and otherwise the status of the current sample; and, when the database orders the
    state names as Rust does, the request state is the domain's aggregate over the
    recorded attempts, never a conflict or a recovery. *)
Theorem provider_status_sound collate ac creator bundle_id st :
  (∀ s t, collate (state_as_str s) (state_as_str t) = str_compare (state_as_str s) (state_as_str t)) →
  db_wf (dd_pay (ac_dd ac)) → provider_v2_status crypto collate ac creator bundle_id = Ok (Some st) →
  ∃ creator_id id pay c b,
    creator_of_hash (ac_db ac) (creator_hash_of crypto creator) = Some creator_id
    ∧ provider_existing ac creator_id (lookup_hash crypto (bundle_to_string bundle_id)) = Some (id, pay, Some (c, b))
    ∧ ps_deadline st = pb_deadline b ∧ ps_minimum_confirmations st = pb_minimum_confirmations b
    ∧ ps_proposal_expires_at st = px_proposal_expires_at c ∧ ps_invoice_created_at st = iv_created_at (iv_columns pay)
    ∧ (∀ s, ps_first_threshold_satisfied st = Some s →
         qualifies s (ps_minimum_confirmations st) (ps_deadline st) = true)
    ∧ (ps_first_threshold_satisfied st = None → t_evidence (dd_pay (ac_dd ac)) !! id = None)
    ∧ (ps_payment_state st = "expired" ↔ is_some (iv_payment_expired_at (iv_projection pay)) = true)
    ∧ (iv_payment_expired_at (iv_projection pay) = None → ps_payment_state st
         = match ps_current_sample st with Some s => ProviderV2SampleStatus_as_str (sample_status s) | None => "undetected" end)
    ∧ ps_request_state st = match aggregate_lifecycle (attempts_of_invoice (ac_dd ac) id) with
                            | Some l => request_state l | None => Proposed end
    ∧ reportable (ps_request_state st) = true.
Proof.
  intros Hcollate Hwf. unfold provider_v2_status. cbv zeta.
  destruct (creator_of_hash _ _) as [cid|] eqn:Hc; [|done]. simpl.
  destruct (provider_existing _ _ _) as [[[id pay] [[c b]|]]|] eqn:Hex; [|done..]. intros H.
  apply bind_ok in H as (? & _ & H). apply bind_ok in H as (current & Hcur & H). apply bind_ok in H as (first & Hfirst & H).
  apply bind_ok in H as (state & Hst%ok_or_ok & H). apply bind_ok in H as (m & Hm & [= <-]).
  unfold try_u8 in Hm. apply bind_ok in Hm as (? & _ & [= <-]).
  exists cid, id, pay, c, b. simpl. split_and!; try done.
  - intros s ->. assert (t_provider_v2 (dd_pay (ac_dd ac)) !! id = Some b) as Hb.
    { unfold provider_existing in Hex. destruct (existing_invoice _ _ _) as [[[id' p'] x']|]; [|done]. simpl in Hex.
      injection Hex as -> -> Hcols. destruct (ac_provider ac !! id); [|done]. simpl in Hcols.
      destruct (t_provider_v2 _ !! id); [|done]. by injection Hcols as _ ->. }
    destruct (t_evidence _ !! id) as [row|] eqn:He; [by eapply evidence_qualifies|done].
  - intros ->. destruct (t_evidence _ !! id) as [row|]; [|done]. by apply sample_of_row in Hfirst as (? & ? & ? & _ & _ & ? & _).
  - destruct (is_some _); [done|]. split; [|done]. destruct current as [s|]; [|done]. by destruct (sample_status s).
  - intros ->. done.
  - unfold provider_request_state in Hst. rewrite query_picks_aggregate in Hst by done.
    destruct (aggregate_lifecycle _) as [l|]; simpl in Hst; [|by injection Hst as <-].
    rewrite state_parse_as_str in Hst. simpl in Hst. destruct (reportable _); [|done]. by injection Hst as <-.
  - destruct (state_parse _) as [s|]; simpl in Hst; [|done]. by destruct (reportable s) eqn:E; simplify_eq/=.
Qed.
End status.

(** ** The service *)

Local Open Scope list_scope.

Section service.
Context {core : LocksCore} {lib : PaykitLib} {bip32 : Bip32}.
Context (format_rfc3339 : Z → option string) (canonical_json : BindingJson → option string) (blake3 : string → string).

Notation create := (provider_create format_rfc3339 canonical_json blake3).
Notation event := (event ProviderCall).

(** Calls to services outside the store. *)
Definition is_external (ev : event) : bool :=
  match ev with
  | Ev (PvValidateSession _) _ | Ev (PvDiscover _) _ | Ev (PvAuthorization _) _ | Ev (PvReceiving _) _ => true
  | _ => false
  end.

Definition is_create (ev : event) : bool := match ev with Ev (PvCreate _) _ => true | _ => false end.

(** Every external call comes directly after [open]. *)
Fixpoint fenced (open : event) (ready : Prop) (tr : list event) : Prop :=
  match tr with
  | [] => True
  | ev :: tr => (is_external ev = true → ready) ∧ fenced open (ev = open) tr
  end.

Lemma fenced_spec open ready tr pre ev post :
  fenced open ready tr → tr = pre ++ ev :: post → is_external ev = true →
  pre = [] ∧ ready ∨ ∃ pre', pre = pre' ++ [open].
Proof.
  revert ready pre. induction tr as [|ev0 tr IH]; intros ready pre; simpl; [by destruct pre|].
  intros [H0 H] Htr Hev. destruct pre as [|ev1 pre]; injection Htr as -> ->; [left; auto|right].
  destruct (IH _ _ H eq_refl Hev) as [[-> ->]|[pre' ->]]; [by exists []|by exists (ev1 :: pre')].
Qed.

(** What a run of the service was. *)
Definition provider_run (sv : ProviderV2Service) (r : ProviderV2CreateRequest) (tr : list event)
    (res : result ProviderV2Error ProviderV2CreateResult) : Prop :=
  let creator := resource_creator (pr_lock_resource r) in
  let bundle := bundle_to_string (pr_bundle_id r) in
  fenced (Ev (PvGate creator (pr_deadline r)) (Ok true)) False tr
  ∧ (∀ x, res = Ok x → ∃ binding pre, canonical_binding format_rfc3339 canonical_json r = Ok binding ∧
       (tr = [Ev (PvPreflight creator bundle (blake3 binding)) (Ok PreflightExactReplay);
              Ev (PvExactReplay creator bundle (blake3 binding)) (Ok x)]
        ∨ ∃ input, tr = pre ++ [Ev (PvCreate input) (Ok x)]))
  ∧ (Forall (λ ev, is_create ev = false) tr
     ∨ ∃ binding pre registry receiving account x,
         canonical_binding format_rfc3339 canonical_json r = Ok binding
         ∧ tr = pre ++ [Ev (PvCreate (provider_input sv r (blake3 binding) account
                          (rd_bitcoin_account_generation receiving))) x]
         ∧ Forall (λ ev, is_create ev = false) pre
         ∧ Ev (PvPreflight creator bundle (blake3 binding)) (Ok PreflightNew) ∈ pre
         ∧ Ev (PvValidateSession creator) (Ok tt) ∈ pre
         ∧ Ev (PvDiscover (pr_reader r)) (Ok (Some registry)) ∈ pre ∧ reader_is_capable registry = true
         ∧ Ev (PvAuthorization (pr_reader r)) (Ok AuthVerified) ∈ pre
         ∧ Ev (PvReceiving creator) (Ok receiving) ∈ pre ∧ rd_bitcoin receiving = Some account
         ∧ res = map_err provider_map_store x).

(** A run that ended without starting the transaction. *)
Ltac stopped := split_and!; [by repeat split|by intros ? [=]|left; by repeat constructor].

(** The gate, and the call behind it. *)
Lemma gated_runs {F A B} creator deadline (e : ProviderCall (result F A)) f (k : A → prog ProviderCall (result ProviderV2Error B)) Q tr :
  (∀ err, Q (tr ++ [Ev (PvGate creator deadline) (Err err)]) (Err (provider_map_store err))) →
  Q (tr ++ [Ev (PvGate creator deadline) (Ok false)]) (Err Pv_DeadlineElapsed) →
  (∀ err, Q (tr ++ [Ev (PvGate creator deadline) (Ok true); Ev e (Err err)]) (Err (f err))) →
  (∀ a, all_runs (k a) Q (tr ++ [Ev (PvGate creator deadline) (Ok true); Ev e (Ok a)])) →
  all_runs (try_bind k (gated creator deadline e f)) Q tr.
Proof.
  intros H1 H2 H3 H4. apply all_runs_try. simpl. intros [[]|err]; simpl; [|done|done].
  intros [a|err]; simpl; rewrite <- app_assoc; simpl; auto.
Qed.

Lemma runs_call {X A} (e : ProviderCall X) (k : X → prog ProviderCall A) Q tr :
  (∀ x, all_runs (k x) Q (tr ++ [Ev e x])) → all_runs (prog_bind k (call e)) Q tr.
Proof. done. Qed.

Lemma provider_admission_runs sv r binding :
  canonical_binding format_rfc3339 canonical_json r = Ok binding →
  all_runs (provider_admission sv r (blake3 binding)) (provider_run sv r)
    [Ev (PvPreflight (resource_creator (pr_lock_resource r)) (bundle_to_string (pr_bundle_id r)) (blake3 binding))
       (Ok PreflightNew)].
Proof.
  intros Hb. unfold provider_admission. cbv zeta.
  apply gated_runs; [intros; stopped|stopped|intros; stopped|]. intros [].
  apply gated_runs; [intros; stopped|stopped|intros; stopped|]. intros registry.
  apply runs_pure; [|intros; stopped]. intros [] Hpay. unfold payable in Hpay.
  apply bind_ok in Hpay as (reg & ->%ok_or_ok & Hcap%ensure_ok).
  apply gated_runs; [intros; stopped|stopped|intros; stopped|]. intros authorization.
  apply runs_pure; [|intros; stopped]. intros [] Hauth. destruct authorization; [|done..].
  apply gated_runs; [intros; stopped|stopped|intros; stopped|]. intros receiving.
  apply runs_pure; [|intros; stopped]. intros account Hacc%ok_or_ok. apply runs_call. intros x. simpl. split_and!.
  - by repeat split.
  - intros y ->%map_err_ok. exists binding. eexists (_ :: _ :: _ :: _ :: _ :: _ :: _ :: _ :: [_]). split; [done|]. right. by eexists.
  - right. exists binding. eexists (_ :: _ :: _ :: _ :: _ :: _ :: _ :: _ :: [_]), reg, receiving, account, x.
    split_and!; try done; try (by repeat constructor); rewrite !elem_of_cons; tauto.
Qed.

Lemma provider_create_runs sv r : all_runs (create sv r) (provider_run sv r) [].
Proof.
  unfold provider_create. cbv zeta. apply runs_pure; [|intros e He; stopped]. intros binding Hb. apply runs_call. intros p.
  apply runs_pure; [|intros e He; simpl; stopped]. intros p' ->%map_err_ok. destruct p'; [by apply provider_admission_runs| |stopped].
  apply runs_call. intros [x|e]; simpl; [|stopped]. split_and!; [by repeat split| |left; by repeat constructor].
  intros y [= <-]. exists binding, []. split; [done|]. by left.
Qed.

(** no external work is started after the deadline.  In every run of the provider's creation
    each call to the session, registry, authorization and receiving services comes
    directly after the store answered that the request's deadline is still ahead; the
    transaction is started at most once, as the last call, for a request all of whose checks were
    answered positively in this run, with exactly the request's terms; and the service
    succeeds only with the transaction's answer or, without any external call, with an
    exact replay. *)
Theorem provider_calls_gated {S} (h : ∀ X, ProviderCall X → S → X * S) s s' sv r tr res :
  exec h (create sv r) s = (res, s', tr) →
  provider_run sv r tr res
  ∧ ∀ pre ev post, tr = pre ++ ev :: post → is_external ev = true →
      ∃ pre', pre = pre' ++ [Ev (PvGate (resource_creator (pr_lock_resource r)) (pr_deadline r)) (Ok true)].
Proof.
  intros H. assert (provider_run sv r tr res) as Hrun by (by eapply exec_all_runs; [apply provider_create_runs|]).
  split; [done|]. intros pre ev post Htr Hev. destruct Hrun as [Hf _].
  by destruct (fenced_spec _ _ _ _ _ _ Hf Htr Hev) as [[_ []]|?].
Qed.
End service.

(** ** Witnesses *)

Module Example_provider.
#[export] Existing Instance Example_drains.drain_primitives.
#[export] Existing Instance Example_core.example_core.
#[export] Existing Instance Example_lib.example_lib.

Definition crypto : Crypto := Example_crypto.example_crypto.

Definition nonce : string := repeat_char "n" 24.

Definition hash : string := repeat_char "h" 32.

Definition payment : ProviderV2Payment := mk_ProviderV2Payment "500" 500 1.

Definition request : ProviderV2CreateRequest :=
  mk_ProviderV2CreateRequest (mk_BundleId "bundle") (mk_PubkyLockResource "creator" (mk_CreatorPubky "creator"))
    (mk_ReaderPubky "reader") payment 3600000000000.

Definition service : ProviderV2Service := mk_ProviderV2Service PAYKIT_APP_ID Mainnet 600000000000.

Definition input : ProviderV2AtomicInvoiceInput := provider_input service request hash Example_create.account 0.

Definition fresh : AllocationFresh := mk_AllocationFresh "7cceb26d" 21 nonce 22 nonce nonce 23 nonce.

Definition format (t : Z) : option string := Some (fmt_dec t).

Definition payload : result PersistenceError (DeliveryIntentV1 * InvoicePaymentRecordV1) :=
  provider_intent Example_allocation.json_object Example_create.metadata_object Some Some (λ _ _, true) format
    input "7cceb26d" 3 600000000000.

(** Codecs that know the one intent and the one record. *)
Definition to_bytes (i : DeliveryIntentV1) : option string :=
  if decide (fst <$> ok payload = Some i) then Some "intent" else None.

#[export] Instance observations : ObservationCodec := {|
  encode_observation := Example_payments.encode_record;
  decode_observation := Example_payments.decode_record;
  decode_payment_record s := if String.eqb s "record" then snd <$> ok payload else None;
  encode_transfer f sender := (tf_identity f +:+ sender)%string;
  take_transfer s := Some (mk_TransferFacts s 700 50, "");
  parse_outpoint := Example_payments.parse_text;
|}.

#[export] Instance codec : AllocationCodec := {|
  assignment_to_bytes a :=
    if (ra_version a =? 1) && in_u64 (ra_child_index a) then Some (fmt_dec (ra_child_index a)) else None;
  assignment_from_bytes s := mk_ReaderAssignmentV1 1 <$> parse_u64 s;
  record_to_bytes r := if decide (snd <$> ok payload = Some r) then Some "record" else None;
|}.

Lemma provider_codec_laws : AllocationCodecLaws codec.
Proof.
  split; simpl.
  - intros [v i] bytes. simpl. unfold in_u64. destruct (_ && _) eqn:E; [|done]. intros [= <-]. split_bools. subst v.
    by rewrite parse_u64_fmt_dec.
  - intros r bytes. case_decide as Hr; [|done]. intros [= <-]. done.
Qed.

Notation start := Example_allocation.start.
Notation create ac fresh now := (create_provider_v2_atomic crypto to_bytes Example_allocation.json_object
  Example_create.metadata_object Some Some (λ _ _, true) format ac input fresh now).

Definition res : ProviderV2CreateResult := mk_ProviderV2CreateResult 22 0 600000000000 3600000000000 false.

Definition created : AccountDb := match create start fresh 0 with Ok (_, ac) => ac | Err _ => start end.

Lemma provider_create_run : create start fresh 0 = Ok (res, created).
Proof.
  unfold created. assert (match create start fresh 0 with Ok (r, _) => r = res | Err _ => False end) as Hok
    by (vm_compute; reflexivity).
  destruct (create start fresh 0) as [[r ac]|e]; [by subst r|done].
Qed.

(** An output seen for the created invoice. *)
Definition creator_hash : string := creator_hash_of crypto (mk_CreatorPubky "creator").

Definition seen : ObservationRow :=
  mk_ObservationRow (Some 22%N) None
    (match encrypt crypto nonce (ctx_bitcoin_observation_for_invoice creator_hash 41 22)
             (Example_payments.encode_record (mk_BitcoinObservationV1 1 (canonical_text (Example_payments.tx 0)) 600)) with
     | Ok e => e | Err _ => "" end)
    (bitcoin_outpoint_lookup_hash crypto (canonical_text (Example_payments.tx 0))) 5 2 true true.

Definition observed_pay : PaymentDb := set_observations (dd_pay (ac_dd created)) {[41%N := seen]}.

Definition sampled : PaymentDb := project_provider_v2_sample observed_pay 22 41 5 true 2 true.

Definition reported : AccountDb := set_ac_dd created (set_pay (ac_dd created) sampled).

Definition status := provider_v2_status crypto str_compare reported (mk_CreatorPubky "creator") (mk_BundleId "bundle").

Lemma provider_status_run : is_some (ok status ≫= λ s, s ≫= ps_first_threshold_satisfied) = true.
Proof. vm_compute. reflexivity. Qed.

Lemma seen_opens :
  decrypt_observation crypto creator_hash 41 seen
  = Ok (mk_BitcoinObservationV1 1 (canonical_text (Example_payments.tx 0)) 600).
Proof. vm_compute. reflexivity. Qed.

Lemma created_binding : t_provider_v2 observed_pay !! 22%N = Some (mk_ProviderBinding 1 3600000000000).
Proof. vm_compute. reflexivity. Qed.

Lemma created_timely : t_timely (dd_pay (ac_dd created)) = ∅.
Proof. vm_compute. reflexivity. Qed.

#[local] Opaque created.

Lemma start_provider_wf : provider_wf start.
Proof.
  split; simpl; intros *; rewrite ?lookup_empty; done.
Qed.

Lemma start_db_wf : db_wf (dd_pay (ac_dd start)).
Proof.
  split_and!; simpl.
  - split_and!; intros *; by rewrite lookup_empty.
  - intros invoice h. set_solver.
  - intros id row. by rewrite lookup_empty.
  - split; intros *; by rewrite lookup_empty.
  - intros id id' r r'. by rewrite lookup_empty.
Qed.

Lemma provider_fresh_ok : fresh_nonces fresh.
Proof. unfold fresh_nonces. vm_compute. done. Qed.

Lemma valid_input : valid_request input = true.
Proof. vm_compute. reflexivity. Qed.

Lemma created_facts :
  account_wf crypto created ∧ provider_wf created ∧ db_wf (dd_pay (ac_dd created)) ∧ keeps start created.
Proof.
  pose proof Example_drains.drain_laws as L. pose proof provider_codec_laws as C.
  destruct (create_provider_ok crypto to_bytes Example_allocation.json_object Example_create.metadata_object
    Some Some (λ _ _, true) format start input fresh 0 res created start_provider_wf provider_create_run)
    as (cid & c & _ & Hh & Hc & _ & [[? _]|(_ & _ & e & g & i & r & rf & pl & ae & oe & new & Hpa)]); [done|].
  pose proof (provider_rows _ _ _ _ _ _ _ _ Hpa) as Hst. pose proof (@Example_allocation.start_wf_of codec) as Hwf.
  split_and!.
  - exact (allocation_preserves_wf crypto Hst Hh Hc Hwf provider_fresh_ok).
  - exact (provider_preserves_wf _ _ _ _ _ _ _ _ Hpa start_provider_wf Hwf).
  - exact (provider_preserves_payments _ _ _ _ _ _ _ _ Hpa start_provider_wf start_db_wf).
  - exact (allocation_keeps crypto Hst Hwf).
Qed.

Lemma created_account_wf : account_wf crypto created.
Proof. exact (proj1 created_facts). Qed.

Lemma created_provider_wf : provider_wf created.
Proof. exact (proj1 (proj2 created_facts)). Qed.

Lemma one_observation_wf pay id row :
  db_wf pay → t_timely pay = ∅ →
  is_some (ob_invoice_id row) = negb (is_some (ob_marketplace_preparation_id row)) → 0 <= ob_confirmations row →
  db_wf (set_observations pay {[id := row]}).
Proof.
  intros (_ & _ & Hi & Hs & Hr) Ht Hown Hc. split_and!; try done; simpl.
  - split_and!; intros *; rewrite !lookup_singleton_Some; [by intros [<- <-] [<- <-]..|]. by intros [<- <-].
  - rewrite Ht. intros ? ?. set_solver.
Qed.

Lemma observed_wf_ok : db_wf observed_pay.
Proof.
  assert (0 <= ob_confirmations seen) as Hc by (simpl; lia).
  exact (one_observation_wf _ 41 seen (proj1 (proj2 (proj2 created_facts))) created_timely eq_refl Hc).
Qed.

Lemma reported_wf : db_wf (dd_pay (ac_dd reported)).
Proof. apply project_provider_v2_sample_wf, observed_wf_ok. Qed.

(** Every check of the service succeeds. *)
Definition handler (X : Type) (e : ProviderCall X) (s : unit) : X * unit :=
  match e in ProviderCall Y return Y * unit with
  | PvPreflight _ _ _ => (Ok PreflightNew, s)
  | PvExactReplay _ _ _ => (Ok res, s)
  | PvGate _ _ => (Ok true, s)
  | PvValidateSession _ => (Ok tt, s)
  | PvDiscover _ => (Ok (Some Example_create.registry), s)
  | PvAuthorization _ => (Ok AuthVerified, s)
  | PvReceiving _ => (Ok Example_create.receiving, s)
  | PvCreate _ => (Ok res, s)
  | PvStatus _ _ => (Ok None, s)
  end.

Definition run := exec handler (provider_create format (λ _, Some "binding") (λ _, hash) service request) tt.
End Example_provider.
Import Example_provider.
#[local] Opaque created.

Lemma provider_calls_gated_witness : provider_run format (λ _, Some "binding") (λ _, hash) service request run.2 (Ok res).
Proof.
  exact (proj1 (provider_calls_gated format (λ _, Some "binding") (λ _, hash) handler tt run.1.2 service request run.2
    (Ok res) eq_refl)).
Defined.

Lemma provider_creation_consistent_witness : account_wf crypto created ∧ 0 < 3600000000000.
Proof.
  pose proof Example_drains.drain_laws as L. pose proof provider_codec_laws as C.
  assert (0 <= 600) as Hs by lia.
  destruct (provider_creation_consistent crypto to_bytes Example_allocation.json_object Example_create.metadata_object
    Some Some (λ _ _, true) format start input fresh 0 res created Example_allocation.start_wf_of start_provider_wf
    start_db_wf provider_fresh_ok Hs provider_create_run) as (Hwf & _ & _ & _ & Hnew).
  split; [exact Hwf|]. exact (proj1 (Hnew eq_refl)).
Defined.

Lemma provider_creation_idempotent_witness :
  create created (mk_AllocationFresh "other" 31 nonce 32 nonce nonce 33 nonce) 7200000000000
  = Ok (provider_replay res, created).
Proof.
  pose proof Example_drains.drain_laws as L. pose proof provider_codec_laws as C.
  exact (proj1 (provider_creation_idempotent crypto to_bytes Example_allocation.json_object Example_create.metadata_object
    Some Some (λ _ _, true) format start input fresh 0 res created created input
    (mk_AllocationFresh "other" 31 nonce 32 nonce nonce 33 nonce) 7200000000000 Example_allocation.start_wf_of
    start_provider_wf provider_create_run eq_refl (reflexivity created) created_account_wf eq_refl eq_refl eq_refl
    valid_input)).
Defined.

Lemma contracts_exclusive_witness :
  preflight crypto created (ai_creator Example_allocation.input) (ai_bundle_binding Example_allocation.input)
    (ai_payment_request_binding Example_allocation.input) = PreflightConflict.
Proof.
  pose proof Example_drains.drain_laws as L. pose proof provider_codec_laws as C.
  assert (validated_windows Example_allocation.input = Ok (600, 3600)) as Hw by (vm_compute; reflexivity).
  assert (5 + 3600 * NANOS_PER_SECOND <= instant_max) as Ht by (vm_compute; congruence).
  assert (ai_creator Example_allocation.input = pi_creator input) as Hc by (vm_compute; reflexivity).
  assert (ai_bundle_binding Example_allocation.input = pi_bundle_binding input) as Hb by (vm_compute; reflexivity).
  pose proof (contracts_exclusive crypto Example_allocation.from_bytes to_bytes
    Example_allocation.json_object Example_create.metadata_object Some Some (λ _ _, true) PAYKIT_APP_ID format
    start created Example_allocation.start_wf_of start_provider_wf created_account_wf created_provider_wf) as H.
  pose proof (proj1 H input fresh 0 res created Example_allocation.input fresh 5 600 3600 provider_create_run eq_refl
    (reflexivity created) Hc Hb Hw Ht) as H'.
  exact (proj2 (proj2 H')).
Defined.

Lemma provider_sample_roundtrip_witness :
  sample_of crypto sampled 22 creator_hash (t_samples sampled !! 22%N)
  = Ok (Some (observed_sample (Example_payments.tx 0) 5 true 2 true)).
Proof.
  assert (@parse_canonical_bitcoin_outpoint observations (canonical_text (Example_payments.tx 0))
          = Ok (Example_payments.tx 0)) as Hp by (vm_compute; reflexivity).
  exact (proj1 (provider_sample_roundtrip crypto observed_pay 22 (mk_ProviderBinding 1 3600000000000) 41 seen creator_hash
    (mk_BitcoinObservationV1 1 (canonical_text (Example_payments.tx 0)) 600) (Example_payments.tx 0) 5 true 2 true
    observed_wf_ok created_binding eq_refl eq_refl seen_opens Hp)).
Defined.

Lemma provider_status_sound_witness :
  ∃ st s, status = Ok (Some st) ∧ ps_first_threshold_satisfied st = Some s
          ∧ qualifies s (ps_minimum_confirmations st) (ps_deadline st) = true.
Proof.
  pose proof provider_status_run as Hok. destruct status as [[st|]|e] eqn:E; [|discriminate Hok..]. simpl in Hok.
  destruct (ps_first_threshold_satisfied st) as [s|] eqn:Es; [|discriminate Hok].
  unfold status in E |- *. pose proof (reported_wf) as Hwf.
  pose proof (provider_status_sound crypto str_compare reported (mk_CreatorPubky "creator") (mk_BundleId "bundle") st
    (λ _ _, eq_refl) Hwf E) as H. destruct H as (? & ? & ? & ? & ? & _ & _ & _ & _ & _ & _ & Hq & _).
  exists st, s. split; [reflexivity|]. split; [exact Es|]. exact (Hq s Es).
Defined.
