(* ===== verification/MarketTerms.v ===== *)
(** * MarketTerms: terms and quote of a Marketplace request
    ([application/marketplace_terms.rs], [application/setup_status.rs])

    A Marketplace request carries a denomination, an exact amount and the set of assets
    the buyer may pay with.  The quote, the exact payable amount per asset and the rates
    it was computed at, is never stored: it is read back from the delivery intent that is
    sent, so what is charged is what was published. *)

From S2P Require Import Prelude Text Locks Invoice Receiving Payment Lifecycle Pricing Intent Database PaymentRecord Sorting.
Local Open Scope string_scope.
Local Open Scope Z_scope.

Inductive AcceptedAsset := Accept_Btc | Accept_Usdt.

#[global] Instance AcceptedAsset_eq_dec : EqDecision AcceptedAsset.
Proof. solve_decision. Defined.

Inductive AcceptedAssetError := AcceptedAsset_Unsupported.

Definition AcceptedAsset_parse (value : string) : result AcceptedAssetError AcceptedAsset :=
  if String.eqb value "BTC" then Ok Accept_Btc
  else if String.eqb value "USDT" then Ok Accept_Usdt
  else Err AcceptedAsset_Unsupported.

Definition accepted_as_str (a : AcceptedAsset) : string :=
  match a with Accept_Btc => "BTC" | Accept_Usdt => "USDT" end.

Definition criterion_asset (a : AcceptedAsset) : CriterionAsset :=
  match a with Accept_Btc => Btc | Accept_Usdt => Usdt end.

(** The derived [Ord]. *)
Definition accepted_compare (a b : AcceptedAsset) : comparison :=
  match a, b with Accept_Btc, Accept_Usdt => Lt | Accept_Usdt, Accept_Btc => Gt | _, _ => Eq end.

#[global] Instance accepted_total : TotalCompare accepted_compare.
Proof. split; [by intros [] []|by intros [] []|by intros [] [] []]. Qed.

#[global] Instance accepted_precompare : PreCompare accepted_compare.
Proof. split; [by intros [] []|by intros [] [] []]. Qed.

Inductive MarketplaceTermsError := TermsInvalid.

Record MarketplaceTerms := mk_MarketplaceTerms {
  mt_amount : Z;
  mt_asset : CriterionAsset;
  mt_accepted_assets : list AcceptedAsset;
}.

#[global] Instance MarketplaceTerms_eq_dec : EqDecision MarketplaceTerms.
Proof. solve_decision. Defined.

(** [windows(2).any(|pair| pair[0] == pair[1])] *)
Fixpoint adjacent_equal (l : list AcceptedAsset) : bool :=
  match l with
  | a :: ((b :: _) as rest) => bool_decide (a = b) || adjacent_equal rest
  | _ => false
  end.

Definition MarketplaceTerms_new (amount : Z) (asset : CriterionAsset) (accepted_assets : list AcceptedAsset) :
    result MarketplaceTermsError MarketplaceTerms :=
  let accepted_assets := sort_by accepted_compare accepted_assets in
  ensure (negb ((amount =? 0) || bool_decide (accepted_assets = []) || adjacent_equal accepted_assets)) TermsInvalid;;
  Ok (mk_MarketplaceTerms amount asset accepted_assets).

Definition terms_parse_amount (value : string) : result MarketplaceTermsError Z :=
  map_err (λ _, TermsInvalid) (units <$> CriterionAmount_parse value).

Definition accepts (t : MarketplaceTerms) (a : AcceptedAsset) : bool :=
  bool_decide (a ∈ mt_accepted_assets t).

Definition crosses_bitcoin_rate (t : MarketplaceTerms) : bool :=
  (asset_eqb (mt_asset t) Btc && accepts t Accept_Usdt)
  || (negb (asset_eqb (mt_asset t) Btc) && accepts t Accept_Btc).

Record MarketplaceQuote := mk_MarketplaceQuote {
  mq_payment_amounts : list (AcceptedAsset * Z);
  mq_rates : list (AcceptedAsset * string);
}.

#[global] Instance MarketplaceQuote_eq_dec : EqDecision MarketplaceQuote.
Proof. solve_decision. Defined.

Definition payment_amount (q : MarketplaceQuote) (a : AcceptedAsset) : option Z :=
  option_map snd (head (filter (λ p : AcceptedAsset * Z, p.1 = a) (mq_payment_amounts q))).

Section terms.
Context {core : LocksCore} {lib : PaykitLib}.
Context {Json : Type} (json_from_str : string → option Json)
  (json_value : Json → option string) (json_is_object : Json → list (string * string) → bool).
Notation from_intent := (from_intent json_from_str json_value json_is_object).

(** The assets a record has destinations for. *)
Definition record_assets (r : InvoicePaymentRecordV1) : list AcceptedAsset :=
  (if has_bitcoin r then [Accept_Btc] else []) ++ (if has_usdt r then [Accept_Usdt] else []).

Definition terms_from_intent (intent : DeliveryIntentV1) (amount : Z) (asset : CriterionAsset) :
    result PersistenceError MarketplaceTerms :=
  record ← from_intent 0 intent;
  map_err (λ _, PE_InvalidInput) (MarketplaceTerms_new amount asset (record_assets record)).

Definition required_amount (r : InvoicePaymentRecordV1) (a : AcceptedAsset) : result PersistenceError Z :=
  match a with Accept_Btc => bitcoin_required_amount r | Accept_Usdt => usdt_required_amount r end.

(** The rates the intent names for one accepted asset. *)
Definition matching_rates (rates : list ConversionRate) (a : AcceptedAsset) : list ConversionRate :=
  filter (λ r, rate_asset r = to_ascii_lowercase (as_str (criterion_asset a))) rates.

(** One turn of the loop over the accepted assets. *)
Definition quote_asset (denomination : CriterionAsset) (rates : list ConversionRate) (record : InvoicePaymentRecordV1)
    (a : AcceptedAsset) : result PersistenceError (AcceptedAsset * Z * option (AcceptedAsset * string)) :=
  amount ← required_amount record a;
  let matching := matching_rates rates a in
  ensure (negb (bool_decide (1 < length matching)%nat
                || negb (Bool.eqb (negb (bool_decide (matching = [])))
                           (negb (asset_eqb (criterion_asset a) denomination))))) PE_InvalidInput;;
  Ok ((a, amount), (λ r, (a, rate_value r)) <$> head matching).

Definition quote_from_intent (intent : DeliveryIntentV1) (terms : MarketplaceTerms) :
    result PersistenceError MarketplaceQuote :=
  intent_terms ← map_err (λ _, PE_InvalidInput) (intent_terms intent);
  ensure (String.eqb (Intent.asset intent_terms) (to_ascii_lowercase (as_str (mt_asset terms)))
          && String.eqb (Intent.amount intent_terms) (decimal_amount (mt_asset terms) (mt_amount terms))) PE_InvalidInput;;
  record ← from_intent 0 intent;
  ensure (Bool.eqb (has_bitcoin record) (accepts terms Accept_Btc)
          && Bool.eqb (has_usdt record) (accepts terms Accept_Usdt)) PE_InvalidInput;;
  quoted ← collect (quote_asset (mt_asset terms) (rates intent_terms) record) (mt_accepted_assets terms);
  let quoted_rates := omap snd quoted in
  ensure (bool_decide (length (rates intent_terms) = length quoted_rates)) PE_InvalidInput;;
  Ok (mk_MarketplaceQuote (fst <$> quoted) quoted_rates).
End terms.

(** ** Terms *)

Lemma canonical_assets l :
  StronglySorted (cmp_le accepted_compare) l → adjacent_equal l = false →
  l = [] ∨ l = [Accept_Btc] ∨ l = [Accept_Usdt] ∨ l = [Accept_Btc; Accept_Usdt].
Proof.
  intros Hs Ha. destruct l as [|a [|b [|c l]]]; [by auto|destruct a; by auto| |].
  - inversion Hs as [|? ? _ H1]; inversion H1 as [|? ? Hab _]; subst.
    destruct a, b; simpl in Ha; try done; by auto.
  - exfalso. inversion Hs as [|? ? Hs1 H1]; inversion H1 as [|? ? Hab _]; subst.
    inversion Hs1 as [|? ? _ H3]; inversion H3 as [|? ? Hbc _]; subst.
    destruct a, b, c; simpl in Ha; try done; by (destruct (Hab eq_refl) || destruct (Hbc eq_refl)).
Qed.

Lemma terms_new_ok amount asset l t :
  MarketplaceTerms_new amount asset l = Ok t →
  t = mk_MarketplaceTerms amount asset (sort_by accepted_compare l) ∧ amount ≠ 0
  ∧ (mt_accepted_assets t = [Accept_Btc] ∨ mt_accepted_assets t = [Accept_Usdt]
     ∨ mt_accepted_assets t = [Accept_Btc; Accept_Usdt]).
Proof.
  unfold MarketplaceTerms_new. cbv zeta. intros H. apply bind_ok in H as ([] & Hc%ensure_ok & [= <-]). split_bools.
  split_and!; [done..|]. simpl. pose proof (sort_by_sorted accepted_compare l) as Hs.
  destruct (canonical_assets _ Hs) as [?|?]; done.
Qed.

Lemma adjacent_equal_nodup l : StronglySorted (cmp_le accepted_compare) l → adjacent_equal l = negb (bool_decide (NoDup l)).
Proof.
  intros Hs. destruct (adjacent_equal l) eqn:E.
  - symmetry. apply negb_true_iff, bool_decide_eq_false. intros Hd. clear Hs.
    induction l as [|a [|b l] IH]; [done..|]. apply NoDup_cons in Hd as [Hn Hd]. simpl in E.
    apply orb_true_iff in E as [E|E]; [|by auto]. split_bools. subst b. apply Hn. by left.
  - symmetry. apply negb_false_iff, bool_decide_eq_true.
    destruct (canonical_assets _ Hs E) as [-> | [-> | [-> | ->]]]; repeat constructor; set_solver.
Qed.

(** the terms of a request do not depend on how its assets are listed.  They are
    accepted exactly when the amount is not zero and the assets are a non-empty list
    without repetition, and equal sets of assets give equal terms, so the same request
    always has the same binding. *)
Theorem terms_canonical amount asset l :
  (is_ok (MarketplaceTerms_new amount asset l) = true ↔ amount ≠ 0 ∧ l ≠ [] ∧ NoDup l)
  ∧ (∀ l' , l ≡ₚ l' → MarketplaceTerms_new amount asset l = MarketplaceTerms_new amount asset l')
  ∧ (∀ t a, MarketplaceTerms_new amount asset l = Ok t → accepts t a = true ↔ a ∈ l).
Proof.
  split_and!.
  - unfold MarketplaceTerms_new. cbv zeta. rewrite adjacent_equal_nodup by apply sort_by_sorted, _.
    assert (NoDup (sort_by accepted_compare l) ↔ NoDup l) as Hnd by (by rewrite sort_by_Permutation).
    assert (sort_by accepted_compare l = [] ↔ l = []) as Hnil.
    { split; [|by intros ->]. intros H. apply Permutation_nil_r. by rewrite <- H, sort_by_Permutation. }
    unfold ensure. destruct (amount =? 0) eqn:E0; split_bools; simpl; [naive_solver|].
    case_bool_decide; simpl; [naive_solver|]. case_bool_decide; simpl; naive_solver.
  - intros l' Hp. unfold MarketplaceTerms_new. by rewrite (sort_by_unique accepted_compare l l' Hp (λ x y _ _, compare_eq accepted_compare x y)).
  - intros t a H. apply terms_new_ok in H as (-> & _). unfold accepts. simpl.
    by rewrite bool_decide_eq_true, elem_of_sort_by.
Qed.

(** ** The record of an intent *)

Section record_facts.
Context {core : LocksCore} {lib : PaykitLib}.
Context {Json : Type} (json_from_str : string → option Json)
  (json_value : Json → option string) (json_is_object : Json → list (string * string) → bool).
Notation from_intent := (from_intent json_from_str json_value json_is_object).
Notation quote_from_intent := (quote_from_intent json_from_str json_value json_is_object).

Definition with_index (index : Z) (r : InvoicePaymentRecordV1) : InvoicePaymentRecordV1 :=
  mk_InvoicePaymentRecordV1 (pr_version r) index (pr_bitcoin r) (pr_usdt r).

Lemma add_endpoint_index terms requested r i payload index :
  add_endpoint json_from_str json_value json_is_object terms requested (with_index index r) i payload
  = with_index index <$> add_endpoint json_from_str json_value json_is_object terms requested r i payload.
Proof.
  unfold add_endpoint. destruct (ok_or (json_from_str payload) PE_InvalidInput) as [p|e]; [|done]. simpl.
  destruct (payload_address json_value p) as [a|e]; [|done]. simpl.
  match goal with |- context [?x ≫= _] => destruct x as [asset|e] end; [|done]. simpl.
  destruct (negb _); [|done]. simpl. destruct (map_err _ _) as [units|e]; [|done]. by destruct asset.
Qed.

Lemma add_endpoints_index terms requested l r index :
  add_endpoints json_from_str json_value json_is_object terms requested l (with_index index r)
  = with_index index <$> add_endpoints json_from_str json_value json_is_object terms requested l r.
Proof.
  revert r. induction l as [|[i payload] l IH]; intros r; [done|]. simpl. rewrite add_endpoint_index.
  destruct (add_endpoint _ _ _ _ _ r i payload) as [r'|e]; [|done]. simpl. apply IH.
Qed.

(** The child index is only stored. *)
Lemma from_intent_index index intent : from_intent index intent = with_index index <$> from_intent 0 intent.
Proof.
  unfold PaymentRecord.from_intent. destruct (map_err _ (intent_terms intent)) as [t|e]; [|done]. simpl.
  destruct (map_err _ _) as [requested|e]; [|done]. simpl. destruct (ensure _ _) as [[]|e]; [|done]. simpl.
  by rewrite <- (add_endpoints_index t requested _ (mk_InvoicePaymentRecordV1 1 0 None None) index).
Qed.

(** The deadlines of an intent play no part in its record, its terms or its quote. *)
Definition retimed (i i' : DeliveryIntentV1) : Prop :=
  match operation i, operation i' with
  | PaymentRequestProposal t, PaymentRequestProposal t' => ∃ p d, t' = with_deadlines t p d
  | PaymentRequestCancellation _, PaymentRequestCancellation _ => True
  | _, _ => False
  end.

Lemma set_deadlines_retimed i p d : retimed i (set_deadlines i p d).1.
Proof.
  assert (retimed i i) as Hi.
  { unfold retimed. destruct (operation i) as [t|]; [|done]. exists (proposal_expires_at t), (payment_deadline t). by destruct t. }
  unfold set_deadlines. destruct (_ ← _; _) as [canonical|e]; [|exact Hi].
  destruct (operation i) as [t|] eqn:E; [|exact Hi]. unfold retimed. simpl. rewrite E. by eexists _, _.
Qed.

Lemma add_endpoints_retimed t p d requested l r :
  add_endpoints json_from_str json_value json_is_object (with_deadlines t p d) requested l r
  = add_endpoints json_from_str json_value json_is_object t requested l r.
Proof.
  revert r. induction l as [|[i payload] l IH]; intros r; [done|]. simpl.
  change (add_endpoint json_from_str json_value json_is_object (with_deadlines t p d) requested r i payload)
    with (add_endpoint json_from_str json_value json_is_object t requested r i payload).
  destruct (add_endpoint _ _ _ _ _ _ _ _) as [r'|e]; [|done]. simpl. apply IH.
Qed.

Lemma from_intent_retimed index i i' : retimed i i' → from_intent index i' = from_intent index i.
Proof.
  unfold retimed, PaymentRecord.from_intent, intent_terms. destruct (operation i) as [t|], (operation i') as [t'|]; [|done..].
  intros (p & d & ->). simpl. destruct (map_err _ _) as [requested|e]; [|done]. simpl.
  destruct (ensure _ _); [|done]. apply add_endpoints_retimed.
Qed.

Lemma quote_retimed i i' terms : retimed i i' → quote_from_intent i' terms = quote_from_intent i terms.
Proof.
  intros H. pose proof (from_intent_retimed 0 _ _ H) as Hr. unfold MarketTerms.quote_from_intent. rewrite Hr.
  unfold retimed, intent_terms in *. destruct (operation i) as [t|], (operation i') as [t'|]; try done.
  by destruct H as (p & d & ->).
Qed.

(** ** The quote *)

Lemma quote_asset_ok denomination rates record a x :
  quote_asset denomination rates record a = Ok x →
  x.1.1 = a ∧ required_amount record a = Ok x.1.2
  ∧ (criterion_asset a = denomination → matching_rates rates a = [] ∧ x.2 = None)
  ∧ (criterion_asset a ≠ denomination → ∃ r, matching_rates rates a = [r] ∧ x.2 = Some (a, rate_value r)).
Proof.
  unfold quote_asset. cbv zeta. intros Hq. apply bind_ok in Hq as (n & Hn & Hq).
  apply bind_ok in Hq as ([] & Hc%ensure_ok & [= <-]). simpl. split_and!; [done..| |];
    intros Hd; apply negb_true_iff, orb_false_iff in Hc as [H1 H2];
    apply negb_false_iff, eqb_prop in H2; unfold asset_eqb in H2;
    destruct (matching_rates rates a) as [|r [|r' l]]; simpl in *; case_bool_decide; try done; eauto.
Qed.

Lemma quote_from_intent_ok intent terms q :
  quote_from_intent intent terms = Ok q →
  ∃ t record quoted,
    operation intent = PaymentRequestProposal t ∧ from_intent 0 intent = Ok record
    ∧ Intent.asset t = to_ascii_lowercase (as_str (mt_asset terms))
    ∧ Intent.amount t = decimal_amount (mt_asset terms) (mt_amount terms)
    ∧ has_bitcoin record = accepts terms Accept_Btc ∧ has_usdt record = accepts terms Accept_Usdt
    ∧ Forall2 (λ a x, quote_asset (mt_asset terms) (rates t) record a = Ok x) (mt_accepted_assets terms) quoted
    ∧ length (rates t) = length (omap snd quoted)
    ∧ q = mk_MarketplaceQuote (fst <$> quoted) (omap snd quoted).
Proof.
  unfold MarketTerms.quote_from_intent. intros H. apply bind_ok in H as (t & Ht%map_err_ok & H).
  apply bind_ok in H as ([] & Hc%ensure_ok & H). apply bind_ok in H as (record & Hr & H).
  apply bind_ok in H as ([] & Hc2%ensure_ok & H). apply bind_ok in H as (quoted & Hq%collect_ok_Forall2 & H).
  apply bind_ok in H as ([] & Hc3%ensure_ok & [= <-]). unfold intent_terms in Ht.
  destruct (operation intent); [|done]. injection Ht as ->. apply andb_true_iff in Hc2 as [Hb%eqb_prop Hu%eqb_prop].
  split_bools. eauto 15.
Qed.

Lemma quoted_amounts denomination rates record assets quoted :
  Forall2 (λ a x, quote_asset denomination rates record a = Ok x) assets quoted →
  (fst <$> quoted).*1 = assets
  ∧ (∀ a n, (a, n) ∈ fst <$> quoted → required_amount record a = Ok n)
  ∧ (∀ a v, (a, v) ∈ omap snd quoted → ∃ r, matching_rates rates a = [r] ∧ rate_value r = v)
  ∧ (omap snd quoted).*1 = filter (λ a, criterion_asset a ≠ denomination) assets.
Proof.
  induction 1 as [|a x assets quoted Hx _ (IH1 & IH2 & IH3 & IH4)]; [split_and!; [done|set_solver..|done]|].
  apply quote_asset_ok in Hx as (Ha & Hr & Hsame & Hother). destruct x as [[b n] rate]; simpl in *. subst b.
  split_and!.
  - by f_equal.
  - intros b m [[= -> ->]|Hin]%elem_of_cons; [done|by apply IH2].
  - intros b v Hin. destruct (decide (criterion_asset a = denomination)) as [Hd|Hd].
    + destruct (Hsame Hd) as [_ ->]. by apply IH3.
    + destruct (Hother Hd) as (r & Hm & ->). apply elem_of_cons in Hin as [[= -> ->]|Hin]; [by eauto|by apply IH3].
  - destruct (decide (criterion_asset a = denomination)) as [Hd|Hd].
    + destruct (Hsame Hd) as [_ ->]. rewrite filter_cons_False by tauto. done.
    + destruct (Hother Hd) as (r & _ & ->). rewrite filter_cons_True by done. by apply (f_equal (cons a) IH4).
Qed.

Lemma parse_denomination a : CriterionAsset_parse (to_ascii_uppercase (to_ascii_lowercase (as_str a))) = Ok a.
Proof. by destruct a. Qed.

(** the quote of a Marketplace request is the published request.  When a quote is read
    from an intent, the intent asks for exactly the requested amount and denomination;
    every accepted asset has one payable amount, the exact payment of the request at the
    rates the intent itself carries; a rate is quoted for exactly the accepted assets that
    are not the denomination, it is the only rate of that asset in the intent, and the
    intent carries no other rate. *)
Theorem quote_exact intent terms q :
  quote_from_intent intent terms = Ok q →
  ∃ t, operation intent = PaymentRequestProposal t
    ∧ Intent.asset t = to_ascii_lowercase (as_str (mt_asset terms))
    ∧ Intent.amount t = decimal_amount (mt_asset terms) (mt_amount terms)
    ∧ (mq_payment_amounts q).*1 = mt_accepted_assets terms
    ∧ (∀ a n, (a, n) ∈ mq_payment_amounts q →
         payment_units (Intent.amount t) (mt_asset terms) (criterion_asset a) (rates t) = Ok n)
    ∧ (mq_rates q).*1 = filter (λ a, criterion_asset a ≠ mt_asset terms) (mt_accepted_assets terms)
    ∧ (∀ a v, (a, v) ∈ mq_rates q → ∃ r, matching_rates (rates t) a = [r] ∧ rate_value r = v)
    ∧ length (rates t) = length (mq_rates q).
Proof.
  intros H. apply quote_from_intent_ok in H as (t & record & quoted & Hop & Hr & Hasset & Hamount & _ & _ & Hq & Hlen & ->).
  apply quoted_amounts in Hq as (H1 & H2 & H3 & H4). exists t. simpl. split_and!; [done..| |done|done|done].
  apply from_intent_inv in Hr as (t' & requested & Hop' & Hreq & Hv & _ & _ & Hb & Hu).
  assert (t' = t) as -> by congruence. rewrite Hasset, parse_denomination in Hreq. injection Hreq as <-.
  intros a n Hin%H2. destruct a; simpl in *; apply bind_ok in Hin as ([] & _ & Hin%ok_or_ok);
    [destruct (pr_bitcoin record) as [d|] eqn:Ed|destruct (pr_usdt record) as [d|] eqn:Ed]; try done;
    injection Hin as <-; [destruct (Hb d eq_refl) as (? & ? & ? & ? & ? & ? & ? & ?)|destruct (Hu d eq_refl) as (? & ? & ? & ? & ? & ? & ? & ?)]; done.
Qed.
End record_facts.
