(* ===== verification/MarketStore.v ===== *)
(** * MarketStore: Marketplace preparations ([persistence/marketplace_preparations.rs])

    A Marketplace invoice is prepared without being published: the child index is
    reserved, the Payment Request is fixed and sealed, and nothing is queued.  It then
    becomes active, which creates its settlement and exactly one proposal in one
    transaction, or is voided.  A business outcome may be recorded once, in any state.

    [MarketDb] adds to the account tables the columns of
    [marketplace_payment_preparations] and [marketplace_settlements] no other store
    reads; state, deadline and owner of a row live where the other stores read them
    ([preparations], [ld_preparation_creators], [ld_settlements],
    [ac_preparation_generations]) and are written together with the rest. *)

From S2P Require Import Prelude Text Locks Invoice Receiving Payment Lifecycle Pricing Intent Readers Database OutboxStore CreateInvoice PaymentRecord Crypto Observations LifecycleStore Drains Status Creators Allocation Provider MarketTerms Sorting.
Local Open Scope string_scope.
Local Open Scope Z_scope.

(** ** Rows *)

Record PreparationColumns := mk_PreparationColumns {
  pn_operation_lookup_hash : string;
  pn_request_lookup_hash : string;
  pn_reader_lookup_hash : string;
  pn_envelope : string;
  pn_prepared_at : Z;
  pn_prepare_expires_at : Z;
  pn_activated_at : option Z;
  pn_voided_at : option Z;
  pn_business_outcome : option string;
  pn_resolved_at : option Z;
}.

(** The projection columns are those of [invoices]. *)
Record SettlementColumns := mk_SettlementColumns {
  se_payment_record_envelope : string;
  se_address_lookup_hash : option string;
  se_derivation_index_lookup_hash : string;
  se_projection : ProjectionColumns;
}.

Record MarketDb := mk_MarketDb {
  mm_ac : AccountDb;
  mm_preparations : gmap RowId PreparationColumns;
  mm_settlements : gmap RowId SettlementColumns;
  mm_timely : gset (RowId * string);   (* marketplace_timely_amount_matched_outpoints *)
}.

Definition mm_db (md : MarketDb) : Db := ac_db (mm_ac md).

Definition mm_life (md : MarketDb) : LifecycleDb := dd_life (ac_dd (mm_ac md)).

Definition mm_pay (md : MarketDb) : PaymentDb := dd_pay (ac_dd (mm_ac md)).

Definition set_mm_ac (md : MarketDb) (ac : AccountDb) : MarketDb :=
  mk_MarketDb ac (mm_preparations md) (mm_settlements md) (mm_timely md).

Definition set_mm_preparations (md : MarketDb) (t : gmap RowId PreparationColumns) : MarketDb :=
  mk_MarketDb (mm_ac md) t (mm_settlements md) (mm_timely md).

Definition set_mm_db (md : MarketDb) (db : Db) : MarketDb :=
  set_mm_ac md (set_ac_dd (mm_ac md) (set_dd_db (ac_dd (mm_ac md)) db)).

Definition set_db_preparations (db : Db) (t : gmap RowId PreparationRow) : Db :=
  mk_Db (outbox db) (creators db) (invoices db) (generations db) t (lifecycles db) (provider_v2 db).

(** A row of [marketplace_payment_preparations] with all its columns. *)
Record Preparation := mk_Preparation {
  pp_creator_id : RowId;
  pp_state : PreparationState;
  pp_payment_deadline : option Z;
  pp_columns : PreparationColumns;
}.

Definition preparation (md : MarketDb) (id : RowId) : option Preparation :=
  creator_id ← ld_preparation_creators (mm_life md) !! id;
  row ← preparations (mm_db md) !! id;
  columns ← mm_preparations md !! id;
  Some (mk_Preparation creator_id (p_state row) (p_payment_deadline row) columns).

(** A row of [marketplace_settlements] with all its columns. *)
Definition settlement (md : MarketDb) (id : RowId) : option (RowId * SettlementColumns) :=
  creator_id ← ld_settlements (mm_life md) !! id;
  columns ← mm_settlements md !! id;
  Some (creator_id, columns).

(** [marketplace_preparation_state_check], [.._resolution_pair],
    [.._expiry_after_creation] and the check on the outcome ([0012], [0013]). *)
Definition outcome_text (s : string) : bool :=
  String.eqb s "paid_manually" || String.eqb s "refunded" || String.eqb s "abandoned".

(** [CHECK (octet_length(..) = 32)] *)
Definition hash_length (hash : string) : bool := Nat.eqb (String.length hash) 32.

Definition preparation_check (p : Preparation) : bool :=
  let c := pp_columns p in
  match pp_state p with
  | Prepared => is_none (pn_activated_at c) && is_none (pp_payment_deadline p) && is_none (pn_voided_at c)
  | Active => match pn_activated_at c, pp_payment_deadline p with
              | Some activated, Some deadline => (activated <? deadline) && is_none (pn_voided_at c)
              | _, _ => false
              end
  | Voided => is_none (pn_activated_at c) && is_none (pp_payment_deadline p) && is_some (pn_voided_at c)
  end
  && Bool.eqb (is_none (pn_business_outcome c)) (is_none (pn_resolved_at c))
  && match pn_business_outcome c with Some s => outcome_text s | None => true end
  && (pn_prepared_at c <? pn_prepare_expires_at c)
  && hash_length (pn_operation_lookup_hash c) && hash_length (pn_request_lookup_hash c)
  && hash_length (pn_reader_lookup_hash c).

(** ** Statements *)

Definition operation_taken (md : MarketDb) (creator_id : RowId) (operation_hash : string) : bool :=
  exists_row (λ id c, bool_decide (ld_preparation_creators (mm_life md) !! id = Some creator_id)
                      && String.eqb (pn_operation_lookup_hash c) operation_hash) (mm_preparations md).

(** Writes all columns of a preparation. *)
Definition put_preparation (md : MarketDb) (id : RowId) (p : Preparation) : MarketDb :=
  let dd := ac_dd (mm_ac md) in
  let dd := set_dd_db dd (set_db_preparations (dd_db dd)
              (<[id := mk_PreparationRow (pp_state p) (pp_payment_deadline p)]> (preparations (dd_db dd)))) in
  let lb := dd_life dd in
  let dd := mk_DrainDb (mk_LifecycleDb (ld_db lb) (ld_cursors lb) (ld_settlements lb)
                          (<[id := pp_creator_id p]> (ld_preparation_creators lb)) (ld_bundles lb))
              (dd_pay dd) (dd_drains dd) (dd_items dd) (dd_cancellations dd) (dd_rotation_items dd)
              (dd_cleanup_tokens dd) in
  mk_MarketDb (set_ac_dd (mm_ac md) dd) (<[id := pp_columns p]> (mm_preparations md)) (mm_settlements md) (mm_timely md).

(** [INSERT INTO marketplace_payment_preparations] with [classify_preparation_insert_error]:
    only the operation's key is a conflict. *)
Definition insert_preparation (md : MarketDb) (id : RowId) (p : Preparation) (generation : option Z) :
    result PersistenceError MarketDb :=
  ensure (negb (operation_taken md (pp_creator_id p) (pn_operation_lookup_hash (pp_columns p)))) PE_Conflict;;
  ensure (is_none (mm_preparations md !! id) && preparation_check p
          && match generation with Some g => 0 <=? g | None => true end) PE_CorruptOrMissing;;
  let md := put_preparation md id p in
  let ac := mm_ac md in
  Ok (set_mm_ac md (mk_AccountDb (ac_dd ac) (ac_creators ac) (ac_assignments ac) (ac_invoices ac)
        (match generation with
         | Some g => <[id := g]> (ac_preparation_generations ac)
         | None => ac_preparation_generations ac
         end) (ac_rotations ac) (ac_address_owners ac) (ac_provider ac))).

(** [UPDATE marketplace_payment_preparations .. WHERE id = $1] with the checks of the
    table and its triggers: an active settlement owner stays active ([0014]), a recorded
    outcome is never rewritten ([0016]). *)
Definition update_preparation (md : MarketDb) (id : RowId) (f : Preparation → Preparation) :
    result PersistenceError MarketDb :=
  match preparation md id with
  | None => Ok md
  | Some old =>
      let new := f old in
      ensure (preparation_check new
              && (bool_decide (pp_state new = Active) || is_none (mm_settlements md !! id))
              && (is_none (pn_business_outcome (pp_columns old))
                  || (bool_decide (pn_business_outcome (pp_columns new) = pn_business_outcome (pp_columns old))
                      && bool_decide (pn_resolved_at (pp_columns new) = pn_resolved_at (pp_columns old)))))
        PE_Unavailable;;
      Ok (put_preparation md id new)
  end.

Definition settlement_derivation_taken (md : MarketDb) (creator_id : RowId) (hash : string) : bool :=
  exists_row (λ id s, bool_decide (ld_settlements (mm_life md) !! id = Some creator_id)
                      && String.eqb (se_derivation_index_lookup_hash s) hash) (mm_settlements md).

(** [INSERT INTO marketplace_settlements .. SELECT id, creator_id, .. WHERE id = $1], its
    keys, the trigger that requires an active owner and the one that claims the address. *)
Definition insert_settlement (md : MarketDb) (id : RowId) (s : SettlementColumns) : result PersistenceError MarketDb :=
  match preparation md id with
  | None => Ok md
  | Some p =>
      ensure (is_none (mm_settlements md !! id) && bool_decide (pp_state p = Active)
              && negb (settlement_derivation_taken md (pp_creator_id p) (se_derivation_index_lookup_hash s))
              && hash_length (se_derivation_index_lookup_hash s)
              && match se_address_lookup_hash s with
                 | Some hash => hash_length hash && is_none (ac_address_owners (mm_ac md) !! hash)
                 | None => true
                 end) PE_CorruptOrMissing;;
      let ac := mm_ac md in
      let dd := ac_dd ac in
      let lb := dd_life dd in
      let dd := mk_DrainDb (mk_LifecycleDb (ld_db lb) (ld_cursors lb) (<[id := pp_creator_id p]> (ld_settlements lb))
                              (ld_preparation_creators lb) (ld_bundles lb))
                  (dd_pay dd) (dd_drains dd) (dd_items dd) (dd_cancellations dd) (dd_rotation_items dd)
                  (dd_cleanup_tokens dd) in
      let owners := match se_address_lookup_hash s with
                    | Some hash => <[hash := OwnerMarketplace id]> (ac_address_owners ac)
                    | None => ac_address_owners ac
                    end in
      Ok (mk_MarketDb (mk_AccountDb dd (ac_creators ac) (ac_assignments ac) (ac_invoices ac)
                         (ac_preparation_generations ac) (ac_rotations ac) owners (ac_provider ac))
            (mm_preparations md) (<[id := s]> (mm_settlements md)) (mm_timely md))
  end.

(** The proposals queued for a preparation. *)
Definition market_proposal (id : RowId) (r : OutboxRow) : bool :=
  bool_decide (o_marketplace_preparation_id (o_key r) = Some id)
  && kind_is (o_intent_kind (o_key r)) PaymentRequestProposalKind.

(** [INSERT INTO outbox .. SELECT $1, creator_id, id, .. WHERE id = $4], one proposal per
    preparation ([outbox_marketplace_proposal_unique]). *)
Definition queue_proposal (md : MarketDb) (outbox_id id : RowId) (envelope hash : string) (now : Z) :
    result PersistenceError MarketDb :=
  match preparation md id with
  | None => Err PE_CorruptOrMissing
  | Some p =>
      ensure (negb (exists_row (λ _ r, market_proposal id r) (outbox (mm_db md)))) PE_Unavailable;;
      let '(inserted, db) := insert_marketplace_proposal (mm_db md) outbox_id (pp_creator_id p) id envelope hash now in
      inserted;; Ok (set_mm_db md db)
  end.

(** [SELECT count] over a table. *)
Definition count_rows {V} (p : RowId → V → bool) (t : gmap RowId V) : nat :=
  length (filter (λ kv, Is_true (p kv.1 kv.2)) (map_to_list t)).

(** ** Inputs and answers *)

Section data.
Context {core : LocksCore} {lib : PaykitLib}.

(** [MarketplacePreparationPayloadFactory]: what derives the proposal of an index. *)
Record PayloadFactory := mk_PayloadFactory {
  fa_expected_generation : option Z;
  fa_for_child_index : Z → result PersistenceError DeliveryIntentV1;
}.

Record MarketplacePreparationInput := mk_MarketplacePreparationInput {
  mi_creator : CreatorPubky;
  mi_reader : ReaderPubky;
  mi_reference : string;
  mi_operation_id : string;
  mi_request_binding : string;
  mi_amount : Z;
  mi_asset : CriterionAsset;
  mi_payment_window_seconds : Z;
  mi_prepare_ttl_seconds : Z;
  mi_prepare_deadline : option Z;
  mi_payloads : PayloadFactory;
}.

(** [ma_proposal_acceptance_window] is a [std::time::Duration] in nanoseconds. *)
Record MarketplaceActivationInput := mk_MarketplaceActivationInput {
  ma_creator : CreatorPubky;
  ma_invoice_id : RowId;
  ma_amount : Z;
  ma_asset : CriterionAsset;
  ma_proposal_acceptance_window : Z;
}.

Inductive MarketplaceLifecyclePersistenceError :=
| ML_PrepareExpired
| ML_LifecycleTerminal
| ML_InvoiceActive
| ML_TotalMismatch
| ML_ResolutionConflict
| ML_Persistence (e : PersistenceError).

#[global] Instance MarketplaceLifecyclePersistenceError_eq_dec : EqDecision MarketplaceLifecyclePersistenceError.
Proof. solve_decision. Defined.

Inductive MarketplacePreparationPreflight := MP_New | MP_ExactReplay | MP_Conflict.

Record MarketplacePreparationResult := mk_MarketplacePreparationResult {
  mr_invoice_id : RowId;
  mr_terms : MarketplaceTerms;
  mr_quote : MarketplaceQuote;
  mr_prepared_at : Z;
  mr_prepare_expires_at : Z;
  mr_replayed : bool;
}.

Record MarketplaceActivationResult := mk_MarketplaceActivationResult {
  mx_invoice_id : RowId;
  mx_activated_at : Z;
  mx_payment_deadline : Z;
  mx_terms : MarketplaceTerms;
  mx_quote : MarketplaceQuote;
  mx_replayed : bool;
}.

Record MarketplaceVoidResult := mk_MarketplaceVoidResult {
  mv_invoice_id : RowId;
  mv_voided_at : Z;
  mv_replayed : bool;
}.

Inductive MarketplaceResolutionOutcome := PaidManually | Refunded | Abandoned.

#[global] Instance MarketplaceResolutionOutcome_eq_dec : EqDecision MarketplaceResolutionOutcome.
Proof. solve_decision. Defined.

Definition outcome_parse (value : string) : option MarketplaceResolutionOutcome :=
  if String.eqb value "paid_manually" then Some PaidManually
  else if String.eqb value "refunded" then Some Refunded
  else if String.eqb value "abandoned" then Some Abandoned
  else None.

Definition outcome_as_str (o : MarketplaceResolutionOutcome) : string :=
  match o with PaidManually => "paid_manually" | Refunded => "refunded" | Abandoned => "abandoned" end.

Record MarketplaceResolutionResult := mk_MarketplaceResolutionResult {
  mz_invoice_id : RowId;
  mz_outcome : MarketplaceResolutionOutcome;
  mz_resolved_at : Z;
  mz_replayed : bool;
}.

(** ** Envelopes *)

Record PreparationEnvelopeV1 := mk_PreparationEnvelopeV1 {
  e1_operation_id : string;
  e1_request_binding : string;
  e1_reader : string;
  e1_reference : string;
  e1_total_sats : Z;
  e1_payment_window_seconds : Z;
  e1_prepare_ttl_seconds : Z;
  e1_prepared_at : Z;
  e1_prepare_expires_at : Z;
  e1_child_index : Z;
  e1_payment_request_intent : DeliveryIntentV1;
}.

Record PreparationEnvelope := mk_PreparationEnvelope {
  pe_version : Z;
  pe_operation_id : string;
  pe_request_binding : string;
  pe_reader : string;
  pe_reference : string;
  pe_terms : MarketplaceTerms;
  pe_payment_window_seconds : Z;
  pe_prepare_ttl_seconds : Z;
  pe_prepared_at : Z;
  pe_prepare_expires_at : Z;
  pe_child_index : Z;
  pe_payment_request_intent : DeliveryIntentV1;
}.

(** [postcard] on the two envelopes. *)
Class PreparationCodec := {
  preparation_to_bytes : PreparationEnvelope → option string;
  preparation_from_bytes : string → option PreparationEnvelope;
  preparation_v1_from_bytes : string → option PreparationEnvelopeV1;
}.

(** [postcard] writes a [u8] as its byte and the fields in order, so the first byte is the
    version, and it reads back what it wrote. *)
Class PreparationCodecLaws (codec : PreparationCodec) := {
  preparation_reread : ∀ e bytes, preparation_to_bytes e = Some bytes → preparation_from_bytes bytes = Some e;
  preparation_first : ∀ e bytes, preparation_to_bytes e = Some bytes →
    ∃ rest, bytes = String (byte_char (pe_version e)) rest;
}.
End data.

Section store.
Context {core : LocksCore} {lib : PaykitLib}.
Context {prim : CryptoPrimitives} {observations : ObservationCodec} {allocation : AllocationCodec}
  {codec : PreparationCodec} (crypto : Crypto).
Context (to_bytes : DeliveryIntentV1 → option string).
Context {Json : Type} (json_from_str : string → option Json)
  (json_value : Json → option string) (json_is_object : Json → list (string * string) → bool).
Context (format_rfc3339 : Z → option string).
Notation from_intent := (from_intent json_from_str json_value json_is_object).
Notation quote_from_intent := (quote_from_intent json_from_str json_value json_is_object).
Notation terms_from_intent := (terms_from_intent json_from_str json_value json_is_object).
Notation lookup_hash := (lookup_hash crypto).
Notation creator_hash_of := (creator_hash_of crypto).

(** ** Reading a preparation *)

Definition terms_match (e : PreparationEnvelope) (amount : Z) (asset : CriterionAsset) : bool :=
  (mt_amount (pe_terms e) =? amount) && asset_eqb (mt_asset (pe_terms e)) asset.

Definition envelope_quote (e : PreparationEnvelope) : result PersistenceError MarketplaceQuote :=
  map_err (λ _, PE_CorruptOrMissing) (quote_from_intent (pe_payment_request_intent e) (pe_terms e)).

(** [PreparationEnvelope::decode]: the first byte is the version. *)
Definition preparation_decode (plaintext : string) : result PersistenceError PreparationEnvelope :=
  match plaintext with
  | String c _ =>
      if Ascii.eqb c (byte_char 1) then
        legacy ← ok_or (preparation_v1_from_bytes plaintext) PE_CorruptOrMissing;
        terms ← map_err (λ _, PE_CorruptOrMissing) (MarketplaceTerms_new (e1_total_sats legacy) Btc [Accept_Btc]);
        Ok (mk_PreparationEnvelope 1 (e1_operation_id legacy) (e1_request_binding legacy) (e1_reader legacy)
              (e1_reference legacy) terms (e1_payment_window_seconds legacy) (e1_prepare_ttl_seconds legacy)
              (e1_prepared_at legacy) (e1_prepare_expires_at legacy) (e1_child_index legacy)
              (e1_payment_request_intent legacy))
      else if Ascii.eqb c (byte_char 2) then ok_or (preparation_from_bytes plaintext) PE_CorruptOrMissing
      else Err PE_CorruptOrMissing
  | EmptyString => Err PE_CorruptOrMissing
  end.

Definition envelope_has_bitcoin (e : PreparationEnvelope) : bool := accepts (pe_terms e) Accept_Btc.

Definition market_validate_intent (intent : DeliveryIntentV1) (reader : ReaderPubky) (reference : string)
    (terms : MarketplaceTerms) : result PersistenceError MarketplaceQuote :=
  map_err (λ _, PE_InvalidInput) (validate intent);;
  ensure (bool_decide (ok (parse_reader (reader_pubky intent)) = Some reader)) PE_InvalidInput;;
  intent_terms ← map_err (λ _, PE_InvalidInput) (intent_terms intent);
  ensure (String.eqb (payment_reference intent_terms) reference) PE_InvalidInput;;
  quote_from_intent intent terms.

(** [load_locked] *)
Definition load_locked (md : MarketDb) (creator_id : RowId) (operation_hash : string) :
    option (RowId * PreparationColumns) :=
  select_one (λ id c, bool_decide (ld_preparation_creators (mm_life md) !! id = Some creator_id)
                      && String.eqb (pn_operation_lookup_hash c) operation_hash) (mm_preparations md).

(** [load_lifecycle_locked]: the row and the creator's hash joined in. *)
Definition load_lifecycle_locked (md : MarketDb) (creator : CreatorPubky) (id : RowId) :
    option (string * Preparation) :=
  p ← preparation md id;
  stored ← creators (mm_db md) !! pp_creator_id p;
  if String.eqb stored (creator_hash_of creator) then Some (stored, p) else None.

(** The stored window of a preparation: it lasts exactly its time to live. *)
Definition lifetime_consistent (e : PreparationEnvelope) (c : PreparationColumns) : bool :=
  (pe_prepared_at e =? pn_prepared_at c) && (pe_prepare_expires_at e =? pn_prepare_expires_at c)
  && bool_decide (checked_add_seconds (pe_prepared_at e) (pe_prepare_ttl_seconds e) = Some (pe_prepare_expires_at e)).

Definition open_preparation (creator_hash : string) (id : RowId) (envelope : string) :
    result PersistenceError PreparationEnvelope :=
  plaintext ← map_err (λ _, PE_CorruptOrMissing) (decrypt crypto (ctx_marketplace_preparation creator_hash id) envelope);
  preparation_decode plaintext.

Definition decode_lifecycle_envelope (creator_hash : string) (id : RowId) (c : PreparationColumns) :
    result PersistenceError PreparationEnvelope :=
  e ← open_preparation creator_hash id (pn_envelope c);
  ensure (pe_prepare_ttl_seconds e <=? i64_max) PE_CorruptOrMissing;;
  ensure (lifetime_consistent e c && negb (pe_payment_window_seconds e =? 0)) PE_CorruptOrMissing;;
  reader ← map_err (λ _, PE_CorruptOrMissing) (parse_reader (pe_reader e));
  map_err (λ _, PE_CorruptOrMissing)
    (market_validate_intent (pe_payment_request_intent e) reader (pe_reference e) (pe_terms e));;
  Ok e.

(** ** Preparing *)

Definition market_preflight (md : MarketDb) (creator : CreatorPubky) (operation_id request_binding : string) :
    result PersistenceError MarketplacePreparationPreflight :=
  ensure (negb (str_is_empty operation_id || str_is_empty request_binding)) PE_InvalidInput;;
  match (creator_id ← creator_of_hash (mm_db md) (creator_hash_of creator);
         load_locked md creator_id (lookup_hash operation_id)) with
  | None => Ok MP_New
  | Some (_, c) =>
      stored ← stored_lookup_hash (pn_request_lookup_hash c);
      Ok (if String.eqb stored (lookup_hash request_binding) then MP_ExactReplay else MP_Conflict)
  end.

Definition validate_replay (creator_hash : string) (input : MarketplacePreparationInput) (id : RowId)
    (c : PreparationColumns) : result PersistenceError MarketplacePreparationResult :=
  operation ← stored_lookup_hash (pn_operation_lookup_hash c);
  ensure (String.eqb operation (lookup_hash (mi_operation_id input))) PE_CorruptOrMissing;;
  request ← stored_lookup_hash (pn_request_lookup_hash c);
  ensure (String.eqb request (lookup_hash (mi_request_binding input))) PE_Conflict;;
  reader ← stored_lookup_hash (pn_reader_lookup_hash c);
  ensure (String.eqb reader (lookup_hash (reader_to_string (mi_reader input)))) PE_CorruptOrMissing;;
  e ← open_preparation creator_hash id (pn_envelope c);
  ensure (pe_prepare_ttl_seconds e <=? i64_max) PE_CorruptOrMissing;;
  ensure ((pe_version e =? 2) && String.eqb (pe_operation_id e) (mi_operation_id input)
          && String.eqb (pe_request_binding e) (mi_request_binding input)
          && String.eqb (pe_reader e) (reader_to_string (mi_reader input))
          && String.eqb (pe_reference e) (mi_reference input)
          && terms_match e (mi_amount input) (mi_asset input)
          && (pe_payment_window_seconds e =? mi_payment_window_seconds input)
          && lifetime_consistent e c && (0 <=? pe_child_index e)) PE_CorruptOrMissing;;
  quote ← market_validate_intent (pe_payment_request_intent e) (mi_reader input) (mi_reference input) (pe_terms e);
  Ok (mk_MarketplacePreparationResult id (pe_terms e) quote (pn_prepared_at c) (pn_prepare_expires_at c) true).

(** [replace_nanosecond(nanosecond() / 1_000 * 1_000)]: PostgreSQL keeps microseconds. *)
Definition truncate_micros (instant : Z) : Z := instant - instant mod NANOS_PER_SECOND mod 1000.

(** [checked_sub(Duration::seconds(..))] *)
Definition checked_sub_seconds (instant seconds : Z) : option Z :=
  let t := instant - seconds * NANOS_PER_SECOND in
  if instant_min <=? t then Some t else None.

(** The part of [prepare] behind the replay check; [now] is the clock read under the lock,
    [id] and [nonce] are generated. *)
Definition prepare_new (md : MarketDb) (input : MarketplacePreparationInput) (creator_id : RowId)
    (creator_hash : string) (creator : CreatorColumns) (id : RowId) (nonce : string) (now : Z) :
    result PersistenceError (MarketplacePreparationResult * MarketDb) :=
  ensure (match fa_expected_generation (mi_payloads input) with
          | Some expected => expected =? cc_bitcoin_account_generation creator
          | None => true
          end) PE_Conflict;;
  deadline ← ok_or (mi_prepare_deadline input) PE_InvalidInput;
  let prepare_expires_at := truncate_micros deadline in
  ensure (negb (prepare_expires_at <=? now)) PE_DeadlineElapsed;;
  prepared_at ← ok_or (checked_sub_seconds prepare_expires_at (mi_prepare_ttl_seconds input)) PE_InvalidInput;
  let child_index := cc_next_child_index creator in
  intent ← fa_for_child_index (mi_payloads input) child_index;
  terms ← terms_from_intent intent (mi_amount input) (mi_asset input);
  quote ← market_validate_intent intent (mi_reader input) (mi_reference input) terms;
  let e := mk_PreparationEnvelope 2 (mi_operation_id input) (mi_request_binding input)
             (reader_to_string (mi_reader input)) (mi_reference input) terms (mi_payment_window_seconds input)
             (mi_prepare_ttl_seconds input) prepared_at prepare_expires_at child_index intent in
  plaintext ← ok_or (preparation_to_bytes e) PE_CorruptOrMissing;
  envelope ← map_err (λ _, PE_CorruptOrMissing)
    (encrypt crypto nonce (ctx_marketplace_preparation creator_hash id) plaintext);
  md ← insert_preparation md id
    (mk_Preparation creator_id Prepared None
       (mk_PreparationColumns (lookup_hash (mi_operation_id input)) (lookup_hash (mi_request_binding input))
          (lookup_hash (reader_to_string (mi_reader input))) envelope prepared_at prepare_expires_at None None None None))
    ((λ _, cc_bitcoin_account_generation creator) <$> fa_expected_generation (mi_payloads input));
  ac ← advance_child_index (mm_ac md) creator_id;
  Ok (mk_MarketplacePreparationResult id terms quote prepared_at prepare_expires_at false, set_mm_ac md ac).

Definition market_prepare (md : MarketDb) (input : MarketplacePreparationInput) (id : RowId) (nonce : string) (now : Z) :
    result PersistenceError (MarketplacePreparationResult * MarketDb) :=
  ensure (negb (str_is_empty (mi_operation_id input) || str_is_empty (mi_request_binding input)
                || (mi_payment_window_seconds input =? 0) || (mi_prepare_ttl_seconds input =? 0))) PE_InvalidInput;;
  ensure (mi_prepare_ttl_seconds input <=? i64_max) PE_InvalidInput;;
  let creator_hash := creator_hash_of (mi_creator input) in
  '(creator_id, stored, creator) ← ok_or (creator_row_of_hash (mm_ac md) creator_hash) PE_CorruptOrMissing;
  hash ← stored_lookup_hash stored;
  ensure (String.eqb hash creator_hash && (0 <=? cc_next_child_index creator)) PE_CorruptOrMissing;;
  match load_locked md creator_id (lookup_hash (mi_operation_id input)) with
  | Some (existing, c) => result ← validate_replay creator_hash input existing c; Ok (result, md)
  | None => prepare_new md input creator_id creator_hash creator id nonce now
  end.

(** ** Settlements *)

(** The keyed address hash a settlement must hold: present exactly when Bitcoin is accepted. *)
Definition settlement_address_hash (payment : InvoicePaymentRecordV1) : result PersistenceError (option string) :=
  transpose (if has_bitcoin payment
             then Some (bitcoin_address_lookup_hash crypto <$> record_bitcoin_address payment) else None).

Definition decrypt_settlement_payment_record (creator_hash : string) (id : RowId) (envelope : string) :
    result PersistenceError InvoicePaymentRecordV1 :=
  plaintext ← map_err (λ _, PE_CorruptOrMissing)
    (decrypt crypto (ctx_marketplace_settlement_payment_record creator_hash id) envelope);
  ok_or (decode_payment_record plaintext) PE_CorruptOrMissing.

Definition settlement_derivation_hash (creator_hash : string) (payment : InvoicePaymentRecordV1) : string :=
  bitcoin_derivation_index_lookup_hash crypto creator_hash (pr_derivation_index payment).

(** The settlement of a preparation must be the one its sealed intent determines. *)
Definition validate_settlement (md : MarketDb) (creator_hash : string) (id : RowId) (p : Preparation)
    (e : PreparationEnvelope) : result PersistenceError unit :=
  '(owner, s) ← ok_or (settlement md id) PE_CorruptOrMissing;
  ensure (bool_decide (owner = pp_creator_id p)) PE_CorruptOrMissing;;
  actual ← decrypt_settlement_payment_record creator_hash id (se_payment_record_envelope s);
  expected ← map_err (λ _, PE_CorruptOrMissing) (from_intent (pe_child_index e) (pe_payment_request_intent e));
  address ← (if bool_decide (actual = expected) then settlement_address_hash expected else Err PE_CorruptOrMissing);
  ensure (bool_decide (se_address_lookup_hash s = address)
          && String.eqb (se_derivation_index_lookup_hash s) (settlement_derivation_hash creator_hash expected))
    PE_CorruptOrMissing.

(** ** Activation *)

(** [time::Duration::try_from(std::time::Duration)]: the seconds fit an [i64]. *)
Definition duration_try_from (nanos : Z) : option Z :=
  if nanos / NANOS_PER_SECOND <=? i64_max then Some nanos else None.

Definition checked_add_nanos (instant nanos : Z) : option Z :=
  let t := instant + nanos in
  if t <=? instant_max then Some t else None.

(** The deadlines an activation at [now] gives: the proposal is open for the configured
    time, at most half the payment window. *)
Definition activation_deadlines (now window acceptance : Z) : result PersistenceError (Z * Z) :=
  payment_deadline ← ok_or (checked_add_seconds now window) PE_InvalidInput;
  configured ← ok_or (duration_try_from acceptance) PE_InvalidInput;
  proposal ← ok_or (checked_add_nanos now (Z.min configured (window * NANOS_PER_SECOND / 2))) PE_InvalidInput;
  Ok (proposal, payment_deadline).

(** The sealed intent with the deadlines of the activation. *)
Definition activated_intent (e : PreparationEnvelope) (proposal_expires_at payment_deadline : Z) :
    result PersistenceError (DeliveryIntentV1 * MarketplaceQuote) :=
  proposal ← ok_or (format_rfc3339 proposal_expires_at) PE_InvalidInput;
  payment ← ok_or (format_rfc3339 payment_deadline) PE_InvalidInput;
  let '(intent, outcome) := set_deadlines (pe_payment_request_intent e) proposal payment in
  map_err (λ _, PE_CorruptOrMissing) outcome;;
  reader ← map_err (λ _, PE_CorruptOrMissing) (parse_reader (pe_reader e));
  quote ← market_validate_intent intent reader (pe_reference e) (pe_terms e);
  Ok (intent, quote).

(** The settlement an intent determines, sealed under [nonce]. *)
Definition new_settlement (creator_hash : string) (id : RowId) (child_index : Z) (intent : DeliveryIntentV1)
    (nonce : string) : result PersistenceError SettlementColumns :=
  record ← from_intent child_index intent;
  address ← settlement_address_hash record;
  plaintext ← ok_or (record_to_bytes record) PE_CorruptOrMissing;
  envelope ← map_err (λ _, PE_CorruptOrMissing)
    (encrypt crypto nonce (ctx_marketplace_settlement_payment_record creator_hash id) plaintext);
  Ok (mk_SettlementColumns envelope address (settlement_derivation_hash creator_hash record) undetected).

Definition activated (now payment_deadline : Z) (p : Preparation) : Preparation :=
  let c := pp_columns p in
  mk_Preparation (pp_creator_id p) Active (Some payment_deadline)
    (mk_PreparationColumns (pn_operation_lookup_hash c) (pn_request_lookup_hash c) (pn_reader_lookup_hash c)
       (pn_envelope c) (pn_prepared_at c) (pn_prepare_expires_at c) (Some now) (pn_voided_at c)
       (pn_business_outcome c) (pn_resolved_at c)).

(** The identifiers and nonces of one activation. *)
Record ActivationFresh := mk_ActivationFresh {
  at_outbox_id : RowId;
  at_outbox_nonce : string;
  at_record_nonce : string;
}.

(** The answer for a preparation that is already active. *)
Definition activation_replay (md : MarketDb) (creator_hash : string) (id : RowId) (p : Preparation)
    (e : PreparationEnvelope) (input : MarketplaceActivationInput) :
    result MarketplaceLifecyclePersistenceError MarketplaceActivationResult :=
  ensure (terms_match e (ma_amount input) (ma_asset input)) ML_TotalMismatch;;
  activated_at ← ok_or (pn_activated_at (pp_columns p)) (ML_Persistence PE_CorruptOrMissing);
  payment_deadline ← ok_or (pp_payment_deadline p) (ML_Persistence PE_CorruptOrMissing);
  ensure (Nat.eqb (count_rows (λ _ r, market_proposal id r && bool_decide (o_creator_id (o_key r) = pp_creator_id p))
                     (outbox (mm_db md))) 1) (ML_Persistence PE_CorruptOrMissing);;
  map_err ML_Persistence (validate_settlement md creator_hash id p e);;
  quote ← map_err ML_Persistence (envelope_quote e);
  Ok (mk_MarketplaceActivationResult id activated_at payment_deadline (pe_terms e) quote true).

(** The writes of a first activation. *)
Definition activate_prepared (md : MarketDb) (creator_hash : string) (id : RowId) (p : Preparation)
    (e : PreparationEnvelope) (input : MarketplaceActivationInput) (fresh : ActivationFresh) (now : Z) :
    result PersistenceError (MarketplaceActivationResult * MarketDb) :=
  ensure (pe_payment_window_seconds e <=? i64_max) PE_CorruptOrMissing;;
  '(proposal_expires_at, payment_deadline) ←
    activation_deadlines now (pe_payment_window_seconds e) (ma_proposal_acceptance_window input);
  '(intent, quote) ← activated_intent e proposal_expires_at payment_deadline;
  plaintext ← ok_or (to_bytes intent) PE_CorruptOrMissing;
  intent_envelope ← map_err (λ _, PE_CorruptOrMissing)
    (encrypt crypto (at_outbox_nonce fresh) (ctx_outbox_semantic_intent creator_hash (at_outbox_id fresh)) plaintext);
  reference ← map_err (λ _, PE_CorruptOrMissing) (proposal_payment_reference intent);
  md ← update_preparation md id (activated now payment_deadline);
  s ← new_settlement creator_hash id (pe_child_index e) intent (at_record_nonce fresh);
  md ← insert_settlement md id s;
  md ← queue_proposal md (at_outbox_id fresh) id intent_envelope
         (payment_request_proposal_lookup_hash crypto reference) now;
  Ok (mk_MarketplaceActivationResult id now payment_deadline (pe_terms e) quote false, md).

Definition market_activate (md : MarketDb) (input : MarketplaceActivationInput) (fresh : ActivationFresh) (now : Z) :
    result MarketplaceLifecyclePersistenceError (option MarketplaceActivationResult * MarketDb) :=
  ensure (negb ((ma_amount input =? 0) || (ma_proposal_acceptance_window input =? 0))) (ML_Persistence PE_InvalidInput);;
  match (creator_of_hash (mm_db md) (creator_hash_of (ma_creator input));;
         load_lifecycle_locked md (ma_creator input) (ma_invoice_id input)) with
  | None => Ok (None, md)
  | Some (stored, p) =>
      let id := ma_invoice_id input in
      let c := pp_columns p in
      creator_hash ← map_err ML_Persistence (stored_lookup_hash stored);
      e ← map_err ML_Persistence (decode_lifecycle_envelope creator_hash id c);
      match pp_state p with
      | Active => result ← activation_replay md creator_hash id p e input; Ok (Some result, md)
      | Voided => Err ML_LifecycleTerminal
      | Prepared =>
          ensure (is_none (pn_resolved_at c)) ML_LifecycleTerminal;;
          ensure (is_none (pn_activated_at c) && is_none (pp_payment_deadline p) && is_none (pn_voided_at c))
            (ML_Persistence PE_CorruptOrMissing);;
          ensure (negb (pn_prepare_expires_at c <=? now)) ML_PrepareExpired;;
          ensure (terms_match e (ma_amount input) (ma_asset input)) ML_TotalMismatch;;
          '(result, md) ← map_err ML_Persistence (activate_prepared md creator_hash id p e input fresh now);
          Ok (Some result, md)
      end
  end.

(** ** Voiding and resolving *)

Definition voided (now : Z) (p : Preparation) : Preparation :=
  let c := pp_columns p in
  mk_Preparation (pp_creator_id p) Voided (pp_payment_deadline p)
    (mk_PreparationColumns (pn_operation_lookup_hash c) (pn_request_lookup_hash c) (pn_reader_lookup_hash c)
       (pn_envelope c) (pn_prepared_at c) (pn_prepare_expires_at c) (pn_activated_at c) (Some now)
       (pn_business_outcome c) (pn_resolved_at c)).

Definition market_void (md : MarketDb) (creator : CreatorPubky) (id : RowId) (now : Z) :
    result MarketplaceLifecyclePersistenceError (option MarketplaceVoidResult * MarketDb) :=
  match load_lifecycle_locked md creator id with
  | None => Ok (None, md)
  | Some (stored, p) =>
      let c := pp_columns p in
      creator_hash ← map_err ML_Persistence (stored_lookup_hash stored);
      map_err ML_Persistence (decode_lifecycle_envelope creator_hash id c);;
      match pp_state p with
      | Voided =>
          voided_at ← ok_or (pn_voided_at c) (ML_Persistence PE_CorruptOrMissing);
          Ok (Some (mk_MarketplaceVoidResult id voided_at true), md)
      | Active => Err ML_InvoiceActive
      | Prepared =>
          ensure (is_none (pn_activated_at c) && is_none (pp_payment_deadline p) && is_none (pn_voided_at c))
            (ML_Persistence PE_CorruptOrMissing);;
          md ← map_err ML_Persistence (update_preparation md id (voided now));
          Ok (Some (mk_MarketplaceVoidResult id now false), md)
      end
  end.

Definition resolved (outcome : MarketplaceResolutionOutcome) (now : Z) (p : Preparation) : Preparation :=
  let c := pp_columns p in
  mk_Preparation (pp_creator_id p) (pp_state p) (pp_payment_deadline p)
    (mk_PreparationColumns (pn_operation_lookup_hash c) (pn_request_lookup_hash c) (pn_reader_lookup_hash c)
       (pn_envelope c) (pn_prepared_at c) (pn_prepare_expires_at c) (pn_activated_at c) (pn_voided_at c)
       (Some (outcome_as_str outcome)) (Some now)).

(** The update is guarded by [business_outcome IS NULL AND resolved_at IS NULL], which the
    row just read under its lock satisfies. *)
Definition market_resolve (md : MarketDb) (creator : CreatorPubky) (id : RowId)
    (outcome : MarketplaceResolutionOutcome) (now : Z) :
    result MarketplaceLifecyclePersistenceError (option MarketplaceResolutionResult * MarketDb) :=
  match load_lifecycle_locked md creator id with
  | None => Ok (None, md)
  | Some (stored, p) =>
      let c := pp_columns p in
      creator_hash ← map_err ML_Persistence (stored_lookup_hash stored);
      map_err ML_Persistence (decode_lifecycle_envelope creator_hash id c);;
      match pn_business_outcome c, pn_resolved_at c with
      | Some existing, Some resolved_at =>
          existing ← ok_or (outcome_parse existing) (ML_Persistence PE_CorruptOrMissing);
          ensure (bool_decide (existing = outcome)) ML_ResolutionConflict;;
          Ok (Some (mk_MarketplaceResolutionResult id existing resolved_at true), md)
      | None, None =>
          md ← map_err ML_Persistence (update_preparation md id (resolved outcome now));
          Ok (Some (mk_MarketplaceResolutionResult id outcome now false), md)
      | _, _ => Err (ML_Persistence PE_CorruptOrMissing)
      end
  end.
End store.
