(* ===== verification/MarketObserve.v ===== *)
(** * MarketObserve: payments of active Marketplace invoices
    ([persistence/marketplace_preparations.rs], [persistence/marketplace_preparations/usdt.rs])

    The observers write what they see of a settlement's address or of a verified transfer
    into the same observation tables as for invoices, under the owner columns of the
    preparation.  A Bitcoin observation also projects status, confirmations, match and
    expiry onto the settlement row; a USDT receipt is only stored and judged when the
    status is read.  [MarketplaceBitcoinObservationV1] and [MarketplaceUsdtFacts] have the
    fields of the invoices' records and share their codec. *)

From S2P Require Import Prelude Text Locks Invoice Receiving Payment Lifecycle Pricing Intent Readers Database OutboxStore CreateInvoice PaymentRecord Crypto Observations Settlement LifecycleStore Drains DrainProps Status Creators Allocation Allocated AllocationProps Targets Provider MarketTerms MarketStore Sorting.
Local Open Scope string_scope.
Local Open Scope Z_scope.

Definition set_mm_settlements (md : MarketDb) (t : gmap RowId SettlementColumns) : MarketDb :=
  mk_MarketDb (mm_ac md) (mm_preparations md) t (mm_timely md).

Definition set_mm_timely (md : MarketDb) (t : gset (RowId * string)) : MarketDb :=
  mk_MarketDb (mm_ac md) (mm_preparations md) (mm_settlements md) t.

Definition set_mm_pay (md : MarketDb) (pay : PaymentDb) : MarketDb :=
  set_mm_ac md (set_ac_dd (mm_ac md) (set_pay (ac_dd (mm_ac md)) pay)).

(** The join of a settlement with its active preparation and its creator's hash. *)
Definition settlement_join (md : MarketDb) (id : RowId) : option (string * Preparation * SettlementColumns) :=
  '(owner, s) ← settlement md id;
  p ← preparation md id;
  stored ← creators (mm_db md) !! owner;
  if bool_decide (pp_creator_id p = owner) && bool_decide (pp_state p = Active) then Some (stored, p, s) else None.

(** ** Statements *)

Definition market_active (id : RowId) (r : ObservationRow) : bool :=
  owned_by id (ob_marketplace_preparation_id r) && ob_active r.

(** [CHECK (confirmation_count >= 0)] and [.._first_amount_matched_pair]. *)
Definition projection_check (p : ProjectionColumns) : bool :=
  (0 <=? iv_confirmation_count p)
  && Bool.eqb (is_none (iv_first_matched_at p)) (is_none (iv_first_matched_outpoint p)).

(** [UPDATE marketplace_settlements SET .. WHERE preparation_id = $1]; the trigger requires
    the active owner. *)
Definition update_settlement (md : MarketDb) (id : RowId) (f : ProjectionColumns → ProjectionColumns) :
    result PersistenceError MarketDb :=
  match mm_settlements md !! id with
  | None => Ok md
  | Some s =>
      let p := f (se_projection s) in
      ensure (projection_check p && is_some (settlement_join md id)) PE_Unavailable;;
      Ok (set_mm_settlements md (<[id := mk_SettlementColumns (se_payment_record_envelope s) (se_address_lookup_hash s)
            (se_derivation_index_lookup_hash s) p]> (mm_settlements md)))
  end.

(** [INSERT INTO bitcoin_observations .. ON CONFLICT (outpoint_lookup_hash) DO UPDATE ..
    WHERE marketplace_preparation_id = EXCLUDED.marketplace_preparation_id] *)
Definition upsert_market_observation (pay : PaymentDb) (key : RowId) (row : ObservationRow) (id : RowId) :
    result PersistenceError (Z * PaymentDb) :=
  let write key row :=
    ensure (negb (exists_row (λ k r, negb (bool_decide (k = key)) && market_active id r)
                    (t_observations pay))) PE_Conflict;;
    Ok (1, set_observations pay (<[key := row]> (t_observations pay))) in
  match select_one (λ _ r, String.eqb (ob_outpoint_lookup_hash r) (ob_outpoint_lookup_hash row))
          (t_observations pay) with
  | Some (key, old) =>
      if owned_by id (ob_marketplace_preparation_id old) then
        write key (mk_ObservationRow (ob_invoice_id old) (ob_marketplace_preparation_id old)
                     (ob_envelope old) (ob_outpoint_lookup_hash old) (ob_first_observed_at old)
                     (ob_confirmations row) (ob_present row) true)
      else Ok (0, pay)
  | None => ensure (is_none (t_observations pay !! key)) PE_Conflict;; write key row
  end.

(** [UPDATE bitcoin_observations SET active = FALSE WHERE marketplace_preparation_id = $1 AND active] *)
Definition market_deactivate (id : RowId) (r : ObservationRow) : ObservationRow :=
  if market_active id r
  then mk_ObservationRow (ob_invoice_id r) (ob_marketplace_preparation_id r) (ob_envelope r)
         (ob_outpoint_lookup_hash r) (ob_first_observed_at r) (ob_confirmations r) (ob_present r) false
  else r.

(** A timely outpoint of the settlement is active and present. *)
Definition timely_present (md : MarketDb) (id : RowId) : bool :=
  exists_row (λ _ o, market_active id o && ob_present o
                     && bool_decide ((id, ob_outpoint_lookup_hash o) ∈ mm_timely md)) (t_observations (mm_pay md)).

(** ** Expiry *)

Definition market_expires (md : MarketDb) (now : Z) (id : RowId) (s : SettlementColumns) : bool :=
  match settlement_join md id with
  | Some (_, p, _) =>
      is_some (se_address_lookup_hash s)
      && match pp_payment_deadline p with Some deadline => deadline <? now | None => false end
      && is_none (iv_payment_expired_at (se_projection s)) && negb (timely_present md id)
  | None => false
  end.

Definition market_expire_overdue (md : MarketDb) (now : Z) : MarketDb :=
  set_mm_settlements md (map_imap (λ id s, Some (if market_expires md now id s
    then mk_SettlementColumns (se_payment_record_envelope s) (se_address_lookup_hash s) (se_derivation_index_lookup_hash s)
           (with_expired_at (se_projection s) now)
    else s)) (mm_settlements md)).

Section observe.
Context {core : LocksCore} {lib : PaykitLib}.
Context {prim : CryptoPrimitives} {observations : ObservationCodec} {codec : PreparationCodec} (crypto : Crypto).

Definition decrypt_marketplace_observation (creator_hash : string) (id observation_id : RowId) (envelope : string) :
    result PersistenceError BitcoinObservationV1 :=
  plaintext ← map_err (λ _, PE_CorruptOrMissing)
    (decrypt crypto (ctx_bitcoin_observation_for_marketplace creator_hash observation_id id) envelope);
  record ← ok_or (decode_observation plaintext) PE_CorruptOrMissing;
  ensure (is_ok (parse_canonical_bitcoin_outpoint (bo_outpoint record)) && (bo_version record =? 1)) PE_CorruptOrMissing;;
  Ok record.

(** What must hold of a stored output next to its authentication. *)
Definition observation_consistent (o : ObservationRow) (record : BitcoinObservationV1) (activated_at : Z) : bool :=
  String.eqb (ob_outpoint_lookup_hash o) (bitcoin_outpoint_lookup_hash crypto (bo_outpoint record))
  && (0 <=? ob_confirmations o) && (ob_present o || (ob_confirmations o =? 0))
  && (activated_at <=? ob_first_observed_at o).

Definition market_active_row (md : MarketDb) (id : RowId) : option (RowId * ObservationRow) :=
  select_one (λ _ o, market_active id o) (t_observations (mm_pay md)).

(** ** Targets *)

Definition market_target_rows (md : MarketDb) : list (RowId * string * Preparation * SettlementColumns * string) :=
  omap (λ '(id, _),
    '(stored, p, s) ← settlement_join md id;
    address_hash ← se_address_lookup_hash s;
    Some (id, stored, p, s, address_hash)) (sort_by id_compare (map_to_list (mm_settlements md))).

(** One row as a target; [None] when its output is final. *)
Definition market_row_target (md : MarketDb) (row : RowId * string * Preparation * SettlementColumns * string) :
    result PersistenceError (option ObservationTarget) :=
  let '(id, stored, p, s, address_hash) := row in
  activated_at ← ok_or (pn_activated_at (pp_columns p)) PE_Unavailable;
  creator_hash ← stored_lookup_hash stored;
  payment ← decrypt_settlement_payment_record crypto creator_hash id (se_payment_record_envelope s);
  required ← bitcoin_required_amount payment;
  address ← record_bitcoin_address payment;
  ensure (String.eqb address_hash (bitcoin_address_lookup_hash crypto address)
          && String.eqb (se_derivation_index_lookup_hash s) (settlement_derivation_hash crypto creator_hash payment))
    PE_CorruptOrMissing;;
  match market_active_row md id with
  | None => Ok (Some (mk_ObservationTarget address None))
  | Some (oid, o) =>
      record ← decrypt_marketplace_observation creator_hash id oid (ob_envelope o);
      ensure (observation_consistent o record activated_at) PE_CorruptOrMissing;;
      if ob_present o && (6 <=? ob_confirmations o) && (required <=? bo_observed_sats record) then Ok None
      else outpoint ← parse_canonical_bitcoin_outpoint (bo_outpoint record);
           Ok (Some (mk_ObservationTarget address (Some (mk_TrackedOutput outpoint (bo_observed_sats record)))))
  end.

(** The expiry is committed before the rows are opened. *)
Definition market_observation_targets (md : MarketDb) (now : Z) :
    result PersistenceError (list ObservationTarget) * MarketDb :=
  let md := market_expire_overdue md now in
  (flattened <$> collect (market_row_target md) (market_target_rows md), md).

(** ** One observation *)

(** The active settlement behind an address. *)
Definition settlement_of_address (md : MarketDb) (hash : string) :
    option (RowId * (string * Preparation * SettlementColumns)) :=
  '(id, _) ← select_one (λ id s, bool_decide (se_address_lookup_hash s = Some hash) && is_some (settlement_join md id))
               (mm_settlements md);
  joined ← settlement_join md id;
  Some (id, joined).

(** The row already stored for the outpoint, if its owner and evidence agree. *)
Definition market_existing (md : MarketDb) (id : RowId) (creator_hash outpoint : string) (observed_sats : Z) :
    result PersistenceError (option (RowId * ObservationRow)) :=
  let hash := bitcoin_outpoint_lookup_hash crypto outpoint in
  match select_one (λ _ r, String.eqb (ob_outpoint_lookup_hash r) hash) (t_observations (mm_pay md)) with
  | None => Ok None
  | Some (oid, row) =>
      ensure (is_none (ob_invoice_id row) && owned_by id (ob_marketplace_preparation_id row)) PE_Conflict;;
      stored ← decrypt_marketplace_observation creator_hash id oid (ob_envelope row);
      ensure (String.eqb (bo_outpoint stored) outpoint && (bo_observed_sats stored =? observed_sats)) PE_Conflict;;
      Ok (Some (oid, row))
  end.

Definition market_binding (md : MarketDb) (id : RowId) (creator_hash : string) :
    result PersistenceError (option (ObservationRow * BitcoinObservationV1)) :=
  match market_active_row md id with
  | None => Ok None
  | Some (oid, row) =>
      record ← decrypt_marketplace_observation creator_hash id oid (ob_envelope row);
      Ok (Some (row, record))
  end.

(** The projection of one output onto the settlement. *)
Definition market_projection (present matched timely : bool) (confirmations observed_at deadline : Z)
    (p : ProjectionColumns) : ProjectionColumns :=
  let projected := if negb present then 0 else if matched then Z.min confirmations 6 else confirmations in
  mk_ProjectionColumns (payment_status_text present projected) projected matched
    (iv_first_matched_at p) (iv_first_matched_outpoint p)
    (if timely then None
     else if deadline <? observed_at then coalesce (iv_payment_expired_at p) (Some observed_at)
     else iv_payment_expired_at p).

Definition market_first_match (first_observed_at : Z) (hash : string) (p : ProjectionColumns) : ProjectionColumns :=
  mk_ProjectionColumns (iv_payment_status p) (iv_confirmation_count p) (iv_amount_matched p)
    (coalesce (iv_first_matched_at p) (Some first_observed_at)) (coalesce (iv_first_matched_outpoint p) (Some hash))
    (iv_payment_expired_at p).

(** The writes: deactivate on replacement, upsert, record a timely match, freeze the first
    match, project. *)
Definition write_market_observation (md : MarketDb) (fresh : RowId) (nonce : string) (id : RowId)
    (creator_hash outpoint : string) (observed_sats confirmations : Z) (present replace matched : bool)
    (existing : option (RowId * ObservationRow)) (observed_at deadline : Z) : result PersistenceError MarketDb :=
  let hash := bitcoin_outpoint_lookup_hash crypto outpoint in
  let pay := mm_pay md in
  let pay := if replace then set_observations pay (market_deactivate id <$> t_observations pay) else pay in
  ensure (confirmations <=? i32_max) PE_CorruptOrMissing;;
  let observation_id := match existing with Some (oid, _) => oid | None => fresh end in
  let first_observed_at := match existing with Some (_, r) => ob_first_observed_at r | None => observed_at end in
  envelope ← map_err (λ _, PE_CorruptOrMissing)
    (encrypt crypto nonce (ctx_bitcoin_observation_for_marketplace creator_hash observation_id id)
       (encode_observation (mk_BitcoinObservationV1 1 outpoint observed_sats)));
  '(affected, pay) ← upsert_market_observation pay observation_id
    (mk_ObservationRow None (Some id) envelope hash first_observed_at confirmations present true) id;
  ensure (affected =? 1) PE_Conflict;;
  let md := set_mm_pay md pay in
  let timely := matched && (first_observed_at <=? deadline) in
  let md := if timely then set_mm_timely md ({[(id, hash)]} ∪ mm_timely md) else md in
  md ← (if matched then update_settlement md id (market_first_match first_observed_at hash) else Ok md);
  update_settlement md id (market_projection present matched timely confirmations observed_at deadline).

Definition apply_marketplace_observation (md : MarketDb) (fresh : RowId) (nonce : string)
    (input : BitcoinObservationInput) (observed_at : Z) : result PersistenceError (bool * MarketDb) :=
  let address_hash := bitcoin_address_lookup_hash crypto (in_address input) in
  match settlement_of_address md address_hash with
  | None => Ok (false, md)
  | Some (id, (stored, p, s)) =>
      activated_at ← ok_or (pn_activated_at (pp_columns p)) PE_Unavailable;
      deadline ← ok_or (pp_payment_deadline p) PE_Unavailable;
      creator_hash ← stored_lookup_hash stored;
      payment ← decrypt_settlement_payment_record crypto creator_hash id (se_payment_record_envelope s);
      required ← bitcoin_required_amount payment;
      address ← record_bitcoin_address payment;
      ensure (String.eqb address (in_address input)
              && String.eqb (se_derivation_index_lookup_hash s) (settlement_derivation_hash crypto creator_hash payment)
              && (activated_at <=? observed_at)) PE_CorruptOrMissing;;
      let outpoint := canonical_text (in_outpoint input) in
      let present := in_present input in
      existing ← market_existing md id creator_hash outpoint (in_observed_sats input);
      active ← market_binding md id creator_hash;
      if nothing_to_do false active outpoint present required then Ok (true, md)
      else
        let replace := match active with
                       | Some (row, record) =>
                           bool_decide (action_for_values (direct_binding row record) outpoint present required = Replace)
                       | None => false
                       end in
        md ← write_market_observation md fresh nonce id creator_hash outpoint (in_observed_sats input)
               (in_confirmations input) present replace (present && (required <=? in_observed_sats input)) existing
               observed_at deadline;
        Ok (true, md)
  end.

(** The observations of a batch with the identifier and nonce each would use. *)
Fixpoint market_apply_each (md : MarketDb) (batch : list (RowId * string * BitcoinObservationInput))
    (observed_at applied : Z) : result PersistenceError (Z * MarketDb) :=
  match batch with
  | [] => Ok (applied, md)
  | (fresh, nonce, observation) :: batch =>
      '(hit, md) ← apply_marketplace_observation md fresh nonce observation observed_at;
      market_apply_each md batch observed_at (if hit : bool then applied + 1 else applied)
  end.

Definition market_apply_batch (md : MarketDb) (batch : list (RowId * string * BitcoinObservationInput)) (observed_at : Z) :
    result PersistenceError (Z * MarketDb) :=
  market_apply_each md (sort_by (λ a b, cmp_for_batch a.2 b.2) batch) observed_at 0.

(** ** USDT receipts *)

(** [usdt_facts]: the facts and the attested sender, absent or exactly 20 bytes. *)
Definition market_usdt_facts (creator_hash : string) (id receipt_id : RowId) (row : UsdtRow) :
    result PersistenceError (TransferFacts * option string) :=
  plaintext ← map_err (λ _, PE_CorruptOrMissing)
    (decrypt crypto (ctx_usdt_observation_for_marketplace creator_hash receipt_id id) (us_envelope row));
  decoded ← ok_or (take_transfer plaintext) PE_CorruptOrMissing;
  sender ← (if str_is_empty decoded.2 then Ok None
            else ensure (Nat.eqb (String.length decoded.2) 20) PE_CorruptOrMissing;; Ok (Some decoded.2));
  ensure (String.eqb (us_transfer_lookup_hash row) (usdt_transfer_lookup_hash crypto (tf_identity decoded.1))
          && (0 <=? us_confirmations row)) PE_CorruptOrMissing;;
  Ok (decoded.1, sender).

(** [lock_active_settlement] *)
Definition lock_active_settlement (md : MarketDb) (id : RowId) : result PersistenceError unit :=
  ensure (is_some (settlement_join md id)) PE_CorruptOrMissing.

Definition market_clear_usdt (md : MarketDb) (id : RowId) (identity_hash : string) (db_now : Z) :
    result PersistenceError MarketDb :=
  lock_active_settlement md id;;
  let clear r :=
    if owned_by id (us_marketplace_preparation_id r) && String.eqb (us_transfer_lookup_hash r) identity_hash
       && negb (us_finalized r)
    then mk_UsdtRow (us_invoice_id r) (us_marketplace_preparation_id r) (us_transfer_lookup_hash r)
           (us_envelope r) 0 false (us_finalized r) db_now
    else r in
  Ok (set_mm_pay md (set_usdt (mm_pay md) (clear <$> t_usdt (mm_pay md)))).

(** The unique transfer identity fences a receipt owned elsewhere, and a finalized receipt
    is never rewritten. *)
Definition market_apply_usdt (md : MarketDb) (fresh : RowId) (nonce : string) (id : RowId) (creator_hash : string)
    (transfer : VerifiedTransfer) (db_now : Z) : result PersistenceError (bool * MarketDb) :=
  let hash := usdt_transfer_lookup_hash crypto (vt_identity transfer) in
  lock_active_settlement md id;;
  let existing := select_one (λ _ r, String.eqb (us_transfer_lookup_hash r) hash) (t_usdt (mm_pay md)) in
  let skip := match existing with
              | Some (_, r) =>
                  let owned := owned_by id (us_marketplace_preparation_id r) in
                  if negb owned || us_finalized r then Some owned else None
              | None => None
              end in
  match skip with
  | Some answer => Ok (answer, md)
  | None =>
      let receipt_id := match existing with Some (rid, _) => rid | None => fresh end in
      envelope ← map_err (λ _, PE_CorruptOrMissing)
        (encrypt crypto nonce (ctx_usdt_observation_for_marketplace creator_hash receipt_id id)
           (encode_transfer (mk_TransferFacts (vt_identity transfer) (vt_amount transfer) (vt_timestamp transfer))
              (vt_sender transfer)));
      ensure (vt_confirmations transfer <=? i32_max) PE_InvalidInput;;
      ensure (is_some existing || is_none (t_usdt (mm_pay md) !! receipt_id)) PE_Unavailable;;
      let invoice := match existing with Some (_, r) => us_invoice_id r | None => None end in
      let row := mk_UsdtRow invoice (Some id) hash envelope (vt_confirmations transfer) true
                   (vt_finalized transfer) db_now in
      Ok (true, set_mm_pay md (set_usdt (mm_pay md) (<[receipt_id := row]> (t_usdt (mm_pay md)))))
  end.

(** ** The integrity scan *)

Definition scan_settlement (md : MarketDb) (id : RowId) : result PersistenceError unit :=
  match settlement_join md id with
  | None => Ok tt
  | Some (stored, p, s) =>
      activated_at ← ok_or (pn_activated_at (pp_columns p)) PE_Unavailable;
      deadline ← ok_or (pp_payment_deadline p) PE_Unavailable;
      creator_hash ← stored_lookup_hash stored;
      payment ← decrypt_settlement_payment_record crypto creator_hash id (se_payment_record_envelope s);
      (if has_bitcoin payment then bitcoin_required_amount payment;; Ok tt else Ok tt);;
      address ← settlement_address_hash crypto payment;
      ensure (bool_decide (se_address_lookup_hash s = address)
              && String.eqb (se_derivation_index_lookup_hash s) (settlement_derivation_hash crypto creator_hash payment)
              && (activated_at <? deadline)) PE_CorruptOrMissing
  end.

(** The creator's hash and the activation of an observation's settlement, in any state. *)
Definition observation_owner (md : MarketDb) (id : RowId) : option (string * Preparation) :=
  '(owner, _) ← settlement md id;
  p ← preparation md id;
  stored ← creators (mm_db md) !! owner;
  if bool_decide (pp_creator_id p = owner) then Some (stored, p) else None.

Definition scan_market_observation (md : MarketDb) (row : RowId * ObservationRow) : result PersistenceError unit :=
  let '(oid, o) := row in
  match (id ← ob_marketplace_preparation_id o; owner ← observation_owner md id; Some (id, owner)) with
  | None => Ok tt
  | Some (id, (stored, p)) =>
      activated_at ← ok_or (pn_activated_at (pp_columns p)) PE_Unavailable;
      creator_hash ← stored_lookup_hash stored;
      record ← decrypt_marketplace_observation creator_hash id oid (ob_envelope o);
      ensure (is_none (ob_invoice_id o) && observation_consistent o record activated_at) PE_CorruptOrMissing
  end.

Definition scan_market_receipt (md : MarketDb) (row : RowId * UsdtRow) : result PersistenceError unit :=
  let '(rid, r) := row in
  match (id ← us_marketplace_preparation_id r; '(owner, _) ← settlement md id;
         stored ← creators (mm_db md) !! owner; Some (id, stored)) with
  | None => Ok tt
  | Some (id, stored) =>
      creator_hash ← stored_lookup_hash stored;
      market_usdt_facts creator_hash id rid r;; Ok tt
  end.

(** In the order of the rows' identifiers. *)
Definition market_scan_integrity (md : MarketDb) : result PersistenceError unit :=
  collect (λ kv, scan_settlement md kv.1) (sort_by id_compare (map_to_list (mm_settlements md)));;
  collect (scan_market_observation md) (sort_by id_compare (map_to_list (t_observations (mm_pay md))));;
  collect (scan_market_receipt md) (sort_by id_compare (map_to_list (t_usdt (mm_pay md))));;
  Ok tt.
End observe.
