(* ===== verification/MarketStatus.v ===== *)
(** * MarketStatus: the status of a Marketplace invoice
    ([persistence/marketplace_preparations.rs], [.../usdt.rs], [application/marketplace_status.rs],
    [http/marketplace_status.rs])

    One repeatable read over all tables of a preparation.  The snapshot is checked against
    everything it can be derived from - the sealed intent, the settlement's record, the active
    output - and answers only when they agree. *)

From S2P Require Import Prelude Text Api Locks Invoice Receiving Payment Lifecycle Pricing Intent Readers Database OutboxStore CreateInvoice PaymentRecord Crypto Observations Settlement LifecycleStore Drains DrainProps Status Creators Allocation Allocated AllocationProps Targets Provider MarketTerms MarketStore MarketObserve Sorting.
Local Open Scope string_scope.
Local Open Scope Z_scope.

Record MarketplaceBitcoinStatus := mk_MarketplaceBitcoinStatus {
  bs_txid : string;
  bs_vout : Z;
  bs_observed_sats : Z;
  bs_first_observed_at : Z;
  bs_confirmations : Z;
  bs_present : bool;
  bs_amount_matched : bool;
  bs_paid_on_time : bool;
}.

Record MarketplaceUsdtStatus := mk_MarketplaceUsdtStatus {
  ut_tx_hash : string;
  ut_observed_amount : Z;
  ut_observed_at : Z;
  ut_confirmations : Z;
  ut_amount_matched : bool;
  ut_paid_on_time : bool;
  ut_finalized : bool;
}.

Record MarketplaceInvoiceStatus := mk_MarketplaceInvoiceStatus {
  ms_invoice_id : RowId;
  ms_state : string;
  ms_proposal_delivery_state : string;
  ms_request_state : option string;
  ms_payment_state : option string;
  ms_activated_at : option Z;
  ms_payment_deadline : option Z;
  ms_accepted_assets : list AcceptedAsset;
  ms_payment_amounts : list (AcceptedAsset * Z);
  ms_bitcoin : option MarketplaceBitcoinStatus;
  ms_usdt_arbitrum : option MarketplaceUsdtStatus;
  ms_paid_asset : option AcceptedAsset;
  ms_outcome : option string;
  ms_resolved_at : option Z;
}.

(** [inactive(..).with_offer(..)] *)
Definition status_inactive (id : RowId) (state : string) (outcome : option string) (resolved_at : option Z)
    (terms : MarketplaceTerms) (quote : MarketplaceQuote) : MarketplaceInvoiceStatus :=
  mk_MarketplaceInvoiceStatus id state "unpublished" None None None None (mt_accepted_assets terms)
    (mq_payment_amounts quote) None None None outcome resolved_at.

Definition publication_state (s : OutboxStatus) : string :=
  match s with
  | Queued | Leased | Retryable | HandedOff => "pending"
  | Delivered => "delivered"
  | PermanentlyFailed => "failed"
  end.

Definition parse_business_outcome (value : string) : result PersistenceError string :=
  ensure (outcome_text value) PE_CorruptOrMissing;; Ok value.

(** [split(':')] *)
Fixpoint split_colon (fuel : nat) (s : string) : list string :=
  match fuel, split_once ":" s with
  | S fuel, Some (part, rest) => part :: split_colon fuel rest
  | _, _ => [s]
  end.

(** [chain:0xtransaction:log_index] to the canonical lowercase transaction hash. *)
Definition transaction_hash (identity : string) : result PersistenceError string :=
  match split_colon (String.length identity) identity with
  | [chain; hash; _] =>
      ensure (String.eqb chain USDT_CHAIN_ID && (str_len hash =? 66) && starts_with "0x" hash
              && all_bytes is_lower_hexdigit (str_drop 2 hash)) PE_CorruptOrMissing;;
      Ok hash
  | _ => Err PE_CorruptOrMissing
  end.

(** The order in which receipts are displayed: the derived order of the tuple. *)
Definition display_compare (a b : bool * bool * bool * Z) : comparison :=
  let '(paid, final, matched, confirmations) := a in
  let '(paid', final', matched', confirmations') := b in
  then_with (bool_compare paid paid')
    (then_with (bool_compare final final')
       (then_with (bool_compare matched matched') (confirmations ?= confirmations'))).

Definition display_rank (u : MarketplaceUsdtStatus) : bool * bool * bool * Z :=
  (ut_paid_on_time u, ut_finalized u, ut_amount_matched u, ut_confirmations u).

(** [first_qualifying_at.map_or(t, |first| first.min(t))] *)
Definition earlier (first : option Z) (t : Z) : option Z :=
  match first with Some f => Some (Z.min f t) | None => Some t end.

(** The rail that was paid first: the least of the two qualifying times, Bitcoin on a tie. *)
Definition first_paid (bitcoin usdt : option Z) : option AcceptedAsset :=
  match bitcoin, usdt with
  | Some b, Some u => Some (if u <? b then Accept_Usdt else Accept_Btc)
  | Some _, None => Some Accept_Btc
  | None, Some _ => Some Accept_Usdt
  | None, None => None
  end.

Inductive MarketplaceStatusError := MS_Conflict | MS_Unavailable | MS_RecoveryRequired | MS_InvalidConflict.

Section status.
Context {core : LocksCore} {lib : PaykitLib}.
Context {prim : CryptoPrimitives} {observations : ObservationCodec} {codec : PreparationCodec} (crypto : Crypto).
Context {Json : Type} (json_from_str : string → option Json)
  (json_value : Json → option string) (json_is_object : Json → list (string * string) → bool).
(** The text order of the database. *)
Context (collate : string → string → comparison).
Notation from_intent := (from_intent json_from_str json_value json_is_object).

(** ** USDT *)

(** One present receipt as it would be displayed. *)
Definition receipt_status (creator_hash : string) (id : RowId) (required window_start deadline : Z)
    (row : RowId * UsdtRow) : result PersistenceError MarketplaceUsdtStatus :=
  '(facts, _) ← market_usdt_facts crypto creator_hash id row.1 row.2;
  confirmations ← try_u32 (us_confirmations row.2);
  let matched := required <=? tf_amount facts in
  let paid := matched && (window_start <=? tf_timestamp facts) && (tf_timestamp facts <=? deadline) in
  tx_hash ← transaction_hash (tf_identity facts);
  Ok (mk_MarketplaceUsdtStatus tx_hash (tf_amount facts) (tf_timestamp facts) confirmations matched paid
        (us_finalized row.2)).

(** The loop over the receipts: the displayed one and the earliest qualifying time. *)
Fixpoint select_display (creator_hash : string) (id : RowId) (required window_start deadline : Z)
    (rows : list (RowId * UsdtRow)) (selected : option MarketplaceUsdtStatus) (first : option Z) :
    result PersistenceError (option MarketplaceUsdtStatus * option Z) :=
  match rows with
  | [] => Ok (selected, first)
  | row :: rows =>
      u ← receipt_status creator_hash id required window_start deadline row;
      let first := if ut_paid_on_time u then earlier first (ut_observed_at u) else first in
      let selected := match selected with
                      | None => Some u
                      | Some current =>
                          match display_compare (display_rank u) (display_rank current) with
                          | Gt => Some u
                          | _ => Some current
                          end
                      end in
      select_display creator_hash id required window_start deadline rows selected first
  end.

Definition market_receipts (md : MarketDb) (id : RowId) : list (RowId * UsdtRow) :=
  sort_by id_compare (filter (λ kv, Is_true (owned_by id (us_marketplace_preparation_id kv.2) && us_present kv.2))
    (map_to_list (t_usdt (mm_pay md)))).

Definition status_usdt (md : MarketDb) (creator_hash : string) (id : RowId) (payment : InvoicePaymentRecordV1)
    (activated_at deadline : Z) : result PersistenceError (option MarketplaceUsdtStatus * option Z) :=
  let rows := market_receipts md id in
  if negb (has_usdt payment) then
    if bool_decide (rows = []) then Ok (None, None) else Err PE_CorruptOrMissing
  else
    required ← usdt_required_amount payment;
    select_display creator_hash id required (whole_second activated_at) deadline rows None None.

(** ** Bitcoin *)

Definition status_bitcoin (md : MarketDb) (creator_hash : string) (id : RowId) (required activated_at : Z) :
    result PersistenceError (option MarketplaceBitcoinStatus) :=
  match market_active_row md id with
  | None => Ok None
  | Some (oid, o) =>
      record ← decrypt_marketplace_observation crypto creator_hash id oid (ob_envelope o);
      ensure (observation_consistent crypto o record activated_at) PE_CorruptOrMissing;;
      outpoint ← ok_or (parse_outpoint (bo_outpoint record)) PE_CorruptOrMissing;
      confirmations ← try_u32 (ob_confirmations o);
      let present := ob_present o in
      let matched := present && (required <=? bo_observed_sats record) in
      Ok (Some (mk_MarketplaceBitcoinStatus (txid outpoint) (vout outpoint) (bo_observed_sats record)
                  (ob_first_observed_at o) (if present then confirmations else 0) present matched
                  (matched && bool_decide ((id, ob_outpoint_lookup_hash o) ∈ mm_timely md))))
  end.

(** What the settlement row must show of an output: status, confirmations and match. *)
Definition projected_bitcoin (bitcoin : option MarketplaceBitcoinStatus) : string * Z * bool :=
  match bitcoin with
  | None => ("undetected", 0, false)
  | Some b =>
      (if negb (bs_present b) then "undetected" else if bs_confirmations b =? 0 then "detected" else "confirmed",
       if bs_amount_matched b then Z.min (bs_confirmations b) 6 else bs_confirmations b,
       bs_present b && bs_amount_matched b)
  end.

(** ** The snapshot *)

Definition market_attempts (md : MarketDb) (id : RowId) : list (PaymentRequestLifecycleState * Z) :=
  attempts_where (mm_life md) (λ row, bool_decide (l_marketplace_preparation_id row = Some id)).

Definition market_request_state (md : MarketDb) (id : RowId) : option string :=
  option_map (λ a : PaymentRequestLifecycleState * Z, state_as_str a.1)
    (head (sort_by (lateral_compare collate) (market_attempts md id))).

Definition proposal_count (md : MarketDb) (id : RowId) : nat :=
  count_rows (λ _ r, market_proposal id r) (outbox (mm_db md)).

(** The checks on a preparation that is not active: nothing was published. *)
Definition inactive_consistent (md : MarketDb) (id : RowId) (p : Preparation) : bool :=
  let c := pp_columns p in
  is_none (mm_settlements md !! id) && Nat.eqb (proposal_count md id) 0
  && bool_decide (market_attempts md id = []) && is_none (market_active_row md id)
  && is_none (pn_activated_at c) && is_none (pp_payment_deadline p)
  && Bool.eqb (is_some (pn_voided_at c)) (bool_decide (pp_state p = Voided))
  && match pn_resolved_at c with Some resolved_at => pn_prepared_at c <=? resolved_at | None => true end.

(** The checks on the times and counts of an active one. *)
Definition active_consistent (md : MarketDb) (id : RowId) (p : Preparation) (activated_at deadline : Z) : bool :=
  let c := pp_columns p in
  Nat.eqb (proposal_count md id) 1 && (length (market_attempts md id) <=? 1)%nat && (activated_at <? deadline)
  && is_none (pn_voided_at c) && (pn_prepared_at c <=? activated_at)
  && match pn_resolved_at c with Some resolved_at => activated_at <=? resolved_at | None => true end.

Definition active_payment_state (projected : string) (usdt : option MarketplaceUsdtStatus)
    (bitcoin : option MarketplaceBitcoinStatus) (paid_on_time : bool) (now deadline : Z) : string :=
  let deadline_passed :=
    (deadline <? now)
    || match bitcoin with Some b => deadline <? bs_first_observed_at b | None => false end
    || match usdt with Some u => deadline <? ut_observed_at u | None => false end in
  if deadline_passed && negb paid_on_time then "expired"
  else if String.eqb projected "confirmed" || match usdt with Some u => 0 <? ut_confirmations u | None => false end
  then "confirmed"
  else if String.eqb projected "detected" || is_some usdt then "detected"
  else "undetected".

Definition status_active (md : MarketDb) (creator_hash : string) (id : RowId) (p : Preparation)
    (e : PreparationEnvelope) (quote : MarketplaceQuote) (outcome : option string) (now : Z) :
    result PersistenceError MarketplaceInvoiceStatus :=
  let c := pp_columns p in
  activated_at ← ok_or (pn_activated_at c) PE_CorruptOrMissing;
  deadline ← ok_or (pp_payment_deadline p) PE_CorruptOrMissing;
  '(owner, s) ← ok_or (settlement md id) PE_CorruptOrMissing;
  ensure (bool_decide (owner = pp_creator_id p)) PE_CorruptOrMissing;;
  ensure (active_consistent md id p activated_at deadline) PE_CorruptOrMissing;;
  payment ← decrypt_settlement_payment_record crypto creator_hash id (se_payment_record_envelope s);
  expected ← map_err (λ _, PE_CorruptOrMissing) (from_intent (pe_child_index e) (pe_payment_request_intent e));
  address ← (if bool_decide (payment = expected) then settlement_address_hash crypto payment
             else Err PE_CorruptOrMissing);
  ensure (bool_decide (se_address_lookup_hash s = address)
          && String.eqb (se_derivation_index_lookup_hash s) (settlement_derivation_hash crypto creator_hash payment))
    PE_CorruptOrMissing;;
  '(_, proposal) ← ok_or (select_one (λ _ r, market_proposal id r) (outbox (mm_db md))) PE_CorruptOrMissing;
  bitcoin ← (if has_bitcoin payment then
               required ← bitcoin_required_amount payment;
               status_bitcoin md creator_hash id required activated_at
             else if is_some (market_active_row md id) then Err PE_CorruptOrMissing else Ok None);
  let projection := se_projection s in
  ensure (bool_decide ((iv_payment_status projection, iv_confirmation_count projection, iv_amount_matched projection)
                       = projected_bitcoin bitcoin)) PE_CorruptOrMissing;;
  '(usdt, first_usdt) ← status_usdt md creator_hash id payment activated_at deadline;
  let bitcoin_paid := b ← bitcoin; if bs_paid_on_time b then Some (bs_first_observed_at b) else None in
  let paid_asset := first_paid bitcoin_paid first_usdt in
  Ok (mk_MarketplaceInvoiceStatus id "active" (publication_state (o_status proposal)) (market_request_state md id)
        (Some (active_payment_state (projected_bitcoin bitcoin).1.1 usdt bitcoin (is_some paid_asset) now deadline))
        (Some activated_at) (Some deadline) (mt_accepted_assets (pe_terms e)) (mq_payment_amounts quote)
        bitcoin usdt paid_asset outcome (pn_resolved_at c)).

Definition status_snapshot (md : MarketDb) (creator : CreatorPubky) (id : RowId) (now : Z) :
    result PersistenceError (option MarketplaceInvoiceStatus) :=
  match load_lifecycle_locked crypto md creator id with
  | None => Ok None
  | Some (stored, p) =>
      let c := pp_columns p in
      creator_hash ← stored_lookup_hash stored;
      e ← decode_lifecycle_envelope crypto json_from_str json_value json_is_object creator_hash id c;
      quote ← envelope_quote json_from_str json_value json_is_object e;
      outcome ← transpose (parse_business_outcome <$> pn_business_outcome c);
      ensure (Bool.eqb (is_some outcome) (is_some (pn_resolved_at c))
              && (pn_prepared_at c <? pn_prepare_expires_at c)) PE_CorruptOrMissing;;
      match pp_state p with
      | Prepared =>
          ensure (inactive_consistent md id p) PE_CorruptOrMissing;;
          Ok (Some (status_inactive id "prepared" outcome (pn_resolved_at c) (pe_terms e) quote))
      | Voided =>
          ensure (inactive_consistent md id p) PE_CorruptOrMissing;;
          Ok (Some (status_inactive id "voided" outcome (pn_resolved_at c) (pe_terms e) quote))
      | Active =>
          status ← status_active md creator_hash id p e quote outcome now;
          Ok (Some status)
      end
  end.

(** [MarketplaceStatusPersistence::status] *)
Definition market_status_persistence (md : MarketDb) (creator : CreatorPubky) (id : RowId) (now : Z) :
    result MarketplaceStatusError (option MarketplaceInvoiceStatus) :=
  map_err (λ e, match e with PE_Conflict => MS_Conflict | _ => MS_Unavailable end) (status_snapshot md creator id now).

(** [MarketplaceStatusService::status] *)
Definition market_status (md : MarketDb) (creator : CreatorPubky) (id : RowId) (now : Z) :
    result MarketplaceStatusError (option MarketplaceInvoiceStatus) :=
  status ← market_status_persistence md creator id now;
  let state := s ← status; ms_request_state s in
  if bool_decide (state = Some "recovery_required") then Err MS_RecoveryRequired
  else if bool_decide (state = Some "invalid_conflict") then Err MS_InvalidConflict
  else Ok status.
End status.
