(* ===== verification/MarketService.v ===== *)
(** * MarketService: the Marketplace commands
    ([application/marketplace_preparation.rs], [application/marketplace_lifecycle.rs])

    Preparing an invoice reads the seller's and the buyer's external state under one request
    deadline, fixes the quote, and only then runs the store's transaction, which is
    never cancelled.  Activation, void and resolution are the store's transactions. *)

From S2P Require Import Prelude Text Effects Api Locks Invoice Receiving Payment Lifecycle Pricing Intent Readers Database OutboxStore CreateInvoice PaymentRecord Crypto Observations LifecycleStore Drains Status Creators Allocation Provider MarketTerms MarketStore Sorting.
Local Open Scope string_scope.
Local Open Scope Z_scope.

Inductive MissingSellerRails := Rails_Bitcoin | Rails_Usdt | Rails_BitcoinAndUsdt.

Inductive PrepareMarketplaceError :=
| PM_InvalidRequest
| PM_Conflict
| PM_CreatorSessionInvalid
| PM_CreatorSessionUnavailable
| PM_ReaderSetupPending
| PM_ReaderNotPayable
| PM_ReaderRegistryUnavailable
| PM_ReaderRegistryMalformed
| PM_SellerSetupPending (rails : MissingSellerRails)
| PM_AssetUnsupported
| PM_PaymentWindowExceedsCap
| PM_DeadlineExceeded
| PM_Unavailable.

Definition prepare_error_label (e : PrepareMarketplaceError) : string :=
  match e with
  | PM_InvalidRequest => "invalid_request"
  | PM_Conflict => "operation_conflict"
  | PM_CreatorSessionInvalid => "creator_session_invalid"
  | PM_CreatorSessionUnavailable => "creator_session_unavailable"
  | PM_ReaderSetupPending => "reader_setup_pending"
  | PM_ReaderNotPayable => "reader_not_payable"
  | PM_ReaderRegistryUnavailable => "reader_registry_unavailable"
  | PM_ReaderRegistryMalformed => "reader_registry_malformed"
  | PM_SellerSetupPending _ => "seller_setup_pending"
  | PM_AssetUnsupported => "asset_unsupported"
  | PM_PaymentWindowExceedsCap => "payment_window_exceeds_cap"
  | PM_DeadlineExceeded => "deadline_exceeded"
  | PM_Unavailable => "unavailable"
  end.

Definition prepare_map_registry (e : RegistryDiscoveryError) : PrepareMarketplaceError :=
  match e with
  | RegistryInvalidRequest => PM_InvalidRequest
  | RegistryUnavailable => PM_ReaderRegistryUnavailable
  | RegistryMalformed => PM_ReaderRegistryMalformed
  end.

Definition prepare_map_store (e : PersistenceError) : PrepareMarketplaceError :=
  match e with
  | PE_Conflict => PM_Conflict
  | PE_DeadlineElapsed => PM_DeadlineExceeded
  | PE_InvalidInput => PM_InvalidRequest
  | PE_DeploymentMismatch | PE_CorruptOrMissing | PE_ReauthenticationMismatch | PE_Unavailable => PM_Unavailable
  end.

Definition prepare_map_session (e : SessionValidationError) : PrepareMarketplaceError :=
  match e with
  | SessionInvalid => PM_CreatorSessionInvalid
  | SessionUnavailable => PM_CreatorSessionUnavailable
  end.

(** ** Text: the characters of a UTF-8 string *)

Definition byte_of (c : ascii) : Z := Z.of_N (N_of_ascii c).

(** [str::chars] as code points; a [str] is always well-formed UTF-8. *)
Fixpoint utf8_chars (s : string) : list Z :=
  match s with
  | EmptyString => []
  | String a s1 =>
      let x := byte_of a in
      if x <? 128 then x :: utf8_chars s1
      else match s1 with
           | EmptyString => []
           | String b s2 =>
               let y := byte_of b - 128 in
               if x <? 224 then ((x - 192) * 64 + y) :: utf8_chars s2
               else match s2 with
                    | EmptyString => []
                    | String c s3 =>
                        let z := byte_of c - 128 in
                        if x <? 240 then ((x - 224) * 4096 + y * 64 + z) :: utf8_chars s3
                        else match s3 with
                             | EmptyString => []
                             | String d s4 =>
                                 ((x - 240) * 262144 + y * 4096 + z * 64 + (byte_of d - 128)) :: utf8_chars s4
                             end
                    end
           end
  end.

(** [char::is_control]: the category Cc. *)
Definition is_control (c : Z) : bool := (c <=? 31) || ((127 <=? c) && (c <=? 159)).

(** [char::is_whitespace]: the property White_Space. *)
Definition is_whitespace (c : Z) : bool :=
  ((9 <=? c) && (c <=? 13)) || (c =? 32) || (c =? 133) || (c =? 160) || (c =? 5760)
  || ((8192 <=? c) && (c <=? 8202)) || (c =? 8232) || (c =? 8233) || (c =? 8239) || (c =? 8287) || (c =? 12288).

Definition is_direction_control (c : Z) : bool :=
  (c =? 1564) || (c =? 8206) || (c =? 8207) || ((8232 <=? c) && (c <=? 8238)) || ((8294 <=? c) && (c <=? 8297)).

(** The refusal of a description. *)
Definition description_invalid (description : string) : bool :=
  let chars := utf8_chars description in
  forallb is_whitespace chars || (140 <? Z.of_nat (length chars))
  || existsb (λ c, is_control c || is_direction_control c) chars.

(** ** The offer *)

Definition normalized_filter (filter : option (list AcceptedAsset)) :
    result PrepareMarketplaceError (option (list AcceptedAsset)) :=
  match filter with
  | None => Ok None
  | Some filter =>
      let set := sort_by accepted_compare filter in
      ensure (negb (bool_decide (set = []) || adjacent_equal set)) PM_InvalidRequest;;
      Ok (Some set)
  end.

Definition refusal_without_rails (filter : option (list AcceptedAsset)) (usdt_enabled : bool) : PrepareMarketplaceError :=
  match filter with
  | None => PM_SellerSetupPending Rails_Bitcoin
  | Some set =>
      if bool_decide (set = [Accept_Usdt]) && negb usdt_enabled then PM_AssetUnsupported
      else PM_SellerSetupPending
             (match bool_decide (Accept_Btc ∈ set), bool_decide (Accept_Usdt ∈ set) && usdt_enabled with
              | true, true => Rails_BitcoinAndUsdt
              | false, true => Rails_Usdt
              | _, _ => Rails_Bitcoin
              end)
  end.

Definition asset_allowed (filter : option (list AcceptedAsset)) (a : AcceptedAsset) : bool :=
  match filter with Some set => bool_decide (a ∈ set) | None => true end.

(** The receiving details the request may offer: what the seller set up, the deployment
    supports and the filter leaves. *)
Definition offered_details (filter : option (list AcceptedAsset)) (usdt_enabled : bool) (rd : ReceivingDetails) :
    ReceivingDetails :=
  mk_ReceivingDetails (if asset_allowed filter Accept_Btc then rd_bitcoin rd else None)
    (if usdt_enabled && asset_allowed filter Accept_Usdt then rd_usdt rd else None) (rd_bitcoin_account_generation rd).

Definition offered_assets (rd : ReceivingDetails) : list AcceptedAsset :=
  (if is_some (rd_bitcoin rd) then [Accept_Btc] else []) ++ (if is_some (rd_usdt rd) then [Accept_Usdt] else []).

(** [request_deadline.checked_sub(started.elapsed()).filter(..)] *)
Definition market_remaining (deadline started now : Z) : result PrepareMarketplaceError Z :=
  let elapsed := Z.max 0 (now - started) in
  ensure (elapsed <? deadline) PM_DeadlineExceeded;;
  Ok (deadline - elapsed).

Definition MAX_RFC3339_PROPOSAL_EXPIRES_AT : string := "9999-12-31T23:59:59.999999998Z".

Definition MAX_RFC3339_PAYMENT_DEADLINE : string := "9999-12-31T23:59:59.999999999Z".

Section service.
Context {core : LocksCore} {lib : PaykitLib} {bip32 : Bip32}.
Context (canonical_json : BindingJson → option string)
  (json_object : list (string * string) → string) (metadata_object : list (string * string) → Metadata).

Record PrepareMarketplaceRequest := mk_PrepareMarketplaceRequest {
  rq_creator : CreatorPubky;
  rq_reader : ReaderPubky;
  rq_reference : string;
  rq_amount : Z;
  rq_asset : CriterionAsset;
  rq_accepted_assets : option (list AcceptedAsset);
  rq_operation_id : string;
  rq_payment_window_seconds : Z;
  rq_description : option string;
}.

(** The configuration; durations are nanoseconds. *)
Record PrepareMarketplaceService := mk_PrepareMarketplaceService {
  ps_app_id : PaykitAppId;
  ps_bitcoin_network : BitcoinNetwork;
  ps_payment_window_cap : Z;
  ps_conversion_payment_window : Z;
  ps_prepare_ttl : Z;
  ps_usdt_enabled : bool;
  ps_has_rates : bool;
  ps_request_deadline : Z;
}.

Definition prepare_binding (r : PrepareMarketplaceRequest) (filter : option (list AcceptedAsset)) :
    result PrepareMarketplaceError string :=
  ok_or (canonical_json (BObject
    ([("amount", BString (fmt_dec (rq_amount r)));
      ("asset", BString (as_str (rq_asset r)));
      ("creator", BString (creator_to_string (rq_creator r)));
      ("operation_id", BString (rq_operation_id r));
      ("payment_window_seconds", BNumber (rq_payment_window_seconds r));
      ("reader", BString (reader_to_string (rq_reader r)));
      ("reference", BString (rq_reference r))]
     ++ match filter with
        | Some set => [("accepted_assets", BArray ((λ a, BString (accepted_as_str a)) <$> set))]
        | None => []
        end
     ++ match rq_description r with Some d => [("description", BString d)] | None => [] end))) PM_InvalidRequest.

Definition validate_request (sv : PrepareMarketplaceService) (r : PrepareMarketplaceRequest) :
    result PrepareMarketplaceError unit :=
  reference ← ok_or (uuid_parse (rq_reference r)) PM_InvalidRequest;
  ensure (negb (str_is_empty (rq_operation_id r) || (rq_payment_window_seconds r =? 0)
                || negb (uuid_version reference =? 4) || negb (uuid_is_rfc4122 reference)
                || negb (String.eqb (uuid_hyphenated reference) (rq_reference r)))) PM_InvalidRequest;;
  ensure (negb (match rq_description r with Some d => description_invalid d | None => false end)) PM_InvalidRequest;;
  ok_or (reference_new (rq_reference r)) PM_InvalidRequest;;
  ensure (rq_payment_window_seconds r <=? ps_payment_window_cap sv / NANOS_PER_SECOND) PM_PaymentWindowExceedsCap.

(** ** Payloads *)

(** [ReplayOnlyPayloads] *)
Definition replay_only : PayloadFactory := mk_PayloadFactory None (λ _, Err PE_CorruptOrMissing).

Record MarketplacePayloads := mk_MarketplacePayloads {
  mp_reader : ReaderPubky;
  mp_reference : string;
  mp_terms : MarketplaceTerms;
  mp_rates : list ConversionRate;
  mp_description : option string;
  mp_app_id : PaykitAppId;
  mp_bitcoin_network : BitcoinNetwork;
  mp_details : ReceivingDetails;
}.

(** [MarketplacePayloads::for_child_index]: the intent, with the largest deadlines already
    known to fit its frame. *)
Definition market_for_child_index (p : MarketplacePayloads) (child_index : Z) :
    result PersistenceError DeliveryIntentV1 :=
  let rd := mp_details p in
  bitcoin ← transpose ((λ account, map_err (λ _, PE_InvalidInput)
      (derive_bip84_p2wpkh_address (xpub account) (account_index account) (mp_bitcoin_network p) child_index))
    <$> rd_bitcoin rd);
  endpoints ← map_err (λ _, PE_InvalidInput)
    (invoice_endpoints json_object (mp_bitcoin_network p) (mk_ReceivingAddresses bitcoin (rd_usdt rd)));
  let asset := mt_asset (mp_terms p) in
  amount ← ok_or (amount_new (decimal_amount asset (mt_amount (mp_terms p))) (to_ascii_lowercase (as_str asset)))
             PE_InvalidInput;
  reference ← ok_or (reference_new (mp_reference p)) PE_InvalidInput;
  terms ← ok_or (terms_build {|
    ti_amount := amount;
    ti_reference := reference;
    ti_identifiers := merge_sort identifier_le endpoints.*1;
    ti_conversion := match mp_rates p with [] => None | _ => Some (Fixed (mp_rates p)) end;
    ti_proposal_expires_at := None;
    ti_payment_deadline := None;
    ti_required_app_id := Some (mp_app_id p);
    ti_endpoints := Some endpoints;
    ti_metadata := match mp_description p with
                   | Some d => metadata_object [("note", d)]
                   | None => empty_metadata
                   end;
  |}) PE_InvalidInput;
  intent ← map_err (λ _, PE_InvalidInput) (payment_request (reader_to_string (mp_reader p)) (mp_app_id p) terms);
  map_err (λ _, PE_InvalidInput)
    (set_deadlines intent MAX_RFC3339_PROPOSAL_EXPIRES_AT MAX_RFC3339_PAYMENT_DEADLINE).2;;
  Ok intent.

Definition market_payloads (p : MarketplacePayloads) : PayloadFactory :=
  mk_PayloadFactory ((λ _, rd_bitcoin_account_generation (mp_details p)) <$> rd_bitcoin (mp_details p))
    (market_for_child_index p).

(** ** The preparation service *)

Inductive MarketCall : Type → Type :=
| MNow : MarketCall Z
(* under [tokio::time::timeout(budget, ...)] *)
| MLock (budget : Z) (creator : CreatorPubky) (operation_id : string) : MarketCall (option unit)
| MPreflight (budget : Z) (creator : CreatorPubky) (operation_id binding : string) :
    MarketCall (option (result PersistenceError MarketplacePreparationPreflight))
| MReplay (budget : Z) (input : MarketplacePreparationInput) :
    MarketCall (option (result PersistenceError MarketplacePreparationResult))
| MValidateSession (budget : Z) (creator : CreatorPubky) : MarketCall (option (result SessionValidationError unit))
| MDiscover (budget : Z) (reader : ReaderPubky) :
    MarketCall (option (result RegistryDiscoveryError (option PaykitAppRegistry)))
| MRetryWait (budget : Z) (retry_index : nat) : MarketCall (option unit)
| MAuthorization (budget : Z) (reader : ReaderPubky) :
    MarketCall (option (result RegistryDiscoveryError ReaderAuthorization))
| MReceiving (budget : Z) (creator : CreatorPubky) : MarketCall (option (result PersistenceError ReceivingDetails))
| MUsdPerBtc (budget : Z) : MarketCall (option (result CreateInvoiceError string))
| MDatabaseTime (budget : Z) : MarketCall (option (result PersistenceError Z))
(* awaited without a timeout *)
| MPrepare (input : MarketplacePreparationInput) : MarketCall (result PersistenceError MarketplacePreparationResult).

Notation M A := (prog MarketCall A).

(** [remaining_at(started, ..)?] and then the call under the remaining budget. *)
Definition within {A B} (sv : PrepareMarketplaceService) (started : Z) (e : Z → MarketCall (option A))
    (k : A → M (result PrepareMarketplaceError B)) : M (result PrepareMarketplaceError B) :=
  now ⇐ call MNow;
  budget ←? Ret (market_remaining (ps_request_deadline sv) started now);
  answer ⇐ call (e budget);
  match answer with
  | None => Ret (Err PM_DeadlineExceeded)
  | Some a => k a
  end.

(** [more] reads are still allowed after this one, [retry_index] waits have been made. *)
Fixpoint market_discover (sv : PrepareMarketplaceService) (started : Z) (reader : ReaderPubky) (more retry_index : nat) :
    M (result PrepareMarketplaceError PaykitAppRegistry) :=
  within sv started (λ b, MDiscover b reader) (λ answer,
    match answer with
    | Ok (Some registry) => Ret (Ok registry)
    | Ok None =>
        match more with
        | O => Ret (Err PM_ReaderSetupPending)
        | S more => within sv started (λ b, MRetryWait b retry_index) (λ _,
                      market_discover sv started reader more (S retry_index))
        end
    | Err e => Ret (Err (prepare_map_registry e))
    end).

Definition market_authorized (a : ReaderAuthorization) : result PrepareMarketplaceError unit :=
  match a with
  | AuthVerified => Ok tt
  | AuthMissing => Err PM_ReaderSetupPending
  | AuthInvalid => Err PM_ReaderNotPayable
  end.

Definition window_cap (sv : PrepareMarketplaceService) (terms : MarketplaceTerms) : Z :=
  if crosses_bitcoin_rate terms then Z.min (ps_payment_window_cap sv) (ps_conversion_payment_window sv)
  else ps_payment_window_cap sv.

(** The terms, the price and the payloads of a request. *)
Definition market_quote (sv : PrepareMarketplaceService) (started : Z) (r : PrepareMarketplaceRequest)
    (filter : option (list AcceptedAsset)) (rd0 : ReceivingDetails) : M (result PrepareMarketplaceError MarketplacePayloads) :=
  let rd := offered_details filter (ps_usdt_enabled sv) rd0 in
  terms ←? Ret (map_err (λ _, refusal_without_rails filter (ps_usdt_enabled sv))
                  (MarketplaceTerms_new (rq_amount r) (rq_asset r) (offered_assets rd)));
  _ ←? Ret (ensure (rq_payment_window_seconds r <=? window_cap sv terms / NANOS_PER_SECOND) PM_PaymentWindowExceedsCap);
  price ←? (if crosses_bitcoin_rate terms then
              _ ←? Ret (ensure (ps_has_rates sv) PM_Unavailable);
              within sv started MUsdPerBtc (λ answer, Ret (map_err (λ _, PM_Unavailable) (Some <$> answer)))
            else Ret (Ok None));
  rates ←? Ret (map_err (λ _, PM_Unavailable)
                  (conversion_rates (mt_asset terms) (accepts terms Accept_Btc) (accepts terms Accept_Usdt) price));
  Ret (Ok (mk_MarketplacePayloads (rq_reader r) (rq_reference r) terms rates (rq_description r) (ps_app_id sv)
             (ps_bitcoin_network sv) rd)).

(** The input of the store for a request. *)
Definition market_input (sv : PrepareMarketplaceService) (r : PrepareMarketplaceRequest) (binding : string)
    (deadline : option Z) (payloads : PayloadFactory) : MarketplacePreparationInput :=
  mk_MarketplacePreparationInput (rq_creator r) (rq_reader r) (rq_reference r) (rq_operation_id r) binding
    (rq_amount r) (rq_asset r) (rq_payment_window_seconds r) (ps_prepare_ttl sv / NANOS_PER_SECOND) deadline payloads.

(** [Duration::try_from(ttl).ok().and_then(|ttl| accepted_at.checked_add(ttl))] *)
Definition prepare_deadline (sv : PrepareMarketplaceService) (accepted_at : Z) : option Z :=
  ttl ← duration_try_from (ps_prepare_ttl sv); checked_add_nanos accepted_at ttl.

(** From a new request to its transaction. *)
Definition market_admission (sv : PrepareMarketplaceService) (started : Z) (r : PrepareMarketplaceRequest)
    (filter : option (list AcceptedAsset)) (binding : string) :
    M (result PrepareMarketplaceError MarketplacePreparationResult) :=
  _ ←? Ret (validate_request sv r);
  _ ←? within sv started (λ b, MValidateSession b (rq_creator r)) (λ a, Ret (map_err prepare_map_session a));
  registry ←? market_discover sv started (rq_reader r) (REGISTRY_READ_ATTEMPTS - 1) 0;
  _ ←? Ret (ensure (reader_is_capable registry) PM_ReaderNotPayable);
  authorization ←? within sv started (λ b, MAuthorization b (rq_reader r))
                     (λ a, Ret (map_err prepare_map_registry a));
  _ ←? Ret (market_authorized authorization);
  receiving ←? within sv started (λ b, MReceiving b (rq_creator r)) (λ a, Ret (map_err prepare_map_store a));
  payloads ←? market_quote sv started r filter receiving;
  accepted_at ←? within sv started MDatabaseTime (λ a, Ret (map_err prepare_map_store a));
  deadline ←? Ret (ok_or (prepare_deadline sv accepted_at) PM_Unavailable);
  now ⇐ call MNow;
  _ ←? Ret (market_remaining (ps_request_deadline sv) started now);
  answer ⇐ call (MPrepare (market_input sv r binding (Some deadline) (market_payloads payloads)));
  result ←? Ret (map_err prepare_map_store answer);
  late ⇐ call MNow;
  Ret (ensure (Z.max 0 (late - started) <? ps_request_deadline sv) PM_DeadlineExceeded;; Ok result).

Definition market_prepare_service (sv : PrepareMarketplaceService) (r : PrepareMarketplaceRequest) :
    M (result PrepareMarketplaceError MarketplacePreparationResult) :=
  started ⇐ call MNow;
  filter ←? Ret (normalized_filter (rq_accepted_assets r));
  _ ←? Ret (ensure (negb (rq_amount r =? 0)) PM_InvalidRequest);
  binding ←? Ret (prepare_binding r filter);
  within sv started (λ b, MLock b (rq_creator r) (rq_operation_id r)) (λ _,
    within sv started (λ b, MPreflight b (rq_creator r) (rq_operation_id r) binding) (λ answer,
      match answer with
      | Err e => Ret (Err (prepare_map_store e))
      | Ok MP_ExactReplay =>
          within sv started (λ b, MReplay b (market_input sv r binding None replay_only))
            (λ a, Ret (map_err prepare_map_store a))
      | Ok MP_Conflict => Ret (Err PM_Conflict)
      | Ok MP_New => market_admission sv started r filter binding
      end)).
End service.

(** ** The lifecycle service *)

Inductive MarketplaceLifecycleError :=
| LE_InvalidRequest
| LE_PrepareExpired
| LE_LifecycleTerminal
| LE_InvoiceActive
| LE_TotalMismatch
| LE_ResolutionConflict
| LE_NotFound
| LE_Unavailable
| LE_Internal.

Definition lifecycle_map_store (e : MarketplaceLifecyclePersistenceError) : MarketplaceLifecycleError :=
  match e with
  | ML_PrepareExpired => LE_PrepareExpired
  | ML_LifecycleTerminal => LE_LifecycleTerminal
  | ML_InvoiceActive => LE_InvoiceActive
  | ML_TotalMismatch => LE_TotalMismatch
  | ML_ResolutionConflict => LE_ResolutionConflict
  | ML_Persistence PE_InvalidInput => LE_InvalidRequest
  | ML_Persistence (PE_Unavailable | PE_DeadlineElapsed) => LE_Unavailable
  | ML_Persistence (PE_DeploymentMismatch | PE_CorruptOrMissing | PE_ReauthenticationMismatch | PE_Conflict) => LE_Internal
  end.

(** A store's answer, where a missing row is [NotFound]. *)
Definition found {A} (r : result MarketplaceLifecyclePersistenceError (option A * MarketDb)) :
    result MarketplaceLifecycleError (A * MarketDb) :=
  '(answer, md) ← map_err lifecycle_map_store r;
  a ← ok_or answer LE_NotFound;
  Ok (a, md).

Section lifecycle.
Context {core : LocksCore} {lib : PaykitLib}.
Context {prim : CryptoPrimitives} {allocation : AllocationCodec} {observations : ObservationCodec}
  {codec : PreparationCodec} (crypto : Crypto).
Context (to_bytes : DeliveryIntentV1 → option string).
Context {Json : Type} (json_from_str : string → option Json)
  (json_value : Json → option string) (json_is_object : Json → list (string * string) → bool).
Context (format_rfc3339 : Z → option string).

Record ActivateMarketplaceRequest := mk_ActivateMarketplaceRequest {
  aq_creator : CreatorPubky;
  aq_invoice_id : RowId;
  aq_amount : Z;
  aq_asset : CriterionAsset;
}.

Definition service_activate (md : MarketDb) (window : Z) (r : ActivateMarketplaceRequest) (fresh : ActivationFresh) (now : Z) :
    result MarketplaceLifecycleError (MarketplaceActivationResult * MarketDb) :=
  ensure (negb ((aq_amount r =? 0) || (window =? 0))) LE_InvalidRequest;;
  found (market_activate crypto to_bytes json_from_str json_value json_is_object format_rfc3339 md
           (mk_MarketplaceActivationInput (aq_creator r) (aq_invoice_id r) (aq_amount r) (aq_asset r) window) fresh now).

Definition service_void (md : MarketDb) (creator : CreatorPubky) (id : RowId) (now : Z) :
    result MarketplaceLifecycleError (MarketplaceVoidResult * MarketDb) :=
  found (market_void crypto json_from_str json_value json_is_object md creator id now).

Definition service_resolve (md : MarketDb) (creator : CreatorPubky) (id : RowId)
    (outcome : MarketplaceResolutionOutcome) (now : Z) :
    result MarketplaceLifecycleError (MarketplaceResolutionResult * MarketDb) :=
  found (market_resolve crypto json_from_str json_value json_is_object md creator id outcome now).
End lifecycle.
