(* ===== verification/MarketRoutes.v ===== *)
(** * MarketRoutes: the Marketplace routes
    ([http/marketplace_terms.rs], [http/marketplace_preparation.rs], [http/marketplace_lifecycle.rs],
    [http/marketplace_status.rs])

    Bodies are parsed into requests, the service's answer into a response; every failure is
    one [ApiError].  Deserialisation of the JSON text is the framework's. *)

From S2P Require Import Prelude Text Effects Api Locks Invoice Receiving Payment Lifecycle Pricing Intent Readers Database OutboxStore CreateInvoice PaymentRecord Crypto Observations Settlement LifecycleStore Drains DrainProps Status Creators Allocation Allocated AllocationProps Targets Provider MarketTerms MarketStore MarketObserve MarketStatus MarketService Sorting.
Local Open Scope string_scope.
Local Open Scope Z_scope.

Definition parse_amount (value : string) : result ApiError Z :=
  map_err (λ _, Api_InvalidRequest) (terms_parse_amount value).

Definition parse_asset (value : string) : result ApiError CriterionAsset :=
  map_err (λ _, Api_InvalidRequest) (CriterionAsset_parse value).

Definition parse_accepted_assets (values : list string) : result ApiError (list AcceptedAsset) :=
  collect (λ value, map_err (λ _, Api_InvalidRequest) (AcceptedAsset_parse value)) values.

Record TermsResponse := mk_TermsResponse {
  tr_amount : string;
  tr_asset : string;
  tr_accepted_assets : list string;
  tr_payment_amounts : gmap string string;
}.

Definition amounts_response (amounts : list (AcceptedAsset * Z)) : gmap string string :=
  list_to_map ((λ p : AcceptedAsset * Z, (accepted_as_str p.1, fmt_dec p.2)) <$> reverse amounts).

Definition TermsResponse_new (terms : MarketplaceTerms) (quote : MarketplaceQuote) : TermsResponse :=
  mk_TermsResponse (fmt_dec (mt_amount terms)) (as_str (mt_asset terms)) (accepted_as_str <$> mt_accepted_assets terms)
    (amounts_response (mq_payment_amounts quote)).

Definition rates_response (quote : MarketplaceQuote) : gmap string string :=
  list_to_map ((λ p : AcceptedAsset * string, (accepted_as_str p.1, p.2)) <$> reverse (mq_rates quote)).

Record PrepareBody := mk_PrepareBody {
  bd_creator : string;
  bd_reader : string;
  bd_reference : string;
  bd_amount : string;
  bd_asset : string;
  bd_accepted_assets : option (list string);
  bd_operation_id : string;
  bd_payment_window_seconds : Z;
  bd_description : option string;
}.

Record PrepareResponse := mk_PrepareResponse {
  po_invoice_id : string;
  po_state : string;
  po_terms : TermsResponse;
  po_rates : gmap string string;
  po_prepare_expires_at : string;
}.

Record ActivateResponse := mk_ActivateResponse {
  ao_invoice_id : string;
  ao_state : string;
  ao_activated_at : string;
  ao_payment_deadline : string;
  ao_terms : TermsResponse;
}.

Definition prepare_map_error (e : PrepareMarketplaceError) : ApiError :=
  match e with
  | PM_InvalidRequest => Api_InvalidRequest
  | PM_Conflict => Api_OperationConflict
  | PM_CreatorSessionInvalid => Api_CreatorSessionInvalid
  | PM_CreatorSessionUnavailable => Api_CreatorSessionUnavailable
  | PM_ReaderSetupPending => Api_ReaderSetupPending
  | PM_ReaderNotPayable => Api_ReaderNotPayable
  | PM_ReaderRegistryUnavailable => Api_ReaderRegistryUnavailable
  | PM_ReaderRegistryMalformed => Api_ReaderRegistryMalformed
  | PM_SellerSetupPending Rails_Bitcoin => Api_SellerSetupPending
  | PM_SellerSetupPending Rails_Usdt => Api_SellerUsdtSetupPending
  | PM_SellerSetupPending Rails_BitcoinAndUsdt => Api_SellerBitcoinAndUsdtSetupPending
  | PM_AssetUnsupported => Api_AssetUnsupported
  | PM_PaymentWindowExceedsCap => Api_PaymentWindowExceedsCap
  | PM_DeadlineExceeded => Api_DependencyTimeout
  | PM_Unavailable => Api_DependencyUnavailable
  end.

Definition lifecycle_map_error (e : MarketplaceLifecycleError) : ApiError :=
  match e with
  | LE_InvalidRequest => Api_InvalidRequest
  | LE_PrepareExpired => Api_PrepareExpired
  | LE_LifecycleTerminal => Api_LifecycleTerminal
  | LE_InvoiceActive => Api_InvoiceActive
  | LE_TotalMismatch => Api_TotalMismatch
  | LE_ResolutionConflict => Api_ResolutionConflict
  | LE_NotFound => Api_InvoiceNotFound
  | LE_Unavailable => Api_DependencyUnavailable
  | LE_Internal => Api_InternalError
  end.

Definition status_map_error (e : MarketplaceStatusError) : ApiError :=
  match e with
  | MS_Conflict => Api_Conflict
  | MS_Unavailable => Api_Unavailable
  | MS_RecoveryRequired => Api_RecoveryRequired
  | MS_InvalidConflict => Api_InvalidConflict
  end.

Record BitcoinResponse := mk_BitcoinResponse {
  br_txid : string;
  br_observed_sats : Z;
  br_confirmations : Z;
  br_amount_matched : bool;
  br_paid_on_time : bool;
}.

Definition bitcoin_response (b : MarketplaceBitcoinStatus) : BitcoinResponse :=
  mk_BitcoinResponse (bs_txid b) (bs_observed_sats b) (bs_confirmations b) (bs_amount_matched b) (bs_paid_on_time b).

Record UsdtResponse := mk_UsdtResponse {
  ur_tx_hash : string;
  ur_observed_amount : string;
  ur_confirmations : Z;
  ur_amount_matched : bool;
  ur_paid_on_time : bool;
  ur_finalized : bool;
}.

Definition usdt_response (u : MarketplaceUsdtStatus) : UsdtResponse :=
  mk_UsdtResponse (ut_tx_hash u) (fmt_dec (ut_observed_amount u)) (ut_confirmations u) (ut_amount_matched u)
    (ut_paid_on_time u) (ut_finalized u).

Record MarketStatusResponse := mk_MarketStatusResponse {
  so_invoice_id : string;
  so_state : string;
  so_proposal_delivery_state : string;
  so_request_state : option string;
  so_payment_state : option string;
  so_activated_at : option string;
  so_payment_deadline : option string;
  so_accepted_assets : list string;
  so_payment_amounts : gmap string string;
  so_bitcoin : option BitcoinResponse;
  so_usdt_arbitrum : option UsdtResponse;
  so_paid_asset : option string;
  so_outcome : option string;
  so_resolved_at : option string;
}.

Section routes.
Context {core : LocksCore} {lib : PaykitLib} {bip32 : Bip32}.
Context {prim : CryptoPrimitives} {allocation : AllocationCodec} {observations : ObservationCodec}
  {codec : PreparationCodec} (crypto : Crypto).
Context (to_bytes : DeliveryIntentV1 → option string).
Context {Json : Type} (json_from_str : string → option Json)
  (json_value : Json → option string) (json_is_object : Json → list (string * string) → bool).
Context (format_rfc3339 : Z → option string) (collate : string → string → comparison).
Context (canonical_json : BindingJson → option string)
  (json_object : list (string * string) → string) (metadata_object : list (string * string) → Metadata).
(** The 128 bits of a [Uuid], and the hyphenated text of such bits. *)
Context (uuid_row : Uuid → RowId) (row_hyphenated : RowId → string).

Definition parse_uuid (value : string) : result ApiError RowId :=
  parsed ← ok_or (uuid_parse value) Api_InvalidRequest;
  ensure (negb (negb (uuid_version parsed =? 4) || negb (uuid_is_rfc4122 parsed)
                || negb (String.eqb (uuid_hyphenated parsed) value))) Api_InvalidRequest;;
  Ok (uuid_row parsed).

Definition api_creator (value : string) : result ApiError CreatorPubky :=
  map_err (λ _, Api_InvalidRequest) (parse_creator value).

(** ** Prepare *)

Definition parse_prepare (body : PrepareBody) : result ApiError PrepareMarketplaceRequest :=
  creator ← api_creator (bd_creator body);
  reader ← map_err (λ _, Api_InvalidRequest) (parse_reader (bd_reader body));
  amount ← parse_amount (bd_amount body);
  asset ← parse_asset (bd_asset body);
  accepted ← transpose (parse_accepted_assets <$> bd_accepted_assets body);
  Ok (mk_PrepareMarketplaceRequest creator reader (bd_reference body) amount asset accepted (bd_operation_id body)
        (bd_payment_window_seconds body) (bd_description body)).

Definition prepare_response (r : MarketplacePreparationResult) : result ApiError PrepareResponse :=
  expires ← ok_or (format_rfc3339 (mr_prepare_expires_at r)) Api_InternalError;
  Ok (mk_PrepareResponse (row_hyphenated (mr_invoice_id r)) "prepared" (TermsResponse_new (mr_terms r) (mr_quote r))
        (rates_response (mr_quote r)) expires).

Definition http_prepare (sv : PrepareMarketplaceService) (body : PrepareBody) :
    prog MarketCall (result ApiError PrepareResponse) :=
  request ←? Ret (parse_prepare body);
  answer ⇐ market_prepare_service canonical_json json_object metadata_object sv request;
  Ret (r ← map_err prepare_map_error answer; prepare_response r).

(** ** Activate, void, resolve *)

Definition parse_activate (creator invoice_id amount asset : string) : result ApiError ActivateMarketplaceRequest :=
  creator ← api_creator creator;
  id ← parse_uuid invoice_id;
  amount ← parse_amount amount;
  asset ← parse_asset asset;
  Ok (mk_ActivateMarketplaceRequest creator id amount asset).

(** A route: the response, and the tables after it; a committed answer that cannot be
    written out is still committed. *)
Definition respond {A B} (md : MarketDb) (r : result ApiError (A * MarketDb)) (response : A → result ApiError B) :
    result ApiError B * MarketDb :=
  match r with Ok (a, md') => (response a, md') | Err e => (Err e, md) end.

Definition activate_response (r : MarketplaceActivationResult) : result ApiError ActivateResponse :=
  activated ← ok_or (format_rfc3339 (mx_activated_at r)) Api_InternalError;
  deadline ← ok_or (format_rfc3339 (mx_payment_deadline r)) Api_InternalError;
  Ok (mk_ActivateResponse (row_hyphenated (mx_invoice_id r)) "active" activated deadline
        (TermsResponse_new (mx_terms r) (mx_quote r))).

Definition http_activate (md : MarketDb) (window : Z) (creator invoice_id amount asset : string)
    (fresh : ActivationFresh) (now : Z) : result ApiError ActivateResponse * MarketDb :=
  respond md (request ← parse_activate creator invoice_id amount asset;
              map_err lifecycle_map_error
                (service_activate crypto to_bytes json_from_str json_value json_is_object format_rfc3339 md window request
                   fresh now)) activate_response.

Definition http_void (md : MarketDb) (creator invoice_id : string) (now : Z) :
    result ApiError (string * string * string) * MarketDb :=
  respond md (creator ← api_creator creator;
              id ← parse_uuid invoice_id;
              map_err lifecycle_map_error (service_void crypto json_from_str json_value json_is_object md creator id now))
    (λ r, voided_at ← ok_or (format_rfc3339 (mv_voided_at r)) Api_InternalError;
          Ok (row_hyphenated (mv_invoice_id r), "voided", voided_at)).

Definition http_resolve (md : MarketDb) (creator invoice_id outcome : string) (now : Z) :
    result ApiError (string * string * string) * MarketDb :=
  respond md (creator ← api_creator creator;
              id ← parse_uuid invoice_id;
              outcome ← ok_or (outcome_parse outcome) Api_InvalidRequest;
              map_err lifecycle_map_error
                (service_resolve crypto json_from_str json_value json_is_object md creator id outcome now))
    (λ r, resolved_at ← ok_or (format_rfc3339 (mz_resolved_at r)) Api_InternalError;
          Ok (row_hyphenated (mz_invoice_id r), outcome_as_str (mz_outcome r), resolved_at)).

(** ** Status *)

Definition format_optional (value : option Z) : result ApiError (option string) :=
  transpose ((λ t, ok_or (format_rfc3339 t) Api_Unavailable) <$> value).

Definition market_status_response (s : MarketplaceInvoiceStatus) : result ApiError MarketStatusResponse :=
  activated_at ← format_optional (ms_activated_at s);
  payment_deadline ← format_optional (ms_payment_deadline s);
  resolved_at ← format_optional (ms_resolved_at s);
  Ok (mk_MarketStatusResponse (row_hyphenated (ms_invoice_id s)) (ms_state s) (ms_proposal_delivery_state s)
        (ms_request_state s) (ms_payment_state s) activated_at payment_deadline
        (accepted_as_str <$> ms_accepted_assets s) (amounts_response (ms_payment_amounts s))
        (bitcoin_response <$> ms_bitcoin s) (usdt_response <$> ms_usdt_arbitrum s)
        (accepted_as_str <$> ms_paid_asset s) (ms_outcome s) resolved_at).

Definition http_market_status (md : MarketDb) (has_query : bool) (creator invoice_id : string) (now : Z) :
    result ApiError MarketStatusResponse :=
  ensure (negb has_query) Api_InvalidRequest;;
  creator ← api_creator creator;
  id ← parse_uuid invoice_id;
  status ← map_err status_map_error
    (market_status crypto json_from_str json_value json_is_object collate md creator id now);
  found ← ok_or status Api_InvoiceNotFound;
  market_status_response found.
End routes.
