(* ===== verification/MarketProps.v ===== *)
(** * MarketProps: the lifecycle of a Marketplace invoice

    The transactions of [MarketStore] and [MarketObserve] as steps of one system, next to
    any step of the other stores that leaves the Marketplace tables alone, the invariant
    of the tables, and the abstract lifecycle the steps implement. *)

From S2P Require Import Prelude Text Locks Invoice Receiving Payment Lifecycle Pricing Intent Readers Database OutboxStore CreateInvoice PaymentRecord Crypto Observations Settlement LifecycleStore Drains DrainProps Status Creators Allocation Allocated Provider MarketTerms MarketStore MarketObserve Sorting.
Local Open Scope string_scope.
Local Open Scope Z_scope.

(** ** Rows *)

Lemma preparation_some md id p :
  preparation md id = Some p ↔
  ld_preparation_creators (mm_life md) !! id = Some (pp_creator_id p)
  ∧ preparations (mm_db md) !! id = Some (mk_PreparationRow (pp_state p) (pp_payment_deadline p))
  ∧ mm_preparations md !! id = Some (pp_columns p).
Proof.
  unfold preparation. destruct (ld_preparation_creators (mm_life md) !! id) as [c|]; simpl; [|naive_solver].
  destruct (preparations (mm_db md) !! id) as [[st dl]|]; simpl; [|naive_solver].
  destruct (mm_preparations md !! id) as [cols|]; simpl; [|naive_solver].
  split; [by intros [= <-]|]. destruct p; simpl. naive_solver.
Qed.

Lemma settlement_some md id owner s :
  settlement md id = Some (owner, s) ↔
  ld_settlements (mm_life md) !! id = Some owner ∧ mm_settlements md !! id = Some s.
Proof.
  unfold settlement. destruct (ld_settlements (mm_life md) !! id); simpl; [|naive_solver].
  destruct (mm_settlements md !! id); simpl; naive_solver.
Qed.

Lemma preparation_put md id p i :
  preparation (put_preparation md id p) i = if decide (i = id) then Some p else preparation md i.
Proof.
  unfold preparation, put_preparation, mm_life, mm_db, ac_db, dd_db. simpl. case_decide as Hi.
  - subst i. rewrite !lookup_insert_eq. simpl. by destruct p.
  - by rewrite !lookup_insert_ne by done.
Qed.

Lemma stored_hash_ok bytes hash :
  stored_lookup_hash bytes = Ok hash ↔ bytes = hash ∧ String.length bytes = 32%nat.
Proof.
  unfold stored_lookup_hash, ensure. destruct (Nat.eqb _ _) eqn:E; simpl.
  - apply Nat.eqb_eq in E. naive_solver.
  - apply Nat.eqb_neq in E. naive_solver.
Qed.

(** [count_rows] counts the selected rows. *)
Lemma count_rows_insert {V} (p : RowId → V → bool) (t : gmap RowId V) k v :
  t !! k = None → count_rows p (<[k := v]> t) = ((if p k v then 1 else 0) + count_rows p t)%nat.
Proof.
  intros Hk. unfold count_rows. rewrite (map_to_list_insert t k v Hk). destruct (p k v) eqn:E.
  - rewrite filter_cons_True; [done|]. simpl. by rewrite E.
  - rewrite filter_cons_False; [done|]. simpl. rewrite E. by intros [].
Qed.

Lemma count_rows_zero {V} (p : RowId → V → bool) (t : gmap RowId V) :
  (∀ k v, t !! k = Some v → p k v = false) → count_rows p t = 0%nat.
Proof.
  intros H. unfold count_rows. destruct (filter _ _) as [|[k v] l] eqn:E; [done|].
  assert ((k, v) ∈ filter (λ kv, Is_true (p kv.1 kv.2)) (map_to_list t)) as Hin by (rewrite E; by left).
  apply list_elem_of_filter in Hin as [Hp Hin%elem_of_map_to_list]. simpl in Hp. by rewrite (H k v Hin) in Hp.
Qed.

Lemma count_rows_positive {V} (p : RowId → V → bool) (t : gmap RowId V) k v :
  t !! k = Some v → p k v = true → (0 < count_rows p t)%nat.
Proof.
  intros Hk Hp. unfold count_rows.
  assert ((k, v) ∈ filter (λ kv, Is_true (p kv.1 kv.2)) (map_to_list t)) as Hin.
  { apply list_elem_of_filter. split; [by apply Is_true_true|by apply elem_of_map_to_list]. }
  destruct (filter _ _); [by apply not_elem_of_nil in Hin|simpl; lia].
Qed.

(** Rows that keep the columns a count reads and new rows it does not select leave it. *)
Lemma count_rows_kept {V K} (key : V → K) (p : RowId → V → bool) (t t' : gmap RowId V) :
  (∀ k v v', key v = key v' → p k v = p k v') →
  (∀ k v, t !! k = Some v → ∃ v', t' !! k = Some v' ∧ key v' = key v) →
  (∀ k v, t' !! k = Some v → t !! k = None → p k v = false) →
  count_rows p t' = count_rows p t.
Proof.
  intros Hp Hkeep Hnew. unfold count_rows.
  assert (∀ u : gmap RowId V, length (filter (λ kv, Is_true (p kv.1 kv.2)) (map_to_list u))
                              = size (filter (λ kv, Is_true (p kv.1 kv.2)) u)) as Hsize.
  { intros u. rewrite <- length_map_to_list. apply Permutation_length, NoDup_Permutation.
    - apply NoDup_filter, NoDup_map_to_list.
    - apply NoDup_map_to_list.
    - intros [k v]. rewrite list_elem_of_filter, !elem_of_map_to_list, map_lookup_filter_Some. tauto. }
  rewrite !Hsize. rewrite <- (map_size_fmap key (filter _ t')), <- (map_size_fmap key (filter _ t)). f_equal.
  apply map_eq. intros k. apply option_eq. intros x. rewrite !lookup_fmap, !fmap_Some. split.
  - intros (v' & [Hv' Hpv]%map_lookup_filter_Some & ->). destruct (t !! k) as [v|] eqn:Hv.
    + destruct (Hkeep _ _ Hv) as (w & Hw & Hkey). assert (w = v') as -> by congruence.
      exists v. split; [|done]. apply map_lookup_filter_Some. simpl in *. by rewrite (Hp k v v' (eq_sym Hkey)).
    + simpl in Hpv. by rewrite (Hnew _ _ Hv' Hv) in Hpv.
  - intros (v & [Hv Hpv]%map_lookup_filter_Some & ->). destruct (Hkeep _ _ Hv) as (v' & Hv' & Hkey).
    exists v'. split; [|done]. apply map_lookup_filter_Some. simpl in *. by rewrite (Hp k v' v Hkey).
Qed.

(** ** The invariant of the tables *)

(** The proposals of a preparation that its creator queued, as the replay counts them. *)
Definition proposals (md : MarketDb) (id owner : RowId) : nat :=
  count_rows (λ _ r, market_proposal id r && bool_decide (o_creator_id (o_key r) = owner)) (outbox (mm_db md)).

Record market_wf (md : MarketDb) : Prop := {
  mw_creators : ∀ i j hash, creators (mm_db md) !! i = Some hash → creators (mm_db md) !! j = Some hash → i = j;
  mw_rows : ∀ id c, mm_preparations md !! id = Some c → ∃ p, preparation md id = Some p;
  mw_check : ∀ id p, preparation md id = Some p → preparation_check p = true;
  mw_operation : ∀ id id' p p', preparation md id = Some p → preparation md id' = Some p' →
    pp_creator_id p = pp_creator_id p' →
    pn_operation_lookup_hash (pp_columns p) = pn_operation_lookup_hash (pp_columns p') → id = id';
  mw_settlement : ∀ id s, mm_settlements md !! id = Some s →
    ∃ p, preparation md id = Some p ∧ pp_state p = Active ∧ settlement md id = Some (pp_creator_id p, s);
  mw_active : ∀ id p, preparation md id = Some p → pp_state p = Active → is_Some (mm_settlements md !! id);
  mw_proposal : ∀ id rid r, outbox (mm_db md) !! rid = Some r → market_proposal id r = true →
    ∃ p, preparation md id = Some p ∧ pp_state p = Active;
  mw_published : ∀ id p, preparation md id = Some p → pp_state p = Active → proposals md id (pp_creator_id p) = 1%nat;
}.

(** ** Steps that leave the lifecycle alone *)

(** What no observation changes of a settlement. *)
Definition sealed_columns (s : SettlementColumns) : string * option string * string :=
  (se_payment_record_envelope s, se_address_lookup_hash s, se_derivation_index_lookup_hash s).

Record market_frame (md md' : MarketDb) : Prop := {
  fr_columns : mm_preparations md' = mm_preparations md;
  fr_preparation : ∀ id, preparation md' id = preparation md id;
  fr_owners : ld_settlements (mm_life md') = ld_settlements (mm_life md);
  fr_settlements : sealed_columns <$> mm_settlements md' = sealed_columns <$> mm_settlements md;
  fr_creators : creators (mm_db md) ⊆ creators (mm_db md');
  fr_hashes : ∀ i j hash, creators (mm_db md') !! i = Some hash → creators (mm_db md') !! j = Some hash → i = j;
  fr_accounts : ∀ id c, ac_creators (mm_ac md) !! id = Some c →
    ∃ c', ac_creators (mm_ac md') !! id = Some c' ∧ cc_next_child_index c <= cc_next_child_index c';
  fr_keys : ∀ rid r, outbox (mm_db md) !! rid = Some r → ∃ r', outbox (mm_db md') !! rid = Some r' ∧ o_key r' = o_key r;
  fr_new : ∀ rid r, outbox (mm_db md') !! rid = Some r → outbox (mm_db md) !! rid = None →
    ∀ id, market_proposal id r = false;
}.

Lemma frame_refl md : market_wf md → market_frame md md.
Proof.
  intros Hwf. split; try done; [by apply mw_creators|by intros id c; exists c|by intros rid r; exists r|].
  intros rid r H1 H2. congruence.
Qed.

Lemma market_proposal_key id r r' : o_key r = o_key r' → market_proposal id r = market_proposal id r'.
Proof. unfold market_proposal. by intros ->. Qed.

Lemma frame_proposals md md' id owner : market_frame md md' → proposals md' id owner = proposals md id owner.
Proof.
  intros H. unfold proposals. apply (count_rows_kept o_key).
  - intros _ r r' Hk. by rewrite (market_proposal_key id r r' Hk), Hk.
  - apply (fr_keys _ _ H).
  - intros rid r Hr Hn. by rewrite (fr_new _ _ H _ _ Hr Hn id).
Qed.

Lemma frame_settlement md md' id s' :
  market_frame md md' → mm_settlements md' !! id = Some s' →
  ∃ s, mm_settlements md !! id = Some s ∧ sealed_columns s = sealed_columns s'.
Proof.
  intros H Hs. assert ((sealed_columns <$> mm_settlements md') !! id = Some (sealed_columns s')) as Hl
    by (by rewrite lookup_fmap, Hs).
  rewrite (fr_settlements _ _ H), lookup_fmap in Hl. destruct (mm_settlements md !! id) as [s|]; [|done].
  exists s. split; [done|]. cbn in Hl. congruence.
Qed.

Lemma frame_settled md md' id :
  market_frame md md' → is_Some (mm_settlements md' !! id) ↔ is_Some (mm_settlements md !! id).
Proof.
  intros H. rewrite <- (fmap_is_Some sealed_columns), <- lookup_fmap, (fr_settlements _ _ H), lookup_fmap.
  apply fmap_is_Some.
Qed.

Lemma frame_wf md md' : market_frame md md' → market_wf md → market_wf md'.
Proof.
  intros F W. pose proof (fr_preparation _ _ F) as Hp. split.
  - apply (fr_hashes _ _ F).
  - intros id c Hc. rewrite (fr_columns _ _ F) in Hc. rewrite Hp. by apply (mw_rows _ W id c).
  - intros id p. rewrite Hp. apply (mw_check _ W).
  - intros id id' p p'. rewrite !Hp. apply (mw_operation _ W).
  - intros id s' Hs'. destruct (frame_settlement _ _ _ _ F Hs') as (s & Hs & _).
    destruct (mw_settlement _ W _ _ Hs) as (p & Hpr & Hst & [Ho _]%settlement_some). exists p. rewrite Hp.
    split_and!; [done..|]. apply settlement_some. by rewrite (fr_owners _ _ F).
  - intros id p. rewrite Hp, (frame_settled _ _ _ F). apply (mw_active _ W).
  - intros id rid r Hr Hm. rewrite Hp. destruct (outbox (mm_db md) !! rid) as [r0|] eqn:E.
    + destruct (fr_keys _ _ F _ _ E) as (r' & Hr' & Hk). assert (r' = r) as -> by congruence.
      apply (mw_proposal _ W id rid r0 E). by rewrite (market_proposal_key id r0 r).
    + by rewrite (fr_new _ _ F _ _ Hr E id) in Hm.
  - intros id p. rewrite Hp, (frame_proposals _ _ _ _ F). apply (mw_published _ W).
Qed.

(** ** Observations *)

(** What the observers leave alone. *)
Record observes (md md' : MarketDb) : Prop := {
  os_columns : mm_preparations md' = mm_preparations md;
  os_life : mm_life md' = mm_life md;
  os_accounts : ac_creators (mm_ac md') = ac_creators (mm_ac md);
  os_settlements : sealed_columns <$> mm_settlements md' = sealed_columns <$> mm_settlements md;
}.

#[global] Instance observes_preorder : PreOrder observes.
Proof. split; [by split|]. intros a b c [] []. split; congruence. Qed.

Lemma observes_db md md' : observes md md' → mm_db md' = mm_db md.
Proof. intros H. unfold mm_db, ac_db, dd_db. by rewrite (f_equal ld_db (os_life _ _ H) : ld_db (dd_life _) = _). Qed.

Lemma observes_preparation md md' id : observes md md' → preparation md' id = preparation md id.
Proof. intros H. unfold preparation. by rewrite (os_life _ _ H), (observes_db _ _ H), (os_columns _ _ H). Qed.

Lemma observes_frame md md' : market_wf md → observes md md' → market_frame md md'.
Proof.
  intros W H. pose proof (observes_db _ _ H) as Hdb. split; rewrite ?Hdb, ?(os_accounts _ _ H).
  - apply (os_columns _ _ H).
  - intros id. by apply observes_preparation.
  - by rewrite (os_life _ _ H).
  - apply (os_settlements _ _ H).
  - done.
  - apply (mw_creators _ W).
  - intros id c Hc. by exists c.
  - intros rid r Hr. by exists r.
  - intros rid r H1 H2. congruence.
Qed.

Lemma set_mm_pay_observes md pay : observes md (set_mm_pay md pay).
Proof. by split. Qed.

Lemma set_mm_timely_observes md t : observes md (set_mm_timely md t).
Proof. by split. Qed.

Lemma update_settlement_observes md id f md' : update_settlement md id f = Ok md' → observes md md'.
Proof.
  unfold update_settlement. destruct (mm_settlements md !! id) as [s|] eqn:E; [|by intros [= <-]].
  intros H. apply bind_ok in H as ([] & _ & [= <-]). split; try done. simpl. rewrite fmap_insert.
  apply insert_id. by rewrite lookup_fmap, E.
Qed.

Lemma expire_overdue_observes md now : observes md (market_expire_overdue md now).
Proof.
  split; try done. simpl. apply map_eq. intros id. rewrite !lookup_fmap, map_lookup_imap.
  destruct (mm_settlements md !! id) as [s|]; [|done]. simpl. by destruct (market_expires md now id s).
Qed.

Section observers.
Context {core : LocksCore} {lib : PaykitLib}.
Context {prim : CryptoPrimitives} {observations : ObservationCodec} (crypto : Crypto).

Lemma write_market_observation_observes md fresh nonce id creator_hash outpoint sats confirmations present replace
    matched existing observed_at deadline md' :
  write_market_observation crypto md fresh nonce id creator_hash outpoint sats confirmations present replace matched
    existing observed_at deadline = Ok md' → observes md md'.
Proof.
  unfold write_market_observation. cbv zeta. intros H. apply bind_ok in H as ([] & _ & H).
  apply bind_ok in H as (envelope & _ & H). apply bind_ok in H as ([affected pay] & _ & H).
  apply bind_ok in H as ([] & _ & H). apply bind_ok in H as (md1 & H1 & H%update_settlement_observes).
  etransitivity; [|exact H]. clear H. etransitivity; [apply (set_mm_pay_observes md pay)|].
  destruct (matched && _); [etransitivity; [apply (set_mm_timely_observes (set_mm_pay md pay))|]|].
  all: destruct matched; [by apply update_settlement_observes in H1|by injection H1 as <-].
Qed.

Lemma apply_observation_observes md fresh nonce input observed_at b md' :
  apply_marketplace_observation crypto md fresh nonce input observed_at = Ok (b, md') → observes md md'.
Proof.
  unfold apply_marketplace_observation. destruct (settlement_of_address _ _) as [[id [[stored p] s]]|]; [|by intros [= <- <-]].
  intros H. do 6 (apply bind_ok in H as (? & _ & H)). apply bind_ok in H as ([] & _ & H). cbv zeta in H.
  do 2 (apply bind_ok in H as (? & _ & H)). destruct (nothing_to_do _ _ _ _ _); [by injection H as <- <-|].
  apply bind_ok in H as (md1 & H1%write_market_observation_observes & [= <- <-]). done.
Qed.

Lemma apply_each_observes batch md observed_at applied n md' :
  market_apply_each crypto md batch observed_at applied = Ok (n, md') → observes md md'.
Proof.
  revert md applied. induction batch as [|[[fresh nonce] o] batch IH]; intros md applied H; [by injection H as <- <-|].
  simpl in H. apply bind_ok in H as ([hit md1] & H1%apply_observation_observes & H%IH). by etransitivity.
Qed.

Lemma apply_usdt_observes md fresh nonce id creator_hash transfer db_now b md' :
  market_apply_usdt crypto md fresh nonce id creator_hash transfer db_now = Ok (b, md') → observes md md'.
Proof.
  unfold market_apply_usdt. cbv zeta. intros H. apply bind_ok in H as ([] & _ & H).
  case_match; [by injection H as <- <-|]. apply bind_ok in H as (envelope & _ & H).
  do 2 (apply bind_ok in H as ([] & _ & H)). injection H as <- <-. apply set_mm_pay_observes.
Qed.

Lemma clear_usdt_observes md id hash db_now md' : market_clear_usdt md id hash db_now = Ok md' → observes md md'.
Proof.
  unfold market_clear_usdt. cbv zeta. intros H. apply bind_ok in H as ([] & _ & [= <-]). apply set_mm_pay_observes.
Qed.
End observers.

(** ** Writing one preparation *)

Record writes (md md' : MarketDb) (id : RowId) (p : Preparation) : Prop := {
  wr_preparation : ∀ i, preparation md' i = if decide (i = id) then Some p else preparation md i;
  wr_columns : mm_preparations md' = <[id := pp_columns p]> (mm_preparations md);
  wr_creators : creators (mm_db md') = creators (mm_db md);
  wr_accounts : ∀ i c, ac_creators (mm_ac md) !! i = Some c →
    ∃ c', ac_creators (mm_ac md') !! i = Some c' ∧ cc_next_child_index c <= cc_next_child_index c';
}.

Lemma put_writes md id p : writes md (put_preparation md id p) id p.
Proof. split; try done; [apply preparation_put|]. intros i c Hc. by exists c. Qed.

(** The rows of a written preparation obey the keys of the table. *)
Record row_ok (md : MarketDb) (id : RowId) (p : Preparation) : Prop := {
  ro_check : preparation_check p = true;
  ro_operation : ∀ i q, preparation md i = Some q → pp_creator_id q = pp_creator_id p →
    pn_operation_lookup_hash (pp_columns q) = pn_operation_lookup_hash (pp_columns p) → i = id;
  ro_creator : ∀ old, preparation md id = Some old → pp_creator_id p = pp_creator_id old;
}.

Lemma writes_rows md md' id p :
  market_wf md → writes md md' id p → row_ok md id p →
  (∀ i c, mm_preparations md' !! i = Some c → ∃ q, preparation md' i = Some q)
  ∧ (∀ i q, preparation md' i = Some q → preparation_check q = true)
  ∧ (∀ i i' q q', preparation md' i = Some q → preparation md' i' = Some q' →
       pp_creator_id q = pp_creator_id q' →
       pn_operation_lookup_hash (pp_columns q) = pn_operation_lookup_hash (pp_columns q') → i = i').
Proof.
  intros W Wr R. split_and!.
  - intros i c. rewrite (wr_columns _ _ _ _ Wr), (wr_preparation _ _ _ _ Wr). case_decide as Hi; [by eauto|].
    rewrite lookup_insert_ne by done. apply (mw_rows _ W).
  - intros i q. rewrite (wr_preparation _ _ _ _ Wr). case_decide; [intros [= <-]; apply R|apply (mw_check _ W)].
  - intros i i' q q'. rewrite !(wr_preparation _ _ _ _ Wr). repeat case_decide; subst; try done.
    + intros [= <-] Hq' Hc Ho. symmetry. by eapply ro_operation.
    + intros Hq [= <-] Hc Ho. by eapply ro_operation.
    + apply (mw_operation _ W).
Qed.

(** A write that does not activate keeps the settlements and the proposals. *)
Lemma writes_wf md md' id p :
  market_wf md → writes md md' id p → row_ok md id p →
  mm_settlements md' = mm_settlements md → ld_settlements (mm_life md') = ld_settlements (mm_life md) →
  outbox (mm_db md') = outbox (mm_db md) →
  (pp_state p = Active ↔ ∃ old, preparation md id = Some old ∧ pp_state old = Active) →
  market_wf md'.
Proof.
  intros W Wr R Hs Hl Ho Ha. destruct (writes_rows _ _ _ _ W Wr R) as (H1 & H2 & H3).
  pose proof (wr_preparation _ _ _ _ Wr) as Hp. split; try done; rewrite ?(wr_creators _ _ _ _ Wr), ?Ho.
  - apply (mw_creators _ W).
  - intros i s Hsi. rewrite Hs in Hsi. destruct (mw_settlement _ W _ _ Hsi) as (q & Hq & Hst & [Hown _]%settlement_some).
    rewrite Hp. case_decide as Hi; [subst i|]; [|exists q; split_and!; [done..|]].
    + exists p. assert (pp_state p = Active) by (apply Ha; by exists q). split_and!; [done..|].
      apply settlement_some. rewrite Hl, Hs, (ro_creator _ _ _ R _ Hq). done.
    + apply settlement_some. by rewrite Hl, Hs.
  - intros i q. rewrite Hp, Hs. case_decide; [|apply (mw_active _ W)]. intros [= <-] (old & Hold & Hst)%Ha. subst i.
    by apply (mw_active _ W _ old).
  - intros i rid r Hr Hm. destruct (mw_proposal _ W _ _ _ Hr Hm) as (q & Hq & Hst). rewrite Hp.
    case_decide; [subst i|by exists q]. exists p. split; [done|]. apply Ha. by exists q.
  - intros i q. rewrite Hp. unfold proposals. rewrite Ho. case_decide; [|apply (mw_published _ W)].
    intros [= <-] (old & Hold & Hst)%Ha. subst i. rewrite (ro_creator _ _ _ R _ Hold). by apply (mw_published _ W _ old).
Qed.

(** ** The statements *)

Lemma update_preparation_ok md id f old md' :
  preparation md id = Some old → update_preparation md id f = Ok md' →
  md' = put_preparation md id (f old) ∧ preparation_check (f old) = true
  ∧ (pp_state (f old) = Active ∨ mm_settlements md !! id = None)
  ∧ (pn_business_outcome (pp_columns old) = None
     ∨ pn_business_outcome (pp_columns (f old)) = pn_business_outcome (pp_columns old)
       ∧ pn_resolved_at (pp_columns (f old)) = pn_resolved_at (pp_columns old)).
Proof.
  intros Ho H. unfold update_preparation in H. rewrite Ho in H. cbv zeta in H.
  apply bind_ok in H as ([] & Hc%ensure_ok & [= <-]). apply andb_true_iff in Hc as [Hc H3].
  apply andb_true_iff in Hc as [H1 H2]. split_and!; [done..| |].
  - apply orb_true_iff in H2 as [?|?]; [left; by split_bools|right]. by destruct (mm_settlements md !! id).
  - apply orb_true_iff in H3 as [?|H3]; [left; by destruct (pn_business_outcome _)|right].
    apply andb_true_iff in H3 as [??]. by split_bools.
Qed.

(** The columns of an update that no operation changes. *)
Definition same_columns (p q : Preparation) : Prop :=
  pp_creator_id q = pp_creator_id p
  ∧ pn_operation_lookup_hash (pp_columns q) = pn_operation_lookup_hash (pp_columns p)
  ∧ pn_request_lookup_hash (pp_columns q) = pn_request_lookup_hash (pp_columns p)
  ∧ pn_reader_lookup_hash (pp_columns q) = pn_reader_lookup_hash (pp_columns p)
  ∧ pn_envelope (pp_columns q) = pn_envelope (pp_columns p)
  ∧ pn_prepared_at (pp_columns q) = pn_prepared_at (pp_columns p)
  ∧ pn_prepare_expires_at (pp_columns q) = pn_prepare_expires_at (pp_columns p).

#[global] Instance same_columns_preorder : PreOrder same_columns.
Proof. split; [by repeat split|]. unfold same_columns. intros p q r ? ?. naive_solver congruence. Qed.

Lemma same_columns_ok md id old new :
  market_wf md → preparation md id = Some old → same_columns old new → preparation_check new = true → row_ok md id new.
Proof.
  intros W Ho (Hc & Hop & _) Hcheck. split; [done| |].
  - intros i q Hq Hqc Hqo. rewrite Hc in Hqc. rewrite Hop in Hqo. by eapply (mw_operation _ W).
  - intros old' Ho'. congruence.
Qed.

Lemma update_wf md id f old md' :
  market_wf md → preparation md id = Some old → same_columns old (f old) →
  (pp_state (f old) = Active ↔ pp_state old = Active) →
  update_preparation md id f = Ok md' → market_wf md' ∧ writes md md' id (f old).
Proof.
  intros W Ho Hsame Hact H. apply update_preparation_ok with (old := old) in H as (-> & Hcheck & _); [|done].
  pose proof (put_writes md id (f old)) as Wr. split; [|done].
  apply (writes_wf _ _ _ _ W Wr); [by eapply same_columns_ok|done..|]. rewrite Hact. naive_solver.
Qed.

(** ** Activating *)

(** The rows an activation leaves: the preparation, its settlement and its proposal. *)
Record activates (md md' : MarketDb) (id : RowId) (new : Preparation) (s : SettlementColumns) (oid : RowId)
    (row : OutboxRow) : Prop := {
  av_writes : writes md md' id new;
  av_state : pp_state new = Active;
  av_no_settlement : mm_settlements md !! id = None;
  av_settlements : mm_settlements md' = <[id := s]> (mm_settlements md);
  av_owners : ld_settlements (mm_life md') = <[id := pp_creator_id new]> (ld_settlements (mm_life md));
  av_no_proposal : ∀ rid r, outbox (mm_db md) !! rid = Some r → market_proposal id r = false;
  av_no_row : outbox (mm_db md) !! oid = None;
  av_outbox : outbox (mm_db md') = <[oid := row]> (outbox (mm_db md));
  av_proposal : ∀ i, market_proposal i row = bool_decide (i = id);
  av_row_creator : o_creator_id (o_key row) = pp_creator_id new;
}.

Lemma activates_wf md md' id new s oid row :
  market_wf md → activates md md' id new s oid row → row_ok md id new → market_wf md'.
Proof.
  intros W A R. pose proof (av_writes _ _ _ _ _ _ _ A) as Wr. destruct (writes_rows _ _ _ _ W Wr R) as (H1 & H2 & H3).
  pose proof (wr_preparation _ _ _ _ Wr) as Hp. pose proof (av_state _ _ _ _ _ _ _ A) as Hst.
  split; try done; rewrite ?(wr_creators _ _ _ _ Wr), ?(av_outbox _ _ _ _ _ _ _ A), ?(av_settlements _ _ _ _ _ _ _ A).
  - apply (mw_creators _ W).
  - intros i s'. rewrite Hp. destruct (decide (i = id)) as [->|Hi].
    + rewrite lookup_insert_eq. intros [= <-]. exists new. split_and!; [done..|]. apply settlement_some.
      by rewrite (av_owners _ _ _ _ _ _ _ A), (av_settlements _ _ _ _ _ _ _ A), !lookup_insert_eq.
    + rewrite lookup_insert_ne by done. intros Hs. destruct (mw_settlement _ W _ _ Hs) as (q & Hq & Hqs & [Hown _]%settlement_some).
      exists q. split_and!; [done..|]. apply settlement_some.
      by rewrite (av_owners _ _ _ _ _ _ _ A), (av_settlements _ _ _ _ _ _ _ A), !lookup_insert_ne.
  - intros i q. rewrite Hp. destruct (decide (i = id)) as [->|Hi]; [by rewrite lookup_insert_eq|].
    rewrite lookup_insert_ne by done. apply (mw_active _ W).
  - intros i rid r. rewrite Hp. destruct (decide (rid = oid)) as [->|Hr].
    + rewrite lookup_insert_eq. intros [= <-]. rewrite (av_proposal _ _ _ _ _ _ _ A). intros ->%bool_decide_eq_true.
      rewrite decide_True by done. by exists new.
    + rewrite lookup_insert_ne by done. intros Hl Hm. destruct (decide (i = id)) as [->|Hi].
      * by rewrite (av_no_proposal _ _ _ _ _ _ _ A _ _ Hl) in Hm.
      * by apply (mw_proposal _ W _ _ _ Hl).
  - intros i q. rewrite Hp. unfold proposals. rewrite (av_outbox _ _ _ _ _ _ _ A).
    rewrite count_rows_insert by apply A. rewrite (av_proposal _ _ _ _ _ _ _ A). destruct (decide (i = id)) as [->|Hi].
    + intros [= <-] _. rewrite !bool_decide_eq_true_2 by (done || apply A). simpl. f_equal. apply count_rows_zero.
      intros rid r Hr. by rewrite (av_no_proposal _ _ _ _ _ _ _ A _ _ Hr).
    + rewrite bool_decide_eq_false_2 by done. simpl. apply (mw_published _ W).
Qed.

Lemma insert_settlement_ok md id s p md' :
  preparation md id = Some p → insert_settlement md id s = Ok md' →
  pp_state p = Active ∧ mm_settlements md !! id = None
  ∧ mm_settlements md' = <[id := s]> (mm_settlements md)
  ∧ ld_settlements (mm_life md') = <[id := pp_creator_id p]> (ld_settlements (mm_life md))
  ∧ (∀ i, preparation md' i = preparation md i) ∧ mm_preparations md' = mm_preparations md
  ∧ mm_db md' = mm_db md ∧ ac_creators (mm_ac md') = ac_creators (mm_ac md)
  ∧ (∀ hash, se_address_lookup_hash s = Some hash →
       ac_address_owners (mm_ac md) !! hash = None ∧ ac_address_owners (mm_ac md') !! hash = Some (OwnerMarketplace id)).
Proof.
  intros Hp H. unfold insert_settlement in H. rewrite Hp in H. apply bind_ok in H as ([] & Hc%ensure_ok & [= <-]).
  apply andb_true_iff in Hc as [Hc Ha]. apply andb_true_iff in Hc as [Hc _]. apply andb_true_iff in Hc as [Hc _].
  apply andb_true_iff in Hc as [Hn Hst]. split_and!; try done.
  - by split_bools.
  - by destruct (mm_settlements md !! id).
  - intros hash Hh. rewrite Hh in Ha. apply andb_true_iff in Ha as [_ Ha]. simpl. rewrite Hh.
    split; [by destruct (ac_address_owners _ !! hash)|by rewrite lookup_insert_eq].
Qed.

Definition proposal_row (owner id : RowId) (envelope hash : string) (now : Z) : OutboxRow :=
  queued_row (mk_OutboxKey owner None (Some id) PaymentRequestProposalKind envelope (Some hash) None) false now.

Lemma queue_proposal_ok md oid id envelope hash now p md' :
  preparation md id = Some p → queue_proposal md oid id envelope hash now = Ok md' →
  (∀ rid r, outbox (mm_db md) !! rid = Some r → market_proposal id r = false)
  ∧ outbox (mm_db md) !! oid = None
  ∧ md' = set_mm_db md (set_outbox (mm_db md) (<[oid := proposal_row (pp_creator_id p) id envelope hash now]> (outbox (mm_db md)))).
Proof.
  intros Hp H. unfold queue_proposal in H. rewrite Hp in H. apply bind_ok in H as ([] & Hn%ensure_ok & H).
  apply negb_true_iff in Hn. unfold insert_marketplace_proposal in H.
  destruct (insert_queued _ _ _ _ _) as [inserted db] eqn:E. apply bind_ok in H as ([] & -> & [= <-]).
  apply insert_queued_ok in E as [Hoid ->]. split_and!; [|done..]. intros rid r Hr.
  by apply (exists_row_false (λ _ r, market_proposal id r) _ Hn rid r).
Qed.

Lemma proposal_row_market owner id envelope hash now i :
  market_proposal i (proposal_row owner id envelope hash now) = bool_decide (i = id).
Proof.
  unfold market_proposal, proposal_row. simpl. rewrite andb_true_r. apply bool_decide_ext. naive_solver.
Qed.

Section lifecycle.
Context {core : LocksCore} {lib : PaykitLib}.
Context {prim : CryptoPrimitives} {observations : ObservationCodec} {allocation : AllocationCodec}
  {codec : PreparationCodec} (crypto : Crypto).
Context (to_bytes : DeliveryIntentV1 → option string).
Context {Json : Type} (json_from_str : string → option Json)
  (json_value : Json → option string) (json_is_object : Json → list (string * string) → bool).
Context (format_rfc3339 : Z → option string).
Notation market_validate_intent := (market_validate_intent json_from_str json_value json_is_object).
Notation decode_lifecycle_envelope := (decode_lifecycle_envelope crypto json_from_str json_value json_is_object).
Notation new_settlement := (new_settlement crypto json_from_str json_value json_is_object).
Notation activated_intent := (activated_intent json_from_str json_value json_is_object format_rfc3339).
Notation activate_prepared := (activate_prepared crypto to_bytes json_from_str json_value json_is_object format_rfc3339).
Notation market_activate := (market_activate crypto to_bytes json_from_str json_value json_is_object format_rfc3339).
Notation market_prepare := (market_prepare crypto json_from_str json_value json_is_object).
Notation prepare_new := (prepare_new crypto json_from_str json_value json_is_object).
Notation validate_replay := (validate_replay crypto json_from_str json_value json_is_object).
Notation market_void := (market_void crypto json_from_str json_value json_is_object).
Notation market_resolve := (market_resolve crypto json_from_str json_value json_is_object).
Notation lookup_hash := (lookup_hash crypto).
Notation creator_hash_of := (creator_hash_of crypto).

(** What a first activation computes and writes. *)
Record activation (md : MarketDb) (creator_hash : string) (id : RowId) (p : Preparation) (e : PreparationEnvelope)
    (input : MarketplaceActivationInput) (fresh : ActivationFresh) (now : Z) (res : MarketplaceActivationResult)
    (md' : MarketDb) (proposal deadline : Z) (intent : DeliveryIntentV1) (quote : MarketplaceQuote)
    (plaintext envelope reference : string) (s : SettlementColumns) : Prop := {
  ax_window : pe_payment_window_seconds e <= i64_max;
  ax_deadlines : activation_deadlines now (pe_payment_window_seconds e) (ma_proposal_acceptance_window input)
                 = Ok (proposal, deadline);
  ax_intent : activated_intent e proposal deadline = Ok (intent, quote);
  ax_plaintext : to_bytes intent = Some plaintext;
  ax_envelope : encrypt crypto (at_outbox_nonce fresh) (ctx_outbox_semantic_intent creator_hash (at_outbox_id fresh)) plaintext
                = Ok envelope;
  ax_reference : proposal_payment_reference intent = Ok reference;
  ax_settlement : new_settlement creator_hash id (pe_child_index e) intent (at_record_nonce fresh) = Ok s;
  ax_check : preparation_check (activated now deadline p) = true;
  ax_address : ∀ hash, se_address_lookup_hash s = Some hash →
    ac_address_owners (mm_ac md) !! hash = None ∧ ac_address_owners (mm_ac md') !! hash = Some (OwnerMarketplace id);
  ax_activates : activates md md' id (activated now deadline p) s (at_outbox_id fresh)
    (proposal_row (pp_creator_id p) id envelope (payment_request_proposal_lookup_hash crypto reference) now);
  ax_accounts : ac_creators (mm_ac md') = ac_creators (mm_ac md);
  ax_result : res = mk_MarketplaceActivationResult id now deadline (pe_terms e) quote false;
}.

Lemma activate_prepared_ok md creator_hash id p e input fresh now res md' :
  preparation md id = Some p →
  activate_prepared md creator_hash id p e input fresh now = Ok (res, md') →
  ∃ proposal deadline intent quote plaintext envelope reference s,
    activation md creator_hash id p e input fresh now res md' proposal deadline intent quote plaintext envelope reference s.
Proof.
  intros Hp H. unfold MarketStore.activate_prepared in H. apply bind_ok in H as ([] & Hw%ensure_ok & H).
  apply bind_ok in H as ([proposal deadline] & Hd & H). apply bind_ok in H as ([intent quote] & Hi & H).
  apply bind_ok in H as (plaintext & Hpt%ok_or_ok & H). apply bind_ok in H as (envelope & He%map_err_ok & H).
  apply bind_ok in H as (reference & Href%map_err_ok & H). apply bind_ok in H as (md1 & H1 & H).
  apply bind_ok in H as (s & Hs & H). apply bind_ok in H as (md2 & H2 & H). apply bind_ok in H as (md3 & H3 & [= <- <-]).
  apply update_preparation_ok with (old := p) in H1 as (-> & Hcheck & _); [|done].
  set (new := activated now deadline p) in *.
  assert (preparation (put_preparation md id new) id = Some new) as Hnew by (by rewrite preparation_put, decide_True).
  destruct (insert_settlement_ok _ _ _ _ _ Hnew H2) as (_ & Hnos & Hset & Hown & Hpr & Hcol & Hdb & Hacc & Haddr).
  assert (preparation md2 id = Some new) as Hnew2 by (by rewrite Hpr).
  destruct (queue_proposal_ok _ _ _ _ _ _ _ _ Hnew2 H3) as (Hnop & Hnor & ->). rewrite Hdb in Hnop, Hnor.
  exists proposal, deadline, intent, quote, plaintext, envelope, reference, s. split; try done; [by split_bools|].
  split; try done; [|by rewrite Hdb|by intros i; apply proposal_row_market].
  split.
  - intros i. fold new. rewrite <- (preparation_put md id new i). rewrite <- Hpr. done.
  - simpl. by rewrite Hcol.
  - simpl. by rewrite Hdb.
  - simpl. rewrite Hacc. intros i c Hc. by exists c.
Qed.

(** What a first preparation computes and writes. *)
Definition new_envelope (input : MarketplacePreparationInput) (creator : CreatorColumns) (prepared_at expires_at : Z)
    (terms : MarketplaceTerms) (intent : DeliveryIntentV1) : PreparationEnvelope :=
  mk_PreparationEnvelope 2 (mi_operation_id input) (mi_request_binding input) (reader_to_string (mi_reader input))
    (mi_reference input) terms (mi_payment_window_seconds input) (mi_prepare_ttl_seconds input) prepared_at expires_at
    (cc_next_child_index creator) intent.

Definition new_preparation (input : MarketplacePreparationInput) (creator_id : RowId) (envelope : string)
    (prepared_at expires_at : Z) : Preparation :=
  mk_Preparation creator_id Prepared None
    (mk_PreparationColumns (lookup_hash (mi_operation_id input)) (lookup_hash (mi_request_binding input))
       (lookup_hash (reader_to_string (mi_reader input))) envelope prepared_at expires_at None None None None).

Record preparing (md : MarketDb) (input : MarketplacePreparationInput) (creator_id : RowId) (creator_hash : string)
    (creator : CreatorColumns) (id : RowId) (nonce : string) (now : Z) (res : MarketplacePreparationResult) (md' : MarketDb)
    (deadline prepared_at : Z) (intent : DeliveryIntentV1) (terms : MarketplaceTerms) (quote : MarketplaceQuote)
    (plaintext envelope : string) : Prop := {
  px_deadline : mi_prepare_deadline input = Some deadline;
  px_open : now < truncate_micros deadline;
  px_prepared_at : checked_sub_seconds (truncate_micros deadline) (mi_prepare_ttl_seconds input) = Some prepared_at;
  px_intent : fa_for_child_index (mi_payloads input) (cc_next_child_index creator) = Ok intent;
  px_quote : market_validate_intent intent (mi_reader input) (mi_reference input) terms = Ok quote;
  px_terms : mt_amount terms = mi_amount input ∧ mt_asset terms = mi_asset input;
  px_plaintext : preparation_to_bytes (new_envelope input creator prepared_at (truncate_micros deadline) terms intent)
                 = Some plaintext;
  px_envelope : encrypt crypto nonce (ctx_marketplace_preparation creator_hash id) plaintext = Ok envelope;
  px_new : mm_preparations md !! id = None;
  px_check : preparation_check (new_preparation input creator_id envelope prepared_at (truncate_micros deadline)) = true;
  px_free : operation_taken md creator_id (lookup_hash (mi_operation_id input)) = false;
  px_writes : writes md md' id (new_preparation input creator_id envelope prepared_at (truncate_micros deadline));
  px_settlements : mm_settlements md' = mm_settlements md;
  px_owners : ld_settlements (mm_life md') = ld_settlements (mm_life md);
  px_db : outbox (mm_db md') = outbox (mm_db md);
  px_accounts : ∃ ac, advance_child_index ac creator_id = Ok (mm_ac md') ∧ ac_creators ac = ac_creators (mm_ac md)
                      ∧ creators (ac_db ac) = creators (mm_db md);
  px_result : res = mk_MarketplacePreparationResult id terms quote prepared_at (truncate_micros deadline) false;
}.

Lemma advance_accounts ac id ac' i c :
  advance_child_index ac id = Ok ac' → ac_creators ac !! i = Some c →
  ∃ c', ac_creators ac' !! i = Some c' ∧ cc_next_child_index c <= cc_next_child_index c'.
Proof.
  unfold advance_child_index. destruct (ac_creators ac !! id) as [d|] eqn:E; [|by intros [= <-]; exists c].
  intros H Hc. apply bind_ok in H as ([] & _ & [= <-]). simpl. destruct (decide (i = id)) as [->|Hi].
  - rewrite lookup_insert_eq. eexists. split; [done|]. simpl. assert (c = d) as -> by congruence. lia.
  - rewrite lookup_insert_ne by done. by exists c.
Qed.

Lemma advance_dd ac id ac' : advance_child_index ac id = Ok ac' → ac_dd ac' = ac_dd ac.
Proof.
  unfold advance_child_index. destruct (ac_creators ac !! id); [|by intros [= <-]].
  intros H. by apply bind_ok in H as ([] & _ & [= <-]).
Qed.

Lemma prepare_new_ok md input creator_id creator_hash creator id nonce now res md' :
  prepare_new md input creator_id creator_hash creator id nonce now = Ok (res, md') →
  ∃ deadline prepared_at intent terms quote plaintext envelope,
    preparing md input creator_id creator_hash creator id nonce now res md' deadline prepared_at intent terms quote
      plaintext envelope.
Proof.
  unfold MarketStore.prepare_new. intros H. apply bind_ok in H as ([] & _ & H).
  apply bind_ok in H as (deadline & Hd%ok_or_ok & H). cbv zeta in H. apply bind_ok in H as ([] & Ho%ensure_ok & H).
  apply bind_ok in H as (prepared_at & Hp%ok_or_ok & H). apply bind_ok in H as (intent & Hi & H).
  apply bind_ok in H as (terms & Ht & H). apply bind_ok in H as (quote & Hq & H).
  apply bind_ok in H as (plaintext & Hpt%ok_or_ok & H). apply bind_ok in H as (envelope & He%map_err_ok & H).
  apply bind_ok in H as (md1 & H1 & H). apply bind_ok in H as (ac & Hac & [= <- <-]).
  unfold insert_preparation in H1. apply bind_ok in H1 as ([] & Hfree%ensure_ok & H1).
  apply bind_ok in H1 as ([] & Hck%ensure_ok & [= <-]). apply andb_true_iff in Hck as [Hck _].
  apply andb_true_iff in Hck as [Hnew Hck]. pose proof (advance_dd _ _ _ Hac) as Hdd. simpl in Hdd.
  exists deadline, prepared_at, intent, terms, quote, plaintext, envelope.
  split; try done; unfold mm_life, mm_db, ac_db; simpl; rewrite ?Hdd; try done.
  - split_bools. lia.
  - unfold terms_from_intent in Ht. apply bind_ok in Ht as (record & _ & Ht%map_err_ok).
    by apply terms_new_ok in Ht as (-> & _).
  - by destruct (mm_preparations md !! id).
  - by apply negb_true_iff in Hfree.
  - split; try done; unfold mm_db, ac_db; simpl; rewrite ?Hdd; try done.
    + intros i. rewrite <- preparation_put. unfold preparation, mm_life, mm_db, ac_db. simpl. by rewrite Hdd.
    + intros i c Hc. by apply (advance_accounts _ _ _ _ _ Hac).
  - eexists. split; [exact Hac|]. done.
Qed.

Lemma operation_taken_false md creator_id hash i q :
  operation_taken md creator_id hash = false → preparation md i = Some q → pp_creator_id q = creator_id →
  pn_operation_lookup_hash (pp_columns q) = hash → False.
Proof.
  intros Ht Hq Hc Hh. apply preparation_some in Hq as (Ho & _ & Hcols).
  pose proof (exists_row_false _ _ Ht _ _ Hcols) as Hf. simpl in Hf. rewrite Ho, Hc, Hh, String.eqb_refl in Hf.
  by rewrite bool_decide_eq_true_2 in Hf.
Qed.

Lemma preparing_wf md input creator_id creator_hash creator id nonce now res md' deadline prepared_at intent terms quote
    plaintext envelope :
  market_wf md →
  preparing md input creator_id creator_hash creator id nonce now res md' deadline prepared_at intent terms quote
    plaintext envelope →
  market_wf md'.
Proof.
  intros W P. assert (preparation md id = None) as Hnone.
  { destruct (preparation md id) eqn:E; [|done]. apply preparation_some in E as (_ & _ & E).
    rewrite (px_new _ _ _ _ _ _ _ _ _ _ _ _ _ _ _ _ _ P) in E. done. }
  apply (writes_wf _ _ _ _ W (px_writes _ _ _ _ _ _ _ _ _ _ _ _ _ _ _ _ _ P)); try by apply P.
  - split; [apply P| |by rewrite Hnone]. intros i q Hq Hc Ho. simpl in *. exfalso.
    by apply (operation_taken_false _ _ _ _ _ (px_free _ _ _ _ _ _ _ _ _ _ _ _ _ _ _ _ _ P) Hq).
  - simpl. rewrite Hnone. naive_solver.
Qed.

(** ** The operations *)

Lemma load_lifecycle_some md creator id stored p :
  load_lifecycle_locked crypto md creator id = Some (stored, p) →
  preparation md id = Some p ∧ creators (mm_db md) !! pp_creator_id p = Some stored ∧ stored = creator_hash_of creator.
Proof.
  unfold load_lifecycle_locked. destruct (preparation md id) as [q|]; [|done]. simpl.
  destruct (creators (mm_db md) !! pp_creator_id q) as [h|] eqn:E; [|done]. simpl.
  destruct (String.eqb h _) eqn:Eh; [|done]. intros [= <- <-]. by apply String.eqb_eq in Eh.
Qed.

Lemma market_prepare_ok md input id nonce now res md' :
  market_prepare md input id nonce now = Ok (res, md') →
  ∃ creator_id creator,
    creator_row_of_hash (mm_ac md) (creator_hash_of (mi_creator input))
      = Some (creator_id, creator_hash_of (mi_creator input), creator)
    ∧ 0 <= cc_next_child_index creator ∧ String.length (creator_hash_of (mi_creator input)) = 32%nat
    ∧ match load_locked md creator_id (lookup_hash (mi_operation_id input)) with
      | Some (existing, c) =>
          validate_replay (creator_hash_of (mi_creator input)) input existing c = Ok res ∧ md' = md
      | None => prepare_new md input creator_id (creator_hash_of (mi_creator input)) creator id nonce now = Ok (res, md')
      end.
Proof.
  unfold MarketStore.market_prepare. intros H. do 2 (apply bind_ok in H as ([] & _ & H)).
  apply bind_ok in H as ([[creator_id stored] creator] & Hrow%ok_or_ok & H).
  pose proof (creator_row_of_hash_some _ _ _ _ _ Hrow) as (_ & Hst & _ & _). subst stored.
  apply bind_ok in H as (hash & (<- & Hlen)%stored_hash_ok & H).
  apply bind_ok in H as ([] & Hc%ensure_ok & H). apply andb_true_iff in Hc as [_ Hc].
  exists creator_id, creator. split_and!; [done|by split_bools|done|].
  destruct (load_locked _ _ _) as [[existing c]|]; [|done]. by apply bind_ok in H as (r & Hr & [= <- <-]).
Qed.

Lemma market_activate_ok md input fresh now res md' :
  market_activate md input fresh now = Ok (res, md') →
  (load_lifecycle_locked crypto md (ma_creator input) (ma_invoice_id input) = None ∨
   creator_of_hash (mm_db md) (creator_hash_of (ma_creator input)) = None) ∧ md' = md ∧ res = None
  ∨ ∃ p e r, res = Some r
      ∧ load_lifecycle_locked crypto md (ma_creator input) (ma_invoice_id input)
        = Some (creator_hash_of (ma_creator input), p)
      ∧ String.length (creator_hash_of (ma_creator input)) = 32%nat
      ∧ decode_lifecycle_envelope (creator_hash_of (ma_creator input)) (ma_invoice_id input) (pp_columns p) = Ok e
      ∧ terms_match e (ma_amount input) (ma_asset input) = true
      ∧ (pp_state p = Active ∧ md' = md ∧ mx_replayed r = true
         ∨ pp_state p = Prepared ∧ pn_resolved_at (pp_columns p) = None ∧ now < pn_prepare_expires_at (pp_columns p)
           ∧ activate_prepared md (creator_hash_of (ma_creator input)) (ma_invoice_id input) p e input fresh now = Ok (r, md')).
Proof.
  unfold MarketStore.market_activate. intros H. apply bind_ok in H as ([] & _ & H).
  destruct (creator_of_hash _ _); [|injection H as <- <-; by auto]. simpl in H.
  destruct (load_lifecycle_locked _ _ _ _) as [[stored p]|] eqn:Hl; [|injection H as <- <-; by auto].
  right. destruct (load_lifecycle_some _ _ _ _ _ Hl) as (_ & _ & ->). cbv zeta in H.
  apply bind_ok in H as (hash & Hh%map_err_ok & H). apply stored_hash_ok in Hh as [<- Hlen].
  apply bind_ok in H as (e & He%map_err_ok & H). destruct (pp_state p) eqn:Hst; [| |done].
  - apply bind_ok in H as ([] & Hres%ensure_ok & H). apply bind_ok in H as ([] & _ & H).
    apply bind_ok in H as ([] & Hexp%ensure_ok & H). apply bind_ok in H as ([] & Ht%ensure_ok & H).
    apply bind_ok in H as ([r md1] & Hr%map_err_ok & [= <- <-]). exists p, e, r. split_and!; [done..|]. right.
    split_and!; [done| |split_bools; lia|done]. by destruct (pn_resolved_at _).
  - apply bind_ok in H as (r & Hr & [= <- <-]). unfold activation_replay in Hr.
    apply bind_ok in Hr as ([] & Ht%ensure_ok & Hr). exists p, e, r. split_and!; [done..|]. left. split_and!; [done..|].
    do 2 (apply bind_ok in Hr as (? & _ & Hr)). do 2 (apply bind_ok in Hr as ([] & _ & Hr)).
    by apply bind_ok in Hr as (? & _ & [= <-]).
Qed.

Lemma market_void_ok md creator id now res md' :
  market_void md creator id now = Ok (res, md') →
  md' = md ∨ ∃ p, preparation md id = Some p ∧ pp_state p = Prepared ∧ pn_voided_at (pp_columns p) = None
                  ∧ update_preparation md id (voided now) = Ok md'.
Proof.
  unfold MarketStore.market_void. destruct (load_lifecycle_locked _ _ _ _) as [[stored p]|] eqn:Hl; [|intros [= <- <-]; by left].
  destruct (load_lifecycle_some _ _ _ _ _ Hl) as (Hp & _ & _). intros H. cbv zeta in H.
  do 2 (apply bind_ok in H as (? & _ & H)). destruct (pp_state p) eqn:Hst; [|done|].
  - right. apply bind_ok in H as ([] & Hc%ensure_ok & H). apply bind_ok in H as (md1 & H1%map_err_ok & [= <- <-]).
    exists p. apply andb_true_iff in Hc as [_ Hc]. split_and!; [done..| |done]. by destruct (pn_voided_at _).
  - left. by apply bind_ok in H as (? & _ & [= <- <-]).
Qed.

Lemma market_resolve_ok md creator id outcome now res md' :
  market_resolve md creator id outcome now = Ok (res, md') →
  md' = md ∨ ∃ p, preparation md id = Some p ∧ pn_business_outcome (pp_columns p) = None
                  ∧ pn_resolved_at (pp_columns p) = None
                  ∧ update_preparation md id (resolved outcome now) = Ok md'.
Proof.
  unfold MarketStore.market_resolve. destruct (load_lifecycle_locked _ _ _ _) as [[stored p]|] eqn:Hl; [|intros [= <- <-]; by left].
  destruct (load_lifecycle_some _ _ _ _ _ Hl) as (Hp & _ & _). intros H. cbv zeta in H.
  do 2 (apply bind_ok in H as (? & _ & H)).
  destruct (pn_business_outcome (pp_columns p)) eqn:Hb, (pn_resolved_at (pp_columns p)) eqn:Hr; try done.
  - left. apply bind_ok in H as (? & _ & H). by apply bind_ok in H as ([] & _ & [= <- <-]).
  - right. apply bind_ok in H as (md1 & H1%map_err_ok & [= <- <-]). by exists p.
Qed.

(** ** Steps *)

(** A committed transaction: any identifiers, nonces, clocks and inputs.  [ms_rotated] is
    the statement by which an account rotation voids a preparation ([Rotation]), [ms_other]
    any transaction of the rest of the system, which leaves these tables alone. *)
Inductive market_step (md : MarketDb) : MarketDb → Prop :=
| ms_prepare input id nonce now res md' :
    market_prepare md input id nonce now = Ok (res, md') → market_step md md'
| ms_activate input fresh now res md' :
    market_activate md input fresh now = Ok (res, md') → market_step md md'
| ms_void creator id now res md' :
    market_void md creator id now = Ok (res, md') → market_step md md'
| ms_resolve creator id outcome now res md' :
    market_resolve md creator id outcome now = Ok (res, md') → market_step md md'
| ms_targets now : market_step md (market_observation_targets crypto md now).2
| ms_batch batch observed_at n md' :
    market_apply_batch crypto md batch observed_at = Ok (n, md') → market_step md md'
| ms_receipt fresh nonce id creator_hash transfer db_now b md' :
    market_apply_usdt crypto md fresh nonce id creator_hash transfer db_now = Ok (b, md') → market_step md md'
| ms_clear id hash db_now md' :
    market_clear_usdt md id hash db_now = Ok md' → market_step md md'
| ms_rotated id p now md' :
    preparation md id = Some p → pp_state p = Prepared → update_preparation md id (voided now) = Ok md' →
    market_step md md'
| ms_other md' : market_frame md md' → market_step md md'.

(** One step seen from the lifecycle: nothing of it changes, or one preparation is
    written by a first preparation, an activation, a voiding or a resolution. *)
Inductive effect (md md' : MarketDb) : Prop :=
| ef_frame : market_frame md md' → effect md md'
| ef_prepare input creator_id creator_hash creator id nonce now res deadline prepared_at intent terms quote plaintext envelope :
    preparing md input creator_id creator_hash creator id nonce now res md' deadline prepared_at intent terms quote
      plaintext envelope → effect md md'
| ef_activate creator_hash id p e input fresh now res proposal deadline intent quote plaintext envelope reference s :
    preparation md id = Some p → pp_state p = Prepared → pn_resolved_at (pp_columns p) = None →
    now < pn_prepare_expires_at (pp_columns p) →
    activation md creator_hash id p e input fresh now res md' proposal deadline intent quote plaintext envelope reference s →
    effect md md'
| ef_void id p now :
    preparation md id = Some p → pp_state p = Prepared → update_preparation md id (voided now) = Ok md' → effect md md'
| ef_resolve id p outcome now :
    preparation md id = Some p → pn_business_outcome (pp_columns p) = None →
    update_preparation md id (resolved outcome now) = Ok md' → effect md md'.

Lemma step_effect md md' : market_wf md → market_step md md' → effect md md'.
Proof.
  intros W [input id nonce now res ? H|input fresh now res ? H|creator id now res ? H|creator id outcome now res ? H
           |now|batch at_ n ? H|? ? ? ? ? ? ? ? H|? ? ? ? H|id p now ? Hp Hst H|? H].
  - apply market_prepare_ok in H as (creator_id & creator & _ & _ & _ & H).
    destruct (load_locked _ _ _) as [[existing c]|]; [destruct H as [_ ->]; by apply ef_frame, frame_refl|].
    apply prepare_new_ok in H as (? & ? & ? & ? & ? & ? & ? & H). by eapply ef_prepare.
  - apply market_activate_ok in H as [(_ & -> & _)|(p & e & r & _ & Hl & _ & _ & _ & H)]; [by apply ef_frame, frame_refl|].
    destruct H as [(_ & -> & _)|(Hst & Hres & Hexp & H)]; [by apply ef_frame, frame_refl|].
    apply load_lifecycle_some in Hl as (Hp & _ & _).
    apply activate_prepared_ok in H as (? & ? & ? & ? & ? & ? & ? & ? & H); [|done]. by eapply ef_activate.
  - apply market_void_ok in H as [->|(p & Hp & Hst & _ & H)]; [by apply ef_frame, frame_refl|by eapply ef_void].
  - apply market_resolve_ok in H as [->|(p & Hp & Hb & _ & H)]; [by apply ef_frame, frame_refl|by eapply ef_resolve].
  - apply ef_frame, observes_frame; [done|]. apply expire_overdue_observes.
  - unfold market_apply_batch in H. apply apply_each_observes in H. by apply ef_frame, observes_frame.
  - apply apply_usdt_observes in H. by apply ef_frame, observes_frame.
  - apply clear_usdt_observes in H. by apply ef_frame, observes_frame.
  - by eapply ef_void.
  - by apply ef_frame.
Qed.

Lemma activated_same now deadline p : same_columns p (activated now deadline p).
Proof. by repeat split. Qed.

Lemma voided_same now p : same_columns p (voided now p).
Proof. by repeat split. Qed.

Lemma resolved_same outcome now p : same_columns p (resolved outcome now p).
Proof. by repeat split. Qed.

Lemma effect_wf md md' : market_wf md → effect md md' → market_wf md'.
Proof.
  intros W [H|? ? ? ? ? ? ? ? ? ? ? ? ? ? ? H|? id p ? ? ? ? ? ? ? ? ? ? ? ? ? Hp Hst _ _ H|id p now Hp Hst H|id p outcome now Hp _ H].
  - by eapply frame_wf.
  - by eapply preparing_wf.
  - eapply activates_wf; [done|apply H|]. eapply same_columns_ok; [done|done|apply activated_same|apply H].
  - eapply update_wf in H as [H _]; [done..|apply voided_same|]. simpl. by rewrite Hst.
  - eapply update_wf in H as [H _]; [done..|apply resolved_same|done].
Qed.

(** C11: the Marketplace tables stay consistent.  From consistent tables every sequence of
    preparations, activations, voidings, resolutions and observations, interleaved with
    any other transaction of the server, leaves them consistent: every preparation
    satisfies the checks of its state, an operation of a creator belongs to one
    preparation, a settlement exists exactly for the active ones, under their creator,
    and a preparation has a proposal in the outbox only when it is active, and then
    exactly one. *)
Theorem market_tables_consistent md md' : rtc market_step md md' → market_wf md → market_wf md'.
Proof.
  induction 1 as [md|md md1 md' H _ IH]; intros W; [done|]. apply IH. eapply effect_wf; [done|]. by apply step_effect.
Qed.
End lifecycle.
