(* ===== verification/MarketLifecycle.v ===== *)
(** * MarketLifecycle: what a Marketplace invoice goes through

    The abstract lifecycle of one invoice, the refinement of the steps of [MarketProps],
    what a retried preparation or activation answers in every later state, and what an
    activation publishes. *)

From S2P Require Import Prelude Text Locks Invoice Receiving Payment Lifecycle Pricing Intent Readers Database OutboxStore CreateInvoice PaymentRecord Crypto Observations Settlement LifecycleStore Drains DrainProps Status Creators Allocation Allocated Provider MarketTerms MarketStore MarketObserve MarketProps Sorting.
Local Open Scope string_scope.
Local Open Scope Z_scope.

(** ** The abstract lifecycle *)

Inductive Stage :=
| Waiting
| Running (activated_at payment_deadline : Z)
| Stopped (voided_at : Z).

#[global] Instance Stage_eq_dec : EqDecision Stage.
Proof. solve_decision. Defined.

(** An invoice as its creator knows it: the sealed request, its window, its stage and its
    business outcome. *)
Record MarketInvoice := mk_MarketInvoice {
  ab_creator : RowId;
  ab_request : string * string * string * string;   (* operation, binding and Reader hashes, envelope *)
  ab_window : Z * Z;                                (* prepared at, expires at *)
  ab_stage : Stage;
  ab_outcome : option (string * Z);
}.

Definition with_stage (v : MarketInvoice) (s : Stage) : MarketInvoice :=
  mk_MarketInvoice (ab_creator v) (ab_request v) (ab_window v) s (ab_outcome v).

Definition with_outcome (v : MarketInvoice) (o : string * Z) : MarketInvoice :=
  mk_MarketInvoice (ab_creator v) (ab_request v) (ab_window v) (ab_stage v) (Some o).

Inductive lifecycle_step : option MarketInvoice → option MarketInvoice → Prop :=
| lc_stay o : lifecycle_step o o
| lc_prepare v : ab_stage v = Waiting → ab_outcome v = None → (ab_window v).1 < (ab_window v).2 →
    lifecycle_step None (Some v)
| lc_activate v now deadline : ab_stage v = Waiting → ab_outcome v = None → now < (ab_window v).2 → now < deadline →
    lifecycle_step (Some v) (Some (with_stage v (Running now deadline)))
| lc_void v now : ab_stage v = Waiting → lifecycle_step (Some v) (Some (with_stage v (Stopped now)))
| lc_resolve v outcome now : ab_outcome v = None → outcome_text outcome = true →
    lifecycle_step (Some v) (Some (with_outcome v (outcome, now))).

(** The invoice a row stands for; [None] when its columns do not fit its state. *)
Definition stage_of (p : Preparation) : option Stage :=
  match pp_state p, pn_activated_at (pp_columns p), pp_payment_deadline p, pn_voided_at (pp_columns p) with
  | Prepared, None, None, None => Some Waiting
  | Active, Some activated_at, Some deadline, None => Some (Running activated_at deadline)
  | Voided, None, None, Some at_ => Some (Stopped at_)
  | _, _, _, _ => None
  end.

Definition outcome_of (p : Preparation) : option (string * Z) :=
  outcome ← pn_business_outcome (pp_columns p); resolved_at ← pn_resolved_at (pp_columns p); Some (outcome, resolved_at).

Definition abstract (p : Preparation) : option MarketInvoice :=
  stage ← stage_of p;
  let c := pp_columns p in
  Some (mk_MarketInvoice (pp_creator_id p)
          (pn_operation_lookup_hash c, pn_request_lookup_hash c, pn_reader_lookup_hash c, pn_envelope c)
          (pn_prepared_at c, pn_prepare_expires_at c) stage (outcome_of p)).

Definition invoice_of (md : MarketDb) (id : RowId) : option MarketInvoice := preparation md id ≫= abstract.

(** The checks of the table make the abstraction total. *)
Lemma abstract_total p : preparation_check p = true → is_Some (abstract p).
Proof.
  unfold preparation_check, abstract, stage_of. intros H. do 6 (apply andb_true_iff in H as [H _]).
  destruct (pp_state p), (pn_activated_at (pp_columns p)), (pp_payment_deadline p), (pn_voided_at (pp_columns p)); try done;
    simpl in *; split_bools; try done; eauto.
Qed.

Lemma invoice_total md id p : market_wf md → preparation md id = Some p → is_Some (invoice_of md id).
Proof. intros W Hp. unfold invoice_of. rewrite Hp. simpl. by apply abstract_total, (mw_check _ W id). Qed.

Lemma check_outcome p : preparation_check p = true → pn_business_outcome (pp_columns p) = None ↔ pn_resolved_at (pp_columns p) = None.
Proof.
  unfold preparation_check. intros H. do 5 (apply andb_true_iff in H as [H _]). apply andb_true_iff in H as [_ H].
  by destruct (pn_business_outcome _), (pn_resolved_at _).
Qed.

Lemma check_window p : preparation_check p = true → pn_prepared_at (pp_columns p) < pn_prepare_expires_at (pp_columns p).
Proof.
  unfold preparation_check. intros H. do 3 (apply andb_true_iff in H as [H _]). apply andb_true_iff in H as [_ H].
  by split_bools.
Qed.

Lemma check_hashes p :
  preparation_check p = true →
  String.length (pn_operation_lookup_hash (pp_columns p)) = 32%nat
  ∧ String.length (pn_request_lookup_hash (pp_columns p)) = 32%nat
  ∧ String.length (pn_reader_lookup_hash (pp_columns p)) = 32%nat.
Proof.
  unfold preparation_check. intros H. apply andb_true_iff in H as [H H3]. apply andb_true_iff in H as [H H2].
  apply andb_true_iff in H as [_ H1]. unfold hash_length in *. by apply Nat.eqb_eq in H1, H2, H3.
Qed.

(** ** Each effect is one step of the lifecycle *)

Lemma invoice_writes md md' id p i :
  writes md md' id p → invoice_of md' i = if decide (i = id) then abstract p else invoice_of md i.
Proof. intros Wr. unfold invoice_of. rewrite (wr_preparation _ _ _ _ Wr). by case_decide. Qed.

Lemma activated_abstract now deadline p v :
  pp_state p = Prepared → pn_voided_at (pp_columns p) = None → abstract p = Some v →
  abstract (activated now deadline p) = Some (with_stage v (Running now deadline)).
Proof.
  unfold abstract, stage_of, outcome_of. intros Hs Hv. simpl. rewrite Hs, Hv.
  destruct (pn_activated_at (pp_columns p)), (pp_payment_deadline p); try done. by intros [= <-].
Qed.

Lemma voided_abstract now p v :
  pp_state p = Prepared → abstract p = Some v → abstract (voided now p) = Some (with_stage v (Stopped now)).
Proof.
  unfold abstract, stage_of, outcome_of. intros Hs. simpl. rewrite Hs.
  destruct (pn_activated_at (pp_columns p)), (pp_payment_deadline p), (pn_voided_at (pp_columns p)); try done. by intros [= <-].
Qed.

Lemma resolved_abstract outcome now p v :
  abstract p = Some v → abstract (resolved outcome now p) = Some (with_outcome v (outcome_as_str outcome, now)).
Proof.
  unfold abstract. change (stage_of (resolved outcome now p)) with (stage_of p).
  destruct (stage_of p); [|done]. by intros [= <-].
Qed.

Lemma waiting_abstract p v :
  preparation_check p = true → pp_state p = Prepared → abstract p = Some v →
  ab_stage v = Waiting ∧ pn_voided_at (pp_columns p) = None.
Proof.
  unfold abstract, stage_of. intros Hc Hs. rewrite Hs.
  destruct (pn_activated_at (pp_columns p)), (pp_payment_deadline p), (pn_voided_at (pp_columns p)); try done. by intros [= <-].
Qed.

Section lifecycle.
Context {core : LocksCore} {lib : PaykitLib}.
Context {prim : CryptoPrimitives} {observations : ObservationCodec} {allocation : AllocationCodec}
  {codec : PreparationCodec} (crypto : Crypto).
Context (to_bytes : DeliveryIntentV1 → option string).
Context {Json : Type} (json_from_str : string → option Json)
  (json_value : Json → option string) (json_is_object : Json → list (string * string) → bool).
Context (format_rfc3339 : Z → option string).
Notation effect := (effect crypto to_bytes json_from_str json_value json_is_object format_rfc3339).
Notation market_step := (market_step crypto to_bytes json_from_str json_value json_is_object format_rfc3339).
Notation activation := (activation crypto to_bytes json_from_str json_value json_is_object format_rfc3339).
Notation preparing := (preparing crypto json_from_str json_value json_is_object).

Lemma activation_window md creator_hash id p e input fresh now res md' proposal deadline intent quote plaintext envelope reference s :
  activation md creator_hash id p e input fresh now res md' proposal deadline intent quote plaintext envelope reference s →
  now < deadline.
Proof.
  intros H. pose proof (ax_check _ _ _ _ _ _ _ _ _ _ _ _ _ _ _ _ _ _ _ _ _ _ _ _ H) as Hc.
  unfold preparation_check in Hc. do 6 (apply andb_true_iff in Hc as [Hc _]). simpl in Hc.
  apply andb_true_iff in Hc as [Hc _]. by split_bools.
Qed.

Lemma effect_lifecycle md md' id :
  market_wf md → effect md md' → lifecycle_step (invoice_of md id) (invoice_of md' id).
Proof.
  intros W [H|? ? ? ? i ? ? ? ? ? ? ? ? ? ? H|? i p ? ? ? ? ? ? ? ? ? ? ? ? ? Hp Hst Hres Hexp H|i p now Hp Hst H|i p outcome now Hp Hb H].
  - unfold invoice_of. rewrite (fr_preparation _ _ H). constructor.
  - rewrite (invoice_writes _ _ _ _ id (px_writes _ _ _ _ _ _ _ _ _ _ _ _ _ _ _ _ _ _ _ _ _ H)).
    case_decide; [|constructor]. subst id. assert (invoice_of md i = None) as ->.
    { unfold invoice_of. destruct (preparation md i) eqn:E; [|done]. apply preparation_some in E as (_ & _ & E).
      by rewrite (px_new _ _ _ _ _ _ _ _ _ _ _ _ _ _ _ _ _ _ _ _ _ H) in E. }
    constructor; [done..|]. simpl.
    apply (check_window _ (px_check _ _ _ _ _ _ _ _ _ _ _ _ _ _ _ _ _ _ _ _ _ H)).
  - pose proof (mw_check _ W _ _ Hp) as Hck. destruct (invoice_total _ _ _ W Hp) as [v Hv].
    pose proof Hv as Hab. unfold invoice_of in Hab. rewrite Hp in Hab. simpl in Hab.
    destruct (waiting_abstract _ _ Hck Hst Hab) as [Hw Hnv].
    rewrite (invoice_writes _ _ _ _ id (av_writes _ _ _ _ _ _ _ (ax_activates _ _ _ _ _ _ _ _ _ _ _ _ _ _ _ _ _ _ _ _ _ _ _ _ H))).
    case_decide; [subst id|constructor]. rewrite Hv. erewrite activated_abstract by done. constructor; [done| | |].
    + apply (check_outcome _ Hck) in Hres. unfold abstract in Hab. destruct (stage_of p); [|done]. injection Hab as <-.
      simpl. unfold outcome_of. by rewrite Hres.
    + unfold abstract in Hab. destruct (stage_of p); [|done]. by injection Hab as <-.
    + by eapply activation_window.
  - pose proof (mw_check _ W _ _ Hp) as Hck. destruct (invoice_total _ _ _ W Hp) as [v Hv].
    pose proof Hv as Hab. unfold invoice_of in Hab. rewrite Hp in Hab. simpl in Hab.
    destruct (waiting_abstract _ _ Hck Hst Hab) as [Hw _].
    apply update_preparation_ok with (old := p) in H as (-> & _); [|done]. rewrite (invoice_writes _ _ _ _ id (put_writes md i _)).
    case_decide; [subst id|constructor]. rewrite Hv. erewrite voided_abstract by done. by constructor.
  - destruct (invoice_total _ _ _ W Hp) as [v Hv].
    pose proof Hv as Hab. unfold invoice_of in Hab. rewrite Hp in Hab. simpl in Hab.
    apply update_preparation_ok with (old := p) in H as (-> & _); [|done]. rewrite (invoice_writes _ _ _ _ id (put_writes md i _)).
    case_decide; [subst id|constructor]. rewrite Hv. erewrite resolved_abstract by done. constructor; [|by destruct outcome].
    unfold abstract in Hab. destruct (stage_of p); [|done]. injection Hab as <-. simpl. unfold outcome_of. by rewrite Hb.
Qed.

Lemma steps_wf md md' : rtc market_step md md' → market_wf md → market_wf md'.
Proof.
  induction 1 as [md|md md1 md' H _ IH]; intros W; [done|]. apply IH. eapply effect_wf; [done|]. by apply step_effect.
Qed.

Lemma steps_lifecycle md md' id :
  rtc market_step md md' → market_wf md → rtc lifecycle_step (invoice_of md id) (invoice_of md' id).
Proof.
  induction 1 as [md|md md1 md' H _ IH]; intros W; [done|]. apply step_effect in H; [|done].
  eapply rtc_l; [by eapply effect_lifecycle|]. by apply IH, (effect_wf _ _ _ _ _ _ _ _ W H).
Qed.

(** ** The lifecycle *)

(** C10: the Marketplace store implements the lifecycle of an invoice.  Seen through the
    abstraction of its rows (the sealed request, its window, stage and outcome), every
    sequence of transactions of the server moves each invoice only along the lifecycle:
    it is prepared once; it is activated before its window ends, and only while no outcome
    is recorded, or voided, and neither is undone; an outcome is recorded once, in any
    stage; and every stored row is such an invoice. *)
Theorem market_refines_lifecycle md md' id :
  rtc market_step md md' → market_wf md →
  rtc lifecycle_step (invoice_of md id) (invoice_of md' id)
  ∧ (is_Some (mm_preparations md' !! id) ↔ is_Some (invoice_of md' id)).
Proof.
  intros H W. split; [by apply steps_lifecycle|]. apply steps_wf in H; [|done]. split.
  - intros [c Hc]. destruct (mw_rows _ H _ _ Hc) as [p Hp]. by eapply invoice_total.
  - unfold invoice_of. destruct (preparation md' id) as [p|] eqn:Hp; [|by intros [? ?]].
    apply preparation_some in Hp as (_ & _ & ->). by eauto.
Qed.

(** What the lifecycle never undoes. *)
Record kept (v v' : MarketInvoice) : Prop := {
  kv_creator : ab_creator v' = ab_creator v;
  kv_request : ab_request v' = ab_request v;
  kv_window : ab_window v' = ab_window v;
  kv_stage : ab_stage v ≠ Waiting → ab_stage v' = ab_stage v;
  kv_outcome : ab_outcome v ≠ None → ab_outcome v' = ab_outcome v;
  kv_running : ∀ at_ deadline, ab_stage v = Waiting → ab_stage v' = Running at_ deadline →
    at_ < (ab_window v).2 ∧ at_ < deadline ∧ ab_outcome v = None;
}.

Lemma lifecycle_kept o o' v : rtc lifecycle_step o o' → o = Some v → ∃ v', o' = Some v' ∧ kept v v'.
Proof.
  intros H. revert v. induction H as [o|o o1 o' H _ IH]; intros v ->.
  { exists v. split; [done|]. split; try done. intros at_ d H1 H2. congruence. }
  assert (∃ v1, o1 = Some v1 ∧ kept v v1) as (v1 & -> & K1).
  { inversion H; subst; (eexists; split; [done|]; split; simpl; try done; intros; try congruence).
    all: match goal with H : Running _ _ = Running _ _ |- _ => injection H as <- <- end; done. }
  destruct (IH v1 eq_refl) as (v2 & -> & K2). exists v2. split; [done|].
  destruct K1 as [A1 A2 A3 A4 A5 A6], K2 as [B1 B2 B3 B4 B5 B6]. split; try congruence.
  - intros Hs. rewrite B4 by (rewrite A4; done). by apply A4.
  - intros Ho. rewrite B5 by (rewrite A5; done). by apply A5.
  - intros at_ d Hw Hr. destruct (decide (ab_stage v1 = Waiting)) as [E|E].
    + destruct (B6 _ _ E Hr) as (H1 & H2 & H3). rewrite A3 in H1. split_and!; [done..|].
      destruct (ab_outcome v) eqn:Eo; [|done]. rewrite A5 in H3; congruence.
    + rewrite (B4 E) in Hr. by apply A6.
Qed.

(** what was recorded of a Marketplace invoice is permanent.  In every later state the
    invoice is still there with the same owner, sealed request and window; an activation,
    with its instant and payment deadline, or a voiding is never undone or changed, and a
    recorded outcome is never changed; an invoice that became active in between did so
    before its window ended, with its deadline ahead, and had no outcome then. *)
Theorem market_invoice_permanent md md' id v :
  rtc market_step md md' → market_wf md → invoice_of md id = Some v →
  ∃ v', invoice_of md' id = Some v' ∧ kept v v'.
Proof. intros H W. by apply lifecycle_kept, steps_lifecycle. Qed.
End lifecycle.
