(* ===== verification/MarketReplay.v ===== *)
(** * MarketReplay: retried Marketplace requests

    What a retried preparation or activation answers in every later state of the server,
    and what an activation publishes. *)

From S2P Require Import Prelude Text Locks Invoice Receiving Payment Lifecycle Pricing Intent Readers Database OutboxStore CreateInvoice PaymentRecord Crypto Observations Settlement LifecycleStore Drains DrainProps Status Creators Allocation Allocated Provider MarketTerms MarketStore MarketObserve MarketProps MarketLifecycle Sorting.
Local Open Scope string_scope.
Local Open Scope Z_scope.

(** ** What a step keeps of the rows *)

Record keeps_rows (md md' : MarketDb) : Prop := {
  kr_preparation : ∀ id p, preparation md id = Some p → ∃ p', preparation md' id = Some p' ∧ same_columns p p';
  kr_settlement : ∀ id s, mm_settlements md !! id = Some s →
    ∃ s', mm_settlements md' !! id = Some s' ∧ sealed_columns s' = sealed_columns s;
  kr_creators : creators (mm_db md) ⊆ creators (mm_db md');
  kr_accounts : ∀ id c, ac_creators (mm_ac md) !! id = Some c →
    ∃ c', ac_creators (mm_ac md') !! id = Some c' ∧ cc_next_child_index c <= cc_next_child_index c';
}.

#[global] Instance keeps_rows_preorder : PreOrder keeps_rows.
Proof.
  split.
  - intros md. split; try done; [by intros id p Hp; exists p|by intros id s Hs; exists s|by intros id c Hc; exists c].
  - intros a b c H K. split.
    + intros id p Hp. destruct (kr_preparation _ _ H _ _ Hp) as (q & Hq & Hpq).
      destruct (kr_preparation _ _ K _ _ Hq) as (r & Hr & Hqr). exists r. split; [done|]. by etransitivity.
    + intros id s Hs. destruct (kr_settlement _ _ H _ _ Hs) as (t & Ht & Hst).
      destruct (kr_settlement _ _ K _ _ Ht) as (u & Hu & Htu). exists u. split; [done|]. congruence.
    + etransitivity; [apply (kr_creators _ _ H)|apply (kr_creators _ _ K)].
    + intros id x Hx. destruct (kr_accounts _ _ H _ _ Hx) as (y & Hy & ?).
      destruct (kr_accounts _ _ K _ _ Hy) as (z & Hz & ?). exists z. split; [done|lia].
Qed.

Lemma writes_keeps md md' id p :
  writes md md' id p → (∀ old, preparation md id = Some old → same_columns old p) →
  (∀ i s, mm_settlements md !! i = Some s → mm_settlements md' !! i = Some s) → keeps_rows md md'.
Proof.
  intros Wr Hsame Hs. split.
  - intros i q Hq. rewrite (wr_preparation _ _ _ _ Wr). case_decide; [subst i; exists p; by auto|by exists q].
  - intros i s Hi. exists s. by auto.
  - by rewrite (wr_creators _ _ _ _ Wr).
  - apply (wr_accounts _ _ _ _ Wr).
Qed.

Lemma frame_keeps md md' : market_frame md md' → keeps_rows md md'.
Proof.
  intros F. split.
  - intros id p Hp. exists p. by rewrite (fr_preparation _ _ F).
  - intros id s Hs. pose proof (frame_settled _ _ id F) as Hiff. rewrite Hs in Hiff.
    destruct (proj2 Hiff) as [s' Hs']; [by eauto|]. exists s'. split; [done|].
    destruct (frame_settlement _ _ _ _ F Hs') as (t & Ht & Heq). congruence.
  - apply (fr_creators _ _ F).
  - apply (fr_accounts _ _ F).
Qed.

(** The creator of a hash is found in every later state. *)
Lemma later_creator_row md later hash id c :
  keeps_rows md later → market_wf later → creators (mm_db md) !! id = Some hash → ac_creators (mm_ac md) !! id = Some c →
  creator_of_hash (mm_db later) hash = Some id
  ∧ ∃ c', creator_row_of_hash (mm_ac later) hash = Some (id, hash, c') ∧ cc_next_child_index c <= cc_next_child_index c'.
Proof.
  intros K W Hid Hc. pose proof (lookup_weaken _ _ _ _ Hid (kr_creators _ _ K)) as Hl.
  assert (creator_of_hash (mm_db later) hash = Some id) as Hof.
  { unfold creator_of_hash. rewrite (select_one_unique _ _ id hash); [done|done|apply String.eqb_refl|].
    intros i h Hi ->%String.eqb_eq. by eapply (mw_creators _ W). }
  split; [done|]. destruct (kr_accounts _ _ K _ _ Hc) as (c' & Hc' & Hle). exists c'. split; [|done].
  unfold creator_row_of_hash, creator_row. unfold mm_db in Hof, Hl. rewrite Hof. simpl. by rewrite Hl, Hc'.
Qed.

(** The operation of a preparation leads back to it. *)
Lemma load_locked_row md id p :
  market_wf md → preparation md id = Some p →
  load_locked md (pp_creator_id p) (pn_operation_lookup_hash (pp_columns p)) = Some (id, pp_columns p).
Proof.
  intros W Hp. pose proof Hp as (Ho & _ & Hc)%preparation_some. unfold load_locked.
  apply select_one_unique; [done|by rewrite Ho, bool_decide_eq_true_2, String.eqb_refl|].
  intros i c Hi [Hown%bool_decide_eq_true Hop%String.eqb_eq]%andb_true_iff.
  destruct (mw_rows _ W _ _ Hi) as [q Hq]. pose proof Hq as (Ho' & _ & Hc')%preparation_some.
  eapply (mw_operation _ W i id q p Hq Hp); congruence.
Qed.

Section replay.
Context {core : LocksCore} {lib : PaykitLib}.
Context {prim : CryptoPrimitives} {observations : ObservationCodec} {allocation : AllocationCodec}
  {codec : PreparationCodec} (crypto : Crypto).
Context {laws : CryptoLaws prim} {allocation_laws : AllocationCodecLaws allocation}
  {codec_laws : PreparationCodecLaws codec}.
Context (from_bytes : string → option DeliveryIntentV1) (to_bytes : DeliveryIntentV1 → option string).
Context {Json : Type} (json_from_str : string → option Json)
  (json_value : Json → option string) (json_is_object : Json → list (string * string) → bool).
Context (format_rfc3339 : Z → option string).
Notation effect := (effect crypto to_bytes json_from_str json_value json_is_object format_rfc3339).
Notation market_step := (market_step crypto to_bytes json_from_str json_value json_is_object format_rfc3339).
Notation activation := (activation crypto to_bytes json_from_str json_value json_is_object format_rfc3339).
Notation preparing := (preparing crypto json_from_str json_value json_is_object).
Notation from_intent := (from_intent json_from_str json_value json_is_object).
Notation market_validate_intent := (market_validate_intent json_from_str json_value json_is_object).
Notation decode_lifecycle_envelope := (decode_lifecycle_envelope crypto json_from_str json_value json_is_object).
Notation market_activate := (market_activate crypto to_bytes json_from_str json_value json_is_object format_rfc3339).
Notation market_prepare := (market_prepare crypto json_from_str json_value json_is_object).
Notation validate_replay := (validate_replay crypto json_from_str json_value json_is_object).
Notation market_void := (market_void crypto json_from_str json_value json_is_object).
Notation envelope_quote := (envelope_quote json_from_str json_value json_is_object).
Notation validate_settlement := (validate_settlement crypto json_from_str json_value json_is_object).
Notation lookup_hash := (lookup_hash crypto).
Notation creator_hash_of := (creator_hash_of crypto).
Notation open_preparation := (open_preparation crypto).

Lemma effect_keeps md md' : market_wf md → effect md md' → keeps_rows md md'.
Proof.
  intros W [H|? ? ? ? i ? ? ? ? ? ? ? ? ? ? H|? i p ? ? ? ? ? ? ? ? ? ? ? ? ? Hp _ _ _ H|i p now Hp _ H|i p outcome now Hp _ H].
  - by apply frame_keeps.
  - destruct H. eapply writes_keeps; [done| |by rewrite px_settlements].
    intros old (_ & _ & Ho)%preparation_some. congruence.
  - destruct H as [_ _ _ _ _ _ _ _ _ [Wr _ Hnone Hset _ _ _ _ _ _] _ _]. eapply writes_keeps; [done| |].
    + intros old Hold. assert (old = p) as -> by congruence. apply activated_same.
    + intros j t Hs. rewrite Hset. rewrite lookup_insert_ne; [done|]. intros <-. congruence.
  - apply update_preparation_ok with (old := p) in H as (-> & _); [|done]. eapply writes_keeps; [apply put_writes| |done].
    intros old Hold. assert (old = p) as -> by congruence. apply voided_same.
  - apply update_preparation_ok with (old := p) in H as (-> & _); [|done]. eapply writes_keeps; [apply put_writes| |done].
    intros old Hold. assert (old = p) as -> by congruence. apply resolved_same.
Qed.

Lemma steps_keep md md' : rtc market_step md md' → market_wf md → keeps_rows md md'.
Proof.
  induction 1 as [md|md md1 md' H _ IH]; intros W; [done|]. apply step_effect in H; [|done].
  etransitivity; [by apply effect_keeps|]. by apply IH, (effect_wf _ _ _ _ _ _ _ _ W H).
Qed.

(** ** Preparing again *)

Lemma truncate_micros_le t : truncate_micros t <= t.
Proof. unfold truncate_micros. pose proof (Z.mod_pos_bound (t mod NANOS_PER_SECOND) 1000). lia. Qed.

Lemma open_prepared e bytes creator_hash id nonce envelope :
  pe_version e = 2 → String.length nonce = NONCE_LENGTH → preparation_to_bytes e = Some bytes →
  encrypt crypto nonce (ctx_marketplace_preparation creator_hash id) bytes = Ok envelope →
  open_preparation creator_hash id envelope = Ok e.
Proof.
  intros Hv Hn Hb He. unfold MarketStore.open_preparation. rewrite (decrypt_encrypt _ _ _ _ _ Hn He). simpl.
  destruct (preparation_first _ _ Hb) as [rest ->]. rewrite Hv in *.
  change (preparation_decode (String (byte_char 2) rest))
    with (ok_or (preparation_from_bytes (String (byte_char 2) rest)) PE_CorruptOrMissing).
  by rewrite (preparation_reread _ _ Hb).
Qed.

Lemma lifetime_new input creator deadline prepared_at terms intent (p' : Preparation) :
  deadline <= instant_max →
  checked_sub_seconds (truncate_micros deadline) (mi_prepare_ttl_seconds input) = Some prepared_at →
  pn_prepared_at (pp_columns p') = prepared_at → pn_prepare_expires_at (pp_columns p') = truncate_micros deadline →
  lifetime_consistent (new_envelope input creator prepared_at (truncate_micros deadline) terms intent) (pp_columns p') = true.
Proof.
  intros Hd Hs Hp He. unfold lifetime_consistent. simpl. rewrite Hp, He, !Z.eqb_refl. simpl. apply bool_decide_eq_true.
  unfold checked_sub_seconds in Hs. cbv zeta in Hs. case_match; [|done]. injection Hs as <-. unfold checked_add_seconds.
  cbv zeta. pose proof (truncate_micros_le deadline). replace (_ + _) with (truncate_micros deadline) by lia.
  by rewrite (proj2 (Z.leb_le _ _)) by lia.
Qed.

(** The same request: everything the binding of a preparation covers. *)
Definition same_request (input input' : MarketplacePreparationInput) : Prop :=
  mi_creator input' = mi_creator input ∧ mi_reader input' = mi_reader input
  ∧ mi_reference input' = mi_reference input ∧ mi_operation_id input' = mi_operation_id input
  ∧ mi_request_binding input' = mi_request_binding input ∧ mi_amount input' = mi_amount input
  ∧ mi_asset input' = mi_asset input ∧ mi_payment_window_seconds input' = mi_payment_window_seconds input.

(** The guards in front of the transaction. *)
Definition well_formed_request (input : MarketplacePreparationInput) : Prop :=
  str_is_empty (mi_operation_id input) = false ∧ str_is_empty (mi_request_binding input) = false
  ∧ mi_payment_window_seconds input ≠ 0 ∧ mi_prepare_ttl_seconds input ≠ 0
  ∧ mi_prepare_ttl_seconds input <= i64_max.

Lemma market_prepare_guards md input id nonce now x :
  market_prepare md input id nonce now = Ok x → well_formed_request input.
Proof.
  unfold MarketStore.market_prepare. intros H. apply bind_ok in H as ([] & H1%ensure_ok & H).
  apply bind_ok in H as ([] & H2%ensure_ok & _). split_bools. unfold well_formed_request. split_and!; (done || lia).
Qed.

Lemma market_prepare_found md input id nonce now creator_id c existing columns :
  well_formed_request input →
  creator_row_of_hash (mm_ac md) (creator_hash_of (mi_creator input))
    = Some (creator_id, creator_hash_of (mi_creator input), c) →
  String.length (creator_hash_of (mi_creator input)) = 32%nat → 0 <= cc_next_child_index c →
  load_locked md creator_id (lookup_hash (mi_operation_id input)) = Some (existing, columns) →
  market_prepare md input id nonce now
  = (result ← validate_replay (creator_hash_of (mi_creator input)) input existing columns; Ok (result, md)).
Proof.
  intros (H1 & H2 & H3%Z.eqb_neq & H4%Z.eqb_neq & H5%Z.leb_le) Hrow Hlen Hidx%Z.leb_le Hl. unfold MarketStore.market_prepare.
  rewrite H1, H2, H3, H4, H5. simpl. rewrite Hrow. simpl. rewrite (proj2 (stored_hash_ok _ _) (conj eq_refl Hlen)). simpl.
  by rewrite String.eqb_refl, Hidx, Hl.
Qed.

Definition replayed (res : MarketplacePreparationResult) : MarketplacePreparationResult :=
  mk_MarketplacePreparationResult (mr_invoice_id res) (mr_terms res) (mr_quote res) (mr_prepared_at res)
    (mr_prepare_expires_at res) true.

Section prepared.
Context {md md' : MarketDb} {input : MarketplacePreparationInput} {creator_id : RowId} {creator : CreatorColumns}
  {id : RowId} {nonce : string} {now : Z} {res : MarketplacePreparationResult} {deadline prepared_at : Z}
  {intent : DeliveryIntentV1} {terms : MarketplaceTerms} {quote : MarketplaceQuote} {plaintext envelope : string}.
Context (P : preparing md input creator_id (creator_hash_of (mi_creator input)) creator id nonce now res md' deadline
               prepared_at intent terms quote plaintext envelope).
Context (Hn : String.length nonce = NONCE_LENGTH) (Hmax : deadline <= instant_max)
  (Hchild : 0 <= cc_next_child_index creator) (Hguards : well_formed_request input).
Context {p' : Preparation}
  (Hsame : same_columns (new_preparation crypto input creator_id envelope prepared_at (truncate_micros deadline)) p')
  (Hcheck : preparation_check p' = true).

(** The row answers the request that made it. *)
Lemma prepared_replay input' :
  same_request input input' →
  validate_replay (creator_hash_of (mi_creator input)) input' id (pp_columns p') = Ok (replayed res).
Proof.
  intros (_ & Hreader & Href & Hop & Hbind & Ham & Has & Hwin). destruct Hsame as (_ & So & Sr & Sd & Se & Sp & Sx). simpl in *.
  destruct (check_hashes _ Hcheck) as (Lo & Lr & Ld). destruct P. destruct px_terms as [Ta Ts]. unfold MarketStore.validate_replay.
  rewrite (proj2 (stored_hash_ok _ _) (conj eq_refl Lo)). simpl. rewrite So, Hop, String.eqb_refl. simpl.
  rewrite (proj2 (stored_hash_ok _ _) (conj eq_refl Lr)). simpl. rewrite Sr, Hbind, String.eqb_refl. simpl.
  rewrite (proj2 (stored_hash_ok _ _) (conj eq_refl Ld)). simpl. rewrite Sd, Hreader, String.eqb_refl. simpl. rewrite Se.
  rewrite (open_prepared (new_envelope input creator prepared_at (truncate_micros deadline) terms intent) _ _ _ _ _ eq_refl Hn px_plaintext px_envelope). simpl.
  destruct Hguards as (_ & _ & _ & _ & Httl%Z.leb_le). rewrite Httl. simpl.
  rewrite (lifetime_new input creator deadline prepared_at terms intent p') by done. unfold terms_match. simpl.
  rewrite !String.eqb_refl, Href, String.eqb_refl, Ta, Ts, Ham, Has, Hwin, !Z.eqb_refl. unfold asset_eqb.
  rewrite bool_decide_eq_true_2 by done. apply Z.leb_le in Hchild. rewrite Hchild. simpl.
  rewrite px_quote. simpl. by rewrite Sp, Sx, px_result.
Qed.

(** And no other. *)
Lemma prepared_conflict input' :
  mi_operation_id input' = mi_operation_id input →
  lookup_hash (mi_request_binding input') ≠ lookup_hash (mi_request_binding input) →
  validate_replay (creator_hash_of (mi_creator input)) input' id (pp_columns p') = Err PE_Conflict.
Proof.
  intros Hop Hbind. destruct Hsame as (_ & So & Sr & _). simpl in *. destruct (check_hashes _ Hcheck) as (Lo & Lr & _).
  unfold MarketStore.validate_replay.
  rewrite (proj2 (stored_hash_ok _ _) (conj eq_refl Lo)). simpl. rewrite So, Hop, String.eqb_refl. simpl.
  rewrite (proj2 (stored_hash_ok _ _) (conj eq_refl Lr)). simpl. rewrite Sr.
  rewrite (proj2 (String.eqb_neq _ _)) by congruence. done.
Qed.
End prepared.

(** What a first preparation left, in every later state. *)
Lemma prepared_later md input id nonce now res md' later :
  market_wf md → market_prepare md input id nonce now = Ok (res, md') → mr_replayed res = false →
  rtc market_step md' later →
  ∃ creator_id creator creator' deadline prepared_at intent terms quote plaintext envelope p',
    preparing md input creator_id (creator_hash_of (mi_creator input)) creator id nonce now res md' deadline prepared_at
      intent terms quote plaintext envelope
    ∧ 0 <= cc_next_child_index creator ∧ String.length (creator_hash_of (mi_creator input)) = 32%nat
    ∧ creator_of_hash (mm_db later) (creator_hash_of (mi_creator input)) = Some creator_id
    ∧ creator_row_of_hash (mm_ac later) (creator_hash_of (mi_creator input))
      = Some (creator_id, creator_hash_of (mi_creator input), creator') ∧ 0 <= cc_next_child_index creator'
    ∧ same_columns (new_preparation crypto input creator_id envelope prepared_at (truncate_micros deadline)) p'
    ∧ preparation_check p' = true ∧ pp_creator_id p' = creator_id
    ∧ load_locked later creator_id (lookup_hash (mi_operation_id input)) = Some (id, pp_columns p').
Proof.
  intros W H Hnew Hsteps. apply market_prepare_ok in H as (creator_id & creator & Hrow & Hidx & Hlen & H).
  destruct (load_locked _ _ _) as [[existing c]|].
  { destruct H as [H _]. exfalso. unfold MarketStore.validate_replay in H.
    repeat (apply bind_ok in H as (? & _ & H)). injection H as <-. done. }
  apply prepare_new_ok in H as (deadline & prepared_at & intent & terms & quote & plaintext & envelope & P).
  assert (market_wf md') as W' by (by eapply preparing_wf).
  pose proof (steps_keep _ _ Hsteps W') as K. assert (market_wf later) as WL by (by eapply steps_wf).
  pose proof (creator_row_of_hash_some _ _ _ _ _ Hrow) as (_ & _ & Hh & Hc).
  pose proof (px_writes _ _ _ _ _ _ _ _ _ _ _ _ _ _ _ _ _ _ _ _ _ P) as Wr.
  destruct (wr_accounts _ _ _ _ Wr _ _ Hc) as (c1 & Hc1 & Hle1).
  assert (creators (mm_db md') !! creator_id = Some (creator_hash_of (mi_creator input))) as Hh'
    by (by rewrite (wr_creators _ _ _ _ Wr)).
  destruct (later_creator_row _ _ _ _ _ K WL Hh' Hc1) as (Hof & c2 & Hrow2 & Hle2).
  destruct (kr_preparation _ _ K id (new_preparation crypto input creator_id envelope prepared_at (truncate_micros deadline)))
    as (p' & Hp' & Hs); [by rewrite (wr_preparation _ _ _ _ Wr), decide_True|].
  pose proof Hs as (Scr & Sop & _). simpl in Scr, Sop. pose proof (load_locked_row _ _ _ WL Hp') as Hload.
  rewrite Scr, Sop in Hload. pose proof (mw_check _ WL _ _ Hp') as Hck.
  exists creator_id, creator, c2, deadline, prepared_at, intent, terms, quote, plaintext, envelope, p'.
  split_and!; (done || lia).
Qed.

(** C12: preparing a Marketplace invoice is idempotent.  After a first preparation, whatever
    the server does next (activating, voiding or resolving this invoice, observing its
    payments, serving others), the same request, retried with any payloads, identifiers,
    time to live and clock, answers the first result marked as a replay and writes
    nothing, and the preflight announces it; another request under the same operation
    is refused as a conflict by both. *)
Theorem preparation_idempotent md input id nonce now res md' later input' id' nonce' now' :
  market_wf md → String.length nonce = NONCE_LENGTH →
  (∀ d, mi_prepare_deadline input = Some d → d <= instant_max) →
  market_prepare md input id nonce now = Ok (res, md') → mr_replayed res = false →
  rtc market_step md' later → well_formed_request input' →
  (same_request input input' →
     market_prepare later input' id' nonce' now' = Ok (replayed res, later)
     ∧ market_preflight crypto later (mi_creator input') (mi_operation_id input') (mi_request_binding input')
       = Ok MP_ExactReplay)
  ∧ (mi_creator input' = mi_creator input → mi_operation_id input' = mi_operation_id input →
     lookup_hash (mi_request_binding input') ≠ lookup_hash (mi_request_binding input) →
     market_prepare later input' id' nonce' now' = Err PE_Conflict
     ∧ market_preflight crypto later (mi_creator input') (mi_operation_id input') (mi_request_binding input')
       = Ok MP_Conflict).
Proof.
  intros W Hn Hmax H Hnew Hsteps Hwf'. pose proof (market_prepare_guards _ _ _ _ _ _ H) as Hguards.
  destruct (prepared_later _ _ _ _ _ _ _ _ W H Hnew Hsteps) as (creator_id & creator & creator' & deadline & prepared_at
    & intent & terms & quote & plaintext & envelope & p' & P & Hidx & Hlen & Hof & Hrow & Hidx' & Hs & Hck & Hcr & Hload).
  assert (deadline <= instant_max) as Hd by (apply Hmax, P). destruct Hwf' as (G1 & G2 & G3).
  assert (∀ binding, market_preflight crypto later (mi_creator input) (mi_operation_id input) binding
            = if str_is_empty binding then Err PE_InvalidInput
              else Ok (if String.eqb (lookup_hash (mi_request_binding input)) (lookup_hash binding)
                       then MP_ExactReplay else MP_Conflict)) as Hpre.
  { intros binding. unfold market_preflight. destruct Hguards as (-> & _). simpl.
    destruct (str_is_empty binding); [done|]. simpl. rewrite Hof. simpl. rewrite Hload.
    destruct (check_hashes _ Hck) as (_ & Lr & _). rewrite (proj2 (stored_hash_ok _ _) (conj eq_refl Lr)). simpl.
    destruct Hs as (_ & _ & -> & _). done. }
  split.
  - intros S. pose proof S as (Sc & _ & _ & So & Sb & _). split.
    + rewrite (market_prepare_found _ _ _ _ _ creator_id creator' id (pp_columns p')); rewrite ?Sc, ?So; try done.
      rewrite (prepared_replay P Hn Hd Hidx Hguards Hs Hck _ S). done.
    + rewrite Sc, So, Hpre, G2, Sb, String.eqb_refl. done.
  - intros Sc So Hne. split.
    + rewrite (market_prepare_found _ _ _ _ _ creator_id creator' id (pp_columns p')); rewrite ?Sc, ?So; try done.
      rewrite (prepared_conflict Hs Hck _ So Hne). done.
    + rewrite Sc, So, Hpre, G2. by rewrite (proj2 (String.eqb_neq _ _)) by congruence.
Qed.
End replay.
