(* ===== verification/MarketActivation.v ===== *)
(** * MarketActivation: what an activation publishes and how it replays *)

From S2P Require Import Prelude Text Locks Invoice Receiving Payment Lifecycle Pricing Intent Readers Database OutboxStore CreateInvoice PaymentRecord Crypto Observations Settlement LifecycleStore Drains DrainProps Status Creators Allocation Allocated Provider MarketTerms MarketStore MarketObserve MarketProps MarketLifecycle MarketReplay Sorting.
Local Open Scope string_scope.
Local Open Scope Z_scope.

(** The proposal is open for the acceptance window, at most half the payment window; the
    payment deadline is exactly one payment window away. *)
Lemma activation_deadlines_ok now window acceptance proposal deadline :
  activation_deadlines now window acceptance = Ok (proposal, deadline) →
  deadline = now + window * NANOS_PER_SECOND
  ∧ proposal = now + Z.min acceptance (window * NANOS_PER_SECOND / 2).
Proof.
  unfold activation_deadlines, checked_add_seconds, checked_add_nanos, duration_try_from. cbv zeta. intros H.
  apply bind_ok in H as (d & Hd%ok_or_ok & H). apply bind_ok in H as (c & Hc%ok_or_ok & H).
  apply bind_ok in H as (q & Hq%ok_or_ok & [= <- <-]). repeat case_match; by simplify_eq.
Qed.

Section activation.
Context {core : LocksCore} {lib : PaykitLib}.
Context {prim : CryptoPrimitives} {observations : ObservationCodec} {allocation : AllocationCodec}
  {codec : PreparationCodec} (crypto : Crypto).
Context {laws : CryptoLaws prim} {allocation_laws : AllocationCodecLaws allocation}.
Context (from_bytes : string → option DeliveryIntentV1) (to_bytes : DeliveryIntentV1 → option string).
Context {Json : Type} (json_from_str : string → option Json)
  (json_value : Json → option string) (json_is_object : Json → list (string * string) → bool).
Context (format_rfc3339 : Z → option string).
Notation market_step := (market_step crypto to_bytes json_from_str json_value json_is_object format_rfc3339).
Notation activation := (activation crypto to_bytes json_from_str json_value json_is_object format_rfc3339).
Notation activated_intent := (activated_intent json_from_str json_value json_is_object format_rfc3339).
Notation from_intent := (from_intent json_from_str json_value json_is_object).
Notation quote_from_intent := (quote_from_intent json_from_str json_value json_is_object).
Notation market_validate_intent := (market_validate_intent json_from_str json_value json_is_object).
Notation decode_lifecycle_envelope := (decode_lifecycle_envelope crypto json_from_str json_value json_is_object).
Notation market_activate := (market_activate crypto to_bytes json_from_str json_value json_is_object format_rfc3339).
Notation market_void := (market_void crypto json_from_str json_value json_is_object).
Notation envelope_quote := (envelope_quote json_from_str json_value json_is_object).
Notation validate_settlement := (validate_settlement crypto json_from_str json_value json_is_object).
Notation new_settlement := (new_settlement crypto json_from_str json_value json_is_object).
Notation creator_hash_of := (creator_hash_of crypto).

Lemma validated_quote intent reader reference terms quote :
  market_validate_intent intent reader reference terms = Ok quote →
  validate intent = Ok tt ∧ quote_from_intent intent terms = Ok quote.
Proof.
  unfold MarketStore.market_validate_intent. intros H. apply bind_ok in H as ([] & Hv%map_err_ok & H).
  apply bind_ok in H as ([] & _ & H). apply bind_ok in H as (t & _ & H). by apply bind_ok in H as ([] & _ & H).
Qed.

(** The published intent is the sealed one with the deadlines of the activation, so it
    carries the same quote. *)
Lemma activated_intent_ok e proposal deadline intent quote :
  activated_intent e proposal deadline = Ok (intent, quote) →
  ∃ pt dt, format_rfc3339 proposal = Some pt ∧ format_rfc3339 deadline = Some dt
    ∧ set_deadlines (pe_payment_request_intent e) pt dt = (intent, Ok tt)
    ∧ retimed (pe_payment_request_intent e) intent ∧ validate intent = Ok tt
    ∧ quote_from_intent intent (pe_terms e) = Ok quote ∧ envelope_quote e = Ok quote.
Proof.
  unfold MarketStore.activated_intent. intros H. apply bind_ok in H as (pt & Hpt%ok_or_ok & H).
  apply bind_ok in H as (dt & Hdt%ok_or_ok & H).
  pose proof (set_deadlines_retimed (pe_payment_request_intent e) pt dt) as Hr.
  destruct (set_deadlines _ _ _) as [i out] eqn:E. simpl in Hr. apply bind_ok in H as ([] & Hout%map_err_ok & H).
  apply bind_ok in H as (reader & _ & H). apply bind_ok in H as (q & Hq & [= <- <-]).
  apply validated_quote in Hq as [Hv Hq]. exists pt, dt. subst out. split_and!; [done..|].
  unfold MarketStore.envelope_quote. rewrite <- (quote_retimed _ _ _ _ _ (pe_terms e) Hr), Hq. done.
Qed.

Lemma new_settlement_ok creator_hash id index intent nonce s :
  String.length nonce = NONCE_LENGTH → new_settlement creator_hash id index intent nonce = Ok s →
  ∃ record, from_intent index intent = Ok record
    ∧ decrypt_settlement_payment_record crypto creator_hash id (se_payment_record_envelope s) = Ok record
    ∧ settlement_address_hash crypto record = Ok (se_address_lookup_hash s)
    ∧ se_derivation_index_lookup_hash s = settlement_derivation_hash crypto creator_hash record
    ∧ se_projection s = undetected.
Proof.
  intros Hn H. unfold MarketStore.new_settlement in H. apply bind_ok in H as (record & Hr & H).
  apply bind_ok in H as (address & Ha & H). apply bind_ok in H as (bytes & Hb%ok_or_ok & H).
  apply bind_ok in H as (envelope & He%map_err_ok & [= <-]). exists record. simpl. split_and!; [done| |done..].
  unfold decrypt_settlement_payment_record. rewrite (decrypt_encrypt _ _ _ _ _ Hn He). simpl.
  by rewrite (record_reread _ _ Hb).
Qed.

(** The settlement of an activation is the one its sealed intent determines. *)
Lemma settlement_valid md creator_hash id p e s owner intent :
  settlement md id = Some (owner, s) → owner = pp_creator_id p → retimed (pe_payment_request_intent e) intent →
  (∃ record, from_intent (pe_child_index e) intent = Ok record
    ∧ decrypt_settlement_payment_record crypto creator_hash id (se_payment_record_envelope s) = Ok record
    ∧ settlement_address_hash crypto record = Ok (se_address_lookup_hash s)
    ∧ se_derivation_index_lookup_hash s = settlement_derivation_hash crypto creator_hash record) →
  validate_settlement md creator_hash id p e = Ok tt.
Proof.
  intros Hs -> Hr (record & Hi & Hd & Ha & Hx). unfold MarketStore.validate_settlement. rewrite Hs. simpl.
  rewrite bool_decide_eq_true_2 by done. simpl. rewrite Hd. simpl.
  rewrite <- (from_intent_retimed _ _ _ _ _ _ Hr), Hi. simpl. rewrite bool_decide_eq_true_2 by done. simpl. rewrite Ha. simpl.
  rewrite bool_decide_eq_true_2 by done. by rewrite Hx, String.eqb_refl.
Qed.

Context (intent_reread : ∀ i bytes, to_bytes i = Some bytes → from_bytes bytes = Some i).

(** A first activation, unfolded. *)
Lemma first_activation md input fresh now r md' :
  market_activate md input fresh now = Ok (Some r, md') → mx_replayed r = false →
  ∃ p e proposal deadline intent quote plaintext envelope reference s,
    load_lifecycle_locked crypto md (ma_creator input) (ma_invoice_id input) = Some (creator_hash_of (ma_creator input), p)
    ∧ String.length (creator_hash_of (ma_creator input)) = 32%nat
    ∧ decode_lifecycle_envelope (creator_hash_of (ma_creator input)) (ma_invoice_id input) (pp_columns p) = Ok e
    ∧ terms_match e (ma_amount input) (ma_asset input) = true
    ∧ pp_state p = Prepared ∧ pn_resolved_at (pp_columns p) = None ∧ now < pn_prepare_expires_at (pp_columns p)
    ∧ activation md (creator_hash_of (ma_creator input)) (ma_invoice_id input) p e input fresh now r md' proposal deadline
        intent quote plaintext envelope reference s.
Proof.
  intros H Hnew. apply market_activate_ok in H as [(_ & _ & [=])|(p & e & r' & [= <-] & Hl & Hlen & He & Ht & H)].
  destruct H as [(_ & _ & Hr)|(Hst & Hres & Hexp & H)]; [congruence|].
  pose proof (load_lifecycle_some _ _ _ _ _ _ Hl) as (Hp & _ & _).
  apply activate_prepared_ok in H as (proposal & deadline & intent & quote & plaintext & envelope & reference & s & A); [|done].
  by exists p, e, proposal, deadline, intent, quote, plaintext, envelope, reference, s.
Qed.

(** C13: an activation publishes exactly what was prepared.  It happens only before the
    window ends and with the prepared amount and denomination.  It records the instant and
    a payment deadline one payment window away, queues exactly one proposal, which opens
    to the sealed request with the deadlines of this activation, the proposal's no later
    than half the payment window, and answers the quote of the preparation, which is the
    quote of the published request.  The settlement it creates opens to the payment
    record of that request under the reserved child index, and claims its Bitcoin address,
    which nothing owned before. *)
Theorem activation_exact md input fresh now r md' :
  market_wf md → String.length (at_outbox_nonce fresh) = NONCE_LENGTH → String.length (at_record_nonce fresh) = NONCE_LENGTH →
  market_activate md input fresh now = Ok (Some r, md') → mx_replayed r = false →
  let id := ma_invoice_id input in
  let hash := creator_hash_of (ma_creator input) in
  ∃ p e proposal deadline intent quote row s record,
    preparation md id = Some p ∧ pp_state p = Prepared ∧ now < pn_prepare_expires_at (pp_columns p)
    ∧ decode_lifecycle_envelope hash id (pp_columns p) = Ok e
    ∧ mt_amount (pe_terms e) = ma_amount input ∧ mt_asset (pe_terms e) = ma_asset input
    ∧ deadline = now + pe_payment_window_seconds e * NANOS_PER_SECOND
    ∧ proposal = now + Z.min (ma_proposal_acceptance_window input) (pe_payment_window_seconds e * NANOS_PER_SECOND / 2)
    ∧ r = mk_MarketplaceActivationResult id now deadline (pe_terms e) quote false
    ∧ envelope_quote e = Ok quote ∧ quote_from_intent intent (pe_terms e) = Ok quote
    ∧ preparation md' id = Some (activated now deadline p)
    ∧ outbox (mm_db md) !! at_outbox_id fresh = None
    ∧ outbox (mm_db md') = <[at_outbox_id fresh := row]> (outbox (mm_db md))
    ∧ market_proposal id row = true ∧ o_status row = Queued
    ∧ open_intent crypto from_bytes hash (at_outbox_id fresh) (o_intent_envelope (o_key row)) = Ok intent
    ∧ retimed (pe_payment_request_intent e) intent
    ∧ (∃ pt dt, format_rfc3339 proposal = Some pt ∧ format_rfc3339 deadline = Some dt
         ∧ set_deadlines (pe_payment_request_intent e) pt dt = (intent, Ok tt))
    ∧ settlement md' id = Some (pp_creator_id p, s)
    ∧ decrypt_settlement_payment_record crypto hash id (se_payment_record_envelope s) = Ok record
    ∧ from_intent (pe_child_index e) intent = Ok record
    ∧ (∀ address, se_address_lookup_hash s = Some address →
         ac_address_owners (mm_ac md) !! address = None
         ∧ ac_address_owners (mm_ac md') !! address = Some (OwnerMarketplace id)).
Proof.
  intros W Hn1 Hn2 H Hnew id hash. subst id hash. apply first_activation in H as (p & e & proposal & deadline & intent & quote & plaintext
    & envelope & reference & s & Hl & Hlen & He & Ht & Hst & Hres & Hexp & A); [|done].
  pose proof (load_lifecycle_some _ _ _ _ _ _ Hl) as (Hp & _ & _). destruct A.
  destruct (activation_deadlines_ok _ _ _ _ _ ax_deadlines) as [Hd Hq].
  destruct (activated_intent_ok _ _ _ _ _ ax_intent) as (pt & dt & Hpt & Hdt & Hset & Hret & Hv & Hquote & Hquote').
  destruct (new_settlement_ok _ _ _ _ _ _ Hn2 ax_settlement) as (record & Hrec & Hdec & _).
  destruct ax_activates as [Wr _ _ Hs Hown _ Hnone Hout Hprop _].
  eexists p, e, proposal, deadline, intent, quote, _, s, record. apply andb_true_iff in Ht as [Ha Hb]. unfold asset_eqb in Hb.
  split_and!; try done; try by split_bools.
  - by rewrite (wr_preparation _ _ _ _ Wr), decide_True.
  - by rewrite Hprop, bool_decide_eq_true_2.
  - unfold open_intent. simpl. rewrite (decrypt_encrypt _ _ _ _ _ Hn1 ax_envelope). simpl. unfold decode.
    rewrite (intent_reread _ _ ax_plaintext). simpl. by rewrite Hv.
  - by exists pt, dt.
  - apply settlement_some. by rewrite Hs, Hown, !lookup_insert_eq.
Qed.

(** ** Activating again *)

Lemma running_abstract p v a d :
  abstract p = Some v → ab_stage v = Running a d →
  pp_state p = Active ∧ pn_activated_at (pp_columns p) = Some a ∧ pp_payment_deadline p = Some d.
Proof.
  unfold abstract. destruct (stage_of p) as [stage|] eqn:E; [|done]. intros [= <-]. simpl. intros ->. unfold stage_of in E.
  destruct (pp_state p), (pn_activated_at (pp_columns p)), (pp_payment_deadline p), (pn_voided_at (pp_columns p)); by simplify_eq.
Qed.

Lemma decode_same_columns hash id p p' :
  same_columns p p' →
  decode_lifecycle_envelope hash id (pp_columns p') = decode_lifecycle_envelope hash id (pp_columns p).
Proof.
  intros (_ & _ & _ & _ & He & Hp & Hx). unfold MarketStore.decode_lifecycle_envelope, lifetime_consistent. by rewrite He, Hp, Hx.
Qed.

Definition activation_replayed (r : MarketplaceActivationResult) : MarketplaceActivationResult :=
  mk_MarketplaceActivationResult (mx_invoice_id r) (mx_activated_at r) (mx_payment_deadline r) (mx_terms r) (mx_quote r) true.

(** The rows of an activation in every later state. *)
Lemma activated_later md creator_hash id p e input fresh now r md' proposal deadline intent quote plaintext envelope reference s later :
  market_wf md → String.length (at_record_nonce fresh) = NONCE_LENGTH → preparation md id = Some p → pp_state p = Prepared →
  activation md creator_hash id p e input fresh now r md' proposal deadline intent quote plaintext envelope reference s →
  market_wf md' → rtc market_step md' later →
  ∃ p', preparation later id = Some p' ∧ same_columns p p' ∧ pp_state p' = Active
    ∧ pn_activated_at (pp_columns p') = Some now ∧ pp_payment_deadline p' = Some deadline
    ∧ proposals later id (pp_creator_id p') = 1%nat ∧ validate_settlement later creator_hash id p' e = Ok tt.
Proof.
  intros W Hn Hp Hst A W' Hsteps. pose proof A as A'. destruct A' as [_ _ Hint _ _ _ Hset _ _ [Wr Hact _ Hs Hown _ _ _ _ _] _ _].
  assert (preparation md' id = Some (activated now deadline p)) as Hnew by (by rewrite (wr_preparation _ _ _ _ Wr), decide_True).
  assert (market_wf later) as WL by (by eapply steps_wf). pose proof (steps_keep _ _ _ _ _ _ _ _ Hsteps W') as K.
  destruct (kr_preparation _ _ K _ _ Hnew) as (p' & Hp' & Hsame). assert (same_columns p p') as Hsame'
    by (etransitivity; [apply (activated_same now deadline)|done]).
  destruct (invoice_total _ _ _ W Hp) as [v Hv]. unfold invoice_of in Hv. rewrite Hp in Hv. simpl in Hv.
  destruct (waiting_abstract _ _ (mw_check _ W _ _ Hp) Hst Hv) as [_ Hnv].
  assert (invoice_of md' id = Some (with_stage v (Running now deadline))) as Hinv.
  { unfold invoice_of. rewrite Hnew. simpl. by apply activated_abstract. }
  destruct (lifecycle_kept _ _ _ (steps_lifecycle _ _ _ _ _ _ _ _ id Hsteps W') Hinv) as (v' & Hv' & Kv).
  unfold invoice_of in Hv'. rewrite Hp' in Hv'. simpl in Hv'.
  destruct (running_abstract _ _ now deadline Hv') as (Hst' & Hat & Hdl); [by rewrite (kv_stage _ _ Kv)|].
  exists p'. split_and!; [done..|by apply (mw_published _ WL)|].
  destruct (activated_intent_ok _ _ _ _ _ Hint) as (_ & _ & _ & _ & _ & Hret & _).
  destruct (new_settlement_ok _ _ _ _ _ _ Hn Hset) as (record & Hrec & Hdec & Had & Hdx & _).
  assert (mm_settlements md' !! id = Some s) as Hsid by (by rewrite Hs, lookup_insert_eq).
  destruct (kr_settlement _ _ K _ _ Hsid) as (s' & Hs' & [= E1 E2 E3]).
  destruct (mw_settlement _ WL _ _ Hs') as (q & Hq & _ & Hsl). assert (q = p') as -> by congruence.
  eapply settlement_valid; [done|done|done|]. exists record. by rewrite E1, E2, E3.
Qed.

(** C14: activating a Marketplace invoice is idempotent and final.  After a first activation,
    whatever the server does next, the same request answers the first activation, with its
    instant, deadline and quote, marked as a replay, and publishes nothing again; with
    another amount or denomination it is refused; and the invoice can no longer be voided. *)
Theorem activation_replays md input fresh now r md' later input' fresh' now' :
  market_wf md → String.length (at_record_nonce fresh) = NONCE_LENGTH →
  market_activate md input fresh now = Ok (Some r, md') → mx_replayed r = false → rtc market_step md' later →
  ma_creator input' = ma_creator input → ma_invoice_id input' = ma_invoice_id input →
  ma_amount input' ≠ 0 → ma_proposal_acceptance_window input' ≠ 0 →
  market_activate later input' fresh' now'
    = (if decide (ma_amount input' = ma_amount input ∧ ma_asset input' = ma_asset input)
       then Ok (Some (activation_replayed r), later) else Err ML_TotalMismatch)
  ∧ market_void later (ma_creator input) (ma_invoice_id input) now' = Err ML_InvoiceActive.
Proof.
  intros W Hn H Hnew Hsteps Hc Hi Hamount%Z.eqb_neq Hwin%Z.eqb_neq.
  assert (market_wf md') as W'.
  { eapply effect_wf; [done|]. eapply step_effect; [done|]. by eapply ms_activate. }
  apply first_activation in H as (p & e & proposal & deadline & intent & quote & plaintext
    & envelope & reference & s & Hl & Hlen & He & Ht & Hst & Hres & Hexp & A); [|done].
  pose proof (load_lifecycle_some _ _ _ _ _ _ Hl) as (Hp & Hown & _).
  destruct (activated_later _ _ _ _ _ _ _ _ _ _ _ _ _ _ _ _ _ _ _ W Hn Hp Hst A W' Hsteps)
    as (p' & Hp' & Hsame & Hst' & Hat & Hdl & Hcount & Hvalid).
  assert (market_wf later) as WL by (by eapply steps_wf). pose proof (steps_keep _ _ _ _ _ _ _ _ Hsteps W') as K.
  assert (creators (mm_db later) !! pp_creator_id p = Some (creator_hash_of (ma_creator input))) as Hown'.
  { eapply lookup_weaken; [|apply (kr_creators _ _ K)]. destruct A. destruct ax_activates. by rewrite (wr_creators _ _ _ _ av_writes). }
  assert (load_lifecycle_locked crypto later (ma_creator input) (ma_invoice_id input)
          = Some (creator_hash_of (ma_creator input), p')) as Hload.
  { unfold load_lifecycle_locked. rewrite Hp'. simpl. destruct Hsame as (-> & _). rewrite Hown'. simpl.
    by rewrite String.eqb_refl. }
  apply (conj (eq_refl (creator_hash_of (ma_creator input)))), stored_hash_ok in Hlen.
  rewrite <- (decode_same_columns _ _ _ _ Hsame) in He. split.
  - unfold MarketStore.market_activate. rewrite Hc, Hi, Hamount, Hwin. simpl.
    assert (creator_of_hash (mm_db later) (creator_hash_of (ma_creator input)) = Some (pp_creator_id p)) as ->.
    { unfold creator_of_hash. rewrite (select_one_unique _ _ _ _ Hown'); [done|apply String.eqb_refl|].
      intros i h Hih ->%String.eqb_eq. by eapply (mw_creators _ WL). }
    simpl. rewrite Hload. simpl. rewrite Hlen. simpl. rewrite He. simpl. rewrite Hst'. unfold MarketStore.activation_replay.
    unfold terms_match in *. apply andb_true_iff in Ht as [Ha%Z.eqb_eq Hb%bool_decide_eq_true]. rewrite Ha, Hb.
    unfold asset_eqb. case_decide as Hd.
    + destruct Hd as [-> ->]. rewrite Z.eqb_refl, bool_decide_eq_true_2 by done. simpl. rewrite Hat. simpl. rewrite Hdl. simpl.
      unfold proposals in Hcount. rewrite Hcount. simpl. rewrite Hvalid. simpl. destruct A.
      destruct (activated_intent_ok _ _ _ _ _ ax_intent) as (_ & _ & _ & _ & _ & _ & _ & _ & ->). simpl. by rewrite ax_result.
    + destruct (ma_amount input =? ma_amount input') eqn:E; [|done]. apply Z.eqb_eq in E.
      rewrite bool_decide_eq_false_2; [done|]. intros E'. apply Hd. by split.
  - unfold MarketStore.market_void. rewrite Hload. simpl. rewrite Hlen. simpl. rewrite He. simpl. by rewrite Hst'.
Qed.
End activation.
