(* ===== verification/MarketJudged.v ===== *)
(** * MarketJudged: how the status of a Marketplace invoice judges its payments

    Each rail is judged alone against the amount and window of the settlement; the paid
    asset is the rail whose payment qualified first. *)

From S2P Require Import Prelude Text Locks Invoice Receiving Payment Lifecycle Pricing Intent Readers Database OutboxStore CreateInvoice PaymentRecord Crypto Observations Settlement LifecycleStore Drains DrainProps Status Creators Allocation Allocated Provider MarketTerms MarketStore MarketObserve MarketStatus MarketProps Sorting.
Local Open Scope string_scope.
Local Open Scope Z_scope.

Section judged.
Context {core : LocksCore} {lib : PaykitLib}.
Context {prim : CryptoPrimitives} {observations : ObservationCodec} {codec : PreparationCodec} (crypto : Crypto).
Context {Json : Type} (json_from_str : string → option Json)
  (json_value : Json → option string) (json_is_object : Json → list (string * string) → bool).
Context (collate : string → string → comparison).
Notation from_intent := (from_intent json_from_str json_value json_is_object).
Notation status_snapshot := (status_snapshot crypto json_from_str json_value json_is_object collate).
Notation status_active := (status_active crypto json_from_str json_value json_is_object collate).
Notation creator_hash_of := (creator_hash_of crypto).

(** ** What qualifies *)

(** The active output of the settlement is present, pays the required amount and was
    recorded as timely; [t] is its first sighting. *)
Definition bitcoin_qualifies (md : MarketDb) (creator_hash : string) (id : RowId) (payment : InvoicePaymentRecordV1) (t : Z) : Prop :=
  ∃ oid o record required,
    market_active_row md id = Some (oid, o)
    ∧ decrypt_marketplace_observation crypto creator_hash id oid (ob_envelope o) = Ok record
    ∧ bitcoin_required_amount payment = Ok required
    ∧ ob_present o = true ∧ required <= bo_observed_sats record
    ∧ (id, ob_outpoint_lookup_hash o) ∈ mm_timely md ∧ ob_first_observed_at o = t.

(** A present receipt pays the required amount inside the payment window; [t] is its
    block time. *)
Definition usdt_qualifies (md : MarketDb) (creator_hash : string) (id : RowId) (payment : InvoicePaymentRecordV1)
    (activated_at deadline t : Z) : Prop :=
  ∃ rid r facts sender required,
    (rid, r) ∈ market_receipts md id
    ∧ market_usdt_facts crypto creator_hash id rid r = Ok (facts, sender)
    ∧ usdt_required_amount payment = Ok required
    ∧ required <= tf_amount facts ∧ whole_second activated_at <= tf_timestamp facts <= deadline
    ∧ tf_timestamp facts = t.

(** ** Receipts *)

Definition qualifying (u : MarketplaceUsdtStatus) (t : Z) : Prop := ut_paid_on_time u = true ∧ ut_observed_at u = t.

Lemma receipt_status_ok creator_hash id required start deadline row u :
  receipt_status crypto creator_hash id required start deadline row = Ok u →
  ∃ facts sender, market_usdt_facts crypto creator_hash id row.1 row.2 = Ok (facts, sender)
    ∧ ut_observed_amount u = tf_amount facts ∧ ut_observed_at u = tf_timestamp facts
    ∧ (ut_paid_on_time u = true ↔ required <= tf_amount facts ∧ start <= tf_timestamp facts <= deadline).
Proof.
  unfold receipt_status. intros H. apply bind_ok in H as ([facts sender] & Hf & H).
  apply bind_ok in H as (n & _ & H). cbv zeta in H. apply bind_ok in H as (tx & _ & [= <-]).
  exists facts, sender. simpl. split_and!; [done..|]. rewrite !andb_true_iff, !Z.leb_le. lia.
Qed.

(** The earliest qualifying time over the receipts seen. *)
Lemma select_display_first creator_hash id required start deadline rows selected first sel f :
  select_display crypto creator_hash id required start deadline rows selected first = Ok (sel, f) →
  ∃ us, Forall2 (λ row u, receipt_status crypto creator_hash id required start deadline row = Ok u) rows us
    ∧ (∀ t, f = Some t → first = Some t ∨ ∃ u, u ∈ us ∧ qualifying u t)
    ∧ (∀ t, first = Some t → ∃ t', f = Some t' ∧ t' <= t)
    ∧ (∀ u t, u ∈ us → qualifying u t → ∃ t', f = Some t' ∧ t' <= t)
    ∧ (sel = None → selected = None ∧ us = [])
    ∧ (∀ u, sel = Some u → selected = Some u ∨ u ∈ us).
Proof.
  revert selected first. induction rows as [|row rows IH]; intros selected first H; simpl in H.
  { injection H as <- <-. exists []. split_and!; [constructor|by auto|by eauto with lia|set_solver|by auto|by auto]. }
  apply bind_ok in H as (u & Hu & H). cbv zeta in H. apply IH in H as (us & Hall & H1 & H2 & H3 & H4 & H5).
  exists (u :: us). split; [by constructor|].
  assert (∀ t, first = Some t → ∃ t', (if ut_paid_on_time u then earlier first (ut_observed_at u) else first) = Some t' ∧ t' <= t) as Hf.
  { intros t ->. destruct (ut_paid_on_time u); simpl; eexists; (split; [done|lia]). }
  split_and!.
  - intros t Ht. destruct (H1 t Ht) as [Hfirst|(v & Hv & Hq)]; [|right; exists v; split; [by right|done]].
    destruct (ut_paid_on_time u) eqn:Hp; [|by left]. destruct first as [t0|]; simpl in Hfirst; injection Hfirst as Hfirst.
    + destruct (Z.min_spec t0 (ut_observed_at u)) as [[_ E]|[_ E]]; rewrite E in Hfirst; [left; by subst|].
      right. exists u. split; [by left|by split].
    + right. exists u. split; [by left|by split].
  - intros t (t1 & Ht1 & Hle)%Hf. destruct (H2 t1 Ht1) as (t2 & -> & ?). exists t2. split; [done|lia].
  - intros v t [->|Hv]%elem_of_cons Hq; [|by eapply H3]. destruct Hq as [Hp Ht]. rewrite Hp in H2.
    destruct first as [t0|]; simpl in H2; destruct (H2 _ eq_refl) as (t' & -> & ?); exists t'; (split; [done|lia]).
  - intros Hs. destruct (H4 Hs) as [Hsel _]. destruct selected; [|done]. by destruct (then_with _ _).
  - intros v Hv. destruct (H5 v Hv) as [Hsel|Hin]; [|right; by right].
    destruct selected as [w|]; [|injection Hsel as <-; right; by left].
    destruct (then_with _ _); injection Hsel as <-; [by left|by left|right; by left].
Qed.

Lemma status_usdt_first md creator_hash id payment activated_at deadline usdt first :
  status_usdt crypto md creator_hash id payment activated_at deadline = Ok (usdt, first) →
  match first with
  | Some t => usdt_qualifies md creator_hash id payment activated_at deadline t
              ∧ ∀ t', usdt_qualifies md creator_hash id payment activated_at deadline t' → t <= t'
  | None => ∀ t', ¬ usdt_qualifies md creator_hash id payment activated_at deadline t'
  end.
Proof.
  unfold status_usdt. cbv zeta. destruct (has_usdt payment) eqn:Hh; simpl; intros H.
  2:{ case_bool_decide; [|done]. injection H as <- <-. intros t (? & ? & ? & ? & required & _ & _ & Hr & _).
      unfold usdt_required_amount in Hr. apply bind_ok in Hr as ([] & _ & Hr%ok_or_ok). unfold has_usdt in Hh.
      by destruct (pr_usdt payment). }
  apply bind_ok in H as (required & Hr & H). apply select_display_first in H as (us & Hall & H1 & _ & H3 & _).
  assert (∀ t, usdt_qualifies md creator_hash id payment activated_at deadline t → ∃ u, u ∈ us ∧ qualifying u t) as Hto.
  { intros t (rid & r & facts & sender & required' & Hin & Hf & Hr' & Hge & Hw & Ht).
    assert (required' = required) as -> by congruence. apply list_elem_of_lookup in Hin as [i Hi].
    destruct (Forall2_lookup_l _ _ _ _ _ Hall Hi) as (u & Hu & Hs). exists u. split; [by eapply list_elem_of_lookup_2|].
    apply receipt_status_ok in Hs as (facts' & sender' & Hf' & _ & Hat & Hp). simpl in Hf'.
    assert (facts' = facts) as -> by congruence. split; [by apply Hp|congruence]. }
  assert (∀ u t, u ∈ us → qualifying u t → usdt_qualifies md creator_hash id payment activated_at deadline t) as Hfrom.
  { intros u t Hin [Hp Ht]. apply list_elem_of_lookup in Hin as [i Hi].
    destruct (Forall2_lookup_r _ _ _ _ _ Hall Hi) as ([rid r] & Hrow & Hs).
    apply receipt_status_ok in Hs as (facts & sender & Hf & _ & Hat & Hq). exists rid, r, facts, sender, required.
    apply Hq in Hp as [? ?]. split_and!; [by eapply list_elem_of_lookup_2|done..|lia|lia|congruence]. }
  destruct first as [t|].
  - destruct (H1 t eq_refl) as [[=]|(u & Hu & Hq)]. split; [by eapply Hfrom|].
    intros t' (v & Hv & Hqv)%Hto. destruct (H3 _ _ Hv Hqv) as (? & [= <-] & ?). done.
  - intros t' (v & Hv & Hqv)%Hto. by destruct (H3 _ _ Hv Hqv) as (? & [=] & _).
Qed.

(** ** Bitcoin *)

Lemma status_bitcoin_paid md creator_hash id payment required activated_at bitcoin :
  bitcoin_required_amount payment = Ok required →
  status_bitcoin crypto md creator_hash id required activated_at = Ok bitcoin →
  ∀ t, (b ← bitcoin; if bs_paid_on_time b then Some (bs_first_observed_at b) else None) = Some t ↔
       bitcoin_qualifies md creator_hash id payment t.
Proof.
  intros Hreq H t. unfold status_bitcoin in H. unfold bitcoin_qualifies.
  destruct (market_active_row md id) as [[oid o]|] eqn:Hrow; [|injection H as <-; split; [done|naive_solver]].
  apply bind_ok in H as (record & Hrec & H). apply bind_ok in H as ([] & _ & H).
  apply bind_ok in H as (outpoint & _ & H). apply bind_ok in H as (n & _ & H). injection H as <-. simpl. split.
  - destruct (ob_present o && _ && _) eqn:E; [|done]. intros [= <-].
    apply andb_true_iff in E as [[Hp Hm]%andb_true_iff Ht]. exists oid, o, record, required. split_bools. by split_and!.
  - intros (oid' & o' & record' & required' & [= <- <-] & Hrec' & Hreq' & Hp & Hm & Ht & <-).
    assert (record' = record) as -> by congruence. assert (required' = required) as -> by congruence.
    apply Z.leb_le in Hm. rewrite Hp, Hm, bool_decide_eq_true_2 by done. done.
Qed.

(** ** The status *)

(** The asset of a status: the rail that qualified first, Bitcoin on a tie. *)
Definition judged (md : MarketDb) (creator_hash : string) (id : RowId) (payment : InvoicePaymentRecordV1)
    (activated_at deadline : Z) (paid : option AcceptedAsset) : Prop :=
  let bitcoin := bitcoin_qualifies md creator_hash id payment in
  let usdt := usdt_qualifies md creator_hash id payment activated_at deadline in
  match paid with
  | None => (∀ t, ¬ bitcoin t) ∧ (∀ t, ¬ usdt t)
  | Some Accept_Btc => ∃ t, bitcoin t ∧ ∀ t', usdt t' → t <= t'
  | Some Accept_Usdt => ∃ t, usdt t ∧ (∀ t', usdt t' → t <= t') ∧ ∀ t', bitcoin t' → t < t'
  end.

Lemma first_paid_judged md creator_hash id payment activated_at deadline bitcoin usdt first :
  (∀ t, bitcoin = Some t ↔ bitcoin_qualifies md creator_hash id payment t) →
  status_usdt crypto md creator_hash id payment activated_at deadline = Ok (usdt, first) →
  judged md creator_hash id payment activated_at deadline (first_paid bitcoin first).
Proof.
  intros Hb Hu%status_usdt_first. unfold judged. destruct bitcoin as [b|], first as [u|]; simpl.
  - destruct Hu as [Hu Hmin]. destruct (u <? b) eqn:E; split_bools.
    + exists u. split_and!; [done..|]. intros t' Ht'%Hb. injection Ht' as <-. lia.
    + exists b. split; [by apply Hb|]. intros t' Ht'%Hmin. lia.
  - exists b. split; [by apply Hb|]. intros t' Ht'. by destruct (Hu t').
  - destruct Hu as [Hu Hmin]. exists u. split_and!; [done..|]. by intros t' Ht'%Hb.
  - split; [|done]. by intros t Ht%Hb.
Qed.

Definition state_text (s : PreparationState) : string :=
  match s with Prepared => "prepared" | Active => "active" | Voided => "voided" end.

Lemma payment_state_expired projected usdt bitcoin paid now deadline :
  active_payment_state projected usdt bitcoin paid now deadline = "expired" → paid = false.
Proof. unfold active_payment_state. cbv zeta. destruct paid; [|done]. rewrite andb_false_r. by repeat case_match. Qed.

Lemma payment_state_overdue projected usdt bitcoin now deadline :
  deadline < now → active_payment_state projected usdt bitcoin false now deadline = "expired".
Proof. intros H%Z.ltb_lt. unfold active_payment_state. cbv zeta. by rewrite H. Qed.

Lemma status_active_ok md creator_hash id p e quote outcome now st :
  status_active md creator_hash id p e quote outcome now = Ok st →
  ∃ s payment activated_at deadline,
    ms_invoice_id st = id ∧ ms_state st = "active" ∧ ms_outcome st = outcome ∧ ms_resolved_at st = pn_resolved_at (pp_columns p)
    ∧ settlement md id = Some (pp_creator_id p, s)
    ∧ decrypt_settlement_payment_record crypto creator_hash id (se_payment_record_envelope s) = Ok payment
    ∧ from_intent (pe_child_index e) (pe_payment_request_intent e) = Ok payment
    ∧ pn_activated_at (pp_columns p) = Some activated_at ∧ pp_payment_deadline p = Some deadline
    ∧ ms_activated_at st = Some activated_at ∧ ms_payment_deadline st = Some deadline
    ∧ judged md creator_hash id payment activated_at deadline (ms_paid_asset st)
    ∧ (ms_payment_state st = Some "expired" → ms_paid_asset st = None)
    ∧ (deadline < now → ms_paid_asset st = None → ms_payment_state st = Some "expired").
Proof.
  unfold MarketStatus.status_active. cbv zeta. intros H. apply bind_ok in H as (activated_at & Hat%ok_or_ok & H).
  apply bind_ok in H as (deadline & Hdl%ok_or_ok & H). apply bind_ok in H as ([owner s] & Hs%ok_or_ok & H).
  apply bind_ok in H as ([] & Ho%ensure_ok & H). apply bool_decide_eq_true in Ho as ->. apply bind_ok in H as ([] & _ & H).
  apply bind_ok in H as (payment & Hpay & H). apply bind_ok in H as (expected & Hexp%map_err_ok & H).
  apply bind_ok in H as (address & Haddr & H). destruct (bool_decide (payment = expected)) eqn:Heq; [|done].
  apply bool_decide_eq_true in Heq. subst expected.
  apply bind_ok in H as ([] & _ & H). apply bind_ok in H as ([oid proposal] & _ & H).
  apply bind_ok in H as (bitcoin & Hbit & H). apply bind_ok in H as ([] & _ & H).
  apply bind_ok in H as ([usdt first] & Husdt & [= <-]). exists s, payment, activated_at, deadline. simpl.
  split_and!; [done..| | |].
  - eapply first_paid_judged; [|done]. intros t. destruct (has_bitcoin payment) eqn:Hh.
    + apply bind_ok in Hbit as (required & Hreq & Hbit). by eapply status_bitcoin_paid.
    + destruct (market_active_row md id) eqn:Hrow; [done|]. injection Hbit as <-. unfold bitcoin_qualifies. rewrite Hrow.
      split; [done|]. by intros (? & ? & ? & ? & [=] & _).
  - intros [= E%payment_state_expired]. by destruct (first_paid _ _).
  - intros Hlt ->. by rewrite payment_state_overdue.
Qed.

Lemma inactive_unpublished md id p :
  inactive_consistent md id p = true →
  mm_settlements md !! id = None ∧ ∀ rid r, outbox (mm_db md) !! rid = Some r → market_proposal id r = false.
Proof.
  unfold inactive_consistent. cbv zeta. intros H. do 6 (apply andb_true_iff in H as [H _]).
  apply andb_true_iff in H as [H1 H2]. split; [by destruct (mm_settlements md !! id)|].
  intros rid r Hr. destruct (market_proposal id r) eqn:E; [|done]. apply Nat.eqb_eq in H2.
  pose proof (count_rows_positive (λ _ r, market_proposal id r) _ _ _ Hr E) as Hpos. unfold proposal_count in H2. lia.
Qed.

Lemma parse_outcome_ok o outcome : transpose (parse_business_outcome <$> o) = Ok outcome → outcome = o.
Proof.
  destruct o as [s|]; [|by intros [= <-]]. simpl. unfold parse_business_outcome. intros H.
  apply bind_ok in H as (x & Hx & [= <-]). by apply bind_ok in Hx as ([] & _ & [= <-]).
Qed.

(** C15: the status of a Marketplace invoice is what its payments prove.  An answer is about
    a preparation of that creator and reports its state and its recorded outcome.  For an
    active one the record it judges by is the one the sealed request determines; an asset
    is reported as paid exactly when a single payment on its rail reaches the required
    amount in time (a present, timely recorded output, or a present receipt whose block
    time lies in the window), and it is the rail that qualified first; a paid invoice is
    never expired, an unpaid one is expired after its deadline.  For any other state
    nothing was published: there is no settlement, no proposal and no payment. *)
Theorem market_status_sound md creator id now st :
  status_snapshot md creator id now = Ok (Some st) →
  ∃ p e,
    preparation md id = Some p ∧ creators (mm_db md) !! pp_creator_id p = Some (creator_hash_of creator)
    ∧ decode_lifecycle_envelope crypto json_from_str json_value json_is_object (creator_hash_of creator) id (pp_columns p) = Ok e
    ∧ ms_invoice_id st = id ∧ ms_state st = state_text (pp_state p)
    ∧ ms_outcome st = pn_business_outcome (pp_columns p) ∧ ms_resolved_at st = pn_resolved_at (pp_columns p)
    ∧ if decide (pp_state p = Active) then
        ∃ s payment activated_at deadline,
          settlement md id = Some (pp_creator_id p, s)
          ∧ decrypt_settlement_payment_record crypto (creator_hash_of creator) id (se_payment_record_envelope s) = Ok payment
          ∧ from_intent (pe_child_index e) (pe_payment_request_intent e) = Ok payment
          ∧ pn_activated_at (pp_columns p) = Some activated_at ∧ pp_payment_deadline p = Some deadline
          ∧ judged md (creator_hash_of creator) id payment activated_at deadline (ms_paid_asset st)
          ∧ (ms_payment_state st = Some "expired" → ms_paid_asset st = None)
          ∧ (deadline < now → ms_paid_asset st = None → ms_payment_state st = Some "expired")
      else
        ms_proposal_delivery_state st = "unpublished" ∧ ms_payment_state st = None ∧ ms_paid_asset st = None
        ∧ mm_settlements md !! id = None
        ∧ ∀ rid r, outbox (mm_db md) !! rid = Some r → market_proposal id r = false.
Proof.
  unfold MarketStatus.status_snapshot. destruct (load_lifecycle_locked _ _ _ _) as [[stored p]|] eqn:Hl; [|done].
  apply load_lifecycle_some in Hl as (Hp & Hown & ->). cbv zeta. intros H.
  apply bind_ok in H as (hash & Hh & H). apply stored_hash_ok in Hh as [<- _]. apply bind_ok in H as (e & He & H).
  apply bind_ok in H as (quote & _ & H). apply bind_ok in H as (outcome & Hout%parse_outcome_ok & H). subst outcome.
  apply bind_ok in H as ([] & _ & H). exists p, e. destruct (pp_state p) eqn:Hst.
  - apply bind_ok in H as ([] & Hin%ensure_ok & [= <-]). apply inactive_unpublished in Hin as [? ?].
    rewrite decide_False by done. by split_and!.
  - apply bind_ok in H as (st' & Hact & [= <-]). rewrite decide_True by done.
    apply status_active_ok in Hact as (s & payment & activated_at & deadline & ? & ? & ? & ? & ? & ? & ? & ? & ? & _ & _ & ? & ? & ?).
    split_and!; [done..|]. by exists s, payment, activated_at, deadline.
  - apply bind_ok in H as ([] & Hin%ensure_ok & [= <-]). apply inactive_unpublished in Hin as [? ?].
    rewrite decide_False by done. by split_and!.
Qed.
End judged.
