(* ===== verification/MarketGate.v ===== *)
(** * MarketGate: when a Marketplace preparation is written

    Every run of [PrepareMarketplaceService::prepare] against services that may answer
    anything, at any time. *)

From S2P Require Import Prelude Text Locks Invoice Receiving Payment Lifecycle Pricing Intent Readers Database Effects OutboxStore CreateInvoice PaymentRecord Crypto Observations LifecycleStore Drains Status Creators Allocation Provider MarketTerms MarketStore MarketService Sorting.
Local Open Scope string_scope.
Local Open Scope Z_scope.

Section gate.
Context {core : LocksCore} {lib : PaykitLib} {bip32 : Bip32}.
Context (canonical_json : BindingJson → option string)
  (json_object : list (string * string) → string) (metadata_object : list (string * string) → Metadata).
Notation service := (market_prepare_service canonical_json json_object metadata_object).
Notation admission := (market_admission json_object metadata_object).
Notation M A := (prog MarketCall A).

(** ** Stages *)

Definition quiet (ev : event MarketCall) : Prop :=
  match ev with Ev (MPrepare _) _ => False | _ => True end.

(** Every run of [p] adds only quiet calls, and those of a success satisfy [P]. *)
Definition stage {A} (p : M (result PrepareMarketplaceError A)) (P : list (event MarketCall) → A → Prop) : Prop :=
  ∀ tr, all_runs p (λ tr' r, ∃ evs, tr' = (tr ++ evs)%list ∧ Forall quiet evs
                             ∧ match r with Ok a => P evs a | Err _ => True end) tr.

Lemma market_stage_bind {A B} (p : M (result PrepareMarketplaceError A)) (f : A → M (result PrepareMarketplaceError B)) P P' :
  stage p P → (∀ evs a, Forall quiet evs → P evs a → stage (f a) (λ evs' b, P' (evs ++ evs')%list b)) →
  stage (try_bind f p) P'.
Proof.
  intros Hp Hf tr. apply all_runs_try. eapply all_runs_mono; [|exact (Hp tr)].
  intros tr' [a|e] (evs & -> & Hq & H); [|by exists evs].
  eapply all_runs_mono; [|exact (Hf _ _ Hq H (tr ++ evs)%list)]. intros tr' r (evs' & -> & Hq' & H').
  exists (evs ++ evs')%list. rewrite app_assoc. split_and!; [done|by apply Forall_app_2|done].
Qed.

Lemma market_stage_ret {A} (r : result PrepareMarketplaceError A) : stage (Ret r) (λ evs a, r = Ok a).
Proof. intros tr. exists []. rewrite app_nil_r. split_and!; [done|constructor|by destruct r]. Qed.

Lemma stage_mono {A} (p : M (result PrepareMarketplaceError A)) (P P' : list (event MarketCall) → A → Prop) :
  (∀ evs a, P evs a → P' evs a) → stage p P → stage p P'.
Proof.
  intros HP Hp tr. eapply all_runs_mono; [|exact (Hp tr)]. intros tr' [a|e] (evs & -> & Hq & H); exists evs; auto.
Qed.

(** A call under the remaining time. *)
Lemma stage_within {A B} sv started (e : Z → MarketCall (option A)) (k : A → M (result PrepareMarketplaceError B)) P :
  (∀ b x, quiet (Ev (e b) x)) →
  (∀ b now a, stage (k a) (λ evs r, P (Ev MNow now :: Ev (e b) (Some a) :: evs) r)) →
  stage (within sv started e k) P.
Proof.
  intros He Hk tr. unfold within. simpl. intros now. apply runs_pure.
  - intros b _. simpl. intros [a|].
    + eapply all_runs_mono; [|exact (Hk b now a _)]. intros tr' r (evs & -> & Hq & H).
      exists (Ev MNow now :: Ev (e b) (Some a) :: evs). rewrite <- !app_assoc. simpl. split_and!; [done| |done].
      constructor; [done|]. constructor; [apply He|done].
    + exists [Ev MNow now; Ev (e b) None]. rewrite <- app_assoc. simpl. split_and!; [done| |done].
      constructor; [done|]. constructor; [apply He|constructor].
  - intros err _. exists [Ev MNow now]. by split_and!; [|constructor|].
Qed.

(** A call whose answer is only mapped. *)
Lemma stage_answer {A F B} sv started (e : Z → MarketCall (option (result F A))) (f : result F A → result PrepareMarketplaceError B) :
  (∀ b x, quiet (Ev (e b) x)) →
  stage (within sv started e (λ a, Ret (f a))) (λ evs y, ∃ b a, Ev (e b) (Some a) ∈ evs ∧ f a = Ok y).
Proof.
  intros He. apply stage_within; [done|]. intros b now a. eapply stage_mono; [|apply market_stage_ret].
  intros evs y Hy. exists b, a. split; [|done]. right. by left.
Qed.

Lemma market_stage_discover sv started reader more retry_index :
  stage (market_discover sv started reader more retry_index)
    (λ evs registry, ∃ b, Ev (MDiscover b reader) (Some (Ok (Some registry))) ∈ evs).
Proof.
  revert retry_index. induction more as [|more IH]; intros retry_index; simpl;
    (apply stage_within; [done|]; intros b now [[registry|]|err]).
  - eapply stage_mono; [|apply market_stage_ret]. intros evs y [= <-]. exists b. right. by left.
  - eapply stage_mono; [|apply market_stage_ret]. done.
  - eapply stage_mono; [|apply market_stage_ret]. done.
  - eapply stage_mono; [|apply market_stage_ret]. intros evs y [= <-]. exists b. right. by left.
  - apply stage_within; [done|]. intros b' now' []. eapply stage_mono; [|apply IH].
    intros evs y [b'' Hin]. exists b''. by do 4 right.
  - eapply stage_mono; [|apply market_stage_ret]. done.
Qed.

(** ** Pricing *)

(** The payloads of a request for the receiving details that were read. *)
Definition quoted (sv : PrepareMarketplaceService) (r : PrepareMarketplaceRequest) (filter : option (list AcceptedAsset))
    (rd0 : ReceivingDetails) (payloads : MarketplacePayloads) (evs : list (event MarketCall)) : Prop :=
  let rd := offered_details filter (ps_usdt_enabled sv) rd0 in
  ∃ terms price,
    MarketplaceTerms_new (rq_amount r) (rq_asset r) (offered_assets rd) = Ok terms
    ∧ rq_payment_window_seconds r <= window_cap sv terms / NANOS_PER_SECOND
    ∧ (if crosses_bitcoin_rate terms
       then ∃ b p, price = Some p ∧ Ev (MUsdPerBtc b) (Some (Ok p)) ∈ evs
       else price = None)
    ∧ conversion_rates (mt_asset terms) (accepts terms Accept_Btc) (accepts terms Accept_Usdt) price = Ok (mp_rates payloads)
    ∧ payloads = mk_MarketplacePayloads (rq_reader r) (rq_reference r) terms (mp_rates payloads) (rq_description r)
                   (ps_app_id sv) (ps_bitcoin_network sv) rd.

Lemma market_stage_quote sv started r filter rd :
  stage (market_quote sv started r filter rd) (λ evs payloads, quoted sv r filter rd payloads evs).
Proof.
  unfold market_quote. cbv zeta. eapply market_stage_bind; [apply market_stage_ret|]. intros evs1 terms _ Hterms%map_err_ok.
  eapply market_stage_bind; [apply market_stage_ret|]. intros evs2 [] _ Hcap%ensure_ok.
  eapply (market_stage_bind _ _ (λ evs price, if crosses_bitcoin_rate terms
            then ∃ b p, price = Some p ∧ Ev (MUsdPerBtc b) (Some (Ok p)) ∈ evs else price = None)).
  - destruct (crosses_bitcoin_rate terms).
    + eapply market_stage_bind; [apply market_stage_ret|]. intros evs3 [] _ _. eapply stage_mono; [|by apply stage_answer].
      intros evs price (b & [p|e] & Hin & Hp%map_err_ok); [|done]. injection Hp as <-. exists b, p. split; [done|].
      apply elem_of_app. by right.
    + eapply stage_mono; [|apply market_stage_ret]. by intros evs price [= <-].
  - intros evs3 price _ Hprice. eapply market_stage_bind; [apply market_stage_ret|]. intros evs4 rates _ Hrates%map_err_ok.
    eapply stage_mono; [|apply market_stage_ret]. intros evs5 payloads [= <-]. exists terms, price. split_bools.
    split_and!; [done|done| |done|done]. destruct (crosses_bitcoin_rate terms); [|done].
    destruct Hprice as (b & p & -> & Hin). exists b, p. split; [done|]. set_solver.
Qed.

(** ** The transaction *)

(** What was answered before the transaction of a request is started. *)
Record cleared (sv : PrepareMarketplaceService) (r : PrepareMarketplaceRequest) (filter : option (list AcceptedAsset))
    (started : Z) (deadline : Z) (payloads : MarketplacePayloads) (evs : list (event MarketCall)) : Prop := {
  cl_valid : validate_request sv r = Ok tt;
  cl_session : ∃ b, Ev (MValidateSession b (rq_creator r)) (Some (Ok tt)) ∈ evs;
  cl_reader : ∃ b registry, Ev (MDiscover b (rq_reader r)) (Some (Ok (Some registry))) ∈ evs ∧ reader_is_capable registry = true;
  cl_authorization : ∃ b, Ev (MAuthorization b (rq_reader r)) (Some (Ok AuthVerified)) ∈ evs;
  cl_quote : ∃ b rd, Ev (MReceiving b (rq_creator r)) (Some (Ok rd)) ∈ evs ∧ quoted sv r filter rd payloads evs;
  cl_deadline : ∃ b accepted_at, Ev (MDatabaseTime b) (Some (Ok accepted_at)) ∈ evs
                                 ∧ prepare_deadline sv accepted_at = Some deadline;
  cl_time : ∃ now, last evs = Some (Ev MNow now) ∧ now - started < ps_request_deadline sv;
}.

Definition admission_outcome (sv : PrepareMarketplaceService) (r : PrepareMarketplaceRequest)
    (filter : option (list AcceptedAsset)) (binding : string) (started : Z) (tr0 tr : list (event MarketCall))
    (res : result PrepareMarketplaceError MarketplacePreparationResult) : Prop :=
  (∃ evs e, tr = (tr0 ++ evs)%list ∧ Forall quiet evs ∧ res = Err e)
  ∨ ∃ evs deadline payloads x rest,
      tr = (tr0 ++ evs ++ Ev (MPrepare (market_input sv r binding (Some deadline)
              (market_payloads json_object metadata_object payloads))) x :: rest)%list
      ∧ Forall quiet evs ∧ Forall quiet rest ∧ cleared sv r filter started deadline payloads evs
      ∧ ∀ y, res = Ok y → x = Ok y.

Lemma stage_then {A B} (p : M (result PrepareMarketplaceError A)) (f : A → M (result PrepareMarketplaceError B)) P
    (Q : list (event MarketCall) → result PrepareMarketplaceError B → Prop) tr :
  stage p P → (∀ evs e, Forall quiet evs → Q (tr ++ evs)%list (Err e)) →
  (∀ evs a, Forall quiet evs → P evs a → all_runs (f a) Q (tr ++ evs)%list) → all_runs (try_bind f p) Q tr.
Proof.
  intros Hp He Hf. apply all_runs_try. eapply all_runs_mono; [|exact (Hp tr)].
  intros tr' [a|e] (evs & -> & Hq & H); auto.
Qed.

Lemma remaining_lt deadline started now budget : market_remaining deadline started now = Ok budget → now - started < deadline.
Proof. unfold market_remaining. cbv zeta. intros H. apply bind_ok in H as ([] & H%ensure_ok & _). split_bools. lia. Qed.

Ltac stop_quiet := intros; left; eexists _, _; rewrite <- ?app_assoc; split_and!; [done|repeat apply Forall_app_2; done|done].

Lemma admission_runs sv started r filter binding tr0 :
  all_runs (admission sv started r filter binding) (admission_outcome sv r filter binding started tr0) tr0.
Proof.
  unfold market_admission.
  apply (stage_then _ _ _ _ _ (market_stage_ret _)); [stop_quiet|]. intros evs0 [] Q0 Hvalid.
  eapply stage_then; [by apply stage_answer|stop_quiet|]. intros evs1 [] Q1 (b1 & [[]|] & Hin1 & Hf1); [|done].
  eapply stage_then; [by apply market_stage_discover|stop_quiet|]. intros evs2 registry Q2 (b2 & Hin2).
  apply (stage_then _ _ _ _ _ (market_stage_ret _)); [stop_quiet|]. intros evs3 [] Q3 Hcap%ensure_ok.
  eapply stage_then; [by apply stage_answer|stop_quiet|]. intros evs4 authorization Q4 (b4 & a4 & Hin4 & Ha4%map_err_ok). subst a4.
  apply (stage_then _ _ _ _ _ (market_stage_ret _)); [stop_quiet|]. intros evs5 [] Q5 Hauth.
  eapply stage_then; [by apply stage_answer|stop_quiet|]. intros evs6 rd Q6 (b6 & a6 & Hin6 & Ha6%map_err_ok). subst a6.
  eapply stage_then; [by apply market_stage_quote|stop_quiet|]. intros evs7 payloads Q7 Hquoted.
  eapply stage_then; [by apply stage_answer|stop_quiet|]. intros evs8 accepted_at Q8 (b8 & a8 & Hin8 & Ha8%map_err_ok). subst a8.
  apply (stage_then _ _ _ _ _ (market_stage_ret _)); [stop_quiet|]. intros evs9 deadline Q9 Hdl%ok_or_ok.
  intros now. rewrite <- !app_assoc. set (evs := (evs0 ++ evs1 ++ evs2 ++ evs3 ++ evs4 ++ evs5 ++ evs6 ++ evs7 ++ evs8 ++ evs9 ++ [Ev MNow now])%list).
  assert (Forall quiet evs) as Hq by (unfold evs; repeat apply Forall_app_2; try done; by constructor).
  apply runs_pure; [|intros e _; left; by exists evs, e]. intros budget Hrem%remaining_lt.
  assert (cleared sv r filter started deadline payloads evs) as Hcl.
  { split; [done|..].
    - exists b1. unfold evs. set_solver.
    - exists b2, registry. split; [unfold evs; set_solver|done].
    - exists b4. unfold evs. destruct authorization; [set_solver|done|done].
    - exists b6, rd. split; [unfold evs; set_solver|].
      destruct Hquoted as (terms & price & H1 & H2 & H3 & H4 & H5). exists terms, price. split_and!; [done|done| |done|done].
      destruct (crosses_bitcoin_rate terms); [|done]. destruct H3 as (b & p & -> & Hin). exists b, p. split; [done|].
      unfold evs. set_solver.
    - exists b8, accepted_at. split; [unfold evs; set_solver|done].
    - exists now. split; [|done]. unfold evs. by rewrite !last_app. }
  intros x. apply runs_pure.
  - intros y ->%map_err_ok. intros late. right. exists evs, deadline, payloads, (Ok y), [Ev MNow late].
    rewrite <- !app_assoc. split_and!; [done|done|by constructor|done|]. intros z Hz.
    by apply bind_ok in Hz as ([] & _ & [= <-]).
  - intros e _. right. exists evs, deadline, payloads, x, []. rewrite <- app_assoc. by split_and!.
Qed.

(** A run without a transaction, successful only as a replay, or with one, cleared. *)
Definition gated_run (sv : PrepareMarketplaceService) (r : PrepareMarketplaceRequest) (tr : list (event MarketCall))
    (res : result PrepareMarketplaceError MarketplacePreparationResult) : Prop :=
  (Forall quiet tr
   ∧ ∀ y, res = Ok y → ∃ b b' filter binding,
       prepare_binding canonical_json r filter = Ok binding
       ∧ Ev (MPreflight b (rq_creator r) (rq_operation_id r) binding) (Some (Ok MP_ExactReplay)) ∈ tr
       ∧ Ev (MReplay b' (market_input sv r binding None replay_only)) (Some (Ok y)) ∈ tr)
  ∨ ∃ started filter binding pre b evs deadline payloads x rest,
      normalized_filter (rq_accepted_assets r) = Ok filter ∧ prepare_binding canonical_json r filter = Ok binding
      ∧ head pre = Some (Ev MNow started)
      ∧ Ev (MPreflight b (rq_creator r) (rq_operation_id r) binding) (Some (Ok MP_New)) ∈ pre
      ∧ tr = (pre ++ evs ++ Ev (MPrepare (market_input sv r binding (Some deadline)
                (market_payloads json_object metadata_object payloads))) x :: rest)%list
      ∧ Forall quiet pre ∧ Forall quiet evs ∧ Forall quiet rest
      ∧ cleared sv r filter started deadline payloads evs
      ∧ ∀ y, res = Ok y → x = Ok y.

Ltac quiet_err := left; split; [by repeat constructor|by intros ? [=]].

Lemma service_runs sv r : all_runs (service sv r) (gated_run sv r) [].
Proof.
  unfold market_prepare_service. intros started. simpl.
  apply runs_pure; [|intros; quiet_err]. intros filter Hfilter. apply runs_pure; [|intros; quiet_err]. intros [] _.
  apply runs_pure; [|intros; quiet_err]. intros binding Hb. unfold within at 1. intros n1.
  apply runs_pure; [|intros; quiet_err]. intros b1 _. intros [[]|]; [|quiet_err]. unfold within at 1. intros n2.
  apply runs_pure; [|intros; quiet_err]. intros b2 _. intros [[[]|e]|]; [| |quiet_err..].
  - eapply all_runs_mono; [|apply admission_runs]. intros tr res [(evs & e & -> & Hq & ->)|H].
    + left. split; [|by intros ? [=]]. apply Forall_app_2; [by repeat constructor|done].
    + destruct H as (evs & deadline & payloads & x & rest & -> & Hq & Hr & Hcl & Hres). right.
      exists started, filter, binding. eexists _, b2, evs, deadline, payloads, x, rest.
      split_and!; [done|done| | |reflexivity|by repeat constructor|done..]; [done|]. by do 4 right; left.
  - unfold within. intros n3. apply runs_pure; [|intros; quiet_err]. intros b3 _. intros [[y|e]|]; [|quiet_err..]. left.
    split; [by repeat constructor|]. intros z [= <-]. exists b2, b3, filter, binding. simpl.
    split_and!; [done|by do 4 right; left|by do 6 right; left].
Qed.

(** a Marketplace invoice is prepared only when everything about it was checked.  In
    every run of the preparation the store's transaction is started at most once, and
    then it was announced as new, the request is valid and its window within the caps, the creator's
    session, the Reader's registry, capability and authorization were all answered
    positively in this run, the amounts are quoted at a price read in this run, the
    expiry is the database's time plus the configured time to live, and the request's
    deadline is still ahead.  The service succeeds only with the answer of that
    transaction or with the stored answer of an exact replay. *)
Theorem market_preparation_gated {S} (h : ∀ X, MarketCall X → S → X * S) s s' sv r tr res :
  exec h (service sv r) s = (res, s', tr) → gated_run sv r tr res.
Proof. apply exec_all_runs, service_runs. Qed.
End gate.

(** ** Witness *)

Module Example_gate.
#[export] Existing Instance Example_core.example_core.
#[export] Existing Instance Example_lib.example_lib.

Definition request : PrepareMarketplaceRequest :=
  mk_PrepareMarketplaceRequest (mk_CreatorPubky "creator") (mk_ReaderPubky "reader") "7cceb26d" 500 Btc None "operation"
    3600 None.

Definition configured : PrepareMarketplaceService :=
  mk_PrepareMarketplaceService PAYKIT_APP_ID Mainnet 86400000000000 3600000000000 1800000000000 false true 15000000000.

Definition answer : MarketplacePreparationResult :=
  mk_MarketplacePreparationResult 31 (mk_MarketplaceTerms 500 Btc [Accept_Btc]) (mk_MarketplaceQuote [(Accept_Btc, 500)] [])
    0 1800000000000 false.

(** Every service answers at once; the state counts the clock readings. *)
Definition handler (X : Type) (e : MarketCall X) (s : Z) : X * Z :=
  match e in MarketCall Y return Y * Z with
  | MNow => (s, s + 1)
  | MLock _ _ _ => (Some tt, s)
  | MPreflight _ _ _ _ => (Some (Ok MP_New), s)
  | MReplay _ _ => (Some (Ok answer), s)
  | MValidateSession _ _ => (Some (Ok tt), s)
  | MDiscover _ _ => (Some (Ok (if s <=? 5 then None else Some Example_create.registry)), s)
  | MRetryWait _ _ => (Some tt, s)
  | MAuthorization _ _ => (Some (Ok AuthVerified), s)
  | MReceiving _ _ => (Some (Ok Example_create.receiving), s)
  | MUsdPerBtc _ => (Some (Ok "81000.00"), s)
  | MDatabaseTime _ => (Some (Ok 0), s)
  | MPrepare _ => (Ok answer, s)
  end.

Definition run :=
  exec handler (market_prepare_service (λ _, Some "binding") Example_create.json_object Example_create.metadata_object
                  configured request) 0.
End Example_gate.
Import Example_gate.

Lemma market_preparation_gated_witness :
  run.1.1 = Ok answer
  ∧ gated_run (λ _, Some "binding") Example_create.json_object Example_create.metadata_object configured request run.2 run.1.1.
Proof.
  split; [vm_compute; reflexivity|].
  exact (market_preparation_gated (λ _, Some "binding") Example_create.json_object Example_create.metadata_object handler 0
    run.1.2 configured request run.2 run.1.1 eq_refl).
Defined.
