(* ===== verification/MarketExample.v ===== *)
(** * MarketExample: one Marketplace invoice, from its preparation to its payment

    A concrete run of the store that the theorems on the Marketplace files are applied to. *)

From S2P Require Import Prelude Text Locks Invoice Receiving Payment Lifecycle Pricing Intent Readers Database OutboxStore CreateInvoice PaymentRecord Crypto Observations Settlement LifecycleStore Drains DrainProps Status Creators Allocation Allocated AllocationProps Provider MarketTerms MarketStore MarketObserve MarketStatus MarketProps MarketLifecycle MarketReplay MarketActivation MarketJudged Sorting.
Local Open Scope string_scope.
Local Open Scope Z_scope.

#[global] Instance PreparationEnvelope_eq_dec {core : LocksCore} {lib : PaykitLib} `{!EqDecision DeliveryIntentV1} :
  EqDecision PreparationEnvelope.
Proof. solve_decision. Defined.

Lemma is_some_witness {A} (o : option A) : is_some o = true → ∃ v, o = Some v.
Proof. destruct o as [v|]; [by exists v|done]. Qed.

Lemma is_ok_witness {E A} (r : result E A) : is_ok r = true → ∃ v, r = Ok v.
Proof. destruct r as [v|e]; [by exists v|done]. Qed.

Lemma ok_some_witness {E A} (r : result E (option A)) v : (o ← ok r; o) = Some v → r = Ok (Some v).
Proof. destruct r as [[w|]|e]; simpl; congruence. Qed.

Module Example_market.
Export Example_allocation.
#[export] Existing Instance Example_create.example_bip32.

Definition now_format : Z → option string := λ t, Some (fmt_dec t).

(** The request the creator prepares: half an hour to activate, an hour to pay. *)
Definition input : MarketplacePreparationInput :=
  mk_MarketplacePreparationInput (mk_CreatorPubky "creator") (mk_ReaderPubky "reader") "7cceb26d" "operation" "binding"
    500 Btc 3600 1800 (Some 1900000000000) (mk_PayloadFactory (Some 0) (λ _, Example_allocation.intent)).

Definition start : MarketDb := mk_MarketDb Example_allocation.start ∅ ∅ ∅.

Definition envelope : result PersistenceError PreparationEnvelope :=
  i ← Example_allocation.intent;
  Ok (mk_PreparationEnvelope 2 "operation" "binding" "reader" "7cceb26d" (mk_MarketplaceTerms 500 Btc [Accept_Btc]) 3600 1800
        100000000000 1900000000000 3 i).

#[export] Instance market_codec : PreparationCodec := {|
  preparation_to_bytes e := if decide (envelope = Ok e) then Some (String (byte_char 2) "prepared") else None;
  preparation_from_bytes s := if String.eqb s (String (byte_char 2) "prepared") then ok envelope else None;
  preparation_v1_from_bytes _ := None;
|}.

Lemma market_codec_laws : PreparationCodecLaws market_codec.
Proof.
  split; simpl.
  - intros e bytes. case_decide as He; [|done]. intros [= <-]. simpl. by rewrite He.
  - intros e bytes. case_decide as He; [|done]. intros [= <-]. exists "prepared".
    unfold envelope in He. apply bind_ok in He as (i & _ & [= <-]). done.
Qed.

(** The intent of the activation at 200 seconds. *)
Definition published : result PersistenceError DeliveryIntentV1 :=
  i ← Example_allocation.intent; Ok (set_deadlines i "800000000000" "3800000000000").1.

Definition to_bytes (i : DeliveryIntentV1) : option string :=
  if decide (published = Ok i) then Some "published" else None.

Definition from_bytes (s : string) : option DeliveryIntentV1 := if String.eqb s "published" then ok published else None.

Lemma published_reread i bytes : to_bytes i = Some bytes → from_bytes bytes = Some i.
Proof. unfold to_bytes, from_bytes. case_decide as Hi; [|done]. intros [= <-]. simpl. by rewrite Hi. Qed.

Definition is_object : string → list (string * string) → bool := λ _ _, true.

Definition fresh : ActivationFresh := mk_ActivationFresh 41 nonce nonce.

Definition activation_input : MarketplaceActivationInput :=
  mk_MarketplaceActivationInput (mk_CreatorPubky "creator") 31 500 Btc 600000000000.

Definition prepare_result : result PersistenceError (MarketplacePreparationResult * MarketDb) :=
  market_prepare crypto from_str Some is_object start input 31 nonce 150000000000.

Definition prepared : MarketDb := match prepare_result with Ok (_, md) => md | Err _ => start end.

Definition activate_result : result MarketplaceLifecyclePersistenceError (option MarketplaceActivationResult * MarketDb) :=
  market_activate crypto to_bytes from_str Some is_object now_format prepared activation_input fresh 200000000000.

Definition active : MarketDb := match activate_result with Ok (_, md) => md | Err _ => start end.

(** A payment of the exact amount, seen at 300 seconds with one confirmation. *)
Definition observed : result PersistenceError (Z * MarketDb) :=
  market_apply_batch crypto active
    [(51%N, nonce, mk_BitcoinObservationInput "bc1q3" (Example_payments.tx 0) 500 1 true)] 300000000000.

Definition paid : MarketDb := match observed with Ok (_, md) => md | Err _ => start end.

Definition status_result : result PersistenceError (option MarketplaceInvoiceStatus) :=
  status_snapshot crypto from_str Some is_object str_compare paid (mk_CreatorPubky "creator") 31 400000000000.

Definition prepare_answer : MarketplacePreparationResult :=
  mk_MarketplacePreparationResult 31 (mk_MarketplaceTerms 500 Btc [Accept_Btc]) (mk_MarketplaceQuote [(Accept_Btc, 500)] [])
    100000000000 1900000000000 false.

Definition activate_answer : MarketplaceActivationResult :=
  mk_MarketplaceActivationResult 31 200000000000 3800000000000 (mk_MarketplaceTerms 500 Btc [Accept_Btc])
    (mk_MarketplaceQuote [(Accept_Btc, 500)] []) false.

Lemma prepare_run : market_prepare crypto from_str Some is_object start input 31 nonce 150000000000 = Ok (prepare_answer, prepared).
Proof.
  unfold prepared. fold prepare_result.
  assert (match prepare_result with Ok (r, _) => r = prepare_answer | Err _ => False end) as H by (vm_compute; reflexivity).
  destruct prepare_result as [[r md]|e]; [by subst r|done].
Qed.

Lemma activate_run :
  market_activate crypto to_bytes from_str Some is_object now_format prepared activation_input fresh 200000000000
  = Ok (Some activate_answer, active).
Proof.
  unfold active. fold activate_result.
  assert (match activate_result with Ok (r, _) => r = Some activate_answer | Err _ => False end) as H by (vm_compute; reflexivity).
  destruct activate_result as [[r md]|e]; [by subst r|done].
Qed.

Lemma observe_run :
  market_apply_batch crypto active
    [(51%N, nonce, mk_BitcoinObservationInput "bc1q3" (Example_payments.tx 0) 500 1 true)] 300000000000 = Ok (1, paid).
Proof.
  unfold paid. fold observed. assert (match observed with Ok (r, _) => r = 1 | Err _ => False end) as H by (vm_compute; reflexivity).
  destruct observed as [[r md]|e]; [by subst r|done].
Qed.

Lemma market_start_wf : market_wf start.
Proof.
  split; unfold start, mm_db, ac_db, dd_db, preparation; simpl; try (intros *; rewrite ?lookup_empty; done).
  intros i j h. rewrite !lookup_singleton_Some. intros [<- _] [<- _]. done.
Qed.

#[global] Opaque prepared active paid.

Notation step := (market_step crypto to_bytes from_str Some is_object now_format).

Lemma prepare_step : step start prepared.
Proof. exact (ms_prepare crypto to_bytes from_str Some is_object now_format start input 31 nonce _ _ _ prepare_run). Qed.

Lemma activate_step : step prepared active.
Proof. exact (ms_activate crypto to_bytes from_str Some is_object now_format prepared _ _ _ _ _ activate_run). Qed.

Lemma pay_step : step active paid.
Proof. exact (ms_batch crypto to_bytes from_str Some is_object now_format active _ _ _ _ observe_run). Qed.

Lemma run_steps : rtc step start paid.
Proof. eapply rtc_l; [exact prepare_step|]. eapply rtc_l; [exact activate_step|]. apply rtc_once, pay_step. Qed.

Lemma prepared_wf : market_wf prepared.
Proof. exact (steps_wf crypto to_bytes from_str Some is_object now_format _ _ (rtc_once _ _ prepare_step) market_start_wf). Qed.
End Example_market.
Import Example_market.

Lemma market_tables_consistent_witness : market_wf paid.
Proof.
  exact (market_tables_consistent crypto to_bytes from_str Some is_object now_format start paid run_steps market_start_wf).
Defined.

Lemma market_refines_lifecycle_witness : rtc lifecycle_step None (invoice_of paid 31%N).
Proof.
  exact (proj1 (market_refines_lifecycle crypto to_bytes from_str Some is_object now_format start paid 31%N run_steps market_start_wf)).
Defined.

Lemma market_invoice_permanent_witness : is_Some (invoice_of paid 31%N).
Proof.
  assert (is_some (invoice_of prepared 31%N) = true) as H by (vm_compute; reflexivity).
  apply is_some_witness in H as [v E].
  destruct (market_invoice_permanent crypto to_bytes from_str Some is_object now_format prepared paid 31%N v
    (rtc_l _ _ _ _ activate_step (rtc_once _ _ pay_step)) prepared_wf E) as (v' & Hv' & _). exists v'. exact Hv'.
Defined.

Lemma preparation_idempotent_witness :
  market_prepare crypto from_str Some is_object paid input 99 nonce 5 = Ok (replayed prepare_answer, paid).
Proof.
  pose proof Example_drains.drain_laws as L. pose proof codec_laws as C. pose proof market_codec_laws as M.
  assert (String.length nonce = NONCE_LENGTH) as Hn by (vm_compute; reflexivity).
  assert (∀ d, mi_prepare_deadline input = Some d → d <= instant_max) as Hd
    by (intros d Hd; injection Hd as <-; vm_compute; congruence).
  assert (well_formed_request input) as Hw by (unfold well_formed_request; vm_compute; repeat split; congruence).
  assert (same_request input input) as Hs by (unfold same_request; repeat split).
  exact (proj1 (proj1 (preparation_idempotent crypto to_bytes from_str Some is_object now_format start input 31 nonce
    150000000000 prepare_answer prepared paid input 99 nonce 5 market_start_wf Hn Hd prepare_run eq_refl
    (rtc_l _ _ _ _ activate_step (rtc_once _ _ pay_step)) Hw) Hs)).
Defined.

Lemma activation_exact_witness :
  ∃ p e, preparation prepared 31%N = Some p
    ∧ preparation active 31%N = Some (activated 200000000000 (200000000000 + pe_payment_window_seconds e * NANOS_PER_SECOND) p).
Proof.
  pose proof Example_drains.drain_laws as L. pose proof codec_laws as C.
  assert (String.length nonce = NONCE_LENGTH) as Hn by (vm_compute; reflexivity).
  destruct (activation_exact crypto from_bytes to_bytes from_str Some is_object now_format published_reread prepared
    activation_input fresh 200000000000 activate_answer active prepared_wf Hn Hn activate_run eq_refl)
    as (p & e & proposal & deadline & intent & quote & row & s & record & Hp & _ & _ & _ & _ & _ & Hd & _ & _ & _ & _ & Hp' & _).
  exists p, e. split; [exact Hp|]. rewrite <- Hd. exact Hp'.
Defined.

Lemma activation_replays_witness :
  market_void crypto from_str Some is_object paid (mk_CreatorPubky "creator") 31 700 = Err ML_InvoiceActive.
Proof.
  pose proof Example_drains.drain_laws as L. pose proof codec_laws as C.
  assert (String.length nonce = NONCE_LENGTH) as Hn by (vm_compute; reflexivity).
  assert (500 ≠ 0) as Ha by lia. assert (600000000000 ≠ 0) as Hw by lia.
  exact (proj2 (activation_replays crypto to_bytes from_str Some is_object now_format prepared activation_input fresh
    200000000000 activate_answer active paid activation_input fresh 700 prepared_wf Hn activate_run eq_refl
    (rtc_once _ _ pay_step) eq_refl eq_refl Ha Hw)).
Defined.

Lemma market_status_sound_witness :
  ∃ st, status_snapshot crypto from_str Some is_object str_compare paid (mk_CreatorPubky "creator") 31 400000000000 = Ok (Some st)
    ∧ ms_paid_asset st = Some Accept_Btc ∧ ∃ p, preparation paid 31%N = Some p.
Proof.
  assert (is_some (st ← ok status_result; st) = true) as H by (vm_compute; reflexivity).
  assert ((st ← (st ← ok status_result; st); ms_paid_asset st) = Some Accept_Btc) as Ha by (vm_compute; reflexivity).
  unfold status_result in H, Ha. apply is_some_witness in H as [st Hst]. rewrite Hst in Ha.
  assert (status_snapshot crypto from_str Some is_object str_compare paid (mk_CreatorPubky "creator") 31 400000000000 = Ok (Some st))
    as E by (by apply ok_some_witness).
  exists st. split; [exact E|]. split; [exact Ha|].
  destruct (market_status_sound crypto from_str Some is_object str_compare paid _ _ _ st E)
    as (p & _ & Hp & _). exists p. exact Hp.
Defined.

Lemma quote_exact_witness :
  ∃ i q, Example_allocation.intent = Ok i
    ∧ quote_from_intent from_str Some is_object i (mk_MarketplaceTerms 500 Btc [Accept_Btc]) = Ok q
    ∧ (mq_payment_amounts q).*1 = [Accept_Btc].
Proof.
  assert (is_ok Example_allocation.intent = true) as Hi by (vm_compute; reflexivity).
  apply is_ok_witness in Hi as [i Ei].
  assert (is_ok (Example_allocation.intent ≫= λ i, quote_from_intent from_str Some is_object i (mk_MarketplaceTerms 500 Btc [Accept_Btc])) = true)
    as Hq by (vm_compute; reflexivity).
  rewrite Ei in Hq. simpl in Hq.
  apply is_ok_witness in Hq as [q Eq]. exists i, q. split; [exact Ei|]. split; [exact Eq|].
  destruct (quote_exact from_str Some is_object i (mk_MarketplaceTerms 500 Btc [Accept_Btc]) q Eq) as (t & _ & _ & _ & Ha & _).
  exact Ha.
Defined.
