(* ===== verification/Usdt.v ===== *)
(** * Usdt: receipts of Arbitrum USDT0 transfers ([usdt.rs])

    A Reader who pays in USDT submits a proof: the transaction, the position of the log in
    its receipt and a signature of the paying account over the request it pays.
    [parse_proof] checks the attestation and recovers the account, [from_proofs] groups the
    attestations by transfer, and [verify_candidate] asks an Arbitrum node whether that
    transfer happened, as a program over HTTP posts and the shared snapshot of the chain's
    tip.

    A [B256] and an [Address] are their 32 and 20 bytes; JSON objects are their members in
    the order of their keys (the [BTreeMap] of [serde_json]).  [alloy_primitives],
    [alloy_sol_types] and [secp256k1] are the classes [Alloy] and [Secp256k1], the JSON
    parser is a parameter. *)

From S2P Require Import Prelude Text Effects Receiving Intent Crypto Observations.
Local Open Scope string_scope.
Local Open Scope Z_scope.

(** ** [serde_json::Value] *)

Inductive JsonNumber :=
| PosInt (n : Z)
| NegInt (n : Z)
| Float (bits : Z).

Inductive Value :=
| Null
| Bool (b : bool)
| Number (n : JsonNumber)
| Str (s : string)
| Array (l : list Value)
| Object (m : list (string * Value)).

#[global] Instance JsonNumber_eq_dec : EqDecision JsonNumber.
Proof. solve_decision. Defined.

(** The derived [PartialEq]. *)
Fixpoint value_eqb (v w : Value) : bool :=
  match v, w with
  | Null, Null => true
  | Bool a, Bool b => Bool.eqb a b
  | Number m, Number n => bool_decide (m = n)
  | Str s, Str t => String.eqb s t
  | Array l, Array k =>
      (fix go (l k : list Value) : bool :=
         match l, k with
         | [], [] => true
         | v :: l, w :: k => value_eqb v w && go l k
         | _, _ => false
         end) l k
  | Object m, Object n =>
      (fix go (m n : list (string * Value)) : bool :=
         match m, n with
         | [], [] => true
         | (a, v) :: m, (b, w) :: n => String.eqb a b && value_eqb v w && go m n
         | _, _ => false
         end) m n
  | _, _ => false
  end.

Fixpoint member (k : string) (m : list (string * Value)) : option Value :=
  match m with
  | [] => None
  | (j, v) :: m => if String.eqb j k then Some v else member k m
  end.

(** [value.get(k)], [value[k]] and [value[n]]: an absent member is [Null]. *)
Definition json_get (v : Value) (k : string) : option Value :=
  match v with Object m => member k m | _ => None end.

Definition field (v : Value) (k : string) : Value := default Null (json_get v k).

Definition item (v : Value) (n : nat) : Value :=
  match v with Array l => default Null (l !! n) | _ => Null end.

Definition json_str (v : Value) : option string := match v with Str s => Some s | _ => None end.

Definition as_array (v : Value) : option (list Value) := match v with Array l => Some l | _ => None end.

Definition is_null (v : Value) : bool := match v with Null => true | _ => false end.

(** [value == n] for an integer literal, [value == "s"], [value == true]. *)
Definition eq_i64 (v : Value) (n : Z) : bool :=
  match v with
  | Number (PosInt m) => (m <=? i64_max) && (m =? n)
  | Number (NegInt m) => m =? n
  | _ => false
  end.

Definition eq_str (v : Value) (s : string) : bool :=
  match v with Str t => String.eqb t s | _ => false end.

Definition eq_bool (v : Value) (b : bool) : bool :=
  match v with Bool c => Bool.eqb c b | _ => false end.

(** ** Numbers in base sixteen *)

Definition hex_digit_value (c : ascii) : Z :=
  if is_ascii_digit c then byte c - 48 else if in_range 65 70 c then byte c - 55 else byte c - 87.

Definition hex_digit_char (d : Z) : ascii :=
  ascii_of_N (Z.to_N (if d <? 10 then 48 + d else 87 + d)).

Fixpoint hex_value_from (acc : Z) (s : string) : Z :=
  match s with
  | EmptyString => acc
  | String c s => hex_value_from (acc * 16 + hex_digit_value c) s
  end.

(** [u64::from_str_radix(s, 16)]: an optional leading [+], at least one digit, only digits,
    and a value that fits. *)
Definition u64_from_hex (s : string) : option Z :=
  let digits := match s with
                | String c rest => if Ascii.eqb c "+" then rest else s
                | EmptyString => s
                end in
  if negb (str_is_empty digits) && all_bytes is_ascii_hexdigit digits
     && (hex_value_from 0 digits <=? u64_max)
  then Some (hex_value_from 0 digits) else None.

(** [format!("{:x}", n)] of a [u64]: at most sixteen digits. *)
Fixpoint hex_digits (fuel : nat) (n : Z) (acc : string) : string :=
  match fuel with
  | O => acc
  | S fuel =>
      let acc := String (hex_digit_char (n mod 16)) acc in
      if n <? 16 then acc else hex_digits fuel (n / 16) acc
  end.

Definition fmt_hex (n : Z) : string := hex_digits 16 n "".

(** [U256::from_be_bytes] *)
Fixpoint be_value_from (acc : Z) (s : string) : Z :=
  match s with
  | EmptyString => acc
  | String c s => be_value_from (acc * 256 + byte c) s
  end.

Definition u256_from_be_bytes (s : string) : Z := be_value_from 0 s.

(** ** The records of a proof *)

Inductive VerificationError :=
| InvalidProof
| Unavailable.

#[global] Instance VerificationError_eq_dec : EqDecision VerificationError.
Proof. solve_decision. Defined.

(** The SDK's record of one submitted proof; [billing_period] is opaque. *)
Record PaymentProofRecord := mk_PaymentProofRecord {
  pp_payment_app_id : string;
  pp_payment_endpoint_identifier : string;
  pp_payment_reference : string;
  pp_billing_period : option string;
  pp_conversion_quote_id : option string;
  pp_proof : list (string * Value);
}.

Record PaymentContext := mk_PaymentContext {
  cx_payer : string;
  cx_payee : string;
  cx_request_id : string;
  cx_reference : string;
  cx_recipient : UsdtAddress;
}.

Record Proof_ := mk_Proof {
  pf_kind : string;
  pf_chain_id : string;
  pf_transaction_hash : string;
  pf_receipt_log_index : string;
  pf_signature : string;
}.

Record RequestBinding := mk_RequestBinding {
  rb_payer : string;
  rb_payee : string;
  rb_payment_app_id : string;
  rb_payment_request_id : string;
  rb_payment_reference : string;
  rb_payment_endpoint_identifier : string;
  rb_period_starts_at : string;
  rb_period_ends_at : string;
  rb_conversion_quote_id : string;
}.

Record Erc20Payment := mk_Erc20Payment {
  ep_transaction_hash : string;
  ep_receipt_log_index : Z;
  ep_request : RequestBinding;
}.

(** [alloy_primitives] and [alloy_sol_types]: texts of hashes and addresses, hashing. *)
Class Alloy := {
  hex_decode : string → option string;
  b256_from_str : string → option string;
  address_from_str : string → option string;
  b256_hex : string → string;                        (* format!("{:#x}") *)
  b256_json : string → Value;                        (* its serialisation *)
  into_word : string → string;
  keccak256 : string → string;
  eip712_signing_hash : string → string → Z → Erc20Payment → string;  (* name, version, chain id *)
}.

(** The crate [secp256k1]. *)
Class Secp256k1 := {
  RecoverableSignature : Type;
  Signature : Type;
  PublicKey : Type;
  signature_eqb : Signature → Signature → bool;
  from_compact : string → Z → option RecoverableSignature;
  to_standard : RecoverableSignature → Signature;
  normalize_s : Signature → Signature;
  recover_ecdsa : string → RecoverableSignature → option PublicKey;
  serialize_uncompressed : PublicKey → string;
}.

Definition canonical_hex (value : string) (bytes : Z) : result VerificationError string :=
  if negb (str_len value =? 2 + bytes * 2)
     || negb (starts_with "0x" value)
     || negb (all_bytes is_lower_hexdigit (str_drop 2 value))
  then Err InvalidProof
  else Ok value.

Definition quantity (value : Value) : result VerificationError Z :=
  ok_or ((json_str value ≫= strip_prefix "0x") ≫= u64_from_hex) Unavailable.

(** [serde_json::from_value::<Proof>] with [deny_unknown_fields]: five strings and nothing
    else. *)
Definition proof_fields : list string :=
  ["type"; "chain_id"; "transaction_hash"; "receipt_log_index"; "signature"].

Definition proof_from_value (m : list (string * Value)) : option Proof_ :=
  if forallb (λ kv, existsb (String.eqb kv.1) proof_fields) m then
    kind ← member "type" m ≫= json_str;
    chain_id ← member "chain_id" m ≫= json_str;
    transaction_hash ← member "transaction_hash" m ≫= json_str;
    receipt_log_index ← member "receipt_log_index" m ≫= json_str;
    signature ← member "signature" m ≫= json_str;
    Some (mk_Proof kind chain_id transaction_hash receipt_log_index signature)
  else None.

(** [BTreeSet::insert] of byte arrays. *)
Fixpoint address_insert (a : string) (l : list string) : list string :=
  match l with
  | [] => [a]
  | b :: l => match str_compare a b with
              | Lt => a :: b :: l
              | Eq => b :: l
              | Gt => b :: address_insert a l
              end
  end.

Record PaymentCandidate := mk_PaymentCandidate {
  pc_identity : string;
  pc_hash : string;
  pc_index : Z;
  pc_senders : list string;
}.

Definition MAX_REQUEST_PROOFS : Z := 128.

(** A [BTreeMap<String, PaymentCandidate>]: its entries in the order of their keys. *)
Definition Candidates := list (string * PaymentCandidate).

(** [entry(identity).or_insert_with(..).senders.insert(sender)] *)
Fixpoint candidate_insert (identity hash : string) (index : Z) (sender : string) (m : Candidates) : Candidates :=
  match m with
  | [] => [(identity, mk_PaymentCandidate identity hash index [sender])]
  | (k, c) :: m =>
      match str_compare identity k with
      | Lt => (identity, mk_PaymentCandidate identity hash index [sender]) :: (k, c) :: m
      | Eq => (k, mk_PaymentCandidate (pc_identity c) (pc_hash c) (pc_index c) (address_insert sender (pc_senders c))) :: m
      | Gt => (k, c) :: candidate_insert identity hash index sender m
      end
  end.

(** [identity.split(':')]; [fuel] bounds the number of parts and the length suffices. *)
Fixpoint split_parts (fuel : nat) (s : string) : list string :=
  match fuel, split_once ":" s with
  | S fuel, Some (part, rest) => part :: split_parts fuel rest
  | _, _ => [s]
  end.

Section usdt.
Context {alloy : Alloy} {secp : Secp256k1}.
(** [serde_json::from_slice] and [OffsetDateTime::from_unix_timestamp] *)
Context (from_slice : string → option Value) (from_unix_timestamp : Z → option Z).

Definition parse_hash (value : Value) : result VerificationError string :=
  ok_or (json_str value ≫= b256_from_str) Unavailable.

Definition transfer_identity (hash : string) (index : Z) : string :=
  USDT_CHAIN_ID ++ ":" ++ b256_hex hash ++ ":" ++ fmt_dec index.

(** ** The attestation *)

Definition erc20_payment (context : PaymentContext) (hash : string) (index : Z) : Erc20Payment :=
  mk_Erc20Payment hash index
    (mk_RequestBinding (cx_payer context) (cx_payee context) PAYKIT_APP_ID (cx_request_id context)
       (cx_reference context) USDT_ENDPOINT "" "" "").

Definition signing_hash (context : PaymentContext) (hash : string) (index : Z) : string :=
  eip712_signing_hash "Paykit ERC20 Payment" "1" 42161 (erc20_payment context hash index).

(** The account whose key signed [digest]: a canonical 65-byte signature with recovery 27 or
    28 and a low [s]. *)
Definition recover_sender (digest signature : string) : result VerificationError string :=
  text ← canonical_hex signature 65;
  signature ← ok_or (hex_decode text) InvalidProof;
  recovery ← (match byte <$> String.get 64 signature with
              | Some 27 => Ok 0
              | Some 28 => Ok 1
              | _ => Err InvalidProof
              end);
  signature ← ok_or (from_compact (str_take 64 signature) recovery) InvalidProof;
  let standard := to_standard signature in
  ensure (signature_eqb standard (normalize_s standard)) InvalidProof;;
  public ← ok_or (recover_ecdsa digest signature) InvalidProof;
  Ok (str_drop 12 (keccak256 (str_drop 1 (serialize_uncompressed public)))).

Definition parse_proof (context : PaymentContext) (record : PaymentProofRecord) :
    result VerificationError (Proof_ * string * Z * string) :=
  ensure (String.eqb (pp_payment_app_id record) PAYKIT_APP_ID
          && String.eqb (pp_payment_endpoint_identifier record) USDT_ENDPOINT
          && String.eqb (pp_payment_reference record) (cx_reference context)
          && is_none (pp_billing_period record)
          && is_none (pp_conversion_quote_id record)) InvalidProof;;
  proof ← ok_or (proof_from_value (pp_proof record)) InvalidProof;
  ensure (String.eqb (pf_kind proof) "erc20-transfer-eip712"
          && String.eqb (pf_chain_id proof) USDT_CHAIN_ID) InvalidProof;;
  text ← canonical_hex (pf_transaction_hash proof) 32;
  hash ← ok_or (b256_from_str text) InvalidProof;
  let index_text := pf_receipt_log_index proof in
  ensure (negb (str_is_empty index_text)
          && negb ((1 <? str_len index_text) && starts_with "0" index_text)
          && all_bytes is_ascii_digit index_text) InvalidProof;;
  index ← ok_or (u256_from_digits index_text) InvalidProof;
  ensure (index <=? u64_max) InvalidProof;;
  sender ← recover_sender (signing_hash context hash index) (pf_signature proof);
  Ok (proof, hash, index, sender).

Definition payment_identity (context : PaymentContext) (record : PaymentProofRecord) :
    result VerificationError string :=
  r ← parse_proof context record;
  let '(_, hash, index, _) := r in
  Ok (transfer_identity hash index).

(** ** Candidates *)

Definition add_proof (context : PaymentContext) (m : Candidates) (record : PaymentProofRecord) : Candidates :=
  match parse_proof context record with
  | Ok (_, hash, index, sender) => candidate_insert (transfer_identity hash index) hash index sender m
  | Err _ => m
  end.

Definition from_proofs (context : PaymentContext) (proofs : list PaymentProofRecord) : option Candidates :=
  if MAX_REQUEST_PROOFS <? Z.of_nat (length proofs) then None
  else Some (foldl (add_proof context) [] proofs).

Definition from_observation (identity sender : string) : result VerificationError PaymentCandidate :=
  match split_parts (String.length identity) identity with
  | [chain; hash; index] =>
      ensure (String.eqb chain USDT_CHAIN_ID) InvalidProof;;
      text ← canonical_hex hash 32;
      hash ← ok_or (b256_from_str text) InvalidProof;
      index ← ok_or (parse_u64 index) InvalidProof;
      ensure (String.eqb identity (transfer_identity hash index)) InvalidProof;;
      Ok (mk_PaymentCandidate identity hash index [sender])
  | _ => Err InvalidProof
  end.

(** ** The log of a transfer *)

Definition transfer_topic : string := keccak256 "Transfer(address,address,uint256)".

Definition transfer_amount (log : Value) (sender : string) (recipient : UsdtAddress) (hash : string)
    (block_hash : Value) : result VerificationError Z :=
  topics ← ok_or (topics ← as_array (field log "topics");
                  if Nat.eqb (length topics) 3 then Some topics else None) InvalidProof;
  ensure (negb (eq_bool (field log "removed") true)) InvalidProof;;
  ensure (eq_str (field log "transactionHash") (b256_hex hash)) InvalidProof;;
  ensure (value_eqb (field log "blockHash") block_hash) InvalidProof;;
  text ← ok_or (json_str (field log "address")) InvalidProof;
  address ← ok_or (address_from_str text) InvalidProof;
  token ← ok_or (address_from_str USDT_TOKEN) InvalidProof;
  ensure (String.eqb address token) InvalidProof;;
  t0 ← parse_hash (default Null (topics !! 0%nat));
  ensure (String.eqb t0 transfer_topic) InvalidProof;;
  t1 ← parse_hash (default Null (topics !! 1%nat));
  ensure (String.eqb t1 (into_word sender)) InvalidProof;;
  t2 ← parse_hash (default Null (topics !! 2%nat));
  recipient ← ok_or (address_from_str (usdt_as_str recipient)) InvalidProof;
  ensure (String.eqb t2 (into_word recipient)) InvalidProof;;
  data ← ok_or (json_str (field log "data")) InvalidProof;
  text ← canonical_hex data 32;
  word ← ok_or (b256_from_str text) InvalidProof;
  let amount := u256_from_be_bytes word in
  ensure (amount <=? u64_max) InvalidProof;;
  ensure (negb (amount =? 0)) InvalidProof;;
  Ok amount.

(** ** The node *)

Record ChainTip := mk_ChainTip {
  ct_head : Z;
  ct_finalized : option Z;
}.

Definition CHAIN_TIP_TTL : Z := 5 * 1000000000.

Definition RESPONSE_LIMIT : Z := 8 * 1024 * 1024.

(** What a post answers: whether the status is a success, and the chunks of the body, [None]
    where reading one fails. *)
Record HttpResponse := mk_HttpResponse {
  hr_success : bool;
  hr_chunks : list (option string);
}.

(** The calls of the verifier: the shared snapshot of the tip, which stays locked while it is
    refreshed, the monotonic clock and the posts, which may fail. *)
Inductive RpcCall : Type → Type :=
| LockTip : RpcCall (option (Z * ChainTip))
| StoreTip (tip : option (Z * ChainTip)) : RpcCall unit
| InstantNow : RpcCall Z
| Post (body : Value) : RpcCall (option HttpResponse).

Notation M := (prog RpcCall).

Definition rpc_request (method : string) (params : list Value) : Value :=
  Object [("id", Number (PosInt 1)); ("jsonrpc", Str "2.0"); ("method", Str method); ("params", Array params)].

Fixpoint read_body (bytes : string) (chunks : list (option string)) : result VerificationError string :=
  match chunks with
  | [] => Ok bytes
  | None :: _ => Err Unavailable
  | Some chunk :: chunks =>
      ensure (str_len bytes + str_len chunk <=? RESPONSE_LIMIT) Unavailable;;
      read_body (bytes ++ chunk) chunks
  end.

Definition rpc_result (response : option HttpResponse) : result VerificationError Value :=
  response ← ok_or response Unavailable;
  ensure (hr_success response) Unavailable;;
  bytes ← read_body "" (hr_chunks response);
  value ← ok_or (from_slice bytes) Unavailable;
  ensure (eq_i64 (field value "id") 1 && eq_str (field value "jsonrpc") "2.0"
          && is_none (json_get value "error")) Unavailable;;
  ok_or (json_get value "result") Unavailable.

Definition rpc (method : string) (params : list Value) : M (result VerificationError Value) :=
  response ⇐ call (Post (rpc_request method params));
  Ret (rpc_result response).

Definition refresh_tip (minimum_block : Z) : M (result VerificationError ChainTip) :=
  _ ⇐ call (StoreTip None);
  read_at ⇐ call InstantNow;
  chain ←? rpc "eth_chainId" [];
  chain ←? Ret (quantity chain);
  _ ←? Ret (ensure (chain =? 42161) Unavailable);
  finalized ←? rpc "eth_getBlockByNumber" [Str "finalized"; Bool false];
  finalized ←? Ret (if is_null finalized then Ok None else Some <$> quantity (field finalized "number"));
  head ←? rpc "eth_blockNumber" [];
  head ←? Ret (quantity head);
  _ ←? Ret (ensure ((minimum_block <=? head)
                    && match finalized with Some block => block <=? head | None => true end) Unavailable);
  let tip := mk_ChainTip head finalized in
  _ ⇐ call (StoreTip (Some (read_at, tip)));
  Ret (Ok tip).

Definition chain_tip (minimum_block : Z) : M (result VerificationError ChainTip) :=
  cached ⇐ call LockTip;
  match cached with
  | Some (read_at, tip) =>
      now ⇐ call InstantNow;
      if (Z.max 0 (now - read_at) <? CHAIN_TIP_TTL) && (minimum_block <=? ct_head tip)
      then Ret (Ok tip)
      else refresh_tip minimum_block
  | None => refresh_tip minimum_block
  end.

(** The block of a receipt against the receipt, the log and the tip: the part of
    [verify_candidate] after its last call. *)
Definition check_receipt (context : PaymentContext) (candidate : PaymentCandidate) (tip : ChainTip)
    (receipt : Value) (number : Z) (block : Value) : result VerificationError (option VerifiedTransfer) :=
  same ← (if is_null block then Ok false
          else a ← parse_hash (field receipt "blockHash");
               b ← parse_hash (field block "hash");
               Ok (String.eqb a b));
  if negb same then Ok None
  else
    stated ← quantity (field block "number");
    ensure (stated =? number) Unavailable;;
    seconds ← quantity (field block "timestamp");
    timestamp ← ok_or (if seconds <=? i64_max then from_unix_timestamp seconds else None) Unavailable;
    logs ← ok_or (as_array (field receipt "logs")) Unavailable;
    log ← ok_or (logs !! Z.to_nat (pc_index candidate)) InvalidProof;
    topic ← map_err (λ _, InvalidProof) (parse_hash (item (field log "topics") 1));
    sender ← ok_or (find (λ address, String.eqb (into_word address) topic) (pc_senders candidate)) InvalidProof;
    amount ← transfer_amount log sender (cx_recipient context) (pc_hash candidate) (field receipt "blockHash");
    confirmations ← ok_or (if (number <=? ct_head tip) && (ct_head tip - number + 1 <=? u32_max)
                           then Some (ct_head tip - number + 1) else None) Unavailable;
    let finalized := match ct_finalized tip with Some block => number <=? block | None => false end in
    Ok (Some (mk_VerifiedTransfer (transfer_identity (pc_hash candidate) (pc_index candidate)) sender amount
                timestamp confirmations finalized)).

Definition verify_candidate (context : PaymentContext) (candidate : PaymentCandidate) :
    M (result VerificationError (option VerifiedTransfer)) :=
  tip ←? chain_tip 0;
  receipt ←? rpc "eth_getTransactionReceipt" [b256_json (pc_hash candidate)];
  if is_null receipt then Ret (Ok None)
  else
    hash ←? Ret (parse_hash (field receipt "transactionHash"));
    _ ←? Ret (ensure (String.eqb hash (pc_hash candidate)) Unavailable);
    status ←? Ret (quantity (field receipt "status"));
    _ ←? Ret (ensure (status =? 1) InvalidProof);
    number ←? Ret (quantity (field receipt "blockNumber"));
    tip ←? (if ct_head tip <? number then chain_tip number else Ret (Ok tip));
    block ←? rpc "eth_getBlockByNumber" [Str ("0x" ++ fmt_hex number); Bool false];
    Ret (check_receipt context candidate tip receipt number block).

(** [verify]: one proof. *)
Definition verify (context : PaymentContext) (record : PaymentProofRecord) :
    M (result VerificationError (option VerifiedTransfer)) :=
  proof ←? Ret (parse_proof context record);
  let '(_, hash, index, sender) := proof in
  verify_candidate context (mk_PaymentCandidate (transfer_identity hash index) hash index [sender]).
End usdt.
