(* ===== verification/UsdtVerified.v ===== *)
(** * UsdtVerified: what a verified transfer says ([usdt.rs])

    The theorems of [Usdt]: a candidate carries exactly the accounts that attested its
    transfer for this request; a transfer is reported only when the node's answers of that
    run show it, in a block of the canonical chain; a missing receipt or a reorganised block
    is never a failure. *)

From S2P Require Import Prelude Text Effects Receiving Intent Crypto Observations Usdt.
Local Open Scope string_scope.
Local Open Scope Z_scope.

(** ** Equality of JSON values *)

Section value_induction.
Variables (P : Value → Prop) (HN : P Null) (HB : ∀ b, P (Bool b)) (HM : ∀ n, P (Number n))
  (HS : ∀ s, P (Str s)) (HA : ∀ l, Forall P l → P (Array l))
  (HO : ∀ m, Forall (λ kv, P kv.2) m → P (Object m)).

Fixpoint value_induction (v : Value) : P v :=
  match v with
  | Null => HN
  | Bool b => HB b
  | Number n => HM n
  | Str s => HS s
  | Array l => HA l ((fix go l := match l return Forall P l with
                                  | [] => Forall_nil_2 _
                                  | v :: l => Forall_cons_2 _ _ _ (value_induction v) (go l)
                                  end) l)
  | Object m => HO m ((fix go m := match m return Forall (λ kv, P kv.2) m with
                                   | [] => Forall_nil_2 _
                                   | kv :: m => Forall_cons_2 _ _ _ (value_induction kv.2) (go m)
                                   end) m)
  end.
End value_induction.

Lemma value_eqb_eq v w : value_eqb v w = true ↔ v = w.
Proof.
  revert w. induction v as [|b|n|s|l IH|m IH] using value_induction; intros [|b'|n'|s'|l'|m']; simpl; try done.
  - rewrite Bool.eqb_true_iff. naive_solver.
  - rewrite bool_decide_eq_true. naive_solver.
  - rewrite String.eqb_eq. naive_solver.
  - transitivity (l = l'); [|naive_solver]. revert l'. induction IH as [|v l Hv _ IH]; intros [|w l']; try done.
    rewrite andb_true_iff, Hv, IH. naive_solver.
  - transitivity (m = m'); [|naive_solver]. revert m'. induction IH as [|[k v] m Hv _ IH]; intros [|[k' w] m']; try done.
    rewrite !andb_true_iff, String.eqb_eq, Hv, IH. naive_solver.
Qed.

Lemma eq_str_eq v s : eq_str v s = true ↔ v = Str s.
Proof. destruct v; simpl; try done. rewrite String.eqb_eq. naive_solver. Qed.

Lemma eq_bool_eq v b : eq_bool v b = true ↔ v = Bool b.
Proof. destruct v; simpl; try done. rewrite Bool.eqb_true_iff. naive_solver. Qed.

Lemma json_str_some v s : json_str v = Some s ↔ v = Str s.
Proof. destruct v; naive_solver. Qed.

Lemma as_array_some v l : as_array v = Some l ↔ v = Array l.
Proof. destruct v; naive_solver. Qed.

Lemma canonical_hex_ok value bytes text :
  canonical_hex value bytes = Ok text ↔
  text = value ∧ str_len value = 2 + bytes * 2 ∧ starts_with "0x" value = true
  ∧ all_bytes is_lower_hexdigit (str_drop 2 value) = true.
Proof.
  unfold canonical_hex. destruct (str_len value =? 2 + bytes * 2) eqn:E, (starts_with "0x" value), (all_bytes _ _); simpl;
    split_bools; naive_solver.
Qed.

(** ** The order of candidates and senders *)

Lemma address_insert_elem a l x : x ∈ address_insert a l ↔ x = a ∨ x ∈ l.
Proof.
  induction l as [|b l IH]; simpl; [by rewrite list_elem_of_singleton, elem_of_nil; naive_solver|].
  destruct (str_compare a b) eqn:E; rewrite !elem_of_cons, ?IH; [|naive_solver..].
  apply str_compare_eq in E as ->. naive_solver.
Qed.

Section attested.
Context {alloy : Alloy} {secp : Secp256k1}.

(** [sender]'s key signed the payment of this request by the log [index] of [hash]. *)
Definition attests (context : PaymentContext) (hash : string) (index : Z) (sender : string)
    (record : PaymentProofRecord) : Prop :=
  pp_payment_app_id record = PAYKIT_APP_ID ∧ pp_payment_endpoint_identifier record = USDT_ENDPOINT
  ∧ pp_payment_reference record = cx_reference context ∧ pp_billing_period record = None
  ∧ pp_conversion_quote_id record = None
  ∧ ∃ proof, proof_from_value (pp_proof record) = Some proof
      ∧ pf_kind proof = "erc20-transfer-eip712" ∧ pf_chain_id proof = USDT_CHAIN_ID
      ∧ b256_from_str (pf_transaction_hash proof) = Some hash
      ∧ dec_value (pf_receipt_log_index proof) = index ∧ index <= u64_max
      ∧ recover_sender (signing_hash context hash index) (pf_signature proof) = Ok sender.

Lemma parse_proof_attests context record proof hash index sender :
  parse_proof context record = Ok (proof, hash, index, sender) → attests context hash index sender record.
Proof.
  unfold parse_proof. intros (u & Hg%ensure_ok & H)%bind_ok. clear u.
  apply bind_ok in H as (p & Hp%ok_or_ok & H). apply bind_ok in H as (u & Hk%ensure_ok & H). clear u.
  apply bind_ok in H as (text & Ht%canonical_hex_ok & H). apply bind_ok in H as (h & Hh%ok_or_ok & H).
  apply bind_ok in H as (u & _ & H). clear u. apply bind_ok in H as (i & Hi%ok_or_ok & H).
  apply bind_ok in H as (u & Hi64%ensure_ok & H). clear u. apply bind_ok in H as (s & Hs & [= -> -> -> ->]).
  destruct Ht as (-> & _). unfold u256_from_digits in Hi. case_match; [|done]. injection Hi as <-.
  split_bools. unfold attests. unfold is_none, is_some in *.
  destruct (pp_billing_period record), (pp_conversion_quote_id record); try done.
  split_and!; try done. exists proof. by split_and!.
Qed.

(** ** Identities of transfers *)

(** The documented texts of [B256]: [{:#x}] prints [0x] and 64 lower-case digits, and
    [from_str] reads 32 bytes back. *)
Class AlloyLaws := {
  b256_hex_canonical hash : String.length hash = 32%nat → canonical_hex (b256_hex hash) 32 = Ok (b256_hex hash);
  b256_hex_parses hash : String.length hash = 32%nat → b256_from_str (b256_hex hash) = Some hash;
  b256_from_str_length text hash : b256_from_str text = Some hash → String.length hash = 32%nat;
}.

Context {laws : AlloyLaws}.

Definition no_colon : string → bool := all_bytes (λ d, negb (Ascii.eqb d ":")).

Lemma lower_hexdigit_not_colon c : is_lower_hexdigit c = true → negb (Ascii.eqb c ":") = true.
Proof. intros H. apply negb_true_iff, Ascii.eqb_neq. by intros ->. Qed.

Lemma digit_not_colon c : is_ascii_digit c = true → negb (Ascii.eqb c ":") = true.
Proof. intros H. apply negb_true_iff, Ascii.eqb_neq. by intros ->. Qed.

Lemma starts_0x s : starts_with "0x" s = true → s = "0x" ++ str_drop 2 s.
Proof.
  destruct s as [|a [|b s]]; cbn -[Ascii.eqb]; rewrite ?andb_true_iff, ?Ascii.eqb_eq; naive_solver.
Qed.

Lemma b256_hex_no_colon hash : String.length hash = 32%nat → no_colon (b256_hex hash) = true.
Proof.
  intros (_ & _ & H0 & Hd)%b256_hex_canonical%canonical_hex_ok. rewrite (starts_0x _ H0).
  unfold no_colon. rewrite all_bytes_app. simpl. eapply all_bytes_impl; [|exact Hd]. apply lower_hexdigit_not_colon.
Qed.

Lemma fmt_dec_no_colon n : 0 <= n → no_colon (fmt_dec n) = true.
Proof.
  intros Hn. eapply all_bytes_impl; [apply digit_not_colon|]. by apply fmt_dec_digits.
Qed.

Lemma transfer_identity_split hash index :
  String.length hash = 32%nat → 0 <= index →
  split_parts (String.length (transfer_identity hash index)) (transfer_identity hash index)
  = [USDT_CHAIN_ID; b256_hex hash; fmt_dec index].
Proof.
  intros Hh Hi. pose proof (b256_hex_no_colon _ Hh) as Ha. pose proof (fmt_dec_no_colon _ Hi) as Hb.
  change (transfer_identity hash index) with (USDT_CHAIN_ID ++ String ":" (b256_hex hash ++ String ":" (fmt_dec index))).
  set (rest := b256_hex hash ++ String ":" (fmt_dec index)).
  assert (∃ n, String.length (USDT_CHAIN_ID ++ String ":" rest) = S (S (S n))) as [n ->] by (simpl; eauto).
  cbn [split_parts]. rewrite split_once_app by done. f_equal.
  unfold rest. rewrite split_once_app by done. f_equal.
  destruct n; cbn [split_parts]; by rewrite split_once_none.
Qed.

Lemma transfer_identity_inj hash index hash' index' :
  String.length hash = 32%nat → String.length hash' = 32%nat → 0 <= index → 0 <= index' →
  transfer_identity hash index = transfer_identity hash' index' → hash = hash' ∧ index = index'.
Proof.
  intros Hh Hh' Hi Hi' Heq. pose proof (transfer_identity_split _ _ Hh Hi) as H1.
  rewrite Heq, transfer_identity_split in H1 by done. injection H1 as Eh Ei. split.
  - pose proof (b256_hex_parses _ Hh) as H2. rewrite <- Eh, b256_hex_parses in H2 by done. by injection H2.
  - by rewrite <- (fmt_dec_value _ Hi), <- Ei, fmt_dec_value.
Qed.

(** A stored identity and sender read back as the candidate they name. *)
Theorem from_observation_roundtrip hash index sender :
  String.length hash = 32%nat → 0 <= index <= u64_max →
  from_observation (transfer_identity hash index) sender
  = Ok (mk_PaymentCandidate (transfer_identity hash index) hash index [sender]).
Proof.
  intros Hh Hi. unfold from_observation. rewrite transfer_identity_split by (done || lia).
  rewrite String.eqb_refl. cbn -[transfer_identity parse_u64 fmt_dec].
  rewrite b256_hex_canonical by done. cbn -[transfer_identity parse_u64 fmt_dec].
  rewrite b256_hex_parses by done. cbn -[transfer_identity parse_u64 fmt_dec].
  rewrite parse_u64_fmt_dec by lia. cbn -[transfer_identity fmt_dec]. by rewrite String.eqb_refl.
Qed.

(** ** The candidates of a request *)

(** Some attestation of [m] names this account for this log. *)
Definition attested_in (m : Candidates) (hash : string) (index : Z) (sender : string) : Prop :=
  ∃ k c, (k, c) ∈ m ∧ pc_hash c = hash ∧ pc_index c = index ∧ sender ∈ pc_senders c.

Definition candidate_wf (kc : string * PaymentCandidate) : Prop :=
  kc.1 = pc_identity kc.2 ∧ kc.1 = transfer_identity (pc_hash kc.2) (pc_index kc.2)
  ∧ String.length (pc_hash kc.2) = 32%nat ∧ 0 <= pc_index kc.2 <= u64_max.

Lemma candidate_insert_wf hash index sender m :
  String.length hash = 32%nat → 0 <= index <= u64_max → Forall candidate_wf m →
  Forall candidate_wf (candidate_insert (transfer_identity hash index) hash index sender m).
Proof.
  intros Hh Hi.
  assert (candidate_wf (transfer_identity hash index,
            mk_PaymentCandidate (transfer_identity hash index) hash index [sender])) as Hnew by (unfold candidate_wf; simpl; naive_solver).
  induction 1 as [|[k c] m Hc Hm IH]; cbn [candidate_insert]; [by apply Forall_singleton|].
  destruct (str_compare _ k); constructor; auto.
Qed.

Lemma attested_in_nil h i s : attested_in [] h i s ↔ False.
Proof. unfold attested_in. setoid_rewrite elem_of_nil. naive_solver. Qed.

Lemma attested_in_cons k c m h i s :
  attested_in ((k, c) :: m) h i s ↔ (pc_hash c = h ∧ pc_index c = i ∧ s ∈ pc_senders c) ∨ attested_in m h i s.
Proof. unfold attested_in. setoid_rewrite elem_of_cons. naive_solver. Qed.

Lemma candidate_insert_attested hash index sender m h i s :
  String.length hash = 32%nat → 0 <= index <= u64_max → Forall candidate_wf m →
  attested_in (candidate_insert (transfer_identity hash index) hash index sender m) h i s
  ↔ (h = hash ∧ i = index ∧ s = sender) ∨ attested_in m h i s.
Proof.
  intros Hh Hi. induction 1 as [|[k c] m Hc Hm IH]; cbn [candidate_insert].
  { rewrite attested_in_cons, attested_in_nil. cbn [pc_hash pc_index pc_senders].
    rewrite list_elem_of_singleton. naive_solver. }
  destruct Hc as (_ & Hk & Hl & Hc). cbn [fst snd] in Hk, Hl, Hc.
  destruct (str_compare _ k) eqn:E; rewrite !attested_in_cons; cbn [pc_hash pc_index pc_senders].
  - apply str_compare_eq in E. rewrite Hk in E. apply transfer_identity_inj in E as [Eh Ei]; [|done..|lia|lia].
    rewrite address_insert_elem. naive_solver.
  - rewrite list_elem_of_singleton. naive_solver.
  - rewrite IH. naive_solver.
Qed.

Lemma parse_proof_bounds context record proof hash index sender :
  parse_proof context record = Ok (proof, hash, index, sender) →
  String.length hash = 32%nat ∧ 0 <= index <= u64_max.
Proof.
  unfold parse_proof. intros (u & _ & H)%bind_ok. clear u. apply bind_ok in H as (p & _ & H).
  apply bind_ok in H as (u & _ & H). clear u. apply bind_ok in H as (text & _ & H).
  apply bind_ok in H as (h & Hh%ok_or_ok & H). apply bind_ok in H as (u & Hd%ensure_ok & H). clear u.
  apply bind_ok in H as (i & Hi%ok_or_ok & H). apply bind_ok in H as (u & Hi64%ensure_ok & H). clear u.
  apply bind_ok in H as (s & _ & [= -> -> -> ->]). split; [by eapply b256_from_str_length|].
  unfold u256_from_digits in Hi. case_match; [|done]. injection Hi as <-. split_bools.
  split; [|done]. by apply dec_value_bounds.
Qed.

(** A candidate carries exactly the accounts that attested its transfer for this request. *)
Lemma from_proofs_exact context proofs m :
  from_proofs context proofs = Some m →
  Forall candidate_wf m
  ∧ ∀ hash index sender, attested_in m hash index sender
      ↔ ∃ record proof, record ∈ proofs ∧ parse_proof context record = Ok (proof, hash, index, sender).
Proof.
  unfold from_proofs. case_match; [done|]. intros [= <-].
  induction proofs as [|r proofs IH] using rev_ind.
  { simpl. split; [constructor|]. intros h i s. rewrite attested_in_nil. setoid_rewrite elem_of_nil. naive_solver. }
  assert ((MAX_REQUEST_PROOFS <? Z.of_nat (length proofs)) = false) as Hn.
  { apply Z.ltb_ge in H. apply Z.ltb_ge. rewrite length_app in H. simpl in H. lia. }
  destruct (IH Hn) as [Hwf He]. clear IH. rewrite foldl_app. simpl. unfold add_proof at 1 3.
  destruct (parse_proof context r) as [[[[p h] i] s]|e] eqn:E.
  - destruct (parse_proof_bounds _ _ _ _ _ _ E) as [Hh Hi]. split; [by apply candidate_insert_wf|].
    intros h' i' s'. rewrite candidate_insert_attested, He by done. setoid_rewrite elem_of_app.
    setoid_rewrite list_elem_of_singleton. split; [naive_solver|].
    intros (r' & p' & [Hr| ->] & Hp); [right; by eauto|]. left. rewrite E in Hp. by injection Hp as <- <- <- <-.
  - split; [done|]. intros h' i' s'. rewrite He. setoid_rewrite elem_of_app. setoid_rewrite list_elem_of_singleton.
    split; [naive_solver|]. intros (r' & p' & [Hr| ->] & Hp); [by eauto|]. congruence.
Qed.
End attested.

Section verified.
Context {alloy : Alloy}.
Context (from_slice : string → option Value) (from_unix_timestamp : Z → option Z).

(** ** The transfer a log records *)

(** [log] is the event of moving [amount] USDT from [sender] to [recipient] in [hash]. *)
Definition usdt_transfer_log (log block_hash : Value) (hash sender : string) (recipient : UsdtAddress)
    (amount : Z) : Prop :=
  ∃ t0 t1 t2 address token to_ data word,
    field log "topics" = Array [t0; t1; t2]
    ∧ parse_hash t0 = Ok transfer_topic ∧ parse_hash t1 = Ok (into_word sender)
    ∧ parse_hash t2 = Ok (into_word to_) ∧ address_from_str (usdt_as_str recipient) = Some to_
    ∧ field log "address" = Str address ∧ address_from_str address = Some token
    ∧ address_from_str USDT_TOKEN = Some token
    ∧ field log "transactionHash" = Str (b256_hex hash) ∧ field log "blockHash" = block_hash
    ∧ field log "removed" ≠ Bool true
    ∧ field log "data" = Str data ∧ canonical_hex data 32 = Ok data ∧ b256_from_str data = Some word
    ∧ amount = u256_from_be_bytes word ∧ amount ≠ 0 ∧ amount <= u64_max.

Lemma bind_ensure {E A} b (e : E) (r : result E A) a : (ensure b e;; r) = Ok a ↔ b = true ∧ r = Ok a.
Proof. destruct b; simpl; naive_solver. Qed.

Lemma bind_ok_or {E A B} (o : option A) (e : E) (k : A → result E B) b :
  (ok_or o e ≫= k) = Ok b ↔ ∃ a, o = Some a ∧ k a = Ok b.
Proof. destruct o; simpl; naive_solver. Qed.

Lemma transfer_amount_ok log sender recipient hash block_hash amount :
  transfer_amount log sender recipient hash block_hash = Ok amount ↔
  usdt_transfer_log log block_hash hash sender recipient amount.
Proof.
  unfold transfer_amount, usdt_transfer_log. split.
  - rewrite bind_ok_or. intros (topics & Ht & H). apply bind_Some in Ht as (l & Hl%as_array_some & Ht).
    destruct (Nat.eqb (length l) 3) eqn:Hlen; [|done]. injection Ht as ->. apply Nat.eqb_eq in Hlen.
    destruct topics as [|t0 [|t1 [|t2 [|]]]]; try done. cbn [lookup list_lookup default id from_option] in H.
    apply bind_ensure in H as [Hr H]. apply bind_ensure in H as [Hth%eq_str_eq H].
    apply bind_ensure in H as [Hbh%value_eqb_eq H].
    apply bind_ok_or in H as (text & Ha%json_str_some & H). apply bind_ok_or in H as (address & Had & H).
    apply bind_ok_or in H as (token & Htk & H). apply bind_ensure in H as [->%String.eqb_eq H].
    apply bind_ok in H as (h0 & H0 & H). apply bind_ensure in H as [->%String.eqb_eq H].
    apply bind_ok in H as (h1 & H1 & H). apply bind_ensure in H as [->%String.eqb_eq H].
    apply bind_ok in H as (h2 & H2 & H). apply bind_ok_or in H as (to_ & Hto & H).
    apply bind_ensure in H as [->%String.eqb_eq H].
    apply bind_ok_or in H as (data & Hd%json_str_some & H). apply bind_ok in H as (text' & Hc & H).
    pose proof Hc as [-> _]%canonical_hex_ok. apply bind_ok_or in H as (word & Hw & H).
    cbv zeta in H. apply bind_ensure in H as [Hu H]. apply bind_ensure in H as [Hz [= <-]]. split_bools.
    exists t0, t1, t2, text, token, to_, data, word. split_and!; try done.
    intros Heq. by rewrite Heq in Hr.
  - intros (t0 & t1 & t2 & address & token & to_ & data & word & -> & H0 & H1 & H2 & Hto & -> & Ha & Htk & -> & -> & Hr
      & -> & Hc & Hw & -> & Hz & Hu). cbn -[u256_from_be_bytes].
    assert (eq_bool (field log "removed") true = false) as ->.
    { destruct (eq_bool _ _) eqn:E; [|done]. by apply eq_bool_eq in E. }
    rewrite String.eqb_refl. assert (value_eqb block_hash block_hash = true) as -> by by apply value_eqb_eq.
    cbn -[u256_from_be_bytes]. rewrite Ha, Htk. cbn -[u256_from_be_bytes]. rewrite String.eqb_refl.
    cbn -[u256_from_be_bytes]. rewrite H0. cbn -[u256_from_be_bytes]. rewrite String.eqb_refl.
    cbn -[u256_from_be_bytes]. rewrite H1. cbn -[u256_from_be_bytes]. rewrite String.eqb_refl.
    cbn -[u256_from_be_bytes]. rewrite H2. cbn -[u256_from_be_bytes]. rewrite Hto.
    cbn -[u256_from_be_bytes]. rewrite String.eqb_refl. cbn -[u256_from_be_bytes].
    rewrite Hc. cbn -[u256_from_be_bytes]. rewrite Hw. cbn -[u256_from_be_bytes].
    apply Z.leb_le in Hu as ->. apply Z.eqb_neq in Hz as ->. done.
Qed.

(** ** What the node said *)

Notation log := (list (event RpcCall)).

Definition replied (tr : log) (method : string) (params : list Value) (v : Value) : Prop :=
  ∃ response, Ev (Post (rpc_request method params)) response ∈ tr ∧ rpc_result from_slice response = Ok v.

(** The node, on Arbitrum, reported this head and this finalized block. *)
Definition tip_read (tr : log) (tip : ChainTip) : Prop :=
  ∃ chain finalized head,
    replied tr "eth_chainId" [] chain ∧ quantity chain = Ok 42161
    ∧ replied tr "eth_getBlockByNumber" [Str "finalized"; Bool false] finalized
    ∧ (ct_finalized tip = None ∧ finalized = Null
       ∨ ∃ block, ct_finalized tip = Some block ∧ quantity (field finalized "number") = Ok block ∧ block <= ct_head tip)
    ∧ replied tr "eth_blockNumber" [] head ∧ quantity head = Ok (ct_head tip).

(** The tip was read in this run, or is the shared snapshot and less than five seconds old. *)
Definition tip_known (tr : log) (tip : ChainTip) : Prop :=
  tip_read tr tip
  ∨ ∃ read_at now, Ev LockTip (Some (read_at, tip)) ∈ tr ∧ Ev InstantNow now ∈ tr ∧ now - read_at < CHAIN_TIP_TTL.

(** Whatever this run shared as a snapshot, it read. *)
Definition shares_read_tips (tr : log) : Prop :=
  ∀ read_at tip, Ev (StoreTip (Some (read_at, tip))) tt ∈ tr → tip_read tr tip.

(** The answers of the run show the transfer: its receipt is successful and its block is the
    canonical one at its height, its log is the transfer, and the counts follow from the tip. *)
Definition transfer_shown (tr : log) (context : PaymentContext) (hash : string) (index : Z) (t : VerifiedTransfer) : Prop :=
  ∃ tip receipt block number block_hash logs l seconds,
    tip_known tr tip
    ∧ replied tr "eth_getTransactionReceipt" [b256_json hash] receipt
    ∧ parse_hash (field receipt "transactionHash") = Ok hash
    ∧ quantity (field receipt "status") = Ok 1 ∧ quantity (field receipt "blockNumber") = Ok number
    ∧ replied tr "eth_getBlockByNumber" [Str ("0x" ++ fmt_hex number); Bool false] block
    ∧ parse_hash (field receipt "blockHash") = Ok block_hash ∧ parse_hash (field block "hash") = Ok block_hash
    ∧ quantity (field block "number") = Ok number
    ∧ quantity (field block "timestamp") = Ok seconds ∧ from_unix_timestamp seconds = Some (vt_timestamp t)
    ∧ field receipt "logs" = Array logs ∧ logs !! Z.to_nat index = Some l
    ∧ usdt_transfer_log l (field receipt "blockHash") hash (vt_sender t) (cx_recipient context) (vt_amount t)
    ∧ vt_identity t = transfer_identity hash index
    ∧ number <= ct_head tip ∧ vt_confirmations t = ct_head tip - number + 1 ∧ vt_confirmations t <= u32_max
    ∧ vt_finalized t = match ct_finalized tip with Some block => number <=? block | None => false end.

Lemma replied_mono tr tr' method params v : replied tr method params v → replied (tr ++ tr') method params v.
Proof. intros (r & Hin & Hr). exists r. split; [|done]. apply elem_of_app. by left. Qed.

Lemma tip_read_mono tr tr' tip : tip_read tr tip → tip_read (tr ++ tr') tip.
Proof.
  intros (c & f & h & ? & ? & ? & ? & ? & ?). exists c, f, h. split_and!; try done; by apply replied_mono.
Qed.

Lemma tip_known_mono tr tr' tip : tip_known tr tip → tip_known (tr ++ tr') tip.
Proof.
  intros [H|(r & n & H1 & H2 & H3)]; [left; by apply tip_read_mono|].
  right. exists r, n. rewrite !elem_of_app. auto.
Qed.

(** ** Runs of the verifier *)

Definition stored_tip (ev : event RpcCall) : option (Z * ChainTip) :=
  match ev with Ev (StoreTip v) _ => v | _ => None end.

Lemma shares_app tr ev : shares_read_tips tr → stored_tip ev = None → shares_read_tips (tr ++ [ev]).
Proof.
  intros H Hev r tip [Hin|Heq%list_elem_of_singleton]%elem_of_app; [by eapply tip_read_mono, H|].
  apply (f_equal stored_tip) in Heq. simpl in Heq. congruence.
Qed.

Lemma replied_last tr method params response v :
  rpc_result from_slice response = Ok v → replied (tr ++ [Ev (Post (rpc_request method params)) response]) method params v.
Proof. intros H. exists response. split; [|done]. apply elem_of_app. right. by apply list_elem_of_singleton. Qed.

Lemma fmap_err {E A B} (f : A → B) (r : result E A) e : f <$> r = Err e → r = Err e.
Proof. destruct r; cbn; congruence. Qed.

Lemma ok_or_err {E A} (o : option A) (e e' : E) : ok_or o e = Err e' → e' = e.
Proof. destruct o; simpl; congruence. Qed.

Lemma rpc_result_err response e : rpc_result from_slice response = Err e → e = Unavailable.
Proof.
  unfold rpc_result. destruct response as [r|]; [|by intros [= <-]]. simpl. destruct (hr_success r); [|by intros [= <-]]. simpl.
  intros [Hb|(b & _ & H)]%bind_err.
  - revert Hb. generalize (""). induction (hr_chunks r) as [|[c|] l IH]; intros s; cbn [read_body]; [done| |by intros [= <-]].
    unfold ensure. case_match; cbn; [apply IH|by intros [= <-]].
  - apply bind_err in H as [H|(v & _ & H)]; [by apply ok_or_err in H|].
    unfold ensure in H. case_match; cbn in H; [|by injection H]. by apply ok_or_err in H.
Qed.

Lemma quantity_err v e : quantity v = Err e → e = Unavailable.
Proof. apply ok_or_err. Qed.

Lemma parse_hash_err v e : parse_hash v = Err e → e = Unavailable.
Proof. apply ok_or_err. Qed.

Lemma ensure_err {E} b (e e' : E) : ensure b e = Err e' → e' = e.
Proof. destruct b; simpl; naive_solver. Qed.

(** The run so far: everything it shared, it read. *)
Lemma runs_rpc {A} method params (k : Value → prog RpcCall (result VerificationError A)) Q tr :
  shares_read_tips tr →
  (∀ tr' v, shares_read_tips (tr ++ tr') → replied (tr ++ tr') method params v → all_runs (k v) Q (tr ++ tr')) →
  (∀ tr', shares_read_tips (tr ++ tr') → Q (tr ++ tr')%list (Err Unavailable)) →
  all_runs (try_bind k (rpc from_slice method params)) Q tr.
Proof.
  intros Hs Hk He. apply all_runs_try. intros response. simpl.
  assert (shares_read_tips (tr ++ [Ev (Post (rpc_request method params)) response])) as Hs' by by apply shares_app.
  destruct (rpc_result from_slice response) as [v|e] eqn:E.
  - apply Hk; [done|]. by apply replied_last.
  - apply rpc_result_err in E as ->. by apply He.
Qed.

(** Code between two calls whose only error is [Unavailable]. *)
Lemma runs_pure_unavailable {A B} (r : result VerificationError A) (k : A → prog RpcCall (result VerificationError B)) Q tr :
  (∀ e, r = Err e → e = Unavailable) → (∀ a, r = Ok a → all_runs (k a) Q tr) → Q tr (Err Unavailable) →
  all_runs (try_bind k (Ret r)) Q tr.
Proof. intros He Hk Hq. apply runs_pure; [done|]. intros e ->%He. done. Qed.

Lemma runs_refresh_tip minimum Q tr :
  shares_read_tips tr →
  (∀ tr' tip, shares_read_tips (tr ++ tr') → tip_read (tr ++ tr') tip → Q (tr ++ tr')%list (Ok tip)) →
  (∀ tr', shares_read_tips (tr ++ tr') → Q (tr ++ tr')%list (Err Unavailable)) →
  all_runs (refresh_tip from_slice minimum) Q tr.
Proof.
  intros Hs Hk He. unfold refresh_tip. simpl. intros [] read_at.
  assert (shares_read_tips ((tr ++ [Ev (StoreTip None) ()]) ++ [Ev InstantNow read_at])) as Hs0
    by (apply shares_app; [by apply shares_app|done]).
  rewrite <- app_assoc in Hs0 |- *. apply runs_rpc; [done| |intros; rewrite <- app_assoc in *; by apply He].
  intros tr1 chain Hs1 Hc. rewrite <- app_assoc in Hs1, Hc |- *.
  apply runs_pure_unavailable; [apply quantity_err| |by apply He]. intros id Hid.
  apply runs_pure_unavailable; [intros e; apply ensure_err| |by apply He]. intros [] ->%ensure_ok%Z.eqb_eq.
  apply runs_rpc; [done| |intros; rewrite <- app_assoc in *; by apply He].
  intros tr2 fin Hs2 Hf. apply (replied_mono _ tr2) in Hc. rewrite <- app_assoc in Hs2, Hf, Hc |- *.
  apply runs_pure_unavailable; [|intros finalized Hfin|by apply He].
  { intros e He'. destruct (is_null fin); [done|]. by eapply quantity_err, fmap_err. }
  apply runs_rpc; [done| |intros; rewrite <- app_assoc in *; by apply He].
  intros tr3 h Hs3 Hh. apply (replied_mono _ tr3) in Hc, Hf. rewrite <- app_assoc in Hs3, Hf, Hc, Hh |- *.
  apply runs_pure_unavailable; [apply quantity_err| |by apply He]. intros head Hhead.
  apply runs_pure_unavailable; [intros e; apply ensure_err| |by apply He]. intros [] Hb%ensure_ok.
  simpl. intros []. set (tip := mk_ChainTip head finalized).
  match goal with |- Q ((tr ++ ?t) ++ ?l)%list _ => assert (tip_read (tr ++ t) tip) as Hr end.
  { exists chain, fin, h. split_and!; try done. split_bools. destruct (is_null fin) eqn:En.
    - left. destruct fin; simplify_eq. done.
    - right. apply fmap_ok in Hfin as (b & Hq & ->). exists b. split_and!; [done..|]. simpl in *. by apply Z.leb_le. }
  apply (tip_read_mono _ [Ev (StoreTip (Some (read_at, tip))) ()]) in Hr as Hr'.
  assert (∀ t, shares_read_tips t → tip_read t tip → shares_read_tips (t ++ [Ev (StoreTip (Some (read_at, tip))) ()])) as Hst.
  { intros t Ht Hr1 r tip' [Hin|Heq%list_elem_of_singleton]%elem_of_app; [by eapply tip_read_mono, Ht|].
    apply (f_equal stored_tip) in Heq. simpl in Heq. injection Heq as -> ->. by apply tip_read_mono. }
  pose proof (Hst _ Hs3 Hr) as Hs4. rewrite <- app_assoc in Hs4, Hr' |- *. by apply Hk.
Qed.

Lemma runs_chain_tip {A} minimum (k : ChainTip → prog RpcCall (result VerificationError A)) Q tr :
  shares_read_tips tr →
  (∀ tr' tip, shares_read_tips (tr ++ tr') → tip_known (tr ++ tr') tip → all_runs (k tip) Q (tr ++ tr')) →
  (∀ tr', shares_read_tips (tr ++ tr') → Q (tr ++ tr')%list (Err Unavailable)) →
  all_runs (try_bind k (chain_tip from_slice minimum)) Q tr.
Proof.
  intros Hs Hk He. apply all_runs_try. unfold chain_tip. simpl. intros cached.
  assert (shares_read_tips (tr ++ [Ev LockTip cached])) as H1 by by apply shares_app.
  destruct cached as [[read_at tip]|].
  - simpl. intros now. assert (shares_read_tips ((tr ++ [Ev LockTip (Some (read_at, tip))]) ++ [Ev InstantNow now])) as H2
      by by apply shares_app.
    rewrite <- app_assoc in H2 |- *. case_match eqn:Hc.
    + simpl. apply Hk; [done|]. right. exists read_at, now. rewrite !elem_of_app, !elem_of_cons. split_bools.
      split_and!; [by auto..|lia].
    + apply runs_refresh_tip; [done| |]; intros; rewrite <- app_assoc in *; [apply Hk; [done|by left]|by apply He].
  - apply runs_refresh_tip; [done| |]; intros; rewrite <- app_assoc in *; [apply Hk; [done|by left]|by apply He].
Qed.

(** ** A verified transfer *)

Lemma find_some_in {A} (f : A → bool) l a : find f l = Some a → a ∈ l ∧ f a = true.
Proof. intros H. pose proof (find_some _ _ H) as [Hin Hf]. split; [by apply list_elem_of_In|done]. Qed.

Lemma check_receipt_shown tr context candidate tip receipt number block t :
  check_receipt from_unix_timestamp context candidate tip receipt number block = Ok (Some t) →
  tip_known tr tip →
  replied tr "eth_getTransactionReceipt" [b256_json (pc_hash candidate)] receipt →
  parse_hash (field receipt "transactionHash") = Ok (pc_hash candidate) →
  quantity (field receipt "status") = Ok 1 → quantity (field receipt "blockNumber") = Ok number →
  replied tr "eth_getBlockByNumber" [Str ("0x" ++ fmt_hex number); Bool false] block →
  vt_sender t ∈ pc_senders candidate ∧ transfer_shown tr context (pc_hash candidate) (pc_index candidate) t.
Proof.
  unfold check_receipt. intros H Htip Hrec Hth Hst Hnum Hblk. apply bind_ok in H as (same & Hsame & H).
  destruct same; [|done]. cbn [negb] in H. destruct (is_null block); [done|].
  apply bind_ok in Hsame as (a & Ha & Hsame). apply bind_ok in Hsame as (b & Hb & [= Hab]).
  apply String.eqb_eq in Hab as ->.
  apply bind_ok in H as (stated & Hstated & H). apply bind_ensure in H as [->%Z.eqb_eq H].
  apply bind_ok in H as (seconds & Hsec & H). apply bind_ok_or in H as (timestamp & Hts & H).
  apply bind_ok_or in H as (logs & Hlogs%as_array_some & H). apply bind_ok_or in H as (l & Hl & H).
  apply bind_ok in H as (topic & _ & H). apply bind_ok_or in H as (sender & [Hs _]%find_some_in & H).
  apply bind_ok in H as (amount & Ham%transfer_amount_ok & H). apply bind_ok_or in H as (conf & Hconf & [= <-]).
  destruct (seconds <=? i64_max) in Hts; [|done].
  destruct ((number <=? ct_head tip) && _) eqn:E in Hconf; [|done]. injection Hconf as <-. split_bools.
  split; [done|]. exists tip, receipt, block, number, b, logs, l, seconds. by split_and!.
Qed.

(** What the result of a run of [verify_candidate] says of its log. *)
Definition verdict_sound (context : PaymentContext) (candidate : PaymentCandidate) (tr : log)
    (res : result VerificationError (option VerifiedTransfer)) : Prop :=
  shares_read_tips tr
  ∧ match res with
    | Ok (Some t) =>
        vt_sender t ∈ pc_senders candidate ∧ transfer_shown tr context (pc_hash candidate) (pc_index candidate) t
    | Ok None | Err Unavailable => True
    | Err InvalidProof =>
        ∃ receipt, replied tr "eth_getTransactionReceipt" [b256_json (pc_hash candidate)] receipt
          ∧ parse_hash (field receipt "transactionHash") = Ok (pc_hash candidate)
          ∧ (quantity (field receipt "status") ≠ Ok 1
             ∨ ∃ number block block_hash, quantity (field receipt "blockNumber") = Ok number
                 ∧ replied tr "eth_getBlockByNumber" [Str ("0x" ++ fmt_hex number); Bool false] block
                 ∧ parse_hash (field receipt "blockHash") = Ok block_hash
                 ∧ parse_hash (field block "hash") = Ok block_hash)
    end.

Lemma check_receipt_blames context candidate tip receipt number block :
  check_receipt from_unix_timestamp context candidate tip receipt number block = Err InvalidProof →
  ∃ block_hash, parse_hash (field receipt "blockHash") = Ok block_hash ∧ parse_hash (field block "hash") = Ok block_hash.
Proof.
  unfold check_receipt. intros [H|(same & Hsame & H)]%bind_err.
  - destruct (is_null block); [done|]. apply bind_err in H as [H|(a & _ & H)]; [by apply parse_hash_err in H|].
    apply bind_err in H as [H|(b & _ & H)]; [by apply parse_hash_err in H|done].
  - destruct same; [|done]. destruct (is_null block); [done|].
    apply bind_ok in Hsame as (a & Ha & Hsame). apply bind_ok in Hsame as (b & Hb & [= Hab]).
    apply String.eqb_eq in Hab as ->. eauto.
Qed.

Lemma runs_verify_candidate context candidate :
  all_runs (verify_candidate from_slice from_unix_timestamp context candidate) (verdict_sound context candidate) [].
Proof.
  unfold verify_candidate.
  assert (∀ tr, shares_read_tips tr → verdict_sound context candidate tr (Err Unavailable)) as Hun by by split.
  apply runs_chain_tip; [by intros ?? ?%not_elem_of_nil| |by auto].
  intros tr1 tip1 Hs1 Ht1. apply runs_rpc; [done| |by auto]. intros tr2 receipt Hs2 Hrec.
  destruct (is_null receipt); [by split|].
  apply runs_pure_unavailable; [apply parse_hash_err| |by auto]. intros hash Hth.
  apply runs_pure_unavailable; [intros e; apply ensure_err| |by auto]. intros [] ->%ensure_ok%String.eqb_eq.
  apply runs_pure_unavailable; [apply quantity_err| |by auto]. intros status Hst. apply runs_pure.
  2: { intros e He. pose proof He as ->%ensure_err. split; [done|]. exists receipt. split_and!; [done..|].
       left. destruct (status =? 1) eqn:E; [done|]. apply Z.eqb_neq in E. congruence. }
  intros [] ->%ensure_ok%Z.eqb_eq. apply runs_pure_unavailable; [apply quantity_err| |by auto]. intros number Hnum.
  assert (∀ tr' tip, shares_read_tips ((([] ++ tr1) ++ tr2) ++ tr') → tip_known ((([] ++ tr1) ++ tr2) ++ tr') tip →
    all_runs (block ←? rpc from_slice "eth_getBlockByNumber" [Str ("0x" ++ fmt_hex number); Bool false];
              Ret (check_receipt from_unix_timestamp context candidate tip receipt number block))
      (verdict_sound context candidate) ((([] ++ tr1) ++ tr2) ++ tr')%list) as Hrest.
  { intros tr3 tip Hs3 Ht3. apply runs_rpc; [done| |by auto]. intros tr4 block Hs4 Hblk.
    apply (replied_mono _ tr3) in Hrec. apply (replied_mono _ tr4) in Hrec. split; [done|].
    destruct (check_receipt _ _ _ _ _ _ _) as [[t|]|[]] eqn:E; [|done| |done].
    - eapply check_receipt_shown; try done. by apply tip_known_mono.
    - apply check_receipt_blames in E as (bh & ? & ?). exists receipt. split_and!; [done..|]. right. eauto 7. }
  destruct (ct_head tip1 <? number).
  - by apply runs_chain_tip; auto.
  - specialize (Hrest [] tip1). rewrite app_nil_r in Hrest. apply Hrest; [done|]. by apply tip_known_mono.
Qed.

(** C17: a USDT transfer counts as verified only when the node's answers in that run show it: on
    Arbitrum, a successful receipt of the transaction in the block the chain has at that height,
    whose log at the stated position moves a positive amount of the USDT token from an account that
    attested this request to the recipient of the context; its confirmations and finality follow
    from a tip read in the run or shared less than five seconds ago, and every tip the run shares
    was read from the node.  A proof is called invalid only for a receipt that exists: a missing
    receipt or a reorganised block is never a failure. *)
Theorem verified_transfer_sound {S} (h : ∀ X, RpcCall X → S → X * S) context candidate s res s' tr :
  exec h (verify_candidate from_slice from_unix_timestamp context candidate) s = (res, s', tr) →
  verdict_sound context candidate tr res.
Proof. apply exec_all_runs, runs_verify_candidate. Qed.
End verified.
