(* ===== verification/UsdtScan.v ===== *)
(** * UsdtScan: the schedule of USDT scans ([ScanCache] of [usdt.rs])

    The proofs of a request are scanned a window of eight transfers at a time, at most once
    every fifteen seconds, with the position of each request's sweep kept in a cache of 1024
    slots.  A [blake3::Hash] is its 32 bytes as a number, an [Instant] a number of nanoseconds;
    the order in which a [HashMap] is iterated is a parameter of each operation, any
    permutation of its entries.  The theorems: the cache is bounded and a request that waits
    has no slot; a sweep in progress keeps its slot, whatever other requests do, and hands out
    every transfer of its proofs. *)

From S2P Require Import Prelude Text Effects Receiving Intent Crypto Observations Usdt UsdtVerified.
Local Open Scope string_scope.
Local Open Scope Z_scope.

Definition MAX_SCAN_CANDIDATES : Z := 8.

Definition MAX_SCAN_REQUESTS : Z := 1024.

Definition UNMATCHED_RETRY_DELAY : Z := 15 * 1000000000.

Definition SCAN_IDLE_TTL : Z := 5 * 60 * 1000000000.

Definition usize_modulus : Z := 2 ^ 64.

Record ScanState := mk_ScanState {
  ss_fingerprint : Z;
  ss_cursor : option Z;
  ss_sweep_complete : bool;
  ss_retry_at : Z;
  ss_last_used : Z;
}.

Record ScanCache := mk_ScanCache {
  sc_requests : gmap Z ScanState;
  sc_waiting : option (Z * Z);
  sc_last_admitted : option Z;
}.

Definition ScanCache_default : ScanCache := mk_ScanCache ∅ None None.

Record PaymentScan := mk_PaymentScan {
  sn_key : Z;
  sn_fingerprint : Z;
  sn_candidates : list PaymentCandidate;
}.

(** [Iterator::min_by_key]: the first of the least. *)
Fixpoint min_by_key {A} (key : A → Z) (l : list A) : option A :=
  match l with
  | [] => None
  | x :: l => match min_by_key key l with
              | Some y => if key y <? key x then Some y else Some x
              | None => Some x
              end
  end.

(** A state whose slot may be given away at [now]. *)
Definition slot_ready (now : Z) (state : ScanState) : bool :=
  (ss_retry_at state <=? now)
  && (is_none (ss_cursor state) || ss_sweep_complete state
      || (SCAN_IDLE_TTL <=? Z.max 0 (now - ss_last_used state))).

Definition oldest_ready (iter : gmap Z ScanState → list (Z * ScanState)) (cache : ScanCache) (now current : Z) :
    option Z :=
  fst <$> min_by_key (λ kv, ss_last_used kv.2)
    (filter (λ kv, Is_true (negb (kv.1 =? current) && slot_ready now kv.2)) (iter (sc_requests cache))).

(** The derived order of the rank of a key: keys above the last admitted come first. *)
Definition defer_rank (cache : ScanCache) (key : Z) : bool * Z :=
  (match sc_last_admitted cache with Some last => key <=? last | None => false end, key).

Definition rank_le (a b : bool * Z) : bool :=
  match bool_compare a.1 b.1 with Lt => true | Eq => a.2 <=? b.2 | Gt => false end.

Definition defer (cache : ScanCache) (key fingerprint : Z) : ScanCache :=
  if match sc_waiting cache with
     | Some (waiting, _) => rank_le (defer_rank cache key) (defer_rank cache waiting)
     | None => true
     end
  then mk_ScanCache (sc_requests cache) (Some (key, fingerprint)) (sc_last_admitted cache)
  else cache.

Definition set_requests (cache : ScanCache) (t : gmap Z ScanState) : ScanCache :=
  mk_ScanCache t (sc_waiting cache) (sc_last_admitted cache).

(** A slot that was freed goes to the request that waits. *)
Definition serve_waiting (iter : gmap Z ScanState → list (Z * ScanState)) (cache : ScanCache) (key now : Z) : ScanCache :=
  if match sc_requests cache !! key with Some state => is_some (ss_cursor state) | None => true end then
    match sc_waiting cache, oldest_ready iter cache now key with
    | Some (waiting, fingerprint), Some oldest =>
        mk_ScanCache
          (<[waiting := mk_ScanState fingerprint None false (now + UNMATCHED_RETRY_DELAY) now]>
             (delete oldest (sc_requests cache)))
          None (Some waiting)
    | _, _ => cache
    end
  else cache.

(** A slot for [key]: its own, a free one or the one given away longest ago; [None] defers. *)
Definition make_room (iter : gmap Z ScanState → list (Z * ScanState)) (cache : ScanCache) (key now : Z) : option ScanCache :=
  if is_none (sc_requests cache !! key) && (MAX_SCAN_REQUESTS <=? Z.of_nat (size (sc_requests cache)))
  then match oldest_ready iter cache now key with
       | None => None
       | Some oldest => Some (set_requests cache (delete oldest (sc_requests cache)))
       end
  else Some cache.

(** The state of [key] when it is scanned: fresh proofs restart the sweep. *)
Definition current_state (cache : ScanCache) (key fingerprint now : Z) : ScanState :=
  let state := default (mk_ScanState fingerprint None false now now) (sc_requests cache !! key) in
  let state := if ss_fingerprint state =? fingerprint then state
               else mk_ScanState fingerprint None false now (ss_last_used state) in
  mk_ScanState (ss_fingerprint state) (ss_cursor state) (ss_sweep_complete state) (ss_retry_at state) now.

(** The next window of the sweep is taken. *)
Definition advance (state : ScanState) (proofs now : Z) : ScanState :=
  let cursor := default 0 (ss_cursor state) in
  mk_ScanState (ss_fingerprint state) (Some ((cursor + MAX_SCAN_CANDIDATES) mod usize_modulus))
    (ss_sweep_complete state
     || (proofs <=? Z.min (cursor + MAX_SCAN_CANDIDATES) u64_max))
    (now + UNMATCHED_RETRY_DELAY) (ss_last_used state).

(** [(0..len.min(8)).map(|offset| candidates[(cursor + offset) % len].clone())] *)
Definition window (candidates : list PaymentCandidate) (cursor : Z) : list PaymentCandidate :=
  let n := length candidates in
  match n with
  | O => []
  | _ =>
      let cursor := cursor mod Z.of_nat n in
      omap (λ offset, candidates !! Z.to_nat ((cursor + Z.of_nat offset) mod Z.of_nat n))
        (seq 0 (Nat.min n (Z.to_nat MAX_SCAN_CANDIDATES)))
  end.

(** What [proof_fingerprint] serialises of a proof. *)
Definition proof_binding (proof : PaymentProofRecord) :=
  (pp_payment_app_id proof, pp_payment_endpoint_identifier proof, pp_payment_reference proof,
   pp_billing_period proof, pp_conversion_quote_id proof, pp_proof proof).

Section scan.
Context {alloy : Alloy} {secp : Secp256k1}.
(** [blake3::hash] after [serde_json::to_vec], of the context and of the proofs' bindings. *)
Context (hash_context : string * string * string * string * UsdtAddress → Z)
  (hash_bindings : list (string * string * string * option string * option string * list (string * Value)) → Z).

Definition context_key (context : PaymentContext) : Z :=
  hash_context (cx_payer context, cx_payee context, cx_request_id context, cx_reference context, cx_recipient context).

Definition proof_fingerprint (proofs : list PaymentProofRecord) : Z := hash_bindings (proof_binding <$> proofs).

Definition payment_scan_at (iter : gmap Z ScanState → list (Z * ScanState)) (context : PaymentContext)
    (proofs : list PaymentProofRecord) (now : Z) (cache : ScanCache) : option PaymentScan * ScanCache :=
  if MAX_REQUEST_PROOFS <? Z.of_nat (length proofs) then (None, cache)
  else
    let key := context_key context in
    let fingerprint := proof_fingerprint proofs in
    let idle := Some (mk_PaymentScan key fingerprint []) in
    match proofs with
    | [] => (idle, cache)
    | _ =>
        let cache := serve_waiting iter cache key now in
        match make_room iter cache key now with
        | None => (idle, defer cache key fingerprint)
        | Some cache =>
            let state := current_state cache key fingerprint now in
            if (now <? ss_retry_at state) && is_some (ss_cursor state)
            then (idle, set_requests cache (<[key := state]> (sc_requests cache)))
            else
              let cursor := default 0 (ss_cursor state) in
              let cache := set_requests cache
                             (<[key := advance state (Z.of_nat (length proofs)) now]> (sc_requests cache)) in
              match from_proofs context proofs with
              | None => (None, cache)
              | Some candidates => (Some (mk_PaymentScan key fingerprint (window (snd <$> candidates) cursor)), cache)
              end
        end
    end.

Definition finish_payment_scan (scan : PaymentScan) (all_observed : bool) (now : Z) (cache : ScanCache) : ScanCache :=
  if all_observed && negb (match sn_candidates scan with [] => true | _ => false end) then
    match sc_requests cache !! sn_key scan with
    | Some state =>
        if ss_fingerprint state =? sn_fingerprint scan
        then set_requests cache
               (<[sn_key scan := mk_ScanState (ss_fingerprint state) (ss_cursor state) (ss_sweep_complete state)
                                   now (ss_last_used state)]> (sc_requests cache))
        else cache
    | None => cache
    end
  else cache.

(** ** The cache as a system *)

Definition iter_ok (iter : gmap Z ScanState → list (Z * ScanState)) : Prop := ∀ m, iter m ≡ₚ map_to_list m.

Inductive scan_step : ScanCache → ScanCache → Prop :=
| step_scan iter context proofs now cache :
    iter_ok iter → scan_step cache (payment_scan_at iter context proofs now cache).2
| step_finish scan all_observed now cache :
    scan_step cache (finish_payment_scan scan all_observed now cache).

(** At most 1024 slots; whoever waits has none and waits because none is free. *)
Definition cache_wf (cache : ScanCache) : Prop :=
  Z.of_nat (size (sc_requests cache)) <= MAX_SCAN_REQUESTS
  ∧ ∀ waiting fingerprint, sc_waiting cache = Some (waiting, fingerprint) →
      sc_requests cache !! waiting = None ∧ Z.of_nat (size (sc_requests cache)) = MAX_SCAN_REQUESTS.

Lemma min_by_key_elem {A} (key : A → Z) l x : min_by_key key l = Some x → x ∈ l.
Proof.
  revert x. induction l as [|y l IH]; intros x; simpl; [done|]. rewrite elem_of_cons.
  destruct (min_by_key key l) as [z|]; [|naive_solver]. case_match; intros [= <-]; auto.
Qed.

Lemma oldest_ready_some iter cache now current k :
  iter_ok iter → oldest_ready iter cache now current = Some k →
  k ≠ current ∧ ∃ state, sc_requests cache !! k = Some state ∧ slot_ready now state = true.
Proof.
  intros Hi H. unfold oldest_ready in H. apply fmap_Some in H as ([k' state] & Hm%min_by_key_elem & ->).
  apply list_elem_of_filter in Hm as [Hp Hin]. rewrite (Hi _) in Hin. apply elem_of_map_to_list in Hin.
  apply Is_true_true in Hp. simpl in *. split_bools. eauto.
Qed.

Lemma size_delete_present (m : gmap Z ScanState) k st : m !! k = Some st → S (size (delete k m)) = size m.
Proof. intros H. rewrite map_size_delete, H. assert (size m ≠ 0%nat); [|lia]. intros E%map_size_empty_inv. by rewrite E in H. Qed.

Lemma serve_waiting_wf iter cache key now :
  iter_ok iter → cache_wf cache → cache_wf (serve_waiting iter cache key now).
Proof.
  intros Hi Hwf. pose proof Hwf as [Hb Hw]. unfold serve_waiting. case_match; [|done].
  destruct (sc_waiting cache) as [[w f]|] eqn:Ew; [|done].
  destruct (oldest_ready _ _ _ _) as [o|] eqn:Eo; [|done].
  apply oldest_ready_some in Eo as (_ & st & Ho & _); [|done]. destruct (Hw _ _ eq_refl) as [Hn Hs].
  split; [|done]. cbn [sc_requests]. rewrite map_size_insert_None by (apply lookup_delete_None; auto).
  apply size_delete_present in Ho. lia.
Qed.

Lemma make_room_wf iter cache key now cache' :
  iter_ok iter → cache_wf cache → make_room iter cache key now = Some cache' →
  Z.of_nat (size (sc_requests cache')) <= MAX_SCAN_REQUESTS
  ∧ (sc_requests cache' !! key = None → Z.of_nat (size (sc_requests cache')) < MAX_SCAN_REQUESTS).
Proof.
  intros Hi [Hb Hw]. unfold make_room. case_match eqn:Hc.
  - destruct (oldest_ready _ _ _ _) as [o|] eqn:Eo; [|done]. intros [= <-].
    apply oldest_ready_some in Eo as (_ & st & Ho & _); [|done]. cbn [sc_requests set_requests].
    apply size_delete_present in Ho. split; lia.
  - intros [= <-]. split; [done|]. intros Hn. rewrite Hn in Hc. simpl in Hc. split_bools. lia.
Qed.

(** Someone still waits only if [key] has a slot of its own or none can be given away. *)
Lemma serve_waiting_pending iter cache key now w f :
  sc_waiting (serve_waiting iter cache key now) = Some (w, f) →
  serve_waiting iter cache key now = cache
  ∧ (is_some (sc_requests cache !! key) = true ∨ oldest_ready iter cache now key = None).
Proof.
  unfold serve_waiting. intros H. destruct (sc_requests cache !! key) as [st|] eqn:Ek; simpl in *.
  - split; [|by left]. case_match; [|done]. destruct (sc_waiting cache) as [[]|]; [|done].
    by destruct (oldest_ready _ _ _ _).
  - destruct (sc_waiting cache) as [[]|] eqn:Ew; [|congruence]. destruct (oldest_ready _ _ _ _); [done|auto].
Qed.

Lemma make_room_waiting iter cache key now cache' :
  make_room iter cache key now = Some cache' → sc_waiting cache' = sc_waiting cache.
Proof. unfold make_room. case_match; [|naive_solver]. destruct (oldest_ready _ _ _ _); naive_solver. Qed.

Lemma scan_slot_wf iter cache key now cache' state :
  iter_ok iter → cache_wf cache → make_room iter (serve_waiting iter cache key now) key now = Some cache' →
  cache_wf (set_requests cache' (<[key := state]> (sc_requests cache'))).
Proof.
  intros Hi Hwf Hm. pose proof (serve_waiting_wf _ _ key now Hi Hwf) as Hwf1.
  pose proof (make_room_wf _ _ _ _ _ Hi Hwf1 Hm) as [Hb Hlt].
  split; cbn [sc_requests sc_waiting set_requests].
  - destruct (sc_requests cache' !! key) as [st|] eqn:E.
    + by rewrite map_size_insert_Some by by rewrite E.
    + rewrite map_size_insert_None by done. specialize (Hlt eq_refl). lia.
  - rewrite (make_room_waiting _ _ _ _ _ Hm). intros w f Ew.
    apply serve_waiting_pending in Ew as Hs. destruct Hs as [Es Hs]. rewrite Es in *. clear Es.
    destruct (proj2 Hwf _ _ Ew) as [Hn Hfull]. unfold make_room in Hm. destruct (sc_requests cache !! key) as [st|] eqn:Ek.
    + injection Hm as <-. split; [|by rewrite map_size_insert_Some by by rewrite Ek].
      rewrite lookup_insert_ne; [done|]. congruence.
    + rewrite (proj2 (Z.leb_le MAX_SCAN_REQUESTS _)) in Hm by lia. cbn in Hm. destruct Hs as [?|Ho]; [done|]. by rewrite Ho in Hm.
Qed.

Lemma defer_wf iter cache key now fingerprint :
  cache_wf cache → make_room iter cache key now = None → cache_wf (defer cache key fingerprint).
Proof.
  intros [Hb Hw] Hm. unfold defer. case_match; [|done]. split; [done|]. cbn. intros w f [= -> ->].
  unfold make_room in Hm. case_match eqn:Hc; [|done]. split_bools. split; [|lia].
  by destruct (sc_requests cache !! w).
Qed.

Lemma payment_scan_wf iter context proofs now cache :
  iter_ok iter → cache_wf cache → cache_wf (payment_scan_at iter context proofs now cache).2.
Proof.
  intros Hi Hwf. unfold payment_scan_at. case_match; [done|]. destruct proofs as [|p proofs]; [done|]. cbv zeta.
  set (all := p :: proofs) in *. clearbody all.
  destruct (make_room _ _ _ _) as [cache'|] eqn:Hm.
  - case_match; [by eapply scan_slot_wf|]. destruct (from_proofs _ _); by eapply scan_slot_wf.
  - eapply defer_wf; [by apply serve_waiting_wf|done].
Qed.

Lemma finish_payment_scan_wf scan all_observed now cache :
  cache_wf cache → cache_wf (finish_payment_scan scan all_observed now cache).
Proof.
  intros Hwf. unfold finish_payment_scan. case_match; [|done].
  destruct (sc_requests cache !! sn_key scan) as [st|] eqn:Ek; [|done]. destruct (ss_fingerprint st =? _); [|done].
  destruct Hwf as [Hb Hw]. unfold cache_wf. cbn [sc_requests sc_waiting set_requests].
  rewrite map_size_insert_Some by by rewrite Ek. split; [done|]. intros w f Hwait.
  destruct (Hw _ _ Hwait) as [Hn Hs]. split; [|done]. rewrite lookup_insert_ne; [done|]. congruence.
Qed.

(** however scans interleave and in whatever order the map is iterated, the schedule holds at
    most 1024 requests, and a request waits for a slot only while it has none and all 1024 are
    taken. *)
Theorem scan_cache_bounded cache :
  rtc scan_step ScanCache_default cache → cache_wf cache.
Proof.
  intros H. assert (cache_wf ScanCache_default) as H0 by by split.
  revert H0. induction H as [c|c1 c2 c3 Hstep _ IH]; [done|]. intros Hwf. apply IH.
  destruct Hstep; [by apply payment_scan_wf|by apply finish_payment_scan_wf].
Qed.

(** ** A sweep *)

Lemma window_covers candidates cursor i c :
  0 <= cursor <= i → i < cursor + MAX_SCAN_CANDIDATES → candidates !! Z.to_nat i = Some c →
  c ∈ window candidates cursor.
Proof.
  intros Hc Hi Hl. pose proof (lookup_lt_Some _ _ _ Hl) as Hlen. unfold window.
  destruct (length candidates) as [|n] eqn:En; [lia|]. apply list_elem_of_omap.
  exists (Z.to_nat (i - cursor)). split.
  - apply elem_of_seq. unfold MAX_SCAN_CANDIDATES in *. lia.
  - rewrite Z2Nat.id by lia. rewrite (Z.mod_small cursor) by lia.
    replace (cursor + (i - cursor)) with i by lia. by rewrite Z.mod_small by lia.
Qed.

Lemma candidate_insert_length identity hash index sender m :
  (length (candidate_insert identity hash index sender m) <= S (length m))%nat.
Proof. induction m as [|[k c] m IH]; simpl; [done|]. destruct (str_compare _ _); simpl; lia. Qed.

Lemma from_proofs_length context proofs m :
  from_proofs context proofs = Some m → (length m <= length proofs)%nat.
Proof.
  unfold from_proofs. case_match; [done|]. intros [= <-]. clear.
  assert (∀ m, length (foldl (add_proof context) m proofs) <= length m + length proofs)%nat as H; [|apply (H [])].
  induction proofs as [|r proofs IH]; intros m; simpl; [lia|]. specialize (IH (add_proof context m r)).
  assert (length (add_proof context m r) <= S (length m))%nat; [|lia].
  unfold add_proof. destruct (parse_proof context r) as [[[[p h] i] s]|]; [apply candidate_insert_length|lia].
Qed.

(** A slot nobody may take: a sweep in progress, used less than five minutes ago. *)
Lemma sweep_not_ready now state c :
  ss_cursor state = Some c → ss_sweep_complete state = false → now < ss_last_used state + SCAN_IDLE_TTL →
  slot_ready now state = false.
Proof.
  intros Hc Hs Hn. unfold slot_ready. rewrite Hc, Hs. simpl. apply andb_false_intro2, Z.leb_gt.
  unfold SCAN_IDLE_TTL in *. lia.
Qed.

Lemma not_oldest iter cache now current key state :
  iter_ok iter → sc_requests cache !! key = Some state → key = current ∨ slot_ready now state = false →
  oldest_ready iter cache now current ≠ Some key.
Proof.
  intros Hi Hk Hor Ho. apply oldest_ready_some in Ho as (Hne & st & Hst & Hr); [|done].
  destruct Hor as [->|Hn]; [done|]. congruence.
Qed.

Lemma serve_waiting_keeps iter cache current now key state :
  iter_ok iter → cache_wf cache → sc_requests cache !! key = Some state →
  key = current ∨ slot_ready now state = false →
  sc_requests (serve_waiting iter cache current now) !! key = Some state.
Proof.
  intros Hi Hwf Hk Hor. unfold serve_waiting. case_match; [|done].
  destruct (sc_waiting cache) as [[w f]|] eqn:Ew; [|done].
  destruct (oldest_ready _ _ _ _) as [o|] eqn:Eo; [|done]. cbn [sc_requests].
  pose proof (proj1 (proj2 Hwf _ _ Ew)) as Hw. rewrite lookup_insert_ne by congruence.
  rewrite lookup_delete_ne; [done|]. intros ->. by eapply not_oldest in Eo.
Qed.

Lemma make_room_keeps iter cache current now key state cache' :
  iter_ok iter → sc_requests cache !! key = Some state → key = current ∨ slot_ready now state = false →
  make_room iter cache current now = Some cache' → sc_requests cache' !! key = Some state.
Proof.
  intros Hi Hk Hor. unfold make_room. case_match; [|by intros [= <-]].
  destruct (oldest_ready _ _ _ _) as [o|] eqn:Eo; [|done]. intros [= <-]. cbn [sc_requests set_requests].
  rewrite lookup_delete_ne; [done|]. intros ->. by eapply not_oldest in Eo.
Qed.

Lemma defer_requests cache key fingerprint : sc_requests (defer cache key fingerprint) = sc_requests cache.
Proof. unfold defer. by case_match. Qed.

(** Another request's scan leaves a sweep in progress alone. *)
Lemma other_scan_keeps iter context proofs now cache key state :
  iter_ok iter → cache_wf cache → sc_requests cache !! key = Some state → context_key context ≠ key →
  slot_ready now state = false →
  sc_requests (payment_scan_at iter context proofs now cache).2 !! key = Some state.
Proof.
  intros Hi Hwf Hk Hne Hr. unfold payment_scan_at. case_match; [done|]. destruct proofs as [|p proofs]; [done|]. cbv zeta.
  set (all := p :: proofs) in *. clearbody all.
  pose proof (serve_waiting_keeps _ _ (context_key context) now _ _ Hi Hwf Hk (or_intror Hr)) as H1.
  destruct (make_room _ _ _ _) as [cache'|] eqn:Hm; [|by cbn [snd]; rewrite defer_requests].
  eapply make_room_keeps in Hm; [|done..|by right]. case_match; [by cbn; rewrite lookup_insert_ne|].
  destruct (from_proofs _ _); cbn; by rewrite lookup_insert_ne.
Qed.

(** A due scan of a request hands out the next window and moves its sweep on. *)
Lemma own_scan_advances iter context proofs now cache state c m :
  iter_ok iter → cache_wf cache → proofs ≠ [] → from_proofs context proofs = Some m →
  sc_requests cache !! context_key context = Some state → ss_fingerprint state = proof_fingerprint proofs →
  ss_cursor state = Some c → ss_retry_at state <= now →
  ∃ cache', payment_scan_at iter context proofs now cache
      = (Some (mk_PaymentScan (context_key context) (proof_fingerprint proofs) (window (snd <$> m) c)), cache')
    ∧ sc_requests cache' !! context_key context
      = Some (advance (mk_ScanState (ss_fingerprint state) (Some c) (ss_sweep_complete state) (ss_retry_at state) now)
                (Z.of_nat (length proofs)) now).
Proof.
  intros Hi Hwf Hp Hm Hk Hf Hc Hr. unfold payment_scan_at.
  assert ((MAX_REQUEST_PROOFS <? Z.of_nat (length proofs)) = false) as -> by (unfold from_proofs in Hm; by case_match).
  destruct proofs as [|p proofs]; [done|]. cbv zeta. set (all := p :: proofs) in *. clearbody all.
  pose proof (serve_waiting_keeps _ _ (context_key context) now _ _ Hi Hwf Hk (or_introl eq_refl)) as H1.
  unfold make_room. rewrite H1. cbn [is_none is_some negb andb].
  unfold current_state. rewrite H1. cbn [default from_option id]. rewrite Hf, Z.eqb_refl, Hc.
  cbn [ss_retry_at ss_cursor is_some]. rewrite (proj2 (Z.ltb_ge now _)) by done. cbn [andb].
  rewrite Hm. cbn [default from_option id]. eexists. split; [done|].
  cbn [sc_requests set_requests]. by rewrite lookup_insert_eq, Hf.
Qed.

(** ** Interleavings *)

Inductive ScanOp :=
| OpScan (iter : gmap Z ScanState → list (Z * ScanState)) (context : PaymentContext)
    (proofs : list PaymentProofRecord) (now : Z)
| OpFinish (scan : PaymentScan) (all_observed : bool) (now : Z).

Definition scanned (scan : option PaymentScan) : list PaymentCandidate :=
  match scan with Some scan => sn_candidates scan | None => [] end.

(** What a sequence of operations hands out to [key]. *)
Fixpoint handed_out (key : Z) (cache : ScanCache) (ops : list ScanOp) : list PaymentCandidate :=
  match ops with
  | [] => []
  | OpScan iter context proofs now :: ops =>
      let r := payment_scan_at iter context proofs now cache in
      (if context_key context =? key then scanned r.1 else []) ++ handed_out key r.2 ops
  | OpFinish scan all_observed now :: ops => handed_out key (finish_payment_scan scan all_observed now cache) ops
  end%list.

(** The clock never runs back, and the request of [context] is scanned at a pace of at least
    fifteen seconds and less than five minutes, last at [used]. *)
Fixpoint paced (context : PaymentContext) (proofs : list PaymentProofRecord) (used clock : Z) (ops : list ScanOp) : Prop :=
  match ops with
  | [] => True
  | OpScan iter context' proofs' now :: ops =>
      iter_ok iter ∧ clock <= now < used + SCAN_IDLE_TTL
      ∧ if context_key context' =? context_key context
        then context' = context ∧ proofs' = proofs ∧ used + UNMATCHED_RETRY_DELAY <= now ∧ paced context proofs now now ops
        else paced context proofs used now ops
  | OpFinish _ _ now :: ops => clock <= now ∧ paced context proofs used now ops
  end.

(** How often [key] has its turn. *)
Fixpoint turns (key : Z) (ops : list ScanOp) : Z :=
  match ops with
  | [] => 0
  | OpScan _ context _ _ :: ops => (if context_key context =? key then 1 else 0) + turns key ops
  | OpFinish _ _ _ :: ops => turns key ops
  end.

(** The sweep of [proofs] by [key] has reached [c] and was last used at [used]. *)
Definition sweeping (cache : ScanCache) (key : Z) (proofs : list PaymentProofRecord) (c used clock : Z) : Prop :=
  ∃ state, sc_requests cache !! key = Some state ∧ ss_fingerprint state = proof_fingerprint proofs
    ∧ ss_cursor state = Some c ∧ ss_last_used state = used
    ∧ ss_retry_at state <= Z.max (used + UNMATCHED_RETRY_DELAY) clock
    ∧ (ss_sweep_complete state = true → Z.of_nat (length proofs) <= c).

Lemma turns_nonneg key ops : 0 <= turns key ops.
Proof. induction ops as [|[] ops IH]; simpl; [done| |done]. case_match; lia. Qed.

Lemma finish_keeps_sweep scan all_observed now cache key proofs c used clock :
  clock <= now → sweeping cache key proofs c used clock →
  sweeping (finish_payment_scan scan all_observed now cache) key proofs c used now.
Proof.
  intros Hn (st & Hk & Hf & Hc & Hu & Hr & Hd). unfold finish_payment_scan.
  assert (∀ cache', sc_requests cache' !! key = Some st → sweeping cache' key proofs c used now) as Hsame
    by (intros ? ?; exists st; split_and!; try done; lia).
  case_match; [|by apply Hsame]. destruct (sc_requests cache !! sn_key scan) as [st'|] eqn:Ek; [|by apply Hsame].
  destruct (ss_fingerprint st' =? _); [|by apply Hsame].
  destruct (decide (sn_key scan = key)) as [<-|Hne]; [|by apply Hsame; cbn; rewrite lookup_insert_ne].
  rewrite Hk in Ek. injection Ek as <-. eexists. split; [by cbn; rewrite lookup_insert_eq|]. cbn. split_and!; try done. lia.
Qed.

Lemma other_scan_keeps_sweep iter context proofs' now cache key proofs c used clock :
  iter_ok iter → cache_wf cache → context_key context ≠ key → clock <= now < used + SCAN_IDLE_TTL →
  c < Z.of_nat (length proofs) → sweeping cache key proofs c used clock →
  sweeping (payment_scan_at iter context proofs' now cache).2 key proofs c used now.
Proof.
  intros Hi Hwf Hne Hn Hlt (st & Hk & Hf & Hc & Hu & Hr & Hd). exists st. split_and!; try done; [|lia].
  apply other_scan_keeps; try done. eapply sweep_not_ready; [done| |by subst; lia].
  destruct (ss_sweep_complete st); [|done]. specialize (Hd eq_refl). lia.
Qed.

(** From a sweep that has reached [c], enough turns hand out every later transfer. *)
Lemma sweep_rest context proofs m ops cache c used clock i x :
  cache_wf cache → proofs ≠ [] → from_proofs context proofs = Some m →
  sweeping cache (context_key context) proofs c used clock → paced context proofs used clock ops → 0 <= c <= i →
  Z.of_nat (length proofs) <= c + MAX_SCAN_CANDIDATES * turns (context_key context) ops →
  (snd <$> m) !! Z.to_nat i = Some x → x ∈ handed_out (context_key context) cache ops.
Proof.
  intros Hwf Hp Hm Hs Hpace Hci Ht Hx.
  assert (i < Z.of_nat (length proofs) <= MAX_REQUEST_PROOFS) as [Hin Hmax].
  { pose proof (from_proofs_length _ _ _ Hm). apply lookup_lt_Some in Hx. rewrite length_fmap in Hx.
    unfold from_proofs in Hm. case_match eqn:E; [done|]. apply Z.ltb_ge in E. lia. }
  revert cache c used clock Hwf Hs Hpace Hci Ht. unfold MAX_SCAN_CANDIDATES, MAX_REQUEST_PROOFS in *.
  induction ops as [|[iter context' proofs' now|scan all_observed now] ops IH]; intros cache c used clock Hwf Hs Hpace Hci Ht.
  - simpl in Ht. lia.
  - cbn [turns handed_out paced] in *. destruct Hpace as (Hi & Hn & Hpace). apply elem_of_app.
    destruct (context_key context' =? context_key context) eqn:Ek.
    + destruct Hpace as (-> & -> & Hdue & Hpace).
      pose proof Hs as (st & Hk & Hf & Hc & Hu & Hr & Hd).
      destruct (own_scan_advances iter context proofs now cache st c m) as (cache' & Hscan & Hk'); try done; [lia|].
      rewrite Hscan. cbn [fst snd scanned sn_candidates]. destruct (decide (i < c + 8)) as [Hlt|Hge].
      { left. eapply window_covers; [exact Hci|exact Hlt|done]. }
      right. apply (IH cache' (c + 8) now now); [|eexists; split; [exact Hk'|]|done|lia|lia].
      { pose proof (payment_scan_wf iter context proofs now cache Hi Hwf) as Hwf'. by rewrite Hscan in Hwf'. }
      unfold advance. cbn [ss_fingerprint ss_cursor ss_last_used ss_retry_at ss_sweep_complete default from_option id].
      unfold MAX_SCAN_CANDIDATES. rewrite Z.mod_small by (unfold usize_modulus; lia). split_and!; try done; [lia|].
      rewrite orb_true_iff, Z.leb_le. intros [Hcomp|Hle]; [specialize (Hd Hcomp); lia|]. lia.
    + right. apply Z.eqb_neq in Ek. eapply IH; [by apply payment_scan_wf| |done|done|lia].
      by apply (other_scan_keeps_sweep _ _ _ _ _ _ _ _ used clock); try done; lia.
  - cbn [turns handed_out paced] in *. destruct Hpace as (Hn & Hpace).
    eapply IH; [by apply finish_payment_scan_wf| |done|done|done]. by eapply finish_keeps_sweep.
Qed.

(** [key] has no sweep of these proofs yet. *)
Definition unswept (cache : ScanCache) (key : Z) (proofs : list PaymentProofRecord) : Prop :=
  ∀ state, sc_requests cache !! key = Some state →
    ss_cursor state = None ∧ ss_sweep_complete state = false ∨ ss_fingerprint state ≠ proof_fingerprint proofs.

Lemma serve_waiting_unswept iter cache key now proofs :
  iter_ok iter → cache_wf cache → unswept cache key proofs → unswept (serve_waiting iter cache key now) key proofs.
Proof.
  intros Hi Hwf Hun state Hk. destruct (sc_requests cache !! key) as [st|] eqn:E.
  - rewrite (serve_waiting_keeps iter cache key now key st Hi Hwf E (or_introl eq_refl)) in Hk.
    injection Hk as <-. by apply Hun.
  - unfold serve_waiting in Hk. rewrite E in Hk. destruct (sc_waiting cache) as [[w f]|] eqn:Ew; [|congruence].
    destruct (oldest_ready _ _ _ _) as [o|] eqn:Eo; [|congruence]. cbn [sc_requests] in Hk.
    apply lookup_insert_Some in Hk as [[_ <-]|[_ Hk]]; [by left|]. apply lookup_delete_Some in Hk as [_ Hk]. congruence.
Qed.

(** A first scan that was given a slot hands out the first window. *)
Lemma first_scan iter context proofs now cache scan cache' m :
  iter_ok iter → cache_wf cache → unswept cache (context_key context) proofs → from_proofs context proofs = Some m →
  payment_scan_at iter context proofs now cache = (Some scan, cache') → sn_candidates scan ≠ [] →
  sn_candidates scan = window (snd <$> m) 0
  ∧ sweeping cache' (context_key context) proofs MAX_SCAN_CANDIDATES now now.
Proof.
  intros Hi Hwf Hun Hm. unfold payment_scan_at. case_match; [done|].
  destruct proofs as [|p proofs]; [by intros [= <- _]|]. cbv zeta. set (all := p :: proofs) in *. clearbody all.
  pose proof (serve_waiting_unswept iter cache _ now _ Hi Hwf Hun) as H1.
  destruct (make_room _ _ _ _) as [cache1|] eqn:Hroom; [|by intros [= <- _]].
  assert (unswept cache1 (context_key context) all) as H2.
  { intros st Hst. apply H1. unfold make_room in Hroom. case_match; [|by injection Hroom as <-].
    destruct (oldest_ready _ _ _ _); [|done]. injection Hroom as <-. cbn in Hst. by apply lookup_delete_Some in Hst as [_ ?]. }
  set (state := current_state cache1 (context_key context) (proof_fingerprint all) now).
  assert (ss_cursor state = None ∧ ss_fingerprint state = proof_fingerprint all
          ∧ ss_sweep_complete state = false ∧ ss_last_used state = now) as (Hc & Hf & Hsc & Hu).
  { unfold state, current_state. destruct (sc_requests cache1 !! context_key context) as [st|] eqn:E; cbn [default from_option id].
    - destruct (ss_fingerprint st =? _) eqn:Ef; [|done]. apply Z.eqb_eq in Ef. cbn. destruct (H2 st E) as [[-> ->]|]; done.
    - by rewrite Z.eqb_refl. }
  rewrite Hc, andb_false_r, Hm. intros [= <- <-] _. split; [done|].
  eexists. split; [by cbn; rewrite lookup_insert_eq|]. unfold advance. rewrite Hc, Hsc.
  cbn [ss_fingerprint ss_cursor ss_last_used ss_retry_at ss_sweep_complete default from_option id].
  split_and!; try done; [lia|]. cbn [orb]. rewrite Z.leb_le. unfold MAX_SCAN_CANDIDATES, u64_max. lia.
Qed.

(** C18: every transfer a request's proofs attest is looked at.  Once the request has been given a
    slot, and as long as it is scanned at a pace between fifteen seconds and five minutes, the scans
    of other requests can never take its slot while its sweep is in progress, and after as many turns
    as its proofs fill windows of eight, each of its transfers has been handed out to the verifier -
    in every interleaving, every iteration order and whatever the other scans found. *)
Theorem sweep_complete_hands_out_all iter context proofs m cache scan cache' now ops :
  iter_ok iter → cache_wf cache → unswept cache (context_key context) proofs → from_proofs context proofs = Some m →
  payment_scan_at iter context proofs now cache = (Some scan, cache') → sn_candidates scan ≠ [] →
  paced context proofs now now ops →
  Z.of_nat (length proofs) <= MAX_SCAN_CANDIDATES * (1 + turns (context_key context) ops) →
  ∀ candidate, candidate ∈ snd <$> m →
    candidate ∈ (sn_candidates scan ++ handed_out (context_key context) cache' ops)%list.
Proof.
  intros Hi Hwf Hun Hm Hscan Hne Hpace Hturns x (i & Hx)%list_elem_of_lookup. apply elem_of_app.
  destruct (first_scan _ _ _ _ _ _ _ _ Hi Hwf Hun Hm Hscan Hne) as [Hw Hsw].
  assert (proofs ≠ []) as Hp. { intros ->. injection Hm as <-. done. }
  assert ((snd <$> m) !! Z.to_nat (Z.of_nat i) = Some x) as Hx' by by rewrite Nat2Z.id.
  destruct (decide (Z.of_nat i < MAX_SCAN_CANDIDATES)) as [Hlt|Hge].
  - left. rewrite Hw. eapply window_covers; [| |exact Hx']; lia.
  - right. eapply (sweep_rest context proofs m ops cache' _ now now (Z.of_nat i)); try done; [|unfold MAX_SCAN_CANDIDATES in *; lia..].
    pose proof (payment_scan_wf iter context proofs now cache Hi Hwf) as Hwf'. by rewrite Hscan in Hwf'.
Qed.
End scan.
