(* ===== verification/UsdtObserve.v ===== *)
(** * UsdtObserve: attributing USDT transfers ([persistence/invoices/usdt.rs],
    [persistence/marketplace_preparations/usdt.rs])

    For each Payment Request the SDK reports, the invoice store and the Marketplace store ask
    the schedule for the next window of proven transfers, let the verifier judge them and
    record, refresh or clear the receipts of the owner of that request.  Both methods are
    programs over database statements, the schedule ([UsdtScan]) and the node ([Usdt]); the
    statements are functions of the tables and of [NOW()].  The two loops over candidates are
    one definition, [examine]; [UsdtOwner] says whose column a statement uses. *)

From S2P Require Import Prelude Text Effects Locks Invoice Receiving Payment Lifecycle Pricing Intent Readers Database OutboxStore CreateInvoice PaymentRecord Crypto Observations Settlement LifecycleStore Drains DrainProps Status Adapter Creators Allocation Allocated AllocationProps Targets Provider MarketTerms MarketStore MarketObserve Sorting Usdt UsdtVerified UsdtScan.
Local Open Scope string_scope.
Local Open Scope Z_scope.

(** ** Targets and statements *)

(** The fields of the SDK's record the observers read. *)
Record UsdtRequest := mk_UsdtRequest {
  ur_local_role : option PaymentRequestLocalRole;
  ur_payment_request_id : string;
  ur_counterparty : string;
  ur_payment_proofs : list PaymentProofRecord;
}.

Record UsdtInvoiceTarget := mk_UsdtInvoiceTarget {
  ui_id : RowId;
  ui_columns : InvoiceColumns;
  ui_invoice_envelope : string;
}.

Record UsdtTarget := mk_UsdtTarget {
  tg_preparation_id : RowId;
  tg_creator_lookup_hash : string;
  tg_payment_record_envelope : string;
  tg_columns : PreparationColumns;
}.

Inductive UsdtOwner :=
| OwnerInvoice (id : RowId)
| OwnerPreparation (id : RowId).

Definition owns (owner : UsdtOwner) (r : UsdtRow) : bool :=
  match owner with
  | OwnerInvoice id => owned_by id (us_invoice_id r)
  | OwnerPreparation id => owned_by id (us_marketplace_preparation_id r)
  end.

Definition minute : Z := 60 * 1000000000.

(** [checked_at > NOW() OR checked_at <= NOW() - CASE WHEN present THEN '1 minute' ELSE '15 seconds' END] *)
Definition refresh_due (now : Z) (r : UsdtRow) : bool :=
  (now <? us_checked_at r) || (us_checked_at r <=? now - (if us_present r then minute else 15 * 1000000000)).

Definition invoice_target (md : MarketDb) (creator_id : RowId) (request_id : string) (bundle_hash : option string) :
    option UsdtInvoiceTarget :=
  lifecycle ← lifecycles (mm_db md) !! request_id;
  id ← l_invoice_id lifecycle;
  i ← t_invoices (mm_pay md) !! id;
  x ← ac_invoices (mm_ac md) !! id;
  if bool_decide (iv_creator_id (iv_columns i) = creator_id)
     && match bundle_hash with
        | None => true
        | Some hash => bool_decide (ld_bundles (mm_life md) !! id = Some hash)
        end
  then Some (mk_UsdtInvoiceTarget id (iv_columns i) (ix_invoice_envelope x)) else None.

Definition settlement_target (md : MarketDb) (creator_id : RowId) (request_id : string) : option UsdtTarget :=
  lifecycle ← lifecycles (mm_db md) !! request_id;
  id ← l_marketplace_preparation_id lifecycle;
  '(stored, p, s) ← settlement_join md id;
  if bool_decide (pp_creator_id p = creator_id)
  then Some (mk_UsdtTarget id stored (se_payment_record_envelope s) (pp_columns p)) else None.

(** Skip, present, owned. *)
Definition existing_receipt (db : PaymentDb) (hash : string) (recent : bool) (owner : UsdtOwner) (now : Z) :
    option (bool * bool * bool) :=
  '(_, r) ← select_one (λ _ r, String.eqb (us_transfer_lookup_hash r) hash) (t_usdt db);
  Some (us_finalized r
        || (recent && owns owner r && us_present r && (us_checked_at r <=? now) && (now - minute <? us_checked_at r)),
        us_present r, owns owner r).

(** [UPDATE usdt_observations SET checked_at = NOW() ..]: whether a row was reserved. *)
Definition reserves (owner : UsdtOwner) (hash : string) (force : bool) (now : Z) (r : UsdtRow) : bool :=
  owns owner r && String.eqb (us_transfer_lookup_hash r) hash && negb (us_finalized r) && (force || refresh_due now r).

Definition touch (now : Z) (r : UsdtRow) : UsdtRow :=
  mk_UsdtRow (us_invoice_id r) (us_marketplace_preparation_id r) (us_transfer_lookup_hash r) (us_envelope r)
    (us_confirmations r) (us_present r) (us_finalized r) now.

Definition reserve_receipt (db : PaymentDb) (owner : UsdtOwner) (hash : string) (force : bool) (now : Z) :
    bool * PaymentDb :=
  (exists_row (λ _ r, reserves owner hash force now r) (t_usdt db),
   set_usdt db ((λ r, if reserves owner hash force now r then touch now r else r) <$> t_usdt db)).

(** [ORDER BY COALESCE(transfer_lookup_hash = $4, FALSE) DESC, present DESC, checked_at, id] for
    an invoice, [ORDER BY checked_at, id] for a settlement. *)
Definition receipt_order (owner : UsdtOwner) (preferred : option string) (a b : RowId * UsdtRow) : comparison :=
  let rest := then_with (us_checked_at a.2 ?= us_checked_at b.2) (a.1 ?= b.1)%N in
  match owner with
  | OwnerPreparation _ => rest
  | OwnerInvoice _ =>
      let first r := bool_decide (preferred = Some (us_transfer_lookup_hash r)) in
      then_with (bool_compare (first b.2) (first a.2)) (then_with (bool_compare (us_present b.2) (us_present a.2)) rest)
  end.

Definition owned_receipts (db : PaymentDb) (owner : UsdtOwner) (force : bool) (preferred : option string) (now : Z) :
    list (RowId * UsdtRow) :=
  take (Z.to_nat MAX_SCAN_CANDIDATES)
    (sort_by (receipt_order owner preferred)
       (filter (λ kv, Is_true (owns owner kv.2 && negb (us_finalized kv.2) && (force || refresh_due now kv.2)))
          (map_to_list (t_usdt db)))).

(** ** The calls of the observers *)

Inductive UsdtCall : Type → Type :=
| FindInvoice (creator_id : RowId) (request_id : string) (bundle_hash : option string) :
    UsdtCall (result PersistenceError (option UsdtInvoiceTarget))
| FindSettlement (creator_id : RowId) (request_id : string) : UsdtCall (result PersistenceError (option UsdtTarget))
| SelectedReceipt (target : UsdtInvoiceTarget) (creator_hash : string) (required : Z) :
    UsdtCall (result PersistenceError (option (string * ObservedPayment)))
| OwnedReceipts (owner : UsdtOwner) (force : bool) (preferred : option string) :
    UsdtCall (result PersistenceError (list (RowId * UsdtRow)))
| ExistingReceipt (hash : string) (recent : bool) (owner : UsdtOwner) :
    UsdtCall (result PersistenceError (option (bool * bool * bool)))
| ReserveReceipt (owner : UsdtOwner) (hash : string) (force : bool) : UsdtCall (result PersistenceError bool)
| ApplyReceipt (target : UsdtInvoiceTarget) (creator_hash : string) (payment : InvoicePaymentRecordV1)
    (transfer : VerifiedTransfer) : UsdtCall (result PersistenceError bool)
| ClearReceipt (target : UsdtInvoiceTarget) (creator_hash : string) (payment : InvoicePaymentRecordV1)
    (hash : string) : UsdtCall (result PersistenceError unit)
| ApplySettlementReceipt (target : UsdtTarget) (creator_hash : string) (transfer : VerifiedTransfer) :
    UsdtCall (result PersistenceError bool)
| ClearSettlementReceipt (id : RowId) (hash : string) : UsdtCall (result PersistenceError unit)
| NextScan (context : PaymentContext) (proofs : list PaymentProofRecord) : UsdtCall (option PaymentScan)
| FinishScan (scan : PaymentScan) (all_observed : bool) : UsdtCall unit
| Node {X} (e : RpcCall X) : UsdtCall X.

Notation M := (prog UsdtCall).

(** A program of the verifier among the calls of an observer. *)
Fixpoint on_node {A} (p : prog RpcCall A) : M A :=
  match p with
  | Ret a => Ret a
  | Vis e k => Vis (Node e) (λ x, on_node (k x))
  end.

Section observe.
Context {core : LocksCore} {lib : PaykitLib} {prim : CryptoPrimitives} {codec : ObservationCodec}
  {preparations_codec : PreparationCodec} (crypto : Crypto).
Context {alloy : Alloy} {secp : Secp256k1}.
Context (from_bytes : string → option DeliveryIntentV1).
Context (from_slice : string → option Value) (from_unix_timestamp : Z → option Z).

(** The loop over the candidates; [observed] are the identities observed so far. *)
Fixpoint examine (context : PaymentContext) (owner : UsdtOwner) (recent force : bool)
    (apply : VerifiedTransfer → M (result PersistenceError bool)) (clear : string → M (result PersistenceError unit))
    (candidates : list PaymentCandidate) (observed : list string) : M (result PersistenceError (list string)) :=
  match candidates with
  | [] => Ret (Ok observed)
  | candidate :: candidates =>
      let next := examine context owner recent force apply clear candidates in
      let identity := pc_identity candidate in
      let identity_hash := usdt_transfer_lookup_hash crypto identity in
      existing ←? call (ExistingReceipt identity_hash recent owner);
      match existing with
      | Some (_, _, false) => next observed
      | Some (true, _, _) => next (identity :: observed)
      | _ =>
          reserved ←? (if is_some existing then call (ReserveReceipt owner identity_hash force) else Ret (Ok true));
          if negb reserved then next observed
          else
            verdict ⇐ on_node (verify_candidate from_slice from_unix_timestamp context candidate);
            verified ←? Ret (match verdict with
                             | Ok value => Ok value
                             | Err InvalidProof => Ok None
                             | Err Usdt.Unavailable => Err PE_Unavailable
                             end);
            match verified with
            | Some transfer =>
                applied ←? apply transfer;
                next (if applied : bool then identity :: observed else observed)
            | None =>
                if match existing with Some (_, present, owned) => present && owned | None => false end
                then _ ←? clear identity_hash; next observed
                else next observed
            end
      end
  end.

(** ** Invoices *)

(** Rows without a sender are anchored in the proofs of the request, or cleared. *)
Fixpoint invoice_candidates (target : UsdtInvoiceTarget) (creator_hash : string) (payment : InvoicePaymentRecordV1)
    (context : PaymentContext) (proofs : list PaymentProofRecord) (rows : list (RowId * UsdtRow))
    (candidates : list PaymentCandidate) : M (result PersistenceError (list PaymentCandidate)) :=
  match rows with
  | [] => Ret (Ok candidates)
  | (id, row) :: rows =>
      decoded ←? Ret (transfer_facts crypto id (ui_id target) creator_hash (us_envelope row) (us_transfer_lookup_hash row));
      let '(facts, sender) := decoded in
      candidate ←? Ret (match sender with
                        | Some sender =>
                            Some <$> map_err (λ _, PE_CorruptOrMissing) (from_observation (tf_identity facts) sender)
                        | None =>
                            Ok (legacy ← from_proofs context proofs;
                                snd <$> find (λ kc, String.eqb kc.1 (tf_identity facts)) legacy)
                        end);
      match candidate with
      | Some candidate =>
          invoice_candidates target creator_hash payment context proofs rows (candidates ++ [candidate])
      | None =>
          _ ←? call (ClearReceipt target creator_hash payment (usdt_transfer_lookup_hash crypto (tf_identity facts)));
          invoice_candidates target creator_hash payment context proofs rows candidates
      end
  end.

Definition owned_usdt_candidates (target : UsdtInvoiceTarget) (creator_hash : string) (payment : InvoicePaymentRecordV1)
    (force : bool) (context : PaymentContext) (proofs : list PaymentProofRecord) :
    M (result PersistenceError (list PaymentCandidate)) :=
  preferred ←? (if force then
                  destination ←? Ret (ok_or (pr_usdt payment) PE_CorruptOrMissing);
                  selected ←? call (SelectedReceipt target creator_hash (pd_required_amount destination));
                  Ret (Ok (option_map (λ s : string * ObservedPayment, usdt_transfer_lookup_hash crypto s.1) selected))
                else Ret (Ok None));
  rows ←? call (OwnedReceipts (OwnerInvoice (ui_id target)) force preferred);
  invoice_candidates target creator_hash payment context proofs rows [].

(** The candidates of the scan after the owned ones, eight at most, none twice. *)
Fixpoint add_scanned (candidates scanned : list PaymentCandidate) : list PaymentCandidate :=
  match scanned with
  | [] => candidates
  | c :: scanned =>
      if Z.of_nat (length candidates) =? MAX_SCAN_CANDIDATES then candidates
      else if existsb (λ owned, String.eqb (pc_identity owned) (pc_identity c)) candidates
           then add_scanned candidates scanned
           else add_scanned (candidates ++ [c]) scanned
  end.

(** The context of an invoice's request, or [None] when the invoice takes no USDT. *)
Definition invoice_context (creator : CreatorPubky) (record : UsdtRequest) (target : UsdtInvoiceTarget) :
    result PersistenceError (option (string * InvoicePaymentRecordV1 * PaymentDestination * PaymentContext)) :=
  creator_hash ← stored_lookup_hash (iv_creator_lookup_hash (ui_columns target));
  ensure (String.eqb creator_hash (lookup_hash crypto (creator_to_string creator))) PE_CorruptOrMissing;;
  payment ← decrypt_payment_record crypto creator_hash (ui_id target) (iv_payment_record_envelope (ui_columns target));
  match pr_usdt payment with
  | None => Ok None
  | Some destination =>
      plaintext ← map_err (λ _, PE_CorruptOrMissing)
        (decrypt crypto (ctx_invoice creator_hash (ui_id target)) (ui_invoice_envelope target));
      intent ← ok_or (from_bytes plaintext) PE_CorruptOrMissing;
      terms ← map_err (λ _, PE_CorruptOrMissing) (intent_terms intent);
      ensure (String.eqb (reader_pubky intent) ("pubky" ++ ur_counterparty record)) PE_CorruptOrMissing;;
      payee ← ok_or (strip_prefix "pubky" (creator_to_string creator)) PE_CorruptOrMissing;
      recipient ← map_err (λ _, PE_CorruptOrMissing) (usdt_try_from (pd_address destination));
      Ok (Some (creator_hash, payment, destination,
                mk_PaymentContext (ur_counterparty record) payee (ur_payment_request_id record)
                  (payment_reference terms) recipient))
  end.

(** A fresh status may only rest on receipts refreshed in this pass, or final ones. *)
Definition fresh_status (selected : option (string * ObservedPayment)) (observed : list string) :
    result PersistenceError unit :=
  ensure (match selected with
          | Some (identity, payment) => op_finalized payment || existsb (String.eqb identity) observed
          | None => true
          end) PE_Unavailable.

Definition finish (scan : option PaymentScan) (all_observed : PaymentScan → bool) : M unit :=
  match scan with
  | Some scan => call (FinishScan scan (all_observed scan))
  | None => Ret tt
  end.

Definition observe_usdt_request (creator_id : RowId) (creator : CreatorPubky) (record : UsdtRequest)
    (bundle : option BundleId) : M (result PersistenceError unit) :=
  if negb (bool_decide (ur_local_role record = Some Payee)) then Ret (Ok tt)
  else
    target ←? call (FindInvoice creator_id (ur_payment_request_id record)
                      ((λ id, lookup_hash crypto (bundle_to_string id)) <$> bundle));
    match target with
    | None => Ret (Ok tt)
    | Some target =>
        resolved ←? Ret (invoice_context creator record target);
        match resolved with
        | None => Ret (Ok tt)
        | Some (creator_hash, payment, destination, context) =>
            scan ⇐ call (NextScan context (ur_payment_proofs record));
            owned ←? (if is_some bundle || is_none scan
                      then owned_usdt_candidates target creator_hash payment (is_some bundle) context
                             (ur_payment_proofs record)
                      else Ret (Ok []));
            let candidates := match scan with Some scan => add_scanned owned (sn_candidates scan) | None => owned end in
            observed ←? examine context (OwnerInvoice (ui_id target)) (is_none bundle && is_some scan) (is_some bundle)
                          (λ transfer, call (ApplyReceipt target creator_hash payment transfer))
                          (λ hash, call (ClearReceipt target creator_hash payment hash)) candidates [];
            _ ⇐ finish scan (λ scan, forallb (λ c, existsb (String.eqb (pc_identity c)) observed) (sn_candidates scan));
            if is_some bundle then
              selected ←? call (SelectedReceipt target creator_hash (pd_required_amount destination));
              Ret (fresh_status selected observed)
            else Ret (Ok tt)
        end
    end.

(** ** Settlements *)

Definition settlement_envelope (creator_hash : string) (target : UsdtTarget) : result PersistenceError PreparationEnvelope :=
  e ← open_preparation crypto creator_hash (tg_preparation_id target) (pn_envelope (tg_columns target));
  ensure ((pe_prepared_at e =? pn_prepared_at (tg_columns target))
          && (pe_prepare_expires_at e =? pn_prepare_expires_at (tg_columns target))) PE_CorruptOrMissing;;
  Ok e.

Fixpoint settlement_candidates (id : RowId) (creator_hash : string) (rows : list (RowId * UsdtRow))
    (candidates : list PaymentCandidate) : M (result PersistenceError (list PaymentCandidate)) :=
  match rows with
  | [] => Ret (Ok candidates)
  | (receipt_id, row) :: rows =>
      decoded ←? Ret (market_usdt_facts crypto creator_hash id receipt_id row);
      let '(facts, sender) := decoded in
      match sender with
      | Some sender =>
          candidate ←? Ret (map_err (λ _, PE_CorruptOrMissing) (from_observation (tf_identity facts) sender));
          settlement_candidates id creator_hash rows (candidates ++ [candidate])
      | None =>
          _ ←? call (ClearSettlementReceipt id (usdt_transfer_lookup_hash crypto (tf_identity facts)));
          settlement_candidates id creator_hash rows candidates
      end
  end.

Definition settlement_context (creator : CreatorPubky) (record : UsdtRequest) (target : UsdtTarget) :
    result PersistenceError (option (string * PaymentContext)) :=
  creator_hash ← stored_lookup_hash (tg_creator_lookup_hash target);
  ensure (String.eqb creator_hash (lookup_hash crypto (creator_to_string creator))) PE_CorruptOrMissing;;
  payment ← decrypt_settlement_payment_record crypto creator_hash (tg_preparation_id target)
              (tg_payment_record_envelope target);
  recipient ← record_usdt_address payment;
  match recipient with
  | None => Ok None
  | Some recipient =>
      e ← settlement_envelope creator_hash target;
      terms ← map_err (λ _, PE_CorruptOrMissing) (intent_terms (pe_payment_request_intent e));
      ensure (String.eqb (reader_pubky (pe_payment_request_intent e)) ("pubky" ++ ur_counterparty record))
        PE_CorruptOrMissing;;
      payee ← ok_or (strip_prefix "pubky" (creator_to_string creator)) PE_CorruptOrMissing;
      Ok (Some (creator_hash, mk_PaymentContext (ur_counterparty record) payee (ur_payment_request_id record)
                                (payment_reference terms) recipient))
  end.

Definition observe_settlement_usdt_request (creator_id : RowId) (creator : CreatorPubky) (record : UsdtRequest) :
    M (result PersistenceError unit) :=
  if negb (bool_decide (ur_local_role record = Some Payee)) then Ret (Ok tt)
  else
    target ←? call (FindSettlement creator_id (ur_payment_request_id record));
    match target with
    | None => Ret (Ok tt)
    | Some target =>
        resolved ←? Ret (settlement_context creator record target);
        match resolved with
        | None => Ret (Ok tt)
        | Some (creator_hash, context) =>
            let id := tg_preparation_id target in
            scan ⇐ call (NextScan context (ur_payment_proofs record));
            candidates ←? match scan with
                          | Some scan => Ret (Ok (sn_candidates scan))
                          | None => rows ←? call (OwnedReceipts (OwnerPreparation id) false None);
                                    settlement_candidates id creator_hash rows []
                          end;
            observed ←? examine context (OwnerPreparation id) (is_some scan) false
                          (λ transfer, call (ApplySettlementReceipt target creator_hash transfer))
                          (λ hash, call (ClearSettlementReceipt id hash)) candidates [];
            _ ⇐ finish scan (λ _, Nat.eqb (length observed) (length candidates));
            Ret (Ok tt)
        end
    end.
End observe.
