(* ===== verification/UsdtCredit.v ===== *)
(** * UsdtCredit: what a credited USDT receipt rests on

    The theorems of [UsdtObserve]: a receipt is written to an invoice or a settlement only for
    a transfer the node showed in that run, to the owner's own address, from an account that
    attested this very request or was attested when the receipt was first recorded; and every
    database write of an observation is one of the transactions of the payment tables. *)

From S2P Require Import Prelude Text Effects Locks Invoice Receiving Payment Lifecycle Pricing Intent Readers Database OutboxStore CreateInvoice PaymentRecord Crypto Observations Settlement LifecycleStore Drains DrainProps Status Adapter Creators Allocation Allocated AllocationProps Targets Provider MarketTerms MarketStore MarketObserve Sorting Usdt UsdtVerified UsdtScan UsdtObserve.
Local Open Scope string_scope.
Local Open Scope Z_scope.

Notation ulog := (list (event UsdtCall)).

(** What the node replied among the calls of an observer. *)
Definition node_event (ev : event UsdtCall) : option (event RpcCall) :=
  match ev with
  | Ev e x => match e in UsdtCall X return X → option (event RpcCall) with
              | Node e => λ x, Some (Ev e x)
              | _ => λ _, None
              end x
  end.

Definition node_log (tr : ulog) : list (event RpcCall) := omap node_event tr.

Definition as_node (ev : event RpcCall) : event UsdtCall := match ev with Ev e x => Ev (Node e) x end.

(** A write of a receipt. *)
Inductive Credit :=
| InvoiceCredit (target : UsdtInvoiceTarget) (creator_hash : string) (payment : InvoicePaymentRecordV1) (t : VerifiedTransfer)
| SettlementCredit (target : UsdtTarget) (creator_hash : string) (t : VerifiedTransfer).

Definition credited (ev : event UsdtCall) : option Credit :=
  match ev with
  | Ev (ApplyReceipt target creator_hash payment t) _ => Some (InvoiceCredit target creator_hash payment t)
  | Ev (ApplySettlementReceipt target creator_hash t) _ => Some (SettlementCredit target creator_hash t)
  | _ => None
  end.

Lemma node_log_app tr tr' : node_log (tr ++ tr') = (node_log tr ++ node_log tr')%list.
Proof. apply omap_app. Qed.

Lemma node_log_as_node tr : node_log (as_node <$> tr) = tr.
Proof. induction tr as [|[X e x] tr IH]; [done|]. cbn. f_equal. exact IH. Qed.

Lemma credited_as_node ev : credited (as_node ev) = None.
Proof. by destruct ev. Qed.

Lemma runs_on_node {A B} (p : prog RpcCall A) (k : A → prog UsdtCall B) Q tr tr1 :
  all_runs p (λ tr' a, all_runs (k a) Q (tr ++ (as_node <$> tr'))) tr1 →
  all_runs (prog_bind k (on_node p)) Q (tr ++ (as_node <$> tr1)).
Proof.
  revert tr1. induction p as [a|X e k' IH]; intros tr1; simpl; [done|]. intros H x. specialize (IH x _ (H x)).
  by rewrite fmap_app, app_assoc in IH.
Qed.

Section credit.
Context {core : LocksCore} {lib : PaykitLib} {prim : CryptoPrimitives} {codec : ObservationCodec}
  {preparations_codec : PreparationCodec} (crypto : Crypto).
Context {alloy : Alloy} {secp : Secp256k1}.
Context (from_bytes : string → option DeliveryIntentV1).
Context (from_slice : string → option Value) (from_unix_timestamp : Z → option Z).
Notation shown := (transfer_shown from_slice from_unix_timestamp).

Lemma replied_incl tr tr' method params v :
  (∀ ev, ev ∈ tr → ev ∈ tr') → replied from_slice tr method params v → replied from_slice tr' method params v.
Proof. intros Hi (r & Hin & Hr). exists r. auto. Qed.

Lemma tip_known_incl tr tr' tip :
  (∀ ev, ev ∈ tr → ev ∈ tr') → tip_known from_slice tr tip → tip_known from_slice tr' tip.
Proof.
  intros Hi [(c & f & h & ? & ? & ? & ? & ? & ?)|(r & n & ? & ? & ?)]; [left|right; exists r, n; auto].
  exists c, f, h. split_and!; try done; by eapply replied_incl.
Qed.

Lemma transfer_shown_incl tr tr' context hash index t :
  (∀ ev, ev ∈ tr → ev ∈ tr') → shown tr context hash index t → shown tr' context hash index t.
Proof.
  intros Hi (tip & receipt & block & number & bh & logs & l & secs & Ht & Hr & ? & ? & ? & Hb & H).
  exists tip, receipt, block, number, bh, logs, l, secs.
  split; [by eapply tip_known_incl|]. split; [by eapply replied_incl|].
  do 3 (split; [done|]). split; [by eapply replied_incl|done].
Qed.

(** ** The loop *)

Section examine.
Context (context : PaymentContext) (P : PaymentCandidate → Prop) (J : ulog → Credit → Prop) (C : VerifiedTransfer → Credit).
Context (J_mono : ∀ tr tr' cr, J tr cr → J (tr ++ tr')%list cr).

(** Every credit of the log is justified. *)
Definition credits_justified (tr : ulog) : Prop := ∀ ev cr, ev ∈ tr → credited ev = Some cr → J tr cr.

Lemma justified_app tr tr' :
  credits_justified tr → (∀ ev, ev ∈ tr' → credited ev = None) → credits_justified (tr ++ tr')%list.
Proof.
  intros H Hn ev cr [Hin|Hin]%elem_of_app Hc; [by eapply J_mono, H|]. rewrite (Hn _ Hin) in Hc. done.
Qed.

Lemma justified_last tr ev : credits_justified tr → credited ev = None → credits_justified (tr ++ [ev])%list.
Proof. intros H Hn. apply justified_app; [done|]. by intros ? ->%list_elem_of_singleton. Qed.

Lemma runs_examine owner recent force mk clear tr0 candidates observed tr1 :
  (∀ t r, credited (Ev (mk t) r) = Some (C t)) → (∀ hash r, credited (Ev (clear hash) r) = None) →
  (∀ c tr' t, P c → vt_sender t ∈ pc_senders c → shown (node_log (tr0 ++ tr')) context (pc_hash c) (pc_index c) t →
     J (tr0 ++ tr')%list (C t)) →
  (∀ c, c ∈ candidates → P c) → credits_justified (tr0 ++ tr1) →
  all_runs (examine crypto from_slice from_unix_timestamp context owner recent force
              (λ t, call (mk t)) (λ hash, call (clear hash)) candidates observed)
    (λ tr _, credits_justified tr ∧ ∃ tr2, tr = (tr0 ++ tr2)%list) (tr0 ++ tr1)%list.
Proof.
  intros Hmk Hclear HJ. revert observed tr1. induction candidates as [|c candidates IH]; intros observed tr1 HP Hj.
  { simpl. eauto. }
  assert (∀ c, c ∈ candidates → P c) as HP' by (intros; apply HP, elem_of_cons; auto).
  assert (∀ tr2 observed, credits_justified (tr0 ++ tr2) →
    all_runs (examine crypto from_slice from_unix_timestamp context owner recent force
              (λ t, call (mk t)) (λ hash, call (clear hash)) candidates observed)
     (λ tr _, credits_justified tr ∧ ∃ tr2, tr = (tr0 ++ tr2)%list) (tr0 ++ tr2)%list) as Hnext by (intros; by apply IH).
  clear IH. cbn [examine]. apply all_runs_try. cbn [call all_runs]. intros existing.
  assert (∀ tr2 X (e : UsdtCall X) x, credits_justified (tr0 ++ tr2) → credited (Ev e x) = None →
            credits_justified ((tr0 ++ tr2) ++ [Ev e x])) as Hlast by (intros; by apply justified_last).
  pose proof (Hlast tr1 _ (ExistingReceipt (usdt_transfer_lookup_hash crypto (pc_identity c)) recent owner) existing Hj eq_refl) as Hj1. rewrite <- app_assoc in Hj1 |- *. set (tr2 := (tr1 ++ _)%list) in *.
  clearbody tr2. clear Hj tr1. destruct existing as [existing|e]; [|by cbn; eauto].
  assert (∀ observed tr3, credits_justified (tr0 ++ tr3) →
    all_runs (verdict ⇐ on_node (verify_candidate from_slice from_unix_timestamp context c);
            verified ←? Ret (match verdict with
                             | Ok value => Ok value
                             | Err InvalidProof => Ok None
                             | Err Usdt.Unavailable => Err PE_Unavailable
                             end);
            match verified with
            | Some transfer =>
                applied ←? call (mk transfer);
                examine crypto from_slice from_unix_timestamp context owner recent force (λ t, call (mk t))
                  (λ hash, call (clear hash)) candidates (if applied : bool then pc_identity c :: observed else observed)
            | None =>
                if match existing with Some (_, present, owned) => present && owned | None => false end
                then _ ←? call (clear (usdt_transfer_lookup_hash crypto (pc_identity c)));
                     examine crypto from_slice from_unix_timestamp context owner recent force (λ t, call (mk t))
                       (λ hash, call (clear hash)) candidates observed
                else examine crypto from_slice from_unix_timestamp context owner recent force (λ t, call (mk t))
                       (λ hash, call (clear hash)) candidates observed
            end)
      (λ tr _, credits_justified tr ∧ ∃ tr2, tr = (tr0 ++ tr2)%list) (tr0 ++ tr3)%list) as Hverify.
  { intros obs tr3 Hj3. rewrite <- (app_nil_r (tr0 ++ tr3)). change ([] : ulog) with (as_node <$> []).
    apply runs_on_node. eapply all_runs_mono; [|apply runs_verify_candidate]. intros tr' verdict [_ Hv].
    assert (credits_justified ((tr0 ++ tr3) ++ (as_node <$> tr'))) as Hj4.
    { apply justified_app; [done|]. intros ev (ev' & -> & _)%list_elem_of_fmap. apply credited_as_node. }
    rewrite <- app_assoc in Hj4 |- *. destruct verdict as [[t|]|[]]; cbn [try_bind prog_bind].
    - intros applied. destruct Hv as [Hs Hshown].
      assert (credits_justified ((tr0 ++ tr3 ++ (as_node <$> tr')) ++ [Ev (mk t) applied])) as Hj5.
      { intros ev cr [Hin|Hev%list_elem_of_singleton]%elem_of_app Hc; [by eapply J_mono, Hj4|].
        rewrite Hev, Hmk in Hc. injection Hc as <-. rewrite <- app_assoc.
        apply (HJ c); [by apply HP, elem_of_cons; left|done|]. eapply transfer_shown_incl; [|exact Hshown].
        intros ev' Hin. rewrite !node_log_app, node_log_as_node, !elem_of_app. auto. }
      rewrite <- app_assoc in Hj5 |- *. destruct applied as [applied|e]; [by apply Hnext|by cbn; eauto].
    - case_match; [|by apply Hnext]. intros cleared.
      pose proof (Hlast _ _ _ cleared Hj4 (Hclear (usdt_transfer_lookup_hash crypto (pc_identity c)) _)) as Hj5. rewrite <- app_assoc in Hj5 |- *.
      destruct cleared; [by apply Hnext|by cbn; eauto].
    - case_match; [|by apply Hnext]. intros cleared.
      pose proof (Hlast _ _ _ cleared Hj4 (Hclear (usdt_transfer_lookup_hash crypto (pc_identity c)) _)) as Hj5. rewrite <- app_assoc in Hj5 |- *.
      destruct cleared; [by apply Hnext|by cbn; eauto].
    - by cbn; eauto. }
  destruct existing as [[[skip present] owned]|].
  - destruct owned; [|by destruct skip; apply Hnext]. destruct skip; [by apply Hnext|]. cbn [is_some].
    apply all_runs_try. cbn [call all_runs]. intros reserved.
    pose proof (Hlast _ _ (ReserveReceipt owner (usdt_transfer_lookup_hash crypto (pc_identity c)) force) reserved Hj1 eq_refl) as Hj2. rewrite <- app_assoc in Hj2 |- *.
    destruct reserved as [[]|e]; [by apply Hverify|by apply Hnext|by cbn; eauto].
  - cbn [is_some try_bind prog_bind negb]. by apply Hverify.
Qed.
End examine.

(** ** Where a candidate comes from *)

(** The programs that only read: they extend the log and credit nothing. *)
Definition credit_free (tr0 tr : ulog) : Prop := ∃ tr', tr = (tr0 ++ tr')%list ∧ ∀ ev, ev ∈ tr' → credited ev = None.

Lemma credit_free_refl tr : credit_free tr tr.
Proof. exists []. rewrite app_nil_r. split; [done|]. by intros ev ?%not_elem_of_nil. Qed.

Lemma credit_free_trans a b c : credit_free a b → credit_free b c → credit_free a c.
Proof.
  intros (t & -> & Ht) (u & -> & Hu). exists (t ++ u)%list. split; [by rewrite app_assoc|].
  intros ev [?|?]%elem_of_app; auto.
Qed.

Lemma credit_free_last tr0 tr ev : credit_free tr0 tr → credited ev = None → credit_free tr0 (tr ++ [ev]).
Proof.
  intros (tr' & -> & H) Hn. exists (tr' ++ [ev])%list. split; [by rewrite app_assoc|].
  intros ev' [?| ->%list_elem_of_singleton]%elem_of_app; auto.
Qed.

Lemma credit_free_elem tr0 tr ev : credit_free tr0 tr → ev ∈ tr0 → ev ∈ tr.
Proof. intros (tr' & -> & _) H. apply elem_of_app. by left. Qed.

Lemma last_elem (tr : ulog) ev : ev ∈ (tr ++ [ev])%list.
Proof. apply elem_of_app. right. by apply list_elem_of_singleton. Qed.

(** An owned row whose sealed sender and identity make the candidate. *)
Definition recorded (decode : RowId → UsdtRow → result PersistenceError (TransferFacts * option string))
    (rows : list (RowId * UsdtRow)) (c : PaymentCandidate) : Prop :=
  ∃ id row facts sender, (id, row) ∈ rows ∧ decode id row = Ok (facts, Some sender)
    ∧ from_observation (tf_identity facts) sender = Ok c.

Definition proven (context : PaymentContext) (proofs : list PaymentProofRecord) (c : PaymentCandidate) : Prop :=
  ∃ m, from_proofs context proofs = Some m ∧ c ∈ snd <$> m.

Notation invoice_facts target creator_hash :=
  (λ id row, transfer_facts crypto id (ui_id target) creator_hash (us_envelope row) (us_transfer_lookup_hash row)).

Lemma runs_invoice_candidates target creator_hash payment context proofs all tr0 rows candidates tr :
  (∀ kv, kv ∈ rows → kv ∈ all) →
  (∀ c, c ∈ candidates → proven context proofs c ∨ recorded (invoice_facts target creator_hash) all c) → credit_free tr0 tr →
  all_runs (invoice_candidates crypto target creator_hash payment context proofs rows candidates)
    (λ tr res, credit_free tr0 tr ∧ match res with
       | Ok cs => ∀ c, c ∈ cs → proven context proofs c ∨ recorded (invoice_facts target creator_hash) all c
       | Err _ => True end) tr.
Proof.
  revert candidates tr. induction rows as [|[id row] rows IH]; intros candidates tr Hall Hc Hq; [done|].
  assert (∀ kv, kv ∈ rows → kv ∈ all) as Hall' by (intros; apply Hall, elem_of_cons; auto).
  cbn [invoice_candidates]. apply runs_pure; [|done]. intros [facts sender] Hf.
  assert ((id, row) ∈ all) as Hrow by (apply Hall, elem_of_cons; auto).
  assert (∀ c, proven context proofs c ∨ recorded (invoice_facts target creator_hash) all c →
    ∀ c', c' ∈ (candidates ++ [c])%list → proven context proofs c' ∨ recorded (invoice_facts target creator_hash) all c') as Hadd.
  { intros c H c' [?| ->%list_elem_of_singleton]%elem_of_app; auto. }
  apply runs_pure; [|done]. intros [c|] Hcand.
  - apply IH; [done| |done]. apply Hadd. destruct sender as [sender|].
    + apply fmap_ok in Hcand as (c' & Hm%map_err_ok & [= ->]). right. exists id, row, facts, sender. by split_and!.
    + injection Hcand as Hcand. apply bind_Some in Hcand as (m & Hm & Hfind). left. exists m. split; [done|].
      apply fmap_Some in Hfind as ([k c'] & Hfind & ->). apply find_some_in in Hfind as [Hin _].
      apply list_elem_of_fmap. by exists (k, c').
  - apply all_runs_try. cbn [call all_runs]. intros cleared.
    assert (credit_free tr0 (tr ++ [Ev (ClearReceipt target creator_hash payment (usdt_transfer_lookup_hash crypto (tf_identity facts))) cleared]))
      as Hq' by by apply credit_free_last.
    destruct cleared; [by apply IH|by cbn].
Qed.

Lemma runs_owned_usdt_candidates target creator_hash payment force context proofs tr0 tr :
  credit_free tr0 tr →
  all_runs (owned_usdt_candidates crypto target creator_hash payment force context proofs)
    (λ tr res, credit_free tr0 tr ∧ match res with
       | Ok cs => ∀ c, c ∈ cs → proven context proofs c ∨
           ∃ preferred rows, Ev (OwnedReceipts (OwnerInvoice (ui_id target)) force preferred) (Ok rows) ∈ tr
             ∧ recorded (invoice_facts target creator_hash) rows c
       | Err _ => True end) tr.
Proof.
  intros Hq. unfold owned_usdt_candidates.
  assert (∀ preferred tr, credit_free tr0 tr →
    all_runs (rows ←? call (OwnedReceipts (OwnerInvoice (ui_id target)) force preferred);
              invoice_candidates crypto target creator_hash payment context proofs rows [])
    (λ tr res, credit_free tr0 tr ∧ match res with
       | Ok cs => ∀ c, c ∈ cs → proven context proofs c ∨
           ∃ preferred rows, Ev (OwnedReceipts (OwnerInvoice (ui_id target)) force preferred) (Ok rows) ∈ tr
             ∧ recorded (invoice_facts target creator_hash) rows c
       | Err _ => True end) tr) as Hrest.
  { clear tr Hq. intros preferred tr Hq. apply all_runs_try. cbn [call all_runs]. intros rows.
    set (ev := Ev (OwnedReceipts (OwnerInvoice (ui_id target)) force preferred) rows).
    assert (credit_free tr0 (tr ++ [ev])) as Hq1 by by apply credit_free_last.
    destruct rows as [rows|e]; [|by cbn]. eapply all_runs_mono; [|apply (runs_invoice_candidates _ _ _ _ _ rows (tr ++ [ev]));
      [done|by intros ? ?%not_elem_of_nil|apply credit_free_refl]].
    intros tr' res [Hq2 Hres]. split.
    { by eapply credit_free_trans. }
    destruct res as [cs|]; [|done]. intros c Hc. destruct (Hres c Hc) as [?|Hr]; [by left|]. right.
    exists preferred, rows. split; [|done]. eapply credit_free_elem; [done|]. apply last_elem. }
  destruct force; [|by apply Hrest]. apply all_runs_try, runs_pure; [|done]. intros destination _.
  apply all_runs_try. cbn [call all_runs]. intros selected.
  assert (credit_free tr0 (tr ++ [Ev (SelectedReceipt target creator_hash (pd_required_amount destination)) selected])) as Hq1
    by by apply credit_free_last.
  destruct selected as [selected|]; cbn [all_runs]; [by apply Hrest|done].
Qed.

(** ** A credited invoice *)

Section invoice.
Context (creator_id : RowId) (creator : CreatorPubky) (record : UsdtRequest) (bundle : option BundleId).
Notation bundle_hash := ((λ id, lookup_hash crypto (bundle_to_string id)) <$> bundle).
Notation proofs := (ur_payment_proofs record).

Definition invoice_source (tr : ulog) (target : UsdtInvoiceTarget) (creator_hash : string) (context : PaymentContext)
    (c : PaymentCandidate) : Prop :=
  (∃ scan, Ev (NextScan context proofs) (Some scan) ∈ tr ∧ c ∈ sn_candidates scan)
  ∨ proven context proofs c
  ∨ ∃ force preferred rows, Ev (OwnedReceipts (OwnerInvoice (ui_id target)) force preferred) (Ok rows) ∈ tr
      ∧ recorded (invoice_facts target creator_hash) rows c.

Definition invoice_credit (tr : ulog) (cr : Credit) : Prop :=
  match cr with
  | InvoiceCredit target creator_hash payment t =>
      ∃ destination context c,
        Ev (FindInvoice creator_id (ur_payment_request_id record) bundle_hash) (Ok (Some target)) ∈ tr
        ∧ invoice_context crypto from_bytes creator record target = Ok (Some (creator_hash, payment, destination, context))
        ∧ invoice_source tr target creator_hash context c
        ∧ vt_sender t ∈ pc_senders c ∧ shown (node_log tr) context (pc_hash c) (pc_index c) t
  | SettlementCredit _ _ _ => False
  end.

Lemma invoice_source_mono tr tr' target creator_hash context c :
  invoice_source tr target creator_hash context c → invoice_source (tr ++ tr') target creator_hash context c.
Proof.
  intros [(scan & H & ?)|[?|(f & p & rows & H & ?)]].
  - left. exists scan. rewrite elem_of_app. auto.
  - by right; left.
  - right. right. exists f, p, rows. rewrite elem_of_app. auto.
Qed.

Lemma invoice_credit_mono tr tr' cr : invoice_credit tr cr → invoice_credit (tr ++ tr')%list cr.
Proof.
  destruct cr as [target ch payment t|]; [|done]. intros (d & context & c & H1 & H2 & H3 & H4 & H5).
  exists d, context, c. split_and!; [rewrite elem_of_app; by left|done|by apply invoice_source_mono|done|].
  eapply transfer_shown_incl; [|exact H5]. intros ev. rewrite node_log_app, elem_of_app. by left.
Qed.

Lemma add_scanned_elem candidates scanned c :
  c ∈ add_scanned candidates scanned → c ∈ candidates ∨ c ∈ scanned.
Proof.
  revert candidates. induction scanned as [|x scanned IH]; intros candidates; simpl; [by left|].
  rewrite elem_of_cons. case_match; [by left|]. case_match.
  - intros [?|?]%IH; auto.
  - intros [[?|?%list_elem_of_singleton]%elem_of_app|?]%IH; auto.
Qed.

Notation justified := (credits_justified invoice_credit).

Lemma credit_free_justified tr0 tr : justified tr0 → credit_free tr0 tr → justified tr.
Proof. intros H (tr' & -> & Hn). by apply justified_app; [apply invoice_credit_mono|..]. Qed.

Lemma runs_observe_usdt_request :
  all_runs (observe_usdt_request crypto from_bytes from_slice from_unix_timestamp creator_id creator record bundle)
    (λ tr _, justified tr) [].
Proof.
  unfold observe_usdt_request. assert (justified []) as H0 by by intros ?? ?%not_elem_of_nil. case_match; [done|].
  apply all_runs_try. cbn [call all_runs app]. intros found. set (e1 := Ev _ found).
  assert (credit_free [] [e1]) as Hq1 by by apply (credit_free_last [] []); [apply credit_free_refl|].
  destruct found as [[target|]|e]; [|by eapply credit_free_justified..].
  apply runs_pure; [|by intros; eapply credit_free_justified].
  intros [[[[creator_hash payment] destination] context]|] Hctx; [|by eapply credit_free_justified].
  cbn [prog_bind call all_runs]. intros scan. set (e2 := Ev _ scan).
  assert (credit_free [] ([e1] ++ [e2])) as Hq2 by by apply credit_free_last. apply all_runs_try.
  eapply (all_runs_mono _ (λ tr res, credit_free ([e1] ++ [e2]) tr ∧ match res with
       | Ok cs => ∀ c, c ∈ cs → invoice_source tr target creator_hash context c
       | Err _ => True end)); last first.
  { case_match; [|split; [apply credit_free_refl|by intros ? ?%not_elem_of_nil]].
    eapply all_runs_mono; [|by apply runs_owned_usdt_candidates, credit_free_refl]. intros tr res [Hq Hres]. split; [done|].
    destruct res; [|done]. intros c Hc. right. destruct (Hres c Hc) as [?|(p & rows & ? & ?)]; [by left|].
    right. by eexists _, p, rows. }
  intros tr [owned|e] [Hq3 Hown]; [|by eapply credit_free_justified, credit_free_trans].
  pose proof (credit_free_trans _ _ _ Hq2 Hq3) as Hq. apply all_runs_try.
  set (candidates := match scan with Some scan => _ | None => _ end).
  assert (∀ c, c ∈ candidates → invoice_source tr target creator_hash context c) as Hsrc.
  { intros c Hc. unfold candidates in Hc. destruct scan as [scan|]; [|by apply Hown].
    apply add_scanned_elem in Hc as [?|Hc]; [by apply Hown|]. left. exists scan. split; [|done].
    eapply credit_free_elem; [exact Hq3|]. apply last_elem. }
  eapply (all_runs_mono _ (λ tr2 _, justified tr2 ∧ ∃ tr3, tr2 = (tr ++ tr3)%list)); last first.
  { rewrite <- (app_nil_r tr) at 1. eapply (runs_examine context (invoice_source tr target creator_hash context) invoice_credit
      (λ t, InvoiceCredit target creator_hash payment t) invoice_credit_mono _ _ _ (λ t, ApplyReceipt target creator_hash payment t)
      (λ hash, ClearReceipt target creator_hash payment hash) tr); [done|done| |done|].
    - intros c tr' t Hs Hsender Hshown. exists destination, context, c. split_and!; try done.
      + apply elem_of_app. left. eapply credit_free_elem; [exact Hq3|]. apply elem_of_app. left. by apply list_elem_of_singleton.
      + by apply invoice_source_mono.
    - rewrite app_nil_r. by eapply credit_free_justified. }
  intros tr1 res [Hj _]. destruct res as [observed|e]; [|done].
  assert (∀ tr2, justified tr2 → all_runs
    (if is_some bundle then selected ←? call (SelectedReceipt target creator_hash (pd_required_amount destination));
                            Ret (fresh_status selected observed)
     else Ret (Ok tt)) (λ tr _, justified tr) tr2) as Hend.
  { intros tr2 Hj2. case_match; [|done]. apply all_runs_try. cbn [call all_runs]. intros selected.
    assert (justified (tr2 ++ [Ev (SelectedReceipt target creator_hash (pd_required_amount destination)) selected])) as Hj3
      by by apply justified_last; [apply invoice_credit_mono|..]. by destruct selected. }
  unfold finish. destruct scan as [scan|]; cbn [prog_bind call all_runs]; [|by apply Hend].
  intros []. apply Hend. by apply justified_last; [apply invoice_credit_mono|..].
Qed.
End invoice.

(** ** Settlements *)

Section settlement.
Context (creator_id : RowId) (creator : CreatorPubky) (record : UsdtRequest).
Notation proofs := (ur_payment_proofs record).

Definition settlement_source (tr : ulog) (target : UsdtTarget) (creator_hash : string) (context : PaymentContext)
    (c : PaymentCandidate) : Prop :=
  (∃ scan, Ev (NextScan context proofs) (Some scan) ∈ tr ∧ c ∈ sn_candidates scan)
  ∨ ∃ rows, Ev (OwnedReceipts (OwnerPreparation (tg_preparation_id target)) false None) (Ok rows) ∈ tr
      ∧ recorded (market_usdt_facts crypto creator_hash (tg_preparation_id target)) rows c.

Definition settlement_credit (tr : ulog) (cr : Credit) : Prop :=
  match cr with
  | InvoiceCredit _ _ _ _ => False
  | SettlementCredit target creator_hash t =>
      ∃ context c,
        Ev (FindSettlement creator_id (ur_payment_request_id record)) (Ok (Some target)) ∈ tr
        ∧ settlement_context crypto creator record target = Ok (Some (creator_hash, context))
        ∧ settlement_source tr target creator_hash context c
        ∧ vt_sender t ∈ pc_senders c ∧ shown (node_log tr) context (pc_hash c) (pc_index c) t
  end.

Lemma settlement_source_mono tr tr' target creator_hash context c :
  settlement_source tr target creator_hash context c → settlement_source (tr ++ tr') target creator_hash context c.
Proof.
  intros [(scan & H & ?)|(rows & H & ?)].
  - left. exists scan. rewrite elem_of_app. auto.
  - right. exists rows. rewrite elem_of_app. auto.
Qed.

Lemma settlement_credit_mono tr tr' cr : settlement_credit tr cr → settlement_credit (tr ++ tr')%list cr.
Proof.
  destruct cr as [|target ch t]; [done|]. intros (context & c & H1 & H2 & H3 & H4 & H5).
  exists context, c. split_and!; [rewrite elem_of_app; by left|done|by apply settlement_source_mono|done|].
  eapply transfer_shown_incl; [|exact H5]. intros ev. rewrite node_log_app, elem_of_app. by left.
Qed.

Lemma runs_settlement_candidates id creator_hash all tr0 rows candidates tr :
  (∀ kv, kv ∈ rows → kv ∈ all) →
  (∀ c, c ∈ candidates → recorded (market_usdt_facts crypto creator_hash id) all c) → credit_free tr0 tr →
  all_runs (settlement_candidates crypto id creator_hash rows candidates)
    (λ tr res, credit_free tr0 tr ∧ match res with
       | Ok cs => ∀ c, c ∈ cs → recorded (market_usdt_facts crypto creator_hash id) all c
       | Err _ => True end) tr.
Proof.
  revert candidates tr. induction rows as [|[rid row] rows IH]; intros candidates tr Hall Hc Hq; [done|].
  assert (∀ kv, kv ∈ rows → kv ∈ all) as Hall' by (intros; apply Hall, elem_of_cons; auto).
  assert ((rid, row) ∈ all) as Hrow by (apply Hall, elem_of_cons; auto).
  cbn [settlement_candidates]. apply runs_pure; [|done]. intros [facts [sender|]] Hf.
  - apply runs_pure; [|done]. intros c Hm%map_err_ok. apply IH; [done| |done].
    intros c' [?| ->%list_elem_of_singleton]%elem_of_app; [auto|]. exists rid, row, facts, sender. by split_and!.
  - apply all_runs_try. cbn [call all_runs]. intros cleared.
    assert (credit_free tr0 (tr ++ [Ev (ClearSettlementReceipt id (usdt_transfer_lookup_hash crypto (tf_identity facts))) cleared]))
      as Hq' by by apply credit_free_last.
    destruct cleared; [by apply IH|by cbn].
Qed.

Notation justified := (credits_justified settlement_credit).

Lemma settlement_credit_free_justified tr0 tr : justified tr0 → credit_free tr0 tr → justified tr.
Proof. intros H (tr' & -> & Hn). by apply justified_app; [apply settlement_credit_mono|..]. Qed.

Lemma runs_observe_settlement_usdt_request :
  all_runs (observe_settlement_usdt_request crypto from_slice from_unix_timestamp creator_id creator record)
    (λ tr _, justified tr) [].
Proof.
  unfold observe_settlement_usdt_request. assert (justified []) as H0 by by intros ?? ?%not_elem_of_nil. case_match; [done|].
  apply all_runs_try. cbn [call all_runs app]. intros found. set (e1 := Ev _ found).
  assert (credit_free [] [e1]) as Hq1 by by apply (credit_free_last [] []); [apply credit_free_refl|].
  destruct found as [[target|]|e]; [|by eapply settlement_credit_free_justified..].
  apply runs_pure; [|by intros; eapply settlement_credit_free_justified].
  intros [[creator_hash context]|] Hctx; [|by eapply settlement_credit_free_justified].
  cbn [prog_bind call all_runs]. intros scan. set (e2 := Ev _ scan).
  assert (credit_free [] ([e1] ++ [e2])) as Hq2 by by apply credit_free_last. apply all_runs_try.
  eapply (all_runs_mono _ (λ tr res, credit_free ([e1] ++ [e2]) tr ∧ match res with
       | Ok cs => ∀ c, c ∈ cs → settlement_source tr target creator_hash context c
       | Err _ => True end)); last first.
  { destruct scan as [scan|].
    { split; [apply credit_free_refl|]. intros c Hc. left. exists scan. split; [apply last_elem|done]. }
    apply all_runs_try. cbn [call all_runs]. intros rows. set (e3 := Ev _ rows).
    assert (credit_free ([e1] ++ [e2]) (([e1] ++ [e2]) ++ [e3])) as Hq3 by by apply credit_free_last; [apply credit_free_refl|].
    destruct rows as [rows|]; [|done].
    eapply all_runs_mono; [|apply (runs_settlement_candidates _ _ rows (([e1] ++ [e2]) ++ [e3]));
      [done|by intros ? ?%not_elem_of_nil|apply credit_free_refl]].
    intros tr res [Hq4 Hres]. split; [by eapply credit_free_trans|]. destruct res; [|done]. intros c Hc. right. exists rows.
    split; [|by apply Hres]. eapply credit_free_elem; [exact Hq4|]. apply last_elem. }
  intros tr [candidates|e] [Hq3 Hsrc]; [|by eapply settlement_credit_free_justified, credit_free_trans].
  pose proof (credit_free_trans _ _ _ Hq2 Hq3) as Hq. apply all_runs_try.
  eapply (all_runs_mono _ (λ tr2 _, justified tr2 ∧ ∃ tr3, tr2 = (tr ++ tr3)%list)); last first.
  { rewrite <- (app_nil_r tr) at 1. eapply (runs_examine context (settlement_source tr target creator_hash context) settlement_credit
      (λ t, SettlementCredit target creator_hash t) settlement_credit_mono _ _ _ (λ t, ApplySettlementReceipt target creator_hash t)
      (λ hash, ClearSettlementReceipt (tg_preparation_id target) hash) tr); [done|done| |done|].
    - intros c tr' t Hs Hsender Hshown. exists context, c. split_and!; try done.
      + apply elem_of_app. left. eapply credit_free_elem; [exact Hq3|]. apply elem_of_app. left. by apply list_elem_of_singleton.
      + by apply settlement_source_mono.
    - rewrite app_nil_r. by eapply settlement_credit_free_justified. }
  intros tr1 res [Hj _]. destruct res as [observed|e]; [|done].
  unfold finish. destruct scan as [scan|]; cbn [prog_bind call all_runs]; [|done].
  intros []. by apply justified_last; [apply settlement_credit_mono|..].
Qed.
End settlement.

(** ** The contract of the schedule *)

Lemma window_elem candidates cursor c : c ∈ window candidates cursor → c ∈ candidates.
Proof.
  unfold window. destruct (length candidates); [by intros ?%not_elem_of_nil|].
  intros (o & _ & H)%list_elem_of_omap. by eapply list_elem_of_lookup_2.
Qed.

Lemma from_observation_inv identity sender c :
  from_observation identity sender = Ok c →
  identity = transfer_identity (pc_hash c) (pc_index c) ∧ pc_senders c = [sender].
Proof.
  unfold from_observation. destruct (split_parts _ _) as [|a [|b [|d [|]]]]; try done.
  intros (u & _ & H)%bind_ok. clear u. apply bind_ok in H as (text & _ & H). apply bind_ok in H as (h & _ & H).
  apply bind_ok in H as (i & _ & H). apply bind_ok in H as (u & He%ensure_ok%String.eqb_eq & [= <-]). done.
Qed.
End credit.

Section schedule.
Context {alloy : Alloy} {secp : Secp256k1} {laws : AlloyLaws}.
Context (hash_context : string * string * string * string * UsdtAddress → Z)
  (hash_bindings : list (string * string * string * option string * option string * list (string * Value)) → Z).

Lemma scan_proven iter context proofs now cache scan c :
  (payment_scan_at hash_context hash_bindings iter context proofs now cache).1 = Some scan → c ∈ sn_candidates scan →
  proven context proofs c.
Proof.
  unfold payment_scan_at. case_match; [done|].
  destruct proofs as [|p proofs]; [by intros [= <-] ?%not_elem_of_nil|]. cbv zeta. set (all := p :: proofs) in *. clearbody all.
  destruct (make_room _ _ _ _) as [cache'|]; [|by intros [= <-] ?%not_elem_of_nil].
  case_match; [by intros [= <-] ?%not_elem_of_nil|]. destruct (from_proofs context all) as [m|] eqn:Em; [|done].
  intros [= <-] Hc%window_elem. by exists m.
Qed.

Lemma proven_attests context proofs c sender :
  proven context proofs c → sender ∈ pc_senders c →
  ∃ proof, proof ∈ proofs ∧ attests context (pc_hash c) (pc_index c) sender proof.
Proof.
  intros (m & Hm & Hc) Hs. apply list_elem_of_fmap in Hc as ([k c'] & -> & Hin). simpl in *.
  apply from_proofs_exact in Hm as [_ He].
  destruct (proj1 (He (pc_hash c') (pc_index c') sender)) as (r & p & Hr & Hp); [by exists k, c'|].
  exists r. split; [done|]. by eapply parse_proof_attests.
Qed.

(** Scans are answered by the schedule of [UsdtScan], in whatever state it is. *)
Class ScanHandler {S} (h : ∀ X, UsdtCall X → S → X * S) :=
  handle_scan context proofs s scan :
    (h _ (NextScan context proofs) s).1 = Some scan →
    ∃ iter now cache, (payment_scan_at hash_context hash_bindings iter context proofs now cache).1 = Some scan.

Lemma scheduled_proven {S A} (h : ∀ X, UsdtCall X → S → X * S) `{!ScanHandler h} (p : prog UsdtCall A) s res s' tr
    context proofs scan c :
  exec h p s = (res, s', tr) → Ev (NextScan context proofs) (Some scan) ∈ tr → c ∈ sn_candidates scan →
  proven context proofs c.
Proof.
  intros Hx Hin Hc. assert (PreOrder (λ _ _ : S, True)) as Hpre by done.
  destruct (exec_related (λ _ _, True) h p s res s' tr) as [_ Hev]; [done|done|].
  destruct (Hev _ Hin) as (s0 & s1 & _ & Ha & _). simpl in Ha.
  destruct (handle_scan context proofs s0 scan) as (iter & now & cache & Hs); [by rewrite Ha|]. by eapply scan_proven.
Qed.

Context {core : LocksCore} {lib : PaykitLib} {prim : CryptoPrimitives} {codec : ObservationCodec}
  {preparations_codec : PreparationCodec} (crypto : Crypto).
Context (from_bytes : string → option DeliveryIntentV1).
Context (from_slice : string → option Value) (from_unix_timestamp : Z → option Z).

(** The account [sender] of the transfer is attested: by a proof of this request, or by the
    sender sealed with a receipt of the same transfer the owner already has. *)
Definition sender_attested (context : PaymentContext) (proofs : list PaymentProofRecord)
    (decode : RowId → UsdtRow → result PersistenceError (TransferFacts * option string)) (owned : list (RowId * UsdtRow) → Prop)
    (hash : string) (index : Z) (sender : string) : Prop :=
  (∃ proof, proof ∈ proofs ∧ attests context hash index sender proof)
  ∨ ∃ rows id row facts, owned rows ∧ (id, row) ∈ rows ∧ decode id row = Ok (facts, Some sender)
      ∧ tf_identity facts = transfer_identity hash index.

Lemma recorded_attested context proofs decode (owned : list (RowId * UsdtRow) → Prop) rows c sender :
  owned rows → recorded decode rows c → sender ∈ pc_senders c →
  sender_attested context proofs decode owned (pc_hash c) (pc_index c) sender.
Proof.
  intros Ho (id & row & facts & s & Hin & Hd & Hc) Hs. apply from_observation_inv in Hc as [Hi Hsend].
  rewrite Hsend in Hs. apply list_elem_of_singleton in Hs as ->. right. by exists rows, id, row, facts.
Qed.

(** C16: an invoice is credited with a USDT receipt only when everything fits: it is the invoice of
    the reported Payment Request, of this Creator and sealed for this Reader; the node showed in
    this run the transfer of a positive amount of USDT to the invoice's own address; and the paying
    account signed for exactly this request - payer, payee, request, reference, transaction and log -
    in one of its proofs, or is the one sealed with the receipt when it was first recorded.  The
    observation of invoices credits no settlement. *)
Theorem usdt_credit_attested {S} (h : ∀ X, UsdtCall X → S → X * S) `{!ScanHandler h}
    creator_id creator record bundle s res s' tr :
  exec h (observe_usdt_request crypto from_bytes from_slice from_unix_timestamp creator_id creator record bundle) s
    = (res, s', tr) →
  ∀ ev cr, ev ∈ tr → credited ev = Some cr →
    ∃ target creator_hash payment t destination context hash index,
      cr = InvoiceCredit target creator_hash payment t
      ∧ Ev (FindInvoice creator_id (ur_payment_request_id record)
              ((λ id, lookup_hash crypto (bundle_to_string id)) <$> bundle)) (Ok (Some target)) ∈ tr
      ∧ invoice_context crypto from_bytes creator record target = Ok (Some (creator_hash, payment, destination, context))
      ∧ transfer_shown from_slice from_unix_timestamp (node_log tr) context hash index t
      ∧ sender_attested context (ur_payment_proofs record)
          (λ id row, transfer_facts crypto id (ui_id target) creator_hash (us_envelope row) (us_transfer_lookup_hash row))
          (λ rows, ∃ force preferred, Ev (OwnedReceipts (OwnerInvoice (ui_id target)) force preferred) (Ok rows) ∈ tr)
          hash index (vt_sender t).
Proof.
  intros Hx ev cr Hin Hc.
  pose proof (exec_all_runs _ _ _ _ _ _ _ (runs_observe_usdt_request crypto from_bytes from_slice from_unix_timestamp
    creator_id creator record bundle) Hx ev cr Hin Hc) as Hcr.
  destruct cr as [target creator_hash payment t|]; [|done].
  destruct Hcr as (destination & context & c & Hfind & Hctx & Hsrc & Hs & Hshown).
  exists target, creator_hash, payment, t, destination, context, (pc_hash c), (pc_index c). split_and!; try done.
  destruct Hsrc as [(scan & Hscan & Hc')|[Hp|(f & pref & rows & Hrows & Hr)]].
  - left. eapply proven_attests; [|done]. by eapply scheduled_proven.
  - left. by eapply proven_attests.
  - eapply recorded_attested; [|done|done]. by exists f, pref.
Qed.

(** a Marketplace settlement is credited with a USDT receipt under the same conditions: it is the
    active settlement of the reported Payment Request, the node showed the transfer to the address
    of its payment record in this run, and the paying account attested this request or is sealed
    with the receipt; the observation of settlements credits no invoice. *)
Theorem settlement_usdt_credit_attested {S} (h : ∀ X, UsdtCall X → S → X * S) `{!ScanHandler h}
    creator_id creator record s res s' tr :
  exec h (observe_settlement_usdt_request crypto from_slice from_unix_timestamp creator_id creator record) s
    = (res, s', tr) →
  ∀ ev cr, ev ∈ tr → credited ev = Some cr →
    ∃ target creator_hash t context hash index,
      cr = SettlementCredit target creator_hash t
      ∧ Ev (FindSettlement creator_id (ur_payment_request_id record)) (Ok (Some target)) ∈ tr
      ∧ settlement_context crypto creator record target = Ok (Some (creator_hash, context))
      ∧ transfer_shown from_slice from_unix_timestamp (node_log tr) context hash index t
      ∧ sender_attested context (ur_payment_proofs record)
          (market_usdt_facts crypto creator_hash (tg_preparation_id target))
          (λ rows, Ev (OwnedReceipts (OwnerPreparation (tg_preparation_id target)) false None) (Ok rows) ∈ tr)
          hash index (vt_sender t).
Proof.
  intros Hx ev cr Hin Hc.
  pose proof (exec_all_runs _ _ _ _ _ _ _ (runs_observe_settlement_usdt_request crypto from_slice from_unix_timestamp
    creator_id creator record) Hx ev cr Hin Hc) as Hcr.
  destruct cr as [|target creator_hash t]; [done|].
  destruct Hcr as (context & c & Hfind & Hctx & Hsrc & Hs & Hshown).
  exists target, creator_hash, t, context, (pc_hash c), (pc_index c). split_and!; try done.
  destruct Hsrc as [(scan & Hscan & Hc')|(rows & Hrows & Hr)].
  - left. eapply proven_attests; [|done]. by eapply scheduled_proven.
  - by eapply recorded_attested.
Qed.
End schedule.
