(* ===== verification/UsdtSystem.v ===== *)
(** * UsdtSystem: the USDT observers on the tables

    The calls of [UsdtObserve] answered by the statements of the stores, the schedule of
    [UsdtScan] and an arbitrary node, with arbitrary other transactions of the server between any
    two of them.  The theorem: whatever the observers do, the payment tables and the Marketplace
    tables stay consistent and nothing recorded is undone; the schedule's contract with the
    observers ([ScanHandler]) holds. *)

From S2P Require Import Prelude Text Effects Locks Invoice Receiving Payment Lifecycle Pricing Intent Readers Database OutboxStore CreateInvoice PaymentRecord Crypto Observations Settlement LifecycleStore Drains DrainProps Status Adapter Creators Allocation Allocated AllocationProps Targets Provider MarketTerms MarketStore MarketObserve MarketProps Sorting Usdt UsdtVerified UsdtScan UsdtObserve UsdtCredit.
Local Open Scope string_scope.
Local Open Scope Z_scope.

Record UsdtWorld := mk_UsdtWorld {
  uw_db : MarketDb;
  uw_cache : ScanCache;
  uw_tip : option (Z * ChainTip);
}.

Definition set_uw_db (w : UsdtWorld) (md : MarketDb) : UsdtWorld := mk_UsdtWorld md (uw_cache w) (uw_tip w).

Definition set_uw_pay (w : UsdtWorld) (pay : PaymentDb) : UsdtWorld := set_uw_db w (set_mm_pay (uw_db w) pay).

Section system.
Context {core : LocksCore} {lib : PaykitLib} {prim : CryptoPrimitives} {codec : ObservationCodec} (crypto : Crypto).
Context {alloy : Alloy} {secp : Secp256k1}.
Context (hash_context : string * string * string * string * UsdtAddress → Z)
  (hash_bindings : list (string * string * string * option string * option string * list (string * Value)) → Z).
(** The database's clock, the server's clock, the monotonic clock, fresh identifiers and nonces,
    the iteration order and the node, as they are at a call. *)
Context (db_now offset_now instant : UsdtWorld → Z) (fresh : UsdtWorld → RowId) (nonce : UsdtWorld → string)
  (iter : gmap Z ScanState → list (Z * ScanState)) (node : UsdtWorld → Value → option HttpResponse).
(** What everything else does before a call. *)
Context (environment : UsdtWorld → UsdtWorld).

Definition node_handler {X} (e : RpcCall X) (w : UsdtWorld) : X * UsdtWorld :=
  match e with
  | LockTip => (uw_tip w, w)
  | StoreTip tip => (tt, mk_UsdtWorld (uw_db w) (uw_cache w) tip)
  | InstantNow => (instant w, w)
  | Post body => (node w body, w)
  end.

(** A transaction: an error leaves the tables as they were. *)
Definition commits {A} (w : UsdtWorld) (r : result PersistenceError (A * MarketDb)) : result PersistenceError A * UsdtWorld :=
  match r with
  | Ok (a, md) => (Ok a, set_uw_db w md)
  | Err e => (Err e, w)
  end.

Definition commits_pay {A} (w : UsdtWorld) (r : result PersistenceError (A * PaymentDb)) : result PersistenceError A * UsdtWorld :=
  commits w ((λ ap : A * PaymentDb, (ap.1, set_mm_pay (uw_db w) ap.2)) <$> r).

Definition usdt_handler (X : Type) (e : UsdtCall X) (w0 : UsdtWorld) : X * UsdtWorld :=
  let w := environment w0 in
  let md := uw_db w in
  match e with
  | FindInvoice creator_id request_id bundle_hash => (Ok (invoice_target md creator_id request_id bundle_hash), w)
  | FindSettlement creator_id request_id => (Ok (settlement_target md creator_id request_id), w)
  | SelectedReceipt target creator_hash required =>
      (usdt_payment crypto (mm_pay md) (ui_columns target) (ui_id target) creator_hash required, w)
  | OwnedReceipts owner force preferred => (Ok (owned_receipts (mm_pay md) owner force preferred (db_now w)), w)
  | ExistingReceipt hash recent owner => (Ok (existing_receipt (mm_pay md) hash recent owner (db_now w)), w)
  | ReserveReceipt owner hash force =>
      let r := reserve_receipt (mm_pay md) owner hash force (db_now w) in (Ok r.1, set_uw_pay w r.2)
  | ApplyReceipt target creator_hash payment transfer =>
      commits_pay w (apply_usdt_transfer crypto (mm_pay md) (fresh w) (nonce w) (ui_id target) creator_hash payment
                       transfer (db_now w) (offset_now w))
  | ClearReceipt target creator_hash payment hash =>
      commits_pay w (pair tt <$> clear_usdt_transfer crypto (mm_pay md) (ui_id target) creator_hash payment hash
                                   (db_now w) (offset_now w))
  | ApplySettlementReceipt target creator_hash transfer =>
      commits w (market_apply_usdt crypto md (fresh w) (nonce w) (tg_preparation_id target) creator_hash transfer (db_now w))
  | ClearSettlementReceipt id hash => commits w (pair tt <$> market_clear_usdt md id hash (db_now w))
  | NextScan context proofs =>
      let r := payment_scan_at hash_context hash_bindings iter context proofs (instant w) (uw_cache w) in
      (r.1, mk_UsdtWorld md r.2 (uw_tip w))
  | FinishScan scan all_observed =>
      (tt, mk_UsdtWorld md (finish_payment_scan scan all_observed (instant w) (uw_cache w)) (uw_tip w))
  | Node e => node_handler e w
  end.

#[export] Instance usdt_handler_scans : ScanHandler hash_context hash_bindings usdt_handler.
Proof. intros context proofs w scan H. simpl in H. by eexists _, _, _. Qed.

(** ** What the statements keep *)

(** Consistent tables stay consistent and no recorded payment is undone. *)
Definition keeps_tables (md md' : MarketDb) : Prop :=
  (db_wf (mm_pay md) → db_wf (mm_pay md') ∧ db_extends (mm_pay md) (mm_pay md')) ∧ (market_wf md → market_wf md').

#[local] Instance keeps_tables_preorder : PreOrder keeps_tables.
Proof.
  split; [by split|]. intros a b c [Hab Mab] [Hbc Mbc]. split; [|by auto].
  intros Ha. destruct (Hab Ha) as [Hb Eab]. eapply extends_step; [exact Eab|auto].
Qed.

Lemma mm_pay_set md pay : mm_pay (set_mm_pay md pay) = pay.
Proof. done. Qed.

Lemma keeps_pay md pay :
  (db_wf (mm_pay md) → db_wf pay ∧ db_extends (mm_pay md) pay) → keeps_tables md (set_mm_pay md pay).
Proof.
  intros H. split; [by rewrite mm_pay_set|]. intros W. eapply frame_wf; [|done].
  apply observes_frame; [done|apply set_mm_pay_observes].
Qed.

Lemma reserve_receipt_wf db owner hash force now :
  db_wf db → db_wf (reserve_receipt db owner hash force now).2 ∧ db_extends db (reserve_receipt db owner hash force now).2.
Proof.
  apply map_receipts_wf. intros r. destruct (reserves owner hash force now r) eqn:E; [|done].
  unfold reserves in E. split_bools. unfold same_receipt; simpl. split_and!; [done..|congruence].
Qed.

Lemma market_clear_usdt_keeps md id hash now md' : market_clear_usdt md id hash now = Ok md' → keeps_tables md md'.
Proof.
  unfold market_clear_usdt. intros (u & _ & [= <-])%bind_ok. apply keeps_pay.
  apply map_receipts_wf. intros r. case_match eqn:E; [|done]. split_bools.
  unfold same_receipt; simpl. split_and!; [done..|congruence].
Qed.

Lemma market_apply_usdt_keeps md new nonce_ id creator_hash transfer now b md' :
  market_apply_usdt crypto md new nonce_ id creator_hash transfer now = Ok (b, md') → keeps_tables md md'.
Proof.
  unfold market_apply_usdt. set (hash := usdt_transfer_lookup_hash crypto _). intros (u & _ & H)%bind_ok. clear u. cbv zeta in H.
  destruct (select_one _ (t_usdt (mm_pay md))) as [[rid old]|] eqn:Hsel.
  - pose proof (select_one_some _ _ _ _ Hsel) as [Hold Hh%String.eqb_eq].
    destruct (negb (owned_by id (us_marketplace_preparation_id old)) || us_finalized old) eqn:Hskip;
      [injection H as _ <-; reflexivity|].
    apply orb_false_iff in Hskip as [Hown%negb_false_iff%owned_by_true Hfin].
    apply bind_ok in H as (envelope & _ & H). apply bind_ok in H as (u & _ & H). clear u.
    apply bind_ok in H as (u & _ & [= _ <-]). apply keeps_pay. intros Hwf. apply set_usdt_wf; [| |done].
    + intros i j r s Hi Hj Heq. destruct Hwf as (_ & _ & _ & _ & Hu).
      apply lookup_insert_Some in Hi as [[<- <-]|[Hni Hi]], Hj as [[<- <-]|[Hnj Hj]]; simpl in *;
        [done|apply (Hu rid j old s); congruence|apply (Hu i rid r old); congruence|by apply (Hu i j r s)].
    + eapply rows_kept_insert; [apply _|done|]. unfold same_receipt; simpl. split_and!; congruence.
  - apply bind_ok in H as (envelope & _ & H). apply bind_ok in H as (u & _ & H). clear u.
    apply bind_ok in H as (u & Hnew%ensure_ok & [= _ <-]). simpl in Hnew.
    assert (Hnone : t_usdt (mm_pay md) !! new = None) by (by destruct (t_usdt (mm_pay md) !! new)).
    assert (Hother : ∀ k r, t_usdt (mm_pay md) !! k = Some r → us_transfer_lookup_hash r ≠ hash).
    { intros k r Hk. by apply String.eqb_neq, (select_one_none _ _ Hsel k). }
    apply keeps_pay. intros Hwf. apply set_usdt_wf; [| |done].
    + intros i j r s Hi Hj Heq. destruct Hwf as (_ & _ & _ & _ & Hu).
      apply lookup_insert_Some in Hi as [[<- <-]|[Hni Hi]], Hj as [[<- <-]|[Hnj Hj]]; simpl in *;
        [done|by destruct (Hother _ _ Hj)|by destruct (Hother _ _ Hi)|by apply (Hu i j r s)].
    + apply rows_kept_insert_new; [apply _|done].
Qed.

Lemma usdt_handler_keeps X (e : UsdtCall X) w :
  keeps_tables (uw_db (environment w)) (uw_db (usdt_handler X e w).2).
Proof.
  destruct e as [| | | | |owner hash force|target creator_hash payment transfer|target creator_hash payment hash
    |target creator_hash transfer|id hash| | |X []]; try reflexivity; cbn [usdt_handler snd].
  - apply keeps_pay, reserve_receipt_wf.
  - unfold commits_pay. destruct (apply_usdt_transfer _ _ _ _ _ _ _ _ _ _) as [[b pay]|] eqn:E; [|reflexivity].
    apply keeps_pay. by eapply apply_usdt_transfer_wf.
  - unfold commits_pay. destruct (clear_usdt_transfer _ _ _ _ _ _ _ _) as [pay|] eqn:E; [|reflexivity].
    apply keeps_pay. by eapply clear_usdt_transfer_wf.
  - unfold commits. destruct (market_apply_usdt _ _ _ _ _ _ _ _) as [[b md']|] eqn:E; [|reflexivity].
    by eapply market_apply_usdt_keeps.
  - unfold commits. destruct (market_clear_usdt _ _ _ _) as [md'|] eqn:E; [|reflexivity].
    by eapply market_clear_usdt_keeps.
Qed.

(** a USDT observation, of invoices or of settlements, never breaks the tables.  In any run of any
    observer, with any answers of the node and any other consistent transactions of the server
    between its statements, consistent payment tables and Marketplace tables stay consistent: a
    transfer keeps its one owner, a finalized receipt is never rewritten, and no recorded evidence,
    timely match or contact is undone. *)
Theorem usdt_observation_consistent {A} (p : prog UsdtCall A) w res w' tr :
  (∀ w, keeps_tables (uw_db w) (uw_db (environment w))) →
  exec usdt_handler p w = (res, w', tr) → keeps_tables (uw_db w) (uw_db w').
Proof.
  intros Henv Hx.
  assert (PreOrder (λ w w', keeps_tables (uw_db w) (uw_db w'))) as Hpre
    by (split; [intros ?; reflexivity|intros ???; apply transitivity]).
  apply (exec_related (λ w w', keeps_tables (uw_db w) (uw_db w')) usdt_handler p w res w' tr); [|done].
  intros X e w1. etransitivity; [apply Henv|apply usdt_handler_keeps].
Qed.
End system.
