(* ===== verification/UsdtExample.v ===== *)
(** * UsdtExample: one paid request, end to end

    Concrete instances of the libraries the verifier uses, a node that knows one USDT transfer
    and a request whose proofs attest it: the hypotheses of the theorems of [UsdtVerified],
    [UsdtScan], [UsdtCredit] and [UsdtSystem] hold together. *)

From S2P Require Import Prelude Text Effects Locks Invoice Receiving Payment Lifecycle Pricing Intent Readers Database OutboxStore CreateInvoice PaymentRecord Crypto Observations Settlement LifecycleStore Drains DrainProps Status Adapter Creators Allocation Allocated AllocationProps Targets Provider MarketTerms MarketStore MarketObserve MarketProps Sorting Usdt UsdtVerified UsdtScan UsdtObserve UsdtCredit UsdtSystem.
Local Open Scope string_scope.
Local Open Scope Z_scope.

Module Example_usdt.

(** ** Hexadecimal texts *)

Fixpoint hex_bytes (s : string) : string :=
  match s with
  | EmptyString => EmptyString
  | String c s => String (hex_digit_char (byte c / 16)) (String (hex_digit_char (byte c mod 16)) (hex_bytes s))
  end.

Fixpoint read_bytes (s : string) : option string :=
  match s with
  | EmptyString => Some EmptyString
  | String a (String b s) =>
      if is_ascii_hexdigit a && is_ascii_hexdigit b
      then String (byte_char (hex_digit_value a * 16 + hex_digit_value b)) <$> read_bytes s else None
  | String _ EmptyString => None
  end.

Definition hex_text (s : string) : string := "0x" ++ hex_bytes s.

Definition read_text (n : nat) (s : string) : option string :=
  digits ← strip_prefix "0x" s;
  bytes ← read_bytes digits;
  if Nat.eqb (String.length bytes) n then Some bytes else None.

Definition digest_of_all : string := repeat_char "K" 32.

#[export] Instance example_alloy : Alloy := {|
  hex_decode s := strip_prefix "0x" s ≫= read_bytes;
  b256_from_str := read_text 32;
  address_from_str := read_text 20;
  b256_hex := hex_text;
  b256_json h := Str (hex_text h);
  into_word a := repeat_char (byte_char 0) 12 ++ a;
  keccak256 _ := digest_of_all;
  eip712_signing_hash _ _ _ _ := digest_of_all;
|}.

#[export] Instance example_secp : Secp256k1 := {|
  RecoverableSignature := unit;
  Signature := unit;
  PublicKey := unit;
  signature_eqb _ _ := true;
  from_compact _ _ := Some tt;
  to_standard _ := tt;
  normalize_s _ := tt;
  recover_ecdsa _ _ := Some tt;
  serialize_uncompressed _ := repeat_char "P" 65;
|}.

Lemma read_hex_byte c :
  let a := hex_digit_char (byte c / 16) in
  let b := hex_digit_char (byte c mod 16) in
  is_lower_hexdigit a = true ∧ is_lower_hexdigit b = true ∧ is_ascii_hexdigit a && is_ascii_hexdigit b = true
  ∧ byte_char (hex_digit_value a * 16 + hex_digit_value b) = c.
Proof. destruct c as [[] [] [] [] [] [] [] []]; vm_compute; done. Qed.

Lemma read_hex_bytes s : read_bytes (hex_bytes s) = Some s.
Proof.
  induction s as [|c s IH]; [done|]. cbn [hex_bytes read_bytes].
  destruct (read_hex_byte c) as (_ & _ & -> & ->). by rewrite IH.
Qed.

Lemma hex_bytes_lower s : all_bytes is_lower_hexdigit (hex_bytes s) = true.
Proof.
  induction s as [|c s IH]; [done|]. cbn [hex_bytes all_bytes]. destruct (read_hex_byte c) as (-> & -> & _). by rewrite IH.
Qed.

Lemma hex_bytes_length s : String.length (hex_bytes s) = (2 * String.length s)%nat.
Proof. induction s as [|c s IH]; simpl; [done|]. rewrite IH. lia. Qed.

#[export] Instance example_alloy_laws : AlloyLaws.
Proof.
  split.
  - intros h Hh. apply canonical_hex_ok. cbn [b256_hex example_alloy]. split_and!; [done| |done|apply hex_bytes_lower].
    unfold hex_text. rewrite str_len_app. unfold str_len. rewrite hex_bytes_length, Hh. done.
  - intros h Hh. cbn. rewrite read_hex_bytes. cbn. by rewrite Hh.
  - intros text h. cbn. unfold read_text. intros H. apply bind_Some in H as (d & _ & H).
    apply bind_Some in H as (b & _ & H). destruct (Nat.eqb (String.length b) 32) eqn:E; [|done]. injection H as <-.
    by apply Nat.eqb_eq.
Qed.

(** ** The node *)

Definition sender : string := repeat_char "K" 20.

Definition recipient_bytes : string := repeat_char "R" 20.

Definition hash : string := repeat_char "T" 32.

Definition block_hash : string := repeat_char "B" 32.

Definition word (n : Z) : string := repeat_char (byte_char 0) 30 ++ String (byte_char (n / 256)) (String (byte_char (n mod 256)) "").

Definition transfer_log : Value := Object
  [("address", Str USDT_TOKEN); ("blockHash", Str (hex_text block_hash)); ("data", Str (hex_text (word 700)));
   ("removed", Bool false);
   ("topics", Array [Str (hex_text digest_of_all); Str (hex_text (into_word sender)); Str (hex_text (into_word recipient_bytes))]);
   ("transactionHash", Str (hex_text hash))].

Definition answer (question : string) : Value :=
  if String.eqb question "eth_chainId" then Str "0xa4b1"
  else if String.eqb question "eth_blockNumber" then Str "0x6e"
  else if String.eqb question "finalized" then Object [("number", Str "0x60")]
  else if String.eqb question "eth_getTransactionReceipt" then
    Object [("blockHash", Str (hex_text block_hash)); ("blockNumber", Str "0x64"); ("logs", Array [transfer_log]);
            ("status", Str "0x1"); ("transactionHash", Str (hex_text hash))]
  else Object [("hash", Str (hex_text block_hash)); ("number", Str "0x64"); ("timestamp", Str "0x3e8")].

Definition from_slice (bytes : string) : option Value :=
  Some (Object [("id", Number (PosInt 1)); ("jsonrpc", Str "2.0"); ("result", answer bytes)]).

(** The answer to a post is named by its method, the finalized block by its tag. *)
Definition node (body : Value) : option HttpResponse :=
  let question := if value_eqb (item (field body "params") 0) (Str "finalized") then Some "finalized"
                  else json_str (field body "method") in
  Some (mk_HttpResponse true [question]).

Definition from_unix_timestamp (seconds : Z) : option Z := Some (seconds * 1000000000).

(** ** The request *)

Definition signature : string := "0x" ++ repeat_char "0" 128 ++ "1b".

Definition proof (tx : string) (index : string) : PaymentProofRecord :=
  mk_PaymentProofRecord PAYKIT_APP_ID USDT_ENDPOINT "7cceb26d" None None
    [("chain_id", Str USDT_CHAIN_ID); ("receipt_log_index", Str index); ("signature", Str signature);
     ("transaction_hash", Str (hex_text tx)); ("type", Str "erc20-transfer-eip712")].

Definition recipient : UsdtAddress := mk_UsdtAddress (hex_text recipient_bytes).

Definition context : PaymentContext := mk_PaymentContext "reader" "creator" "request" "7cceb26d" recipient.

Definition candidate : PaymentCandidate := mk_PaymentCandidate (transfer_identity hash 0) hash 0 [sender].

Definition rpc_handler (X : Type) (e : RpcCall X) (u : unit) : X * unit :=
  match e with
  | LockTip => (None, u)
  | StoreTip _ => (tt, u)
  | InstantNow => (0, u)
  | Post body => (node body, u)
  end.

Definition verified : VerifiedTransfer :=
  mk_VerifiedTransfer (transfer_identity hash 0) sender 700 1000000000000 11 false.

Definition verification := exec rpc_handler (verify_candidate from_slice from_unix_timestamp context candidate) tt.

End Example_usdt.

Export Example_usdt.

Lemma verified_transfer_sound_witness :
  verification.1.1 = Ok (Some verified)
  ∧ verdict_sound from_slice from_unix_timestamp context candidate verification.2 (Ok (Some verified)).
Proof.
  assert (verification.1.1 = Ok (Some verified)) as H by (vm_compute; reflexivity).
  split; [exact H|]. rewrite <- H.
  apply (verified_transfer_sound from_slice from_unix_timestamp rpc_handler context candidate tt _ verification.1.2).
  apply surjective_pairing_3.
Defined.

(** ** The schedule *)

Module Example_scan.
Definition hash_context (c : string * string * string * string * UsdtAddress) : Z :=
  let '(_, _, request_id, _, _) := c in str_len request_id.

Definition hash_bindings (l : list (string * string * string * option string * option string * list (string * Value))) : Z :=
  Z.of_nat (length l).

Definition iter : gmap Z ScanState → list (Z * ScanState) := map_to_list.

Lemma iteration : iter_ok iter.
Proof. by intros m. Qed.

(** Nine transfers: two windows. *)
Definition proofs : list PaymentProofRecord := proof hash <$> ["0"; "1"; "2"; "3"; "4"; "5"; "6"; "7"; "8"].

Definition other : PaymentContext := mk_PaymentContext "reader" "creator" "another request" "7cceb26d" recipient.

Definition second : Z := 1000000000.

Definition scan := payment_scan_at hash_context hash_bindings iter context proofs 0 ScanCache_default.

Definition ops : list ScanOp :=
  [OpScan iter other proofs (3 * second); OpFinish (mk_PaymentScan 7 9 [candidate]) true (4 * second);
   OpScan iter context proofs (15 * second)].

Definition candidates : Candidates := default [] (from_proofs context proofs).

Definition first_window : list PaymentCandidate := window (snd <$> candidates) 0.

Lemma sweep_paced : paced hash_context context proofs 0 0 ops.
Proof.
  cbn -[iter proofs SCAN_IDLE_TTL].
  change (str_len "another request" =? str_len "request") with false.
  change (str_len "request" =? str_len "request") with true. cbn -[iter proofs SCAN_IDLE_TTL].
  split_and!; try done; apply iteration.
Qed.
End Example_scan.

Lemma scan_cache_bounded_witness :
  rtc (scan_step Example_scan.hash_context Example_scan.hash_bindings) ScanCache_default Example_scan.scan.2
  ∧ cache_wf Example_scan.scan.2.
Proof.
  assert (rtc (scan_step Example_scan.hash_context Example_scan.hash_bindings) ScanCache_default Example_scan.scan.2) as H
    by (apply rtc_once, step_scan, Example_scan.iteration).
  split; [exact H|]. exact (scan_cache_bounded Example_scan.hash_context Example_scan.hash_bindings _ H).
Defined.

Lemma sweep_complete_hands_out_all_witness :
  Forall (λ c, c ∈ (Example_scan.first_window
                    ++ handed_out Example_scan.hash_context Example_scan.hash_bindings
                         (context_key Example_scan.hash_context context) Example_scan.scan.2 Example_scan.ops)%list)
    (snd <$> Example_scan.candidates).
Proof.
  apply Forall_forall.
  apply (sweep_complete_hands_out_all Example_scan.hash_context Example_scan.hash_bindings Example_scan.iter context
    Example_scan.proofs Example_scan.candidates ScanCache_default
    (mk_PaymentScan (context_key Example_scan.hash_context context)
       (proof_fingerprint Example_scan.hash_bindings Example_scan.proofs) Example_scan.first_window) Example_scan.scan.2 0).
  - exact Example_scan.iteration.
  - by split.
  - intros state H. done.
  - vm_compute. reflexivity.
  - vm_compute. reflexivity.
  - vm_compute. discriminate.
  - exact Example_scan.sweep_paced.
  - vm_compute. discriminate.
Defined.

(** ** The observers *)

Module Example_observed.
#[export] Existing Instance Example_core.example_core.
#[export] Existing Instance Example_lib.example_lib.

#[export] Instance primitives : CryptoPrimitives := {|
  hkdf_expand key label := Some (key ++ label);
  aead_encrypt _ _ aad msg := Some (Example_crypto.seal_clear aad msg);
  aead_decrypt := @aead_decrypt Example_crypto.example_primitives;
  hmac_sha256 _ _ := repeat_char "h" 32;
|}.

Definition crypto : Crypto := Example_crypto.example_crypto.

Definition nonce : string := repeat_char "n" 24.

Definition sealed (context : EnvelopeContext) (plaintext : string) : string :=
  match encrypt crypto nonce context plaintext with Ok s => s | Err _ => "" end.

Definition payment : InvoicePaymentRecordV1 :=
  mk_InvoicePaymentRecordV1 1 0 None (Some (mk_PaymentDestination (hex_text recipient_bytes) 700)).

#[export] Instance codec : ObservationCodec := {|
  encode_observation _ := "";
  decode_observation _ := None;
  decode_payment_record s := if String.eqb s "record" then Some payment else None;
  encode_transfer f sender := tf_identity f;
  take_transfer s := Some (mk_TransferFacts s 700 1000000000000, "");
  parse_outpoint _ := None;
|}.

Definition intent : DeliveryIntentV1 :=
  mk_DeliveryIntentV1 2 "pubkyreader" PAYKIT_APP_ID (PaymentRequestProposal Example_lib.example_terms).

Definition from_bytes (s : string) : option DeliveryIntentV1 := if String.eqb s "intent" then Some intent else None.

Definition creator : CreatorPubky := mk_CreatorPubky "pubkycreator".

Definition creator_hash : string := repeat_char "h" 32.

Definition columns : InvoiceColumns :=
  mk_InvoiceColumns 9 creator_hash "reader" (sealed (ctx_invoice_payment_record creator_hash 1) "record") None
    0 2000000000000.

(** One unpaid invoice of an accepted request. *)
Definition pay : PaymentDb := mk_PaymentDb
  {[1%N := mk_PaymentInvoice columns (mk_ProjectionColumns "undetected" 0 false None None None)]} ∅ ∅ ∅ ∅ ∅ ∅ ∅.

Definition db : Db :=
  mk_Db ∅ {[9%N := creator_hash]} {[1%N := mk_InvoiceRow 9 "lock" 1 2000000000000]} ∅ ∅
    {["request" := mk_LifecycleRow (Some 1%N) None Accepted]} ∅.

Definition md : MarketDb :=
  mk_MarketDb (mk_AccountDb (mk_DrainDb (mk_LifecycleDb db ∅ ∅ ∅ ∅) pay ∅ ∅ ∅ [] ∅) ∅ ∅
    {[1%N := mk_AllocationColumns "" (sealed (ctx_invoice creator_hash 1) "intent") "" 0 0 0 None]} ∅ ∅ ∅ ∅) ∅ ∅ ∅.

Definition world : UsdtWorld := mk_UsdtWorld md ScanCache_default None.

Definition request : UsdtRequest := mk_UsdtRequest (Some Payee) "request" "reader" [proof hash "0"].

Notation handler := (usdt_handler crypto Example_scan.hash_context Example_scan.hash_bindings
  (λ _, 5) (λ _, 5) (λ _, 5) (λ _, 5%N) (λ _, nonce) Example_scan.iter (λ _, node) id).

Definition run := exec handler (observe_usdt_request crypto from_bytes from_slice from_unix_timestamp 9 creator request None) world.

Definition target : UsdtInvoiceTarget := mk_UsdtInvoiceTarget 1 columns (sealed (ctx_invoice creator_hash 1) "intent").

Lemma credits : omap credited run.2 = [InvoiceCredit target creator_hash payment verified].
Proof. vm_compute. reflexivity. Qed.

Lemma pay_wf : db_wf pay.
Proof.
  split_and!.
  - split_and!; simpl; intros; done.
  - intros ? ? H. by apply elem_of_empty in H.
  - unfold pay; simpl. intros i row H. apply lookup_singleton_Some in H as [<- <-]. vm_compute. reflexivity.
  - split; simpl; intros; done.
  - simpl; intros ? ? ? ? H. done.
Qed.

(** The same request, of a Marketplace settlement. *)
Definition envelope : PreparationEnvelope :=
  mk_PreparationEnvelope 2 "operation" "binding" "reader" "7cceb26d" (mk_MarketplaceTerms 700 Btc [Accept_Btc]) 3600 1800
    100 200 3 intent.

#[export] Instance preparation_codec : PreparationCodec := {|
  preparation_to_bytes _ := None;
  preparation_from_bytes _ := Some envelope;
  preparation_v1_from_bytes _ := None;
|}.

Definition market_target : UsdtTarget :=
  mk_UsdtTarget 1 creator_hash (sealed (ctx_marketplace_settlement_payment_record creator_hash 1) "record")
    (mk_PreparationColumns "" "" "" (sealed (ctx_marketplace_preparation creator_hash 1) (String (byte_char 2) ""))
       100 200 None None None None).

Definition settlement_handler (X : Type) (e : UsdtCall X) (w : UsdtWorld) : X * UsdtWorld :=
  match e in UsdtCall X return X * UsdtWorld with
  | FindSettlement _ _ => (Ok (Some market_target), w)
  | ApplySettlementReceipt _ _ _ => (Ok true, w)
  | e => handler _ e w
  end.

#[export] Instance settlement_handler_scans :
  ScanHandler Example_scan.hash_context Example_scan.hash_bindings settlement_handler.
Proof. intros c proofs w scan H. simpl in H. by eexists _, _, _. Qed.

Definition settlement_run :=
  exec settlement_handler (observe_settlement_usdt_request crypto from_slice from_unix_timestamp 9 creator request) world.

Lemma settlement_credits : omap credited settlement_run.2 = [SettlementCredit market_target creator_hash verified].
Proof. vm_compute. reflexivity. Qed.

Lemma credited_event (tr : ulog) cr : omap credited tr = [cr] → ∃ ev, ev ∈ tr ∧ credited ev = Some cr.
Proof.
  intros H. assert (cr ∈ omap credited tr) as Hin by (rewrite H; by apply list_elem_of_singleton).
  apply list_elem_of_omap in Hin as (ev & ? & ?). by exists ev.
Qed.
End Example_observed.

Import Example_observed.

Lemma usdt_credit_attested_witness :
  ∃ ev target payment t hash index,
    ev ∈ run.2 ∧ credited ev = Some (InvoiceCredit target creator_hash payment t)
    ∧ transfer_shown from_slice from_unix_timestamp (node_log run.2) context hash index t.
Proof.
  destruct (credited_event _ _ credits) as (ev & Hin & Hcr).
  destruct (usdt_credit_attested Example_scan.hash_context Example_scan.hash_bindings crypto from_bytes from_slice
    from_unix_timestamp handler 9 creator request None world run.1.1 run.1.2 run.2 (surjective_pairing_3 run) ev _ Hin Hcr)
    as (target & ch & pay' & t & dest & cx & h & i & Heq & _ & Hctx & Hshown & _).
  injection Heq as <- <- <- <-.
  assert (invoice_context crypto from_bytes creator request Example_observed.target
    = Ok (Some (creator_hash, payment, mk_PaymentDestination (hex_text recipient_bytes) 700, context))) as Hc
    by (vm_compute; reflexivity).
  rewrite Hc in Hctx. injection Hctx as _ Hcx. subst cx.
  exists ev, Example_observed.target, payment, verified, h, i. split; [exact Hin|]. split; [exact Hcr|exact Hshown].
Defined.

Lemma settlement_usdt_credit_attested_witness :
  ∃ ev target t context hash index,
    ev ∈ settlement_run.2 ∧ credited ev = Some (SettlementCredit target creator_hash t)
    ∧ transfer_shown from_slice from_unix_timestamp (node_log settlement_run.2) context hash index t.
Proof.
  destruct (credited_event _ _ settlement_credits) as (ev & Hin & Hcr).
  destruct (settlement_usdt_credit_attested Example_scan.hash_context Example_scan.hash_bindings crypto from_slice
    from_unix_timestamp settlement_handler 9 creator request world settlement_run.1.1 settlement_run.1.2 settlement_run.2
    (surjective_pairing_3 settlement_run) ev _ Hin Hcr) as (target & ch & t & cx & h & i & Heq & _ & _ & Hshown & _).
  injection Heq as <- <- <-.
  exists ev, market_target, verified, cx, h, i. split; [exact Hin|]. split; [exact Hcr|exact Hshown].
Defined.

Lemma usdt_observation_consistent_witness :
  db_wf (mm_pay (uw_db run.1.2)) ∧ db_extends pay (mm_pay (uw_db run.1.2)).
Proof.
  apply (usdt_observation_consistent crypto Example_scan.hash_context Example_scan.hash_bindings (λ _, 5) (λ _, 5) (λ _, 5)
    (λ _, 5%N) (λ _, nonce) Example_scan.iter (λ _, node) id
    (observe_usdt_request crypto from_bytes from_slice from_unix_timestamp 9 creator request None)
    world run.1.1 run.1.2 run.2 (λ w, conj (λ H, conj H (reflexivity _)) (λ H, H)) (surjective_pairing_3 run)).
  exact pay_wf.
Defined.
