(* ===== verification/Rotation.v ===== *)
(** * Rotation: replacing a creator's Bitcoin account ([persistence/creators.rs])

    A creator may install another Bitcoin account.  One transaction then closes the old
    one: Marketplace invoices that were only prepared are voided, proposals that were never
    handed to the SDK are suppressed, a request the reader has seen but not accepted gets
    a cancellation in the outbox, accepted requests stay, and the account's generation
    advances, which fences every allocation that started from the old account.  The
    transaction refuses to run on stale knowledge: the caller must have received from
    every reader whose answer could change the classification
    ([persistence/payment_request_lifecycles.rs]).

    The tables are those of [MarketStore].  Identifiers, nonces and the instants of the
    written rows are arguments. *)

From S2P Require Import Prelude Text Locks Invoice Receiving Payment Lifecycle Pricing Intent Database OutboxStore Crypto Observations LifecycleStore Drains Creators Allocation MarketTerms MarketStore Sorting.
Local Open Scope string_scope.
Local Open Scope Z_scope.

(** ** Statements *)

Record BitcoinAccountRotation := mk_BitcoinAccountRotation {
  ba_generation : Z;
  ba_cancellation_pending_count : Z;
  ba_voided_preparation_count : Z;
}.

(** [RotationOwner] has the cases of [LifecycleOwner]; its columns are
    [owner_columns].  [.. IS NOT DISTINCT FROM ..] on both of them. *)
Definition has_owner (owner : LifecycleOwner) (invoice_id preparation_id : option RowId) : bool :=
  bool_decide (owner_columns owner = (invoice_id, preparation_id)).

Definition set_mm_dd (md : MarketDb) (dd : DrainDb) : MarketDb := set_mm_ac md (set_ac_dd (mm_ac md) dd).

Definition set_rotation_items (dd : DrainDb) (items : list RotationItem) : DrainDb :=
  mk_DrainDb (dd_life dd) (dd_pay dd) (dd_drains dd) (dd_items dd) (dd_cancellations dd) items (dd_cleanup_tokens dd).

Definition set_preparation_generations (ac : AccountDb) (t : gmap RowId Z) : AccountDb :=
  mk_AccountDb (ac_dd ac) (ac_creators ac) (ac_assignments ac) (ac_invoices ac) t (ac_rotations ac)
    (ac_address_owners ac) (ac_provider ac).

Definition set_rotations (ac : AccountDb) (t : gmap RowId RotationRow) : AccountDb :=
  mk_AccountDb (ac_dd ac) (ac_creators ac) (ac_assignments ac) (ac_invoices ac) (ac_preparation_generations ac) t
    (ac_address_owners ac) (ac_provider ac).

(** [CHECK]s of [creator_bitcoin_account_rotations]. *)
Definition rotation_check (row : RotationRow) : bool :=
  (0 <=? rr_from_generation row) && (rr_to_generation row =? rr_from_generation row + 1)
  && (0 <=? rr_cancellation_count row) && (0 <=? rr_voided_preparation_count row).

(** The primary key, [UNIQUE (creator_id, to_generation)] and the checks. *)
Definition insert_rotation (md : MarketDb) (id : RowId) (row : RotationRow) : result PersistenceError MarketDb :=
  let ac := mm_ac md in
  ensure (is_none (ac_rotations ac !! id) && rotation_check row
          && negb (exists_row (λ _ r, bool_decide (rr_creator_id r = rr_creator_id row)
                                      && (rr_to_generation r =? rr_to_generation row)) (ac_rotations ac)))
    PE_Unavailable;;
  Ok (set_mm_ac md (set_rotations ac (<[id := row]> (ac_rotations ac)))).

(** The columns of [UNIQUE NULLS NOT DISTINCT]. *)
Definition item_key (i : RotationItem) : RowId * option RowId * option RowId * option string * string :=
  (ri_rotation_id i, ri_invoice_id i, ri_marketplace_preparation_id i, ri_sdk_payment_request_id i, ri_classification i).

Definition classification_known (c : string) : bool :=
  bool_decide (c ∈ ["accepted"; "terminal"; "proposal_suppressed"; "cancellation_pending"; "preparation_voided"]).

(** [creator_bitcoin_rotation_item_one_owner], [.._cancellation_shape] and the check on
    the classification. *)
Definition item_check (i : RotationItem) : bool :=
  xorb (is_some (ri_invoice_id i)) (is_some (ri_marketplace_preparation_id i))
  && classification_known (ri_classification i)
  && (if String.eqb (ri_classification i) "cancellation_pending"
      then is_some (ri_sdk_payment_request_id i) && is_some (ri_cancellation_outbox_id i)
      else is_none (ri_cancellation_outbox_id i)).

(** [INSERT INTO creator_bitcoin_account_rotation_items] with its key, checks and
    foreign keys. *)
Definition insert_rotation_item (md : MarketDb) (i : RotationItem) : result PersistenceError MarketDb :=
  let dd := ac_dd (mm_ac md) in
  ensure (item_check i && negb (existsb (λ j, bool_decide (item_key j = item_key i)) (dd_rotation_items dd))
          && is_some (ac_rotations (mm_ac md) !! ri_rotation_id i)
          && match ri_invoice_id i with Some id => is_some (invoices (mm_db md) !! id) | None => true end
          && match ri_marketplace_preparation_id i with Some id => is_some (mm_preparations md !! id) | None => true end
          && match ri_cancellation_outbox_id i with Some id => is_some (outbox (mm_db md) !! id) | None => true end)
    PE_Unavailable;;
  Ok (set_mm_dd md (set_rotation_items dd (dd_rotation_items dd ++ [i])%list)).

Definition rotation_item (rotation_id : RowId) (owner : LifecycleOwner) (request : option string)
    (classification : string) (cancellation : option RowId) : RotationItem :=
  mk_RotationItem rotation_id (owner_columns owner).1 (owner_columns owner).2 request classification cancellation.

(** [UPDATE .. SET bitcoin_account_generation = $2 WHERE id = $1 AND .. IS NULL] *)
Definition set_legacy_generation (md : MarketDb) (id : RowId) (generation : Z) : result PersistenceError MarketDb :=
  let t := ac_preparation_generations (mm_ac md) in
  match t !! id with
  | Some _ => Ok md
  | None =>
      ensure (0 <=? generation) PE_Unavailable;;
      Ok (set_mm_ac md (set_preparation_generations (mm_ac md) (<[id := generation]> t)))
  end.

(** [UPDATE marketplace_payment_preparations SET state = 'voided' .. AND state =
    'prepared'], which must affect the row. *)
Definition void_prepared (md : MarketDb) (id : RowId) (now : Z) : result PersistenceError MarketDb :=
  ensure (match preparation md id with Some p => bool_decide (pp_state p = Prepared) | None => false end) PE_Conflict;;
  update_preparation md id (voided now).

(** The unique indexes on cancellations ([0013], [0021]). *)
Definition owner_cancellation_taken (db : Db) (owner : LifecycleOwner) (request : string) : bool :=
  match owner with
  | OwnerInvoice id => cancellation_taken db id request
  | OwnerMarketplace id =>
      exists_row (λ _ r, bool_decide (o_marketplace_preparation_id (o_key r) = Some id)
        && bool_decide (o_cancellation_target (o_key r) = Some request)
        && kind_is (o_intent_kind (o_key r)) PaymentRequestCancellationKind) (outbox db)
  end.

(** A cancellation of the request that is already in the outbox. *)
Definition owner_cancellation (db : Db) (creator_id : RowId) (owner : LifecycleOwner) (request : string) :
    option (RowId * OutboxRow) :=
  select_one (λ _ r, let k := o_key r in
    bool_decide (o_creator_id k = creator_id) && has_owner owner (o_invoice_id k) (o_marketplace_preparation_id k)
    && kind_is (o_intent_kind k) PaymentRequestCancellationKind
    && bool_decide (o_cancellation_target k = Some request)) (outbox db).

(** [UPDATE creators SET credential_envelope = $1, bitcoin_account_generation = $2 .. AND
    bitcoin_account_generation = $4] *)
Definition install_account (md : MarketDb) (creator_id : RowId) (envelope : string) (current next : Z) :
    result PersistenceError MarketDb :=
  match ac_creators (mm_ac md) !! creator_id with
  | Some c =>
      ensure (cc_bitcoin_account_generation c =? current) PE_Conflict;;
      ensure (0 <=? next) PE_Unavailable;;
      Ok (set_mm_ac md (set_ac_creators (mm_ac md)
            (<[creator_id := mk_CreatorColumns envelope (cc_setup_complete c) (cc_next_child_index c) next]>
               (ac_creators (mm_ac md)))))
  | None => Err PE_Conflict
  end.

Definition count_rotation (md : MarketDb) (id : RowId) (cancellations voided : Z) : result PersistenceError MarketDb :=
  ensure (cancellations <=? i64_max) PE_InvalidInput;;
  ensure (voided <=? i64_max) PE_InvalidInput;;
  match ac_rotations (mm_ac md) !! id with
  | Some row =>
      let row := mk_RotationRow (rr_creator_id row) (rr_from_generation row) (rr_to_generation row) cancellations voided in
      ensure (rotation_check row) PE_Unavailable;;
      Ok (set_mm_ac md (set_rotations (mm_ac md) (<[id := row]> (ac_rotations (mm_ac md)))))
  | None => Ok md
  end.

(** [LEFT JOIN] on an identifier *)
Definition joined {V} (t : gmap RowId V) (id : option RowId) : option RowId :=
  id ← id; if is_some (t !! id) then Some id else None.

(** ** Receive targets ([persistence/payment_request_lifecycles.rs]) *)

Section targets.
Context {core : LocksCore} {lib : PaykitLib} {prim : CryptoPrimitives} {codec : PreparationCodec} (crypto : Crypto).
(** [postcard::from_bytes] on intents *)
Context (from_bytes : string → option DeliveryIntentV1).

(** Preparations from before generations were kept. *)
Definition legacy_preparations (md : MarketDb) (creator_id : RowId) : list (RowId * PreparationColumns) :=
  sort_by id_compare (filter (λ kv, Is_true (bool_decide (ld_preparation_creators (mm_life md) !! kv.1 = Some creator_id)
       && is_none (ac_preparation_generations (mm_ac md) !! kv.1))) (map_to_list (mm_preparations md))).

Fixpoint backfill_rows (md : MarketDb) (creator_hash : string) (generation : Z)
    (legacy : list (RowId * PreparationColumns)) : result PersistenceError MarketDb :=
  match legacy with
  | [] => Ok md
  | (id, c) :: legacy =>
      e ← open_preparation crypto creator_hash id (pn_envelope c);
      md ← (if envelope_has_bitcoin e then set_legacy_generation md id generation else Ok md);
      backfill_rows md creator_hash generation legacy
  end.

Definition backfill_legacy_marketplace_bitcoin_generation (md : MarketDb) (creator_id : RowId) :
    result PersistenceError MarketDb :=
  '(stored, c) ← ok_or (creator_row (mm_ac md) creator_id) PE_CorruptOrMissing;
  creator_hash ← stored_lookup_hash stored;
  backfill_rows md creator_hash (cc_bitcoin_account_generation c) (legacy_preparations md creator_id).

(** Some request of the invoice or of the preparation is in such a state. *)
Definition joined_lifecycle (db : Db) (invoice preparation : option RowId) (p : PaymentRequestLifecycleState → bool) : bool :=
  existsb (λ kv : string * LifecycleRow,
    ((is_some invoice && bool_decide (l_invoice_id kv.2 = invoice))
     || (is_some preparation && bool_decide (l_marketplace_preparation_id kv.2 = preparation)))
    && p (l_request_state kv.2)) (map_to_list (lifecycles db)).

(** A proposal on the creator's account whose reader may still decide. *)
Definition rotation_target (md : MarketDb) (creator_id : RowId) (generation : Z) (r : OutboxRow) : bool :=
  let k := o_key r in
  let invoice := joined (ac_invoices (mm_ac md)) (o_invoice_id k) in
  let preparation := joined (mm_preparations md) (o_marketplace_preparation_id k) in
  bool_decide (o_creator_id k = creator_id) && kind_is (o_intent_kind k) PaymentRequestProposalKind
  && (bool_decide ((id ← invoice; x ← ac_invoices (mm_ac md) !! id; ix_bitcoin_account_generation x) = Some generation)
      || bool_decide ((id ← preparation; ac_preparation_generations (mm_ac md) !! id) = Some generation))
  && (((status_is (o_status r) HandedOff || status_is (o_status r) Delivered)
       && negb (joined_lifecycle (mm_db md) invoice preparation (λ _, true)))
      || joined_lifecycle (mm_db md) invoice preparation (λ s, state_eqb s Proposed)).

Definition rotation_target_rows (md : MarketDb) (creator_id : RowId) : list (RowId * OutboxKey) :=
  match creator_row (mm_ac md) creator_id with
  | Some (_, c) =>
      (λ kv, (kv.1, o_key kv.2)) <$>
        sort_by id_compare (filter (λ kv, Is_true (rotation_target md creator_id (cc_bitcoin_account_generation c) kv.2))
                              (map_to_list (outbox (mm_db md))))
  | None => []
  end.

Definition required_receive_targets_for_creator_rotation_in_transaction (md : MarketDb) (creator_id : RowId) :
    result PersistenceError (list RequiredReceiveTarget * MarketDb) :=
  md ← backfill_legacy_marketplace_bitcoin_generation md creator_id;
  targets ← decode_required_receive_targets crypto from_bytes (mm_db md) (rotation_target_rows md creator_id) [];
  Ok (targets, md).

Definition required_receive_targets_for_creator_rotation (md : MarketDb) (creator : CreatorPubky) :
    result PersistenceError (list RequiredReceiveTarget * MarketDb) :=
  creator_id ← ok_or (creator_of_hash (mm_db md) (creator_hash_of crypto creator)) PE_CorruptOrMissing;
  required_receive_targets_for_creator_rotation_in_transaction md creator_id.
End targets.

(** ** [rotate_bitcoin_account_after_receive] *)

(** What the transaction generates: its identifier, the identifiers and nonces of the
    cancellations, the nonce of the credentials, and the instant each row is written. *)
Record RotationFresh := mk_RotationFresh {
  rf_rotation_id : RowId;
  rf_outbox : nat → RowId * string;
  rf_nonce : string;
  rf_clock : RowId → Z;
}.

Section rotation.
Context {core : LocksCore} {lib : PaykitLib} {keys : IdentityKeys} {credentials : CredentialCodec}.
Context {prim : CryptoPrimitives} {codec : PreparationCodec} (crypto : Crypto).
Context (from_bytes : string → option DeliveryIntentV1) (to_bytes : DeliveryIntentV1 → option string).
(** The text order of the database and the [created_at] column of [outbox]. *)
Context (collate : string → string → comparison) (outbox_created_at : RowId → Z).

(** Bitcoin invoices of one generation of the account, by id. *)
Definition rotation_invoices (md : MarketDb) (creator_id : RowId) (generation : Z) : list RowId :=
  (sort_by id_compare (filter (λ kv, Is_true (bool_decide (i_creator_id kv.2 = creator_id)
       && match t_invoices (mm_pay md) !! kv.1 with
          | Some i => is_some (iv_address_lookup_hash (iv_columns i))
          | None => false
          end
       && bool_decide ((x ← ac_invoices (mm_ac md) !! kv.1; ix_bitcoin_account_generation x) = Some generation)))
     (map_to_list (invoices (mm_db md))))).*1.

Definition rotation_preparations (md : MarketDb) (creator_id : RowId) (generation : Z) :
    list (RowId * PreparationState) :=
  (λ kv : RowId * PreparationRow, (kv.1, p_state kv.2)) <$>
    sort_by id_compare (filter (λ kv, Is_true (bool_decide (ld_preparation_creators (mm_life md) !! kv.1 = Some creator_id)
       && bool_decide (ac_preparation_generations (mm_ac md) !! kv.1 = Some generation)))
      (map_to_list (preparations (mm_db md)))).

(** The loop over the preparations: the voided ones are counted, the active ones join the
    owners whose requests are looked at next. *)
Fixpoint void_preparations (md : MarketDb) (fresh : RotationFresh) (rows : list (RowId * PreparationState))
    (owners : list LifecycleOwner) (count : Z) : result PersistenceError (MarketDb * list LifecycleOwner * Z) :=
  match rows with
  | [] => Ok (md, owners, count)
  | (id, state) :: rows =>
      match state with
      | Prepared =>
          md ← void_prepared md id (rf_clock fresh id);
          md ← insert_rotation_item md (rotation_item (rf_rotation_id fresh) (OwnerMarketplace id) None
                                          "preparation_voided" None);
          void_preparations md fresh rows owners (count + 1)
      | Active => void_preparations md fresh rows (owners ++ [OwnerMarketplace id])%list count
      | Voided => void_preparations md fresh rows owners count
      end
  end.

(** The proposal of an owner. *)
Definition owner_proposal (db : Db) (creator_id : RowId) (owner : LifecycleOwner) : option (RowId * OutboxRow) :=
  head (sort_by (created_compare outbox_created_at)
    (filter (λ kv, Is_true (bool_decide (o_creator_id (o_key kv.2) = creator_id)
       && has_owner owner (o_invoice_id (o_key kv.2)) (o_marketplace_preparation_id (o_key kv.2))
       && kind_is (o_intent_kind (o_key kv.2)) PaymentRequestProposalKind)) (map_to_list (outbox db)))).

(** What the reader is known to have done with the owner's requests. *)
Definition owner_requests (db : Db) (owner : LifecycleOwner) : list (string * PaymentRequestLifecycleState) :=
  sort_by (λ a b, collate a.1 b.1) (omap (λ kv : string * LifecycleRow,
    if has_owner owner (l_invoice_id kv.2) (l_marketplace_preparation_id kv.2)
    then Some (kv.1, l_request_state kv.2) else None) (map_to_list (lifecycles db))).

Definition some_request (p : PaymentRequestLifecycleState → bool)
    (parsed : list (string * PaymentRequestLifecycleState)) : bool := existsb (λ a, p a.2) parsed.

Definition proposed_requests (parsed : list (string * PaymentRequestLifecycleState)) : list string :=
  (filter (λ a, Is_true (state_eqb a.2 Proposed)) parsed).*1.

(** The cancellation of one request: the one already queued, or a new one sealed under
    the [n]-th fresh identifier; [n] counts the new ones. *)
Definition cancel_request (md : MarketDb) (creator_hash : string) (creator_id : RowId) (fresh : RotationFresh)
    (now : Z) (owner : LifecycleOwner) (proposal : DeliveryIntentV1) (n : nat) (request : string) :
    result PersistenceError (RowId * nat * MarketDb) :=
  match owner_cancellation (mm_db md) creator_id owner request with
  | Some (id, _) => Ok (id, n, md)
  | None =>
      cancellation ← map_err (λ _, PE_CorruptOrMissing) (payment_request_cancellation proposal request);
      let '(outbox_id, nonce) := rf_outbox fresh n in
      plaintext ← ok_or (to_bytes cancellation) PE_CorruptOrMissing;
      envelope ← map_err (λ _, PE_CorruptOrMissing)
        (encrypt crypto nonce (ctx_outbox_semantic_intent creator_hash outbox_id) plaintext);
      ensure (negb (owner_cancellation_taken (mm_db md) owner request)) PE_Unavailable;;
      let '(inserted, db) := insert_rotation_cancellation (mm_db md) outbox_id creator_id (owner_columns owner).1
        (owner_columns owner).2 envelope request now in
      inserted;;
      Ok (outbox_id, S n, set_mm_db md db)
  end.

Fixpoint cancel_requests (md : MarketDb) (creator_hash : string) (creator_id : RowId) (fresh : RotationFresh)
    (now : Z) (owner : LifecycleOwner) (proposal : DeliveryIntentV1) (n : nat) (requests : list string) (count : Z) :
    result PersistenceError (MarketDb * nat * Z) :=
  match requests with
  | [] => Ok (md, n, count)
  | request :: requests =>
      '(outbox_id, n, md) ← cancel_request md creator_hash creator_id fresh now owner proposal n request;
      md ← insert_rotation_item md (rotation_item (rf_rotation_id fresh) owner (Some request) "cancellation_pending"
                                      (Some outbox_id));
      cancel_requests md creator_hash creator_id fresh now owner proposal n requests (count + 1)
  end.

(** An owner none of whose requests is proposed or accepted: a proposal that never left
    is suppressed. *)
Definition close_proposal (md : MarketDb) (fresh : RotationFresh) (owner : LifecycleOwner) (proposal_id : RowId)
    (r : OutboxRow) (unheard : bool) : result PersistenceError MarketDb :=
  let status := status_is (o_status r) in
  ensure (negb (unheard && (is_some (o_sdk_payment_request_id (o_sdk r)) || status HandedOff || status Delivered)))
    PE_Unavailable;;
  '(classification, md) ← (if unheard && (status Queued || status Retryable || status Leased) then
      let '(suppressed, db) := suppress_rotated_proposal (mm_db md) (rf_clock fresh proposal_id) proposal_id in
      suppressed ← suppressed;
      ensure suppressed PE_Conflict;;
      Ok ("proposal_suppressed", set_mm_db md db)
    else Ok ("terminal", md));
  insert_rotation_item md (rotation_item (rf_rotation_id fresh) owner None classification None).

(** One iteration of the loop over the owners. *)
Definition retire_owner (md : MarketDb) (creator_hash : string) (creator_id : RowId) (fresh : RotationFresh)
    (now : Z) (owner : LifecycleOwner) (n : nat) (count : Z) : result PersistenceError (MarketDb * nat * Z) :=
  '(proposal_id, r) ← ok_or (owner_proposal (mm_db md) creator_id owner) PE_Unavailable;
  proposal ← open_intent crypto from_bytes creator_hash proposal_id (o_intent_envelope (o_key r));
  ensure (is_proposal proposal) PE_CorruptOrMissing;;
  let parsed := owner_requests (mm_db md) owner in
  ensure (negb (some_request (λ s, state_eqb s InvalidConflict) parsed)) PE_Conflict;;
  ensure (negb (some_request (λ s, state_eqb s RecoveryRequired) parsed)) PE_Unavailable;;
  let accepted := some_request is_accepted_state parsed in
  md ← (if accepted then insert_rotation_item md (rotation_item (rf_rotation_id fresh) owner None "accepted" None)
        else Ok md);
  match proposed_requests parsed with
  | [] =>
      if accepted then Ok (md, n, count)
      else md ← close_proposal md fresh owner proposal_id r (match parsed with [] => true | _ => false end);
           Ok (md, n, count)
  | requests => cancel_requests md creator_hash creator_id fresh now owner proposal n requests count
  end.

Fixpoint retire_owners (md : MarketDb) (creator_hash : string) (creator_id : RowId) (fresh : RotationFresh)
    (now : Z) (owners : list LifecycleOwner) (n : nat) (count : Z) : result PersistenceError (MarketDb * Z) :=
  match owners with
  | [] => Ok (md, count)
  | owner :: owners =>
      '(md, n, count) ← retire_owner md creator_hash creator_id fresh now owner n count;
      retire_owners md creator_hash creator_id fresh now owners n count
  end.

(** The writes, once the receive evidence is accepted. *)
Definition rotate_account (md : MarketDb) (creator_hash : string) (creator_id : RowId) (current : Z)
    (replacement : CreatorCredentials) (fresh : RotationFresh) (now : Z) :
    result PersistenceError (BitcoinAccountRotation * MarketDb) :=
  let next := current + 1 in
  let invoice_ids := rotation_invoices md creator_id current in
  let preparations := rotation_preparations md creator_id current in
  md ← insert_rotation md (rf_rotation_id fresh) (mk_RotationRow creator_id current next 0 0);
  '(md, owners, voided) ← void_preparations md fresh preparations (OwnerInvoice <$> invoice_ids) 0;
  '(md, cancellations) ← retire_owners md creator_hash creator_id fresh now owners 0 0;
  bytes ← credentials_encode replacement;
  envelope ← map_err (λ _, PE_CorruptOrMissing)
    (encrypt crypto (rf_nonce fresh) (ctx_creator_credentials creator_hash creator_id) bytes);
  md ← install_account md creator_id envelope current next;
  md ← count_rotation md (rf_rotation_id fresh) cancellations voided;
  Ok (mk_BitcoinAccountRotation next cancellations voided, md).

Definition rotate_bitcoin_account_after_receive (md : MarketDb) (replacement : CreatorCredentials)
    (evidence : list RequiredReceiveTarget) (fresh : RotationFresh) (now : Z) :
    result PersistenceError (BitcoinAccountRotation * MarketDb) :=
  let hash := creator_hash_of crypto (cred_creator replacement) in
  '(id, stored, c) ← ok_or (creator_row_of_hash (mm_ac md) hash) PE_CorruptOrMissing;
  existing ← decrypt_credentials crypto id stored (cc_credential_envelope c);
  validate_reauthentication existing replacement;;
  ensure (negb (negb (bitcoin_account_changed existing replacement)
                || is_none (cred_bitcoin_account existing) || is_none (cred_bitcoin_account replacement)))
    PE_ReauthenticationMismatch;;
  let current := cc_bitcoin_account_generation c in
  ensure (current <? i64_max) PE_CorruptOrMissing;;
  '(targets, md) ← required_receive_targets_for_creator_rotation_in_transaction crypto from_bytes md id;
  ensure (receive_evidence_covers targets evidence) PE_Unavailable;;
  rotate_account md hash id current replacement fresh now.
End rotation.
