(* ===== verification/RotationClosing.v ===== *)
(** * RotationClosing: the statements that close an account

    The transaction of [Rotation] as a sequence of statements on the tables, what each of
    them can change, and what the loops over the preparations and over the payment
    requests leave behind. *)

From S2P Require Import Prelude Text Locks Invoice Receiving Payment Lifecycle Pricing Intent Readers Database OutboxStore CreateInvoice PaymentRecord Crypto Observations Settlement LifecycleStore Drains DrainProps Status Creators Allocation Allocated Provider MarketTerms MarketStore MarketObserve MarketProps Rotation Sorting.
Local Open Scope string_scope.
Local Open Scope Z_scope.

(** ** Queries *)

(** [SELECT .. WHERE p ORDER BY ..] *)
Lemma elem_of_query {K V} `{Countable K} (cmp : K * V → K * V → comparison) (p : K * V → bool) (t : gmap K V) k v :
  (k, v) ∈ sort_by cmp (filter (λ kv, Is_true (p kv)) (map_to_list t)) ↔ t !! k = Some v ∧ p (k, v) = true.
Proof. rewrite elem_of_sort_by, list_elem_of_filter, elem_of_map_to_list, Is_true_true. tauto. Qed.

Lemma has_owner_true owner i p : has_owner owner i p = true ↔ owner_columns owner = (i, p).
Proof. apply bool_decide_eq_true. Qed.

Lemma elem_of_owner_requests collate db owner request state :
  (request, state) ∈ owner_requests collate db owner ↔
  ∃ l, lifecycles db !! request = Some l ∧ owner_columns owner = (l_invoice_id l, l_marketplace_preparation_id l)
       ∧ l_request_state l = state.
Proof.
  unfold owner_requests. rewrite elem_of_sort_by, list_elem_of_omap. split.
  - intros ([k l] & Hin%elem_of_map_to_list & H). simpl in H. destruct (has_owner _ _ _) eqn:E; [|done].
    apply has_owner_true in E. naive_solver.
  - intros (l & Hl & Ho & <-). exists (request, l). rewrite elem_of_map_to_list. split; [done|]. simpl.
    by apply has_owner_true in Ho as ->.
Qed.

Lemma some_request_false p parsed :
  some_request p parsed = false ↔ ∀ request s, (request, s) ∈ parsed → p s = false.
Proof.
  unfold some_request. induction parsed as [|[k s] parsed IH]; simpl.
  - split; [|done]. intros _ request s H. by apply not_elem_of_nil in H.
  - rewrite orb_false_iff, IH. split.
    + intros [H1 H2] request s' [[= -> ->]|Hin]%elem_of_cons; eauto.
    + intros H. split; [apply (H k); by left|]. intros request s' Hin. apply (H request). by right.
Qed.

Lemma elem_of_proposed_requests request parsed : request ∈ proposed_requests parsed ↔ (request, Proposed) ∈ parsed.
Proof.
  unfold proposed_requests. rewrite list_elem_of_fmap. split.
  - intros ([k s] & -> & [Hs Hin]%list_elem_of_filter). simpl in *. apply Is_true_true, bool_decide_eq_true in Hs. by subst s.
  - intros Hin. exists (request, Proposed). split; [done|]. apply list_elem_of_filter. split; [|done].
    by apply Is_true_true, bool_decide_eq_true.
Qed.

(** ** Statements *)

(** The tables and columns the closing of an account never writes. *)
Definition untouched (md : MarketDb) :=
  let db := mm_db md in
  let dd := ac_dd (mm_ac md) in
  let ac := mm_ac md in
  ((creators db, invoices db, generations db, lifecycles db, provider_v2 db),
   (ld_cursors (mm_life md), ld_settlements (mm_life md), ld_preparation_creators (mm_life md), ld_bundles (mm_life md)),
   (dd_pay dd, dd_drains dd, dd_items dd, dd_cancellations dd, dd_cleanup_tokens dd),
   (ac_assignments ac, ac_invoices ac, ac_preparation_generations ac, ac_address_owners ac, ac_provider ac),
   (mm_settlements md, mm_timely md)).

(** Whose row of the outbox it is. *)
Definition belongs (creator_id : RowId) (owner : LifecycleOwner) (kind : IntentKind) (k : OutboxKey) : Prop :=
  o_creator_id k = creator_id ∧ owner_columns owner = (o_invoice_id k, o_marketplace_preparation_id k)
  ∧ o_intent_kind k = kind.

Definition rotation_items_of (md : MarketDb) : list RotationItem := dd_rotation_items (ac_dd (mm_ac md)).

Definition set_market_outbox (md : MarketDb) (id : RowId) (r : OutboxRow) : MarketDb :=
  set_mm_db md (set_outbox (mm_db md) (<[id := r]> (outbox (mm_db md)))).

(** The creator, and the invoices and preparations on its old account. *)
Section closing.
Context (creator_id : RowId) (mine : LifecycleOwner → Prop).

(** A proposal that never left the outbox and that no reader is known to have. *)
Record withdrawable (db : Db) (r : OutboxRow) : Prop := {
  wd_mine : ∃ owner, mine owner ∧ belongs creator_id owner PaymentRequestProposalKind (o_key r);
  wd_status : o_status r ∈ [Queued; Retryable; Leased];
  wd_sdk : o_sdk_payment_request_id (o_sdk r) = None;
  wd_unheard : ∀ request l, lifecycles db !! request = Some l →
    (l_invoice_id l, l_marketplace_preparation_id l) ≠ (o_invoice_id (o_key r), o_marketplace_preparation_id (o_key r));
}.

Definition is_new_cancellation (r : OutboxRow) : Prop :=
  (∃ owner, mine owner ∧ belongs creator_id owner PaymentRequestCancellationKind (o_key r)) ∧ o_status r = Queued.

Inductive closing_statement (md : MarketDb) : MarketDb → Prop :=
| cs_void id p now md' :
    preparation md id = Some p → pp_state p = Prepared → mine (OwnerMarketplace id) →
    update_preparation md id (voided now) = Ok md' → closing_statement md md'
| cs_suppress id r now :
    outbox (mm_db md) !! id = Some r → withdrawable (mm_db md) r →
    closing_statement md (set_market_outbox md id (suppress_row now r))
| cs_cancel id r :
    outbox (mm_db md) !! id = None → is_new_cancellation r → closing_statement md (set_market_outbox md id r)
| cs_item item :
    closing_statement md (set_mm_dd md (set_rotation_items (ac_dd (mm_ac md))
                                          (dd_rotation_items (ac_dd (mm_ac md)) ++ [item])%list))
| cs_rotation t :
    closing_statement md (set_mm_ac md (set_rotations (mm_ac md) t))
| cs_account c envelope generation :
    ac_creators (mm_ac md) !! creator_id = Some c →
    closing_statement md (set_mm_ac md (set_ac_creators (mm_ac md)
      (<[creator_id := mk_CreatorColumns envelope (cc_setup_complete c) (cc_next_child_index c) generation]>
         (ac_creators (mm_ac md))))).

(** Only the credentials and the generation of the creator's row change. *)
Definition account_closed (i : RowId) (c c' : CreatorColumns) : Prop :=
  cc_setup_complete c' = cc_setup_complete c ∧ cc_next_child_index c' = cc_next_child_index c
  ∧ (i ≠ creator_id → c' = c).

Definition row_closed (db : Db) (r r' : OutboxRow) : Prop :=
  r' = r ∨ withdrawable db r ∧ ∃ now, r' = suppress_row now r.

Definition preparation_closed (id : RowId) (p p' : option Preparation) : Prop :=
  p' = p ∨ mine (OwnerMarketplace id) ∧ ∃ q now, p = Some q ∧ pp_state q = Prepared ∧ p' = Some (voided now q).

(** What any number of closing statements may do. *)
Record closes (md md' : MarketDb) : Prop := {
  cl_rest : untouched md' = untouched md;
  cl_rows : ∀ id r, outbox (mm_db md) !! id = Some r → ∃ r', outbox (mm_db md') !! id = Some r' ∧ row_closed (mm_db md) r r';
  cl_new : ∀ id r, outbox (mm_db md') !! id = Some r → outbox (mm_db md) !! id = None → is_new_cancellation r;
  cl_preparations : ∀ id, preparation_closed id (preparation md id) (preparation md' id);
  cl_accounts : ∀ i c, ac_creators (mm_ac md) !! i = Some c →
    ∃ c', ac_creators (mm_ac md') !! i = Some c' ∧ account_closed i c c';
  cl_items : ∃ items, rotation_items_of md' = (rotation_items_of md ++ items)%list;
}.

Lemma untouched_lifecycles md md' : untouched md' = untouched md → lifecycles (mm_db md') = lifecycles (mm_db md).
Proof. by intros [=]. Qed.

Lemma withdrawable_db db db' r : lifecycles db' = lifecycles db → withdrawable db r → withdrawable db' r.
Proof. intros E [H1 H2 H3 H4]. split; [done..|]. by rewrite E. Qed.

Lemma suppressed_not_withdrawable db now r : ¬ withdrawable db (suppress_row now r).
Proof. intros [_ H _ _]. simpl in H. set_solver. Qed.

#[local] Instance closes_preorder : PreOrder closes.
Proof.
  split.
  - intros md. split; try done; [|congruence|by left| |by exists []; rewrite app_nil_r].
    + intros id r Hr. exists r. split; [done|by left].
    + intros i c Hc. by exists c.
  - intros md1 md2 md3 [A1 A2 A3 A4 A6 [i1 A5]] [B1 B2 B3 B4 B6 [i2 B5]].
    pose proof (untouched_lifecycles _ _ A1) as Hl. split; [congruence| | | | |].
    + intros id r Hr. destruct (A2 _ _ Hr) as (r2 & Hr2 & C2). destruct (B2 _ _ Hr2) as (r3 & Hr3 & C3).
      exists r3. split; [done|]. destruct C2 as [->|[W [t ->]]].
      * destruct C3 as [->|[W [t ->]]]; [by left|right]. split; [|by exists t]. by eapply withdrawable_db.
      * destruct C3 as [->|[W' _]]; [right; split; [done|by exists t]|]. by apply suppressed_not_withdrawable in W'.
    + intros id r Hr Hn. destruct (outbox (mm_db md2) !! id) as [r2|] eqn:Hr2; [|by eapply B3].
      pose proof (A3 _ _ Hr2 Hn) as Hc. destruct (B2 _ _ Hr2) as (r3 & Hr3 & C3). assert (r3 = r) as -> by congruence.
      destruct C3 as [->|[[(o & _ & _ & _ & Hk) _ _ _] _]]; [done|].
      destruct Hc as [(o' & _ & _ & _ & Hk') _]. congruence.
    + intros id. destruct (A4 id) as [E|(Hm & q & t & E1 & E2 & E3)]; [rewrite <- E; apply B4|].
      destruct (B4 id) as [E|(_ & q' & t' & E4 & E5 & _)]; [right; split; [done|]; exists q, t; split_and!; [done..|congruence]|].
      rewrite E3 in E4. by simplify_eq.
    + intros i c Hc. destruct (A6 _ _ Hc) as (c2 & Hc2 & K1 & K2 & K3). destruct (B6 _ _ Hc2) as (c3 & Hc3 & L1 & L2 & L3).
      exists c3. split; [done|]. split_and!; [congruence..|]. intros Hi. by rewrite L3, K3.
    + exists (i1 ++ i2)%list. by rewrite B5, A5, app_assoc.
Qed.

(** ** A statement closes, and is a step of the Marketplace tables *)

Lemma void_closes md id p now md' :
  preparation md id = Some p → pp_state p = Prepared → mine (OwnerMarketplace id) →
  update_preparation md id (voided now) = Ok md' → closes md md'.
Proof.
  intros Hp Hst Hm H. apply update_preparation_ok with (old := p) in H as (-> & _); [|done].
  pose proof Hp as (Hc & _ & _)%preparation_some. split.
  - unfold untouched, put_preparation, mm_db, mm_life, ac_db, dd_db. simpl. do 4 f_equal.
    unfold mm_life in Hc. by rewrite insert_id.
  - intros i r Hr. exists r. split; [done|by left].
  - intros i r Hr Hn. change (outbox (mm_db md) !! i = Some r) in Hr. congruence.
  - intros i. rewrite preparation_put. case_decide; [subst i|by left]. right. split; [done|]. by exists p, now.
  - intros i c Hi. by exists c.
  - exists []. by rewrite app_nil_r.
Qed.

Lemma outbox_set md id r i :
  outbox (mm_db (set_market_outbox md id r)) !! i = if decide (i = id) then Some r else outbox (mm_db md) !! i.
Proof.
  change (outbox (mm_db (set_market_outbox md id r))) with (<[id := r]> (outbox (mm_db md))). case_decide as Hi.
  - subst i. by rewrite lookup_insert_eq.
  - by rewrite lookup_insert_ne.
Qed.

Lemma statement_closes md md' : closing_statement md md' → closes md md'.
Proof.
  intros [id p now ? Hp Hst Hm H|id r now Hr W|id r Hn Hc|item|t|c envelope g Hc]; [by eapply void_closes|..].
  all: split; [done| | |by left| |first [by exists []; rewrite app_nil_r|by exists [item]]].
  all: try (intros i c0 Hi; by exists c0).
  all: try (intros i r0 H0; exists r0; split; [exact H0|by left]).
  all: try (intros i r0 H1 H2; change (outbox (mm_db md) !! i = Some r0) in H1; congruence).
  - intros i r0 H0. rewrite outbox_set. case_decide as Hi; [subst i|exists r0; split; [done|by left]].
    assert (r0 = r) as -> by congruence. eexists. split; [done|]. right. split; [done|by eexists].
  - intros i r0. rewrite outbox_set. case_decide; [subst i|]; congruence.
  - intros i r0 H0. rewrite outbox_set. case_decide as Hi; [subst i; congruence|exists r0; split; [done|by left]].
  - intros i r0. rewrite outbox_set. case_decide; [by intros [= <-]|congruence].
  - intros i c0 Hi. simpl. destruct (decide (i = creator_id)) as [->|Hne].
    + rewrite lookup_insert_eq. assert (c0 = c) as -> by congruence. by eexists.
    + rewrite lookup_insert_ne by done. by exists c0.
Qed.

Lemma statements_close md md' : rtc closing_statement md md' → closes md md'.
Proof. induction 1 as [|md md1 md' H _ IH]; [reflexivity|]. etrans; [by apply statement_closes|done]. Qed.

(** The frame of a statement that voids nothing. *)
Lemma closes_frame md md' :
  market_wf md → closes md md' → mm_preparations md' = mm_preparations md →
  (∀ id, preparation md' id = preparation md id) → market_frame md md'.
Proof.
  intros W [Hrest Hrows Hnew _ Hacc _] Hcol Hprep. injection Hrest as Hcr _ _ _ _ _ Hset _ _ _ _ _ _ _ _ _ _ _ _ Hs _.
  split; try done.
  - by rewrite Hs.
  - by rewrite Hcr.
  - rewrite Hcr. apply (mw_creators _ W).
  - intros id c Hc. destruct (Hacc _ _ Hc) as (c' & Hc' & _ & Hn & _). exists c'. split; [done|lia].
  - intros rid r Hr. destruct (Hrows _ _ Hr) as (r' & Hr' & [->|[_ [t ->]]]); by eauto.
  - intros rid r Hr Hn id. destruct (Hnew _ _ Hr Hn) as [(o & _ & _ & _ & Hk) _].
    unfold market_proposal. rewrite Hk. apply andb_false_r.
Qed.

(** Every statement but a voiding leaves the Marketplace invoices alone. *)
Lemma statement_effect md md' :
  market_wf md → closing_statement md md' →
  market_frame md md'
  ∨ ∃ id p now, preparation md id = Some p ∧ pp_state p = Prepared ∧ update_preparation md id (voided now) = Ok md'.
Proof.
  intros W S. pose proof (statement_closes _ _ S) as C. destruct S; [right; by eauto 10|left..].
  all: by apply closes_frame.
Qed.

(** ** The statements of the transaction *)

(** How many rows of a classification the rotations have recorded. *)
Definition recorded (classification : string) (md : MarketDb) : Z :=
  count_items (λ i, String.eqb (ri_classification i) classification) (rotation_items_of md).

Lemma recorded_snoc classification md md' i :
  rotation_items_of md' = (rotation_items_of md ++ [i])%list →
  recorded classification md'
  = recorded classification md + (if String.eqb (ri_classification i) classification then 1 else 0).
Proof.
  unfold recorded, count_items. intros ->. rewrite filter_app, length_app. destruct (String.eqb _ _) eqn:E.
  - rewrite filter_cons_True by (by rewrite E). simpl. lia.
  - rewrite filter_cons_False by (rewrite E; by intros []). simpl. lia.
Qed.

Lemma recorded_same classification md md' :
  rotation_items_of md' = rotation_items_of md → recorded classification md' = recorded classification md.
Proof. unfold recorded. by intros ->. Qed.

(** The cancellations and voidings recorded between two states. *)
Definition tallied (md md' : MarketDb) (cancellations voidings : Z) : Prop :=
  recorded "cancellation_pending" md' = recorded "cancellation_pending" md + cancellations
  ∧ recorded "preparation_voided" md' = recorded "preparation_voided" md + voidings.

Lemma tallied_same md md' : rotation_items_of md' = rotation_items_of md → tallied md md' 0 0.
Proof. intros E. split; rewrite (recorded_same _ _ _ E); lia. Qed.

Lemma tallied_snoc md md' i :
  rotation_items_of md' = (rotation_items_of md ++ [i])%list →
  tallied md md' (if String.eqb (ri_classification i) "cancellation_pending" then 1 else 0)
    (if String.eqb (ri_classification i) "preparation_voided" then 1 else 0).
Proof. intros E. split; by apply recorded_snoc. Qed.

Lemma tallied_trans md1 md2 md3 a b c d : tallied md1 md2 a b → tallied md2 md3 c d → tallied md1 md3 (a + c) (b + d).
Proof. unfold tallied. intros [??] [??]. lia. Qed.

Lemma insert_item_ok md i md' :
  insert_rotation_item md i = Ok md' →
  closing_statement md md' ∧ i ∈ rotation_items_of md' ∧ rotation_items_of md' = (rotation_items_of md ++ [i])%list.
Proof.
  unfold insert_rotation_item. intros ([] & _ & [= <-])%bind_ok. split; [constructor|].
  unfold rotation_items_of. simpl. set_solver.
Qed.

Lemma insert_rotation_ok md id row md' :
  insert_rotation md id row = Ok md' →
  closing_statement md md' ∧ 0 <= rr_from_generation row
  ∧ ∃ t, md' = set_mm_ac md (set_rotations (mm_ac md) t).
Proof.
  unfold insert_rotation. intros ([] & Hg%ensure_ok & [= <-])%bind_ok. split_and!; [constructor| |by eexists].
  unfold rotation_check in Hg. by split_bools.
Qed.

Lemma count_rotation_ok md id a b md' :
  count_rotation md id a b = Ok md' →
  rtc closing_statement md md' ∧ ac_creators (mm_ac md') = ac_creators (mm_ac md)
  ∧ rotation_items_of md' = rotation_items_of md.
Proof.
  unfold count_rotation. intros ([] & _ & ([] & _ & H)%bind_ok)%bind_ok. destruct (ac_rotations (mm_ac md) !! id).
  - apply bind_ok in H as ([] & _ & [= <-]). split_and!; [|done..]. apply rtc_once. constructor.
  - by injection H as <-.
Qed.

Lemma install_account_ok md envelope current next md' :
  install_account md creator_id envelope current next = Ok md' →
  ∃ c, ac_creators (mm_ac md) !! creator_id = Some c ∧ closing_statement md md'
    ∧ rotation_items_of md' = rotation_items_of md
    ∧ ac_creators (mm_ac md') !! creator_id
      = Some (mk_CreatorColumns envelope (cc_setup_complete c) (cc_next_child_index c) next).
Proof.
  unfold install_account. destruct (ac_creators (mm_ac md) !! creator_id) as [c|] eqn:Hc; [|done].
  intros ([] & _ & ([] & _ & [= <-])%bind_ok)%bind_ok. exists c. split_and!; [done|by apply cs_account|done|].
  simpl. by rewrite lookup_insert_eq.
Qed.

Lemma void_prepared_ok md id now md' :
  mine (OwnerMarketplace id) → void_prepared md id now = Ok md' →
  ∃ p, preparation md id = Some p ∧ pp_state p = Prepared ∧ preparation md' id = Some (voided now p)
       ∧ rotation_items_of md' = rotation_items_of md ∧ closing_statement md md'.
Proof.
  unfold void_prepared. intros Hm ([] & Hg%ensure_ok & H)%bind_ok. destruct (preparation md id) as [p|] eqn:Hp; [|done].
  split_bools. exists p. split_and!; [done..| | |by eapply cs_void].
  all: apply update_preparation_ok with (old := p) in H as (-> & _); [|done].
  2: done.
  rewrite preparation_put. by case_decide.
Qed.

(** A voiding is not undone. *)
Lemma closes_voided md md' id p : closes md md' → preparation md id = Some p → pp_state p ≠ Prepared → preparation md' id = Some p.
Proof. intros C Hp Hs. destruct (cl_preparations _ _ C id) as [E|(_ & q & t & E & Hq & _)]; [|rewrite Hp in E; simplify_eq]. congruence. Qed.

Lemma closes_items md md' i : closes md md' → i ∈ rotation_items_of md → i ∈ rotation_items_of md'.
Proof. intros C Hi. destruct (cl_items _ _ C) as [items ->]. set_solver. Qed.

Lemma closes_lifecycles md md' : closes md md' → lifecycles (mm_db md') = lifecycles (mm_db md).
Proof. intros C. apply untouched_lifecycles, C. Qed.

(** Rows keep their keys, and a failed row stays failed. *)
Lemma closes_row md md' id r :
  closes md md' → outbox (mm_db md) !! id = Some r →
  ∃ r', outbox (mm_db md') !! id = Some r' ∧ o_key r' = o_key r
        ∧ (o_status r = PermanentlyFailed → o_status r' = PermanentlyFailed).
Proof.
  intros C Hr. destruct (cl_rows _ _ C _ _ Hr) as (r' & Hr' & [->|[_ [t ->]]]); by eauto.
Qed.

Definition voided_item (rotation_id id : RowId) : RotationItem :=
  rotation_item rotation_id (OwnerMarketplace id) None "preparation_voided" None.

Definition active_owners (rows : list (RowId * PreparationState)) : list LifecycleOwner :=
  omap (λ '(id, state), if bool_decide (state = Active) then Some (OwnerMarketplace id) else None) rows.

Lemma void_preparations_ok fresh rows md owners count md' owners' count' :
  (∀ id state, (id, state) ∈ rows → mine (OwnerMarketplace id)) →
  void_preparations md fresh rows owners count = Ok (md', owners', count') →
  rtc closing_statement md md' ∧ owners' = (owners ++ active_owners rows)%list
  ∧ tallied md md' 0 (count' - count)
  ∧ ∀ id, (id, Prepared) ∈ rows →
      ∃ p now, preparation md id = Some p ∧ pp_state p = Prepared ∧ preparation md' id = Some (voided now p)
               ∧ voided_item (rf_rotation_id fresh) id ∈ rotation_items_of md'.
Proof.
  revert md owners count. induction rows as [|[id state] rows IH]; intros md owners count Hmine H; simpl in H.
  { injection H as <- <- <-. split_and!; [done|by rewrite app_nil_r|unfold tallied; lia|].
    intros id Hin. by apply not_elem_of_nil in Hin. }
  assert (mine (OwnerMarketplace id)) as Hm by (apply (Hmine id state); by left).
  assert (∀ id state, (id, state) ∈ rows → mine (OwnerMarketplace id)) as Hrest.
  { intros i st Hin. apply (Hmine i st). by right. }
  specialize (λ md o c, IH md o c Hrest). destruct state.
  - apply bind_ok in H as (md1 & H1 & H). apply bind_ok in H as (md2 & H2 & H).
    apply void_prepared_ok in H1 as (p & Hp & Hst & Hv & E1 & S1); [|done]. apply insert_item_ok in H2 as (S2 & Hi & E2).
    apply IH in H as (S & -> & T & Hvoid). pose proof (statements_close _ _ S) as C.
    pose proof (statement_closes _ _ S1) as C1. pose proof (statement_closes _ _ S2) as C2.
    pose proof (tallied_trans _ _ _ _ _ _ _ (tallied_same _ _ E1) (tallied_snoc _ _ _ E2)) as T'. simpl in T'.
    split_and!; [by do 2 (eapply rtc_l; [done|])|done|unfold tallied in *; lia|].
    intros i [[= ->]|Hin]%elem_of_cons.
    + exists p, (rf_clock fresh id). split_and!; [done..| |by eapply closes_items].
      eapply closes_voided; [done| |done]. by eapply closes_voided.
    + destruct (Hvoid _ Hin) as (q & t & Hq & Hqs & Hq' & Hit). exists q, t. split_and!; try done.
      assert (closes md md2) as C' by (by etrans). destruct (cl_preparations _ _ C' i) as [E|(_ & q' & t' & E3 & E4 & E5)]; [congruence|].
      rewrite Hq in E5. by simplify_eq.
  - apply IH in H as (S & -> & T & Hvoid). split_and!; [done|by rewrite <- app_assoc|done..|].
    intros i [[=]|Hin]%elem_of_cons. by apply Hvoid.
  - apply IH in H as (S & -> & T & Hvoid). split_and!; try done. intros i [[=]|Hin]%elem_of_cons. by apply Hvoid.
Qed.

(** ** Closing the requests of an owner *)

(** A cancellation of the request is in the outbox, and the rotation refers to it. *)
Definition request_canceled (md : MarketDb) (rotation_id : RowId) (owner : LifecycleOwner) (request : string) : Prop :=
  ∃ id r, outbox (mm_db md) !! id = Some r ∧ belongs creator_id owner PaymentRequestCancellationKind (o_key r)
          ∧ o_cancellation_target (o_key r) = Some request
          ∧ rotation_item rotation_id owner (Some request) "cancellation_pending" (Some id) ∈ rotation_items_of md.

Lemma closes_canceled md md' rotation_id owner request :
  closes md md' → request_canceled md rotation_id owner request →
  request_canceled md' rotation_id owner request.
Proof.
  intros C (id & r & Hr & Hb & Ht & Hi). destruct (closes_row _ _ _ _ C Hr) as (r' & Hr' & Hk & _).
  exists id, r'. rewrite Hk. split_and!; [done..|]. by eapply closes_items.
Qed.

(** The requests of an owner are settled: no proposal of it can still be accepted
    without a cancellation on its way. *)
Record retired (md : MarketDb) (rotation_id : RowId) (owner : LifecycleOwner) : Prop := {
  rt_proposal : ∃ id r, outbox (mm_db md) !! id = Some r ∧ belongs creator_id owner PaymentRequestProposalKind (o_key r)
    ∧ ((∀ request l, lifecycles (mm_db md) !! request = Some l →
          owner_columns owner ≠ (l_invoice_id l, l_marketplace_preparation_id l)) →
       o_status r = PermanentlyFailed);
  rt_requests : ∀ request l, lifecycles (mm_db md) !! request = Some l →
    owner_columns owner = (l_invoice_id l, l_marketplace_preparation_id l) →
    l_request_state l ≠ InvalidConflict ∧ l_request_state l ≠ RecoveryRequired
    ∧ (l_request_state l = Proposed → request_canceled md rotation_id owner request)
    ∧ (is_accepted_state (l_request_state l) = true →
       rotation_item rotation_id owner None "accepted" None ∈ rotation_items_of md);
}.

Lemma closes_retired md md' rotation_id owner :
  closes md md' → retired md rotation_id owner → retired md' rotation_id owner.
Proof.
  intros C [(id & r & Hr & Hb & Hf) Hreq]. split; rewrite (closes_lifecycles _ _ C).
  - destruct (closes_row _ _ _ _ C Hr) as (r' & Hr' & Hk & Hs). exists id, r'. rewrite Hk. naive_solver.
  - intros request l Hl Ho. destruct (Hreq _ _ Hl Ho) as (H1 & H2 & H3 & H4). split_and!; [done..| |].
    + intros Hp. eapply closes_canceled; eauto.
    + intros Ha. eapply closes_items; eauto.
Qed.

Context {core : LocksCore} {lib : PaykitLib} {prim : CryptoPrimitives} (crypto : Crypto).
Context (from_bytes : string → option DeliveryIntentV1) (to_bytes : DeliveryIntentV1 → option string).
Context (collate : string → string → comparison) (outbox_created_at : RowId → Z).
Notation cancel_request := (cancel_request crypto to_bytes).
Notation cancel_requests := (cancel_requests crypto to_bytes).
Notation retire_owner := (retire_owner crypto from_bytes to_bytes collate outbox_created_at).
Notation retire_owners := (retire_owners crypto from_bytes to_bytes collate outbox_created_at).

Lemma cancel_request_ok md creator_hash fresh now owner proposal n request id n' md' :
  mine owner →
  cancel_request md creator_hash creator_id fresh now owner proposal n request = Ok (id, n', md') →
  rtc closing_statement md md' ∧ rotation_items_of md' = rotation_items_of md
  ∧ ∃ r, outbox (mm_db md') !! id = Some r ∧ belongs creator_id owner PaymentRequestCancellationKind (o_key r)
         ∧ o_cancellation_target (o_key r) = Some request.
Proof.
  intros Hm. unfold Rotation.cancel_request. destruct (owner_cancellation _ _ _ _) as [[i r]|] eqn:E.
  - intros [= -> <- <-]. split_and!; [done..|]. exists r. apply select_one_some in E as [Hr Hp]. simpl in Hp.
    split_bools. unfold has_owner, kind_is, belongs in *. split_bools. naive_solver.
  - intros (c & _ & H)%bind_ok. destruct (rf_outbox fresh n) as [oid nonce].
    apply bind_ok in H as (plaintext & _ & H). apply bind_ok in H as (envelope & _ & H). apply bind_ok in H as ([] & _ & H).
    unfold insert_rotation_cancellation, insert_queued in H. destruct (outbox (mm_db md) !! oid) eqn:Ho; [by simpl in H|].
    destruct (outbox_check _); simpl in H; [|done]. injection H as <- <- <-. split_and!; [|done|].
    + apply rtc_once. apply cs_cancel; [done|]. split; [|done]. exists owner. unfold belongs. simpl. by destruct owner.
    + eexists. split; [apply lookup_insert_eq|]. unfold belongs. simpl. by destruct owner.
Qed.

Lemma cancel_requests_ok creator_hash fresh now owner proposal requests md n count md' n' count' :
  mine owner →
  cancel_requests md creator_hash creator_id fresh now owner proposal n requests count = Ok (md', n', count') →
  rtc closing_statement md md'
  ∧ tallied md md' (count' - count) 0
  ∧ ∀ request, request ∈ requests → request_canceled md' (rf_rotation_id fresh) owner request.
Proof.
  intros Hm. revert md n count. induction requests as [|request requests IH]; intros md n count H; simpl in H.
  { injection H as <- <- <-. split_and!; [done|unfold tallied; lia|]. intros request Hin. by apply not_elem_of_nil in Hin. }
  apply bind_ok in H as ([[id n1] md1] & H1 & H). apply bind_ok in H as (md2 & H2 & H).
  apply cancel_request_ok in H1 as (S1 & E1 & r & Hr & Hb & Ht); [|done]. apply insert_item_ok in H2 as (S2 & Hi & E2).
  apply IH in H as (S & T & Hall). pose proof (statements_close _ _ S) as C. pose proof (statement_closes _ _ S2) as C2.
  pose proof (tallied_trans _ _ _ _ _ _ _ (tallied_same _ _ E1) (tallied_snoc _ _ _ E2)) as T'. simpl in T'.
  split_and!; [etrans; [exact S1|by eapply rtc_l]|unfold tallied in *; lia|].
  intros q [->|Hin]%elem_of_cons; [|by apply Hall]. eapply closes_canceled; [done|].
  destruct (closes_row _ _ _ _ C2 Hr) as (r' & Hr' & Hk & _). exists id, r'. by rewrite Hk.
Qed.

Lemma owner_proposal_some db owner id r :
  owner_proposal outbox_created_at db creator_id owner = Some (id, r) →
  outbox db !! id = Some r ∧ belongs creator_id owner PaymentRequestProposalKind (o_key r).
Proof.
  unfold owner_proposal. intros H%head_Some_elem_of. apply elem_of_query in H as [Hr Hp]. simpl in Hp.
  split_bools. unfold has_owner, kind_is, belongs in *. split_bools. done.
Qed.

(** The proposal of an owner nobody has heard of fails for good. *)
Lemma close_proposal_ok md fresh owner id r unheard md' :
  mine owner →
  outbox (mm_db md) !! id = Some r → belongs creator_id owner PaymentRequestProposalKind (o_key r) →
  (unheard = true → ∀ request l, lifecycles (mm_db md) !! request = Some l →
     owner_columns owner ≠ (l_invoice_id l, l_marketplace_preparation_id l)) →
  close_proposal md fresh owner id r unheard = Ok md' →
  rtc closing_statement md md' ∧ tallied md md' 0 0
  ∧ ∃ r', outbox (mm_db md') !! id = Some r' ∧ o_key r' = o_key r ∧ (unheard = true → o_status r' = PermanentlyFailed).
Proof.
  intros Hm Hr Hb Hun H. unfold close_proposal in H. cbv zeta in H. apply bind_ok in H as ([] & Hg%ensure_ok & H).
  apply bind_ok in H as ([class md1] & H1 & H). apply insert_item_ok in H as (S2 & _ & E2).
  pose proof (statement_closes _ _ S2) as C2. destruct (unheard && _) eqn:E in H1.
  - apply andb_true_iff in E as [-> E]. unfold suppress_rotated_proposal in H1.
    destruct (update_outbox _ _ _ _) as [res db'] eqn:U. simpl in H1. destruct res as [b|e]; [|done]. simpl in H1.
    apply bind_ok in H1 as ([] & ->%ensure_ok & [= <- <-]). apply update_outbox_true in U as (r0 & Hr0 & _ & ->).
    assert (r0 = r) as -> by congruence. change (closing_statement (set_market_outbox md id (suppress_row (rf_clock fresh id) r)) md') in S2.
    split_and!; [|by apply (tallied_snoc md md') in E2|].
    + eapply rtc_l; [|by apply rtc_once]. apply cs_suppress; [done|]. pose proof Hb as (_ & Ho & Hk). split; [by exists owner| | |].
      * unfold status_is in E. rewrite !orb_true_iff, !bool_decide_eq_true in E. set_solver.
      * simpl in Hg. rewrite negb_true_iff, !orb_false_iff in Hg. destruct Hg as [[Hg _] _].
        by destruct (o_sdk_payment_request_id (o_sdk r)).
      * intros request l Hl. rewrite <- Ho. by apply not_eq_sym, (Hun eq_refl request).
    + change (closes (set_market_outbox md id (suppress_row (rf_clock fresh id) r)) md') in C2.
      destruct (closes_row _ _ id (suppress_row (rf_clock fresh id) r) C2) as (r' & Hr' & Hk & Hs).
      { rewrite outbox_set. by case_decide. } exists r'. split_and!; [done..|]. intros _. by apply Hs.
  - injection H1 as <- <-. split_and!; [by apply rtc_once|by apply (tallied_snoc md md') in E2|]. destruct (closes_row _ _ _ _ C2 Hr) as (r' & Hr' & Hk & Hs).
    exists r'. split_and!; [done..|]. intros ->. apply Hs. simpl in Hg, E.
    unfold status_is in *. destruct (o_status r); try done; by rewrite !orb_true_r in Hg.
Qed.

(** The branches of an iteration behind the checks. *)
Lemma retire_requests_ok md creator_hash fresh now owner proposal parsed id r n count md' n' count' :
  mine owner →
  outbox (mm_db md) !! id = Some r → belongs creator_id owner PaymentRequestProposalKind (o_key r) →
  (parsed = [] → ∀ request l, lifecycles (mm_db md) !! request = Some l →
     owner_columns owner ≠ (l_invoice_id l, l_marketplace_preparation_id l)) →
  match proposed_requests parsed with
  | [] =>
      if some_request is_accepted_state parsed then Ok (md, n, count)
      else md ← close_proposal md fresh owner id r (match parsed with [] => true | _ => false end);
           Ok (md, n, count)
  | requests => cancel_requests md creator_hash creator_id fresh now owner proposal n requests count
  end = Ok (md', n', count') →
  rtc closing_statement md md' ∧ tallied md md' (count' - count) 0
  ∧ (∃ r', outbox (mm_db md') !! id = Some r' ∧ o_key r' = o_key r ∧ (parsed = [] → o_status r' = PermanentlyFailed))
  ∧ ∀ request, request ∈ proposed_requests parsed → request_canceled md' (rf_rotation_id fresh) owner request.
Proof.
  intros Hm Hr Hb Hun H. destruct (proposed_requests parsed) as [|q qs] eqn:Eq.
  - destruct (some_request is_accepted_state parsed) eqn:Ea.
    + injection H as <- <- <-. split_and!; [done|unfold tallied; lia| |set_solver]. exists r. split_and!; [done..|].
      intros ->. done.
    + apply bind_ok in H as (md2 & H & [= <- <- <-]).
      apply close_proposal_ok in H as (S & T & r' & Hr' & Hk & Hf); [|done..|].
      * split_and!; [done|by rewrite Z.sub_diag| |set_solver]. exists r'. split_and!; [done..|]. intros ->. by apply Hf.
      * intros E. apply Hun. by destruct parsed.
  - apply cancel_requests_ok in H as (S & T & Hall); [|done]. split_and!; [done|done| |done].
    destruct (closes_row _ _ _ _ (statements_close _ _ S) Hr) as (r' & Hr' & Hk & _). exists r'.
    split_and!; [done..|]. intros ->. done.
Qed.

(** Recording an accepted request. *)
Lemma accepted_item_ok (accepted : bool) md rotation_id owner md' :
  (if accepted then insert_rotation_item md (rotation_item rotation_id owner None "accepted" None) else Ok md) = Ok md' →
  rtc closing_statement md md' ∧ tallied md md' 0 0 ∧ outbox (mm_db md') = outbox (mm_db md)
  ∧ (accepted = true → rotation_item rotation_id owner None "accepted" None ∈ rotation_items_of md').
Proof.
  destruct accepted; [|intros [= <-]; split_and!; try done; by apply tallied_same].
  intros H. pose proof H as (S & Hi & E)%insert_item_ok. split_and!; [by apply rtc_once|by apply tallied_snoc in E| |done].
  unfold insert_rotation_item in H. by apply bind_ok in H as ([] & _ & [= <-]).
Qed.

Lemma retire_owner_ok md creator_hash fresh now owner n count md' n' count' :
  mine owner →
  retire_owner md creator_hash creator_id fresh now owner n count = Ok (md', n', count') →
  rtc closing_statement md md' ∧ tallied md md' (count' - count) 0
  ∧ retired md' (rf_rotation_id fresh) owner.
Proof.
  intros Hm H. unfold Rotation.retire_owner in H. apply bind_ok in H as ([id r] & Hpr%ok_or_ok & H).
  apply owner_proposal_some in Hpr as [Hr Hb]. apply bind_ok in H as (proposal & _ & H).
  apply bind_ok in H as ([] & _ & H). cbv zeta in H.
  apply bind_ok in H as ([] & Hc%ensure_ok%negb_true_iff & H). apply bind_ok in H as ([] & Hrec%ensure_ok%negb_true_iff & H).
  rewrite some_request_false in Hc, Hrec. apply bind_ok in H as (md1 & H1 & H).
  apply accepted_item_ok in H1 as (S1 & T1 & E1 & Hacc). pose proof (statements_close _ _ S1) as C1.
  pose proof (elem_of_owner_requests collate (mm_db md) owner) as Hin.
  set (parsed := owner_requests collate (mm_db md) owner) in *.
  apply (retire_requests_ok) with (r := r) in H as (S2 & T2 & (r' & Hr' & Hk' & Hf) & Hcan).
  - pose proof (statements_close _ _ S2) as C2.
    assert (lifecycles (mm_db md') = lifecycles (mm_db md)) as El.
    { by rewrite (closes_lifecycles _ _ C2), (closes_lifecycles _ _ C1). }
    split_and!; [by etrans|exact (tallied_trans _ _ _ _ _ _ _ T1 T2)|]. split; rewrite El.
    + exists id, r'. rewrite Hk'. split_and!; [done|done|]. intros Hno. apply Hf.
      destruct parsed as [|[k s] rest]; [done|]. destruct (proj1 (Hin k s)) as (l & Hl & Ho & _); [by left|].
      by destruct (Hno _ _ Hl).
    + intros request l Hl Ho. assert ((request, l_request_state l) ∈ parsed) as Hrl by (apply Hin; by exists l). split_and!.
      * intros E. apply Hc in Hrl. by rewrite E in Hrl.
      * intros E. apply Hrec in Hrl. by rewrite E in Hrl.
      * intros E. apply Hcan, elem_of_proposed_requests. by rewrite <- E.
      * intros E. eapply closes_items; [done|]. apply Hacc, not_false_iff_true. intros F.
        rewrite some_request_false in F. by rewrite (F _ _ Hrl) in E.
  - done.
  - by rewrite E1.
  - done.
  - intros E request l Hl Ho. rewrite (closes_lifecycles _ _ C1) in Hl.
    assert ((request, l_request_state l) ∈ parsed) as Hrl by (apply Hin; by exists l). rewrite E in Hrl.
    by apply not_elem_of_nil in Hrl.
Qed.

Lemma retire_owners_ok creator_hash fresh now owners md n count md' count' :
  (∀ owner, owner ∈ owners → mine owner) →
  retire_owners md creator_hash creator_id fresh now owners n count = Ok (md', count') →
  rtc closing_statement md md' ∧ tallied md md' (count' - count) 0
  ∧ ∀ owner, owner ∈ owners → retired md' (rf_rotation_id fresh) owner.
Proof.
  revert md n count. induction owners as [|owner owners IH]; intros md n count Hm H; simpl in H.
  { injection H as <- <-. split_and!; [done|unfold tallied; lia|]. intros owner Hin. by apply not_elem_of_nil in Hin. }
  apply bind_ok in H as ([[md1 n1] c1] & H1 & H). apply retire_owner_ok in H1 as (S1 & T1 & R); [|set_solver].
  apply IH in H as (S & T & Hall); [|set_solver]. split_and!; [by etrans|unfold tallied in *; lia|]. intros o [->|Hin]%elem_of_cons; [|by apply Hall].
  eapply closes_retired; [by apply statements_close|done].
Qed.
End closing.
