(* ===== verification/RotationProps.v ===== *)
(** * RotationProps: what a rotation of the Bitcoin account leaves behind

    The whole transaction of [Rotation]: every payment request on the old account is
    withdrawn, canceled or already accepted, nothing else is touched, and nothing new is
    issued on the old account. *)

From S2P Require Import Prelude Text Locks Invoice Receiving Payment Lifecycle Pricing Intent Readers Database OutboxStore CreateInvoice PaymentRecord Crypto Observations Settlement LifecycleStore Drains DrainProps Status DrainService Creators Allocation Allocated AllocationProps Provider MarketTerms MarketStore MarketObserve MarketProps MarketLifecycle Rotation RotationClosing Sorting.
Local Open Scope string_scope.
Local Open Scope Z_scope.

(** ** Rotations are runs of the Marketplace lifecycle *)

(** So the Marketplace theorems of [MarketLifecycle] and [MarketReplay] cover rotations. *)
Section marketplace.
Context {core : LocksCore} {lib : PaykitLib}.
Context {prim : CryptoPrimitives} {observations : ObservationCodec} {allocation : AllocationCodec}
  {codec : PreparationCodec} (crypto : Crypto).
Context (to_bytes : DeliveryIntentV1 → option string).
Context {Json : Type} (json_from_str : string → option Json)
  (json_value : Json → option string) (json_is_object : Json → list (string * string) → bool).
Context (format_rfc3339 : Z → option string).
Notation market_step := (market_step crypto to_bytes json_from_str json_value json_is_object format_rfc3339).

Lemma statements_market creator_id mine md md' :
  rtc (closing_statement creator_id mine) md md' → market_wf md → rtc market_step md md'.
Proof.
  induction 1 as [md|md md1 md' S _ IH]; intros W; [done|].
  assert (market_step md md1) as M.
  { apply statement_effect in S as [F|(id & p & now & Hp & Hs & H)]; [by apply ms_other|by eapply ms_rotated|done]. }
  eapply rtc_l; [exact M|]. apply IH. eapply steps_wf; [by apply rtc_once|done].
Qed.
End marketplace.

(** ** Filling in the generations of old preparations *)

Notation generation_of md id := (ac_preparation_generations (mm_ac md) !! id).

Section backfill.
Context {core : LocksCore} {lib : PaykitLib} {prim : CryptoPrimitives} {codec : PreparationCodec} (crypto : Crypto).

(** Every preparation of the creator without a generation was opened, and the ones that
    accept Bitcoin now have the current one; nothing else changed. *)
Record backfilled (md md' : MarketDb) (creator_id : RowId) (creator_hash : string) (generation : Z) : Prop := {
  bf_rest : ∃ t, md' = set_mm_ac md (set_preparation_generations (mm_ac md) t);
  bf_known : ∀ id g, generation_of md id = Some g → generation_of md' id = Some g;
  bf_legacy : ∀ id c, ld_preparation_creators (mm_life md) !! id = Some creator_id → mm_preparations md !! id = Some c →
    generation_of md id = None →
    ∃ e, open_preparation crypto creator_hash id (pn_envelope c) = Ok e
         ∧ generation_of md' id = if envelope_has_bitcoin e then Some generation else None;
  bf_others : ∀ id, ld_preparation_creators (mm_life md) !! id ≠ Some creator_id →
    generation_of md' id = generation_of md id;
}.

Lemma backfill_rows_ok creator_hash generation rows md md' :
  backfill_rows crypto md creator_hash generation rows = Ok md' →
  (∃ t, md' = set_mm_ac md (set_preparation_generations (mm_ac md) t))
  ∧ (∀ id g, generation_of md id = Some g → generation_of md' id = Some g)
  ∧ (∀ id g, generation_of md' id = Some g → generation_of md id = None →
       g = generation ∧ ∃ c e, (id, c) ∈ rows ∧ open_preparation crypto creator_hash id (pn_envelope c) = Ok e
                               ∧ envelope_has_bitcoin e = true)
  ∧ (∀ id c, (id, c) ∈ rows → ∃ e, open_preparation crypto creator_hash id (pn_envelope c) = Ok e
                                   ∧ (envelope_has_bitcoin e = true → is_Some (generation_of md' id))).
Proof.
  revert md. induction rows as [|[id c] rows IH]; intros md H; simpl in H.
  { injection H as <-. split_and!; [by exists (ac_preparation_generations (mm_ac md)); destruct md as [[]]|done|congruence|].
    intros id c Hin. by apply not_elem_of_nil in Hin. }
  apply bind_ok in H as (e & He & H). apply bind_ok in H as (md1 & H1 & H).
  apply IH in H as ((t & ->) & Hk & Hn & Hr).
  assert (∃ t1, md1 = set_mm_ac md (set_preparation_generations (mm_ac md) t1)
    ∧ (∀ i g, generation_of md i = Some g → t1 !! i = Some g)
    ∧ (∀ i g, t1 !! i = Some g → generation_of md i = None → g = generation ∧ i = id ∧ envelope_has_bitcoin e = true)
    ∧ (envelope_has_bitcoin e = true → is_Some (t1 !! id))) as (t1 & -> & Hk1 & Hn1 & Hb1).
  { destruct (envelope_has_bitcoin e).
    - unfold set_legacy_generation in H1. destruct (generation_of md id) eqn:Eg.
      + injection H1 as <-. exists (ac_preparation_generations (mm_ac md)). split_and!; [by destruct md as [[]]|done|congruence|by rewrite Eg].
      + apply bind_ok in H1 as ([] & _ & [= <-]). eexists. split_and!; [done| | |by rewrite lookup_insert_eq].
        * intros i g Hi. rewrite lookup_insert_ne; [done|congruence].
        * intros i g [[<- <-]|[_ Hi]]%lookup_insert_Some Hnone; [done|congruence].
    - injection H1 as <-. exists (ac_preparation_generations (mm_ac md)). split_and!; [by destruct md as [[]]|done|congruence|done]. }
  simpl in *. split_and!.
  - by exists t.
  - intros i g Hi. by apply Hk, Hk1.
  - intros i g Hi Hnone. destruct (t1 !! i) as [g1|] eqn:E1.
    + destruct (Hn1 _ _ E1 Hnone) as (-> & -> & Hb). rewrite (Hk _ _ E1) in Hi. injection Hi as <-. split; [done|].
      exists c, e. split_and!; [by left|done..].
    + destruct (Hn _ _ Hi E1) as (-> & c' & e' & Hin & Ho & Hb). split; [done|]. exists c', e'. split_and!; [by right|done..].
  - intros i c' [[= -> ->]|Hin]%elem_of_cons; [|by apply Hr]. exists e. split; [done|]. intros Hb.
    destruct (Hb1 Hb) as [g Hg]. exists g. by apply Hk.
Qed.

Lemma backfill_ok md creator_id md' :
  backfill_legacy_marketplace_bitcoin_generation crypto md creator_id = Ok md' →
  ∃ creator_hash c, creator_row (mm_ac md) creator_id = Some (creator_hash, c)
    ∧ backfilled md md' creator_id creator_hash (cc_bitcoin_account_generation c).
Proof.
  unfold backfill_legacy_marketplace_bitcoin_generation. intros H. apply bind_ok in H as ([stored c] & Hrow%ok_or_ok & H).
  apply bind_ok in H as (hash & (-> & _)%stored_hash_ok & H). apply backfill_rows_ok in H as (Ht & Hk & Hn & Hr).
  exists hash, c. split; [done|]. unfold legacy_preparations in *. setoid_rewrite elem_of_query in Hn. setoid_rewrite elem_of_query in Hr.
  simpl in *. split; [done|done| |].
  - intros id cols Hc Hm Hg. destruct (Hr id cols) as (e & He & Hb); [by rewrite Hm, Hc, Hg, bool_decide_true|].
    exists e. split; [done|]. destruct (envelope_has_bitcoin e) eqn:Eb.
    + destruct (Hb eq_refl) as [g Eg]. rewrite Eg. f_equal. by destruct (Hn _ _ Eg Hg).
    + destruct (generation_of md' id) as [g|] eqn:Eg; [|done].
      destruct (Hn _ _ Eg Hg) as (_ & c' & e' & (Hm' & _) & He' & Hb'). congruence.
  - intros id Hc. destruct (generation_of md id) as [g|] eqn:Eg; [by apply Hk|].
    destruct (generation_of md' id) as [g|] eqn:Eg'; [|done].
    destruct (Hn _ _ Eg' Eg) as (_ & c' & e' & (_ & Hb) & _). split_bools. done.
Qed.
End backfill.

(** ** The transaction *)

(** The invoices and preparations on one generation of a creator's account. *)
Definition on_account (md : MarketDb) (creator_id : RowId) (generation : Z) (owner : LifecycleOwner) : Prop :=
  match owner with
  | OwnerInvoice id => ∃ row pay x,
      invoices (mm_db md) !! id = Some row ∧ i_creator_id row = creator_id
      ∧ t_invoices (mm_pay md) !! id = Some pay ∧ is_Some (iv_address_lookup_hash (iv_columns pay))
      ∧ ac_invoices (mm_ac md) !! id = Some x ∧ ix_bitcoin_account_generation x = Some generation
  | OwnerMarketplace id => ∃ row,
      preparations (mm_db md) !! id = Some row ∧ ld_preparation_creators (mm_life md) !! id = Some creator_id
      ∧ generation_of md id = Some generation
  end.

Lemma elem_of_rotation_invoices md creator_id generation id :
  id ∈ rotation_invoices md creator_id generation ↔ on_account md creator_id generation (OwnerInvoice id).
Proof.
  unfold rotation_invoices. rewrite list_elem_of_fmap. simpl. split.
  - intros ([i row] & -> & [Hrow H]%elem_of_query). simpl in *. split_bools.
    destruct (t_invoices (mm_pay md) !! i) as [pay|] eqn:Hp; [|done].
    destruct (ac_invoices (mm_ac md) !! i) as [x|] eqn:Hx; [|done]. exists row, pay, x.
    split_and!; try done. by destruct (iv_address_lookup_hash (iv_columns pay)).
  - intros (row & pay & x & Hrow & Hc & Hp & [hash Hh] & Hx & Hg). exists (id, row). split; [done|].
    apply elem_of_query. split; [done|]. simpl. rewrite Hp, Hh, Hx. simpl. by rewrite !bool_decide_true.
Qed.

Lemma elem_of_rotation_preparations md creator_id generation id state :
  (id, state) ∈ rotation_preparations md creator_id generation ↔
  on_account md creator_id generation (OwnerMarketplace id)
  ∧ ∃ row, preparations (mm_db md) !! id = Some row ∧ p_state row = state.
Proof.
  unfold rotation_preparations. rewrite list_elem_of_fmap. simpl. split.
  - intros ([i row] & [= -> ->] & [Hrow H]%elem_of_query). simpl in *. split_bools. naive_solver.
  - intros ((? & _ & Hc & Hg) & row & Hrow & <-). exists (id, row). split; [done|]. apply elem_of_query. split; [done|].
    simpl. by rewrite !bool_decide_true.
Qed.

Lemma elem_of_active_owners rows owner :
  owner ∈ active_owners rows ↔ ∃ id, owner = OwnerMarketplace id ∧ (id, Active) ∈ rows.
Proof.
  unfold active_owners. rewrite list_elem_of_omap. split.
  - intros ([id st] & Hin & H). case_bool_decide; [|done]. naive_solver.
  - intros (id & -> & Hin). exists (id, Active). split; [done|]. by rewrite bool_decide_true.
Qed.

Section rotation.
Context {core : LocksCore} {lib : PaykitLib} {keys : IdentityKeys} {credentials : CredentialCodec}.
Context {prim : CryptoPrimitives} {codec : PreparationCodec} (crypto : Crypto).
Context (from_bytes : string → option DeliveryIntentV1) (to_bytes : DeliveryIntentV1 → option string).
Context (collate : string → string → comparison) (outbox_created_at : RowId → Z).
Notation rotate_account := (rotate_account crypto from_bytes to_bytes collate outbox_created_at).
Notation rotate := (rotate_bitcoin_account_after_receive crypto from_bytes to_bytes collate outbox_created_at).

(** What the writes of a rotation leave. *)
Record rotated (md md' : MarketDb) (creator_hash : string) (creator_id : RowId) (current : Z)
    (replacement : CreatorCredentials) (fresh : RotationFresh) (res : BitcoinAccountRotation) : Prop := {
  ro_statements : rtc (closing_statement creator_id (on_account md creator_id current)) md md';
  ro_generation : 0 <= current ∧ ba_generation res = current + 1;
  ro_account : ∃ c bytes envelope, ac_creators (mm_ac md) !! creator_id = Some c ∧ credentials_encode replacement = Ok bytes
    ∧ encrypt crypto (rf_nonce fresh) (ctx_creator_credentials creator_hash creator_id) bytes = Ok envelope
    ∧ ac_creators (mm_ac md') !! creator_id
      = Some (mk_CreatorColumns envelope (cc_setup_complete c) (cc_next_child_index c) (current + 1));
  ro_voided : ∀ id row, on_account md creator_id current (OwnerMarketplace id) →
    preparations (mm_db md) !! id = Some row → p_state row = Prepared →
    ∃ p now, preparation md id = Some p ∧ preparation md' id = Some (voided now p)
             ∧ voided_item (rf_rotation_id fresh) id ∈ rotation_items_of md';
  ro_retired : ∀ owner, on_account md creator_id current owner →
    (∀ id row, owner = OwnerMarketplace id → preparations (mm_db md) !! id = Some row → p_state row = Active) →
    retired creator_id md' (rf_rotation_id fresh) owner;
  ro_tally : tallied md md' (ba_cancellation_pending_count res) (ba_voided_preparation_count res);
}.

Lemma rotate_account_ok md creator_hash creator_id current replacement fresh now c res md' :
  ac_creators (mm_ac md) !! creator_id = Some c →
  rotate_account md creator_hash creator_id current replacement fresh now = Ok (res, md') →
  rotated md md' creator_hash creator_id current replacement fresh res.
Proof.
  intros Hc H. unfold Rotation.rotate_account in H. cbv zeta in H.
  apply bind_ok in H as (md1 & H1 & H). apply bind_ok in H as ([[md2 owners] voidings] & H2 & H).
  apply bind_ok in H as ([md3 cancellations] & H3 & H). apply bind_ok in H as (bytes & Hb & H).
  apply bind_ok in H as (envelope & He%map_err_ok & H). apply bind_ok in H as (md4 & H4 & H).
  apply bind_ok in H as (md5 & H5 & [= <- <-]).
  set (mine := on_account md creator_id current).
  apply (insert_rotation_ok creator_id mine) in H1 as (S1 & Hpos & t & ->).
  apply (void_preparations_ok creator_id mine) in H2 as (S2 & -> & T2 & Hvoid).
  2: { intros id state Hin. by apply elem_of_rotation_preparations in Hin as [? _]. }
  apply (retire_owners_ok creator_id mine) in H3 as (S3 & T3 & Hret).
  2: { intros owner [(id & -> & Hid%elem_of_rotation_invoices)%list_elem_of_fmap|(id & -> & Hid)%elem_of_active_owners]%elem_of_app;
       [done|]. by apply elem_of_rotation_preparations in Hid as [? _]. }
  apply (install_account_ok creator_id mine) in H4 as (c3 & Hc3 & S4 & E4 & Hc4).
  apply (count_rotation_ok creator_id mine) in H5 as (S5 & Ea & E5).
  assert (rtc (closing_statement creator_id mine) md3 md5) as S35 by (by eapply rtc_l).
  assert (rtc (closing_statement creator_id mine) md md3) as S03.
  { eapply rtc_l; [exact S1|]. by etrans. }
  pose proof (statements_close _ _ _ _ S35) as C35. pose proof (statements_close _ _ _ _ S3) as C3.
  split; simpl; [by etrans|done| | | |].
  - exists c, bytes, envelope. split_and!; [done..|]. rewrite Ea, Hc4.
    destruct (cl_accounts _ _ _ _ (statements_close _ _ _ _ S03) _ _ Hc) as (c' & Hc' & K1 & K2 & _).
    assert (c' = c3) as -> by congruence. by rewrite K1, K2.
  - intros id row Hmine Hrow Hst. destruct (Hvoid id) as (p & at_ & Hp & Hps & Hp' & Hi).
    { apply elem_of_rotation_preparations. eauto. }
    exists p, at_. split_and!; [done| |by eapply closes_items; [exact C35|]; eapply closes_items; [exact C3|]].
    eapply closes_voided; [exact C35| |done]. by eapply closes_voided; [exact C3|..].
  - intros owner Hmine Hact. eapply closes_retired; [exact C35|]. apply Hret, elem_of_app. destruct owner as [id|id].
    + left. apply list_elem_of_fmap. exists id. split; [done|]. by apply elem_of_rotation_invoices.
    + right. apply elem_of_active_owners. exists id. split; [done|]. apply elem_of_rotation_preparations.
      split; [done|]. pose proof Hmine as (row & Hrow & _). exists row. split; [done|]. by apply (Hact id).
  - pose proof (tallied_same _ _ E4) as T4. pose proof (tallied_same _ _ E5) as T5.
    rewrite Z.sub_0_r in T2, T3. unfold tallied in *. simpl in *. unfold recorded, rotation_items_of in *. simpl in *. lia.
Qed.

(** A whole transaction: the checks, then the writes on the backfilled tables. *)
Lemma rotate_ok md replacement evidence fresh now res md' :
  rotate md replacement evidence fresh now = Ok (res, md') →
  let hash := creator_hash_of crypto (cred_creator replacement) in
  ∃ id c existing md1 targets,
    creator_row_of_hash (mm_ac md) hash = Some (id, hash, c) ∧ String.length hash = 32%nat
    ∧ decrypt_credentials crypto id hash (cc_credential_envelope c) = Ok existing
    ∧ validate_reauthentication existing replacement = Ok tt
    ∧ cred_bitcoin_account existing ≠ cred_bitcoin_account replacement
    ∧ is_Some (cred_bitcoin_account existing) ∧ is_Some (cred_bitcoin_account replacement)
    ∧ backfilled crypto md md1 id hash (cc_bitcoin_account_generation c)
    ∧ decode_required_receive_targets crypto from_bytes (mm_db md1) (rotation_target_rows md1 id) [] = Ok targets
    ∧ (∀ t, t ∈ targets → t ∈ evidence)
    ∧ rotated md1 md' hash id (cc_bitcoin_account_generation c) replacement fresh res.
Proof.
  intros H hash. unfold rotate_bitcoin_account_after_receive in H. fold hash in H.
  apply bind_ok in H as ([[id stored] c] & Hrow%ok_or_ok & H). apply bind_ok in H as (existing & Hex & H).
  apply bind_ok in H as ([] & Hval & H). apply bind_ok in H as ([] & Hch%ensure_ok & H). cbv zeta in H.
  apply bind_ok in H as ([] & _ & H). apply bind_ok in H as ([targets md1] & Ht & H).
  apply bind_ok in H as ([] & Hcov%ensure_ok & H).
  pose proof (creator_row_of_hash_some _ _ _ _ _ Hrow) as (_ & -> & Hh & Hc).
  apply bind_ok in Ht as (md1' & Hbf & Ht). apply bind_ok in Ht as (ts & Ht & [= -> ->]).
  apply backfill_ok in Hbf as (hash' & c' & Hrow' & Hbf). unfold creator_row in Hrow'. rewrite Hh, Hc in Hrow'.
  injection Hrow' as <- <-.
  assert (String.length hash = 32%nat) as Hlen.
  { unfold decrypt_credentials in Hex. by apply bind_ok in Hex as (h & (_ & Hlen)%stored_hash_ok & _). }
  assert (ac_creators (mm_ac md1) !! id = Some c) as Hc1 by (by destruct (bf_rest _ _ _ _ _ _ Hbf) as [t ->]).
  exists id, c, existing, md1, targets. unfold bitcoin_account_changed in Hch. split_bools. split_and!; try done.
  - by destruct (cred_bitcoin_account existing).
  - by destruct (cred_bitcoin_account replacement).
  - intros t Hin. unfold receive_evidence_covers in Hcov. rewrite forallb_forall in Hcov.
    apply list_elem_of_In, Hcov in Hin. by apply bool_decide_eq_true in Hin.
  - by eapply rotate_account_ok.
Qed.

Lemma backfilled_rows md md1 id hash g : backfilled crypto md md1 id hash g →
  mm_db md1 = mm_db md ∧ mm_life md1 = mm_life md ∧ mm_pay md1 = mm_pay md
  ∧ ac_creators (mm_ac md1) = ac_creators (mm_ac md) ∧ (∀ i, preparation md1 i = preparation md i).
Proof. intros H. by destruct (bf_rest _ _ _ _ _ _ H) as [t ->]. Qed.
End rotation.

(** ** Theorems *)

Section theorems.
Context {core : LocksCore} {lib : PaykitLib} {keys : IdentityKeys} {credentials : CredentialCodec}.
Context {prim : CryptoPrimitives} {codec : PreparationCodec} (crypto : Crypto).
Context {key_laws : IdentityKeyLaws keys} {codec_laws : CredentialCodecLaws credentials} {laws : CryptoLaws prim}.
Context {canonical : CanonicalDisplay RawCreatorPubky}.
Context (from_bytes : string → option DeliveryIntentV1) (to_bytes : DeliveryIntentV1 → option string).
Context (collate : string → string → comparison) (outbox_created_at : RowId → Z).
Notation rotate := (rotate_bitcoin_account_after_receive crypto from_bytes to_bytes collate outbox_created_at).

(** C19: a rotation retires the old Bitcoin account.  When it commits, the creator's stored
    credentials are exactly the replacement, under the next generation, and the old and new
    accounts exist and differ.  Of what is on the old account (old preparations whose
    sealed terms accept Bitcoin included): every prepared Marketplace invoice is voided;
    for every other invoice, an unanswered proposal that never left the server fails for
    good, every request the reader has but has not accepted has a cancellation in the
    outbox, an accepted one is recorded as such, and none is in conflict or awaiting
    recovery.  The rows it records are counted in its result; and every reader whose answer
    could still be on its way had been received from. *)
Theorem rotation_retires_account md replacement evidence fresh now res md' :
  usdt_valid replacement → String.length (rf_nonce fresh) = NONCE_LENGTH →
  rotate md replacement evidence fresh now = Ok (res, md') →
  let hash := creator_hash_of crypto (cred_creator replacement) in
  ∃ id c existing md1,
    let current := cc_bitcoin_account_generation c in
    creator_row_of_hash (mm_ac md) hash = Some (id, hash, c) ∧ backfilled crypto md md1 id hash current
    ∧ load_with_id crypto (mm_ac md) (cred_creator replacement) = Ok (id, existing)
    ∧ cred_bitcoin_account existing ≠ cred_bitcoin_account replacement
    ∧ load_with_bitcoin_account_generation crypto (mm_ac md') (cred_creator replacement) = Ok (replacement, current + 1)
    ∧ (∀ i row, on_account md1 id current (OwnerMarketplace i) → preparations (mm_db md) !! i = Some row →
         p_state row = Prepared → ∃ p at_, preparation md i = Some p ∧ preparation md' i = Some (voided at_ p))
    ∧ (∀ owner, on_account md1 id current owner →
         (∀ i row, owner = OwnerMarketplace i → preparations (mm_db md) !! i = Some row → p_state row = Active) →
         retired id md' (rf_rotation_id fresh) owner)
    ∧ tallied md md' (ba_cancellation_pending_count res) (ba_voided_preparation_count res)
    ∧ (∀ oid r, outbox (mm_db md) !! oid = Some r → rotation_target md1 id current r = true →
         ∃ intent, row_intent crypto from_bytes (mm_db md) oid (o_key r) = Ok intent
                   ∧ mk_RequiredReceiveTarget (reader_pubky intent) ∈ evidence).
Proof.
  intros Hu Hn H hash. apply rotate_ok in H. cbv zeta in H. fold hash in H.
  destruct H as (id & c & existing & md1 & targets & Hrow & Hlen & Hex & _ & Hne & _ & _ & Hbf & Ht & Hcov & R).
  exists id, c, existing, md1. cbv zeta. pose proof (backfilled_rows _ _ _ _ _ _ Hbf) as (Edb & _ & _ & Eac & Ep).
  destruct R as [Hst [Hpos _] (c1 & bytes & envelope & Hc1 & Hb & He & Hc') Hv Hr Htal].
  pose proof (creator_row_of_hash_some _ _ _ _ _ Hrow) as (Hid & _ & Hh & Hc).
  assert (creators (ac_db (mm_ac md')) = creators (ac_db (mm_ac md))) as Ecr.
  { change (creators (mm_db md') = creators (mm_db md)). rewrite <- Edb. destruct (statements_close _ _ _ _ Hst) as [[=] _ _ _ _ _]. done. }
  split_and!; try done.
  - unfold load_with_id. fold hash. rewrite Hrow. simpl. by rewrite Hex.
  - unfold load_with_bitcoin_account_generation. fold hash.
    rewrite (creator_row_written _ hash id (mk_CreatorColumns envelope (cc_setup_complete c1) (cc_next_child_index c1)
               (cc_bitcoin_account_generation c + 1))); [|unfold creator_of_hash in *; by rewrite Ecr|done|by rewrite Ecr].
    simpl. rewrite (proj2 (Z.leb_le _ _)) by lia. simpl.
    pose proof (sealed_credentials_open crypto _ _ _ _ _ Hu Hlen Hn Hb He) as Hopen. fold hash in Hopen. by rewrite Hopen.
  - intros i row Hon Hrw Hs. rewrite <- Edb in Hrw. destruct (Hv _ _ Hon Hrw Hs) as (p & at_ & Hp & Hp' & _).
    exists p, at_. by rewrite <- Ep.
  - intros owner Hon Hact. apply Hr; [done|]. rewrite Edb. done.
  - by destruct (bf_rest _ _ _ _ _ _ Hbf) as [t ->].
  - intros oid r Hr' Ht'. destruct (decode_targets_cover crypto from_bytes _ _ _ _ oid (o_key r) Ht) as [_ Hin].
    destruct Hin as (intent & Hi & _ & Hmem).
    { unfold rotation_target_rows. replace (creator_row (mm_ac md1) id) with (Some (hash, c)).
      2: { destruct (bf_rest _ _ _ _ _ _ Hbf) as [t ->]. unfold creator_row. simpl.
           change (ac_db (set_preparation_generations (mm_ac md) t)) with (ac_db (mm_ac md)). by rewrite Hh, Hc. }
      apply list_elem_of_fmap. exists (oid, r). split; [done|]. apply elem_of_query. by rewrite Edb. }
    exists intent. rewrite <- Edb. split; [done|]. by apply Hcov.
Qed.

(** a rotation changes nothing but the old account.  Invoices, payment evidence and
    projections, request lifecycles, settlements, drains, assignments and address owners
    are exactly as before; no other creator's row changes and the child index does not
    move; a row of the outbox is unchanged, or it is a proposal of an invoice on the old
    account that never left the server, that no reader has answered, and it is marked as
    failed; a new row is a queued cancellation of an invoice on the old account; a
    preparation is unchanged, or it is a prepared one on the old account and is voided; and
    nothing recorded of earlier rotations is lost. *)
Theorem rotation_touches_only_the_account md replacement evidence fresh now res md' :
  rotate md replacement evidence fresh now = Ok (res, md') →
  ∃ id c md1, creator_of_hash (mm_db md) (creator_hash_of crypto (cred_creator replacement)) = Some id
    ∧ ac_creators (mm_ac md) !! id = Some c
    ∧ backfilled crypto md md1 id (creator_hash_of crypto (cred_creator replacement)) (cc_bitcoin_account_generation c)
    ∧ closes id (on_account md1 id (cc_bitcoin_account_generation c)) md1 md'.
Proof.
  intros H. apply rotate_ok in H as (id & c & existing & md1 & targets & Hrow & _ & _ & _ & _ & _ & _ & Hbf & _ & _ & R).
  exists id, c, md1. pose proof (creator_row_of_hash_some _ _ _ _ _ Hrow) as (Hid & _ & _ & Hc).
  split_and!; [done..|]. apply statements_close, R.
Qed.
End theorems.

(** ** Issuance after a rotation *)

Section issuance.
Context {core : LocksCore} {lib : PaykitLib} {locks : ContentLocks} {bip32 : Bip32}.
Context {keys : IdentityKeys} {credentials : CredentialCodec}.
Context {prim : CryptoPrimitives} {observations : ObservationCodec} {allocation : AllocationCodec}
  {codec : PreparationCodec} (crypto : Crypto).
Context (from_bytes : string → option DeliveryIntentV1) (to_bytes : DeliveryIntentV1 → option string).
Context (collate : string → string → comparison) (outbox_created_at : RowId → Z).
Context (json_object : list (string * string) → string) (metadata_object : list (string * string) → Metadata).
Context {Json : Type} (json_from_str : string → option Json)
  (json_value : Json → option string) (json_is_object : Json → list (string * string) → bool).
Context (static_app : PaykitAppId) (format_rfc3339 : Z → option string).
Notation rotate := (rotate_bitcoin_account_after_receive crypto from_bytes to_bytes collate outbox_created_at).
Notation create_atomic := (create_atomic crypto from_bytes to_bytes json_object metadata_object json_from_str json_value
                             json_is_object static_app format_rfc3339).
Notation market_prepare := (market_prepare crypto json_from_str json_value json_is_object).
Notation market_step := (market_step crypto to_bytes json_from_str json_value json_is_object format_rfc3339).

(** The creator's row after a rotation. *)
Lemma rotated_row md replacement evidence fresh now res md' :
  rotate md replacement evidence fresh now = Ok (res, md') →
  ∃ id c c', creator_row_of_hash (mm_ac md) (creator_hash_of crypto (cred_creator replacement))
               = Some (id, creator_hash_of crypto (cred_creator replacement), c)
    ∧ creator_row_of_hash (mm_ac md') (creator_hash_of crypto (cred_creator replacement))
      = Some (id, creator_hash_of crypto (cred_creator replacement), c')
    ∧ cc_bitcoin_account_generation c' = cc_bitcoin_account_generation c + 1.
Proof.
  intros H. apply rotate_ok in H as (id & c & existing & md1 & targets & Hrow & _ & _ & _ & _ & _ & _ & Hbf & _ & _ & R).
  pose proof (backfilled_rows _ _ _ _ _ _ Hbf) as (Edb & _). destruct R as [Hst _ (c1 & bytes & envelope & _ & _ & _ & Hc') _ _ _].
  pose proof (creator_row_of_hash_some _ _ _ _ _ Hrow) as (Hid & _ & Hh & _).
  assert (creators (ac_db (mm_ac md')) = creators (ac_db (mm_ac md))) as Ecr.
  { change (creators (mm_db md') = creators (mm_db md)). rewrite <- Edb. by destruct (statements_close _ _ _ _ Hst) as [[=] _ _ _ _ _]. }
  exists id, c. eexists. split_and!; [done|apply creator_row_written|].
  - unfold creator_of_hash in *. by rewrite Ecr.
  - exact Hc'.
  - by rewrite Ecr.
  - done.
Qed.

(** nothing new is issued on a retired account.  After a rotation an invoice or a
    Marketplace preparation derived from the old account, which names the old generation,
    is never created: the request is answered from what already exists or refused.  And
    the rotation moves Marketplace invoices only along their lifecycle. *)
Theorem rotation_fences_issuance md replacement evidence fresh now res md' :
  rotate md replacement evidence fresh now = Ok (res, md') → market_wf md →
  ∃ id c, creator_row_of_hash (mm_ac md) (creator_hash_of crypto (cred_creator replacement))
            = Some (id, creator_hash_of crypto (cred_creator replacement), c)
    ∧ (∀ input fresh' now' answer ac', ai_creator input = cred_creator replacement →
         expected_bitcoin_account_generation (ai_payloads input) = Some (cc_bitcoin_account_generation c) →
         create_atomic (mm_ac md') input fresh' now' = Ok (answer, ac') → ar_replayed answer = true)
    ∧ (∀ input pid nonce now' answer md'', mi_creator input = cred_creator replacement →
         fa_expected_generation (mi_payloads input) = Some (cc_bitcoin_account_generation c) →
         market_prepare md' input pid nonce now' = Ok (answer, md'') → mr_replayed answer = true ∧ md'' = md')
    ∧ rtc market_step md md' ∧ market_wf md'.
Proof.
  intros H W. pose proof H as (id & c & c' & Hrow & Hrow' & Hg)%rotated_row. exists id, c. split; [done|].
  assert (rtc market_step md md') as Hsteps.
  { apply rotate_ok in H as (i & c0 & ? & md1 & ? & _ & _ & _ & _ & _ & _ & _ & Hbf & _ & _ & R).
    assert (market_frame md md1) as F.
    { destruct (bf_rest _ _ _ _ _ _ Hbf) as [t ->]. by destruct (frame_refl md W); split. }
    eapply rtc_l; [by apply ms_other|]. eapply statements_market; [apply R|]. by eapply frame_wf. }
  split_and!; [| |done|by eapply steps_wf].
  - intros input fresh' now' answer ac' Hcr Hexp Ha.
    apply create_atomic_ok in Ha as (cid & creator & ? & ? & ? & ? & Ha). cbv zeta in Ha.
    destruct Ha as (_ & Hr & _ & _ & _ & [(_ & [[? ?] ?] & _ & Hrep)|[_ Hal]]); [unfold replay_result in Hrep; by inv_ok|].
    rewrite Hcr, Hrow' in Hr. injection Hr as <- <-. unfold allocate in Hal. cbv zeta in Hal. rewrite Hexp, Hg in Hal.
    apply bind_ok in Hal as (? & Hz%ensure_ok & _). split_bools. lia.
  - intros input pid nonce now' answer md'' Hcr Hexp Hp. apply market_prepare_ok in Hp as (cid & creator & Hr & _ & _ & Hp).
    rewrite Hcr, Hrow' in Hr. injection Hr as <- <-. destruct (load_locked _ _ _) as [[existing cols]|].
    + destruct Hp as [Hrep ->]. split; [|done]. unfold validate_replay in Hrep. by inv_ok.
    + unfold prepare_new in Hp. rewrite Hexp, Hg in Hp. apply bind_ok in Hp as (? & Hz%ensure_ok & _). split_bools. lia.
Qed.
End issuance.

(** ** A creator changes its Bitcoin account

    A concrete run the theorems are applied to: one invoice was never handed over, one is
    known to its reader, one was accepted, and a Marketplace invoice from before generations
    were kept is still prepared. *)

#[global] Instance CreatorCredentialsV1_eq_dec : EqDecision CreatorCredentialsV1.
Proof. solve_decision. Defined.

Module Example_rotation.
#[export] Existing Instance Example_creators.plain_core.
#[export] Existing Instance Example_creators.pair_keys.
#[export] Existing Instance Example_drains.drain_primitives.
#[export] Existing Instance Example_lib.example_lib.
#[export] Existing Instance Example_allocation.observations.
#[export] Existing Instance Example_allocation.codec.
#[export] Existing Instance Example_create.example_bip32.

(** Locks are texts, as in [Example_create]. *)
#[export] Instance plain_locks : ContentLocks := {|
  ContentLock := string * string * string * Z;
  Criterion := string * string * string * Z;
  lock_creator := λ l, l.1.1.1;
  criteria := λ l, [l];
  validate_paykit_payment_v1_policy := λ _, true;
  is_paykit_payment := λ _, true;
  param_str := λ c k, if String.eqb k "asset" then Some c.1.1.2
                      else if String.eqb k "amount" then Some c.1.2 else None;
  paykit_payment_in := λ c, Some (Some c.2);
|}.

Definition crypto : Crypto := Example_crypto.example_crypto.

Definition nonce : string := repeat_char "n" 24.

(** Credentials that differ in the account only, and a codec that knows both. *)
Definition account (xpub : string) : CreatorCredentials :=
  mk_CreatorCredentials (mk_CreatorPubky ("creator" : RawCreatorPubky)) "session" (("key", 1) : IdentityKey)
    (Some (mk_BitcoinAccount xpub 0)) None.

Definition wire (xpub : string) : CreatorCredentialsV1 :=
  mk_CreatorCredentialsV1 1 "creator" "session" "key" 1 (Some (mk_BitcoinAccount xpub 0)) None.

#[export] Instance wire_codec : CredentialCodec := {|
  credentials_to_bytes w :=
    if decide (w = wire "old") then Some "old" else if decide (w = wire "new") then Some "new" else None;
  credentials_from_bytes s := if String.eqb s "old" || String.eqb s "new" then Some (wire s) else None;
|}.

Lemma account_codec_laws : CredentialCodecLaws wire_codec.
Proof. intros w bytes. simpl. case_decide as H1; [subst w; by intros [= <-]|]. case_decide as H2; [subst w; by intros [= <-]|done]. Qed.

Lemma account_usdt xpub : usdt_valid (account xpub).
Proof. intros a H. discriminate H. Qed.

Definition creator_hash : string := creator_hash_of crypto (mk_CreatorPubky ("creator" : RawCreatorPubky)).

Definition sealed (context : EnvelopeContext) (plaintext : string) : string :=
  match encrypt crypto nonce context plaintext with Ok s => s | Err _ => "" end.

#[export] Instance preparation_codec : PreparationCodec := {|
  preparation_to_bytes _ := None;
  preparation_from_bytes _ := Some (mk_PreparationEnvelope 2 "operation" "binding" "reader" "7cceb26d"
    (mk_MarketplaceTerms 500 Btc [Accept_Btc]) 3600 1800 100 200 3 Example_lib.example_intent);
  preparation_v1_from_bytes _ := None;
|}.

Definition from_bytes (s : string) : option DeliveryIntentV1 :=
  if String.eqb s "intent" then Some Example_lib.example_intent else None.

Definition to_bytes (i : DeliveryIntentV1) : option string := Some "cancellation".

(** The proposal of an invoice. *)
Definition proposal (id invoice : RowId) (status : OutboxStatus) (sdk : SdkColumns) : OutboxRow :=
  mk_OutboxRow (mk_OutboxKey 7 (Some invoice) None PaymentRequestProposalKind
      (sealed (ctx_outbox_semantic_intent creator_hash id) "intent") (Some "reference") None)
    false status None 0 0 0 no_lease sdk 0.

Definition db : Db :=
  mk_Db {[1%N := proposal 1 11 Queued no_sdk;
          2%N := proposal 2 12 Delivered (mk_SdkColumns (Some "8") (Some "event") (Some "r12"));
          3%N := proposal 3 13 Delivered (mk_SdkColumns (Some "9") (Some "event") (Some "r13"))]}
    {[7%N := creator_hash]}
    {[11%N := mk_InvoiceRow 7 "lock" 0 100; 12%N := mk_InvoiceRow 7 "lock" 0 100; 13%N := mk_InvoiceRow 7 "lock" 0 100]} ∅
    {[31%N := mk_PreparationRow Prepared None]}
    {["r12" := mk_LifecycleRow (Some 12%N) None Proposed; "r13" := mk_LifecycleRow (Some 13%N) None Accepted]} ∅.

Definition paying (address : string) : PaymentInvoice :=
  mk_PaymentInvoice (mk_InvoiceColumns 7 creator_hash "reader" "" (Some address) 10 100) undetected.

Definition pay : PaymentDb :=
  mk_PaymentDb {[11%N := paying "a"; 12%N := paying "b"; 13%N := paying "c"]} ∅ ∅ ∅ ∅ ∅ ∅ ∅.

Definition allocated : AllocationColumns := mk_AllocationColumns "request" "" "derivation" 50 10 20 (Some 0).

Definition hash32 : string := repeat_char "h" 32.

Definition start : MarketDb :=
  mk_MarketDb
    (mk_AccountDb (mk_DrainDb (mk_LifecycleDb db ∅ ∅ {[31%N := 7%N]} ∅) pay ∅ ∅ ∅ [] ∅)
       {[7%N := mk_CreatorColumns (sealed (ctx_creator_credentials creator_hash 7) "old") true 4 0]} ∅
       {[11%N := allocated; 12%N := allocated; 13%N := allocated]} ∅ ∅ ∅ ∅)
    {[31%N := mk_PreparationColumns hash32 hash32 hash32
        (sealed (ctx_marketplace_preparation creator_hash 31) (String (byte_char 2) "prepared")) 100 200 None None None None]} ∅ ∅.

Definition fresh : RotationFresh := mk_RotationFresh 61 (λ n, (N.of_nat (70 + n), nonce)) nonce (λ _, 500).

Definition evidence : list RequiredReceiveTarget := [mk_RequiredReceiveTarget (reader_pubky Example_lib.example_intent)].

Definition rotate (md : MarketDb) : result PersistenceError (BitcoinAccountRotation * MarketDb) :=
  rotate_bitcoin_account_after_receive crypto from_bytes to_bytes str_compare (λ _, 0) md (account "new") evidence fresh 500.

Definition rotated : MarketDb := match rotate start with Ok (_, md) => md | Err _ => start end.

Lemma rotate_run :
  rotate_bitcoin_account_after_receive crypto from_bytes to_bytes str_compare (λ _, 0) start (account "new") evidence fresh 500
  = Ok (mk_BitcoinAccountRotation 1 1 1, rotated).
Proof.
  unfold rotated. fold (rotate start).
  assert (match rotate start with Ok (r, _) => r = mk_BitcoinAccountRotation 1 1 1 | Err _ => False end) as H
    by (vm_compute; reflexivity).
  destruct (rotate start) as [[r md]|e]; [by subst r|done].
Qed.
End Example_rotation.
Import Example_rotation.

Lemma rotation_retires_account_witness :
  load_with_bitcoin_account_generation crypto (mm_ac rotated) (mk_CreatorPubky ("creator" : RawCreatorPubky))
  = Ok (account "new", 1) ∧ retired 7 rotated 61 (OwnerInvoice 12%N).
Proof.
  pose proof Example_creators.pair_keys_laws as K. pose proof account_codec_laws as C. pose proof Example_drains.drain_laws as L.
  pose proof Example_creators.plain_canonical as P.
  assert (String.length (rf_nonce fresh) = NONCE_LENGTH) as Hn by (vm_compute; reflexivity).
  destruct (rotation_retires_account crypto from_bytes to_bytes str_compare (λ _, 0) start (account "new") evidence fresh 500
    (mk_BitcoinAccountRotation 1 1 1) rotated (account_usdt "new") Hn rotate_run)
    as (id & c & existing & md1 & Hrow & Hbf & _ & _ & Hload & _ & Hret & _).
  assert (creator_row_of_hash (mm_ac start) (creator_hash_of crypto (cred_creator (account "new")))
          = Some (7%N, creator_hash, mk_CreatorColumns (sealed (ctx_creator_credentials creator_hash 7) "old") true 4 0)) as E
    by (vm_compute; reflexivity).
  rewrite E in Hrow. injection Hrow as <- <-. split; [exact Hload|]. apply Hret; [|intros i row H; discriminate H].
  destruct (bf_rest _ _ _ _ _ _ Hbf) as [t ->].
  exists (mk_InvoiceRow 7 "lock" 0 100), (paying "b"), allocated.
  split; [reflexivity|]. split; [reflexivity|]. split; [reflexivity|]. split; [by eexists|]. split; reflexivity.
Defined.

Lemma rotation_touches_only_the_account_witness : lifecycles (mm_db rotated) = lifecycles (mm_db start).
Proof.
  destruct (rotation_touches_only_the_account crypto from_bytes to_bytes str_compare (λ _, 0) start (account "new") evidence fresh 500
    (mk_BitcoinAccountRotation 1 1 1) rotated rotate_run) as (id & c & md1 & _ & _ & Hbf & Hcl).
  destruct (bf_rest _ _ _ _ _ _ Hbf) as [t ->]. exact (closes_lifecycles _ _ _ _ Hcl).
Defined.

Lemma rotation_start_wf : market_wf start.
Proof.
  assert (∀ i p, preparation start i = Some p → i = 31%N ∧ pp_state p = Prepared ∧ preparation_check p = true) as Hp.
  { intros i p H. pose proof H as (Hi & _ & _)%preparation_some.
    change (({[31%N := 7%N]} : gmap RowId RowId) !! i = Some (pp_creator_id p)) in Hi.
    apply lookup_singleton_Some in Hi as [<- _]. split; [done|].
    vm_compute in H. injection H as <-. by vm_compute. }
  split.
  - intros i j hash. change (creators (mm_db start)) with ({[7%N := creator_hash]} : gmap RowId string).
    intros [<- _]%lookup_singleton_Some [<- _]%lookup_singleton_Some. done.
  - intros i c. unfold start. simpl. intros [<- _]%lookup_singleton_Some. by eexists.
  - intros i p H. by apply Hp in H as (_ & _ & ?).
  - intros i i' p p' [-> _]%Hp [-> _]%Hp. done.
  - intros i s. unfold start. simpl. by rewrite lookup_empty.
  - intros i p (_ & Hs & _)%Hp Ha. congruence.
  - intros i rid r Hr Hm. exfalso. unfold market_proposal in Hm. apply andb_true_iff in Hm as [Hm _]. split_bools.
    change (outbox (mm_db start)) with (outbox db) in Hr. unfold db in Hr. cbn [outbox] in Hr.
    do 2 (apply lookup_insert_Some in Hr as [[_ <-]|[_ Hr]]; [done|]). by apply lookup_singleton_Some in Hr as [_ <-].
  - intros i p (_ & Hs & _)%Hp Ha. congruence.
Qed.

Lemma rotation_fences_issuance_witness : market_wf rotated.
Proof.
  destruct (rotation_fences_issuance crypto from_bytes to_bytes str_compare (λ _, 0) Example_allocation.json_object
    Example_create.metadata_object Example_allocation.from_str Some (λ _ _, true) PAYKIT_APP_ID (λ t, Some (fmt_dec t))
    start (account "new") evidence fresh 500 (mk_BitcoinAccountRotation 1 1 1) rotated rotate_run rotation_start_wf)
    as (id & c & _ & _ & _ & _ & W). exact W.
Defined.
