(* ===== verification/Tally.v ===== *)
(** * Tally: sums over tables

    Permits, slots and requests in flight are counted over the tables of their owners; the
    lemmas follow the sum through the updates of a table. *)

From S2P Require Import Prelude.
Local Open Scope Z_scope.

(** The sum of a weight over a table. *)
Definition tally {K A} `{Countable K} (w : A → Z) (m : gmap K A) : Z := map_fold (λ _ a n, w a + n) 0 m.

Section tally.
Context {K A : Type} `{Countable K}.
Implicit Types (w : A → Z) (m : gmap K A).

Lemma tally_empty w : tally w (∅ : gmap K A) = 0.
Proof. unfold tally. apply map_fold_empty. Qed.

Lemma tally_insert_new w m k a : m !! k = None → tally w (<[k := a]> m) = w a + tally w m.
Proof. intros Hk. unfold tally. rewrite map_fold_insert_L; [done|intros; lia|done]. Qed.

Lemma tally_delete w m k a : m !! k = Some a → tally w (delete k m) = tally w m - w a.
Proof.
  intros Hk. rewrite <- (insert_delete_id m k a Hk) at 2. rewrite tally_insert_new by apply lookup_delete_eq. lia.
Qed.

Lemma tally_insert w m k a b : m !! k = Some a → tally w (<[k := b]> m) = tally w m - w a + w b.
Proof.
  intros Hk. rewrite <- insert_delete_eq, tally_insert_new by apply lookup_delete_eq. rewrite (tally_delete w m k a Hk). lia.
Qed.

Lemma tally_fmap w (f : A → A) m : (∀ a, w (f a) = w a) → tally w (f <$> m) = tally w m.
Proof.
  intros Hf. induction m as [|k a m Hk IH] using map_ind; [by rewrite fmap_empty|].
  rewrite fmap_insert, !tally_insert_new by (by rewrite ?lookup_fmap, ?Hk). by rewrite Hf, IH.
Qed.

Lemma tally_filter w (b : A → bool) m :
  tally w m = tally w (filter (λ kv, b kv.2 = true) m) + tally w (filter (λ kv, b kv.2 = false) m).
Proof.
  induction m as [|k a m Hk IH] using map_ind; [by rewrite !map_filter_empty, !tally_empty|].
  rewrite tally_insert_new by done. destruct (b a) eqn:Eb.
  - rewrite map_filter_insert_True, map_filter_insert_False, delete_id by (simpl; congruence).
    rewrite tally_insert_new by (by apply map_lookup_filter_None; left). lia.
  - rewrite map_filter_insert_False, map_filter_insert_True, delete_id by (simpl; congruence).
    rewrite tally_insert_new by (by apply map_lookup_filter_None; left). lia.
Qed.

Lemma tally_mono w w' m : (∀ k a, m !! k = Some a → w a <= w' a) → tally w m <= tally w' m.
Proof.
  induction m as [|k a m Hk IH] using map_ind; [by rewrite !tally_empty|].
  intros Hw. rewrite !tally_insert_new by done. pose proof (Hw k a ltac:(by rewrite lookup_insert_eq)).
  enough (tally w m <= tally w' m) by lia. apply IH. intros k' a' Hk'. apply (Hw k').
  by rewrite lookup_insert_ne by naive_solver.
Qed.

Lemma tally_nonneg w m : (∀ a, 0 <= w a) → 0 <= tally w m.
Proof.
  intros Hw. induction m as [|k a m Hk IH] using map_ind; [by rewrite tally_empty|].
  rewrite tally_insert_new by done. specialize (Hw a). lia.
Qed.

Lemma tally_in w m k a : (∀ a, 0 <= w a) → m !! k = Some a → w a <= tally w m.
Proof. intros Hw Hk. pose proof (tally_delete w m k a Hk). pose proof (tally_nonneg w (delete k m) Hw). lia. Qed.

Lemma tally_zero w m : (∀ k a, m !! k = Some a → w a = 0) → tally w m = 0.
Proof.
  induction m as [|k a m Hk IH] using map_ind; [by rewrite tally_empty|].
  intros Hw. rewrite tally_insert_new by done. rewrite (Hw k a) by (by rewrite lookup_insert_eq).
  rewrite IH; [done|]. intros k' a' Hk'. apply (Hw k'). by rewrite lookup_insert_ne by naive_solver.
Qed.

Lemma tally_some w m : (∀ k a, m !! k = Some a → w a = 0) ∨ ∃ k a, m !! k = Some a ∧ w a ≠ 0.
Proof.
  induction m as [|k a m Hk IH] using map_ind; [left; intros *; by rewrite lookup_empty|].
  destruct (decide (w a = 0)) as [Ha|Ha]; [|right; exists k, a; by rewrite lookup_insert_eq].
  destruct IH as [IH|(k' & a' & Hk' & Ha')].
  - left. intros k' a' [[_ <-]|[_ H']]%lookup_insert_Some; [done|eauto].
  - right. exists k', a'. split; [|done]. rewrite lookup_insert_ne; [done|]. congruence.
Qed.
End tally.
