(* ===== verification/Limits.v ===== *)
(** * Limits: the two rate limiters ([setup.rs], [http/auth.rs])

    Setup requests are limited per client address: a window of a minute opens with a
    client's first request and admits a fixed number of them, and a queue of expirations,
    in the order the windows opened, keeps the table small.  Signed service requests share
    one token bucket that refills continuously, in whole tokens with the fraction carried
    over.  An instant is a number of nanoseconds of a monotonic clock. *)

From S2P Require Import Prelude Text.
Local Open Scope Z_scope.

(** ** [PerIpRateLimiter] *)

(** [std::net::IpAddr] *)
Inductive IpAddr := IpV4 (bits : N) | IpV6 (bits : N).

#[global] Instance IpAddr_eq_dec : EqDecision IpAddr.
Proof. solve_decision. Defined.

#[global] Instance IpAddr_countable : Countable IpAddr.
Proof.
  refine (inj_countable' (λ ip, match ip with IpV4 n => inl n | IpV6 n => inr n end)
            (λ s, match s with inl n => IpV4 n | inr n => IpV6 n end) _).
  by intros [].
Defined.

(** [Duration::MAX] *)
Definition DURATION_MAX : Z := u64_max * 1000000000 + 999999999.

Definition PER_IP_RATE_WINDOW : Z := 60 * 1000000000.

Record PerIpRateWindow := mk_PerIpRateWindow {
  rw_started_at : Z;
  rw_count : Z;
}.

Record PerIpRateLimiter := mk_PerIpRateLimiter {
  rl_limit : Z;
  rl_max_clients : Z;
  rl_windows : gmap IpAddr PerIpRateWindow;
  rl_expirations : list (Z * IpAddr);
}.

Definition with_max_clients (limit max_clients : Z) : PerIpRateLimiter := mk_PerIpRateLimiter limit max_clients ∅ [].

(** The loop over the front of the queue. *)
Fixpoint expire_front (now : Z) (windows : gmap IpAddr PerIpRateWindow) (expirations : list (Z * IpAddr)) :
    gmap IpAddr PerIpRateWindow * list (Z * IpAddr) :=
  match expirations with
  | (expires_at, ip) :: rest =>
      if expires_at <=? now then
        expire_front now
          (match windows !! ip with
           | Some w => if PER_IP_RATE_WINDOW <=? Z.max 0 (now - rw_started_at w) then delete ip windows else windows
           | None => windows
           end) rest
      else (windows, expirations)
  | [] => (windows, [])
  end.

Definition permit (l : PerIpRateLimiter) (peer_ip : IpAddr) (now : Z) : bool * PerIpRateLimiter :=
  let '(windows, expirations) := expire_front now (rl_windows l) (rl_expirations l) in
  let keep := mk_PerIpRateLimiter (rl_limit l) (rl_max_clients l) in
  match windows !! peer_ip with
  | Some w =>
      if rl_limit l <=? rw_count w then (false, keep windows expirations)
      else (true, keep (<[peer_ip := mk_PerIpRateWindow (rw_started_at w) (rw_count w + 1)]> windows) expirations)
  | None =>
      if rl_max_clients l <=? Z.of_nat (size windows) then (false, keep windows expirations)
      else (true, keep (<[peer_ip := mk_PerIpRateWindow now 1]> windows)
                    (expirations ++ [(Z.min DURATION_MAX (now + PER_IP_RATE_WINDOW), peer_ip)]))
  end.

(** ** [TokenBucket] *)

Record TokenBucket := mk_TokenBucket {
  tb_rate_per_second : Z;
  tb_burst : Z;
  tb_tokens : Z;
  tb_remainder : Z;
  tb_last : Z;
}.

Definition u128_max : Z := 2 ^ 128 - 1.

Definition TokenBucket_new (rate_per_second burst now : Z) : TokenBucket :=
  mk_TokenBucket rate_per_second burst burst 0 now.

(** The refill for the time since the last request, with its saturating arithmetic. *)
Definition refill (b : TokenBucket) (now : Z) : TokenBucket :=
  let elapsed := Z.max 0 (now - tb_last b) in
  if tb_tokens b =? tb_burst b then mk_TokenBucket (tb_rate_per_second b) (tb_burst b) (tb_tokens b) 0 now
  else
    let accrued := Z.min u128_max (Z.min u128_max (elapsed * tb_rate_per_second b) + tb_remainder b) in
    let added := accrued / 1000000000 in
    let added := if added <=? u64_max then added else u64_max in
    let tokens := Z.min (Z.min u64_max (tb_tokens b + added)) (tb_burst b) in
    let remainder := if tokens =? tb_burst b then 0 else accrued mod 1000000000 in
    mk_TokenBucket (tb_rate_per_second b) (tb_burst b) tokens remainder now.

Definition try_take (b : TokenBucket) (now : Z) : bool * TokenBucket :=
  let b := refill b now in
  if tb_tokens b =? 0 then (false, b)
  else (true, mk_TokenBucket (tb_rate_per_second b) (tb_burst b) (tb_tokens b - 1) (tb_remainder b) (tb_last b)).

(** ** The token bucket is exact *)

Record bucket_wf (b : TokenBucket) : Prop := {
  bw_rate : 0 <= tb_rate_per_second b;
  bw_burst : tb_burst b <= u64_max;
  bw_tokens : 0 <= tb_tokens b <= tb_burst b;
  bw_remainder : 0 <= tb_remainder b < 1000000000;
  bw_full : tb_tokens b = tb_burst b → tb_remainder b = 0;
}.

(** The fill level in billionths of a token. *)
Definition level (b : TokenBucket) : Z := tb_tokens b * 1000000000 + tb_remainder b.

(** The reference: a real-valued bucket that fills at a constant rate up to its size, and
    from which a request takes one whole token if there is one. *)
Definition ideal_take (rate burst level last now : Z) : bool * Z :=
  let level := Z.min (burst * 1000000000) (level + Z.max 0 (now - last) * rate) in
  if 1000000000 <=? level then (true, level - 1000000000) else (false, level).

(** The arithmetic of one refill. *)
Lemma refill_level tokens remainder burst gain :
  0 <= gain → 0 <= tokens < burst → burst <= u64_max → 0 <= remainder < 1000000000 →
  let accrued := Z.min u128_max (Z.min u128_max gain + remainder) in
  let added := if accrued / 1000000000 <=? u64_max then accrued / 1000000000 else u64_max in
  let tokens' := Z.min (Z.min u64_max (tokens + added)) burst in
  let remainder' := if tokens' =? burst then 0 else accrued mod 1000000000 in
  0 <= tokens' <= burst ∧ 0 <= remainder' < 1000000000 ∧ (tokens' = burst → remainder' = 0)
  ∧ tokens' * 1000000000 + remainder' = Z.min (burst * 1000000000) (tokens * 1000000000 + remainder + gain).
Proof.
  intros Hg Ht Hb Hr. cbv zeta.
  assert (u64_max = 18446744073709551615) as E64 by reflexivity.
  assert (u128_max = 340282366920938463463374607431768211455) as E128 by reflexivity.
  set (accrued := Z.min u128_max (Z.min u128_max gain + remainder)).
  assert (0 <= accrued /\ (accrued = gain + remainder \/ accrued = u128_max /\ u128_max <= gain + remainder)) as [H0 Hacc] by lia.
  pose proof (Z.div_mod accrued 1000000000 ltac:(lia)) as Hdm.
  pose proof (Z.mod_pos_bound accrued 1000000000 ltac:(lia)) as Hmod.
  pose proof (Z.div_pos accrued 1000000000 H0 ltac:(lia)) as Hdiv.
  set (q := accrued / 1000000000) in *. set (m := accrued mod 1000000000) in *. clearbody q m accrued.
  destruct (q <=? u64_max) eqn:Eq; split_bools.
  - destruct (Z.min (Z.min u64_max (tokens + q)) burst =? burst) eqn:Et; split_bools; lia.
  - destruct (Z.min (Z.min u64_max (tokens + u64_max)) burst =? burst) eqn:Et; split_bools; lia.
Qed.

Lemma refill_exact b now :
  bucket_wf b →
  bucket_wf (refill b now) ∧ tb_rate_per_second (refill b now) = tb_rate_per_second b ∧ tb_burst (refill b now) = tb_burst b
  ∧ tb_last (refill b now) = now
  ∧ level (refill b now) = Z.min (tb_burst b * 1000000000) (level b + Z.max 0 (now - tb_last b) * tb_rate_per_second b).
Proof.
  intros [H1 H2 H3 H4 H5]. unfold refill. assert (0 <= Z.max 0 (now - tb_last b) * tb_rate_per_second b) as Hg by nia.
  destruct (tb_tokens b =? tb_burst b) eqn:E; split_bools.
  - unfold level. simpl. split_and!; [split; simpl; lia|done..|]. rewrite (H5 E), E. lia.
  - pose proof (refill_level (tb_tokens b) (tb_remainder b) (tb_burst b) _ Hg ltac:(lia) H2 H4) as (T1 & T2 & T3 & T4).
    cbv zeta in *. unfold level. simpl. split_and!; [by split|done..]. 
Qed.

(** C28: the token bucket of signed requests is exact.  Every request is answered, and the
    bucket left, exactly as by a real-valued bucket that fills at the configured rate up to
    the burst: rounding to whole tokens, carrying the fraction and saturating lose and
    create nothing. *)
Theorem token_bucket_exact b now :
  bucket_wf b →
  let '(granted, b') := try_take b now in
  bucket_wf b' ∧ tb_last b' = now
  ∧ ideal_take (tb_rate_per_second b) (tb_burst b) (level b) (tb_last b) now = (granted, level b').
Proof.
  intros W. destruct (refill_exact b now W) as (W' & Hr & Hb & Hl & Hlev). unfold try_take, ideal_take. rewrite <- Hlev.
  destruct W' as [H1 H2 H3 H4 H5]. unfold level in *. destruct (tb_tokens (refill b now) =? 0) eqn:E; split_bools.
  - rewrite (proj2 (Z.leb_gt _ _)) by lia. split_and!; [by split|done..].
  - rewrite (proj2 (Z.leb_le _ _)) by lia. simpl. split_and!; [|done|f_equal; lia]. split; simpl; lia.
Qed.

(** *** Any stretch of requests *)

(** How many of the requests at these instants are granted. *)
Fixpoint taken (b : TokenBucket) (calls : list Z) : Z :=
  match calls with
  | [] => 0
  | now :: calls => let '(granted, b) := try_take b now in (if granted then 1 else 0) + taken b calls
  end.

(** Instants in order, from [start] on. *)
Fixpoint in_order (start : Z) (calls : list Z) : Prop :=
  match calls with [] => True | now :: calls => start <= now ∧ in_order now calls end.

Lemma try_take_level b now granted b' :
  bucket_wf b → tb_last b <= now → try_take b now = (granted, b') →
  bucket_wf b' ∧ tb_last b' = now ∧ tb_burst b' = tb_burst b ∧ tb_rate_per_second b' = tb_rate_per_second b
  ∧ level b' + (if granted then 1000000000 else 0)
    = Z.min (tb_burst b * 1000000000) (level b + (now - tb_last b) * tb_rate_per_second b).
Proof.
  intros W Hle H. destruct (refill_exact b now W) as (W' & Hr & Hb & Hl & Hlev). rewrite Z.max_r in Hlev by lia.
  rewrite <- Hlev. destruct W' as [H1 H2 H3 H4 H5]. unfold try_take, level in *.
  destruct (tb_tokens (refill b now) =? 0) eqn:E; split_bools; injection H as <- <-; simpl;
    (split_and!; [split; simpl; lia|done..|lia]).
Qed.

Lemma last_from {A} (x d : A) (l : list A) : List.last (x :: l) d = List.last l x.
Proof. revert x d. induction l as [|y l IH]; intros x d; [done|]. change (List.last (y :: l) d = List.last (y :: l) x). by rewrite !IH. Qed.

Lemma taken_bound calls b :
  bucket_wf b → in_order (tb_last b) calls →
  taken b calls * 1000000000 <= level b + (List.last calls (tb_last b) - tb_last b) * tb_rate_per_second b.
Proof.
  revert b. induction calls as [|now calls IH]; intros b W Ho.
  { destruct W as [H1 H2 H3 H4 H5]. unfold level. simpl. lia. }
  destruct Ho as [Hle Ho]. cbn [taken]. destruct (try_take b now) as [granted b'] eqn:E.
  apply try_take_level in E as (W' & Hl & Hb & Hr & Hlev); [|done..]. specialize (IH b' W'). rewrite Hl in IH. specialize (IH Ho).
  rewrite Hr in IH.
  rewrite last_from.
  destruct granted; lia.
Qed.

(** signed requests are limited over every stretch of time.  However the requests
    fall, the ones granted between two of them are at most the burst plus the configured
    rate times the time between; and with a positive burst a request is granted whenever
    at least one token's worth of time has passed since the one before. *)
Theorem token_bucket_bounds b calls first :
  bucket_wf b → in_order (tb_last b) (first :: calls) →
  taken b (first :: calls) * 1000000000
    <= tb_burst b * 1000000000 + (List.last calls first - first) * tb_rate_per_second b
  ∧ (0 < tb_burst b → 1000000000 <= (first - tb_last b) * tb_rate_per_second b → (try_take b first).1 = true).
Proof.
  intros W [Hle Ho]. split.
  - simpl. destruct (try_take b first) as [granted b'] eqn:E.
    apply try_take_level in E as (W' & Hl & Hb & Hr & Hlev); [|done..].
    pose proof (taken_bound calls b' W') as Hrest. rewrite Hl, Hr in Hrest. specialize (Hrest Ho). destruct granted; lia.
  - intros Hpos Htime. destruct (try_take b first) as [granted b'] eqn:E.
    pose proof E as (W' & Hl & Hb & Hr & Hlev)%try_take_level; [|done..]. destruct granted; [done|]. exfalso.
    unfold try_take in E. destruct (tb_tokens (refill b first) =? 0) eqn:E0; [|done]. split_bools.
    injection E as <-. destruct W' as [_ _ _ Hrem _]. destruct W as [_ _ Ht Hr0 _]. unfold level in Hlev. rewrite E0 in Hlev. lia.
Qed.

(** ** The window limiter *)

(** Table and queue describe the same windows, in the order they opened. *)
Record windows_wf (limit last : Z) (windows : gmap IpAddr PerIpRateWindow) (expirations : list (Z * IpAddr)) : Prop := {
  ww_sorted : StronglySorted (λ a b, a.1 <= b.1) expirations;
  ww_nodup : NoDup expirations.*2;
  ww_queued : ∀ expires_at ip, (expires_at, ip) ∈ expirations →
    ∃ count, windows !! ip = Some (mk_PerIpRateWindow (expires_at - PER_IP_RATE_WINDOW) count);
  ww_windows : ∀ ip w, windows !! ip = Some w →
    (rw_started_at w + PER_IP_RATE_WINDOW, ip) ∈ expirations ∧ rw_started_at w <= last ∧ 1 <= rw_count w <= limit;
}.

(** A window is open at [now] for less than a minute. *)
Definition open_at (now : Z) (w : option PerIpRateWindow) : option PerIpRateWindow :=
  w ← w; if rw_started_at w + PER_IP_RATE_WINDOW <=? now then None else Some w.

Lemma expire_front_ok limit last now windows expirations windows' expirations' :
  windows_wf limit last windows expirations → last <= now →
  expire_front now windows expirations = (windows', expirations') →
  windows_wf limit now windows' expirations' ∧ ∀ ip, windows' !! ip = open_at now (windows !! ip).
Proof.
  intros W Hle. revert windows W. induction expirations as [|[at_ ip] rest IH]; intros windows [W1 W2 W3 W4] H; simpl in H.
  { injection H as <- <-. assert (windows = ∅) as ->.
    { apply map_eq. intros i. rewrite lookup_empty. destruct (windows !! i) as [w|] eqn:E; [|done].
      destruct (W4 _ _ E) as [Hin _]. by apply not_elem_of_nil in Hin. }
    split; [split; [done..|]; intros i w E; by rewrite lookup_empty in E|]. intros i. by rewrite lookup_empty. }
  inversion W1 as [|? ? W1' Hall]; subst. apply NoDup_cons in W2 as [Hnin W2].
  destruct (W3 at_ ip) as [c Hw]; [by left|]. destruct (at_ <=? now) eqn:E; split_bools.
  - rewrite Hw in H. simpl in H. rewrite (proj2 (Z.leb_le _ _)) in H by (unfold PER_IP_RATE_WINDOW in *; lia).
    apply IH in H as [H Hopen].
    + split; [done|]. intros i. rewrite Hopen. destruct (decide (i = ip)) as [->|Hi]; [|by rewrite lookup_delete_ne].
      rewrite lookup_delete_eq, Hw. simpl. by rewrite (proj2 (Z.leb_le _ _)) by (unfold PER_IP_RATE_WINDOW in *; lia).
    + split; [done..| |].
      * intros a i Hin. destruct (W3 a i) as [c' Hc']; [by right|]. exists c'. rewrite lookup_delete_ne; [done|].
        intros ->. apply Hnin. apply list_elem_of_fmap. by exists (a, i).
      * intros i w [Hi Hiw]%lookup_delete_Some. destruct (W4 _ _ Hiw) as ([[= _ ->]|Hin]%elem_of_cons & Hb); [done|]. by split.
  - injection H as <- <-.
    assert (∀ i w, windows !! i = Some w → now < rw_started_at w + PER_IP_RATE_WINDOW) as Halive.
    { intros i w Hi. destruct (W4 _ _ Hi) as ([[= <- _]|Hin]%elem_of_cons & _); [done|].
      rewrite Forall_forall in Hall. specialize (Hall _ Hin). simpl in Hall. lia. }
    split; [split; [done|by apply NoDup_cons|done|]|].
    + intros i w Hi. destruct (W4 _ _ Hi) as (H1 & H2 & H3). split_and!; [done|lia|lia|lia].
    + intros i. destruct (windows !! i) as [w|] eqn:Hi; [|done]. simpl. by rewrite (proj2 (Z.leb_gt _ _)) by by eapply Halive.
Qed.

Definition limiter_wf (last : Z) (l : PerIpRateLimiter) : Prop :=
  1 <= rl_limit l ∧ windows_wf (rl_limit l) last (rl_windows l) (rl_expirations l).

(** The instants of a process lifetime. *)
Definition clock_range (now : Z) : Prop := now + PER_IP_RATE_WINDOW <= DURATION_MAX.

(** One request: the open window of its client decides, and only that window moves. *)
Lemma permit_ok l last ip now granted l' :
  limiter_wf last l → last <= now → clock_range now → permit l ip now = (granted, l') →
  limiter_wf now l' ∧ rl_limit l' = rl_limit l ∧ rl_max_clients l' = rl_max_clients l
  ∧ (∀ i, i ≠ ip → rl_windows l' !! i = open_at now (rl_windows l !! i))
  ∧ match open_at now (rl_windows l !! ip) with
    | Some w =>
        if rl_limit l <=? rw_count w then granted = false ∧ rl_windows l' !! ip = Some w
        else granted = true ∧ rl_windows l' !! ip = Some (mk_PerIpRateWindow (rw_started_at w) (rw_count w + 1))
    | None => granted = true ∧ rl_windows l' !! ip = Some (mk_PerIpRateWindow now 1)
              ∨ granted = false ∧ rl_windows l' !! ip = None ∧ rl_max_clients l <= Z.of_nat (size (rl_windows l'))
    end.
Proof.
  intros [Hlim W] Hle Hclock H. unfold permit in H. destruct (expire_front _ _ _) as [windows expirations] eqn:E.
  apply (expire_front_ok _ _ _ _ _ _ _ W Hle) in E as [[W1 W2 W3 W4] Hopen]. rewrite <- Hopen.
  destruct (windows !! ip) as [w|] eqn:Hw.
  - destruct (rl_limit l <=? rw_count w) eqn:Ec; injection H as <- <-; simpl.
    { split_and!; [by split|done..]. }
    split_bools. split_and!; [|done|done|by intros i Hi; rewrite lookup_insert_ne by done|done|by rewrite lookup_insert_eq].
    split; [done|]. simpl. destruct (W4 _ _ Hw) as (Hin & Hs & Hc). split; [done..| |].
    + intros a i Hai. destruct (W3 _ _ Hai) as [c Hc']. destruct (decide (i = ip)) as [->|Hi].
      * rewrite lookup_insert_eq. rewrite Hw in Hc'. injection Hc' as ->. simpl. eauto.
      * rewrite lookup_insert_ne by done. eauto.
    + intros i w' [[<- <-]|[Hi Hi']]%lookup_insert_Some; [|by apply W4]. simpl. split_and!; [done|done|lia|lia].
  - destruct (_ <=? Z.of_nat _) eqn:Ec; injection H as <- <-; simpl.
    { split_and!; [by split|done..|]. split_bools. right. split_and!; [done..|lia]. }
    split_and!; [|done|done|by intros i Hi; rewrite lookup_insert_ne by done|left; by rewrite lookup_insert_eq].
    split; [done|]. simpl. unfold clock_range in Hclock. rewrite Z.min_r by lia.
    assert (ip ∉ expirations.*2) as Hnin.
    { intros ([a i] & -> & Hin)%list_elem_of_fmap. destruct (W3 _ _ Hin) as [c Hc]. simpl in *. congruence. }
    split.
    + apply StronglySorted_app. split_and!; [|done|repeat constructor]. intros [a i] [b j] Ha Hb%list_elem_of_singleton. injection Hb as -> ->. simpl.
      destruct (W3 _ _ Ha) as [c Hc]. destruct (W4 _ _ Hc) as (_ & Hs & _). simpl in Hs. lia.
    + rewrite fmap_app. apply NoDup_app. split_and!; [done| |apply NoDup_singleton]. intros x Hx Hx'%list_elem_of_singleton. simpl in Hx'. by subst x.
    + intros a i [Hin|Hin]%elem_of_app.
      * destruct (W3 _ _ Hin) as [c Hc]. exists c. rewrite lookup_insert_ne; [done|]. intros ->. apply Hnin, list_elem_of_fmap. by exists (a, i).
      * apply list_elem_of_singleton in Hin. injection Hin as -> ->. rewrite lookup_insert_eq. exists 1. do 2 f_equal. lia.
    + intros i w' [[<- <-]|[Hi Hi']]%lookup_insert_Some; simpl.
      * split_and!; [set_solver|lia|lia|lia].
      * destruct (W4 _ _ Hi') as (H1 & H2). split; [set_solver|done].
Qed.

(** *** Any minute *)

Fixpoint granted_to (l : PerIpRateLimiter) (ip : IpAddr) (calls : list (IpAddr * Z)) : list Z :=
  match calls with
  | [] => []
  | (peer, now) :: calls =>
      let '(granted, l) := permit l peer now in
      ((if granted && bool_decide (peer = ip) then [now] else []) ++ granted_to l ip calls)%list
  end.

Fixpoint run_permits (l : PerIpRateLimiter) (calls : list (IpAddr * Z)) : PerIpRateLimiter :=
  match calls with [] => l | (peer, now) :: calls => run_permits (permit l peer now).2 calls end.

Fixpoint clocked (last : Z) (calls : list (IpAddr * Z)) : Prop :=
  match calls with [] => True | (_, now) :: calls => last <= now ∧ clock_range now ∧ clocked now calls end.

Definition between (lo hi : Z) (l : list Z) : Z := Z.of_nat (length (filter (λ x, lo <= x < hi) l)).

Lemma between_app lo hi l l' : between lo hi (l ++ l')%list = between lo hi l + between lo hi l'.
Proof. unfold between. rewrite filter_app, length_app. lia. Qed.

Lemma between_mono lo hi lo' hi' l : lo' <= lo → hi <= hi' → between lo hi l <= between lo' hi' l.
Proof.
  intros H1 H2. unfold between. induction l as [|x l IH]; [done|]. rewrite !filter_cons. repeat case_decide; simpl; lia.
Qed.

Lemma between_none lo hi l : (∀ x, x ∈ l → hi <= x) → between lo hi l = 0.
Proof.
  intros H. unfold between. induction l as [|x l IH]; [done|]. rewrite filter_cons_False by (specialize (H x); set_solver by lia).
  apply IH. intros y Hy. apply H. by right.
Qed.

Lemma between_split lo mid hi l : between lo hi l <= between lo mid l + between mid hi l.
Proof. unfold between. induction l as [|x l IH]; [done|]. rewrite !filter_cons. repeat case_decide; simpl; lia. Qed.

Lemma granted_after l ip calls last x : clocked last calls → x ∈ granted_to l ip calls → last <= x.
Proof.
  revert l last. induction calls as [|[peer now] calls IH]; intros l last Hc Hin; simpl in *; [by apply not_elem_of_nil in Hin|].
  destruct Hc as (H1 & _ & H2). destruct (permit l peer now) as [g l'].
  apply elem_of_app in Hin as [Hin|Hin]; [destruct (_ && _); set_solver by lia|]. specialize (IH _ _ H2 Hin). lia.
Qed.

Notation W := PER_IP_RATE_WINDOW.

(** What is left of an open window. *)
Lemma window_rest calls l last ip s c :
  limiter_wf last l → clocked last calls → rl_windows l !! ip = Some (mk_PerIpRateWindow s c) →
  ∀ lo, between lo (s + W) (granted_to l ip calls) <= rl_limit l - c.
Proof.
  revert l last c. induction calls as [|[peer now] calls IH]; intros l last c Wf Hc Hw lo.
  { destruct Wf as [_ Wf]. destruct (ww_windows _ _ _ _ Wf _ _ Hw) as (_ & _ & Hb). simpl in *. unfold between. simpl. lia. }
  destruct (decide (now < s + W)) as [Hlt|Hge].
  - destruct Hc as (H1 & H2 & H3). simpl. destruct (permit l peer now) as [g l'] eqn:E.
    apply (permit_ok _ _ _ _ _ _ Wf H1 H2) in E as (Wf' & El & _ & Ho & Hm).
    assert (open_at now (Some (mk_PerIpRateWindow s c)) = Some (mk_PerIpRateWindow s c)) as Eo.
    { simpl. by rewrite (proj2 (Z.leb_gt _ _)). }
    rewrite between_app. destruct (decide (peer = ip)) as [->|Hne].
    + rewrite Hw, Eo in Hm. simpl in Hm. destruct (rl_limit l <=? c); destruct Hm as [-> Hm].
      * specialize (IH _ _ _ Wf' H3 Hm lo). rewrite El in IH. simpl. unfold between at 1. simpl. lia.
      * specialize (IH _ _ _ Wf' H3 Hm lo). rewrite El in IH. rewrite bool_decide_true by done. simpl.
        unfold between at 1. rewrite filter_cons. case_decide; simpl; lia.
    + specialize (Ho ip). rewrite Hw, Eo in Ho. specialize (IH _ _ _ Wf' H3 (Ho (not_eq_sym Hne)) lo). rewrite El in IH.
      rewrite bool_decide_false by done. rewrite andb_false_r. unfold between at 1. simpl. lia.
  - rewrite between_none.
    + destruct Wf as [_ Wf]. destruct (ww_windows _ _ _ _ Wf _ _ Hw) as (_ & _ & Hb). simpl in *. lia.
    + intros x Hx. assert (clocked now ((peer, now) :: calls)) as Hc' by (simpl in *; split_and!; [lia|tauto..]).
      apply (granted_after _ _ _ _ _ Hc') in Hx. lia.
Qed.

(** After a window closed at most [limit] requests are granted in a minute. *)
Lemma closed_window calls l last ip b :
  limiter_wf last l → clocked last calls → clocked b calls → open_at b (rl_windows l !! ip) = None →
  between b (b + W) (granted_to l ip calls) <= rl_limit l.
Proof.
  revert l last. induction calls as [|[peer now] calls IH]; intros l last Wf Hc Hb Hclosed.
  { destruct Wf as [Hlim _]. unfold between. simpl. lia. }
  destruct Hc as (H1 & H2 & H3). destruct Hb as (Hb1 & _ & _). simpl. destruct (permit l peer now) as [g l'] eqn:E.
  apply (permit_ok _ _ _ _ _ _ Wf H1 H2) in E as (Wf' & El & _ & Ho & Hm). rewrite between_app.
  assert (clocked b calls) as Hb' by (destruct calls as [|[p t] calls]; simpl in *; [done|split_and!; [lia|tauto..]]).
  assert (open_at now (rl_windows l !! ip) = None) as Hnow.
  { destruct (rl_windows l !! ip) as [w|]; [|done]. simpl in *.
    destruct (rw_started_at w + W <=? b) eqn:Eb; [|done]. split_bools. by rewrite (proj2 (Z.leb_le _ _)) by lia. }
  destruct (decide (peer = ip)) as [->|Hne].
  - rewrite Hnow in Hm. destruct Hm as [[-> Hw]|(-> & Hw & _)].
    + pose proof (window_rest _ _ _ _ _ _ Wf' H3 Hw b) as Hrest. rewrite El in Hrest.
      pose proof (between_mono b (b + W) b (now + W) (granted_to l' ip calls) ltac:(lia) ltac:(lia)).
      rewrite bool_decide_true by done. simpl. unfold between at 1. rewrite filter_cons. case_decide; simpl; lia.
    + specialize (IH _ _ Wf' H3 Hb'). rewrite Hw, El in IH. simpl in *. unfold between at 1. simpl. by apply IH.
  - specialize (Ho ip (not_eq_sym Hne)). rewrite Hnow in Ho. specialize (IH _ _ Wf' H3 Hb'). rewrite Ho, El in IH.
    rewrite bool_decide_false by done. rewrite andb_false_r. unfold between at 1. simpl. by apply IH.
Qed.

(** The minute after an open window. *)
Lemma next_window calls l last ip s c :
  limiter_wf last l → clocked last calls → rl_windows l !! ip = Some (mk_PerIpRateWindow s c) →
  between (s + W) (s + W + W) (granted_to l ip calls) <= rl_limit l.
Proof.
  revert l last c. induction calls as [|[peer now] calls IH]; intros l last c Wf Hc Hw.
  { destruct Wf as [Hlim _]. unfold between. simpl. lia. }
  destruct (decide (now < s + W)) as [Hlt|Hge].
  - destruct Hc as (H1 & H2 & H3). simpl. destruct (permit l peer now) as [g l'] eqn:E.
    apply (permit_ok _ _ _ _ _ _ Wf H1 H2) in E as (Wf' & El & _ & Ho & Hm).
    assert (∃ c', rl_windows l' !! ip = Some (mk_PerIpRateWindow s c')) as [c' Hw'].
    { assert (open_at now (rl_windows l !! ip) = Some (mk_PerIpRateWindow s c)) as Eo.
      { rewrite Hw. simpl. by rewrite (proj2 (Z.leb_gt _ _)). }
      destruct (decide (peer = ip)) as [->|Hne]; [|rewrite Ho, Eo by done; eauto].
      rewrite Eo in Hm. simpl in Hm. destruct (rl_limit l <=? c); destruct Hm as [_ ->]; eauto. }
    rewrite between_app. specialize (IH _ _ _ Wf' H3 Hw'). rewrite El in IH.
    assert (between (s + W) (s + W + W) (if g && bool_decide (peer = ip) then [now] else []) = 0) as ->; [|lia].
    destruct (_ && _); [|done]. unfold between. by rewrite filter_cons_False by lia.
  - eapply closed_window; [done|done| |].
    + simpl in *. split_and!; [lia|tauto..].
    + rewrite Hw. simpl. by rewrite (proj2 (Z.leb_le _ _)).
Qed.

Lemma any_minute calls l last ip t :
  limiter_wf last l → clocked last calls → between t (t + W) (granted_to l ip calls) <= 2 * rl_limit l.
Proof.
  revert l last. induction calls as [|[peer now] calls IH]; intros l last Wf Hc.
  { destruct Wf as [Hlim _]. unfold between. simpl. lia. }
  destruct (decide (now < t)) as [Hlt|Hge].
  - destruct Hc as (H1 & H2 & H3). simpl. destruct (permit l peer now) as [g l'] eqn:E.
    apply (permit_ok _ _ _ _ _ _ Wf H1 H2) in E as (Wf' & El & _). specialize (IH _ _ Wf' H3). rewrite El in IH.
    rewrite between_app. assert (between t (t + W) (if g && bool_decide (peer = ip) then [now] else []) = 0) as ->; [|lia].
    destruct (_ && _); [|done]. unfold between. by rewrite filter_cons_False by lia.
  - assert (clocked t ((peer, now) :: calls)) as Ht by (simpl in *; split_and!; [lia|tauto..]).
    assert (1 <= rl_limit l) as Hlim by apply Wf.
    destruct (open_at t (rl_windows l !! ip)) as [w|] eqn:Ew; [|pose proof (closed_window _ _ _ _ _ Wf Hc Ht Ew); lia].
    destruct (rl_windows l !! ip) as [[s c]|] eqn:Hw; [|done]. simpl in Ew.
    destruct (s + W <=? t) eqn:Eb; [done|]. split_bools.
    pose proof (window_rest _ _ _ _ _ _ Wf Hc Hw t). pose proof (next_window _ _ _ _ _ _ Wf Hc Hw).
    pose proof (between_split t (s + W) (t + W) (granted_to l ip ((peer, now) :: calls))).
    pose proof (between_mono (s + W) (t + W) (s + W) (s + W + W) (granted_to l ip ((peer, now) :: calls)) ltac:(lia) ltac:(lia)).
    destruct Wf as [_ Wf]. destruct (ww_windows _ _ _ _ Wf _ _ Hw) as (_ & _ & Hb). simpl in Hb. lia.
Qed.

Lemma run_permits_wf calls rest l last :
  limiter_wf last l → clocked last (calls ++ rest)%list → Z.of_nat (size (rl_windows l)) <= rl_max_clients l →
  (∃ last', limiter_wf last' (run_permits l calls) ∧ clocked last' rest)
  ∧ rl_max_clients (run_permits l calls) = rl_max_clients l
  ∧ Z.of_nat (size (rl_windows (run_permits l calls))) <= rl_max_clients l.
Proof.
  revert l last. induction calls as [|[peer now] calls IH]; intros l last Wf Hc Hs; simpl; [by eauto|].
  destruct Hc as (H1 & H2 & H3). destruct (permit l peer now) as [g l'] eqn:E.
  pose proof (permit_ok _ _ _ _ _ _ Wf H1 H2 E) as (Wf' & El & Em & Ho & Hm). simpl.
  destruct (IH l' now Wf' H3) as (W1 & W3 & W4); [|split_and!; [done|congruence|lia]].
  rewrite Em. unfold permit in E. destruct (expire_front _ _ _) as [windows expirations] eqn:Ef.
  apply (expire_front_ok _ _ _ _ _ _ _ (proj2 Wf) H1) in Ef as [_ Hopen].
  assert (size windows <= size (rl_windows l))%nat as Hsub.
  { apply map_subseteq_size, map_subseteq_spec. intros i w Hi. rewrite Hopen in Hi. destruct (rl_windows l !! i) as [w'|]; [|done].
    simpl in Hi. case_match; [done|]. congruence. }
  destruct (windows !! peer) as [w|] eqn:Ew.
  - destruct (_ <=? _); injection E as <- <-; simpl; [lia|]. rewrite map_size_insert_Some by eauto. lia.
  - destruct (_ <=? _) eqn:Ec; injection E as <- <-; simpl; [lia|]. split_bools. rewrite map_size_insert_None by done. lia.
Qed.

Lemma clocked_app calls rest last : clocked last (calls ++ rest)%list → clocked last calls.
Proof. revert last. induction calls as [|[p t] calls IH]; intros last H; simpl in *; [done|]. destruct H as (H1 & H2 & H3). eauto. Qed.

Lemma expirations_size limit last windows expirations :
  windows_wf limit last windows expirations → length expirations = size windows.
Proof.
  intros [_ W2 W3 W4]. rewrite <- (length_fmap snd), <- (size_list_to_set (C := gset IpAddr)) by done. rewrite <- size_dom.
  f_equal. apply set_eq. intros ip. rewrite elem_of_list_to_set, elem_of_dom, list_elem_of_fmap. split.
  - intros ([a i] & -> & Hin). destruct (W3 _ _ Hin) as [c Hc]. by eexists.
  - intros [w Hw]. destruct (W4 _ _ Hw) as [Hin _]. exists (rw_started_at w + W, ip). by split.
Qed.

(** A window was opened by a request that was granted. *)
Lemma window_history calls l last ip w :
  limiter_wf last l → clocked last calls → rl_windows (run_permits l calls) !! ip = Some w →
  rw_started_at w ∈ granted_to l ip calls ∨ ∃ w0, rl_windows l !! ip = Some w0 ∧ rw_started_at w0 = rw_started_at w.
Proof.
  revert l last. induction calls as [|[peer now] calls IH]; intros l last Wf Hc Hw; simpl in *; [by eauto|].
  destruct Hc as (H1 & H2 & H3). destruct (permit l peer now) as [g l'] eqn:E.
  apply (permit_ok _ _ _ _ _ _ Wf H1 H2) in E as (Wf' & _ & _ & Ho & Hm). simpl in Hw.
  destruct (IH _ _ Wf' H3 Hw) as [Hin|(w0 & Hw0 & Es)]; [left; set_solver|]. rewrite <- Es.
  destruct (rl_windows l !! ip) as [[s c]|] eqn:El; destruct (decide (peer = ip)) as [->|Hne].
  - rewrite El in Hm. simpl in Hm. destruct (s + W <=? now).
    + destruct Hm as [[-> Hm]|(_ & Hm & _)]; [|congruence]. rewrite Hm in Hw0. injection Hw0 as <-. left.
      rewrite bool_decide_true by done. simpl. set_solver.
    + right. exists (mk_PerIpRateWindow s c). split; [done|]. simpl in *. destruct (rl_limit l <=? c); destruct Hm as [_ Hm]; rewrite Hm in Hw0; by injection Hw0 as <-.
  - rewrite Ho, El in Hw0 by done. simpl in Hw0. destruct (s + W <=? now); [done|]. injection Hw0 as <-. right. by eexists.
  - rewrite El in Hm. simpl in Hm. destruct Hm as [[-> Hm]|(_ & Hm & _)]; [|congruence]. rewrite Hm in Hw0. injection Hw0 as <-.
    left. rewrite bool_decide_true by done. simpl. set_solver.
  - rewrite Ho, El in Hw0 by done. done.
Qed.

(** setup requests are limited per client.  Whatever requests arrive, at most twice
    the configured number of one client's requests is granted in any minute; the table
    never holds more clients than its bound, with exactly one queued expiration for each;
    and a client none of whose requests was granted in the last minute is not refused,
    unless the table is full of clients whose window is still open. *)
Theorem setup_rate_limited limit max_clients calls ip now t :
  1 <= limit → 0 <= max_clients → clocked 0 (calls ++ [(ip, now)])%list →
  let l := run_permits (with_max_clients limit max_clients) calls in
  let granted := granted_to (with_max_clients limit max_clients) ip (calls ++ [(ip, now)])%list in
  between t (t + PER_IP_RATE_WINDOW) granted <= 2 * limit
  ∧ Z.of_nat (size (rl_windows l)) <= max_clients ∧ length (rl_expirations l) = size (rl_windows l)
  ∧ ((∀ x, x ∈ granted_to (with_max_clients limit max_clients) ip calls → x + PER_IP_RATE_WINDOW <= now) →
     (permit l ip now).1 = true ∨ Z.of_nat (size (rl_windows (permit l ip now).2)) = max_clients).
Proof.
  intros Hl Hm Hc l granted.
  assert (limiter_wf 0 (with_max_clients limit max_clients)) as W0.
  { split; [done|]. split; simpl; [constructor|constructor|by intros ? ? H%not_elem_of_nil|by intros ? ? H; rewrite lookup_empty in H]. }
  destruct (run_permits_wf calls [(ip, now)] _ _ W0 Hc) as ((last & Wl & Hlast & Hclock & _) & Emax & Hsize); [simpl; rewrite map_size_empty; lia|].
  fold l in Wl, Emax, Hsize. simpl in Emax, Hsize.
  split_and!; [exact (any_minute _ _ _ ip t W0 Hc)|done|eapply expirations_size, Wl|].
  intros Hidle. destruct (permit l ip now) as [g l'] eqn:E. pose proof (permit_ok _ _ _ _ _ _ Wl Hlast Hclock E) as (_ & _ & _ & _ & Hd).
  assert (open_at now (rl_windows l !! ip) = None) as Hclosed.
  { destruct (rl_windows l !! ip) as [w|] eqn:Ew; [|done]. simpl.
    destruct (window_history _ _ _ _ _ W0 (clocked_app _ _ _ Hc) Ew) as [Hin|(w0 & Hw0 & _)].
    - by rewrite (proj2 (Z.leb_le _ _)) by by apply Hidle.
    - simpl in Hw0. by rewrite lookup_empty in Hw0. }
  rewrite Hclosed in Hd. destruct Hd as [[-> _]|(-> & _ & Hfull)]; [by left|right]. simpl.
  assert (Z.of_nat (size (rl_windows l')) <= max_clients); [|lia].
  destruct (run_permits_wf (calls ++ [(ip, now)]) [] _ 0 W0 ltac:(by rewrite app_nil_r)) as (_ & _ & Hs); [simpl; rewrite map_size_empty; lia|].
  assert (run_permits (with_max_clients limit max_clients) (calls ++ [(ip, now)]) = l') as Er.
  { transitivity (run_permits l [(ip, now)]); [|simpl; by rewrite E]. unfold l. generalize (with_max_clients limit max_clients). clear.
    induction calls as [|[p t] calls IH]; intros l0; simpl; [done|apply IH]. }
  by rewrite Er in Hs.
Qed.

(** ** Witnesses *)

Module Example_limits.
Definition bucket : TokenBucket := TokenBucket_new 2 2 0.

Lemma bucket_ok : bucket_wf bucket.
Proof. split; vm_compute; done || (split; done). Qed.

(** Two tokens at once, none left, and one more half a second later. *)
Definition instants : list Z := [0; 0; 500000000].

Lemma instants_in_order : in_order (tb_last bucket) (0 :: instants).
Proof. vm_compute. repeat split; discriminate. Qed.

Definition client : IpAddr := IpV4 7.

(** Three requests in the first minute of which two are granted, one in the next. *)
Definition calls : list (IpAddr * Z) := [(client, 0); (client, 10); (client, 20)].

Lemma calls_clocked : clocked 0 (calls ++ [(client, PER_IP_RATE_WINDOW)])%list.
Proof. vm_compute. repeat split; discriminate. Qed.
End Example_limits.
Import Example_limits.

Lemma token_bucket_exact_witness : ideal_take 2 2 2000000000 0 5 = (true, 1000000000).
Proof. exact (proj2 (proj2 (token_bucket_exact bucket 5 bucket_ok))). Defined.

Lemma token_bucket_bounds_witness : taken bucket (0 :: instants) * 1000000000 <= 2 * 1000000000 + 500000000 * 2.
Proof. exact (proj1 (token_bucket_bounds bucket instants 0 bucket_ok instants_in_order)). Defined.

Lemma setup_rate_limited_witness :
  between 0 PER_IP_RATE_WINDOW (granted_to (with_max_clients 2 10) client (calls ++ [(client, PER_IP_RATE_WINDOW)])%list) <= 4.
Proof.
  assert (1 <= 2) as H1 by lia. assert (0 <= 10) as H2 by lia.
  exact (proj1 (setup_rate_limited 2 10 calls client PER_IP_RATE_WINDOW 0 H1 H2 calls_clocked)).
Defined.
