(* ===== verification/Auth.v ===== *)
(** * Auth: who may call the service routes ([http/auth.rs], [http/client_ip.rs])

    A signed route accepts a request whose body is small and canonical JSON, whose one
    signature header verifies over the method, the path and the body under a trusted key,
    and for which the token bucket of [Limits] has a token left; the token is taken last.
    Setup routes are keyed by the client address, which is read from the entry of
    [X-Forwarded-For] that the trusted proxies themselves wrote.

    Ed25519, JSON and its canonical form are parameters.  The texts of addresses are read
    as [std::net] reads them. *)

From S2P Require Import Prelude Text Api Adapter Limits.
Local Open Scope string_scope.
Local Open Scope Z_scope.

(** ** Signed requests *)

(** An HTTP request as the extractor sees it; a body that cannot be read is [None]. *)
Record HttpRequest := mk_HttpRequest {
  rq_method : string;
  rq_path : string;
  rq_query : option string;
  rq_headers : list (string * string);
  rq_body : option string;
}.

Definition SIGNATURE_HEADER : string := "x-paykit-signature".

Definition NUL : ascii := Ascii.zero.

Definition SIGNATURE_DOMAIN : string := "paykit-http-signature-v1" ++ String NUL "".

Definition signature_preimage (method path raw_body : string) : string :=
  SIGNATURE_DOMAIN ++ to_ascii_uppercase method ++ String NUL "" ++ path ++ String NUL "" ++ raw_body.

(** [HeaderValue::to_str]: visible ASCII and tabs. *)
Definition header_to_str (value : string) : option string :=
  if all_bytes (λ c, in_range 32 126 c || (byte c =? 9)) value then Some value else None.

Definition header_values (name : string) (headers : list (string * string)) : list string :=
  (filter (λ h, Is_true (String.eqb h.1 name)) headers).*2.

Section auth.
Context {b64 : UrlSafeBase64}.
(** [ed25519_dalek::VerifyingKey::verify] *)
Context {VerifyingKey : Type} (verify : VerifyingKey → string → string → bool).
(** [serde_json::from_slice], [serde_json_canonicalizer::to_vec], and the typed
    deserialiser, which also says whether it ignored a field *)
Context {Value T : Type} (from_slice : string → option Value) (canonical_json : Value → option string)
  (deserialize : string → option (T * bool)).

Record SignedServiceAuth := mk_SignedServiceAuth {
  sa_trusted_keys : list VerifyingKey;
  sa_request_body_bytes : Z;
  sa_limiter : TokenBucket;
}.

Definition set_limiter (auth : SignedServiceAuth) (b : TokenBucket) : SignedServiceAuth :=
  mk_SignedServiceAuth (sa_trusted_keys auth) (sa_request_body_bytes auth) b.

Definition auth_permit (auth : SignedServiceAuth) (now : Z) : bool * SignedServiceAuth :=
  let '(granted, b) := try_take (sa_limiter auth) now in (granted, set_limiter auth b).

Definition verify_signature (trusted_keys : list VerifyingKey) (headers : list (string * string)) (preimage : string) :
    result ApiError unit :=
  match header_values SIGNATURE_HEADER headers with
  | [value] =>
      encoded ← ok_or (header_to_str value) Api_InvalidSignature;
      signature ← ok_or (base64_decode encoded) Api_InvalidSignature;
      ensure (str_len signature =? 64) Api_InvalidSignature;;
      ensure (String.eqb (base64_encode signature) encoded) Api_InvalidSignature;;
      ensure (existsb (λ key, verify key preimage signature) trusted_keys) Api_InvalidSignature
  | _ => Err Api_InvalidSignature
  end.

(** [axum::body::to_bytes] with a limit *)
Definition body_bytes (body : option string) (limit : Z) : option string :=
  body ← body; if str_len body <=? limit then Some body else None.

(** The checks of [from_request] before the limiter. *)
Definition authenticate (auth : SignedServiceAuth) (request : HttpRequest) : result ApiError T :=
  ensure (is_none (rq_query request)) Api_InvalidRequest;;
  let limit := sa_request_body_bytes auth in
  raw_body ← ok_or (body_bytes (rq_body request) (Z.min (limit + 1) u64_max)) Api_PayloadTooLarge;
  ensure (str_len raw_body <=? limit) Api_PayloadTooLarge;;
  verify_signature (sa_trusted_keys auth) (rq_headers request)
    (signature_preimage (rq_method request) (rq_path request) raw_body);;
  value ← ok_or (from_slice raw_body) Api_InvalidRequest;
  canonical ← ok_or (canonical_json value) Api_InvalidRequest;
  ensure (String.eqb canonical raw_body) Api_InvalidRequest;;
  '(payload, ignored) ← ok_or (deserialize raw_body) Api_InvalidRequest;
  ensure (negb ignored) Api_InvalidRequest;;
  Ok payload.

(** [AuthenticatedJson::from_request]; [None] is a route without the extension. *)
Definition from_request (auth : option SignedServiceAuth) (request : HttpRequest) (now : Z) :
    result ApiError T * option SignedServiceAuth :=
  match auth with
  | None => (Err Api_InvalidSignature, None)
  | Some auth =>
      match authenticate auth request with
      | Ok payload =>
          let '(granted, auth) := auth_permit auth now in
          (if granted then Ok payload else Err Api_RateLimited, Some auth)
      | Err e => (Err e, Some auth)
      end
  end.
End auth.

(** ** The client address *)

(** A reader of [std::net]'s text forms takes a prefix of the text. *)
Definition Reader (A : Type) : Type := string → option (A * string).

Definition read_given_char (c : ascii) : Reader unit := λ s,
  match s with String d rest => if Ascii.eqb d c then Some (tt, rest) else None | EmptyString => None end.

(** [char::to_digit] *)
Definition digit_of (radix : Z) (c : ascii) : option Z :=
  let b := byte c in
  let d := if in_range 48 57 c then b - 48 else if in_range 97 122 c then b - 87 else if in_range 65 90 c then b - 55 else radix in
  if d <? radix then Some d else None.

(** The loop of [read_number] below [bound]: it stops at the first other character. *)
Fixpoint read_digits (radix bound : Z) (max_digits : option Z) (count value : Z) (s : string) : option (Z * Z * string) :=
  match s with
  | String c rest =>
      match digit_of radix c with
      | Some d =>
          let value := value * radix + d in
          let count := count + 1 in
          if bound <=? value then None
          else if match max_digits with Some m => m <? count | None => false end then None
          else read_digits radix bound max_digits count value rest
      | None => Some (count, value, s)
      end
  | EmptyString => Some (count, value, s)
  end.

Definition read_number (radix bound : Z) (max_digits : option Z) (allow_zero_prefix : bool) : Reader Z := λ s,
  '(count, value, rest) ← read_digits radix bound max_digits 0 0 s;
  if (count =? 0) || (negb allow_zero_prefix && starts_with "0" s && (1 <? count)) then None else Some (value, rest).

(** [read_separator]: every element but the first is preceded by the separator. *)
Definition read_separator {A} (sep : ascii) (index : nat) (inner : Reader A) : Reader A := λ s,
  match index with
  | O => inner s
  | _ => '(_, rest) ← read_given_char sep s; inner rest
  end.

Fixpoint read_octets (index n : nat) (value : Z) : Reader Z := λ s,
  match n with
  | O => Some (value, s)
  | S n =>
      '(octet, rest) ← read_separator "." index (read_number 10 256 (Some 3) false) s;
      read_octets (S index) n (value * 256 + octet) rest
  end.

Definition read_ipv4_addr : Reader Z := read_octets 0 4 0.

(** [read_groups] into [n] more slots: the groups and whether the last two came from an
    embedded IPv4 address. *)
Fixpoint read_groups (index n : nat) (s : string) : list Z * bool * string :=
  match n with
  | O => ([], false, s)
  | S m =>
      match (if Nat.leb 1 m then read_separator ":" index read_ipv4_addr s else None) with
      | Some (v4, rest) => ([v4 / 65536; v4 mod 65536], true, rest)
      | None =>
          match read_separator ":" index (read_number 16 65536 (Some 4) true) s with
          | Some (group, rest) => let '(groups, v4, rest) := read_groups (S index) m rest in (group :: groups, v4, rest)
          | None => ([], false, s)
          end
      end
  end.

Definition groups_value (groups : list Z) : Z := fold_left (λ acc g, acc * 65536 + g) groups 0.

Definition read_ipv6_addr : Reader Z := λ s,
  let '(head, head_ipv4, rest) := read_groups 0 8 s in
  if Nat.eqb (length head) 8 then Some (groups_value head, rest)
  else if head_ipv4 then None
  else
    '(_, rest) ← read_given_char ":" rest;
    '(_, rest) ← read_given_char ":" rest;
    let '(tail, _, rest) := read_groups 0 (8 - (length head + 1)) rest in
    Some (groups_value (head ++ replicate (8 - length head - length tail) 0 ++ tail), rest).

(** The whole text must be read. *)
Definition parse_with {A} (r : Reader A) (s : string) : option A :=
  match r s with Some (a, EmptyString) => Some a | _ => None end.

Definition read_ip_addr : Reader IpAddr := λ s,
  match read_ipv4_addr s with
  | Some (v, rest) => Some (IpV4 (Z.to_N v), rest)
  | None => '(v, rest) ← read_ipv6_addr s; Some (IpV6 (Z.to_N v), rest)
  end.

Definition read_port : Reader Z := λ s,
  '(_, rest) ← read_given_char ":" s;
  read_number 10 65536 None true rest.

(** The optional scope of a socket address. *)
Definition skip_scope_id (s : string) : string :=
  match ('(_, rest) ← read_given_char "%" s; read_number 10 4294967296 None true rest) with
  | Some (_, rest) => rest
  | None => s
  end.

(** [SocketAddr]: its address and port *)
Definition SocketAddr : Type := IpAddr * Z.

Definition read_socket_addr_v6 : Reader SocketAddr := λ s,
  '(_, rest) ← read_given_char "[" s;
  '(v, rest) ← read_ipv6_addr rest;
  '(_, rest) ← read_given_char "]" (skip_scope_id rest);
  '(port, rest) ← read_port rest;
  Some ((IpV6 (Z.to_N v), port), rest).

Definition read_socket_addr : Reader SocketAddr := λ s,
  match ('(v, rest) ← read_ipv4_addr s; '(port, rest) ← read_port rest; Some ((IpV4 (Z.to_N v), port), rest)) with
  | Some r => Some r
  | None => read_socket_addr_v6 s
  end.

(** [IpAddr::to_canonical]: an IPv4-mapped address is the IPv4 address. *)
Definition to_canonical (ip : IpAddr) : IpAddr :=
  match ip with
  | IpV6 n => if N.eqb (N.shiftr n 32) 65535 then IpV4 (N.modulo n 4294967296) else ip
  | _ => ip
  end.

(** [u8::is_ascii_whitespace] *)
Definition is_ascii_whitespace (c : ascii) : bool := bool_decide (byte c ∈ [9; 10; 12; 13; 32]).

Fixpoint trim_start (s : string) : string :=
  match s with String c rest => if is_ascii_whitespace c then trim_start rest else s | EmptyString => s end.

Fixpoint trim_end (s : string) : string :=
  match s with
  | String c rest =>
      let t := trim_end rest in
      if str_is_empty t && is_ascii_whitespace c then EmptyString else String c t
  | EmptyString => EmptyString
  end.

Definition trim_ascii (s : string) : string := trim_end (trim_start s).

(** [entry.strip_prefix('[')?.strip_suffix(']')?] *)
Fixpoint strip_suffix_bracket (s : string) : option string :=
  match s with
  | EmptyString => None
  | String c EmptyString => if Ascii.eqb c "]" then Some EmptyString else None
  | String c rest => option_map (String c) (strip_suffix_bracket rest)
  end.

Definition parse_bracketed (s : string) : option IpAddr :=
  '(_, rest) ← read_given_char "[" s;
  inner ← strip_suffix_bracket rest;
  option_map (λ v, IpV6 (Z.to_N v)) (parse_with read_ipv6_addr inner).

(** Entries that are not UTF-8 hold no address: every accepted text is ASCII. *)
Definition forwarded_ip (entry : string) : option IpAddr :=
  let entry := trim_ascii entry in
  option_map to_canonical
    (match parse_with read_ip_addr entry with
     | Some ip => Some ip
     | None => match parse_with read_socket_addr entry with
               | Some address => Some address.1
               | None => parse_bracketed entry
               end
     end).

(** [slice::split] at the bytes equal to [sep] *)
Fixpoint split_char (sep : ascii) (s : string) : list string :=
  match s with
  | EmptyString => [EmptyString]
  | String c rest =>
      if Ascii.eqb c sep then EmptyString :: split_char sep rest
      else match split_char sep rest with
           | entry :: entries => String c entry :: entries
           | [] => [String c EmptyString]
           end
  end.

Definition X_FORWARDED_FOR : string := "x-forwarded-for".

(** The entries of all header lines, from the right. *)
Definition forwarded_entries (headers : list (string * string)) : list string :=
  mjoin ((λ value, rev (split_char "," value)) <$> rev (header_values X_FORWARDED_FOR headers)).

Definition client_ip (peer : IpAddr) (headers : list (string * string)) (trusted_proxy_hops : nat) : IpAddr :=
  match trusted_proxy_hops with
  | O => peer
  | S position => default peer (forwarded_entries headers !! position ≫= forwarded_ip)
  end.

(** ** What a signature covers *)

Definition nul_free (s : string) : bool := all_bytes (λ c, negb (Ascii.eqb c NUL)) s.

Lemma uppercase_nul_free s : nul_free s = true → nul_free (to_ascii_uppercase s) = true.
Proof.
  unfold nul_free. induction s as [|c s IH]; [done|]. simpl. intros H. apply andb_true_iff in H as [Hc Hs].
  apply andb_true_iff. split; [|by apply IH]. clear IH Hs. by destruct c as [[] [] [] [] [] [] [] []].
Qed.

Lemma app_string_inj a b c : a ++ b = a ++ c → b = c.
Proof. induction a as [|x a IH]; simpl; [done|]. intros [= H]. by apply IH. Qed.

(** What is before the first NUL is determined by the text. *)
Lemma nul_separated a b a' b' :
  nul_free a = true → nul_free a' = true → a ++ String NUL b = a' ++ String NUL b' → a = a' ∧ b = b'.
Proof.
  intros Ha Ha' E. pose proof (split_once_app NUL a b Ha) as H1. pose proof (split_once_app NUL a' b' Ha') as H2.
  rewrite E, H2 in H1. by injection H1 as -> ->.
Qed.

(** a signature is for one request.  Method and path never hold a NUL, so requests with
    the same preimage have the same method (whatever its case), path and body: a signature
    cannot be used for another route or another body. *)
Theorem signature_binds_request method path body method' path' body' :
  nul_free method = true → nul_free path = true → nul_free method' = true → nul_free path' = true →
  signature_preimage method path body = signature_preimage method' path' body' →
  to_ascii_uppercase method = to_ascii_uppercase method' ∧ path = path' ∧ body = body'.
Proof.
  intros Hm Hp Hm' Hp' H. unfold signature_preimage in H. apply app_string_inj in H.
  apply nul_separated in H as [-> H]; [|by apply uppercase_nul_free..].
  apply nul_separated in H as [-> ->]; done.
Qed.

Section theorems.
Context {b64 : UrlSafeBase64}.
Context {VerifyingKey : Type} (verify : VerifyingKey → string → string → bool).
Context {Value T : Type} (from_slice : string → option Value) (canonical_json : Value → option string)
  (deserialize : string → option (T * bool)).
Notation authenticate := (authenticate verify from_slice canonical_json deserialize).
Notation from_request := (from_request verify from_slice canonical_json deserialize).

(** Everything that was checked of an accepted request. *)
Record authentic (auth : SignedServiceAuth) (request : HttpRequest) (payload : T) (body : string) (value : Value) : Prop := {
  au_query : rq_query request = None;
  au_body : rq_body request = Some body;
  au_size : str_len body <= sa_request_body_bytes auth;
  au_signed : ∃ key signature, key ∈ sa_trusted_keys auth ∧ str_len signature = 64
    ∧ header_values SIGNATURE_HEADER (rq_headers request) = [base64_encode signature]
    ∧ verify key (signature_preimage (rq_method request) (rq_path request) body) signature = true;
  au_value : from_slice body = Some value;
  au_canonical : canonical_json value = Some body;
  au_payload : deserialize body = Some (payload, false);
}.

Lemma authenticate_ok auth request payload :
  authenticate auth request = Ok payload → ∃ body value, authentic auth request payload body value.
Proof.
  unfold Auth.authenticate. intros H. apply bind_ok in H as ([] & Hq%ensure_ok & H). cbv zeta in H.
  apply bind_ok in H as (body & Hb%ok_or_ok & H). apply bind_ok in H as ([] & Hs%ensure_ok & H).
  apply bind_ok in H as ([] & Hsig & H). apply bind_ok in H as (value & Hv%ok_or_ok & H).
  apply bind_ok in H as (canonical & Hc%ok_or_ok & H). apply bind_ok in H as ([] & He%ensure_ok & H).
  apply bind_ok in H as ([p ignored] & Hd%ok_or_ok & H). apply bind_ok in H as ([] & Hi%ensure_ok & [= ->]).
  split_bools. subst canonical ignored. exists body, value. split; try done.
  - by destruct (rq_query request).
  - unfold body_bytes in Hb. destruct (rq_body request) as [b|]; [|done]. simpl in Hb. by case_match; simplify_eq.
  - unfold verify_signature in Hsig. destruct (header_values _ _) as [|v [|]] eqn:Eh; try done.
    apply bind_ok in Hsig as (encoded & Ht%ok_or_ok & Hsig). apply bind_ok in Hsig as (signature & _ & Hsig).
    apply bind_ok in Hsig as ([] & Hlen%ensure_ok & Hsig). apply bind_ok in Hsig as ([] & Henc%ensure_ok & Hsig).
    apply ensure_ok, existsb_exists in Hsig as (key & Hkey & Hver). split_bools.
    unfold header_to_str in Ht. case_match; simplify_eq. exists key, signature. split_and!; [by apply list_elem_of_In|done..].
Qed.

(** C26: only authentic requests reach a signed route.  A request is accepted only when it
    has no query, its body fits and is the canonical form of a JSON value with no unknown
    field, its one signature header is the canonical text of a signature that verifies for
    exactly this method, path and body under a trusted key, and a token was left; two
    accepted bodies for the same value are the same bytes.  A request that fails any of
    the checks costs no token. *)
Theorem signed_requests_authenticated auth request now answer auth' :
  from_request (Some auth) request now = (answer, auth') →
  match answer with
  | Ok payload => ∃ body value, authentic auth request payload body value
      ∧ (try_take (sa_limiter auth) now).1 = true
      ∧ ∀ auth2 request2 payload2 body2, authentic auth2 request2 payload2 body2 value → body2 = body
  | Err Api_RateLimited => (try_take (sa_limiter auth) now).1 = false
  | Err _ => auth' = Some auth ∧ is_ok (authenticate auth request) = false
  end.
Proof.
  unfold Auth.from_request. destruct (authenticate auth request) as [payload|e] eqn:E.
  - unfold auth_permit. destruct (try_take (sa_limiter auth) now) as [granted b]. destruct granted; intros [= <- <-]; [|done].
    apply authenticate_ok in E as (body & value & Ha). exists body, value. split_and!; [done..|].
    intros auth2 request2 payload2 body2 H2. pose proof (au_canonical _ _ _ _ _ Ha). pose proof (au_canonical _ _ _ _ _ H2). congruence.
  - intros [= <- <-]. assert (e ≠ Api_RateLimited) as Hne; [|by destruct e].
    intros ->. unfold Auth.authenticate in E.
    repeat match goal with
    | H : (_ ≫= _) = Err _ |- _ => apply bind_err in H as [H|(? & ? & H)]
    | H : ensure _ _ = Err _ |- _ => unfold ensure in H; case_match; simplify_eq
    | H : ok_or _ _ = Err _ |- _ => unfold ok_or in H; case_match; simplify_eq
    | H : (match ?x with pair _ _ => _ end) = Err _ |- _ => destruct x
    | H : verify_signature _ _ _ _ = Err _ |- _ => unfold verify_signature in H; repeat case_match; simplify_eq
    end; try done.
Qed.
End theorems.


(** ** Whose address keys the policy *)

Definition comma_free (s : string) : bool := all_bytes (λ c, negb (Ascii.eqb c ",")) s.

(** A proxy appends one entry: on a line of its own after the others, or at the end of the
    last line. *)
Inductive forwards (headers : list (string * string)) (entry : string) : list (string * string) → Prop :=
  | forwards_line : forwards headers entry (headers ++ [(X_FORWARDED_FOR, entry)])
  | forwards_extend before value after :
      headers = (before ++ (X_FORWARDED_FOR, value) :: after)%list →
      header_values X_FORWARDED_FOR after = [] →
      forwards headers entry (before ++ (X_FORWARDED_FOR, (value ++ "," ++ entry)%string) :: after)%list.

(** The entries a chain of proxies appended, the first proxy first. *)
Inductive forwarded (headers : list (string * string)) : list string → list (string * string) → Prop :=
  | forwarded_nil : forwarded headers [] headers
  | forwarded_snoc entries entry headers1 headers2 :
      forwarded headers entries headers1 → comma_free entry = true → forwards headers1 entry headers2 →
      forwarded headers (entries ++ [entry]) headers2.

Lemma split_char_free entry : comma_free entry = true → split_char "," entry = [entry].
Proof.
  unfold comma_free. induction entry as [|c s IH]; [done|]. simpl. intros H. apply andb_true_iff in H as [Hc Hs].
  apply negb_true_iff in Hc. by rewrite Hc, IH.
Qed.

Lemma split_char_nonempty sep s : split_char sep s ≠ [].
Proof. destruct s as [|c s]; [done|]. simpl. destruct (Ascii.eqb c sep); [done|]. by destruct (split_char sep s). Qed.

Lemma split_char_snoc value entry :
  comma_free entry = true → split_char "," (value ++ "," ++ entry) = (split_char "," value ++ [entry])%list.
Proof.
  intros He. induction value as [|c s IH]; simpl in *; [by rewrite split_char_free|].
  rewrite IH. destruct (Ascii.eqb c ","); [done|]. pose proof (split_char_nonempty "," s). by destruct (split_char "," s).
Qed.

Lemma header_values_app name xs ys : header_values name (xs ++ ys) = (header_values name xs ++ header_values name ys)%list.
Proof. unfold header_values. by rewrite filter_app, fmap_app. Qed.

Lemma header_values_own name value : header_values name [(name, value)] = [value].
Proof. unfold header_values. rewrite filter_cons_True; [done|]. simpl. by rewrite String.eqb_refl. Qed.

(** The appended entry is the rightmost one. *)
Lemma forwards_entries headers entry headers' :
  comma_free entry = true → forwards headers entry headers' →
  forwarded_entries headers' = entry :: forwarded_entries headers.
Proof.
  intros He [|before value after -> Hafter]; unfold forwarded_entries.
  - by rewrite header_values_app, header_values_own, rev_app_distr; simpl; rewrite split_char_free.
  - assert (∀ v, rev (header_values X_FORWARDED_FOR (before ++ (X_FORWARDED_FOR, v) :: after)%list)
                 = v :: rev (header_values X_FORWARDED_FOR before)) as E.
    { intros v. change ((X_FORWARDED_FOR, v) :: after) with ([(X_FORWARDED_FOR, v)] ++ after)%list.
      by rewrite !header_values_app, header_values_own, Hafter, app_nil_r, rev_app_distr. }
    rewrite !E, !fmap_cons, split_char_snoc, rev_app_distr by done. done.
Qed.

Lemma forwarded_chain headers entries headers' :
  forwarded headers entries headers' → forwarded_entries headers' = (rev entries ++ forwarded_entries headers)%list.
Proof.
  induction 1 as [|entries entry headers1 headers2 _ IH He Hf]; [done|].
  rewrite (forwards_entries _ _ _ He Hf), IH, rev_app_distr. done.
Qed.

(** C27: no client chooses its own address.  Behind [n] trusted proxies, each of which
    appends one entry in either form HTTP allows, the policy key is the address the first
    of them wrote, or the TCP peer when that entry is no address, whatever header lines
    the client sent; with no trusted proxy it is the TCP peer. *)
Theorem client_address_unforgeable peer headers entries headers' :
  forwarded headers entries headers' →
  client_ip peer headers' (length entries) = default peer (head entries ≫= forwarded_ip)
  ∧ client_ip peer headers' 0 = peer.
Proof.
  intros H%forwarded_chain. split; [|done]. destruct entries as [|e es]; [done|]. simpl. rewrite H.
  simpl rev. rewrite <- app_assoc. simpl.
  rewrite lookup_app_r; rewrite length_rev; [|lia]. by rewrite Nat.sub_diag.
Qed.

(** The vectors of the source's own test. *)
Definition proxy_ip : IpAddr := IpV4 167772161.
Definition client_v4 : IpAddr := IpV4 3405803783.
Definition client_v6 : IpAddr := IpV6 42540766411282592856903984951653826567.

Example client_ip_vectors :
  (λ '(hops, lines), client_ip proxy_ip ((λ l, (X_FORWARDED_FOR, l)) <$> lines) hops) <$>
    [(0%nat, ["203.0.113.7"]); (1%nat, []); (1%nat, ["203.0.113.7"]); (1%nat, ["198.51.100.1, 203.0.113.7"]);
     (2%nat, ["198.51.100.1, 203.0.113.7, 192.0.2.10"]); (3%nat, ["198.51.100.1, 203.0.113.7"]);
     (1%nat, ["203.0.113.7, not-an-ip"]); (1%nat, ["203.0.113.7,"]); (1%nat, ["203.0.113.7, 2001:db8::7]"]);
     (2%nat, ["198.51.100.1, 203.0.113.7"; "192.0.2.10"]); (1%nat, ["  198.51.100.1 , 203.0.113.7  "]);
     (1%nat, ["203.0.113.7:4711"]); (1%nat, ["::ffff:203.0.113.7"]); (1%nat, ["2001:db8::7"]);
     (1%nat, ["[2001:db8::7]"]); (1%nat, ["[2001:db8::7]:4711"])]
  = [proxy_ip; proxy_ip; client_v4; client_v4; client_v4; proxy_ip; proxy_ip; proxy_ip; proxy_ip;
     client_v4; client_v4; client_v4; client_v4; client_v6; client_v6; client_v6].
Proof. vm_compute. reflexivity. Qed.

(** ** Instances *)

Lemma signature_binds_request_witness :
  nul_free "post" = true ∧ nul_free "/v0/a" = true
  ∧ to_ascii_uppercase "post" = to_ascii_uppercase "POST" ∧ "/v0/a" = "/v0/a" ∧ "{}" = "{}".
Proof. split_and!; [done..| | |]; apply (signature_binds_request "post" "/v0/a" "{}" "POST" "/v0/a" "{}"); reflexivity. Defined.

Definition example_signature : string := String.string_of_list_ascii (replicate 64 "s"%char).

Definition example_verify (key preimage signature : string) : bool :=
  String.eqb preimage (key ++ signature_preimage "POST" "/v0/drains" "{}") && String.eqb signature example_signature.

Definition example_identity64 : UrlSafeBase64 := {| base64_encode := λ s, s; base64_decode := Some |}.

Definition example_auth : SignedServiceAuth := mk_SignedServiceAuth ["other"; ""] 2 (TokenBucket_new 5 1 0).

Definition example_request : HttpRequest :=
  mk_HttpRequest "POST" "/v0/drains" None [("host", "h"); (SIGNATURE_HEADER, example_signature)] (Some "{}").

Lemma signed_requests_authenticated_witness :
  let b64 := example_identity64 in
  let deserialize := λ body : string, Some (body, false) in
  ∃ body value, authentic example_verify Some Some deserialize example_auth example_request "{}" body value
    ∧ (try_take (sa_limiter example_auth) 7).1 = true
    ∧ ∀ auth2 request2 payload2 body2,
        authentic example_verify Some Some deserialize auth2 request2 payload2 body2 value → body2 = body.
Proof.
  apply (signed_requests_authenticated (b64 := example_identity64) example_verify Some Some (λ body, Some (body, false))
    example_auth example_request 7 (Ok "{}") (Some (set_limiter example_auth (try_take (sa_limiter example_auth) 7).2))).
  vm_compute. reflexivity.
Defined.

(** A client that claims an address of its own, behind a proxy that starts a line and one
    that extends it. *)
Lemma client_address_unforgeable_witness :
  client_ip proxy_ip [("host", "h"); (X_FORWARDED_FOR, "1.1.1.1, 2.2.2.2"); (X_FORWARDED_FOR, "203.0.113.7, 192.0.2.10")] 2
    = default proxy_ip (head ["203.0.113.7"; " 192.0.2.10"] ≫= forwarded_ip)
  ∧ client_ip proxy_ip [("host", "h"); (X_FORWARDED_FOR, "1.1.1.1, 2.2.2.2"); (X_FORWARDED_FOR, "203.0.113.7, 192.0.2.10")] 0
    = proxy_ip.
Proof.
  apply (client_address_unforgeable proxy_ip [("host", "h"); (X_FORWARDED_FOR, "1.1.1.1, 2.2.2.2")] ["203.0.113.7"; " 192.0.2.10"]).
  apply (forwarded_snoc _ ["203.0.113.7"] " 192.0.2.10"
    [("host", "h"); (X_FORWARDED_FOR, "1.1.1.1, 2.2.2.2"); (X_FORWARDED_FOR, "203.0.113.7")]); [|reflexivity|].
  - apply (forwarded_snoc _ [] "203.0.113.7" _ _ (forwarded_nil _)); [reflexivity|].
    exact (forwards_line [("host", "h"); (X_FORWARDED_FOR, "1.1.1.1, 2.2.2.2")] "203.0.113.7").
  - apply (forwards_extend _ " 192.0.2.10" [("host", "h"); (X_FORWARDED_FOR, "1.1.1.1, 2.2.2.2")] "203.0.113.7" []); reflexivity.
Defined.
