(* ===== verification/Setup.v ===== *)
(** * Setup: the wallet setup flows ([setup.rs], [http/setup.rs])

    A Creator's browser begins a setup flow, shows the authorization URL to the wallet, and
    asks to complete; a flow owns one secret-bearing attempt and one permit of a semaphore
    until its one completion starts.  Other requests poll the flow, bounded per flow and in
    total, and are woken by a notification.  The tables live behind one mutex: the
    operations here are its critical sections, in the order the tasks run them, and
    [setup_step] interleaves them with clock ticks, dropped requests and aborted tasks.

    The completer (the wallet handshake) and the parser of URLs are parameters: a completer
    may answer anything, at any time.  An instant is a number of nanoseconds since the
    process started. *)

From S2P Require Import Prelude Text Tally Locks Limits Auth.
Local Open Scope string_scope.
Local Open Scope Z_scope.

(** ** Values *)

Definition FLOW_LIFETIME : Z := 5 * 60 * 1000000000.

Definition MAX_CREATOR_HELD_RATE_CLIENTS : Z := 65536.

Inductive ReconnectScope := ScopeFull | UsdtOnly.

Inductive Completion := DurableSuccess | DefinitiveFailure | TransientOverload | TransientUnavailable.

Inductive FlowStatus := FlowPending | FlowCompleting | FlowCompleted | FlowFailed.

#[global] Instance FlowStatus_eq_dec : EqDecision FlowStatus.
Proof. solve_decision. Defined.

Inductive BeginError := Begin_InvalidRequest | Begin_RateLimited | Begin_Unavailable.

Inductive CreatorHeldError := Held_RateLimited | Held_Unavailable.

Inductive PollResult :=
  | PollComplete | PollPendingTimeout | PollUnknown | PollExpired | PollFailed | PollOverloaded | PollUnavailable.

#[global] Instance PollResult_eq_dec : EqDecision PollResult.
Proof. solve_decision. Defined.

Record SetupLimits := mk_SetupLimits {
  max_polls_per_flow : Z;
  max_polls : Z;
  setup_per_ip_per_minute : Z;
  creator_held_per_ip_per_minute : Z;
  max_pending_setup_flows : Z;
}.

(** ** What a request may ask for *)

(** What the server reads of a parsed [url::Url]; [pu_host_ipv6] is [matches!(host(), Ipv6)]. *)
Record ParsedUrl := mk_ParsedUrl {
  pu_as_str : string;
  pu_scheme : string;
  pu_cannot_be_a_base : bool;
  pu_username : string;
  pu_password : option string;
  pu_host : option string;
  pu_host_ipv6 : bool;
  pu_port : option Z;
  pu_path : string;
  pu_query : option string;
  pu_query_pairs : list (string * string);
  pu_fragment : option string;
  pu_origin : string;
}.

(** [state.chars().any(char::is_control)] on UTF-8: the category Cc is the bytes below 32,
    127, and the two-byte forms of 128 to 159. *)
Fixpoint has_control (s : string) : bool :=
  match s with
  | EmptyString => false
  | String c rest =>
      (byte c <=? 31) || (byte c =? 127)
      || ((byte c =? 194) && match rest with String d _ => in_range 128 159 d | EmptyString => false end)
      || has_control rest
  end.

Definition valid_state (state : string) : bool :=
  (1 <=? str_len state) && (str_len state <=? 512) && negb (has_control state).

Definition validated_origin (parse_url : string → option ParsedUrl) (return_to : string) (allowed_origins : list string) :
    option string :=
  if 2048 <? str_len return_to then None
  else
    url ← parse_url return_to;
    if negb (String.eqb (pu_scheme url) "http" || String.eqb (pu_scheme url) "https")
       || pu_cannot_be_a_base url || is_none (pu_host url) || negb (str_is_empty (pu_username url))
       || negb (is_none (pu_password url))
    then None
    else if existsb (λ allowed, String.eqb allowed "*" || String.eqb allowed (pu_origin url)) allowed_origins
    then Some (pu_origin url) else None.

(** ** The tables behind the mutex *)

Section setup.
Context {Attempt : Type}.

(** [fl_reservation]: the flow owns a permit.  [fl_active_polls]: the address of the counter
    it shares with its polls. *)
Record Flow := mk_Flow {
  fl_attempt : option Attempt;
  fl_reservation : bool;
  fl_expires_at : Z;
  fl_status : FlowStatus;
  fl_active_polls : nat;
}.

Record State := mk_State {
  flows : gmap string Flow;
  expired : gmap string Z;
}.

Definition flow_due (now : Z) (flow : Flow) : bool := fl_expires_at flow <=? now.

Definition cleanup_expired (state : State) (now : Z) : State :=
  mk_State (filter (λ kv, flow_due now kv.2 = false) (flows state))
    (((λ _, now + FLOW_LIFETIME) <$> filter (λ kv, flow_due now kv.2 = true) (flows state))
       ∪ filter (λ kv, now < kv.2) (expired state)).

Definition set_flow_status (status : FlowStatus) (flow : Flow) : Flow :=
  mk_Flow (fl_attempt flow) (fl_reservation flow) (fl_expires_at flow) status (fl_active_polls flow).

Definition put_flow (state : State) (flow_id : string) (flow : Flow) : State :=
  mk_State (<[flow_id := flow]> (flows state)) (expired state).

Definition fail_cancelled_completion (state : State) (flow_id : string) : State :=
  match flows state !! flow_id with
  | Some flow => if decide (fl_status flow = FlowCompleting) then put_flow state flow_id (set_flow_status FlowFailed flow) else state
  | None => state
  end.

Definition expired_or_unknown (state : State) (flow_id : string) : PollResult :=
  match expired state !! flow_id with Some _ => PollExpired | None => PollUnknown end.

Definition reserve_poll (counter maximum : Z) : option Z := if counter <? maximum then Some (counter + 1) else None.

(** ** [Inner]: what the tasks share

    [setup_capacity] is the number of free permits; the counters of the flows are cells of a
    store because a poll may outlive its flow. *)
Record Inner := mk_Inner {
  in_limits : SetupLimits;
  setup_capacity : Z;
  setup_rate : PerIpRateLimiter;
  creator_held_rate : PerIpRateLimiter;
  in_state : State;
  active_polls : Z;
  flow_polls : gmap nat Z;
}.

Definition Inner_new (limits : SetupLimits) : Inner :=
  mk_Inner limits (max_pending_setup_flows limits)
    (with_max_clients (setup_per_ip_per_minute limits) u64_max)
    (with_max_clients (creator_held_per_ip_per_minute limits) MAX_CREATOR_HELD_RATE_CLIENTS)
    (mk_State ∅ ∅) 0 ∅.

Definition set_capacity (i : Inner) (n : Z) : Inner :=
  mk_Inner (in_limits i) n (setup_rate i) (creator_held_rate i) (in_state i) (active_polls i) (flow_polls i).
Definition set_setup_rate (i : Inner) (l : PerIpRateLimiter) : Inner :=
  mk_Inner (in_limits i) (setup_capacity i) l (creator_held_rate i) (in_state i) (active_polls i) (flow_polls i).
Definition set_held_rate (i : Inner) (l : PerIpRateLimiter) : Inner :=
  mk_Inner (in_limits i) (setup_capacity i) (setup_rate i) l (in_state i) (active_polls i) (flow_polls i).
Definition set_state (i : Inner) (s : State) : Inner :=
  mk_Inner (in_limits i) (setup_capacity i) (setup_rate i) (creator_held_rate i) s (active_polls i) (flow_polls i).
Definition set_active_polls (i : Inner) (n : Z) : Inner :=
  mk_Inner (in_limits i) (setup_capacity i) (setup_rate i) (creator_held_rate i) (in_state i) n (flow_polls i).
Definition set_flow_polls (i : Inner) (m : gmap nat Z) : Inner :=
  mk_Inner (in_limits i) (setup_capacity i) (setup_rate i) (creator_held_rate i) (in_state i) (active_polls i) m.

Definition flow_permits (flow : Flow) : Z := if fl_reservation flow then 1 else 0.

(** A removed flow drops its reservation, which returns the permit. *)
Definition inner_cleanup (i : Inner) (now : Z) : Inner :=
  set_capacity (set_state i (cleanup_expired (in_state i) now))
    (setup_capacity i + tally flow_permits (filter (λ kv, flow_due now kv.2 = true) (flows (in_state i)))).

Definition release_permit (i : Inner) : Inner := set_capacity i (setup_capacity i + 1).

(** ** Beginning a flow *)

Definition begin_rate (i : Inner) (peer_ip : IpAddr) (now : Z) : result BeginError unit * Inner :=
  let '(granted, l) := permit (setup_rate i) peer_ip now in
  (if granted then Ok tt else Err Begin_RateLimited, set_setup_rate i l).

Definition begin_reserve (i : Inner) : result BeginError Inner :=
  if 0 <? setup_capacity i then Ok (set_capacity i (setup_capacity i - 1)) else Err Begin_Unavailable.

Definition begin_error (error : Completion) : BeginError :=
  match error with DefinitiveFailure => Begin_InvalidRequest | _ => Begin_Unavailable end.

(** The last section: the clock is read before the cleanup and again for the deadline. *)
Definition begin_insert (i : Inner) (flow_id : string) (attempt : Attempt) (counter : nat) (now now2 : Z) : Inner :=
  let i := inner_cleanup i now in
  let i := set_flow_polls i (<[counter := 0]> (flow_polls i)) in
  set_state i (put_flow (in_state i) flow_id (mk_Flow (Some attempt) true (now2 + FLOW_LIFETIME) FlowPending counter)).

(** ** Completing a flow *)

(** The first section of [trigger_completion]: an answer, or the attempt with the reservation
    and the time left; [None] is a failed [expect]. *)
Definition trigger_section (i : Inner) (flow_id : string) (now : Z) : option (Inner * (PollResult + (Attempt * Z))) :=
  let i := inner_cleanup i now in
  match flows (in_state i) !! flow_id with
  | None => Some (i, inl (expired_or_unknown (in_state i) flow_id))
  | Some flow =>
      match fl_status flow with
      | FlowCompleted => Some (i, inl PollComplete)
      | FlowFailed => Some (i, inl PollFailed)
      | FlowCompleting => Some (i, inl PollPendingTimeout)
      | FlowPending =>
          match fl_attempt flow, fl_reservation flow with
          | Some attempt, true =>
              Some (set_state i (put_flow (in_state i) flow_id
                      (mk_Flow None false (fl_expires_at flow) FlowCompleting (fl_active_polls flow))),
                    inr (attempt, Z.max 0 (fl_expires_at flow - now)))
          | _, _ => None
          end
      end
  end.

Definition completion_status (c : Completion) : FlowStatus * PollResult :=
  match c with
  | DurableSuccess => (FlowCompleted, PollComplete)
  | DefinitiveFailure | TransientOverload | TransientUnavailable => (FlowFailed, PollFailed)
  end.

(** The section after the completer answered. *)
Definition complete_section (i : Inner) (flow_id : string) (c : Completion) (now : Z) : Inner * PollResult :=
  let i := inner_cleanup i now in
  match flows (in_state i) !! flow_id with
  | None => (i, expired_or_unknown (in_state i) flow_id)
  | Some flow =>
      let '(status, result) := completion_status c in
      (set_state i (put_flow (in_state i) flow_id (set_flow_status status flow)), result)
  end.

(** ** Polling *)

Definition status_result (status : FlowStatus) : PollResult :=
  match status with
  | FlowPending | FlowCompleting => PollPendingTimeout
  | FlowCompleted => PollComplete
  | FlowFailed => PollFailed
  end.

Definition status (i : Inner) (flow_id : string) (now : Z) : Inner * PollResult :=
  let i := inner_cleanup i now in
  (i, match flows (in_state i) !! flow_id with
      | None => expired_or_unknown (in_state i) flow_id
      | Some flow => status_result (fl_status flow)
      end).

(** The section of [acquire_poll]: an answer, or the flow's counter. *)
Definition acquire_section (i : Inner) (flow_id : string) (now : Z) : Inner * (PollResult + nat) :=
  let i := inner_cleanup i now in
  (i, match flows (in_state i) !! flow_id with
      | None => inl (expired_or_unknown (in_state i) flow_id)
      | Some flow =>
          match fl_status flow with
          | FlowFailed => inl PollFailed
          | FlowCompleted => inl PollComplete
          | FlowPending | FlowCompleting => inr (fl_active_polls flow)
          end
      end).

Definition acquire_flow (i : Inner) (counter : nat) : result PollResult Inner :=
  match flow_polls i !! counter ≫= λ n, reserve_poll n (max_polls_per_flow (in_limits i)) with
  | Some n => Ok (set_flow_polls i (<[counter := n]> (flow_polls i)))
  | None => Err PollOverloaded
  end.

Definition release_flow (i : Inner) (counter : nat) : Inner :=
  set_flow_polls i (alter (λ n, n - 1) counter (flow_polls i)).

(** Refused polls ([PollUnavailable]) give the flow's slot back. *)
Definition acquire_total (i : Inner) (counter : nat) : bool * Inner :=
  match reserve_poll (active_polls i) (max_polls (in_limits i)) with
  | Some n => (true, set_active_polls i n)
  | None => (false, release_flow i counter)
  end.

Definition release_total (i : Inner) : Inner := set_active_polls i (active_polls i - 1).

Definition flow_exists (i : Inner) (flow_id : string) (now : Z) : Inner * bool :=
  let i := inner_cleanup i now in
  (i, match flows (in_state i) !! flow_id with Some _ => true | None => false end).

(** [creator_held]: the credentials are read only within the rate. *)
Definition creator_held (i : Inner) (peer_ip : IpAddr) (now : Z) (held : result Completion bool) :
    result CreatorHeldError bool * Inner :=
  let '(granted, l) := permit (creator_held_rate i) peer_ip now in
  (if granted then match held with Ok b => Ok b | Err _ => Err Held_Unavailable end else Err Held_RateLimited,
   set_held_rate i l).
End setup.
Arguments Flow : clear implicits.
Arguments State : clear implicits.
Arguments Inner : clear implicits.

(** ** The setup flows as one concurrent system

    The tasks of [SetupService], each a sequence of the critical sections above; any
    interleaving, any answers of the completer, requests dropped at any await and aborted
    completion tasks.  The log is what was observed: flows begun, attempts handed to the
    completer, its answers, and the replies in the order they were decided. *)

Section system.
Context {Attempt : Type}.

(** Where a task is.  [BeginStarting] and later own a permit; [Completing] and [Answered] own
    the completion lease with the flow's permit; [PollSlot] and later own a slot of the flow's
    counter, [PollLeased], [PollRegistered] and [PollWaiting] also a slot of the total,
    [PollClosing], in the drop of the lease, only the latter.  The flag of a registered poll
    says that its [Notified] was woken, that of a closing one that a last look follows. *)
Inductive Task :=
  | BeginRate (peer_ip : IpAddr) (now : Z)
  | BeginCleanup (now : Z)
  | BeginReserve
  | BeginStarting
  | BeginStarted (attempt : Attempt)
  | Completing (flow_id : string) (attempt : Attempt) (deadline : Z)
  | Answered (flow_id : string) (c : Completion)
  | Notifying (flow_id : string)
  | Cancelled (flow_id : string)
  | PollEntered (flow_id : string) (counter : nat)
  | PollSlot (flow_id : string) (counter : nat)
  | PollLeased (flow_id : string) (counter : nat)
  | PollRegistered (flow_id : string) (counter : nat) (notified : bool)
  | PollWaiting (flow_id : string) (counter : nat) (notified : bool) (until : Z)
  | PollClosing (flow_id : string) (final : bool)
  | PollFinal (flow_id : string).

Inductive Event :=
  | EvBegun (flow_id : string) (attempt : Attempt) (counter : nat)
  | EvAttempt (flow_id : string) (attempt : Attempt)
  | EvAnswer (flow_id : string) (c : Completion)
  | EvReply (flow_id : string) (reply : PollResult).

Record Sys := mk_Sys {
  sy_clock : Z;
  sy_inner : Inner Attempt;
  sy_tasks : gmap nat Task;
  sy_log : list Event;
}.

Definition setup_init (limits : SetupLimits) : Sys := mk_Sys 0 (Inner_new limits) ∅ [].

(** [Notify::notify_waiters]: every [Notified] created before is woken. *)
Definition wake (t : Task) : Task :=
  match t with
  | PollRegistered flow_id counter _ => PollRegistered flow_id counter true
  | PollWaiting flow_id counter _ until => PollWaiting flow_id counter true until
  | _ => t
  end.

(** What dropping the future of a request gives back, and what is left of the task. *)
Definition drop_request (i : Inner Attempt) (t : Task) : option (Inner Attempt * option Task) :=
  match t with
  | BeginRate _ _ | BeginCleanup _ | PollFinal _ => Some (i, None)
  | BeginStarting | BeginStarted _ => Some (release_permit i, None)
  | PollRegistered flow_id counter _ | PollWaiting flow_id counter _ _ =>
      Some (release_flow i counter, Some (PollClosing flow_id false))
  | _ => None
  end.

Definition put_task (tid : nat) (t : option Task) (tasks : gmap nat Task) : gmap nat Task :=
  match t with Some t => <[tid := t]> tasks | None => delete tid tasks end.

(** The flow whose one completion a task carries. *)
Definition live_completion (t : Task) : option string :=
  match t with Completing flow_id _ _ | Answered flow_id _ => Some flow_id | _ => None end.

Definition begun_ids (log : list Event) : list string :=
  omap (λ e, match e with EvBegun flow_id _ _ => Some flow_id | _ => None end) log.

(** One step of one task.  A new flow's identifier is 256 random bits: it is taken to be one
    that no flow had before.  An aborted completion task drops its armed lease, which fails
    the flow at once when the mutex is free ([step_abort]) and in a task of its own, if
    there still is a runtime, when it is not ([step_abort_busy]).  A poll waits for any
    stretch of time. *)
Inductive setup_step (s : Sys) : Sys → Prop :=
  | step_tick clock :
      sy_clock s <= clock → setup_step s (mk_Sys clock (sy_inner s) (sy_tasks s) (sy_log s))
  | step_begin tid peer_ip :
      sy_tasks s !! tid = None →
      setup_step s (mk_Sys (sy_clock s) (sy_inner s) (<[tid := BeginRate peer_ip (sy_clock s)]> (sy_tasks s)) (sy_log s))
  | step_rate tid peer_ip now answer i :
      sy_tasks s !! tid = Some (BeginRate peer_ip now) → begin_rate (sy_inner s) peer_ip now = (answer, i) →
      setup_step s (mk_Sys (sy_clock s) i
        (put_task tid (if is_ok answer then Some (BeginCleanup now) else None) (sy_tasks s)) (sy_log s))
  | step_begin_cleanup tid now :
      sy_tasks s !! tid = Some (BeginCleanup now) →
      setup_step s (mk_Sys (sy_clock s) (inner_cleanup (sy_inner s) now) (<[tid := BeginReserve]> (sy_tasks s)) (sy_log s))
  | step_reserved tid i :
      sy_tasks s !! tid = Some BeginReserve → begin_reserve (sy_inner s) = Ok i →
      setup_step s (mk_Sys (sy_clock s) i (<[tid := BeginStarting]> (sy_tasks s)) (sy_log s))
  | step_full tid e :
      sy_tasks s !! tid = Some BeginReserve → begin_reserve (sy_inner s) = Err e →
      setup_step s (mk_Sys (sy_clock s) (sy_inner s) (delete tid (sy_tasks s)) (sy_log s))
  | step_started tid attempt :
      sy_tasks s !! tid = Some BeginStarting →
      setup_step s (mk_Sys (sy_clock s) (sy_inner s) (<[tid := BeginStarted attempt]> (sy_tasks s)) (sy_log s))
  | step_start_failed tid :
      sy_tasks s !! tid = Some BeginStarting →
      setup_step s (mk_Sys (sy_clock s) (release_permit (sy_inner s)) (delete tid (sy_tasks s)) (sy_log s))
  | step_insert tid attempt flow_id counter clock :
      sy_tasks s !! tid = Some (BeginStarted attempt) → sy_clock s <= clock →
      flow_id ∉ begun_ids (sy_log s) → flow_polls (sy_inner s) !! counter = None →
      setup_step s (mk_Sys clock (begin_insert (sy_inner s) flow_id attempt counter (sy_clock s) clock)
        (delete tid (sy_tasks s)) (EvBegun flow_id attempt counter :: sy_log s))
  | step_trigger_answered flow_id i reply :
      trigger_section (sy_inner s) flow_id (sy_clock s) = Some (i, inl reply) →
      setup_step s (mk_Sys (sy_clock s) i (sy_tasks s) (EvReply flow_id reply :: sy_log s))
  | step_trigger tid flow_id i attempt remaining :
      sy_tasks s !! tid = None → trigger_section (sy_inner s) flow_id (sy_clock s) = Some (i, inr (attempt, remaining)) →
      setup_step s (mk_Sys (sy_clock s) i (<[tid := Completing flow_id attempt (sy_clock s + remaining)]> (sy_tasks s))
        (EvAttempt flow_id attempt :: sy_log s))
  | step_completer_answers tid flow_id attempt deadline c :
      sy_tasks s !! tid = Some (Completing flow_id attempt deadline) →
      setup_step s (mk_Sys (sy_clock s) (sy_inner s) (<[tid := Answered flow_id c]> (sy_tasks s)) (EvAnswer flow_id c :: sy_log s))
  | step_completer_late tid flow_id attempt deadline :
      sy_tasks s !! tid = Some (Completing flow_id attempt deadline) → deadline <= sy_clock s →
      setup_step s (mk_Sys (sy_clock s) (sy_inner s) (<[tid := Answered flow_id DefinitiveFailure]> (sy_tasks s)) (sy_log s))
  | step_record tid flow_id c i reply :
      sy_tasks s !! tid = Some (Answered flow_id c) → complete_section (sy_inner s) flow_id c (sy_clock s) = (i, reply) →
      setup_step s (mk_Sys (sy_clock s) i (<[tid := Notifying flow_id]> (sy_tasks s)) (EvReply flow_id reply :: sy_log s))
  | step_notify tid flow_id :
      sy_tasks s !! tid = Some (Notifying flow_id) →
      setup_step s (mk_Sys (sy_clock s) (release_permit (sy_inner s)) (wake <$> delete tid (sy_tasks s)) (sy_log s))
  | step_abort tid t flow_id :
      sy_tasks s !! tid = Some t → live_completion t = Some flow_id →
      setup_step s (mk_Sys (sy_clock s) (set_state (sy_inner s) (fail_cancelled_completion (in_state (sy_inner s)) flow_id))
        (<[tid := Notifying flow_id]> (sy_tasks s)) (EvReply flow_id PollFailed :: sy_log s))
  | step_abort_busy tid t flow_id :
      sy_tasks s !! tid = Some t → live_completion t = Some flow_id →
      setup_step s (mk_Sys (sy_clock s) (release_permit (sy_inner s)) (<[tid := Cancelled flow_id]> (sy_tasks s))
        (EvReply flow_id PollFailed :: sy_log s))
  | step_cancelled tid flow_id :
      sy_tasks s !! tid = Some (Cancelled flow_id) →
      setup_step s (mk_Sys (sy_clock s) (set_state (sy_inner s) (fail_cancelled_completion (in_state (sy_inner s)) flow_id))
        (wake <$> delete tid (sy_tasks s)) (sy_log s))
  | step_cancel_lost tid flow_id :
      sy_tasks s !! tid = Some (Cancelled flow_id) →
      setup_step s (mk_Sys (sy_clock s) (sy_inner s) (delete tid (sy_tasks s)) (sy_log s))
  | step_poll_answered flow_id i reply :
      acquire_section (sy_inner s) flow_id (sy_clock s) = (i, inl reply) →
      setup_step s (mk_Sys (sy_clock s) i (sy_tasks s) (EvReply flow_id reply :: sy_log s))
  | step_poll tid flow_id i counter :
      sy_tasks s !! tid = None → acquire_section (sy_inner s) flow_id (sy_clock s) = (i, inr counter) →
      setup_step s (mk_Sys (sy_clock s) i (<[tid := PollEntered flow_id counter]> (sy_tasks s)) (sy_log s))
  | step_poll_slot tid flow_id counter i :
      sy_tasks s !! tid = Some (PollEntered flow_id counter) → acquire_flow (sy_inner s) counter = Ok i →
      setup_step s (mk_Sys (sy_clock s) i (<[tid := PollSlot flow_id counter]> (sy_tasks s)) (sy_log s))
  | step_poll_overloaded tid flow_id counter reply :
      sy_tasks s !! tid = Some (PollEntered flow_id counter) → acquire_flow (sy_inner s) counter = Err reply →
      setup_step s (mk_Sys (sy_clock s) (sy_inner s) (delete tid (sy_tasks s)) (EvReply flow_id reply :: sy_log s))
  | step_poll_total tid flow_id counter i (granted : bool) :
      sy_tasks s !! tid = Some (PollSlot flow_id counter) → acquire_total (sy_inner s) counter = (granted, i) →
      setup_step s (mk_Sys (sy_clock s) i
        (put_task tid (if granted then Some (PollLeased flow_id counter) else None) (sy_tasks s))
        (if granted then sy_log s else EvReply flow_id PollUnavailable :: sy_log s))
  | step_poll_register tid flow_id counter :
      sy_tasks s !! tid = Some (PollLeased flow_id counter) →
      setup_step s (mk_Sys (sy_clock s) (sy_inner s) (<[tid := PollRegistered flow_id counter false]> (sy_tasks s)) (sy_log s))
  | step_poll_pending tid flow_id counter notified i until :
      sy_tasks s !! tid = Some (PollRegistered flow_id counter notified) →
      status (sy_inner s) flow_id (sy_clock s) = (i, PollPendingTimeout) →
      setup_step s (mk_Sys (sy_clock s) i (<[tid := PollWaiting flow_id counter notified until]> (sy_tasks s)) (sy_log s))
  | step_poll_settled tid flow_id counter notified i reply :
      sy_tasks s !! tid = Some (PollRegistered flow_id counter notified) →
      status (sy_inner s) flow_id (sy_clock s) = (i, reply) → reply ≠ PollPendingTimeout →
      setup_step s (mk_Sys (sy_clock s) (release_flow i counter) (<[tid := PollClosing flow_id false]> (sy_tasks s)) (EvReply flow_id reply :: sy_log s))
  | step_poll_woken tid flow_id counter (notified : bool) until :
      sy_tasks s !! tid = Some (PollWaiting flow_id counter notified until) → notified = true ∨ until <= sy_clock s →
      setup_step s (mk_Sys (sy_clock s) (release_flow (sy_inner s) counter) (<[tid := PollClosing flow_id true]> (sy_tasks s)) (sy_log s))
  | step_poll_close tid flow_id (final : bool) :
      sy_tasks s !! tid = Some (PollClosing flow_id final) →
      setup_step s (mk_Sys (sy_clock s) (release_total (sy_inner s))
        (put_task tid (if final then Some (PollFinal flow_id) else None) (sy_tasks s)) (sy_log s))
  | step_poll_final tid flow_id i reply :
      sy_tasks s !! tid = Some (PollFinal flow_id) → status (sy_inner s) flow_id (sy_clock s) = (i, reply) →
      setup_step s (mk_Sys (sy_clock s) i (delete tid (sy_tasks s)) (EvReply flow_id reply :: sy_log s))
  | step_exists flow_id i b :
      flow_exists (sy_inner s) flow_id (sy_clock s) = (i, b) →
      setup_step s (mk_Sys (sy_clock s) i (sy_tasks s) (sy_log s))
  | step_creator_held peer_ip now held answer i :
      now <= sy_clock s → creator_held (sy_inner s) peer_ip now held = (answer, i) →
      setup_step s (mk_Sys (sy_clock s) i (sy_tasks s) (sy_log s))
  | step_drop tid t i next :
      sy_tasks s !! tid = Some t → drop_request (sy_inner s) t = Some (i, next) →
      setup_step s (mk_Sys (sy_clock s) i (put_task tid next (sy_tasks s)) (sy_log s)).

Definition setup_reachable (limits : SetupLimits) : Sys → Prop := rtc setup_step (setup_init limits).
End system.
