(* ===== verification/SetupProps.v ===== *)
(** * SetupProps: the setup flows are bounded, one-shot and never strand a poll ([setup.rs])

    Three invariants of [setup_step]: permits and poll slots are conserved; the log of every
    flow follows one protocol; a poll that waits on a finished flow is woken. *)

From S2P Require Import Prelude Text Tally Limits Auth Setup.
Local Open Scope string_scope.
Local Open Scope Z_scope.

(** ** Permits and slots *)

Section resources.
Context {Attempt : Type}.
Implicit Types (i : Inner Attempt) (s : @Sys Attempt) (t : @Task Attempt).

(** Free permits and those the flows own. *)
Definition balance i : Z := setup_capacity i + tally flow_permits (flows (in_state i)).

Definition task_permit t : Z :=
  match t with BeginStarting | BeginStarted _ | Completing _ _ _ | Answered _ _ | Notifying _ => 1 | _ => 0 end.

Definition task_total t : Z :=
  match t with PollLeased _ _ | PollRegistered _ _ _ | PollWaiting _ _ _ _ | PollClosing _ _ => 1 | _ => 0 end.

(** The flow and the counter a poll works with, and whether it owns a slot there. *)
Definition task_poll t : option (string * nat) :=
  match t with
  | PollEntered flow_id c | PollSlot flow_id c | PollLeased flow_id c | PollRegistered flow_id c _ | PollWaiting flow_id c _ _ =>
      Some (flow_id, c)
  | _ => None
  end.

Definition owns_slot t : bool := match t with PollEntered _ _ => false | _ => true end.

Definition task_slot (c : nat) t : Z :=
  match task_poll t with Some (_, c') => if decide (c' = c) then if owns_slot t then 1 else 0 else 0 | None => 0 end.

Definition flow_wf (f : Flow Attempt) : Prop :=
  if decide (fl_status f = FlowPending) then is_Some (fl_attempt f) ∧ fl_reservation f = true
  else fl_attempt f = None ∧ fl_reservation f = false.

Record resources (limits : SetupLimits) s : Prop := {
  rs_limits : in_limits (sy_inner s) = limits;
  rs_capacity : 0 <= setup_capacity (sy_inner s);
  rs_permits : balance (sy_inner s) + tally task_permit (sy_tasks s) = max_pending_setup_flows limits;
  rs_total : active_polls (sy_inner s) = tally task_total (sy_tasks s);
  rs_total_max : active_polls (sy_inner s) <= max_polls limits;
  rs_slots c n : flow_polls (sy_inner s) !! c = Some n → n = tally (task_slot c) (sy_tasks s) ∧ n <= max_polls_per_flow limits;
  rs_flows id f : flows (in_state (sy_inner s)) !! id = Some f → flow_wf f ∧ is_Some (flow_polls (sy_inner s) !! fl_active_polls f);
  rs_tasks tid t : sy_tasks s !! tid = Some t → ∀ p, task_poll t = Some p → is_Some (flow_polls (sy_inner s) !! p.2);
}.

(** *** How a step changes one task *)

Definition weigh {A} (w : A → Z) (a : option A) : Z := match a with Some a => w a | None => 0 end.

(** Every task but one is as before, or woken. *)
Record evolves (tasks : gmap nat (@Task Attempt)) (old new : option (@Task Attempt)) (tasks' : gmap nat (@Task Attempt)) : Prop := {
  ev_tally w : (∀ t, w (wake t) = w t) → tally w tasks' = tally w tasks - weigh w old + weigh w new;
  ev_task tid t : tasks' !! tid = Some t → Some t = new ∨ ∃ t0, tasks !! tid = Some t0 ∧ (t = t0 ∨ t = wake t0);
}.

Lemma evolves_none tasks : evolves tasks None None tasks.
Proof. split; [simpl; intros; lia|]. intros tid t Ht. right. eauto. Qed.

Lemma evolves_put tasks tid old new : tasks !! tid = old → evolves tasks old new (put_task tid new tasks).
Proof.
  intros Hold. split.
  - intros w _. destruct new as [t|], old as [t0|]; simpl.
    + rewrite (tally_insert w _ _ _ _ Hold). lia.
    + rewrite (tally_insert_new w _ _ _ Hold). lia.
    + rewrite (tally_delete w _ _ _ Hold). lia.
    + rewrite (delete_id _ _ Hold). lia.
  - intros tid' t Ht. destruct new as [t1|]; simpl in Ht.
    + apply lookup_insert_Some in Ht as [[_ ->]|[_ Ht]]; [by left|right; eauto].
    + apply lookup_delete_Some in Ht as [_ Ht]. right; eauto.
Qed.

Lemma evolves_wake tasks tid old : tasks !! tid = Some old → evolves tasks (Some old) None (wake <$> delete tid tasks).
Proof.
  intros Hold. split.
  - intros w Hw. rewrite tally_fmap, (tally_delete w _ _ _ Hold) by done. simpl. lia.
  - intros tid' t Ht. apply lookup_fmap_Some in Ht as (t0 & <- & Ht). apply lookup_delete_Some in Ht as [_ Ht]. right. eauto.
Qed.

Lemma wake_poll t : task_poll (wake t) = task_poll t.
Proof. by destruct t. Qed.

Lemma wake_slot c t : task_slot c (wake t) = task_slot c t.
Proof. by destruct t. Qed.

Lemma task_slot_nonneg c t : 0 <= task_slot c t.
Proof. unfold task_slot. repeat case_match; lia. Qed.

(** The counters after the step: a new one starts at zero, the others follow the task. *)
Definition counts_follow i i' (old new : option (@Task Attempt)) (limits : SetupLimits) : Prop :=
  (∀ c n', flow_polls i' !! c = Some n' → n' <= max_polls_per_flow limits
    ∧ match flow_polls i !! c with
      | Some n => n' = n - weigh (task_slot c) old + weigh (task_slot c) new
      | None => n' = 0 ∧ weigh (task_slot c) new = 0
      end)
  ∧ ∀ c, is_Some (flow_polls i !! c) → is_Some (flow_polls i' !! c).

Lemma resources_update limits s i' old new tasks' clock log :
  resources limits s → evolves (sy_tasks s) old new tasks' → (∀ t, old = Some t → ∃ tid, sy_tasks s !! tid = Some t) →
  in_limits i' = in_limits (sy_inner s) → 0 <= setup_capacity i' →
  balance i' + weigh task_permit new = balance (sy_inner s) + weigh task_permit old →
  active_polls i' - weigh task_total new = active_polls (sy_inner s) - weigh task_total old → active_polls i' <= max_polls limits →
  counts_follow (sy_inner s) i' old new limits →
  (∀ t p, new = Some t → task_poll t = Some p → is_Some (flow_polls i' !! p.2)) →
  (∀ id f, flows (in_state i') !! id = Some f → flow_wf f ∧ is_Some (flow_polls i' !! fl_active_polls f)) →
  resources limits (mk_Sys clock i' tasks' log).
Proof.
  intros [Hl Hc Hp Ht Htm Hs Hf Htk] [Ev Et] Hin Hl' Hc' Hp' Ht' Htm' [Hcf Hmono] Hnew Hf'.
  split; simpl; try done; [congruence|rewrite (Ev task_permit); [lia|by intros []]|rewrite (Ev task_total); [lia|by intros []]| |].
  - intros c n' Hn'. specialize (Hcf c n' Hn') as [Hmax Hcf]. split; [|done].
    rewrite (Ev (task_slot c)) by apply wake_slot. destruct (flow_polls (sy_inner s) !! c) as [n|] eqn:En.
    + destruct (Hs c n En) as [-> _]. done.
    + destruct Hcf as [-> Hz]. rewrite Hz.
      assert (∀ tid t, sy_tasks s !! tid = Some t → task_slot c t = 0) as Hz'.
      { intros tid t Ht0. unfold task_slot. destruct (task_poll t) as [[id c']|] eqn:Ep; [|done].
        case_decide as Ec; [|done]. subst. destruct (Htk tid t Ht0 _ Ep) as [x Hx]. simpl in Hx. congruence. }
      rewrite tally_zero by exact Hz'. destruct old as [t|]; simpl; [|done]. destruct (Hin t eq_refl) as [tid Htid]. by rewrite (Hz' _ _ Htid).
  - intros tid t Ht0 p Ep. destruct (Et tid t Ht0) as [Hn|(t0 & Ht1 & Hw)]; [by eapply Hnew|].
    apply Hmono. apply (Htk tid t0 Ht1). destruct Hw as [->| ->]; [done|]. by rewrite wake_poll in Ep.
Qed.

(** *** How a section changes the tables *)

Definition flows_ok i : Prop :=
  ∀ id f, flows (in_state i) !! id = Some f → flow_wf f ∧ is_Some (flow_polls i !! fl_active_polls f).

Record moves i i' (d : Z) : Prop := {
  mv_limits : in_limits i' = in_limits i;
  mv_active : active_polls i' = active_polls i;
  mv_polls : flow_polls i' = flow_polls i;
  mv_capacity : 0 <= setup_capacity i → 0 <= setup_capacity i';
  mv_balance : balance i' = balance i + d;
  mv_flows : flows_ok i → flows_ok i';
}.

Lemma moves_trans i1 i2 i3 d1 d2 : moves i1 i2 d1 → moves i2 i3 d2 → moves i1 i3 (d1 + d2).
Proof. intros [] []. split; try congruence; try lia; tauto. Qed.

Lemma resources_moves limits s i' old new tasks' clock log d :
  resources limits s → evolves (sy_tasks s) old new tasks' → (∀ t, old = Some t → ∃ tid, sy_tasks s !! tid = Some t) →
  moves (sy_inner s) i' d → d + weigh task_permit new = weigh task_permit old → weigh task_total new = weigh task_total old →
  (∀ c, weigh (task_slot c) new = weigh (task_slot c) old) →
  (∀ t p, new = Some t → task_poll t = Some p → is_Some (flow_polls (sy_inner s) !! p.2)) →
  resources limits (mk_Sys clock i' tasks' log).
Proof.
  intros R Ev Hin [Ml Ma Mp Mc Mb Mf] Hp Ht Hs Hnew. pose proof R as [Rl Rc Rp Rt Rm Rs Rf Rk].
  eapply resources_update; eauto; try lia; try congruence.
  - split; [|intros c; by rewrite Mp]. intros c n Hn. rewrite Mp in Hn. rewrite Hn, Hs. destruct (Rs c n Hn). lia.
  - intros. rewrite Mp. eauto.
  - by apply Mf.
Qed.

Lemma cleanup_lookup i now id f :
  flows (in_state (inner_cleanup i now)) !! id = Some f ↔ flows (in_state i) !! id = Some f ∧ now < fl_expires_at f.
Proof. simpl. rewrite map_lookup_filter_Some. simpl. unfold flow_due. by rewrite Z.leb_gt. Qed.

Lemma moves_cleanup i now : moves i (inner_cleanup i now) 0.
Proof.
  split; simpl; try done.
  - intros H. pose proof (tally_nonneg (@flow_permits Attempt) (filter (λ kv, flow_due now kv.2 = true) (flows (in_state i)))) as Hn.
    assert (∀ f : Flow Attempt, 0 <= flow_permits f) as Hf by (intros f; unfold flow_permits; case_match; lia). specialize (Hn Hf). lia.
  - unfold balance. simpl. pose proof (tally_filter flow_permits (flow_due now) (flows (in_state i))). lia.
  - intros Hok id f [Hf _]%cleanup_lookup. by apply (Hok id).
Qed.

(** A flow is replaced by one that shares its counter. *)
Lemma moves_put_flow i id f f' :
  flows (in_state i) !! id = Some f → fl_active_polls f' = fl_active_polls f → flow_wf f' →
  moves i (set_state i (put_flow (in_state i) id f')) (flow_permits f' - flow_permits f).
Proof.
  intros Hf Hc Hwf. split; simpl; try done.
  - unfold balance. simpl. rewrite (tally_insert _ _ _ _ _ Hf). lia.
  - intros Hok id' g Hg. simpl in Hg. apply lookup_insert_Some in Hg as [[_ <-]|[_ Hg]]; [|by apply (Hok id')].
    split; [done|]. simpl. rewrite Hc. by apply (Hok id).
Qed.

Lemma moves_trigger i id now i' r :
  flows_ok i → trigger_section i id now = Some (i', r) → moves i i' (match r with inl _ => 0 | inr _ => -1 end).
Proof.
  intros Hok H. unfold trigger_section in H. cbv zeta in H. pose proof (moves_cleanup i now) as M.
  destruct (flows (in_state (inner_cleanup i now)) !! id) as [f|] eqn:Ef; [|by injection H as <- <-].
  destruct (fl_status f) eqn:Es; try by injection H as <- <-.
  destruct (fl_attempt f) as [a|] eqn:Ea; [|done]. destruct (fl_reservation f) eqn:Er; [|done].
  injection H as <- <-. change (-1) with (0 + -1). eapply moves_trans; [exact M|].
  replace (-1) with (flow_permits (mk_Flow (@None Attempt) false (fl_expires_at f) FlowCompleting (fl_active_polls f)) - flow_permits f)
    by (unfold flow_permits; simpl; by rewrite Er).
  apply moves_put_flow; [done|done|done].
Qed.

(** A flow without an attempt changes its status. *)
Lemma moves_set_status i id f st :
  flows_ok i → flows (in_state i) !! id = Some f → fl_status f ≠ FlowPending → st ≠ FlowPending →
  moves i (set_state i (put_flow (in_state i) id (set_flow_status st f))) 0.
Proof.
  intros Hok Hf Hs Hst. replace 0 with (flow_permits (set_flow_status st f) - flow_permits f) by (unfold flow_permits; simpl; lia).
  apply moves_put_flow; [done|done|]. destruct (Hok id f Hf) as [Hwf _]. unfold flow_wf in *. simpl. by rewrite !decide_False in *.
Qed.

Lemma moves_complete i id c now i' r :
  flows_ok i → (∀ f, flows (in_state i) !! id = Some f → fl_status f ≠ FlowPending) → complete_section i id c now = (i', r) → moves i i' 0.
Proof.
  intros Hok Hnp H. unfold complete_section in H. cbv zeta in H. pose proof (moves_cleanup i now) as M.
  destruct (flows (in_state (inner_cleanup i now)) !! id) as [f|] eqn:Ef; [|by injection H as <- <-].
  destruct (completion_status c) as [st rr] eqn:Ec. injection H as <- <-. change 0 with (0 + 0). eapply moves_trans; [exact M|].
  apply moves_set_status; [by apply M|done| |by destruct c; injection Ec as <- <-].
  apply cleanup_lookup in Ef as [Ef _]. by apply Hnp.
Qed.

Lemma moves_id i : moves i i 0.
Proof. split; try done. lia. Qed.

Lemma set_state_id i : set_state i (in_state i) = i.
Proof. by destruct i. Qed.

Lemma moves_fail i id : flows_ok i → moves i (set_state i (fail_cancelled_completion (in_state i) id)) 0.
Proof.
  intros Hok. unfold fail_cancelled_completion. destruct (flows (in_state i) !! id) as [f|] eqn:Ef; [|rewrite set_state_id; apply moves_id].
  case_decide as Es; [|rewrite set_state_id; apply moves_id]. apply moves_set_status; [done|done|congruence|done].
Qed.

Lemma moves_release i : moves i (release_permit i) 1.
Proof. split; simpl; try done; unfold balance; simpl; lia. Qed.

Lemma moves_reserve i i' : begin_reserve i = Ok i' → moves i i' (-1).
Proof.
  unfold begin_reserve. destruct (0 <? setup_capacity i) eqn:E; [|done]. intros [= <-]. split_bools.
  split; simpl; try done; unfold balance; simpl; lia.
Qed.

Lemma moves_rates i l : moves i (set_setup_rate i l) 0 ∧ moves i (set_held_rate i l) 0.
Proof. split; split; simpl; try done; unfold balance; simpl; lia. Qed.
End resources.

(** ** The protocol of a flow *)

Section protocol.
Context {Attempt : Type}.
Implicit Types (i : Inner Attempt) (st : State Attempt) (t : @Task Attempt) (log : list (@Event Attempt)).

(** What must have been observed before an event.  Newest events come first. *)
Definition justified (e : @Event Attempt) log : Prop :=
  match e with
  | EvBegun id _ _ => id ∉ begun_ids log
  | EvAttempt id a => (∃ c, EvBegun id a c ∈ log) ∧ (∀ a', EvAttempt id a' ∉ log)
      ∧ EvReply id PollComplete ∉ log ∧ EvReply id PollFailed ∉ log ∧ EvReply id PollExpired ∉ log
  | EvAnswer id _ => (∃ a, EvAttempt id a ∈ log) ∧ ∀ c, EvAnswer id c ∉ log
  | EvReply id PollComplete => EvAnswer id DurableSuccess ∈ log ∧ EvReply id PollFailed ∉ log ∧ EvReply id PollExpired ∉ log
  | EvReply id PollFailed => (∃ a, EvAttempt id a ∈ log) ∧ EvReply id PollComplete ∉ log
  | EvReply id PollExpired => id ∈ begun_ids log
  | EvReply _ _ => True
  end.

Fixpoint history_ok log : Prop :=
  match log with [] => True | e :: log => justified e log ∧ history_ok log end.

Definition final_status (status : FlowStatus) : bool :=
  match status with FlowCompleted | FlowFailed => true | _ => false end.

(** What the log says of a stored flow. *)
Definition flow_known log (id : string) (f : Flow Attempt) : Prop :=
  ∃ a, EvBegun id a (fl_active_polls f) ∈ log
    ∧ match fl_status f with
      | FlowPending => fl_attempt f = Some a ∧ ∀ a', EvAttempt id a' ∉ log
      | FlowCompleted => EvAnswer id DurableSuccess ∈ log ∧ ∃ a', EvAttempt id a' ∈ log
      | FlowCompleting | FlowFailed => ∃ a', EvAttempt id a' ∈ log
      end.

Definition reply_stands st (tasks : gmap nat (@Task Attempt)) log (id : string) (r : PollResult) : Prop :=
  match r with
  | PollComplete => id ∈ begun_ids log ∧ ∀ f, flows st !! id = Some f → fl_status f = FlowCompleted
  | PollFailed => id ∈ begun_ids log ∧ ∀ f, flows st !! id = Some f → fl_status f = FlowFailed ∨ fl_status f = FlowCompleting
  | PollExpired => flows st !! id = None ∧ id ∈ begun_ids log
  | _ => True
  end.

(** What holds while a task carries the completion of a flow. *)
Definition live_known st log t (id : string) : Prop :=
  (∃ a, EvAttempt id a ∈ log)
  ∧ (∀ f, flows st !! id = Some f → fl_status f = FlowCompleting)
  ∧ EvReply id PollComplete ∉ log ∧ EvReply id PollFailed ∉ log
  ∧ match t with
    | Completing _ _ _ => ∀ c, EvAnswer id c ∉ log
    | Answered _ c => c = DurableSuccess → EvAnswer id c ∈ log
    | _ => True
    end.

(** A poll knows its flow's counter; a cancelled completion was answered as failed. *)
Definition task_known log t : Prop :=
  (∀ p, task_poll t = Some p → ∃ a, EvBegun p.1 a p.2 ∈ log) ∧ (∀ id, t = Cancelled id → EvReply id PollFailed ∈ log).

Record protocol st (tasks : gmap nat (@Task Attempt)) log : Prop := {
  pr_history : history_ok log;
  pr_flow id f : flows st !! id = Some f → flow_known log id f;
  pr_gone id d : expired st !! id = Some d → flows st !! id = None ∧ id ∈ begun_ids log;
  pr_attempt id a : EvAttempt id a ∈ log → id ∈ begun_ids log;
  pr_reply id r : EvReply id r ∈ log → reply_stands st tasks log id r;
  pr_live tid t id : tasks !! tid = Some t → live_completion t = Some id → live_known st log t id;
  pr_unique tid t tid' t' id : tasks !! tid = Some t → tasks !! tid' = Some t' →
    live_completion t = Some id → live_completion t' = Some id → tid' = tid;
  pr_task tid t : tasks !! tid = Some t → task_known log t;
}.

Lemma task_known_cons e log t : task_known log t → task_known (e :: log) t.
Proof. intros [H1 H2]. split; [|intros id Hid; right; eauto]. intros p Hp. destruct (H1 p Hp) as [a H]. exists a. by right. Qed.

Lemma task_known_wake log t : task_known log t → task_known log (wake t).
Proof. intros [H1 H2]. split; [by rewrite wake_poll|]. intros id Hid. apply H2. by destruct t. Qed.

Lemma begun_elem log id a c : EvBegun id a c ∈ log → id ∈ begun_ids log.
Proof. intros H. apply list_elem_of_omap. by exists (EvBegun id a c). Qed.

Lemma begun_cons e log id : id ∈ begun_ids log → id ∈ begun_ids (e :: log).
Proof. intros H. destruct e; simpl; try done. by apply elem_of_cons; right. Qed.

Lemma wake_live t : live_completion (wake t) = live_completion t.
Proof. by destruct t. Qed.

(** *** Cleaning up *)

Lemma cleanup_state_lookup st now id f :
  flows (cleanup_expired st now) !! id = Some f ↔ flows st !! id = Some f ∧ now < fl_expires_at f.
Proof. simpl. rewrite map_lookup_filter_Some. simpl. unfold flow_due. by rewrite Z.leb_gt. Qed.

Lemma flow_begun log id f : flow_known log id f → id ∈ begun_ids log.
Proof. intros (a & H & _). by eapply begun_elem. Qed.

(** Exactly the overdue flows become tombstones. *)
Lemma protocol_cleanup st tasks log now : protocol st tasks log → protocol (cleanup_expired st now) tasks log.
Proof.
  intros [Hh Hf Hg Ha Hr Hl Hu Hp].
  assert (∀ id f, flows (cleanup_expired st now) !! id = Some f → flows st !! id = Some f) as Hsub.
  { by intros id f [H _]%cleanup_state_lookup. }
  assert (∀ id, flows st !! id = None → flows (cleanup_expired st now) !! id = None) as Hnone.
  { intros id H. destruct (flows (cleanup_expired st now) !! id) eqn:E; [|done]. apply Hsub in E. congruence. }
  split; try done; eauto.
  - intros id d Hd. simpl in Hd. apply lookup_union_Some_raw in Hd as [Hd|[_ Hd]].
    + apply lookup_fmap_Some in Hd as (f & _ & Hd). apply map_lookup_filter_Some in Hd as [Hd Hdue].
      split; [|by eapply flow_begun, Hf]. destruct (flows (cleanup_expired st now) !! id) as [g|] eqn:E; [|done].
      apply cleanup_state_lookup in E as [E Hlt]. simpl in Hdue. unfold flow_due in Hdue. split_bools. simplify_eq. lia.
    + apply map_lookup_filter_Some in Hd as [Hd _]. destruct (Hg id d Hd). auto.
  - intros id r Hin. specialize (Hr id r Hin). destruct r; simpl in *; try done; naive_solver.
  - intros tid t id Ht Hid. destruct (Hl tid t id Ht Hid) as (H1 & H2 & H3). split; [done|]. split; [naive_solver|done].
Qed.

(** *** Replies *)

Definition reply_due st (tasks : gmap nat (@Task Attempt)) log (id : string) (r : PollResult) : Prop :=
  match r with
  | PollComplete => ∃ f, flows st !! id = Some f ∧ fl_status f = FlowCompleted
  | PollFailed => (∃ a, EvAttempt id a ∈ log) ∧ EvReply id PollComplete ∉ log
      ∧ (∀ tid t, tasks !! tid = Some t → live_completion t ≠ Some id)
      ∧ ∀ f, flows st !! id = Some f → fl_status f = FlowFailed ∨ fl_status f = FlowCompleting
  | PollExpired => flows st !! id = None ∧ id ∈ begun_ids log
  | _ => True
  end.

Lemma begun_reply log id r : begun_ids (EvReply id r :: log : list (@Event Attempt)) = begun_ids log.
Proof. done. Qed.

Lemma protocol_reply st tasks log id r :
  protocol st tasks log → reply_due st tasks log id r → protocol st tasks (EvReply id r :: log).
Proof.
  intros [Hh Hf Hg Ha Hr Hl Hu Hp] Hdue.
  assert (justified (EvReply id r) log) as Hj.
  { destruct r; simpl in *; try done.
    - destruct Hdue as (f & Ef & Es). destruct (Hf id f Ef) as (a & _ & Hs). rewrite Es in Hs. split_and!; [naive_solver| |].
      + intros Hin. destruct (Hr id _ Hin) as [_ H]. destruct (H f Ef); congruence.
      + intros Hin. destruct (Hr id _ Hin) as [H _]. congruence.
    - naive_solver.
    - naive_solver. }
  split.
  - done.
  - intros id' f Ef. destruct (Hf id' f Ef) as (a & Hb & Hs). exists a. split; [by right|].
    destruct (fl_status f); setoid_rewrite elem_of_cons; naive_solver.
  - exact Hg.
  - intros id' a Hin. apply elem_of_cons in Hin as [|Hin]; [done|eauto].
  - intros id' r' Hin. apply elem_of_cons in Hin as [[= -> ->]|Hin].
    + destruct r; simpl in *; try done.
      * destruct Hdue as (f & Ef & Es). split; [by eapply flow_begun, Hf|]. intros g Eg. congruence.
      * destruct Hdue as ((a & Hin) & _ & _ & H). split; [by eapply Ha|done].
    + by apply (Hr id' r').
  - intros tid t id' Ht Hid. destruct (Hl tid t id' Ht Hid) as ((a & H1) & H2 & H3 & H4 & H5).
    split_and!; [exists a; by right|done| | |].
    + intros [[= -> <-]|Hin]%elem_of_cons; [|done]. simpl in Hdue. destruct Hdue as (f & Ef & Es). rewrite (H2 f Ef) in Es. done.
    + intros [[= -> <-]|Hin]%elem_of_cons; [|done]. simpl in Hdue. destruct Hdue as (_ & _ & Hno & _). by destruct (Hno tid t Ht).
    + destruct t; try done; setoid_rewrite elem_of_cons; naive_solver.
  - done.
  - intros tid t Ht. apply task_known_cons. eauto.
Qed.

(** The reply every section gives for a flow that is not waiting. *)
Definition section_reply st (id : string) : PollResult :=
  match flows st !! id with Some f => status_result (fl_status f) | None => expired_or_unknown st id end.

Lemma protocol_section_reply st tasks log id : protocol st tasks log → protocol st tasks (EvReply id (section_reply st id) :: log).
Proof.
  intros P. apply protocol_reply; [done|]. destruct P as [Hh Hf Hg Ha Hr Hl Hu Hp]. unfold section_reply.
  destruct (flows st !! id) as [f|] eqn:Ef.
  - destruct (Hf id f Ef) as (a & _ & Hs). destruct (fl_status f) eqn:Es; simpl; [done|done|by exists f|].
    split_and!; [done| | |].
    + intros Hin. destruct (Hr id _ Hin) as [_ H]. rewrite (H f Ef) in Es. done.
    + intros tid t Ht Hid. destruct (Hl tid t id Ht Hid) as (_ & H & _). rewrite (H f Ef) in Es. done.
    + intros g Eg. left. congruence.
  - unfold expired_or_unknown. destruct (expired st !! id) as [d|] eqn:Ed; simpl; [|done]. by destruct (Hg id d Ed).
Qed.

(** *** Tasks *)

(** A step that starts no completion. *)
Lemma protocol_tasks st tasks log old new tasks' :
  protocol st tasks log → evolves tasks old new tasks' →
  (∀ t, new = Some t → live_completion t = None ∧ task_known log t) →
  protocol st tasks' log.
Proof.
  intros [Hh Hf Hg Ha Hr Hl Hu Hp] [_ Et] Hnew.
  assert (∀ tid t id, tasks' !! tid = Some t → live_completion t = Some id →
    ∃ t0, tasks !! tid = Some t0 ∧ live_completion t0 = Some id ∧ t = t0) as Hlive.
  { intros tid t id Ht Hid. destruct (Et tid t Ht) as [Hn|(t0 & Ht0 & [->| ->])].
    - destruct (Hnew t (eq_sym Hn)) as [E _]. congruence.
    - eauto.
    - rewrite wake_live in Hid. exists t0. split_and!; [done|done|]. by destruct t0. }
  split; try done.
  - intros tid t id Ht Hid. destruct (Hlive tid t id Ht Hid) as (t0 & Ht0 & Hid0 & ->). eauto.
  - intros tid t tid' t' id Ht Ht' Hid Hid'. destruct (Hlive tid t id Ht Hid) as (t0 & Ht0 & Hid0 & ->).
    destruct (Hlive tid' t' id Ht' Hid') as (t1 & Ht1 & Hid1 & ->). eauto.
  - intros tid t Ht. destruct (Et tid t Ht) as [Hn|(t0 & Ht0 & [->| ->])].
    + by apply Hnew.
    + eauto.
    + apply task_known_wake. eauto.
Qed.

(** *** A flow begins *)

Lemma protocol_insert st tasks log id a c d :
  protocol st tasks log → id ∉ begun_ids log →
  protocol (put_flow st id (mk_Flow (Some a) true d FlowPending c)) tasks (EvBegun id a c :: log).
Proof.
  intros [Hh Hf Hg Ha Hr Hl Hu Hp] Hid.
  assert (∀ a, EvAttempt id a ∉ log) as Hna by (intros a' H; by eapply Hid, Ha).
  split.
  - done.
  - intros id' f Hf'. simpl in Hf'. apply lookup_insert_Some in Hf' as [[<- <-]|[Hne Hf']].
    + exists a. simpl. split; [by left|]. split; [done|]. intros a' [|H]%elem_of_cons; [done|by eapply Hna].
    + destruct (Hf id' f Hf') as (a' & Hb & Hs). exists a'. split; [by right|]. destruct (fl_status f); setoid_rewrite elem_of_cons; naive_solver.
  - intros id' d' Hd. simpl in Hd. destruct (Hg id' d' Hd) as [H1 H2]. split; [|by apply begun_cons].
    simpl. rewrite lookup_insert_ne; [done|]. intros ->. done.
  - intros id' a' [|Hin]%elem_of_cons; [done|]. apply begun_cons. eauto.
  - intros id' r [|Hin]%elem_of_cons; [done|]. specialize (Hr id' r Hin).
    destruct r; simpl in *; try done.
    + destruct Hr as [H1 H2]. split; [by apply elem_of_cons; right|]. intros f [[<- _]|[_ H]]%lookup_insert_Some; [done|eauto].
    + destruct Hr as [H1 H2]. split; [|by apply elem_of_cons; right]. rewrite lookup_insert_ne; [done|]. intros ->. done.
    + destruct Hr as [H1 H2]. split; [by apply elem_of_cons; right|]. intros f [[<- _]|[_ H]]%lookup_insert_Some; [done|eauto].
  - intros tid t id' Ht Hid'. destruct (Hl tid t id' Ht Hid') as ((a' & H1) & H2 & H3 & H4 & H5).
    split_and!; [exists a'; by right| |by intros [|]%elem_of_cons|by intros [|]%elem_of_cons|].
    + intros f Hf'. simpl in Hf'. apply lookup_insert_Some in Hf' as [[<- _]|[_ Hf']]; [by destruct (Hna a')|eauto].
    + destruct t; try done; setoid_rewrite elem_of_cons; naive_solver.
  - done.
  - intros tid t Ht. apply task_known_cons. eauto.
Qed.

(** *** The one completion *)

Lemma no_answer_before_attempt log id : history_ok log → (∀ a, EvAttempt id a ∉ log) → ∀ c, EvAnswer id c ∉ log.
Proof.
  induction log as [|e log IH]; intros Hh Hna c Hin; [by apply not_elem_of_nil in Hin|].
  destruct Hh as [Hj Hh]. apply elem_of_cons in Hin as [<-|Hin].
  - simpl in Hj. destruct Hj as [[a' H] _]. by apply (Hna a'); right.
  - apply (IH Hh) in Hin; [done|]. intros a' H. by apply (Hna a'); right.
Qed.

Lemma protocol_trigger st tasks log id f a tid deadline :
  protocol st tasks log → flows st !! id = Some f → fl_status f = FlowPending → fl_attempt f = Some a → tasks !! tid = None →
  protocol (put_flow st id (mk_Flow None false (fl_expires_at f) FlowCompleting (fl_active_polls f)))
    (<[tid := Completing id a deadline]> tasks) (EvAttempt id a :: log).
Proof.
  intros [Hh Hf Hg Ha Hr Hl Hu Hp] Ef Es Ea Htid. destruct (Hf id f Ef) as (a0 & Hb & Hs). rewrite Es, Ea in Hs.
  destruct Hs as [[= <-] Hna].
  assert (∀ r, EvReply id r ∈ log → r = PollComplete ∨ r = PollFailed ∨ r = PollExpired → False) as Hnr.
  { intros r Hin Hc. specialize (Hr id r Hin). destruct Hc as [->|[->| ->]]; simpl in Hr; destruct Hr as [H1 H2]; try congruence.
    - specialize (H2 f Ef). congruence.
    - destruct (H2 f Ef); congruence. }
  assert (∀ tid t, tasks !! tid = Some t → live_completion t ≠ Some id) as Hnl.
  { intros tid' t Ht Hid. destruct (Hl tid' t id Ht Hid) as (_ & H & _). rewrite (H f Ef) in Es. done. }
  pose proof (no_answer_before_attempt log id Hh Hna) as Hnoans.
  split.
  - split; [|done]. split_and!; [by eexists|done|..]; intros H; eapply Hnr; eauto.
  - intros id' g Hg'. simpl in Hg'. apply lookup_insert_Some in Hg' as [[<- <-]|[Hne Hg']].
    + exists a. simpl. split; [by right|]. exists a. by left.
    + destruct (Hf id' g Hg') as (a' & Hb' & Hs'). exists a'. split; [by right|].
      destruct (fl_status g); setoid_rewrite elem_of_cons; naive_solver.
  - intros id' d Hd. simpl in Hd. destruct (Hg id' d Hd) as [H1 H2]. split; [|done]. simpl. rewrite lookup_insert_ne; [done|]. intros ->. congruence.
  - intros id' a' [[= -> ->]|Hin]%elem_of_cons; [exact (begun_elem _ _ _ _ Hb)|eauto].
  - intros id' r [|Hin]%elem_of_cons; [done|]. destruct (decide (id' = id)) as [->|Hne].
    + destruct r; simpl; try done; exfalso; eapply Hnr; eauto.
    + specialize (Hr id' r Hin). destruct r; simpl in *; try done; rewrite ?lookup_insert_ne by done; done.
  - intros tid' t id' Ht Hid. apply lookup_insert_Some in Ht as [[<- <-]|[Hne Ht]].
    + injection Hid as ->. split_and!; [exists a; by left| |intros [|]%elem_of_cons; [done|eapply Hnr; eauto]..|].
      * intros g Hg'. simpl in Hg'. rewrite lookup_insert_eq in Hg'. by injection Hg' as <-.
      * intros c [|H]%elem_of_cons; [done|by apply (Hnoans c)].
    + destruct (Hl tid' t id' Ht Hid) as ((a' & H1) & H2 & H3 & H4 & H5).
      assert (id' ≠ id) by (intros ->; by apply (Hnl tid' t Ht)).
      split_and!; [exists a'; by right|simpl; by rewrite lookup_insert_ne|by intros [|]%elem_of_cons|by intros [|]%elem_of_cons|].
      destruct t; try done; setoid_rewrite elem_of_cons; naive_solver.
  - intros t1 t t2 t' id' H1 H2 Hid Hid'.
    apply lookup_insert_Some in H1 as [[<- <-]|[Hne H1]]; apply lookup_insert_Some in H2 as [[<- <-]|[Hne2 H2]]; try done.
    + injection Hid as ->. by destruct (Hnl t2 t' H2).
    + injection Hid' as ->. by destruct (Hnl t1 t H1).
    + eauto.
  - intros tid' t Ht. apply lookup_insert_Some in Ht as [[<- <-]|[Hne Ht]]; [done|]. apply task_known_cons. eauto.
Qed.

Lemma answered_unique (tasks : gmap nat (@Task Attempt)) tid id a d c :
  (∀ k1 t k2 t' id', tasks !! k1 = Some t → tasks !! k2 = Some t' → live_completion t = Some id' → live_completion t' = Some id' → k2 = k1) →
  tasks !! tid = Some (Completing id a d) →
  ∀ k1 t k2 t' id', <[tid := Answered id c]> tasks !! k1 = Some t → <[tid := Answered id c]> tasks !! k2 = Some t' →
    live_completion t = Some id' → live_completion t' = Some id' → k2 = k1.
Proof.
  intros Hu Ht k1 t k2 t' id' G1 G2 Hid Hid'.
  apply lookup_insert_Some in G1 as [[<- <-]|[Hne G1]]; apply lookup_insert_Some in G2 as [[<- <-]|[Hne2 G2]]; [done| | |by eapply Hu].
  - injection Hid as <-. exact (Hu tid _ k2 t' id Ht G2 eq_refl Hid').
  - injection Hid' as <-. symmetry. exact (Hu tid _ k1 t id Ht G1 eq_refl Hid).
Qed.

Lemma protocol_answer st tasks log tid id a d c :
  protocol st tasks log → tasks !! tid = Some (Completing id a d) →
  protocol st (<[tid := Answered id c]> tasks) (EvAnswer id c :: log).
Proof.
  intros [Hh Hf Hg Ha Hr Hl Hu Hp] Ht. destruct (Hl tid _ id Ht eq_refl) as ((a0 & H1) & H2 & H3 & H4 & H5).
  split; try done.
  - split; [|done]. split; [by exists a0|done].
  - intros id' f Ef. destruct (Hf id' f Ef) as (a' & Hb & Hs). exists a'. split; [by right|].
    destruct (fl_status f); setoid_rewrite elem_of_cons; naive_solver.
  - intros id' a' [|Hin]%elem_of_cons; [done|]. exact (Ha id' a' Hin).
  - intros id' r [|Hin]%elem_of_cons; [done|]. exact (Hr id' r Hin).
  - intros tid' t id' Ht' Hid. apply lookup_insert_Some in Ht' as [[<- <-]|[Hne Ht']].
    + injection Hid as <-. split_and!; [exists a0; by right|done|by intros [|]%elem_of_cons|by intros [|]%elem_of_cons|]. intros _. by left.
    + destruct (Hl tid' t id' Ht' Hid) as ((a' & G1) & G2 & G3 & G4 & G5).
      split_and!; [exists a'; by right|done|by intros [|]%elem_of_cons|by intros [|]%elem_of_cons|].
      destruct t; try done.
      * intros c' [[= -> _]|H]%elem_of_cons; [|by apply (G5 c')]. by pose proof (Hu tid _ tid' _ id Ht Ht' eq_refl Hid).
      * intros ->. right. by apply G5.
  - eapply answered_unique; eauto.
  - intros tid' t Ht'. apply lookup_insert_Some in Ht' as [[<- <-]|[Hne Ht']]; [done|]. apply task_known_cons. eauto.
Qed.

Lemma protocol_late st tasks log tid id a d :
  protocol st tasks log → tasks !! tid = Some (Completing id a d) →
  protocol st (<[tid := Answered id DefinitiveFailure]> tasks) log.
Proof.
  intros [Hh Hf Hg Ha Hr Hl Hu Hp] Ht. split; try done.
  - intros tid' t id' Ht' Hid. apply lookup_insert_Some in Ht' as [[<- <-]|[Hne Ht']]; [|eauto].
    injection Hid as <-. destruct (Hl tid _ id Ht eq_refl) as (H1 & H2 & H3 & H4 & H5). by split_and!.
  - eapply answered_unique; eauto.
  - intros tid' t Ht'. apply lookup_insert_Some in Ht' as [[<- <-]|[Hne Ht']]; [done|]. eauto.
Qed.

(** A completing flow that no task carries gets its outcome. *)
Lemma protocol_outcome st tasks log id f status :
  protocol st tasks log → flows st !! id = Some f → fl_status f = FlowCompleting →
  (∀ tid t, tasks !! tid = Some t → live_completion t ≠ Some id) →
  status = FlowFailed ∨ status = FlowCompleted ∧ EvAnswer id DurableSuccess ∈ log ∧ EvReply id PollFailed ∉ log →
  protocol (put_flow st id (set_flow_status status f)) tasks log.
Proof.
  intros [Hh Hf Hg Ha Hr Hl Hu Hp] Ef Es Hnl Hst. destruct (Hf id f Ef) as (a & Hb & Hs). rewrite Es in Hs.
  split; try done.
  - intros id' g Hg'. simpl in Hg'. apply lookup_insert_Some in Hg' as [[<- <-]|[Hne Hg']]; [|eauto].
    exists a. split; [done|]. simpl. destruct Hst as [->|(-> & H & _)]; [done|by split].
  - intros id' d Hd. simpl in Hd. destruct (Hg id' d Hd) as [H1 H2]. split; [|done]. simpl. rewrite lookup_insert_ne; [done|]. intros ->. congruence.
  - intros id' r Hin. specialize (Hr id' r Hin). destruct (decide (id' = id)) as [->|Hne].
    + destruct r; simpl in *; try done; destruct Hr as [H1 H2]; try congruence.
      * specialize (H2 f Ef). congruence.
      * split; [done|]. intros g Hg'. rewrite lookup_insert_eq in Hg'. injection Hg' as <-. simpl.
        destruct Hst as [->|(_ & _ & H)]; [by left|done].
    + destruct r; simpl in *; rewrite ?lookup_insert_ne by done; done.
  - intros tid t id' Ht Hid. destruct (Hl tid t id' Ht Hid) as (H1 & H2 & H3).
    split; [done|]. split; [|done]. simpl. rewrite lookup_insert_ne; [done|]. intros <-. by apply (Hnl tid t).
Qed.

Lemma protocol_fail st tasks log id :
  protocol st tasks log → (∀ tid t, tasks !! tid = Some t → live_completion t ≠ Some id) →
  protocol (fail_cancelled_completion st id) tasks log.
Proof.
  intros P Hnl. unfold fail_cancelled_completion. destruct (flows st !! id) as [f|] eqn:Ef; [|done].
  case_decide as Es; [|done]. eapply protocol_outcome; eauto.
Qed.

(** A task that carried a completion and no longer does: no task carries it. *)
Lemma no_longer_live st tasks log tid t id new :
  protocol st tasks log → tasks !! tid = Some t → live_completion t = Some id →
  (∀ t', new = Some t' → live_completion t' = None) →
  ∀ tid' t', put_task tid new tasks !! tid' = Some t' → live_completion t' ≠ Some id.
Proof.
  intros P Ht Hid Hnew tid' t' Ht' Hid'. assert (tid' ≠ tid ∧ tasks !! tid' = Some t') as [Hne H].
  { destruct new as [n|]; simpl in Ht'.
    - apply lookup_insert_Some in Ht' as [[_ <-]|[Hne Ht']]; [|done]. rewrite Hnew in Hid'; done.
    - apply lookup_delete_Some in Ht' as [Hne Ht']. done. }
  apply Hne. exact (pr_unique _ _ _ P tid t tid' t' id Ht H Hid Hid').
Qed.

(** *** The sections as changes of the state *)

Lemma complete_section_protocol i tasks log tid id c now i' r :
  protocol (in_state i) tasks log → tasks !! tid = Some (Answered id c) → complete_section i id c now = (i', r) →
  protocol (in_state i') (<[tid := Notifying id]> tasks) (EvReply id r :: log).
Proof.
  intros P0 Ht H. pose proof (protocol_cleanup _ _ _ now P0) as P.
  pose proof (no_longer_live _ _ _ tid _ id (Some (Notifying id)) P Ht eq_refl ltac:(by intros ? [= <-])) as Hnl. simpl in Hnl.
  pose proof (pr_live _ _ _ P tid _ id Ht eq_refl) as ((a & H1) & H2 & H3 & H4 & H5).
  eapply (protocol_tasks _ _ _ _ (Some (Notifying id)) (<[tid := Notifying id]> tasks)) in P;
    [|exact (evolves_put tasks tid _ (Some (Notifying id)) Ht)|by intros ? [= <-]].
  unfold complete_section in H. cbv zeta in H. change (in_state (inner_cleanup i now)) with (cleanup_expired (in_state i) now) in H.
  destruct (flows (cleanup_expired (in_state i) now) !! id) as [f|] eqn:Ef.
  - destruct (completion_status c) as [status res] eqn:Ec. injection H as <- <-.
    assert (status = FlowCompleted ∧ res = PollComplete ∧ c = DurableSuccess ∨ status = FlowFailed ∧ res = PollFailed) as Hcase.
    { destruct c; injection Ec as <- <-; auto. }
    assert (protocol (put_flow (cleanup_expired (in_state i) now) id (set_flow_status status f)) (<[tid := Notifying id]> tasks) log) as P'.
    { apply protocol_outcome; [done|done|by apply H2|done|]. destruct Hcase as [(-> & _ & ->)|[-> _]]; [right|by left]. by split_and!; [|apply H5|]. }
    apply protocol_reply; [exact P'|]. destruct Hcase as [(-> & -> & ->)|[-> ->]]; simpl; rewrite lookup_insert_eq.
    + by eexists.
    + split_and!; [by exists a|done|done|]. intros g [= <-]. by left.
  - injection H as <- <-. change (in_state (inner_cleanup i now)) with (cleanup_expired (in_state i) now).
    pose proof (protocol_section_reply _ _ _ id P) as Pr. unfold section_reply in Pr. rewrite Ef in Pr. exact Pr.
Qed.

Lemma trigger_answered i id now i' r :
  trigger_section i id now = Some (i', inl r) → i' = inner_cleanup i now ∧ r = section_reply (in_state i') id.
Proof.
  unfold trigger_section, section_reply. cbv zeta. intros H.
  destruct (flows (in_state (inner_cleanup i now)) !! id) as [f|] eqn:Ef; [|by injection H as <- <-; rewrite Ef].
  destruct (fl_status f) eqn:Es; try by injection H as <- <-; rewrite Ef, Es. by repeat case_match.
Qed.

Lemma trigger_taken i id now i' a d :
  trigger_section i id now = Some (i', inr (a, d)) →
  ∃ f, flows (cleanup_expired (in_state i) now) !! id = Some f ∧ fl_status f = FlowPending ∧ fl_attempt f = Some a
    ∧ in_state i' = put_flow (cleanup_expired (in_state i) now) id (mk_Flow None false (fl_expires_at f) FlowCompleting (fl_active_polls f)).
Proof.
  unfold trigger_section. cbv zeta. intros H. destruct (flows (in_state (inner_cleanup i now)) !! id) as [f|] eqn:Ef; [|done].
  destruct (fl_status f) eqn:Es; try done. destruct (fl_attempt f) as [a'|] eqn:Ea; [|done]. destruct (fl_reservation f); [|done].
  injection H as <- <- <-. eauto.
Qed.

Lemma acquire_answered i id now i' r :
  acquire_section i id now = (i', inl r) → i' = inner_cleanup i now ∧ r = section_reply (in_state i') id.
Proof.
  unfold acquire_section, section_reply. cbv zeta. intros [<- H]%pair_equal_spec. split; [done|].
  destruct (flows (in_state (inner_cleanup i now)) !! id) as [f|]; [|by simplify_eq]. by destruct (fl_status f); simplify_eq.
Qed.

Lemma acquire_entered i id now i' c :
  acquire_section i id now = (i', inr c) →
  i' = inner_cleanup i now ∧ ∃ f, flows (in_state i') !! id = Some f ∧ final_status (fl_status f) = false ∧ c = fl_active_polls f.
Proof.
  unfold acquire_section. cbv zeta. intros [<- H]%pair_equal_spec. split; [done|].
  destruct (flows (in_state (inner_cleanup i now)) !! id) as [f|]; [|done]. exists f. by destruct (fl_status f); simplify_eq.
Qed.

Lemma status_shape i id now i' r :
  status i id now = (i', r) → i' = inner_cleanup i now ∧ r = section_reply (in_state i') id.
Proof. unfold status, section_reply. cbv zeta. by intros [= <- <-]. Qed.
End protocol.

(** ** Wake-ups *)

Section awake.
Context {Attempt : Type}.
Implicit Types (st : State Attempt) (tasks : gmap nat (@Task Attempt)).

(** A poll that waits unwoken on a flow with an outcome will be woken. *)
Definition awake st tasks : Prop :=
  ∀ tid id c u f, tasks !! tid = Some (PollWaiting id c false u) → flows st !! id = Some f → final_status (fl_status f) = true →
    ∃ tid', tasks !! tid' = Some (Notifying id).

Definition sleeps (t : @Task Attempt) : bool := match t with PollWaiting _ _ false _ => true | _ => false end.

Definition notifies (t : @Task Attempt) : bool := match t with Notifying _ => true | _ => false end.

Lemma awake_put st tasks tid old new :
  awake st tasks → tasks !! tid = old → (∀ t, old = Some t → notifies t = false) → (∀ t, new = Some t → sleeps t = false) →
  awake st (put_task tid new tasks).
Proof.
  intros A Hold Hn Hs tid' id c u f Ht Ef Hf.
  assert (tasks !! tid' = Some (PollWaiting id c false u)) as Ht'.
  { destruct new as [t|]; simpl in Ht; [|by apply lookup_delete_Some in Ht as [_ Ht]].
    apply lookup_insert_Some in Ht as [[_ ->]|[_ Ht]]; [|done]. by specialize (Hs _ eq_refl). }
  destruct (A tid' id c u f Ht' Ef Hf) as [n Hn']. exists n. assert (tid ≠ n) by (intros ->; subst old; by specialize (Hn _ Hn')).
  destruct new; simpl; [by rewrite lookup_insert_ne|by rewrite lookup_delete_ne].
Qed.

Lemma awake_flows st st' tasks :
  awake st tasks →
  (∀ id f', flows st' !! id = Some f' → final_status (fl_status f') = true →
     (∃ f, flows st !! id = Some f ∧ final_status (fl_status f) = true) ∨ ∃ tid, tasks !! tid = Some (Notifying id)) →
  awake st' tasks.
Proof. intros A H tid id c u f' Ht Ef Hf. destruct (H id f' Ef Hf) as [(f & E & F)|?]; [by eapply A|done]. Qed.

Lemma awake_woken st tasks : awake st (wake <$> tasks).
Proof. intros tid id c u f Ht. apply lookup_fmap_Some in Ht as ([] & Hw & _); done. Qed.

Lemma awake_cleanup st tasks now : awake st tasks → awake (cleanup_expired st now) tasks.
Proof. intros A. eapply awake_flows; [done|]. intros id f [H _]%cleanup_state_lookup Hf. eauto. Qed.

Lemma awake_put_flow st tasks id f :
  awake st tasks → final_status (fl_status f) = false ∨ (∃ tid, tasks !! tid = Some (Notifying id)) → awake (put_flow st id f) tasks.
Proof.
  intros A H. eapply awake_flows; [done|]. intros id' g Hg Hf. simpl in Hg.
  apply lookup_insert_Some in Hg as [[<- <-]|[_ Hg]]; [|eauto]. destruct H as [H|H]; [congruence|by right].
Qed.
End awake.

(** ** The invariant of the system *)

Section invariant.
Context {Attempt : Type} (limits : SetupLimits).
Implicit Types (s : @Sys Attempt).

Record setup_inv s : Prop := {
  si_resources : resources limits s;
  si_protocol : protocol (in_state (sy_inner s)) (sy_tasks s) (sy_log s);
  si_awake : awake (in_state (sy_inner s)) (sy_tasks s);
}.

Lemma setup_inv_init :
  0 <= max_polls limits → 0 <= max_polls_per_flow limits → 0 <= max_pending_setup_flows limits → setup_inv (setup_init limits).
Proof.
  intros H1 H2 H3. split; [split|split|]; simpl; try done; try lia; try (by intros * Hin%not_elem_of_nil);
    try by (intros *; rewrite lookup_empty).
  - unfold balance. simpl. rewrite !tally_empty. lia.
Qed.


(** One task moves on; nobody stops notifying and nobody starts to sleep. *)
Ltac task_moves :=
  match goal with
  | |- context [<[?tid := ?t]> ?tasks] => change (<[tid := t]> tasks) with (put_task tid (Some t) tasks)
  | |- context [delete ?tid ?tasks] => change (delete tid tasks) with (put_task tid None tasks)
  | _ => idtac
  end.

Ltac awake_moves :=
  task_moves; eapply awake_put; [|eassumption|by intros ? [= <-]|intros ? ?; repeat case_match; simplify_eq; done].

(** The operations on rates, permits and slots leave the flows alone. *)
Lemma begin_rate_state (i : Inner Attempt) ip now r i' : begin_rate i ip now = (r, i') → in_state i' = in_state i.
Proof. unfold begin_rate. case_match. by intros [= _ <-]. Qed.
Lemma begin_reserve_state (i : Inner Attempt) i' : begin_reserve i = Ok i' → in_state i' = in_state i.
Proof. unfold begin_reserve. case_match; [|done]. by intros [= <-]. Qed.
Lemma acquire_flow_state (i : Inner Attempt) c i' : acquire_flow i c = Ok i' → in_state i' = in_state i.
Proof. unfold acquire_flow. case_match; [|done]. by intros [= <-]. Qed.
Lemma acquire_total_state (i : Inner Attempt) c g i' : acquire_total i c = (g, i') → in_state i' = in_state i.
Proof. unfold acquire_total. case_match; by intros [= _ <-]. Qed.
Lemma creator_held_state (i : Inner Attempt) ip now h r i' : creator_held i ip now h = (r, i') → in_state i' = in_state i.
Proof. unfold creator_held. case_match. by intros [= _ <-]. Qed.
Lemma flow_exists_state (i : Inner Attempt) id now b i' : flow_exists i id now = (i', b) → i' = inner_cleanup i now.
Proof. by intros [<- _]%pair_equal_spec. Qed.
Lemma drop_request_state (i : Inner Attempt) t i' next :
  drop_request i t = Some (i', next) →
  in_state i' = in_state i ∧ notifies t = false ∧ ∀ t', next = Some t' → ∃ id, t' = PollClosing id false.
Proof. destruct t; try done; intros [= <- <-]; (split; [done|split; [done|]]); intros ? [= <-]; eauto. Qed.

(** What each executed operation did to the flows. *)
Ltac state_facts :=
  repeat match goal with
  | H : begin_rate _ _ _ = _ |- _ => apply begin_rate_state in H
  | H : begin_reserve _ = Ok _ |- _ => apply begin_reserve_state in H
  | H : acquire_flow _ _ = Ok _ |- _ => apply acquire_flow_state in H
  | H : acquire_total _ _ = _ |- _ => apply acquire_total_state in H
  | H : creator_held _ _ _ _ = _ |- _ => apply creator_held_state in H
  | H : flow_exists _ _ _ = _ |- _ => apply flow_exists_state in H as ->
  | H : drop_request _ _ = Some _ |- _ => apply drop_request_state in H as (H & ? & ?)
  | H : trigger_section _ _ _ = Some (_, inl _) |- _ => apply trigger_answered in H as [-> ->]
  | H : acquire_section _ _ _ = (_, inl _) |- _ => apply acquire_answered in H as [-> ->]
  | H : acquire_section _ _ _ = (_, inr _) |- _ => apply acquire_entered in H as (-> & ? & ? & ? & ->)
  | H : status _ _ _ = _ |- _ => apply status_shape in H as [-> H]; try subst
  | H : in_state _ = in_state _ |- _ => rewrite H; clear H
  end.

Lemma live_not_notifying (t : @Task Attempt) id : live_completion t = Some id → notifies t = false.
Proof. by destruct t. Qed.

Lemma awake_complete (i : Inner Attempt) id c now i' r tasks tid :
  complete_section i id c now = (i', r) → awake (cleanup_expired (in_state i) now) tasks → tasks !! tid = Some (Notifying id) →
  awake (in_state i') tasks.
Proof.
  unfold complete_section. cbv zeta. intros H A Ht. destruct (flows (in_state (inner_cleanup i now)) !! id) as [f|].
  - destruct (completion_status c) as [status res]. injection H as <- <-. apply awake_put_flow; [exact A|right; eauto].
  - injection H as <- <-. exact A.
Qed.

Lemma awake_fail (st : State Attempt) id tasks tid :
  awake st tasks → tasks !! tid = Some (Notifying id) → awake (fail_cancelled_completion st id) tasks.
Proof. intros A Ht. unfold fail_cancelled_completion. repeat case_match; try done. apply awake_put_flow; [done|right; eauto]. Qed.

Lemma awake_pending (st : State Attempt) tasks tid t id c n u :
  awake st tasks → tasks !! tid = Some t → notifies t = false → section_reply st id = PollPendingTimeout →
  awake st (<[tid := PollWaiting id c n u]> tasks).
Proof.
  intros A Ht Hn Hr k id' c' u' f Hk Ef Hf. apply lookup_insert_Some in Hk as [[<- [= <- <- -> <-]]|[Hne Hk]].
  - unfold section_reply in Hr. rewrite Ef in Hr. by destruct (fl_status f).
  - destruct (A k id' c' u' f Hk Ef Hf) as [k' Hk']. exists k'. rewrite lookup_insert_ne; [done|]. intros <-. rewrite Ht in Hk'. by injection Hk' as ->.
Qed.

Lemma awake_step s s' : setup_inv s → setup_step s s' → awake (in_state (sy_inner s')) (sy_tasks s').
Proof.
  intros [R P A] Hstep. pose proof (awake_cleanup _ _ (sy_clock s) A) as Ac.
  destruct Hstep as [| | | | | | | |tid a id c clock| |tid id i a d| | |tid id c i r| |tid t id|tid t id| | | | | | | | |tid id c n i u| | | | | | |tid t i next];
    simpl; state_facts; try first [exact A|exact Ac|apply awake_woken|awake_moves; first [exact A|exact Ac|by apply awake_cleanup]].
  - apply awake_put_flow; [awake_moves; exact Ac|by left].
  - match goal with H : trigger_section _ _ _ = _ |- _ => apply trigger_taken in H as (f & _ & _ & _ & ->) end.
    apply awake_put_flow; [awake_moves; exact Ac|by left].
  - eapply awake_complete; [eassumption|awake_moves; exact Ac|apply lookup_insert_eq].
  - eapply awake_fail; [|apply lookup_insert_eq]. task_moves.
    eapply awake_put; [exact A|eassumption|intros ? [= <-]; by eapply live_not_notifying|by intros ? [= <-]].
  - task_moves. eapply awake_put; [exact A|eassumption|intros ? [= <-]; by eapply live_not_notifying|by intros ? [= <-]].
  - eapply awake_pending; [exact Ac|eassumption|done|by symmetry].
  - eapply awake_put; [exact A|eassumption|by intros ? [= <-]|]. intros t' Ht'.
    match goal with H : ∀ t', next = Some t' → _ |- _ => destruct (H t' Ht') as [? ->] end. done.
Qed.

(** The same for the protocol: a moved task starts no completion and knows what it needs. *)
Ltac protocol_moves :=
  task_moves; eapply protocol_tasks;
    [|first [eapply evolves_put; eassumption | eapply evolves_wake; eassumption | apply evolves_none]
     |intros ? ?; repeat case_match; simplify_eq; (split; [done|])].

Lemma poll_known (st : State Attempt) tasks log tid t t' :
  protocol st tasks log → tasks !! tid = Some t → task_poll t' = task_poll t → (∀ id, t' ≠ Cancelled id) → task_known log t'.
Proof. intros P Ht Hp Hc. destruct (pr_task _ _ _ P tid t Ht) as [H _]. split; [by rewrite Hp|]. intros id E. by destruct (Hc id). Qed.

Lemma protocol_abort (st : State Attempt) tasks log tid t id t' :
  protocol st tasks log → tasks !! tid = Some t → live_completion t = Some id →
  live_completion t' = None → task_known (EvReply id PollFailed :: log) t' →
  protocol st (<[tid := t']> tasks) (EvReply id PollFailed :: log).
Proof.
  intros P Ht Hid Hl Hk. destruct (pr_live _ _ _ P tid t id Ht Hid) as (H1 & H2 & H3 & H4 & H5).
  rewrite <- (insert_delete_eq tasks). eapply (protocol_tasks _ (delete tid tasks)).
  - apply protocol_reply.
    + eapply (protocol_tasks _ _ _ (Some t) None); [exact P|exact (evolves_put tasks tid _ None Ht)|done].
    + split_and!; [done|done| |by intros f Hf; right; apply H2]. exact (no_longer_live _ _ _ tid t id None P Ht Hid ltac:(done)).
  - apply (evolves_put (delete tid tasks) tid None (Some t')). apply lookup_delete_eq.
  - by intros ? [= <-].
Qed.

Lemma acquire_flow_refused (i : Inner Attempt) c r : acquire_flow i c = Err r → r = PollOverloaded.
Proof. unfold acquire_flow. case_match; [done|]. by intros [= <-]. Qed.

Lemma protocol_step s s' : setup_inv s → setup_step s s' → protocol (in_state (sy_inner s')) (sy_tasks s') (sy_log s').
Proof.
  intros [R P A] Hstep. pose proof (protocol_cleanup _ _ _ (sy_clock s) P) as Pc.
  destruct Hstep as [| | | | | | | |tid a id c clock| |tid id i a d| | |tid id c i r| |tid t id Ht Hid|tid t id Ht Hid|tid id Ht| | | |
    |tid id c r Ht Hr|tid id c i granted Ht Ha| | | | | | | | |tid t i next Ht Hd];
    simpl; state_facts; try first [exact P|exact Pc|by apply protocol_section_reply].
  all: try (protocol_moves; first [exact P|exact Pc|by apply protocol_cleanup|by apply protocol_section_reply|by split|by eapply poll_known]).
  - apply protocol_insert; [|done]. protocol_moves. exact Pc.
  - match goal with H : trigger_section _ _ _ = _ |- _ => apply trigger_taken in H as (f & Ef & Es & Ea & ->) end. by apply protocol_trigger.
  - by eapply protocol_answer.
  - by eapply protocol_late.
  - by eapply complete_section_protocol.
  - apply protocol_fail; [by eapply protocol_abort|]. exact (no_longer_live _ _ _ tid t id (Some (Notifying id)) P Ht Hid ltac:(by intros ? [= <-])).
  - eapply protocol_abort; [done..|]. split; [done|]. intros ? [= <-]. by left.
  - destruct (pr_task _ _ _ P tid _ Ht) as [_ Hc]. specialize (Hc id eq_refl).
    assert (protocol (in_state (sy_inner s)) (wake <$> delete tid (sy_tasks s)) (sy_log s)) as P' by (protocol_moves; exact P).
    apply protocol_fail; [exact P'|]. intros k t Hk Hid. by destruct (pr_live _ _ _ P' k t id Hk Hid) as (_ & _ & _ & H & _).
  - protocol_moves; [exact Pc|]. split; [|done]. intros p [= <-].
    match goal with H : flows _ !! _ = Some ?x |- _ => destruct (pr_flow _ _ _ Pc _ x H) as (a & Hb & _) end. by exists a.
  - apply acquire_flow_refused in Hr as ->. protocol_moves. by apply protocol_reply.
  - destruct granted; protocol_moves; [exact P|by eapply poll_known|by apply protocol_reply].
  - eapply protocol_tasks; [exact P|by eapply evolves_put|]. intros t' Ht'.
    match goal with H : ∀ t', next = Some t' → _ |- _ => destruct (H t' Ht') as [? ->] end. done.
Qed.

(** *** Preservation of the resources *)

Lemma resources_ok s : resources limits s → flows_ok (sy_inner s).
Proof. intros R id f Hf. exact (rs_flows _ _ R id f Hf). Qed.

Lemma counts_same (i i' : Inner Attempt) old new s :
  resources limits s → i = sy_inner s → flow_polls i' = flow_polls i → (∀ c, weigh (task_slot c) new = weigh (task_slot c) old) →
  counts_follow i i' old new limits.
Proof.
  intros R -> Hp Hs. split; [|intros c; by rewrite Hp]. intros c n Hn. rewrite Hp in Hn. rewrite Hn, Hs.
  destruct (rs_slots _ _ R c n Hn). lia.
Qed.

(** A poll with a slot gives it back. *)
Lemma resources_release_flow s i1 tid t id c next clock log :
  resources limits s → moves (sy_inner s) i1 0 → sy_tasks s !! tid = Some t → task_poll t = Some (id, c) → owns_slot t = true →
  task_permit t = 0 → weigh task_permit next = 0 → weigh task_total next = task_total t → (∀ t', next = Some t' → task_poll t' = None) →
  resources limits (mk_Sys clock (release_flow i1 c) (put_task tid next (sy_tasks s)) log).
Proof.
  intros R [Ml Ma Mp Mc Mb Mf] Ht Hp Ho Hpt Hpn Htn Hno. pose proof R as [Rl Rc Rp Rt Rm Rs Rf Rk].
  assert (∀ c', weigh (task_slot c') next = 0) as Hz.
  { intros c'. destruct next as [t'|]; [|done]. simpl. unfold task_slot. by rewrite (Hno t' eq_refl). }
  assert (∀ k, is_Some (flow_polls (release_flow i1 c) !! k) ↔ is_Some (flow_polls (sy_inner s) !! k)) as Hdom.
  { intros k. simpl. by rewrite lookup_alter_is_Some, Mp. }
  eapply (resources_update _ _ _ (Some t) next); [exact R|by apply evolves_put|intros ? [= <-]; eauto|done|by apply Mc| | | | | |].
  - unfold balance in *. simpl in *. lia.
  - simpl. lia.
  - simpl. lia.
  - split; [|intros k; by rewrite Hdom]. intros k n Hn. simpl in Hn. rewrite Mp, lookup_alter in Hn.
    assert (∃ n0, flow_polls (sy_inner s) !! k = Some n0 ∧ n = n0 - task_slot k t) as (n0 & E0 & ->).
    { unfold task_slot. rewrite Hp, Ho. case_decide as Ec; [subst k|].
      - destruct (flow_polls (sy_inner s) !! c) as [n0|]; [|done]. injection Hn as <-. eauto.
      - exists n. split; [done|lia]. }
    rewrite E0, Hz. simpl. destruct (Rs k n0 E0). pose proof (task_slot_nonneg k t). lia.
  - intros t' p -> Hp'. by rewrite (Hno t' eq_refl) in Hp'.
  - intros id' f Hf. rewrite Hdom. specialize (Mf ltac:(by apply resources_ok) id' f Hf). by rewrite Mp in Mf.
Qed.

Lemma resources_take_slot s tid id c i :
  resources limits s → sy_tasks s !! tid = Some (PollEntered id c) → acquire_flow (sy_inner s) c = Ok i →
  resources limits (mk_Sys (sy_clock s) i (<[tid := PollSlot id c]> (sy_tasks s)) (sy_log s)).
Proof.
  intros R Ht H. unfold acquire_flow in H. destruct (flow_polls (sy_inner s) !! c) as [n|] eqn:En; [|done]. simpl in H.
  unfold reserve_poll in H. rewrite (rs_limits _ _ R) in H. destruct (n <? max_polls_per_flow limits) eqn:El; [|done]. injection H as <-. split_bools.
  pose proof R as [Rl Rc Rp Rt Rm Rs Rf Rk].
  assert (∀ k, is_Some (flow_polls (sy_inner s) !! k) → is_Some (<[c := n + 1]> (flow_polls (sy_inner s)) !! k)) as Hmono.
  { intros k Hk. destruct (decide (c = k)) as [->|]; [rewrite lookup_insert_eq; eauto|by rewrite lookup_insert_ne]. }
  eapply (resources_update _ _ _ (Some (PollEntered id c)) (Some (PollSlot id c)));
    [exact R|exact (evolves_put (sy_tasks s) tid _ (Some (PollSlot id c)) Ht)|intros ? [= <-]; eauto|done|done|done|simpl; lia|simpl; lia| | |].
  - split; [|exact Hmono]. intros k m Hm. simpl in Hm. unfold task_slot. simpl.
    apply lookup_insert_Some in Hm as [[<- <-]|[Hne Hm]].
    + rewrite En. repeat case_decide; simpl; try done; lia.
    + rewrite Hm. destruct (Rs k m Hm). repeat case_decide; simpl; try done; lia.
  - intros ? p [= <-] [= <-]. simpl. rewrite lookup_insert_eq. eauto.
  - intros id' f Hf. destruct (Rf id' f Hf). eauto.
Qed.

(** The total of the polls changes, nothing else. *)
Lemma resources_total s tid t next n clock log :
  resources limits s → sy_tasks s !! tid = Some t → n = active_polls (sy_inner s) + weigh task_total next - task_total t →
  n <= max_polls limits → weigh task_permit next = task_permit t → (∀ c, weigh (task_slot c) next = task_slot c t) →
  (∀ t', next = Some t' → task_poll t' = None ∨ task_poll t' = task_poll t) →
  resources limits (mk_Sys clock (set_active_polls (sy_inner s) n) (put_task tid next (sy_tasks s)) log).
Proof.
  intros R Ht -> Hmax Hp Hs Hpoll. pose proof R as [Rl Rc Rp Rt Rm Rs Rf Rk].
  eapply (resources_update _ _ _ (Some t) next); [exact R|by apply evolves_put|intros ? [= <-]; eauto|done|done| | | | | |].
  - unfold balance. simpl. lia.
  - simpl. lia.
  - exact Hmax.
  - by eapply counts_same.
  - intros t' p -> Hp'. destruct (Hpoll t' eq_refl) as [E|E]; [congruence|]. rewrite E in Hp'. exact (Rk tid t Ht p Hp').
  - exact Rf.
Qed.

Lemma resources_insert s tid a id c clock :
  resources limits s → sy_tasks s !! tid = Some (BeginStarted a) → flows (in_state (sy_inner s)) !! id = None →
  flow_polls (sy_inner s) !! c = None → 0 <= max_polls_per_flow limits →
  resources limits (mk_Sys clock (begin_insert (sy_inner s) id a c (sy_clock s) clock) (delete tid (sy_tasks s)) (EvBegun id a c :: sy_log s)).
Proof.
  intros R Ht Hid Hc Hmax. pose proof (moves_cleanup (sy_inner s) (sy_clock s)) as [Ml Ma Mp Mcap Mb Mf]. pose proof R as [Rl Rc Rp Rt Rm Rs Rf Rk].
  assert (flows (in_state (inner_cleanup (sy_inner s) (sy_clock s))) !! id = None) as Hid'.
  { destruct (flows (in_state (inner_cleanup (sy_inner s) (sy_clock s))) !! id) eqn:E; [|done]. apply cleanup_lookup in E as [E _]. congruence. }
  assert (∀ k, is_Some (flow_polls (sy_inner s) !! k) → is_Some (<[c := 0]> (flow_polls (sy_inner s)) !! k)) as Hmono.
  { intros k Hk. destruct (decide (c = k)) as [->|]; [rewrite lookup_insert_eq; eauto|by rewrite lookup_insert_ne]. }
  eapply (resources_update _ _ _ (Some (BeginStarted a)) None);
    [exact R|exact (evolves_put (sy_tasks s) tid _ None Ht)|intros ? [= <-]; eauto|done|exact (Mcap Rc)| |simpl; lia|simpl; lia| | |].
  - unfold balance in *. simpl in *. rewrite tally_insert_new by done.
    assert (flow_permits (mk_Flow (Some a) true (clock + FLOW_LIFETIME) FlowPending c) = 1) as -> by done. lia.
  - split; [|exact Hmono]. intros k m Hm. simpl in Hm. apply lookup_insert_Some in Hm as [[<- <-]|[Hne Hm]].
    + by rewrite Hc.
    + rewrite Hm. destruct (Rs k m Hm). unfold task_slot. simpl. lia.
  - done.
  - intros id' f Hf. simpl in Hf. apply lookup_insert_Some in Hf as [[<- <-]|[Hne Hf]].
    + split; [done|]. simpl. rewrite lookup_insert_eq. eauto.
    + apply (cleanup_lookup (sy_inner s)) in Hf as [Hf _]. destruct (Rf id' f Hf). split; [done|]. simpl. eauto.
Qed.

Ltac held := intros ? [= <-]; eauto.

(** A task moves on while its section changes the permits by [d]. *)
Ltac resources_move R d :=
  task_moves; eapply (resources_moves _ _ _ _ _ _ _ _ d);
    [exact R|first [eapply evolves_put; eassumption|eapply evolves_wake; eassumption|apply evolves_none]
    |first [held|done]| |try done|try done|try done
    |try first [by intros ? ? [=]|intros ? q [= <-] Hq; first [by simplify_eq/=|by eapply (rs_tasks _ _ R); eassumption]]].

Lemma resources_step s s' : 0 <= max_polls_per_flow limits → setup_inv s → setup_step s s' → resources limits s'.
Proof.
  intros Hmax [R P A] Hstep. pose proof (resources_ok s R) as Hok. pose proof (moves_cleanup (sy_inner s) (sy_clock s)) as Mc.
  destruct Hstep as [|tid ip Ht|tid ip now r i Ht Hr|tid now Ht|tid i Ht Hr|tid e Ht Hr|tid a Ht|tid Ht|tid a id c clock Ht|id i r Hr|tid id i a d Ht Hr
    |tid id a d c Ht|tid id a d Ht|tid id c i r Ht Hr|tid id Ht|tid t id Ht Hid|tid t id Ht Hid|tid id Ht|tid id Ht|id i r Hr|tid id i c Ht Hr
    |tid id c i Ht Hr|tid id c r Ht Hr|tid id c i granted Ht Hr|tid id c Ht|tid id c n i u Ht Hr|tid id c n i r Ht Hr|tid id c n u Ht|tid id final Ht
    |tid id i r Ht Hr|id i b Hr|ip now h r i Hn Hr|tid t i next Ht Hd]; simpl.
  - resources_move R 0. apply moves_id.
  - resources_move R 0. apply moves_id.
  - unfold begin_rate in Hr. destruct (permit _ _ _) as [[] l]; injection Hr as <- <-; simpl; resources_move R 0; apply moves_rates.
  - resources_move R 0. apply moves_cleanup.
  - resources_move R (-1). by apply moves_reserve.
  - resources_move R 0. apply moves_id.
  - resources_move R 0. apply moves_id.
  - resources_move R 1. apply moves_release.
  - apply resources_insert; try done. destruct (flows (in_state (sy_inner s)) !! id) as [f|] eqn:Ef; [|done].
    by apply (pr_flow _ _ _ P), flow_begun in Ef.
  - apply trigger_answered in Hr as [-> _]. resources_move R 0. exact Mc.
  - resources_move R (-1). exact (moves_trigger _ _ _ _ _ Hok Hr).
  - resources_move R 0. apply moves_id.
  - resources_move R 0. apply moves_id.
  - resources_move R 0. eapply moves_complete; [done| |exact Hr].
    intros f Hf. destruct (pr_live _ _ _ P tid _ id Ht eq_refl) as (_ & H & _). by rewrite (H f Hf).
  - resources_move R 1. apply moves_release.
  - destruct t; try done; resources_move R 0; by apply moves_fail.
  - destruct t; try done; resources_move R 1; apply moves_release.
  - resources_move R 0. by apply moves_fail.
  - resources_move R 0. apply moves_id.
  - apply acquire_answered in Hr as [-> _]. resources_move R 0. exact Mc.
  - apply acquire_entered in Hr as (-> & f & Hf & _ & ->). resources_move R 0; [exact Mc|intros c'; simpl; unfold task_slot; simpl; by case_decide|].
    intros ? p [= <-] [= <-]. exact (proj2 (mv_flows _ _ _ Mc Hok id f Hf)).
  - by apply resources_take_slot.
  - resources_move R 0; [apply moves_id|]. intros c'. simpl. unfold task_slot. simpl. by case_decide.
  - unfold acquire_total, reserve_poll in Hr. rewrite (rs_limits _ _ R) in Hr. destruct (active_polls (sy_inner s) <? max_polls limits) eqn:El; injection Hr as <- <-; split_bools.
    + eapply resources_total; [done|exact Ht|simpl; lia|lia|done|done|]. intros ? [= <-]. by right.
    + eapply resources_release_flow; [done|apply moves_id|exact Ht|done..].
  - resources_move R 0. apply moves_id.
  - apply status_shape in Hr as [-> _]. resources_move R 0. exact Mc.
  - apply status_shape in Hr as [-> _]. task_moves. eapply resources_release_flow; [done|exact Mc|exact Ht|done..|]. by intros ? [= <-].
  - task_moves. eapply resources_release_flow; [done|apply moves_id|exact Ht|done..|]. by intros ? [= <-].
  - eapply resources_total; [done|exact Ht|destruct final; simpl; lia|pose proof (rs_total_max _ _ R); lia|by destruct final..|].
    intros t' Ht'. left. by destruct final; simplify_eq.
  - apply status_shape in Hr as [-> _]. resources_move R 0. exact Mc.
  - apply flow_exists_state in Hr as ->. resources_move R 0. exact Mc.
  - unfold creator_held in Hr. destruct (permit _ _ _) as [g l]. injection Hr as <- <-. resources_move R 0. apply moves_rates.
  - destruct t; try done; injection Hd as <- <-.
    + resources_move R 0. apply moves_id.
    + resources_move R 0. apply moves_id.
    + resources_move R 1. apply moves_release.
    + resources_move R 1. apply moves_release.
    + eapply resources_release_flow; [done|apply moves_id|exact Ht|done..|]. by intros ? [= <-].
    + eapply resources_release_flow; [done|apply moves_id|exact Ht|done..|]. by intros ? [= <-].
    + resources_move R 0. apply moves_id.
Qed.

Record limits_ok : Prop := {
  lo_polls : 0 <= max_polls limits;
  lo_flow_polls : 0 <= max_polls_per_flow limits;
  lo_flows : 0 <= max_pending_setup_flows limits;
}.

Lemma reachable_inv s : limits_ok → setup_reachable limits s → setup_inv s.
Proof.
  intros [H1 H2 H3] Hr. revert s Hr. apply (rtc_ind_r setup_inv (setup_init limits)); [by apply setup_inv_init|].
  intros s s' _ Hstep Hi. split; [by eapply resources_step|by eapply protocol_step|by eapply awake_step].
Qed.
End invariant.

(** ** The theorems *)

Section theorems.
Context {Attempt : Type} (limits : SetupLimits).
Implicit Types (s : @Sys Attempt).

(** The attempts a flow keeps, and the polls of a flow that own a slot. *)
Definition flow_secrets (f : Flow Attempt) : Z := match fl_attempt f with Some _ => 1 | None => 0 end.

Definition polls_of (id : string) (t : @Task Attempt) : Z :=
  match task_poll t with Some (id', _) => if decide (id' = id) then if owns_slot t then 1 else 0 else 0 | None => 0 end.

Lemma begun_counter (log : list (@Event Attempt)) id a c a' c' :
  history_ok log → EvBegun id a c ∈ log → EvBegun id a' c' ∈ log → c = c'.
Proof.
  induction log as [|e log IH]; intros Hh H1 H2; [by apply not_elem_of_nil in H1|]. destruct Hh as [Hj Hh].
  apply elem_of_cons in H1 as [<-|H1]; apply elem_of_cons in H2 as [E|H2].
  - by injection E.
  - simpl in Hj. by apply begun_elem in H2.
  - rewrite <- E in Hj. simpl in Hj. by apply begun_elem in H1.
  - eauto.
Qed.

(** All polls of a flow share its counter. *)
Lemma polls_of_bounded s id : 0 <= max_polls_per_flow limits → setup_inv limits s → tally (polls_of id) (sy_tasks s) <= max_polls_per_flow limits.
Proof.
  intros Hmax [R P A]. destruct (tally_some (polls_of id) (sy_tasks s)) as [Hz|(tid & t & Ht & Hne)]; [by rewrite tally_zero|].
  assert (∃ c, task_poll t = Some (id, c)) as [c Hc].
  { unfold polls_of in Hne. destruct (task_poll t) as [[id' c]|]; [|done]. case_decide as E; [subst; eauto|done]. }
  destruct (pr_task _ _ _ P tid t Ht) as [H _]. destruct (H _ Hc) as [a Hb]. simpl in Hb.
  destruct (rs_tasks _ _ R tid t Ht _ Hc) as [n Hn]. simpl in Hn. destruct (rs_slots _ _ R c n Hn) as [En Hle].
  transitivity n; [|done]. rewrite En. apply tally_mono. intros k t' Ht'. unfold polls_of, task_slot.
  destruct (task_poll t') as [[id' c']|] eqn:Ec'; [|done]. destruct (pr_task _ _ _ P k t' Ht') as [H' _].
  destruct (H' _ Ec') as [a' Hb']. simpl in Hb'. case_decide as E; [subst id'|repeat case_match; lia].
  rewrite (begun_counter _ _ _ _ _ _ (pr_history _ _ _ P) Hb' Hb), decide_True by done. done.
Qed.

(** C30: wallet setup is bounded.  Whatever requests arrive, are dropped or are cancelled in
    whatever order, every permit is free, or owned by one flow that still has its attempt, by
    one request that is starting a flow or by one running completion; so the secrets kept
    and the completions in flight never exceed the configured number.  The counters of polls
    count exactly the polls that hold a slot, within their limits for each flow and in
    total; and asking to complete a flow never meets one without its attempt. *)
Theorem setup_flows_bounded s :
  limits_ok limits → setup_reachable limits s →
  let flows := flows (in_state (sy_inner s)) in
  0 <= setup_capacity (sy_inner s)
  ∧ setup_capacity (sy_inner s) + tally flow_secrets flows + tally task_permit (sy_tasks s) = max_pending_setup_flows limits
  ∧ active_polls (sy_inner s) = tally task_total (sy_tasks s) ∧ active_polls (sy_inner s) <= max_polls limits
  ∧ (∀ id, tally (polls_of id) (sy_tasks s) <= max_polls_per_flow limits)
  ∧ ∀ id now, trigger_section (sy_inner s) id now ≠ None.
Proof.
  intros Hl Hr flows. pose proof (reachable_inv limits s Hl Hr) as I. pose proof I as [R P A]. pose proof R as [Rl Rc Rp Rt Rm Rs Rf Rk].
  assert (tally flow_secrets flows = tally flow_permits flows) as Es.
  { apply Z.le_antisymm; apply tally_mono; intros id f Hf; destruct (Rf id f Hf) as [Hwf _]; unfold flow_wf in Hwf;
      unfold flow_secrets, flow_permits; case_decide; [destruct Hwf as [[a ->] ->]|destruct Hwf as [-> ->]|destruct Hwf as [[a ->] ->]|destruct Hwf as [-> ->]]; lia. }
  split_and!; [done|rewrite Es; exact Rp|done|done|intros id; apply polls_of_bounded; [apply Hl|done]|].
  intros id now H. unfold trigger_section in H. cbv zeta in H.
  destruct (Setup.flows (in_state (inner_cleanup (sy_inner s) now)) !! id) as [f|] eqn:Ef; [|done].
  apply cleanup_lookup in Ef as [Ef _]. destruct (Rf id f Ef) as [Hwf _]. unfold flow_wf in Hwf.
  destruct (fl_status f); try done. rewrite decide_True in Hwf by done. destruct Hwf as [[a Ha] Hres]. by rewrite Ha, Hres in H.
Qed.

(** C29: a wallet authorization is used once, and what a browser is told is true and stays
    true.  In every history: an attempt is handed to the completer at most once, for the
    flow it was started for, and not after the flow was reported finished or expired; a flow
    is reported complete only after its completer answered that the setup is durable; and
    no flow is reported both complete and failed, nor complete after it was reported
    expired. *)
Theorem setup_flows_one_shot s : limits_ok limits → setup_reachable limits s → history_ok (sy_log s).
Proof. intros Hl Hr. apply (pr_history _ _ _ (si_protocol _ _ (reachable_inv limits s Hl Hr))). Qed.

(** no poll sleeps through an outcome.  In every reachable state, a poll that waits on a
    flow with an outcome returns exactly that outcome after at most four steps of the tasks
    involved, without the clock moving: it was woken, or the task that recorded the outcome
    still has to notify. *)
Theorem setup_polls_woken s tid id c n u f :
  limits_ok limits → setup_reachable limits s → sy_tasks s !! tid = Some (PollWaiting id c n u) →
  flows (in_state (sy_inner s)) !! id = Some f → final_status (fl_status f) = true → sy_clock s < fl_expires_at f →
  ∃ k s' log, (k <= 4)%nat ∧ nsteps setup_step k s s' ∧ sy_clock s' = sy_clock s
    ∧ sy_log s' = EvReply id (status_result (fl_status f)) :: log ∧ sy_tasks s' !! tid = None.
Proof.
  intros Hl Hr Ht Hf Hfin Hexp.
  assert (∀ s0, sy_tasks s0 !! tid = Some (PollWaiting id c true u) → flows (in_state (sy_inner s0)) !! id = Some f → sy_clock s0 = sy_clock s →
    ∃ s' log, nsteps setup_step 3 s0 s' ∧ sy_clock s' = sy_clock s
      ∧ sy_log s' = EvReply id (status_result (fl_status f)) :: log ∧ sy_tasks s' !! tid = None) as Hwoken.
  { intros s0 Ht0 Hf0 Hc0.
    eexists _, _. split_and!.
    - eapply nsteps_l; [eapply (step_poll_woken s0 tid); [exact Ht0|by left]|].
      eapply nsteps_l; [eapply (step_poll_close _ tid id true); simpl; apply lookup_insert_eq|].
      eapply nsteps_l; [eapply (step_poll_final _ tid id); [simpl; apply lookup_insert_eq|reflexivity]|]. apply nsteps_O.
    - exact Hc0.
    - simpl. f_equal. f_equal.
      assert (flows (cleanup_expired (in_state (sy_inner s0)) (sy_clock s0)) !! id = Some f) as E.
      { apply cleanup_state_lookup. split; [done|lia]. }
      simpl in E. by rewrite E.
    - simpl. apply lookup_delete_eq. }
  destruct n.
  - destruct (Hwoken s Ht Hf eq_refl) as (s' & log & H1 & H2 & H3 & H4). exists 3%nat, s', log. split_and!; try done. lia.
  - destruct (si_awake _ _ (reachable_inv limits s Hl Hr) tid id c u f Ht Hf Hfin) as [k Hk].
    pose proof (step_notify s k id Hk) as Hstep. match type of Hstep with setup_step _ ?s0 => destruct (Hwoken s0) as (s' & log & H1 & H2 & H3 & H4) end; try done.
    + simpl. rewrite lookup_fmap, lookup_delete_ne, Ht; [done|]. intros ->. rewrite Ht in Hk. done.
    + exists 4%nat, s', log. split_and!; try done. by eapply nsteps_l.
Qed.
End theorems.

(** ** A run of the setup flows, for the witnesses *)

Definition example_limits : SetupLimits := mk_SetupLimits 2 2 5 5 1.

Lemma example_limits_ok : limits_ok example_limits.
Proof. split; simpl; lia. Qed.

(** One flow is begun and polled; its completer answers, and the outcome is recorded but not
    yet announced. *)
Definition progress_to (s : @Sys nat) (i : Inner nat) (tid : nat) (t : option Task) : @Sys nat :=
  mk_Sys (sy_clock s) i (put_task tid t (sy_tasks s)) (sy_log s).

Definition e0 : @Sys nat := setup_init example_limits.
Definition e1 : @Sys nat := progress_to e0 (sy_inner e0) 0 (Some (BeginRate (IpV4 1) 0)).
Definition e2 : @Sys nat := progress_to e1 (begin_rate (sy_inner e1) (IpV4 1) 0).2 0 (Some (BeginCleanup 0)).
Definition e3 : @Sys nat := progress_to e2 (inner_cleanup (sy_inner e2) 0) 0 (Some BeginReserve).
Definition e4 : @Sys nat := progress_to e3 (set_capacity (sy_inner e3) 0) 0 (Some BeginStarting).
Definition e5 : @Sys nat := progress_to e4 (sy_inner e4) 0 (Some (BeginStarted 7%nat)).
Definition e6 : @Sys nat :=
  mk_Sys 3 (begin_insert (sy_inner e5) "flow" 7%nat 0 0 3) (delete 0%nat (sy_tasks e5)) [EvBegun "flow" 7%nat 0%nat].
Definition e7 : @Sys nat := progress_to e6 (inner_cleanup (sy_inner e6) 3) 1 (Some (PollEntered "flow" 0)).
Definition e8 : @Sys nat := progress_to e7 (set_flow_polls (sy_inner e7) (<[0%nat := 1]> (flow_polls (sy_inner e7)))) 1 (Some (PollSlot "flow" 0)).
Definition e9 : @Sys nat := progress_to e8 (set_active_polls (sy_inner e8) 1) 1 (Some (PollLeased "flow" 0)).
Definition e10 : @Sys nat := progress_to e9 (sy_inner e9) 1 (Some (PollRegistered "flow" 0 false)).
Definition e11 : @Sys nat := progress_to e10 (inner_cleanup (sy_inner e10) 3) 1 (Some (PollWaiting "flow" 0 false 99)).
Definition e12 : @Sys nat :=
  mk_Sys 3 (from_option fst (sy_inner e11) (trigger_section (sy_inner e11) "flow" 3))
    (<[2%nat := Completing "flow" 7%nat (3 + FLOW_LIFETIME)]> (sy_tasks e11)) (EvAttempt "flow" 7%nat :: sy_log e11).
Definition e13 : @Sys nat :=
  mk_Sys 3 (sy_inner e12) (<[2%nat := Answered "flow" DurableSuccess]> (sy_tasks e12)) (EvAnswer "flow" DurableSuccess :: sy_log e12).
Definition e14 : @Sys nat :=
  mk_Sys 3 (complete_section (sy_inner e13) "flow" DurableSuccess 3).1 (<[2%nat := Notifying "flow"]> (sy_tasks e13))
    (EvReply "flow" PollComplete :: sy_log e13).

Ltac computes := vm_compute; reflexivity.

Lemma example_reachable : setup_reachable example_limits e14.
Proof.
  eapply (rtc_l _ _ e1); [exact (step_begin e0 0%nat (IpV4 1) eq_refl)|].
  eapply (rtc_l _ _ e2); [eapply (step_rate e1 0%nat (IpV4 1) 0 (Ok tt)); computes|].
  eapply (rtc_l _ _ e3); [eapply (step_begin_cleanup e2 0%nat 0); computes|].
  eapply (rtc_l _ _ e4); [eapply (step_reserved e3 0%nat); computes|].
  eapply (rtc_l _ _ e5); [eapply (step_started e4 0%nat 7%nat); computes|].
  eapply (rtc_l _ _ e6); [eapply (step_insert e5 0%nat 7%nat "flow" 0%nat 3); [computes|done|apply not_elem_of_nil|computes]|].
  eapply (rtc_l _ _ e7); [eapply (step_poll e6 1%nat "flow"); computes|].
  eapply (rtc_l _ _ e8); [eapply (step_poll_slot e7 1%nat "flow" 0%nat); computes|].
  eapply (rtc_l _ _ e9); [eapply (step_poll_total e8 1%nat "flow" 0%nat _ true); computes|].
  eapply (rtc_l _ _ e10); [eapply (step_poll_register e9 1%nat "flow" 0%nat); computes|].
  eapply (rtc_l _ _ e11); [eapply (step_poll_pending e10 1%nat "flow" 0%nat false); computes|].
  eapply (rtc_l _ _ e12); [eapply (step_trigger e11 2%nat "flow" _ 7%nat FLOW_LIFETIME); computes|].
  eapply (rtc_l _ _ e13); [eapply (step_completer_answers e12 2%nat "flow" 7%nat); computes|].
  eapply (rtc_l _ _ e14); [eapply (step_record e13 2%nat "flow" DurableSuccess); computes|]. apply rtc_refl.
Qed.

Lemma setup_flows_bounded_witness :
  setup_capacity (sy_inner e14) + tally flow_secrets (flows (in_state (sy_inner e14))) + tally task_permit (sy_tasks e14) = 1
  ∧ tally (polls_of "flow") (sy_tasks e14) <= 2 ∧ trigger_section (sy_inner e14) "flow" 3 ≠ None.
Proof.
  destruct (setup_flows_bounded example_limits e14 example_limits_ok example_reachable) as (_ & H1 & _ & _ & H2 & H3).
  split; [exact H1|]. split; [apply (H2 "flow")|apply H3].
Defined.

Lemma setup_flows_one_shot_witness : EvReply "flow" PollComplete ∈ sy_log e14 ∧ history_ok (sy_log e14).
Proof.
  split; [by left|]. exact (setup_flows_one_shot example_limits e14 example_limits_ok example_reachable).
Defined.

Lemma setup_polls_woken_witness : ∃ k s' log,
  (k <= 4)%nat ∧ nsteps setup_step k e14 s' ∧ sy_clock s' = 3 ∧ sy_log s' = EvReply "flow" PollComplete :: log ∧ sy_tasks s' !! 1%nat = None.
Proof.
  apply (setup_polls_woken example_limits e14 1%nat "flow" 0%nat false 99 (mk_Flow None false (3 + FLOW_LIFETIME) FlowCompleted 0%nat)
    example_limits_ok example_reachable); vm_compute; reflexivity.
Defined.
