(* ===== verification/SetupRoutes.v ===== *)
(** * SetupRoutes: the pages and answers of wallet setup ([http/setup.rs])

    Queries are read strictly: every key once, none unknown.  The iframe page embeds the
    flow's texts in markup and in a script; its escapes are here, the template is not.  The
    decoder of form queries, the URL parser and the JSON printer are parameters. *)

From S2P Require Import Prelude Text Locks CreateInvoice Limits Auth Setup.
Local Open Scope string_scope.
Local Open Scope Z_scope.

(** ** Queries *)

Section queries.
Context {core : LocksCore}.

(** The variables of the loop. *)
Record SetupQuery := mk_SetupQuery {
  sq_return_to : option string;
  sq_state : option string;
  sq_creator : option CreatorPubky;
  sq_scope : option ReconnectScope;
}.

Definition no_query : SetupQuery := mk_SetupQuery None None None None.

(** One pair: a key that was not given yet and that this route knows. *)
Definition read_pair (reconnect : bool) (q : SetupQuery) (key value : string) : option SetupQuery :=
  let '(mk_SetupQuery return_to state creator scope) := q in
  if String.eqb key "return_to" && is_none return_to then Some (mk_SetupQuery (Some value) state creator scope)
  else if String.eqb key "state" && is_none state then Some (mk_SetupQuery return_to (Some value) creator scope)
  else if String.eqb key "creator" && reconnect && is_none creator then
    match parse_creator value with
    | Ok creator => Some (mk_SetupQuery return_to state (Some creator) scope)
    | Err _ => None
    end
  else if String.eqb key "asset" && reconnect && is_none scope && String.eqb value "USDT" then
    Some (mk_SetupQuery return_to state creator (Some UsdtOnly))
  else None.

Fixpoint read_pairs (reconnect : bool) (q : SetupQuery) (pairs : list (string * string)) : option SetupQuery :=
  match pairs with
  | [] => Some q
  | (key, value) :: pairs => q ← read_pair reconnect q key value; read_pairs reconnect q pairs
  end.

(** [url::form_urlencoded::parse] *)
Context (form_parse : string → list (string * string)).

Definition parse_setup_query (query : option string) (reconnect : bool) :
    option (string * string * option CreatorPubky * ReconnectScope) :=
  query ← query;
  q ← read_pairs reconnect no_query (form_parse query);
  return_to ← sq_return_to q;
  state ← sq_state q;
  Some (return_to, state, sq_creator q, default ScopeFull (sq_scope q)).

Fixpoint read_held_pairs (creator : option CreatorPubky) (pairs : list (string * string)) : option (option CreatorPubky) :=
  match pairs with
  | [] => Some creator
  | (key, value) :: pairs =>
      if String.eqb key "creator" && is_none creator then
        match parse_creator value with Ok creator => read_held_pairs (Some creator) pairs | Err _ => None end
      else None
  end.

Definition parse_creator_held_query (query : option string) : option CreatorPubky :=
  query ← query;
  creator ← read_held_pairs None (form_parse query);
  creator.

(** ** Answers *)

Inductive SetupBody :=
  | BodyError (error : string)
  | BodyStatus (status : string)
  | BodyHeld (held : bool)
  | BodyPage (started : string).

Record SetupResponse := mk_SetupResponse {
  sr_status : Z;
  sr_body : SetupBody;
  sr_retry_after : option string;
}.

Definition safe_response (status : Z) (body : SetupBody) : SetupResponse := mk_SetupResponse status body None.

Definition safe_response_with_retry (status : Z) (body : SetupBody) (retry_after : string) : SetupResponse :=
  mk_SetupResponse status body (Some retry_after).

Definition invalid_request : SetupResponse := safe_response 400 (BodyError "invalid_request").

Definition response_for_begin (result : result BeginError string) : SetupResponse :=
  match result with
  | Ok page => safe_response 200 (BodyPage page)
  | Err Begin_InvalidRequest => invalid_request
  | Err Begin_RateLimited => safe_response_with_retry 429 (BodyError "rate_limited") "60"
  | Err Begin_Unavailable => safe_response_with_retry 503 (BodyError "unavailable") "1"
  end.

Definition response_for_held (result : result CreatorHeldError bool) : SetupResponse :=
  match result with
  | Ok held => safe_response 200 (BodyHeld held)
  | Err Held_RateLimited => safe_response_with_retry 429 (BodyError "rate_limited") "60"
  | Err Held_Unavailable => safe_response_with_retry 503 (BodyError "unavailable") "1"
  end.

Definition response_for_poll (result : PollResult) : SetupResponse :=
  match result with
  | PollComplete => safe_response 200 (BodyStatus "complete")
  | PollPendingTimeout => safe_response 408 (BodyStatus "pending")
  | PollUnknown => safe_response 404 (BodyError "not_found")
  | PollExpired => safe_response 410 (BodyError "expired")
  | PollFailed => safe_response 422 (BodyError "setup_failed")
  | PollOverloaded => safe_response_with_retry 429 (BodyError "overloaded") "60"
  | PollUnavailable => safe_response_with_retry 503 (BodyError "unavailable") "1"
  end.

(** What the handlers ask of the service, if the query is valid. *)
Definition begin_call (peer : IpAddr) (headers : list (string * string)) (hops : nat) (query : option string) :
    result SetupResponse (IpAddr * string * string) :=
  match parse_setup_query query false with
  | Some (return_to, state, None, _) => Ok (client_ip peer headers hops, return_to, state)
  | _ => Err invalid_request
  end.

Definition reconnect_call (peer : IpAddr) (headers : list (string * string)) (hops : nat) (query : option string) :
    result SetupResponse (IpAddr * string * string * CreatorPubky * ReconnectScope) :=
  match parse_setup_query query true with
  | Some (return_to, state, Some creator, scope) => Ok (client_ip peer headers hops, return_to, state, creator, scope)
  | _ => Err invalid_request
  end.

Definition creator_held_call (peer : IpAddr) (headers : list (string * string)) (hops : nat) (query : option string) :
    result SetupResponse (IpAddr * CreatorPubky) :=
  match parse_creator_held_query query with
  | Some creator => Ok (client_ip peer headers hops, creator)
  | None => Err invalid_request
  end.
End queries.

(** ** The page *)

Definition QUOTE : ascii := "034".

Definition APOSTROPHE : ascii := "039".

Definition escape_html (c : ascii) : string :=
  if Ascii.eqb c "&" then "&amp;"
  else if Ascii.eqb c "<" then "&lt;"
  else if Ascii.eqb c ">" then "&gt;"
  else if Ascii.eqb c QUOTE then "&quot;"
  else if Ascii.eqb c APOSTROPHE then "&#39;"
  else String c "".

Fixpoint html_for_text (value : string) : string :=
  match value with
  | EmptyString => EmptyString
  | String c rest => escape_html c ++ html_for_text rest
  end.

(** [str::replace] of one character *)
Fixpoint replace_char (c : ascii) (by_ : string) (s : string) : string :=
  match s with
  | EmptyString => EmptyString
  | String d rest => (if Ascii.eqb d c then by_ else String d "") ++ replace_char c by_ rest
  end.

(** [str::replace] of U+2028 or U+2029, whose UTF-8 forms end in [last] *)
Fixpoint replace_separator (last : Z) (by_ : string) (s : string) : string :=
  match s with
  | String a ((String b (String c rest)) as tail) =>
      if (byte a =? 226) && (byte b =? 128) && (byte c =? last) then by_ ++ replace_separator last by_ rest
      else String a (replace_separator last by_ tail)
  | String a rest => String a (replace_separator last by_ rest)
  | EmptyString => EmptyString
  end.

(** [to_json]: [serde_json::to_string] of a text *)
Definition json_for_script (to_json : string → string) (value : string) : string :=
  replace_separator 169 "\u2029" (replace_separator 168 "\u2028"
    (replace_char "&" "\u0026" (replace_char ">" "\u003e" (replace_char "<" "\u003c" (to_json value))))).

Definition bitkit_android_package (network : BitcoinNetwork) : option string :=
  match network with
  | Mainnet => Some "to.bitkit"
  | Testnet => Some "to.bitkit.tnet"
  | Regtest => Some "to.bitkit.dev"
  | Signet => None
  end.

Definition PUBKYAUTH_PREFIX : string := "pubkyauth://".

Definition BITKIT_PUBKYAUTH_HOSTS : list string := ["signin_grant"; "signup_grant"].

Definition BITKIT_SETUP_GRANT_PREFIX : string := "pubkyauth://signin_grant?".

Definition QUERY_PARAMETER : string := "x-bitkit-claim".

(** A canonical URL without fragment, credentials and port. *)
Definition plain_grant (url : ParsedUrl) (authorization_url : string) : bool :=
  String.eqb (pu_as_str url) authorization_url && is_none (pu_fragment url) && str_is_empty (pu_username url)
  && is_none (pu_password url) && is_none (pu_port url).

Definition bitkit_android_intent_url (parse_url : string → option ParsedUrl) (authorization_url package : string) : option string :=
  rest ← strip_prefix PUBKYAUTH_PREFIX authorization_url;
  url ← parse_url authorization_url;
  if plain_grant url authorization_url
     && match pu_host url with Some host => existsb (String.eqb host) BITKIT_PUBKYAUTH_HOSTS | None => false end
  then Some ("intent://" ++ rest ++ "#Intent;scheme=pubkyauth;package=" ++ package ++ ";end")
  else None.

Definition bitkit_ios_setup_url (parse_url : string → option ParsedUrl) (authorization_url : string) : option string :=
  query ← strip_prefix BITKIT_SETUP_GRANT_PREFIX authorization_url;
  url ← parse_url authorization_url;
  if plain_grant url authorization_url
     && match pu_host url with Some host => String.eqb host "signin_grant" | None => false end
     && str_is_empty (pu_path url) && negb (str_is_empty query) && negb (starts_with "?" query)
     && Nat.eqb (length (filter (λ p, Is_true (String.eqb p.1 QUERY_PARAMETER)) (pu_query_pairs url))) 1
  then Some ("bitkit://pubky-auth/setup?" ++ query)
  else None.

(** ** Exactly which queries are accepted *)

Section exact.
Context {core : LocksCore} `{!CanonicalDisplay RawCreatorPubky}.
Implicit Types q : SetupQuery.

Definition one_pair (key : string) (value : option string) : list (string * string) :=
  match value with Some v => [(key, v)] | None => [] end.

(** The query that asks for exactly these values. *)
Definition query_pairs q : list (string * string) :=
  one_pair "return_to" (sq_return_to q) ++ one_pair "state" (sq_state q)
    ++ one_pair "creator" (creator_to_string <$> sq_creator q)
    ++ one_pair "asset" (match sq_scope q with Some UsdtOnly => Some "USDT" | _ => None end).

(** Full scope is the default, never asked for; only a reconnect names a creator or a scope. *)
Definition query_allowed (reconnect : bool) q : Prop :=
  sq_scope q ≠ Some ScopeFull ∧ (reconnect = false → sq_creator q = None ∧ sq_scope q = None).

Lemma elem_one_pair key value k v : (k, v) ∈ one_pair key value ↔ k = key ∧ value = Some v.
Proof. destruct value as [w|]; simpl; rewrite ?list_elem_of_singleton, ?elem_of_nil; naive_solver. Qed.

Lemma elem_query_pairs q k v : (k, v) ∈ query_pairs q ↔
  k = "return_to" ∧ sq_return_to q = Some v ∨ k = "state" ∧ sq_state q = Some v
  ∨ k = "creator" ∧ (∃ c, sq_creator q = Some c ∧ creator_to_string c = v) ∨ k = "asset" ∧ sq_scope q = Some UsdtOnly ∧ v = "USDT".
Proof.
  unfold query_pairs. rewrite !elem_of_app, !elem_one_pair. rewrite fmap_Some.
  destruct (sq_scope q) as [[]|]; naive_solver.
Qed.

Lemma NoDup_query_keys q : NoDup (query_pairs q).*1.
Proof.
  unfold query_pairs. destruct q as [[] [] [] [[]|]]; simpl; repeat constructor; rewrite ?elem_of_cons, ?elem_of_nil; naive_solver.
Qed.

Lemma creator_parses c : parse_creator (creator_to_string c) = Ok c.
Proof. destruct c as [raw]. unfold parse_creator. simpl. by rewrite parse_canonical_display. Qed.

Lemma creator_text_inj c c' : creator_to_string c = creator_to_string c' → c = c'.
Proof. intros E. pose proof (creator_parses c) as H. rewrite E, creator_parses in H. congruence. Qed.

Lemma query_pairs_inj q q' : query_allowed true q → query_allowed true q' → query_pairs q ≡ₚ query_pairs q' → q = q'.
Proof.
  intros [H1 _] [H2 _] Hp. assert (∀ k v, (k, v) ∈ query_pairs q ↔ (k, v) ∈ query_pairs q') as He by (intros; by rewrite Hp).
  setoid_rewrite elem_query_pairs in He.
  assert (∀ v, sq_return_to q = Some v ↔ sq_return_to q' = Some v) as E1 by (intros v; specialize (He "return_to" v); naive_solver).
  assert (∀ v, sq_state q = Some v ↔ sq_state q' = Some v) as E2 by (intros v; specialize (He "state" v); naive_solver).
  assert (∀ c, sq_creator q = Some c ↔ sq_creator q' = Some c) as E3.
  { intros c. specialize (He "creator" (creator_to_string c)). split; intros Hc.
    - destruct (proj1 He) as [|[|[(_ & c' & Hc' & ->%creator_text_inj)|]]]; naive_solver.
    - destruct (proj2 He) as [|[|[(_ & c' & Hc' & ->%creator_text_inj)|]]]; naive_solver. }
  assert (sq_scope q = Some UsdtOnly ↔ sq_scope q' = Some UsdtOnly) as E4 by (specialize (He "asset" "USDT"); naive_solver).
  destruct q as [a b c d], q' as [a' b' c' d']; simpl in *. f_equal; [by apply option_eq|by apply option_eq|by apply option_eq|].
  destruct d as [[]|], d' as [[]|]; naive_solver.
Qed.

(** One pair is read exactly when it is asked for and new. *)
Lemma read_pair_sound reconnect q k v q' :
  read_pair reconnect q k v = Some q' →
  (k, v) :: query_pairs q ≡ₚ query_pairs q' ∧ (query_allowed reconnect q → query_allowed reconnect q').
Proof.
  destruct q as [rt st c sc]. unfold read_pair, query_allowed, query_pairs.
  destruct (String.eqb k "return_to") eqn:E1; simpl; [destruct rt; simpl|].
  { split_bools. subst k. simpl. intros H. discriminate. }
  { split_bools. subst. intros [= <-]. simpl. split; [done|naive_solver]. }
  destruct (String.eqb k "state") eqn:E2; simpl; [destruct st; simpl|].
  { split_bools. subst k. simpl. intros H. discriminate. }
  { split_bools. subst. intros [= <-]. simpl. split; [destruct rt; simpl; solve_Permutation|naive_solver]. }
  destruct (String.eqb k "creator") eqn:E3; simpl; [destruct reconnect, c; simpl|].
  1-4: split_bools; subst k; simpl; try discriminate.
  { destruct (parse_creator v) as [c|] eqn:Ec; [|done]. apply parse_creator_ok in Ec. subst. intros [= <-]. simpl.
    split; [destruct rt, st; simpl; solve_Permutation|naive_solver]. }
  destruct (String.eqb k "asset") eqn:E4; simpl; [|done]. destruct reconnect, sc; simpl; try done.
  destruct (String.eqb v "USDT") eqn:E5; [|done]. split_bools. subst. intros [= <-]. simpl.
  split; [destruct rt, st, c; simpl; solve_Permutation|naive_solver].
Qed.

Lemma read_pair_complete reconnect q q1 k v :
  query_allowed reconnect q1 → (k, v) ∈ query_pairs q1 → k ∉ (query_pairs q).*1 → query_allowed reconnect q →
  ∃ q', read_pair reconnect q k v = Some q'.
Proof.
  intros [Hs Hr] Hin Hk [Hs' _].
  assert (∀ w, (k, w) ∉ query_pairs q) as Hnew.
  { intros w Hw. apply Hk. apply list_elem_of_fmap. by exists (k, w). }
  setoid_rewrite elem_query_pairs in Hnew. apply elem_query_pairs in Hin. destruct q as [rt st c sc]. unfold read_pair. simpl in *.
  destruct Hin as [[-> H]|[[-> H]|[[-> (c1 & H & <-)]|(-> & H & ->)]]]; simpl.
  - destruct rt; simpl; [naive_solver|eauto].
  - destruct st; simpl; [naive_solver|eauto].
  - destruct reconnect; [|naive_solver]. destruct c; simpl; [naive_solver|]. rewrite creator_parses. eauto.
  - destruct reconnect; [|naive_solver]. destruct sc as [[]|]; simpl; [naive_solver..|eauto].
Qed.

Lemma query_allowed_true reconnect q : query_allowed reconnect q → query_allowed true q.
Proof. intros [H _]. by split. Qed.

Lemma read_pairs_exact reconnect pairs q q' :
  query_allowed reconnect q →
  read_pairs reconnect q pairs = Some q' ↔ query_allowed reconnect q' ∧ pairs ++ query_pairs q ≡ₚ query_pairs q'.
Proof.
  revert q. induction pairs as [|[k v] pairs IH]; intros q Hq; simpl.
  - split; [by intros [= <-]|]. intros [Ha Hp]. f_equal. eapply query_pairs_inj; [by eapply query_allowed_true..|done].
  - split.
    + intros H. destruct (read_pair reconnect q k v) as [q1|] eqn:E; [|done]. simpl in H.
      apply read_pair_sound in E as [Hp1 Ha1]. apply IH in H as [Ha Hp]; [|by apply Ha1]. split; [done|].
      rewrite <- Hp, <- Hp1. apply Permutation_middle.
    + intros [Ha Hp].
      destruct (read_pair_complete reconnect q q' k v) as [q1 E]; [done| | |done|].
      * rewrite <- Hp. by left.
      * pose proof (NoDup_query_keys q') as Hnd. rewrite <- Hp in Hnd. simpl in Hnd. apply NoDup_cons in Hnd as [Hn _].
        rewrite fmap_app in Hn. intros H. apply Hn. apply elem_of_app. by right.
      * rewrite E. simpl. apply read_pair_sound in E as [Hp1 Ha1]. apply IH; [by apply Ha1|]. split; [done|].
        rewrite <- Hp1, <- Hp. symmetry. apply Permutation_middle.
Qed.

(** setup queries are read strictly and lose nothing.  A query is accepted exactly when
    its pairs are, in any order, the target, the state and, on a reconnect, optionally the
    creator and the asset, each once and nothing else; the values read are the values given,
    so a repeated or an unknown key never shadows another. *)
Theorem setup_query_exact form_parse text reconnect return_to state creator scope :
  parse_setup_query form_parse (Some text) reconnect = Some (return_to, state, creator, scope)
  ↔ (reconnect = false → creator = None ∧ scope = ScopeFull)
    ∧ form_parse text ≡ₚ query_pairs (mk_SetupQuery (Some return_to) (Some state) creator
        (match scope with UsdtOnly => Some UsdtOnly | ScopeFull => None end)).
Proof.
  set (q := mk_SetupQuery _ _ _ _).
  assert (query_allowed reconnect no_query) as H0 by done.
  assert ((reconnect = false → creator = None ∧ scope = ScopeFull) ↔ query_allowed reconnect q) as Hq.
  { unfold query_allowed, q. simpl. destruct scope; naive_solver. }
  rewrite Hq. rewrite <- (app_nil_r (form_parse text)). rewrite <- (read_pairs_exact reconnect (form_parse text) no_query q H0).
  unfold parse_setup_query. simpl. split.
  - destruct (read_pairs reconnect no_query (form_parse text)) as [q1|] eqn:E; [|done]. simpl.
    destruct q1 as [[rt|] [st|] c sc]; simpl; try done. intros [= <- <- <- Hsc]. unfold q. f_equal. f_equal.
    pose proof (proj1 (read_pairs_exact _ _ _ _ H0) E) as [[Hns _] _]. simpl in Hns. destruct sc as [[]|]; subst; naive_solver.
  - intros ->. unfold q. simpl. by destruct scope.
Qed.

Lemma setup_query_order form_parse text text' reconnect :
  form_parse text ≡ₚ form_parse text' → parse_setup_query form_parse (Some text) reconnect = parse_setup_query form_parse (Some text') reconnect.
Proof.
  intros Hp. apply option_eq. intros [[[rt st] c] sc].
  unfold parse_setup_query. simpl.
  assert (∀ q', read_pairs reconnect no_query (form_parse text) = Some q' ↔ read_pairs reconnect no_query (form_parse text') = Some q') as E.
  { intros q'. rewrite !read_pairs_exact by done. by rewrite Hp. }
  apply option_eq in E. by rewrite E.
Qed.
End exact.

(** ** Texts in the page *)

Definition markup (c : ascii) : bool := Ascii.eqb c "<" || Ascii.eqb c ">" || Ascii.eqb c QUOTE || Ascii.eqb c APOSTROPHE.

Lemma escape_html_inert c : all_bytes (λ d, negb (markup d)) (escape_html c) = true.
Proof. by destruct c as [[] [] [] [] [] [] [] []]. Qed.

(** The escapes are a prefix code. *)
Lemma escape_html_inj c d x y : escape_html c ++ x = escape_html d ++ y → c = d ∧ x = y.
Proof.
  unfold escape_html. repeat case_match; split_bools; subst; simpl; intros E; simplify_eq/=; done.
Qed.

Lemma html_for_text_inj x y : html_for_text x = html_for_text y → x = y.
Proof.
  revert y. induction x as [|c x IH]; intros [|d y]; simpl; [done| | |].
  - unfold escape_html. repeat case_match; done.
  - unfold escape_html. repeat case_match; done.
  - intros [-> H]%escape_html_inj. f_equal. by apply IH.
Qed.

Lemma replace_char_gone (p : ascii → bool) c by_ s :
  (∀ d, d ≠ c → p d = true) → all_bytes p by_ = true → all_bytes p (replace_char c by_ s) = true.
Proof.
  intros Hp Hb. induction s as [|d s IH]; [done|]. simpl. rewrite all_bytes_app, IH, andb_true_r.
  destruct (Ascii.eqb d c) eqn:E; [done|]. simpl. rewrite Hp; [done|]. by apply Ascii.eqb_neq.
Qed.

Lemma replace_char_keeps p c by_ s : all_bytes p by_ = true → all_bytes p s = true → all_bytes p (replace_char c by_ s) = true.
Proof.
  intros Hb. induction s as [|d s IH]; [done|]. simpl. intros [Hd Hs]%andb_true_iff. rewrite all_bytes_app, IH, andb_true_r by done.
  destruct (Ascii.eqb d c); [done|]. simpl. by rewrite Hd.
Qed.

Lemma replace_separator_keeps p last by_ s : all_bytes p by_ = true → all_bytes p s = true → all_bytes p (replace_separator last by_ s) = true.
Proof.
  intros Hb. assert (∀ n s, (String.length s <= n)%nat → all_bytes p s = true → all_bytes p (replace_separator last by_ s) = true) as Hn.
  { clear s. intros n. induction n as [|n IH]; intros s Hlen Hs; [by destruct s; simpl in *; [|lia]|].
    destruct s as [|a s]; [done|]. cbn [all_bytes] in Hs. apply andb_true_iff in Hs as [Ha Hs]. simpl in Hlen.
    destruct s as [|b [|c rest]]; [simpl; by rewrite Ha| |].
    { simpl in Hs |- *. by rewrite Ha. }
    change (replace_separator last by_ (String a (String b (String c rest)))) with
      (if (byte a =? 226) && (byte b =? 128) && (byte c =? last) then by_ ++ replace_separator last by_ rest
       else String a (replace_separator last by_ (String b (String c rest)))).
    destruct ((byte a =? 226) && (byte b =? 128) && (byte c =? last)).
    - rewrite all_bytes_app, Hb. simpl. apply IH; [simpl in Hlen; lia|]. cbn [all_bytes] in Hs.
      by apply andb_true_iff in Hs as [_ [_ Hs]%andb_true_iff].
    - cbn [all_bytes]. rewrite Ha. apply IH; [simpl in *; lia|done]. }
  intros Hs. by apply (Hn (String.length s)).
Qed.

Definition script_special (c : ascii) : bool := Ascii.eqb c "<" || Ascii.eqb c ">" || Ascii.eqb c "&".

(** what a request supplied cannot break out of the page.  A text in markup or in an
    attribute holds no angle bracket and no quote and is read back as the same text; a text
    in the script holds no angle bracket and no ampersand, so it cannot close the script. *)
Theorem page_texts_inert to_json value other :
  all_bytes (λ c, negb (markup c)) (html_for_text value) = true
  ∧ (html_for_text other = html_for_text value ↔ other = value)
  ∧ all_bytes (λ c, negb (script_special c)) (json_for_script to_json value) = true.
Proof.
  split; [|split].
  - induction value as [|c value IH]; [done|]. simpl. by rewrite all_bytes_app, escape_html_inert, IH.
  - split; [apply html_for_text_inj|by intros ->].
  - unfold json_for_script, script_special. do 2 (apply replace_separator_keeps; [done|]).
    assert (∀ s, all_bytes (λ c, negb (Ascii.eqb c "<")) (replace_char "&" "\u0026" (replace_char ">" "\u003e" (replace_char "<" "\u003c" s))) = true) as H1.
    { intros s. do 2 (apply replace_char_keeps; [done|]). apply replace_char_gone; [|done]. intros d Hd. by apply negb_true_iff, Ascii.eqb_neq. }
    assert (∀ s, all_bytes (λ c, negb (Ascii.eqb c ">")) (replace_char "&" "\u0026" (replace_char ">" "\u003e" s)) = true) as H2.
    { intros s. apply replace_char_keeps; [done|]. apply replace_char_gone; [|done]. intros d Hd. by apply negb_true_iff, Ascii.eqb_neq. }
    assert (∀ s, all_bytes (λ c, negb (Ascii.eqb c "&")) (replace_char "&" "\u0026" s) = true) as H3.
    { intros s. apply replace_char_gone; [|done]. intros d Hd. by apply negb_true_iff, Ascii.eqb_neq. }
    generalize (H1 (to_json value)), (H2 (replace_char "<" "\u003c" (to_json value))), (H3 (replace_char ">" "\u003e" (replace_char "<" "\u003c" (to_json value)))).
    generalize (replace_char "&" "\u0026" (replace_char ">" "\u003e" (replace_char "<" "\u003c" (to_json value)))). clear.
    induction s as [|c s IH]; [done|]. simpl. intros [A1 B1]%andb_true_iff [A2 B2]%andb_true_iff [A3 B3]%andb_true_iff.
    rewrite IH by done. rewrite !negb_orb, A1, A2, A3. done.
Qed.

Lemma starts_with_drop p s : starts_with p s = true → p ++ str_drop (String.length p) s = s.
Proof.
  revert s. induction p as [|c p IH]; intros s; [done|]. destruct s as [|d s]; [done|]. simpl.
  intros [->%Ascii.eqb_eq H]%andb_true_iff. by rewrite IH.
Qed.

Lemma strip_prefix_some p s rest : strip_prefix p s = Some rest → s = p ++ rest.
Proof. unfold strip_prefix. destruct (starts_with p s) eqn:E; [|done]. intros [= <-]. by rewrite starts_with_drop. Qed.

(** The wallet's links keep the grant byte for byte. *)
Lemma intent_url_keeps_grant parse_url authorization_url package link :
  bitkit_android_intent_url parse_url authorization_url package = Some link →
  ∃ rest, authorization_url = PUBKYAUTH_PREFIX ++ rest ∧ link = "intent://" ++ rest ++ "#Intent;scheme=pubkyauth;package=" ++ package ++ ";end".
Proof.
  unfold bitkit_android_intent_url. destruct (strip_prefix PUBKYAUTH_PREFIX authorization_url) as [rest|] eqn:E; [|done].
  apply strip_prefix_some in E as ->. simpl mbind. destruct (parse_url _) as [url|]; [|done]. simpl mbind.
  destruct (_ && _); [|done]. intros [= <-]. by exists rest.
Qed.

Lemma ios_url_keeps_query parse_url authorization_url link :
  bitkit_ios_setup_url parse_url authorization_url = Some link →
  ∃ query, authorization_url = BITKIT_SETUP_GRANT_PREFIX ++ query ∧ link = "bitkit://pubky-auth/setup?" ++ query ∧ query ≠ "".
Proof.
  unfold bitkit_ios_setup_url. destruct (strip_prefix BITKIT_SETUP_GRANT_PREFIX authorization_url) as [query|] eqn:E; [|done].
  apply strip_prefix_some in E as ->. simpl mbind. destruct (parse_url _) as [url|]; [|done]. simpl mbind.
  destruct (_ && _) eqn:Eg; [|done]. intros [= <-]. exists query. split; [done|]. split; [done|]. intros ->. simpl in Eg. by rewrite !andb_false_r in Eg.
Qed.

(** ** Instances *)

Definition plain_creator : Identifier string := {| from_str := Some; to_string := id |}.

Definition plain_core : LocksCore := {|
  RawCreatorPubky := string; RawBundleId := string; RawPubkyLockResource := string; raw_creator := id;
  raw_creator_ident := plain_creator; raw_bundle_ident := plain_creator; raw_resource_ident := plain_creator;
|}.

Lemma plain_display : @CanonicalDisplay string plain_creator.
Proof. done. Qed.

(** A reconnect for the USDT address alone, its keys in another order. *)
Lemma setup_query_exact_witness :
  let core := plain_core in
  let form := λ _ : string, [("asset", "USDT"); ("state", "s"); ("creator", "c"); ("return_to", "https://a.example")] in
  parse_setup_query form (Some "q") true = Some ("https://a.example", "s", Some (mk_CreatorPubky "c"), UsdtOnly).
Proof.
  intros core form.
  apply (@setup_query_exact plain_core plain_display form "q" true "https://a.example" "s" (Some (@mk_CreatorPubky plain_core "c")) UsdtOnly).
  split; [done|]. change (form "q") with [("asset", "USDT"); ("state", "s"); ("creator", "c"); ("return_to", "https://a.example")].
  unfold query_pairs. simpl. solve_Permutation.
Defined.
