(* ===== verification/Config.v ===== *)
(** * Config: the process configuration ([config.rs])

    The configuration is read from a TOML text and two environment variables, checked as a
    whole, and only then handed to the components: the limits of [Setup], the limiters of
    [Limits] and the keys of [Auth] are built from it.  The TOML and URL parsers, the key and
    identifier types of the SDK, the PostgreSQL options and the TLS names are parameters.  A
    field with a serde default is an option of the raw record.  A duration is a number of
    nanoseconds. *)

From S2P Require Import Prelude Text Locks Intent Adapter CreateInvoice Limits Auth Setup.
Local Open Scope string_scope.
Local Open Scope Z_scope.

Inductive ConfigError :=
  | InvalidUsdtRpc | Toml | LegacyLocksTrustedPublicKey | MissingDatabaseUrl | MissingMasterKey | InvalidDatabaseUrlScheme
  | InvalidDatabaseUrl | InvalidMasterKey | InvalidTrustedServicePublicKey | EmptyTrustedServicePublicKeys
  | DuplicateTrustedServicePublicKey | InvalidNetwork | InvalidUrl (field : string) | InvalidListenAddress
  | InvalidElectrumEndpoint | InvalidOrigin | InvalidAppId | InvalidPaykitClientId | MissingPaykitClientId
  | UnsupportedPaykitClientId | InvalidPaykitNetwork | AllowanceIntakeUnavailable | InvalidInvoiceWindows
  | ZeroDuration (name : string) | ZeroValue (name : string) | ValueTooLarge (name : string)
  | SubsecondPersistenceDuration (name : string) | InconsistentRetries (name : string).

Definition PAYKIT_CLIENT_ID : string := "app.paykit.server".

Definition MAX_TRUSTED_PROXY_HOPS : Z := 8.

Definition SECOND : Z := 1000000000.

(** ** The text's fields *)

Record RawHttpConfig := mk_RawHttpConfig { rh_listen_addr : string; rh_trusted_proxy_hops : option Z }.

Record RawSignedServicesConfig := mk_RawSignedServicesConfig { rs_trusted_public_keys : list string }.

Record RawSetupConfig := mk_RawSetupConfig { rs_allowed_origins : list string; rs_log_authorization_url : option bool }.

Record RawPaykitConfig := mk_RawPaykitConfig {
  rp_client_id : option string;
  rp_app_id : string;
  rp_network : string;
  rp_proposal_acceptance_window : option Z;
  rp_payment_window : option Z;
  rp_conversion_payment_window : option Z;
  rp_marketplace_prepare_ttl : option Z;
  rp_allowance_intake : option bool;
}.

Record RawBitcoinConfig := mk_RawBitcoinConfig { rb_network : string }.

Record RawElectrumConfig := mk_RawElectrumConfig {
  re_endpoint : string;
  re_poll_interval : option Z;
  re_request_timeout : option Z;
  re_connect_retries : option Z;
}.

Record RawUsdtConfig := mk_RawUsdtConfig { ru_rpc_url : string }.

Record RawOutboxConfig := mk_RawOutboxConfig {
  ro_poll_interval : Z;
  ro_batch_size : option Z;
  ro_lease_duration : option Z;
  ro_retry_initial : option Z;
  ro_retry_max : option Z;
  ro_rapid_link_retry_attempts : option Z;
  ro_rapid_link_retry_interval_ms : option Z;
}.

Record RawLimitsConfig := mk_RawLimitsConfig {
  rl_request_body_bytes : option Z;
  rl_lock_resource_bytes : option Z;
  rl_lock_fetch_timeout : option Z;
}.

Record RawRateLimitsConfig := mk_RawRateLimitsConfig {
  rr_signed_requests_per_second : option Z;
  rr_signed_burst : option Z;
  rr_setup_per_ip_per_minute : option Z;
  rr_creator_held_per_ip_per_minute : option Z;
  rr_max_pending_setup_flows : option Z;
  rr_max_completion_polls_per_flow : option Z;
  rr_max_completion_polls : option Z;
}.

Record RawShutdownConfig := mk_RawShutdownConfig { rs_drain_timeout : option Z }.

Record RawConfig := mk_RawConfig {
  raw_http : RawHttpConfig;
  raw_signed_services : RawSignedServicesConfig;
  raw_setup : RawSetupConfig;
  raw_paykit : RawPaykitConfig;
  raw_bitcoin : RawBitcoinConfig;
  raw_electrum : RawElectrumConfig;
  raw_usdt : option RawUsdtConfig;
  raw_outbox : RawOutboxConfig;
  raw_limits : option RawLimitsConfig;
  raw_rate_limits : option RawRateLimitsConfig;
  raw_shutdown : option RawShutdownConfig;
}.

(** ** The checked configuration *)

Inductive PaykitNetwork := PaykitMainnet | PaykitTestnet.

Definition PaykitNetwork_parse (value : string) : result ConfigError PaykitNetwork :=
  if String.eqb value "mainnet" then Ok PaykitMainnet
  else if String.eqb value "testnet" then Ok PaykitTestnet
  else Err InvalidPaykitNetwork.

Definition BitcoinNetwork_parse (value : string) : result ConfigError BitcoinNetwork :=
  if String.eqb value "mainnet" then Ok Mainnet
  else if String.eqb value "testnet" then Ok Testnet
  else if String.eqb value "signet" then Ok Signet
  else if String.eqb value "regtest" then Ok Regtest
  else Err InvalidNetwork.

Definition BitcoinNetwork_as_str (network : BitcoinNetwork) : string :=
  match network with Mainnet => "mainnet" | Testnet => "testnet" | Signet => "signet" | Regtest => "regtest" end.

Record HttpConfig := mk_HttpConfig { hc_listen_addr : SocketAddr; hc_trusted_proxy_hops : Z }.

Record SetupConfig := mk_SetupConfig { sc_allowed_origins : list string; sc_log_authorization_url : bool }.

Record PaykitConfig := mk_PaykitConfig {
  pc_client_id : string;
  pc_app_id : string;
  pc_network : PaykitNetwork;
  pc_proposal_acceptance_window : Z;
  pc_payment_window : Z;
  pc_conversion_payment_window : Z;
  pc_marketplace_prepare_ttl : Z;
  pc_allowance_intake : bool;
}.

Record ElectrumConfig := mk_ElectrumConfig {
  ec_endpoint : string;
  ec_poll_interval : Z;
  ec_request_timeout : Z;
  ec_connect_retries : Z;
}.

Record UsdtConfig := mk_UsdtConfig { uc_rpc_url : ParsedUrl }.

Record OutboxConfig := mk_OutboxConfig {
  oc_poll_interval : Z;
  oc_batch_size : Z;
  oc_lease_duration : Z;
  oc_retry_initial : Z;
  oc_retry_max : Z;
  oc_rapid_link_retry_attempts : Z;
  oc_rapid_link_retry_interval : Z;
}.

Record LimitsConfig := mk_LimitsConfig {
  lc_request_body_bytes : Z;
  lc_lock_resource_bytes : Z;
  lc_lock_fetch_timeout : Z;
}.

Record RateLimitsConfig := mk_RateLimitsConfig {
  rc_signed_requests_per_second : Z;
  rc_signed_burst : Z;
  rc_setup_per_ip_per_minute : Z;
  rc_creator_held_per_ip_per_minute : Z;
  rc_max_pending_setup_flows : Z;
  rc_max_completion_polls_per_flow : Z;
  rc_max_completion_polls : Z;
}.

Record ShutdownConfig := mk_ShutdownConfig { sc_drain_timeout : Z }.

(** ** Defaults *)

Definition default_proposal_acceptance_window : Z := 60 * 60 * SECOND.
Definition default_payment_window : Z := 24 * 60 * 60 * SECOND.
Definition default_marketplace_prepare_ttl : Z := 15 * 60 * SECOND.
Definition default_electrum_request_timeout : Z := 10 * SECOND.
Definition default_electrum_connect_retries : Z := 1.
Definition default_electrum_poll_interval : Z := 10 * SECOND.
Definition default_outbox_batch_size : Z := 16.
Definition default_lease_duration : Z := 30 * SECOND.
Definition default_retry_initial : Z := SECOND.
Definition default_outbox_retry_max : Z := 5 * 60 * SECOND.
Definition default_rapid_link_retry_attempts : Z := 120.
Definition default_rapid_link_retry_interval_ms : Z := 1000.
Definition default_request_body_bytes : Z := 16 * 1024.
Definition default_lock_resource_bytes : Z := 256 * 1024.
Definition default_lock_fetch_timeout : Z := 10 * SECOND.
Definition default_signed_requests_per_second : Z := 100.
Definition default_signed_burst : Z := 200.
Definition default_setup_per_ip_per_minute : Z := 10.
Definition default_creator_held_per_ip_per_minute : Z := 600.
Definition default_max_pending_setup_flows : Z := 100.
Definition default_max_completion_polls_per_flow : Z := 2.
Definition default_max_completion_polls : Z := 200.
Definition default_shutdown_drain_timeout : Z := 30 * SECOND.

(** A missing section is one with no field given. *)
Definition RawLimitsConfig_default : RawLimitsConfig := mk_RawLimitsConfig None None None.
Definition RawRateLimitsConfig_default : RawRateLimitsConfig := mk_RawRateLimitsConfig None None None None None None None.
Definition RawShutdownConfig_default : RawShutdownConfig := mk_RawShutdownConfig None.

Definition OutboxConfig_from (raw : RawOutboxConfig) : OutboxConfig :=
  mk_OutboxConfig (ro_poll_interval raw) (default default_outbox_batch_size (ro_batch_size raw))
    (default default_lease_duration (ro_lease_duration raw)) (default default_retry_initial (ro_retry_initial raw))
    (default default_outbox_retry_max (ro_retry_max raw)) (default default_rapid_link_retry_attempts (ro_rapid_link_retry_attempts raw))
    (default default_rapid_link_retry_interval_ms (ro_rapid_link_retry_interval_ms raw) * 1000000).

Definition LimitsConfig_from (raw : RawLimitsConfig) : LimitsConfig :=
  mk_LimitsConfig (default default_request_body_bytes (rl_request_body_bytes raw))
    (default default_lock_resource_bytes (rl_lock_resource_bytes raw)) (default default_lock_fetch_timeout (rl_lock_fetch_timeout raw)).

Definition RateLimitsConfig_from (raw : RawRateLimitsConfig) : RateLimitsConfig :=
  mk_RateLimitsConfig (default default_signed_requests_per_second (rr_signed_requests_per_second raw))
    (default default_signed_burst (rr_signed_burst raw)) (default default_setup_per_ip_per_minute (rr_setup_per_ip_per_minute raw))
    (default default_creator_held_per_ip_per_minute (rr_creator_held_per_ip_per_minute raw))
    (default default_max_pending_setup_flows (rr_max_pending_setup_flows raw))
    (default default_max_completion_polls_per_flow (rr_max_completion_polls_per_flow raw))
    (default default_max_completion_polls (rr_max_completion_polls raw)).

Definition ShutdownConfig_from (raw : RawShutdownConfig) : ShutdownConfig :=
  mk_ShutdownConfig (default default_shutdown_drain_timeout (rs_drain_timeout raw)).

(** ** Checking *)

(** The first entry that fails names the error. *)
Fixpoint check_each (ok : Z → bool) (error : string → ConfigError) (entries : list (string * Z)) : result ConfigError unit :=
  match entries with
  | [] => Ok tt
  | (name, value) :: entries => if ok value then check_each ok error entries else Err (error name)
  end.

(** [Duration::subsec_nanos], [Duration::as_secs] *)
Definition subsec_nanos (d : Z) : Z := d mod SECOND.
Definition as_secs (d : Z) : Z := d / SECOND.

(** [tokio::sync::Semaphore::MAX_PERMITS] *)
Definition MAX_PERMITS : Z := u64_max / 8.

Definition POSTGRES_QUERY_KEYS : list string :=
  ["sslmode"; "ssl-mode"; "sslrootcert"; "ssl-root-cert"; "ssl-ca"; "sslcert"; "ssl-cert"; "sslkey"; "ssl-key";
   "statement-cache-capacity"; "host"; "hostaddr"; "port"; "dbname"; "user"; "password"; "application_name"; "options"].

Definition supported_postgres_query_key (key : string) : bool :=
  existsb (String.eqb key) POSTGRES_QUERY_KEYS
  || match strip_prefix "options[" key ≫= strip_suffix_bracket with
     | Some key => negb (str_is_empty key)
     | None => false
     end.

Section config.
Context {b64 : UrlSafeBase64} (parse_url : string → option ParsedUrl).
(** [PgConnectOptions::from_str], [ServerName::try_from], [PaykitAppId::new], [ClientId::new]:
    the latter two keep their text *)
Context {PgConnectOptions : Type} (pg_options : string → option PgConnectOptions) (server_name : string → bool)
  (app_id_valid client_id_valid : string → bool).
(** [pubky::PublicKey], [VerifyingKey::from_bytes], [VerifyingKey::is_weak] *)
Context {PublicKey VerifyingKey : Type} (public_key : string → option PublicKey) (public_key_text public_key_bytes : PublicKey → string)
  (verifying_key : string → option VerifyingKey) (is_weak : VerifyingKey → bool).
(** [toml::from_str], the key of the old format, [try_into] *)
Context {Value : Type} (toml_parse : string → option Value) (has_legacy_key : Value → bool) (try_into : Value → option RawConfig).
(** [cfg!(feature = "test-utils")] *)
Context (test_utils : bool).

Record ConfigEnvironment := mk_ConfigEnvironment { ce_database_url : option string; ce_master_key : option string }.

Record DeploymentInvariants := mk_DeploymentInvariants {
  di_bitcoin_network : BitcoinNetwork;
  di_paykit_client_id : string;
  di_app_id : string;
}.

Record Config := mk_Config {
  cf_http : HttpConfig;
  cf_trusted_public_keys : list string;
  cf_setup : SetupConfig;
  cf_paykit : PaykitConfig;
  cf_electrum : ElectrumConfig;
  cf_usdt : option UsdtConfig;
  cf_outbox : OutboxConfig;
  cf_limits : LimitsConfig;
  cf_rate_limits : RateLimitsConfig;
  cf_shutdown : ShutdownConfig;
  cf_database_url : PgConnectOptions;
  cf_master_key : string;
  cf_deployment_invariants : DeploymentInvariants;
}.

Definition decode_base64url_no_pad (value : string) (error : ConfigError) : result ConfigError string :=
  ensure (count_bytes (Ascii.eqb "=") value =? 0) error;;
  ok_or (base64_decode value) error.

Definition MasterKey_parse (value : option string) : result ConfigError string :=
  value ← ok_or value MissingMasterKey;
  bytes ← decode_base64url_no_pad value InvalidMasterKey;
  ensure (str_len bytes =? 32) InvalidMasterKey;;
  Ok bytes.

Definition TrustedServicePublicKey_parse (value : string) : result ConfigError string :=
  key ← ok_or (public_key value) InvalidTrustedServicePublicKey;
  ensure (String.eqb (public_key_text key) value) InvalidTrustedServicePublicKey;;
  let bytes := public_key_bytes key in
  verifying ← ok_or (verifying_key bytes) InvalidTrustedServicePublicKey;
  ensure (negb (is_weak verifying)) InvalidTrustedServicePublicKey;;
  Ok bytes.

Definition SignedServicesConfig_parse (raw : RawSignedServicesConfig) : result ConfigError (list string) :=
  ensure (negb (Nat.eqb (length (rs_trusted_public_keys raw)) 0)) EmptyTrustedServicePublicKeys;;
  keys ← collect TrustedServicePublicKey_parse (rs_trusted_public_keys raw);
  ensure (bool_decide (NoDup keys)) DuplicateTrustedServicePublicKey;;
  Ok keys.

Definition validate_url (field value : string) : result ConfigError ParsedUrl :=
  parsed ← ok_or (parse_url value) (InvalidUrl field);
  ensure (negb (pu_cannot_be_a_base parsed || is_none (pu_host parsed))) (InvalidUrl field);;
  Ok parsed.

Definition validate_electrum_endpoint (value : string) : result ConfigError unit :=
  parsed ← ok_or (parse_url value) InvalidElectrumEndpoint;
  ensure ((String.eqb (pu_scheme parsed) "tcp" || String.eqb (pu_scheme parsed) "ssl")
    && negb (is_none (pu_host parsed))
    && match pu_port parsed with Some port => negb (port =? 0) | None => false end
    && str_is_empty (pu_username parsed) && is_none (pu_password parsed) && str_is_empty (pu_path parsed)
    && is_none (pu_query parsed) && is_none (pu_fragment parsed) && String.eqb (pu_as_str parsed) value
    && negb (String.eqb (pu_scheme parsed) "ssl" && pu_host_ipv6 parsed)) InvalidElectrumEndpoint;;
  ensure (negb (String.eqb (pu_scheme parsed) "ssl" && negb (server_name (default "" (pu_host parsed))))) InvalidElectrumEndpoint.

Definition validate_origin (value : string) : result ConfigError ParsedUrl :=
  parsed ← match validate_url "setup.allowed_origins" value with Ok parsed => Ok parsed | Err _ => Err InvalidOrigin end;
  ensure ((String.eqb (pu_scheme parsed) "http" || String.eqb (pu_scheme parsed) "https")
    && str_is_empty (pu_username parsed) && is_none (pu_password parsed) && String.eqb (pu_path parsed) "/"
    && is_none (pu_query parsed) && is_none (pu_fragment parsed)
    && (count_bytes (Ascii.eqb "*") (default "" (pu_host parsed)) =? 0)) InvalidOrigin;;
  Ok parsed.

Definition validate_allowed_origins (values : list string) : result ConfigError (list string) :=
  if existsb (λ value, String.eqb value "*") values then
    ensure (Nat.eqb (length values) 1) InvalidOrigin;; Ok ["*"]
  else collect (λ origin, validate_origin origin;; Ok origin) values.

Definition UsdtConfig_try_from (raw : RawUsdtConfig) : result ConfigError UsdtConfig :=
  rpc_url ← ok_or (parse_url (ru_rpc_url raw)) InvalidUsdtRpc;
  let local := match pu_host rpc_url with Some host => existsb (String.eqb host) ["localhost"; "127.0.0.1"; "[::1]"] | None => false end in
  ensure ((String.eqb (pu_scheme rpc_url) "https" || (local && String.eqb (pu_scheme rpc_url) "http"))
    && negb (is_none (pu_host rpc_url)) && is_none (pu_fragment rpc_url)
    && str_is_empty (pu_username rpc_url) && is_none (pu_password rpc_url)) InvalidUsdtRpc;;
  Ok (mk_UsdtConfig rpc_url).

Definition DatabaseUrl_parse (value : option string) : result ConfigError PgConnectOptions :=
  value ← ok_or value MissingDatabaseUrl;
  parsed ← validate_url "PAYKIT_DATABASE_URL" value;
  ensure (String.eqb (pu_scheme parsed) "postgres" || String.eqb (pu_scheme parsed) "postgresql") InvalidDatabaseUrlScheme;;
  ensure (forallb (λ pair, supported_postgres_query_key pair.1) (pu_query_pairs parsed)) InvalidDatabaseUrl;;
  ok_or (pg_options value) InvalidDatabaseUrl.

Definition invoice_windows_ok (paykit : PaykitConfig) : bool :=
  negb ((as_secs (pc_conversion_payment_window paykit) <? 2)
    || negb (subsec_nanos (pc_conversion_payment_window paykit) =? 0)
    || (pc_proposal_acceptance_window paykit =? 0)
    || negb (subsec_nanos (pc_proposal_acceptance_window paykit) =? 0)
    || negb (subsec_nanos (pc_payment_window paykit) =? 0)
    || (pc_marketplace_prepare_ttl paykit =? 0)
    || negb (subsec_nanos (pc_marketplace_prepare_ttl paykit) =? 0)
    || (pc_payment_window paykit <=? pc_proposal_acceptance_window paykit)).

Definition nonzero (value : Z) : bool := negb (value =? 0).

Definition validate_operational_values (config : Config) : result ConfigError unit :=
  let electrum := cf_electrum config in
  let outbox := cf_outbox config in
  let limits := cf_limits config in
  let rates := cf_rate_limits config in
  check_each nonzero ZeroDuration
    [("electrum.poll_interval", ec_poll_interval electrum); ("electrum.request_timeout", ec_request_timeout electrum);
     ("outbox.poll_interval", oc_poll_interval outbox); ("outbox.lease_duration", oc_lease_duration outbox);
     ("outbox.retry_initial", oc_retry_initial outbox); ("outbox.retry_max", oc_retry_max outbox);
     ("outbox.rapid_link_retry_interval_ms", oc_rapid_link_retry_interval outbox);
     ("limits.lock_fetch_timeout", lc_lock_fetch_timeout limits); ("shutdown.drain_timeout", sc_drain_timeout (cf_shutdown config))];;
  check_each nonzero ZeroValue
    [("outbox.batch_size", oc_batch_size outbox); ("outbox.rapid_link_retry_attempts", oc_rapid_link_retry_attempts outbox);
     ("limits.request_body_bytes", lc_request_body_bytes limits); ("limits.lock_resource_bytes", lc_lock_resource_bytes limits);
     ("rate_limits.signed_requests_per_second", rc_signed_requests_per_second rates); ("rate_limits.signed_burst", rc_signed_burst rates);
     ("rate_limits.setup_per_ip_per_minute", rc_setup_per_ip_per_minute rates);
     ("rate_limits.creator_held_per_ip_per_minute", rc_creator_held_per_ip_per_minute rates);
     ("rate_limits.max_pending_setup_flows", rc_max_pending_setup_flows rates);
     ("rate_limits.max_completion_polls_per_flow", rc_max_completion_polls_per_flow rates);
     ("rate_limits.max_completion_polls", rc_max_completion_polls rates)];;
  check_each (λ value, SECOND <=? value) SubsecondPersistenceDuration
    [("outbox.lease_duration", oc_lease_duration outbox); ("outbox.retry_initial", oc_retry_initial outbox);
     ("outbox.retry_max", oc_retry_max outbox)];;
  ensure (oc_retry_initial outbox <=? oc_retry_max outbox) (InconsistentRetries "outbox");;
  ensure (oc_rapid_link_retry_attempts outbox <=? i32_max) (ValueTooLarge "outbox.rapid_link_retry_attempts");;
  ensure (invoice_windows_ok (cf_paykit config)) InvalidInvoiceWindows;;
  ensure (rc_max_pending_setup_flows rates <=? MAX_PERMITS) (ValueTooLarge "rate_limits.max_pending_setup_flows");;
  ensure (hc_trusted_proxy_hops (cf_http config) <=? MAX_TRUSTED_PROXY_HOPS) (ValueTooLarge "http.trusted_proxy_hops").

Definition from_toml_and_environment (toml_source : string) (environment : ConfigEnvironment) : result ConfigError Config :=
  value ← ok_or (toml_parse toml_source) Toml;
  ensure (negb (has_legacy_key value)) LegacyLocksTrustedPublicKey;;
  raw ← ok_or (try_into value) Toml;
  database_url ← DatabaseUrl_parse (ce_database_url environment);
  master_key ← MasterKey_parse (ce_master_key environment);
  signed_services ← SignedServicesConfig_parse (raw_signed_services raw);
  let app_id := rp_app_id (raw_paykit raw) in
  ensure (app_id_valid app_id) InvalidAppId;;
  ensure (String.eqb app_id PAYKIT_APP_ID) InvalidAppId;;
  client_id ← ok_or (rp_client_id (raw_paykit raw)) MissingPaykitClientId;
  ensure (client_id_valid client_id) InvalidPaykitClientId;;
  ensure (String.eqb client_id PAYKIT_CLIENT_ID) UnsupportedPaykitClientId;;
  let allowance_intake := default false (rp_allowance_intake (raw_paykit raw)) in
  ensure (negb (allowance_intake && negb test_utils)) AllowanceIntakeUnavailable;;
  bitcoin_network ← BitcoinNetwork_parse (rb_network (raw_bitcoin raw));
  listen_addr ← ok_or (parse_with read_socket_addr (rh_listen_addr (raw_http raw))) InvalidListenAddress;
  validate_electrum_endpoint (re_endpoint (raw_electrum raw));;
  allowed_origins ← validate_allowed_origins (rs_allowed_origins (raw_setup raw));
  network ← PaykitNetwork_parse (rp_network (raw_paykit raw));
  usdt ← match raw_usdt raw with Some usdt => Some <$> UsdtConfig_try_from usdt | None => Ok None end;
  let paykit := raw_paykit raw in
  let electrum := raw_electrum raw in
  let config := mk_Config
    (mk_HttpConfig listen_addr (default 0 (rh_trusted_proxy_hops (raw_http raw))))
    signed_services
    (mk_SetupConfig allowed_origins (default false (rs_log_authorization_url (raw_setup raw))))
    (mk_PaykitConfig client_id app_id network
      (default default_proposal_acceptance_window (rp_proposal_acceptance_window paykit))
      (default default_payment_window (rp_payment_window paykit))
      (default default_proposal_acceptance_window (rp_conversion_payment_window paykit))
      (default default_marketplace_prepare_ttl (rp_marketplace_prepare_ttl paykit)) allowance_intake)
    (mk_ElectrumConfig (re_endpoint electrum) (default default_electrum_poll_interval (re_poll_interval electrum))
      (default default_electrum_request_timeout (re_request_timeout electrum))
      (default default_electrum_connect_retries (re_connect_retries electrum)))
    usdt (OutboxConfig_from (raw_outbox raw))
    (LimitsConfig_from (default RawLimitsConfig_default (raw_limits raw)))
    (RateLimitsConfig_from (default RawRateLimitsConfig_default (raw_rate_limits raw)))
    (ShutdownConfig_from (default RawShutdownConfig_default (raw_shutdown raw)))
    database_url master_key (mk_DeploymentInvariants bitcoin_network client_id app_id) in
  validate_operational_values config;;
  Ok config.

(** ** What the components are built from *)

(** [SetupLimits] of [server.rs]; [usize] is 64 bits, so the conversions succeed. *)
Definition setup_limits (config : Config) : SetupLimits :=
  let rates := cf_rate_limits config in
  mk_SetupLimits (rc_max_completion_polls_per_flow rates) (rc_max_completion_polls rates) (rc_setup_per_ip_per_minute rates)
    (rc_creator_held_per_ip_per_minute rates) (rc_max_pending_setup_flows rates).

(** [SignedServiceAuth::with_clock_and_observer]; [None] is a failed [expect]. *)
Definition service_auth (config : Config) (now : Z) : option (SignedServiceAuth (VerifyingKey := VerifyingKey)) :=
  keys ← mapM verifying_key (cf_trusted_public_keys config);
  Some (mk_SignedServiceAuth keys (lc_request_body_bytes (cf_limits config))
    (TokenBucket_new (rc_signed_requests_per_second (cf_rate_limits config)) (rc_signed_burst (cf_rate_limits config)) now)).
End config.
