(* ===== verification/ConfigProps.v ===== *)
(** * ConfigProps: an accepted configuration fits every component ([config.rs])

    The checks are exact, and what they accept discharges the hypotheses on limits and keys of
    the theorems of [Limits], [Auth] and [Setup]. *)

From S2P Require Import Prelude Text Locks Adapter CreateInvoice Tally Limits Auth Setup SetupProps Intent Config.
Local Open Scope string_scope.
Local Open Scope Z_scope.

Lemma check_each_ok p error entries : check_each p error entries = Ok tt ↔ Forall (λ e, p e.2 = true) entries.
Proof.
  induction entries as [|[name value] entries IH]; simpl; [by split; [constructor|]|]. rewrite Forall_cons. simpl.
  destruct (p value); rewrite ?IH; naive_solver.
Qed.

(** The name in the error is that of the first entry that fails. *)
Lemma check_each_err p error entries e :
  check_each p error entries = Err e →
  ∃ before name value after, entries = (before ++ (name, value) :: after)%list ∧ Forall (λ e, p e.2 = true) before ∧ p value = false ∧ e = error name.
Proof.
  induction entries as [|[name value] entries IH]; simpl; [done|]. destruct (p value) eqn:E.
  - intros H. destruct (IH H) as (b & n & v & a & -> & Hb & Hv & ->). exists ((name, value) :: b), n, v, a. split_and!; try done. by constructor.
  - intros [= <-]. exists [], name, value, entries. by split_and!.
Qed.

(** ** The operational values *)

Section operational.
Context {PgConnectOptions : Type}.
Implicit Types config : Config (PgConnectOptions := PgConnectOptions).

Record windows_fit (paykit : PaykitConfig) : Prop := {
  wf_whole : subsec_nanos (pc_proposal_acceptance_window paykit) = 0 ∧ subsec_nanos (pc_payment_window paykit) = 0
    ∧ subsec_nanos (pc_conversion_payment_window paykit) = 0 ∧ subsec_nanos (pc_marketplace_prepare_ttl paykit) = 0;
  wf_positive : pc_proposal_acceptance_window paykit ≠ 0 ∧ pc_marketplace_prepare_ttl paykit ≠ 0;
  wf_ordered : pc_proposal_acceptance_window paykit < pc_payment_window paykit;
  wf_conversion : 2 <= as_secs (pc_conversion_payment_window paykit);
}.

Record operational config : Prop := {
  op_durations : ec_poll_interval (cf_electrum config) ≠ 0 ∧ ec_request_timeout (cf_electrum config) ≠ 0
    ∧ oc_poll_interval (cf_outbox config) ≠ 0 ∧ oc_rapid_link_retry_interval (cf_outbox config) ≠ 0
    ∧ lc_lock_fetch_timeout (cf_limits config) ≠ 0 ∧ sc_drain_timeout (cf_shutdown config) ≠ 0;
  op_counts : oc_batch_size (cf_outbox config) ≠ 0 ∧ oc_rapid_link_retry_attempts (cf_outbox config) ≠ 0
    ∧ lc_request_body_bytes (cf_limits config) ≠ 0 ∧ lc_lock_resource_bytes (cf_limits config) ≠ 0;
  op_rates : rc_signed_requests_per_second (cf_rate_limits config) ≠ 0 ∧ rc_signed_burst (cf_rate_limits config) ≠ 0
    ∧ rc_setup_per_ip_per_minute (cf_rate_limits config) ≠ 0 ∧ rc_creator_held_per_ip_per_minute (cf_rate_limits config) ≠ 0
    ∧ rc_max_pending_setup_flows (cf_rate_limits config) ≠ 0 ∧ rc_max_completion_polls_per_flow (cf_rate_limits config) ≠ 0
    ∧ rc_max_completion_polls (cf_rate_limits config) ≠ 0;
  op_persistence : SECOND <= oc_lease_duration (cf_outbox config) ∧ SECOND <= oc_retry_initial (cf_outbox config)
    ∧ oc_retry_initial (cf_outbox config) <= oc_retry_max (cf_outbox config);
  op_attempts : oc_rapid_link_retry_attempts (cf_outbox config) <= i32_max;
  op_windows : windows_fit (cf_paykit config);
  op_permits : rc_max_pending_setup_flows (cf_rate_limits config) <= MAX_PERMITS;
  op_hops : hc_trusted_proxy_hops (cf_http config) <= MAX_TRUSTED_PROXY_HOPS;
}.

Lemma invoice_windows_exact paykit : invoice_windows_ok paykit = true ↔ windows_fit paykit.
Proof.
  unfold invoice_windows_ok. rewrite negb_true_iff, !orb_false_iff, !negb_false_iff, !Z.eqb_eq, !Z.eqb_neq, Z.ltb_ge, Z.leb_gt.
  split; [intros (((((((? & ?) & ?) & ?) & ?) & ?) & ?) & ?); split; tauto|intros [(? & ? & ? & ?) [? ?] ? ?]; tauto].
Qed.

Lemma nonzero_iff value : nonzero value = true ↔ value ≠ 0.
Proof. unfold nonzero. by rewrite negb_true_iff, Z.eqb_neq. Qed.

Lemma validate_operational_exact config : validate_operational_values config = Ok tt ↔ operational config.
Proof.
  unfold validate_operational_values. cbv zeta. split.
  - intros H. apply bind_ok in H as ([] & H1%check_each_ok & H). apply bind_ok in H as ([] & H2%check_each_ok & H).
    apply bind_ok in H as ([] & H3%check_each_ok & H). apply bind_ok in H as ([] & H4%ensure_ok & H).
    apply bind_ok in H as ([] & H5%ensure_ok & H). apply bind_ok in H as ([] & H6%ensure_ok%invoice_windows_exact & H).
    apply bind_ok in H as ([] & H7%ensure_ok & H8%ensure_ok). rewrite !Forall_cons in H1. rewrite !Forall_cons in H2. rewrite !Forall_cons in H3.
    simpl in H1, H2, H3. rewrite !nonzero_iff in H1. rewrite !nonzero_iff in H2. rewrite !Z.leb_le in H3. split_bools. split; try done; tauto.
  - intros [H1 H2 H3 H4 H5 H6 H7 H8]. assert (∀ z, SECOND <= z → z ≠ 0) as Hs by (unfold SECOND; intros; lia).
    apply bind_ok. exists tt. split; [apply check_each_ok; rewrite !Forall_cons; simpl; rewrite !nonzero_iff; split_and!; try (apply Hs; lia); try tauto; constructor|].
    apply bind_ok. exists tt. split; [apply check_each_ok; rewrite !Forall_cons; simpl; rewrite !nonzero_iff; split_and!; try tauto; constructor|].
    apply bind_ok. exists tt. split; [apply check_each_ok; rewrite !Forall_cons; simpl; rewrite !Z.leb_le; split_and!; try lia; constructor|].
    apply bind_ok. exists tt. split; [apply ensure_ok; lia|]. apply bind_ok. exists tt. split; [apply ensure_ok; lia|].
    apply bind_ok. exists tt. split; [by apply ensure_ok, invoice_windows_exact|]. apply bind_ok. exists tt. split; apply ensure_ok; lia.
Qed.
End operational.

(** ** Origins and endpoints *)

Section urls.
Context (parse_url : string → option ParsedUrl).

(** A URL that names an HTTP origin and nothing more. *)
Record origin_url (u : ParsedUrl) : Prop := {
  ou_scheme : pu_scheme u = "http" ∨ pu_scheme u = "https";
  ou_base : pu_cannot_be_a_base u = false;
  ou_host : ∃ host, pu_host u = Some host ∧ count_bytes (Ascii.eqb "*") host = 0;
  ou_credentials : pu_username u = "" ∧ pu_password u = None;
  ou_rest : pu_path u = "/" ∧ pu_query u = None ∧ pu_fragment u = None;
}.

Lemma str_is_empty_true s : str_is_empty s = true ↔ s = "".
Proof. by destruct s. Qed.

Lemma is_none_true {A} (o : option A) : is_none o = true ↔ o = None.
Proof. by destruct o. Qed.

(** The validator accepts exactly these URLs. *)
Lemma validate_origin_exact value u :
  validate_origin parse_url value = Ok u ↔ parse_url value = Some u ∧ origin_url u.
Proof.
  unfold validate_origin, validate_url. split.
  - intros H. apply bind_ok in H as (p & Hp & H). apply bind_ok in H as ([] & He%ensure_ok & [= <-]).
    destruct (parse_url value) as [q|]; [|done]. simpl in Hp.
    destruct (negb (pu_cannot_be_a_base q || is_none (pu_host q))) eqn:Eb; simpl in Hp; [|done]. injection Hp as <-. split; [done|].
    rewrite negb_true_iff, orb_false_iff in Eb. destruct Eb as [Eb Eh].
    rewrite !andb_true_iff, orb_true_iff, !String.eqb_eq, str_is_empty_true, !is_none_true, Z.eqb_eq in He.
    destruct (pu_host q) as [host|] eqn:Ehost; [|done]. split; try tauto. exists host. tauto.
  - intros [-> [Hs Hb (host & Hh & Hw) [Hn Hp] (H1 & H2 & H3)]]. simpl. rewrite Hb, Hh. simpl.
    rewrite Hh, Hn, Hp, H1, H2, H3. simpl. rewrite Hw. destruct Hs as [-> | ->]; done.
Qed.

Lemma origins_ok values origins :
  validate_allowed_origins parse_url values = Ok origins →
  origins = ["*"] ∨ Forall (λ origin, origin ≠ "*" ∧ ∃ u, parse_url origin = Some u ∧ origin_url u) origins.
Proof.
  unfold validate_allowed_origins. destruct (existsb _ values) eqn:E.
  - intros H. apply bind_ok in H as ([] & _ & [= <-]). by left.
  - intros H%collect_ok_Forall2. right. assert (Forall (λ v, v ≠ "*") values) as Hne.
    { apply Forall_forall. intros v Hv ->. assert (existsb (λ value, String.eqb value "*") values = true); [|congruence].
      apply existsb_exists. exists "*". split; [by apply list_elem_of_In|done]. }
    clear E. induction H as [|v o values os Hv H IH]; [constructor|]. inversion Hne; subst. apply bind_ok in Hv as (p & Hp & [= <-]).
    constructor; [|by apply IH]. split; [done|]. exists p. by apply validate_origin_exact.
Qed.

(** An accepted origin that is not spelled as the parser serializes origins is never matched:
    a setup that returns to the configured URL itself is refused. *)
Theorem respelled_origin_refused origin u :
  validate_origin parse_url origin = Ok u → pu_origin u ≠ origin → origin ≠ "*" →
  validated_origin parse_url origin [origin] = None.
Proof.
  intros [Hp _]%validate_origin_exact Hne Hw. unfold validated_origin. case_match; [done|]. rewrite Hp. simpl. case_match; [done|].
  apply String.eqb_neq in Hw. rewrite Hw. simpl. destruct (String.eqb origin (pu_origin u)) eqn:E; [|done].
  apply String.eqb_eq in E. congruence.
Qed.

Context (server_name : string → bool).

(** A URL that names an Electrum server in the parser's own spelling; no TLS to an IPv6
    address or to a name TLS cannot check. *)
Record electrum_url (endpoint : string) (u : ParsedUrl) : Prop := {
  eu_text : pu_as_str u = endpoint;
  eu_host : ∃ host port, pu_host u = Some host ∧ pu_port u = Some port ∧ port ≠ 0
    ∧ (pu_scheme u = "tcp" ∨ pu_scheme u = "ssl" ∧ pu_host_ipv6 u = false ∧ server_name host = true);
  eu_credentials : pu_username u = "" ∧ pu_password u = None;
  eu_rest : pu_path u = "" ∧ pu_query u = None ∧ pu_fragment u = None;
}.

Lemma validate_electrum_exact value :
  validate_electrum_endpoint parse_url server_name value = Ok tt ↔ ∃ u, parse_url value = Some u ∧ electrum_url value u.
Proof.
  unfold validate_electrum_endpoint. split.
  - intros H. apply bind_ok in H as (u & Hu%ok_or_ok & H). apply bind_ok in H as ([] & He%ensure_ok & Hn%ensure_ok).
    exists u. split; [done|]. rewrite !andb_true_iff, orb_true_iff, !String.eqb_eq, !str_is_empty_true, !is_none_true, !negb_true_iff in He.
    rewrite negb_true_iff in Hn. destruct He as (((((((((Hs & Hh) & Hp) & H1) & H2) & H3) & H4) & H5) & H6) & H7).
    split; [done| |done|done]. destruct (pu_host u) as [host|]; [|done]. destruct (pu_port u) as [port|]; [|done].
    exists host, port. split_and!; [done|done|by rewrite negb_true_iff, Z.eqb_neq in Hp|]. simpl in Hn.
    destruct Hs as [Hs|Hs]; [by left|right]. rewrite Hs in H7, Hn. simpl in H7, Hn. rewrite negb_false_iff in Hn. done.
  - intros (u & -> & [Ht (host & port & Hh & Hp & Hz & Hs) [H1 H2] (H3 & H4 & H5)]). simpl.
    apply Z.eqb_neq in Hz. rewrite Hh, Hp, H1, H2, H3, H4, H5, Ht, Hz, String.eqb_refl. simpl.
    destruct Hs as [->|(-> & -> & ->)]; done.
Qed.
End urls.

(** ** The whole configuration *)

(** The widths of the fields' types. *)
Definition in_width (hi : Z) (value : option Z) : Prop := ∀ v, value = Some v → 0 <= v <= hi.

Record raw_typed (raw : RawConfig) : Prop := {
  rt_rates : ∀ r, raw_rate_limits raw = Some r →
    in_width u64_max (rr_signed_requests_per_second r) ∧ in_width u64_max (rr_signed_burst r)
    ∧ in_width u64_max (rr_setup_per_ip_per_minute r) ∧ in_width u64_max (rr_creator_held_per_ip_per_minute r)
    ∧ in_width u64_max (rr_max_pending_setup_flows r) ∧ in_width u64_max (rr_max_completion_polls_per_flow r)
    ∧ in_width u64_max (rr_max_completion_polls r);
  rt_hops : in_width u8_max (rh_trusted_proxy_hops (raw_http raw));
}.

Section sound.
Context {b64 : UrlSafeBase64} (parse_url : string → option ParsedUrl).
Context {PgConnectOptions : Type} (pg_options : string → option PgConnectOptions) (server_name : string → bool)
  (app_id_valid client_id_valid : string → bool).
Context {PublicKey VerifyingKey : Type} (public_key : string → option PublicKey) (public_key_text public_key_bytes : PublicKey → string)
  (verifying_key : string → option VerifyingKey) (is_weak : VerifyingKey → bool).
Context {Value : Type} (toml_parse : string → option Value) (has_legacy_key : Value → bool) (try_into : Value → option RawConfig).
Context (test_utils : bool).
Notation parse_config := (from_toml_and_environment parse_url pg_options server_name app_id_valid client_id_valid public_key
  public_key_text public_key_bytes verifying_key is_weak toml_parse has_legacy_key try_into test_utils).
Notation parse_key := (TrustedServicePublicKey_parse public_key public_key_text public_key_bytes verifying_key is_weak).

(** What the components rely on. *)
Record configuration_fits (config : Config (PgConnectOptions := PgConnectOptions)) : Prop := {
  fit_operational : operational config;
  fit_setup : limits_ok (setup_limits config);
  fit_rates : 1 <= setup_per_ip_per_minute (setup_limits config) ∧ 1 <= creator_held_per_ip_per_minute (setup_limits config);
  fit_auth : ∀ now, ∃ auth, service_auth verifying_key config now = Some auth ∧ sa_trusted_keys auth ≠ []
    ∧ Forall (λ key, is_weak key = false) (sa_trusted_keys auth) ∧ bucket_wf (sa_limiter auth) ∧ 1 <= tb_burst (sa_limiter auth);
  fit_keys : NoDup (cf_trusted_public_keys config);
  fit_hops : 0 <= hc_trusted_proxy_hops (cf_http config) <= MAX_TRUSTED_PROXY_HOPS;
  fit_origins : sc_allowed_origins (cf_setup config) = ["*"]
    ∨ Forall (λ origin, origin ≠ "*" ∧ ∃ u, parse_url origin = Some u ∧ origin_url u) (sc_allowed_origins (cf_setup config));
  fit_electrum : ∃ u, parse_url (ec_endpoint (cf_electrum config)) = Some u ∧ electrum_url server_name (ec_endpoint (cf_electrum config)) u;
  fit_identity : pc_app_id (cf_paykit config) = PAYKIT_APP_ID ∧ pc_client_id (cf_paykit config) = PAYKIT_CLIENT_ID
    ∧ di_app_id (cf_deployment_invariants config) = PAYKIT_APP_ID ∧ di_paykit_client_id (cf_deployment_invariants config) = PAYKIT_CLIENT_ID;
  fit_master_key : str_len (cf_master_key config) = 32;
  fit_intake : pc_allowance_intake (cf_paykit config) = true → test_utils = true;
}.

Lemma parse_key_ok value bytes :
  parse_key value = Ok bytes → ∃ key v, public_key value = Some key ∧ public_key_text key = value ∧ bytes = public_key_bytes key
    ∧ verifying_key bytes = Some v ∧ is_weak v = false.
Proof.
  unfold TrustedServicePublicKey_parse. intros H. apply bind_ok in H as (key & Hk%ok_or_ok & H).
  apply bind_ok in H as ([] & Ht%ensure_ok & H). cbv zeta in H. apply bind_ok in H as (v & Hv%ok_or_ok & H).
  apply bind_ok in H as ([] & Hw%ensure_ok & [= <-]). split_bools. naive_solver.
Qed.

Lemma parse_keys_ok raw keys :
  SignedServicesConfig_parse public_key public_key_text public_key_bytes verifying_key is_weak raw = Ok keys →
  NoDup keys ∧ ∃ vs, mapM verifying_key keys = Some vs ∧ vs ≠ [] ∧ Forall (λ v, is_weak v = false) vs.
Proof.
  unfold SignedServicesConfig_parse. intros H. apply bind_ok in H as ([] & He%ensure_ok & H).
  apply bind_ok in H as (ks & Hc%collect_ok_Forall2 & H). apply bind_ok in H as ([] & Hn%ensure_ok & [= <-]). apply bool_decide_eq_true in Hn.
  split; [done|]. assert (∃ vs, mapM verifying_key ks = Some vs ∧ Forall (λ v, is_weak v = false) vs ∧ length vs = length ks) as (vs & H1 & H2 & H3).
  { clear He Hn. induction Hc as [|value bytes values ks Hk _ (vs & IH1 & IH2 & IH3)]; [by exists []|].
    apply parse_key_ok in Hk as (key & v & _ & _ & _ & Hv & Hw). exists (v :: vs). simpl. rewrite Hv. simpl. rewrite IH1. simpl.
    split_and!; [done|by constructor|lia]. }
  exists vs. split_and!; [done| |done]. intros ->. simpl in H3. apply Forall2_length in Hc. rewrite Hc in He.
  by destruct ks.
Qed.

Lemma in_width_default hi d o : 0 <= d <= hi → in_width hi o → 0 <= default d o <= hi.
Proof. intros Hd Ho. destruct o as [v|]; [by apply Ho|done]. Qed.

Lemma rates_typed raw :
  raw_typed raw → let r := RateLimitsConfig_from (default RawRateLimitsConfig_default (raw_rate_limits raw)) in
  0 <= rc_signed_requests_per_second r ∧ 0 <= rc_signed_burst r <= u64_max ∧ 0 <= rc_setup_per_ip_per_minute r
  ∧ 0 <= rc_creator_held_per_ip_per_minute r ∧ 0 <= rc_max_pending_setup_flows r ∧ 0 <= rc_max_completion_polls_per_flow r
  ∧ 0 <= rc_max_completion_polls r.
Proof.
  intros [Hr _] r. destruct (raw_rate_limits raw) as [rr|]; [|by vm_compute].
  destruct (Hr rr eq_refl) as (H1 & H2 & H3 & H4 & H5 & H6 & H7). unfold r, RateLimitsConfig_from. simpl.
  split_and!; first [eapply in_width_default; [|eassumption]; by vm_compute].
Qed.

(** C31: an accepted configuration fits the components.  Whatever the text and the environment
    hold, the server starts only with: windows in whole seconds, the acceptance window shorter
    than the payment window; leases and retries of at least a second, in order; positive
    rates and limits, so that the bounds proved of the setup flows and of both limiters apply
    to it; at least one trusted key, all distinct, none weak; a proxy count that cannot reach
    into what clients write; the wildcard origin alone, or only http and https URLs with a
    host that is no pattern and nothing but the root path; an Electrum server with its port,
    in the parser's spelling; the server's own identifiers; and a 32-byte master key. *)
Theorem configuration_sound toml_source environment config :
  (∀ value raw, try_into value = Some raw → raw_typed raw) →
  parse_config toml_source environment = Ok config → configuration_fits config.
Proof.
  intros Htyped H. unfold from_toml_and_environment in H.
  apply bind_ok in H as (value & _ & H). apply bind_ok in H as ([] & _ & H). apply bind_ok in H as (raw & Hraw%ok_or_ok & H).
  apply bind_ok in H as (db & _ & H). apply bind_ok in H as (mk & Hmk & H). apply bind_ok in H as (keys & Hkeys & H). cbv zeta in H.
  apply bind_ok in H as ([] & _ & H). apply bind_ok in H as ([] & Happ%ensure_ok & H). apply bind_ok in H as (client & _ & H).
  apply bind_ok in H as ([] & _ & H). apply bind_ok in H as ([] & Hclient%ensure_ok & H). apply bind_ok in H as ([] & Hintake%ensure_ok & H).
  apply bind_ok in H as (network & _ & H). apply bind_ok in H as (listen & _ & H). apply bind_ok in H as ([] & Helectrum & H).
  apply bind_ok in H as (origins & Horigins & H). apply bind_ok in H as (pnet & _ & H). apply bind_ok in H as (usdt & _ & H).
  apply bind_ok in H as ([] & Hop%validate_operational_exact & H). injection H as <-. split_bools.
  specialize (Htyped _ _ Hraw). pose proof (rates_typed raw Htyped) as (T1 & T2 & T3 & T4 & T5 & T6 & T7). cbv zeta in T1, T2, T3, T4, T5, T6, T7.
  destruct (parse_keys_ok _ _ Hkeys) as [Hnd (vs & Hvs & Hne & Hweak)].
  pose proof (op_rates _ Hop) as (R1 & R2 & R3 & R4 & R5 & R6 & R7). simpl in R1, R2, R3, R4, R5, R6, R7. simpl in T1, T2, T3, T4, T5, T6, T7.
  split; simpl; try done; [| | | |by apply validate_electrum_exact| |].
  - split; simpl; lia.
  - intros now. unfold service_auth. simpl. rewrite Hvs. simpl. eexists. split_and!; [reflexivity|done|done| |simpl; lia].
    split; simpl; lia.
  - split; [|apply (op_hops _ Hop)]. destruct Htyped as [_ Hh]. destruct (rh_trusted_proxy_hops (raw_http raw)) as [h|] eqn:Eh; simpl; [|lia].
    by apply (Hh h).
  - by eapply origins_ok.
  - unfold MasterKey_parse in Hmk. apply bind_ok in Hmk as (v & _ & Hmk). apply bind_ok in Hmk as (bytes & _ & Hmk).
    apply bind_ok in Hmk as ([] & Hlen%ensure_ok & [= <-]). by apply Z.eqb_eq.
  - intros Hi. by rewrite Hi in Hintake; destruct test_utils.
Qed.
End sound.

Lemma network_round_trip network : BitcoinNetwork_parse (BitcoinNetwork_as_str network) = Ok network.
Proof. by destruct network. Qed.

(** ** Witness *)

Definition example_url (value : string) : option ParsedUrl :=
  if String.eqb value "postgres://db" then Some (mk_ParsedUrl value "postgres" false "" None (Some "db") false None "" None [("sslmode", "require"); ("options[a]", "b")] None "null")
  else if String.eqb value "tcp://electrum:1" then Some (mk_ParsedUrl value "tcp" false "" None (Some "electrum") false (Some 1) "" None [] None "null")
  else if String.eqb value "https://a.example" then Some (mk_ParsedUrl value "https" false "" None (Some "a.example") false None "/" None [] None value)
  else None.

Definition example_raw : RawConfig := mk_RawConfig
  (mk_RawHttpConfig "127.0.0.1:8080" (Some 1)) (mk_RawSignedServicesConfig ["key1"; "key2"]) (mk_RawSetupConfig ["https://a.example"] None)
  (mk_RawPaykitConfig (Some PAYKIT_CLIENT_ID) PAYKIT_APP_ID "testnet" None None None None None) (mk_RawBitcoinConfig "regtest")
  (mk_RawElectrumConfig "tcp://electrum:1" None None None) None (mk_RawOutboxConfig (2 * SECOND) None None None None None None)
  None (Some (mk_RawRateLimitsConfig None None (Some 3) None (Some 2) None None)) None.

Lemma example_raw_typed : raw_typed example_raw.
Proof.
  split.
  - intros r [= <-]. simpl. split_and!; intros v Hv; try done; injection Hv as <-; by vm_compute.
  - intros v [= <-]. by vm_compute.
Qed.

Definition example_try_into (value : string) : option RawConfig := if String.eqb value "toml" then Some example_raw else None.

Definition example_config : result ConfigError (Config (PgConnectOptions := string)) :=
  from_toml_and_environment (b64 := {| base64_encode := λ s, s; base64_decode := Some |}) example_url Some (λ _, true) (λ _, true) (λ _, true)
    Some id id Some (String.eqb "weak") Some (λ _, false) example_try_into false
    "toml" (mk_ConfigEnvironment (Some "postgres://db") (Some (repeat_char "k" 32))).

Lemma configuration_sound_witness : match example_config with
  | Ok config => configuration_fits example_url (λ _, true) Some (String.eqb "weak") false config
  | Err _ => False
  end.
Proof.
  destruct example_config as [config|e] eqn:E; [|by vm_compute in E].
  apply (configuration_sound (b64 := {| base64_encode := λ s, s; base64_decode := Some |}) example_url Some (λ _, true) (λ _, true) (λ _, true)
    Some id id Some (String.eqb "weak") Some (λ _, false) example_try_into false
    "toml" (mk_ConfigEnvironment (Some "postgres://db") (Some (repeat_char "k" 32))) config); [|exact E].
  intros value raw. unfold example_try_into. case_match; [|done]. intros [= <-]. apply example_raw_typed.
Defined.

(** A trailing slash is such a spelling. *)
Definition slash_url (value : string) : option ParsedUrl :=
  Some (mk_ParsedUrl value "https" false "" None (Some "a.example") false None "/" None [] None "https://a.example").

Lemma respelled_origin_refused_witness :
  is_ok (validate_allowed_origins slash_url ["https://a.example/"]) = true
  ∧ validated_origin slash_url "https://a.example/" ["https://a.example/"] = None.
Proof.
  split; [vm_compute; reflexivity|].
  apply (respelled_origin_refused slash_url "https://a.example/"
    (mk_ParsedUrl "https://a.example/" "https" false "" None (Some "a.example") false None "/" None [] None "https://a.example"));
    [vm_compute; reflexivity|discriminate..].
Defined.
