(* ===== verification/BitkitClaim.v ===== *)
(** * BitkitClaim: the companion claim of the wallet ([bitkit_claim.rs])

    A Creator's wallet answers an authorization URL with an encrypted, signed payload: the
    permissions it was asked for, in the order it was asked, with the delegated key and the
    receiving details.  The signature covers the permission list and the secret of the
    request, so an answer cannot be replayed to another.

    The ciphers, hashes and signatures, the URL parsers, the SDK's key type and the JSON and
    xpub codecs are parameters. *)

From S2P Require Import Prelude Text Receiving Crypto Adapter Creators Limits Auth Setup SetupRoutes.
Local Open Scope string_scope.
Local Open Scope Z_scope.

Definition PAYKIT_ACCESS_CLAIM : string := "paykit-access-v1".
Definition WATCH_ONLY_ACCOUNT_CLAIM : string := "watch-only-account-v1".
Definition USDT_ADDRESS_CLAIM : string := "usdt-address-v1".
Definition UNSIGNED_PAYLOAD_LEN : Z := 124.
Definition RECONNECT_PAYLOAD_LEN : Z := 41.
Definition CLAIM_NONCE_LEN : Z := 24.
Definition MAX_PAYLOAD_LEN : Z := 2048.

Inductive ClaimError :=
  | InvalidAuthRequest | InvalidPayload | InvalidEnvelope | ClaimAuthenticationFailed | ClaimTransientUnavailable.

Record AuthRequest := mk_AuthRequest {
  ar_relay : ParsedUrl;
  ar_secret : string;
  ar_claim_type : string;
  ar_reconnect : bool;
}.

Record ClaimBitcoinAccount := mk_ClaimBitcoinAccount {
  cb_account_index : Z;
  cb_serialized_xpub : string;
}.

Record SetupCompanionClaim {keys : IdentityKeys} := mk_SetupCompanionClaim {
  sc_bitcoin_account : option ClaimBitcoinAccount;
  sc_paykit_identity_secret_key : IdentityKey;
  sc_usdt_address : option UsdtAddress;
}.

Definition setup_claim_selection : string := PAYKIT_ACCESS_CLAIM ++ "." ++ WATCH_ONLY_ACCOUNT_CLAIM.

(** ** Permission lists *)

(** The three flags of the loop over the items. *)
Record Selection := mk_Selection { se_paykit : bool; se_watch_only : bool; se_usdt : bool }.

Definition select (s : Selection) (item : string) : option Selection :=
  let '(mk_Selection paykit watch_only usdt) := s in
  if String.eqb item PAYKIT_ACCESS_CLAIM && negb paykit then Some (mk_Selection true watch_only usdt)
  else if String.eqb item WATCH_ONLY_ACCOUNT_CLAIM && negb watch_only then Some (mk_Selection paykit true usdt)
  else if String.eqb item USDT_ADDRESS_CLAIM && negb usdt then Some (mk_Selection paykit watch_only true)
  else None.

Fixpoint select_all (s : Selection) (items : list string) : option Selection :=
  match items with
  | [] => Some s
  | item :: items => s ← select s item; select_all s items
  end.

Definition selection_of (value : string) : result ClaimError Selection :=
  ok_or (select_all (mk_Selection false false false) (split_char "." value)) InvalidAuthRequest.

Definition validate_reconnect_claim_selection (value : string) : result ClaimError unit :=
  s ← selection_of value;
  ensure (se_paykit s) InvalidAuthRequest.

Definition validate_setup_claim_selection (value : string) : result ClaimError unit :=
  s ← selection_of value;
  ensure (se_paykit s && (se_watch_only s || se_usdt s)) InvalidAuthRequest.

(** ** Authorization requests *)

(** The loop of [unique_query]: a second value is an error. *)
Fixpoint unique_value (name : string) (found : option string) (pairs : list (string * string)) : result ClaimError (option string) :=
  match pairs with
  | [] => Ok found
  | (key, value) :: pairs =>
      if String.eqb key name then
        match found with
        | Some _ => Err InvalidAuthRequest
        | None => unique_value name (Some value) pairs
        end
      else unique_value name found pairs
  end.

Definition unique_query (url : ParsedUrl) (name : string) : result ClaimError string :=
  found ← unique_value name None (pu_query_pairs url);
  match found with
  | Some value => ensure (negb (str_is_empty value)) InvalidAuthRequest;; Ok value
  | None => Err InvalidAuthRequest
  end.

Section claims.
Context {b64 : UrlSafeBase64} {keys : IdentityKeys} (parse_url : string → option ParsedUrl).
(** [paykit_sdk::parse_pubky_auth_url]: the capabilities it read *)
Context (auth_capabilities : string → option string).
(** [XSalsa20Poly1305::decrypt] by key and nonce, [VerifyingKey::verify], [Sha256::digest], [blake3] *)
Context (secretbox_open : string → string → string → option string).
Context {VerifyingKey : Type} (verify : VerifyingKey → string → string → bool) (sha256 blake3 : string → string).
(** [serde_json] for the payload and [bip32::Xpub::from_str] with [encode] *)
Record ClaimAccount := mk_ClaimAccount { ca_account_index : Z; ca_address_type : string; ca_xpub : string }.
Record ClaimEndpoint := mk_ClaimEndpoint { ce_value : string; ce_chain_id : string; ce_token : string }.
Record ClaimPayload := mk_ClaimPayload {
  cp_key_generation : Z;
  cp_secret : string;
  cp_bitcoin_account : option ClaimAccount;
  cp_usdt : option ClaimEndpoint;
}.
Context (parse_payload : string → option ClaimPayload) (xpub_encode : string → option string).

Definition parse_request (value expected_capabilities : string) (reconnect : bool) : result ClaimError AuthRequest :=
  url ← ok_or (parse_url value) InvalidAuthRequest;
  ensure (String.eqb (pu_scheme url) "pubkyauth") InvalidAuthRequest;;
  capabilities ← ok_or (auth_capabilities value) InvalidAuthRequest;
  claim_type ← unique_query url QUERY_PARAMETER;
  (if reconnect then validate_reconnect_claim_selection claim_type else validate_setup_claim_selection claim_type);;
  caps ← unique_query url "caps";
  ensure (String.eqb caps expected_capabilities && String.eqb capabilities expected_capabilities) InvalidAuthRequest;;
  secret_text ← unique_query url "secret";
  secret ← ok_or (base64_decode secret_text) InvalidAuthRequest;
  ensure (str_len secret =? 32) InvalidAuthRequest;;
  relay_text ← unique_query url "relay";
  relay ← ok_or (parse_url relay_text) InvalidAuthRequest;
  ensure ((String.eqb (pu_scheme relay) "http" || String.eqb (pu_scheme relay) "https")
    && negb (is_none (pu_host relay)) && negb (pu_cannot_be_a_base relay)) InvalidAuthRequest;;
  Ok (mk_AuthRequest relay secret claim_type reconnect).

Definition parse_auth_request (value expected_capabilities : string) : result ClaimError AuthRequest :=
  parse_request value expected_capabilities false.

Definition parse_reconnect_auth_request (value expected_capabilities : string) : result ClaimError AuthRequest :=
  parse_request value expected_capabilities true.

Definition derive_channel_id (request : AuthRequest) : string :=
  base64_encode (blake3 (ar_claim_type request ++ "|" ++ ar_secret request)).

(** ** Payloads *)

(** [value[from..from + len]] *)
Definition slice (from len : nat) (value : string) : string := str_take len (str_drop from value).

Definition byte_at (n : nat) (value : string) : Z :=
  match str_drop n value with String c _ => byte c | EmptyString => -1 end.

Definition encode_unsigned_payload (account_index : Z) (serialized_xpub : string) (key : IdentityKey) : string :=
  be_bytes 1 1 ++ be_bytes 4 account_index ++ be_bytes 1 0 ++ serialized_xpub ++ be_bytes 8 (key_generation key) ++ identity_key_bytes key.

Definition parse_unsigned_payload (value : string) : result ClaimError SetupCompanionClaim :=
  ensure ((str_len value =? UNSIGNED_PAYLOAD_LEN) && (byte_at 0 value =? 1) && (byte_at 5 value =? 0)) InvalidPayload;;
  let account_index := be_value 0 (slice 1 4 value) in
  ensure (account_index <? 2 ^ 31) InvalidPayload;;
  let generation := be_value 0 (slice 84 8 value) in
  key ← ok_or (identity_key_new (str_drop 92 value) generation) InvalidPayload;
  Ok (mk_SetupCompanionClaim keys (Some (mk_ClaimBitcoinAccount account_index (slice 6 78 value))) key None).

Definition parse_reconnect_payload (payload : string) : result ClaimError IdentityKey :=
  ensure ((str_len payload =? RECONNECT_PAYLOAD_LEN) && (byte_at 0 payload =? 1)) InvalidPayload;;
  ok_or (identity_key_new (str_drop 9 payload) (be_value 0 (slice 1 8 payload))) InvalidPayload.

Definition has_claim (request : AuthRequest) (item : string) : bool :=
  existsb (λ i, String.eqb i item) (split_char "." (ar_claim_type request)).

Definition claim_account (account : ClaimAccount) : result ClaimError ClaimBitcoinAccount :=
  ensure (String.eqb (ca_address_type account) "nativeSegwit" && (ca_account_index account <? 2 ^ 31)) InvalidPayload;;
  xpub ← ok_or (xpub_encode (ca_xpub account)) InvalidPayload;
  Ok (mk_ClaimBitcoinAccount (ca_account_index account) xpub).

Definition claim_usdt (endpoint : ClaimEndpoint) : result ClaimError UsdtAddress :=
  ensure (String.eqb (ce_chain_id endpoint) USDT_CHAIN_ID
    && String.eqb (to_ascii_lowercase (ce_token endpoint)) (to_ascii_lowercase USDT_TOKEN)) InvalidPayload;;
  match usdt_try_from (ce_value endpoint) with Ok a => Ok a | Err _ => Err InvalidPayload end.

Definition parse_receiving_payload (value : string) (request : AuthRequest) (allow_omitted_bitcoin : bool) :
    result ClaimError SetupCompanionClaim :=
  payload ← ok_or (parse_payload value) InvalidPayload;
  let includes_bitcoin := has_claim request WATCH_ONLY_ACCOUNT_CLAIM in
  let given := negb (is_none (cp_bitcoin_account payload)) in
  ensure (negb ((negb allow_omitted_bitcoin && negb (Bool.eqb given includes_bitcoin)) || (given && negb includes_bitcoin))) InvalidPayload;;
  bitcoin_account ← match cp_bitcoin_account payload with Some account => Some <$> claim_account account | None => Ok None end;
  usdt_address ← match cp_usdt payload with Some endpoint => Some <$> claim_usdt endpoint | None => Ok None end;
  secret ← ok_or (base64_decode (cp_secret payload)) InvalidPayload;
  ensure (str_len secret =? 32) InvalidPayload;;
  key ← ok_or (identity_key_new secret (cp_key_generation payload)) InvalidPayload;
  Ok (mk_SetupCompanionClaim keys bitcoin_account key usdt_address).

(** ** Envelopes *)

(** What the wallet signs. *)
Definition signable (request : AuthRequest) (unsigned : string) : string :=
  QUERY_PARAMETER ++ "|" ++ ar_claim_type request ++ "|" ++ sha256 (ar_secret request) ++ unsigned.

Definition verify_envelope (relay_body : string) (request : AuthRequest) (creator : VerifyingKey) : result ClaimError string :=
  ensure ((CLAIM_NONCE_LEN + 16 + 64 <=? str_len relay_body)
    && (str_len relay_body <=? CLAIM_NONCE_LEN + 16 + MAX_PAYLOAD_LEN + 64)) InvalidEnvelope;;
  plaintext ← ok_or (secretbox_open (ar_secret request) (str_take 24 relay_body) (str_drop 24 relay_body)) ClaimAuthenticationFailed;
  ensure (64 <=? str_len plaintext) InvalidEnvelope;;
  let unsigned_len := (String.length plaintext - 64)%nat in
  let unsigned := str_take unsigned_len plaintext in
  ensure (verify creator (signable request unsigned) (str_drop unsigned_len plaintext)) ClaimAuthenticationFailed;;
  Ok unsigned.

Definition decrypt_and_verify (relay_body : string) (request : AuthRequest) (creator : VerifyingKey) :
    result ClaimError SetupCompanionClaim :=
  validate_setup_claim_selection (ar_claim_type request);;
  plaintext ← verify_envelope relay_body request creator;
  if has_claim request USDT_ADDRESS_CLAIM then parse_receiving_payload plaintext request (ar_reconnect request)
  else if ar_reconnect request && (str_len plaintext =? RECONNECT_PAYLOAD_LEN) then
    key ← parse_reconnect_payload plaintext;
    Ok (mk_SetupCompanionClaim keys None key None)
  else parse_unsigned_payload plaintext.

Definition decrypt_and_verify_reconnect (relay_body : string) (request : AuthRequest) (creator : VerifyingKey) :
    result ClaimError IdentityKey :=
  ensure (String.eqb (ar_claim_type request) PAYKIT_ACCESS_CLAIM) InvalidAuthRequest;;
  payload ← verify_envelope relay_body request creator;
  parse_reconnect_payload payload.
End claims.

(** ** Permission lists are read exactly *)

Definition KNOWN_CLAIMS : list string := [PAYKIT_ACCESS_CLAIM; WATCH_ONLY_ACCOUNT_CLAIM; USDT_ADDRESS_CLAIM].

Definition asked (s : Selection) (item : string) : bool :=
  (String.eqb item PAYKIT_ACCESS_CLAIM && se_paykit s) || (String.eqb item WATCH_ONLY_ACCOUNT_CLAIM && se_watch_only s)
  || (String.eqb item USDT_ADDRESS_CLAIM && se_usdt s).

Definition selected (items : list string) (item : string) : bool := existsb (λ i, String.eqb i item) items.

Definition select_more (s : Selection) (items : list string) : Selection :=
  mk_Selection (se_paykit s || selected items PAYKIT_ACCESS_CLAIM) (se_watch_only s || selected items WATCH_ONLY_ACCOUNT_CLAIM)
    (se_usdt s || selected items USDT_ADDRESS_CLAIM).

Lemma select_known s item :
  select s item = if bool_decide (item ∈ KNOWN_CLAIMS) && negb (asked s item) then Some (select_more s [item]) else None.
Proof.
  unfold select, asked, select_more, selected, KNOWN_CLAIMS. destruct s as [p w u]. simpl.
  destruct (String.eqb item PAYKIT_ACCESS_CLAIM) eqn:E1; [apply String.eqb_eq in E1 as ->; by destruct p, w, u|].
  destruct (String.eqb item WATCH_ONLY_ACCOUNT_CLAIM) eqn:E2; [apply String.eqb_eq in E2 as ->; by destruct p, w, u|].
  destruct (String.eqb item USDT_ADDRESS_CLAIM) eqn:E3; [apply String.eqb_eq in E3 as ->; by destruct p, w, u|].
  apply String.eqb_neq in E1, E2, E3. rewrite bool_decide_false; [done|]. rewrite !elem_of_cons, elem_of_nil. naive_solver.
Qed.

Lemma asked_more s i item : item ∈ KNOWN_CLAIMS → asked (select_more s [i]) item = asked s item || String.eqb i item.
Proof.
  unfold KNOWN_CLAIMS. rewrite !elem_of_cons, elem_of_nil. unfold asked, select_more, selected. simpl. rewrite !orb_false_r.
  intros [->|[->|[->|[]]]]; simpl; by rewrite ?orb_false_r.
Qed.

Lemma select_all_exact items s s' :
  select_all s items = Some s' ↔
  NoDup items ∧ Forall (λ i, i ∈ KNOWN_CLAIMS ∧ asked s i = false) items ∧ s' = select_more s items.
Proof.
  revert s. induction items as [|i items IH]; intros s; simpl.
  - unfold select_more, selected. simpl. rewrite !orb_false_r. destruct s. split; [intros [= <-]; split_and!; constructor|]. by intros (_ & _ & ->).
  - rewrite select_known, NoDup_cons, Forall_cons. destruct (bool_decide_reflect (i ∈ KNOWN_CLAIMS)) as [Hk|Hk]; simpl; [|naive_solver].
    destruct (asked s i) eqn:Ea; simpl; [naive_solver|]. rewrite IH.
    assert (select_more (select_more s [i]) items = select_more s (i :: items)) as ->.
    { unfold select_more, selected. simpl. by rewrite !orb_false_r, !orb_assoc. }
    assert (Forall (λ j, j ∈ KNOWN_CLAIMS ∧ asked (select_more s [i]) j = false) items
      ↔ i ∉ items ∧ Forall (λ j, j ∈ KNOWN_CLAIMS ∧ asked s j = false) items) as ->; [|naive_solver].
    rewrite !Forall_forall. split.
    + intros H. split.
      * intros Hin. destruct (H i Hin) as [_ E]. rewrite asked_more, String.eqb_refl, orb_true_r in E by done. done.
      * intros j Hj. destruct (H j Hj) as [Hjk E]. rewrite asked_more in E by done. by apply orb_false_iff in E as [? _].
    + intros [Hni H] j Hj. destruct (H j Hj) as [Hjk E]. split; [done|]. rewrite asked_more, E by done. simpl.
      apply String.eqb_neq. by intros ->.
Qed.

Lemma selected_elem items item : selected items item = true ↔ item ∈ items.
Proof.
  unfold selected. rewrite existsb_exists. setoid_rewrite String.eqb_eq. setoid_rewrite <- list_elem_of_In. naive_solver.
Qed.

Lemma selection_of_exact value s :
  selection_of value = Ok s ↔ NoDup (split_char "." value) ∧ Forall (λ i, i ∈ KNOWN_CLAIMS) (split_char "." value)
    ∧ s = select_more (mk_Selection false false false) (split_char "." value).
Proof.
  unfold selection_of. rewrite ok_or_ok, select_all_exact.
  assert (Forall (λ i, i ∈ KNOWN_CLAIMS ∧ asked (mk_Selection false false false) i = false) (split_char "." value)
    ↔ Forall (λ i, i ∈ KNOWN_CLAIMS) (split_char "." value)) as ->; [|done].
  apply Forall_proper; [|done]. intros i. unfold asked. simpl. rewrite !andb_false_r. naive_solver.
Qed.

(** A setup asks for Paykit access and for at least one receiving detail, each permission at
    most once, in any order, and nothing else. *)
Lemma setup_selection_exact value :
  validate_setup_claim_selection value = Ok tt ↔
  let items := split_char "." value in
  NoDup items ∧ Forall (λ i, i ∈ KNOWN_CLAIMS) items ∧ PAYKIT_ACCESS_CLAIM ∈ items
  ∧ (WATCH_ONLY_ACCOUNT_CLAIM ∈ items ∨ USDT_ADDRESS_CLAIM ∈ items).
Proof.
  unfold validate_setup_claim_selection. rewrite bind_ok. setoid_rewrite selection_of_exact. setoid_rewrite ensure_ok. cbv zeta.
  split.
  - intros (s & (H1 & H2 & ->) & H). simpl in H. rewrite andb_true_iff, orb_true_iff, !selected_elem in H. naive_solver.
  - intros (H1 & H2 & H3 & H4). eexists. split; [by split_and!|]. simpl. rewrite andb_true_iff, orb_true_iff, !selected_elem. naive_solver.
Qed.

(** ** Payloads round-trip *)

Lemma be_value_app acc s t : be_value acc (s ++ t) = be_value (be_value acc s) t.
Proof. revert acc. induction s as [|c s IH]; intros acc; simpl; [done|apply IH]. Qed.

Lemma be_value_bytes w n acc : 0 <= n → be_value acc (be_bytes w n) = acc * 256 ^ Z.of_nat w + n mod 256 ^ Z.of_nat w.
Proof.
  revert acc. induction w as [|w IH]; intros acc Hn; [simpl; rewrite Z.mod_1_r; lia|].
  cbn [be_bytes be_value]. rewrite IH by done. unfold byte_char.
  assert (0 < 256 ^ Z.of_nat w) by (apply Z.pow_pos_nonneg; lia).
  rewrite N_ascii_embedding by (pose proof (Z.mod_pos_bound (n / 256 ^ Z.of_nat w) 256); lia).
  rewrite Z2N.id by (apply Z.mod_pos_bound; lia).
  rewrite Nat2Z.inj_succ, Z.pow_succ_r, (Z.mul_comm 256), (Z.rem_mul_r n) by lia. lia.
Qed.

Lemma slice_app a b c n m : String.length a = n → String.length b = m → slice n m (a ++ b ++ c) = b.
Proof. intros Ha Hb. unfold slice. rewrite str_drop_app by done. by apply str_take_app. Qed.

Section roundtrip.
Context {keys : IdentityKeys} {laws : IdentityKeyLaws keys}.

(** the wallet's payload is read back exactly.  Every account index a wallet can derive,
    extended key and delegated key that are encoded in the binary layout are decoded to the
    same values; the layout is 124 bytes. *)
Theorem unsigned_payload_round_trip account_index serialized_xpub key :
  0 <= account_index < 2 ^ 31 → String.length serialized_xpub = 78%nat →
  String.length (identity_key_bytes key) = 32%nat → 0 <= key_generation key < 2 ^ 64 →
  parse_unsigned_payload (encode_unsigned_payload account_index serialized_xpub key)
    = Ok (mk_SetupCompanionClaim keys (Some (mk_ClaimBitcoinAccount account_index serialized_xpub)) key None)
  ∧ str_len (encode_unsigned_payload account_index serialized_xpub key) = UNSIGNED_PAYLOAD_LEN.
Proof.
  intros Hi Hx Hk Hg. set (e := encode_unsigned_payload account_index serialized_xpub key).
  set (B4 := be_bytes 4 account_index). set (B8 := be_bytes 8 (key_generation key)).
  assert (String.length B4 = 4%nat) as L4 by apply be_bytes_length.
  assert (String.length B8 = 8%nat) as L8 by apply be_bytes_length.
  assert (e = be_bytes 1 1 ++ B4 ++ be_bytes 1 0 ++ serialized_xpub ++ B8 ++ identity_key_bytes key) as E by done.
  assert (str_len e = 124) as Hlen.
  { rewrite E. unfold str_len. rewrite !str_length_app, L4, L8, Hx, Hk, !be_bytes_length. done. }
  split; [|done]. unfold parse_unsigned_payload. rewrite Hlen.
  assert (slice 1 4 e = B4) as -> by (rewrite E; by apply slice_app).
  assert (byte_at 0 e = 1) as -> by done.
  assert (byte_at 5 e = 0) as ->.
  { unfold byte_at. replace e with ((be_bytes 1 1 ++ B4) ++ be_bytes 1 0 ++ serialized_xpub ++ B8 ++ identity_key_bytes key) by (by rewrite !str_app_assoc).
    rewrite str_drop_app; [done|]. by rewrite str_length_app, L4. }
  assert (slice 6 78 e = serialized_xpub) as ->.
  { replace e with ((be_bytes 1 1 ++ B4 ++ be_bytes 1 0) ++ serialized_xpub ++ B8 ++ identity_key_bytes key) by (by rewrite !str_app_assoc).
    apply slice_app; [|done]. by rewrite !str_length_app, L4, !be_bytes_length. }
  assert (slice 84 8 e = B8) as ->.
  { replace e with ((be_bytes 1 1 ++ B4 ++ be_bytes 1 0 ++ serialized_xpub) ++ B8 ++ identity_key_bytes key) by (by rewrite !str_app_assoc).
    apply slice_app; [|done]. by rewrite !str_length_app, L4, Hx, !be_bytes_length. }
  assert (str_drop 92 e = identity_key_bytes key) as ->.
  { replace e with ((be_bytes 1 1 ++ B4 ++ be_bytes 1 0 ++ serialized_xpub ++ B8) ++ identity_key_bytes key) by (by rewrite !str_app_assoc).
    apply str_drop_app. by rewrite !str_length_app, L4, L8, Hx, !be_bytes_length. }
  unfold B4, B8. rewrite !be_value_bytes by lia. change (256 ^ Z.of_nat 4) with (2 ^ 32). change (256 ^ Z.of_nat 8) with (2 ^ 64).
  rewrite !Z.mod_small by lia. simpl ensure. rewrite !Z.mul_0_l, !Z.add_0_l.
  rewrite (proj2 (Z.ltb_lt _ _)) by lia. simpl. by rewrite identity_key_rebuild.
Qed.
End roundtrip.

(** ** An accepted claim was signed for this request *)

Lemma split_char_bytes p sep s : p sep = true → Forall (λ piece, all_bytes p piece = true) (split_char sep s) → all_bytes p s = true.
Proof.
  intros Hsep. induction s as [|c s IH]; simpl; [done|]. destruct (Ascii.eqb c sep) eqn:E.
  - apply Ascii.eqb_eq in E as ->. intros H. inversion H; subst. by rewrite Hsep, IH.
  - pose proof (split_char_nonempty sep s) as Hne. destruct (split_char sep s) as [|piece pieces]; [done|].
    intros H. inversion H as [|? ? Hp Hps]; subst. simpl in Hp. apply andb_true_iff in Hp as [Hc Hp]. rewrite Hc, IH; [done|]. by constructor.
Qed.

Definition bar_free (s : string) : bool := all_bytes (λ c, negb (Ascii.eqb c "|")) s.

Lemma setup_selection_bar_free value : validate_setup_claim_selection value = Ok tt → bar_free value = true.
Proof.
  intros (_ & Hk & _)%setup_selection_exact. apply (split_char_bytes _ "."); [done|].
  eapply Forall_impl; [exact Hk|]. intros i Hi. unfold KNOWN_CLAIMS in Hi. rewrite !elem_of_cons, elem_of_nil in Hi.
  by destruct Hi as [->|[->|[->|[]]]].
Qed.

Section authentic.
Context {b64 : UrlSafeBase64} {keys : IdentityKeys}.
Context (secretbox_open : string → string → string → option string).
Context {VerifyingKey : Type} (verify : VerifyingKey → string → string → bool) (sha256 : string → string).
Context (parse_payload : string → option ClaimPayload) (xpub_encode : string → option string).
Notation signable := (signable sha256).
Notation verify_envelope := (verify_envelope secretbox_open verify sha256).
Notation decrypt_and_verify := (decrypt_and_verify secretbox_open verify sha256 parse_payload xpub_encode).

(** What is signed determines the permissions, the secret's hash and the payload. *)
Lemma signable_inj r r' u u' :
  (∀ s, String.length (sha256 s) = 32%nat) → bar_free (ar_claim_type r) = true → bar_free (ar_claim_type r') = true →
  signable r u = signable r' u' → ar_claim_type r = ar_claim_type r' ∧ sha256 (ar_secret r) = sha256 (ar_secret r') ∧ u = u'.
Proof.
  intros Hlen Hb Hb' E. unfold BitkitClaim.signable in E. apply str_app_inj in E as [_ E]; [|done]. apply str_app_inj in E as [_ E]; [|done].
  pose proof (split_once_app "|" (ar_claim_type r) (sha256 (ar_secret r) ++ u) Hb) as H1.
  pose proof (split_once_app "|" (ar_claim_type r') (sha256 (ar_secret r') ++ u') Hb') as H2.
  simpl in E. rewrite E, H2 in H1. injection H1 as -> Hrest. split; [done|]. apply str_app_inj in Hrest as [-> ->]; [done|]. by rewrite !Hlen.
Qed.

(** The envelope of an answer: opened with the request's secret, signed by the creator. *)
Record enveloped (relay_body : string) (request : AuthRequest) (creator : VerifyingKey) (unsigned signature : string) : Prop := {
  en_size : 104 <= str_len relay_body <= 2152;
  en_opened : secretbox_open (ar_secret request) (str_take 24 relay_body) (str_drop 24 relay_body) = Some (unsigned ++ signature);
  en_signature : String.length signature = 64%nat;
  en_signed : verify creator (signable request unsigned) signature = true;
}.

Lemma str_take_drop n s : str_take n s ++ str_drop n s = s.
Proof. revert s. induction n as [|n IH]; intros [|c s]; simpl; [done..|]. by rewrite IH. Qed.

Lemma str_drop_length n s : String.length (str_drop n s) = (String.length s - n)%nat.
Proof. revert s. induction n as [|n IH]; intros [|c s]; simpl; [done|lia|done|apply IH]. Qed.

Lemma verify_envelope_ok body request creator unsigned :
  verify_envelope body request creator = Ok unsigned → ∃ signature, enveloped body request creator unsigned signature.
Proof.
  unfold BitkitClaim.verify_envelope. intros H. apply bind_ok in H as ([] & Hs%ensure_ok & H). apply bind_ok in H as (p & Hp%ok_or_ok & H).
  apply bind_ok in H as ([] & Hl%ensure_ok & H). cbv zeta in H. apply bind_ok in H as ([] & Hv%ensure_ok & H). injection H as <-.
  split_bools. unfold CLAIM_NONCE_LEN, MAX_PAYLOAD_LEN in *. exists (str_drop (String.length p - 64) p). unfold str_len in *. split.
  - unfold str_len. lia.
  - by rewrite str_take_drop.
  - rewrite str_drop_length. lia.
  - done.
Qed.

(** A claim gives what was asked for: the account and the address only under their
    permission, and the account of a first setup always when it was asked for. *)
Record claim_permitted (request : AuthRequest) (claim : SetupCompanionClaim) : Prop := {
  pm_bitcoin : sc_bitcoin_account claim ≠ None → WATCH_ONLY_ACCOUNT_CLAIM ∈ split_char "." (ar_claim_type request);
  pm_usdt : sc_usdt_address claim ≠ None → USDT_ADDRESS_CLAIM ∈ split_char "." (ar_claim_type request);
  pm_given : ar_reconnect request = false → WATCH_ONLY_ACCOUNT_CLAIM ∈ split_char "." (ar_claim_type request) → sc_bitcoin_account claim ≠ None;
  pm_index : ∀ account, sc_bitcoin_account claim = Some account → cb_account_index account < 2 ^ 31;
}.

Lemma has_claim_elem request item : has_claim request item = true ↔ item ∈ split_char "." (ar_claim_type request).
Proof. apply (selected_elem (split_char "." (ar_claim_type request))). Qed.

Lemma receiving_permitted value request allow claim :
  parse_receiving_payload parse_payload xpub_encode value request allow = Ok claim → allow = ar_reconnect request →
  has_claim request USDT_ADDRESS_CLAIM = true → claim_permitted request claim.
Proof.
  intros H -> Hu. unfold parse_receiving_payload in H. apply bind_ok in H as (p & _ & H). cbv zeta in H.
  apply bind_ok in H as ([] & Hg%ensure_ok & H). apply bind_ok in H as (acc & Hacc & H). apply bind_ok in H as (usdt & _ & H).
  apply bind_ok in H as (secret & _ & H). apply bind_ok in H as ([] & _ & H). apply bind_ok in H as (key & _ & [= <-]).
  assert (is_none (cp_bitcoin_account p) = is_none acc) as En.
  { destruct (cp_bitcoin_account p) as [a|]; [|by injection Hacc as <-]. apply fmap_ok in Hacc as (x & _ & ->). done. }
  rewrite En in Hg. apply negb_true_iff, orb_false_iff in Hg as [G1 G2]. split; simpl.
  - intros Hn. apply has_claim_elem. destruct acc; [|done]. simpl in G2. by apply negb_false_iff in G2.
  - intros _. by apply has_claim_elem.
  - intros Hr Hc%has_claim_elem. rewrite Hr, Hc in G1. destruct acc; done.
  - intros a ->. destruct (cp_bitcoin_account p) as [x|]; [|done]. apply fmap_ok in Hacc as (y & Hy & [= ->]).
    unfold claim_account in Hy. apply bind_ok in Hy as ([] & Hi%ensure_ok & Hy). apply bind_ok in Hy as (xp & _ & [= <-]). split_bools. simpl. lia.
Qed.

(** C32: a wallet's answer binds the creator to this very request.  A claim is accepted only
    when the relay's body opens under the request's secret and holds a payload that the
    creator's key signed together with the permission list and the hash of that secret; two
    accepted bodies with the same signed text were for the same permissions and payload.
    Receiving details are taken only under a permission that was asked for, and a first
    setup that asks for the account gets it. *)
Theorem companion_claim_authentic body request creator claim :
  (∀ s, String.length (sha256 s) = 32%nat) → decrypt_and_verify body request creator = Ok claim →
  claim_permitted request claim
  ∧ ∃ unsigned signature, enveloped body request creator unsigned signature
    ∧ ∀ request' unsigned', validate_setup_claim_selection (ar_claim_type request') = Ok tt →
        signable request' unsigned' = signable request unsigned →
        ar_claim_type request' = ar_claim_type request ∧ sha256 (ar_secret request') = sha256 (ar_secret request) ∧ unsigned' = unsigned.
Proof.
  intros Hlen H. unfold BitkitClaim.decrypt_and_verify in H. apply bind_ok in H as ([] & Hsel & H).
  apply bind_ok in H as (unsigned & Henv & H). split.
  - apply setup_selection_exact in Hsel as (_ & _ & _ & Hsel).
    destruct (has_claim request USDT_ADDRESS_CLAIM) eqn:Eu; [by eapply receiving_permitted|].
    assert (WATCH_ONLY_ACCOUNT_CLAIM ∈ split_char "." (ar_claim_type request)) as Hw.
    { destruct Hsel as [Hw|Hu%has_claim_elem]; [done|congruence]. }
    destruct (ar_reconnect request && (str_len unsigned =? RECONNECT_PAYLOAD_LEN)) eqn:Er.
    + apply bind_ok in H as (key & _ & [= <-]). apply andb_true_iff in Er as [Er _]. split; simpl; try done. congruence.
    + unfold parse_unsigned_payload in H. apply bind_ok in H as ([] & _ & H). cbv zeta in H. apply bind_ok in H as ([] & Hi%ensure_ok & H).
      apply bind_ok in H as (key & _ & [= <-]). split_bools. split; simpl; try done. intros a [= <-]. simpl. lia.
  - destruct (verify_envelope_ok _ _ _ _ Henv) as [signature He]. exists unsigned, signature. split; [done|].
    intros r' u' Hr' E. apply signable_inj; [done|by apply setup_selection_bar_free..|done].
Qed.
End authentic.

(** ** Instances *)

Definition example_key : string * Z := (repeat_char "k" 32, 3).

Lemma unsigned_payload_round_trip_witness :
  let keys := Example_creators.pair_keys in
  parse_unsigned_payload (encode_unsigned_payload 7 (repeat_char "x" 78) (example_key : IdentityKey))
    = Ok (mk_SetupCompanionClaim keys (Some (mk_ClaimBitcoinAccount 7 (repeat_char "x" 78))) (example_key : IdentityKey) None).
Proof.
  intros keys. apply (@unsigned_payload_round_trip Example_creators.pair_keys Example_creators.pair_keys_laws 7 (repeat_char "x" 78) example_key);
    by vm_compute.
Defined.

Definition example_hash (_ : string) : string := repeat_char "h" 32.

Definition example_auth_request : AuthRequest :=
  mk_AuthRequest (mk_ParsedUrl "https://relay" "https" false "" None (Some "relay") false None "/" None [] None "https://relay")
    (repeat_char "s" 32) setup_claim_selection false.

Definition example_unsigned : string := @encode_unsigned_payload Example_creators.pair_keys 7 (repeat_char "x" 78) example_key.

Definition example_body : string := repeat_char "n" 24 ++ example_unsigned ++ repeat_char "g" 64.

Definition example_open (key nonce text : string) : option string := if String.eqb key (repeat_char "s" 32) then Some text else None.

Definition example_verified (key : string) (text signature : string) : bool :=
  String.eqb key "creator" && String.eqb text (signable example_hash example_auth_request example_unsigned) && String.eqb signature (repeat_char "g" 64).

Definition example_claim : SetupCompanionClaim (keys := Example_creators.pair_keys) :=
  mk_SetupCompanionClaim Example_creators.pair_keys (Some (mk_ClaimBitcoinAccount 7 (repeat_char "x" 78))) example_key None.

Lemma companion_claim_authentic_witness :
  claim_permitted example_auth_request example_claim
  ∧ ∃ unsigned signature, enveloped example_open example_verified example_hash example_body example_auth_request "creator" unsigned signature.
Proof.
  destruct (companion_claim_authentic (b64 := example_identity64) (keys := Example_creators.pair_keys) example_open example_verified example_hash
    (λ _, None) (λ _, None) example_body example_auth_request "creator" example_claim) as [H (u & g & He & _)].
  - reflexivity.
  - vm_compute. reflexivity.
  - split; [exact H|]. by exists u, g.
Defined.
