(* ===== verification/Allowances.v ===== *)
(** * Allowances: the intake of Allowance proposals ([paykit/allowances.rs],
    [persistence/invoices/readers.rs], [workers/creator_tasks.rs] and the intake loop of
    [server.rs])

    The server accepts, as the Allowee, what its invoiced readers propose.  A reader decides
    how large its history is, so the schedule bounds how often and for how long each is
    read, and the turns decide which Creator's pass runs next.  A pass is a program over the
    SDK, the clock, the Creator's mutation lock and the schedule, which all passes share;
    any of them may answer anything.  Times and durations are in nanoseconds. *)

From S2P Require Import Prelude Text Locks Effects Database Crypto Creators Sorting Status Adapter.
Local Open Scope string_scope.
Local Open Scope Z_scope.
Local Open Scope list_scope.

Definition MAX_ALLOWANCE_ACCEPTANCES_PER_READ : nat := 4.
Definition ALLOWANCE_INTAKE_COOLDOWN : Z := 10 * 1000000000.
Definition ALLOWANCE_INTAKE_SPACING_FACTOR : Z := 10.
Definition ALLOWANCE_INTAKE_LOCK_WAIT : Z := 20 * 1000000000.
Definition ALLOWANCE_INTAKE_PASS_DEADLINE : Z := 600 * 1000000000.
Definition ALLOWANCE_INTAKE_READ_BUDGET : Z := 5 * 1000000000.

(** [Instant::saturating_duration_since]; [elapsed] is the same against the present. *)
Definition saturating_duration_since (now earlier : Z) : Z := Z.max 0 (now - earlier).

(** ** The turns of the Creators *)

Record IntakeTurns := mk_IntakeTurns { it_last_started : gmap RowId Z; it_next : Z }.

Definition IntakeTurns_default : IntakeTurns := mk_IntakeTurns ∅ 0.

Definition order (turns : IntakeTurns) (ready : list RowId) : list RowId * IntakeTurns :=
  let last_started := filter (λ kv, kv.1 ∈ ready) (it_last_started turns) in
  (sort_by (λ a b, opt_compare Z.compare (last_started !! a) (last_started !! b)) ready,
   mk_IntakeTurns last_started (it_next turns)).

Definition started (turns : IntakeTurns) (creator : RowId) : IntakeTurns :=
  mk_IntakeTurns (<[creator := it_next turns]> (it_last_started turns)) (it_next turns + 1).

(** [CreatorTasks]: the Creators whose task is running. *)
Record CreatorTasks := mk_CreatorTasks { ct_active : gset RowId; ct_limit : Z }.

Definition CreatorTasks_new (limit : Z) : CreatorTasks := mk_CreatorTasks ∅ limit.

Definition available_slots (tasks : CreatorTasks) : Z := ct_limit tasks - Z.of_nat (size (ct_active tasks)).

Definition try_spawn (may_start : bool) (tasks : CreatorTasks) (creator : RowId) : option CreatorTasks :=
  if negb may_start || (available_slots tasks =? 0) || bool_decide (creator ∈ ct_active tasks) then None
  else Some (mk_CreatorTasks ({[creator]} ∪ ct_active tasks) (ct_limit tasks)).

Definition join_next (tasks : CreatorTasks) (creator : RowId) : CreatorTasks :=
  mk_CreatorTasks (ct_active tasks ∖ {[creator]}) (ct_limit tasks).

(** The loop over the ordered Creators: whom it started, and what it leaves. *)
Fixpoint spawn_passes (may_start : RowId → bool) (running : gset RowId) (creators : list RowId)
    (tasks : CreatorTasks) (turns : IntakeTurns) : list RowId * CreatorTasks * IntakeTurns :=
  match creators with
  | [] => ([], tasks, turns)
  | creator :: creators =>
      if available_slots tasks =? 0 then ([], tasks, turns)
      else if bool_decide (creator ∈ running) then spawn_passes may_start running creators tasks turns
      else match try_spawn (may_start creator) tasks creator with
           | Some tasks =>
               let '(passes, tasks, turns) := spawn_passes may_start running creators tasks (started turns creator) in
               (creator :: passes, tasks, turns)
           | None => spawn_passes may_start running creators tasks turns
           end
  end.

Definition start_intake_passes (may_start : RowId → bool) (tasks : CreatorTasks) (turns : IntakeTurns)
    (creators : list RowId) : list RowId * CreatorTasks * IntakeTurns :=
  let '(ordered, turns) := order turns creators in
  spawn_passes may_start (ct_active tasks) ordered tasks turns.

(** One turn of [allowance_intake_loop]: a pass ended, or a tick with the answer of
    [ready_ids]; whether the server is stopping is read at every spawn. *)
Inductive LoopEvent :=
  | PassEnded (creator : RowId)
  | Tick (ready : result PersistenceError (list RowId)) (may_start : RowId → bool).

Definition loop_turn (tasks : CreatorTasks) (turns : IntakeTurns) (ev : LoopEvent) :
    list RowId * CreatorTasks * IntakeTurns :=
  match ev with
  | PassEnded creator => ([], join_next tasks creator, turns)
  | Tick ready may_start =>
      if available_slots tasks =? 0 then ([], tasks, turns)
      else match ready with
           | Err _ => ([], tasks, turns)
           | Ok creators => start_intake_passes may_start tasks turns creators
           end
  end.

Fixpoint allowance_intake_loop (tasks : CreatorTasks) (turns : IntakeTurns) (evs : list LoopEvent) :
    list RowId * CreatorTasks * IntakeTurns :=
  match evs with
  | [] => ([], tasks, turns)
  | ev :: evs =>
      let '(passes, tasks, turns) := loop_turn tasks turns ev in
      let '(later, tasks, turns) := allowance_intake_loop tasks turns evs in
      (passes ++ later, tasks, turns)
  end.

(** ** Readers a Creator has invoiced *)

Section invoiced.
Context {core : LocksCore} {prim : CryptoPrimitives} (crypto : Crypto).

Definition invoiced_readers (ac : AccountDb) (creator_id : RowId) (candidates : list ReaderPubky) : list ReaderPubky :=
  let hash := λ reader, lookup_hash crypto (reader_to_string reader) in
  let invoiced := omap (λ row, if bool_decide (as_creator_id row.2 = creator_id)
                                  && existsb (String.eqb (as_reader_lookup_hash row.2)) (hash <$> candidates)
                               then Some (as_reader_lookup_hash row.2) else None)
                       (map_to_list (ac_assignments ac)) in
  filter (λ reader, Is_true (existsb (String.eqb (hash reader)) invoiced)) candidates.
End invoiced.

(** ** The schedule *)

Section intake.
Context {core : LocksCore} {Peer : Type} `{Countable Peer} {AllowanceId : Type}.
(** [PubkyPublicKey]'s [Display] and [AllowanceId::new]. *)
Context (peer_display : Peer → string) (AllowanceId_new : string → option AllowanceId).

Record ReaderIntake := mk_ReaderIntake {
  covered_through : option Z;
  last_started : option Z;
  last_scan : Z;
}.

Definition ReaderIntake_default : ReaderIntake := mk_ReaderIntake None None 0.

Record AllowanceIntake := mk_AllowanceIntake {
  ai_cooldown : Z;
  ai_readers : gmap (RowId * Peer) ReaderIntake;
}.

Definition AllowanceIntake_new (cooldown : Z) : AllowanceIntake := mk_AllowanceIntake cooldown ∅.

Record IntakeTicket := mk_IntakeTicket {
  tk_creator_id : RowId;
  tk_reader : Peer;
  tk_newest_stream_item_id : Z;
}.

Definition reader_state (intake : AllowanceIntake) (key : RowId * Peer) : ReaderIntake :=
  default ReaderIntake_default (ai_readers intake !! key).

(** The entry is created when it is missing. *)
Definition with_reader {T} (intake : AllowanceIntake) (creator_id : RowId) (reader : Peer)
    (f : ReaderIntake → T * ReaderIntake) : T * AllowanceIntake :=
  let '(t, state) := f (reader_state intake (creator_id, reader)) in
  (t, mk_AllowanceIntake (ai_cooldown intake) (<[(creator_id, reader) := state]> (ai_readers intake))).

Definition spacing (cooldown : Z) (state : ReaderIntake) : Z :=
  Z.max cooldown (last_scan state * ALLOWANCE_INTAKE_SPACING_FACTOR).

Definition is_due (intake : AllowanceIntake) (creator_id : RowId) (reader : Peer) (newest : option Z) (now : Z) :
    bool * AllowanceIntake :=
  match newest with
  | None => (false, intake)
  | Some newest =>
      with_reader intake creator_id reader (λ state,
        (match covered_through state with None => true | Some covered => covered <? newest end
         && match last_started state with
            | None => true
            | Some started => spacing (ai_cooldown intake) state <=? saturating_duration_since now started
            end, state))
  end.

Definition begin (intake : AllowanceIntake) (creator_id : RowId) (reader : Peer) (newest : option Z) (now : Z) :
    option IntakeTicket * AllowanceIntake :=
  let '(due, intake) := is_due intake creator_id reader newest now in
  if due then
    let '(_, intake) := with_reader intake creator_id reader (λ state,
      (tt, mk_ReaderIntake (covered_through state) (Some now) ALLOWANCE_INTAKE_PASS_DEADLINE)) in
    (mk_IntakeTicket creator_id reader <$> newest, intake)
  else (None, intake).

Definition last_started_of (intake : AllowanceIntake) (creator_id : RowId) (reader : Peer) : option Z * AllowanceIntake :=
  with_reader intake creator_id reader (λ state, (last_started state, state)).

Definition finish (intake : AllowanceIntake) (ticket : IntakeTicket) (drained : bool) (scan : Z) : AllowanceIntake :=
  (with_reader intake (tk_creator_id ticket) (tk_reader ticket) (λ state,
     (tt, mk_ReaderIntake
            (if drained then Some (tk_newest_stream_item_id ticket) else covered_through state)
            (last_started state) scan))).2.

(** ** What the SDK reports of an Allowance *)

Inductive AllowanceLocalRole := Allowee | OtherAllowanceRole.
Inductive AllowanceLifecycleState := Allowance_Proposed | OtherAllowanceState.
Inductive AllowanceHistoryStatus := History_Consistent | OtherHistoryStatus.

Record AllowanceRecord := mk_AllowanceRecord {
  ar_allowance_id : string;
  ar_local_role : option AllowanceLocalRole;
  ar_state : AllowanceLifecycleState;
  ar_history_status : AllowanceHistoryStatus;
  ar_proposal_stream_item_id : option Z;
  ar_proposal_outbound_message_id : option Z;
}.

Definition awaiting_allowee_acceptance (record : AllowanceRecord) : option (AllowanceId * Z) :=
  match ar_local_role record, ar_state record, ar_history_status record, ar_proposal_outbound_message_id record with
  | Some Allowee, Allowance_Proposed, History_Consistent, None =>
      id ← AllowanceId_new (ar_allowance_id record);
      item ← ar_proposal_stream_item_id record;
      Some (id, item)
  | _, _, _, _ => None
  end.

Definition reader_of (peer : Peer) : option ReaderPubky :=
  match parse_reader ("pubky" ++ peer_display peer) with Ok reader => Some reader | Err _ => None end.

(** ** The calls of a pass *)

Inductive IntakeCall : Type → Type :=
| Now : IntakeCall Z
| LockCreator : IntakeCall unit
| LockWithin (wait : Z) : IntakeCall bool
| Unlock : IntakeCall unit
| ListLinkedPeers : IntakeCall (result PaykitSdkError (list (Peer * LinkedPeerState)))
| InvoicedReaders (creator_id : RowId) (candidates : list ReaderPubky) : IntakeCall (result PersistenceError (list ReaderPubky))
| StreamItems : IntakeCall (result PaykitSdkError (Peer → list Z))
| IsDue (creator_id : RowId) (reader : Peer) (newest : option Z) (now : Z) : IntakeCall bool
| Begin (creator_id : RowId) (reader : Peer) (newest : option Z) (now : Z) : IntakeCall (option IntakeTicket)
| LastStarted (creator_id : RowId) (reader : Peer) : IntakeCall (option Z)
| Finish (ticket : IntakeTicket) (drained : bool) (scan : Z) : IntakeCall unit
| KeepReading : IntakeCall bool
| ListAllowances (reader : Peer) : IntakeCall (result PaykitSdkError (list AllowanceRecord))
| AcceptAllowance (reader : Peer) (id : AllowanceId) (stream_item_id : Z) : IntakeCall (result PaykitSdkError unit).

Notation iprog := (prog IntakeCall).

Definition pending_proposals (reader : Peer) : iprog (result PaykitSdkError (list (AllowanceId * Z))) :=
  records ←? call (ListAllowances reader);
  Ret (Ok (take (MAX_ALLOWANCE_ACCEPTANCES_PER_READ + 1) (omap (M:=list) awaiting_allowee_acceptance records))).

Record IntakeRead := mk_IntakeRead {
  ir_accepted : nat;
  ir_scan : Z;
  ir_result : result PaykitSdkError bool;
}.

(** The loop over the proposals; the guard is dropped at the end of each turn. *)
Fixpoint accept_each (reader : Peer) (lock_wait : Z) (accepted : nat) (pending : list (AllowanceId * Z)) :
    iprog (nat * result PaykitSdkError unit) :=
  match pending with
  | [] => Ret (accepted, Ok tt)
  | (id, stream_item_id) :: pending =>
      locked ⇐ call (LockWithin lock_wait);
      if negb locked then Ret (accepted, Err Sdk_Transport)
      else
        answer ⇐ call (AcceptAllowance reader id stream_item_id);
        _ ⇐ call Unlock;
        match answer with
        | Err error => Ret (accepted, Err error)
        | Ok _ => accept_each reader lock_wait (S accepted) pending
        end
  end.

Definition accept_proposals (reader : Peer) (lock_wait : Z) : iprog IntakeRead :=
  started ⇐ call Now;
  pending ⇐ pending_proposals reader;
  ended ⇐ call Now;
  let scan := saturating_duration_since ended started in
  match pending with
  | Err error => Ret (mk_IntakeRead 0 scan (Err error))
  | Ok pending =>
      read ⇐ accept_each reader lock_wait 0 (take MAX_ALLOWANCE_ACCEPTANCES_PER_READ pending);
      Ret (mk_IntakeRead read.1 scan
             (match read.2 with
              | Ok _ => Ok (Nat.leb (length pending) MAX_ALLOWANCE_ACCEPTANCES_PER_READ)
              | Err error => Err error
              end))
  end.

Record ReadLimits := mk_ReadLimits { rl_budget : Z; rl_lock_wait : Z }.

(** [reading_since.is_some_and(|since| since.elapsed() >= budget)] *)
Definition over_budget (reading_since : option Z) (budget : Z) : iprog bool :=
  match reading_since with
  | None => Ret false
  | Some since => now ⇐ call Now; Ret (budget <=? saturating_duration_since now since)
  end.

Fixpoint read_each (creator_id : RowId) (limits : ReadLimits) (reading_since : option Z) (queued : nat)
    (readers : list (Peer * Z)) : iprog nat :=
  match readers with
  | [] => Ret queued
  | (peer, newest) :: readers =>
      keep ⇐ call KeepReading;
      over ⇐ (if keep : bool then over_budget reading_since (rl_budget limits) else Ret true);
      if over : bool then Ret queued
      else
        now ⇐ call Now;
        ticket ⇐ call (Begin creator_id peer (Some newest) now);
        match ticket with
        | None => read_each creator_id limits reading_since queued readers
        | Some ticket =>
            read ⇐ accept_proposals peer (rl_lock_wait limits);
            _ ⇐ call (Finish ticket (match ir_result read with Ok drained => drained | Err _ => false end) (ir_scan read));
            read_each creator_id limits (Some (default now reading_since)) (queued + ir_accepted read) readers
        end
  end.

(** The sort key of every reader; nothing but this pass changes the readers of its Creator. *)
Fixpoint last_starts (creator_id : RowId) (readers : list (Peer * Z)) : iprog (list (option Z * (Peer * Z))) :=
  match readers with
  | [] => Ret []
  | reader :: readers =>
      started ⇐ call (LastStarted creator_id reader.1);
      rest ⇐ last_starts creator_id readers;
      Ret ((started, reader) :: rest)
  end.

Definition read_readers (creator_id : RowId) (readers : list (Peer * Z)) (limits : ReadLimits) : iprog nat :=
  keyed ⇐ last_starts creator_id readers;
  read_each creator_id limits None 0 (snd <$> sort_by (λ a b, opt_compare Z.compare a.1 b.1) keyed).

Definition newest_stream_items (items : Peer → list Z) (linked : list Peer) : gmap Peer Z :=
  list_to_map (omap (λ peer, match items peer with
                             | [] => None
                             | item :: rest => Some (peer, foldr Z.max item rest)
                             end) linked).

(** [filter_map] over the eligible readers: each is asked for, and kept when it is due. *)
Fixpoint due_readers (creator_id : RowId) (now : Z) (newest : gmap Peer Z) (eligible : list Peer) : iprog (list (Peer * Z)) :=
  match eligible with
  | [] => Ret []
  | peer :: eligible =>
      due ⇐ call (IsDue creator_id peer (newest !! peer) now);
      rest ⇐ due_readers creator_id now newest eligible;
      Ret (match newest !! peer with
           | Some item => if due : bool then (peer, item) :: rest else rest
           | None => rest
           end)
  end.

Definition eligible_readers (linked : list Peer) (invoiced : list ReaderPubky) : list Peer :=
  filter (λ peer, Is_true (match reader_of peer with
                           | Some reader => existsb (String.eqb (reader_to_string reader)) (reader_to_string <$> invoiced)
                           | None => false
                           end)) linked.

Definition linked_counterparties (peers : list (Peer * LinkedPeerState)) : list Peer :=
  omap (λ p : Peer * LinkedPeerState, if bool_decide (p.2 = Linked) then Some p.1 else None) peers.

Definition take_in_allowances (creator_id : RowId) : iprog (result PaykitSdkError nat) :=
  now ⇐ call Now;
  _ ⇐ call LockCreator;
  peers ⇐ call ListLinkedPeers;
  _ ⇐ call Unlock;
  peers ←? Ret peers;
  let linked := linked_counterparties peers in
  if bool_decide (linked = []) then Ret (Ok 0%nat)
  else
    invoiced ⇐ call (InvoicedReaders creator_id (omap reader_of linked));
    invoiced ←? Ret (map_err (λ _, Sdk_Storage) invoiced);
    let eligible := eligible_readers linked invoiced in
    if bool_decide (eligible = []) then Ret (Ok 0%nat)
    else
      items ←? call StreamItems;
      readers ⇐ due_readers creator_id now (newest_stream_items items eligible) eligible;
      if bool_decide (readers = []) then Ret (Ok 0%nat)
      else
        queued ⇐ read_readers creator_id readers (mk_ReadLimits ALLOWANCE_INTAKE_READ_BUDGET ALLOWANCE_INTAKE_LOCK_WAIT);
        Ret (Ok queued).
End intake.
