(* ===== verification/AllowanceProps.v ===== *)
(** * AllowanceProps: what the intake of Allowances guarantees

    While the same Creators are ready the turns are fair between them, the schedule spaces the
    reads of a reader by what its history costs, and a pass reads and accepts only what it
    may, one acceptance under the lock at a time. *)

From S2P Require Import Prelude Text Locks Effects Database Crypto Creators Sorting Status Adapter Allowances.
Local Open Scope string_scope.
Local Open Scope Z_scope.
Local Open Scope list_scope.

(** ** Turns *)

Definition turns_wf (turns : IntakeTurns) : Prop := ∀ x n, it_last_started turns !! x = Some n → n < it_next turns.

Definition tasks_wf (tasks : CreatorTasks) : Prop := 0 <= available_slots tasks.

(** What a round of spawns does to the tasks and the turns. *)
Record spawned (running : gset RowId) (l : list RowId) (tasks tasks' : CreatorTasks) (turns turns' : IntakeTurns) (passes : list RowId) : Prop := {
  sp_nodup : NoDup passes;
  sp_new : Forall (λ x, x ∈ l ∧ x ∉ running ∧ x ∉ ct_active tasks) passes;
  sp_active : ct_active tasks' = list_to_set passes ∪ ct_active tasks;
  sp_slots : tasks_wf tasks';
  sp_old : ∀ x, x ∉ passes → it_last_started turns' !! x = it_last_started turns !! x;
  sp_started : ∀ x, x ∈ passes → ∃ n, it_last_started turns' !! x = Some n ∧ it_next turns <= n < it_next turns';
  sp_next : it_next turns <= it_next turns';
}.

Lemma try_spawn_ok may tasks x tasks' :
  tasks_wf tasks → try_spawn may tasks x = Some tasks' →
  may = true ∧ x ∉ ct_active tasks ∧ ct_active tasks' = {[x]} ∪ ct_active tasks ∧ tasks_wf tasks'.
Proof.
  unfold try_spawn, tasks_wf. intros Hwf Hs. destruct may; [|done]. simpl in Hs.
  destruct (available_slots tasks =? 0) eqn:E0; [done|]. case_bool_decide as Hx; [done|]. injection Hs as <-.
  split_and!; [done..|]. apply Z.eqb_neq in E0. unfold available_slots in *. simpl.
  rewrite size_union by set_solver. rewrite size_singleton. lia.
Qed.

Lemma spawn_passes_spec may running l tasks turns passes tasks' turns' :
  tasks_wf tasks → spawn_passes may running l tasks turns = (passes, tasks', turns') →
  spawned running l tasks tasks' turns turns' passes.
Proof.
  revert tasks turns passes tasks' turns'. induction l as [|a l IH]; intros tasks turns passes tasks' turns' Hwf; simpl.
  { intros [= <- <- <-]. split; [constructor|constructor|set_solver|done|done|by intros ? ?%not_elem_of_nil|lia]. }
  destruct (available_slots tasks =? 0).
  { intros [= <- <- <-]. split; [constructor|constructor|set_solver|done|done|by intros ? ?%not_elem_of_nil|lia]. }
  assert (∀ ps ts us, spawn_passes may running l tasks turns = (ps, ts, us) → spawned running (a :: l) tasks ts turns us ps) as Hskip.
  { intros ps ts us Hs. destruct (IH _ _ _ _ _ Hwf Hs) as [H1 H2 H3 H4 H5 H6 H7]. split; [done| |done..].
    eapply Forall_impl; [exact H2|]. intros x (? & ? & ?). split_and!; [by right|done..]. }
  case_bool_decide as Hr; [by apply Hskip|].
  destruct (try_spawn (may a) tasks a) as [tasks1|] eqn:Et; [|by apply Hskip].
  apply try_spawn_ok in Et as (_ & Ha & Eact & Hwf1); [|done].
  destruct (spawn_passes may running l tasks1 (started turns a)) as [[ps ts] us] eqn:Es. intros [= <- <- <-].
  destruct (IH _ _ _ _ _ Hwf1 Es) as [H1 H2 H3 H4 H5 H6 H7]. rewrite Eact in *. simpl in *.
  assert (a ∉ ps) as Hn.
  { intros Hin. rewrite Forall_forall in H2. destruct (H2 _ Hin) as (_ & _ & Hb). set_solver. }
  split; [by constructor| | |done| | |lia].
  - constructor; [split_and!; [by left|done..]|]. eapply Forall_impl; [exact H2|].
    intros x (? & ? & Hb). split_and!; [by right|done|set_solver].
  - rewrite H3. simpl. set_solver.
  - intros x Hx. apply not_elem_of_cons in Hx as [Hne Hx]. rewrite (H5 _ Hx). by apply lookup_insert_ne.
  - intros x [->|Hx]%elem_of_cons.
    + exists (it_next turns). rewrite (H5 _ Hn), lookup_insert_eq. split; [done|lia].
    + destruct (H6 _ Hx) as (n & Hn' & Hb). exists n. split; [done|lia].
Qed.

Lemma spawn_passes_limit may running l tasks turns passes tasks' turns' :
  spawn_passes may running l tasks turns = (passes, tasks', turns') → ct_limit tasks' = ct_limit tasks.
Proof.
  revert tasks turns passes tasks' turns'. induction l as [|a l IH]; intros tasks turns passes tasks' turns'; simpl; [by intros [= <- <- <-]|].
  destruct (available_slots tasks =? 0); [by intros [= <- <- <-]|]. case_bool_decide; [by apply IH|].
  destruct (try_spawn (may a) tasks a) as [tasks1|] eqn:Et; [|by apply IH].
  destruct (spawn_passes may running l tasks1 (started turns a)) as [[ps ts] us] eqn:Es. intros [= <- <- <-].
  rewrite (IH _ _ _ _ _ Es). unfold try_spawn in Et. destruct (_ || _ || _); [done|]. by injection Et as <-.
Qed.

(** A Creator that is not running is passed over only when the slots ran out before it. *)
Lemma spawn_passes_before may running c l1 l2 tasks turns passes tasks' turns' :
  (∀ x, may x = true) → tasks_wf tasks → c ∉ running → c ∉ ct_active tasks → c ∉ l1 →
  spawn_passes may running (l1 ++ c :: l2) tasks turns = (passes, tasks', turns') → c ∉ passes → passes ⊆ l1.
Proof.
  intros Hmay. revert tasks turns passes tasks' turns'.
  induction l1 as [|a l1 IH]; intros tasks turns passes tasks' turns' Hwf Hr Hc Hl; simpl.
  - destruct (available_slots tasks =? 0) eqn:E0; [by intros [= <- <- <-]|].
    rewrite bool_decide_false by done. unfold try_spawn. rewrite Hmay, E0, bool_decide_false by done. simpl.
    destruct (spawn_passes _ _ _ _ _) as [[ps ts] us]. intros [= <- <- <-] Hn. exfalso. apply Hn. by left.
  - apply not_elem_of_cons in Hl as [Hne Hl]. destruct (available_slots tasks =? 0); [intros [= <- <- <-] _; set_solver|].
    case_bool_decide; [intros Hs Hn; transitivity l1; [by eapply IH|set_solver]|].
    destruct (try_spawn (may a) tasks a) as [tasks1|] eqn:Et; [|intros Hs Hn; transitivity l1; [by eapply IH|set_solver]].
    apply try_spawn_ok in Et as (_ & Ha & Eact & Hwf1); [|done].
    destruct (spawn_passes may running (l1 ++ c :: l2) tasks1 (started turns a)) as [[ps ts] us] eqn:Es.
    intros [= <- <- <-] Hn. apply not_elem_of_cons in Hn as [_ Hn].
    assert (ps ⊆ l1); [|set_solver]. eapply IH; [exact Hwf1|done|rewrite Eact; set_solver|done|exact Es|done].
Qed.

(** Passes start in the order they are asked for. *)
Lemma spawn_passes_sublist may running l tasks turns passes tasks' turns' :
  spawn_passes may running l tasks turns = (passes, tasks', turns') → passes `sublist_of` l.
Proof.
  revert tasks turns passes tasks' turns'. induction l as [|a l IH]; intros tasks turns passes tasks' turns'; simpl; [by intros [= <- <- <-]|].
  destruct (available_slots tasks =? 0); [intros [= <- <- <-]; apply sublist_nil_l|].
  case_bool_decide; [intros Hs; apply sublist_cons; by eapply IH|].
  destruct (try_spawn (may a) tasks a) as [tasks1|]; [|intros Hs; apply sublist_cons; by eapply IH].
  destruct (spawn_passes may running l tasks1 (started turns a)) as [[ps ts] us] eqn:Es. intros [= <- <- <-].
  apply sublist_skip. by eapply IH.
Qed.

(** A free slot is never left empty while a Creator waits. *)
Lemma spawn_passes_some may running c l tasks turns passes tasks' turns' :
  (∀ x, may x = true) → c ∉ running → c ∉ ct_active tasks → c ∈ l → available_slots tasks ≠ 0 →
  spawn_passes may running l tasks turns = (passes, tasks', turns') → passes ≠ [].
Proof.
  intros Hmay Hr Hc. induction l as [|a l IH]; intros Hl Hs; simpl; [by apply not_elem_of_nil in Hl|].
  apply Z.eqb_neq in Hs as Hs'. rewrite Hs'. assert (c = a ∨ c ∈ l) as [<-|Hl'] by (by apply elem_of_cons).
  - clear IH. rewrite bool_decide_false by done. unfold try_spawn. rewrite Hmay, Hs', bool_decide_false by done. simpl.
    destruct (spawn_passes _ _ _ _ _) as [[ps ts] us]. by intros [= <- <- <-].
  - case_bool_decide; [by apply IH|]. destruct (try_spawn (may a) tasks a) as [tasks1|]; [|by apply IH]. clear IH.
    destruct (spawn_passes _ _ _ _ _) as [[ps ts] us]. by intros [= <- <- <-].
Qed.

(** What stands before [c] in a sublist stands before it in the list. *)
Lemma sublist_before {A} (c : A) (p1 p2 l1 l2 : list A) :
  NoDup (l1 ++ c :: l2) → p1 ++ c :: p2 `sublist_of` l1 ++ c :: l2 → p1 ⊆ l1.
Proof.
  intros Hnd (k1 & k2 & E & H1 & H2)%sublist_app_l.
  assert (c ∈ k2) as (m1 & m2 & ->)%list_elem_of_split. { apply (sublist_subseteq _ _ H2). by left. }
  rewrite app_assoc in E. pose proof E as E'. rewrite E in Hnd.
  assert (l1 = k1 ++ m1) as ->.
  { clear -Hnd E. revert E Hnd. generalize (k1 ++ m1). intros k E Hnd. revert k E Hnd. induction l1 as [|x l1 IH]; intros [|y k] E Hnd; simpl in *; simplify_eq; [done|..].
    - exfalso. apply NoDup_cons in Hnd as [Hn _]. apply Hn. apply elem_of_app. right. by left.
    - exfalso. apply NoDup_cons in Hnd as [Hn _]. apply Hn. apply elem_of_app. right. by left.
    - f_equal. apply IH; [done|]. by apply NoDup_cons in Hnd as [_ ?]. }
  pose proof (sublist_subseteq _ _ H1). set_solver.
Qed.

(** [c] waits behind nobody in [S] twice. *)
Record waiting (c : RowId) (since : Z) (S : list RowId) (tasks : CreatorTasks) (turns : IntakeTurns) : Prop := {
  wt_idle : c ∉ ct_active tasks;
  wt_old : ∀ n, it_last_started turns !! c = Some n → n < since;
  wt_new : ∀ x, x ∈ S → ∃ n, it_last_started turns !! x = Some n ∧ since <= n;
  wt_since : since <= it_next turns;
  wt_nodup : NoDup S;
  wt_slots : tasks_wf tasks;
}.

(** A tick while the server runs, with these Creators ready; or the end of a pass. *)
Definition steady (creators : list RowId) (ev : LoopEvent) : Prop :=
  match ev with
  | PassEnded _ => True
  | Tick ready may_start => (∃ e, ready = Err e) ∨ (∃ l, ready = Ok l ∧ l ≡ₚ creators) ∧ ∀ x, may_start x = true
  end.

Lemma join_next_wf tasks x : tasks_wf tasks → tasks_wf (join_next tasks x).
Proof.
  unfold tasks_wf, available_slots, join_next. simpl. intros H.
  pose proof (subseteq_size (ct_active tasks ∖ {[x]}) (ct_active tasks) ltac:(set_solver)). lia.
Qed.

Lemma start_passes_waiting creators c since S tasks turns may l passes tasks' turns' :
  NoDup creators → c ∈ creators → S ⊆ creators → l ≡ₚ creators → (∀ x, may x = true) →
  waiting c since S tasks turns → start_intake_passes may tasks turns l = (passes, tasks', turns') →
  passes ⊆ creators ∧ (∀ p1 p2, passes = p1 ++ p2 → c ∉ p1 → NoDup (S ++ p1))
  ∧ (c ∉ passes → waiting c since (S ++ passes) tasks' turns').
Proof.
  intros Hnd Hc HS Hl Hmay [W1 W2 W3 W4 W5 W6] Hs. unfold start_intake_passes, order in Hs.
  set (last := filter (λ kv : RowId * Z, kv.1 ∈ l) (it_last_started turns)) in Hs.
  set (cmp := λ a b, opt_compare Z.compare (last !! a) (last !! b)) in Hs.
  assert (PreCompare cmp) as Hcmp by (apply (precompare_pullback (λ a, last !! a) (opt_compare Z.compare))).
  pose proof (sort_by_sorted cmp l) as Hsorted.
  assert (sort_by cmp l ≡ₚ creators) as Hp by (by rewrite sort_by_Permutation).
  assert (∀ x, x ∈ creators → last !! x = it_last_started turns !! x) as Hlast.
  { intros x Hx. unfold last. destruct (it_last_started turns !! x) eqn:E.
    - apply map_lookup_filter_Some. split; [done|]. simpl. by rewrite Hl.
    - by apply map_lookup_filter_None; left. }
  pose proof (spawn_passes_spec _ _ _ _ _ _ _ _ W6 Hs) as [H1 H2 H3 H4 H5 H6 H7]. simpl in *.
  assert (passes ⊆ creators) as Hsub.
  { intros x Hx. rewrite Forall_forall in H2. destruct (H2 _ Hx) as [Hx' _]. by rewrite Hp in Hx'. }
  assert (c ∈ sort_by cmp l) as (l1 & l2 & El)%list_elem_of_split by by rewrite Hp.
  rewrite El in Hs, Hsorted.
  assert (NoDup (l1 ++ c :: l2)) as Hnd' by (rewrite <- El, Hp; done).
  assert (c ∉ l1) as Hc1. { intros Hin. apply NoDup_app in Hnd' as (_ & Hd & _). apply (Hd _ Hin). by left. }
  assert (∀ p1 p2, passes = p1 ++ p2 → c ∉ p1 → p1 ⊆ l1) as Hbefore.
  { intros p1 p2 Ep Hc'. destruct (decide (c ∈ p2)) as [(m1 & m2 & ->)%list_elem_of_split|Hc2].
    - pose proof (spawn_passes_sublist _ _ _ _ _ _ _ _ Hs) as Hsl. rewrite Ep, app_assoc in Hsl.
      apply sublist_before in Hsl; [set_solver|done].
    - rewrite Ep in Hs. apply (spawn_passes_before _ _ _ _ _ _ _ _ _ _ Hmay W6 W1 W1 Hc1) in Hs; [set_solver|].
      by apply not_elem_of_app. }
  assert (∀ x, x ∈ l1 → x ∉ S) as Hdisj.
  { intros x Hx1 Hxs. destruct (W3 _ Hxs) as (n & Hn & Hsn).
    assert (cmp_le cmp x c) as Hle. { eapply StronglySorted_app_1_elem_of; [exact Hsorted|exact Hx1|by left]. }
    unfold cmp_le, cmp in Hle. rewrite (Hlast c Hc), (Hlast x (HS _ Hxs)), Hn in Hle. simpl in Hle.
    destruct (it_last_started turns !! c) as [m|] eqn:Em; [|done]. specialize (W2 _ eq_refl). rewrite Z.compare_le_iff in Hle. lia. }
  assert (∀ p1 p2, passes = p1 ++ p2 → c ∉ p1 → NoDup (S ++ p1)) as Hnodup.
  { intros p1 p2 Ep Hc'. apply NoDup_app. split_and!; [done| |].
    - intros x Hx Hin. by apply (Hdisj x (Hbefore _ _ Ep Hc' x Hin)).
    - rewrite Ep in H1. by apply NoDup_app in H1 as (? & _ & _). }
  split; [done|]. split; [done|]. intros Hcp.
  assert (∀ x, x ∈ passes → x ∉ S) as Hnew.
  { intros x Hx. apply Hdisj. by apply (Hbefore passes [] (eq_sym (app_nil_r _)) Hcp). }
  split.
  - rewrite H3. rewrite not_elem_of_union, not_elem_of_list_to_set. done.
  - intros n Hn. rewrite (H5 _ Hcp), (Hlast c Hc) in Hn. by apply W2.
  - intros x [Hx|Hx]%elem_of_app.
    + destruct (W3 _ Hx) as (n & Hn & Hsn). exists n. split; [|done]. rewrite H5, (Hlast x (HS _ Hx)); [done|].
      intros Hin. by apply (Hnew _ Hin).
    + destruct (H6 _ Hx) as (n & Hn & Hb). exists n. split; [done|lia].
  - lia.
  - by apply (Hnodup passes [] (eq_sym (app_nil_r _))).
  - done.
Qed.

Lemma loop_waiting creators c since evs S tasks turns passes tasks' turns' :
  NoDup creators → c ∈ creators → S ⊆ creators → Forall (steady creators) evs →
  waiting c since S tasks turns → allowance_intake_loop tasks turns evs = (passes, tasks', turns') →
  ∀ p1 p2, passes = p1 ++ p2 → c ∉ p1 → NoDup (S ++ p1) ∧ p1 ⊆ creators.
Proof.
  intros Hnd Hc. revert S tasks turns passes tasks' turns'.
  induction evs as [|ev evs IH]; intros S tasks turns passes tasks' turns' HS Hevs Hw; simpl.
  { intros [= <- <- <-] p1 p2 [-> ->]%eq_sym%app_nil _. rewrite app_nil_r. split; [apply Hw|set_solver]. }
  apply Forall_cons in Hevs as [Hev Hevs].
  destruct (loop_turn tasks turns ev) as [[ps ts] us] eqn:Et.
  destruct (allowance_intake_loop ts us evs) as [[later ts'] us'] eqn:El. intros [= <- <- <-] p1 p2 Ep Hp1.
  assert (ps ⊆ creators ∧ (∀ q1 q2, ps = q1 ++ q2 → c ∉ q1 → NoDup (S ++ q1))
          ∧ (c ∉ ps → waiting c since (S ++ ps) ts us)) as (Hps & Hfirst & Hrest).
  { assert (waiting c since S ts us → ps = [] → ps ⊆ creators ∧ (∀ q1 q2, ps = q1 ++ q2 → c ∉ q1 → NoDup (S ++ q1))
            ∧ (c ∉ ps → waiting c since (S ++ ps) ts us)) as Hnone.
    { intros Hw' ->. rewrite app_nil_r. split_and!; [set_solver| |done].
      intros q1 q2 [-> ->]%eq_sym%app_nil _. rewrite app_nil_r. apply Hw. }
    destruct ev as [x|ready may]; simpl in *.
    - injection Et as <- <- <-. apply Hnone; [|done]. destruct Hw. split; try done; [set_solver|by apply join_next_wf].
    - destruct (available_slots tasks =? 0); [injection Et as <- <- <-; by apply Hnone|].
      destruct Hev as [[e ->]|[(l & -> & Hl) Hmay]]; [injection Et as <- <- <-; by apply Hnone|].
      by eapply start_passes_waiting. }
  apply app_eq_app in Ep as (k & [[-> Ek]|[-> Ek]]).
  - split; [by eapply Hfirst|set_solver].
  - apply not_elem_of_app in Hp1 as [Hn1 Hn2].
    destruct (IH (S ++ ps) ts us later ts' us' ltac:(set_solver) Hevs (Hrest Hn1) El k p2 Ek Hn2) as [H1 H2].
    rewrite app_assoc. split; [done|set_solver].
Qed.

Lemma loop_wf evs tasks turns passes tasks' turns' :
  tasks_wf tasks → turns_wf turns → allowance_intake_loop tasks turns evs = (passes, tasks', turns') →
  tasks_wf tasks' ∧ turns_wf turns' ∧ ct_limit tasks' = ct_limit tasks.
Proof.
  revert tasks turns passes tasks' turns'. induction evs as [|ev evs IH]; intros tasks turns passes tasks' turns' Ht Hu; simpl.
  { by intros [= <- <- <-]. }
  destruct (loop_turn tasks turns ev) as [[ps ts] us] eqn:Et.
  destruct (allowance_intake_loop ts us evs) as [[later ts'] us'] eqn:El. intros [= <- <- <-].
  assert (tasks_wf ts ∧ turns_wf us ∧ ct_limit ts = ct_limit tasks) as (H1 & H2 & <-); [|by eapply IH].
  destruct ev as [x|ready may]; simpl in Et; [injection Et as <- <- <-; split; [by apply join_next_wf|done]|].
  destruct (available_slots tasks =? 0); [by injection Et as <- <- <-|].
  destruct ready as [l|e]; [|by injection Et as <- <- <-]. unfold start_intake_passes in Et.
  destruct (order turns l) as [ordered turns1] eqn:Eo. unfold order in Eo. injection Eo as Eo <-.
  pose proof (spawn_passes_spec _ _ _ _ _ _ _ _ Ht Et) as [S1 S2 S3 S4 S5 S6 S7]. simpl in *.
  split_and!; [done| |by eapply spawn_passes_limit].
  intros x n Hn. destruct (decide (x ∈ ps)) as [Hx|Hx].
  - destruct (S6 _ Hx) as (m & Hm & Hb). rewrite Hm in Hn. injection Hn as <-. lia.
  - rewrite (S5 _ Hx) in Hn. apply map_lookup_filter_Some in Hn as [Hn _]. specialize (Hu _ _ Hn). lia.
Qed.

Lemma turns_wf_default : turns_wf IntakeTurns_default.
Proof. intros x n Hx. unfold IntakeTurns_default in Hx. cbn [it_last_started] in Hx. by rewrite lookup_empty in Hx. Qed.

(** C36: every Creator gets its turn.  At most the configured number of passes runs at once.
    After any execution of the intake loop, consider a ready Creator that is not running, and
    any continuation in which the server keeps running and the ready Creators stay the same
    (ticks whose query failed and ended passes, in any order, included).  No other Creator is
    started twice before it; of as many starts as there are ready Creators, one is its own;
    and a tick that finds a free slot while it waits always starts somebody. *)
Theorem intake_turns_fair limit before passes tasks turns creators c :
  0 < limit → allowance_intake_loop (CreatorTasks_new limit) IntakeTurns_default before = (passes, tasks, turns) →
  Z.of_nat (size (ct_active tasks)) <= limit
  ∧ (NoDup creators → c ∈ creators → c ∉ ct_active tasks →
     (∀ evs later tasks' turns', Forall (steady creators) evs →
        allowance_intake_loop tasks turns evs = (later, tasks', turns') →
        (∀ sooner rest, later = sooner ++ rest → c ∉ sooner → NoDup sooner)
        ∧ ((length creators <= length later)%nat → c ∈ later))
     ∧ ∀ ready may_start, ready ≡ₚ creators → (∀ x, may_start x = true) → Z.of_nat (size (ct_active tasks)) < limit →
         (loop_turn tasks turns (Tick (Ok ready) may_start)).1.1 ≠ []).
Proof.
  intros Hl Hb.
  assert (tasks_wf (CreatorTasks_new limit)) as Hwf.
  { unfold tasks_wf, available_slots, CreatorTasks_new. cbn [ct_active ct_limit]. rewrite (size_empty (C:=gset RowId)). lia. }
  destruct (loop_wf _ _ _ _ _ _ Hwf turns_wf_default Hb) as (Ht & Hu & El).
  split; [unfold tasks_wf, available_slots in Ht; simpl in *; lia|].
  intros Hnd Hc Hidle. split.
  - intros evs later tasks' turns' Hevs Hrun.
    assert (∀ p1 p2, later = p1 ++ p2 → c ∉ p1 → NoDup p1 ∧ p1 ⊆ creators) as Hp.
    { apply (loop_waiting creators c (it_next turns) evs [] tasks turns later tasks' turns'); try done; [set_solver|].
      split; [done|intros n; apply Hu|by intros ? ?%not_elem_of_nil|done|constructor|done]. }
    split; [intros sooner rest E Hn; by apply (Hp _ _ E Hn)|].
    intros Hlen. destruct (decide (c ∈ later)) as [|Hn]; [done|exfalso].
    destruct (Hp later [] (eq_sym (app_nil_r _)) Hn) as [H1 H2].
    assert (c :: later ⊆+ creators) as Hsub%submseteq_length. { apply NoDup_submseteq; [by constructor|]. set_solver. }
    simpl in Hsub. lia.
  - intros ready may Hready Hmay Hfree. assert (available_slots tasks ≠ 0) as Hs.
    { unfold available_slots. simpl in El. lia. }
    simpl. apply Z.eqb_neq in Hs as ->. unfold start_intake_passes, order.
    destruct (spawn_passes _ _ _ _ _) as [[ps ts] us] eqn:Es. simpl.
    eapply spawn_passes_some in Es; [done|done|done|done| |unfold available_slots; simpl in El; lia].
    by rewrite sort_by_Permutation, Hready.
Qed.

(** ** The schedule *)

Section schedule.
Context {core : LocksCore} {Peer : Type} `{Countable Peer} {AllowanceId : Type}.
Notation IntakeCall := (IntakeCall (Peer := Peer) (AllowanceId := AllowanceId)).
Notation AllowanceIntake := (AllowanceIntake (Peer := Peer)).
Notation Key := (RowId * Peer)%type.
Implicit Types (intake : AllowanceIntake) (k : Key).

(** The schedule answered this call, and what it left. *)
Definition answers intake (ev : event IntakeCall) intake' : Prop :=
  match ev with
  | Ev e x =>
      match e in Allowances.IntakeCall X return X → Prop with
      | IsDue c p newest now => λ due, is_due intake c p newest now = (due, intake')
      | Begin c p newest now => λ ticket, begin intake c p newest now = (ticket, intake')
      | LastStarted c p => λ at_, last_started_of intake c p = (at_, intake')
      | Finish ticket drained scan => λ _, intake' = finish intake ticket drained scan
      | _ => λ _, intake' = intake
      end x
  end.

Fixpoint replays intake (log : list (event IntakeCall)) intake' : Prop :=
  match log with
  | [] => intake' = intake
  | ev :: log => ∃ intake1, answers intake ev intake1 ∧ replays intake1 log intake'
  end.

Definition ticket_key (ticket : IntakeTicket (Peer := Peer)) : Key := (tk_creator_id ticket, tk_reader ticket).

(** The reads of one reader with what their scans took, the latest first; a read that is not
    finished counts as the whole deadline. *)
Definition read_event k (reads : list (Z * Z)) (ev : event IntakeCall) : list (Z * Z) :=
  match ev with
  | Ev e x =>
      match e in Allowances.IntakeCall X return X → list (Z * Z) with
      | Begin c p _ now => λ ticket,
          if is_some ticket && bool_decide ((c, p) = k) then (now, ALLOWANCE_INTAKE_PASS_DEADLINE) :: reads else reads
      | Finish ticket _ scan => λ _,
          match reads with
          | (t, _) :: earlier => if decide (ticket_key ticket = k) then (t, scan) :: earlier else reads
          | [] => []
          end
      | _ => λ _, reads
      end x
  end.

Definition reads_of k (log : list (event IntakeCall)) : list (Z * Z) := foldl (read_event k) [] log.

(** The newest item that a read of this reader covered completely. *)
Definition covered_event k (covered : option Z) (ev : event IntakeCall) : option Z :=
  match ev with
  | Ev e x =>
      match e in Allowances.IntakeCall X return X → option Z with
      | Finish ticket drained _ => λ _,
          if drained && bool_decide (ticket_key ticket = k) then Some (tk_newest_stream_item_id ticket) else covered
      | _ => λ _, covered
      end x
  end.

Definition covered_of k (log : list (event IntakeCall)) : option Z := foldl (covered_event k) None log.

Fixpoint spaced (cooldown : Z) (reads : list (Z * Z)) : Prop :=
  match reads with
  | (t2, _) :: (((t1, d1) :: _) as earlier) => Z.max cooldown (10 * d1) <= t2 - t1 ∧ spaced cooldown earlier
  | _ => True
  end.

Definition total (reads : list (Z * Z)) : Z := foldr (λ r acc, r.2 + acc) 0 reads.

Lemma spaced_share cooldown t d earlier t1 d1 :
  spaced cooldown ((t, d) :: earlier) → last ((t, d) :: earlier) = Some (t1, d1) →
  10 * total earlier <= t - t1 ∧ cooldown * Z.of_nat (length earlier) <= t - t1.
Proof.
  revert t d. induction earlier as [|[t0 d0] earlier IH]; intros t d Hs Hl; simpl in *.
  - injection Hl as <- <-. lia.
  - destruct Hs as [H1 H2]. destruct (IH t0 d0 H2 Hl). lia.
Qed.

(** The state of the schedule is what the log says. *)
Record tracks (cooldown : Z) intake k (reads : list (Z * Z)) (covered : option Z) : Prop := {
  tr_cooldown : ai_cooldown intake = cooldown;
  tr_covered : covered_through (reader_state intake k) = covered;
  tr_started : last_started (reader_state intake k) = fst <$> head reads;
  tr_scan : ∀ t d, head reads = Some (t, d) → last_scan (reader_state intake k) = d;
  tr_spaced : spaced cooldown reads;
}.

Lemma reader_state_with {T} intake c p (f : ReaderIntake → T * ReaderIntake) k :
  reader_state (with_reader intake c p f).2 k
  = if decide (k = (c, p)) then (f (reader_state intake k)).2 else reader_state intake k.
Proof.
  unfold with_reader. destruct (f (reader_state intake (c, p))) as [t st] eqn:E. unfold reader_state at 1. simpl.
  case_decide as Hk; [subst k; by rewrite lookup_insert_eq, E|by rewrite lookup_insert_ne].
Qed.

Lemma with_cooldown {T} intake c p (f : ReaderIntake → T * ReaderIntake) :
  ai_cooldown (with_reader intake c p f).2 = ai_cooldown intake.
Proof. unfold with_reader. by destruct (f _). Qed.

Lemma with_result {T} intake c p (f : ReaderIntake → T * ReaderIntake) :
  (with_reader intake c p f).1 = (f (reader_state intake (c, p))).1.
Proof. unfold with_reader. by destruct (f _). Qed.

Lemma is_due_keeps intake c p newest now k :
  reader_state (is_due intake c p newest now).2 k = reader_state intake k
  ∧ ai_cooldown (is_due intake c p newest now).2 = ai_cooldown intake.
Proof.
  destruct newest as [n|]; [|done]. unfold is_due. rewrite reader_state_with, with_cooldown. split; [|done]. by case_decide.
Qed.

(** When a reader is due. *)
Lemma is_due_exact cooldown intake k reads covered newest now :
  0 < cooldown → tracks cooldown intake k reads covered →
  (is_due intake k.1 k.2 (Some newest) now).1 = true
  ↔ (∀ m, covered = Some m → m < newest) ∧ ∀ t d, head reads = Some (t, d) → Z.max cooldown (10 * d) <= now - t.
Proof.
  intros Hc [T1 T2 T3 T4 _]. destruct k as [c p]. unfold is_due. rewrite with_result. cbn [fst snd]. rewrite andb_true_iff.
  unfold spacing, saturating_duration_since, ALLOWANCE_INTAKE_SPACING_FACTOR. rewrite T1, T2, T3. apply Morphisms_Prop.and_iff_morphism.
  - destruct covered as [m|]; [rewrite Z.ltb_lt|]; naive_solver.
  - destruct (head reads) as [[t d]|] eqn:Eh; simpl; [|naive_solver]. rewrite (T4 _ _ eq_refl), Z.leb_le. split.
    + intros Hle t' d' [= <- <-]. lia.
    + intros Hle. specialize (Hle _ _ eq_refl). lia.
Qed.

Lemma tracks_same cooldown intake intake' k reads covered :
  reader_state intake' k = reader_state intake k → ai_cooldown intake' = ai_cooldown intake →
  tracks cooldown intake k reads covered → tracks cooldown intake' k reads covered.
Proof. intros Hs Hc []. split; rewrite ?Hs, ?Hc; done. Qed.

Lemma tracks_begin cooldown intake intake' k reads covered c p newest now ticket :
  0 < cooldown → tracks cooldown intake k reads covered → begin intake c p newest now = (ticket, intake') →
  tracks cooldown intake' k (read_event k reads (Ev (Begin c p newest now) ticket)) covered.
Proof.
  intros Hc T Hb. unfold begin in Hb. destruct (is_due intake c p newest now) as [due intake1] eqn:Ed.
  pose proof (is_due_keeps intake c p newest now k) as [Hk Hcd]. rewrite Ed in Hk, Hcd. simpl in Hk, Hcd.
  pose proof (tracks_same _ _ _ _ _ _ Hk Hcd T) as T1. destruct due; [|injection Hb as <- <-; done].
  destruct newest as [n|]; [|done]. destruct (with_reader intake1 c p _) as [u intake2] eqn:Ew. injection Hb as <- <-. simpl.
  assert (intake2 = (with_reader intake1 c p (λ state,
    (tt, mk_ReaderIntake (covered_through state) (Some now) ALLOWANCE_INTAKE_PASS_DEADLINE))).2) as -> by by rewrite Ew.
  case_bool_decide as E.
  - destruct T1 as [A1 A2 A3 A4 A5]. subst k. split; rewrite ?reader_state_with, ?with_cooldown, ?decide_True; try done.
    + by intros t d [= <- <-].
    + simpl. destruct reads as [|[t1 d1] reads]; [done|]. split; [|done].
      assert ((is_due intake c p (Some n) now).1 = true) as Hd by by rewrite Ed.
      apply (is_due_exact cooldown intake (c, p) _ covered n now Hc T) in Hd as [_ Hd]. by apply (Hd t1 d1).
  - eapply tracks_same; [| |exact T1]; [|by rewrite with_cooldown].
    rewrite reader_state_with. case_decide; [by subst|done].
Qed.

Lemma tracks_event cooldown intake intake' k reads covered ev :
  0 < cooldown → tracks cooldown intake k reads covered → answers intake ev intake' →
  tracks cooldown intake' k (read_event k reads ev) (covered_event k covered ev).
Proof.
  intros Hc T. destruct ev as [X e x]. destruct e; simpl in x |- *; try by intros ->.
  - intros E. pose proof (is_due_keeps intake creator_id reader newest now k) as [H1 H2]. rewrite E in H1, H2.
    by eapply tracks_same.
  - intros E. by apply (tracks_begin _ _ _ _ _ _ _ _ _ _ _ Hc T E).
  - intros E. assert (intake' = (last_started_of intake creator_id reader).2) as -> by by rewrite E.
    unfold last_started_of. eapply tracks_same; [| |exact T]; [|by rewrite with_cooldown].
    rewrite reader_state_with. by case_decide.
  - intros ->. destruct T as [A1 A2 A3 A4 A5]. unfold finish. split; rewrite ?with_cooldown, ?reader_state_with; [done|..].
    + case_bool_decide as E; case_decide as E'; try (exfalso; by unfold ticket_key in *; simplify_eq); destruct drained; done.
    + case_decide as E'; simpl; rewrite A3; destruct reads as [|[t d] reads]; try done; by case_decide.
    + intros t d Hh. destruct reads as [|[t0 d0] reads]; [done|].
      case_decide as E'; case_decide as E; try (exfalso; by unfold ticket_key in *; simplify_eq); simpl in Hh.
      * by injection Hh as <- <-.
      * by apply (A4 t).
    + destruct reads as [|[t0 d0] reads]; [done|]. case_decide; [|done]. by destruct reads as [|[t1 d1] reads].
Qed.

Lemma tracks_log cooldown intake intake' k reads covered log :
  0 < cooldown → tracks cooldown intake k reads covered → replays intake log intake' →
  tracks cooldown intake' k (foldl (read_event k) reads log) (foldl (covered_event k) covered log).
Proof.
  intros Hc. revert intake reads covered. induction log as [|ev log IH]; intros intake reads covered T; simpl; [by intros ->|].
  intros (intake1 & Ha & Hr). eapply IH; [|exact Hr]. by eapply tracks_event.
Qed.

(** no reader can make the server spend more than about a tenth of its time on it.
    Along any interleaving of passes, two reads of a reader begin at least the cooldown and
    ten times the first one's scan apart, a read that was cut off counting as the whole
    deadline; so ten times what all scans but the last took, and the cooldown times their
    number, fit between the first and the last.  A reader is read again exactly when its link
    holds an item beyond what was covered and that time has passed. *)
Theorem allowance_reads_spaced cooldown log intake k newest now :
  0 < cooldown → replays (AllowanceIntake_new cooldown) log intake →
  spaced cooldown (reads_of k log)
  ∧ (∀ t d earlier t1 d1, reads_of k log = (t, d) :: earlier → last (reads_of k log) = Some (t1, d1) →
       10 * total earlier <= t - t1 ∧ cooldown * Z.of_nat (length earlier) <= t - t1)
  ∧ (is_some (begin intake k.1 k.2 (Some newest) now).1 = true
     ↔ (∀ m, covered_of k log = Some m → m < newest)
       ∧ ∀ t d, head (reads_of k log) = Some (t, d) → Z.max cooldown (10 * d) <= now - t).
Proof.
  intros Hc Hr.
  assert (tracks cooldown (AllowanceIntake_new cooldown) k [] None) as T0.
  { assert (reader_state (AllowanceIntake_new cooldown) k = ReaderIntake_default) as Ed by (unfold reader_state, AllowanceIntake_new; cbn [ai_readers]; by rewrite lookup_empty).
    by split; rewrite ?Ed. }
  pose proof (tracks_log _ _ _ _ _ _ _ Hc T0 Hr) as T. split_and!.
  - apply T.
  - intros t d earlier t1 d1 E Hl. pose proof (tr_spaced _ _ _ _ _ T) as Hs. unfold reads_of in *. rewrite E in Hs, Hl.
    by eapply spaced_share.
  - rewrite <- (is_due_exact _ _ _ _ _ newest now Hc T). unfold begin.
    destruct (is_due intake k.1 k.2 (Some newest) now) as [[] intake1]; [|done]. by destruct (with_reader _ _ _ _).
Qed.
End schedule.

(** ** A pass *)

Lemma all_runs_grows {E A} (p : prog E A) tr : all_runs p (λ tr' _, tr ⊆ tr') tr.
Proof.
  revert tr. induction p as [a|X e k IH]; intros tr; simpl; [done|]. intros x.
  eapply all_runs_mono; [|apply IH]. intros tr' a Hs. set_solver.
Qed.

Section pass.
Context {core : LocksCore} {Peer : Type} `{Countable Peer} {AllowanceId : Type} `{!EqDecision AllowanceId}.
Context (peer_display : Peer → string) (AllowanceId_new : string → option AllowanceId).
Notation IntakeCall := (IntakeCall (Peer := Peer) (AllowanceId := AllowanceId)).
Notation Ticket := (IntakeTicket (Peer := Peer)).
Notation log := (list (event IntakeCall)).

(** The protocol of a pass, as an automaton over its calls.  Before a read the pass asks
    whether to go on ([Asked]), stays within its budget ([Cleared]) and reads the clock
    ([Timed]). *)
Inductive Gate := Closed | Asked | Cleared | Timed (now : Z).

(** Within a read: the proposals still to be accepted, whether a call failed, and whether
    every pending proposal is within the limit. *)
Inductive Stage :=
  | Due
  | Scanning (since : Z)
  | Listed (since : Z) (answer : result PaykitSdkError (list AllowanceRecord))
  | Scanned (scan : Z) (failed complete : bool) (todo : list (AllowanceId * Z))
  | Locked (scan : Z) (complete : bool) (todo : list (AllowanceId * Z))
  | Accepted (scan : Z) (failed complete : bool) (todo : list (AllowanceId * Z)).

Inductive Phase :=
  | Between (gate : Gate) (since : option Z)
  | LookingUp
  | Reading (since : Z) (peer : Peer) (ticket : Ticket) (stage : Stage).

#[local] Instance ticket_eq_dec : EqDecision Ticket.
Proof. solve_decision. Defined.

Definition scanned (scan : Z) (answer : result PaykitSdkError (list AllowanceRecord)) : Stage :=
  match answer with
  | Err _ => Scanned scan true false []
  | Ok records =>
      let pending := omap (M := list) (awaiting_allowee_acceptance AllowanceId_new) records in
      Scanned scan false (Nat.leb (length pending) 4) (take 4 pending)
  end.

Definition on_clock (now : Z) (ph : Phase) : option Phase :=
  match ph with
  | Between Closed since => Some (Between Closed since)
  | Between Asked (Some since) =>
      Some (Between (if ALLOWANCE_INTAKE_READ_BUDGET <=? saturating_duration_since now since then Closed else Cleared) (Some since))
  | Between Cleared since => Some (Between (Timed now) since)
  | Reading since peer ticket Due => Some (Reading since peer ticket (Scanning now))
  | Reading since peer ticket (Listed t answer) =>
      Some (Reading since peer ticket (scanned (saturating_duration_since now t) answer))
  | _ => None
  end.

Definition protocol (ph : Phase) (ev : event IntakeCall) : option Phase :=
  match ev with
  | Ev e x =>
      match e in Allowances.IntakeCall X return X → option Phase with
      | Now => λ now, on_clock now ph
      | LockCreator => λ _, match ph with Between Closed None => Some LookingUp | _ => None end
      | ListLinkedPeers => λ _, match ph with LookingUp => Some LookingUp | _ => None end
      | InvoicedReaders _ _ => λ _, match ph with Between Closed None => Some ph | _ => None end
      | StreamItems => λ _, match ph with Between Closed None => Some ph | _ => None end
      | IsDue _ _ _ _ => λ _, match ph with Between Closed None => Some ph | _ => None end
      | LastStarted _ _ => λ _, match ph with Between Closed None => Some ph | _ => None end
      | KeepReading => λ keep, match ph with
          | Between Closed since =>
              Some (Between (if negb keep then Closed else if is_some since then Asked else Cleared) since)
          | _ => None end
      | Begin _ peer _ now => λ ticket, match ph with
          | Between (Timed t) since =>
              if t =? now then
                Some (match ticket with
                      | Some ticket => Reading (default now since) peer ticket Due
                      | None => Between Closed since
                      end)
              else None
          | _ => None end
      | ListAllowances reader => λ answer, match ph with
          | Reading since peer ticket (Scanning t) =>
              if decide (reader = peer) then Some (Reading since peer ticket (Listed t answer)) else None
          | _ => None end
      | LockWithin wait => λ locked, match ph with
          | Reading since peer ticket (Scanned scan false complete (next :: todo)) =>
              if wait =? ALLOWANCE_INTAKE_LOCK_WAIT then
                Some (Reading since peer ticket
                  (if locked then Locked scan complete (next :: todo) else Scanned scan true complete (next :: todo)))
              else None
          | _ => None end
      | AcceptAllowance reader id item => λ answer, match ph with
          | Reading since peer ticket (Locked scan complete (next :: todo)) =>
              if decide (reader = peer ∧ next = (id, item)) then
                Some (Reading since peer ticket
                  (if is_ok answer then Accepted scan false complete todo else Accepted scan true complete (next :: todo)))
              else None
          | _ => None end
      | Unlock => λ _, match ph with
          | LookingUp => Some (Between Closed None)
          | Reading since peer ticket (Accepted scan failed complete todo) =>
              Some (Reading since peer ticket (Scanned scan failed complete todo))
          | _ => None end
      | Finish given drained took => λ _, match ph with
          | Reading since peer ticket (Scanned scan failed complete todo) =>
              if decide (given = ticket ∧ took = scan ∧ drained = negb failed && complete ∧ (failed = true ∨ todo = []))
              then Some (Between Closed (Some since)) else None
          | _ => None end
      end x
  end.

Definition follows (tr : log) : option Phase := foldl (λ ph ev, ph ≫= λ ph, protocol ph ev) (Some (Between Closed None)) tr.

Definition accepted_in (tr : log) : nat :=
  length (omap (λ ev : event IntakeCall, match ev with
    | Ev e x => match e in Allowances.IntakeCall X return X → option unit with
                | AcceptAllowance _ _ _ => λ answer, if is_ok answer then Some tt else None
                | _ => λ _, None
                end x
    end) tr).

Lemma follows_snoc tr ev : follows (tr ++ [ev]) = follows tr ≫= λ ph, protocol ph ev.
Proof. unfold follows. by rewrite foldl_app. Qed.

Lemma accepted_snoc tr ev : accepted_in (tr ++ [ev]) = (accepted_in tr + accepted_in [ev])%nat.
Proof. unfold accepted_in. by rewrite omap_app, length_app. Qed.

Lemma accept_each_follows since peer ticket scan complete todo accepted tr :
  follows tr = Some (Reading since peer ticket (Scanned scan false complete todo)) →
  all_runs (accept_each peer ALLOWANCE_INTAKE_LOCK_WAIT accepted todo) (λ tr' res,
    ∃ failed todo', follows tr' = Some (Reading since peer ticket (Scanned scan failed complete todo'))
      ∧ failed = negb (is_ok res.2) ∧ (failed = true ∨ todo' = [])
      ∧ (accepted_in tr' + accepted = accepted_in tr + res.1)%nat) tr.
Proof.
  revert accepted tr. induction todo as [|[id item] todo IH]; intros accepted tr Hf; simpl.
  { exists false, []. auto with lia. }
  intros locked. destruct locked; simpl.
  2: { exists true, ((id, item) :: todo). rewrite follows_snoc, Hf, accepted_snoc. simpl. auto with lia. }
  intros answer u. destruct answer as [[]|e]; simpl.
  - eapply all_runs_mono; [|apply (IH (S accepted))].
    + intros tr' res (failed & todo' & H1 & H2 & H3 & H4). exists failed, todo'. split_and!; [done..|].
      rewrite !accepted_snoc in H4. unfold accepted_in in *. simpl in *. lia.
    + rewrite !follows_snoc, Hf. simpl. by rewrite decide_True.
  - exists true, ((id, item) :: todo). rewrite !follows_snoc, Hf, !accepted_snoc. simpl. rewrite decide_True by done.
    simpl. split_and!; [done|done|by left|]. unfold accepted_in. simpl. lia.
Qed.

Lemma accept_proposals_follows since peer ticket tr :
  follows tr = Some (Reading since peer ticket Due) →
  all_runs (accept_proposals AllowanceId_new peer ALLOWANCE_INTAKE_LOCK_WAIT) (λ tr' read,
    ∃ failed complete todo, follows tr' = Some (Reading since peer ticket (Scanned (ir_scan read) failed complete todo))
      ∧ match ir_result read with Ok drained => drained | Err _ => false end = negb failed && complete
      ∧ (failed = true ∨ todo = []) ∧ (accepted_in tr' = accepted_in tr + ir_accepted read)%nat) tr.
Proof.
  intros Hf. simpl. intros t0 answer. destruct answer as [records|e]; simpl; intros t1.
  - set (pending := omap (awaiting_allowee_acceptance AllowanceId_new) records).
    set (scan := saturating_duration_since t1 t0).
    assert (take 4 (take 5 pending) = take 4 pending) as Et by by rewrite take_take.
    assert (Nat.leb (length (take 5 pending)) 4 = Nat.leb (length pending) 4) as El.
    { rewrite length_take. apply eq_true_iff_eq. rewrite !Nat.leb_le. lia. }
    apply all_runs_bind. unfold MAX_ALLOWANCE_ACCEPTANCES_PER_READ in *. simpl (4 + 1)%nat. rewrite Et.
    eapply all_runs_mono; [|eapply (accept_each_follows since peer ticket scan (Nat.leb (length pending) 4))].
    + intros tr' [n outcome] (failed & todo & H1 & H2 & H3 & H4). simpl in *. exists failed, (Nat.leb (length pending) 4), todo.
      split_and!; [done| |done|rewrite !accepted_snoc in H4; unfold accepted_in in *; simpl in *; lia].
      rewrite H2. destruct outcome; simpl; [exact El|done].
    + rewrite !follows_snoc, Hf. simpl. by rewrite decide_True.
  - exists true, false, []. rewrite !follows_snoc, Hf, !accepted_snoc. simpl. rewrite decide_True by done. simpl.
    split_and!; [done|done|by left|unfold accepted_in; simpl; lia].
Qed.

#[local] Opaque accept_proposals.

Notation pass_limits := (mk_ReadLimits ALLOWANCE_INTAKE_READ_BUDGET ALLOWANCE_INTAKE_LOCK_WAIT).

Lemma read_each_follows creator since queued readers tr :
  follows tr = Some (Between Closed since) →
  all_runs (read_each AllowanceId_new creator pass_limits since queued readers) (λ tr' n,
    (∃ since', follows tr' = Some (Between Closed since')) ∧ (accepted_in tr' + queued = accepted_in tr + n)%nat) tr.
Proof.
  revert since queued tr. induction readers as [|[peer newest] readers IH]; intros since queued tr Hf; simpl.
  { eauto with lia. }
  intros keep. destruct keep; simpl.
  2: { rewrite follows_snoc, Hf, accepted_snoc. simpl. split; [eauto|unfold accepted_in; simpl; lia]. }
  assert (∀ tr1, follows tr1 = Some (Between Cleared since) → accepted_in tr1 = accepted_in tr →
    all_runs (now ⇐ call Now; ticket ⇐ call (Begin creator peer (Some newest) now);
      match ticket with
      | None => read_each AllowanceId_new creator pass_limits since queued readers
      | Some ticket =>
          read ⇐ accept_proposals AllowanceId_new peer ALLOWANCE_INTAKE_LOCK_WAIT;
          _ ⇐ call (Finish ticket (match ir_result read with Ok drained => drained | Err _ => false end) (ir_scan read));
          read_each AllowanceId_new creator pass_limits (Some (default now since)) (queued + ir_accepted read) readers
      end) (λ tr' n, (∃ since', follows tr' = Some (Between Closed since')) ∧ (accepted_in tr' + queued = accepted_in tr + n)%nat) tr1) as Hread.
  { intros tr1 Hf1 Ha1 now ticket. simpl. destruct ticket as [ticket|].
    - apply all_runs_bind. eapply all_runs_mono; [|apply (accept_proposals_follows (default now since) peer ticket)].
      + intros tr2 read (failed & complete & todo & H1 & H2 & H3 & H4) u. simpl.
        rewrite !accepted_snoc in H4. unfold accepted_in at 3 4 in H4. simpl in H4.
        eapply all_runs_mono; [|apply (IH (Some (default now since)))].
        * intros tr' n [Hw Hc]. split; [done|]. rewrite accepted_snoc in Hc. unfold accepted_in at 3 in Hc. simpl in Hc. lia.
        * rewrite follows_snoc, H1. simpl. by rewrite decide_True.
      + rewrite !follows_snoc, Hf1. simpl. by rewrite Z.eqb_refl.
    - eapply all_runs_mono; [|apply (IH since)].
      + intros tr' n [Hw Hc]. split; [done|]. rewrite !accepted_snoc in Hc. unfold accepted_in at 3 4 in Hc. simpl in Hc. lia.
      + rewrite !follows_snoc, Hf1. simpl. by rewrite Z.eqb_refl. }
  destruct since as [since|]; simpl.
  - intros now. destruct (ALLOWANCE_INTAKE_READ_BUDGET <=? saturating_duration_since now since) eqn:Eb.
    + simpl. rewrite !follows_snoc, Hf, !accepted_snoc. simpl. rewrite Eb. split; [eauto|unfold accepted_in; simpl; lia].
    + apply Hread; [rewrite !follows_snoc, Hf; simpl; by rewrite Eb|rewrite !accepted_snoc; unfold accepted_in; simpl; lia].
  - apply Hread; [rewrite follows_snoc, Hf; done|rewrite accepted_snoc; unfold accepted_in; simpl; lia].
Qed.

Definition listed_peer (ev : event IntakeCall) : option Peer :=
  match ev with
  | Ev e x => match e in Allowances.IntakeCall X return option Peer with ListAllowances reader => Some reader | _ => None end
  end.

(** The peers whose Allowances were read. *)
Definition peers_read (tr : log) : list Peer := omap listed_peer tr.

Lemma peers_read_snoc tr ev : peers_read (tr ++ [ev]) = peers_read tr ++ peers_read [ev].
Proof. apply omap_app. Qed.

Lemma accept_each_reads peer wait accepted todo tr :
  all_runs (accept_each peer wait accepted todo) (λ tr' _, peers_read tr' = peers_read tr) tr.
Proof.
  revert accepted tr. induction todo as [|[id item] todo IH]; intros accepted tr; simpl; [done|].
  intros [|]; simpl; [|by rewrite peers_read_snoc, app_nil_r]. intros [[]|e] u; simpl.
  - eapply all_runs_mono; [|apply IH]. intros tr' res ->. by rewrite !peers_read_snoc, !app_nil_r.
  - by rewrite !peers_read_snoc, !app_nil_r.
Qed.

#[local] Transparent accept_proposals.

Lemma accept_proposals_reads peer wait tr :
  all_runs (accept_proposals AllowanceId_new peer wait) (λ tr' _, peers_read tr' = peers_read tr ++ [peer]) tr.
Proof.
  simpl. intros t0 [records|e] t1; simpl.
  - apply all_runs_bind. eapply all_runs_mono; [|apply accept_each_reads]. intros tr' [n o] E.
    simpl. by rewrite E, !peers_read_snoc, !app_nil_r.
  - by rewrite !peers_read_snoc, !app_nil_r.
Qed.

#[local] Opaque accept_proposals.

Lemma read_each_reads creator limits since queued readers tr :
  all_runs (read_each AllowanceId_new creator limits since queued readers)
    (λ tr' _, ∀ q, q ∈ peers_read tr' → q ∈ peers_read tr ∨ q ∈ readers.*1) tr.
Proof.
  revert since queued tr. induction readers as [|[peer newest] readers IH]; intros since queued tr; simpl; [by auto|].
  intros keep. destruct keep; simpl; [|intros q; rewrite peers_read_snoc, app_nil_r; by auto].
  apply all_runs_bind.
  assert (∀ tr1, peers_read tr1 = peers_read tr → all_runs (over_budget since (rl_budget limits))
    (λ tr2 _, peers_read tr2 = peers_read tr) tr1) as Hbudget.
  { intros tr1 E. destruct since; simpl; [|done]. intros now. by rewrite peers_read_snoc, app_nil_r. }
  eapply all_runs_mono; [|apply Hbudget; by rewrite peers_read_snoc, app_nil_r].
  intros tr1 over E1. destruct over; simpl; [rewrite E1; by auto|]. intros now [ticket|]; simpl.
  - apply all_runs_bind. eapply all_runs_mono; [|apply accept_proposals_reads]. intros tr2 read E2 u. simpl.
    eapply all_runs_mono; [|apply IH]. intros tr3 n H3 q Hq. specialize (H3 q Hq).
    rewrite peers_read_snoc, E2, !peers_read_snoc, E1, !app_nil_r, elem_of_app, list_elem_of_singleton in H3.
    rewrite elem_of_cons. naive_solver.
  - eapply all_runs_mono; [|apply IH]. intros tr3 n H3 q Hq. specialize (H3 q Hq).
    rewrite !peers_read_snoc, E1, !app_nil_r in H3. rewrite elem_of_cons. naive_solver.
Qed.

(** Calls that ask without reading or accepting. *)
Record quiet (tr tr' : log) : Prop := {
  qt_follows : follows tr' = follows tr;
  qt_accepted : accepted_in tr' = accepted_in tr;
  qt_reads : peers_read tr' = peers_read tr;
  qt_kept : tr ⊆ tr';
}.

Lemma quiet_refl tr : quiet tr tr.
Proof. by split. Qed.

Lemma quiet_trans tr1 tr2 tr3 : quiet tr1 tr2 → quiet tr2 tr3 → quiet tr1 tr3.
Proof. intros [] []. split; [congruence..|set_solver]. Qed.

Lemma intake_quiet_snoc tr ev :
  (∀ since, follows tr = Some (Between Closed since) → protocol (Between Closed since) ev = Some (Between Closed since)) →
  (∃ since, follows tr = Some (Between Closed since)) → accepted_in [ev] = 0%nat → listed_peer ev = None → quiet tr (tr ++ [ev]).
Proof.
  intros Hp [since Hf] Ha Hl. split; [rewrite follows_snoc, Hf; simpl; by apply Hp|rewrite accepted_snoc, Ha; lia| |set_solver].
  rewrite peers_read_snoc. unfold peers_read at 2. simpl. by rewrite Hl, app_nil_r.
Qed.

Lemma last_starts_quiet creator readers tr :
  follows tr = Some (Between Closed None) →
  all_runs (last_starts creator readers) (λ tr' res, quiet tr tr' ∧ snd <$> res = readers) tr.
Proof.
  revert tr. induction readers as [|r readers IH]; intros tr Hf; simpl; [split; [apply quiet_refl|done]|].
  intros at_. simpl. apply all_runs_bind.
  assert (quiet tr (tr ++ [Ev (LastStarted creator r.1) at_])) as Q.
  { apply intake_quiet_snoc; [|by exists None|done|done]. intros since. rewrite Hf. by intros [= <-]. }
  eapply all_runs_mono; [|apply IH; by rewrite (qt_follows _ _ Q)]. intros tr' res [Q' <-]. simpl. split; [by eapply quiet_trans|done].
Qed.

Lemma due_readers_quiet creator now newest eligible tr :
  follows tr = Some (Between Closed None) →
  all_runs (due_readers creator now newest eligible) (λ tr' res, quiet tr tr' ∧
    ∀ q item, (q, item) ∈ res → q ∈ eligible ∧ Ev (IsDue creator q (Some item) now) true ∈ tr') tr.
Proof.
  revert tr. induction eligible as [|peer eligible IH]; intros tr Hf; simpl.
  { split; [apply quiet_refl|]. by intros q item ?%not_elem_of_nil. }
  intros due. simpl. apply all_runs_bind. set (ev := Ev (IsDue creator peer (newest !! peer) now) due).
  assert (quiet tr (tr ++ [ev])) as Q.
  { apply intake_quiet_snoc; [|by exists None|done|done]. intros since. rewrite Hf. by intros [= <-]. }
  eapply all_runs_mono; [|apply IH; by rewrite (qt_follows _ _ Q)]. intros tr' res [Q' Hres]. simpl.
  split; [by eapply quiet_trans|].
  assert (∀ q item, (q, item) ∈ res → q ∈ peer :: eligible ∧ Ev (IsDue creator q (Some item) now) true ∈ tr') as Hrest.
  { intros q item Hin. destruct (Hres _ _ Hin). split; [by right|done]. }
  destruct (newest !! peer) as [n|] eqn:En; [|done]. destruct due; [|done].
  intros q item [[= -> ->]|Hin]%elem_of_cons; [|by apply Hrest]. split; [by left|].
  apply (qt_kept _ _ Q'). unfold ev. set_solver.
Qed.

Lemma read_readers_follows creator readers tr :
  follows tr = Some (Between Closed None) →
  all_runs (read_readers AllowanceId_new creator readers pass_limits) (λ tr' n,
    (∃ since', follows tr' = Some (Between Closed since')) ∧ (accepted_in tr' = accepted_in tr + n)%nat
    ∧ tr ⊆ tr' ∧ ∀ q, q ∈ peers_read tr' → q ∈ peers_read tr ∨ q ∈ readers.*1) tr.
Proof.
  intros Hf. unfold read_readers. apply all_runs_bind. eapply all_runs_mono; [|by apply last_starts_quiet].
  intros tr1 keyed [Q Hk]. set (sorted := sort_by _ keyed).
  assert (∀ q, q ∈ (snd <$> sorted).*1 → q ∈ readers.*1) as Hs.
  { intros q. rewrite <- Hk. unfold sorted. by rewrite sort_by_Permutation. }
  eapply all_runs_mono; [|apply all_runs_and; [apply all_runs_and; [apply (read_each_follows creator None 0); by rewrite (qt_follows _ _ Q)|apply read_each_reads]|apply all_runs_grows]].
  intros tr' n [[[Hw Ha] Hr] Hg]. simpl in Hg. split_and!; [done|rewrite (qt_accepted _ _ Q) in Ha; lia| |].
  - transitivity tr1; [apply Q|done].
  - intros q Hq. destruct (Hr q Hq) as [Hin|Hin]; [left; by rewrite <- (qt_reads _ _ Q)|right; by apply Hs].
Qed.

(** Why a peer was read in this pass. *)
Record readable (creator : RowId) (tr : log) (q : Peer) (peers : list (Peer * LinkedPeerState))
    (candidates invoiced : list ReaderPubky) (reader : ReaderPubky) (item now : Z) : Prop := {
  rd_peers : Ev ListLinkedPeers (Ok peers) ∈ tr;
  rd_linked : (q, Linked) ∈ peers;
  rd_invoiced : Ev (InvoicedReaders creator candidates) (Ok invoiced) ∈ tr;
  rd_reader : reader_of peer_display q = Some reader;
  rd_member : reader_to_string reader ∈ reader_to_string <$> invoiced;
  rd_due : Ev (IsDue creator q (Some item) now) true ∈ tr;
}.

(** The rows behind an answer of [invoiced_readers]. *)
Lemma invoiced_readers_exact {prim : CryptoPrimitives} crypto ac creator candidates (reader : ReaderPubky) :
  reader ∈ invoiced_readers crypto ac creator candidates
  ↔ reader ∈ candidates ∧ ∃ id row, ac_assignments ac !! id = Some row ∧ as_creator_id row = creator
      ∧ as_reader_lookup_hash row = lookup_hash crypto (reader_to_string reader).
Proof.
  unfold invoiced_readers. rewrite list_elem_of_filter, Is_true_true, existsb_elem. split.
  - intros [(h & Hh & <-%String.eqb_eq) Hin]. split; [done|]. apply list_elem_of_omap in Hh as ([id row] & Hrow & Hif). simpl in Hif.
    apply elem_of_map_to_list in Hrow. destruct (bool_decide _ && _) eqn:E; [|done]. injection Hif as Hif. split_bools. eauto.
  - intros [Hin (id & row & Hrow & Hc & Hh)]. split; [|done]. exists (lookup_hash crypto (reader_to_string reader)). split; [|apply String.eqb_refl].
    apply list_elem_of_omap. exists (id, row). split; [by apply elem_of_map_to_list|]. simpl.
    rewrite bool_decide_true, Hh by done. simpl.
    assert (existsb (String.eqb (lookup_hash crypto (reader_to_string reader)))
      ((λ r, lookup_hash crypto (reader_to_string r)) <$> candidates) = true) as ->; [|done].
    apply existsb_elem. eexists. split; [by apply list_elem_of_fmap_2|apply String.eqb_refl].
Qed.

(** C37: an intake pass keeps to its protocol whatever the SDK, the stores and the clock
    answer.  It holds the Creator's lock for the list of peers and for one acceptance at a
    time, never while a history is read; it starts a read only after asking whether to go on
    and within its budget; a read queues at most four acceptances, of proposals the reader
    made to this server and that still wait, in order, and ends with its own scan's duration
    and as drained only when nothing pending was left; the count returned is what the SDK
    accepted.  Only linked peers that were found due and that this Creator has invoiced are
    read. *)
Theorem allowance_pass_safe {prim : CryptoPrimitives} (crypto : Crypto) (creator : RowId) :
  all_runs (take_in_allowances peer_display AllowanceId_new creator) (λ tr res,
    (∃ since, follows tr = Some (Between Closed since))
    ∧ accepted_in tr = match res with Ok queued => queued | Err _ => 0%nat end
    ∧ ∀ q, q ∈ peers_read tr → ∃ peers candidates invoiced reader item now,
        readable creator tr q peers candidates invoiced reader item now
        ∧ ∀ ac, invoiced = invoiced_readers crypto ac creator candidates →
            ∃ id row, ac_assignments ac !! id = Some row ∧ as_creator_id row = creator
              ∧ as_reader_lookup_hash row = lookup_hash crypto (reader_to_string reader)) [].
Proof.
  unfold take_in_allowances, try_bind. simpl. intros now u peers u'. destruct peers as [peers|e]; simpl.
  2: { split_and!; [by exists None|done|by intros q ?%not_elem_of_nil]. }
  set (linked := linked_counterparties peers). destruct (bool_decide (linked = [])); simpl.
  { split_and!; [by exists None|done|by intros q ?%not_elem_of_nil]. }
  intros invoiced. destruct invoiced as [invoiced|e]; simpl.
  2: { split_and!; [by exists None|done|by intros q ?%not_elem_of_nil]. }
  destruct (bool_decide (_ = [])); simpl.
  { split_and!; [by exists None|done|by intros q ?%not_elem_of_nil]. }
  intros items. destruct items as [items|e]; simpl.
  2: { split_and!; [by exists None|done|by intros q ?%not_elem_of_nil]. }
  set (tr := [Ev Now now; _; _; _; _; _]). set (eligible := eligible_readers peer_display linked invoiced).
  apply all_runs_bind. eapply all_runs_mono; [|by apply (due_readers_quiet creator now _ eligible tr)].
  intros tr1 readers [Q Hdue]. destruct (bool_decide (readers = [])); simpl.
  { split_and!; [exists None; by rewrite (qt_follows _ _ Q)|by rewrite (qt_accepted _ _ Q)|].
    intros q. rewrite (qt_reads _ _ Q). by intros ?%not_elem_of_nil. }
  apply all_runs_bind. eapply all_runs_mono; [|apply read_readers_follows; by rewrite (qt_follows _ _ Q)].
  intros tr2 n (Hw & Ha & Hkept & Hr). simpl. split_and!; [done|rewrite Ha, (qt_accepted _ _ Q); done|].
  intros q Hq. destruct (Hr q Hq) as [Hin|Hin]; [rewrite (qt_reads _ _ Q) in Hin; by apply not_elem_of_nil in Hin|].
  apply list_elem_of_fmap in Hin as ([q' item] & -> & Hin). simpl. destruct (Hdue _ _ Hin) as [He Hd].
  unfold eligible, eligible_readers in He. apply list_elem_of_filter in He as [He Hl].
  destruct (reader_of peer_display q') as [reader|] eqn:Er; [|done].
  apply Is_true_true, existsb_elem in He as (name & Hname & <-%String.eqb_eq).
  apply list_elem_of_omap in Hl as ([q1 st] & Hp & Hst). simpl in Hst. case_bool_decide; [|done]. injection Hst as ->. subst st.
  exists peers, (omap (reader_of peer_display) linked), invoiced, reader, item, now. split.
  - split; [|done| |done|done|by apply Hkept]; apply Hkept, (qt_kept _ _ Q); unfold tr; set_solver.
  - intros ac ->. apply list_elem_of_fmap in Hname as (r & -> & Hr').
    apply invoiced_readers_exact in Hr' as [_ Hrow]. done.
Qed.
End pass.

(** ** Concrete runs *)

Definition example_tick : LoopEvent := Tick (Ok [1; 2; 3]%N) (λ _, true).
Definition example_before := allowance_intake_loop (CreatorTasks_new 1) IntakeTurns_default [example_tick].
Definition example_evs : list LoopEvent :=
  [PassEnded 1%N; example_tick; example_tick; PassEnded 2%N; example_tick; PassEnded 3%N; example_tick].
Definition example_later := allowance_intake_loop example_before.1.2 example_before.2 example_evs.

Example example_turns : example_later.1.1 = [2; 3; 1]%N.
Proof. vm_compute. reflexivity. Qed.

(** Steadiness is needed: a Creator that was not ready at one tick is forgotten, and may start
    again before one that was ready all along. *)
Example forgotten_creator_first :
  let tick ready := Tick (Ok ready) (λ _, true) in
  (allowance_intake_loop (CreatorTasks_new 1) IntakeTurns_default
     [tick [1; 2; 3]%N; PassEnded 1%N; tick [2; 3]%N; PassEnded 2%N; tick [1; 2; 3]%N]).1.1 = [1; 2; 1]%N.
Proof. vm_compute. reflexivity. Qed.

Lemma intake_turns_fair_witness : 3%N ∈ example_later.1.1 ∧ NoDup [2%N].
Proof.
  destruct (intake_turns_fair 1 [example_tick] example_before.1.1 example_before.1.2 example_before.2 [1; 2; 3]%N 3%N) as [_ H].
  - lia.
  - apply surjective_pairing_3.
  - destruct H as [H _]; [apply (bool_decide_unpack _); vm_compute; exact I..|].
    destruct (H example_evs example_later.1.1 example_later.1.2 example_later.2) as [Hn Hc].
    + assert (steady [1; 2; 3]%N example_tick) by (right; split; [by exists [1; 2; 3]%N|done]).
      unfold example_evs. repeat first [apply Forall_nil_2|apply Forall_cons_2; [done|]].
    + apply surjective_pairing_3.
    + split; [apply Hc; rewrite example_turns; simpl; lia|].
      apply (Hn [2%N] [3; 1]%N); [apply example_turns|apply (bool_decide_unpack _); vm_compute; exact I].
Defined.

Notation example_ticket item := (mk_IntakeTicket 1%N 7%N item).

(** A read whose scan took 4 and a second one at the earliest time for it. *)
Definition example_log : list (event (IntakeCall (core := Example_core.example_core) (Peer := N) (AllowanceId := string))) :=
  [Ev (Begin 1%N 7%N (Some 5) 0) (Some (example_ticket 5));
   Ev (Finish (example_ticket 5) true 4) tt;
   Ev (Begin 1%N 7%N (Some 6) 39) None;
   Ev (Begin 1%N 7%N (Some 6) 40) (Some (example_ticket 6));
   Ev (Finish (example_ticket 6) false 0) tt].

Definition example_intake : AllowanceIntake (Peer := N) :=
  mk_AllowanceIntake 10 {[ (1%N, 7%N) := mk_ReaderIntake (Some 5) (Some 40) 0 ]}.

Lemma allowance_reads_spaced_witness :
  reads_of (1%N, 7%N) example_log = [(40, 0); (0, 4)] ∧ spaced 10 (reads_of (1%N, 7%N) example_log)
  ∧ is_some (begin example_intake 1%N 7%N (Some 6) 50).1 = true.
Proof.
  assert (replays (AllowanceIntake_new 10) example_log example_intake) as Hr.
  { repeat (eexists; split; [vm_compute; reflexivity|]). vm_compute. reflexivity. }
  destruct (allowance_reads_spaced 10 example_log example_intake (1%N, 7%N) 6 50 ltac:(lia) Hr) as (H1 & _ & H3).
  split_and!; [vm_compute; reflexivity|exact H1|]. apply H3. split.
  - vm_compute. by intros m [= <-].
  - vm_compute. by intros t d [= <- <-].
Defined.
