(* ===== verification/Observer.v ===== *)
(** * Observer: a round of the Bitcoin observer ([workers/observer.rs])

    A round asks the Electrum server about the targets, turns the answer into observations,
    validates them against the targets and applies them as one batch.  The addresses of the
    [bitcoin] crate and the synchronisation of [bdk_electrum] are parameters.  The theorems
    say which facts a round applies, that it applies nothing else, and that the answer
    of an ordinary server is never refused by the validation. *)

From S2P Require Import Prelude Text Effects Payment Database Sorting CreateInvoice Crypto Observations Settlement Targets.
Local Open Scope string_scope.
Local Open Scope Z_scope.
Local Open Scope list_scope.

Inductive ObserverError := Obs_Unavailable | Obs_WrongNetwork | Obs_InvalidObservation | Obs_Persistence.

(** [bitcoin::Address]; [as_bitcoin_network] only renames the network. *)
Class BitcoinAddresses := {
  Address : Type;
  address_from_str : string → option Address;
  address_on : BitcoinNetwork → Address → bool;
  address_to_string : Address → string;
  script_pubkey : Address → string;
}.

(** An address of a network is a rendering of its script. *)
Class BitcoinAddressLaws (addresses : BitcoinAddresses) := {
  script_determines : ∀ network a b,
    address_on network a = true → address_on network b = true → script_pubkey a = script_pubkey b →
    address_to_string a = address_to_string b;
}.

(** The outpoint is kept in the canonical form of [BitcoinOutpoint::from_bitcoin]. *)
Record ObservedOutput := mk_ObservedOutput {
  oo_network : BitcoinNetwork;
  oo_address : string;
  oo_outpoint : BitcoinOutpoint;
  oo_sats : Z;
  oo_confirmations : Z;
  oo_present : bool;
}.

(** What [BdkElectrumClient::sync] is asked and answers. *)
Record SyncRequest := mk_SyncRequest {
  rq_spks : list string;
  rq_expected_spk_txids : list (string * string);
}.

Record SyncTransaction := mk_SyncTransaction {
  tx_txid : string;
  tx_output : list (string * Z);                    (* script and value *)
}.

Record SyncResponse := mk_SyncResponse {
  sr_tip_height : option Z;
  sr_seen_ats : list string;
  sr_anchors : list (Z * string);                   (* height of the block, txid *)
  sr_txs : list SyncTransaction;
}.

Inductive ElectrumError := Electrum_Message (message : string) | Electrum_Other.

Fixpoint contains (needle s : string) : bool :=
  starts_with needle s || match s with String _ s => contains needle s | EmptyString => false end.

Definition map_electrum (error : ElectrumError) : ObserverError :=
  match error with
  | Electrum_Message message =>
      if contains "cannot find agreement block with server" message then Obs_WrongNetwork else Obs_Unavailable
  | Electrum_Other => Obs_Unavailable
  end.

Section observer.
Context {addresses : BitcoinAddresses} (sync : SyncRequest → result ElectrumError SyncResponse).

Definition parse_address (address : string) (network : BitcoinNetwork) : result ObserverError Address :=
  parsed ← ok_or (address_from_str address) Obs_InvalidObservation;
  ensure (address_on network parsed) Obs_WrongNetwork;;
  Ok parsed.

(** ** Reading the server's answer *)

Record ParsedTarget := mk_ParsedTarget {
  pt_address : string;
  pt_script : string;
  pt_current : option TrackedOutput;
}.

Definition parsed_target (network : BitcoinNetwork) (target : ObservationTarget) : result ObserverError ParsedTarget :=
  address ← parse_address (ot_address target) network;
  Ok (mk_ParsedTarget (address_to_string address) (script_pubkey address) (ot_current target)).

(** [tip_height.checked_sub(height)?.checked_add(1)] in [u32]. *)
Definition confirmations_at (tip_height height : Z) : option Z :=
  if (height <=? tip_height) && (tip_height - height <? u32_max) then Some (tip_height - height + 1) else None.

Fixpoint anchor_confirmations (tip_height : Z) (anchors : list (Z * string)) (confirmations : gmap string Z) :
    result ObserverError (gmap string Z) :=
  match anchors with
  | [] => Ok confirmations
  | (height, txid) :: anchors =>
      c ← ok_or (confirmations_at tip_height height) Obs_Unavailable;
      anchor_confirmations tip_height anchors (<[txid := c]> confirmations)
  end.

Definition confirmations_by_txid (tip_height : Z) (response : SyncResponse) : result ObserverError (gmap string Z) :=
  anchor_confirmations tip_height (sr_anchors response) (list_to_map ((λ txid, (txid, 0)) <$> sr_seen_ats response)).

Fixpoint observe_outputs (network : BitcoinNetwork) (targets_by_script : gmap string string) (txid : string)
    (confirmations : Z) (vout : Z) (outputs : list (string * Z)) : result ObserverError (list ObservedOutput) :=
  match outputs with
  | [] => Ok []
  | (script, sats) :: outputs =>
      match targets_by_script !! script with
      | None => observe_outputs network targets_by_script txid confirmations (vout + 1) outputs
      | Some address =>
          ensure (vout <=? u32_max) Obs_InvalidObservation;;
          rest ← observe_outputs network targets_by_script txid confirmations (vout + 1) outputs;
          Ok (mk_ObservedOutput network address (mk_BitcoinOutpoint txid vout) sats confirmations true :: rest)
      end
  end.

Fixpoint observe_txs (network : BitcoinNetwork) (targets_by_script : gmap string string) (confirmations : gmap string Z)
    (processed_txids : gset string) (txs : list SyncTransaction) : result ObserverError (list ObservedOutput) :=
  match txs with
  | [] => Ok []
  | transaction :: txs =>
      let txid := tx_txid transaction in
      if bool_decide (txid ∈ processed_txids) then observe_txs network targets_by_script confirmations processed_txids txs
      else
        c ← ok_or (confirmations !! txid) Obs_InvalidObservation;
        here ← observe_outputs network targets_by_script txid c 0 (tx_output transaction);
        rest ← observe_txs network targets_by_script confirmations ({[txid]} ∪ processed_txids) txs;
        Ok (here ++ rest)
  end.

(** Bound outputs the answer does not show; [seen_outpoints] are those of the observations. *)
Definition missing_outputs (network : BitcoinNetwork) (parsed_targets : list ParsedTarget) (observations : list ObservedOutput) :
    list ObservedOutput :=
  omap (λ t, match pt_current t with
             | Some current =>
                 if existsb (λ o, bool_decide (oo_outpoint o = to_outpoint current)) observations then None
                 else Some (mk_ObservedOutput network (pt_address t) (to_outpoint current) (to_sats current) 0 false)
             | None => None
             end) parsed_targets.

(** A later target wins when two have one script. *)
Definition scripts_of (parsed_targets : list ParsedTarget) : gmap string string :=
  list_to_map (reverse ((λ t, (pt_script t, pt_address t)) <$> parsed_targets)).

Definition observe_blocking (network : BitcoinNetwork) (targets : list ObservationTarget) :
    result ObserverError (list ObservedOutput) :=
  parsed_targets ← collect (parsed_target network) targets;
  response ← map_err map_electrum (sync (mk_SyncRequest (pt_script <$> parsed_targets)
    (omap (λ t, (λ current, (pt_script t, txid (to_outpoint current))) <$> pt_current t) parsed_targets)));
  tip_height ← ok_or (sr_tip_height response) Obs_Unavailable;
  confirmations ← confirmations_by_txid tip_height response;
  observations ← observe_txs network (scripts_of parsed_targets) confirmations ∅ (sr_txs response);
  Ok (observations ++ missing_outputs network parsed_targets observations).

(** ** Validating a batch *)

Fixpoint targets_by_address (network : BitcoinNetwork) (found : gmap string ObservationTarget) (targets : list ObservationTarget) :
    result ObserverError (gmap string ObservationTarget) :=
  match targets with
  | [] => Ok found
  | target :: targets =>
      address ← parse_address (ot_address target) network;
      ensure (String.eqb (address_to_string address) (ot_address target) && is_none (found !! ot_address target))
        Obs_InvalidObservation;;
      targets_by_address network (<[ot_address target := target]> found) targets
  end.

Definition tracks_output (target : ObservationTarget) (output : ObservedOutput) : bool :=
  match ot_current target with
  | Some current => bool_decide (to_outpoint current = oo_outpoint output) && (to_sats current =? oo_sats output)
  | None => false
  end.

(** Everything that is checked of one output but that its outpoint is new. *)
Definition validate_output (network : BitcoinNetwork) (by_address : gmap string ObservationTarget) (output : ObservedOutput) :
    result ObserverError unit :=
  ensure (bool_decide (oo_network output = network)) Obs_WrongNetwork;;
  ensure ((oo_confirmations output <=? i32_max) && (oo_present output || (oo_confirmations output =? 0)))
    Obs_InvalidObservation;;
  address ← parse_address (oo_address output) network;
  ensure (String.eqb (address_to_string address) (oo_address output)) Obs_InvalidObservation;;
  target ← ok_or (by_address !! oo_address output) Obs_InvalidObservation;
  ensure (oo_present output || tracks_output target output) Obs_InvalidObservation.

Definition observation_input (output : ObservedOutput) : BitcoinObservationInput :=
  mk_BitcoinObservationInput (oo_address output) (oo_outpoint output) (oo_sats output) (oo_confirmations output)
    (oo_present output).

Fixpoint validate_each (network : BitcoinNetwork) (by_address : gmap string ObservationTarget) (outpoints : list BitcoinOutpoint)
    (observations : list ObservedOutput) : result ObserverError (list BitcoinObservationInput) :=
  match observations with
  | [] => Ok []
  | output :: observations =>
      validate_output network by_address output;;
      ensure (bool_decide (oo_outpoint output ∉ outpoints)) Obs_InvalidObservation;;
      rest ← validate_each network by_address (oo_outpoint output :: outpoints) observations;
      Ok (observation_input output :: rest)
  end.

Definition validate_batch (observations : list ObservedOutput) (network : BitcoinNetwork) (targets : list ObservationTarget) :
    result ObserverError (list BitcoinObservationInput) :=
  by_address ← targets_by_address network ∅ targets;
  validated ← validate_each network by_address [] observations;
  Ok (sort_by cmp_for_batch validated).
End observer.

(** ** A round *)

Inductive RoundCall : Type → Type :=
| FenceTargets (targets : list ObservationTarget) : RoundCall (result PersistenceError (Z * list ObservationTarget))
| FetchObservations (targets : list ObservationTarget) : RoundCall (result ObserverError (list ObservedOutput))
| ApplyBatch (batch : list BitcoinObservationInput) : RoundCall (result PersistenceError Z)
| ApplyMarketplaceBatch (batch : list BitcoinObservationInput) : RoundCall (result PersistenceError Z).

Section round.
Context {addresses : BitcoinAddresses}.
Notation round := (prog RoundCall).

Definition map_persistence (_ : PersistenceError) : ObserverError := Obs_Persistence.

Definition call_store {A} (c : RoundCall (result PersistenceError A)) : round (result ObserverError A) :=
  answer ⇐ call c; Ret (map_err map_persistence answer).

Definition observe_once (network : BitcoinNetwork) (targets : list ObservationTarget) : round (result ObserverError Z) :=
  fenced ←? call_store (FenceTargets targets);
  let still := fenced.2 in
  if negb (bool_decide (targets = [])) && bool_decide (still = []) then Ret (Ok 0)
  else
    observations ←? call (FetchObservations still);
    batch ←? Ret (validate_batch observations network still);
    call_store (ApplyBatch batch).

Definition observe_marketplace_once (network : BitcoinNetwork) (targets : list ObservationTarget) : round (result ObserverError Z) :=
  observations ←? call (FetchObservations targets);
  batch ←? Ret (validate_batch observations network targets);
  call_store (ApplyMarketplaceBatch batch).
End round.

(** ** What the validation accepts *)

Section validation.
Context {addresses : BitcoinAddresses}.
Implicit Types (network : BitcoinNetwork) (targets : list ObservationTarget) (o : ObservedOutput).

(** The text is the canonical form of an address of the network. *)
Definition canonical_on network (text : string) : Prop :=
  ∃ address, parse_address text network = Ok address ∧ address_to_string address = text.

(** What a batch may report of a target: an output it was shown, or the loss of its own. *)
Record justified network targets o : Prop := {
  ju_network : oo_network o = network;
  ju_confirmations : oo_confirmations o <= i32_max;
  ju_address : canonical_on network (oo_address o);
  ju_target : ∃ t, t ∈ targets ∧ ot_address t = oo_address o
    ∧ (oo_present o = false → oo_confirmations o = 0
       ∧ ∃ current, ot_current t = Some current ∧ to_outpoint current = oo_outpoint o ∧ to_sats current = oo_sats o);
}.

Lemma targets_by_address_ok network found targets m :
  targets_by_address network found targets = Ok m →
  Forall (canonical_on network) (ot_address <$> targets) ∧ NoDup (ot_address <$> targets)
  ∧ (∀ t, t ∈ targets → found !! ot_address t = None)
  ∧ ∀ a t, m !! a = Some t ↔ found !! a = Some t ∨ (t ∈ targets ∧ ot_address t = a).
Proof.
  revert found. induction targets as [|t targets IH]; intros found; simpl.
  { intros [= <-]. split_and!; [constructor|constructor|by intros ? ?%not_elem_of_nil|].
    intros a t. split; [auto|]. intros [|[Hin _]]; [done|]. by apply not_elem_of_nil in Hin. }
  intros (address & Ha & (u & Hc%ensure_ok & H)%bind_ok)%bind_ok.
  apply andb_true_iff in Hc as [Hc1%String.eqb_eq Hc2]. destruct (IH _ H) as (H1 & H2 & H3 & H4). unfold is_none in Hc2.
  assert (found !! ot_address t = None) as Hf by (by destruct (found !! ot_address t)).
  assert (∀ t', t' ∈ targets → ot_address t' ≠ ot_address t) as Hne.
  { intros t' Hin E. specialize (H3 t' Hin). rewrite E, lookup_insert_eq in H3. done. }
  split_and!.
  - constructor; [by exists address|done].
  - constructor; [|done]. intros (t' & E & Hin)%list_elem_of_fmap. by apply (Hne t').
  - intros t' [->|Hin]%elem_of_cons; [done|]. specialize (H3 t' Hin). by rewrite lookup_insert_ne in H3 by (symmetry; by apply Hne).
  - intros a t'. rewrite H4, elem_of_cons. destruct (decide (a = ot_address t)) as [->|Hna].
    + rewrite lookup_insert_eq. split; [naive_solver|]. intros [E|[[->|Hin] E]]; [congruence|by left|]. by destruct (Hne t').
    + rewrite lookup_insert_ne by done. naive_solver.
Qed.

Lemma targets_by_address_total network found targets :
  Forall (canonical_on network) (ot_address <$> targets) → NoDup (ot_address <$> targets) →
  (∀ t, t ∈ targets → found !! ot_address t = None) → ∃ m, targets_by_address network found targets = Ok m.
Proof.
  revert found. induction targets as [|t targets IH]; intros found Hc Hn Hf; simpl; [eauto|].
  apply Forall_cons in Hc as [(address & Ha & E) Hc]. apply NoDup_cons in Hn as [Hnin Hn].
  rewrite Ha. simpl. rewrite E, String.eqb_refl. rewrite (Hf t) by (by left). simpl.
  apply IH; [done|done|]. intros t' Hin. rewrite lookup_insert_ne; [apply Hf; by right|].
  intros Eq. apply Hnin. rewrite Eq. by apply list_elem_of_fmap_2.
Qed.

Lemma validate_output_ok network by_address o :
  validate_output network by_address o = Ok tt ↔
  oo_network o = network ∧ oo_confirmations o <= i32_max ∧ (oo_present o = false → oo_confirmations o = 0)
  ∧ canonical_on network (oo_address o)
  ∧ ∃ t, by_address !! oo_address o = Some t ∧ (oo_present o = false → tracks_output t o = true).
Proof.
  unfold validate_output. split.
  - intros H. apply bind_ok in H as (_ & Hn%ensure_ok%bool_decide_eq_true & H). apply bind_ok in H as (_ & Hc%ensure_ok & H).
    apply andb_true_iff in Hc as [Hc%Z.leb_le Hp]. apply bind_ok in H as (address & Ha & H).
    apply bind_ok in H as (_ & E%ensure_ok%String.eqb_eq & H). apply bind_ok in H as (t & Ht%ok_or_ok & Htr%ensure_ok).
    split_and!; [done|done| |by exists address|].
    + intros E0. rewrite E0 in Hp. by apply Z.eqb_eq in Hp.
    + exists t. split; [done|]. intros E0. by rewrite E0 in Htr.
  - intros (Hn & Hc & Hp & (address & Ha & E) & t & Ht & Htr).
    rewrite bool_decide_true by done. simpl. rewrite (proj2 (Z.leb_le _ _) Hc), Ha, Ht. simpl. rewrite E, String.eqb_refl.
    destruct (oo_present o); simpl; [done|]. rewrite (Hp eq_refl), (Htr eq_refl). done.
Qed.

Lemma validate_each_ok network by_address outpoints l inputs :
  validate_each network by_address outpoints l = Ok inputs ↔
  Forall (λ o, validate_output network by_address o = Ok tt) l ∧ NoDup (oo_outpoint <$> l)
  ∧ Forall (λ o, oo_outpoint o ∉ outpoints) l ∧ inputs = observation_input <$> l.
Proof.
  revert outpoints inputs. induction l as [|o l IH]; intros outpoints inputs; simpl.
  { split; [intros [= <-]; split_and!; constructor|by intros (_ & _ & _ & ->)]. }
  rewrite !Forall_cons, NoDup_cons. split.
  - intros H. apply bind_ok in H as ([] & Hv & H). apply bind_ok in H as (_ & Hn%ensure_ok%bool_decide_eq_true & H).
    apply bind_ok in H as (rest & (H1 & H2 & H3 & ->)%IH & [= <-]). rewrite Forall_forall in H3.
    split; [by split|]. split; [split; [|done]|split; [split; [done|]|done]].
    + intros (o' & E & Hin)%list_elem_of_fmap. apply (H3 o' Hin). rewrite E. by left.
    + apply Forall_forall. intros o' Hin E. apply (H3 o' Hin). by right.
  - intros ([Hv H1] & [Hn H2] & [Hno H3] & ->). rewrite Hv. simpl. rewrite bool_decide_true by done. simpl.
    assert (validate_each network by_address (oo_outpoint o :: outpoints) l = Ok (observation_input <$> l)) as ->; [|done].
    apply IH. split_and!; [done|done| |done]. rewrite Forall_forall in *.
    intros o' Hin [E|E]%elem_of_cons; [|by apply (H3 o')]. apply Hn. rewrite <- E. by apply list_elem_of_fmap_2.
Qed.

(** The validation, exactly. *)
Lemma validate_batch_exact l network targets batch :
  validate_batch l network targets = Ok batch ↔
  Forall (canonical_on network) (ot_address <$> targets) ∧ NoDup (ot_address <$> targets)
  ∧ Forall (justified network targets) l ∧ NoDup (oo_outpoint <$> l)
  ∧ batch = sort_by cmp_for_batch (observation_input <$> l).
Proof.
  unfold validate_batch. rewrite bind_ok. setoid_rewrite bind_ok. setoid_rewrite validate_each_ok.
  assert (∀ m, targets_by_address network ∅ targets = Ok m → ∀ o,
    validate_output network m o = Ok tt ↔ justified network targets o) as Hv.
  { intros m Hm o. destruct (targets_by_address_ok _ _ _ _ Hm) as (_ & _ & _ & Hm'). rewrite validate_output_ok.
    setoid_rewrite Hm'. unfold tracks_output. split.
    - intros (H1 & H2 & H3 & H4 & t & [Ht|[Ht E]] & Htr); [by rewrite lookup_empty in Ht|]. split; [done|done|done|].
      exists t. split_and!; [done|done|]. intros Hp. split; [auto|]. specialize (Htr Hp).
      destruct (ot_current t) as [current|]; [|done]. exists current. apply andb_true_iff in Htr as [Ho%bool_decide_eq_true Hs%Z.eqb_eq]. done.
    - intros [H1 H2 H3 (t & Ht & E & Hp)]. split_and!; [done|done|intros Hq; apply (Hp Hq)|done|]. exists t. split; [right; done|].
      intros (_ & current & -> & <- & <-)%Hp. by rewrite bool_decide_true, Z.eqb_refl. }
  split.
  - intros (m & Hm & inputs & (H1 & H2 & _ & ->) & [= <-]). destruct (targets_by_address_ok _ _ _ _ Hm) as (C & N & _).
    split_and!; [done|done| |done|done]. eapply Forall_impl; [exact H1|]. intros o. by apply Hv.
  - intros (C & N & H1 & H2 & ->). destruct (targets_by_address_total network ∅ targets C N) as [m Hm]; [intros; apply lookup_empty|].
    exists m. split; [done|]. exists (observation_input <$> l). split; [|done]. split_and!; [|done| |done].
    + eapply Forall_impl; [exact H1|]. intros o. by apply Hv.
    + apply Forall_forall. intros o _. apply not_elem_of_nil.
Qed.
End validation.

(** ** What a round learns *)

Section answer.
Context {addresses : BitcoinAddresses}.
Implicit Types (network : BitcoinNetwork) (targets : list ObservationTarget) (o : ObservedOutput).

Lemma observe_outputs_spec network scripts id c v outputs l :
  observe_outputs network scripts id c v outputs = Ok l →
  NoDup (oo_outpoint <$> l) ∧ Forall (λ o, v <= vout (oo_outpoint o)) l
  ∧ ∀ o, o ∈ l ↔ ∃ n script sats address, outputs !! n = Some (script, sats) ∧ scripts !! script = Some address
      ∧ o = mk_ObservedOutput network address (mk_BitcoinOutpoint id (v + Z.of_nat n)) sats c true.
Proof.
  revert v l. induction outputs as [|[script sats] outputs IH]; intros v l; simpl.
  { intros [= <-]. split_and!; [constructor|constructor|]. intros o. split; [by intros ?%not_elem_of_nil|].
    intros (n & ? & ? & ? & Hn & _). by destruct n. }
  assert (∀ rest, observe_outputs network scripts id c (v + 1) outputs = Ok rest →
    NoDup (oo_outpoint <$> rest) ∧ Forall (λ o, v + 1 <= vout (oo_outpoint o)) rest
    ∧ ∀ o, o ∈ rest ↔ ∃ n script0 sats0 address, ((script, sats) :: outputs) !! S n = Some (script0, sats0)
        ∧ scripts !! script0 = Some address
        ∧ o = mk_ObservedOutput network address (mk_BitcoinOutpoint id (v + Z.of_nat (S n))) sats0 c true) as Hrest.
  { intros rest Hr. destruct (IH _ _ Hr) as (H1 & H2 & H3). split_and!; [done|done|]. intros o. rewrite H3. simpl.
    assert (∀ n, v + 1 + Z.of_nat n = v + Z.of_nat (S n)) as En by lia. setoid_rewrite En. done. }
  destruct (scripts !! script) as [address|] eqn:Es.
  - intros H. apply bind_ok in H as (_ & _ & H). apply bind_ok in H as (rest & Hr & [= <-]).
    destruct (Hrest _ Hr) as (H1 & H2 & H3). split_and!.
    + simpl. constructor; [|done]. intros (o' & E & Hin)%list_elem_of_fmap. rewrite Forall_forall in H2. specialize (H2 o' Hin).
      rewrite <- E in H2. simpl in H2. lia.
    + constructor; [simpl; lia|]. eapply Forall_impl; [exact H2|]. simpl. intros; lia.
    + intros o. rewrite elem_of_cons, H3. split.
      * intros [->|(n & Hn)]; [exists 0%nat, script, sats, address; split_and!; [done|done|by rewrite Z.add_0_r]|by exists (S n)].
      * intros ([|n] & script0 & sats0 & address0 & Hn & Hs & ->); [|right; by exists n, script0, sats0, address0].
        left. simpl in Hn. injection Hn as <- <-. rewrite Es in Hs. injection Hs as <-. by rewrite Z.add_0_r.
  - intros Hr. destruct (Hrest _ Hr) as (H1 & H2 & H3). split_and!; [done| |].
    + eapply Forall_impl; [exact H2|]. simpl. intros; lia.
    + intros o. rewrite H3. split; [intros (n & Hn); by exists (S n)|].
      intros ([|n] & script0 & sats0 & address0 & Hn & Hs & ->); [|by exists n, script0, sats0, address0].
      simpl in Hn. injection Hn as <- <-. by rewrite Es in Hs.
Qed.

(** The first transaction of the answer with its identifier. *)
Definition first_tx (processed : gset string) (txs : list SyncTransaction) (tx : SyncTransaction) : Prop :=
  tx_txid tx ∉ processed ∧ head (filter (λ t, tx_txid t = tx_txid tx) txs) = Some tx.

Lemma first_tx_skip processed t txs tx :
  tx_txid t ≠ tx_txid tx → first_tx processed (t :: txs) tx ↔ first_tx processed txs tx.
Proof. intros Hne. unfold first_tx. by rewrite filter_cons_False. Qed.

Lemma observe_txs_spec network scripts confirmations processed txs l :
  observe_txs network scripts confirmations processed txs = Ok l →
  NoDup (oo_outpoint <$> l) ∧ Forall (λ o, txid (oo_outpoint o) ∉ processed) l
  ∧ ∀ o, o ∈ l ↔ ∃ tx c n script sats address, first_tx processed txs tx ∧ confirmations !! tx_txid tx = Some c
      ∧ tx_output tx !! n = Some (script, sats) ∧ scripts !! script = Some address
      ∧ o = mk_ObservedOutput network address (mk_BitcoinOutpoint (tx_txid tx) (Z.of_nat n)) sats c true.
Proof.
  revert processed l. induction txs as [|t txs IH]; intros processed l; simpl.
  { intros [= <-]. split_and!; [constructor|constructor|]. intros o. split; [by intros ?%not_elem_of_nil|].
    by intros (tx & _ & _ & _ & _ & _ & [_ Hh] & _). }
  case_bool_decide as Hp.
  - intros Hr. destruct (IH _ _ Hr) as (H1 & H2 & H3). split_and!; [done|done|]. intros o. rewrite H3.
    split; intros (tx & c & n & script & sats & address & Hf & Hrest); exists tx, c, n, script, sats, address; (split; [|done]);
      (assert (tx_txid t ≠ tx_txid tx) by (intros E; destruct Hf as [Hf _]; congruence)); first [by rewrite first_tx_skip|by rewrite first_tx_skip in Hf].
  - intros H. apply bind_ok in H as (c & Hc%ok_or_ok & H). apply bind_ok in H as (here & Hh & H).
    apply bind_ok in H as (rest & Hr & [= <-]).
    destruct (observe_outputs_spec _ _ _ _ _ _ _ Hh) as (A1 & A2 & A3). destruct (IH _ _ Hr) as (H1 & H2 & H3).
    assert (∀ o, o ∈ here → txid (oo_outpoint o) = tx_txid t) as Hid.
    { intros o Hin. apply A3 in Hin as (n & ? & ? & ? & _ & _ & ->). done. }
    rewrite Forall_forall in H2. split_and!.
    + rewrite fmap_app. apply NoDup_app. split_and!; [done| |done].
      intros p (o & -> & Hin)%list_elem_of_fmap (o' & E & Hin')%list_elem_of_fmap. apply (H2 o' Hin'). rewrite <- E, (Hid o Hin). set_solver.
    + apply Forall_app. split; apply Forall_forall; intros o Hin; [by rewrite (Hid o Hin)|]. specialize (H2 o Hin). set_solver.
    + intros o. rewrite elem_of_app, A3, H3. split.
      * intros [(n & script & sats & address & Hn & Hs & ->)|(tx & c0 & n & script & sats & address & Hf & Hrest)].
        -- exists t, c, n, script, sats, address. split; [split; [done|by rewrite filter_cons_True]|by split_and!].
        -- exists tx, c0, n, script, sats, address. split; [|done]. destruct Hf as [Hf1 Hf2].
           apply first_tx_skip; [set_solver|]. split; [set_solver|done].
      * intros (tx & c0 & n & script & sats & address & Hf & Hc0 & Hn & Hs & ->).
        destruct (decide (tx_txid t = tx_txid tx)) as [E|E].
        -- left. destruct Hf as [_ Hf]. rewrite filter_cons_True in Hf by done. injection Hf as <-.
           exists n, script, sats, address. rewrite Hc in Hc0. by injection Hc0 as <-.
        -- right. apply first_tx_skip in Hf as [Hf1 Hf2]; [|done]. exists tx, c0, n, script, sats, address.
           split; [|done]. split; [set_solver|done].
Qed.

(** The confirmations of a transaction in an answer: the distance of the tip from the block of
    its last anchor, counting both; zero when it is unconfirmed and was seen; none otherwise. *)
Definition depth (tip : Z) (response : SyncResponse) (id : string) : option Z :=
  match last (filter (λ anchor : Z * string, anchor.2 = id) (sr_anchors response)) with
  | Some anchor => Some (tip - anchor.1 + 1)
  | None => if bool_decide (id ∈ sr_seen_ats response) then Some 0 else None
  end.

Lemma anchor_confirmations_spec tip anchors m m' :
  anchor_confirmations tip anchors m = Ok m' →
  Forall (λ anchor : Z * string, anchor.1 <= tip) anchors
  ∧ ∀ id, m' !! id = match last (filter (λ anchor : Z * string, anchor.2 = id) anchors) with
                     | Some anchor => Some (tip - anchor.1 + 1)
                     | None => m !! id
                     end.
Proof.
  revert m. induction anchors as [|[height id'] anchors IH]; intros m; simpl; [by intros [= ->]|].
  intros H. apply bind_ok in H as (c & Hc%ok_or_ok & H). unfold confirmations_at in Hc.
  destruct ((height <=? tip) && _) eqn:E; [|done]. injection Hc as <-. apply andb_true_iff in E as [E%Z.leb_le _].
  destruct (IH _ H) as [Hf Hm]. split; [by constructor|]. intros id. rewrite Hm.
  destruct (decide (id' = id)) as [->|Hne].
  - rewrite filter_cons_True by done. rewrite last_cons. destruct (last _); [done|]. by rewrite lookup_insert_eq.
  - rewrite filter_cons_False by done. by rewrite lookup_insert_ne.
Qed.

Lemma confirmations_exact tip response m :
  confirmations_by_txid tip response = Ok m →
  Forall (λ anchor : Z * string, anchor.1 <= tip) (sr_anchors response) ∧ ∀ id, m !! id = depth tip response id.
Proof.
  intros [Hf Hm]%anchor_confirmations_spec. split; [done|]. intros id. rewrite Hm. unfold depth. destruct (last _); [done|].
  destruct (list_to_map _ !! id) as [c|] eqn:E.
  - apply elem_of_list_to_map_2, list_elem_of_fmap in E as (x & [= <- <-] & Hx). by rewrite bool_decide_eq_true_2.
  - apply not_elem_of_list_to_map_2 in E. rewrite <- list_fmap_compose in E.
    rewrite bool_decide_eq_false_2; [done|]. intros Hin. apply E, list_elem_of_fmap. by exists id.
Qed.
End answer.

Section rounds.
Context {addresses : BitcoinAddresses} `{!BitcoinAddressLaws addresses}.
Context (sync : SyncRequest → result ElectrumError SyncResponse).
Implicit Types (network : BitcoinNetwork) (targets : list ObservationTarget).

(** An output of the answer that pays a target. *)
Definition shown network targets (tip : Z) (response : SyncResponse) (i : BitcoinObservationInput) : Prop :=
  ∃ t a tx n, t ∈ targets ∧ parse_address (ot_address t) network = Ok a ∧ first_tx ∅ (sr_txs response) tx
    ∧ tx_output tx !! n = Some (script_pubkey a, in_observed_sats i) ∧ depth tip response (tx_txid tx) = Some (in_confirmations i)
    ∧ in_address i = ot_address t ∧ in_outpoint i = mk_BitcoinOutpoint (tx_txid tx) (Z.of_nat n) ∧ in_present i = true.

(** The bound output of a target that the answer does not show. *)
Definition lost network targets (tip : Z) (response : SyncResponse) (i : BitcoinObservationInput) : Prop :=
  ∃ t current, t ∈ targets ∧ ot_current t = Some current
    ∧ i = mk_BitcoinObservationInput (ot_address t) (to_outpoint current) (to_sats current) 0 false
    ∧ ∀ i', shown network targets tip response i' → in_outpoint i' ≠ to_outpoint current.

Definition tracked_outpoints targets : list BitcoinOutpoint := omap (λ t, to_outpoint <$> ot_current t) targets.

(** The parsed targets, one for one. *)
Lemma parsed_targets_spec network targets parsed :
  Forall (canonical_on network) (ot_address <$> targets) → collect (parsed_target network) targets = Ok parsed →
  Forall2 (λ t p, pt_address p = ot_address t ∧ pt_current p = ot_current t
    ∧ ∃ a, parse_address (ot_address t) network = Ok a ∧ pt_script p = script_pubkey a) targets parsed.
Proof.
  intros Hc Hp%collect_ok_Forall2. apply Forall_fmap in Hc. revert Hc. induction Hp as [|t p targets parsed Ht _ IH]; intros Hc; constructor.
  - apply Forall_cons in Hc as [(a & Ha & E) _]. unfold parsed_target in Ht. rewrite Ha in Ht. injection Ht as <-. simpl. eauto.
  - apply IH. by apply Forall_cons in Hc as [_ ?].
Qed.

Lemma parse_on network text a : parse_address text network = Ok a → address_on network a = true.
Proof. unfold parse_address. intros (p & _ & (u & Ho%ensure_ok & [= <-])%bind_ok)%bind_ok. done. Qed.

Lemma scripts_of_spec network targets parsed script address :
  Forall (canonical_on network) (ot_address <$> targets) → NoDup (ot_address <$> targets) →
  collect (parsed_target network) targets = Ok parsed →
  scripts_of parsed !! script = Some address ↔
  ∃ t a, t ∈ targets ∧ ot_address t = address ∧ parse_address (ot_address t) network = Ok a ∧ script_pubkey a = script.
Proof.
  intros Hc Hn Hp. pose proof (parsed_targets_spec _ _ _ Hc Hp) as H2.
  assert (pt_address <$> parsed = ot_address <$> targets) as Eaddr.
  { clear Hp Hc Hn. induction H2 as [|t p targets parsed (E & _) _ IH]; [done|]. rewrite !fmap_cons. by f_equal. }
  assert (∀ p, p ∈ parsed → ∃ t a, t ∈ targets ∧ pt_address p = ot_address t ∧ parse_address (ot_address t) network = Ok a ∧ pt_script p = script_pubkey a) as Hin.
  { intros p Hp'. apply list_elem_of_lookup in Hp' as [i Hi]. destruct (Forall2_lookup_r _ _ _ _ _ H2 Hi) as (t & Ht & E & _ & a & Ha & Es).
    exists t, a. split; [by eapply list_elem_of_lookup_2|done]. }
  assert (∀ p q, p ∈ parsed → q ∈ parsed → pt_script p = pt_script q → pt_address p = pt_address q) as Hinj.
  { intros p q (t & a & Ht & Ep & Ha & Es)%Hin (t' & a' & Ht' & Eq & Ha' & Es')%Hin E. rewrite Es, Es' in E.
    pose proof (script_determines network a a' (parse_on _ _ _ Ha) (parse_on _ _ _ Ha') E) as E'.
    rewrite Forall_fmap, Forall_forall in Hc. destruct (Hc _ Ht) as (b & Hb & Eb). destruct (Hc _ Ht') as (b' & Hb' & Eb').
    simpl in *. rewrite Ep, Eq. congruence. }
  assert (NoDup (pt_script <$> parsed)) as Hnd.
  { rewrite <- Eaddr in Hn. clear -Hn Hinj. induction parsed as [|p parsed IH]; simpl in *; [constructor|].
    apply NoDup_cons in Hn as [Hn1 Hn]. constructor; [|apply IH; [done|]; intros; apply Hinj; try done; by right].
    intros (q & E & Hq)%list_elem_of_fmap. apply Hn1. rewrite (Hinj p q); [by apply list_elem_of_fmap_2|by left|by right|done]. }
  unfold scripts_of. rewrite <- elem_of_list_to_map.
  2: { rewrite reverse_Permutation, <- list_fmap_compose. exact Hnd. }
  rewrite elem_of_reverse, list_elem_of_fmap. split.
  - intros (p & [= -> ->] & (t & a & Ht & Ep & Ha & Es)%Hin). exists t, a. done.
  - intros (t & a & Ht & <- & Ha & <-). apply list_elem_of_lookup in Ht as [i Hi].
    destruct (Forall2_lookup_l _ _ _ _ _ H2 Hi) as (p & Hp' & E & _ & a' & Ha' & Es). exists p.
    split; [|by eapply list_elem_of_lookup_2]. rewrite E, Es. congruence.
Qed.

Lemma missing_NoDup network parsed l :
  NoDup (omap (λ p, to_outpoint <$> pt_current p) parsed) → NoDup (oo_outpoint <$> missing_outputs network parsed l).
Proof.
  intros Hn. eapply sublist_NoDup; [exact Hn|]. clear Hn. induction parsed as [|p parsed IH]; simpl; [constructor|].
  destruct (pt_current p) as [current|]; simpl; [|done]. destruct (existsb _ l); simpl; by constructor.
Qed.

(** An answer within the limits of the chain: heights are not negative and the tip is far
    below the limit of a confirmation count. *)
Definition chain_bounded : Prop :=
  ∀ request response, sync request = Ok response →
    Forall (λ anchor, 0 <= anchor.1) (sr_anchors response) ∧ ∀ tip, sr_tip_height response = Some tip → tip < i32_max.

Lemma observed_outputs_spec network targets parsed confirmations tip response l o :
  (∀ id, confirmations !! id = depth tip response id) →
  Forall (canonical_on network) (ot_address <$> targets) → NoDup (ot_address <$> targets) →
  collect (parsed_target network) targets = Ok parsed →
  observe_txs network (scripts_of parsed) confirmations ∅ (sr_txs response) = Ok l →
  o ∈ l ↔ oo_network o = network ∧ shown network targets tip response (observation_input o).
Proof.
  intros Hd Hc Hn Hp Hl. destruct (observe_txs_spec _ _ _ _ _ _ Hl) as (_ & _ & Hin). rewrite Hin. split.
  - intros (tx & c & n & script & sats & address & Hf & Hcf & Ho & Hs & ->). split; [done|]. rewrite Hd in Hcf.
    apply (scripts_of_spec _ _ _ _ _ Hc Hn Hp) in Hs as (t & a & Ht & <- & Ha & <-). exists t, a, tx, n. done.
  - intros [En (t & a & tx & n & Ht & Ha & Hf & Ho & Hcf & Ea & Eo & Epr)].
    exists tx, (oo_confirmations o), n, (script_pubkey a), (oo_sats o), (oo_address o).
    split_and!; [done|by rewrite Hd|done|apply (scripts_of_spec _ _ _ _ _ Hc Hn Hp); exists t, a; done|].
    destruct o. simpl in *. by subst.
Qed.

Lemma missing_spec network targets parsed tip response l :
  Forall2 (λ t p, pt_address p = ot_address t ∧ pt_current p = ot_current t
    ∧ ∃ a, parse_address (ot_address t) network = Ok a ∧ pt_script p = script_pubkey a) targets parsed →
  (∀ o, o ∈ l ↔ oo_network o = network ∧ shown network targets tip response (observation_input o)) →
  ∀ o, o ∈ missing_outputs network parsed l ↔
    oo_network o = network ∧ lost network targets tip response (observation_input o).
Proof.
  intros H2 Hin o. unfold missing_outputs. rewrite list_elem_of_omap.
  assert (∀ current : TrackedOutput, existsb (λ o, bool_decide (oo_outpoint o = to_outpoint current)) l = false ↔
    ∀ i, shown network targets tip response i → in_outpoint i ≠ to_outpoint current) as Hno.
  { intros current. rewrite existsb_false_iff. setoid_rewrite bool_decide_eq_false. split.
    - intros Hall i Hi. apply (Hall (mk_ObservedOutput network (in_address i) (in_outpoint i) (in_observed_sats i) (in_confirmations i) (in_present i))).
      apply Hin. unfold observation_input. simpl. split; [done|]. by destruct i.
    - intros Hall o' [_ Ho']%Hin. apply (Hall _ Ho'). }
  split.
  - intros (p & Hp & Hif). apply list_elem_of_lookup in Hp as [k Hk]. destruct (Forall2_lookup_r _ _ _ _ _ H2 Hk) as (t & Ht & Ea & Ec & _).
    destruct (pt_current p) as [current|] eqn:Ep; [|done]. destruct (existsb _ l) eqn:Ex; [done|]. injection Hif as <-. split; [done|].
    exists t, current. split_and!; [by eapply list_elem_of_lookup_2|done|unfold observation_input; simpl; by rewrite Ea|by apply Hno].
  - intros [En (t & current & Ht & Ec & Ei & Hall)]. apply list_elem_of_lookup in Ht as [k Hk].
    destruct (Forall2_lookup_l _ _ _ _ _ H2 Hk) as (p & Hp & Ea & Ecp & _). exists p. split; [by eapply list_elem_of_lookup_2|].
    rewrite Ecp, Ec. rewrite (proj2 (Hno current)) by done. destruct o. unfold observation_input in Ei. simpl in *. rewrite Ea. congruence.
Qed.

(** C34: a round of the observer applies exactly what the server showed of its targets.  For
    canonical targets with distinct addresses and distinct bound outputs, and an answer whose
    heights are not negative and whose tip is below the limit of a confirmation count, the
    observations pass the validation, and the batch consists of every output of the answer
    to a request for the targets' scripts that pays one of them, each once, with its value and
    the depth of its transaction, and of every bound output the answer no longer shows, as
    absent.  The depth is the distance from the block of the transaction's last anchor to the
    tip, and zero only for a transaction that was seen and has no anchor. *)
Theorem observer_round_exact network targets l :
  Forall (canonical_on network) (ot_address <$> targets) → NoDup (ot_address <$> targets) →
  NoDup (tracked_outpoints targets) → chain_bounded → observe_blocking sync network targets = Ok l →
  ∃ request response tip batch,
    Forall2 (λ t script, ∃ a, parse_address (ot_address t) network = Ok a ∧ script = script_pubkey a) targets (rq_spks request)
    ∧ sync request = Ok response ∧ sr_tip_height response = Some tip ∧ validate_batch l network targets = Ok batch
    ∧ (∀ i, i ∈ batch ↔ shown network targets tip response i ∨ lost network targets tip response i)
    ∧ NoDup (in_outpoint <$> batch).
Proof.
  intros Hc Hn Htr Hb H. unfold observe_blocking in H. apply bind_ok in H as (parsed & Hp & H).
  apply bind_ok in H as (response & Hs & H). apply bind_ok in H as (tip & Ht%ok_or_ok & H).
  apply bind_ok in H as (confirmations & Hcf & H). apply bind_ok in H as (os & Hos & [= <-]).
  destruct (sync _) as [r|e] eqn:Es in Hs; [|done]. injection Hs as ->.
  pose proof (parsed_targets_spec _ _ _ Hc Hp) as H2. destruct (Hb _ _ Es) as [Hh Htip]. specialize (Htip tip Ht).
  destruct (confirmations_exact _ _ _ Hcf) as [_ Hd].
  pose proof (λ o, observed_outputs_spec _ _ _ _ _ _ _ o Hd Hc Hn Hp Hos) as Hin.
  destruct (observe_txs_spec _ _ _ _ _ _ Hos) as (Hnd & _).
  assert (∀ o, o ∈ missing_outputs network parsed os ↔
    oo_network o = network ∧ lost network targets tip response (observation_input o)) as Hmiss.
  { by apply missing_spec. }
  assert (∀ o, o ∈ os → oo_present o = true) as Hpr.
  { intros o Ho. apply Hin in Ho as [_ (t & a & tx & n & Ho)]. naive_solver. }
  assert (NoDup (oo_outpoint <$> os ++ missing_outputs network parsed os)) as Hall.
  { rewrite fmap_app. apply NoDup_app. split_and!; [done| |apply missing_NoDup].
    - intros q (o & -> & Ho)%list_elem_of_fmap (o' & E & (_ & t & current & _ & _ & Ei & Hno)%Hmiss)%list_elem_of_fmap.
      apply Hin in Ho as [_ Ho]. apply (Hno _ Ho). unfold observation_input in *. simpl. rewrite E. congruence.
    - assert (omap (λ p, to_outpoint <$> pt_current p) parsed = tracked_outpoints targets) as ->; [|done].
      unfold tracked_outpoints. clear -H2. induction H2 as [|t p ts ps (_ & E & _) _ IH]; [done|]. cbn [omap list_omap]. rewrite E. by destruct (ot_current t); simpl; rewrite IH. }
  assert (∀ id c, depth tip response id = Some c → c <= i32_max) as Hcm.
  { intros id c. unfold depth. destruct (last _) as [anchor|] eqn:El; [|case_bool_decide; intros [= <-]; by vm_compute].
    intros [= <-]. apply last_Some_elem_of, list_elem_of_filter in El as [_ Hin']. rewrite Forall_forall in Hh. specialize (Hh _ Hin').
    simpl in Hh. lia. }
  assert (Forall (justified network targets) (os ++ missing_outputs network parsed os)) as Hju.
  { rewrite Forall_fmap, Forall_forall in Hc. apply Forall_forall. intros o [Ho|Ho]%elem_of_app.
    - pose proof (Hpr o Ho) as Epr. apply Hin in Ho as [En (t & a & tx & n & Ht' & Ha & Hf & Ho & Hcf' & Ea & Eo & _)]. simpl in *.
      split; [done|by eapply Hcm|rewrite Ea; by apply Hc|]. exists t. split_and!; [done|done|]. by rewrite Epr.
    - apply Hmiss in Ho as [En (t & current & Ht' & Ecur & Ei & _)]. destruct o as [nw ad op sa cf pr]. simpl in *.
      injection Ei as -> -> -> -> ->. split; simpl; [done|by vm_compute|by apply Hc|]. exists t. split_and!; [done|done|]. intros _. eauto. }
  eexists _, response, tip, (sort_by cmp_for_batch (observation_input <$> os ++ missing_outputs network parsed os)).
  split_and!; [|exact Es|done|by apply validate_batch_exact| |].
  { simpl. rewrite Forall2_fmap_r. eapply Forall2_impl; [exact H2|]. intros t p (_ & _ & a & Ha & Hs'). by exists a. }
  - intros i. rewrite elem_of_sort_by, list_elem_of_fmap. setoid_rewrite elem_of_app. setoid_rewrite Hin. setoid_rewrite Hmiss. split.
    + intros (o & -> & [[_ Ho]|[_ Ho]]); [by left|by right].
    + intros Hi. exists (mk_ObservedOutput network (in_address i) (in_outpoint i) (in_observed_sats i) (in_confirmations i) (in_present i)).
      unfold observation_input. simpl. destruct i. simpl. split; [done|]. destruct Hi; [left|right]; done.
  - rewrite sort_by_Permutation, <- list_fmap_compose. exact Hall.
Qed.
End rounds.

(** ** What a round may write *)

Definition applied (ev : event RoundCall) : option (list BitcoinObservationInput) :=
  match ev with
  | Ev e x => match e in RoundCall X return option (list BitcoinObservationInput) with
              | ApplyBatch batch | ApplyMarketplaceBatch batch => Some batch
              | _ => None
              end
  end.

(** C35: a round writes only what it validated.  Whatever the stores and the server answer, a
    round applies at most one batch, last, and the batch is exactly what the server answered
    in this round, ordered, when every part of it is justified by a target that is still
    open: its canonical address on the server's network, and for a loss the very output that
    is bound to it; otherwise nothing is written. *)
Theorem observer_applies_validated {addresses : BitcoinAddresses} network targets :
  let justified_by still l batch := Forall (justified network still) l ∧ NoDup (oo_outpoint <$> l)
    ∧ batch = sort_by cmp_for_batch (observation_input <$> l) in
  all_runs (observe_once network targets) (λ tr res,
    (omap applied tr = [] ∧ (res = Ok 0 ∨ is_ok res = false))
    ∨ ∃ now still l batch answer,
        tr = [Ev (FenceTargets targets) (Ok (now, still)); Ev (FetchObservations still) (Ok l); Ev (ApplyBatch batch) answer]
        ∧ justified_by still l batch ∧ res = map_err map_persistence answer) []
  ∧ all_runs (observe_marketplace_once network targets) (λ tr res,
    (omap applied tr = [] ∧ is_ok res = false)
    ∨ ∃ l batch answer, tr = [Ev (FetchObservations targets) (Ok l); Ev (ApplyMarketplaceBatch batch) answer]
        ∧ justified_by targets l batch ∧ res = map_err map_persistence answer) [].
Proof.
  intros justified_by. assert (∀ l still batch, validate_batch l network still = Ok batch → justified_by still l batch) as Hj.
  { intros l still batch (_ & _ & H1 & H2 & H3)%validate_batch_exact. done. }
  split.
  - unfold observe_once, call_store, try_bind. simpl. intros [[now still]|e]; simpl; [|by left; auto].
    destruct (negb _ && _); simpl; [by left; auto|]. intros [l|e]; simpl; [|by left; auto].
    destruct (validate_batch l network still) as [batch|e] eqn:Ev; simpl; [|by left; auto]. intros answer. simpl.
    right. exists now, still, l, batch, answer. split_and!; [done|by apply Hj|done].
  - unfold observe_marketplace_once, call_store, try_bind. simpl. intros [l|e]; simpl; [|by left].
    destruct (validate_batch l network targets) as [batch|e] eqn:Ev; simpl; [|by left]. intros answer. simpl.
    right. exists l, batch, answer. split_and!; [done|by apply Hj|done].
Qed.

(** ** A concrete round *)

#[local] Instance example_addresses : BitcoinAddresses :=
  {| Address := string; address_from_str := Some; address_on := λ _ _, true; address_to_string := id; script_pubkey := id |}.

#[local] Instance example_address_laws : BitcoinAddressLaws example_addresses.
Proof. split. done. Qed.

Definition example_targets : list ObservationTarget :=
  [mk_ObservationTarget "bc1a" (Some (mk_TrackedOutput (mk_BitcoinOutpoint "old" 0) 700)); mk_ObservationTarget "bc1b" None].

(** One paying transaction, confirmed in the block before the tip. *)
Definition example_sync (_ : SyncRequest) : result ElectrumError SyncResponse :=
  Ok (mk_SyncResponse (Some 100) ["new"] [(99, "new")] [mk_SyncTransaction "new" [("other", 5); ("bc1b", 900)]]).

Definition example_paid : BitcoinObservationInput := mk_BitcoinObservationInput "bc1b" (mk_BitcoinOutpoint "new" 1) 900 2 true.

Lemma observer_round_exact_witness :
  ∃ batch, (l ← observe_blocking example_sync Mainnet example_targets; validate_batch l Mainnet example_targets) = Ok batch
    ∧ example_paid ∈ batch
    ∧ mk_BitcoinObservationInput "bc1a" (mk_BitcoinOutpoint "old" 0) 700 0 false ∈ batch ∧ NoDup (in_outpoint <$> batch).
Proof.
  destruct (observer_round_exact example_sync Mainnet example_targets
    [mk_ObservedOutput Mainnet "bc1b" (mk_BitcoinOutpoint "new" 1) 900 2 true;
     mk_ObservedOutput Mainnet "bc1a" (mk_BitcoinOutpoint "old" 0) 700 0 false])
    as (request & response & tip & batch & _ & Hs & Ht & Hv & Hin & Hn).
  - repeat constructor; eexists; (split; [reflexivity|reflexivity]).
  - apply (bool_decide_unpack _). vm_compute. exact I.
  - apply (bool_decide_unpack _). vm_compute. exact I.
  - intros rq rs [= <-]. split; [repeat constructor; simpl; lia|]. intros tip' [= <-]. by vm_compute.
  - vm_compute. reflexivity.
  - injection Hs as <-. injection Ht as <-. exists batch. split; [exact Hv|]. vm_compute in Hv. injection Hv as <-.
    unfold example_paid. rewrite !elem_of_cons. split_and!; [auto|auto|exact Hn].
Defined.
