(* ===== verification/Runtime.v ===== *)
(** * Runtime: admission of requests, readiness and shutdown ([runtime.rs])

    The process admits at most a fixed number of requests at a time, counts those in flight,
    and at shutdown refuses new ones, wakes everybody who waits for the signal and waits for
    the admitted ones.  The atomics, the semaphore and the two [Notify]s are one shared
    state; every access is a step of its own, so the races between a finishing request, the
    shutdown and those who wait are all present. *)

From S2P Require Import Prelude Text Tally.
Local Open Scope string_scope.
Local Open Scope Z_scope.

(** ** Readiness *)

Inductive ComponentState := Ready | Degraded | NotReady.

#[global] Instance ComponentState_eq_dec : EqDecision ComponentState.
Proof. solve_decision. Defined.

Definition component_as_str (s : ComponentState) : string :=
  match s with Ready => "ready" | Degraded => "degraded" | NotReady => "not_ready" end.

Definition from_atomic (value : Z) : ComponentState :=
  if value =? 1 then Degraded else if value =? 2 then NotReady else Ready.

Definition combine_states (first second : ComponentState) : ComponentState :=
  if bool_decide (first = NotReady) || bool_decide (second = NotReady) then NotReady
  else if bool_decide (first = Degraded) || bool_decide (second = Degraded) then Degraded
  else Ready.

(** The components' atomics. *)
Record Health := mk_Health {
  he_electrum : Z;
  he_paykit_enqueue : Z;
  he_paykit_reconciliation : Z;
  he_paykit_lifecycle : Z;
  he_paykit_transport : Z;
  he_outbox_enqueue : Z;
  he_outbox_reconciliation : Z;
}.

Definition Health_new : Health := mk_Health 2 2 2 2 2 2 2.

(** What a worker reports. *)
Definition available_as (available : bool) : Z := if available then 0 else 1.

Definition set_electrum_available (h : Health) (b : bool) : Health :=
  mk_Health (available_as b) (he_paykit_enqueue h) (he_paykit_reconciliation h) (he_paykit_lifecycle h) (he_paykit_transport h)
    (he_outbox_enqueue h) (he_outbox_reconciliation h).
Definition set_paykit_enqueue_available (h : Health) (b : bool) : Health :=
  mk_Health (he_electrum h) (available_as b) (he_paykit_reconciliation h) (he_paykit_lifecycle h) (he_paykit_transport h)
    (he_outbox_enqueue h) (he_outbox_reconciliation h).
Definition set_paykit_reconciliation_available (h : Health) (b : bool) : Health :=
  mk_Health (he_electrum h) (he_paykit_enqueue h) (available_as b) (he_paykit_lifecycle h) (he_paykit_transport h)
    (he_outbox_enqueue h) (he_outbox_reconciliation h).
Definition set_paykit_lifecycle_available (h : Health) (b : bool) : Health :=
  mk_Health (he_electrum h) (he_paykit_enqueue h) (he_paykit_reconciliation h) (available_as b) (he_paykit_transport h)
    (he_outbox_enqueue h) (he_outbox_reconciliation h).
Definition set_paykit_transport_available (h : Health) (b : bool) : Health :=
  mk_Health (he_electrum h) (he_paykit_enqueue h) (he_paykit_reconciliation h) (he_paykit_lifecycle h) (available_as b)
    (he_outbox_enqueue h) (he_outbox_reconciliation h).
Definition set_outbox_enqueue_available (h : Health) (b : bool) : Health :=
  mk_Health (he_electrum h) (he_paykit_enqueue h) (he_paykit_reconciliation h) (he_paykit_lifecycle h) (he_paykit_transport h)
    (available_as b) (he_outbox_reconciliation h).
Definition set_outbox_reconciliation_available (h : Health) (b : bool) : Health :=
  mk_Health (he_electrum h) (he_paykit_enqueue h) (he_paykit_reconciliation h) (he_paykit_lifecycle h) (he_paykit_transport h)
    (he_outbox_enqueue h) (available_as b).

Definition set_paykit_delivery_available (h : Health) (b : bool) : Health :=
  set_paykit_transport_available (set_paykit_lifecycle_available
    (set_paykit_reconciliation_available (set_paykit_enqueue_available h b) b) b) b.

Definition set_outbox_available (h : Health) (b : bool) : Health :=
  set_outbox_reconciliation_available (set_outbox_enqueue_available h b) b.

Record Readiness := mk_Readiness {
  re_status : ComponentState;
  re_postgres : ComponentState;
  re_electrum : ComponentState;
  re_paykit_delivery : ComponentState;
  re_outbox : ComponentState;
}.

Definition readiness (stopping postgres_ready : bool) (h : Health) : Readiness :=
  let postgres := if stopping || negb postgres_ready then NotReady else Ready in
  let electrum := from_atomic (he_electrum h) in
  let paykit_delivery := combine_states
    (combine_states (from_atomic (he_paykit_enqueue h)) (from_atomic (he_paykit_reconciliation h)))
    (combine_states (from_atomic (he_paykit_transport h)) (from_atomic (he_paykit_lifecycle h))) in
  let outbox := combine_states (from_atomic (he_outbox_enqueue h)) (from_atomic (he_outbox_reconciliation h)) in
  let status :=
    if bool_decide (postgres = NotReady) || existsb (λ s, bool_decide (s = NotReady)) [electrum; paykit_delivery; outbox] then NotReady
    else if existsb (λ s, negb (bool_decide (s = Ready))) [electrum; paykit_delivery; outbox] then Degraded
    else Ready in
  mk_Readiness status postgres electrum paykit_delivery outbox.

(** ** Admission and shutdown *)

(** Where a task is.  A request is checked, takes a permit, is counted and served; its guard
    then counts it off ([last] says that it saw itself as the only one), notifies and drops
    the permit.  A shutdown has swapped the flag ([first] says it was the first), notified,
    and saw nothing in flight.  A drain and a wait for the signal register, look and wait;
    their flag says that they were notified since. *)
Inductive Task :=
  | Arrived (exempt : bool)
  | Checked
  | Permitted
  | Serving (exempt : bool)
  | CountedOff (last : bool)
  | Releasing
  | Swapped (first : bool)
  | Signalled
  | SawIdle
  | DrainLoop
  | DrainRegistered (notified : bool)
  | DrainWaiting (notified : bool)
  | WaitStarted
  | WaitRegistered (notified : bool)
  | WaitWaiting (notified : bool).

Inductive Event :=
  | EvRefused (overload : bool)
  | EvServed
  | EvDrained (tid : nat)
  | EvCancelled (tid : nat).

Record Runtime := mk_Runtime {
  rt_stopping : bool;
  rt_in_flight : Z;
  rt_capacity : Z;
  rt_tasks : gmap nat Task;
  rt_log : list Event;
}.

Definition Runtime_new (max_concurrent_requests : Z) : Runtime := mk_Runtime false 0 max_concurrent_requests ∅ [].

(** [Notify::notify_waiters] of [idle] and of [cancelled]. *)
Definition wake_idle (t : Task) : Task :=
  match t with DrainRegistered _ => DrainRegistered true | DrainWaiting _ => DrainWaiting true | _ => t end.

Definition wake_cancelled (t : Task) : Task :=
  match t with WaitRegistered _ => WaitRegistered true | WaitWaiting _ => WaitWaiting true | _ => t end.

Definition at_task (r : Runtime) (tid : nat) (t : Task) : Runtime :=
  mk_Runtime (rt_stopping r) (rt_in_flight r) (rt_capacity r) (<[tid := t]> (rt_tasks r)) (rt_log r).

Definition end_task (r : Runtime) (tid : nat) (evs : list Event) : Runtime :=
  mk_Runtime (rt_stopping r) (rt_in_flight r) (rt_capacity r) (delete tid (rt_tasks r)) (evs ++ rt_log r)%list.

Definition with_capacity (r : Runtime) (n : Z) : Runtime :=
  mk_Runtime (rt_stopping r) (rt_in_flight r) n (rt_tasks r) (rt_log r).

Definition with_in_flight (r : Runtime) (n : Z) : Runtime :=
  mk_Runtime (rt_stopping r) n (rt_capacity r) (rt_tasks r) (rt_log r).

Definition with_stopping (r : Runtime) : Runtime :=
  mk_Runtime true (rt_in_flight r) (rt_capacity r) (rt_tasks r) (rt_log r).

Definition woken (wake : Task → Task) (r : Runtime) : Runtime :=
  mk_Runtime (rt_stopping r) (rt_in_flight r) (rt_capacity r) (wake <$> rt_tasks r) (rt_log r).

Inductive runtime_step (r : Runtime) : Runtime → Prop :=
  (* capacity_middleware; a served request answered, failed or was dropped *)
  | rt_arrive tid exempt : rt_tasks r !! tid = None → runtime_step r (at_task r tid (Arrived exempt))
  | rt_exempt tid : rt_tasks r !! tid = Some (Arrived true) → runtime_step r (at_task r tid (Serving true))
  | rt_check tid : rt_tasks r !! tid = Some (Arrived false) →
      runtime_step r (if rt_stopping r then end_task r tid [EvRefused false] else at_task r tid Checked)
  | rt_acquire tid : rt_tasks r !! tid = Some Checked →
      runtime_step r (if 0 <? rt_capacity r then with_capacity (at_task r tid Permitted) (rt_capacity r - 1)
                      else end_task r tid [EvRefused true])
  | rt_started tid : rt_tasks r !! tid = Some Permitted →
      runtime_step r (with_in_flight (at_task r tid (Serving false)) (rt_in_flight r + 1))
  | rt_served_exempt tid : rt_tasks r !! tid = Some (Serving true) → runtime_step r (end_task r tid [EvServed])
  | rt_served tid : rt_tasks r !! tid = Some (Serving false) →
      runtime_step r (with_in_flight (at_task r tid (CountedOff (rt_in_flight r =? 1))) (rt_in_flight r - 1))
  | rt_notify tid : rt_tasks r !! tid = Some (CountedOff true) → runtime_step r (woken wake_idle (at_task r tid Releasing))
  | rt_quiet tid : rt_tasks r !! tid = Some (CountedOff false) → runtime_step r (at_task r tid Releasing)
  | rt_release tid : rt_tasks r !! tid = Some Releasing →
      runtime_step r (with_capacity (end_task r tid [EvServed]) (rt_capacity r + 1))
  (* begin_shutdown *)
  | rt_swap tid : rt_tasks r !! tid = None → runtime_step r (with_stopping (at_task r tid (Swapped (negb (rt_stopping r)))))
  | rt_signal tid : rt_tasks r !! tid = Some (Swapped true) → runtime_step r (woken wake_cancelled (at_task r tid Signalled))
  | rt_resignal tid : rt_tasks r !! tid = Some (Swapped false) → runtime_step r (at_task r tid Signalled)
  | rt_look tid : rt_tasks r !! tid = Some Signalled →
      runtime_step r (if rt_in_flight r =? 0 then at_task r tid SawIdle else end_task r tid [])
  | rt_idle tid : rt_tasks r !! tid = Some SawIdle → runtime_step r (woken wake_idle (end_task r tid []))
  (* wait_for_idle, under the timeout of drain *)
  | rt_drain tid : rt_tasks r !! tid = None → runtime_step r (at_task r tid DrainLoop)
  | rt_drain_register tid : rt_tasks r !! tid = Some DrainLoop → runtime_step r (at_task r tid (DrainRegistered false))
  | rt_drain_look tid notified : rt_tasks r !! tid = Some (DrainRegistered notified) →
      runtime_step r (if rt_in_flight r =? 0 then end_task r tid [EvDrained tid] else at_task r tid (DrainWaiting notified))
  | rt_drain_woken tid : rt_tasks r !! tid = Some (DrainWaiting true) → runtime_step r (at_task r tid DrainLoop)
  | rt_drain_timeout tid notified : rt_tasks r !! tid = Some (DrainWaiting notified) → runtime_step r (end_task r tid [])
  (* cancelled *)
  | rt_wait tid : rt_tasks r !! tid = None →
      runtime_step r (if rt_stopping r then end_task r tid [EvCancelled tid] else at_task r tid WaitStarted)
  | rt_wait_register tid : rt_tasks r !! tid = Some WaitStarted → runtime_step r (at_task r tid (WaitRegistered false))
  | rt_wait_look tid notified : rt_tasks r !! tid = Some (WaitRegistered notified) →
      runtime_step r (if rt_stopping r then end_task r tid [EvCancelled tid] else at_task r tid (WaitWaiting notified))
  | rt_wait_woken tid : rt_tasks r !! tid = Some (WaitWaiting true) → runtime_step r (end_task r tid [EvCancelled tid]).

Definition runtime_reachable (max_concurrent_requests : Z) : Runtime → Prop := rtc runtime_step (Runtime_new max_concurrent_requests).

(** ** Invariants *)

Definition holds_permit (t : Task) : Z :=
  match t with Permitted | Serving false | CountedOff _ | Releasing => 1 | _ => 0 end.

Definition in_service (t : Task) : Z := match t with Serving false => 1 | _ => 0 end.

(** Every task at [bad] is covered by [P] or by a task at [good] that is still to act. *)
Definition guarded (bad good : Task) (P : Prop) (m : gmap nat Task) : Prop :=
  ∀ k, m !! k = Some bad → P ∨ ∃ j, m !! j = Some good.

Lemma guarded_insert bad good (P P' : Prop) m tid t :
  guarded bad good P m → m !! tid ≠ Some good → (t = bad → P') → (P → P') → guarded bad good P' (<[tid := t]> m).
Proof.
  intros Hg Hn Ht HP k [[<- E]|[Hne Hk]]%lookup_insert_Some; [left; auto|].
  destruct (Hg k Hk) as [|[j Hj]]; [left; auto|]. right. exists j. rewrite lookup_insert_ne; congruence.
Qed.

Lemma guarded_delete bad good (P P' : Prop) m tid :
  guarded bad good P m → m !! tid ≠ Some good → (P → P') → guarded bad good P' (delete tid m).
Proof.
  intros Hg Hn HP k [Hne Hk]%lookup_delete_Some. destruct (Hg k Hk) as [|[j Hj]]; [left; auto|].
  right. exists j. rewrite lookup_delete_ne; congruence.
Qed.

Lemma guarded_here bad good P m tid : guarded bad good P (<[tid := good]> m).
Proof. intros k _. right. exists tid. apply lookup_insert_eq. Qed.

Lemma guarded_wake bad good P (wake : Task → Task) (m : gmap nat Task) : (∀ t, wake t ≠ bad) → guarded bad good P (wake <$> m).
Proof. intros Hw k Hk. rewrite lookup_fmap in Hk. destruct (m !! k) as [t|]; simplify_eq/=. by destruct (Hw t). Qed.

Lemma guarded_fmap bad good P (wake : Task → Task) (m : gmap nat Task) :
  (∀ t, wake t = bad → t = bad) → wake good = good → guarded bad good P m → guarded bad good P (wake <$> m).
Proof.
  intros Hw Hgood Hg k Hk. rewrite lookup_fmap in Hk. destruct (m !! k) as [t|] eqn:E; simplify_eq/=.
  rewrite (Hw t) in E by done. destruct (Hg k E) as [|[j Hj]]; [by left|]. right. exists j. rewrite lookup_fmap, Hj. simpl. by rewrite Hgood.
Qed.

Record runtime_inv (max : Z) (r : Runtime) : Prop := {
  ri_capacity : 0 <= rt_capacity r;
  ri_permits : rt_capacity r + tally holds_permit (rt_tasks r) = max;
  ri_in_flight : rt_in_flight r = tally in_service (rt_tasks r);
  ri_drains : guarded (DrainWaiting false) (CountedOff true) (0 < rt_in_flight r) (rt_tasks r);
  ri_waits : guarded (WaitWaiting false) (Swapped true) (rt_stopping r = false) (rt_tasks r);
}.

Lemma wake_idle_weights t :
  holds_permit (wake_idle t) = holds_permit t ∧ in_service (wake_idle t) = in_service t
  ∧ wake_idle t ≠ DrainWaiting false ∧ (wake_idle t = WaitWaiting false → t = WaitWaiting false).
Proof. by destruct t as [| | |[]| | | | | | | | | | |]. Qed.

Lemma wake_cancelled_weights t :
  holds_permit (wake_cancelled t) = holds_permit t ∧ in_service (wake_cancelled t) = in_service t
  ∧ wake_cancelled t ≠ WaitWaiting false ∧ (wake_cancelled t = DrainWaiting false → t = DrainWaiting false).
Proof. by destruct t as [| | |[]| | | | | | | | | | |]. Qed.

Lemma in_service_nonneg t : 0 <= in_service t.
Proof. by destruct t as [| | |[]| | | | | | | | | | |]. Qed.

(** Sums through the updates of one step. *)
Ltac sums Ht :=
  rewrite ?(tally_fmap _ wake_idle), ?(tally_fmap _ wake_cancelled)
    by (intros; first [apply wake_idle_weights|apply wake_cancelled_weights]);
  first [rewrite (tally_insert _ _ _ _ _ Ht)|rewrite (tally_delete _ _ _ _ Ht)|rewrite (tally_insert_new _ _ _ _ Ht)
        |rewrite (delete_id _ _ Ht)]; cbn [holds_permit in_service]; lia.

(** Guards through the updates of one step. *)
Ltac guards Ht :=
  first [assumption
        |apply guarded_wake; intros; first [apply wake_idle_weights|apply wake_cancelled_weights]
        |apply guarded_fmap; [intros ?; first [apply wake_idle_weights|apply wake_cancelled_weights]|reflexivity|]; guards Ht
        |eapply guarded_insert; [eassumption|rewrite Ht; congruence|intros; simplify_eq; first [done|lia]|intros; first [done|lia]]
        |eapply guarded_delete; [eassumption|rewrite Ht; congruence|intros; first [done|lia]]].

Lemma runtime_step_inv max r r' : runtime_inv max r → runtime_step r r' → runtime_inv max r'.
Proof.
  intros [I1 I2 I3 I4 I5] Hs.
  pose proof (tally_nonneg in_service (rt_tasks r) in_service_nonneg) as Hn.
  inversion Hs as [tid e Ht|tid Ht|tid Ht|tid Ht|tid Ht|tid Ht|tid Ht|tid Ht|tid Ht|tid Ht|tid Ht|tid Ht|tid Ht|tid Ht|tid Ht|tid Ht
    |tid Ht|tid n Ht|tid Ht|tid n Ht|tid Ht|tid Ht|tid n Ht|tid Ht]; subst r';
    try (destruct (rt_stopping r) eqn:Es); try (destruct (0 <? rt_capacity r) eqn:Ec; [apply Z.ltb_lt in Ec|apply Z.ltb_ge in Ec]);
    try (destruct (rt_in_flight r =? 0) eqn:E0; [apply Z.eqb_eq in E0|apply Z.eqb_neq in E0]);
    (split; simpl in *; rewrite ?Es in *; [lia|try sums Ht|try sums Ht|try guards Ht|try guards Ht]).
  all: try apply guarded_here.
  all: pose proof (tally_in in_service _ _ _ in_service_nonneg Ht) as Hin; cbn [in_service] in Hin;
    destruct (rt_in_flight r =? 1) eqn:E1; [apply guarded_here|apply Z.eqb_neq in E1]; intros k _; left; lia.
Qed.

Lemma runtime_reachable_inv max r : 0 <= max → runtime_reachable max r → runtime_inv max r.
Proof.
  intros Hmax Hr. assert (runtime_inv max (Runtime_new max)) as H0.
  { split; simpl; rewrite ?tally_empty; try done; [lia|..]; intros k Hk; by rewrite lookup_empty in Hk. }
  revert H0. induction Hr as [|r r1 r2 Hs _ IH]; [done|]. intros H0. apply IH. by eapply runtime_step_inv.
Qed.

(** Nothing in flight: no request is being served, so one that counted itself off last still
    has to notify every drain that sleeps. *)
Lemma drain_awake max r tid :
  runtime_inv max r → rt_tasks r !! tid = Some (DrainWaiting false) → rt_in_flight r = 0 →
  ∃ k, rt_tasks r !! k = Some (CountedOff true).
Proof. intros I Ht E. destruct (ri_drains _ _ I tid Ht) as [Hp|]; [lia|done]. Qed.

(** A limited request that has passed the check of the stopping flag.  It is not admitted yet
    at [Checked]: the permit may still be refused to it, but the flag is not read again. *)
Definition past_check (t : Task) : bool :=
  match t with Checked | Permitted | Serving false | CountedOff _ | Releasing => true | _ => false end.

(** Nobody passes the check once the server is stopping. *)
Lemma stopping_passes_none r r' :
  runtime_step r r' → rt_stopping r = true →
  rt_stopping r' = true
  ∧ ∀ tid t, rt_tasks r' !! tid = Some t → past_check t = true → ∃ t0, rt_tasks r !! tid = Some t0 ∧ past_check t0 = true.
Proof.
  intros Hs Hst. inversion Hs; subst r'; rewrite ?Hst; repeat case_match; simpl; (split; [done|]); intros k t Hk Hp;
    rewrite ?lookup_fmap in Hk; repeat (apply lookup_insert_Some in Hk as [[<- <-]|[? Hk]] || apply lookup_delete_Some in Hk as [? Hk]
      || apply fmap_Some in Hk as (t1 & Hk & ->)); eauto; try done; destruct t1 as [| | |[]| | | | | | | | | | |]; eauto.
Qed.

(** A limited request that finds the server stopping is refused. *)
Lemma stopping_refuses r r' tid :
  rt_stopping r = true → rt_tasks r !! tid = Some (Arrived false) → runtime_step r r' →
  rt_tasks r' !! tid = Some (Arrived false) ∨ r' = end_task r tid [EvRefused false].
Proof.
  intros Hst Ht Hs. inversion Hs as [k|k|k Hk|k|k|k|k|k|k|k|k|k|k|k|k|k|k|k|k|k|k|k|k|k]; subst r';
    (destruct (decide (k = tid)) as [->|Hne]; [simplify_eq; try (rewrite Hst; by right)|left; repeat case_match; simpl;
      rewrite ?lookup_fmap, ?lookup_insert_ne, ?lookup_delete_ne, ?Ht by done; done]).
Qed.

(** A health probe is served whatever the server's state, and takes no permit. *)
Lemma exempt_served r tid :
  rt_tasks r !! tid = Some (Arrived true) →
  ∃ r', nsteps runtime_step 2 r r' ∧ rt_log r' = EvServed :: rt_log r ∧ rt_capacity r' = rt_capacity r ∧ rt_in_flight r' = rt_in_flight r.
Proof.
  intros Ht. set (r1 := at_task r tid (Serving true)). exists (end_task r1 tid [EvServed]). split; [|done].
  eapply nsteps_l; [by apply (rt_exempt r tid)|]. apply nsteps_once, (rt_served_exempt r1), lookup_insert_eq.
Qed.

(** A notified drain that finds nothing in flight returns. *)
Lemma drain_returns r tid :
  rt_tasks r !! tid = Some (DrainWaiting true) → rt_in_flight r = 0 →
  ∃ r' log, nsteps runtime_step 3 r r' ∧ rt_log r' = EvDrained tid :: log.
Proof.
  intros Ht E. set (r1 := at_task r tid DrainLoop). set (r2 := at_task r1 tid (DrainRegistered false)).
  exists (end_task r2 tid [EvDrained tid]), (rt_log r2). split; [|done].
  eapply nsteps_l; [by apply (rt_drain_woken r tid)|]. fold r1.
  eapply nsteps_l; [apply (rt_drain_register r1 tid); apply lookup_insert_eq|]. fold r2.
  eapply nsteps_l; [|apply nsteps_O].
  assert (end_task r2 tid [EvDrained tid] = if rt_in_flight r2 =? 0 then end_task r2 tid [EvDrained tid] else at_task r2 tid (DrainWaiting false)) as Hr.
  { simpl. by rewrite E. }
  rewrite Hr. apply rt_drain_look. apply lookup_insert_eq.
Qed.

(** C38: shutdown ends.  In every reachable state the requests that hold a permit and the
    free permits make up the configured number, the count in flight is that of the limited
    requests being served, and a health probe is served without a permit, also while
    stopping; a drain that waits while nothing is in flight can return within four steps: it
    was notified, or the last request is about to notify it.  Once the server is stopping it
    stays so; whoever waits for the signal can return within two steps; a limited request
    that has not passed the check yet is refused and changes nothing else; and no step lets
    another one past the check, so that what is still served are the requests that had passed
    it before. *)
Theorem shutdown_completes max r :
  0 <= max → runtime_reachable max r →
  (0 <= rt_capacity r ∧ rt_capacity r + tally holds_permit (rt_tasks r) = max ∧ rt_in_flight r = tally in_service (rt_tasks r))
  ∧ (∀ tid, rt_tasks r !! tid = Some (Arrived true) →
       ∃ r', nsteps runtime_step 2 r r' ∧ rt_log r' = EvServed :: rt_log r
         ∧ rt_capacity r' = rt_capacity r ∧ rt_in_flight r' = rt_in_flight r)
  ∧ (∀ tid notified, rt_tasks r !! tid = Some (DrainWaiting notified) → rt_in_flight r = 0 →
       ∃ k r' log, (k <= 4)%nat ∧ nsteps runtime_step k r r' ∧ rt_log r' = EvDrained tid :: log)
  ∧ (rt_stopping r = true →
       (∀ tid notified, rt_tasks r !! tid = Some (WaitWaiting notified) →
          ∃ k r' log, (k <= 2)%nat ∧ nsteps runtime_step k r r' ∧ rt_log r' = EvCancelled tid :: log)
       ∧ ∀ r', runtime_step r r' → rt_stopping r' = true
           ∧ (∀ tid, rt_tasks r !! tid = Some (Arrived false) →
                rt_tasks r' !! tid = Some (Arrived false) ∨ r' = end_task r tid [EvRefused false])
           ∧ ∀ tid t, rt_tasks r' !! tid = Some t → past_check t = true →
               ∃ t0, rt_tasks r !! tid = Some t0 ∧ past_check t0 = true).
Proof.
  intros Hmax Hr. pose proof (runtime_reachable_inv max r Hmax Hr) as I. split_and!; [apply I..|apply exempt_served| |].
  - intros tid notified Ht E. destruct notified.
    + destruct (drain_returns r tid Ht E) as (r' & log & H1 & H2). exists 3%nat, r', log. split_and!; [lia|done|done].
    + destruct (drain_awake max r tid I Ht E) as [k Hk]. set (r1 := woken wake_idle (at_task r k Releasing)).
      destruct (drain_returns r1 tid) as (r' & log & H1 & H2); [|done|].
      { simpl. rewrite lookup_fmap, lookup_insert_ne by congruence. by rewrite Ht. }
      exists 4%nat, r', log. split_and!; [lia| |done]. eapply nsteps_l; [by apply (rt_notify r k)|done].
  - intros Hst. split; [|intros r' Hs; destruct (stopping_passes_none _ _ Hs Hst); split_and!; [done|by intros; eapply stopping_refuses|done]].
    assert (∀ r0 tid, rt_tasks r0 !! tid = Some (WaitWaiting true) → runtime_step r0 (end_task r0 tid [EvCancelled tid])) as Hw.
    { intros r0 tid. apply rt_wait_woken. }
    intros tid notified Ht. destruct notified.
    + eexists 1%nat, _, _. split_and!; [lia|apply nsteps_once; by apply (Hw r tid)|done].
    + destruct (ri_waits _ _ I tid Ht) as [E|[k Hk]]; [congruence|]. set (r1 := woken wake_cancelled (at_task r k Signalled)).
      eexists 2%nat, (end_task r1 tid [EvCancelled tid]), _. split_and!; [lia| |done].
      eapply nsteps_l; [by apply (rt_signal r k)|]. apply nsteps_once, Hw. simpl.
      rewrite lookup_fmap, lookup_insert_ne by congruence. by rewrite Ht.
Qed.

Lemma combine_ready a b : combine_states a b = Ready ↔ a = Ready ∧ b = Ready.
Proof. destruct a, b; unfold combine_states; simpl; naive_solver. Qed.

(** The service reports ready exactly when it is not stopping, the database answers and
    every worker reported success last. *)
Theorem readiness_exact stopping postgres h :
  re_status (readiness stopping postgres h) = Ready
  ↔ stopping = false ∧ postgres = true
    ∧ Forall (λ v, from_atomic v = Ready) [he_electrum h; he_paykit_enqueue h; he_paykit_reconciliation h; he_paykit_lifecycle h;
        he_paykit_transport h; he_outbox_enqueue h; he_outbox_reconciliation h].
Proof.
  unfold readiness. simpl. rewrite !Forall_cons, Forall_nil.
  set (p := combine_states (combine_states _ _) _). set (o := combine_states (from_atomic (he_outbox_enqueue h)) _).
  assert (p = Ready ↔ (from_atomic (he_paykit_enqueue h) = Ready ∧ from_atomic (he_paykit_reconciliation h) = Ready)
    ∧ from_atomic (he_paykit_transport h) = Ready ∧ from_atomic (he_paykit_lifecycle h) = Ready) as Hp by (unfold p; by rewrite !combine_ready).
  assert (o = Ready ↔ from_atomic (he_outbox_enqueue h) = Ready ∧ from_atomic (he_outbox_reconciliation h) = Ready) as Ho by (unfold o; by rewrite combine_ready).
  assert ((if bool_decide ((if stopping || negb postgres then NotReady else Ready) = NotReady)
    || (bool_decide (from_atomic (he_electrum h) = NotReady) || (bool_decide (p = NotReady) || (bool_decide (o = NotReady) || false))) then NotReady
    else if negb (bool_decide (from_atomic (he_electrum h) = Ready)) || (negb (bool_decide (p = Ready)) || (negb (bool_decide (o = Ready)) || false))
         then Degraded else Ready) = Ready
    ↔ (stopping = false ∧ postgres = true) ∧ from_atomic (he_electrum h) = Ready ∧ p = Ready ∧ o = Ready) as ->.
  { destruct stopping, postgres, (from_atomic (he_electrum h)), p, o; simpl; naive_solver. }
  rewrite Hp, Ho. tauto.
Qed.

(** ** A concrete shutdown *)

(** One request is served while a drain waits; the request then counts itself off. *)
Definition example_serving : Runtime :=
  mk_Runtime true 0 1 {[1%nat := CountedOff true; 2%nat := DrainWaiting false]} [].

Lemma example_serving_reachable : runtime_reachable 2 example_serving.
Proof.
  unfold runtime_reachable.
  eapply rtc_l; [apply (rt_arrive _ 1 false); reflexivity|]. eapply rtc_l; [apply (rt_check _ 1); reflexivity|].
  eapply rtc_l; [apply (rt_acquire _ 1); reflexivity|]. eapply rtc_l; [apply (rt_started _ 1); reflexivity|].
  eapply rtc_l; [apply (rt_swap _ 3); reflexivity|]. eapply rtc_l; [apply (rt_signal _ 3); reflexivity|].
  eapply rtc_l; [apply (rt_look _ 3); reflexivity|]. eapply rtc_l; [apply (rt_drain _ 2); reflexivity|].
  eapply rtc_l; [apply (rt_drain_register _ 2); reflexivity|]. eapply rtc_l; [apply (rt_drain_look _ 2 false); reflexivity|].
  eapply rtc_l; [apply (rt_served _ 1); reflexivity|].
  match goal with |- rtc _ ?r _ => assert (r = example_serving) as -> by (vm_compute; reflexivity) end. apply rtc_refl.
Qed.

Lemma shutdown_completes_witness :
  ∃ k r' log, (k <= 4)%nat ∧ nsteps runtime_step k example_serving r' ∧ rt_log r' = EvDrained 2 :: log.
Proof.
  destruct (shutdown_completes 2 example_serving ltac:(lia) example_serving_reachable) as (_ & _ & H & _).
  apply (H 2%nat false); reflexivity.
Defined.
