(* ===== verification/BuyerContacts.v ===== *)
(** * BuyerContacts: saving verified buyers as contacts
    ([persistence/invoices/buyer_contacts.rs], [paykit/buyer_contacts.rs] and the loop of
    [server.rs])

    A payment that qualified commits a row of contact work with it.  Workers claim due rows,
    resolve the buyer's profile, and under the Creator's shared-state lock check that the row
    still waits, save the contact and complete the row.  A claim is only a schedule: it runs
    out after a minute, so several workers may hold the same row.  The last part is the
    system of such workers next to the Creator, who edits the same contacts. *)

From S2P Require Import Prelude Text Locks Invoice Receiving Payment Lifecycle Pricing Intent Readers Database OutboxStore CreateInvoice PaymentRecord Crypto Observations LifecycleStore Drains Status Creators Allocation AllocationProps Sorting Adapter.
Local Open Scope string_scope.
Local Open Scope Z_scope.

(** ** The table *)

Record ContactRow := mk_ContactRow {
  bc_creator_id : RowId;
  bc_reader_lookup_hash : string;
  bc_next_attempt_at : Z;
  bc_completed_at : option Z;
}.

Record PendingBuyerContact {core : LocksCore} := mk_PendingBuyerContact {
  bp_invoice_id : RowId;
  bp_creator_id : RowId;
  bp_reader : ReaderPubky;
}.

Arguments PendingBuyerContact : clear implicits.
Arguments PendingBuyerContact {core}.
Arguments mk_PendingBuyerContact {core}.

(** [INTERVAL '1 minute'] *)
Definition CONTACT_RETRY : Z := 60 * 1000000000.

Definition contact_due (now : Z) (row : ContactRow) : bool :=
  is_none (bc_completed_at row) && (bc_next_attempt_at row <=? now).

Definition due_compare (a b : RowId * ContactRow) : comparison :=
  then_with (bc_next_attempt_at a.2 ?= bc_next_attempt_at b.2) (id_compare a b).

(** The row the [candidate] query selects, past those other transactions hold. *)
Definition claim_candidate (contacts : gmap RowId ContactRow) (locked : gset RowId) (now : Z) : option (RowId * ContactRow) :=
  head (sort_by due_compare
    (filter (λ kv, Is_true (contact_due now kv.2 && negb (bool_decide (kv.1 ∈ locked)))) (map_to_list contacts))).

Definition with_next_attempt (row : ContactRow) (at_ : Z) : ContactRow :=
  mk_ContactRow (bc_creator_id row) (bc_reader_lookup_hash row) at_ (bc_completed_at row).

Section store.
Context {core : LocksCore} {lib : PaykitLib} {prim : CryptoPrimitives} (crypto : Crypto).
Context (from_bytes : string → option DeliveryIntentV1).

Definition contact_reader (creator_hash : string) (id : RowId) (row : ContactRow) (envelope : string) :
    result PersistenceError PendingBuyerContact :=
  creator_hash ← stored_lookup_hash creator_hash;
  intent ← open_invoice crypto from_bytes creator_hash id envelope;
  reader ← map_err (λ _, PE_CorruptOrMissing) (parse_reader (reader_pubky intent));
  ensure (String.eqb (lookup_hash crypto (reader_to_string reader)) (bc_reader_lookup_hash row)) PE_CorruptOrMissing;;
  Ok (mk_PendingBuyerContact id (bc_creator_id row) reader).

(** The joins of the claiming statement and what its row decodes to. *)
Definition claimed_contact (ac : AccountDb) (id : RowId) (row : ContactRow) :
    result PersistenceError (option PendingBuyerContact) :=
  match creators (ac_db ac) !! bc_creator_id row, t_invoices (dd_pay (ac_dd ac)) !! id, ac_invoices ac !! id with
  | Some creator_hash, Some i, Some x =>
      if bool_decide (iv_creator_id (iv_columns i) = bc_creator_id row)
         && String.eqb (iv_reader_lookup_hash (iv_columns i)) (bc_reader_lookup_hash row)
      then Some <$> contact_reader creator_hash id row (ix_invoice_envelope x)
      else Ok None
  | _, _, _ => Ok None
  end.

(** The statement has moved the schedule before its row is decoded. *)
Definition claim_buyer_contact (ac : AccountDb) (contacts : gmap RowId ContactRow) (locked : gset RowId) (now : Z) :
    result PersistenceError (option PendingBuyerContact) * gmap RowId ContactRow :=
  match claim_candidate contacts locked now with
  | None => (Ok None, contacts)
  | Some (id, row) =>
      (claimed_contact ac id row, <[id := with_next_attempt row (now + CONTACT_RETRY)]> contacts)
  end.

Definition contact_matches (pending : PendingBuyerContact) (row : ContactRow) : bool :=
  bool_decide (bc_creator_id row = bp_creator_id pending)
  && String.eqb (bc_reader_lookup_hash row) (lookup_hash crypto (reader_to_string (bp_reader pending))).

Definition buyer_contact_is_pending (contacts : gmap RowId ContactRow) (pending : PendingBuyerContact) : bool :=
  match contacts !! bp_invoice_id pending with
  | Some row => contact_matches pending row && is_none (bc_completed_at row)
  | None => false
  end.

Definition complete_buyer_contact (contacts : gmap RowId ContactRow) (pending : PendingBuyerContact) (now : Z) :
    gmap RowId ContactRow :=
  match contacts !! bp_invoice_id pending with
  | Some row =>
      if contact_matches pending row
      then <[bp_invoice_id pending := mk_ContactRow (bc_creator_id row) (bc_reader_lookup_hash row) (bc_next_attempt_at row)
               (Some (default now (bc_completed_at row)))]> contacts
      else contacts
  | None => contacts
  end.
End store.

(** ** The contact *)

Record PaykitProfile := mk_PaykitProfile {
  pf_display_name : option string;
  pf_image_uri : option string;
  pf_extra : option string;
}.

(** [sdk.resolve_profile]'s answer. *)
Record ResolvedProfile := mk_ResolvedProfile {
  rp_paykit_profile : option PaykitProfile;
  rp_display_name : option string;
  rp_image_uri : option string;
}.

(** The UTF-8 forms of the characters [str::trim] removes. *)
Definition utf8 (bytes : list Z) : string := foldr (λ b s, String (byte_char b) s) "" bytes.

Definition WHITESPACE : list string :=
  (utf8 <$> [[9]; [10]; [11]; [12]; [13]; [32]; [194; 133]; [194; 160]; [225; 154; 128]; [226; 128; 168]; [226; 128; 169];
            [226; 128; 175]; [226; 129; 159]; [227; 128; 128]])
  ++ ((λ n, utf8 [226; 128; 128 + n]) <$> [0; 1; 2; 3; 4; 5; 6; 7; 8; 9; 10]).

Fixpoint strip_first (forms : list string) (s : string) : option string :=
  match forms with
  | [] => None
  | form :: forms => match strip_prefix form s with Some rest => Some rest | None => strip_first forms s end
  end.

(** Every turn drops at least one byte, so the length is enough. *)
Fixpoint drop_forms (forms : list string) (fuel : nat) (s : string) : string :=
  match fuel with
  | O => s
  | S fuel => match strip_first forms s with Some rest => drop_forms forms fuel rest | None => s end
  end.

Fixpoint reverse_str (s : string) : string :=
  match s with EmptyString => "" | String c s => reverse_str s ++ String c "" end.

Definition trim (s : string) : string :=
  let s := drop_forms WHITESPACE (String.length s) s in
  reverse_str (drop_forms (reverse_str <$> WHITESPACE) (String.length s) (reverse_str s)).

Lemma str_drop_le n s : (String.length (str_drop n s) ≤ String.length s)%nat.
Proof. revert s. induction n as [|n IH]; intros [|c s]; simpl; try lia. specialize (IH s). lia. Qed.

Lemma strip_first_shorter forms s rest :
  Forall (λ form, str_is_empty form = false) forms → strip_first forms s = Some rest → (String.length rest < String.length s)%nat.
Proof.
  induction 1 as [|form forms Hne _ IH]; simpl; [done|]. unfold strip_prefix.
  destruct (starts_with form s) eqn:Es; [|exact IH]. intros [= <-]. destruct form as [|c form]; [done|]. destruct s as [|d s]; [done|].
  simpl. pose proof (str_drop_le (String.length form) s). lia.
Qed.

(** The fuel is enough: none of the forms is left in front. *)
Lemma drop_forms_done forms fuel s :
  Forall (λ form, str_is_empty form = false) forms → (String.length s ≤ fuel)%nat → strip_first forms (drop_forms forms fuel s) = None.
Proof.
  intros Hf. revert s. induction fuel as [|fuel IH]; intros s Hl; simpl; destruct (strip_first forms s) as [rest|] eqn:E; try done;
    pose proof (strip_first_shorter _ _ _ Hf E); [lia|apply IH; lia].
Qed.

Lemma whitespace_forms : Forall (λ form, str_is_empty form = false) WHITESPACE
  ∧ Forall (λ form, str_is_empty form = false) (reverse_str <$> WHITESPACE).
Proof. split; repeat constructor. Qed.

Example trim_example : trim (utf8 [32; 194; 160; 65; 32; 66; 226; 128; 131; 10]) = "A B".
Proof. vm_compute. reflexivity. Qed.

Section contact.
Context {Peer : Type} `{Countable Peer}.
(** [PaykitProfile::validate] and [ContactUpdate::validate]. *)
Context (profile_validate : PaykitProfile → result PaykitSdkError unit)
        (update_validate : Peer → option string → result PaykitSdkError unit).

(** The publication fields are constants of a new record. *)
Record ContactRecord := mk_ContactRecord {
  co_public_key : Peer;
  co_label : option string;
  co_profile : PaykitProfile;
  co_at : Z;
}.

Definition contact_label (profile : PaykitProfile) : option string :=
  name ← pf_display_name profile;
  let name := trim name in
  if str_is_empty name then None else Some name.

(** [resolve] is the answer to [resolve_profile], asked unless the buyer is the owner. *)
Definition resolve_buyer_contact (owner buyer : Peer) (resolve : result PaykitSdkError (option ResolvedProfile)) (now : Z) :
    result PaykitSdkError (option ContactRecord) :=
  if bool_decide (buyer = owner) then Ok None
  else
    resolved ← resolve;
    match resolved with
    | None => Ok None
    | Some resolved =>
        let profile := default (mk_PaykitProfile (rp_display_name resolved) (rp_image_uri resolved) None) (rp_paykit_profile resolved) in
        profile_validate profile;;
        let label := contact_label profile in
        update_validate buyer label;;
        Ok (Some (mk_ContactRecord buyer label profile now))
    end.

(** The Creator's shared state, as far as the transaction reads and writes it. *)
Record ContactBook := mk_ContactBook {
  bk_identity : option Peer;
  bk_contacts : gmap Peer ContactRecord;
  bk_blocked : gset Peer;
}.

Definition insert_buyer_contact (book : ContactBook) (owner : Peer) (contact : ContactRecord) :
    result PaykitSdkError ContactBook :=
  ensure (bool_decide (bk_identity book = Some owner)) Sdk_Identity;;
  if bool_decide (co_public_key contact = owner) || is_some (bk_contacts book !! co_public_key contact)
     || bool_decide (co_public_key contact ∈ bk_blocked book) then Ok book
  else Ok (mk_ContactBook (bk_identity book) (<[co_public_key contact := contact]> (bk_contacts book)) (bk_blocked book)).
End contact.

(** ** Workers and the Creator *)

Section system.
Context {core : LocksCore} {lib : PaykitLib} {prim : CryptoPrimitives} (crypto : Crypto).
Context (from_bytes : string → option DeliveryIntentV1).
Context {Peer : Type} `{Countable Peer} (from_raw_or_app_key : string → option Peer).
Context (profile_validate : PaykitProfile → result PaykitSdkError unit)
        (update_validate : Peer → option string → result PaykitSdkError unit).
(** The Creator this adapter acts for. *)
Context (creator_id : RowId) (owner : Peer).
Notation ContactRecord := (ContactRecord (Peer := Peer)).

(** Where a worker is in [save_buyer_contact]; from [Operating] on it holds the shared-state
    lock. *)
Inductive SaveTask :=
  | Resolving (p : PendingBuyerContact) (buyer : Peer)
  | ResolvedContact (p : PendingBuyerContact) (c : option ContactRecord)
  | Operating (p : PendingBuyerContact) (c : option ContactRecord)
  | SeenPending (p : PendingBuyerContact) (c : option ContactRecord)
  | Stored (p : PendingBuyerContact)
  | Closing.

Inductive ContactEvent :=
  | EvSaved (invoice : RowId) (contact : ContactRecord)
  | EvCompleted (invoice : RowId).

Record ContactSys := mk_ContactSys {
  cs_clock : Z;
  cs_rows : gmap RowId ContactRow;
  cs_book : ContactBook (Peer := Peer);
  cs_holder : option nat;
  cs_tasks : gmap nat SaveTask;
  cs_log : list ContactEvent;
}.

Definition move (s : ContactSys) (tid : nat) (t : SaveTask) : ContactSys :=
  mk_ContactSys (cs_clock s) (cs_rows s) (cs_book s) (cs_holder s) (<[tid := t]> (cs_tasks s)) (cs_log s).

Definition put_rows (s : ContactSys) (rows : gmap RowId ContactRow) (evs : list ContactEvent) : ContactSys :=
  mk_ContactSys (cs_clock s) rows (cs_book s) (cs_holder s) (cs_tasks s) (evs ++ cs_log s).

Definition put_book (s : ContactSys) (book : ContactBook) (evs : list ContactEvent) : ContactSys :=
  mk_ContactSys (cs_clock s) (cs_rows s) book (cs_holder s) (cs_tasks s) (evs ++ cs_log s).

Definition put_holder (s : ContactSys) (holder : option nat) : ContactSys :=
  mk_ContactSys (cs_clock s) (cs_rows s) (cs_book s) holder (cs_tasks s) (cs_log s).

(** A worker that ends releases the lock it holds. *)
Definition leave (s : ContactSys) (tid : nat) : ContactSys :=
  mk_ContactSys (cs_clock s) (cs_rows s) (cs_book s) (if decide (cs_holder s = Some tid) then None else cs_holder s)
    (delete tid (cs_tasks s)) (cs_log s).

Definition saved_event (book book' : ContactBook (Peer := Peer)) (p : PendingBuyerContact) (c : ContactRecord) : list ContactEvent :=
  if is_none (bk_contacts book !! co_public_key c) && is_some (bk_contacts book' !! co_public_key c)
  then [EvSaved (bp_invoice_id p) c] else [].

(** A call that fails may or may not have had its effect; a worker may be dropped anywhere.
    [with_operation] of the SDK, outside the repository, is exclusive: a worker opens it, and
    the Creator edits the contacts, only while nobody else is inside ([ct_open], [ct_creator]). *)
Inductive contact_step (s : ContactSys) : ContactSys → Prop :=
  | ct_tick clock : cs_clock s <= clock →
      contact_step s (mk_ContactSys clock (cs_rows s) (cs_book s) (cs_holder s) (cs_tasks s) (cs_log s))
  | ct_settled invoice row : cs_rows s !! invoice = None → bc_completed_at row = None →
      contact_step s (put_rows s (<[invoice := row]> (cs_rows s)) [])
  | ct_claim tid ac locked p rows buyer : cs_tasks s !! tid = None →
      claim_buyer_contact crypto from_bytes ac (cs_rows s) locked (cs_clock s) = (Ok (Some p), rows) →
      bp_creator_id p = creator_id → from_raw_or_app_key (reader_to_string (bp_reader p)) = Some buyer →
      contact_step s (move (put_rows s rows []) tid (Resolving p buyer))
  | ct_claim_lost ac locked answer rows :
      claim_buyer_contact crypto from_bytes ac (cs_rows s) locked (cs_clock s) = (answer, rows) →
      contact_step s (put_rows s rows [])
  | ct_resolved tid p buyer resolve c : cs_tasks s !! tid = Some (Resolving p buyer) →
      resolve_buyer_contact profile_validate update_validate owner buyer resolve (cs_clock s) = Ok c →
      contact_step s (move s tid (ResolvedContact p c))
  | ct_open tid p c : cs_tasks s !! tid = Some (ResolvedContact p c) → cs_holder s = None →
      contact_step s (put_holder (move s tid (Operating p c)) (Some tid))
  | ct_check tid p c : cs_tasks s !! tid = Some (Operating p c) →
      contact_step s (move s tid (if buyer_contact_is_pending crypto (cs_rows s) p then SeenPending p c else Closing))
  | ct_nothing tid p : cs_tasks s !! tid = Some (SeenPending p None) → contact_step s (move s tid (Stored p))
  | ct_insert tid p c book (reported : bool) : cs_tasks s !! tid = Some (SeenPending p (Some c)) →
      insert_buyer_contact (cs_book s) owner c = Ok book →
      contact_step s (move (put_book s book (saved_event (cs_book s) book p c)) tid (if reported then Stored p else Closing))
  | ct_complete tid p : cs_tasks s !! tid = Some (Stored p) →
      contact_step s (move (put_rows s (complete_buyer_contact crypto (cs_rows s) p (cs_clock s)) [EvCompleted (bp_invoice_id p)]) tid Closing)
  | ct_creator contacts blocked : cs_holder s = None →
      contact_step s (put_book s (mk_ContactBook (bk_identity (cs_book s)) contacts blocked) [])
  | ct_leave tid t : cs_tasks s !! tid = Some t → contact_step s (leave s tid).

Definition contact_init (book : ContactBook) : ContactSys := mk_ContactSys 0 ∅ book None ∅ [].

Definition contact_reachable (book : ContactBook) : ContactSys → Prop := rtc contact_step (contact_init book).

(** ** Invariants *)

Definition holding (t : SaveTask) : bool :=
  match t with Operating _ _ | SeenPending _ _ | Stored _ | Closing => true | _ => false end.

(** The attempt whose row was seen pending under the lock. *)
Definition committed_to (t : SaveTask) : option PendingBuyerContact :=
  match t with SeenPending p _ | Stored p => Some p | _ => None end.

Definition task_contact (t : SaveTask) : option (PendingBuyerContact * ContactRecord) :=
  match t with ResolvedContact p (Some c) | Operating p (Some c) | SeenPending p (Some c) => Some (p, c) | _ => None end.

Definition for_buyer (p : PendingBuyerContact) (buyer : Peer) : Prop :=
  bp_creator_id p = creator_id ∧ from_raw_or_app_key (reader_to_string (bp_reader p)) = Some buyer.

Record contact_inv (s : ContactSys) : Prop := {
  cv_holder : ∀ tid t, cs_tasks s !! tid = Some t → holding t = true → cs_holder s = Some tid;
  cv_pending : ∀ tid t p, cs_tasks s !! tid = Some t → committed_to t = Some p → buyer_contact_is_pending crypto (cs_rows s) p = true;
  cv_resolving : ∀ tid p buyer, cs_tasks s !! tid = Some (Resolving p buyer) → for_buyer p buyer;
  cv_contact : ∀ tid t p c, cs_tasks s !! tid = Some t → task_contact t = Some (p, c) → for_buyer p (co_public_key c);
  cv_completed : ∀ invoice, EvCompleted invoice ∈ cs_log s → ∃ row, cs_rows s !! invoice = Some row ∧ is_some (bc_completed_at row) = true;
}.

(** Rows keep their columns but the schedule, and a completion is final. *)
Definition rows_forward (rows rows' : gmap RowId ContactRow) : Prop :=
  ∀ id row, rows !! id = Some row → ∃ row', rows' !! id = Some row' ∧ bc_creator_id row' = bc_creator_id row
    ∧ bc_reader_lookup_hash row' = bc_reader_lookup_hash row
    ∧ (is_some (bc_completed_at row) = true → bc_completed_at row' = bc_completed_at row).

Lemma claim_rows ac rows locked now answer rows' :
  claim_buyer_contact crypto from_bytes ac rows locked now = (answer, rows') →
  ∀ id, match rows !! id, rows' !! id with
        | Some row, Some row' => bc_creator_id row' = bc_creator_id row ∧ bc_reader_lookup_hash row' = bc_reader_lookup_hash row
                                 ∧ bc_completed_at row' = bc_completed_at row
        | None, None => True
        | _, _ => False
        end.
Proof.
  unfold claim_buyer_contact. destruct (claim_candidate rows locked now) as [[id0 row0]|] eqn:E; intros [= _ <-] id; [|by destruct (rows !! id)].
  assert (rows !! id0 = Some row0) as Hr.
  { unfold claim_candidate in E. destruct (sort_by _ _) as [|x l] eqn:El; [done|]. injection E as ->.
    assert ((id0, row0) ∈ sort_by due_compare (filter (λ kv, Is_true (contact_due now kv.2 && negb (bool_decide (kv.1 ∈ locked)))) (map_to_list rows))) as Hin
      by (rewrite El; by left).
    apply elem_of_sort_by, list_elem_of_filter in Hin as [_ Hin]. by apply elem_of_map_to_list in Hin. }
  destruct (decide (id = id0)) as [->|Hne].
  - by rewrite Hr, lookup_insert_eq.
  - rewrite lookup_insert_ne by done. by destruct (rows !! id).
Qed.

Lemma claim_forward ac rows locked now answer rows' :
  claim_buyer_contact crypto from_bytes ac rows locked now = (answer, rows') → rows_forward rows rows'.
Proof. intros Hc id row Hr. pose proof (claim_rows _ _ _ _ _ _ Hc id) as Hid. rewrite Hr in Hid. destruct (rows' !! id); [naive_solver|done]. Qed.

Lemma claim_pending ac rows locked now answer rows' p :
  claim_buyer_contact crypto from_bytes ac rows locked now = (answer, rows') →
  buyer_contact_is_pending crypto rows' p = buyer_contact_is_pending crypto rows p.
Proof.
  intros Hc. pose proof (claim_rows _ _ _ _ _ _ Hc (bp_invoice_id p)) as Hid. unfold buyer_contact_is_pending, contact_matches.
  destruct (rows !! bp_invoice_id p), (rows' !! bp_invoice_id p); try done. destruct Hid as (-> & -> & ->). done.
Qed.

Lemma complete_forward rows p now : rows_forward rows (complete_buyer_contact crypto rows p now).
Proof.
  intros id row Hr. unfold complete_buyer_contact. destruct (rows !! bp_invoice_id p) as [row0|] eqn:E; [|eauto].
  destruct (contact_matches crypto p row0); [|eauto]. destruct (decide (id = bp_invoice_id p)) as [->|Hne].
  - rewrite Hr in E. injection E as <-. rewrite lookup_insert_eq. eexists. split_and!; [done|done|done|]. simpl.
    by destruct (bc_completed_at row).
  - rewrite lookup_insert_ne by done. eauto.
Qed.

Lemma complete_completes rows p now :
  buyer_contact_is_pending crypto rows p = true →
  ∃ row, complete_buyer_contact crypto rows p now !! bp_invoice_id p = Some row ∧ is_some (bc_completed_at row) = true.
Proof.
  unfold buyer_contact_is_pending, complete_buyer_contact. destruct (rows !! bp_invoice_id p) as [row|]; [|done].
  intros [Hm _]%andb_true_iff. rewrite Hm, lookup_insert_eq. eauto.
Qed.

Lemma forward_completed rows rows' id row :
  rows_forward rows rows' → rows !! id = Some row → is_some (bc_completed_at row) = true →
  ∃ row', rows' !! id = Some row' ∧ is_some (bc_completed_at row') = true.
Proof. intros Hf Hr Hc. destruct (Hf id row Hr) as (row' & Hr' & _ & _ & Hsame). exists row'. by rewrite (Hsame Hc). Qed.

Lemma inv_move s tid t :
  contact_inv s → (holding t = true → cs_holder s = Some tid) →
  (∀ p, committed_to t = Some p → buyer_contact_is_pending crypto (cs_rows s) p = true) →
  (∀ p buyer, t = Resolving p buyer → for_buyer p buyer) →
  (∀ p c, task_contact t = Some (p, c) → for_buyer p (co_public_key c)) → contact_inv (move s tid t).
Proof.
  intros [V1 V2 V3 V4 V5] H1 H2 H3 H4. split; simpl; [| | | |done]; intros k.
  - intros t' [[<- <-]|[_ Hk]]%lookup_insert_Some; [done|by apply V1].
  - intros t' p [[<- <-]|[_ Hk]]%lookup_insert_Some; [by apply H2|by apply (V2 k)].
  - intros p buyer [[<- ->]|[_ Hk]]%lookup_insert_Some; [by apply H3|by apply (V3 k)].
  - intros t' p c [[<- <-]|[_ Hk]]%lookup_insert_Some; [by apply H4|by apply (V4 k t')].
Qed.

Lemma inv_rows s rows :
  contact_inv s → rows_forward (cs_rows s) rows →
  (∀ p, buyer_contact_is_pending crypto (cs_rows s) p = true → buyer_contact_is_pending crypto rows p = true) →
  contact_inv (put_rows s rows []).
Proof.
  intros [V1 V2 V3 V4 V5] Hf Hp. split; simpl; [done| |done|done|].
  - intros tid t p Ht Hc. apply Hp. by apply (V2 tid t).
  - intros invoice Hin. destruct (V5 invoice Hin) as (row & Hr & Hc). by eapply forward_completed.
Qed.

Lemma inv_book s book evs :
  contact_inv s → (∀ invoice, EvCompleted invoice ∉ evs) → contact_inv (put_book s book evs).
Proof.
  intros [V1 V2 V3 V4 V5] He. split; simpl; [done..|]. intros invoice [Hin|Hin]%elem_of_app; [by destruct (He invoice)|by apply V5].
Qed.

Lemma others_idle s tid k t : contact_inv s → cs_holder s = Some tid ∨ cs_holder s = None → k ≠ tid → cs_tasks s !! k = Some t → holding t = false.
Proof.
  intros V Hh Hne Hk. apply not_true_is_false. intros Hhold. pose proof (cv_holder _ V k t Hk Hhold). destruct Hh; congruence.
Qed.

Lemma idle_uncommitted t p : holding t = false → committed_to t = Some p → False.
Proof. by destruct t. Qed.

Lemma inv_complete s tid p :
  contact_inv s → cs_tasks s !! tid = Some (Stored p) →
  contact_inv (move (put_rows s (complete_buyer_contact crypto (cs_rows s) p (cs_clock s)) [EvCompleted (bp_invoice_id p)]) tid Closing).
Proof.
  intros V Ht. pose proof (cv_holder _ V tid _ Ht eq_refl) as Hh. pose proof (cv_pending _ V tid _ p Ht eq_refl) as Hp.
  pose proof V as [V1 V2 V3 V4 V5]. split; simpl.
  - intros k t [[<- _]|[_ Hk]]%lookup_insert_Some; [done|by apply (V1 k t)].
  - intros k t p0 [[<- <-]|[Hne Hk]]%lookup_insert_Some Hc; [done|].
    destruct (idle_uncommitted t p0); [|done]. eapply (others_idle s tid k); [done|by left|congruence|done].
  - intros k p0 buyer [[_ [=]]|[_ Hk]]%lookup_insert_Some. by apply (V3 k).
  - intros k t p0 c [[<- <-]|[_ Hk]]%lookup_insert_Some; [done|by apply (V4 k t)].
  - intros invoice [[= ->]|Hin]%elem_of_cons; [by apply complete_completes|].
    destruct (V5 invoice Hin) as (row & Hr & Hc). eapply forward_completed; [apply complete_forward|done|done].
Qed.

Lemma inv_leave s tid : contact_inv s → contact_inv (leave s tid).
Proof.
  intros V. pose proof V as [V1 V2 V3 V4 V5]. split; simpl; [| | | |done]; intros k.
  - intros t [Hne Hk]%lookup_delete_Some Hhold. pose proof (V1 k t Hk Hhold) as E. rewrite decide_False by congruence. done.
  - intros t p [_ Hk]%lookup_delete_Some. by apply (V2 k).
  - intros p buyer [_ Hk]%lookup_delete_Some. by apply (V3 k).
  - intros t p c [_ Hk]%lookup_delete_Some. by apply (V4 k t).
Qed.

Lemma resolve_key buyer resolve now c :
  resolve_buyer_contact profile_validate update_validate owner buyer resolve now = Ok (Some c) → co_public_key c = buyer ∧ buyer ≠ owner.
Proof.
  unfold resolve_buyer_contact. case_bool_decide as E; [done|]. intros (r & _ & Hr)%bind_ok. destruct r as [r|]; [|done].
  apply bind_ok in Hr as (_ & _ & Hr). apply bind_ok in Hr as (_ & _ & [= <-]). done.
Qed.

Lemma contact_step_inv s s' : contact_inv s → contact_step s s' → contact_inv s'.
Proof.
  intros V Hs. inversion Hs as [clock Hle|invoice row Hn Hc|tid ac locked p rows buyer Hn Hcl Hcr Hb|ac locked answer rows Hcl
    |tid p buyer resolve c Ht Hr|tid p c Ht Hh|tid p c Ht|tid p Ht|tid p c book reported Ht Hi|tid p Ht|contacts blocked Hh|tid t Ht]; subst s'.
  - by destruct V.
  - apply inv_rows; [done| |].
    + intros id r Hid. exists r. rewrite lookup_insert_ne by congruence. done.
    + intros p. unfold buyer_contact_is_pending. destruct (decide (bp_invoice_id p = invoice)) as [->|Hne]; [by rewrite Hn|].
      by rewrite lookup_insert_ne.
  - apply inv_move; try done.
    + apply inv_rows; [done|by eapply claim_forward|]. intros p' Hp. by rewrite (claim_pending _ _ _ _ _ _ _ Hcl).
    + by intros p' buyer' [= <- <-].
  - apply inv_rows; [done|by eapply claim_forward|]. intros p' Hp. by rewrite (claim_pending _ _ _ _ _ _ _ Hcl).
  - apply inv_move; try done. intros p' c' Htc. destruct c as [c|]; [|done]. injection Htc as <- <-.
    apply resolve_key in Hr as [-> _]. by apply (cv_resolving _ V tid).
  - assert (contact_inv (put_holder s (Some tid))) as V'.
    { pose proof V as [V1 V2 V3 V4 V5]. split; simpl; try done. intros k t Hk Hhold. exfalso.
      pose proof (V1 k t Hk Hhold). congruence. }
    apply (inv_move (put_holder s (Some tid)) tid (Operating p c)); try done.
    intros p' c' Htc. destruct c as [c|]; [|done]. injection Htc as <- <-. by apply (cv_contact _ V tid _ p c Ht).
  - pose proof (cv_holder _ V tid _ Ht eq_refl) as Hh. destruct (buyer_contact_is_pending crypto (cs_rows s) p) eqn:Ep; apply inv_move; try done.
    + by intros p' [= <-].
    + intros p' c' Htc. destruct c as [c|]; [|done]. injection Htc as <- <-. by apply (cv_contact _ V tid _ p c Ht).
  - pose proof (cv_holder _ V tid _ Ht eq_refl) as Hh. apply inv_move; try done. intros p' [= <-]. by apply (cv_pending _ V tid _ p Ht).
  - pose proof (cv_holder _ V tid _ Ht eq_refl) as Hh. apply inv_move; [|destruct reported; done| | |].
    + apply inv_book; [done|]. intros invoice. unfold saved_event. destruct (_ && _); [|apply not_elem_of_nil].
      by rewrite list_elem_of_singleton.
    + intros p'. destruct reported; [|done]. intros [= <-]. by apply (cv_pending _ V tid _ p Ht).
    + by destruct reported.
    + by destruct reported.
  - by apply inv_complete.
  - apply inv_book; [done|]. intros invoice. apply not_elem_of_nil.
  - by apply inv_leave.
Qed.

Lemma contact_reachable_inv book s : contact_reachable book s → contact_inv s.
Proof.
  intros Hr. assert (contact_inv (contact_init book)) as V0.
  { split; simpl; intros *; try by rewrite lookup_empty. intros Hin. by apply not_elem_of_nil in Hin. }
  revert V0. induction Hr as [|s s1 s2 Hs _ IH]; [done|]. intros V0. apply IH. by eapply contact_step_inv.
Qed.

(** What holds of the rows, the book and the Creator when the contact of [invoice] is saved. *)
Record saved_well (s s' : ContactSys) (invoice : RowId) (c : ContactRecord) : Prop := {
  sw_row : ∃ row reader, cs_rows s !! invoice = Some row ∧ bc_completed_at row = None ∧ bc_creator_id row = creator_id
             ∧ bc_reader_lookup_hash row = lookup_hash crypto (reader_to_string reader)
             ∧ from_raw_or_app_key (reader_to_string reader) = Some (co_public_key c);
  sw_identity : bk_identity (cs_book s) = Some owner;
  sw_owner : co_public_key c ≠ owner;
  sw_new : bk_contacts (cs_book s) !! co_public_key c = None;
  sw_unblocked : co_public_key c ∉ bk_blocked (cs_book s);
  sw_book : cs_book s' = mk_ContactBook (Some owner) (<[co_public_key c := c]> (bk_contacts (cs_book s))) (bk_blocked (cs_book s));
}.

Lemma insert_exact (book book' : ContactBook (Peer := Peer)) (c : ContactRecord) :
  insert_buyer_contact book owner c = Ok book' →
  bk_contacts book !! co_public_key c = None → is_some (bk_contacts book' !! co_public_key c) = true →
  bk_identity book = Some owner ∧ co_public_key c ≠ owner ∧ co_public_key c ∉ bk_blocked book
  ∧ book' = mk_ContactBook (Some owner) (<[co_public_key c := c]> (bk_contacts book)) (bk_blocked book).
Proof.
  unfold insert_buyer_contact, ensure. destruct (bool_decide (bk_identity book = Some owner)) eqn:Ei; simpl; [|done].
  apply bool_decide_eq_true in Ei. intros Hb Hn Hs. rewrite Hn in Hb. simpl in Hb. rewrite orb_false_r in Hb.
  destruct (bool_decide (co_public_key c = owner)) eqn:Eo; simpl in Hb; [injection Hb as <-; by rewrite Hn in Hs|].
  destruct (bool_decide (co_public_key c ∈ bk_blocked book)) eqn:Ebl; [injection Hb as <-; by rewrite Hn in Hs|].
  injection Hb as <-. rewrite Ei. by apply bool_decide_eq_false in Eo, Ebl.
Qed.

Lemma pending_row rows p :
  buyer_contact_is_pending crypto rows p = true →
  ∃ row, rows !! bp_invoice_id p = Some row ∧ bc_completed_at row = None ∧ bc_creator_id row = bp_creator_id p
    ∧ bc_reader_lookup_hash row = lookup_hash crypto (reader_to_string (bp_reader p)).
Proof.
  unfold buyer_contact_is_pending, contact_matches. destruct (rows !! bp_invoice_id p) as [row|]; [|done].
  intros [[Hcr%bool_decide_eq_true Hh%String.eqb_eq]%andb_true_iff Hn]%andb_true_iff. exists row.
  by destruct (bc_completed_at row).
Qed.

Lemma step_saves s s' :
  contact_inv s → contact_step s s' →
  ∃ evs : list ContactEvent, cs_log s' = (evs ++ cs_log s)%list ∧ ∀ invoice c, EvSaved invoice c ∈ evs → saved_well s s' invoice c.
Proof.
  intros V Hs. inversion Hs as [| | | | | | | |tid p c book reported Ht Hi|tid p Ht| |]; subst s'; simpl;
    try (exists []; split; [done|]; intros * []%not_elem_of_nil).
  - eexists. split; [done|]. intros invoice c'. unfold saved_event. destruct (_ && _) eqn:E; [|intros []%not_elem_of_nil].
    intros [= -> ->]%list_elem_of_singleton. apply andb_true_iff in E as [En Es].
    destruct (bk_contacts (cs_book s) !! co_public_key c) eqn:Ec; [done|].
    destruct (insert_exact _ _ _ Hi Ec Es) as (Hid & Ho & Hb & ->). destruct (cv_contact _ V tid _ p c Ht eq_refl) as [Hcr Hk].
    destruct (pending_row _ _ (cv_pending _ V tid _ p Ht eq_refl)) as (row & Hr & Hn & Hc & Hh).
    split; [|done..]. exists row, (bp_reader p). by rewrite Hc.
  - exists [EvCompleted (bp_invoice_id p)]. split; [done|]. by intros * ?%list_elem_of_singleton.
Qed.

Lemma completed_not_saved s s' invoice c : contact_inv s → saved_well s s' invoice c → EvCompleted invoice ∉ cs_log s.
Proof.
  intros V [(row & reader & Hr & Hn & _) _ _ _ _ _] Hin. destruct (cv_completed _ V invoice Hin) as (row' & Hr' & Hc).
  rewrite Hr in Hr'. injection Hr' as <-. by rewrite Hn in Hc.
Qed.

Lemma completed_stays_unsaved s s' invoice :
  contact_inv s → rtc contact_step s s' → EvCompleted invoice ∈ cs_log s →
  ∃ evs : list ContactEvent, cs_log s' = (evs ++ cs_log s)%list ∧ ∀ c, EvSaved invoice c ∉ evs.
Proof.
  intros V Hr. revert V. induction Hr as [s|s s1 s2 Hs _ IH]; intros V Hin.
  - exists []. split; [done|]. intros c. apply not_elem_of_nil.
  - destruct (step_saves s s1 V Hs) as (e1 & He1 & Hsave). destruct IH as (e2 & He2 & Hno).
    + by eapply contact_step_inv.
    + rewrite He1. apply elem_of_app. by right.
    + exists (e2 ++ e1)%list. rewrite He2, He1, app_assoc. split; [done|]. intros c [He|He]%elem_of_app; [by eapply Hno|].
      by eapply completed_not_saved; [..|exact Hin]; [|by eapply Hsave].
Qed.

(** C33: However workers, expired claims, dropped tasks and the Creator's own edits interleave,
    a step that saves a buyer's contact does so for a row that still waits: the row belongs to
    this Creator and names this buyer, no attempt has completed it, the stored identity is the
    Creator's, and the buyer is neither the Creator, nor an existing contact, nor blocked; the
    step adds that one record and changes nothing else of the book.  Once an attempt has
    completed the row, no later step saves a contact for it, also when the Creator has deleted
    the one it saved. *)
Theorem buyer_contact_saved_once book s :
  contact_reachable book s →
  (∀ s' invoice c, contact_step s s' → cs_log s' = EvSaved invoice c :: cs_log s →
     saved_well s s' invoice c ∧ EvCompleted invoice ∉ cs_log s)
  ∧ (∀ s' invoice, rtc contact_step s s' → EvCompleted invoice ∈ cs_log s →
     ∃ evs : list ContactEvent, cs_log s' = (evs ++ cs_log s)%list ∧ ∀ c, EvSaved invoice c ∉ evs).
Proof.
  intros V%contact_reachable_inv. split.
  - intros s' invoice c Hs Hlog. destruct (step_saves s s' V Hs) as (evs & He & Hsave).
    assert (saved_well s s' invoice c) as Hw; [|by eauto using completed_not_saved].
    apply Hsave. rewrite Hlog in He. apply (app_inv_tail _ [_]) in He as <-. by left.
  - intros s' invoice. by apply completed_stays_unsaved.
Qed.
End system.

(** ** Witness: a buyer is saved, the row completed, the contact deleted *)

Module Example_contacts.
Import Example_allocation.

Definition row : ContactRow := mk_ContactRow 7 (lookup_hash crypto "reader") 0 None.

Definition attempt : PendingBuyerContact := mk_PendingBuyerContact 22 7 (mk_ReaderPubky "reader").

Definition buyer_profile : PaykitProfile := mk_PaykitProfile (Some " Ann ") None None.

Definition contact : ContactRecord (Peer := string) := mk_ContactRecord "reader" (Some "Ann") buyer_profile 0.

Definition no_profile_error : PaykitProfile → result PaykitSdkError unit := λ _, Ok tt.

Definition no_update_error : string → option string → result PaykitSdkError unit := λ _ _, Ok tt.

Definition book : ContactBook (Peer := string) := mk_ContactBook (Some "creator") ∅ {["mallory"]}.

Notation step := (contact_step crypto from_bytes Some no_profile_error no_update_error 7%N "creator").

Definition at_task (next : Z) (completed : option Z) (contacts : gmap string (ContactRecord (Peer := string))) (holder : option nat)
    (t : SaveTask (Peer := string)) (log : list (ContactEvent (Peer := string))) : ContactSys (Peer := string) :=
  mk_ContactSys 0 {[22%N := mk_ContactRow 7 (lookup_hash crypto "reader") next completed]}
    (mk_ContactBook (Some "creator") contacts {["mallory"]}) holder {[1%nat := t]} log.

Definition seen : ContactSys := at_task CONTACT_RETRY None ∅ (Some 1%nat) (SeenPending attempt (Some contact)) [].

Definition inserted : ContactSys :=
  at_task CONTACT_RETRY None {["reader" := contact]} (Some 1%nat) (Stored attempt) [EvSaved 22%N contact].

(** The row is completed, the lock free, the contact deleted by the Creator. *)
Definition deleted : ContactSys :=
  mk_ContactSys 0 {[22%N := mk_ContactRow 7 (lookup_hash crypto "reader") CONTACT_RETRY (Some 0)]} book None ∅
    [EvCompleted 22%N; EvSaved 22%N contact].

Ltac by_evaluation := vm_compute; reflexivity.

Lemma step_to s s' t : step s t → s' = t → step s s'.
Proof. by intros H ->. Qed.

Lemma run_to_seen : contact_reachable crypto from_bytes Some no_profile_error no_update_error 7%N "creator" book seen.
Proof.
  eapply rtc_l; [apply (ct_settled _ _ _ _ _ _ _ _ 22%N row); by_evaluation|].
  eapply rtc_l.
  { apply (ct_claim _ _ _ _ _ _ _ _ 1%nat created ∅ attempt {[22%N := with_next_attempt row CONTACT_RETRY]} "reader"); by_evaluation. }
  eapply rtc_l.
  { apply (ct_resolved _ _ _ _ _ _ _ _ 1%nat attempt "reader"
      (Ok (Some (mk_ResolvedProfile None (Some " Ann ") None))) (Some contact)); by_evaluation. }
  eapply rtc_l; [apply (ct_open _ _ _ _ _ _ _ _ 1%nat attempt (Some contact)); by_evaluation|].
  eapply rtc_l; [|apply rtc_refl].
  eapply step_to; [apply (ct_check _ _ _ _ _ _ _ _ 1%nat attempt (Some contact)); by_evaluation|by_evaluation].
Qed.

Lemma step_inserted : step seen inserted.
Proof.
  eapply step_to.
  - apply (ct_insert _ _ _ _ _ _ _ _ 1%nat attempt contact
      (mk_ContactBook (Some "creator") {["reader" := contact]} {["mallory"]}) true); by_evaluation.
  - by_evaluation.
Qed.

Lemma run_to_deleted : contact_reachable crypto from_bytes Some no_profile_error no_update_error 7%N "creator" book deleted.
Proof.
  unfold contact_reachable. transitivity seen; [exact run_to_seen|]. eapply rtc_l; [exact step_inserted|].
  eapply rtc_l; [apply (ct_complete _ _ _ _ _ _ _ _ 1%nat attempt); by_evaluation|].
  eapply rtc_l; [apply (ct_leave _ _ _ _ _ _ _ _ 1%nat Closing); by_evaluation|].
  eapply rtc_l; [|apply rtc_refl].
  eapply step_to; [apply (ct_creator _ _ _ _ _ _ _ _ ∅ {["mallory"]}); by_evaluation|by_evaluation].
Qed.
End Example_contacts.
Import Example_allocation Example_contacts.

Lemma buyer_contact_saved_once_witness :
  (EvCompleted 22%N ∉ cs_log seen) ∧ bk_contacts (cs_book inserted) !! "reader" = Some contact
  ∧ ∀ s', rtc step deleted s' → ∃ evs, cs_log s' = (evs ++ cs_log deleted)%list ∧ ∀ c, EvSaved 22%N c ∉ evs.
Proof.
  destruct (proj1 (buyer_contact_saved_once _ _ _ _ _ _ _ _ _ run_to_seen) inserted 22%N contact step_inserted eq_refl) as [_ Hn].
  split; [exact Hn|]. split; [vm_compute; reflexivity|]. intros s' Hr.
  apply (proj2 (buyer_contact_saved_once _ _ _ _ _ _ _ _ _ run_to_deleted) s' 22%N Hr). left.
Defined.
