(* ===== verification/WorkerTasks.v ===== *)
(** * WorkerTasks: one Creator's task of the outbox workers ([server.rs])

    A task of the enqueue loop takes the Creator's PostgreSQL fence, then the process-local
    mutation lock, and only then claims a row; it hands the row to the SDK, records the
    outcome, sends what was handed off and releases the fence.  A task of the reconciliation
    loop settles one handed-off row.  Both are programs over the calls of [OutboxWorker] and
    [Adapter], with the calls of the fence, the locks and the runtime added; the renewal of
    a lease runs beside the task and is a step of another worker in [OutboxExec].  The delays
    come from the retry schedule. *)

From S2P Require Import Prelude Text Locks Invoice Receiving Payment Lifecycle Pricing Intent Effects Readers Database OutboxStore OutboxWorker PaymentRecord Observations LifecycleStore Drains Status Adapter Limits Config ConfigProps.
Local Open Scope string_scope.
Local Open Scope Z_scope.
Local Open Scope list_scope.

(** ** Retry delays *)

(** [Duration::saturating_mul], in nanoseconds. *)
Definition duration_saturating_mul (d n : Z) : Z := Z.min DURATION_MAX (d * n).

Definition retry_delay (initial maximum attempt_count : Z) : Z :=
  let attempts := Z.max (- i32_max - 1) (attempt_count - 1) in
  let exponent := Z.min (if 0 <=? attempts then attempts else 0) 31 in
  Z.min (duration_saturating_mul initial (Z.shiftl 1 exponent)) maximum.

Definition MAX_LINK_ESTABLISHMENT_RETRY_DELAY : Z := 5 * 1000000000.

(** [None] is the panic of the [expect]. *)
Definition outbox_retry_schedule (initial maximum rapid_link_retry_attempts rapid_link_retry_interval attempt_count failure_count : Z) :
    option RetrySchedule :=
  let default := retry_delay initial maximum (Z.min i32_max (failure_count + 1)) in
  if rapid_link_retry_attempts <=? i32_max then
    let link_establishment :=
      if attempt_count <=? rapid_link_retry_attempts then rapid_link_retry_interval
      else Z.min (retry_delay initial maximum (attempt_count - rapid_link_retry_attempts)) MAX_LINK_ESTABLISHMENT_RETRY_DELAY in
    Some (mk_RetrySchedule default link_establishment)
  else None.

(** ** Programs inside larger programs *)

Section lift.
Context {E F : Type → Type} (inj : ∀ X, E X → F X).

Fixpoint lift {A} (p : prog E A) : prog F A :=
  match p with
  | Ret a => Ret a
  | Vis e k => Vis (inj _ e) (λ x, lift (k x))
  end.

Definition lift_event (ev : event E) : event F := match ev with Ev e x => Ev (inj _ e) x end.

Lemma runs_shift {A} (p : prog F A) Q pre tr :
  all_runs p (λ t a, Q (pre ++ t) a) tr → all_runs p Q (pre ++ tr).
Proof.
  revert tr. induction p as [a|X e k IH]; intros tr; simpl; [done|].
  intros H x. rewrite <- app_assoc. by apply IH.
Qed.

Lemma runs_after {A} (p : prog F A) Q pre : all_runs p (λ t a, Q (pre ++ t) a) [] → all_runs p Q pre.
Proof. intros H%runs_shift. by rewrite app_nil_r in H. Qed.

Lemma runs_lift {A} (p : prog E A) Q pre tr :
  all_runs p (λ t a, Q (pre ++ (lift_event <$> t)) a) tr → all_runs (lift p) Q (pre ++ (lift_event <$> tr)).
Proof.
  revert tr. induction p as [a|X e k IH]; intros tr; simpl; [done|].
  intros H x. specialize (IH x (tr ++ [Ev e x]) (H x)). by rewrite fmap_app, app_assoc in IH.
Qed.
End lift.

(** ** The tasks *)

Inductive AdapterBuildError := Build_Permanent | Build_Unavailable.

Definition adapter_build_label (e : AdapterBuildError) : string :=
  match e with Build_Permanent => "adapter_permanent" | Build_Unavailable => "adapter_unavailable" end.

Section task.
Context {core : LocksCore} {lib : PaykitLib}.
Context {Peer : Type} `{!EqDecision Peer} (from_raw_or_app_key : string → option Peer).
Context {Bytes : Type} (decrypt : string → RowId → string → option Bytes) (from_bytes : Bytes → option DeliveryIntentV1)
  (uuid_to_string : RowId → string).
Notation worker_parse_peer := (parse_peer from_raw_or_app_key).

(** A wait that loses against the shutdown signal answers [None] or [false].
    [LoadCredentials] is
    [CreatorStore::load_by_id], [BuildAdapter] is [PaykitAdapter::new]. *)
Inductive TaskCall : Type → Type :=
  | AcquireFence (creator : RowId) : TaskCall (option (result PersistenceError unit))
  | LockCreator (creator : RowId) : TaskCall bool
  | MayStart : TaskCall bool
  | ClaimFor (owner creator : RowId) (lease : Z) : TaskCall (result PersistenceError (option ClaimedOutbox))
  | LoadCredentials (creator : RowId) : TaskCall (result PersistenceError unit)
  | BuildAdapter (creator : RowId) : TaskCall (result PaykitSdkError unit)
  | Handoff {X} (e : Call (Peer := Peer) X) : TaskCall X
  | Sdk {X} (e : AdapterCall (Peer := Peer) X) : TaskCall X
  | ReleaseFence (creator : RowId) : TaskCall (result PersistenceError unit).

Notation T A := (prog TaskCall A).

Definition on_worker {A} (p : prog Call A) : T A := lift (@Handoff) p.

Definition on_adapter {A} (p : prog AdapterCall A) : T A := lift (@Sdk) p.

Definition creator_adapter (creator : RowId) : T (result AdapterBuildError unit) :=
  credentials ⇐ call (LoadCredentials creator);
  match credentials with
  | Err PE_CorruptOrMissing => Ret (Err Build_Permanent)
  | Err _ => Ret (Err Build_Unavailable)
  | Ok _ => built ⇐ call (BuildAdapter creator); Ret (map_err (λ _, Build_Permanent) built)
  end.

Definition mark (c : ClaimedOutbox) (op : FencedOp) (health : ProcessingHealth) :
    T (result PersistenceError (bool * ProcessingHealth)) :=
  on_worker (with_health health (call (Mark c op))).

(** The future under [with_claim_renewal], and whether it left an adapter in [ready_adapter]. *)
Definition settle_claim (creator : RowId) (c : ClaimedOutbox) (schedule : RetrySchedule) :
    T (result PersistenceError (bool * ProcessingHealth) * bool) :=
  match delivery_intent decrypt from_bytes c with
  | Err _ => r ⇐ mark c FailPermanently HealthPermanentFailure; Ret (r, false)
  | Ok intent =>
      match intent_proposal_expires_at intent with
      | Err _ => Ret (Err PE_CorruptOrMissing, false)
      | Ok deadline =>
          expired_now ⇐ match deadline with
                        | Some deadline => call (Handoff (ProposalExpired deadline))
                        | None => Ret (Ok false)
                        end;
          match expired_now with
          | Err e => Ret (Err e, false)
          | Ok true => r ⇐ mark c ExpireProposal HealthAvailable; Ret (r, false)
          | Ok false =>
              adapter ⇐ creator_adapter creator;
              match adapter with
              | Ok _ =>
                  r ⇐ on_worker (process_claim_with_health decrypt from_bytes uuid_to_string worker_parse_peer true c schedule);
                  Ret (r, true)
              | Err Build_Permanent => r ⇐ mark c FailPermanently HealthPermanentFailure; Ret (r, false)
              | Err Build_Unavailable =>
                  r ⇐ mark c (Retry (rs_default schedule) AdapterUnavailable) (HealthRetryable (rs_default schedule));
                  Ret (r, false)
              end
          end
      end
  end.

(** [Ok((true, Available))] and an adapter: the claim's message is sent at once; an error is
    only logged. *)
Definition send_after (creator : RowId) (c : ClaimedOutbox) (settled : result PersistenceError (bool * ProcessingHealth)) (ready : bool) :
    T unit :=
  match settled with
  | Ok (true, HealthAvailable) =>
      may_start ⇐ call MayStart;
      if may_start && ready then
        _ ⇐ on_adapter (send_handed_off from_raw_or_app_key decrypt from_bytes creator c); Ret tt
      else Ret tt
  | _ => Ret tt
  end.

Definition released (settled : result PersistenceError (bool * ProcessingHealth)) (unlocked : result PersistenceError unit) :
    result PersistenceError (option (bool * ProcessingHealth)) :=
  match settled, unlocked with
  | Err error, _ => Err error
  | Ok _, Err error => Err error
  | Ok r, Ok _ => Ok (Some r)
  end.

(** No result is a panic. *)
Definition process_creator_outbox (config : OutboxConfig) (owner creator : RowId) :
    T (option (result PersistenceError (option (bool * ProcessingHealth)))) :=
  fence ⇐ call (AcquireFence creator);
  match fence with
  | None => Ret (Some (Ok None))
  | Some (Err error) => Ret (Some (Err error))
  | Some (Ok _) =>
      guard ⇐ call (LockCreator creator);
      if negb guard then Ret (Some (Ok None))
      else
        may_start ⇐ call MayStart;
        if negb may_start then Ret (Some (Ok None))
        else
          claim ⇐ call (ClaimFor owner creator (oc_lease_duration config));
          match claim with
          | Err error => Ret (Some (Err error))
          | Ok None => Ret (Some (Ok None))
          | Ok (Some c) =>
              match outbox_retry_schedule (oc_retry_initial config) (oc_retry_max config) (oc_rapid_link_retry_attempts config)
                      (oc_rapid_link_retry_interval config) (c_attempt_count c) (c_failure_count c) with
              | None => Ret None
              | Some schedule =>
                  settled ⇐ settle_claim creator c schedule;
                  _ ⇐ send_after creator c settled.1 settled.2;
                  unlocked ⇐ call (ReleaseFence creator);
                  Ret (Some (released settled.1 unlocked))
              end
          end
  end.

(** The task of one claim of [outbox_reconciliation_loop]. *)
Definition reconcile_claim (config : OutboxConfig) (c : ClaimedHandoff) : T (result PersistenceError (bool * ProcessingHealth)) :=
  let delay := retry_delay (oc_retry_initial config) (oc_retry_max config) (h_attempt_count c) in
  adapter ⇐ creator_adapter (h_creator_id c);
  match adapter with
  | Ok _ => on_worker (process_reconciliation_with_health decrypt from_bytes c delay)
  | Err Build_Permanent =>
      on_worker (with_health HealthPermanentFailure (call (MarkReconciled c FailReconciliation)))
  | Err Build_Unavailable =>
      on_worker (with_health (HealthRetryable delay) (call (MarkReconciled c (RetryReconciliation delay AdapterUnavailable))))
  end.

(** ** What a task may do *)

Notation log := (list (event TaskCall)).

Definition marks (ev : event TaskCall) : bool := match ev with Ev (Handoff e) x => is_mark (Ev e x) | _ => false end.

Definition affects (ev : event TaskCall) : bool := match ev with Ev (Handoff e) x => hands_over (Ev e x) | _ => false end.

Definition sends (ev : event TaskCall) : bool := match ev with Ev (Sdk _) _ => true | _ => false end.

Definition claims (ev : event TaskCall) : bool := match ev with Ev (ClaimFor _ _ _) _ => true | _ => false end.

Definition claimed (ev : event TaskCall) : bool := match ev with Ev (ClaimFor _ _ _) (Ok (Some _)) => true | _ => false end.

(** No transition, no message sent, no second claim. *)
Definition restrained (tr : log) : Prop := Forall (λ ev, marks ev = false ∧ sends ev = false ∧ claims ev = false) tr.

Definition inert (tr : log) : Prop := restrained tr ∧ Forall (λ ev, affects ev = false) tr.

Notation lifted := (λ t, lift_event (@Handoff) <$> t).

(** A claim is settled: an error before a message was handed to the SDK, or exactly one transition,
    last, whose answer is the result; a handoff is recorded only right after the SDK accepted
    it under the live claim. *)
Definition settled (c : ClaimedOutbox) (work : log) (r : result PersistenceError (bool * ProcessingHealth)) : Prop :=
  (inert work ∧ is_err r = true)
  ∨ ∃ pre op x, work = pre ++ [Ev (Handoff (Mark c op)) x] ∧ restrained pre ∧ fst <$> r = x
      ∧ (∀ lease, op ≠ Renew lease)
      ∧ ∀ handoff, op = HandOff handoff → ∃ intent pre' expiration request_id,
          delivery_intent decrypt from_bytes c = Ok intent ∧ delivery_expiration intent = Ok expiration
          ∧ request_id_new (uuid_to_string (c_id c)) = Some request_id
          ∧ pre = pre' ++ lifted (guards c expiration ++ [effect_event intent request_id (Ok handoff)]) ∧ inert pre'.

Lemma inert_nil : inert [].
Proof. by split; constructor. Qed.

Lemma inert_app tr tr' : inert tr → inert tr' → inert (tr ++ tr').
Proof. intros [H1 H2] [H3 H4]. by split; apply Forall_app_2. Qed.

Lemma restrained_lifted t : Forall (λ ev, is_mark ev = false) t → restrained (lifted t).
Proof. intros H. apply Forall_fmap. eapply Forall_impl; [exact H|]. by intros [X e x]. Qed.

Lemma inert_lifted t : quiet t → inert (lifted t).
Proof.
  intros H. split; [by apply restrained_lifted, quiet_no_mark|]. apply Forall_fmap.
  eapply Forall_impl; [exact H|]. intros [X e x] [? ?]. done.
Qed.

Lemma settled_mark c op health (before : log) :
  inert before → (∀ handoff, op ≠ HandOff handoff) → (∀ lease, op ≠ Renew lease) →
  all_runs (mark c op health) (settled c) before.
Proof.
  intros [Hb _] Hh Hr x. simpl. right. exists before, op, x. split_and!; [done|done|by destruct x|done|].
  intros handoff ->. by destruct (Hh handoff).
Qed.

Lemma settled_worker c before t r :
  inert before → single_transition decrypt from_bytes uuid_to_string c t r → settled c (before ++ lifted t) r.
Proof.
  intros Hb [[Hq He]|(pre & op & x & -> & Hm & Hx & Hr & Hh)].
  - left. split; [|done]. apply inert_app; [done|]. by apply inert_lifted.
  - right. exists (before ++ lifted pre), op, x. split_and!; [by rewrite fmap_app, app_assoc| |done|done|].
    + apply Forall_app_2; [apply Hb|by apply restrained_lifted].
    + intros handoff ->. destruct (Hh handoff eq_refl) as (intent & pre' & expiration & rid & Hi & He & Hid & -> & Hq).
      exists intent, (before ++ lifted pre'), expiration, rid. split_and!; try done.
      * by rewrite fmap_app, app_assoc.
      * apply inert_app; [done|]. by apply inert_lifted.
Qed.

Lemma inert_snoc before ev :
  inert before → marks ev = false → sends ev = false → claims ev = false → affects ev = false → inert (before ++ [ev]).
Proof. intros Hb H1 H2 H3 H4. apply inert_app; [done|]. by split; apply Forall_singleton. Qed.

Lemma creator_adapter_runs creator Q (before : log) :
  inert before → (∀ tr a, inert tr → Q (before ++ tr) a) → all_runs (creator_adapter creator) Q before.
Proof.
  intros Hb HQ [[]|e]; simpl.
  - intros built. rewrite <- app_assoc. apply HQ. by repeat constructor.
  - destruct e; apply HQ; by repeat constructor.
Qed.

Lemma settle_claim_runs creator c schedule :
  all_runs (settle_claim creator c schedule) (λ tr r, settled c tr r.1) [].
Proof.
  unfold settle_claim. destruct (delivery_intent decrypt from_bytes c) as [intent|] eqn:Hi.
  2: { apply all_runs_bind, settled_mark; [apply inert_nil|done..]. }
  destruct (intent_proposal_expires_at intent) as [deadline|]; [|left; by split; [apply inert_nil|]].
  assert (Hgo : ∀ tr, inert tr → all_runs (adapter ⇐ creator_adapter creator;
    match adapter with
    | Ok _ => r ⇐ on_worker (process_claim_with_health decrypt from_bytes uuid_to_string worker_parse_peer true c schedule); Ret (r, true)
    | Err Build_Permanent => r ⇐ mark c FailPermanently HealthPermanentFailure; Ret (r, false)
    | Err Build_Unavailable =>
        r ⇐ mark c (Retry (rs_default schedule) AdapterUnavailable) (HealthRetryable (rs_default schedule)); Ret (r, false)
    end) (λ tr r, settled c tr r.1) tr).
  { intros tr Htr. apply all_runs_bind, creator_adapter_runs; [done|]. intros tr' a Htr'.
    pose proof (inert_app _ _ Htr Htr') as Hb. destruct a as [u|[]]; [|by apply all_runs_bind, settled_mark..].
    apply all_runs_bind. rewrite <- (app_nil_r (tr ++ tr')). apply (runs_lift (@Handoff) _ _ (tr ++ tr') []).
    eapply all_runs_mono; [|apply process_claim_runs]. intros t r Ht. by apply settled_worker. }
  destruct deadline as [d|]; [|apply (Hgo [] inert_nil)].
  intros [[|]|e].
  - apply all_runs_bind, settled_mark; [by apply (inert_snoc [] _ inert_nil)|done..].
  - by apply (Hgo [_]), (inert_snoc [] _ inert_nil).
  - left. split; [|done]. by apply (inert_snoc [] _ inert_nil).
Qed.

(** The message of a claim is sent only when the runtime still allows it. *)
Definition sent_after (r : result PersistenceError (bool * ProcessingHealth)) (tr : log) : Prop :=
  tr = [] ∨ (∃ h, r = Ok (true, h)) ∧ ∃ b rest, tr = Ev MayStart b :: rest ∧ (b = false → rest = [])
    ∧ Forall (λ ev, sends ev = true) rest.

Lemma sends_only p (tr : log) : Forall (λ ev, sends ev = true) tr →
  all_runs (on_adapter (A := result HandoffError unit) p) (λ tr' _, Forall (λ ev, sends ev = true) tr') tr.
Proof.
  revert tr. induction p as [a|X e k IH]; intros tr Htr; simpl; [done|]. intros x. apply IH.
  apply Forall_app_2; [done|]. by apply Forall_singleton.
Qed.

Lemma send_after_runs creator c r ready : all_runs (send_after creator c r ready) (λ tr _, sent_after r tr) [].
Proof.
  unfold send_after. destruct r as [[[|] []]|]; try by left. intros may_start. simpl.
  assert (Hs : ∀ rest, (may_start = false → rest = []) → Forall (λ ev, sends ev = true) rest →
    sent_after (Ok (true, HealthAvailable)) (Ev MayStart may_start :: rest)) by (intros; right; eauto 10).
  destruct (may_start && ready) eqn:E; [|by apply (Hs [])].
  apply all_runs_bind, (runs_after _ _ [_]). eapply all_runs_mono; [|apply (sends_only _ []); constructor].
  intros rest a Hrest. apply Hs; [by destruct may_start|done].
Qed.

Definition opening (owner creator : RowId) (lease : Z) (c : ClaimedOutbox) : log :=
  [Ev (AcquireFence creator) (Some (Ok tt)); Ev (LockCreator creator) true; Ev MayStart true;
   Ev (ClaimFor owner creator lease) (Ok (Some c))].

(** What a task leaves in the log: it claimed nothing, or it went through its five stages. *)
Definition task_log (lease : Z) (owner creator : RowId) (tr : log) (res : result PersistenceError (option (bool * ProcessingHealth))) : Prop :=
  (Forall (λ ev, marks ev = false ∧ sends ev = false ∧ affects ev = false ∧ claimed ev = false) tr ∧ ∀ r, res ≠ Ok (Some r))
  ∨ ∃ c work r sent unlocked,
      tr = opening owner creator lease c ++ work ++ sent ++ [Ev (ReleaseFence creator) unlocked]
      ∧ settled c work r ∧ sent_after r sent ∧ res = released r unlocked.

(** C39: the task of a Creator is fenced.  Whatever the stores, the SDK, the locks and the
    other workers answer, a row is claimed only after the Creator's PostgreSQL fence and then
    its mutation lock were taken and the server was still running, and at most once.  A
    claimed row is settled by exactly one transition, or by an error before a message was handed to
    the SDK; a handoff is recorded only right after the SDK accepted it under the live claim.
    Only after a recorded transition, and only while the server is not stopping, is the
    message sent.  The fence is released last, after everything, and a failure of the release
    or of the settlement is the task's result. *)
Theorem outbox_task_fenced config owner creator :
  oc_rapid_link_retry_attempts config <= i32_max →
  all_runs (process_creator_outbox config owner creator)
    (λ tr ended, ∃ res, ended = Some res ∧ task_log (oc_lease_duration config) owner creator tr res) [].
Proof.
  intros Hconfig. unfold process_creator_outbox.
  intros [[[]|e]|]; simpl; try by eexists; split; [done|]; left; split; [repeat constructor|].
  intros [|]; simpl; [|by eexists; split; [done|]; left; split; [repeat constructor|]].
  intros [|]; simpl; [|by eexists; split; [done|]; left; split; [repeat constructor|]].
  intros [[c|]|e]; simpl; [|by eexists; split; [done|]; left; split; [repeat constructor|]..].
  unfold outbox_retry_schedule. rewrite (proj2 (Z.leb_le _ _) Hconfig). apply all_runs_bind.
  apply (runs_after _ _ (opening owner creator (oc_lease_duration config) c)).
  eapply all_runs_mono; [|apply settle_claim_runs]. intros work [r ready] Hw. apply all_runs_bind.
  apply (runs_after _ _ (opening owner creator (oc_lease_duration config) c ++ work)).
  eapply all_runs_mono; [|apply send_after_runs]. intros sent u Hs unlocked. eexists. split; [done|]. right.
  exists c, work, r, sent, unlocked. split_and!; [|done..]. by rewrite <- !app_assoc.
Qed.
End task.

(** ** The retry schedule *)

Lemma retry_delay_exact initial maximum k :
  0 <= initial → maximum <= DURATION_MAX → 1 <= k →
  retry_delay initial maximum k = Z.min maximum (initial * 2 ^ Z.min 31 (k - 1)).
Proof.
  intros Hi Hm Hk. unfold retry_delay, duration_saturating_mul, i32_max. rewrite (Z.max_r _ (k - 1)) by lia.
  rewrite (proj2 (Z.leb_le 0 (k - 1))) by lia. rewrite Z.shiftl_mul_pow2, Z.mul_1_l, (Z.min_comm (k - 1)) by lia. lia.
Qed.

Lemma retry_delay_grows initial maximum k k' :
  0 <= initial <= maximum → maximum <= DURATION_MAX → 1 <= k <= k' →
  initial <= retry_delay initial maximum k <= retry_delay initial maximum k' ∧ retry_delay initial maximum k' <= maximum.
Proof.
  intros [Hi Hm] HM Hk. rewrite !retry_delay_exact by lia.
  assert (2 ^ 0 <= 2 ^ Z.min 31 (k - 1)) by (apply Z.pow_le_mono_r; lia).
  assert (2 ^ Z.min 31 (k - 1) <= 2 ^ Z.min 31 (k' - 1)) by (apply Z.pow_le_mono_r; lia).
  change (2 ^ 0) with 1 in *. nia.
Qed.

(** The delays of an accepted configuration: an ordinary failure backs off exponentially
    between the configured bounds; a link that is not there yet is retried at the rapid
    interval for the configured number of attempts, and from then on at least every five
    seconds. *)
Theorem retry_schedule_exact config attempt_count failure_count :
  0 <= oc_retry_initial config <= oc_retry_max config → oc_retry_max config <= DURATION_MAX →
  0 <= oc_rapid_link_retry_attempts config <= i32_max → 0 <= failure_count < i32_max → 0 <= attempt_count <= i32_max →
  ∃ schedule,
    outbox_retry_schedule (oc_retry_initial config) (oc_retry_max config) (oc_rapid_link_retry_attempts config)
      (oc_rapid_link_retry_interval config) attempt_count failure_count = Some schedule
    ∧ rs_default schedule = Z.min (oc_retry_max config) (oc_retry_initial config * 2 ^ Z.min 31 failure_count)
    ∧ (attempt_count <= oc_rapid_link_retry_attempts config →
         rs_link_establishment schedule = oc_rapid_link_retry_interval config)
    ∧ (oc_rapid_link_retry_attempts config < attempt_count →
         Z.min (oc_retry_initial config) MAX_LINK_ESTABLISHMENT_RETRY_DELAY <= rs_link_establishment schedule
           <= MAX_LINK_ESTABLISHMENT_RETRY_DELAY).
Proof.
  intros Hr HM [Ha0 Ha] Hf Hn. unfold outbox_retry_schedule. rewrite (proj2 (Z.leb_le _ _) Ha). eexists. split; [done|]. simpl.
  rewrite Z.min_r, retry_delay_exact by lia. replace (failure_count + 1 - 1) with failure_count by lia. split; [done|].
  split; intros Hc.
  - by rewrite (proj2 (Z.leb_le _ _) Hc).
  - rewrite (proj2 (Z.leb_gt _ _) Hc).
    pose proof (retry_delay_grows _ _ (attempt_count - oc_rapid_link_retry_attempts config)
      (attempt_count - oc_rapid_link_retry_attempts config) Hr HM). lia.
Qed.

(** ** Witness: a task that hands its row off *)

Module Example_task.
Notation Task := (TaskCall (core := Example_core.example_core) (lib := Example_lib.example_lib) (Peer := string)).

(** An SDK that is down after the handoff. *)
Definition offline (X : Type) (e : AdapterCall (core := Example_core.example_core) (lib := Example_lib.example_lib) (Peer := string) X) : X :=
  match e in AdapterCall Y return Y with
  | ReceiveFrom _ => Err Sdk_Other
  | ReceiveFromLinkedPeers => Err Sdk_Other
  | PaymentRequests => Err Sdk_Other
  | LinkedPeers => Err Sdk_Other
  | PendingCounterparties => Err Sdk_Other
  | ProcessOutbound _ => Err Sdk_Other
  | ExportOutbound => Err Sdk_Other
  | EnsureLinkWithPeer _ => Err Sdk_Other
  | ProposeWithId _ _ _ => Err Sdk_Other
  | CancelRequest _ _ => Err Sdk_Other
  | AppRegistry _ => Err Sdk_Other
  | NoiseKeyAuthorization _ => Err Sdk_Other
  | ApplyProjection _ => Err PE_Unavailable
  | TargetsForLock _ => Err PE_Unavailable
  | TargetsForBundle _ => Err PE_Unavailable
  | TargetsForRotation => Err PE_Unavailable
  | ObserveUsdt _ _ => Err PE_Unavailable
  | ObserveMarketplaceUsdt _ => Err PE_Unavailable
  | DrainReplay _ => Err PE_Unavailable
  | CreateDrain _ _ => Err PE_Unavailable
  | CleanupDrain _ _ => Err PE_Unavailable
  | StatusAfterReceive _ _ => Err PE_Unavailable
  | HandoffIsCommitted _ => Ok true
  | InvoiceExists _ _ => Err PE_Unavailable
  | LoadCreator _ => Err PE_Unavailable
  end.

Definition handler (X : Type) (e : Task X) (db : Db) : X * Db :=
  match e in TaskCall Y return Y * Db with
  | AcquireFence _ => (Some (Ok tt), db)
  | LockCreator _ => (true, db)
  | MayStart => (true, db)
  | ClaimFor _ _ _ => (Ok (Some Example_worker.the_claim), db)
  | LoadCredentials _ => (Ok tt, db)
  | BuildAdapter _ => (Ok tt, db)
  | Handoff e => Example_worker.handler _ e db
  | Sdk e => (offline _ e, db)
  | ReleaseFence _ => (Ok tt, db)
  end.

Definition config : OutboxConfig := OutboxConfig_from (mk_RawOutboxConfig 1000000000 None None None None None None).

Definition run := exec handler (process_creator_outbox (core := Example_core.example_core) (lib := Example_lib.example_lib) (Peer := string)
  Some Example_worker.open_envelope Example_worker.from_bytes Example_worker.uuid_to_string config 9 7) Example_store.leased.
End Example_task.

Lemma outbox_task_fenced_witness :
  Example_task.run.1.1 = Some (Ok (Some (true, HealthAvailable)))
  ∧ ∃ res, Example_task.run.1.1 = Some res
      ∧ task_log (core := Example_core.example_core) (lib := Example_lib.example_lib) (Peer := string) Example_worker.open_envelope Example_worker.from_bytes Example_worker.uuid_to_string
          (oc_lease_duration Example_task.config) 9 7 Example_task.run.2 res.
Proof.
  split; [vm_compute; reflexivity|].
  apply (all_runs_exec Example_task.handler _ _ Example_store.leased []
    (outbox_task_fenced (core := Example_core.example_core) (lib := Example_lib.example_lib) (Peer := string)
       Some Example_worker.open_envelope Example_worker.from_bytes Example_worker.uuid_to_string
       Example_task.config 9 7 ltac:(vm_compute; discriminate))).
Defined.
