(* ===== verification/WorkerLoops.v ===== *)
(** * WorkerLoops: the loops around the workers ([server.rs])

    A pass of transport maintenance as a step system, the turns of the enqueue, the
    reconciliation and the lifecycle loops as functions of what they are told, and the
    observer's tick as a program; each with what it reports to the [Runtime]'s readiness.
    The timers that start the turns are not modelled. *)

From S2P Require Import Prelude Text Sorting Locks Invoice Receiving Payment Lifecycle Pricing Intent Effects Readers Database OutboxStore OutboxWorker CreateInvoice PaymentRecord Observations LifecycleStore Drains Status Adapter Targets Limits Config Allowances Observer Runtime WorkerTasks.
Local Open Scope string_scope.
Local Open Scope Z_scope.
Local Open Scope list_scope.

(** ** Transport maintenance *)

Inductive TransportMaintenance :=
  | TransportComplete
  | TransportDeferred
  | TransportFailed (step category : string).

#[global] Instance TransportMaintenance_eq_dec : EqDecision TransportMaintenance.
Proof. solve_decision. Defined.

Section transport.
Context {core : LocksCore} {lib : PaykitLib} {Peer : Type}.

Definition maintain_creator_transport (creator : RowId) (full_scan : bool) : prog (TaskCall (Peer := Peer)) TransportMaintenance :=
  adapter ⇐ creator_adapter creator;
  match adapter with
  | Err error => Ret (TransportFailed "adapter_build" (adapter_build_label error))
  | Ok _ =>
      result ⇐ on_adapter (if full_scan then maintain_transport else maintain_outbound_transport);
      Ret match result with
          | Ok _ => TransportComplete
          | Err error => if is_contention error then TransportDeferred else TransportFailed "maintain_transport" (sdk_error_label error)
          end
  end.
End transport.

(** [maintain_transport_pass]: the Creators still to be taken, the tasks, the flag, and what
    was started and joined so far. *)
Record TransportPass := mk_TransportPass {
  tp_stopping : bool;
  tp_creators : list RowId;
  tp_tasks : CreatorTasks;
  tp_deferred : bool;
  tp_started : list RowId;
  tp_joined : list (RowId * TransportMaintenance);
}.

Definition transport_pass (creators : list RowId) (limit : Z) : TransportPass :=
  mk_TransportPass false creators (CreatorTasks_new limit) false [] [].

(** The inner loop goes on. *)
Definition admits (p : TransportPass) : bool :=
  negb (tp_stopping p) && (0 <? available_slots (tp_tasks p)) && negb (bool_decide (tp_creators p = [])).

(** The runtime may begin to stop at any time, also between the check of the inner loop and
    that of [try_spawn]; a joined task may have had any outcome. *)
Inductive transport_step (p : TransportPass) : TransportPass → Prop :=
  | tp_stop : tp_stopping p = false →
      transport_step p (mk_TransportPass true (tp_creators p) (tp_tasks p) (tp_deferred p) (tp_started p) (tp_joined p))
  | tp_spawn creator creators : admits p = true → tp_creators p = creator :: creators →
      transport_step p
        (match try_spawn true (tp_tasks p) creator with
         | Some tasks => mk_TransportPass false creators tasks (tp_deferred p) (tp_started p ++ [creator]) (tp_joined p)
         | None => mk_TransportPass false creators (tp_tasks p) (tp_deferred p) (tp_started p) (tp_joined p)
         end)
  | tp_spawn_stopped creator creators : admits p = true → tp_creators p = creator :: creators →
      transport_step p (mk_TransportPass true creators (tp_tasks p) (tp_deferred p) (tp_started p) (tp_joined p))
  | tp_join creator outcome : admits p = false → creator ∈ ct_active (tp_tasks p) →
      transport_step p
        (mk_TransportPass (tp_stopping p) (tp_creators p) (join_next (tp_tasks p) creator)
           (match outcome with TransportDeferred => true | _ => tp_deferred p end)
           (tp_started p) (tp_joined p ++ [(creator, outcome)])).

(** [join_next] has nothing to wait for. *)
Definition transport_over (p : TransportPass) : Prop := admits p = false ∧ ct_active (tp_tasks p) = ∅.

(** A turn of [shared_transport_loop]: [hinted] is not a full scan; [ready] is the answer of
    [ready_ids], asked on a full scan; [pass] is what the pass deferred and whether the
    server still runs after it. *)
Definition transport_turn (h : Health) (hinted : bool) (ready : result PersistenceError (list RowId))
    (pass : list RowId → bool * bool) (hints : list RowId) : Health :=
  match (if hinted then Ok hints else ready) with
  | Err _ => set_paykit_transport_available h false
  | Ok creators =>
      let '(deferred, may_start) := pass creators in
      if negb may_start then h
      else if negb hinted && negb deferred then set_paykit_transport_available h true
      else h
  end.

(** *** A pass takes every Creator once *)

Definition active (p : TransportPass) : list RowId := elements (ct_active (tp_tasks p)).

Record pass_inv (creators : list RowId) (limit : Z) (p : TransportPass) : Prop := {
  pi_limit : ct_limit (tp_tasks p) = limit ∧ Z.of_nat (size (ct_active (tp_tasks p))) <= limit;
  pi_order : ∃ skipped, tp_started p ++ skipped ++ tp_creators p = creators ∧ (tp_stopping p = false → skipped = []);
  pi_joined : tp_started p ≡ₚ (tp_joined p).*1 ++ active p;
  pi_deferred : tp_deferred p = true ↔ TransportDeferred ∈ (tp_joined p).*2;
}.

Lemma pass_inv_init creators limit : 0 < limit → pass_inv creators limit (transport_pass creators limit).
Proof.
  intros Hl. split.
  - unfold transport_pass, CreatorTasks_new. cbn [tp_tasks ct_active ct_limit]. rewrite (size_empty (C := gset RowId)). lia.
  - exists []. done.
  - unfold active, transport_pass, CreatorTasks_new. cbn [tp_tasks ct_active tp_started tp_joined]. by rewrite elements_empty.
  - split; [done|]. by intros ?%not_elem_of_nil.
Qed.

Lemma try_spawn_fresh tasks creator :
  0 < available_slots tasks → creator ∉ ct_active tasks →
  try_spawn true tasks creator = Some (mk_CreatorTasks ({[creator]} ∪ ct_active tasks) (ct_limit tasks)).
Proof.
  intros Ha Hn. unfold try_spawn. rewrite bool_decide_eq_false_2 by done. destruct (available_slots tasks =? 0) eqn:E; [|done].
  apply Z.eqb_eq in E. lia.
Qed.

(** The Creator that is next is not running: it was not taken before. *)
Lemma next_fresh creators limit p creator rest :
  NoDup creators → pass_inv creators limit p → admits p = true → tp_creators p = creator :: rest →
  tp_stopping p = false ∧ try_spawn true (tp_tasks p) creator
    = Some (mk_CreatorTasks ({[creator]} ∪ ct_active (tp_tasks p)) limit) ∧ creator ∉ ct_active (tp_tasks p)
  ∧ Z.of_nat (size (ct_active (tp_tasks p))) + 1 <= limit ∧ tp_started p ++ creator :: rest = creators.
Proof.
  intros Hnd [[Hl _] (skipped & Ho & Hs) Hj _] Ha Hc. unfold admits in Ha.
  apply andb_true_iff in Ha as [[Hst%negb_true_iff Hsl%Z.ltb_lt]%andb_true_iff _]. rewrite (Hs Hst) in Ho. simpl in Ho. rewrite Hc in Ho.
  assert (creator ∉ ct_active (tp_tasks p)) as Hn.
  { intros Hin. assert (creator ∈ tp_started p) as Hin' by (rewrite Hj; apply elem_of_app; right; unfold active; by apply elem_of_elements).
    rewrite <- Ho in Hnd. apply NoDup_app in Hnd as (_ & Hd & _). apply (Hd creator Hin'). by left. }
  split_and!; [done| |done| |done]; [rewrite <- Hl; by apply try_spawn_fresh|]. unfold available_slots in *. lia.
Qed.

Lemma pass_inv_step creators limit p p' : NoDup creators → pass_inv creators limit p → transport_step p p' → pass_inv creators limit p'.
Proof.
  intros Hnd I Hs. destruct Hs as [Hst|creator rest Ha Hc|creator rest Ha Hc|creator outcome Ha Hin].
  - destruct I as [I1 (skipped & I2 & _) I3 I4]. split; simpl; try done. by exists skipped.
  - destruct (next_fresh _ _ _ _ _ Hnd I Ha Hc) as (Hst & -> & Hn & Hsz & Ho). destruct I as [I1 I2 I3 I4]. split; simpl; try done.
    + split; [done|]. rewrite size_union, size_singleton by set_solver. lia.
    + exists []. by rewrite <- app_assoc.
    + unfold active in *. simpl. rewrite elements_union_singleton by done. rewrite I3. solve_Permutation.
  - destruct (next_fresh _ _ _ _ _ Hnd I Ha Hc) as (Hst & _ & Hn & Hsz & Ho). destruct I as [I1 I2 I3 I4]. split; simpl; try done.
    by exists [creator].
  - destruct I as [[I0 I1] I2 I3 I4]. assert (elements (ct_active (tp_tasks p)) ≡ₚ creator :: elements (ct_active (tp_tasks p) ∖ {[creator]})) as He.
    { rewrite <- elements_union_singleton by set_solver. by rewrite <- union_difference_singleton_L. }
    split; simpl; try done.
    + split; [done|]. rewrite size_difference by set_solver. lia.
    + unfold active in *. simpl. rewrite I3, He, fmap_app. simpl. solve_Permutation.
    + rewrite fmap_app, elem_of_app. simpl. rewrite list_elem_of_singleton, <- I4. destruct outcome; naive_solver.
Qed.

Definition pass_left (p : TransportPass) : nat :=
  2 * length (tp_creators p) + size (ct_active (tp_tasks p)) + (if tp_stopping p then 0 else 1).

Lemma pass_left_init creators limit : pass_left (transport_pass creators limit) = (2 * length creators + 1)%nat.
Proof.
  unfold pass_left, transport_pass, CreatorTasks_new. cbn [tp_creators tp_tasks ct_active tp_stopping].
  rewrite (size_empty (C := gset RowId)). lia.
Qed.

Lemma pass_left_step creators limit p p' :
  NoDup creators → pass_inv creators limit p → transport_step p p' → (pass_left p' < pass_left p)%nat.
Proof.
  intros Hnd I Hs. unfold pass_left. destruct Hs as [Hst|creator rest Ha Hc|creator rest Ha Hc|creator outcome Ha Hin].
  - simpl. rewrite Hst. lia.
  - destruct (next_fresh _ _ _ _ _ Hnd I Ha Hc) as (Hst & -> & Hn & _ & _). simpl.
    rewrite Hc, Hst, size_union, size_singleton by set_solver. simpl. lia.
  - destruct (next_fresh _ _ _ _ _ Hnd I Ha Hc) as (Hst & _). simpl. rewrite Hc, Hst. simpl. lia.
  - simpl. assert (size (ct_active (tp_tasks p)) ≠ 0)%nat by (intros ?%size_empty_inv; set_solver).
    rewrite size_difference, size_singleton by set_solver. destruct (tp_stopping p); lia.
Qed.

Lemma pass_progress p : transport_over p ∨ ∃ p', transport_step p p'.
Proof.
  destruct (admits p) eqn:Ha.
  - right. destruct (tp_creators p) as [|creator rest] eqn:Hc.
    + unfold admits in Ha. rewrite Hc in Ha. by rewrite andb_false_r in Ha.
    + eexists. by eapply tp_spawn.
  - destruct (set_choose_or_empty (ct_active (tp_tasks p))) as [[c Hc]|He].
    + right. eexists. by apply (tp_join p c TransportComplete).
    + left. split; [done|]. by apply leibniz_equiv.
Qed.

Lemma pass_runs creators limit k p0 p :
  NoDup creators → pass_inv creators limit p0 → nsteps transport_step k p0 p →
  pass_inv creators limit p ∧ (k + pass_left p <= pass_left p0)%nat.
Proof.
  intros Hnd I Hr. induction Hr as [p|k p0 p1 p2 Hs _ IH]; [split; [done|lia]|].
  pose proof (pass_left_step _ _ _ _ Hnd I Hs). destruct (IH (pass_inv_step _ _ _ _ Hnd I Hs)) as [I' Hk]. split; [done|lia].
Qed.

(** C40: a pass of transport maintenance ends and skips nobody.  However the tasks interleave
    and whatever they report, a pass over distinct Creators takes at most twice their number
    of steps and one, keeps at most the configured number of tasks, and can always go on until
    it is over; then every task it started has been joined, the pass is deferred exactly when
    one of them was, and unless the server is stopping every Creator was started, in order and
    once. *)
Theorem transport_pass_complete creators limit k p :
  0 < limit → NoDup creators → nsteps transport_step k (transport_pass creators limit) p →
  (k <= 2 * length creators + 1)%nat ∧ Z.of_nat (size (ct_active (tp_tasks p))) <= limit
  ∧ (transport_over p ∨ ∃ p', transport_step p p')
  ∧ (transport_over p →
       (tp_joined p).*1 ≡ₚ tp_started p ∧ (tp_deferred p = true ↔ TransportDeferred ∈ (tp_joined p).*2)
       ∧ (tp_stopping p = false → tp_started p = creators)).
Proof.
  intros Hl Hnd Hr. destruct (pass_runs _ limit _ _ _ Hnd (pass_inv_init creators limit Hl) Hr) as [I Hk].
  split_and!; [|apply I|apply pass_progress|].
  - rewrite pass_left_init in Hk. lia.
  - intros [Ha He]. destruct I as [[I0 I1] (skipped & I2 & Hs) I3 I4]. unfold active in I3. rewrite He, elements_empty, app_nil_r in I3.
    split_and!; [done|done|]. intros Hst. unfold admits, available_slots in Ha.
    rewrite Hst, He, (size_empty (C := gset RowId)), I0 in Ha. simpl in Ha. rewrite (proj2 (Z.ltb_lt _ _)) in Ha by lia. simpl in Ha.
    apply negb_false_iff, bool_decide_eq_true in Ha. rewrite (Hs Hst), Ha, !app_nil_r in I2. done.
Qed.

(** ** The lifecycle loop *)

Record LifecycleReadiness := mk_LifecycleReadiness { lr_checking : option (gset RowId) }.

Definition publish_if_complete (r : LifecycleReadiness) (h : Health) : LifecycleReadiness * Health :=
  match lr_checking r with
  | Some checking =>
      if decide (checking = ∅) then (mk_LifecycleReadiness None, set_paykit_lifecycle_available h true) else (r, h)
  | None => (r, h)
  end.

Definition full_pass (r : LifecycleReadiness) (h : Health) (creators : list RowId) : LifecycleReadiness * Health :=
  publish_if_complete (mk_LifecycleReadiness (Some (default (list_to_set creators) (lr_checking r)))) h.

Definition failed (h : Health) : LifecycleReadiness * Health :=
  (mk_LifecycleReadiness None, set_paykit_lifecycle_available h false).

Definition completed (r : LifecycleReadiness) (h : Health) (creator : RowId) (available : bool) : LifecycleReadiness * Health :=
  if negb available then failed h
  else match lr_checking r with
       | Some checking => publish_if_complete (mk_LifecycleReadiness (Some (checking ∖ {[creator]}))) h
       | None => (r, h)
       end.

(** The loop of [start_lifecycle_passes]: whom it started, and what it leaves. *)
Fixpoint spawn_lifecycle (may_start : RowId → bool) (running : gset RowId) (creators : list RowId)
    (tasks : CreatorTasks) (turns : IntakeTurns) (pending : gset RowId) : list RowId * CreatorTasks * IntakeTurns * gset RowId :=
  match creators with
  | [] => ([], tasks, turns, pending)
  | creator :: creators =>
      if available_slots tasks =? 0 then ([], tasks, turns, pending)
      else if bool_decide (creator ∈ running) || negb (bool_decide (creator ∈ pending))
      then spawn_lifecycle may_start running creators tasks turns pending
      else match try_spawn (may_start creator) tasks creator with
           | Some tasks =>
               let '(passes, tasks, turns, pending) :=
                 spawn_lifecycle may_start running creators tasks (started turns creator) (pending ∖ {[creator]}) in
               (creator :: passes, tasks, turns, pending)
           | None => spawn_lifecycle may_start running creators tasks turns pending
           end
  end.

Definition start_lifecycle_passes (may_start : RowId → bool) (tasks : CreatorTasks) (turns : IntakeTurns) (pending : gset RowId)
    (known_creators : list RowId) : list RowId * CreatorTasks * IntakeTurns * gset RowId :=
  let running := ct_active tasks in
  let creators := pending ∪ running ∪ list_to_set known_creators in
  let '(ordered, turns) := order turns (sort_by N.compare (elements creators)) in
  spawn_lifecycle may_start running ordered tasks turns pending.

Record LifecycleLoop := mk_LifecycleLoop {
  ll_tasks : CreatorTasks;
  ll_turns : IntakeTurns;
  ll_pending : gset RowId;
  ll_known : list RowId;
  ll_readiness : LifecycleReadiness;
  ll_health : Health;
}.

(** What ends a wait of the loop. *)
Inductive LifecycleEvent :=
  | Joined (creator : RowId) (available : bool)
  | Enumerated (creators : result PersistenceError (list RowId))
  | Hinted (creators : list RowId).

Definition readiness_event (rh : LifecycleReadiness * Health) (ev : LifecycleEvent) : LifecycleReadiness * Health :=
  match ev with
  | Joined creator available => completed rh.1 rh.2 creator available
  | Enumerated (Ok creators) => full_pass rh.1 rh.2 creators
  | Enumerated (Err _) => failed rh.2
  | Hinted _ => rh
  end.

(** The Creators an event asks a pass for. *)
Definition asked_for (ev : LifecycleEvent) : list RowId :=
  match ev with Enumerated (Ok creators) => creators | Hinted creators => creators | _ => [] end.

Definition lifecycle_turn (may_start : RowId → bool) (l : LifecycleLoop) (ev : LifecycleEvent) : list RowId * LifecycleLoop :=
  let tasks := match ev with Joined creator _ => join_next (ll_tasks l) creator | _ => ll_tasks l end in
  let '(readiness, health) := readiness_event (ll_readiness l, ll_health l) ev in
  let pending := ll_pending l ∪ list_to_set (asked_for ev) in
  let known := match ev with Enumerated (Ok creators) => creators | _ => ll_known l end in
  let '(passes, tasks, turns, pending) := start_lifecycle_passes may_start tasks (ll_turns l) pending known in
  (passes, mk_LifecycleLoop tasks turns pending known readiness health).

(** *** A hint survives an occupied slot *)

Record spawned_lifecycle (may_start : RowId → bool) (running : gset RowId) (l : list RowId) (tasks tasks' : CreatorTasks)
    (pending pending' : gset RowId) (passes : list RowId) : Prop := {
  sl_pending : pending' = pending ∖ list_to_set passes;
  sl_active : ct_active tasks' = ct_active tasks ∪ list_to_set passes;
  sl_limit : ct_limit tasks' = ct_limit tasks;
  sl_slots : 0 <= available_slots tasks → 0 <= available_slots tasks';
  sl_fresh : ∀ c, c ∈ passes → c ∈ pending ∧ c ∉ running;
  sl_full : (∀ c, may_start c = true) → ∀ c, c ∈ l → c ∈ pending' → c ∈ ct_active tasks' ∨ c ∈ running ∨ available_slots tasks' = 0;
}.

Lemma spawn_active may_start tasks creator tasks' :
  try_spawn may_start tasks creator = Some tasks' →
  tasks' = mk_CreatorTasks ({[creator]} ∪ ct_active tasks) (ct_limit tasks) ∧ creator ∉ ct_active tasks ∧ available_slots tasks ≠ 0.
Proof.
  unfold try_spawn. destruct (_ || _) eqn:E; [done|]. intros [= <-].
  apply orb_false_iff in E as [[_ E%Z.eqb_neq]%orb_false_iff Ea%bool_decide_eq_false]. done.
Qed.

Lemma spawn_lifecycle_exact may_start running l tasks turns pending passes tasks' turns' pending' :
  spawn_lifecycle may_start running l tasks turns pending = (passes, tasks', turns', pending') →
  spawned_lifecycle may_start running l tasks tasks' pending pending' passes.
Proof.
  revert tasks turns pending passes. induction l as [|creator l IH]; intros tasks turns pending passes; simpl.
  { intros [= <- <- <- <-]. split; try done; set_solver. }
  destruct (available_slots tasks =? 0) eqn:Ez.
  { intros [= <- <- <- <-]. apply Z.eqb_eq in Ez. split; try done; set_solver. }
  destruct (bool_decide (creator ∈ running) || negb (bool_decide (creator ∈ pending))) eqn:Es.
  - intros H%IH. destruct H as [H1 H2 H3 H4 H5 H6]. split; try done. intros Hm c [->|Hc]%elem_of_cons Hp; [|by apply H6].
    apply orb_true_iff in Es as [Er%bool_decide_eq_true|Ep%negb_true_iff%bool_decide_eq_false]; [by right; left|]. set_solver.
  - apply orb_false_iff in Es as [Er%bool_decide_eq_false Ep%negb_false_iff%bool_decide_eq_true].
    destruct (try_spawn (may_start creator) tasks creator) as [tasks1|] eqn:Et.
    + destruct (spawn_active _ _ _ _ Et) as (-> & Hn & Hz).
      destruct (spawn_lifecycle _ _ l _ _ _) as [[[passes1 tasks2] turns2] pending2] eqn:E. intros [= <- <- <- <-].
      apply IH in E as [H1 H2 H3 H4 H5 H6]. simpl in *. split.
      * set_solver.
      * set_solver.
      * done.
      * intros Hs. apply H4. unfold available_slots in *. simpl in *. rewrite size_union, size_singleton by set_solver. lia.
      * set_solver.
      * intros Hm c [->|Hc]%elem_of_cons Hp; [left; set_solver|by apply H6].
    + intros H%IH. destruct H as [H1 H2 H3 H4 H5 H6]. split; try done. intros Hm c [->|Hc]%elem_of_cons Hp; [|by apply H6].
      left. unfold try_spawn in Et. rewrite Hm, Ez in Et. simpl in Et. case_bool_decide as Ha; [|done]. set_solver.
Qed.

(** However a turn began, nobody who was asked for is forgotten: a Creator with a pass
    outstanding is started or stays pending, at most the configured number of passes runs,
    at most one per Creator; and while the server runs, a Creator stays pending only when its
    own pass is still running or every slot is taken. *)
Theorem lifecycle_hints_kept may_start l ev passes l' :
  lifecycle_turn may_start l ev = (passes, l') → 0 <= available_slots (ll_tasks l) →
  (∀ c, c ∈ ll_pending l ∨ c ∈ asked_for ev → c ∈ ll_pending l' ∨ c ∈ passes)
  ∧ 0 <= available_slots (ll_tasks l') ∧ ct_limit (ll_tasks l') = ct_limit (ll_tasks l)
  ∧ (∀ c, c ∈ passes → c ∈ ct_active (ll_tasks l') ∧ c ∉ ll_pending l')
  ∧ ((∀ c, may_start c = true) → ∀ c, c ∈ ll_pending l' → c ∈ ct_active (ll_tasks l') ∨ available_slots (ll_tasks l') = 0).
Proof.
  unfold lifecycle_turn, start_lifecycle_passes. destruct (readiness_event _ ev) as [readiness health].
  set (tasks := match ev with Joined creator _ => join_next (ll_tasks l) creator | _ => ll_tasks l end).
  set (pending := ll_pending l ∪ list_to_set (asked_for ev)). set (known := match ev with Enumerated (Ok creators) => creators | _ => ll_known l end).
  destruct (order (ll_turns l) _) as [ordered turns] eqn:Eo.
  destruct (spawn_lifecycle _ _ ordered _ _ _) as [[[passes1 tasks1] turns1] pending1] eqn:E. intros [= <- <-] Hs. simpl.
  apply spawn_lifecycle_exact in E as [H1 H2 H3 H4 H5 H6].
  assert (0 <= available_slots tasks ∧ ct_limit tasks = ct_limit (ll_tasks l)) as [Hts Htl].
  { subst tasks. destruct ev; try done. split; [|done]. unfold available_slots, join_next in *. simpl.
    assert (size (ct_active (ll_tasks l) ∖ {[creator]}) <= size (ct_active (ll_tasks l)))%nat by (apply subseteq_size; set_solver). lia. }
  split_and!; [|by apply H4|congruence| |].
  - intros c Hc. destruct (decide (c ∈ passes1)) as [|Hn]; [by right|left]. rewrite H1. subst pending. set_solver.
  - intros c Hc. rewrite H1, H2. set_solver.
  - intros Hm c Hc. destruct (H6 Hm c) as [|[Hr|]]; [|done|by left|left; rewrite H2; set_solver|by right].
    unfold order in Eo. injection Eo as <- _. apply elem_of_sort_by, elem_of_sort_by, elem_of_elements. rewrite H1 in Hc. set_solver.
Qed.

(** *** When the loop reports itself available *)

Definition failure_event (ev : LifecycleEvent) : bool :=
  match ev with Joined _ false | Enumerated (Err _) => true | _ => false end.

Definition clean (evs : list LifecycleEvent) : Prop := Forall (λ ev, failure_event ev = false) evs.

Definition readiness_after (evs : list LifecycleEvent) : LifecycleReadiness * Health :=
  foldl readiness_event (mk_LifecycleReadiness None, Health_new) evs.

(** The readiness of the loop is what its events say, whatever it starts. *)
Lemma turn_readiness may_start l ev passes l' :
  lifecycle_turn may_start l ev = (passes, l') → (ll_readiness l', ll_health l') = readiness_event (ll_readiness l, ll_health l) ev.
Proof.
  unfold lifecycle_turn. destruct (readiness_event _ ev) as [readiness health].
  destruct (start_lifecycle_passes _ _ _ _ _) as [[[? ?] ?] ?]. by intros [= <- <-].
Qed.

Lemma publish_cases S h :
  (S = ∅ ∧ publish_if_complete (mk_LifecycleReadiness (Some S)) h = (mk_LifecycleReadiness None, set_paykit_lifecycle_available h true))
  ∨ (S ≠ ∅ ∧ publish_if_complete (mk_LifecycleReadiness (Some S)) h = (mk_LifecycleReadiness (Some S), h)).
Proof. unfold publish_if_complete. simpl. destruct (decide (S = ∅)); [by left|by right]. Qed.

Lemma clean_keeps evs r h :
  clean evs → he_paykit_lifecycle h = 0 → he_paykit_lifecycle (foldl readiness_event (r, h) evs).2 = 0.
Proof.
  intros Hc. revert r h. induction Hc as [|ev evs Hev _ IH]; intros r h Hh; [done|]. simpl.
  assert (he_paykit_lifecycle (readiness_event (r, h) ev).2 = 0) as Hn.
  { destruct ev as [c [|]|[l|e]|l]; try done; simpl.
    - unfold completed. simpl. destruct (lr_checking r) as [S|]; [|done]. by destruct (publish_cases (S ∖ {[c]}) h) as [[_ ->]|[_ ->]].
    - unfold full_pass. by destruct (publish_cases (default (list_to_set l) (lr_checking r)) h) as [[_ ->]|[_ ->]]. }
  destruct (readiness_event (r, h) ev) as [r' h']. by apply IH.
Qed.

Lemma clean_completes evs S h :
  clean evs → S ≠ ∅ → (∀ c, c ∈ S → Joined c true ∈ evs) →
  he_paykit_lifecycle (foldl readiness_event (mk_LifecycleReadiness (Some S), h) evs).2 = 0.
Proof.
  intros Hc. revert S h. induction Hc as [|ev evs Hev Hevs IH]; intros S h HS Hin.
  { apply set_choose_L in HS as [c Hc']. by destruct (not_elem_of_nil _ (Hin c Hc')). }
  destruct ev as [c [|]|[l|e]|l]; try done; simpl.
  - unfold completed. simpl. destruct (publish_cases (S ∖ {[c]}) h) as [[_ ->]|[HS' ->]]; [by apply clean_keeps|].
    apply IH; [done|]. intros c' Hc'. assert (c' ∈ S) as Hin'%Hin by set_solver. apply elem_of_cons in Hin' as [[= ->]|]; set_solver.
  - unfold full_pass. simpl. destruct (publish_cases S h) as [[? _]|[_ ->]]; [done|]. apply IH; [done|].
    intros c Hc'. apply Hin, elem_of_cons in Hc' as [|]; done.
  - apply IH; [done|]. intros c Hc'. apply Hin, elem_of_cons in Hc' as [|]; done.
Qed.

(** A full enumeration none of whose passes failed since. *)
Definition checked (evs : list LifecycleEvent) (left : gset RowId) : Prop :=
  ∃ before l during, evs = before ++ Enumerated (Ok l) :: during ∧ clean during ∧ ∀ c, c ∈ l → c ∈ left ∨ Joined c true ∈ during.

Definition recovered (evs : list LifecycleEvent) : Prop :=
  ∃ during later, evs = during ++ later ∧ checked during ∅ ∧ clean later.

Lemma checked_snoc evs left ev left' :
  checked evs left → failure_event ev = false → (∀ c, c ∈ left → c ∈ left' ∨ ev = Joined c true) → checked (evs ++ [ev]) left'.
Proof.
  intros (before & l & during & -> & Hc & Hl) Hev Hleft. exists before, l, (during ++ [ev]). split_and!.
  - by rewrite <- app_assoc.
  - apply Forall_app_2; [done|]. by apply Forall_singleton.
  - intros c Hin. rewrite elem_of_app, list_elem_of_singleton. destruct (Hl c Hin) as [[| ->]%Hleft|]; auto.
Qed.

Lemma recovered_snoc evs ev : recovered evs → failure_event ev = false → recovered (evs ++ [ev]).
Proof.
  intros (during & later & -> & Hc & Hl) Hev. exists during, (later ++ [ev]). split_and!; [by rewrite app_assoc|done|].
  apply Forall_app_2; [done|]. by apply Forall_singleton.
Qed.

Lemma recovered_now evs : checked evs ∅ → recovered evs.
Proof. intros H. exists evs, []. split_and!; [by rewrite app_nil_r|done|constructor]. Qed.

Record readiness_inv (evs : list LifecycleEvent) (rh : LifecycleReadiness * Health) : Prop := {
  ry_checking : ∀ S, lr_checking rh.1 = Some S → S ≠ ∅ ∧ checked evs S;
  ry_available : he_paykit_lifecycle rh.2 = 0 → recovered evs;
}.

Lemma published evs S r h :
  checked evs S → readiness_inv evs (r, h) → readiness_inv evs (publish_if_complete (mk_LifecycleReadiness (Some S)) h).
Proof.
  intros Hc [_ Ha]. destruct (publish_cases S h) as [[-> ->]|[HS ->]]; split; simpl; try done.
  - intros _. by apply recovered_now.
  - by intros S' [= <-].
Qed.

Lemma readiness_inv_after evs : readiness_inv evs (readiness_after evs).
Proof.
  induction evs as [|ev evs IH] using rev_ind; [by split|].
  unfold readiness_after in *. rewrite foldl_app. simpl. destruct (foldl readiness_event _ evs) as [r h]. destruct IH as [Hc Ha]. simpl in *.
  assert (failure_event ev = false → readiness_inv (evs ++ [ev]) (mk_LifecycleReadiness None, h)) as Hn.
  { intros Hev. split; simpl; [done|]. intros H0. by apply recovered_snoc; [apply Ha|]. }
  destruct ev as [c [|]|[l|e]|l]; simpl; try by split.
  - unfold completed. simpl. destruct (lr_checking r) as [S|] eqn:Er; [|destruct r; simplify_eq/=; by apply Hn].
    apply (published _ _ (mk_LifecycleReadiness None)); [|by apply Hn]. apply (checked_snoc evs S); [by apply Hc|done|].
    intros c' Hc'. destruct (decide (c' = c)) as [->|]; [by right|left; set_solver].
  - unfold full_pass. apply (published _ _ (mk_LifecycleReadiness None)); [|by apply Hn]. destruct (lr_checking r) as [S|] eqn:Er; simpl.
    + apply (checked_snoc evs S); [by apply Hc|done|by left].
    + exists evs, l, []. split_and!; [done|constructor|]. intros c Hin. left. by apply elem_of_list_to_set.
  - split; simpl; [|intros H0; by apply recovered_snoc; [apply Ha|]]. intros S HS. destruct (Hc S HS) as [Hne Hch].
    split; [done|]. by apply (checked_snoc evs S); [| |left].
Qed.

(** The rail is reported available only after a recovery: a full enumeration all of whose
    Creators completed a pass since, with no failed enumeration and no panicked pass after
    it.  Hints alone never recover it, any failure withdraws it at once, and a clean full pass
    always brings it back. *)
Theorem lifecycle_readiness_exact evs :
  (he_paykit_lifecycle (readiness_after evs).2 = 0 → recovered evs)
  ∧ (∀ ev, failure_event ev = true → he_paykit_lifecycle (readiness_after (evs ++ [ev])).2 = 1)
  ∧ ∀ l after, clean after →
      (∀ c, c ∈ default (list_to_set l) (lr_checking (readiness_after evs).1) → Joined c true ∈ after) →
      he_paykit_lifecycle (readiness_after (evs ++ Enumerated (Ok l) :: after)).2 = 0.
Proof.
  split_and!.
  - apply readiness_inv_after.
  - intros ev Hev. unfold readiness_after. rewrite foldl_app. simpl. by destruct ev as [c [|]|[l|e]|l].
  - intros l after Hc Hin. pose proof (readiness_inv_after evs) as [Hk _]. unfold readiness_after in *. rewrite foldl_app. simpl.
    destruct (foldl readiness_event _ evs) as [r h]. simpl in *. unfold full_pass.
    destruct (publish_cases (default (list_to_set l) (lr_checking r)) h) as [[_ ->]|[HS ->]]; [by apply clean_keeps|by apply clean_completes].
Qed.

(** ** The observer loop *)

Definition ELECTRUM_DEGRADED_AFTER_FAILURES : Z := 3.

Definition ELECTRUM_DEGRADED_AFTER : Z := 30 * 1000000000.

Inductive ElectrumTick := TickIdle | TickSucceeded | TickFailed.

Record ElectrumReadiness := mk_ElectrumReadiness {
  el_last_success : option Z;
  el_consecutive_failures : Z;
}.

Definition ElectrumReadiness_default : ElectrumReadiness := mk_ElectrumReadiness None 0.

Definition record_tick (r : ElectrumReadiness) (tick : ElectrumTick) (now : Z) : bool * ElectrumReadiness :=
  match tick with
  | TickIdle => (true, r)
  | TickSucceeded => (true, mk_ElectrumReadiness (Some now) 0)
  | TickFailed =>
      let failures := Z.min u32_max (el_consecutive_failures r + 1) in
      (match el_last_success r with
       | None => false
       | Some last_success =>
           (failures <? ELECTRUM_DEGRADED_AFTER_FAILURES) || (saturating_duration_since now last_success <? ELECTRUM_DEGRADED_AFTER)
       end,
       mk_ElectrumReadiness (el_last_success r) failures)
  end.

Section observer.
Context {addresses : BitcoinAddresses}.

Inductive ObserverCall : Type → Type :=
  | InvoiceTargets : ObserverCall (result PersistenceError (list ObservationTarget))
  | MarketplaceTargets : ObserverCall (result PersistenceError (list ObservationTarget))
  | Round {X} (e : RoundCall X) : ObserverCall X.

(** One of the two halves of a tick: whether it observed, and the step that failed. *)
Definition observe_rail (load : ObserverCall (result PersistenceError (list ObservationTarget)))
    (round : list ObservationTarget → prog RoundCall (result ObserverError Z)) (load_step round_step : string) :
    prog ObserverCall (bool * option string) :=
  targets ⇐ call load;
  match targets with
  | Err _ => Ret (false, Some load_step)
  | Ok [] => Ret (false, None)
  | Ok targets =>
      result ⇐ lift (@Round) (round targets);
      Ret (true, match result with Ok _ => None | Err _ => Some round_step end)
  end.

Definition tick_of (failure : option string) (observed : bool) : ElectrumTick :=
  match failure, observed with
  | Some _, _ => TickFailed
  | None, true => TickSucceeded
  | None, false => TickIdle
  end.

Definition observer_tick (network : BitcoinNetwork) : prog ObserverCall ElectrumTick :=
  invoices ⇐ observe_rail InvoiceTargets (observe_once network) "invoice_targets_load" "invoice_observation";
  marketplace ⇐ observe_rail MarketplaceTargets (observe_marketplace_once network) "marketplace_targets_load" "marketplace_observation";
  Ret (tick_of (match invoices.2 with Some step => Some step | None => marketplace.2 end) (invoices.1 || marketplace.1)).

(** What the loop reports after a tick. *)
Definition observer_turn (r : ElectrumReadiness) (h : Health) (tick : ElectrumTick) (now : Z) : ElectrumReadiness * Health :=
  let '(available, r) := record_tick r tick now in (r, set_electrum_available h available).

(** *** Both rails are observed *)

Definition loads (ev : event ObserverCall) : list bool :=
  match ev with Ev InvoiceTargets _ => [true] | Ev MarketplaceTargets _ => [false] | _ => [] end.

Definition load_failed (ev : event ObserverCall) : bool :=
  match ev with Ev InvoiceTargets (Err _) | Ev MarketplaceTargets (Err _) => true | _ => false end.

(** What a half of a tick adds to the log. *)
Definition rail_log (load : ObserverCall (result PersistenceError (list ObservationTarget))) (tr : list (event ObserverCall))
    (r : bool * option string) : Prop :=
  mbind loads tr = loads (Ev load (Ok [])) ∧ (r = (false, None) → tr = [Ev load (Ok [])])
  ∧ (r.2 = None → Forall (λ ev, load_failed ev = false) tr).

Lemma round_quiet {A} (p : prog RoundCall A) (tr : list (event ObserverCall)) Q :
  (∀ tr' a, mbind loads tr' = [] → Forall (λ ev, load_failed ev = false) tr' → Q (tr ++ tr') a) →
  all_runs (lift (@Round) p) Q tr.
Proof.
  revert tr. induction p as [a|X e k IH]; intros tr HQ; simpl.
  - specialize (HQ [] a). rewrite app_nil_r in HQ. apply HQ; [done|constructor].
  - intros x. apply IH. intros tr' a H1 H2. rewrite <- app_assoc. apply HQ; [done|]. by constructor.
Qed.

Lemma observe_rail_log load round load_step round_step :
  load = InvoiceTargets ∨ load = MarketplaceTargets →
  all_runs (observe_rail load round load_step round_step) (rail_log load) [].
Proof.
  intros Hl targets. simpl. destruct targets as [[|t targets]|e].
  - split_and!; [by destruct Hl as [-> | ->]..|]. intros _. apply Forall_singleton. by destruct Hl as [-> | ->].
  - apply all_runs_bind, round_quiet. intros tr' r H1 H2. split_and!; [|by destruct r|].
    + rewrite bind_app, H1, app_nil_r. by destruct Hl as [-> | ->].
    + intros _. constructor; [by destruct Hl as [-> | ->]|done].
  - split_and!; [by destruct Hl as [-> | ->]..|done].
Qed.

(** A failure of one rail never keeps the other from being observed: every tick loads the
    targets of the invoices and then those of the Marketplace, once each; it is idle only
    when both had no target, and fails whenever a load did. *)
Theorem observer_tick_both_rails network :
  all_runs (observer_tick network) (λ tr tick, mbind loads tr = [true; false]
    ∧ (tick = TickIdle → tr = [Ev InvoiceTargets (Ok []); Ev MarketplaceTargets (Ok [])])
    ∧ (tick ≠ TickFailed → Forall (λ ev, load_failed ev = false) tr)) [].
Proof.
  unfold observer_tick. apply all_runs_bind. eapply all_runs_mono; [|by apply observe_rail_log; left].
  intros t1 [observed failure] (L1 & I1 & F1). apply all_runs_bind, (runs_after _ _ t1).
  eapply all_runs_mono; [|by apply observe_rail_log; right]. intros t2 [observed' failure'] (L2 & I2 & F2). simpl in *. split_and!.
  - by rewrite bind_app, L1, L2.
  - destruct failure, failure', observed, observed'; simpl; try done. intros _. by rewrite I1, I2.
  - destruct failure; [done|]. destruct failure'; [by destruct observed|]. intros _. by apply Forall_app_2; [apply F1|apply F2].
Qed.
End observer.

(** *** Availability is a function of the ticks *)

Definition electrum_after (ticks : list (ElectrumTick * Z)) : ElectrumReadiness :=
  foldl (λ r t, (record_tick r t.1 t.2).2) ElectrumReadiness_default ticks.

(** The last success of a history and the failures after it; idle ticks count for nothing. *)
Definition since_success (ticks : list (ElectrumTick * Z)) : option Z * Z :=
  foldl (λ acc t, match t.1 with
                  | TickIdle => acc
                  | TickSucceeded => (Some t.2, 0)
                  | TickFailed => (acc.1, acc.2 + 1)
                  end) (None, 0) ticks.

Definition electrum_available (ticks : list (ElectrumTick * Z)) (tick : ElectrumTick) (now : Z) : bool :=
  match tick, since_success ticks with
  | TickFailed, (None, _) => false
  | TickFailed, (Some success, failures) => (failures + 1 <? 3) || (now - success <? 30 * 1000000000)
  | _, _ => true
  end.

Lemma electrum_after_exact ticks :
  el_last_success (electrum_after ticks) = (since_success ticks).1
  ∧ el_consecutive_failures (electrum_after ticks) = Z.min u32_max (since_success ticks).2 ∧ 0 <= (since_success ticks).2.
Proof.
  induction ticks as [|[tick now] ticks IH] using rev_ind; [done|]. unfold electrum_after, since_success in *. rewrite !foldl_app. simpl.
  destruct (foldl _ ElectrumReadiness_default ticks) as [success' failures']. destruct (foldl _ _ ticks) as [success failures].
  simpl in *. destruct IH as (-> & -> & Hf). destruct tick; simpl; [done|done|]. unfold u32_max in *. split_and!; [done|lia|lia].
Qed.

(** The counter that saturates answers as the whole history would: a failing tick is
    reported only before any success, or once three failures and thirty seconds have passed
    since the last one. *)
Theorem electrum_readiness_exact ticks tick now :
  (record_tick (electrum_after ticks) tick now).1 = electrum_available ticks tick now.
Proof.
  destruct (electrum_after_exact ticks) as (Hs & Hf & Hn). unfold record_tick, electrum_available. destruct tick; [done|done|].
  rewrite Hs, Hf. destruct (since_success ticks) as [[success|] failures]; [|done]. simpl in *.
  unfold ELECTRUM_DEGRADED_AFTER_FAILURES, ELECTRUM_DEGRADED_AFTER, saturating_duration_since, u32_max.
  f_equal; apply eq_true_iff_eq; rewrite !Z.ltb_lt; lia.
Qed.

(** ** The enqueue loop *)

Definition spawn_each (may_start : RowId → bool) (tasks : CreatorTasks) (creators : list RowId) : CreatorTasks :=
  foldl (λ tasks creator, default tasks (try_spawn (may_start creator) tasks creator)) tasks creators.

(** A turn of [outbox_enqueue_loop] at [now]: the task that was joined, if one was; [due] and
    [persisted] are the answers of [due_creator_ids] and [delivery_available]. *)
Definition enqueue_turn (poll_interval now : Z) (tasks : CreatorTasks) (next_poll : Z)
    (joined : option (RowId * result PersistenceError (option (bool * ProcessingHealth))))
    (due : list RowId → Z → result PersistenceError (list RowId)) (may_start : RowId → bool)
    (persisted : result PersistenceError bool) (h : Health) : CreatorTasks * Z * Health :=
  let tasks := match joined with Some (creator, _) => join_next tasks creator | None => tasks end in
  let next_poll := if next_poll <=? now then now + poll_interval else next_poll in
  let '(next_poll, outbox_available) :=
    match joined with
    | Some (_, Ok (Some (true, HealthRetryable delay))) => (Z.min next_poll (now + delay), true)
    | Some (_, Err _) => (next_poll, false)
    | _ => (next_poll, true)
    end in
  let '(tasks, outbox_available) :=
    if outbox_available && (0 <? available_slots tasks) then
      match due (elements (ct_active tasks)) (available_slots tasks) with
      | Ok creators => (spawn_each may_start tasks creators, outbox_available)
      | Err _ => (tasks, false)
      end
    else (tasks, outbox_available) in
  let h := match persisted with
           | Ok persisted_available => set_outbox_enqueue_available (set_paykit_enqueue_available h persisted_available) outbox_available
           | Err _ => set_outbox_enqueue_available (set_paykit_enqueue_available h false) false
           end in
  (tasks, next_poll, h).

Lemma spawn_each_exact may_start tasks creators :
  0 <= available_slots tasks →
  0 <= available_slots (spawn_each may_start tasks creators)
  ∧ ct_limit (spawn_each may_start tasks creators) = ct_limit tasks
  ∧ ct_active tasks ⊆ ct_active (spawn_each may_start tasks creators)
  ∧ ct_active (spawn_each may_start tasks creators) ⊆ ct_active tasks ∪ list_to_set creators.
Proof.
  unfold spawn_each. revert tasks. induction creators as [|creator creators IH]; intros tasks Hs; simpl; [set_solver|].
  destruct (try_spawn (may_start creator) tasks creator) as [tasks'|] eqn:E; simpl.
  - destruct (spawn_active _ _ _ _ E) as (-> & Hn & Hz). edestruct IH as (H1 & H2 & H3 & H4); [|split_and!; [exact H1|exact H2|set_solver..]].
    unfold available_slots in *. simpl. rewrite size_union, size_singleton by set_solver. lia.
  - destruct (IH tasks Hs) as (H1 & H2 & H3 & H4). split_and!; [done|done|done|set_solver].
Qed.

(** A turn of the enqueue loop keeps its promises: the next poll is never later than the
    interval, nor than the delay a retried row asked for; only Creators that are due are
    started, within the slots; and the outbox is reported available only
    when the joined task and the query for health succeeded. *)
Theorem enqueue_turn_sound poll_interval now tasks next_poll joined due may_start persisted h tasks' next_poll' h' :
  enqueue_turn poll_interval now tasks next_poll joined due may_start persisted h = (tasks', next_poll', h') →
  0 <= available_slots tasks → 0 <= poll_interval → next_poll <= now + poll_interval →
  next_poll' <= now + poll_interval
  ∧ (∀ creator delay, joined = Some (creator, Ok (Some (true, HealthRetryable delay))) → next_poll' <= now + delay)
  ∧ 0 <= available_slots tasks' ∧ ct_limit tasks' = ct_limit tasks
  ∧ (∀ c, c ∈ ct_active tasks' → c ∉ ct_active tasks → ∃ excluded slots creators, due excluded slots = Ok creators ∧ c ∈ creators)
  ∧ (he_outbox_enqueue h' = 0 → is_ok persisted = true ∧ ∀ creator e, joined ≠ Some (creator, Err e)).
Proof.
  unfold enqueue_turn. set (tasks1 := match joined with Some (creator, _) => join_next tasks creator | None => tasks end).
  set (poll := if next_poll <=? now then now + poll_interval else next_poll).
  destruct (match joined with
            | Some (_, Ok (Some (true, HealthRetryable delay))) => (Z.min poll (now + delay), true)
            | Some (_, Err _) => (poll, false) | _ => (poll, true) end) as [poll' ok1] eqn:E1.
  destruct (if ok1 && (0 <? available_slots tasks1) then _ else _) as [tasks2 ok2] eqn:E2.
  intros [= <- <- <-] Hs Hp Hn.
  assert (poll <= now + poll_interval) as Hpoll by (subst poll; destruct (next_poll <=? now) eqn:E; lia).
  assert (0 <= available_slots tasks1 ∧ ct_limit tasks1 = ct_limit tasks ∧ ct_active tasks1 ⊆ ct_active tasks) as (Hs1 & Hl1 & Ha1).
  { subst tasks1. destruct joined as [[creator ?]|]; [|done]. unfold available_slots, join_next in *. simpl. split_and!; [|done|set_solver].
    assert (size (ct_active tasks ∖ {[creator]}) <= size (ct_active tasks))%nat by (apply subseteq_size; set_solver). lia. }
  assert (poll' <= poll ∧ (ok1 = true → ∀ creator e, joined ≠ Some (creator, Err e))) as [Hpp Hok1].
  { destruct joined as [[creator [[[[|] [|delay|]]|]|e]]|]; injection E1 as <- <-; split; try done; lia. }
  assert (0 <= available_slots tasks2 ∧ ct_limit tasks2 = ct_limit tasks1 ∧ (ok2 = true → ok1 = true)
    ∧ ∀ c, c ∈ ct_active tasks2 → c ∉ ct_active tasks1 → ∃ excluded slots creators, due excluded slots = Ok creators ∧ c ∈ creators)
    as (Hs2 & Hl2 & Hok2 & Ha2).
  { destruct ok1; simpl in E2; [|injection E2 as <- <-; done]. destruct (0 <? available_slots tasks1); [|injection E2 as <- <-; done].
    destruct (due _ _) as [creators|e] eqn:Ed; injection E2 as <- <-; [|done].
    destruct (spawn_each_exact may_start tasks1 creators Hs1) as (H1 & H2 & _ & H4). split_and!; [done|done|done|].
    intros c Hc Hnc. eexists _, _, creators. split; [exact Ed|]. set_solver. }
  split_and!; [lia| |done|congruence| |].
  - intros creator delay ->. injection E1 as <- <-. lia.
  - intros c Hc Hnc. apply Ha2; [done|set_solver].
  - destruct persisted as [b|e]; simpl; [|done]. destruct ok2; [|done]. intros _. split; [done|]. auto.
Qed.

(** ** The reconciliation loop *)

(** What a turn of [outbox_reconciliation_loop] reports: the answer of the claim, the results
    of the batch and the answer of [delivery_available]. *)
Definition reconciliation_turn (h : Health) (hinted : bool) (claims : result PersistenceError (list ClaimedHandoff))
    (results : list (result PersistenceError (bool * ProcessingHealth))) (persisted : result PersistenceError bool) : Health :=
  match claims with
  | Err _ => set_outbox_reconciliation_available h false
  | Ok _ =>
      let h := if negb hinted then set_outbox_reconciliation_available h true else h in
      let batch_available := forallb is_ok results in
      let delivery_available := batch_available && match persisted with Ok persisted_available => persisted_available | Err _ => false end in
      let outbox_available := batch_available && is_ok persisted in
      let h := if negb delivery_available || negb hinted then set_paykit_reconciliation_available h delivery_available else h in
      if negb outbox_available || negb hinted then set_outbox_reconciliation_available h outbox_available else h
  end.

(** A turn on hints can only withdraw the rail: what it reports available was so before. *)
Theorem hinted_turn_never_recovers h claims results persisted :
  let h' := reconciliation_turn h true claims results persisted in
  (he_outbox_reconciliation h' = 0 → he_outbox_reconciliation h = 0)
  ∧ (he_paykit_reconciliation h' = 0 → he_paykit_reconciliation h = 0).
Proof.
  unfold reconciliation_turn. destruct claims as [claims|]; [|done]. simpl. rewrite !orb_false_r.
  destruct (forallb is_ok results), persisted as [[|]|]; simpl; done.
Qed.

(** ** The task of an intake pass *)

Section intake_pass.
Context {core : LocksCore} {lib : PaykitLib} {Peer : Type} `{Countable Peer} {AllowanceId : Type}.
Context (peer_display : Peer → string) (AllowanceId_new : string → option AllowanceId).

Inductive PassCall : Type → Type :=
  | PassTask {X} (e : TaskCall (Peer := Peer) X) : PassCall X
  | PassIntake {X} (e : IntakeCall (Peer := Peer) (AllowanceId := AllowanceId) X) : PassCall X
  | WakeTransport (creator : RowId) : PassCall unit.

(** The step and category of a failure, which is only logged. *)
Definition run_allowance_intake_pass (creator : RowId) : prog PassCall (option (string * string)) :=
  adapter ⇐ lift (@PassTask) (creator_adapter creator);
  match adapter with
  | Err error => Ret (Some ("adapter_build", adapter_build_label error))
  | Ok _ =>
      taken ⇐ lift (@PassIntake) (take_in_allowances peer_display AllowanceId_new creator);
      match taken with
      | Ok queued => if (0 <? queued)%nat then _ ⇐ call (WakeTransport creator); Ret None else Ret None
      | Err error => Ret (if is_contention error then None else Some ("take_in_allowances", sdk_error_label error))
      end
  end.
End intake_pass.

(** ** Witness: a pass over two Creators with one slot *)

Module Example_loops.
Definition spawned (stopping : bool) (creators : list RowId) (active : gset RowId) (deferred : bool) (started : list RowId)
    (joined : list (RowId * TransportMaintenance)) : TransportPass :=
  mk_TransportPass stopping creators (mk_CreatorTasks active 1) deferred started joined.

Definition over : TransportPass :=
  spawned false [] ∅ true [1%N; 2%N] [(1%N, TransportDeferred); (2%N, TransportComplete)].

Lemma step_eq p p' q : transport_step p q → p' = q → transport_step p p'.
Proof. by intros H ->. Qed.

Ltac computed := vm_compute; reflexivity.

Lemma run_over : nsteps transport_step 4 (transport_pass [1%N; 2%N] 1) over.
Proof.
  apply (nsteps_l _ _ _ (spawned false [2%N] {[1%N]} false [1%N] [])).
  { eapply step_eq; [by apply (tp_spawn _ 1%N [2%N])|computed]. }
  apply (nsteps_l _ _ _ (spawned false [2%N] ∅ true [1%N] [(1%N, TransportDeferred)])).
  { eapply step_eq; [apply (tp_join _ 1%N TransportDeferred); [done|set_solver]|computed]. }
  apply (nsteps_l _ _ _ (spawned false [] {[2%N]} true [1%N; 2%N] [(1%N, TransportDeferred)])).
  { eapply step_eq; [by apply (tp_spawn _ 2%N [])|computed]. }
  apply nsteps_once. eapply step_eq; [apply (tp_join _ 2%N TransportComplete); [done|set_solver]|computed].
Qed.
End Example_loops.

Lemma transport_pass_complete_witness :
  (4 <= 2 * length [1%N; 2%N] + 1)%nat ∧ tp_started Example_loops.over = [1%N; 2%N] ∧ TransportDeferred ∈ (tp_joined Example_loops.over).*2.
Proof.
  assert (NoDup [1%N; 2%N]) as Hnd by (repeat constructor; set_solver).
  destruct (transport_pass_complete [1%N; 2%N] 1 4 Example_loops.over eq_refl Hnd Example_loops.run_over) as (Hk & _ & _ & Hover).
  destruct (Hover (conj eq_refl eq_refl)) as (_ & Hd & Hs). split_and!; [exact Hk|exact (Hs eq_refl)|exact (proj1 Hd eq_refl)].
Defined.
