(* ===== verification/Sessions.v ===== *)
(** * Sessions: what the server asks of homeservers ([server.rs],
    [application/setup_status.rs], [http/setup_status.rs])

    A Creator's session is usable when it was set up, revalidates, and the published key
    authorization, App Registry and shared state are those of this server; the status routes
    and invoice admission ask for it.  Locks and the registries of Readers are fetched from
    public storage.  The SDK, [paykit_lib] and the homeservers are calls that may answer
    anything. *)

From S2P Require Import Prelude Text Api Effects Locks Invoice Receiving Payment Lifecycle Pricing Intent Readers Database OutboxStore CreateInvoice PaymentRecord Crypto Observations LifecycleStore Drains Creators MarketTerms Allowances.
Local Open Scope string_scope.
Local Open Scope Z_scope.
Local Open Scope list_scope.

(** ** Errors *)

(** [pubky::Error]: the kinds the server tells apart. *)
Inductive PubkyError :=
  | Pubky_Authentication
  | Pubky_Parse
  | Pubky_RequestValidation
  | Pubky_RequestServer (status : Z)
  | Pubky_RequestOther
  | Pubky_Pkarr
  | Pubky_Build.

(** [PaykitSdkError] as the validator reads it: the source of an identity error may be a
    [pubky::Error] or something else. *)
Inductive SessionSdkError :=
  | SessionSdk_Identity (source : option (option PubkyError))
  | SessionSdk_Protocol
  | SessionSdk_Policy
  | SessionSdk_SharedStateBusy
  | SessionSdk_Other.

Inductive PaykitError := Paykit_NotFound | Paykit_Transport | Paykit_InvalidData | Paykit_Validation.

Definition classify_pubky_session_error (error : PubkyError) : SessionValidationError :=
  match error with
  | Pubky_Authentication | Pubky_Parse | Pubky_RequestValidation => SessionInvalid
  | Pubky_RequestServer _ | Pubky_RequestOther | Pubky_Pkarr | Pubky_Build => SessionUnavailable
  end.

Definition map_session_validation_error (error : SessionSdkError) : SessionValidationError :=
  match error with
  | SessionSdk_Identity None => SessionInvalid
  | SessionSdk_Identity (Some (Some error)) => classify_pubky_session_error error
  | SessionSdk_Identity (Some None) => SessionUnavailable
  | SessionSdk_Protocol | SessionSdk_Policy => SessionInvalid
  | SessionSdk_SharedStateBusy | SessionSdk_Other => SessionUnavailable
  end.

(** ** Reads of the identity state *)

Definition IDENTITY_STATE_BUSY_GRACE : Z := 10 * 60 * 1000000000.

Definition recent (now at_ : Z) : bool := saturating_duration_since now at_ <? IDENTITY_STATE_BUSY_GRACE.

(** [IdentityStateReads::outcome]; Creators are kept by their text. *)
Definition outcome (read_at : gmap string Z) (creator : string) (loaded : result SessionSdkError bool) (now : Z) :
    result SessionValidationError unit * gmap string Z :=
  match loaded with
  | Ok true => (Ok tt, <[creator := now]> (filter (λ kv, Is_true (recent now kv.2)) read_at))
  | Ok false => (Err SessionInvalid, delete creator read_at)
  | Err error =>
      match error, read_at !! creator with
      | SessionSdk_SharedStateBusy, Some at_ =>
          (if recent now at_ then Ok tt else Err (map_session_validation_error error), read_at)
      | _, _ => (Err (map_session_validation_error error), read_at)
      end
  end.

(** What a history of reads says of a Creator: its last successful read, unless a later one
    found no state. *)
Definition last_read (creator : string) (history : list (string * result SessionSdkError bool * Z)) : option Z :=
  foldl (λ acc read,
    let '(c, loaded, now) := read in
    if String.eqb c creator then match loaded with Ok true => Some now | Ok false => None | Err _ => acc end else acc) None history.

Definition reads_after (history : list (string * result SessionSdkError bool * Z)) : gmap string Z :=
  foldl (λ m read, let '(c, loaded, now) := read in (outcome m c loaded now).2) ∅ history.

(** The table agrees with the history wherever it can still matter. *)
Definition reads_agree (now : Z) (m : gmap string Z) (last : string → option Z) : Prop :=
  (∀ c t, m !! c = Some t → last c = Some t) ∧ (∀ c t, last c = Some t → t <= now ∧ (recent now t = true → m !! c = Some t)).

Lemma recent_earlier now now' t : now <= now' → recent now' t = true → recent now t = true.
Proof. unfold recent, saturating_duration_since. rewrite !Z.ltb_lt. lia. Qed.

Lemma reads_agree_step now at_ m last c loaded :
  reads_agree at_ m last → at_ <= now →
  reads_agree now (outcome m c loaded at_).2
    (λ c', if String.eqb c c' then match loaded with Ok true => Some at_ | Ok false => None | Err _ => last c' end else last c').
Proof.
  intros [H1 H2] Hle. assert (reads_agree now m last) as Hsame.
  { split; [done|]. intros c' t Ht. destruct (H2 c' t Ht) as [? Hr]. split; [lia|]. intros ?. by apply Hr, (recent_earlier _ now). }
  destruct loaded as [[|]|error]; simpl.
  - split.
    + intros c' t [[<- <-]|[Hne [Ht _]%map_lookup_filter_Some]]%lookup_insert_Some; [by rewrite String.eqb_refl|].
      rewrite (proj2 (String.eqb_neq _ _)) by done. by apply H1.
    + intros c' t. destruct (String.eqb_spec c c') as [<-|Hne]; [intros [= <-]; split; [done|by rewrite lookup_insert_eq]|].
      intros Ht. destruct (H2 c' t Ht) as [? Hr]. split; [lia|]. intros Hn%(recent_earlier at_); [|done].
      rewrite lookup_insert_ne by done. apply map_lookup_filter_Some. split; [by apply Hr|]. simpl. by rewrite Hn.
  - split.
    + intros c' t [Hne Ht]%lookup_delete_Some. rewrite (proj2 (String.eqb_neq _ _)) by done. by apply H1.
    + intros c' t. destruct (String.eqb_spec c c') as [<-|Hne]; [done|]. rewrite lookup_delete_ne by done. apply Hsame.
  - replace ((match error with SessionSdk_SharedStateBusy => _ | _ => _ end).2) with m
      by (destruct error; try done; by destruct (m !! c)).
    destruct Hsame as [S1 S2]. split; intros c' t; destruct (String.eqb c c'); auto.
Qed.

Lemma reads_agree_after history now :
  StronglySorted Z.le (history.*2 ++ [now]) → reads_agree now (reads_after history) (λ c, last_read c history).
Proof.
  revert now. induction history as [|[[c loaded] at_] history IH] using rev_ind; intros now Hs.
  { split; [|done]. intros c t. unfold reads_after. simpl. by rewrite lookup_empty. }
  rewrite fmap_app in Hs. simpl in Hs. pose proof (StronglySorted_app_1_l _ _ _ Hs) as Hs'.
  assert (at_ <= now) by (apply (StronglySorted_app_1_elem_of _ _ _ at_ now Hs); set_solver).
  unfold reads_after, last_read. rewrite foldl_app. simpl.
  pose proof (reads_agree_step now at_ _ _ c loaded (IH at_ Hs') H) as [A1 A2].
  split; intros c' t; rewrite ?foldl_app; simpl; [apply A1|apply A2].
Qed.

(** A lock that is merely busy never hides a lost identity state, and never withdraws a
    fresh one: whatever was read before, a read that loses the lock passes exactly when the
    Creator's last conclusive read succeeded less than ten minutes ago; the entries that are
    forgotten never matter. *)
Theorem identity_grace_exact history creator now :
  StronglySorted Z.le (history.*2 ++ [now]) →
  (outcome (reads_after history) creator (Err SessionSdk_SharedStateBusy) now).1
  = match last_read creator history with
    | Some at_ => if recent now at_ then Ok tt else Err SessionUnavailable
    | None => Err SessionUnavailable
    end.
Proof.
  intros [H1 H2]%reads_agree_after. simpl. destruct (last_read creator history) as [t|] eqn:E.
  - destruct (H2 _ _ E) as [_ Hr]. destruct (recent now t) eqn:Er; [by rewrite (Hr eq_refl); rewrite Er|].
    destruct (reads_after history !! creator) as [t'|] eqn:Em; [|done]. pose proof (H1 _ _ Em). simplify_eq. by rewrite Er.
  - destruct (reads_after history !! creator) as [t'|] eqn:Em; [|done]. by rewrite (H1 _ _ Em) in E.
Qed.

(** ** The session validator *)

Record PaykitApp := mk_PaykitApp {
  app_name : string;
  app_private_payments : bool;
  app_payment_requests : bool;
  app_receipts : bool;
  app_outgoing_payments : bool;
}.

#[global] Instance PaykitApp_eq_dec : EqDecision PaykitApp.
Proof. solve_decision. Defined.

Definition server_app : PaykitApp := mk_PaykitApp "Paykit Server" true true false false.

(** The parts of [PaykitNoiseKeyAuthorization] that are compared. *)
Record NoiseKeyAuthorization := mk_NoiseKeyAuthorization {
  na_key_generation : Z;
  na_noise_public_key : string;
  na_noise_static_public_key : string;
}.

Section validator.
Context {core : LocksCore} {keys : IdentityKeys} {Key : Type}.
(** [derive_paykit_noise_secret_key], [derive_paykit_noise_public_key] and
    [derive_static_public_key]. *)
Context (noise_secret noise_public static_public : string → string).

(** [PubkySessionAccess]: its owner and its Paykit identity key. *)
Record SessionAccess := mk_SessionAccess {
  sa_public_key : result SessionSdkError Key;
  sa_identity_secret : option IdentityKey;
}.

Definition verify_authorized_key (authorization : NoiseKeyAuthorization) (key : IdentityKey) : bool :=
  (na_key_generation authorization =? key_generation key)
  && String.eqb (na_noise_public_key authorization) (noise_public (identity_key_bytes key))
  && String.eqb (na_noise_static_public_key authorization) (static_public (noise_secret (identity_key_bytes key))).

(** [IdentityOutcome] is [outcome] on the shared table. *)
Inductive SessionCall : Type → Type :=
  | SetupComplete (creator : CreatorPubky) : SessionCall (result PersistenceError bool)
  | LoadSessionAccess (creator : CreatorPubky) : SessionCall (result SessionSdkError (option SessionAccess))
  | Revalidate (creator : CreatorPubky) : SessionCall (result PubkyError (option unit))
  | GetNoiseKeyAuthorization (owner : Key) : SessionCall (result PaykitError (option NoiseKeyAuthorization))
  | GetAppRegistry (owner : Key) : SessionCall (result PaykitError (option (gmap string PaykitApp)))
  | LoadIdentityState (creator : CreatorPubky) : SessionCall (result SessionSdkError bool)
  | SessionNow : SessionCall Z
  | IdentityOutcome (creator : CreatorPubky) (loaded : result SessionSdkError bool) (now : Z) :
      SessionCall (result SessionValidationError unit).

Notation S A := (prog SessionCall (result SessionValidationError A)).

(** A call whose error is mapped and whose absence is an invalid session. *)
Definition required {E A} (e : SessionCall (result E (option A))) (f : E → SessionValidationError) : S A :=
  r ⇐ call e;
  Ret (found ← map_err f r; ok_or found SessionInvalid).

Definition validate_session (creator : CreatorPubky) : S unit :=
  complete ⇐ call (SetupComplete creator);
  _ ←? Ret (complete ← map_err (λ _, SessionUnavailable) complete; ensure complete SessionInvalid);
  access ←? required (LoadSessionAccess creator) map_session_validation_error;
  _ ←? required (Revalidate creator) classify_pubky_session_error;
  owner ←? Ret (map_err map_session_validation_error (sa_public_key access));
  authorization ←? required (GetNoiseKeyAuthorization owner)
                     (λ error, match error with Paykit_Transport => SessionUnavailable | _ => SessionInvalid end);
  registry ←? required (GetAppRegistry owner) (λ _, SessionUnavailable);
  key ←? Ret (ok_or (sa_identity_secret access) SessionInvalid);
  _ ←? Ret (ensure (verify_authorized_key authorization key) SessionInvalid);
  _ ←? Ret (ensure (bool_decide (registry !! PAYKIT_APP_ID = Some server_app)) SessionInvalid);
  loaded ⇐ call (LoadIdentityState creator);
  now ⇐ call SessionNow;
  call (IdentityOutcome creator loaded now).

(** Everything a valid session rests on, in this run. *)
Definition session_evidence (creator : CreatorPubky) (tr : list (event SessionCall)) : Prop :=
  ∃ access owner authorization registry key loaded now,
    tr = [Ev (SetupComplete creator) (Ok true); Ev (LoadSessionAccess creator) (Ok (Some access));
          Ev (Revalidate creator) (Ok (Some tt)); Ev (GetNoiseKeyAuthorization owner) (Ok (Some authorization));
          Ev (GetAppRegistry owner) (Ok (Some registry)); Ev (LoadIdentityState creator) loaded; Ev SessionNow now;
          Ev (IdentityOutcome creator loaded now) (Ok tt)]
    ∧ sa_public_key access = Ok owner ∧ sa_identity_secret access = Some key
    ∧ verify_authorized_key authorization key = true ∧ registry !! PAYKIT_APP_ID = Some server_app.

Lemma runs_required {E A} (e : SessionCall (result E (option A))) f (k : A → S unit) Q tr :
  (∀ a, all_runs (k a) Q (tr ++ [Ev e (Ok (Some a))])) → (∀ x error, Q (tr ++ [Ev e x]) (Err error)) →
  all_runs (try_bind k (required e f)) Q tr.
Proof. intros Hk He x. destruct x as [[a|]|error]; simpl; [apply Hk|apply He..]. Qed.

(** A session is accepted only on evidence of this very run: the Creator finished setup, the
    session loads and revalidates, its published key authorization is that of the key the
    server holds, the App Registry of its owner lists exactly this server, and the shared
    identity state was read or is known to have been there.  No other run answers [Ok]. *)
Theorem session_validated creator :
  all_runs (validate_session creator) (λ tr res, res = Ok tt → session_evidence creator tr) [].
Proof.
  intros complete. simpl. apply runs_pure; [|done]. intros [] Hc. apply bind_ok in Hc as (c & Hc%map_err_ok & Hc'%ensure_ok). subst.
  apply runs_required; [intros access|done]. apply runs_required; [intros []|done].
  apply runs_pure; [|done]. intros owner Ho%map_err_ok.
  apply runs_required; [intros authorization|done]. apply runs_required; [intros registry|done].
  apply runs_pure; [|done]. intros key Hk%ok_or_ok. apply runs_pure; [|done]. intros [] Hv%ensure_ok.
  apply runs_pure; [|done]. intros [] Hr%ensure_ok%bool_decide_eq_true. intros loaded now res ->.
  exists access, owner, authorization, registry, key, loaded, now. done.
Qed.
End validator.

(** ** Fetching a lock *)

Section fetch.
Context {core : LocksCore} {locks : ContentLocks}.
(** [serde_json::from_slice] and [content_lock_path]. *)
Context (lock_from_slice : string → option ContentLock) (content_lock_path : ContentLock → option string).

(** The body as a stream of chunks; it ends where the list does. *)
Fixpoint read_body (max_bytes : Z) (bytes : string) (chunks : list (result unit string)) : result LockFetchError string :=
  match chunks with
  | [] => Ok bytes
  | Err _ :: _ => Err FetchUnavailable
  | Ok chunk :: chunks =>
      if max_bytes <? str_len bytes + str_len chunk then Err FetchInvalid
      else read_body max_bytes (bytes ++ chunk)%string chunks
  end.

Definition fetch_inner (max_bytes : Z) (resource : PubkyLockResource) (response : result PubkyError (list (result unit string))) :
    result LockFetchError ContentLock :=
  chunks ← map_err (λ error, match error with
                             | Pubky_RequestServer status => if status =? 404 then FetchNotFound else FetchUnavailable
                             | _ => FetchUnavailable
                             end) response;
  bytes ← read_body max_bytes "" chunks;
  lock ← ok_or (lock_from_slice bytes) FetchInvalid;
  path ← ok_or (content_lock_path lock) FetchInvalid;
  ensure (String.eqb (creator_to_string (resource_creator resource) ++ path) (resource_to_string resource)) FetchInvalid;;
  Ok lock.

(** [None] is the timeout. *)
Definition fetch_lock (max_bytes : Z) (resource : PubkyLockResource) (response : option (result PubkyError (list (result unit string)))) :
    result LockFetchError ContentLock :=
  match response with None => Err FetchUnavailable | Some response => fetch_inner max_bytes resource response end.

Definition body_of (chunks : list (result unit string)) : string :=
  foldr (λ chunk rest, match chunk with Ok chunk => (chunk ++ rest)%string | Err _ => rest end) "" chunks.

Lemma read_body_exact max_bytes bytes chunks body :
  read_body max_bytes bytes chunks = Ok body ↔
  Forall (λ chunk, is_ok chunk = true) chunks ∧ body = (bytes ++ body_of chunks)%string
  ∧ (chunks = [] ∨ str_len bytes + str_len (body_of chunks) <= max_bytes).
Proof.
  revert bytes. induction chunks as [|[chunk|[]] chunks IH]; intros bytes; simpl.
  - rewrite str_app_nil_r. split; [intros [= <-]; split_and!; [constructor|done|by left]|by intros (_ & -> & _)].
  - assert (∀ a b : string, str_len (a ++ b)%string = str_len a + str_len b) as Hl by (intros; unfold str_len; rewrite str_length_app; lia).
    assert (∀ a : string, 0 <= str_len a) as Hp by (intros; unfold str_len; lia).
    rewrite Forall_cons, Hl. destruct (max_bytes <? str_len bytes + str_len chunk) eqn:E.
    + apply Z.ltb_lt in E. split; [done|]. intros (_ & _ & [?|?]); [done|]. specialize (Hp (body_of chunks)). lia.
    + apply Z.ltb_ge in E. rewrite IH, Hl, str_app_assoc. split.
      * intros (Hf & -> & Hb). split_and!; [done|done|done|]. right. destruct Hb as [->|]; [simpl; unfold str_len; simpl; unfold str_len in *; lia|lia].
      * intros ([_ Hf] & -> & [?|Hb]); [done|]. split_and!; [done|done|]. right. lia.
  - split; [done|]. by intros ([? _]%Forall_cons & _ & _).
Qed.

(** A lock is accepted only when its whole body arrived within the limit, and it names the
    very resource that was asked for; however much a homeserver sends, no more than the limit
    is kept. *)
Theorem fetched_lock_bound max_bytes resource response lock :
  fetch_lock max_bytes resource response = Ok lock →
  ∃ chunks path, response = Some (Ok chunks) ∧ Forall (λ chunk, is_ok chunk = true) chunks
    ∧ (chunks = [] ∨ str_len (body_of chunks) <= max_bytes)
    ∧ lock_from_slice (body_of chunks) = Some lock ∧ content_lock_path lock = Some path
    ∧ (creator_to_string (resource_creator resource) ++ path)%string = resource_to_string resource.
Proof.
  unfold fetch_lock, fetch_inner. destruct response as [response|]; [|done].
  intros (chunks & Hc%map_err_ok & H)%bind_ok. apply bind_ok in H as (bytes & Hb%read_body_exact & H).
  apply bind_ok in H as (l & Hl%ok_or_ok & H). apply bind_ok in H as (path & Hp%ok_or_ok & H).
  apply bind_ok in H as ([] & He%ensure_ok%String.eqb_eq & [= ->]). destruct Hb as (Hf & -> & Hb). simpl in *.
  exists chunks, path. by subst.
Qed.
End fetch.

(** ** Registries and authorizations of Readers *)

Definition discovered {A} (fetched : result PaykitError (option A)) : result RegistryDiscoveryError (option A) :=
  match fetched with
  | Ok registry => Ok registry
  | Err Paykit_NotFound => Ok None
  | Err Paykit_Transport => Err RegistryUnavailable
  | Err (Paykit_InvalidData | Paykit_Validation) => Err RegistryMalformed
  end.

Definition reader_authorization {A} (fetched : result PaykitError (option A)) : result RegistryDiscoveryError ReaderAuthorization :=
  match fetched with
  | Ok (Some _) => Ok AuthVerified
  | Ok None | Err Paykit_NotFound => Ok AuthMissing
  | Err (Paykit_InvalidData | Paykit_Validation) => Ok AuthInvalid
  | Err Paykit_Transport => Err RegistryUnavailable
  end.

(** [to_public_key] reads the reader's key; nothing is fetched for a text that is none. *)
Definition discover_registry {core : LocksCore} {Key A} (to_public_key : string → option Key)
    (fetch : Key → result PaykitError (option A)) (reader : ReaderPubky) : result RegistryDiscoveryError (option A) :=
  key ← ok_or (to_public_key (reader_to_string reader)) RegistryInvalidRequest;
  discovered (fetch key).

Definition discover_authorization {core : LocksCore} {Key A} (to_public_key : string → option Key)
    (fetch : Key → result PaykitError (option A)) (reader : ReaderPubky) : result RegistryDiscoveryError ReaderAuthorization :=
  key ← ok_or (to_public_key (reader_to_string reader)) RegistryInvalidRequest;
  reader_authorization (fetch key).

(** ** Setup status *)

Inductive SetupStatus := Setup_Ready | Setup_Required | Setup_Unavailable.

#[global] Instance SetupStatus_eq_dec : EqDecision SetupStatus.
Proof. solve_decision. Defined.

Definition setup_status_text (s : SetupStatus) : string :=
  match s with Setup_Ready => "ready" | Setup_Required => "setup_required" | Setup_Unavailable => "unavailable" end.

Definition STATUS_TIMEOUT : Z := 15 * 1000000000.

Section status.
Context {core : LocksCore}.

(** Calls under the timeout; [None] is its expiry. *)
Inductive StatusCall : Type → Type :=
  | ValidateCreator (timeout : Z) (creator : CreatorPubky) : StatusCall (option (result SessionValidationError unit))
  | ReceivingFor (timeout : Z) (creator : CreatorPubky) : StatusCall (option (result PersistenceError ReceivingDetails)).

(** [ss_receiving] tells whether a provider of receiving details is configured. *)
Record SetupStatusService := mk_SetupStatusService {
  ss_receiving : bool;
  ss_usdt_enabled : bool;
  ss_timeout : Z;
}.

Definition setup_status (sv : SetupStatusService) (creator : CreatorPubky) : prog StatusCall SetupStatus :=
  validated ⇐ call (ValidateCreator (ss_timeout sv) creator);
  Ret match validated with
      | Some (Ok _) => Setup_Ready
      | Some (Err SessionInvalid) => Setup_Required
      | Some (Err SessionUnavailable) | None => Setup_Unavailable
      end.

Definition receives (sv : SetupStatusService) (asset : option CriterionAsset) (accepted : option AcceptedAsset) (details : ReceivingDetails) : bool :=
  (is_none asset || is_some (rd_bitcoin details) || (ss_usdt_enabled sv && is_some (rd_usdt details)))
  && match accepted with
     | None => true
     | Some Accept_Btc => is_some (rd_bitcoin details)
     | Some Accept_Usdt => is_some (rd_usdt details)
     end.

Definition status_for_requirements (sv : SetupStatusService) (creator : CreatorPubky) (asset : option CriterionAsset)
    (accepted : option AcceptedAsset) : prog StatusCall SetupStatus :=
  status ⇐ setup_status sv creator;
  if negb (bool_decide (status = Setup_Ready)) then Ret status
  else if (bool_decide (asset = Some Usdt) || bool_decide (accepted = Some Accept_Usdt)) && negb (ss_usdt_enabled sv) then Ret Setup_Required
  else if negb (ss_receiving sv) then Ret Setup_Required
  else
    details ⇐ call (ReceivingFor (ss_timeout sv) creator);
    Ret match details with
        | Some (Ok details) => if receives sv asset accepted details then Setup_Ready else Setup_Required
        | Some (Err PE_InvalidInput) => Setup_Required
        | _ => Setup_Unavailable
        end.

(** [http/setup_status.rs]: the body's fields, and the call they lead to. *)
Definition setup_status_route (sv : SetupStatusService) (creator : string) (asset accepted_asset : option string) :
    prog StatusCall (result ApiError string) :=
  match parse_creator creator, transpose (CriterionAsset_parse <$> asset), transpose (AcceptedAsset_parse <$> accepted_asset) with
  | Ok creator, Ok asset, Ok accepted =>
      status ⇐ match asset, accepted with
               | None, None => setup_status sv creator
               | _, _ => status_for_requirements sv creator asset accepted
               end;
      Ret (Ok (setup_status_text status))
  | _, _, _ => Ret (Err Api_InvalidRequest)
  end.

(** Answers that leave the question open: a timeout or an outage. *)
Definition undecided (ev : event StatusCall) : bool :=
  match ev with
  | Ev (ValidateCreator _ _) (None | Some (Err SessionUnavailable)) | Ev (ReceivingFor _ _) (None | Some (Err PE_Unavailable)) => true
  | _ => false
  end.

(** What the route promises a caller that names assets: it answers ready only when, in this
    run, the Creator's session was validated and the receiving details it then read cover the
    payment asset that was asked for, USDT only where the deployment has it; and a failure
    to find out is never reported as a missing setup. *)
Theorem setup_status_sound sv creator asset accepted :
  all_runs (status_for_requirements sv creator asset accepted) (λ tr status,
    (status = Setup_Ready → ∃ details,
       tr = [Ev (ValidateCreator (ss_timeout sv) creator) (Some (Ok tt)); Ev (ReceivingFor (ss_timeout sv) creator) (Some (Ok details))]
       ∧ (asset ≠ None → is_some (rd_bitcoin details) || (ss_usdt_enabled sv && is_some (rd_usdt details)) = true)
       ∧ (accepted = Some Accept_Btc → is_some (rd_bitcoin details) = true)
       ∧ (accepted = Some Accept_Usdt → ss_usdt_enabled sv = true ∧ is_some (rd_usdt details) = true))
    ∧ (existsb undecided tr = true → status = Setup_Unavailable)) [].
Proof.
  unfold status_for_requirements. intros validated. simpl. destruct validated as [[[]|[]]|]; simpl; [|done..].
  destruct ((bool_decide (asset = Some Usdt) || bool_decide (accepted = Some Accept_Usdt)) && negb (ss_usdt_enabled sv)) eqn:Eu; simpl; [done|].
  destruct (ss_receiving sv); simpl; [|done]. intros details. simpl. destruct details as [[details|[]]|]; simpl; try done.
  destruct (receives sv asset accepted details) eqn:Er; [|done]. split; [|done]. intros _. exists details. unfold receives in Er.
  apply andb_true_iff in Er as [Ea Ec]. split_and!; [done| | |].
  - intros Hn. by destruct asset.
  - by intros ->.
  - intros ->. rewrite (bool_decide_eq_true_2 (Some Accept_Usdt = Some Accept_Usdt)), orb_true_r in Eu by done. by destruct (ss_usdt_enabled sv).
Qed.
End status.
