(* ===== verification/Connections.v ===== *)
(** * Connections: the state of a Reader's link ([application/connection_status.rs],
    [http/connection_status.rs], [persistence/invoices.rs] and [paykit.rs])

    The route resolves an invoice to its Reader and reads the Creator's shared peer state.
    Overlapping reads of one pair share an observation through a table of weak pointers to
    cells; the last part is that table with its callers as a step system. *)

From S2P Require Import Prelude Text Api Effects Locks Invoice Receiving Payment Lifecycle Pricing Intent Readers Database OutboxStore OutboxWorker CreateInvoice PaymentRecord Crypto Observations LifecycleStore Drains Status Adapter Creators Allocation.
Local Open Scope string_scope.
Local Open Scope Z_scope.

Inductive PaykitConnectionState := Conn_None | Conn_Handshake | Conn_Connected | Conn_RecoveryRequired | Conn_Blocked.

#[global] Instance PaykitConnectionState_eq_dec : EqDecision PaykitConnectionState.
Proof. solve_decision. Defined.

Inductive ConnectionStatusError := Conn_NotFound | Conn_Busy | Conn_Unavailable.

(** [LinkedPeerState] of the SDK, with a state it may add later. *)
Inductive PeerLinkState := Peer_NotLinked | Peer_Linking | Peer_Linked | Peer_RecoveryRequired | Peer_Blocked | Peer_Unknown.

Definition projected_state (peer : option PeerLinkState) : result PaykitSdkError PaykitConnectionState :=
  match peer with
  | None | Some Peer_NotLinked => Ok Conn_None
  | Some Peer_Linking => Ok Conn_Handshake
  | Some Peer_Linked => Ok Conn_Connected
  | Some Peer_RecoveryRequired => Ok Conn_RecoveryRequired
  | Some Peer_Blocked => Ok Conn_Blocked
  | Some Peer_Unknown => Err Sdk_Storage
  end.

Definition map_state_error (error : PaykitSdkError) : ConnectionStatusError :=
  match error with Sdk_SharedStateBusy => Conn_Busy | _ => Conn_Unavailable end.

(** [CreatorSessions::connection_state]; [load] is the transaction on the shared state. *)
Definition connection_state {Peer} (from_raw_or_app_key : string → option Peer)
    (load : Peer → result PaykitSdkError (option PeerLinkState)) (reader : string) : result ConnectionStatusError PaykitConnectionState :=
  peer ← ok_or (from_raw_or_app_key reader) Conn_Unavailable;
  map_err map_state_error (state ← load peer; projected_state state).

Section binding.
Context {core : LocksCore} {lib : PaykitLib} {prim : CryptoPrimitives} (crypto : Crypto) (from_bytes : string → option DeliveryIntentV1).

(** The row of the join, by the Creator's and the bundle's hashes. *)
Definition binding_row (ac : AccountDb) (creator_hash bundle_hash : string) : option (RowId * string * string) :=
  '(id, _) ← select_one (λ id i, bool_decide (creators (ac_db ac) !! i_creator_id i = Some creator_hash)
                 && bool_decide (ld_bundles (dd_life (ac_dd ac)) !! id = Some bundle_hash)) (invoices (ac_db ac));
  x ← ac_invoices ac !! id;
  Some (id, creator_hash, ix_invoice_envelope x).

Definition connection_binding (ac : AccountDb) (creator : CreatorPubky) (bundle : BundleId) : result PersistenceError (option ReaderPubky) :=
  let creator_hash := lookup_hash crypto (creator_to_string creator) in
  let bundle_hash := lookup_hash crypto (bundle_to_string bundle) in
  match binding_row ac creator_hash bundle_hash with
  | None => Ok None
  | Some (id, hash, envelope) =>
      stored ← stored_lookup_hash hash;
      ensure (String.eqb stored creator_hash) PE_CorruptOrMissing;;
      intent ← open_invoice crypto from_bytes creator_hash id envelope;
      reader ← map_err (λ _, PE_CorruptOrMissing) (parse_reader (reader_pubky intent));
      Ok (Some reader)
  end.
End binding.

Section service.
Context {core : LocksCore}.

Definition connection_status (binding : result PersistenceError (option ReaderPubky))
    (state : ReaderPubky → result ConnectionStatusError PaykitConnectionState) : result ConnectionStatusError PaykitConnectionState :=
  found ← map_err (λ _, Conn_Unavailable) binding;
  reader ← ok_or found Conn_NotFound;
  state reader.

Definition connection_status_route (creator bundle_id : string)
    (status : CreatorPubky → BundleId → result ConnectionStatusError PaykitConnectionState) : result ApiError PaykitConnectionState :=
  creator ← map_err (λ _, Api_InvalidRequest) (parse_creator creator);
  bundle ← map_err (λ _, Api_InvalidRequest) (parse_bundle_id bundle_id);
  map_err (λ error, match error with
                    | Conn_NotFound => Api_InvoiceNotFound
                    | Conn_Busy => Api_DependencyUnavailable
                    | Conn_Unavailable => Api_InternalError
                    end) (status creator bundle).
End service.

(** ** Shared reads *)

Section shared.
Context {Key : Type} `{Countable Key} {R : Type}.

(** A [OnceCell] behind an [Arc]: when it was filled and with what, and who holds it. *)
Record Cell := mk_Cell {
  ce_key : Key;
  ce_value : option (Z * R);
  ce_holders : gset nat;
}.

Record Waiter := mk_Waiter { wa_cell : nat; wa_since : Z }.

Inductive ReadEvent :=
  | EvRead (key : Key) (at_ : Z) (r : R)
  | EvReturned (key : Key) (since at_ : Z) (r : R).

Record Sharing := mk_Sharing {
  sh_clock : Z;
  sh_pending : gmap Key nat;
  sh_cells : gmap nat Cell;
  sh_waiters : gmap nat Waiter;
  sh_log : list ReadEvent;
}.

(** [read.upgrade().is_some_and(|read| read.get().is_none())] *)
Definition in_progress (cells : gmap nat Cell) (cell : nat) : bool :=
  match cells !! cell with Some c => negb (bool_decide (ce_holders c = ∅)) && is_none (ce_value c) | None => false end.

(** The table after [retain], the cell, and whether it is new. *)
Definition pending_peer_state (s : Sharing) (key : Key) : gmap Key nat * option nat :=
  let pending := filter (λ kv, Is_true (in_progress (sh_cells s) kv.2)) (sh_pending s) in (pending, pending !! key).

Definition hold (c : Cell) (tid : nat) : Cell := mk_Cell (ce_key c) (ce_value c) ({[tid]} ∪ ce_holders c).

Definition release (c : Cell) (tid : nat) : Cell := mk_Cell (ce_key c) (ce_value c) (ce_holders c ∖ {[tid]}).

(** Any holder may run the initializer; a caller may be dropped at any time. *)
Inductive sharing_step (s : Sharing) : Sharing → Prop :=
  | sh_tick clock : sh_clock s <= clock →
      sharing_step s (mk_Sharing clock (sh_pending s) (sh_cells s) (sh_waiters s) (sh_log s))
  | sh_join tid key pending cell c : sh_waiters s !! tid = None → pending_peer_state s key = (pending, Some cell) →
      sh_cells s !! cell = Some c →
      sharing_step s (mk_Sharing (sh_clock s) pending (<[cell := hold c tid]> (sh_cells s))
        (<[tid := mk_Waiter cell (sh_clock s)]> (sh_waiters s)) (sh_log s))
  | sh_create tid key pending cell : sh_waiters s !! tid = None → pending_peer_state s key = (pending, None) →
      sh_cells s !! cell = None →
      sharing_step s (mk_Sharing (sh_clock s) (<[key := cell]> pending) (<[cell := mk_Cell key None {[tid]}]> (sh_cells s))
        (<[tid := mk_Waiter cell (sh_clock s)]> (sh_waiters s)) (sh_log s))
  | sh_read tid w c r : sh_waiters s !! tid = Some w → sh_cells s !! wa_cell w = Some c → ce_value c = None →
      sharing_step s (mk_Sharing (sh_clock s) (sh_pending s)
        (<[wa_cell w := mk_Cell (ce_key c) (Some (sh_clock s, r)) (ce_holders c)]> (sh_cells s)) (sh_waiters s)
        (EvRead (ce_key c) (sh_clock s) r :: sh_log s))
  | sh_return tid w c at_ r : sh_waiters s !! tid = Some w → sh_cells s !! wa_cell w = Some c → ce_value c = Some (at_, r) →
      sharing_step s (mk_Sharing (sh_clock s) (sh_pending s) (<[wa_cell w := release c tid]> (sh_cells s)) (delete tid (sh_waiters s))
        (EvReturned (ce_key c) (wa_since w) at_ r :: sh_log s))
  | sh_drop tid w c : sh_waiters s !! tid = Some w → sh_cells s !! wa_cell w = Some c →
      sharing_step s (mk_Sharing (sh_clock s) (sh_pending s) (<[wa_cell w := release c tid]> (sh_cells s)) (delete tid (sh_waiters s)) (sh_log s)).

Definition sharing_init : Sharing := mk_Sharing 0 ∅ ∅ ∅ [].

Definition sharing_reachable : Sharing → Prop := rtc sharing_step sharing_init.

Record sharing_inv (s : Sharing) : Prop := {
  si_waiter : ∀ tid w, sh_waiters s !! tid = Some w →
    ∃ c, sh_cells s !! wa_cell w = Some c ∧ tid ∈ ce_holders c ∧ wa_since w <= sh_clock s
      ∧ (ce_value c = None → sh_pending s !! ce_key c = Some (wa_cell w))
      ∧ (∀ at_ r, ce_value c = Some (at_, r) → wa_since w <= at_);
  si_value : ∀ cell c at_ r, sh_cells s !! cell = Some c → ce_value c = Some (at_, r) → EvRead (ce_key c) at_ r ∈ sh_log s;
  si_pending : ∀ key cell, sh_pending s !! key = Some cell → ∃ c, sh_cells s !! cell = Some c ∧ ce_key c = key;
  si_returned : ∀ key since at_ r, EvReturned key since at_ r ∈ sh_log s → since <= at_ ∧ EvRead key at_ r ∈ sh_log s;
}.

(** A caller that still waits for a value finds its cell in the table after [retain]. *)
Lemma retained_waiter s key tid w c :
  sharing_inv s → sh_waiters s !! tid = Some w → sh_cells s !! wa_cell w = Some c → ce_value c = None →
  (pending_peer_state s key).1 !! ce_key c = Some (wa_cell w).
Proof.
  intros I Hw Hc Hv. destruct (si_waiter _ I tid w Hw) as (c' & Hc' & Hin & _ & Hp & _). simplify_eq. simpl.
  apply map_lookup_filter_Some. split; [by apply Hp|]. simpl. unfold in_progress. rewrite Hc, Hv. simpl.
  rewrite bool_decide_eq_false_2; [done|]. set_solver.
Qed.

Lemma pending_key s key pending cell :
  sharing_inv s → pending_peer_state s key = (pending, Some cell) → ∃ c, sh_cells s !! cell = Some c ∧ ce_key c = key ∧ ce_value c = None.
Proof.
  intros I [= <- Hp]. apply map_lookup_filter_Some in Hp as [Hp Hin]. simpl in Hin. destruct (si_pending _ I _ _ Hp) as (c & Hc & Hk).
  exists c. split_and!; [done|done|]. unfold in_progress in Hin. rewrite Hc in Hin. apply Is_true_true in Hin.
  apply andb_true_iff in Hin as [_ Hv]. by destruct (ce_value c).
Qed.

Lemma pending_sub s key key' cell : (pending_peer_state s key).1 !! key' = Some cell → sh_pending s !! key' = Some cell.
Proof. by intros [? _]%map_lookup_filter_Some. Qed.

(** A cell keeps its key. *)
Lemma cells_keyed (pending : gmap Key nat) (cells : gmap nat Cell) cell c c' :
  (∀ key k, pending !! key = Some k → ∃ d, cells !! k = Some d ∧ ce_key d = key) → cells !! cell = Some c → ce_key c' = ce_key c →
  ∀ key k, pending !! key = Some k → ∃ d, <[cell := c']> cells !! k = Some d ∧ ce_key d = key.
Proof.
  intros Hall Hc Hk key k Hp. destruct (Hall key k Hp) as (d & Hd & Hkey). destruct (decide (k = cell)) as [->|Hne].
  - exists c'. rewrite lookup_insert_eq. split; [done|]. congruence.
  - exists d. by rewrite lookup_insert_ne.
Qed.

(** The callers that stay when one releases its cell. *)
Lemma released_waiter s tid w c :
  sharing_inv s → sh_waiters s !! tid = Some w → sh_cells s !! wa_cell w = Some c →
  ∀ k w', delete tid (sh_waiters s) !! k = Some w' →
  ∃ d, <[wa_cell w := release c tid]> (sh_cells s) !! wa_cell w' = Some d ∧ k ∈ ce_holders d ∧ wa_since w' <= sh_clock s
    ∧ (ce_value d = None → sh_pending s !! ce_key d = Some (wa_cell w'))
    ∧ (∀ at_ r, ce_value d = Some (at_, r) → wa_since w' <= at_).
Proof.
  intros I Hw Hc k w' [Hne Hw']%lookup_delete_Some. destruct (si_waiter _ I k w' Hw') as (cw & Hcw & Hin & Hsince & Hpend & Hval).
  destruct (decide (wa_cell w' = wa_cell w)) as [E|E].
  - rewrite E in *. rewrite Hc in Hcw. injection Hcw as <-. exists (release c tid). rewrite lookup_insert_eq. split_and!; try done. set_solver.
  - exists cw. rewrite lookup_insert_ne by done. done.
Qed.

Lemma sharing_inv_step s s' : sharing_inv s → sharing_step s s' → sharing_inv s'.
Proof.
  intros I Hs. pose proof I as [I1 I2 I3 I4].
  destruct Hs as [clock Hle|tid key pending cell c Hn Hp Hc|tid key pending cell Hn Hp Hc|tid w c r Hw Hc Hv|tid w c at_ r Hw Hc Hv|tid w c Hw Hc].
  - split; simpl; try done. intros tid w Hw. destruct (I1 tid w Hw) as (c & ? & ? & ? & ? & ?). exists c. split_and!; try done. lia.
  - pose proof (f_equal fst Hp) as Ep. simpl in Ep. pose proof (f_equal snd Hp) as Hpk. simpl in Hpk. rewrite Ep in Hpk.
    destruct (pending_key _ _ _ _ I Hp) as (c0 & Hc0 & Hk & Hv). rewrite Hc in Hc0. injection Hc0 as <-. split; simpl.
    + intros k w [[<- <-]|[Hne Hw]]%lookup_insert_Some; simpl.
      * exists (hold c tid). rewrite lookup_insert_eq. split_and!; [done|set_solver|done| |].
        -- intros _. simpl. by rewrite Hk.
        -- intros at_ r. simpl. by rewrite Hv.
      * destruct (I1 k w Hw) as (cw & Hcw & Hin & Hsince & Hpend & Hval).
        destruct (decide (wa_cell w = cell)) as [E|E].
        -- rewrite E in *. rewrite Hc in Hcw. injection Hcw as <-. exists (hold c tid). rewrite lookup_insert_eq.
           split_and!; [done|set_solver|done| |exact Hval]. intros _. simpl. by rewrite Hk.
        -- exists cw. rewrite lookup_insert_ne by done. split_and!; try done. intros Hnone. rewrite <- Ep.
           apply (retained_waiter s key k w cw I Hw Hcw Hnone).
    + intros k cw at_ r [[<- <-]|[Hne Hcw]]%lookup_insert_Some; simpl; [by rewrite Hv|by apply (I2 k)].
    + apply (cells_keyed _ _ _ c); [|done|done]. intros key' cell' Hp'. rewrite <- Ep in Hp'. by apply (pending_sub s key), I3 in Hp'.
    + done.
  - pose proof (f_equal fst Hp) as Ep. simpl in Ep. pose proof (f_equal snd Hp) as Ep'. simpl in Ep'. split; simpl.
    + intros k w [[<- <-]|[Hne Hw]]%lookup_insert_Some; simpl.
      * eexists. rewrite lookup_insert_eq. split_and!; [done|set_solver|done| |done]. intros _. simpl. by rewrite lookup_insert_eq.
      * destruct (I1 k w Hw) as (cw & Hcw & Hin & Hsince & Hpend & Hval). exists cw.
        rewrite lookup_insert_ne by congruence. split_and!; try done. intros Hnone.
        pose proof (retained_waiter s key k w cw I Hw Hcw Hnone) as Hr. simpl in Hr.
        rewrite lookup_insert_ne; [by rewrite <- Ep|]. intros E. rewrite <- E in Hr. congruence.
    + intros k cw at_ r [[<- <-]|[Hne Hcw]]%lookup_insert_Some; [done|by apply (I2 k)].
    + intros key' cell' [[<- <-]|[Hne Hp']]%lookup_insert_Some; [eexists; by rewrite lookup_insert_eq|].
      rewrite <- Ep in Hp'. apply (pending_sub s key), I3 in Hp' as (c' & Hc' & Hk'). exists c'. rewrite lookup_insert_ne by congruence. done.
    + done.
  - split; simpl.
    + intros k w' Hw'. destruct (I1 k w' Hw') as (cw & Hcw & Hin & Hsince & Hpend & Hval).
      destruct (decide (wa_cell w' = wa_cell w)) as [E|E].
      * rewrite E in *. rewrite Hc in Hcw. injection Hcw as <-. eexists. rewrite lookup_insert_eq. split_and!; [done|done|done|done|].
        by intros at_ r' [= <- <-].
      * exists cw. rewrite lookup_insert_ne by done. done.
    + intros k cw at_ r' [[<- <-]|[Hne Hcw]]%lookup_insert_Some; simpl; [intros [= <- <-]; by left|]. intros Hv'. right. by apply (I2 k cw).
    + by apply (cells_keyed _ _ _ c).
    + intros key since at_ r' [[=]|Hin]%elem_of_cons. destruct (I4 _ _ _ _ Hin). split; [done|by right].
  - split; simpl.
    + by apply released_waiter.
    + intros k cw at' r' [[<- <-]|[Hne Hcw]]%lookup_insert_Some Hval; right; [by apply (I2 (wa_cell w) c)|by apply (I2 k cw)].
    + by apply (cells_keyed _ _ _ c).
    + intros key since at' r' [[= -> -> -> ->]|Hin]%elem_of_cons.
      * destruct (I1 tid w Hw) as (cw & Hcw & _ & _ & _ & Hval). rewrite Hc in Hcw. injection Hcw as <-. split; [by eapply Hval|].
        right. by apply (I2 (wa_cell w) c).
      * destruct (I4 _ _ _ _ Hin). split; [done|by right].
  - split; simpl; try done.
    + by apply released_waiter.
    + intros k cw at' r' [[<- <-]|[Hne Hcw]]%lookup_insert_Some Hval; [by apply (I2 (wa_cell w) c)|by apply (I2 k cw)].
    + by apply (cells_keyed _ _ _ c).
Qed.

Lemma sharing_reachable_inv s : sharing_reachable s → sharing_inv s.
Proof.
  intros Hr. assert (sharing_inv sharing_init) as I0.
  { split; simpl; intros *; try by rewrite lookup_empty. by intros ?%not_elem_of_nil. }
  revert I0. induction Hr as [|s s1 s2 Hs _ IH]; [done|]. intros I0. apply IH. by eapply sharing_inv_step.
Qed.

(** Shared reads are fresh and single.  In every interleaving of callers, reads and dropped
    requests, what a caller is told was read of its own pair, and the read completed after the
    caller had arrived: a completed result is never reused.  And two callers of one pair that
    still wait for a value wait for the same one. *)
Theorem shared_reads_fresh s :
  sharing_reachable s →
  (∀ key since at_ r, EvReturned key since at_ r ∈ sh_log s → since <= at_ ∧ EvRead key at_ r ∈ sh_log s)
  ∧ ∀ tid tid' w w' c c', sh_waiters s !! tid = Some w → sh_waiters s !! tid' = Some w' →
      sh_cells s !! wa_cell w = Some c → sh_cells s !! wa_cell w' = Some c' → ce_key c = ce_key c' →
      ce_value c = None → ce_value c' = None → wa_cell w = wa_cell w'.
Proof.
  intros I%sharing_reachable_inv. split; [apply I|]. intros tid tid' w w' c c' Hw Hw' Hc Hc' Hk Hv Hv'.
  destruct (si_waiter _ I tid w Hw) as (d & Hd & _ & _ & Hp & _). destruct (si_waiter _ I tid' w' Hw') as (d' & Hd' & _ & _ & Hp' & _).
  rewrite Hc in Hd. injection Hd as <-. rewrite Hc' in Hd'. injection Hd' as <-. specialize (Hp Hv). specialize (Hp' Hv'). congruence.
Qed.
End shared.
